(* ===== verification/_CoqProject ===== *)
-Q . S2P
Prelude.v
BerEncoder.v
BerDecoder.v
BerSafety.v
BerRoundtrip.v
BerTheorems.v
LdapMessage.v
LdapRequests.v
LdapSearch.v
LdapResult.v
LdapTheorems.v
GoBinary.v
RaftCodec.v
RaftLog.v
RaftNode.v
RaftElection.v
RaftReplication.v
RaftRace.v
RaftTheorems.v
GoStrings.v
Acl.v
AclTheorems.v
FilterEval.v
FilterSemantics.v
Search.v
SearchTheorems.v
Mvcc.v
MvccSim.v
MvccLoops.v
MvccTheorems.v
Page.v
PageStore.v
PageReopen.v
PageTheorems.v
Wal.v
WalLog.v
WalTheorems.v
Recovery.v
RecoverySteps.v
RecoveryTheorems.v
Buffer.v
BufferPool.v
BufferTheorems.v
Checkpoint.v
BTree.v
BTreeOps.v
BTreeIter.v
BTreeDelete.v
BTreeCodec.v
BTreeShape.v
BTreeInsert.v
BTreeRead.v
BTreeScan.v
BTreeTheorems.v
CacheFile.v
Ngram.v
Index.v
IndexTheorems.v
RadixNode.v
RadixPage.v
RadixTree.v
RadixShape.v
RadixOps.v
RadixWalk.v
RadixPersist.v
RadixMap.v
RadixDN.v
RadixCache.v
RadixTheorems.v
EntryCodec.v
Engine.v
EngineSim.v
EngineRead.v
EngineWrite.v
EngineTheorems.v
Stream.v
GoCrypto.v
Password.v
Auth.v
AuthTheorems.v
