(* ===== verification/Prelude.v ===== *)
(** * Oba: a verification development for the Oba LDAP server

    Oba is an LDAP server in Go with its own storage engine and Raft replication.
    A connection reads BER bytes from a socket, [ParseLDAPMessage] takes the envelope
    apart, a parser per operation produces the request, the backend runs it, and
    response encoders turn the result into bytes again. Searches go through filters
    and access control. The storage engine keeps pages in a file, with a write-ahead
    log, crash recovery, a buffer pool and checkpoints; a radix tree finds entries by
    name, B+ trees by attribute, and a version store gives transactions snapshots. In
    a cluster the writes become commands of a replicated log: a leader appends them,
    sends them to its peers, commits them by majority, and every node applies them to
    its state machine in log order.

    ** Conventions

    Go integers are [Z] with the conversions of their width written out ([u8],
    [uint16], [uint32], [uint64], [int64]); byte slices and strings are lists of
    bytes, so a nil slice and an empty one are the same. A Go function that can fail
    returns an [outcome]: [Ok], [Err] with the error value, [Panic] for an index or
    slice out of range or a nil dereference, [Diverge] for exhausted fuel. Stateful
    code runs in the state monad [M] over [outcome]: encoders over the buffer,
    decoders over data and offset, log readers over the unread bytes, the storage
    components over their records. Where the theorems say that a function returns,
    they exclude [Panic] and [Diverge]. Objects that are shared (versions, nodes of
    the radix tree) live in an explicit heap. Files are byte sequences; I/O errors of
    the file system are not modelled, except that a disk can be full: a write reaches
    the file whole, and what a crash may leave of the last ones is the subject of
    theorems of its own. What the source leaves open is a parameter with the laws it
    documents: the order in which Go visits a map ([MapIteration]), letter case and the classes of runes
    beyond ASCII and Latin-1 ([UnicodeTables], [UpperTable], [UnicodeClasses]), the cipher of the log, the replicated state machine
    ([StateMachine]), the storage engine behind a search ([Backend]).

    ** Files

    - Prelude.v: Go integers, bytes, outcomes, the monad with its loops, and the
      lemmas and tactics on lengths that everything else uses. GoBinary.v: little
      endian integers, CRC-32 and files. GoStrings.v: the string functions of Go.
    - BerEncoder.v, BerDecoder.v: src/internal/ber/encoder.go and decoder.go, method
      by method, with reference definitions of the encodings ([tlv], [tag_bytes],
      [length_bytes]). BerSafety.v: a weakest-precondition calculus for the decoder
      and its total correctness. BerRoundtrip.v: the calculus [decodes], which
      composes round trips. BerTheorems.v: the properties.
    - LdapMessage.v, LdapRequests.v, LdapSearch.v, LdapResult.v: src/internal/ldap,
      one section per source file, and in LdapResult.v the response builders of
      src/internal/server/connection.go. The class [Codec] states what a request
      type promises to the envelope; its instances discharge it, and the end-to-end
      theorem is proved against the class. LdapTheorems.v: the properties.
    - RaftCodec.v: the wire formats of src/internal/raft/rpc.go and log.go.
      RaftLog.v: the log of log.go with its file. RaftNode.v: state.go, node.go and
      apply_result.go. RaftElection.v: clusters as a step relation, the invariant of
      elections, and executable schedules. RaftReplication.v: the leader and
      follower sides of AppendEntries against each other over the wire, commitment, and
      the apply loop against [replay]. RaftRace.v: the vote handler one lock acquisition at a
      time. RaftTheorems.v: the properties.
    - Acl.v: src/internal/acl (rules, matcher, evaluator, manager), the ACL part of
      the replicated state machine, and the handlers of src/internal/rest/acl_handlers.go
      that change rules; AclTheorems.v: the properties.
    - FilterEval.v: src/internal/filter (types, matching rules, evaluator);
      FilterSemantics.v: filters as predicates on entries. Search.v: the search
      handlers of src/internal/server, ObaBackend.Search and the handler installed by
      src/cmd/oba/serve.go; SearchTheorems.v: the properties.
    - Storage, src/internal/storage. Mvcc.v: versions, version store, entry cache and
      transactions, with MvccSim.v (simulation by a history of committed writes) and
      MvccLoops.v (its loops). Page.v: page and file headers, the free list, the page
      manager, with PageStore.v (the manager as a finite map of pages, [Rep]) and
      PageReopen.v (closing and opening). Wal.v: the write-ahead log, with WalLog.v.
      Recovery.v: crash recovery, with RecoverySteps.v
      (pages under updates, and its phases). Buffer.v: LRU list and buffer pool, with
      BufferPool.v. Each has its properties in a file named after it,
      PageTheorems.v and so on. Checkpoint.v: checkpoints and their properties.
    - BTree.v (nodes), BTreeOps.v (tree and insertion), BTreeIter.v (searches and
      iterators), BTreeDelete.v (deletion): src/internal/storage/btree. BTreeCodec.v:
      the node layout, and nodes in pages; BTreeShape.v: the shape of a
      tree and its entries; BTreeInsert.v, BTreeRead.v, BTreeScan.v: insertion,
      searches and scans on that shape; BTreeTheorems.v: the properties.
    - RadixNode.v (names, nodes), RadixPage.v (the page of the tree), RadixTree.v
      (operations and iterators), RadixCache.v (the cache file):
      src/internal/storage/radix; CacheFile.v: src/internal/storage/cache.
      RadixShape.v: the nodes of a tree against a directory; RadixOps.v, RadixWalk.v,
      RadixPersist.v, RadixMap.v: changes, walks, the page, and all operations on that
      shape; RadixDN.v: plain names; RadixTheorems.v: the properties.
    - Ngram.v: the n-grams, the substring index and the wildcard matcher of
      src/internal/storage/index, and their properties; Index.v: the index manager with its
      metadata page and its cache file; IndexTheorems.v: the properties.
    - EntryCodec.v: the bytes of an entry, and their round trip. Engine.v: the engine of
      src/internal/storage/engine/obadb.go with the transaction manager of
      src/internal/storage/tx/manager.go; it joins log, version store, radix tree and
      indexes in the record [ObaDB]. EngineSim.v: what it needs of the components, the
      relation [serves] to a map of entries, and reads; EngineRead.v: iterators, searches
      and the uid check; EngineWrite.v: Put, Delete, Begin, Commit and Rollback;
      EngineTheorems.v: the properties, also of the search handler over the engine.
    - Stream.v: the change streams (internal/storage/stream) with the replay buffer, watch
      filters, subscribers and the broker, and what they guarantee.
    - GoCrypto.v: base64, SHA-2 and UTF-8 of the Go library, executable. Password.v:
      src/internal/password. Auth.v: src/internal/server/auth.go, bind.go and passwd.go, the
      lockouts and Bind of src/internal/backend/backend.go, and the bind handler that
      src/cmd/oba/serve.go installs. AuthTheorems.v: the properties.

    ** What the theorems show

    - BER: integers, enumerated values and lengths survive the wire, integers in the
      fewest octets; the container brackets are equivalent to writing tag, length and
      content in order; no input makes the decoder panic or loop.
    - LDAP: messages, controls and all requests are parsed back as they were
      encoded; the search parser refines an abstract syntax of filters; the parsers
      are total, and what the search parser accepts is a well-typed request; the
      connection's responses agree with the package's encoders.
    - Raft, what holds: election safety for all message faults, orders of steps and
      restarts, when every handler of a node is one step and no candidate acts on a
      stale vote reply; the vote contract from bytes to bytes; convergence of
      replication over the wire to a follower whose gap fits into one request; the
      commit rule; the apply loop against a reference; the log file as the record of
      what was appended, for entries up to 10 MB; all wire formats.
    - Raft, what does not: two leaders in one term by a stale reply, a double vote by
      two connections whose handlers interleave, a follower more than 10000 entries
      behind that never catches up, larger entries that end the loading of the log,
      truncations undone by a restart, a log that a torn frame makes unloadable, long
      strings, and snapshots that strand a follower.
    - Access control: the first rule that applies decides; what the scopes of a rule
      match; changes of rules through the REST interface have in a cluster the effect
      they have on a standalone server, if the rule names its scope.
    - Search: over the engine, after any serial transactions, the installed handler
      returns the committed entries of the subtree that satisfy the filter, from the
      bytes of the request on, for ASCII text; the handler of the server package
      respects limits and access control, says why it stopped, and shows nobody what
      the rules forbid. A filter that stops the server, and scopes that disagree, are
      shown as well.
    - Version store: any history of its operations answers as a store of committed
      writes with one pending writer per entry, until storage is missing for a second
      write of an entry; the entry cache keeps its invariant.
    - Pages: the page manager is a finite map of pages across restarts; what a crash
      does to the free list. Log: what is read back after appends, syncs and crashes,
      for records that fit its buffer. Recovery: every page ends up with the updates of
      the transactions that finished, the committed ones alone if no aborted one logged
      updates; running it twice does not. Buffer pool: the map of pages behind it,
      within its capacity. Checkpoints that nothing interrupts: everything is on disk;
      truncating the log at one loses updates.
    - B+ tree: a sorted map for distinct short keys, through all splits and restarts;
      duplicate keys get lost, deletions fail, and a split that fails for long keys
      loses entries, on concrete trees.
    - Radix tree: a map from names to locations for all operations, walks and
      iterators; the normal form of names; the cache file gives back the tree that
      was saved; what does not fit on its page is not on disk.
    - Indexes: the n-grams of a value that matches a pattern include those the search
      looks up, except for parts shorter than an n-gram; old entries are never removed
      from the indexes, and a reopened index loses entries.
    - Engine: run by one transaction at a time it is a map from names to attributes, for
      reads, writes, searches, commits, and rollbacks of transactions that only change
      existing entries. With several transactions, other rollbacks, other spellings of a
      name, or a restart it is not: what goes wrong is shown on concrete runs.

    - Change streams: every subscriber gets the events of its filter that it is owed in
      order, and all of them unless it falls behind by more than its channel holds; what a
      resumption is owed, and that it loses what is published between its two halves.
    - Authentication: hashed passwords verify what they were made of; the bind handler,
      its two locked parts interleaved in any way, locks a name as the records of its
      failures say, which bounds the rate of guesses per name when requests do not
      overlap, and not when they do; passwords are changed only by those entitled to it
      and within the rules of the policy. What other spellings of a name, a change of the
      settings and generated passwords do against this is shown on concrete runs.

    ** Bounds and fuel

    - The encoder's loops shift a 64-bit word until it is 0: [shift_fuel] = 64 is
      more than the ten iterations of seven bits. The decoder's loops consume a byte
      per iteration: the length of the data bounds them ([loop_fuel]), and so does the
      nesting of filters ([filter_fuel]). [read_frames] consumes four bytes per frame.
      Loops over the log file consume at least a length field per record.
    - Walks along pointers are bounded by the number of objects: the heap for version
      chains and for the radix tree (twice the heap for its iterator, which pushes and
      pops every node), the number of pages for free lists, B+ tree descents and leaf
      chains, and the entries that fit on all pages for B+ tree iterators. In each
      case a theorem shows that [Diverge] does not occur.
    - Round trips ask for contents below 2^32 bytes (2^31 for responses), the limit
      of the decoder's length check; integers are at their Go width.
    - Clusters: any finite set of members, any number of steps; the term stays below
      2^64 by a premise of the timeout step. Replication: at most 10000 entries after
      the first in a request of 64 MB, the limits of rpc.go and transport.go. Log file:
      entries of at most 10 MB, the limit of its reader.
    - Write-ahead log: records of at most 64 KB less the length field, its buffer.
    - Storage: a disk below 2^62 pages, fewer than 2^63 pins of a page, B+ tree keys
      of at most 128 bytes and entries of at most 160 (so that both halves of a split
      fit on a page; the code admits keys of 1024 bytes), fewer than 2^32
      entries in the radix tree, and for its cache file what the integers of the
      format hold: components and children up to 65535. Engine: fewer than 2^31 commands, so that identifiers, timestamps and
      counts stay below 2^32, and attributes whose lengths fit the fields of the codec;
      its iterators return each node of the radix tree at most once, which bounds them.

    ** Not modelled

    Network and TLS, the REST API (but for its access control handlers), the command
    line, the web console, configuration and logging are I/O or glue. Timers fire at any
    time. Of the node, the start and stop of goroutines and the channels are left out: a
    handler is one step, except in RaftRace.v, although the code locks several times in a
    handler. Storage components are used under their locks, one operation at a time; a
    checkpoint runs without writers between its steps. Of the engine, Close, Checkpoint,
    Compact, the cache files, which Open would load, the preloading of entries after it
    and the collector thread are left out; the entries of the indexes are not related to
    the database, since searches do not use them. Change streams: a broker operation is one
    step, except for the two halves of a resumption; binding: the check of a lockout and
    the recording of the result are two steps. The write operations of the
    backend, schema, the filter string parser, backup, and the Raft snapshots and LDAP
    state machine have no model yet. *)

From Stdlib Require Export ZArith Lia.
From Stdlib.Strings Require Export Byte String.
From stdpp Require Export base numbers list gmap strings.

#[export] Set Default Goal Selector "!".
Global Open Scope Z_scope.

(** ** Go integers and bytes *)

Declare Scope go_scope.
Delimit Scope go_scope with go.

(** Go's [byte(x)] conversion: the low eight bits. *)
Definition u8 (z : Z) : byte :=
  match Byte.of_N (Z.to_N (z mod 256)) with Some b => b | None => x00 end.

(** Go's [int(b)] conversion of a byte. *)
Definition bZ (b : byte) : Z := Z.of_N (Byte.to_N b).

(** Conversions to the fixed-width integer types (two's complement). *)
Definition int64 (z : Z) : Z := (z + 2 ^ 63) mod 2 ^ 64 - 2 ^ 63.
Definition int32 (z : Z) : Z := (z + 2 ^ 31) mod 2 ^ 32 - 2 ^ 31.
Definition uint64 (z : Z) : Z := z mod 2 ^ 64.
Definition uint32 (z : Z) : Z := z mod 2 ^ 32.
Definition uint16 (z : Z) : Z := z mod 2 ^ 16.

Definition is_int64 (z : Z) : Prop := - 2 ^ 63 <= z < 2 ^ 63.
Definition is_uint64 (z : Z) : Prop := 0 <= z < 2 ^ 64.
Definition is_uint32 (z : Z) : Prop := 0 <= z < 2 ^ 32.
Definition is_uint16 (z : Z) : Prop := 0 <= z < 2 ^ 16.

(** Go strings and byte slices are byte sequences; a [nil] slice and an empty
    one have the same length and contents. *)
Abbreviation bytes := (list byte).
Abbreviation gostring := (list byte).

(** Lengths as Go [int]s. *)
Definition len {A} (l : list A) : Z := Z.of_nat (length l).

(** A string literal of the source. *)
Definition str (s : string) : gostring := String.list_byte_of_string s.

#[export] Instance byte_eq_decision : EqDecision byte := Byte.byte_eq_dec.

#[export] Instance byte_countable : Countable byte.
Proof. apply (inj_countable Byte.to_N Byte.of_N). intros b. apply Byte.of_to_N. Defined.

Definition byte_eqb (a b : byte) : bool := bool_decide (a = b).
Definition bytes_eqb (a b : bytes) : bool := bool_decide (a = b).

Lemma bZ_range b : 0 <= bZ b < 256.
Proof. unfold bZ. pose proof (Byte.to_N_bounded b). lia. Qed.

Lemma u8_bZ b : u8 (bZ b) = b.
Proof.
  unfold u8. rewrite Z.mod_small by apply bZ_range.
  unfold bZ. by rewrite N2Z.id, Byte.of_to_N.
Qed.

Lemma bZ_u8 z : bZ (u8 z) = z mod 256.
Proof.
  unfold u8. pose proof (Z.mod_pos_bound z 256 ltac:(lia)) as Hr.
  pose proof (Byte.to_of_N_option_map (Z.to_N (z mod 256))) as H.
  destruct (Byte.of_N _) as [b|] eqn:E; simpl in H.
  - unfold bZ. apply Byte.to_of_N in E. rewrite E. lia.
  - destruct (N.leb_spec (Z.to_N (z mod 256)) 255); [done | lia].
Qed.

Lemma bZ_inj a b : bZ a = bZ b -> a = b.
Proof. intros H. rewrite <- (u8_bZ a), <- (u8_bZ b). by rewrite H. Qed.

Lemma u8_mod z : u8 (z mod 256) = u8 z.
Proof. apply bZ_inj. by rewrite !bZ_u8, Z.mod_mod by lia. Qed.

Lemma bZ_u8_small z : 0 <= z < 256 -> bZ (u8 z) = z.
Proof. intros. rewrite bZ_u8. by apply Z.mod_small. Qed.

Lemma int64_id z : is_int64 z -> int64 z = z.
Proof. unfold is_int64, int64. intros. rewrite Z.mod_small; lia. Qed.

Lemma int64_range z : is_int64 (int64 z).
Proof.
  unfold is_int64, int64.
  pose proof (Z.mod_pos_bound (z + 2 ^ 63) (2 ^ 64) ltac:(lia)). lia.
Qed.

Lemma uint64_id z : is_uint64 z -> uint64 z = z.
Proof. apply Z.mod_small. Qed.

Lemma uint64_range z : is_uint64 (uint64 z).
Proof. apply Z.mod_pos_bound. lia. Qed.

Lemma len_nil {A} : len (@nil A) = 0.
Proof. done. Qed.

Lemma len_cons {A} (x : A) l : len (x :: l) = 1 + len l.
Proof. unfold len. simpl length. lia. Qed.

Lemma len_app {A} (l k : list A) : len (l ++ k) = len l + len k.
Proof. unfold len. rewrite length_app. lia. Qed.

Lemma len_nonneg {A} (l : list A) : 0 <= len l.
Proof. unfold len. lia. Qed.

Lemma len_zero_nil {A} (l : list A) : len l = 0 -> l = [].
Proof. destruct l; [done |]. rewrite len_cons. pose proof (len_nonneg l). lia. Qed.

Create Rewrite HintDb len.
#[export] Hint Rewrite @len_nil @len_cons @len_app : len.

(** [lens] normalises lengths; [len_lia] closes arithmetic goals about them. *)
Ltac lens := autorewrite with len in *.
Ltac len_pose l :=
  lazymatch goal with
  | _ : 0 <= len l |- _ => fail
  | _ => pose proof (len_nonneg l)
  end.
Ltac len_lia :=
  lens;
  repeat match goal with
         | H : context [len ?l] |- _ => len_pose l
         | |- context [len ?l] => len_pose l
         end; lia.

(** ** Errors and outcomes *)

(** Go [error] values: a package-level [errors.New] value is named after its
    variable; the structured errors keep their fields; [WrapError] is
    [fmt.Errorf] with its [%w]; [ErrNil] is a [nil] wrapped error. *)
Inductive goerror : Type :=
| ErrNil
| ErrConst (name : string)
| DecodeError (Offset : Z) (Message : string) (Wrapped : goerror)
| TagMismatchError (Offset ExpectedClass ExpectedNumber : Z)
    (ActualClass ActualNumber ActualConstructed : Z)
| ParseError (Offset : Z) (Message : string) (Wrapped : goerror)
| WrapError (Format : string) (Wrapped : goerror).

#[export] Instance goerror_eq_decision : EqDecision goerror.
Proof. solve_decision. Defined.

(** The result of running a Go function: a value, an error value, a run-time
    panic (an index or slice bound out of range), or a loop still running when
    the fuel of its model is used up. *)
Inductive outcome (A : Type) : Type :=
| Ok (a : A)
| Err (e : goerror)
| Panic
| Diverge.
Arguments Ok {A} a.
Arguments Err {A} e.
Arguments Panic {A}.
Arguments Diverge {A}.

(** A function returned normally: with a value or with an error. *)
Definition returns {A} (r : outcome A) : Prop :=
  match r with Ok _ | Err _ => True | _ => False end.

#[export] Instance outcome_ret : MRet outcome := fun A a => Ok a.
#[export] Instance outcome_bind : MBind outcome := fun A B f m =>
  match m with Ok a => f a | Err e => Err e | Panic => Panic | Diverge => Diverge end.

(** ** Stateful fallible code

    [M S A] is a method on a mutable receiver of type [S]. The receiver's state
    is kept when the method fails, as the mutations done before the failure are. *)
Definition M (S A : Type) : Type := S -> outcome A * S.

#[export] Instance M_ret {S} : MRet (M S) := fun A a s => (Ok a, s).
#[export] Instance M_bind {S} : MBind (M S) := fun A B f m s =>
  match m s with
  | (Ok a, s') => f a s'
  | (Err e, s') => (Err e, s')
  | (Panic, s') => (Panic, s')
  | (Diverge, s') => (Diverge, s')
  end.

Definition fail {S A} (e : goerror) : M S A := fun s => (Err e, s).
Definition panic {S A} : M S A := fun s => (Panic, s).
Definition diverge {S A} : M S A := fun s => (Diverge, s).
Definition gets {S A} (f : S -> A) : M S A := fun s => (Ok (f s), s).
Definition modify {S} (f : S -> S) : M S unit := fun s => (Ok tt, f s).

(** [if err != nil { return wrap(err) }], the wrapper reading the state. *)
Definition wrap_err {S A} (w : S -> goerror -> goerror) (m : M S A) : M S A := fun s =>
  match m s with
  | (Err e, s') => (Err (w s' e), s')
  | r => r
  end.

(** [v, err := m]: the error is handed to the continuation. *)
Definition try {S A} (m : M S A) : M S (A + goerror) := fun s =>
  match m s with
  | (Ok a, s') => (Ok (inl a), s')
  | (Err e, s') => (Ok (inr e), s')
  | (Panic, s') => (Panic, s')
  | (Diverge, s') => (Diverge, s')
  end.

(** A computation on another receiver (a sub-decoder, a second encoder). *)
Definition on {S T A} (t : T) (m : M T A) : M S (A * T) := fun s =>
  match m t with
  | (Ok a, t') => (Ok (a, t'), s)
  | (Err e, _) => (Err e, s)
  | (Panic, _) => (Panic, s)
  | (Diverge, _) => (Diverge, s)
  end.

(** [for cond { acc = body(acc) }], with fuel for the number of iterations. *)
Fixpoint while {S A} (fuel : nat) (cond : A -> S -> bool) (body : A -> M S A) (acc : A) : M S A :=
  fun s =>
    if cond acc s then
      match fuel with
      | O => (Diverge, s)
      | Datatypes.S n => (acc' ← body acc; while n cond body acc') s
      end
    else (Ok acc, s).

(** The indices of [for i := n-1; i >= 0; i--]. *)
Fixpoint down (n : nat) : list nat :=
  match n with O => [] | Datatypes.S k => k :: down k end.

(** The index expression [l[i]]. *)
Definition index {S A} (l : list A) (i : Z) : M S A :=
  if decide (0 <= i) then
    match l !! Z.to_nat i with Some x => mret x | None => panic end
  else panic.

(** The slice expression [l[lo:hi]]. *)
Definition slice {S A} (l : list A) (lo hi : Z) : M S (list A) :=
  if decide (0 <= lo <= hi /\ hi <= len l) then
    mret (take (Z.to_nat (hi - lo)) (drop (Z.to_nat lo) l))
  else panic.

(** [for _, x := range l { body(x) }]. *)
Fixpoint for_each {S A} (l : list A) (body : A -> M S unit) : M S unit :=
  match l with
  | [] => mret tt
  | x :: k => body x ;; for_each k body
  end.

Lemma bind_run {S A B} (f : A -> M S B) (m : M S A) s :
  (x ← m; f x) s =
  match m s with
  | (Ok a, s') => f a s'
  | (Err e, s') => (Err e, s')
  | (Panic, s') => (Panic, s')
  | (Diverge, s') => (Diverge, s')
  end.
Proof. done. Qed.

Lemma bind_ok {S A B} (f : A -> M S B) (m : M S A) s s' a :
  m s = (Ok a, s') -> (x ← m; f x) s = f a s'.
Proof. intros H. by rewrite bind_run, H. Qed.

Lemma bind_err {S A B} (f : A -> M S B) (m : M S A) s s' e :
  m s = (Err e, s') -> (x ← m; f x) s = (Err e, s').
Proof. intros H. by rewrite bind_run, H. Qed.

Lemma bind_Ok_inv {S A B} (f : A -> M S B) (m : M S A) s b s'' :
  (x ← m; f x) s = (Ok b, s'') -> exists a s', m s = (Ok a, s') /\ f a s' = (Ok b, s'').
Proof. rewrite bind_run. destruct (m s) as [[] ?]; naive_solver. Qed.

(** [for i := 0; i < n; i++ { acc = body(acc) }]. *)
Fixpoint iterate {S A} (n : nat) (body : A -> M S A) (acc : A) : M S A :=
  match n with
  | O => mret acc
  | Datatypes.S k => acc' ← body acc; iterate k body acc'
  end.

Lemma while_stop {S A} fuel cond (body : A -> M S A) acc s :
  cond acc s = false -> while fuel cond body acc s = (Ok acc, s).
Proof. intros H. destruct fuel; simpl; by rewrite H. Qed.

Lemma while_step {S A} fuel cond (body : A -> M S A) acc s :
  cond acc s = true ->
  while (Datatypes.S fuel) cond body acc s = (acc' ← body acc; while fuel cond body acc') s.
Proof. intros H. simpl. by rewrite H. Qed.

Lemma index_app {S A} (pre post : list A) x s :
  index (S := S) (pre ++ x :: post) (len pre) s = (Ok x, s).
Proof.
  unfold index. rewrite decide_True by apply len_nonneg. unfold len.
  by rewrite Nat2Z.id, list_lookup_middle.
Qed.

Lemma slice_app {S A} (pre mid post : list A) s :
  slice (S := S) (pre ++ mid ++ post) (len pre) (len pre + len mid) s = (Ok mid, s).
Proof.
  unfold slice. rewrite decide_True by len_lia.
  replace (Z.to_nat (len pre)) with (length pre) by (unfold len; lia).
  rewrite drop_app_length.
  replace (Z.to_nat (len pre + len mid - len pre)) with (length mid) by (unfold len; lia).
  by rewrite take_app_length.
Qed.

(** Lists built by appending. *)
Lemma foldl_map_snoc {A X} (val : X -> A) xs acc :
  foldl (fun l x => l ++ [val x]) acc xs = acc ++ (val <$> xs).
Proof.
  revert acc. induction xs as [|x xs IH]; intros acc; simpl; [by rewrite app_nil_r |].
  by rewrite IH, <- app_assoc.
Qed.

Lemma foldl_snoc {A} (xs acc : list A) : foldl (fun l x => l ++ [x]) acc xs = acc ++ xs.
Proof. rewrite (foldl_map_snoc (fun x => x)). by rewrite list_fmap_id. Qed.

Lemma prefix_of_lookup {A} (l k : list A) :
  (forall j x, l !! j = Some x -> k !! j = Some x) -> l `prefix_of` k.
Proof.
  revert k. induction l as [|x l IH]; intros k H; [apply prefix_nil |].
  destruct k as [|y k]; [by specialize (H 0%nat x eq_refl) |].
  specialize (H 0%nat x eq_refl) as Hx. injection Hx as ->.
  apply prefix_cons, IH. intros j z Hz. by apply (H (S j)).
Qed.

(** ** Positional encodings *)

Lemma land_shiftl_small a b w :
  0 <= w -> 0 <= b < 2 ^ w -> Z.land (Z.shiftl a w) b = 0.
Proof.
  intros Hw Hb. apply Z.bits_inj'. intros n Hn. rewrite Z.land_spec, Z.bits_0.
  destruct (Z.ltb_spec n w).
  - by rewrite Z.shiftl_spec_low.
  - rewrite <- (Z.mod_small b (2 ^ w)) by done.
    by rewrite Z.mod_pow2_bits_high, andb_false_r by lia.
Qed.

Lemma lor_shiftl_add a b w :
  0 <= w -> 0 <= b < 2 ^ w -> Z.lor (Z.shiftl a w) b = a * 2 ^ w + b.
Proof.
  intros Hw Hb. rewrite <- (Z.shiftl_mul_pow2 a w) by lia.
  rewrite Z.add_nocarry_lxor by by apply land_shiftl_small.
  symmetry. apply Z.lxor_lor. by apply land_shiftl_small.
Qed.

Lemma shiftr_split v w j :
  0 <= w -> 0 <= j ->
  Z.shiftr v j = Z.shiftr v (w + j) * 2 ^ w + Z.shiftr v j mod 2 ^ w.
Proof.
  intros. rewrite !Z.shiftr_div_pow2 by lia.
  rewrite (Z.add_comm w j), Z.pow_add_r, <- Z.div_div by lia.
  rewrite (Z.div_mod (v / 2 ^ j) (2 ^ w)) at 1 by lia. lia.
Qed.

(** The [k] low bytes of [v], most significant first. *)
Fixpoint be_bytes (k : nat) (v : Z) : bytes :=
  match k with
  | O => []
  | Datatypes.S j => u8 (Z.shiftr v (Z.of_nat j * 8)) :: be_bytes j v
  end.

Lemma len_be_bytes k v : len (be_bytes k v) = Z.of_nat k.
Proof. induction k; simpl; [done | len_lia]. Qed.
#[export] Hint Rewrite len_be_bytes : len.
