(* ===== verification/BerEncoder.v ===== *)
(** * The BER encoder (src/internal/ber/encoder.go, types.go)

    [BEREncoder] has one field, the output buffer, so a method of it is a
    computation of [M BEREncoder]. The file ends with what each writer appends
    to the buffer. *)

From S2P Require Import Prelude.

Abbreviation BEREncoder := bytes.
Abbreviation Enc := (M BEREncoder).

(** ** Constants (types.go) *)

Definition ClassUniversal : Z := 0x00.
Definition ClassApplication : Z := 0x40.
Definition ClassContextSpecific : Z := 0x80.
Definition ClassPrivate : Z := 0xC0.
Definition TypePrimitive : Z := 0x00.
Definition TypeConstructed : Z := 0x20.
Definition TagBoolean : Z := 0x01.
Definition TagInteger : Z := 0x02.
Definition TagOctetString : Z := 0x04.
Definition TagNull : Z := 0x05.
Definition TagEnumerated : Z := 0x0A.
Definition TagSequence : Z := 0x10.
Definition TagSet : Z := 0x11.
Definition LengthLongFormBit : Z := 0x80.
Definition MaxShortFormLength : Z := 127.

Definition ErrInvalidTagClass : goerror := ErrConst "ErrInvalidTagClass".
Definition ErrInvalidTagNumber : goerror := ErrConst "ErrInvalidTagNumber".
Definition ErrLengthOverflow : goerror := ErrConst "ErrLengthOverflow".
Definition ErrNegativeLength : goerror := ErrConst "ErrNegativeLength".

(** ** Operations *)

(** [append(e.buf, bs...)], also [WriteRaw]. *)
Definition WriteRaw (data : bytes) : Enc unit := modify (fun buf => buf ++ data).

(** The encoder's state is its buffer. *)
Definition Bytes (buf : bytes) : bytes := buf.
Definition Len (buf : bytes) : Z := len buf.
Definition BEREncoder_Reset : Enc unit := modify (fun _ => []).

Definition byte_or (a b : byte) : byte := u8 (Z.lor (bZ a) (bZ b)).

(** The loops of the encoder shift a 64-bit [int] to the right until it is 0,
    by seven or eight bits: 64 iterations are more than any of them makes. *)
Definition shift_fuel : nat := 64.

Definition writeBase128 (value : Z) : Enc unit :=
  if decide (value = 0) then WriteRaw [u8 0]
  else
    '(bs, _) ← while shift_fuel (fun '(_, v) _ => bool_decide (v > 0))
                 (fun '(bs, v) => mret (bs ++ [u8 (Z.land v 0x7F)], Z.shiftr v 7))
                 ([], value);
    for_each (down (length bs)) (fun i =>
      b ← index bs (Z.of_nat i);
      WriteRaw [if decide (0 < i)%nat then byte_or b (u8 0x80) else b]).

Definition valid_class (class : Z) : bool :=
  bool_decide (class = ClassUniversal \/ class = ClassApplication \/
               class = ClassContextSpecific \/ class = ClassPrivate).

Definition WriteTag (class constructed number : Z) : Enc unit :=
  if negb (valid_class class) then fail ErrInvalidTagClass
  else if decide (number < 0) then fail ErrInvalidTagNumber
  else if decide (number <= 30) then
    WriteRaw [byte_or (byte_or (u8 class) (u8 constructed)) (u8 number)]
  else
    WriteRaw [byte_or (byte_or (u8 class) (u8 constructed)) (u8 0x1F)] ;;
    writeBase128 number.

Definition WriteLength (length : Z) : Enc unit :=
  if decide (length < 0) then fail ErrNegativeLength
  else if decide (length <= MaxShortFormLength) then WriteRaw [u8 length]
  else
    '(numBytes, _) ← while shift_fuel (fun '(_, temp) _ => bool_decide (temp > 0))
                       (fun '(n, temp) => mret (n + 1, Z.shiftr temp 8))
                       (0, length);
    if decide (numBytes > 127) then fail ErrLengthOverflow
    else
      WriteRaw [u8 (Z.lor LengthLongFormBit numBytes)] ;;
      for_each (down (Z.to_nat numBytes)) (fun i =>
        WriteRaw [u8 (Z.shiftr length (Z.of_nat i * 8))]).

Definition WriteBoolean (v : bool) : Enc unit :=
  WriteTag ClassUniversal TypePrimitive TagBoolean ;;
  WriteLength 1 ;;
  WriteRaw [if v then u8 0xFF else u8 0x00].

(** The bodies of the two loops of [encodeInteger]. *)
Definition encode_neg_step (uv : Z) (bs : bytes) (i : nat) : bytes :=
  let b := u8 (Z.shiftr uv (Z.of_nat i * 8)) in
  if bool_decide (len bs > 0) || negb (byte_eqb b (u8 0xFF))
     || (bool_decide (0 < i)%nat
         && bool_decide (Z.land (Z.shiftr uv ((Z.of_nat i - 1) * 8)) 0x80 = 0))
  then bs ++ [b] else bs.

Definition encode_pos_step (uv : Z) (bs : bytes) (i : nat) : bytes :=
  let b := u8 (Z.shiftr uv (Z.of_nat i * 8)) in
  if bool_decide (len bs > 0) || negb (byte_eqb b (u8 0)) then bs ++ [b] else bs.

Definition high_bit (b : byte) : bool := bool_decide (Z.land (bZ b) 0x80 <> 0).

Definition encodeInteger (v : Z) : bytes :=
  if decide (v = 0) then [u8 0]
  else
    let uv := uint64 v in
    if decide (v < 0) then
      let bs := foldl (encode_neg_step uv) [] (down 8) in
      let bs := match bs with [] => [u8 0xFF] | _ => bs end in
      match bs with
      | b0 :: _ => if high_bit b0 then bs else u8 0xFF :: bs
      | [] => bs
      end
    else
      let bs := foldl (encode_pos_step uv) [] (down 8) in
      match bs with
      | b0 :: _ => if high_bit b0 then u8 0x00 :: bs else bs
      | [] => bs
      end.

Definition WriteInteger (v : Z) : Enc unit :=
  WriteTag ClassUniversal TypePrimitive TagInteger ;;
  let encoded := encodeInteger v in
  WriteLength (len encoded) ;;
  WriteRaw encoded.

Definition WriteOctetString (v : bytes) : Enc unit :=
  WriteTag ClassUniversal TypePrimitive TagOctetString ;;
  WriteLength (len v) ;;
  WriteRaw v.

Definition WriteEnumerated (v : Z) : Enc unit :=
  WriteTag ClassUniversal TypePrimitive TagEnumerated ;;
  let encoded := encodeInteger v in
  WriteLength (len encoded) ;;
  WriteRaw encoded.

Definition WriteNull : Enc unit :=
  WriteTag ClassUniversal TypePrimitive TagNull ;;
  WriteLength 0.

Definition constructed_flag (constructed : bool) : Z :=
  if constructed then TypeConstructed else TypePrimitive.

Definition WriteTaggedValue (tagNumber : Z) (constructed : bool) (value : bytes) : Enc unit :=
  WriteTag ClassContextSpecific (constructed_flag constructed) tagNumber ;;
  WriteLength (len value) ;;
  WriteRaw value.

(** ** Containers: a tag, four reserved bytes, and a length written afterwards *)

Definition reserve : Enc Z :=
  pos ← gets len;
  WriteRaw [u8 0; u8 0; u8 0; u8 0] ;;
  mret pos.

Definition BeginSequence : Enc Z :=
  WriteRaw [u8 (Z.lor (Z.lor ClassUniversal TypeConstructed) TagSequence)] ;; reserve.

Definition BeginSet : Enc Z :=
  WriteRaw [u8 (Z.lor (Z.lor ClassUniversal TypeConstructed) TagSet)] ;; reserve.

Definition write_short_or_long_tag (class num : Z) (constructed : bool) : Enc unit :=
  if decide (num <= 30) then
    WriteRaw [u8 (Z.lor (Z.lor class (constructed_flag constructed)) num)]
  else
    WriteRaw [u8 (Z.lor (Z.lor class (constructed_flag constructed)) 0x1F)] ;;
    writeBase128 num.

Definition WriteContextTag (num : Z) (constructed : bool) : Enc Z :=
  write_short_or_long_tag ClassContextSpecific num constructed ;; reserve.

Definition WriteApplicationTag (num : Z) (constructed : bool) : Enc Z :=
  write_short_or_long_tag ClassApplication num constructed ;; reserve.

(** [e.buf[i] = b]. *)
Definition set_byte (i : Z) (b : byte) : Enc unit :=
  n ← gets len;
  if decide (0 <= i < n) then modify (fun buf => <[Z.to_nat i := b]> buf) else panic.

(** [copy(e.buf[dst:], src)]: as many elements as both slices have. *)
Definition copy_into (dst : Z) (src : bytes) : Enc unit :=
  n ← gets len;
  if decide (0 <= dst <= n) then
    modify (fun buf =>
      let d := Z.to_nat dst in
      let k := Nat.min (length buf - d) (length src) in
      take d buf ++ take k src ++ drop (d + k) buf)
  else panic.

(** [e.buf = e.buf[:n]] for [n <= len(e.buf)]. *)
Definition truncate (n : Z) : Enc unit :=
  l ← gets len;
  if decide (0 <= n <= l) then modify (take (Z.to_nat n)) else panic.

Definition buf_slice (lo hi : Z) : Enc bytes :=
  buf ← gets id; slice buf lo hi.

Definition fixupLength (pos : Z) : Enc unit :=
  n ← gets len;
  let contentLength := n - pos - 4 in
  if decide (contentLength < 0) then fail ErrNegativeLength
  else if decide (contentLength <= MaxShortFormLength) then
    set_byte pos (u8 contentLength) ;;
    src ← buf_slice (pos + 4) n;
    copy_into (pos + 1) src ;;
    truncate (n - 3)
  else if decide (contentLength <= 0xFF) then
    set_byte pos (u8 0x81) ;;
    set_byte (pos + 1) (u8 contentLength) ;;
    src ← buf_slice (pos + 4) n;
    copy_into (pos + 2) src ;;
    truncate (n - 2)
  else if decide (contentLength <= 0xFFFF) then
    set_byte pos (u8 0x82) ;;
    set_byte (pos + 1) (u8 (Z.shiftr contentLength 8)) ;;
    set_byte (pos + 2) (u8 contentLength) ;;
    src ← buf_slice (pos + 4) n;
    copy_into (pos + 3) src ;;
    truncate (n - 1)
  else if decide (contentLength <= 0xFFFFFF) then
    set_byte pos (u8 0x83) ;;
    set_byte (pos + 1) (u8 (Z.shiftr contentLength 16)) ;;
    set_byte (pos + 2) (u8 (Z.shiftr contentLength 8)) ;;
    set_byte (pos + 3) (u8 contentLength)
  else
    set_byte pos (u8 0x84) ;;
    WriteRaw [u8 0] ;;
    n' ← gets len;
    src ← buf_slice (pos + 4) (n' - 1);
    copy_into (pos + 5) src ;;
    set_byte (pos + 1) (u8 (Z.shiftr contentLength 24)) ;;
    set_byte (pos + 2) (u8 (Z.shiftr contentLength 16)) ;;
    set_byte (pos + 3) (u8 (Z.shiftr contentLength 8)) ;;
    set_byte (pos + 4) (u8 contentLength).

Definition EndSequence (pos : Z) : Enc unit := fixupLength pos.
Definition EndSet (pos : Z) : Enc unit := fixupLength pos.
Definition EndContextTag (pos : Z) : Enc unit := fixupLength pos.
Definition EndApplicationTag (pos : Z) : Enc unit := fixupLength pos.

(** A fresh encoder, run; [Bytes] of it when the run succeeded. *)
Definition encode (m : Enc unit) : outcome bytes :=
  match m [] with
  | (Ok _, buf) => Ok (Bytes buf)
  | (Err e, _) => Err e
  | (Panic, _) => Panic
  | (Diverge, _) => Diverge
  end.

(** ** Reference definitions of the encodings *)

(** Number of base-[2^w] digits of [v > 0]. *)
Definition ndigits (w v : Z) : nat := Z.to_nat (Z.log2 v / w + 1).

(** Base-128 digits, most significant first, with continuation bits. *)
Fixpoint be128 (k : nat) (v : Z) : bytes :=
  match k with
  | O => []
  | S j =>
      u8 (Z.shiftr v (Z.of_nat j * 7) mod 128 + (if decide (0 < j)%nat then 128 else 0))
      :: be128 j v
  end.

Definition tag_bytes (class constructed number : Z) : bytes :=
  if decide (number <= 30) then [u8 (Z.lor (Z.lor class constructed) number)]
  else u8 (Z.lor (Z.lor class constructed) 0x1F) :: be128 (ndigits 7 number) number.

Definition length_bytes (n : Z) : bytes :=
  if decide (n <= 127) then [u8 n]
  else let k := ndigits 8 n in u8 (128 + Z.of_nat k) :: be_bytes k n.

(** Tag, length, value. *)
Definition tlv (class constructed number : Z) (content : bytes) : bytes :=
  tag_bytes class constructed number ++ length_bytes (len content) ++ content.

(** [writes m bs]: on any buffer, [m] succeeds and appends [bs]. *)
Definition writes (m : Enc unit) (bs : bytes) : Prop :=
  forall buf, m buf = (Ok tt, buf ++ bs).

Lemma writes_raw bs : writes (WriteRaw bs) bs.
Proof. by intros buf. Qed.

Lemma writes_bind m1 m2 bs1 bs2 :
  writes m1 bs1 -> writes m2 bs2 -> writes (m1 ;; m2) (bs1 ++ bs2).
Proof. intros H1 H2 buf. erewrite bind_ok by apply H1. by rewrite H2, app_assoc. Qed.

Lemma writes_eq m bs bs' : writes m bs -> bs = bs' -> writes m bs'.
Proof. by intros ? <-. Qed.

Lemma writes_for_each {A} (l : list A) body f :
  (forall x, x ∈ l -> writes (body x) (f x)) -> writes (for_each l body) (concat (f <$> l)).
Proof.
  induction l as [|x l IH]; intros H; simpl.
  - intros buf. by rewrite app_nil_r.
  - apply writes_bind; [apply H; by left |]. apply IH. intros y Hy. apply H. by right.
Qed.

Lemma u8_lor a b : byte_or (u8 a) (u8 b) = u8 (Z.lor a b).
Proof.
  apply bZ_inj. unfold byte_or. rewrite !bZ_u8.
  change 256 with (2 ^ 8). rewrite <- !Z.land_ones by lia.
  rewrite Z.land_lor_distr_l, <- !Z.land_assoc, Z.land_diag. 
  by rewrite <- Z.land_lor_distr_l.
Qed.

(** ** Digit counts *)

Lemma ndigits_spec w v :
  0 < w -> 0 < v ->
  2 ^ (w * (Z.of_nat (ndigits w v) - 1)) <= v < 2 ^ (w * Z.of_nat (ndigits w v)).
Proof.
  intros Hw Hv. unfold ndigits. pose proof (Z.log2_nonneg v).
  pose proof (Z.div_pos (Z.log2 v) w ltac:(lia) ltac:(lia)).
  rewrite Z2Nat.id by lia. pose proof (Z.log2_spec v Hv) as [Hl Hu].
  pose proof (Z.div_mod (Z.log2 v) w ltac:(lia)).
  pose proof (Z.mod_pos_bound (Z.log2 v) w ltac:(lia)). split.
  - etransitivity; [| apply Hl]. apply Z.pow_le_mono_r; nia.
  - eapply Z.lt_le_trans; [apply Hu |]. apply Z.pow_le_mono_r; nia.
Qed.

Lemma ndigits_shift w v :
  0 < w -> 2 ^ w <= v -> ndigits w v = S (ndigits w (Z.shiftr v w)).
Proof.
  intros Hw Hv. unfold ndigits.
  assert (0 < v) by (pose proof (Z.pow_pos_nonneg 2 w); lia).
  rewrite Z.log2_shiftr by lia.
  assert (w <= Z.log2 v) by (apply Z.log2_le_pow2; lia).
  rewrite Z.max_r by lia.
  replace (Z.log2 v) with ((Z.log2 v - w) + 1 * w) at 1 by lia.
  rewrite Z.div_add by lia.
  pose proof (Z.div_pos (Z.log2 v - w) w ltac:(lia) ltac:(lia)). lia.
Qed.

Lemma ndigits_one w v : 0 < v < 2 ^ w -> 0 < w -> ndigits w v = 1%nat.
Proof.
  intros Hv Hw. unfold ndigits. rewrite Z.div_small; [done |].
  split; [apply Z.log2_nonneg |]. apply Z.log2_lt_pow2; lia.
Qed.

Lemma ndigits_le w v k : 0 < w -> 0 < v < 2 ^ (w * Z.of_nat k) -> (ndigits w v <= k)%nat.
Proof.
  intros Hw [Hv Hk]. pose proof (ndigits_spec w v Hw Hv) as [Hl _].
  assert (2 ^ (w * (Z.of_nat (ndigits w v) - 1)) < 2 ^ (w * Z.of_nat k)) as Hlt by lia.
  apply Z.pow_lt_mono_r_iff in Hlt; nia.
Qed.

Lemma shiftr_bounds w v k :
  0 < w -> 2 ^ w <= v -> v < 2 ^ (w * Z.of_nat (S k)) ->
  0 < Z.shiftr v w < 2 ^ (w * Z.of_nat k).
Proof.
  intros Hw Hl Hu. pose proof (Z.pow_pos_nonneg 2 w).
  rewrite Z.shiftr_div_pow2 by lia. split.
  - apply Z.div_str_pos. lia.
  - apply Z.div_lt_upper_bound; [lia |]. rewrite <- Z.pow_add_r by lia.
    replace (w + w * Z.of_nat k) with (w * Z.of_nat (S k)) by lia. lia.
Qed.

Lemma lor_128 x : 0 <= x < 128 -> Z.lor 128 x = 128 + x.
Proof. intros. change 128 with (Z.shiftl 1 7) at 1. rewrite lor_shiftl_add; lia. Qed.

(** ** What the writers append *)

Definition digit128 (v : Z) (i : nat) : byte := u8 (Z.land (Z.shiftr v (Z.of_nat i * 7)) 0x7F).

Lemma while_base128 fuel bs v (s : BEREncoder) :
  0 < v < 2 ^ (7 * Z.of_nat fuel) ->
  while fuel (fun '(_, v) _ => bool_decide (v > 0))
    (fun '(bs, v) => mret (bs ++ [u8 (Z.land v 0x7F)], Z.shiftr v 7)) (bs, v) s
  = (Ok (bs ++ (digit128 v <$> seq 0 (ndigits 7 v)), 0), s).
Proof.
  revert bs v. induction fuel as [|fuel IH]; intros bs v Hv; [simpl in Hv; lia |].
  rewrite while_step by (apply bool_decide_eq_true; lia).
  rewrite bind_run. simpl.
  destruct (decide (v < 2 ^ 7)) as [Hs|Hs].
  - rewrite (ndigits_one 7) by lia.
    replace (Z.shiftr v 7) with 0 by (rewrite Z.shiftr_div_pow2, Z.div_small; lia).
    rewrite while_stop by done. simpl. unfold digit128. by rewrite Z.shiftr_0_r.
  - pose proof (shiftr_bounds 7 v fuel).
    rewrite IH by lia. rewrite (ndigits_shift 7 v) by lia.
    rewrite <- app_assoc. do 4 f_equal. simpl. unfold digit128 at 2. rewrite Z.shiftr_0_r.
    f_equal. rewrite <- fmap_S_seq, <- list_fmap_compose. apply list_fmap_ext.
    intros _ i _. unfold digit128. simpl. rewrite Z.shiftr_shiftr by lia. do 3 f_equal. lia.
Qed.

Lemma digit128_emit v k j :
  (j < k)%nat ->
  writes (b ← index (digit128 v <$> seq 0 k) (Z.of_nat j);
          WriteRaw [if decide (0 < j)%nat then byte_or b (u8 0x80) else b])
    [u8 (Z.shiftr v (Z.of_nat j * 7) mod 128 + (if decide (0 < j)%nat then 128 else 0))].
Proof.
  intros Hj buf. rewrite bind_run. unfold index. rewrite decide_True by lia.
  rewrite Nat2Z.id, list_lookup_fmap, lookup_seq_lt by done. simpl.
  unfold WriteRaw, modify. do 3 f_equal. unfold digit128.
  change 0x7F with (Z.ones 7). rewrite Z.land_ones by lia. change (2 ^ 7) with 128.
  pose proof (Z.mod_pos_bound (Z.shiftr v (Z.of_nat j * 7)) 128 ltac:(lia)).
  case_decide; [| f_equal; lia].
  rewrite u8_lor, Z.lor_comm, lor_128 by lia. f_equal. lia.
Qed.

Lemma writes_base128 v : 0 < v < 2 ^ 63 -> writes (writeBase128 v) (be128 (ndigits 7 v) v).
Proof.
  intros Hv buf. unfold writeBase128. rewrite decide_False by lia.
  rewrite bind_run, while_base128 by (unfold shift_fuel; lia). simpl app.
  rewrite length_fmap, length_seq. set (k := ndigits 7 v).
  assert (forall j, (j <= k)%nat -> writes (for_each (down j) (fun i =>
    b ← index (digit128 v <$> seq 0 k) (Z.of_nat i);
    WriteRaw [if decide (0 < i)%nat then byte_or b (u8 0x80) else b])) (be128 j v)) as H.
  { induction j as [|j IH]; intros Hj; simpl.
    - intros b. by rewrite app_nil_r.
    - apply (writes_bind _ _ [_]); [by apply digit128_emit | apply IH; lia]. }
  by apply H.
Qed.

Lemma writes_WriteTag class constructed number :
  valid_class class = true -> 0 <= number < 2 ^ 63 ->
  writes (WriteTag class constructed number) (tag_bytes class constructed number).
Proof.
  intros Hc Hn. unfold WriteTag, tag_bytes. rewrite Hc, decide_False by lia. simpl negb. simpl.
  rewrite !u8_lor. case_decide; [apply writes_raw |].
  apply (writes_bind _ _ [_]); [apply writes_raw | apply writes_base128; lia].
Qed.

Lemma writes_short_or_long_tag class num constructed :
  0 <= num < 2 ^ 63 ->
  writes (write_short_or_long_tag class num constructed)
    (tag_bytes class (constructed_flag constructed) num).
Proof.
  intros Hn. unfold write_short_or_long_tag, tag_bytes. case_decide; [apply writes_raw |].
  apply (writes_bind _ _ [_]); [apply writes_raw | apply writes_base128; lia].
Qed.

Lemma while_count fuel n v (s : BEREncoder) :
  0 < v < 2 ^ (8 * Z.of_nat fuel) ->
  while fuel (fun '(_, temp) _ => bool_decide (temp > 0))
    (fun '(n, temp) => mret (n + 1, Z.shiftr temp 8)) (n, v) s
  = (Ok (n + Z.of_nat (ndigits 8 v), 0), s).
Proof.
  revert n v. induction fuel as [|fuel IH]; intros n v Hv; [simpl in Hv; lia |].
  rewrite while_step by (apply bool_decide_eq_true; lia).
  rewrite bind_run. simpl.
  destruct (decide (v < 2 ^ 8)) as [Hs|Hs].
  - rewrite (ndigits_one 8) by lia.
    replace (Z.shiftr v 8) with 0 by (rewrite Z.shiftr_div_pow2, Z.div_small; lia).
    by rewrite while_stop.
  - pose proof (shiftr_bounds 8 v fuel).
    rewrite IH by lia. rewrite (ndigits_shift 8 v) by lia. do 3 f_equal. lia.
Qed.

Lemma writes_be_bytes k v :
  writes (for_each (down k) (fun i => WriteRaw [u8 (Z.shiftr v (Z.of_nat i * 8))])) (be_bytes k v).
Proof.
  induction k as [|k IH]; simpl.
  - intros b. by rewrite app_nil_r.
  - apply (writes_bind _ _ [_]); [apply writes_raw | apply IH].
Qed.

Lemma writes_WriteLength n : 0 <= n < 2 ^ 63 -> writes (WriteLength n) (length_bytes n).
Proof.
  intros Hn. unfold WriteLength, length_bytes, MaxShortFormLength.
  rewrite decide_False by lia. case_decide; [apply writes_raw |].
  intros buf. rewrite bind_run, while_count by (unfold shift_fuel; lia).
  cbn match beta. rewrite Z.add_0_l.
  pose proof (ndigits_le 8 n 8 ltac:(lia) ltac:(lia)) as Hk.
  rewrite decide_False by lia. rewrite Nat2Z.id.
  revert buf. apply (writes_bind _ _ [_]); [| apply writes_be_bytes].
  eapply writes_eq; [apply writes_raw |]. do 2 f_equal.
  unfold LengthLongFormBit. rewrite lor_128; lia.
Qed.

(** ** Minimal two's complement *)

Lemma land_128 x : Z.land x 128 = 0 <-> x mod 256 < 128.
Proof.
  assert (Z.land x 128 = 0 <-> Z.testbit x 7 = false) as ->.
  { split; intros H.
    - apply (f_equal (fun z => Z.testbit z 7)) in H.
      rewrite Z.land_spec, Z.bits_0 in H. by rewrite andb_true_r in H.
    - apply Z.bits_inj'. intros n Hn. rewrite Z.land_spec, Z.bits_0.
      change 128 with (2 ^ 7). rewrite Z.pow2_bits_eqb by lia.
      destruct (Z.eqb_spec 7 n) as [<-|]; [by rewrite H | apply andb_false_r]. }
  rewrite Z.testbit_false by lia. change (2 ^ 7) with 128.
  split; intros; Z.div_mod_to_equations; lia.
Qed.

Lemma high_bit_spec b : high_bit b = bool_decide (128 <= bZ b).
Proof.
  unfold high_bit. apply bool_decide_ext. rewrite land_128.
  rewrite Z.mod_small by apply bZ_range. lia.
Qed.

Lemma uint64_shiftr_mod v j :
  0 <= j <= 56 -> Z.shiftr (uint64 v) j mod 256 = Z.shiftr v j mod 256.
Proof.
  intros Hj. change 256 with (2 ^ 8). rewrite <- !Z.land_ones by lia.
  apply Z.bits_inj'. intros n Hn. rewrite !Z.land_spec, !Z.shiftr_spec by lia.
  destruct (Z.ltb_spec n 8).
  - unfold uint64. by rewrite Z.mod_pow2_bits_low by lia.
  - by rewrite Z.ones_spec_high, !andb_false_r by lia.
Qed.

Lemma u8_uint64 v i :
  (i < 8)%nat -> u8 (Z.shiftr (uint64 v) (Z.of_nat i * 8)) = u8 (Z.shiftr v (Z.of_nat i * 8)).
Proof. intros. rewrite <- u8_mod, uint64_shiftr_mod by lia. apply u8_mod. Qed.

Lemma byte_eqb_u8 a b : byte_eqb (u8 a) (u8 b) = bool_decide (a mod 256 = b mod 256).
Proof.
  unfold byte_eqb. apply bool_decide_ext. split; intros H.
  - by rewrite <- !bZ_u8, H.
  - apply bZ_inj. by rewrite !bZ_u8.
Qed.

(** [v] is representable in [k] bytes of two's complement. *)
Definition fits (k : nat) (v : Z) : Prop :=
  - 2 ^ (8 * Z.of_nat k - 1) <= v < 2 ^ (8 * Z.of_nat k - 1).

Lemma foldl_append step v bs k :
  (forall bs i, bs <> [] -> (i < 8)%nat ->
     step bs i = bs ++ [u8 (Z.shiftr v (Z.of_nat i * 8))]) ->
  bs <> [] -> (k <= 8)%nat -> foldl step bs (down k) = bs ++ be_bytes k v.
Proof.
  intros Hs. revert bs. induction k as [|k IH]; intros bs Hb Hk; simpl.
  - by rewrite app_nil_r.
  - rewrite Hs, IH by (done || lia || by destruct bs). by rewrite <- app_assoc.
Qed.

Lemma pos_step_append v bs i :
  bs <> [] -> (i < 8)%nat ->
  encode_pos_step (uint64 v) bs i = bs ++ [u8 (Z.shiftr v (Z.of_nat i * 8))].
Proof.
  intros Hb Hi. unfold encode_pos_step. rewrite u8_uint64 by done.
  rewrite bool_decide_true; [done |]. destruct bs; [done | len_lia].
Qed.

Lemma neg_step_append v bs i :
  bs <> [] -> (i < 8)%nat ->
  encode_neg_step (uint64 v) bs i = bs ++ [u8 (Z.shiftr v (Z.of_nat i * 8))].
Proof.
  intros Hb Hi. unfold encode_neg_step. rewrite u8_uint64 by done.
  rewrite bool_decide_true; [done |]. destruct bs; [done | len_lia].
Qed.

Lemma pos_loop v k :
  (k <= 8)%nat -> 0 < v < 2 ^ (8 * Z.of_nat k) ->
  foldl (encode_pos_step (uint64 v)) [] (down k) = be_bytes (ndigits 8 v) v.
Proof.
  induction k as [|k IH]; intros Hk Hv; [simpl in Hv; lia |].
  simpl foldl. unfold encode_pos_step at 2. rewrite u8_uint64 by lia. simpl bool_decide.
  rewrite byte_eqb_u8, Z.shiftr_div_pow2, (Z.mul_comm (Z.of_nat k)) by lia.
  destruct (decide (v < 2 ^ (8 * Z.of_nat k))) as [Hs|Hs].
  - rewrite (Z.div_small v) by lia. rewrite bool_decide_true by done. apply IH; lia.
  - assert (1 <= v / 2 ^ (8 * Z.of_nat k) < 256).
    { split.
      - apply Z.div_le_lower_bound; lia.
      - apply Z.div_lt_upper_bound; [lia |]. change 256 with (2 ^ 8).
        rewrite <- Z.pow_add_r by lia.
        replace (8 * Z.of_nat k + 8) with (8 * Z.of_nat (S k)) by lia. lia. }
    rewrite bool_decide_false by (rewrite (Z.mod_small (v / _)), Z.mod_0_l by lia; lia).
    simpl. rewrite (foldl_append _ v) by (apply pos_step_append || done || lia).
    replace (ndigits 8 v) with (S k).
    { simpl. by rewrite Z.shiftr_div_pow2, (Z.mul_comm (Z.of_nat k)) by lia. }
    pose proof (ndigits_le 8 v (S k) ltac:(lia) ltac:(lia)).
    pose proof (ndigits_spec 8 v ltac:(lia) ltac:(lia)) as [_ Hu].
    assert (2 ^ (8 * Z.of_nat k) < 2 ^ (8 * Z.of_nat (ndigits 8 v))) as Hlt by lia.
    apply Z.pow_lt_mono_r_iff in Hlt; lia.
Qed.

(** The top byte of a negative [v] of [k + 1] bytes is [0xFF] when [v] needs no
    more than its sign bit there. *)
Lemma neg_top_byte v k :
  - 2 ^ (8 * Z.of_nat k + 7) <= v < 0 ->
  byte_eqb (u8 (Z.shiftr v (Z.of_nat k * 8))) (u8 0xFF) =
  bool_decide (- 2 ^ (8 * Z.of_nat k) <= v).
Proof.
  intros Hv. rewrite byte_eqb_u8, Z.shiftr_div_pow2, (Z.mul_comm (Z.of_nat k)) by lia.
  set (p := 2 ^ (8 * Z.of_nat k)).
  assert (0 < p) by (apply Z.pow_pos_nonneg; lia).
  assert (- (p * 128) <= v) by (rewrite Z.pow_add_r in Hv by lia; fold p in Hv; lia).
  assert (-128 <= v / p < 0).
  { split; [apply Z.div_le_lower_bound; lia | apply Z.div_lt_upper_bound; lia]. }
  apply bool_decide_ext. split; intros Hb.
  - assert (v / p = -1) by (Z.div_mod_to_equations; lia).
    pose proof (Z.div_mod v p). pose proof (Z.mod_pos_bound v p). nia.
  - assert (-1 <= v / p) by (apply Z.div_le_lower_bound; lia).
    replace (v / p) with (-1) by lia. done.
Qed.

Lemma neg_next_bit v k :
  (S k < 8)%nat -> - 2 ^ (8 * Z.of_nat (S k)) <= v < 0 ->
  Z.land (Z.shiftr (uint64 v) ((Z.of_nat (S k) - 1) * 8)) 0x80 = 0 <->
  v < - 2 ^ (8 * Z.of_nat (S k) - 1).
Proof.
  intros Hk Hv. rewrite land_128, uint64_shiftr_mod by lia.
  replace ((Z.of_nat (S k) - 1) * 8) with (8 * Z.of_nat k) by lia.
  rewrite Z.shiftr_div_pow2 by lia.
  replace (8 * Z.of_nat (S k)) with (8 * Z.of_nat k + 8) in * by lia.
  replace (8 * Z.of_nat k + 8 - 1) with (8 * Z.of_nat k + 7) by lia.
  rewrite Z.pow_add_r in * by lia. set (p := 2 ^ (8 * Z.of_nat k)) in *.
  assert (0 < p) by (apply Z.pow_pos_nonneg; lia).
  assert (-256 <= v / p < 0).
  { split; [apply Z.div_le_lower_bound; lia | apply Z.div_lt_upper_bound; lia]. }
  pose proof (Z.div_mod v p). pose proof (Z.mod_pos_bound v p).
  replace ((v / p) mod 256) with (v / p + 256)
    by (rewrite <- (Z.mod_small (v / p + 256) 256) by lia; Z.div_mod_to_equations; lia).
  split; intros; nia.
Qed.

Lemma neg_loop v k :
  (1 <= k <= 8)%nat -> - 2 ^ (8 * Z.of_nat k - 1) <= v < 0 ->
  (v = -1 /\ foldl (encode_neg_step (uint64 v)) [] (down k) = []) \/
  (exists m, (1 <= m <= k)%nat /\
     foldl (encode_neg_step (uint64 v)) [] (down k) = be_bytes m v /\
     fits m v /\ (m = 1%nat \/ ~ fits (m - 1) v)).
Proof.
  induction k as [|k IH]; intros Hk Hv; [lia |].
  simpl foldl. unfold encode_neg_step at 2 4. simpl len.
  rewrite u8_uint64 by lia. rewrite neg_top_byte.
  2: { replace (8 * Z.of_nat k + 7) with (8 * Z.of_nat (S k) - 1) by lia. lia. }
  simpl (bool_decide (0 > 0)). simpl orb.
  assert (forall m, m = S k -> fits m v) as Hfits by (intros m ->; unfold fits; lia).
  assert (v < 0) by lia.
  assert (forall b, b = u8 (Z.shiftr v (Z.of_nat k * 8)) ->
    foldl (encode_neg_step (uint64 v)) [b] (down k) = be_bytes (S k) v) as Happ.
  { intros b ->. by rewrite (foldl_append _ v) by (apply neg_step_append || done || lia). }
  destruct (decide (- 2 ^ (8 * Z.of_nat k) <= v)) as [Hge|Hlt].
  - rewrite bool_decide_true by done. simpl negb. simpl orb.
    destruct k as [|k].
    + left. simpl in *. split; [lia | done].
    + rewrite (bool_decide_true (0 < S k)%nat) by lia. simpl andb.
      destruct (decide (v < - 2 ^ (8 * Z.of_nat (S k) - 1))) as [Hb|Hb].
      * rewrite bool_decide_true by (apply neg_next_bit; lia).
        right. exists (S (S k)). split; [lia |]. split; [by apply Happ |].
        split; [by apply Hfits |]. right. unfold fits. simpl Nat.sub. lia.
      * rewrite bool_decide_false by (rewrite neg_next_bit by lia; lia).
        destruct IH as [[-> Hr]|(m & Hm & Hr & Hf)]; [lia | lia | left; by split |].
        right. exists m. split; [lia | by split].
  - rewrite bool_decide_false by done. simpl negb. simpl orb.
    right. exists (S k). split; [lia |]. split; [by apply Happ |]. split; [by apply Hfits |].
    destruct k as [|k]; [by left | right]. unfold fits. simpl Nat.sub. intros [Hf _].
    assert (2 ^ (8 * Z.of_nat (S k) - 1) <= 2 ^ (8 * Z.of_nat (S k)))
      by (apply Z.pow_le_mono_r; lia). lia.
Qed.

(** A one-byte prefix below the sign bit or equal to the sign extension. *)
Lemma be_bytes_head k v :
  (0 < k)%nat -> fits k v ->
  exists b bs, be_bytes k v = b :: bs /\ high_bit b = bool_decide (v < 0).
Proof.
  intros Hk Hf. destruct k as [|k]; [lia |]. simpl. eexists _, _. split; [done |].
  rewrite high_bit_spec, bZ_u8, Z.shiftr_div_pow2, (Z.mul_comm (Z.of_nat k)) by lia.
  unfold fits in Hf.
  replace (8 * Z.of_nat (S k) - 1) with (8 * Z.of_nat k + 7) in Hf by lia.
  rewrite Z.pow_add_r in Hf by lia. set (p := 2 ^ (8 * Z.of_nat k)) in *.
  assert (0 < p) by (apply Z.pow_pos_nonneg; lia).
  apply bool_decide_ext.
  assert (-128 <= v / p < 128).
  { split; [apply Z.div_le_lower_bound; lia | apply Z.div_lt_upper_bound; lia]. }
  pose proof (Z.div_mod v p). pose proof (Z.mod_pos_bound v p).
  split; intros.
  - assert (v / p < 0) by (Z.div_mod_to_equations; lia). nia.
  - assert (v / p < 0) by nia. Z.div_mod_to_equations; lia.
Qed.

Lemma top_bit_set v j :
  2 ^ (8 * Z.of_nat j + 7) <= v < 2 ^ (8 * Z.of_nat j + 8) ->
  high_bit (u8 (Z.shiftr v (Z.of_nat j * 8))) = true.
Proof.
  intros Hv. rewrite high_bit_spec, bZ_u8, Z.shiftr_div_pow2, (Z.mul_comm (Z.of_nat j)) by lia.
  apply bool_decide_eq_true. rewrite !Z.pow_add_r in Hv by lia.
  rewrite Z.mod_small; [apply Z.div_le_lower_bound; lia |].
  split; [apply Z.div_pos; lia | apply Z.div_lt_upper_bound; lia].
Qed.

(** [k] bytes encode [v], and no fewer do. *)
Definition minimal_bytes (k : nat) (v : Z) : Prop :=
  (1 <= k <= 8)%nat /\ fits k v /\ (k = 1%nat \/ ~ fits (k - 1) v).

Lemma encode_neg_minimal v :
  is_int64 v -> v < 0 -> exists k, encodeInteger v = be_bytes k v /\ minimal_bytes k v.
Proof.
  unfold is_int64. intros Hv Hneg. unfold encodeInteger.
  rewrite decide_False, decide_True by lia.
  destruct (neg_loop v 8) as [[-> Hr]|(m & Hm & Hr & Hf & Hmin)]; [lia | simpl; lia | |].
  - rewrite Hr. exists 1%nat. split; [done |]. split; [lia |]. split; [|by left].
    unfold fits. simpl. lia.
  - rewrite Hr. destruct (be_bytes_head m v) as (b & bs & Hb & Hh); [lia | done |].
    rewrite Hb, Hh, bool_decide_true by done. exists m. rewrite Hb. done.
Qed.

Lemma ndigits_pos w v : 0 < w -> (1 <= ndigits w v)%nat.
Proof.
  intros. unfold ndigits. pose proof (Z.log2_nonneg v).
  pose proof (Z.div_pos (Z.log2 v) w). lia.
Qed.

Lemma encode_pos_minimal v :
  is_int64 v -> 0 < v -> exists k, encodeInteger v = be_bytes k v /\ minimal_bytes k v.
Proof.
  unfold is_int64. intros Hv Hpos. unfold encodeInteger. rewrite !decide_False by lia.
  pose proof (ndigits_le 8 v 8 ltac:(lia) ltac:(simpl; lia)) as Hk8.
  pose proof (ndigits_spec 8 v ltac:(lia) ltac:(lia)) as [Hl Hu].
  pose proof (ndigits_pos 8 v ltac:(lia)).
  rewrite (pos_loop v 8) by (simpl; lia). destruct (ndigits 8 v) as [|j] eqn:Ek; [lia |].
  replace (8 * (Z.of_nat (S j) - 1)) with (8 * Z.of_nat j) in Hl by lia.
  destruct (decide (v < 2 ^ (8 * Z.of_nat j + 7))) as [Hfit|Hbig].
  - assert (fits (S j) v) as Hf.
    { unfold fits. replace (8 * Z.of_nat (S j) - 1) with (8 * Z.of_nat j + 7) by lia. lia. }
    destruct (be_bytes_head (S j) v) as (b & bs & Hb & Hh); [lia | done |].
    rewrite Hb, Hh, bool_decide_false by lia. exists (S j). rewrite Hb.
    split; [done |]. split; [lia |]. split; [done |].
    destruct j as [|j]; [by left | right]. unfold fits. simpl Nat.sub.
    assert (2 ^ (8 * Z.of_nat (S j) - 1) < 2 ^ (8 * Z.of_nat (S j)))
      by (apply Z.pow_lt_mono_r; lia). lia.
  - replace (8 * Z.of_nat (S j)) with (8 * Z.of_nat j + 8) in Hu by lia.
    assert (j <> 7%nat) by (intros ->; simpl in Hbig; lia).
    cbn [be_bytes]. rewrite top_bit_set by lia. exists (S (S j)). split.
    { cbn [be_bytes]. f_equal. rewrite Z.shiftr_div_pow2, Z.div_small; [done | | lia].
      replace (Z.of_nat (S j) * 8) with (8 * Z.of_nat j + 8) by lia. lia. }
    split; [lia |]. unfold fits. split.
    + assert (2 ^ (8 * Z.of_nat j + 8) <= 2 ^ (8 * Z.of_nat (S (S j)) - 1))
        by (apply Z.pow_le_mono_r; lia). lia.
    + right. replace (8 * Z.of_nat (S (S j) - 1) - 1) with (8 * Z.of_nat j + 7) by lia. lia.
Qed.

(** [encodeInteger] is the two's complement encoding of the fewest bytes. *)
Lemma encodeInteger_minimal v :
  is_int64 v -> exists k, encodeInteger v = be_bytes k v /\ minimal_bytes k v.
Proof.
  intros Hv. destruct (Z.lt_trichotomy v 0) as [H|[->|H]].
  - by apply encode_neg_minimal.
  - exists 1%nat. split; [done |]. split; [lia |]. split; [unfold fits; simpl; lia | by left].
  - by apply encode_pos_minimal.
Qed.

Lemma len_encodeInteger v : is_int64 v -> 1 <= len (encodeInteger v) <= 8.
Proof.
  intros Hv. destruct (encodeInteger_minimal v Hv) as (k & -> & Hk & _).
  rewrite len_be_bytes. lia.
Qed.

(** ** The value writers *)

Lemma writes_tlv class constructed number content :
  valid_class class = true -> 0 <= number < 2 ^ 63 -> len content < 2 ^ 63 ->
  writes (WriteTag class constructed number ;; WriteLength (len content) ;; WriteRaw content)
    (tlv class constructed number content).
Proof.
  intros. unfold tlv. pose proof (len_nonneg content).
  apply writes_bind; [by apply writes_WriteTag |].
  apply writes_bind; [apply writes_WriteLength; lia | apply writes_raw].
Qed.

Definition bool_content (v : bool) : bytes := [if v then u8 0xFF else u8 0x00].

Lemma writes_WriteBoolean v :
  writes (WriteBoolean v) (tlv ClassUniversal TypePrimitive TagBoolean (bool_content v)).
Proof. apply (writes_tlv _ _ _ (bool_content v)); done || (unfold TagBoolean; lia). Qed.

Lemma writes_WriteInteger v :
  is_int64 v ->
  writes (WriteInteger v) (tlv ClassUniversal TypePrimitive TagInteger (encodeInteger v)).
Proof.
  intros Hv. pose proof (len_encodeInteger v Hv).
  apply writes_tlv; [done | unfold TagInteger; lia | lia].
Qed.

Lemma writes_WriteEnumerated v :
  is_int64 v ->
  writes (WriteEnumerated v) (tlv ClassUniversal TypePrimitive TagEnumerated (encodeInteger v)).
Proof.
  intros Hv. pose proof (len_encodeInteger v Hv).
  apply writes_tlv; [done | unfold TagEnumerated; lia | lia].
Qed.

Lemma writes_WriteOctetString v :
  len v < 2 ^ 63 ->
  writes (WriteOctetString v) (tlv ClassUniversal TypePrimitive TagOctetString v).
Proof. intros. apply writes_tlv; [done | unfold TagOctetString; lia | done]. Qed.

Lemma writes_WriteNull : writes WriteNull (tlv ClassUniversal TypePrimitive TagNull []).
Proof.
  eapply writes_eq.
  - apply writes_bind; [apply writes_WriteTag | apply writes_WriteLength];
      done || (unfold TagNull; lia).
  - done.
Qed.

Lemma writes_WriteTaggedValue n c v :
  0 <= n < 2 ^ 63 -> len v < 2 ^ 63 ->
  writes (WriteTaggedValue n c v) (tlv ClassContextSpecific (constructed_flag c) n v).
Proof. intros. by apply writes_tlv. Qed.

(** ** Containers *)

Lemma set_byte_at p x q i b buf :
  buf = p ++ x :: q -> i = len p -> set_byte i b buf = (Ok tt, p ++ b :: q).
Proof.
  intros -> ->. unfold set_byte. rewrite bind_run. simpl. rewrite decide_True by len_lia.
  unfold modify. f_equal. unfold len. rewrite Nat2Z.id.
  by rewrite insert_app_r_alt, Nat.sub_diag by lia.
Qed.

Lemma set_byte_then {A} p x q i b buf (k : Enc A) :
  buf = p ++ x :: q -> i = len p -> (set_byte i b ;; k) buf = k (p ++ b :: q).
Proof. intros. apply bind_ok with (a := tt). by eapply set_byte_at. Qed.

Lemma copy_into_at p m src dst buf :
  buf = p ++ m -> length src = length m -> dst = len p ->
  copy_into dst src buf = (Ok tt, p ++ src).
Proof.
  intros -> Hl ->. unfold copy_into. rewrite bind_run. simpl. rewrite decide_True by len_lia.
  unfold modify. f_equal. unfold len. rewrite Nat2Z.id, length_app.
  replace (Nat.min _ _) with (length src) by lia.
  rewrite take_app_length, firstn_all, drop_ge by (rewrite length_app; lia).
  by rewrite app_nil_r.
Qed.

(** Moving the content [c] over the unused reserved bytes [m] and truncating. *)
Lemma close_gap p m c lo hi dst n buf :
  buf = p ++ m ++ c -> lo = len p + len m -> hi = len buf -> dst = len p -> n = len p + len c ->
  (src ← buf_slice lo hi; copy_into dst src ;; truncate n) buf = (Ok tt, p ++ c).
Proof.
  intros -> -> -> -> ->. rewrite bind_run. unfold buf_slice. rewrite bind_run. simpl.
  pose proof (slice_app (S := BEREncoder) (p ++ m) c [] (p ++ m ++ c)) as Hs.
  rewrite app_nil_r, <- app_assoc in Hs. rewrite <- len_app.
  replace (len (p ++ m ++ c)) with (len (p ++ m) + len c) by len_lia.
  rewrite Hs, bind_run.
  assert (exists x y, m ++ c = x ++ y /\ length x = length c) as (x & y & Hxy & Hx).
  { exists (take (length c) (m ++ c)), (drop (length c) (m ++ c)).
    rewrite take_drop, length_take, length_app. split; [done | lia]. }
  assert (copy_into (len p) c (p ++ m ++ c) = (Ok tt, p ++ c ++ y)) as ->.
  { unfold copy_into. rewrite bind_run. simpl. rewrite decide_True by len_lia.
    unfold modify. f_equal. unfold len. rewrite Nat2Z.id, take_app_length.
    rewrite length_app. replace (Nat.min _ _) with (length c) by (rewrite length_app; lia).
    rewrite firstn_all, Hxy, <- Hx. do 2 f_equal.
    by rewrite <- length_app, app_assoc, drop_app_length. }
  unfold truncate. rewrite bind_run. simpl. rewrite decide_True by len_lia.
  unfold modify. f_equal. replace (Z.to_nat (len p + len c)) with (length (p ++ c)).
  - by rewrite app_assoc, take_app_length.
  - rewrite length_app. unfold len. lia.
Qed.

Lemma ndigits_range w v k :
  0 < w -> 2 ^ (w * Z.of_nat k) <= v < 2 ^ (w * Z.of_nat (S k)) -> ndigits w v = S k.
Proof.
  intros Hw Hv. pose proof (Z.pow_pos_nonneg 2 (w * Z.of_nat k)).
  pose proof (ndigits_le w v (S k) Hw ltac:(lia)).
  pose proof (ndigits_spec w v Hw ltac:(lia)) as [_ Hu].
  assert (2 ^ (w * Z.of_nat k) < 2 ^ (w * Z.of_nat (ndigits w v))) as Hlt by lia.
  apply Z.pow_lt_mono_r_iff in Hlt; nia.
Qed.

(** Side conditions of the buffer lemmas: positions, and how the buffer splits. *)
Ltac buf_side := first [ by rewrite <- ?app_assoc | len_lia ].

(** The last branch of [fixupLength]: four length bytes, the content moves up by one. *)
Lemma fixup_grow pre r0 r1 r2 r3 c n b1 b2 b3 b4 :
  n = len pre ->
  (set_byte n (u8 0x84) ;;
   WriteRaw [u8 0] ;;
   n' ← gets len;
   src ← buf_slice (n + 4) (n' - 1);
   copy_into (n + 5) src ;;
   set_byte (n + 1) b1 ;; set_byte (n + 2) b2 ;; set_byte (n + 3) b3 ;; set_byte (n + 4) b4)
    (pre ++ [r0; r1; r2; r3] ++ c)
  = (Ok tt, pre ++ ([u8 0x84; b1; b2; b3; b4]) ++ c).
Proof.
  intros ->.
  rewrite (set_byte_then pre r0 ([r1; r2; r3] ++ c)) by buf_side.
  rewrite bind_run. unfold WriteRaw, modify. cbn match. rewrite bind_run. unfold gets. cbn match.
  rewrite bind_run. unfold buf_slice. rewrite bind_run. unfold gets. cbn match. unfold id.
  pose proof (slice_app (S := BEREncoder) (pre ++ [u8 0x84; r1; r2; r3]) c [u8 0]) as Hs.
  rewrite <- !app_assoc in Hs. cbn [app] in *. rewrite <- !app_assoc. cbn [app].
  replace (len pre + 4) with (len (pre ++ [u8 0x84; r1; r2; r3])) by len_lia.
  replace (len (pre ++ u8 132 :: r1 :: r2 :: r3 :: c ++ [u8 0]) - 1)
    with (len (pre ++ [u8 0x84; r1; r2; r3]) + len c) by len_lia.
  rewrite Hs. rewrite bind_run.
  assert (exists x m, c ++ [u8 0] = x :: m /\ length m = length c) as (x & m & Hx & Hm).
  { destruct (c ++ [u8 0]) as [|x m] eqn:E; [by destruct c |].
    exists x, m. split; [done |]. apply (f_equal length) in E. rewrite length_app in E.
    simpl in E. lia. }
  rewrite Hx.
  rewrite (copy_into_at (pre ++ [u8 0x84; r1; r2; r3; x]) m c) by buf_side.
  rewrite (set_byte_then (pre ++ [u8 0x84]) r1 ([r2; r3; x] ++ c)) by buf_side.
  rewrite (set_byte_then (pre ++ [u8 0x84; b1]) r2 ([r3; x] ++ c)) by buf_side.
  rewrite (set_byte_then (pre ++ [u8 0x84; b1; b2]) r3 ([x] ++ c)) by buf_side.
  rewrite (set_byte_at (pre ++ [u8 0x84; b1; b2; b3]) x c) by buf_side.
  by rewrite <- app_assoc.
Qed.

(** [fixupLength] leaves the content behind the length that [WriteLength] would
    have written before it. *)
Lemma fixupLength_spec pre r0 r1 r2 r3 c :
  len c < 2 ^ 32 ->
  fixupLength (len pre) (pre ++ [r0; r1; r2; r3] ++ c)
  = (Ok tt, pre ++ length_bytes (len c) ++ c).
Proof.
  intros Hc. unfold fixupLength. rewrite bind_run. unfold gets at 1. cbn match.
  replace (len (pre ++ [r0; r1; r2; r3] ++ c) - len pre - 4) with (len c) by len_lia.
  rewrite decide_False by len_lia. unfold MaxShortFormLength, length_bytes.
  set (n := len c) in *.
  case_decide as H1; [| case_decide as H2; [| case_decide as H3; [| case_decide as H4]]].
  - rewrite (set_byte_then pre r0 ([r1; r2; r3] ++ c)) by buf_side.
    rewrite (close_gap (pre ++ [u8 n]) [r1; r2; r3] c) by buf_side.
    by rewrite <- app_assoc.
  - rewrite (ndigits_range 8 _ 0) by lia. cbn [be_bytes]. rewrite Z.shiftr_0_r.
    rewrite (set_byte_then pre r0 ([r1; r2; r3] ++ c)) by buf_side.
    rewrite (set_byte_then (pre ++ [u8 0x81]) r1 ([r2; r3] ++ c)) by buf_side.
    rewrite (close_gap (pre ++ [u8 0x81; u8 n]) [r2; r3] c) by buf_side.
    by rewrite <- app_assoc.
  - rewrite (ndigits_range 8 _ 1) by lia. cbn [be_bytes]. rewrite Z.shiftr_0_r.
    rewrite (set_byte_then pre r0 ([r1; r2; r3] ++ c)) by buf_side.
    rewrite (set_byte_then (pre ++ [u8 0x82]) r1 ([r2; r3] ++ c)) by buf_side.
    rewrite (set_byte_then (pre ++ [u8 0x82; u8 (Z.shiftr n 8)]) r2 ([r3] ++ c)) by buf_side.
    rewrite (close_gap (pre ++ [u8 0x82; u8 (Z.shiftr n 8); u8 n]) [r3] c) by buf_side.
    by rewrite <- app_assoc.
  - rewrite (ndigits_range 8 _ 2) by lia. cbn [be_bytes]. rewrite Z.shiftr_0_r.
    rewrite (set_byte_then pre r0 ([r1; r2; r3] ++ c)) by buf_side.
    rewrite (set_byte_then (pre ++ [u8 0x83]) r1 ([r2; r3] ++ c)) by buf_side.
    rewrite (set_byte_then (pre ++ [u8 0x83; u8 (Z.shiftr n 16)]) r2 ([r3] ++ c)) by buf_side.
    rewrite (set_byte_at (pre ++ [u8 0x83; u8 (Z.shiftr n 16); u8 (Z.shiftr n 8)]) r3 c)
      by buf_side.
    by rewrite <- app_assoc.
  - rewrite (ndigits_range 8 _ 3) by lia. cbn [be_bytes]. rewrite Z.shiftr_0_r.
    by apply fixup_grow.
Qed.

(** [begins m tag]: [m] appends [tag] and four reserved bytes, and returns the
    position of the latter. *)
Definition begins (m : Enc Z) (tag : bytes) : Prop :=
  forall buf, m buf = (Ok (len (buf ++ tag)), buf ++ tag ++ [u8 0; u8 0; u8 0; u8 0]).

Lemma begins_reserve m tag : writes m tag -> begins (m ;; reserve) tag.
Proof.
  intros Hm buf. erewrite bind_ok by apply Hm. unfold reserve.
  rewrite bind_run. unfold gets. cbn match. rewrite bind_run. unfold WriteRaw, modify.
  cbn match. by rewrite app_assoc.
Qed.

Lemma begins_BeginSequence : begins BeginSequence (tag_bytes ClassUniversal TypeConstructed TagSequence).
Proof. apply begins_reserve, writes_raw. Qed.

Lemma begins_BeginSet : begins BeginSet (tag_bytes ClassUniversal TypeConstructed TagSet).
Proof. apply begins_reserve, writes_raw. Qed.

Lemma begins_WriteContextTag n c :
  0 <= n < 2 ^ 63 ->
  begins (WriteContextTag n c) (tag_bytes ClassContextSpecific (constructed_flag c) n).
Proof. intros. by apply begins_reserve, writes_short_or_long_tag. Qed.

Lemma begins_WriteApplicationTag n c :
  0 <= n < 2 ^ 63 ->
  begins (WriteApplicationTag n c) (tag_bytes ClassApplication (constructed_flag c) n).
Proof. intros. by apply begins_reserve, writes_short_or_long_tag. Qed.

(** The bracket the callers of the container methods write around a body. *)
Definition bracket (begin : Enc Z) (close : Z -> Enc unit) (body : Enc unit) : Enc unit :=
  pos ← begin; body ;; close pos.

Lemma writes_bracket begin tag body content :
  begins begin tag -> writes body content -> len content < 2 ^ 32 ->
  writes (bracket begin fixupLength body) (tag ++ length_bytes (len content) ++ content).
Proof.
  intros Hb Hbody Hc buf. unfold bracket. rewrite bind_run, Hb, bind_run, Hbody.
  rewrite app_assoc, <- (app_assoc (buf ++ tag)), fixupLength_spec by done.
  by rewrite <- app_assoc.
Qed.

Lemma encode_writes m bs : writes m bs -> encode m = Ok bs.
Proof. intros H. unfold encode. by rewrite H. Qed.
