(* ===== verification/BerSafety.v ===== *)
(** * The BER decoder never panics and always returns

    [wp m d Q] says that [m], started in [d], returns (a value or an error), does
    not move the offset backwards or out of the data, and establishes [Q] when it
    succeeds. The rules below are proved once per decoder method and are the
    hints of the database [ber]. *)

From S2P Require Import Prelude BerEncoder BerDecoder.

(** The read offset lies in the data. *)
Definition wf (d : BERDecoder) : Prop := 0 <= offset d <= len (data d).

(** What every method does to the decoder. *)
Definition advances (d d' : BERDecoder) : Prop :=
  data d' = data d /\ offset d <= offset d' <= len (data d).

Definition wp {A} (m : Dec A) (d : BERDecoder) (Q : A -> BERDecoder -> Prop) : Prop :=
  match m d with
  | (Ok a, d') => advances d d' /\ Q a d'
  | (Err _, d') => advances d d'
  | _ => False
  end.

Lemma advances_refl d : wf d -> advances d d.
Proof. unfold wf, advances. intros. split; [done | lia]. Qed.

Lemma advances_trans d1 d2 d3 : advances d1 d2 -> advances d2 d3 -> advances d1 d3.
Proof. intros [H1 H2] [H3 H4]. split; [congruence |]. rewrite H1 in H4. lia. Qed.

Lemma advances_wf d d' : wf d -> advances d d' -> wf d'.
Proof. intros H1 [H2 H3]. unfold wf in *. rewrite H2. lia. Qed.

Lemma wp_bind {A B} (m : Dec A) (f : A -> Dec B) d Q :
  wp m d (fun a d' => wp (f a) d' Q) -> wp (x ← m; f x) d Q.
Proof.
  unfold wp. rewrite bind_run. destruct (m d) as [[a|e| |] d1]; try done.
  intros [H1 H2]. destruct (f a d1) as [[b|e| |] d2]; try done.
  - destruct H2. split; [by eapply advances_trans | done].
  - by eapply advances_trans.
Qed.

Lemma wp_mono {A} (m : Dec A) d (Q Q' : A -> BERDecoder -> Prop) :
  wp m d Q -> (forall a d', advances d d' -> Q a d' -> Q' a d') -> wp m d Q'.
Proof. unfold wp. destruct (m d) as [[] d1]; try done; intuition. Qed.

Lemma wp_ret {A} (a : A) d (Q : A -> BERDecoder -> Prop) : wf d -> Q a d -> wp (mret a) d Q.
Proof. intros. unfold wp; simpl. by split; [apply advances_refl |]. Qed.

Lemma wp_fail {A} e d (Q : A -> BERDecoder -> Prop) : wf d -> wp (fail e) d Q.
Proof. intros. unfold wp; simpl. by apply advances_refl. Qed.

Lemma wp_gets {A} (f : BERDecoder -> A) d (Q : A -> BERDecoder -> Prop) :
  wf d -> Q (f d) d -> wp (gets f) d Q.
Proof. intros. unfold wp; simpl. by split; [apply advances_refl |]. Qed.

Lemma wp_wrap {A} w (m : Dec A) d Q : wp m d Q -> wp (wrap_err w m) d Q.
Proof. unfold wp, wrap_err. destruct (m d) as [[]]; naive_solver. Qed.

Lemma wp_try {A} (m : Dec A) d (Q : A + goerror -> BERDecoder -> Prop) :
  wp m d (fun a => Q (inl a)) -> (forall e d', advances d d' -> Q (inr e) d') -> wp (try m) d Q.
Proof. unfold wp, try. destruct (m d) as [[]]; naive_solver. Qed.

Lemma wp_returns {A} (m : Dec A) d Q : wp m d Q -> returns (m d).1.
Proof. unfold wp. destruct (m d) as [[a|e| |] d1]; simpl; tauto. Qed.

(** [advance n d]: the decoder [n] bytes further on. *)
Definition advance (n : Z) (d : BERDecoder) : BERDecoder := mkDecoder (data d) (offset d + n).

Lemma wp_next_byte d (Q : byte -> BERDecoder -> Prop) :
  wf d -> at_end d = false -> (forall b, Q b (advance 1 d)) -> wp next_byte d Q.
Proof.
  unfold wf, at_end. intros Hw He%bool_decide_eq_false HQ.
  unfold wp, next_byte. rewrite bind_run. simpl. rewrite bind_run. unfold index, id.
  rewrite decide_True by lia.
  destruct (lookup_lt_is_Some_2 (data d) (Z.to_nat (offset d))) as [b Hb].
  { unfold len in *. lia. }
  rewrite Hb. simpl. split; [| apply HQ]. unfold advances. simpl. split; [done | lia].
Qed.

Lemma wp_take_bytes n d (Q : bytes -> BERDecoder -> Prop) :
  wf d -> truncated n d = false -> 0 <= n ->
  (forall v, len v = n -> Q v (advance n d)) -> wp (take_bytes n) d Q.
Proof.
  unfold wf, truncated. intros Hw Ht%bool_decide_eq_false Hn HQ.
  unfold wp, take_bytes. rewrite bind_run. simpl. rewrite bind_run. unfold slice, id.
  rewrite decide_True by lia. simpl. split.
  - unfold advances. simpl. split; [done | lia].
  - apply HQ. unfold len in *. rewrite length_take, length_drop. lia.
Qed.

Lemma wf_advance n d : wf d -> 0 <= n -> truncated n d = false -> wf (advance n d).
Proof. unfold wf, truncated. intros ?? H%bool_decide_eq_false. simpl. lia. Qed.

Lemma wf_advance_1 d : wf d -> at_end d = false -> wf (advance 1 d).
Proof. unfold wf, at_end. intros ? H%bool_decide_eq_false. simpl. lia. Qed.

Create HintDb ber.
#[export] Hint Resolve wp_ret wp_fail wp_gets wf_advance wf_advance_1 advances_refl : ber.
#[export] Hint Extern 2 (wf _) => (eapply advances_wf; [| eassumption]) : ber.

(** [wp_call] applies the rule of a method; it grows with the methods proved. *)
Ltac wp_call := fail.

(** [wps] walks a method's body: one rule per construct, a case split per test. *)
Ltac wps :=
  lazymatch goal with
  | |- wp (mbind _ _) _ _ => apply wp_bind; wps
  | |- wp (gets _) _ _ => apply wp_gets; [eauto 12 with ber | wps]
  | |- wp Offset _ _ => apply wp_gets; [eauto 12 with ber | wps]
  | |- wp (mret _) _ _ => apply wp_ret; [eauto 12 with ber |]
  | |- wp (fail _) _ _ => apply wp_fail; eauto 12 with ber
  | |- wp (wrap_err _ _) _ _ => apply wp_wrap; wps
  | |- wp next_byte _ _ => apply wp_next_byte; [eauto 12 with ber | eassumption | intros ?; wps]
  | |- wp (let _ := _ in _) _ _ => cbv zeta; wps
  | |- wp (match ?p with (_, _) => _ end) _ _ => destruct p; wps
  | |- wp (if decide ?P then _ else _) _ _ =>
      let H := fresh "Hdec" in destruct (decide P) as [H|H]; wps
  | |- wp (if ?b then _ else _) _ _ => destruct b eqn:?; wps
  | |- wp (mismatch _ _ _ ?t) _ _ => unfold mismatch; wps
  | |- wp _ _ _ => first [wp_call; wps | idtac]
  | _ => idtac
  end.

(** ** Accumulators stay in range: the tests against [2^24] make the 64-bit
    arithmetic of the length and of the tag number exact. *)

Lemma accumulate_exact r b w :
  0 <= w <= 8 -> 0 <= r <= 2 ^ 24 -> 0 <= b < 2 ^ w ->
  int64 (Z.lor (Z.shiftl r w) b) = r * 2 ^ w + b /\ 0 <= r * 2 ^ w + b < 2 ^ 33.
Proof.
  intros Hw Hr Hb. rewrite lor_shiftl_add by lia.
  assert (2 ^ w <= 2 ^ 8) by (apply Z.pow_le_mono_r; lia).
  assert (0 <= r * 2 ^ w + b < 2 ^ 33) by nia.
  split; [apply int64_id; unfold is_int64; lia | done].
Qed.

Lemma land_127 b : Z.land (bZ b) 0x7F = bZ b mod 128.
Proof. change 0x7F with (Z.ones 7). by rewrite Z.land_ones by lia. Qed.

Lemma step128_exact r b :
  0 <= r -> ~ r > Z.shiftl 1 24 ->
  int64 (Z.lor (Z.shiftl r 7) (Z.land (bZ b) 0x7F)) = r * 128 + bZ b mod 128
  /\ 0 <= r * 128 + bZ b mod 128.
Proof.
  intros Hr Hs. change (Z.shiftl 1 24) with (2 ^ 24) in Hs.
  pose proof (Z.mod_pos_bound (bZ b) 128 ltac:(lia)). rewrite land_127.
  destruct (accumulate_exact r (bZ b mod 128) 7) as [-> ?]; lia.
Qed.

Lemma step256_exact r b :
  0 <= r -> ~ r > Z.shiftl 1 24 ->
  int64 (Z.lor (Z.shiftl r 8) (bZ b)) = r * 256 + bZ b /\ 0 <= r * 256 + bZ b.
Proof.
  intros Hr Hs. change (Z.shiftl 1 24) with (2 ^ 24) in Hs. pose proof (bZ_range b).
  destruct (accumulate_exact r (bZ b) 8) as [-> ?]; lia.
Qed.

Lemma wp_readBase128_loop fuel r d :
  wf d -> len (data d) - offset d < Z.of_nat fuel -> 0 <= r ->
  wp (readBase128_loop fuel r) d (fun n d' => 0 <= n /\ offset d < offset d').
Proof.
  revert r d. induction fuel as [|fuel IH]; intros r d Hw Hf Hr.
  { unfold wf in Hw. lia. }
  simpl. wps; destruct (step128_exact r b) as [-> ?]; try done.
  - simpl. lia.
  - eapply wp_mono; [apply IH; [eauto 12 with ber | simpl; lia | done] |].
    simpl. intros n d' _ [Hn Ho]. lia.
Qed.

Lemma wp_ReadTag d :
  wf d -> wp ReadTag d (fun '(_, _, n) d' => 0 <= n /\ offset d < offset d').
Proof.
  intros Hw. unfold ReadTag, readBase128. wps.
  - eapply wp_mono; [apply wp_readBase128_loop |].
    + eauto 12 with ber.
    + unfold wf, len in *. simpl. lia.
    + lia.
    + simpl. intros n d' Ha [Hn Ho]. wps. simpl. lia.
  - split; [| simpl; lia]. apply Z.land_nonneg. right. lia.
Qed.

Lemma wp_length_loop n start l d :
  wf d -> truncated (Z.of_nat n) d = false -> 0 <= l ->
  wp (iterate n (length_step start) l) d (fun r _ => 0 <= r).
Proof.
  revert l d. induction n as [|n IH]; intros l d Hw Ht Hl; simpl; [by wps |].
  assert (at_end d = false) as He.
  { unfold at_end, truncated in *. apply bool_decide_eq_false in Ht.
    apply bool_decide_eq_false. lia. }
  unfold length_step. wps. destruct (step256_exact l b) as [-> ?]; try done.
  apply IH; [eauto 12 with ber | | lia].
  unfold truncated in *. apply bool_decide_eq_false in Ht. apply bool_decide_eq_false.
  simpl. lia.
Qed.

Lemma wp_ReadLength d :
  wf d -> wp ReadLength d (fun l d' => 0 <= l /\ offset d < offset d').
Proof.
  intros Hw. unfold ReadLength. wps.
  - pose proof (bZ_range b). simpl. lia.
  - eapply wp_mono; [apply wp_length_loop |].
    + eauto 12 with ber.
    + rewrite Z2Nat.id; [done |]. apply Z.land_nonneg. right. lia.
    + lia.
    + intros l d' [_ Ha] Hl. simpl in *. lia.
Qed.

(** [wp_by lemma] uses a method's rule and hands its postcondition on. *)
Ltac wp_by L := eapply wp_mono; [apply L; eauto 12 with ber |]; cbv beta.

Ltac wp_call ::=
  lazymatch goal with
  | |- wp ReadTag _ _ => wp_by wp_ReadTag; intros [[? ?] ?] ? ? [? ?]
  | |- wp ReadLength _ _ => wp_by wp_ReadLength; intros ? ? ? [? ?]
  | |- wp (take_bytes _) _ _ =>
      apply wp_take_bytes; [eauto 12 with ber | eassumption | done | intros ? ?]
  end.

Lemma wp_decodeInteger n d :
  wf d -> truncated n d = false -> 1 <= n ->
  wp (decodeInteger n) d (fun r d' => is_int64 r /\ offset d < offset d').
Proof.
  intros Hw Ht Hn. unfold decodeInteger.
  assert (at_end d = false).
  { unfold at_end, truncated in *. apply bool_decide_eq_false in Ht.
    apply bool_decide_eq_false. lia. }
  wps. set (r := int64 _).
  assert (is_int64 r) as Hr by apply int64_range. clearbody r.
  assert (truncated (Z.of_nat (Z.to_nat (n - 1))) (advance 1 d) = false) as Ht'.
  { unfold truncated in *. apply bool_decide_eq_false in Ht. apply bool_decide_eq_false.
    simpl. lia. }
  assert (wf (advance 1 d)) as Hw' by eauto 12 with ber.
  assert (offset d < offset (advance 1 d)) as Ho by (simpl; lia).
  revert r Hr Ht' Hw' Ho. generalize (advance 1 d) as d1.
  induction (Z.to_nat (n - 1)) as [|k IH]; intros d1 r Hr Ht' Hw' Ho; simpl.
  - wps. done.
  - assert (at_end d1 = false).
    { unfold at_end, truncated in *. apply bool_decide_eq_false in Ht'.
      apply bool_decide_eq_false. lia. }
    unfold integer_step. wps. apply IH; [apply int64_range | | eauto 12 with ber | simpl; lia].
    unfold truncated in *. apply bool_decide_eq_false in Ht'. apply bool_decide_eq_false.
    simpl. lia.
Qed.

(** ** Every method of the decoder *)

(** A method that consumes at least one byte when it succeeds. *)
Definition consumes {A} (m : Dec A) : Prop :=
  forall d, wf d -> wp m d (fun _ d' => offset d < offset d').

Lemma consumes_ReadBoolean : consumes ReadBoolean.
Proof. intros d Hw. unfold ReadBoolean. wps. simpl. lia. Qed.

Lemma wp_read_int ec en e1 e2 e3 d :
  wf d -> wp (read_int ec en e1 e2 e3) d (fun r d' => is_int64 r /\ offset d < offset d').
Proof.
  intros Hw. unfold read_int. wps.
  eapply wp_mono; [apply wp_decodeInteger; [eauto 12 with ber | done | lia] |].
  intros r dr _ [Hr Ho]. split; [done | lia].
Qed.

Lemma consumes_ReadOctetString : consumes ReadOctetString.
Proof. intros d Hw. unfold ReadOctetString. wps. simpl. lia. Qed.

Lemma consumes_ReadNull : consumes ReadNull.
Proof. intros d Hw. unfold ReadNull. wps. lia. Qed.

Lemma consumes_ReadTaggedValue : consumes ReadTaggedValue.
Proof. intros d Hw. unfold ReadTaggedValue. wps. simpl. lia. Qed.

Lemma wp_expect ec en sh msg d :
  wf d -> wp (expect ec en sh msg) d
    (fun l d' => 0 <= l /\ truncated l d' = false /\ offset d < offset d').
Proof. intros Hw. unfold expect. wps. repeat split; [done | done | lia]. Qed.

Lemma wp_sub_decoder ec en sh msg d :
  wf d -> wp (sub_decoder (expect ec en sh msg)) d
    (fun sub d' => wf sub /\ offset sub = 0 /\ len (data sub) < len (data d)
                   /\ offset d < offset d').
Proof.
  intros Hw. unfold sub_decoder. apply wp_bind.
  eapply wp_mono; [by apply wp_expect |]. intros l d1 Ha (Hl & Ht & Ho).
  wps. simpl. unfold wf in *. simpl. destruct Ha as [Hd Ha].
  unfold truncated in Ht. apply bool_decide_eq_false in Ht. rewrite Hd in Ht.
  rewrite H. repeat split; lia.
Qed.

Lemma wp_PeekTag d : wf d -> wp PeekTag d (fun '(_, _, n) d' => 0 <= n /\ d' = d).
Proof.
  intros Hw. pose proof (wp_ReadTag d Hw) as H. unfold wp, PeekTag in *.
  destruct (ReadTag d) as [[[[c k] n]|e| |] d1]; try done.
  - destruct H as [[Hd _] [Hn _]]. simpl. rewrite Hd. destruct d.
    split; [by apply advances_refl | done].
  - destruct H as [Hd _]. simpl. rewrite Hd. destruct d. by apply advances_refl.
Qed.

Lemma wp_is_tag ec num d : wf d -> wp (is_tag ec num) d (fun _ d' => d' = d).
Proof.
  intros Hw. pose proof (wp_PeekTag d Hw) as H. unfold wp, is_tag in *. rewrite bind_run.
  unfold try. destruct (PeekTag d) as [[[[c k] n]|e| |] d1] eqn:E; try done; simpl.
  - naive_solver.
  - unfold PeekTag in E. destruct (ReadTag d) as [r d2] eqn:Er. injection E as -> <-.
    destruct H as [Hd _]. simpl in Hd. rewrite Hd. destruct d. by split; [apply advances_refl |].
Qed.

Lemma consumes_Skip : consumes Skip.
Proof.
  intros d Hw. unfold Skip. wps. unfold wp. simpl.
  unfold truncated in *. apply bool_decide_eq_false in Heqb. split; [|lia].
  unfold advances. simpl. split; [done | lia].
Qed.

Lemma consumes_ReadRawValue : consumes ReadRawValue.
Proof.
  intros d Hw. unfold ReadRawValue. wps. rename a into l, d'0 into d2.
  apply bool_decide_eq_false in Heqb. unfold id, slice, wf in *.
  destruct H as [Hd Ho], H2 as [Hd2 Ho2]. rewrite Hd2, Hd in *.
  rewrite decide_True by lia. unfold wp, advances. simpl. rewrite Hd2. repeat split; lia.
Qed.

(** ** Sub-decoders and loops *)

Lemma wp_on {A} sub (m : Dec A) d (Q : A * BERDecoder -> BERDecoder -> Prop) :
  wf d -> wp m sub (fun a t => Q (a, t) d) -> wp (on sub m) d Q.
Proof.
  intros Hw. unfold wp, on. destruct (m sub) as [[] t]; try done; intros; simpl.
  - by split; [apply advances_refl | destruct H].
  - by apply advances_refl.
Qed.

(** A loop on the data [D] whose body decreases a measure, or fails, returns. *)
Lemma wp_while {A} D (mu : A -> BERDecoder -> Z) fuel cond (body : A -> Dec A) acc d :
  (forall acc d, wf d -> data d = D -> cond acc d = true ->
     0 <= mu acc d /\ wp (body acc) d (fun acc' d' => mu acc' d' < mu acc d)) ->
  wf d -> data d = D -> mu acc d < Z.of_nat fuel ->
  wp (while fuel cond body acc) d (fun _ _ => True).
Proof.
  intros Hb. revert acc d. induction fuel as [|fuel IH]; intros acc d Hw HD Hf.
  - destruct (cond acc d) eqn:E.
    + destruct (Hb acc d Hw HD E). lia.
    + unfold wp. rewrite while_stop by done. by split; [apply advances_refl |].
  - destruct (cond acc d) eqn:E.
    + unfold wp. rewrite while_step by done. apply wp_bind.
      eapply wp_mono; [by apply Hb |]. intros acc' d' Ha Hm. cbv beta in Hm.
      apply IH; [by eapply advances_wf | by destruct Ha as [-> _] | lia].
    + unfold wp. rewrite while_stop by done. by split; [apply advances_refl |].
Qed.

(** The fuel of the parsers' loops: an iteration consumes a byte or is the last. *)
Definition loop_fuel (d : BERDecoder) : nat := S (S (length (data d))).

(** A loop whose body consumes input. *)
Lemma wp_consume_loop {A} cond (body : A -> Dec A) acc d :
  (forall acc d', wf d' -> data d' = data d ->
     wp (body acc) d' (fun _ d2 => offset d' < offset d2)) ->
  wf d -> wp (while (loop_fuel d) cond body acc) d (fun _ _ => True).
Proof.
  intros Hb Hw. apply (wp_while (data d) (fun _ d => len (data d) - offset d)).
  - intros acc' d' Hw' HD _. split; [unfold wf in Hw'; lia |].
    eapply wp_mono; [by apply Hb |]. intros x d2 Ha Ho. cbv beta in Ho.
    destruct Ha as [-> _]. lia.
  - done.
  - done.
  - unfold wf, loop_fuel, len in *. lia.
Qed.

(** A loop that appends what its body reads. *)
Lemma wp_collect {A} cond (p : Dec A) acc d :
  (forall d', wf d' -> data d' = data d -> wp p d' (fun _ d2 => offset d' < offset d2)) ->
  wf d ->
  wp (while (loop_fuel d) cond (fun acc => x ← p; mret (acc ++ [x])) acc) d (fun _ _ => True).
Proof.
  intros Hp Hw. apply wp_consume_loop; [| done]. intros acc' d' Hw' HD. apply wp_bind.
  eapply wp_mono; [by apply Hp |]. intros x d2 Ha Ho.
  apply wp_ret; [by eapply advances_wf | done].
Qed.

#[export] Hint Resolve consumes_ReadBoolean consumes_ReadOctetString consumes_ReadNull
  consumes_ReadTaggedValue : ber.

Ltac wp_call ::=
  lazymatch goal with
  | |- wp ReadTag _ _ => wp_by wp_ReadTag; intros [[? ?] ?] ? ? [? ?]
  | |- wp ReadLength _ _ => wp_by wp_ReadLength; intros ? ? ? [? ?]
  | |- wp PeekTag _ _ => wp_by wp_PeekTag; intros [[? ?] ?] ? ? [? ->]
  | |- wp (take_bytes _) _ _ =>
      apply wp_take_bytes; [eauto 12 with ber | eassumption | done | intros ? ?]
  | |- wp ReadBoolean _ _ => wp_by consumes_ReadBoolean; intros ? ? ? ?
  | |- wp ReadOctetString _ _ => wp_by consumes_ReadOctetString; intros ? ? ? ?
  | |- wp ReadTaggedValue _ _ => wp_by consumes_ReadTaggedValue; intros ? ? ? ?
  | |- wp ReadInteger _ _ => wp_by wp_read_int; intros ? ? ? [? ?]
  | |- wp ReadEnumerated _ _ => wp_by wp_read_int; intros ? ? ? [? ?]
  | |- wp ExpectSequence _ _ => wp_by wp_expect; intros ? ? ? (? & ? & ?)
  | |- wp ExpectSet _ _ => wp_by wp_expect; intros ? ? ? (? & ? & ?)
  | |- wp (ExpectContextTag _) _ _ => wp_by wp_expect; intros ? ? ? (? & ? & ?)
  | |- wp ReadSequenceContents _ _ => wp_by wp_sub_decoder; intros ? ? ? (? & ? & ? & ?)
  | |- wp (IsContextTag _) _ _ => wp_by wp_is_tag; intros ? ? ? ->
  | |- wp (on _ _) _ _ => apply wp_on; [eauto 12 with ber |]
  end.
