(* ===== verification/BerRoundtrip.v ===== *)
(** * The BER decoder reads back what the encoder writes

    [decodes m bs a]: wherever [bs] stands in the data, [m] started at it returns
    [a] and stops right behind it. The rules compose along the monad, so that the
    round trip of a message follows the shape of its parser. *)

From S2P Require Import Prelude BerEncoder BerDecoder BerSafety.

Definition decodes {A} (m : Dec A) (bs : bytes) (a : A) : Prop :=
  forall pre post,
    m (mkDecoder (pre ++ bs ++ post) (len pre))
    = (Ok a, mkDecoder (pre ++ bs ++ post) (len pre + len bs)).

Section Rules.
Context {A B : Type}.
Implicit Types (m : Dec A) (bs : bytes).

Lemma decodes_bind m (f : A -> Dec B) bs1 bs2 a b :
  decodes m bs1 a -> decodes (f a) bs2 b -> decodes (x ← m; f x) (bs1 ++ bs2) b.
Proof.
  intros Hm Hf pre post. rewrite bind_run, <- app_assoc, Hm.
  specialize (Hf (pre ++ bs1) post). rewrite <- app_assoc, len_app in Hf. rewrite Hf.
  do 2 f_equal. len_lia.
Qed.

Lemma decodes_ret (a : A) : decodes (mret a) [] a.
Proof. intros pre post. simpl. do 2 f_equal. len_lia. Qed.

Lemma decodes_bind_ret m (f : A -> B) bs a :
  decodes m bs a -> decodes (x ← m; mret (f x)) bs (f a).
Proof.
  intros Hm pre post. by rewrite bind_run, Hm.
Qed.

(** A read of the decoder's state that has the same result all over [bs]. *)
Lemma decodes_gets {C} (g : BERDecoder -> C) (f : C -> Dec A) bs c a :
  (forall pre post, g (mkDecoder (pre ++ bs ++ post) (len pre)) = c) ->
  decodes (f c) bs a -> decodes (x ← gets g; f x) bs a.
Proof. intros Hg Hf pre post. rewrite bind_run. simpl. rewrite Hg. apply Hf. Qed.

Lemma decodes_Offset (f : Z -> Dec A) bs a :
  (forall o, decodes (f o) bs a) -> decodes (o ← Offset; f o) bs a.
Proof. intros Hf pre post. rewrite bind_run. simpl. apply Hf. Qed.

Lemma decodes_at_end (f : bool -> Dec A) bs a :
  bs <> [] -> decodes (f false) bs a -> decodes (x ← gets at_end; f x) bs a.
Proof.
  intros Hb. apply decodes_gets. intros pre post. apply bool_decide_eq_false. simpl.
  destruct bs; [done | len_lia].
Qed.

Lemma decodes_truncated n (f : bool -> Dec A) bs a :
  n <= len bs -> decodes (f false) bs a -> decodes (x ← gets (truncated n); f x) bs a.
Proof.
  intros Hb. apply decodes_gets. intros pre post. apply bool_decide_eq_false. simpl. len_lia.
Qed.

Lemma decodes_wrap w m bs a : decodes m bs a -> decodes (wrap_err w m) bs a.
Proof. intros Hm pre post. unfold wrap_err. by rewrite Hm. Qed.

Lemma decodes_app_nil m bs a : decodes m (bs ++ []) a -> decodes m bs a.
Proof. by rewrite app_nil_r. Qed.

(** The whole of the data of a sub-decoder. *)
Lemma decodes_all m bs a :
  decodes m bs a -> m (NewBERDecoder bs) = (Ok a, mkDecoder bs (len bs)).
Proof. intros H. specialize (H [] []). by rewrite app_nil_r in H. Qed.
End Rules.

Lemma decodes_next_byte b : decodes next_byte [b] b.
Proof.
  intros pre post. unfold next_byte. rewrite bind_run. simpl. rewrite bind_run. unfold id. simpl.
  by rewrite index_app.
Qed.

Lemma decodes_take_bytes v n : n = len v -> decodes (take_bytes n) v v.
Proof.
  intros -> pre post. unfold take_bytes. rewrite bind_run. simpl. rewrite bind_run. unfold id. simpl.
  by rewrite slice_app.
Qed.

(** ** Tags *)

Definition valid_flag (k : Z) : Prop := k = TypePrimitive \/ k = TypeConstructed.

(** The three fields of a tag's first byte are read back. *)
Lemma tag_byte_fields c k n :
  valid_class c = true -> valid_flag k -> 0 <= n < 32 ->
  let b := bZ (u8 (Z.lor (Z.lor c k) n)) in
  Z.land b 0xC0 = c /\ Z.land b 0x20 = k /\ Z.land b 0x1F = n.
Proof.
  assert (Forall (fun c => Forall (fun k => Forall (fun n =>
    Z.land (bZ (u8 (Z.lor (Z.lor c k) n))) 0xC0 = c /\
    Z.land (bZ (u8 (Z.lor (Z.lor c k) n))) 0x20 = k /\
    Z.land (bZ (u8 (Z.lor (Z.lor c k) n))) 0x1F = n) (seqZ 0 32)) [0x00; 0x20]) [0x00; 0x40; 0x80; 0xC0]) as H.
  { apply (bool_decide_unpack _). vm_compute. done. }
  intros Hc Hk Hn. rewrite Forall_forall in H. specialize (H c).
  assert (c ∈ [0x00; 0x40; 0x80; 0xC0]) as Hin.
  { unfold valid_class in Hc. apply bool_decide_eq_true in Hc. set_unfold. tauto. }
  specialize (H Hin). rewrite Forall_forall in H.
  assert (k ∈ [0x00; 0x20]) as Hin2 by (destruct Hk as [-> | ->]; set_unfold; auto).
  specialize (H k Hin2). rewrite Forall_forall in H. apply H. apply elem_of_seqZ. lia.
Qed.

Lemma be128_ne_nil k v : (1 <= k)%nat -> be128 k v <> [].
Proof. by destruct k; [lia |]. Qed.

Lemma len_be128 k v : len (be128 k v) = Z.of_nat k.
Proof. induction k; simpl; [done | len_lia]. Qed.

Lemma be128_digit v j :
  bZ (u8 (Z.shiftr v (Z.of_nat j * 7) mod 128 + (if decide (0 < j)%nat then 128 else 0)))
  = Z.shiftr v (Z.of_nat j * 7) mod 128 + (if decide (0 < j)%nat then 128 else 0).
Proof.
  pose proof (Z.mod_pos_bound (Z.shiftr v (Z.of_nat j * 7)) 128 ltac:(lia)).
  apply bZ_u8_small. case_decide; lia.
Qed.

Lemma shiftr_le v i j : 0 <= v -> 0 <= i <= j -> Z.shiftr v j <= Z.shiftr v i.
Proof.
  intros Hv Hij. replace j with (i + (j - i)) by lia.
  rewrite <- Z.shiftr_shiftr, (Z.shiftr_div_pow2 (Z.shiftr v i)) by lia.
  apply Z.div_le_upper_bound; [apply Z.pow_pos_nonneg; lia |].
  assert (0 <= Z.shiftr v i) by (apply Z.shiftr_nonneg; lia).
  assert (1 <= 2 ^ (j - i)) by (pose proof (Z.pow_pos_nonneg 2 (j - i)); lia). nia.
Qed.

(** Reading the base-128 digits: before a digit the accumulator holds the digits
    above it, and the overflow test passes as long as the top ones are small. *)
Lemma decodes_base128_loop fuel k v :
  (1 <= k <= fuel)%nat -> 0 <= v -> Z.shiftr v 7 <= 2 ^ 24 ->
  decodes (readBase128_loop fuel (Z.shiftr v (Z.of_nat k * 7))) (be128 k v) v.
Proof.
  revert k. induction fuel as [|fuel IH]; intros k Hk Hv Hs; [lia |].
  destruct k as [|j]; [lia |]. cbn [readBase128_loop be128].
  apply decodes_at_end; [done |]. set (b := u8 _).
  assert (bZ b = Z.shiftr v (Z.of_nat j * 7) mod 128 + (if decide (0 < j)%nat then 128 else 0))
    as Hb by apply be128_digit.
  pose proof (Z.mod_pos_bound (Z.shiftr v (Z.of_nat j * 7)) 128 ltac:(lia)) as Hd.
  apply (decodes_bind _ _ [b] _ b); [apply decodes_next_byte |].
  pose proof (shiftr_le v 7 (Z.of_nat (S j) * 7) Hv ltac:(lia)).
  assert (0 <= Z.shiftr v (Z.of_nat (S j) * 7)) by (apply Z.shiftr_nonneg; lia).
  rewrite decide_False by (change (Z.shiftl 1 24) with (2 ^ 24); lia).
  destruct (step128_exact (Z.shiftr v (Z.of_nat (S j) * 7)) b) as [He _];
    [lia | change (Z.shiftl 1 24) with (2 ^ 24); lia |].
  cbv zeta. rewrite He.
  replace (bZ b mod 128) with (Z.shiftr v (Z.of_nat j * 7) mod 128)
    by (rewrite Hb; case_decide; Z.div_mod_to_equations; lia).
  replace (Z.of_nat (S j) * 7) with (7 + Z.of_nat j * 7) by lia.
  change 128 with (2 ^ 7). rewrite <- shiftr_split by lia.
  destruct j as [|j].
  - rewrite decide_True.
    + rewrite Z.shiftr_0_r. apply decodes_ret.
    + apply land_128. rewrite Hb, decide_False by lia. rewrite Z.mod_small; lia.
  - rewrite decide_False; [apply IH; lia |].
    rewrite land_128, Hb, decide_True by lia. rewrite Z.mod_small; lia.
Qed.

(** The largest tag number and length the decoder's overflow tests let through. *)
Definition tag_limit : Z := (2 ^ 24 + 1) * 128.
Definition length_limit : Z := (2 ^ 24 + 1) * 256.

Lemma shiftr_limit v w : 0 <= w -> v < (2 ^ 24 + 1) * 2 ^ w -> Z.shiftr v w <= 2 ^ 24.
Proof.
  intros Hw Hv. rewrite Z.shiftr_div_pow2 by lia.
  assert (v / 2 ^ w < 2 ^ 24 + 1); [| lia].
  apply Z.div_lt_upper_bound; [apply Z.pow_pos_nonneg |]; lia.
Qed.

(** Above its own digits a number has only zeros. *)
Lemma shiftr_ndigits w v : 0 < w -> 0 < v -> Z.shiftr v (Z.of_nat (ndigits w v) * w) = 0.
Proof.
  intros Hw Hv. pose proof (ndigits_spec w v Hw Hv) as [_ Hu].
  rewrite Z.shiftr_div_pow2, Z.mul_comm by lia. apply Z.div_small. lia.
Qed.

Lemma decodes_readBase128 v :
  0 < v < tag_limit -> decodes readBase128 (be128 (ndigits 7 v) v) v.
Proof.
  intros Hv pre post. unfold readBase128. rewrite bind_run. simpl gets.
  pose proof (decodes_base128_loop (S (length (pre ++ be128 (ndigits 7 v) v ++ post)))
                (ndigits 7 v) v) as H.
  rewrite shiftr_ndigits in H by lia. cbn match. apply H.
  - pose proof (ndigits_pos 7 v ltac:(lia)). pose proof (len_be128 (ndigits 7 v) v) as Hl.
    unfold len in Hl. rewrite !length_app. lia.
  - lia.
  - apply shiftr_limit; [lia |]. unfold tag_limit in Hv. lia.
Qed.

Lemma decodes_ReadTag c k n :
  valid_class c = true -> valid_flag k -> 0 <= n < tag_limit ->
  decodes ReadTag (tag_bytes c k n) (c, k, n).
Proof.
  intros Hc Hk Hn. unfold ReadTag, tag_bytes.
  apply decodes_Offset. intros o. case_decide as Hs.
  - apply decodes_at_end; [done |].
    apply (decodes_bind _ _ [_] []  _ _ (decodes_next_byte _)).
    destruct (tag_byte_fields c k n) as (-> & -> & ->); [done | done | lia |].
    cbv zeta. rewrite decide_False by lia. apply decodes_ret.
  - apply decodes_at_end; [done |].
    apply (decodes_bind _ _ [_] _ _ _ (decodes_next_byte _)).
    destruct (tag_byte_fields c k 0x1F) as (-> & -> & ->); [done | done | lia |].
    cbv zeta. rewrite decide_True by done. apply decodes_bind_ret, decodes_wrap.
    apply decodes_readBase128. lia.
Qed.

(** ** Lengths *)

Lemma decodes_length_loop start k v :
  0 <= v -> Z.shiftr v 8 <= 2 ^ 24 ->
  decodes (iterate k (length_step start) (Z.shiftr v (Z.of_nat k * 8))) (be_bytes k v) v.
Proof.
  intros Hv Hs. induction k as [|k IH]; cbn [iterate be_bytes].
  { rewrite Z.shiftr_0_r. apply decodes_ret. }
  assert (Z.shiftr v (Z.of_nat (S k) * 8) <= 2 ^ 24) as Hle.
  { etransitivity; [apply (shiftr_le v 8); lia | done]. }
  assert (0 <= Z.shiftr v (Z.of_nat (S k) * 8)) by (apply Z.shiftr_nonneg; lia).
  eapply (decodes_bind _ _ [_] _ (Z.shiftr v (Z.of_nat k * 8))); [| apply IH].
  unfold length_step. rewrite decide_False by (change (Z.shiftl 1 24) with (2 ^ 24); lia).
  eapply (decodes_bind _ _ [_] [] (u8 _)); [apply decodes_next_byte |].
  match goal with |- context [int64 (Z.lor (Z.shiftl ?r 8) (bZ ?b))] =>
    destruct (step256_exact r b) as [-> _] end;
    [lia | change (Z.shiftl 1 24) with (2 ^ 24); lia |].
  rewrite bZ_u8.
  replace (Z.of_nat (S k) * 8) with (8 + Z.of_nat k * 8) by lia.
  change 256 with (2 ^ 8). rewrite <- shiftr_split by lia. apply decodes_ret.
Qed.

(** The byte that announces [k] length bytes. *)
Lemma long_form_byte k :
  (1 <= k <= 127)%nat ->
  Z.land (bZ (u8 (128 + Z.of_nat k))) LengthLongFormBit <> 0 /\
  Z.land (bZ (u8 (128 + Z.of_nat k))) 0x7F = Z.of_nat k.
Proof.
  intros Hk. rewrite land_127, bZ_u8_small by lia. unfold LengthLongFormBit. split.
  - rewrite land_128, Z.mod_small; lia.
  - Z.div_mod_to_equations; lia.
Qed.

Lemma decodes_ReadLength n :
  0 <= n < length_limit -> decodes ReadLength (length_bytes n) n.
Proof.
  intros Hn. unfold ReadLength, length_bytes. apply decodes_Offset. intros o. case_decide as Hs.
  - apply decodes_at_end; [done |].
    apply (decodes_bind _ _ [_] [] _ _ (decodes_next_byte _)).
    rewrite bZ_u8_small by lia. unfold LengthLongFormBit.
    rewrite decide_True by (apply land_128; rewrite Z.mod_small; lia). apply decodes_ret.
  - assert (ndigits 8 n <= 8)%nat by (apply ndigits_le; unfold length_limit in *; lia).
    pose proof (ndigits_pos 8 n ltac:(lia)).
    apply decodes_at_end; [done |].
    apply (decodes_bind _ _ [_] _ _ _ (decodes_next_byte _)).
    destruct (long_form_byte (ndigits 8 n)) as [Hl ->]; [lia |].
    rewrite decide_False by done. cbv zeta. rewrite decide_False by lia.
    apply decodes_truncated; [by rewrite len_be_bytes |].
    rewrite Nat2Z.id. pose proof (decodes_length_loop o (ndigits 8 n) n) as Hd.
    rewrite shiftr_ndigits in Hd by lia. apply Hd; [lia |].
    apply shiftr_limit; [lia |]. unfold length_limit in Hn. lia.
Qed.

Create HintDb decodes.
#[export] Hint Resolve decodes_ReadTag decodes_ReadLength decodes_ret decodes_next_byte : decodes.

(** Beyond the limit the length is refused rather than wrapped around. *)
Lemma length_loop_overflow start k v d pre post :
  (1 <= k)%nat -> 0 <= v -> 2 ^ 24 < Z.shiftr v 8 ->
  data d = pre ++ be_bytes k v ++ post -> offset d = len pre ->
  (iterate k (length_step start) (Z.shiftr v (Z.of_nat k * 8)) d).1
  = Err (DecodeError start "length value overflow" ErrInvalidLength).
Proof.
  intros Hk Hv Hs. revert d pre. induction k as [|k IH]; intros d pre Hd Ho; [lia |].
  cbn [iterate]. rewrite bind_run. unfold length_step at 1.
  destruct (decide (Z.shiftr v (Z.of_nat (S k) * 8) > Z.shiftl 1 24)) as [|Hle]; [done |].
  change (Z.shiftl 1 24) with (2 ^ 24) in Hle.
  destruct k as [|k]; [change (Z.of_nat 1 * 8) with 8 in Hle; lia |].
  destruct d as [dd o]. cbn [data offset] in Hd, Ho. subst dd o.
  pose proof (decodes_next_byte (u8 (Z.shiftr v (Z.of_nat (S k) * 8))) pre
                (be_bytes (S k) v ++ post)) as Hn.
  cbn [app] in Hn. rewrite bind_run.
  change (be_bytes (S (S k)) v ++ post)
    with (u8 (Z.shiftr v (Z.of_nat (S k) * 8)) :: be_bytes (S k) v ++ post).
  rewrite Hn. cbn match.
  assert (0 <= Z.shiftr v (Z.of_nat (S (S k)) * 8)) by (apply Z.shiftr_nonneg; lia).
  destruct (step256_exact (Z.shiftr v (Z.of_nat (S (S k)) * 8))
              (u8 (Z.shiftr v (Z.of_nat (S k) * 8)))) as [He _];
    [lia | change (Z.shiftl 1 24) with (2 ^ 24); lia |].
  unfold mret, M_ret. rewrite He, bZ_u8.
  replace (Z.of_nat (S (S k)) * 8) with (8 + Z.of_nat (S k) * 8) by lia.
  change 256 with (2 ^ 8). rewrite <- shiftr_split by lia.
  apply (IH ltac:(lia) _ (pre ++ [u8 (Z.shiftr v (Z.of_nat (S k) * 8))])); simpl.
  - by rewrite <- app_assoc.
  - len_lia.
Qed.

Lemma ReadLength_overflow n pre post :
  length_limit <= n < 2 ^ 63 ->
  (ReadLength (mkDecoder (pre ++ length_bytes n ++ post) (len pre))).1
  = Err (DecodeError (len pre) "length value overflow" ErrInvalidLength).
Proof.
  unfold length_limit. intros Hn. unfold ReadLength, length_bytes.
  rewrite (decide_False (P := n <= 127)) by lia. set (k := ndigits 8 n).
  assert (1 <= k <= 8)%nat as Hk.
  { split; [apply ndigits_pos; lia | apply ndigits_le; lia]. }
  unfold Offset, gets. rewrite bind_run. cbn match. rewrite bind_run. cbn match.
  replace (at_end _) with false.
  2: { symmetry. apply bool_decide_eq_false. simpl. len_lia. }
  pose proof (decodes_next_byte (u8 (128 + Z.of_nat k)) pre (be_bytes k n ++ post)) as Hb.
  cbn [app] in *. rewrite bind_run, Hb. cbn match.
  destruct (long_form_byte k) as [Hl ->]; [lia |].
  rewrite decide_False by done. cbv zeta. rewrite decide_False by lia.
  rewrite bind_run. cbn match. replace (truncated _ _) with false.
  2: { symmetry. apply bool_decide_eq_false. simpl. pose proof (len_be_bytes k n). len_lia. }
  rewrite Nat2Z.id. pose proof (length_loop_overflow (len pre) k n) as H.
  assert (Z.shiftr n (Z.of_nat k * 8) = 0) as Hz by (apply shiftr_ndigits; lia).
  rewrite Hz in H.
  eapply (H _ (pre ++ [u8 (128 + Z.of_nat k)])); simpl; [lia | lia | | | len_lia].
  - rewrite Z.shiftr_div_pow2 by lia. apply Z.lt_le_trans with (2 ^ 24 + 1); [lia |].
    apply Z.div_le_lower_bound; lia.
  - by rewrite <- app_assoc.
Qed.

(** ** Values *)

Lemma decodes_int_loop k v :
  is_int64 v ->
  decodes (iterate k integer_step (Z.shiftr v (Z.of_nat k * 8))) (be_bytes k v) v.
Proof.
  intros Hv. induction k as [|k IH]; cbn [iterate be_bytes].
  { rewrite Z.shiftr_0_r. apply decodes_ret. }
  eapply (decodes_bind _ _ [_] _ (Z.shiftr v (Z.of_nat k * 8))); [| apply IH].
  eapply (decodes_bind _ _ [_] [] (u8 _)); [apply decodes_next_byte |].
  pose proof (Z.mod_pos_bound (Z.shiftr v (Z.of_nat k * 8)) (2 ^ 8) ltac:(lia)).
  rewrite bZ_u8. change 256 with (2 ^ 8). rewrite lor_shiftl_add by lia.
  replace (Z.of_nat (S k) * 8) with (8 + Z.of_nat k * 8) by lia.
  rewrite <- shiftr_split by lia. rewrite int64_id; [apply decodes_ret |].
  unfold is_int64 in *. rewrite Z.shiftr_div_pow2 by lia.
  pose proof (Z.pow_pos_nonneg 2 (Z.of_nat k * 8)).
  split; [apply Z.div_le_lower_bound | apply Z.div_lt_upper_bound]; nia.
Qed.

(** The sign of the first byte starts the accumulator. *)
Lemma decodes_decodeInteger k v :
  (1 <= k)%nat -> fits k v -> is_int64 v ->
  decodes (decodeInteger (Z.of_nat k)) (be_bytes k v) v.
Proof.
  intros Hk Hf Hv. destruct (be_bytes_head k v) as (b & bs & Hb & Hh); [lia | done |].
  destruct k as [|k]; [lia |]. pose proof (decodes_int_loop (S k) v Hv) as Hd.
  unfold decodeInteger. cbn [be_bytes] in *. injection Hb as <- <-.
  assert ((if high_bit (u8 (Z.shiftr v (Z.of_nat k * 8))) then -1 else 0)
          = Z.shiftr v (Z.of_nat (S k) * 8)) as He.
  { rewrite Hh. rewrite Z.shiftr_div_pow2 by lia. unfold fits in Hf.
    assert (2 ^ (8 * Z.of_nat (S k) - 1) <= 2 ^ (Z.of_nat (S k) * 8))
      by (apply Z.pow_le_mono_r; lia).
    destruct (decide (v < 0)) as [Hn|Hn].
    - rewrite bool_decide_true by done.
      apply Z.div_unique with (v + 2 ^ (Z.of_nat (S k) * 8)); lia.
    - rewrite bool_decide_false, Z.div_small by lia. done. }
  replace (Z.to_nat (Z.of_nat (S k) - 1)) with k by lia.
  intros pre post. specialize (Hd pre post). cbn [iterate] in Hd.
  pose proof (decodes_next_byte (u8 (Z.shiftr v (Z.of_nat k * 8))) pre (be_bytes k v ++ post)) as Hn.
  cbn [app] in *. rewrite bind_run in Hd. unfold integer_step at 1 in Hd.
  erewrite bind_ok in Hd by apply Hn. erewrite bind_ok by apply Hn.
  rewrite He. apply Hd.
Qed.

Section Values.
Variables (c k n : Z) (content : bytes).
Hypothesis (Hc : valid_class c = true) (Hk : valid_flag k).
Hypothesis (Hn : 0 <= n < tag_limit) (Hl : len content < length_limit).

(** Tag, then length, then the continuation on the content. *)
Lemma decodes_tlv {A} (f : Z * Z * Z -> Dec A) (g : Z -> Dec A) a :
  f (c, k, n) = (l ← ReadLength; g l) ->
  decodes (g (len content)) content a ->
  decodes (t ← ReadTag; f t) (tlv c k n content) a.
Proof.
  intros Hf Hg. unfold tlv. eapply decodes_bind; [by apply decodes_ReadTag |].
  rewrite Hf. eapply decodes_bind; [| done].
  apply decodes_ReadLength. pose proof (len_nonneg content). lia.
Qed.
End Values.

Lemma decodes_ReadBoolean v :
  decodes ReadBoolean (tlv ClassUniversal TypePrimitive TagBoolean (bool_content v)) v.
Proof.
  unfold ReadBoolean. apply decodes_Offset. intros o.
  eapply decodes_tlv; [done | by left | done | done | reflexivity |].
  cbv beta. rewrite decide_False by (unfold bool_content; len_lia).
  apply decodes_at_end; [done |].
  destruct v; apply (decodes_bind _ _ [_] [] _ _ (decodes_next_byte _)); apply decodes_ret.
Qed.

Lemma decodes_read_int ec en e1 e2 e3 v :
  valid_class ec = true -> 0 <= en < tag_limit -> is_int64 v ->
  decodes (read_int ec en e1 e2 e3) (tlv ec TypePrimitive en (encodeInteger v)) v.
Proof.
  intros Hc Hn Hv. pose proof (len_encodeInteger v Hv).
  unfold read_int. apply decodes_Offset. intros o.
  eapply decodes_tlv; [done | by left | done | unfold length_limit; lia | |].
  { cbv beta iota. rewrite bool_decide_true by done. reflexivity. }
  cbv beta. rewrite !decide_False by lia. apply decodes_truncated; [done |].
  destruct (encodeInteger_minimal v Hv) as (k & -> & Hk & Hf & _).
  rewrite len_be_bytes. apply decodes_decodeInteger; [lia | done | done].
Qed.

Lemma decodes_ReadOctetString v :
  len v < length_limit ->
  decodes ReadOctetString (tlv ClassUniversal TypePrimitive TagOctetString v) v.
Proof.
  intros Hl. unfold ReadOctetString. apply decodes_Offset. intros o.
  eapply decodes_tlv; [done | by left | done | done | reflexivity |].
  cbv beta. apply decodes_truncated; [done | by apply decodes_take_bytes].
Qed.

Lemma decodes_ReadNull :
  decodes ReadNull (tlv ClassUniversal TypePrimitive TagNull []) tt.
Proof.
  unfold ReadNull. apply decodes_Offset. intros o.
  eapply decodes_tlv; [done | by left | done | done | reflexivity |]. apply decodes_ret.
Qed.

Lemma constructed_flag_valid c : valid_flag (constructed_flag c).
Proof. destruct c; [by right | by left]. Qed.

Lemma decodes_ReadTaggedValue n c v :
  0 <= n < tag_limit -> len v < length_limit ->
  decodes ReadTaggedValue (tlv ClassContextSpecific (constructed_flag c) n v) (n, c, v).
Proof.
  intros Hn Hl. unfold ReadTaggedValue. apply decodes_Offset. intros o.
  eapply decodes_tlv; [done | apply constructed_flag_valid | done | done | |].
  { cbv beta iota. rewrite decide_False by auto. reflexivity. }
  cbv beta. apply decodes_truncated; [done |].
  replace (bool_decide (constructed_flag c = TypeConstructed)) with c by by destruct c.
  apply decodes_bind_ret with (f := fun value => (n, c, value)). by apply decodes_take_bytes.
Qed.

(** ** Containers *)

Section Expect.
Variables (ec en k : Z) (sh : Z -> bool) (msg : string) (content : bytes).
Hypothesis (Hc : valid_class ec = true) (Hk : valid_flag k) (Hsh : sh k = true).
Hypothesis (Hn : 0 <= en < tag_limit) (Hl : len content < length_limit).

Definition header : bytes := tag_bytes ec k en ++ length_bytes (len content).

(** [expect] stops at the content. *)
Lemma expect_run pre post :
  expect ec en sh msg (mkDecoder (pre ++ tlv ec k en content ++ post) (len pre))
  = (Ok (len content),
     mkDecoder (pre ++ tlv ec k en content ++ post) (len pre + len header)).
Proof.
  unfold expect, Offset, tlv, gets. rewrite bind_run. cbn match.
  rewrite <- !app_assoc, bind_run, (decodes_ReadTag ec k en Hc Hk Hn pre). cbn match beta.
  rewrite bool_decide_true, Hsh by done. cbn [negb andb].
  pose proof (decodes_ReadLength (len content)) as Hr. specialize (Hr ltac:(len_lia)).
  specialize (Hr (pre ++ tag_bytes ec k en) (content ++ post)).
  rewrite <- app_assoc, len_app in Hr. rewrite bind_run, Hr.
  rewrite bind_run. cbn match.
  replace (truncated _ _) with false.
  - unfold header, mret, M_ret. do 2 f_equal. len_lia.
  - symmetry. apply bool_decide_eq_false. simpl. len_lia.
Qed.

(** The content of the container is decoded by what follows [expect]. *)
Lemma decodes_expect {A} (f : Z -> Dec A) a :
  decodes (f (len content)) content a ->
  decodes (l ← expect ec en sh msg; f l) (tlv ec k en content) a.
Proof.
  intros Hf pre post. rewrite bind_run, expect_run. specialize (Hf (pre ++ header) post).
  unfold tlv. rewrite len_app in Hf. unfold header in *. rewrite <- !app_assoc in *.
  rewrite Hf. do 2 f_equal. len_lia.
Qed.

Lemma decodes_sub_decoder :
  decodes (sub_decoder (expect ec en sh msg)) (tlv ec k en content) (NewBERDecoder content).
Proof.
  apply decodes_expect, decodes_bind_ret with (f := NewBERDecoder).
  by apply decodes_take_bytes.
Qed.
End Expect.

Lemma decodes_ReadSequenceContents content :
  len content < length_limit ->
  decodes ReadSequenceContents (tlv ClassUniversal TypeConstructed TagSequence content)
    (NewBERDecoder content).
Proof. intros. by apply decodes_sub_decoder; [| right | | |]. Qed.

Lemma decodes_ReadSetContents content :
  len content < length_limit ->
  decodes ReadSetContents (tlv ClassUniversal TypeConstructed TagSet content)
    (NewBERDecoder content).
Proof. intros. by apply decodes_sub_decoder; [| right | | |]. Qed.

(** Looking at a tag does not move the decoder. *)
Lemma PeekTag_run c k n pre post :
  valid_class c = true -> valid_flag k -> 0 <= n < tag_limit ->
  PeekTag (mkDecoder (pre ++ tag_bytes c k n ++ post) (len pre))
  = (Ok (c, k, n), mkDecoder (pre ++ tag_bytes c k n ++ post) (len pre)).
Proof. intros. unfold PeekTag. by rewrite decodes_ReadTag. Qed.

(** A peek followed by the decoding of the element it looked at. *)
Lemma decodes_PeekTag {A} c k n content bs (f : Z * Z * Z -> Dec A) a :
  valid_class c = true -> valid_flag k -> 0 <= n < tag_limit ->
  decodes (f (c, k, n)) (tlv c k n content ++ bs) a ->
  decodes (t ← PeekTag; f t) (tlv c k n content ++ bs) a.
Proof.
  intros Hc Hk Hn Hf pre post. specialize (Hf pre post). unfold tlv in *.
  rewrite <- !app_assoc in *. by rewrite bind_run, PeekTag_run.
Qed.

Lemma decodes_try_PeekTag {A} c k n content bs (f : Z * Z * Z + goerror -> Dec A) a :
  valid_class c = true -> valid_flag k -> 0 <= n < tag_limit ->
  decodes (f (inl (c, k, n))) (tlv c k n content ++ bs) a ->
  decodes (t ← try PeekTag; f t) (tlv c k n content ++ bs) a.
Proof.
  intros Hc Hk Hn Hf pre post. specialize (Hf pre post). unfold tlv, try in *.
  rewrite <- !app_assoc in *. by rewrite bind_run, PeekTag_run.
Qed.

(** ** Sub-decoders and loops *)

(** [ends m bs a]: as [decodes], where [bs] is all that is left of the data. *)
Definition ends {A} (m : Dec A) (bs : bytes) (a : A) : Prop :=
  forall pre, m (mkDecoder (pre ++ bs) (len pre)) = (Ok a, mkDecoder (pre ++ bs) (len pre + len bs)).

Lemma decodes_ends {A} (m : Dec A) bs a : decodes m bs a -> ends m bs a.
Proof. intros H pre. specialize (H pre []). by rewrite app_nil_r in H. Qed.

Lemma ends_all {A} (m : Dec A) bs a :
  ends m bs a -> m (NewBERDecoder bs) = (Ok a, mkDecoder bs (len bs)).
Proof. intros H. apply (H []). Qed.

Lemma ends_bind {A B} (m : Dec A) (f : A -> Dec B) bs1 bs2 a b :
  decodes m bs1 a -> ends (f a) bs2 b -> ends (x ← m; f x) (bs1 ++ bs2) b.
Proof.
  intros Hm Hf pre. rewrite bind_run, Hm. specialize (Hf (pre ++ bs1)).
  rewrite <- app_assoc, len_app in Hf. rewrite Hf. do 2 f_equal. len_lia.
Qed.

Lemma ends_bind_ret {A B} (m : Dec A) (f : A -> B) bs a :
  ends m bs a -> ends (x ← m; mret (f x)) bs (f a).
Proof. intros Hm pre. by rewrite bind_run, Hm. Qed.

Lemma ends_wrap {A} w (m : Dec A) bs a : ends m bs a -> ends (wrap_err w m) bs a.
Proof. intros Hm pre. unfold wrap_err. by rewrite Hm. Qed.

Lemma ends_Offset {A} (f : Z -> Dec A) bs a :
  (forall o, ends (f o) bs a) -> ends (o ← Offset; f o) bs a.
Proof. intros Hf pre. rewrite bind_run. simpl. apply Hf. Qed.

(** Work on a sub-decoder does not move the decoder itself. *)
Lemma decodes_on {A B} (m : Dec A) content (f : A * BERDecoder -> Dec B) bs a b :
  ends m content a ->
  decodes (f (a, mkDecoder content (len content))) bs b ->
  decodes (x ← on (NewBERDecoder content) m; f x) bs b.
Proof.
  intros Hm Hf pre post. rewrite bind_run. unfold on. rewrite (ends_all _ _ _ Hm). apply Hf.
Qed.

Lemma len_tag_bytes c k n : 1 <= len (tag_bytes c k n).
Proof.
  unfold tag_bytes. case_decide; rewrite len_cons; [done |].
  pose proof (len_nonneg (be128 (ndigits 7 n) n)). lia.
Qed.

Lemma len_length_bytes n : 1 <= len (length_bytes n).
Proof. unfold length_bytes. case_decide; cbv zeta; len_lia. Qed.

Lemma len_tlv c k n content : len content + 2 <= len (tlv c k n content).
Proof.
  unfold tlv. rewrite !len_app. pose proof (len_tag_bytes c k n).
  pose proof (len_length_bytes (len content)). lia.
Qed.

Lemma tlv_ne_nil c k n content : tlv c k n content <> [].
Proof.
  intros H. pose proof (len_tlv c k n content). rewrite H in *. len_lia.
Qed.

Lemma len_concat_elem {A} (f : A -> bytes) (xs : list A) x :
  x ∈ xs -> len (f x) <= len (concat (f <$> xs)).
Proof.
  induction 1; rewrite fmap_cons; cbn [concat]; rewrite len_app.
  - pose proof (len_nonneg (concat (f <$> l))). lia.
  - pose proof (len_nonneg (f y)). lia.
Qed.

Lemma length_concat_ge {A} (f : A -> bytes) (xs : list A) :
  (forall x, x ∈ xs -> f x <> []) -> (length xs <= length (concat (f <$> xs)))%nat.
Proof.
  induction xs as [|x xs IH]; intros H; [simpl; lia |].
  rewrite fmap_cons. cbn [concat length]. rewrite length_app.
  specialize (IH ltac:(intros y Hy; apply H; by right)).
  assert (f x <> []) as Hx by (apply H; by left).
  assert (length (f x) <> 0)%nat by (by destruct (f x)). lia.
Qed.

(** A loop that reads one element after the other up to the end [e] of them. *)
Lemma fold_run {A X} (body : A -> Dec A) (enc : X -> bytes) (upd : A -> X -> A)
    cond fuel xs acc pre post D e :
  (forall x acc, x ∈ xs -> decodes (body acc) (enc x) (upd acc x) /\ enc x <> []) ->
  D = pre ++ concat (enc <$> xs) ++ post -> e = len pre + len (concat (enc <$> xs)) ->
  (forall acc o, len pre <= o <= e -> cond acc (mkDecoder D o) = bool_decide (o < e)) ->
  (length xs < fuel)%nat ->
  while fuel cond body acc (mkDecoder D (len pre)) = (Ok (foldl upd acc xs), mkDecoder D e).
Proof.
  revert acc pre fuel. induction xs as [|x xs IH]; intros acc pre fuel Hp HD He Hcond Hf.
  - simpl in *. replace e with (len pre) in * by len_lia.
    apply while_stop. rewrite Hcond by lia. apply bool_decide_eq_false. lia.
  - destruct (Hp x acc) as [Hx Hne]; [by left |].
    rewrite fmap_cons in HD, He. cbn [concat length foldl] in HD, He, Hf |- *.
    destruct fuel as [|fuel]; [lia |].
    pose proof (len_nonneg (concat (enc <$> xs))).
    assert (0 < len (enc x)) by (destruct (enc x); [done | len_lia]). lens.
    rewrite while_step by (rewrite Hcond by lia; apply bool_decide_eq_true; lia).
    rewrite <- app_assoc in HD. specialize (Hx pre (concat (enc <$> xs) ++ post)).
    rewrite <- HD in Hx. rewrite bind_run, Hx.
    replace (len pre + len (enc x)) with (len (pre ++ enc x)) by len_lia.
    apply IH; [| by rewrite <- app_assoc | len_lia | | lia].
    + intros y acc' Hy. apply Hp. by right.
    + intros acc' o Ho. apply Hcond. len_lia.
Qed.

Lemma collect_run {A} (p : Dec A) (enc : A -> bytes) cond fuel xs acc pre post D e :
  (forall x, x ∈ xs -> decodes p (enc x) x /\ enc x <> []) ->
  D = pre ++ concat (enc <$> xs) ++ post -> e = len pre + len (concat (enc <$> xs)) ->
  (forall acc o, len pre <= o <= e -> cond acc (mkDecoder D o) = bool_decide (o < e)) ->
  (length xs < fuel)%nat ->
  while fuel cond (fun acc => x ← p; mret (acc ++ [x])) acc (mkDecoder D (len pre))
  = (Ok (acc ++ xs), mkDecoder D e).
Proof.
  intros Hp HD He Hcond Hf. rewrite <- foldl_snoc. eapply fold_run; [| done..].
  intros x acc' Hx. destruct (Hp x Hx) as [Hd Hn]. split; [| done].
  by apply (decodes_bind_ret p (fun x => acc' ++ [x])).
Qed.
