(* ===== verification/BerTheorems.v ===== *)
(** * What the BER codec guarantees

    The properties of src/internal/ber: round trips, minimal integers, the limits
    of lengths, the container brackets, and the decoder's behaviour on any input. *)

From S2P Require Import Prelude BerEncoder BerDecoder BerSafety BerRoundtrip.

(** ** Integers of fewest bytes *)

(** Reading [n] bytes gives a number that fits in [n] bytes. *)
Lemma int_loop_fits k j r d v d' :
  (1 <= j)%nat -> (j + k <= 8)%nat -> fits j r ->
  iterate k integer_step r d = (Ok v, d') -> fits (j + k) v.
Proof.
  revert j r d. induction k as [|k IH]; intros j r d Hj Hjk Hf H.
  { injection H as -> _. by rewrite Nat.add_0_r. }
  cbn [iterate] in H. apply bind_Ok_inv in H as (r1 & d1 & H1 & H2).
  apply bind_Ok_inv in H1 as (b & d2 & _ & H1). injection H1 as <- _.
  replace (j + S k)%nat with (S j + k)%nat by lia.
  eapply IH; [| | | done]; [lia | lia |].
  pose proof (bZ_range b). rewrite lor_shiftl_add by lia. unfold fits in *.
  replace (8 * Z.of_nat (S j) - 1) with (8 * Z.of_nat j - 1 + 8) by lia.
  rewrite Z.pow_add_r by lia.
  assert (2 ^ (8 * Z.of_nat j - 1) <= 2 ^ 55) by (apply Z.pow_le_mono_r; lia).
  rewrite int64_id by (unfold is_int64; lia). lia.
Qed.

Lemma decodeInteger_fits n d v d' :
  1 <= n <= 8 -> decodeInteger n d = (Ok v, d') -> fits (Z.to_nat n) v.
Proof.
  intros Hn H. unfold decodeInteger in H. apply bind_Ok_inv in H as (b & d1 & _ & H).
  replace (Z.to_nat n) with (1 + Z.to_nat (n - 1))%nat by lia.
  eapply int_loop_fits; [| | | done]; [lia | lia |].
  pose proof (bZ_range b). rewrite lor_shiftl_add by lia. unfold fits. simpl Z.sub.
  rewrite high_bit_spec. case_bool_decide; rewrite int64_id by (unfold is_int64; lia); lia.
Qed.

Lemma fits_mono j k v : (1 <= j <= k)%nat -> fits j v -> fits k v.
Proof.
  unfold fits. intros Hjk Hf.
  assert (2 ^ (8 * Z.of_nat j - 1) <= 2 ^ (8 * Z.of_nat k - 1)) by (apply Z.pow_le_mono_r; lia).
  lia.
Qed.

(** ** Properties *)

(** C31: every 64-bit integer survives the wire: [WriteInteger] (and
    [WriteEnumerated]) never fail, and [ReadInteger] ([ReadEnumerated]) returns
    the number and consumes exactly the bytes written. *)
Theorem ber_integer_roundtrip v (Hv : is_int64 v) :
  (exists bs, encode (WriteInteger v) = Ok bs /\
     ReadInteger (NewBERDecoder bs) = (Ok v, mkDecoder bs (len bs))) /\
  (exists bs, encode (WriteEnumerated v) = Ok bs /\
     ReadEnumerated (NewBERDecoder bs) = (Ok v, mkDecoder bs (len bs))).
Proof.
  split; eexists; (split; [by apply encode_writes, writes_WriteInteger ||
                           by apply encode_writes, writes_WriteEnumerated |]).
  - apply decodes_all. by apply decodes_read_int.
  - apply decodes_all. by apply decodes_read_int.
Qed.

Lemma ber_integer_roundtrip_witness :
  is_int64 (-129) /\ encodeInteger (-129) = [u8 0xFF; u8 0x7F] /\
  exists bs, encode (WriteInteger (-129)) = Ok bs /\
    ReadInteger (NewBERDecoder bs) = (Ok (-129), mkDecoder bs (len bs)).
Proof.
  assert (is_int64 (-129)) as H by (unfold is_int64; lia).
  split; [exact H |]. split; [by vm_compute |].
  apply (ber_integer_roundtrip (-129) H).
Defined.

(** [encodeInteger] uses the fewest octets: whatever one to eight bytes the
    decoder would read as [v], they are at least as many. *)
Theorem ber_integer_minimal v bs d'
    (Hv : is_int64 v) (Hb : 1 <= len bs <= 8)
    (Hd : decodeInteger (len bs) (NewBERDecoder bs) = (Ok v, d')) :
  len (encodeInteger v) <= len bs.
Proof.
  apply decodeInteger_fits in Hd; [| done].
  destruct (encodeInteger_minimal v Hv) as (k & -> & Hk & Hf & Hmin).
  rewrite len_be_bytes. destruct (decide (Z.of_nat k <= len bs)) as [|Hgt]; [done |].
  destruct Hmin as [-> | Hmin]; [lia |]. exfalso. apply Hmin.
  apply (fits_mono (Z.to_nat (len bs))); [lia | done].
Qed.

Lemma ber_integer_minimal_witness :
  decodeInteger 3 (NewBERDecoder [u8 0; u8 0; u8 127]) = (Ok 127, mkDecoder [u8 0; u8 0; u8 127] 3)
  /\ len (encodeInteger 127) <= 3.
Proof.
  split; [by vm_compute |].
  apply (ber_integer_minimal 127 [u8 0; u8 0; u8 127] (mkDecoder [u8 0; u8 0; u8 127] 3));
    [unfold is_int64; lia | unfold len; simpl; lia | by vm_compute].
Defined.

(** C36: [WriteLength] accepts every non-negative [int]; [ReadLength] returns it
    when it is below [(2^24 + 1) * 256] and reports [ErrInvalidLength] above: the
    decoder's overflow test never lets a wrapped length through. *)
Theorem ber_length_exact n (Hn : 0 <= n < 2 ^ 63) :
  encode (WriteLength n) = Ok (length_bytes n) /\
  (ReadLength (NewBERDecoder (length_bytes n))).1 =
    if decide (n < length_limit) then Ok n
    else Err (DecodeError 0 "length value overflow" ErrInvalidLength).
Proof.
  split; [by apply encode_writes, writes_WriteLength |].
  case_decide as H.
  - by rewrite (decodes_all _ _ n) by (apply decodes_ReadLength; lia).
  - pose proof (ReadLength_overflow n [] [] ltac:(lia)) as He.
    by rewrite app_nil_r in He.
Qed.

Lemma ber_length_exact_witness :
  encode (WriteLength 300) = Ok [u8 0x82; u8 1; u8 44] /\
  (ReadLength (NewBERDecoder [u8 0x82; u8 1; u8 44])).1 = Ok 300.
Proof. apply (ber_length_exact 300). lia. Defined.

(** C32: the bracket [Begin...]/[End...] with its reserved bytes and moved content
    leaves the buffer as if tag, minimal length and content had been written in
    order, for sequences, sets, context and application tags. *)
Theorem ber_container_equiv n c body content
    (Hbody : writes body content) (Hlen : len content < 2 ^ 32) (Hn : 0 <= n < 2 ^ 63) :
  let direct class k num :=
    encode (WriteTag class k num ;; WriteLength (len content) ;; WriteRaw content) in
  encode (bracket BeginSequence EndSequence body)
    = direct ClassUniversal TypeConstructed TagSequence /\
  encode (bracket BeginSet EndSet body) = direct ClassUniversal TypeConstructed TagSet /\
  encode (bracket (WriteContextTag n c) EndContextTag body)
    = direct ClassContextSpecific (constructed_flag c) n /\
  encode (bracket (WriteApplicationTag n c) EndApplicationTag body)
    = direct ClassApplication (constructed_flag c) n.
Proof.
  cbv zeta.
  repeat split; erewrite !encode_writes;
    [reflexivity | apply writes_tlv | eapply writes_bracket | reflexivity | apply writes_tlv
     | eapply writes_bracket | reflexivity | apply writes_tlv | eapply writes_bracket
     | reflexivity | apply writes_tlv | eapply writes_bracket];
    try done; try (unfold TagSequence, TagSet; lia);
    auto using begins_BeginSequence, begins_BeginSet, begins_WriteContextTag,
      begins_WriteApplicationTag.
Qed.

Lemma ber_container_equiv_witness :
  encode (bracket BeginSequence EndSequence (WriteRaw (repeat (u8 7) 200)))
  = encode (WriteTag ClassUniversal TypeConstructed TagSequence ;;
            WriteLength 200 ;; WriteRaw (repeat (u8 7) 200)).
Proof.
  apply (ber_container_equiv 3 true (WriteRaw (repeat (u8 7) 200)) (repeat (u8 7) 200)
           (writes_raw _)); [by vm_compute | lia].
Defined.

(** On any data, from any offset inside it, a method returns a value or an error
    (it neither panics nor runs on), leaves the data alone, and moves the offset
    forward and not past the end. *)
Definition robust {A} (m : Dec A) : Prop :=
  forall bs o, 0 <= o <= len bs ->
    let '(r, d') := m (mkDecoder bs o) in
    returns r /\ data d' = bs /\ o <= offset d' <= len bs.

Lemma wp_robust {A} (m : Dec A) (Q : BERDecoder -> A -> BERDecoder -> Prop) :
  (forall d, wf d -> wp m d (Q d)) -> robust m.
Proof.
  intros H bs o Ho. specialize (H (mkDecoder bs o) Ho). unfold wp, advances in H. simpl in H.
  destruct (m (mkDecoder bs o)) as [[] d1]; simpl; tauto.
Qed.

Lemma consumes_robust {A} (m : Dec A) : consumes m -> robust m.
Proof. apply (wp_robust m (fun d _ d' => offset d < offset d')). Qed.

(** C33: the decoder is total on hostile input: no method of it panics or loops,
    whatever the bytes and the offset. *)
Theorem ber_decoder_total num :
  robust ReadTag /\ robust ReadLength /\ robust ReadBoolean /\ robust ReadInteger /\
  robust ReadEnumerated /\ robust (ReadIntegerWithTag num) /\ robust ReadOctetString /\
  robust ReadNull /\ robust PeekTag /\ robust Skip /\ robust ReadRawValue /\
  robust ReadTaggedValue /\ robust ExpectSequence /\ robust ExpectSet /\
  robust (ExpectContextTag num) /\ robust (ExpectApplicationTag num) /\
  robust (IsContextTag num) /\ robust (IsApplicationTag num) /\
  robust ReadSequenceContents /\ robust ReadSetContents /\
  robust (ReadContextTagContents num) /\ robust (ReadApplicationTagContents num).
Proof.
  repeat split;
    first [ apply consumes_robust; solve [auto using consumes_ReadBoolean,
              consumes_ReadOctetString, consumes_ReadNull, consumes_Skip,
              consumes_ReadRawValue, consumes_ReadTaggedValue]
          | eapply wp_robust; intros d Hd;
            first [ by apply wp_ReadTag | by apply wp_ReadLength | by apply wp_read_int
                  | by apply wp_PeekTag | by apply wp_expect | by apply wp_is_tag
                  | by apply wp_sub_decoder ] ].
Qed.
