(* ===== verification/LdapMessage.v ===== *)
(** * The LDAP message envelope (src/internal/ldap/types.go, message.go)

    [LDAPMessage] with its controls: parsing, encoding, and their round trip;
    parsing is total on hostile input. *)

From S2P Require Import Prelude BerEncoder BerDecoder BerSafety BerRoundtrip.

(** ** Data *)

Definition ApplicationUnbindRequest : Z := 2.
Definition ApplicationDelRequest : Z := 10.
Definition ApplicationAbandonRequest : Z := 16.
Definition ContextTagControls : Z := 0.
Definition MinMessageID : Z := 0.
Definition MaxMessageID : Z := 2147483647.

Record Control := mkControl {
  OID : gostring;
  Criticality : bool;
  Value : bytes
}.

Record RawOperation := mkRawOperation {
  Tag : Z;
  Data : bytes
}.

Record LDAPMessage := mkLDAPMessage {
  MessageID : Z;
  Operation : option RawOperation;
  Controls : list Control
}.

Definition OperationType (m : LDAPMessage) : Z :=
  match Operation m with None => -1 | Some op => Tag op end.

Definition ErrInvalidMessageID : goerror := ErrConst "ErrInvalidMessageID".
Definition ErrMissingOperation : goerror := ErrConst "ErrMissingOperation".
Definition ErrInvalidOperation : goerror := ErrConst "ErrInvalidOperation".
Definition ErrEmptyMessage : goerror := ErrConst "ErrEmptyMessage".

(** [return NewParseError(decoder.Offset(), msg, err)]. *)
Definition parse_err {A} (msg : string) (m : Dec A) : Dec A :=
  wrap_err (fun d err => ParseError (offset d) msg err) m.

Definition has_more (d : BERDecoder) : bool := bool_decide (Remaining d > 0).

(** ** Parsing *)

(** [if Remaining() > 0 { peek; if the tag is Universal num { read } }]. *)
Definition optional {A} (num : Z) (default : A) (read : Dec A) : Dec A :=
  more ← gets has_more;
  if (more : bool) then
    t ← try PeekTag;
    match t with
    | inl (class, _, tagNum) =>
        if decide (class = ClassUniversal /\ tagNum = num) then read else mret default
    | inr _ => mret default
    end
  else mret default.

Definition control_fields : Dec Control :=
  oid ← parse_err "failed to read control OID" ReadOctetString;
  criticality ← optional TagBoolean false
                  (parse_err "failed to read control criticality" ReadBoolean);
  value ← optional TagOctetString []
            (parse_err "failed to read control value" ReadOctetString);
  mret (mkControl oid criticality value).

Definition parseControl : Dec Control :=
  ctrlSeqDecoder ← ReadSequenceContents;
  '(ctrl, _) ← on ctrlSeqDecoder control_fields;
  mret ctrl.

(** [for decoder.Offset() < seqEnd && decoder.Remaining() > 0]. *)
Definition until (seqEnd : Z) {A} (_ : A) (d : BERDecoder) : bool :=
  bool_decide (offset d < seqEnd) && has_more d.

(** [for decoder.Offset() < end && decoder.Remaining() > 0 { append(p()) }]. *)
Definition elements {A} (p : Dec A) (seqEnd : Z) : Dec (list A) :=
  fuel ← gets loop_fuel;
  while fuel (until seqEnd) (fun xs => x ← p; mret (xs ++ [x])) [].

(** The remaining controls, up to the first that does not parse. *)
Definition remaining_controls (controls : list Control) : Dec (list Control * bool) :=
  fuel ← gets loop_fuel;
  while fuel (fun '(_, stop) d => negb stop && has_more d)
    (fun '(cs, _) =>
       r ← try parseControl;
       mret match r with inl ctrl => (cs ++ [ctrl], false) | inr _ => (cs, true) end)
    (controls, false).

(** Is the first element inside an OCTET STRING? A failed peek yields zeros. *)
Definition starts_with_octets : Dec bool :=
  more ← gets has_more;
  if (more : bool) then
    inner ← try PeekTag;
    let '(innerClass, innerTag) :=
      match inner with inl (c, _, t) => (c, t) | inr _ => (0, 0) end in
    mret (bool_decide (innerClass = ClassUniversal /\ innerTag = TagOctetString))
  else mret false.

Definition parseControls : Dec (list Control) :=
  ctrlSeqLength ← ExpectContextTag ContextTagControls;
  if decide (ctrlSeqLength = 0) then mret []
  else
    '(class, _, tagNum) ← PeekTag;
    if decide (class = ClassUniversal /\ tagNum = TagSequence) then
      startOffset ← Offset;
      seqLength ← ExpectSequence;
      o ← Offset;
      let seqEnd := o + seqLength in
      single ← starts_with_octets;
      if (single : bool) then
        SetOffset startOffset ;;
        ctrl ← parseControl;
        '(controls, _) ← remaining_controls [ctrl];
        mret controls
      else
        elements parseControl seqEnd
    else
      o ← Offset; fail (ParseError o "expected SEQUENCE for controls" ErrNil).

(** From the operation's content on: the operation, then the controls. *)
Definition message_tail (msgID tagNum opContentStart opContentEnd seqContentEnd : Z)
    : Dec LDAPMessage :=
  d ← gets id;
  if decide (opContentEnd > len (data d)) then
    fail (ParseError opContentStart "truncated protocolOp data" ErrUnexpectedEOF)
  else
    opData ← slice (data d) opContentStart opContentEnd;
    let msg := mkLDAPMessage msgID (Some (mkRawOperation tagNum opData)) in
    if decide (opContentEnd < seqContentEnd) then
      remainingData ← slice (data d) opContentEnd seqContentEnd;
      if decide (len remainingData > 0) then
        '(controls, _) ←
          wrap_err (fun _ err => ParseError opContentEnd "failed to parse controls" err)
            (on (NewBERDecoder remainingData)
               (yes ← IsContextTag ContextTagControls;
                if (yes : bool) then parseControls else mret []));
        mret (msg controls)
      else mret (msg [])
    else mret (msg []).

Definition message_fields : Dec LDAPMessage :=
  seqLength ← wrap_err (fun _ err => ParseError 0 "expected SEQUENCE for LDAPMessage" err)
                ExpectSequence;
  seqContentStart ← Offset;
  let seqContentEnd := seqContentStart + seqLength in
  msgID ← parse_err "failed to read messageID" ReadInteger;
  if decide (msgID < MinMessageID \/ msgID > MaxMessageID) then fail ErrInvalidMessageID
  else
    opStartOffset ← Offset;
    '(class, _, tagNum) ←
      wrap_err (fun _ err => ParseError opStartOffset "failed to read protocolOp tag" err) ReadTag;
    if decide (class <> ClassApplication) then
      fail (ParseError opStartOffset "protocolOp must have APPLICATION tag class"
              ErrInvalidOperation)
    else
      opLength ← parse_err "failed to read protocolOp length" ReadLength;
      opContentStart ← Offset;
      message_tail msgID tagNum opContentStart (opContentStart + opLength) seqContentEnd.

(** A parser on fresh data. *)
Definition run_parser {A} (m : Dec A) (data : bytes) : outcome A := (m (NewBERDecoder data)).1.

Definition ParseLDAPMessage (data : bytes) : outcome LDAPMessage :=
  if decide (len data = 0) then Err ErrEmptyMessage else run_parser message_fields data.

(** ** Encoding *)

Definition encodeControl (ctrl : Control) : Enc unit :=
  bracket BeginSequence EndSequence
    (WriteOctetString (OID ctrl) ;;
     (if Criticality ctrl then WriteBoolean true else mret tt) ;;
     (if decide (len (Value ctrl) > 0) then WriteOctetString (Value ctrl) else mret tt)).

Definition encodeControls (controls : list Control) : Enc unit :=
  bracket (WriteContextTag ContextTagControls true) EndContextTag
    (bracket BeginSequence EndSequence (for_each controls encodeControl)).

Definition isConstructedOperation (tag : Z) : bool :=
  negb (bool_decide (tag = ApplicationUnbindRequest \/ tag = ApplicationAbandonRequest
                     \/ tag = ApplicationDelRequest)).

Definition Encode (m : LDAPMessage) : outcome bytes :=
  if decide (MessageID m < MinMessageID \/ MessageID m > MaxMessageID) then
    Err ErrInvalidMessageID
  else
    match Operation m with
    | None => Err ErrMissingOperation
    | Some op =>
        encode
          (bracket BeginSequence EndSequence
             (WriteInteger (MessageID m) ;;
              bracket (WriteApplicationTag (Tag op) (isConstructedOperation (Tag op)))
                EndApplicationTag (WriteRaw (Data op)) ;;
              (if decide (len (Controls m) > 0) then encodeControls (Controls m) else mret tt)))
    end.

(** ** Reference encodings *)

Definition octets (v : bytes) : bytes := tlv ClassUniversal TypePrimitive TagOctetString v.
Definition sequence (c : bytes) : bytes := tlv ClassUniversal TypeConstructed TagSequence c.
Definition set_of (c : bytes) : bytes := tlv ClassUniversal TypeConstructed TagSet c.

Definition control_content (c : Control) : bytes :=
  octets (OID c)
  ++ (if Criticality c then tlv ClassUniversal TypePrimitive TagBoolean (bool_content true) else [])
  ++ (if decide (len (Value c) > 0) then octets (Value c) else []).

Definition control_bytes (c : Control) : bytes := sequence (control_content c).

Definition controls_content (cs : list Control) : bytes := concat (control_bytes <$> cs).

Definition controls_bytes (cs : list Control) : bytes :=
  tlv ClassContextSpecific TypeConstructed ContextTagControls (sequence (controls_content cs)).

Definition message_content (id : Z) (op : RawOperation) (cs : list Control) : bytes :=
  tlv ClassUniversal TypePrimitive TagInteger (encodeInteger id)
  ++ tlv ClassApplication (constructed_flag (isConstructedOperation (Tag op))) (Tag op) (Data op)
  ++ (if decide (len cs > 0) then controls_bytes cs else []).

(** [tlv_lia]: a TLV is longer than its content. *)
Ltac tlv_facts :=
  repeat match goal with
         | H : context [len (tlv ?c ?k ?n ?x)] |- _ =>
             lazymatch goal with
             | _ : len x + 2 <= len (tlv c k n x) |- _ => fail
             | _ => pose proof (len_tlv c k n x)
             end
         | |- context [len (tlv ?c ?k ?n ?x)] =>
             lazymatch goal with
             | _ : len x + 2 <= len (tlv c k n x) |- _ => fail
             | _ => pose proof (len_tlv c k n x)
             end
         end.
Ltac tlv_lia :=
  unfold octets, sequence, set_of, length_limit in *; lens; tlv_facts; lens; tlv_facts; len_lia.

Lemma writes_nothing : writes (mret tt) [].
Proof. intros buf. by rewrite app_nil_r. Qed.

Lemma writes_octets v : len v < 2 ^ 63 -> writes (WriteOctetString v) (octets v).
Proof. apply writes_WriteOctetString. Qed.

Lemma writes_sequence body content :
  writes body content -> len content < 2 ^ 32 ->
  writes (bracket BeginSequence EndSequence body) (sequence content).
Proof. intros. by apply writes_bracket; [apply begins_BeginSequence | |]. Qed.

Lemma writes_set body content :
  writes body content -> len content < 2 ^ 32 ->
  writes (bracket BeginSet EndSet body) (set_of content).
Proof. intros. by apply writes_bracket; [apply begins_BeginSet | |]. Qed.

Lemma writes_encodeControl c :
  len (control_content c) < 2 ^ 32 -> writes (encodeControl c) (control_bytes c).
Proof.
  intros Hl. apply writes_sequence; [| done]. unfold control_content in *.
  apply writes_bind; [apply writes_octets; tlv_lia |].
  apply writes_bind.
  - destruct (Criticality c); [apply writes_WriteBoolean | apply writes_nothing].
  - case_decide; [apply writes_octets; tlv_lia | apply writes_nothing].
Qed.

Lemma writes_encodeControls cs :
  len (sequence (controls_content cs)) < 2 ^ 32 -> writes (encodeControls cs) (controls_bytes cs).
Proof.
  intros Hl. eapply (writes_bracket _ (tag_bytes _ _ _)); [by apply begins_WriteContextTag | | done].
  apply writes_sequence; [| tlv_lia]. apply writes_for_each. intros c Hc.
  apply writes_encodeControl.
  pose proof (len_concat_elem control_bytes cs c Hc) as He. unfold control_bytes at 1 in He.
  unfold controls_content in Hl. tlv_lia.
Qed.

Lemma Encode_bytes id op cs :
  0 <= id <= MaxMessageID -> 0 <= Tag op < tag_limit ->
  len (message_content id op cs) < 2 ^ 32 ->
  Encode (mkLDAPMessage id (Some op) cs) = Ok (sequence (message_content id op cs)).
Proof.
  unfold MaxMessageID, tag_limit. intros Hid Ht Hl. unfold Encode, MinMessageID, MaxMessageID.
  cbn [MessageID Operation Controls]. rewrite decide_False by lia.
  apply encode_writes, writes_sequence; [| done]. unfold message_content in *.
  apply writes_bind; [apply writes_WriteInteger; unfold is_int64; lia |].
  apply writes_bind.
  - apply writes_bracket; [apply begins_WriteApplicationTag; lia | apply writes_raw | tlv_lia].
  - case_decide; [| apply writes_nothing].
    apply writes_encodeControls. unfold controls_bytes in *. tlv_lia.
Qed.

(** ** Optional elements *)

Lemma has_more_app pre bs post :
  bs <> [] -> has_more (mkDecoder (pre ++ bs ++ post) (len pre)) = true.
Proof.
  intros Hb. apply bool_decide_eq_true. unfold Remaining. simpl. destruct bs; [done | len_lia].
Qed.

Lemma decodes_optional {A} num (default : A) read k content a :
  valid_flag k -> 0 <= num < tag_limit ->
  decodes read (tlv ClassUniversal k num content) a ->
  decodes (optional num default read) (tlv ClassUniversal k num content) a.
Proof.
  intros Hk Hn Hr. unfold optional. eapply decodes_gets.
  { intros pre post. apply has_more_app, tlv_ne_nil. }
  apply decodes_app_nil. eapply decodes_try_PeekTag; [done | done | done |].
  rewrite app_nil_r. by rewrite decide_True.
Qed.

Lemma ends_optional_none {A B} num (default : A) read (f : A -> Dec B) b :
  ends (f default) [] b -> ends (x ← optional num default read; f x) [] b.
Proof.
  intros Hf pre. specialize (Hf pre). rewrite app_nil_r in *. rewrite bind_run.
  unfold optional. rewrite bind_run. unfold gets. cbn match.
  replace (has_more _) with false; [done |].
  symmetry. apply bool_decide_eq_false. unfold Remaining. simpl. lia.
Qed.

Lemma ends_optional_other {A B} num num' (default : A) read (f : A -> Dec B) k content b :
  valid_flag k -> 0 <= num' < tag_limit -> num' <> num ->
  ends (f default) (tlv ClassUniversal k num' content) b ->
  ends (x ← optional num default read; f x) (tlv ClassUniversal k num' content) b.
Proof.
  intros Hk Hn Hne Hf pre. specialize (Hf pre). rewrite bind_run. unfold optional.
  rewrite bind_run. unfold gets. cbn match.
  pose proof (has_more_app pre (tlv ClassUniversal k num' content) [] (tlv_ne_nil _ _ _ _)) as Hm.
  rewrite app_nil_r in Hm. rewrite Hm, bind_run. unfold try.
  pose proof (PeekTag_run ClassUniversal k num' pre (length_bytes (len content) ++ content)) as Hp.
  unfold tlv at 1. rewrite Hp by done. rewrite decide_False by tauto. apply Hf.
Qed.

Lemma ends_control_fields c :
  len (control_content c) < length_limit -> ends control_fields (control_content c) c.
Proof.
  intros Hl. destruct c as [oid crit val]. unfold control_fields, control_content in *.
  cbn [OID Criticality Value] in *.
  eapply ends_bind; [apply decodes_wrap, decodes_ReadOctetString; tlv_lia |].
  assert (forall crit, ends (value ← optional TagOctetString []
            (parse_err "failed to read control value" ReadOctetString);
            mret (mkControl oid crit value))
            (if decide (len val > 0) then octets val else []) (mkControl oid crit val)) as Hv.
  { intros cr. case_decide as Hval.
    - apply (ends_bind_ret _ (fun v => mkControl oid cr v)), decodes_ends.
      apply decodes_optional; [by left | done |]. apply decodes_wrap, decodes_ReadOctetString. tlv_lia.
    - apply ends_optional_none. replace val with (@nil byte).
      + apply decodes_ends, decodes_ret.
      + symmetry. apply len_zero_nil. pose proof (len_nonneg val). lia. }
  destruct crit.
  - eapply ends_bind; [| apply Hv].
    apply decodes_optional; [by left | done |]. apply decodes_wrap, decodes_ReadBoolean.
  - cbn [app]. specialize (Hv false). case_decide as Hval.
    + by apply ends_optional_other; [left | | |].
    + by apply ends_optional_none.
Qed.

Lemma decodes_parseControl c :
  len (control_content c) < length_limit -> decodes parseControl (control_bytes c) c.
Proof.
  intros Hl. unfold parseControl. apply decodes_app_nil.
  eapply decodes_bind; [by apply decodes_ReadSequenceContents |].
  eapply decodes_on; [by apply ends_control_fields |]. apply decodes_ret.
Qed.

(** ** Lists of elements up to a known end *)

Lemma elements_run {A} (p : Dec A) (enc : A -> bytes) xs C pre post :
  (forall x, x ∈ xs -> decodes p (enc x) x /\ enc x <> []) -> C = concat (enc <$> xs) ->
  elements p (len pre + len C) (mkDecoder (pre ++ C ++ post) (len pre))
  = (Ok xs, mkDecoder (pre ++ C ++ post) (len pre + len C)).
Proof.
  intros Hp HC. unfold elements. rewrite bind_run. unfold gets. cbn match.
  rewrite (collect_run p enc _ _ xs [] pre post _ (len pre + len C));
    [done | done | by rewrite HC | by rewrite HC | |].
  - intros acc o Ho. unfold until, has_more, Remaining. cbn [data offset].
    case_bool_decide; [| done]. cbn [andb]. apply bool_decide_eq_true. len_lia.
  - unfold loop_fuel. cbn [data]. rewrite !length_app.
    pose proof (length_concat_ge enc xs ltac:(intros x Hx; by apply Hp)) as Hge.
    rewrite <- HC in Hge. lia.
Qed.

Lemma decodes_elements {A} (p : Dec A) (enc : A -> bytes) xs :
  (forall x, x ∈ xs -> decodes p (enc x) x /\ enc x <> []) ->
  decodes (o ← Offset; elements p (o + len (concat (enc <$> xs)))) (concat (enc <$> xs)) xs.
Proof. intros Hp pre post. rewrite bind_run. by apply (elements_run p enc). Qed.

Lemma starts_with_octets_run content pre post :
  starts_with_octets (mkDecoder (pre ++ sequence content ++ post) (len pre))
  = (Ok false, mkDecoder (pre ++ sequence content ++ post) (len pre)).
Proof.
  unfold starts_with_octets. rewrite bind_run. unfold gets. cbn match.
  rewrite has_more_app by apply tlv_ne_nil.
  unfold sequence, tlv. rewrite <- !app_assoc, bind_run. unfold try.
  by rewrite PeekTag_run; [| | right |].
Qed.

Lemma controls_content_parts cs c :
  c ∈ cs -> len (control_content c) + 2 <= len (controls_content cs).
Proof.
  intros Hc. pose proof (len_concat_elem control_bytes cs c Hc) as He.
  unfold control_bytes at 1 in He. unfold controls_content. tlv_lia.
Qed.

(** The controls inside their wrapper SEQUENCE. *)
Lemma decodes_wrapped_controls cs (single : Dec (list Control)) :
  cs <> [] -> len (controls_content cs) < length_limit ->
  decodes (o ← Offset; b ← starts_with_octets;
           if (b : bool) then single else elements parseControl (o + len (controls_content cs)))
    (controls_content cs) cs.
Proof.
  intros Hne Hl.
  assert (decodes (o ← Offset; elements parseControl (o + len (controls_content cs)))
            (controls_content cs) cs) as He.
  { apply decodes_elements. intros c Hc. split; [| apply tlv_ne_nil].
    apply decodes_parseControl. pose proof (controls_content_parts cs c Hc). tlv_lia. }
  intros pre post. specialize (He pre post). rewrite bind_run in *. unfold Offset, gets in *.
  cbn match in *. rewrite bind_run. destruct cs as [|c cs]; [done |].
  pose proof (starts_with_octets_run (control_content c) pre (controls_content cs ++ post)) as Hs.
  change (controls_content (c :: cs))
    with (sequence (control_content c) ++ controls_content cs) in *.
  rewrite <- !app_assoc in *. by rewrite Hs.
Qed.

Lemma decodes_parseControls cs :
  cs <> [] -> len (sequence (controls_content cs)) < length_limit ->
  decodes parseControls (controls_bytes cs) cs.
Proof.
  intros Hne Hl. unfold parseControls, controls_bytes.
  apply decodes_expect; [done | by right | done | done | done |].
  rewrite decide_False by tlv_lia. apply decodes_app_nil. apply decodes_PeekTag;
    [done | by right | done |].
  rewrite app_nil_r, decide_True by done. apply decodes_Offset. intros o.
  apply decodes_expect; [done | by right | done | done | tlv_lia |].
  apply decodes_wrapped_controls; [done | tlv_lia].
Qed.

(** ** The message *)

(** The controls behind the operation, decoded by a decoder of their own. *)
Lemma controls_part_run cs (w : BERDecoder -> goerror -> goerror) d :
  len (controls_bytes cs) < length_limit -> cs <> [] ->
  wrap_err w (on (NewBERDecoder (controls_bytes cs))
    (yes ← IsContextTag ContextTagControls;
     if (yes : bool) then parseControls else mret [])) d
  = (Ok (cs, mkDecoder (controls_bytes cs) (len (controls_bytes cs))), d).
Proof.
  intros Hl Hne. unfold wrap_err, on.
  rewrite (ends_all _ (controls_bytes cs) cs); [done |].
  apply decodes_ends. intros pre post. unfold IsContextTag, is_tag.
  pose proof (decodes_parseControls cs Hne ltac:(unfold controls_bytes in *; tlv_lia) pre post) as Hd.
  assert (exists X, controls_bytes cs ++ post
            = tag_bytes ClassContextSpecific TypeConstructed ContextTagControls ++ X) as [X HX].
  { unfold controls_bytes, tlv. rewrite <- !app_assoc. by eexists. }
  rewrite HX in *. rewrite bind_run, bind_run. unfold try.
  by rewrite PeekTag_run by first [done | by right].
Qed.

Definition tail_bytes (cs : list Control) : bytes :=
  if decide (len cs > 0) then controls_bytes cs else [].

Lemma message_tail_run id op cs pre :
  len (tail_bytes cs) < length_limit ->
  let D := pre ++ Data op ++ tail_bytes cs in
  message_tail id (Tag op) (len pre) (len pre + len (Data op)) (len D) (mkDecoder D (len pre))
  = (Ok (mkLDAPMessage id (Some op) cs), mkDecoder D (len pre)).
Proof.
  intros Hl D. unfold message_tail. rewrite bind_run. unfold gets, Datatypes.id. cbn match.
  cbn [data]. subst D. unfold tail_bytes in *.
  rewrite decide_False by len_lia. rewrite bind_run, slice_app.
  assert (mkRawOperation (Tag op) (Data op) = op) as -> by by destruct op.
  destruct (decide (len cs > 0)) as [Hc|Hc].
  - assert (0 < len (controls_bytes cs)) by (unfold controls_bytes; tlv_lia).
    rewrite (decide_True (P := _ < _)) by len_lia.
    rewrite bind_run. pose proof (slice_app (S := BERDecoder) (pre ++ Data op) (controls_bytes cs) []) as Hs.
    rewrite app_nil_r, <- app_assoc in Hs. rewrite !len_app in *. rewrite Z.add_assoc, Hs.
    rewrite (decide_True (P := _ > 0)) by len_lia.
    rewrite bind_run, controls_part_run; [done | done |]. by intros ->.
  - rewrite decide_False by len_lia.
    assert (cs = []) as -> by (apply len_zero_nil; pose proof (len_nonneg cs); lia). done.
Qed.

Lemma message_content_eq id op cs :
  message_content id op cs
  = tlv ClassUniversal TypePrimitive TagInteger (encodeInteger id)
    ++ tag_bytes ClassApplication (constructed_flag (isConstructedOperation (Tag op))) (Tag op)
    ++ length_bytes (len (Data op)) ++ Data op ++ tail_bytes cs.
Proof. unfold message_content, tlv. by rewrite <- !app_assoc. Qed.

(** [yields m pre bs a]: behind [pre] and on the rest [bs] of the data, [m] returns
    [a], wherever it stops. *)
Definition yields {A} (m : Dec A) (pre bs : bytes) (a : A) : Prop :=
  (m (mkDecoder (pre ++ bs) (len pre))).1 = Ok a.

Lemma yields_bind {A B} (m : Dec A) (f : A -> Dec B) pre bs1 bs2 a b :
  decodes m bs1 a -> yields (f a) (pre ++ bs1) bs2 b -> yields (x ← m; f x) pre (bs1 ++ bs2) b.
Proof.
  unfold yields. intros Hm Hf. rewrite bind_run, Hm. by rewrite <- app_assoc, len_app in Hf.
Qed.

Lemma yields_Offset {A} (f : Z -> Dec A) pre bs a :
  yields (f (len pre)) pre bs a -> yields (o ← Offset; f o) pre bs a.
Proof. done. Qed.

Lemma yields_sequence {A} w (f : Z -> Dec A) content a :
  len content < length_limit ->
  (forall pre, yields (f (len content)) pre content a) ->
  yields (l ← wrap_err w ExpectSequence; f l) [] (sequence content) a.
Proof.
  intros Hl Hf. unfold yields. rewrite bind_run. unfold wrap_err, ExpectSequence, sequence.
  pose proof (expect_run ClassUniversal TagSequence TypeConstructed is_constructed
    "truncated sequence content" content) as He.
  specialize (He eq_refl (or_intror eq_refl) eq_refl ltac:(by vm_compute) Hl [] []).
  rewrite app_nil_r in He. rewrite He. cbn match.
  specialize (Hf (header ClassUniversal TagSequence TypeConstructed content)).
  unfold yields, header, tlv in *. by rewrite <- !app_assoc in Hf.
Qed.

Lemma message_fields_run id op cs :
  0 <= id <= MaxMessageID -> 0 <= Tag op < tag_limit ->
  len (message_content id op cs) < length_limit ->
  yields message_fields [] (sequence (message_content id op cs)) (mkLDAPMessage id (Some op) cs).
Proof.
  unfold message_fields. intros Hid Ht Hl. apply yields_sequence; [done |]. intros pre.
  apply yields_Offset. cbv zeta. rewrite <- len_app, message_content_eq in *.
  eapply yields_bind.
  { apply decodes_wrap, decodes_read_int; [done | done |]. unfold is_int64, MaxMessageID in *. lia. }
  rewrite decide_False by (unfold MinMessageID; lia). apply yields_Offset.
  eapply yields_bind; [apply decodes_wrap, decodes_ReadTag; [done | apply constructed_flag_valid | done] |].
  cbv beta iota. rewrite decide_False by auto.
  eapply yields_bind; [apply decodes_wrap, decodes_ReadLength; len_lia |].
  apply yields_Offset. set (T := tag_bytes _ _ _) in *. set (L := length_bytes _) in *.
  set (I := tlv _ _ _ _) in *. unfold yields. rewrite (app_assoc pre), (app_assoc _ T), (app_assoc _ L).
  rewrite message_tail_run; [done |]. len_lia.
Qed.

Lemma parse_encoded id op cs :
  0 <= id <= MaxMessageID -> 0 <= Tag op < tag_limit ->
  len (message_content id op cs) < length_limit ->
  ParseLDAPMessage (sequence (message_content id op cs)) = Ok (mkLDAPMessage id (Some op) cs).
Proof.
  intros. unfold ParseLDAPMessage. rewrite decide_False by tlv_lia. by apply message_fields_run.
Qed.

(** ** Totality

    [SetOffset] may move the decoder back, so the controls are followed with
    [safe], which drops [wp]'s progress. *)

Definition safe {A} (m : Dec A) (d : BERDecoder) (Q : A -> BERDecoder -> Prop) : Prop :=
  match m d with
  | (Ok a, d') => wf d' /\ data d' = data d /\ Q a d'
  | (Err _, d') => wf d' /\ data d' = data d
  | _ => False
  end.

Lemma wp_safe {A} (m : Dec A) d Q :
  wf d -> wp m d (fun a d' => wf d' -> data d' = data d -> Q a d') -> safe m d Q.
Proof.
  unfold wp, safe. intros Hw. destruct (m d) as [[] d1]; try done.
  - intros [Ha HQ]. pose proof (advances_wf _ _ Hw Ha). destruct Ha. auto.
  - intros Ha. pose proof (advances_wf _ _ Hw Ha). by destruct Ha.
Qed.

Lemma safe_bind {A B} (m : Dec A) (f : A -> Dec B) d Q :
  safe m d (fun a d' => safe (f a) d' Q) -> safe (x ← m; f x) d Q.
Proof.
  unfold safe. rewrite bind_run. destruct (m d) as [[a|e| |] d1]; try done.
  intros (Hw & <- & H). by destruct (f a d1) as [[] d2].
Qed.

Lemma wp_on_safe {A} sub (m : Dec A) d (Q : A * BERDecoder -> BERDecoder -> Prop) :
  wf d -> safe m sub (fun a t => Q (a, t) d) -> wp (on sub m) d Q.
Proof.
  intros Hw. unfold wp, safe, on. destruct (m sub) as [[] t]; try done; intros; simpl.
  - split; [by apply advances_refl | tauto].
  - by apply advances_refl.
Qed.

Lemma wp_try_PeekTag d : wf d -> wp (try PeekTag) d (fun _ d' => d' = d).
Proof.
  intros Hw. pose proof (wp_ReadTag d Hw) as H. unfold wp, try, PeekTag in *.
  destruct (ReadTag d) as [[t|e| |] d1]; try done; simpl.
  - destruct H as [[-> _] _]. destruct d. by split; [apply advances_refl |].
  - destruct H as [-> _]. destruct d. by split; [apply advances_refl |].
Qed.

Lemma wp_optional {A} num (default : A) read d (Q : A -> BERDecoder -> Prop) :
  wf d -> wp read d Q -> Q default d -> wp (optional num default read) d Q.
Proof.
  intros Hw Hr Hd. unfold optional. wps; [| done].
  eapply wp_mono; [by apply wp_try_PeekTag |]. intros [[[c k] n]|e] d' _ ->; by wps.
Qed.

Lemma wp_control_fields d : wf d -> wp control_fields d (fun _ _ => True).
Proof.
  intros Hw. unfold control_fields, parse_err. wps.
  apply wp_optional; [eauto with ber | wps | wps].
  all: apply wp_optional; [eauto with ber | by wps | by wps].
Qed.

Lemma consumes_parseControl : consumes parseControl.
Proof.
  intros d Hw. unfold parseControl. wps.
  eapply wp_mono; [by apply wp_control_fields |]. intros c t _ _. by wps.
Qed.

Lemma wp_elements {A} (p : Dec A) seqEnd d :
  consumes p -> wf d -> wp (elements p seqEnd) d (fun _ _ => True).
Proof. intros Hp Hw. unfold elements. wps. apply wp_collect; [| done]. intros. by apply Hp. Qed.

(** The loop stops at the first control that does not parse. *)
Lemma wp_remaining_controls cs d :
  wf d -> wp (remaining_controls cs) d (fun _ _ => True).
Proof.
  intros Hw. unfold remaining_controls. wps.
  apply (wp_while (data d) (fun '(_, stop) d =>
    len (data d) - offset d + (if (stop : bool) then 0 else 1))).
  - intros [cs' stop] d' Hw' _ [Hs _]%andb_true_iff. destruct stop; [done |]. cbv beta iota.
    split; [unfold wf in Hw'; lia |]. wps. apply wp_try.
    + eapply wp_mono; [by apply consumes_parseControl |]. intros c d2 Ha Ho.
      wps. destruct Ha as [-> _]. cbv beta in Ho. lia.
    + intros e d2 Ha. wps. destruct Ha as [-> Ho]. lia.
  - done.
  - done.
  - unfold wf, loop_fuel, len in *. lia.
Qed.

Lemma wp_starts_with_octets d : wf d -> wp starts_with_octets d (fun _ d' => d' = d).
Proof.
  intros Hw. unfold starts_with_octets. wps; [| done].
  eapply wp_mono; [by apply wp_try_PeekTag |]. intros [[[c k] n]|e] d' _ ->; by wps.
Qed.

Lemma safe_ret {A} (a : A) d (Q : A -> BERDecoder -> Prop) : wf d -> Q a d -> safe (mret a) d Q.
Proof. unfold safe. simpl. auto. Qed.

Lemma safe_parseControls d : wf d -> safe parseControls d (fun _ _ => True).
Proof.
  intros Hw. unfold parseControls. apply safe_bind, wp_safe; [done |]. wps.
  intros Hw1 Hd1. case_decide; [by apply safe_ret |].
  apply safe_bind, wp_safe; [done |]. wps. intros Hw2 Hd2.
  case_decide; [| by apply wp_safe; [| wps]].
  apply safe_bind, wp_safe; [done |]. wps. intros _ _.
  apply safe_bind, wp_safe; [done |]. wps. intros Hw3 Hd3.
  apply safe_bind, wp_safe; [done |]. wps. intros _ _.
  apply safe_bind, wp_safe; [done |]. eapply wp_mono; [by apply wp_starts_with_octets |].
  intros single d4 _ -> _ _. destruct single.
  - apply safe_bind. unfold SetOffset, safe at 1. simpl.
    assert (wf (mkDecoder (data d'0) (offset d'))) as Hw4.
    { unfold wf in *. simpl. rewrite Hd3. lia. }
    split; [done |]. split; [done |]. apply wp_safe; [done |]. wps.
    eapply wp_mono; [by apply consumes_parseControl |]. intros c d5 Ha _. wps.
    eapply wp_mono; [apply wp_remaining_controls; eauto with ber |]. intros [r b] d6 Ha2 _.
    by wps.
  - apply wp_safe; [done |].
    eapply wp_mono; [apply wp_elements; [apply consumes_parseControl | done] |]. done.
Qed.

Lemma wp_slice (l : bytes) lo hi d (Q : bytes -> BERDecoder -> Prop) :
  wf d -> 0 <= lo <= hi -> hi <= len l -> (forall v, Q v d) -> wp (slice l lo hi) d Q.
Proof. intros. unfold slice. rewrite decide_True by lia. by apply wp_ret. Qed.

Lemma safe_mono {A} (m : Dec A) d (Q Q' : A -> BERDecoder -> Prop) :
  safe m d Q -> (forall a d', Q a d' -> Q' a d') -> safe m d Q'.
Proof. unfold safe. destruct (m d) as [[] ?]; naive_solver. Qed.

Lemma wf_NewBERDecoder bs : wf (NewBERDecoder bs).
Proof. unfold wf. simpl. len_lia. Qed.

#[export] Hint Resolve wf_NewBERDecoder : ber.

Lemma wp_message_tail msgID tagNum lo hi e d :
  wf d -> 0 <= lo <= hi -> e <= len (data d) ->
  wp (message_tail msgID tagNum lo hi e) d (fun _ _ => True).
Proof.
  intros Hw Hlo He. unfold message_tail. wps. unfold id in *.
  apply wp_slice; [done | done | lia |]. intros v. wps; [| done].
  apply wp_slice; [done | lia | done |]. intros r. case_decide; [| by wps].
  apply wp_bind, wp_wrap, wp_on_safe; [done |]. apply safe_bind, wp_safe; [eauto with ber |].
  unfold IsContextTag. wp_by wp_is_tag. intros yes t _ -> Hw' _. destruct yes.
  - eapply safe_mono; [by apply safe_parseControls |]. intros a d' _. by wps.
  - apply safe_ret; [done |]. by wps.
Qed.

Lemma wp_message_fields d : wf d -> wp message_fields d (fun _ _ => True).
Proof.
  intros Hw. unfold message_fields, parse_err. wps.
  match goal with H : truncated _ _ = false |- _ => apply bool_decide_eq_false in H as Ht end.
  apply wp_message_tail; [eauto 6 with ber | |].
  all: unfold wf, advances in *; repeat match goal with H : _ /\ _ |- _ => destruct H end;
    repeat match goal with H : data _ = data _ |- _ => rewrite H in * end; lia.
Qed.

Lemma parse_total data : returns (ParseLDAPMessage data).
Proof.
  unfold ParseLDAPMessage. case_decide; [done |].
  eapply wp_returns, wp_message_fields. eauto with ber.
Qed.
