(* ===== verification/LdapRequests.v ===== *)
(** * LDAP requests (src/internal/ldap/bind.go, add.go, delete.go, modify.go,
    modifydn.go, compare.go)

    Each request has a parser of the operation's content, an encoder, and, where
    the source has one, a validator. Parsers and encoders meet in the interface
    [Codec], whose laws are the round trip and the totality of the parser. *)

From S2P Require Import Prelude BerEncoder BerDecoder BerSafety BerRoundtrip LdapMessage.

(** [if len(data) == 0 { return NewParseError(0, msg, nil) }], then a fresh decoder. *)
Definition parse_with {A} (msg : string) (m : Dec A) (data : bytes) : outcome A :=
  if decide (len data = 0) then Err (ParseError 0 msg ErrNil) else run_parser m data.

(** ** Bind *)

Definition AuthSimple : Z := 0.
Definition AuthSASL : Z := 3.
Definition AuthMethodSimple : Z := 0.
Definition AuthMethodSASL : Z := 1.

Record SASLCredentials := mkSASLCredentials {
  Mechanism : gostring;
  Credentials : bytes
}.

Record BindRequest := mkBindRequest {
  Version : Z;
  Name : gostring;
  AuthMethod : Z;
  SimplePassword : bytes;
  BindSASLCredentials : option SASLCredentials
}.

Definition ErrInvalidBindVersion : goerror := ErrConst "ErrInvalidBindVersion".
Definition ErrUnknownAuthMethod : goerror := ErrConst "ErrUnknownAuthMethod".
Definition ErrInvalidSASLCredentials : goerror := ErrConst "ErrInvalidSASLCredentials".

(** The [AuthSASL] case: the errors carry the outer decoder's offset. *)
Definition parse_sasl (authData : bytes) : Dec SASLCredentials :=
  '(mech, saslDecoder) ← parse_err "failed to read SASL mechanism"
                           (on (NewBERDecoder authData) ReadOctetString);
  if has_more saslDecoder then
    '(cred, _) ← parse_err "failed to read SASL credentials" (on saslDecoder ReadOctetString);
    mret (mkSASLCredentials mech cred)
  else mret (mkSASLCredentials mech []).

Definition bind_fields : Dec BindRequest :=
  version ← parse_err "failed to read bind version" ReadInteger;
  if decide (version < 1 \/ version > 127) then fail ErrInvalidBindVersion
  else
    name ← parse_err "failed to read bind name" ReadOctetString;
    '(tagNum, constructed, authData) ← parse_err "failed to read authentication" ReadTaggedValue;
    if decide (tagNum = AuthSimple) then
      mret (mkBindRequest version name AuthMethodSimple authData None)
    else if decide (tagNum = AuthSASL) then
      if negb constructed then
        o ← Offset;
        fail (ParseError o "SASL credentials must be constructed" ErrInvalidSASLCredentials)
      else
        saslCreds ← parse_sasl authData;
        mret (mkBindRequest version name AuthMethodSASL [] (Some saslCreds))
    else
      o ← Offset; fail (ParseError o "unknown authentication method tag" ErrUnknownAuthMethod).

Definition ParseBindRequest : bytes -> outcome BindRequest :=
  parse_with "empty bind request data" bind_fields.

(** Dereferencing a nil [SASLCredentials] panics. *)
Definition encode_auth (r : BindRequest) : Enc unit :=
  if decide (AuthMethod r = AuthMethodSimple) then
    WriteTaggedValue AuthSimple false (SimplePassword r)
  else if decide (AuthMethod r = AuthMethodSASL) then
    match BindSASLCredentials r with
    | None => panic
    | Some c =>
        '(_, saslBytes) ← on []
          (WriteOctetString (Mechanism c) ;;
           if decide (len (Credentials c) > 0) then WriteOctetString (Credentials c) else mret tt);
        WriteTaggedValue AuthSASL true saslBytes
    end
  else fail ErrUnknownAuthMethod.

Definition BindRequest_Encode (r : BindRequest) : outcome bytes :=
  encode
    (WriteInteger (Version r) ;;
     WriteOctetString (Name r) ;;
     encode_auth r).

Definition IsAnonymous (r : BindRequest) : bool :=
  bool_decide (Name r = []) && bool_decide (AuthMethod r = AuthMethodSimple)
  && bool_decide (len (SimplePassword r) = 0).

(** ** Add *)

Record Attribute := mkAttribute {
  Type_ : gostring;
  Values : list bytes
}.

Record AddRequest := mkAddRequest {
  Entry : gostring;
  Attributes : list Attribute
}.

(** [parseAttribute] and [parsePartialAttribute] differ in one message. *)
Definition parse_attribute_with (msg : string) : Dec Attribute :=
  attrDecoder ← parse_err msg ReadSequenceContents;
  '(type_, attrDecoder) ← parse_err "failed to read attribute type"
                            (on attrDecoder ReadOctetString);
  '(valSetLen, attrDecoder) ← parse_err "failed to read attribute values set"
                                (on attrDecoder ExpectSet);
  let valSetEnd := offset attrDecoder + valSetLen in
  '(values, _) ← parse_err "failed to read attribute value"
                   (on attrDecoder (elements ReadOctetString valSetEnd));
  mret (mkAttribute type_ values).

Definition parseAttribute : Dec Attribute :=
  parse_attribute_with "failed to read attribute sequence".

Definition add_fields : Dec AddRequest :=
  entry ← parse_err "failed to read entry DN" ReadOctetString;
  attrListLen ← parse_err "failed to read attributes sequence" ExpectSequence;
  o ← Offset;
  attributes ← elements parseAttribute (o + attrListLen);
  mret (mkAddRequest entry attributes).

Definition ParseAddRequest : bytes -> outcome AddRequest :=
  parse_with "empty add request data" add_fields.

Definition encodeAttribute (attr : Attribute) : Enc unit :=
  bracket BeginSequence EndSequence
    (WriteOctetString (Type_ attr) ;;
     bracket BeginSet EndSet (for_each (Values attr) WriteOctetString)).

Definition AddRequest_Encode (r : AddRequest) : outcome bytes :=
  encode
    (WriteOctetString (Entry r) ;;
     bracket BeginSequence EndSequence (for_each (Attributes r) encodeAttribute)).

Definition GetAttribute (r : AddRequest) (attrType : gostring) : option Attribute :=
  List.find (fun a => bytes_eqb (Type_ a) attrType) (Attributes r).

Definition GetAttributeValues (r : AddRequest) (attrType : gostring) : list bytes :=
  match GetAttribute r attrType with None => [] | Some attr => Values attr end.

(** Strings and byte slices have one representation here. *)
Definition GetAttributeStringValues (r : AddRequest) (attrType : gostring) : list gostring :=
  GetAttributeValues r attrType.

(** ** Delete, Unbind, Abandon *)

Record DeleteRequest := mkDeleteRequest { DeleteDN : gostring }.
Record UnbindRequest := mkUnbindRequest {}.
Record AbandonRequest := mkAbandonRequest { AbandonMessageID : Z }.

Definition ErrEmptyDeleteDN : goerror := ErrConst "ErrEmptyDeleteDN".

Definition ParseDeleteRequest (data : bytes) : outcome DeleteRequest := Ok (mkDeleteRequest data).
Definition DeleteRequest_Encode (r : DeleteRequest) : outcome bytes := Ok (DeleteDN r).

(** [Validate] methods return [nil] or an error. *)
Definition check (conds : list (bool * goerror)) : option goerror :=
  match List.find fst conds with Some (_, e) => Some e | None => None end.

Definition DeleteRequest_Validate (r : DeleteRequest) : option goerror :=
  check [(bool_decide (DeleteDN r = []), ErrEmptyDeleteDN)].

Definition ParseUnbindRequest (data : bytes) : outcome UnbindRequest := Ok mkUnbindRequest.
Definition UnbindRequest_Encode (r : UnbindRequest) : outcome bytes := Ok [].

Definition ParseAbandonRequest (data : bytes) : outcome AbandonRequest :=
  match data with
  | [] => Err (ParseError 0 "empty abandon request data" ErrNil)
  | firstByte :: _ =>
      let msgID := if high_bit firstByte then -1 else 0 in
      Ok (mkAbandonRequest
            (foldl (fun msgID b => int64 (Z.lor (Z.shiftl msgID 8) (bZ b))) msgID data))
  end.

Definition AbandonRequest_Encode (r : AbandonRequest) : outcome bytes :=
  match encode (WriteInteger (AbandonMessageID r)) with
  | Ok encoded => if decide (len encoded >= 2) then Ok (drop 2 encoded) else Ok [u8 0]
  | e => e
  end.

(** ** Modify *)

Definition ModifyOperationAdd : Z := 0.
Definition ModifyOperationDelete : Z := 1.
Definition ModifyOperationReplace : Z := 2.

Record Modification := mkModification {
  ModOperation : Z;
  ModAttribute : Attribute
}.

Record ModifyRequest := mkModifyRequest {
  Object : gostring;
  Changes : list Modification
}.

Definition ErrEmptyModifyObject : goerror := ErrConst "ErrEmptyModifyObject".
Definition ErrInvalidModifyOperation : goerror := ErrConst "ErrInvalidModifyOperation".
Definition ErrEmptyModifications : goerror := ErrConst "ErrEmptyModifications".

Definition parsePartialAttribute : Dec Attribute :=
  parse_attribute_with "failed to read partial attribute sequence".

(** [parsePartialAttribute(changeDecoder)] reports [changeDecoder]'s offsets. *)
Definition parseModification : Dec Modification :=
  changeDecoder ← parse_err "failed to read change sequence" ReadSequenceContents;
  '(operation, changeDecoder) ← parse_err "failed to read operation"
                                  (on changeDecoder ReadEnumerated);
  if decide (operation < 0 \/ operation > 2) then fail ErrInvalidModifyOperation
  else
    '(attr, _) ← on changeDecoder parsePartialAttribute;
    mret (mkModification operation attr).

Definition modify_fields : Dec ModifyRequest :=
  object ← parse_err "failed to read object DN" ReadOctetString;
  changesLen ← parse_err "failed to read changes sequence" ExpectSequence;
  o ← Offset;
  changes ← elements parseModification (o + changesLen);
  mret (mkModifyRequest object changes).

Definition ParseModifyRequest : bytes -> outcome ModifyRequest :=
  parse_with "empty modify request data" modify_fields.

Definition encodeModification (mod_ : Modification) : Enc unit :=
  bracket BeginSequence EndSequence
    (WriteEnumerated (ModOperation mod_) ;;
     encodeAttribute (ModAttribute mod_)).

Definition ModifyRequest_Encode (r : ModifyRequest) : outcome bytes :=
  encode
    (WriteOctetString (Object r) ;;
     bracket BeginSequence EndSequence (for_each (Changes r) encodeModification)).

Definition invalid_operation (c : Modification) : bool :=
  bool_decide (ModOperation c < 0 \/ ModOperation c > 2).

Definition ModifyRequest_Validate (r : ModifyRequest) : option goerror :=
  check [(bool_decide (Object r = []), ErrEmptyModifyObject);
         (bool_decide (len (Changes r) = 0), ErrEmptyModifications);
         (existsb invalid_operation (Changes r), ErrInvalidModifyOperation)].

Definition AddModification (r : ModifyRequest) (op : Z) (attrType : gostring) (values : list bytes)
    : ModifyRequest :=
  mkModifyRequest (Object r) (Changes r ++ [mkModification op (mkAttribute attrType values)]).

Definition AddStringModification (r : ModifyRequest) (op : Z) (attrType : gostring)
    (values : list gostring) : ModifyRequest :=
  AddModification r op attrType values.

(** ** ModifyDN *)

Record ModifyDNRequest := mkModifyDNRequest {
  DNEntry : gostring;
  NewRDN : gostring;
  DeleteOldRDN : bool;
  NewSuperior : gostring
}.

Definition ErrEmptyModifyDNEntry : goerror := ErrConst "ErrEmptyModifyDNEntry".
Definition ErrEmptyNewRDN : goerror := ErrConst "ErrEmptyNewRDN".

Definition new_superior : Dec gostring :=
  more ← gets has_more;
  if (more : bool) then
    yes ← IsContextTag 0;
    if (yes : bool) then
      '(tagNum, _, value) ← parse_err "failed to read newSuperior" ReadTaggedValue;
      mret (if decide (tagNum = 0) then value else [])
    else mret []
  else mret [].

Definition modifydn_fields : Dec ModifyDNRequest :=
  entry ← parse_err "failed to read entry DN" ReadOctetString;
  newRDN ← parse_err "failed to read new RDN" ReadOctetString;
  deleteOldRDN ← parse_err "failed to read deleteoldrdn" ReadBoolean;
  newSuperior ← new_superior;
  mret (mkModifyDNRequest entry newRDN deleteOldRDN newSuperior).

Definition ParseModifyDNRequest : bytes -> outcome ModifyDNRequest :=
  parse_with "empty modifydn request data" modifydn_fields.

Definition ModifyDNRequest_Encode (r : ModifyDNRequest) : outcome bytes :=
  encode
    (WriteOctetString (DNEntry r) ;;
     WriteOctetString (NewRDN r) ;;
     WriteBoolean (DeleteOldRDN r) ;;
     (if decide (NewSuperior r <> []) then
        bracket (WriteContextTag 0 false) EndContextTag (WriteRaw (NewSuperior r))
      else mret tt)).

Definition ModifyDNRequest_Validate (r : ModifyDNRequest) : option goerror :=
  check [(bool_decide (DNEntry r = []), ErrEmptyModifyDNEntry);
         (bool_decide (NewRDN r = []), ErrEmptyNewRDN)].

Definition HasNewSuperior (r : ModifyDNRequest) : bool := bool_decide (NewSuperior r <> []).

(** ** Compare *)

Record CompareRequest := mkCompareRequest {
  CompareDN : gostring;
  CompareAttribute : gostring;
  CompareValue : bytes
}.

Definition ErrEmptyCompareDN : goerror := ErrConst "ErrEmptyCompareDN".
Definition ErrEmptyCompareAttribute : goerror := ErrConst "ErrEmptyCompareAttribute".

Definition compare_fields : Dec CompareRequest :=
  dn ← parse_err "failed to read entry DN" ReadOctetString;
  avaDecoder ← parse_err "failed to read AttributeValueAssertion" ReadSequenceContents;
  '(attr, avaDecoder) ← parse_err "failed to read attribute description"
                          (on avaDecoder ReadOctetString);
  '(value, _) ← parse_err "failed to read assertion value" (on avaDecoder ReadOctetString);
  mret (mkCompareRequest dn attr value).

Definition ParseCompareRequest : bytes -> outcome CompareRequest :=
  parse_with "empty compare request data" compare_fields.

Definition CompareRequest_Encode (r : CompareRequest) : outcome bytes :=
  encode
    (WriteOctetString (CompareDN r) ;;
     bracket BeginSequence EndSequence
       (WriteOctetString (CompareAttribute r) ;;
        WriteOctetString (CompareValue r))).

Definition CompareRequest_Validate (r : CompareRequest) : option goerror :=
  check [(bool_decide (CompareDN r = []), ErrEmptyCompareDN);
         (bool_decide (CompareAttribute r = []), ErrEmptyCompareAttribute)].

(** ** Round trips through sub-decoders *)

(** A decoder that has read [pre] and has [rest] left. *)
Definition cursor (pre rest : bytes) : BERDecoder := mkDecoder (pre ++ rest) (len pre).

Lemma cursor_start bs : NewBERDecoder bs = cursor [] bs.
Proof. done. Qed.

Lemma cursor_decodes {A} (m : Dec A) pre bs rest a :
  decodes m bs a -> m (cursor pre (bs ++ rest)) = (Ok a, cursor (pre ++ bs) rest).
Proof. intros H. unfold cursor. by rewrite H, <- app_assoc, len_app. Qed.

Section Steps.
Context {A B : Type}.
Variables (msg : string) (m : Dec A) (f : A * BERDecoder -> Dec B).

Lemma decodes_on_run sub sub' bs a b :
  m sub = (Ok a, sub') -> decodes (f (a, sub')) bs b ->
  decodes (x ← parse_err msg (on sub m); f x) bs b.
Proof.
  intros Hm Hf pre post. unfold parse_err, wrap_err, on. rewrite bind_run, Hm. apply Hf.
Qed.

Lemma decodes_on_step pre bs1 rest bs a b :
  decodes m bs1 a -> decodes (f (a, cursor (pre ++ bs1) rest)) bs b ->
  decodes (x ← parse_err msg (on (cursor pre (bs1 ++ rest)) m); f x) bs b.
Proof. intros Hm. by apply decodes_on_run, cursor_decodes. Qed.
End Steps.

Lemma cursor_ExpectSet pre content rest :
  len content < length_limit ->
  ExpectSet (cursor pre (set_of content ++ rest))
  = (Ok (len content),
     cursor (pre ++ header ClassUniversal TagSet TypeConstructed content) (content ++ rest)).
Proof.
  intros Hl. unfold ExpectSet, cursor, set_of.
  rewrite expect_run by first [done | by right]. unfold tlv, header.
  rewrite <- !app_assoc, !len_app. do 3 f_equal; lia.
Qed.

(** [SEQUENCE OF] behind its header. *)
Lemma decodes_sequence_of {A B} msg (p : Dec A) (enc : A -> bytes) xs (f : list A -> B) :
  (forall x, x ∈ xs -> decodes p (enc x) x /\ enc x <> []) ->
  len (concat (enc <$> xs)) < length_limit ->
  decodes (n ← parse_err msg ExpectSequence; o ← Offset; l ← elements p (o + n); mret (f l))
    (sequence (concat (enc <$> xs))) (f xs).
Proof.
  intros Hp Hl pre post. rewrite bind_run. unfold parse_err, wrap_err, ExpectSequence, sequence.
  rewrite expect_run by first [done | by right]. cbn match.
  set (C := concat (enc <$> xs)) in *. set (h := header _ _ _ _) in *.
  pose proof (elements_run p enc xs C (pre ++ h) post Hp eq_refl) as He.
  rewrite bind_run. unfold Offset, gets. cbn match. rewrite bind_run.
  assert (pre ++ tlv ClassUniversal TypeConstructed TagSequence C ++ post
          = (pre ++ h) ++ C ++ post) as ->.
  { unfold tlv, h, header. by rewrite <- !app_assoc. }
  rewrite len_app in He. cbn [offset]. rewrite He. unfold mret, M_ret.
  do 2 f_equal. unfold tlv, h, header. len_lia.
Qed.

(** ** Attributes *)

Definition octets_of (vs : list bytes) : bytes := concat (octets <$> vs).

Definition attribute_content (a : Attribute) : bytes :=
  octets (Type_ a) ++ set_of (octets_of (Values a)).
Definition attribute_bytes (a : Attribute) : bytes := sequence (attribute_content a).

Lemma len_octets_in vs v : v ∈ vs -> len v + 2 <= len (octets_of vs).
Proof.
  intros Hv. pose proof (len_concat_elem octets vs v Hv) as He.
  unfold octets at 1 in He. unfold octets_of. tlv_lia.
Qed.

Lemma writes_octets_of vs :
  len (octets_of vs) < 2 ^ 32 -> writes (for_each vs WriteOctetString) (octets_of vs).
Proof.
  intros Hl. apply writes_for_each. intros v Hv. apply writes_octets.
  pose proof (len_octets_in vs v Hv). lia.
Qed.

Lemma writes_encodeAttribute a :
  len (attribute_content a) < 2 ^ 32 -> writes (encodeAttribute a) (attribute_bytes a).
Proof.
  intros Hl. apply writes_sequence; [| done]. unfold attribute_content in *.
  apply writes_bind; [apply writes_octets; tlv_lia |].
  apply writes_set; [apply writes_octets_of; tlv_lia | tlv_lia].
Qed.

Lemma octets_elements vs :
  len (octets_of vs) < length_limit ->
  forall v, v ∈ vs -> decodes ReadOctetString (octets v) v /\ octets v <> [].
Proof.
  intros Hl v Hv. split; [| apply tlv_ne_nil].
  apply decodes_ReadOctetString. pose proof (len_octets_in vs v Hv). tlv_lia.
Qed.

Lemma decodes_attribute msg a :
  len (attribute_content a) < length_limit ->
  decodes (parse_attribute_with msg) (attribute_bytes a) a.
Proof.
  intros Hl. unfold parse_attribute_with, attribute_bytes. apply decodes_app_nil.
  eapply decodes_bind; [by apply decodes_wrap, decodes_ReadSequenceContents |].
  rewrite cursor_start. unfold attribute_content in *.
  eapply decodes_on_step; [apply decodes_ReadOctetString; tlv_lia |]. cbv beta iota.
  rewrite <- (app_nil_r (set_of _)).
  eapply decodes_on_run; [apply cursor_ExpectSet; tlv_lia |]. cbv beta iota zeta.
  eapply decodes_on_run.
  { apply (elements_run _ octets); [| done]. apply octets_elements. tlv_lia. }
  destruct a. apply decodes_ret.
Qed.

Lemma decodes_parseAttribute a :
  len (attribute_content a) < length_limit -> decodes parseAttribute (attribute_bytes a) a.
Proof. apply decodes_attribute. Qed.

Lemma consumes_attribute msg : consumes (parse_attribute_with msg).
Proof.
  intros d Hw. unfold parse_attribute_with, parse_err. wps.
  eapply wp_mono; [apply wp_elements; [apply consumes_ReadOctetString | eauto 6 with ber] |].
  intros vs t Ha _. wps. lia.
Qed.

(** ** The interface of a request *)

(** What the message layer relies on: the parser is total, and reads back what
    the encoder makes of a [valid] request. *)
Class Codec (A : Type) := {
  wire_encode : A -> outcome bytes;
  wire_parse : bytes -> outcome A;
  valid : A -> Prop;
  wire_total : forall bs, returns (wire_parse bs);
  wire_roundtrip : forall a, valid a ->
    exists bs, wire_encode a = Ok bs /\ wire_parse bs = Ok a /\ len bs < 2 ^ 32
}.

Lemma parse_with_total {A} msg (m : Dec A) :
  (forall d, wf d -> wp m d (fun _ _ => True)) -> forall bs, returns (parse_with msg m bs).
Proof.
  intros Hm bs. unfold parse_with. case_decide; [done |].
  eapply wp_returns, Hm. eauto with ber.
Qed.

Lemma parse_with_run {A} msg (m : Dec A) bs a :
  0 < len bs -> ends m bs a -> parse_with msg m bs = Ok a.
Proof.
  intros Hl Hm. unfold parse_with, run_parser. rewrite decide_False by lia.
  by rewrite (ends_all _ _ _ Hm).
Qed.

(** Parser and encoder agree on the reference encoding [content]. *)
Lemma codec_roundtrip {A} msg (m : Dec A) body content a :
  len content < 2 ^ 32 -> 0 < len content -> writes body content -> ends m content a ->
  exists bs, encode body = Ok bs /\ parse_with msg m bs = Ok a /\ len bs < 2 ^ 32.
Proof.
  intros Hl Hp Hw He. exists content. split; [by apply encode_writes |].
  split; [by apply parse_with_run | done].
Qed.

(** [wire] proves the [writes] and [decodes] obligations of octet strings. *)
Ltac wire := first [apply writes_octets; tlv_lia | apply decodes_wrap, decodes_ReadOctetString; tlv_lia].

(** ** Add *)

Definition add_content (r : AddRequest) : bytes :=
  octets (Entry r) ++ sequence (concat (attribute_bytes <$> Attributes r)).

Lemma attribute_in l a :
  a ∈ l -> len (attribute_content a) + 2 <= len (concat (attribute_bytes <$> l)).
Proof.
  intros Ha. pose proof (len_concat_elem attribute_bytes l a Ha) as He.
  unfold attribute_bytes at 1 in He. tlv_lia.
Qed.

Lemma wp_add_fields d : wf d -> wp add_fields d (fun _ _ => True).
Proof.
  intros Hw. unfold add_fields, parse_err. wps.
  eapply wp_mono; [apply wp_elements; [apply consumes_attribute | eauto 6 with ber] |].
  intros l t Ha _. by wps.
Qed.

#[export, refine] Instance AddRequest_Codec : Codec AddRequest := {|
  wire_encode := AddRequest_Encode;
  wire_parse := ParseAddRequest;
  valid r := len (add_content r) < 2 ^ 32
|}.
Proof.
  - apply parse_with_total, wp_add_fields.
  - intros r Hl. apply (codec_roundtrip _ _ _ (add_content r)); [done | | |]; unfold add_content in *.
    + tlv_lia.
    + apply writes_bind; [wire |]. apply writes_sequence; [| tlv_lia].
      apply writes_for_each. intros a Ha. apply writes_encodeAttribute.
      pose proof (attribute_in _ a Ha). tlv_lia.
    + eapply ends_bind; [wire |]. destruct r as [e l]. cbn [Entry Attributes] in *.
      apply decodes_ends, (decodes_sequence_of _ _ attribute_bytes); [| tlv_lia].
      intros a Ha. split; [| apply tlv_ne_nil]. apply decodes_parseAttribute.
      pose proof (attribute_in _ a Ha). tlv_lia.
Defined.

(** ** Modify *)

Definition modification_content (c : Modification) : bytes :=
  tlv ClassUniversal TypePrimitive TagEnumerated (encodeInteger (ModOperation c))
  ++ attribute_bytes (ModAttribute c).
Definition modification_bytes (c : Modification) : bytes := sequence (modification_content c).
Definition modify_content (r : ModifyRequest) : bytes :=
  octets (Object r) ++ sequence (concat (modification_bytes <$> Changes r)).

Definition valid_operation (c : Modification) : Prop := 0 <= ModOperation c <= 2.

Lemma modification_in l c :
  c ∈ l -> len (modification_content c) + 2 <= len (concat (modification_bytes <$> l)).
Proof.
  intros Hc. pose proof (len_concat_elem modification_bytes l c Hc) as He.
  unfold modification_bytes at 1 in He. tlv_lia.
Qed.

Lemma writes_encodeModification c :
  valid_operation c -> len (modification_content c) < 2 ^ 32 ->
  writes (encodeModification c) (modification_bytes c).
Proof.
  unfold valid_operation. intros Ho Hl. apply writes_sequence; [| done].
  unfold modification_content in *.
  apply writes_bind; [apply writes_WriteEnumerated; unfold is_int64; lia |].
  apply writes_encodeAttribute. unfold attribute_bytes in *. tlv_lia.
Qed.

Lemma decodes_parseModification c :
  valid_operation c -> len (modification_content c) < length_limit ->
  decodes parseModification (modification_bytes c) c.
Proof.
  unfold valid_operation. intros Ho Hl. unfold parseModification, modification_bytes.
  apply decodes_app_nil.
  eapply decodes_bind; [by apply decodes_wrap, decodes_ReadSequenceContents |].
  rewrite cursor_start. unfold modification_content in *.
  eapply decodes_on_step.
  { apply decodes_read_int; [done | done | unfold is_int64; lia]. }
  cbv beta iota. rewrite decide_False by lia.
  intros pre post. rewrite bind_run. unfold on.
  rewrite <- (app_nil_r (attribute_bytes _)), (cursor_decodes _ _ _ _ (ModAttribute c)).
  - destruct c. by apply decodes_ret.
  - apply decodes_attribute. unfold attribute_bytes in *. tlv_lia.
Qed.

Lemma consumes_parseModification : consumes parseModification.
Proof.
  intros d Hw. unfold parseModification, parse_err. wps.
  eapply wp_mono; [apply consumes_attribute; eauto 6 with ber |]. intros attr t _ _. wps. lia.
Qed.

Lemma wp_modify_fields d : wf d -> wp modify_fields d (fun _ _ => True).
Proof.
  intros Hw. unfold modify_fields, parse_err. wps.
  eapply wp_mono; [apply wp_elements; [apply consumes_parseModification | eauto 6 with ber] |].
  intros l t Ha _. by wps.
Qed.

#[export, refine] Instance ModifyRequest_Codec : Codec ModifyRequest := {|
  wire_encode := ModifyRequest_Encode;
  wire_parse := ParseModifyRequest;
  valid r := Forall valid_operation (Changes r) /\ len (modify_content r) < 2 ^ 32
|}.
Proof.
  - apply parse_with_total, wp_modify_fields.
  - intros [o l] [Hv Hl]. rewrite Forall_forall in Hv.
    apply (codec_roundtrip _ _ _ (modify_content (mkModifyRequest o l))); [done | | |];
      unfold modify_content in *; cbn [Object Changes] in *.
    + tlv_lia.
    + apply writes_bind; [wire |]. apply writes_sequence; [| tlv_lia].
      apply writes_for_each. intros c Hc. apply writes_encodeModification; [by apply Hv |].
      pose proof (modification_in _ c Hc). tlv_lia.
    + eapply ends_bind; [wire |].
      apply decodes_ends, (decodes_sequence_of _ _ modification_bytes); [| tlv_lia].
      intros c Hc. split; [| apply tlv_ne_nil]. apply decodes_parseModification; [by apply Hv |].
      pose proof (modification_in _ c Hc). tlv_lia.
Defined.

(** ** Compare *)

Definition compare_content (r : CompareRequest) : bytes :=
  octets (CompareDN r) ++ sequence (octets (CompareAttribute r) ++ octets (CompareValue r)).

Lemma wp_compare_fields d : wf d -> wp compare_fields d (fun _ _ => True).
Proof. intros Hw. unfold compare_fields, parse_err. by wps. Qed.

#[export, refine] Instance CompareRequest_Codec : Codec CompareRequest := {|
  wire_encode := CompareRequest_Encode;
  wire_parse := ParseCompareRequest;
  valid r := len (compare_content r) < 2 ^ 32
|}.
Proof.
  - apply parse_with_total, wp_compare_fields.
  - intros r Hl. apply (codec_roundtrip _ _ _ (compare_content r)); [done | | |];
      unfold compare_content in *.
    + tlv_lia.
    + apply writes_bind; [wire |]. apply writes_sequence; [| tlv_lia].
      apply writes_bind; wire.
    + eapply ends_bind; [wire |]. apply decodes_ends, decodes_app_nil.
      eapply decodes_bind; [apply decodes_wrap, decodes_ReadSequenceContents; tlv_lia |].
      rewrite cursor_start. eapply decodes_on_step; [apply decodes_ReadOctetString; tlv_lia |].
      cbv beta iota. rewrite <- (app_nil_r (octets (CompareValue r))).
      eapply decodes_on_step; [apply decodes_ReadOctetString; tlv_lia |].
      destruct r. apply decodes_ret.
Defined.

(** ** ModifyDN *)

Definition modifydn_content (r : ModifyDNRequest) : bytes :=
  octets (DNEntry r) ++ octets (NewRDN r)
  ++ tlv ClassUniversal TypePrimitive TagBoolean (bool_content (DeleteOldRDN r))
  ++ (if decide (NewSuperior r <> [])
      then tlv ClassContextSpecific TypePrimitive 0 (NewSuperior r) else []).

Lemma wp_new_superior d : wf d -> wp new_superior d (fun _ _ => True).
Proof. intros Hw. unfold new_superior, parse_err. by wps. Qed.

Lemma wp_modifydn_fields d : wf d -> wp modifydn_fields d (fun _ _ => True).
Proof.
  intros Hw. unfold modifydn_fields, parse_err. wps.
  eapply wp_mono; [apply wp_new_superior; eauto 6 with ber |]. intros s t Ha _. apply wp_ret; [eauto 8 with ber | done].
Qed.

Lemma tlv_head c k n content : exists X, tlv c k n content = tag_bytes c k n ++ X.
Proof. by eexists. Qed.

Lemma ends_new_superior s :
  len s < length_limit ->
  ends new_superior
    (if decide (s <> []) then tlv ClassContextSpecific TypePrimitive 0 s else []) s.
Proof.
  intros Hl. case_decide as Hs.
  - intros pre. unfold new_superior. rewrite bind_run. unfold gets. cbn match.
    pose proof (has_more_app pre (tlv ClassContextSpecific TypePrimitive 0 s) []
                  (tlv_ne_nil _ _ _ _)) as Hm.
    rewrite app_nil_r in Hm. rewrite Hm, bind_run. unfold IsContextTag, is_tag.
    pose proof (decodes_ReadTaggedValue 0 false s ltac:(by vm_compute) Hl pre []) as Hr.
    rewrite app_nil_r in Hr. change (constructed_flag false) with TypePrimitive in Hr.
    destruct (tlv_head ClassContextSpecific TypePrimitive 0 s) as [X HX]. rewrite HX in *.
    rewrite bind_run. unfold try. rewrite PeekTag_run by first [done | by left]. cbn match.
    unfold mret at 1, M_ret at 1. rewrite bool_decide_true by done.
    rewrite bind_run. unfold parse_err, wrap_err. by rewrite Hr.
  - subst s. intros pre. rewrite app_nil_r.
    unfold new_superior. rewrite bind_run. unfold gets. cbn match.
    replace (has_more _) with false; [by rewrite Z.add_0_r |].
    symmetry. apply bool_decide_eq_false. unfold Remaining. simpl. lia.
Qed.

#[export, refine] Instance ModifyDNRequest_Codec : Codec ModifyDNRequest := {|
  wire_encode := ModifyDNRequest_Encode;
  wire_parse := ParseModifyDNRequest;
  valid r := len (modifydn_content r) < 2 ^ 32
|}.
Proof.
  - apply parse_with_total, wp_modifydn_fields.
  - intros r Hl. apply (codec_roundtrip _ _ _ (modifydn_content r)); [done | | |];
      unfold modifydn_content in *.
    + tlv_lia.
    + apply writes_bind; [wire |]. apply writes_bind; [wire |].
      apply writes_bind; [apply writes_WriteBoolean |].
      case_decide; [| apply writes_nothing].
      by apply writes_bracket; [apply begins_WriteContextTag | apply writes_raw | tlv_lia].
    + eapply ends_bind; [wire |]. eapply ends_bind; [wire |].
      eapply ends_bind; [apply decodes_wrap, decodes_ReadBoolean |].
      replace r with (mkModifyDNRequest (DNEntry r) (NewRDN r) (DeleteOldRDN r) (NewSuperior r))
        at 4 by by destruct r.
      apply (ends_bind_ret _ (fun s => mkModifyDNRequest _ _ _ s)), ends_new_superior.
      destruct (decide (NewSuperior r = [])) as [->|Hs]; [done |].
      rewrite decide_True in Hl by done. tlv_lia.
Defined.

(** ** Bind *)

Definition sasl_content (c : SASLCredentials) : bytes :=
  octets (Mechanism c) ++ (if decide (len (Credentials c) > 0) then octets (Credentials c) else []).

Definition auth_bytes (r : BindRequest) : bytes :=
  match BindSASLCredentials r with
  | None => tlv ClassContextSpecific TypePrimitive AuthSimple (SimplePassword r)
  | Some c => tlv ClassContextSpecific TypeConstructed AuthSASL (sasl_content c)
  end.

Definition bind_content (r : BindRequest) : bytes :=
  tlv ClassUniversal TypePrimitive TagInteger (encodeInteger (Version r))
  ++ octets (Name r) ++ auth_bytes r.

(** A simple bind carries no SASL credentials, a SASL bind no password. *)
Definition valid_auth (r : BindRequest) : Prop :=
  match BindSASLCredentials r with
  | None => AuthMethod r = AuthMethodSimple
  | Some _ => AuthMethod r = AuthMethodSASL /\ SimplePassword r = []
  end.

Lemma wp_parse_sasl authData d : wf d -> wp (parse_sasl authData) d (fun _ _ => True).
Proof. intros Hw. unfold parse_sasl, parse_err. by wps. Qed.

Lemma wp_bind_fields d : wf d -> wp bind_fields d (fun _ _ => True).
Proof.
  intros Hw. unfold bind_fields, parse_err. wps; try done.
  eapply wp_mono; [apply wp_parse_sasl; eauto 8 with ber |]. intros c t Ha _.
  apply wp_ret; [eauto 8 with ber | done].
Qed.

Lemma writes_encode_auth r :
  valid_auth r -> len (auth_bytes r) < 2 ^ 32 -> writes (encode_auth r) (auth_bytes r).
Proof.
  intros Hv Hl. unfold valid_auth, encode_auth, auth_bytes in *.
  destruct (BindSASLCredentials r) as [c|].
  - destruct Hv as [-> _]. rewrite decide_False, decide_True by done.
    intros buf. rewrite bind_run. unfold on.
    assert (writes (WriteOctetString (Mechanism c) ;;
      if decide (len (Credentials c) > 0) then WriteOctetString (Credentials c) else mret tt)
      (sasl_content c)) as Hw.
    { unfold sasl_content in *. apply writes_bind; [wire |].
      case_decide; [wire | apply writes_nothing]. }
    rewrite Hw. cbn [app]. apply writes_WriteTaggedValue; [by vm_compute | tlv_lia].
  - rewrite Hv, decide_True by done. apply writes_WriteTaggedValue; [by vm_compute | tlv_lia].
Qed.

Lemma decodes_parse_sasl c :
  len (sasl_content c) < length_limit -> decodes (parse_sasl (sasl_content c)) [] c.
Proof.
  intros Hl. unfold parse_sasl, sasl_content in *. rewrite cursor_start.
  eapply decodes_on_step; [apply decodes_ReadOctetString; tlv_lia |]. cbv beta iota.
  destruct c as [mech cred]. cbn [Mechanism Credentials] in *. case_decide.
  - pose proof (has_more_app (octets mech) (octets cred) [] (tlv_ne_nil _ _ _ _)) as Hm.
    rewrite app_nil_r in Hm. unfold cursor at 1. cbn [app] in *. rewrite Hm.
    rewrite <- (app_nil_r (octets cred)).
    eapply decodes_on_step; [apply decodes_ReadOctetString; tlv_lia |]. apply decodes_ret.
  - replace (has_more _) with false.
    + replace cred with (@nil byte); [apply decodes_ret |].
      symmetry. apply len_zero_nil. pose proof (len_nonneg cred). lia.
    + symmetry. apply bool_decide_eq_false. unfold Remaining, cursor. cbn [data offset]. len_lia.
Qed.

#[export, refine] Instance BindRequest_Codec : Codec BindRequest := {|
  wire_encode := BindRequest_Encode;
  wire_parse := ParseBindRequest;
  valid r := 1 <= Version r <= 127 /\ valid_auth r /\ len (bind_content r) < 2 ^ 32
|}.
Proof.
  - apply parse_with_total, wp_bind_fields.
  - intros r (Hv & Ha & Hl). apply (codec_roundtrip _ _ _ (bind_content r)); [done | | |];
      unfold bind_content in *.
    + tlv_lia.
    + apply writes_bind; [apply writes_WriteInteger; unfold is_int64; lia |].
      apply writes_bind; [wire |]. apply writes_encode_auth; [done | tlv_lia].
    + eapply ends_bind.
      { apply decodes_wrap, decodes_read_int; [done | done | unfold is_int64; lia]. }
      rewrite decide_False by lia. eapply ends_bind; [wire |].
      apply decodes_ends, decodes_app_nil. unfold valid_auth, auth_bytes in *.
      destruct r as [v n am pw [c|]]; cbn [BindSASLCredentials AuthMethod SimplePassword Version Name] in *.
      * destruct Ha as [-> ->].
        assert (len (sasl_content c) < length_limit) by tlv_lia.
        eapply decodes_bind; [by apply decodes_wrap, (decodes_ReadTaggedValue _ true) |].
        cbv beta iota. rewrite decide_False, decide_True by done. cbn [negb].
        apply (decodes_bind_ret _ (fun c => mkBindRequest v n AuthMethodSASL [] (Some c))).
        by apply decodes_parse_sasl.
      * subst am.
        assert (len pw < length_limit) by tlv_lia.
        eapply decodes_bind; [by apply decodes_wrap, (decodes_ReadTaggedValue _ false) |].
        cbv beta iota. rewrite decide_True by done. apply decodes_ret.
Defined.

(** ** Delete, Unbind, Abandon *)

#[export, refine] Instance DeleteRequest_Codec : Codec DeleteRequest := {|
  wire_encode := DeleteRequest_Encode;
  wire_parse := ParseDeleteRequest;
  valid r := len (DeleteDN r) < 2 ^ 32
|}.
Proof. - done. - intros [dn] Hl. by exists dn. Defined.

#[export, refine] Instance UnbindRequest_Codec : Codec UnbindRequest := {|
  wire_encode := UnbindRequest_Encode;
  wire_parse := ParseUnbindRequest;
  valid r := True
|}.
Proof. - done. - intros [] _. by exists []. Defined.

(** The fold over the bytes computes what [decodeInteger] computes. *)
Lemma iterate_integer_step bs pre v :
  iterate (length bs) integer_step v (cursor pre bs)
  = (Ok (foldl (fun m b => int64 (Z.lor (Z.shiftl m 8) (bZ b))) v bs), cursor (pre ++ bs) []).
Proof.
  revert pre v. induction bs as [|b bs IH]; intros pre v; cbn [iterate length foldl].
  - unfold cursor. by rewrite !app_nil_r.
  - rewrite bind_run. unfold integer_step at 1. rewrite bind_run.
    pose proof (cursor_decodes next_byte pre [b] bs b (decodes_next_byte b)) as Hn.
    cbn [app] in Hn. rewrite Hn. cbn match. unfold mret, M_ret. rewrite IH.
    by rewrite <- app_assoc.
Qed.

Lemma decodeInteger_fold b bs :
  decodeInteger (len (b :: bs)) (NewBERDecoder (b :: bs))
  = (Ok (foldl (fun m b => int64 (Z.lor (Z.shiftl m 8) (bZ b)))
           (if high_bit b then -1 else 0) (b :: bs)), cursor (b :: bs) []).
Proof.
  unfold decodeInteger. rewrite bind_run, cursor_start.
  pose proof (cursor_decodes next_byte [] [b] bs b (decodes_next_byte b)) as Hn.
  cbn [app] in Hn. rewrite Hn.
  replace (Z.to_nat (len (b :: bs) - 1)) with (length bs) by (unfold len; simpl; lia).
  by rewrite (iterate_integer_step bs [b]).
Qed.

#[export, refine] Instance AbandonRequest_Codec : Codec AbandonRequest := {|
  wire_encode := AbandonRequest_Encode;
  wire_parse := ParseAbandonRequest;
  valid r := is_int64 (AbandonMessageID r)
|}.
Proof.
  - by intros [|b bs].
  - intros [v] Hv. cbn [AbandonMessageID] in Hv. exists (encodeInteger v).
    pose proof (len_encodeInteger v Hv) as Hl. unfold AbandonRequest_Encode. cbn [AbandonMessageID].
    rewrite (encode_writes _ _ (writes_WriteInteger v Hv)). rewrite decide_True by tlv_lia.
    split; [| split; [| lia]].
    + unfold tlv, length_bytes. rewrite (decide_True (P := len (encodeInteger v) <= 127)) by lia. done.
    + destruct (encodeInteger_minimal v Hv) as (k & He & Hk & Hf & _). rewrite He in *.
      pose proof (decodes_all _ _ _ (decodes_decodeInteger k v ltac:(lia) Hf Hv)) as Hd.
      destruct (be_bytes k v) as [|b bs] eqn:Eb; [lens; lia |].
      rewrite <- (len_be_bytes k v), Eb, decodeInteger_fold in Hd.
      injection Hd as Hd _. unfold ParseAbandonRequest. cbn [foldl]. by rewrite Hd.
Defined.
