(* ===== verification/LdapSearch.v ===== *)
(** * LDAP search requests (src/internal/ldap/search.go)

    [ParseSearchRequest] with its recursive filter parser. Filters of RFC 4511 are
    given as an abstract syntax with its encoding; the parser refines it, and it
    returns on every input: nested filters are shorter than the filter around
    them, so the length of the data bounds the depth of the recursion. *)

From S2P Require Import Prelude BerEncoder BerDecoder BerSafety BerRoundtrip LdapMessage LdapRequests.

(** ** Data *)

Definition FilterTagAnd : Z := 0.
Definition FilterTagOr : Z := 1.
Definition FilterTagNot : Z := 2.
Definition FilterTagEquality : Z := 3.
Definition FilterTagSubstrings : Z := 4.
Definition FilterTagGreaterOrEqual : Z := 5.
Definition FilterTagLessOrEqual : Z := 6.
Definition FilterTagPresent : Z := 7.
Definition FilterTagApproxMatch : Z := 8.
Definition FilterTagExtensibleMatch : Z := 9.
Definition SubstringInitial : Z := 0.
Definition SubstringAny : Z := 1.
Definition SubstringFinal : Z := 2.
Definition ExtMatchMatchingRule : Z := 1.
Definition ExtMatchType : Z := 2.
Definition ExtMatchMatchValue : Z := 3.
Definition ExtMatchDNAttributes : Z := 4.

Record SubstringComponents := mkSubstringComponents {
  Initial : bytes;
  Any : list bytes;
  Final : bytes
}.

Record ExtensibleMatchComponents := mkExtensibleMatchComponents {
  MatchingRule : gostring;
  ExtType : gostring;
  MatchValue : bytes;
  DNAttributes : bool
}.

Inductive SearchFilter : Type := mkSearchFilter {
  FilterType : Z;
  FilterAttribute : gostring;
  FilterValue : bytes;
  FilterChildren : list SearchFilter;
  FilterChild : option SearchFilter;
  FilterSubstrings : option SubstringComponents;
  FilterExtensibleMatch : option ExtensibleMatchComponents
}.

Record SearchRequest := mkSearchRequest {
  BaseObject : gostring;
  Scope : Z;
  DerefAliases : Z;
  SizeLimit : Z;
  TimeLimit : Z;
  TypesOnly : bool;
  SearchRequestFilter : SearchFilter;
  SearchAttributes : list gostring
}.

Definition ErrInvalidSearchScope : goerror := ErrConst "ErrInvalidSearchScope".
Definition ErrInvalidDerefAliases : goerror := ErrConst "ErrInvalidDerefAliases".
Definition ErrInvalidFilter : goerror := ErrConst "ErrInvalidFilter".
Definition ErrInvalidSubstringFilter : goerror := ErrConst "ErrInvalidSubstringFilter".

(** ** Parsing *)

Definition substring_component (c : SubstringComponents) : Dec SubstringComponents :=
  '(tagNum, _, value) ← parse_err "failed to read substring component" ReadTaggedValue;
  if decide (tagNum = SubstringInitial) then
    mret (mkSubstringComponents value (Any c) (Final c))
  else if decide (tagNum = SubstringAny) then
    mret (mkSubstringComponents (Initial c) (Any c ++ [value]) (Final c))
  else if decide (tagNum = SubstringFinal) then
    mret (mkSubstringComponents (Initial c) (Any c) value)
  else
    o ← Offset;
    fail (ParseError o "unknown substring component tag" ErrInvalidSubstringFilter).

Definition parseSubstringFilter : Dec (SubstringComponents * gostring) :=
  attr ← parse_err "failed to read substring attribute" ReadOctetString;
  subSeqLen ← parse_err "failed to read substrings sequence" ExpectSequence;
  o ← Offset;
  let subEnd := o + subSeqLen in
  fuel ← gets loop_fuel;
  components ← while fuel (fun _ d => bool_decide (offset d < subEnd)) substring_component
                 (mkSubstringComponents [] [] []);
  mret (components, attr).

Definition extensible_component (c : ExtensibleMatchComponents) : Dec ExtensibleMatchComponents :=
  '(tagNum, _, value) ← parse_err "failed to read extensible match component" ReadTaggedValue;
  if decide (tagNum = ExtMatchMatchingRule) then
    mret (mkExtensibleMatchComponents value (ExtType c) (MatchValue c) (DNAttributes c))
  else if decide (tagNum = ExtMatchType) then
    mret (mkExtensibleMatchComponents (MatchingRule c) value (MatchValue c) (DNAttributes c))
  else if decide (tagNum = ExtMatchMatchValue) then
    mret (mkExtensibleMatchComponents (MatchingRule c) (ExtType c) value (DNAttributes c))
  else if decide (tagNum = ExtMatchDNAttributes) then
    mret match value with
         | b :: _ =>
             if negb (byte_eqb b x00)
             then mkExtensibleMatchComponents (MatchingRule c) (ExtType c) (MatchValue c) true
             else c
         | [] => c
         end
  else mret c.

Definition parseExtensibleMatch : Dec ExtensibleMatchComponents :=
  fuel ← gets loop_fuel;
  while fuel (fun _ => has_more) extensible_component
    (mkExtensibleMatchComponents [] [] [] false).

Definition invalid_filter {A} (msg : string) : Dec A :=
  o ← Offset; fail (ParseError o msg ErrInvalidFilter).

Definition is_comparison (tagNum : Z) : bool :=
  bool_decide (tagNum = FilterTagEquality \/ tagNum = FilterTagGreaterOrEqual
               \/ tagNum = FilterTagLessOrEqual \/ tagNum = FilterTagApproxMatch).

(** The comparison case: the errors carry the outer decoder's offset. *)
Definition parse_assertion (filterData : bytes) : Dec (gostring * bytes) :=
  '(attr, subDecoder) ← parse_err "failed to read filter attribute"
                          (on (NewBERDecoder filterData) ReadOctetString);
  '(value, _) ← parse_err "failed to read filter value" (on subDecoder ReadOctetString);
  mret (attr, value).

(** [for subDecoder.Remaining() > 0 { append(parseSearchFilter(subDecoder)) }]. *)
Definition all_of {A} (p : Dec A) : Dec (list A) :=
  fuel ← gets loop_fuel;
  while fuel (fun _ => has_more) (fun xs => x ← p; mret (xs ++ [x])) [].

Fixpoint parseSearchFilter (fuel : nat) : Dec SearchFilter :=
  match fuel with
  | O => fun d => (Diverge, d)
  | S fuel =>
      '(tagNum, constructed, filterData) ← ReadTaggedValue;
      if decide (tagNum = FilterTagAnd \/ tagNum = FilterTagOr) then
        if negb constructed then invalid_filter "AND/OR filter must be constructed"
        else
          '(children, _) ← on (NewBERDecoder filterData) (all_of (parseSearchFilter fuel));
          mret (mkSearchFilter tagNum [] [] children None None None)
      else if decide (tagNum = FilterTagNot) then
        if negb constructed then invalid_filter "NOT filter must be constructed"
        else
          '(child, _) ← on (NewBERDecoder filterData) (parseSearchFilter fuel);
          mret (mkSearchFilter tagNum [] [] [] (Some child) None None)
      else if is_comparison tagNum then
        if negb constructed then invalid_filter "comparison filter must be constructed"
        else
          '(attr, value) ← parse_assertion filterData;
          mret (mkSearchFilter tagNum attr value [] None None None)
      else if decide (tagNum = FilterTagSubstrings) then
        if negb constructed then invalid_filter "substring filter must be constructed"
        else
          '(substrings, attr, _) ← on (NewBERDecoder filterData) parseSubstringFilter;
          mret (mkSearchFilter tagNum attr [] [] None (Some substrings) None)
      else if decide (tagNum = FilterTagPresent) then
        if constructed then invalid_filter "present filter must be primitive"
        else mret (mkSearchFilter tagNum filterData [] [] None None None)
      else if decide (tagNum = FilterTagExtensibleMatch) then
        if negb constructed then invalid_filter "extensible match filter must be constructed"
        else
          '(extMatch, _) ← on (NewBERDecoder filterData) parseExtensibleMatch;
          mret (mkSearchFilter tagNum [] [] [] None None (Some extMatch))
      else invalid_filter "unknown filter type"
  end.

(** Every level of nesting takes a tag and a length off the data. *)
Definition filter_fuel (d : BERDecoder) : nat := S (length (data d)).

Definition search_fields : Dec SearchRequest :=
  base ← parse_err "failed to read baseObject" ReadOctetString;
  scope ← parse_err "failed to read scope" ReadEnumerated;
  if decide (scope < 0 \/ scope > 2) then fail ErrInvalidSearchScope
  else
    deref ← parse_err "failed to read derefAliases" ReadEnumerated;
    if decide (deref < 0 \/ deref > 3) then fail ErrInvalidDerefAliases
    else
      sizeLimit ← parse_err "failed to read sizeLimit" ReadInteger;
      timeLimit ← parse_err "failed to read timeLimit" ReadInteger;
      typesOnly ← parse_err "failed to read typesOnly" ReadBoolean;
      filter ← parse_err "failed to read filter" (fuel ← gets filter_fuel; parseSearchFilter fuel);
      attrSeqLen ← parse_err "failed to read attributes sequence" ExpectSequence;
      o ← Offset;
      attributes ← elements (parse_err "failed to read attribute" ReadOctetString) (o + attrSeqLen);
      mret (mkSearchRequest base scope deref sizeLimit timeLimit typesOnly filter attributes).

Definition ParseSearchRequest : bytes -> outcome SearchRequest :=
  parse_with "empty search request data" search_fields.

(** ** The parser returns on every input *)

Lemma wp_ReadTaggedValue d :
  wf d -> wp ReadTaggedValue d
    (fun '(_, _, v) d' => offset d < offset d' /\ len v < len (data d)).
Proof.
  intros Hw. unfold ReadTaggedValue. wps. unfold truncated in *.
  match goal with H : bool_decide _ = false |- _ => apply bool_decide_eq_false in H end.
  unfold wf, advances in *. simpl. repeat match goal with H : _ /\ _ |- _ => destruct H end.
  repeat match goal with H : data _ = data _ |- _ => rewrite H in * end. lia.
Qed.

Lemma consumes_substring_component c : consumes (substring_component c).
Proof. intros d Hw. unfold substring_component, parse_err. by wps. Qed.

Lemma consumes_extensible_component c : consumes (extensible_component c).
Proof. intros d Hw. unfold extensible_component, parse_err. by wps. Qed.

Lemma wp_parseSubstringFilter d : wf d -> wp parseSubstringFilter d (fun _ _ => True).
Proof.
  intros Hw. unfold parseSubstringFilter, parse_err. wps.
  eapply wp_mono; [apply wp_consume_loop; [| eauto 6 with ber] |].
  - intros c d2 Hw2 _. by apply consumes_substring_component.
  - intros c t Ha _. by wps.
Qed.

Lemma wp_parseExtensibleMatch d : wf d -> wp parseExtensibleMatch d (fun _ _ => True).
Proof.
  intros Hw. unfold parseExtensibleMatch. wps. apply wp_consume_loop; [| done].
  intros c d2 Hw2 _. by apply consumes_extensible_component.
Qed.

Lemma wp_parse_assertion v d : wf d -> wp (parse_assertion v) d (fun _ _ => True).
Proof. intros Hw. unfold parse_assertion, parse_err. by wps. Qed.

Lemma wp_invalid_filter {A} msg d (Q : A -> BERDecoder -> Prop) : wf d -> wp (invalid_filter msg) d Q.
Proof. intros Hw. unfold invalid_filter. by wps. Qed.

(** Fuel beyond the length of the data is enough. *)
Lemma wp_parseSearchFilter fuel d :
  wf d -> (length (data d) < fuel)%nat ->
  wp (parseSearchFilter fuel) d (fun _ d' => offset d < offset d').
Proof.
  revert d. induction fuel as [|fuel IH]; intros d Hw Hf; [lia |]. cbn [parseSearchFilter].
  apply wp_bind. eapply wp_mono; [by apply wp_ReadTaggedValue |].
  intros [[t c] v] d1 Ha [Ho Hv]. assert (wf d1) as Hw1 by eauto with ber.
  assert (length (data (NewBERDecoder v)) < fuel)%nat as Hf1 by (unfold len in Hv; simpl; lia).
  clear Hf. wps; try (by apply wp_invalid_filter); try done.
  - unfold all_of. wps. eapply wp_mono; [apply wp_collect; [| eauto with ber] |].
    + intros d2 Hw2 Hd2. apply IH; [done | by rewrite Hd2].
    + intros l t' _ _. by wps.
  - eapply wp_mono; [apply IH; [eauto with ber | done] |]. intros f t' _ _. by wps.
  - eapply wp_mono; [by apply wp_parse_assertion |]. intros [a v'] t' Ha' _. wps.
    destruct Ha'. lia.
  - eapply wp_mono; [apply wp_parseSubstringFilter; eauto with ber |]. intros [s a] t' _ _. by wps.
  - eapply wp_mono; [apply wp_parseExtensibleMatch; eauto with ber |]. intros e t' _ _. by wps.
Qed.

Lemma wp_search_fields d : wf d -> wp search_fields d (fun _ _ => True).
Proof.
  intros Hw. unfold search_fields, parse_err. wps.
  eapply wp_mono; [apply wp_parseSearchFilter; [eauto 8 with ber | unfold filter_fuel; lia] |].
  intros f d1 Ha1 _. assert (wf d1) by eauto 10 with ber. wps.
  eapply wp_mono; [apply wp_elements; [| eauto with ber] |].
  - intros d2 Hw2. by wps.
  - intros l t Ha _. by wps.
Qed.

Lemma search_total bs : returns (ParseSearchRequest bs).
Proof. apply parse_with_total, wp_search_fields. Qed.

(** ** Filters of RFC 4511 *)

(** The abstract syntax and its encoding are those of the standard: the tag numbers
    are written out, independently of the parser's constants. *)
Inductive comparison := Equality | GreaterOrEqual | LessOrEqual | ApproxMatch.

Definition comparison_tag (k : comparison) : Z :=
  match k with Equality => 3 | GreaterOrEqual => 5 | LessOrEqual => 6 | ApproxMatch => 8 end.

Inductive filter : Type :=
| FAnd (fs : list filter)
| FOr (fs : list filter)
| FNot (f : filter)
| FCompare (kind : comparison) (attr : gostring) (value : bytes)
| FSubstrings (attr : gostring) (c : SubstringComponents)
| FPresent (attr : gostring)
| FExtensible (c : ExtensibleMatchComponents).

(** A context-tagged element: its number, its shape and its content. *)
Definition ctx (n : Z) (constructed : bool) (content : bytes) : bytes :=
  tlv ClassContextSpecific (constructed_flag constructed) n content.

Definition piece_bytes (p : Z * bytes) : bytes := ctx p.1 false p.2.

(** An optional component is left out when it is empty. *)
Definition piece (n : Z) (v : bytes) : list (Z * bytes) := match v with [] => [] | _ => [(n, v)] end.

Definition substring_pieces (c : SubstringComponents) : list (Z * bytes) :=
  piece 0 (Initial c) ++ ((fun v => (1, v)) <$> Any c) ++ piece 2 (Final c).

Definition extensible_pieces (c : ExtensibleMatchComponents) : list (Z * bytes) :=
  piece 1 (MatchingRule c) ++ piece 2 (ExtType c) ++ [(3, MatchValue c)]
  ++ (if DNAttributes c then [(4, [xff])] else []).

Fixpoint filter_bytes (f : filter) : bytes :=
  match f with
  | FAnd fs => ctx 0 true (concat (filter_bytes <$> fs))
  | FOr fs => ctx 1 true (concat (filter_bytes <$> fs))
  | FNot f => ctx 2 true (filter_bytes f)
  | FCompare kind attr value => ctx (comparison_tag kind) true (octets attr ++ octets value)
  | FSubstrings attr c =>
      ctx 4 true
        (octets attr ++ sequence (concat (piece_bytes <$> substring_pieces c)))
  | FPresent attr => ctx 7 false attr
  | FExtensible c =>
      ctx 9 true (concat (piece_bytes <$> extensible_pieces c))
  end.

(** The parser's value for a filter. *)
Fixpoint represent (f : filter) : SearchFilter :=
  match f with
  | FAnd fs => mkSearchFilter FilterTagAnd [] [] (represent <$> fs) None None None
  | FOr fs => mkSearchFilter FilterTagOr [] [] (represent <$> fs) None None None
  | FNot f => mkSearchFilter FilterTagNot [] [] [] (Some (represent f)) None None
  | FCompare kind attr value => mkSearchFilter (comparison_tag kind) attr value [] None None None
  | FSubstrings attr c => mkSearchFilter FilterTagSubstrings attr [] [] None (Some c) None
  | FPresent attr => mkSearchFilter FilterTagPresent attr [] [] None None None
  | FExtensible c => mkSearchFilter FilterTagExtensibleMatch [] [] [] None None (Some c)
  end.

Definition substring_update (c : SubstringComponents) (p : Z * bytes) : SubstringComponents :=
  let '(n, v) := p in
  if decide (n = SubstringInitial) then mkSubstringComponents v (Any c) (Final c)
  else if decide (n = SubstringAny) then mkSubstringComponents (Initial c) (Any c ++ [v]) (Final c)
  else mkSubstringComponents (Initial c) (Any c) v.

Lemma substring_pieces_fold c :
  foldl substring_update (mkSubstringComponents [] [] []) (substring_pieces c) = c.
Proof.
  destruct c as [i l f]. unfold substring_pieces. cbn [Initial Any Final]. rewrite !foldl_app.
  assert (forall a, foldl substring_update (mkSubstringComponents i a [])
                      ((fun v => (1, v)) <$> l) = mkSubstringComponents i (a ++ l) []) as Ha.
  { induction l as [|v l IH]; intros a; simpl; [by rewrite app_nil_r |].
    rewrite IH. by rewrite <- app_assoc. }
  destruct i; simpl; rewrite (Ha []); by destruct f.
Qed.

Definition extensible_update (c : ExtensibleMatchComponents) (p : Z * bytes)
    : ExtensibleMatchComponents :=
  let '(n, v) := p in
  if decide (n = ExtMatchMatchingRule) then
    mkExtensibleMatchComponents v (ExtType c) (MatchValue c) (DNAttributes c)
  else if decide (n = ExtMatchType) then
    mkExtensibleMatchComponents (MatchingRule c) v (MatchValue c) (DNAttributes c)
  else if decide (n = ExtMatchMatchValue) then
    mkExtensibleMatchComponents (MatchingRule c) (ExtType c) v (DNAttributes c)
  else mkExtensibleMatchComponents (MatchingRule c) (ExtType c) (MatchValue c) true.

Lemma extensible_pieces_fold c :
  foldl extensible_update (mkExtensibleMatchComponents [] [] [] false) (extensible_pieces c) = c.
Proof. by destruct c as [[] [] v []]. Qed.

Lemma piece_range c p : p ∈ substring_pieces c -> 0 <= p.1 <= 2.
Proof.
  unfold substring_pieces, piece, SubstringInitial, SubstringAny, SubstringFinal.
  destruct (Initial c), (Final c); set_unfold; naive_solver lia.
Qed.

Lemma extensible_range c p : p ∈ extensible_pieces c -> p.1 = 4 /\ p.2 = [xff] \/ 1 <= p.1 <= 3.
Proof.
  unfold extensible_pieces, piece, ExtMatchMatchingRule, ExtMatchType, ExtMatchMatchValue,
    ExtMatchDNAttributes.
  destruct (MatchingRule c), (ExtType c), (DNAttributes c); set_unfold; naive_solver lia.
Qed.

Lemma piece_len ps p :
  p ∈ ps -> len p.2 + 2 <= len (concat (piece_bytes <$> ps)).
Proof.
  intros Hp. pose proof (len_concat_elem piece_bytes ps p Hp) as He.
  unfold piece_bytes at 1, ctx in He. tlv_lia.
Qed.

Lemma decodes_tagged {A} n c v (f : Z * bool * bytes -> Dec A) bs a :
  0 <= n < tag_limit -> len v < length_limit -> decodes (f (n, c, v)) bs a ->
  decodes (x ← ReadTaggedValue; f x) (ctx n c v ++ bs) a.
Proof. intros. eapply decodes_bind; [by apply decodes_ReadTaggedValue | done]. Qed.

Lemma decodes_substring_component acc n v :
  0 <= n <= 2 -> len v < length_limit ->
  decodes (substring_component acc) (piece_bytes (n, v)) (substring_update acc (n, v)).
Proof.
  intros Hn Hl. unfold substring_component, parse_err. apply decodes_app_nil.
  eapply decodes_bind; [apply decodes_wrap, decodes_ReadTaggedValue |];
    [unfold tag_limit; simpl; lia | done |]. cbv beta iota. unfold substring_update. simpl.
  unfold SubstringInitial, SubstringAny, SubstringFinal.
  repeat case_decide; try lia; apply decodes_ret.
Qed.

Lemma decodes_extensible_component acc n v :
  n = 4 /\ v = [xff] \/ 1 <= n <= 3 -> len v < length_limit ->
  decodes (extensible_component acc) (piece_bytes (n, v)) (extensible_update acc (n, v)).
Proof.
  intros Hn Hl. unfold extensible_component, parse_err. apply decodes_app_nil.
  eapply decodes_bind; [apply decodes_wrap, decodes_ReadTaggedValue |];
    [unfold tag_limit; simpl; lia | done |]. cbv beta iota. unfold extensible_update. simpl.
  unfold ExtMatchMatchingRule, ExtMatchType, ExtMatchMatchValue, ExtMatchDNAttributes.
  destruct Hn as [[-> ->]|Hn]; [apply decodes_ret |].
  repeat case_decide; try lia; apply decodes_ret.
Qed.

(** A loop over the whole of the rest of the data. *)
Lemma ends_fold {A X} (body : A -> Dec A) (enc : X -> bytes) upd xs acc :
  (forall x acc, x ∈ xs -> decodes (body acc) (enc x) (upd acc x) /\ enc x <> []) ->
  ends (fuel ← gets loop_fuel; while fuel (fun _ => has_more) body acc)
    (concat (enc <$> xs)) (foldl upd acc xs).
Proof.
  intros Hb pre. rewrite bind_run. unfold gets. cbn match.
  eapply (fold_run body enc upd _ _ xs acc pre []); [done | by rewrite app_nil_r | done | |].
  - intros acc' o Ho. unfold has_more, Remaining. cbn [data offset].
    apply bool_decide_ext. len_lia.
  - unfold loop_fuel. cbn [data]. rewrite length_app.
    pose proof (length_concat_ge enc xs) as Hge. specialize (Hge ltac:(intros x Hx; by apply Hb)). lia.
Qed.

Lemma ends_all_of {A X} (p : Dec A) (enc : X -> bytes) (val : X -> A) xs :
  (forall x, x ∈ xs -> decodes p (enc x) (val x) /\ enc x <> []) ->
  ends (all_of p) (concat (enc <$> xs)) (val <$> xs).
Proof.
  intros Hp. replace (val <$> xs) with (foldl (fun l x => l ++ [val x]) [] xs).
  - apply ends_fold. intros x acc Hx. destruct (Hp x Hx) as [Hd Hn]. split; [| done].
    by apply (decodes_bind_ret p (fun x => acc ++ [x])).
  - apply (foldl_map_snoc val xs []).
Qed.

Lemma ends_parseExtensibleMatch c :
  len (concat (piece_bytes <$> extensible_pieces c)) < length_limit ->
  ends parseExtensibleMatch (concat (piece_bytes <$> extensible_pieces c)) c.
Proof.
  intros Hl. rewrite <- (extensible_pieces_fold c) at 2. apply ends_fold.
  intros [n v] acc Hp. split; [| apply tlv_ne_nil].
  pose proof (piece_len _ _ Hp). pose proof (extensible_range c _ Hp).
  apply decodes_extensible_component; [done | simpl in *; lia].
Qed.

Lemma ends_parseSubstringFilter attr c :
  let body := octets attr ++ sequence (concat (piece_bytes <$> substring_pieces c)) in
  len body < length_limit -> ends parseSubstringFilter body (c, attr).
Proof.
  intros body Hl. subst body. unfold parseSubstringFilter.
  eapply ends_bind; [wire |].
  set (C := concat (piece_bytes <$> substring_pieces c)) in *. intros pre.
  pose proof (expect_run ClassUniversal TagSequence TypeConstructed is_constructed
    "truncated sequence content" C eq_refl (or_intror eq_refl) eq_refl
    ltac:(by vm_compute) ltac:(tlv_lia) pre []) as He.
  rewrite app_nil_r in He. rewrite bind_run. unfold parse_err, wrap_err, ExpectSequence, sequence.
  rewrite He. cbn match. rewrite bind_run. unfold Offset, gets. cbn match. cbv zeta.
  rewrite bind_run. cbn match. rewrite bind_run. cbn [offset].
  set (h := header _ _ _ _) in *.
  assert (pre ++ tlv ClassUniversal TypeConstructed TagSequence C = (pre ++ h) ++ C) as ->.
  { unfold tlv, h, header. by rewrite <- !app_assoc. }
  rewrite <- len_app.
  erewrite (fold_run substring_component piece_bytes substring_update _ _ (substring_pieces c) _
              (pre ++ h) [] _ (len (pre ++ h) + len C)).
  - rewrite substring_pieces_fold. unfold mret, M_ret. do 2 f_equal.
    unfold tlv, h, header. len_lia.
  - intros [n v] acc Hp. split; [| apply tlv_ne_nil].
    pose proof (piece_len _ _ Hp). pose proof (piece_range c _ Hp).
    apply decodes_substring_component; [done |]. fold C in H. simpl in *. tlv_lia.
  - by rewrite app_nil_r.
  - done.
  - intros acc o Ho. done.
  - unfold loop_fuel. cbn [data]. rewrite length_app.
    pose proof (length_concat_ge piece_bytes (substring_pieces c)
      ltac:(intros; apply tlv_ne_nil)). fold C in H. lia.
Qed.

(** ** The parser refines the abstract syntax *)

Lemma decodes_parse_assertion attr value :
  len (octets attr ++ octets value) < length_limit ->
  decodes (parse_assertion (octets attr ++ octets value)) [] (attr, value).
Proof.
  intros Hl. unfold parse_assertion. rewrite cursor_start.
  eapply decodes_on_step; [apply decodes_ReadOctetString; tlv_lia |]. cbv beta iota.
  rewrite <- (app_nil_r (octets value)).
  eapply decodes_on_step; [apply decodes_ReadOctetString; tlv_lia |]. apply decodes_ret.
Qed.

Lemma filter_bytes_ne f : filter_bytes f <> [].
Proof. destruct f; apply tlv_ne_nil. Qed.

(** The nested filters of a list, under the induction hypothesis. *)
Lemma filter_list_elements n fs :
  (forall f, len (filter_bytes f) <= Z.of_nat n ->
     len (filter_bytes f) < length_limit ->
     decodes (parseSearchFilter n) (filter_bytes f) (represent f)) ->
  len (concat (filter_bytes <$> fs)) <= Z.of_nat n ->
  len (concat (filter_bytes <$> fs)) < length_limit ->
  forall f, f ∈ fs ->
    decodes (parseSearchFilter n) (filter_bytes f) (represent f) /\ filter_bytes f <> [].
Proof.
  intros IH Hn Hl f Hf. split; [| apply filter_bytes_ne].
  pose proof (len_concat_elem filter_bytes fs f Hf). apply IH; lia.
Qed.

(** The parser's cases for the comparison tags. *)
Lemma is_comparison_tag k :
  is_comparison (comparison_tag k) = true /\ 3 <= comparison_tag k <= 8.
Proof. destruct k; (split; [by apply bool_decide_eq_true_2; auto | done]). Qed.

Lemma decodes_parseSearchFilter fuel f :
  len (filter_bytes f) <= Z.of_nat fuel ->
  len (filter_bytes f) < length_limit ->
  decodes (parseSearchFilter fuel) (filter_bytes f) (represent f).
Proof.
  revert f. induction fuel as [|n IH]; intros f Hn Hl.
  { pose proof (filter_bytes_ne f). destruct (filter_bytes f); [done | len_lia]. }
  cbn [parseSearchFilter].
  destruct f as [fs|fs|f|k attr value|attr c|attr|c]; cbn [filter_bytes represent] in *;
    unfold ctx in Hn, Hl; apply decodes_app_nil.
  - apply decodes_tagged; [done | tlv_lia |]. rewrite decide_True by auto. cbn [negb].
    eapply decodes_on; [| apply decodes_ret]. apply ends_all_of, filter_list_elements; [done | |]; tlv_lia.
  - apply decodes_tagged; [done | tlv_lia |]. rewrite decide_True by auto. cbn [negb].
    eapply decodes_on; [| apply decodes_ret]. apply ends_all_of, filter_list_elements; [done | |]; tlv_lia.
  - apply decodes_tagged; [done | tlv_lia |].
    eapply decodes_on; [| apply decodes_ret]. apply decodes_ends, IH; tlv_lia.
  - destruct (is_comparison_tag k) as [Hk Hr].
    apply decodes_tagged; [unfold tag_limit; lia | tlv_lia |].
    rewrite !decide_False by (unfold FilterTagAnd, FilterTagOr, FilterTagNot; lia).
    rewrite Hk. cbn [negb].
    eapply (decodes_bind _ _ [] []); [apply decodes_parse_assertion; tlv_lia | apply decodes_ret].
  - apply decodes_tagged; [done | tlv_lia |].
    eapply (decodes_on _ _ _ _ (c, attr)); [| apply decodes_ret].
    apply ends_parseSubstringFilter. tlv_lia.
  - apply decodes_tagged; [done | tlv_lia |].
    by apply decodes_ret.
  - apply decodes_tagged; [done | tlv_lia |].
    eapply decodes_on; [| apply decodes_ret]. apply ends_parseExtensibleMatch. tlv_lia.
Qed.

(** ** Search requests *)

Definition search_content (r : SearchRequest) (f : filter) : bytes :=
  octets (BaseObject r)
  ++ tlv ClassUniversal TypePrimitive TagEnumerated (encodeInteger (Scope r))
  ++ tlv ClassUniversal TypePrimitive TagEnumerated (encodeInteger (DerefAliases r))
  ++ tlv ClassUniversal TypePrimitive TagInteger (encodeInteger (SizeLimit r))
  ++ tlv ClassUniversal TypePrimitive TagInteger (encodeInteger (TimeLimit r))
  ++ tlv ClassUniversal TypePrimitive TagBoolean (bool_content (TypesOnly r))
  ++ filter_bytes f
  ++ sequence (octets_of (SearchAttributes r)).

Lemma decodes_filter msg f :
  len (filter_bytes f) < length_limit ->
  decodes (parse_err msg (fuel ← gets filter_fuel; parseSearchFilter fuel))
    (filter_bytes f) (represent f).
Proof.
  intros Hl. apply decodes_wrap. intros pre post. rewrite bind_run. unfold gets. cbn match.
  apply decodes_parseSearchFilter; [| done].
  unfold filter_fuel, len. cbn [data]. rewrite !length_app. lia.
Qed.

Definition valid_search (r : SearchRequest) (f : filter) : Prop :=
  0 <= Scope r <= 2 /\ 0 <= DerefAliases r <= 3 /\ is_int64 (SizeLimit r) /\ is_int64 (TimeLimit r)
  /\ SearchRequestFilter r = represent f
  /\ len (search_content r f) < length_limit.

Lemma parse_search_content r f :
  valid_search r f -> ParseSearchRequest (search_content r f) = Ok r.
Proof.
  intros (Hs & Hd & Hz & Ht & Hf & Hl). destruct r as [b s d z t y g l].
  cbn [Scope DerefAliases SizeLimit TimeLimit SearchRequestFilter] in *. subst g.
  unfold search_content in *. cbn [BaseObject Scope DerefAliases SizeLimit TimeLimit TypesOnly
    SearchAttributes] in *.
  apply parse_with_run; [tlv_lia |]. unfold search_fields.
  eapply ends_bind; [wire |].
  eapply ends_bind; [apply decodes_wrap, decodes_read_int; [done | done | unfold is_int64; lia] |].
  rewrite decide_False by lia.
  eapply ends_bind; [apply decodes_wrap, decodes_read_int; [done | done | unfold is_int64; lia] |].
  rewrite decide_False by lia.
  eapply ends_bind; [by apply decodes_wrap, decodes_read_int |].
  eapply ends_bind; [by apply decodes_wrap, decodes_read_int |].
  eapply ends_bind; [apply decodes_wrap, decodes_ReadBoolean |].
  eapply ends_bind; [apply decodes_filter; tlv_lia |].
  apply decodes_ends, (decodes_sequence_of _ _ octets _ (fun l => mkSearchRequest b s d z t y _ l)).
  - intros v Hv. destruct (octets_elements l) with (v := v) as [Hr Hn]; [tlv_lia | done |].
    split; [by apply decodes_wrap | done].
  - fold (octets_of l). tlv_lia.
Qed.
