(* ===== verification/LdapResult.v ===== *)
(** * LDAP responses (src/internal/ldap/result.go, src/internal/server/connection.go)

    The response encoders of the ldap package and the messages the server's
    connection builds; the two produce the same bytes on the wire. *)

From S2P Require Import Prelude BerEncoder BerDecoder BerSafety BerRoundtrip LdapMessage LdapRequests.

Definition ContextTagReferral : Z := 3.
Definition ContextTagServerSASLCreds : Z := 7.
Definition ApplicationBindResponse : Z := 1.
Definition ApplicationSearchResultEntry : Z := 4.
Definition ApplicationSearchResultDone : Z := 5.
Definition ApplicationModifyResponse : Z := 7.
Definition ApplicationAddResponse : Z := 9.
Definition ApplicationDelResponse : Z := 11.
Definition ApplicationModifyDNResponse : Z := 13.
Definition ApplicationCompareResponse : Z := 15.
Definition ResultSuccess : Z := 0.

(** ** The ldap package *)

Record LDAPResult := mkLDAPResult {
  ResultCode : Z;
  MatchedDN : gostring;
  DiagnosticMessage : gostring;
  Referral : list gostring
}.

Record BindResponse := mkBindResponse {
  BindResult : LDAPResult;
  ServerSASLCreds : bytes
}.

Record SearchResultEntry := mkSearchResultEntry {
  ObjectName : gostring;
  EntryAttributes : list Attribute
}.

Definition LDAPResult_Encode (r : LDAPResult) : Enc unit :=
  WriteEnumerated (ResultCode r) ;;
  WriteOctetString (MatchedDN r) ;;
  WriteOctetString (DiagnosticMessage r) ;;
  (if decide (len (Referral r) > 0) then
     bracket (WriteContextTag ContextTagReferral true) EndContextTag
       (for_each (Referral r) WriteOctetString)
   else mret tt).

(** [WriteApplicationTag(tag, true) ... EndApplicationTag]. *)
Definition application (tag : Z) (body : Enc unit) : outcome bytes :=
  encode (bracket (WriteApplicationTag tag true) EndApplicationTag body).

Definition BindResponse_Encode (r : BindResponse) : outcome bytes :=
  application ApplicationBindResponse
    (LDAPResult_Encode (BindResult r) ;;
     (if decide (len (ServerSASLCreds r) > 0) then
        WriteTaggedValue ContextTagServerSASLCreds false (ServerSASLCreds r)
      else mret tt)).

Definition partial_attribute (attr : Attribute) : Enc unit :=
  bracket BeginSequence EndSequence
    (WriteOctetString (Type_ attr) ;;
     bracket BeginSet EndSet (for_each (Values attr) WriteOctetString)).

Definition entry_body (name : gostring) (attrs : list Attribute) : Enc unit :=
  WriteOctetString name ;;
  bracket BeginSequence EndSequence (for_each attrs partial_attribute).

Definition SearchResultEntry_Encode (r : SearchResultEntry) : outcome bytes :=
  application ApplicationSearchResultEntry (entry_body (ObjectName r) (EntryAttributes r)).

Definition SearchResultDone_Encode (r : LDAPResult) : outcome bytes :=
  application ApplicationSearchResultDone (LDAPResult_Encode r).
Definition ModifyResponse_Encode (r : LDAPResult) : outcome bytes :=
  application ApplicationModifyResponse (LDAPResult_Encode r).
Definition AddResponse_Encode (r : LDAPResult) : outcome bytes :=
  application ApplicationAddResponse (LDAPResult_Encode r).
Definition DeleteResponse_Encode (r : LDAPResult) : outcome bytes :=
  application ApplicationDelResponse (LDAPResult_Encode r).
Definition ModifyDNResponse_Encode (r : LDAPResult) : outcome bytes :=
  application ApplicationModifyDNResponse (LDAPResult_Encode r).
Definition CompareResponse_Encode (r : LDAPResult) : outcome bytes :=
  application ApplicationCompareResponse (LDAPResult_Encode r).

Definition NewSuccessResult : LDAPResult := mkLDAPResult ResultSuccess [] [] [].
Definition NewErrorResult (code : Z) (message : gostring) : LDAPResult :=
  mkLDAPResult code [] message [].
Definition NewErrorResultWithDN (code : Z) (matchedDN message : gostring) : LDAPResult :=
  mkLDAPResult code matchedDN message [].

(** ** The server's connection *)

(** A response message around the encoded body; [nil] when encoding fails. *)
Definition message_with (messageID tag : Z) (body : Enc unit) : option LDAPMessage :=
  match encode body with
  | Ok bs => Some (mkLDAPMessage messageID (Some (mkRawOperation tag bs)) [])
  | _ => None
  end.

Definition result_body (code : Z) (matchedDN diagnosticMessage : gostring) : Enc unit :=
  WriteEnumerated code ;; WriteOctetString matchedDN ;; WriteOctetString diagnosticMessage.

Definition createBindResponse (messageID code : Z) (matchedDN diagnosticMessage : gostring) :=
  message_with messageID ApplicationBindResponse (result_body code matchedDN diagnosticMessage).
Definition createErrorResponse (messageID code : Z) (diagnosticMessage : gostring) :=
  createBindResponse messageID code [] diagnosticMessage.
Definition createSearchDoneResponse (messageID code : Z) (matchedDN diagnosticMessage : gostring) :=
  message_with messageID ApplicationSearchResultDone (result_body code matchedDN diagnosticMessage).
Definition createSearchEntryResponse (messageID : Z) (entry : SearchResultEntry) :=
  message_with messageID ApplicationSearchResultEntry
    (entry_body (ObjectName entry) (EntryAttributes entry)).
Definition createAddResponse (messageID code : Z) (matchedDN diagnosticMessage : gostring) :=
  message_with messageID ApplicationAddResponse (result_body code matchedDN diagnosticMessage).
Definition createDeleteResponse (messageID code : Z) (matchedDN diagnosticMessage : gostring) :=
  message_with messageID ApplicationDelResponse (result_body code matchedDN diagnosticMessage).
Definition createModifyResponse (messageID code : Z) (matchedDN diagnosticMessage : gostring) :=
  message_with messageID ApplicationModifyResponse (result_body code matchedDN diagnosticMessage).
Definition createModifyDNResponse (messageID code : Z) (matchedDN diagnosticMessage : gostring) :=
  message_with messageID ApplicationModifyDNResponse (result_body code matchedDN diagnosticMessage).
Definition createCompareResponse (messageID code : Z) (matchedDN diagnosticMessage : gostring) :=
  message_with messageID ApplicationCompareResponse (result_body code matchedDN diagnosticMessage).

(** ** Both produce the same operation *)

Definition result_content (code : Z) (matchedDN diagnosticMessage : gostring) : bytes :=
  tlv ClassUniversal TypePrimitive TagEnumerated (encodeInteger code)
  ++ octets matchedDN ++ octets diagnosticMessage.

Lemma writes_result_body code dn msg :
  is_int64 code -> len (result_content code dn msg) < 2 ^ 32 ->
  writes (result_body code dn msg) (result_content code dn msg).
Proof.
  unfold result_content. intros Hc Hl.
  apply writes_bind; [by apply writes_WriteEnumerated |]. apply writes_bind; wire.
Qed.

Lemma writes_LDAPResult code dn msg :
  is_int64 code -> len (result_content code dn msg) < 2 ^ 32 ->
  writes (LDAPResult_Encode (mkLDAPResult code dn msg [])) (result_content code dn msg).
Proof.
  unfold result_content. intros Hc Hl. unfold LDAPResult_Encode.
  cbn [ResultCode MatchedDN DiagnosticMessage Referral].
  apply writes_bind; [by apply writes_WriteEnumerated |]. apply writes_bind; [wire |].
  rewrite <- (app_nil_r (octets msg)). apply writes_bind; [wire |].
  rewrite decide_False by (rewrite len_nil; lia). apply writes_nothing.
Qed.

Definition entry_content (name : gostring) (attrs : list Attribute) : bytes :=
  octets name ++ sequence (concat (attribute_bytes <$> attrs)).

Lemma writes_entry_body name attrs :
  len (entry_content name attrs) < 2 ^ 32 ->
  writes (entry_body name attrs) (entry_content name attrs).
Proof.
  unfold entry_content. intros Hl. apply writes_bind; [wire |].
  apply writes_sequence; [| tlv_lia]. apply writes_for_each. intros a Ha.
  apply writes_encodeAttribute. pose proof (attribute_in _ a Ha). tlv_lia.
Qed.

(** The message the server builds, encoded, is the message identifier followed by
    what the ldap package's response encoder produces. *)
Definition same_wire (id : Z) (m : option LDAPMessage) (response : outcome bytes) : Prop :=
  exists msg op,
    m = Some msg /\ response = Ok op /\
    Encode msg
    = Ok (sequence (tlv ClassUniversal TypePrimitive TagInteger (encodeInteger id) ++ op)).

Lemma len_length_bytes_le n : 0 <= n < 2 ^ 63 -> len (length_bytes n) <= 9.
Proof.
  intros Hn. unfold length_bytes. case_decide; [done |]. cbv zeta. rewrite len_cons, len_be_bytes.
  pose proof (ndigits_le 8 n 8). lia.
Qed.

Lemma len_tlv_le c k n content :
  n <= 30 -> len content < 2 ^ 63 -> len (tlv c k n content) <= len content + 10.
Proof.
  intros Hn Hl. unfold tlv, tag_bytes. rewrite decide_True by done.
  pose proof (len_length_bytes_le (len content)). len_lia.
Qed.

Lemma same_wire_intro id tag body1 body2 content :
  0 <= id <= MaxMessageID -> 0 <= tag <= 30 -> isConstructedOperation tag = true ->
  writes body1 content -> writes body2 content -> len content < 2 ^ 31 ->
  same_wire id (message_with id tag body1) (application tag body2).
Proof.
  intros Hid Ht Hcon H1 H2 Hl. unfold same_wire, message_with, application.
  rewrite (encode_writes _ _ H1). do 2 eexists. split; [done |]. split.
  - apply encode_writes. apply writes_bracket; [apply begins_WriteApplicationTag; lia | done | lia].
  - rewrite (Encode_bytes id (mkRawOperation tag content));
      unfold message_content; cbn [Tag Data]; rewrite ?Hcon; rewrite ?decide_False by (by vm_compute).
    + by rewrite app_nil_r.
    + done.
    + unfold tag_limit. simpl. lia.
    + pose proof (len_encodeInteger id) as He. unfold MaxMessageID in Hid.
      specialize (He ltac:(unfold is_int64; lia)).
      pose proof (len_tlv_le ClassUniversal TypePrimitive TagInteger (encodeInteger id)
        ltac:(by vm_compute) ltac:(lia)).
      pose proof (len_tlv_le ClassApplication (constructed_flag true) tag content
        ltac:(lia) ltac:(lia)). len_lia.
Qed.
