(* ===== verification/LdapTheorems.v ===== *)
(** * What the LDAP message layer guarantees

    Round trips of messages, requests and search filters, totality of every
    parser, and the agreement of the two response encoders. *)

From S2P Require Import Prelude BerEncoder BerDecoder BerSafety BerRoundtrip.
From S2P Require Import LdapMessage LdapRequests LdapSearch LdapResult.

(** C7: an encoded message is parsed back with its identifier, its operation's tag
    and bytes, and all its controls (their order, criticality and value), for every
    identifier and tag the encoding admits. *)
Theorem ldap_message_roundtrip id op cs
    (Hid : 0 <= id <= MaxMessageID) (Ht : 0 <= Tag op < tag_limit)
    (Hl : len (message_content id op cs) < 2 ^ 32) :
  exists bs, Encode (mkLDAPMessage id (Some op) cs) = Ok bs /\
    ParseLDAPMessage bs = Ok (mkLDAPMessage id (Some op) cs).
Proof.
  eexists. split; [by apply Encode_bytes |]. apply parse_encoded; [done | done |].
  unfold length_limit. lia.
Qed.

Lemma ldap_message_roundtrip_witness :
  let m := mkLDAPMessage 7 (Some (mkRawOperation 3 [u8 1; u8 2]))
             [mkControl (str "1.2.3") true [u8 9]; mkControl (str "2.5") false []] in
  exists bs, Encode m = Ok bs /\ ParseLDAPMessage bs = Ok m.
Proof.
  apply (ldap_message_roundtrip 7 (mkRawOperation 3 [u8 1; u8 2])
    [mkControl (str "1.2.3") true [u8 9]; mkControl (str "2.5") false []]);
    [unfold MaxMessageID; lia | unfold tag_limit; simpl; lia | by vm_compute].
Defined.

(** C30: no input makes a parser of the message layer panic or run on: each returns
    a value or an error for every byte string, the recursive filter parser
    included. *)
Theorem ldap_parsers_total bs :
  returns (ParseLDAPMessage bs) /\ returns (ParseBindRequest bs) /\
  returns (ParseSearchRequest bs) /\ returns (ParseAddRequest bs) /\
  returns (ParseModifyRequest bs) /\ returns (ParseModifyDNRequest bs) /\
  returns (ParseCompareRequest bs) /\ returns (ParseDeleteRequest bs) /\
  returns (ParseUnbindRequest bs) /\ returns (ParseAbandonRequest bs).
Proof.
  split; [apply parse_total |]. split; [exact (wire_total (A := BindRequest) bs) |].
  split; [apply search_total |]. split; [exact (wire_total (A := AddRequest) bs) |].
  split; [exact (wire_total (A := ModifyRequest) bs) |].
  split; [exact (wire_total (A := ModifyDNRequest) bs) |].
  split; [exact (wire_total (A := CompareRequest) bs) |].
  split; [exact (wire_total (A := DeleteRequest) bs) |].
  split; [exact (wire_total (A := UnbindRequest) bs) | exact (wire_total (A := AbandonRequest) bs)].
Qed.

(** A client's request as the server sees it: the request is encoded, wrapped in a
    message with its controls, parsed as a message, and the operation parsed again. *)
Definition through_wire {A} `{Codec A} (id tag : Z) (cs : list Control) (r : A) : outcome A :=
  match wire_encode r with
  | Ok data =>
      match Encode (mkLDAPMessage id (Some (mkRawOperation tag data)) cs) with
      | Ok bs =>
          match ParseLDAPMessage bs with
          | Ok (mkLDAPMessage _ (Some op) _) => wire_parse (Data op)
          | Ok _ => Err ErrMissingOperation
          | Err e => Err e | Panic => Panic | Diverge => Diverge
          end
      | Err e => Err e | Panic => Panic | Diverge => Diverge
      end
  | Err e => Err e | Panic => Panic | Diverge => Diverge
  end.

Lemma through_wire_id {A} `{Codec A} id tag cs (r : A) :
  valid r -> 0 <= id <= MaxMessageID -> 0 <= tag < tag_limit ->
  (forall data, wire_encode r = Ok data ->
     len (message_content id (mkRawOperation tag data) cs) < 2 ^ 32) ->
  through_wire id tag cs r = Ok r.
Proof.
  intros Hv Hid Ht Hl. destruct (wire_roundtrip r Hv) as (data & He & Hp & _).
  unfold through_wire. rewrite He, Encode_bytes by auto.
  rewrite parse_encoded; [done | done | done |]. specialize (Hl data He). unfold length_limit. lia.
Qed.

Lemma small_message id tag data :
  0 <= tag <= 30 -> len data < 1000 -> is_int64 id ->
  len (message_content id (mkRawOperation tag data) []) < 2 ^ 32.
Proof.
  intros Ht Hd Hid. unfold message_content. cbn [Tag Data]. rewrite decide_False by done.
  pose proof (len_encodeInteger id Hid).
  pose proof (len_tlv_le ClassUniversal TypePrimitive TagInteger (encodeInteger id)
    ltac:(done) ltac:(lia)).
  pose proof (len_tlv_le ClassApplication (constructed_flag (isConstructedOperation tag)) tag data
    ltac:(lia) ltac:(lia)). len_lia.
Qed.

(** C8: every valid request (bind, add, modify, modify DN, compare, delete,
    abandon) reaches the server unchanged: encoding it, sending it in a message and
    parsing both layers gives the request back. *)
Theorem ldap_requests_end_to_end id cs
    (b : BindRequest) (a : AddRequest) (m : ModifyRequest) (n : ModifyDNRequest)
    (c : CompareRequest) (d : DeleteRequest) (k : AbandonRequest)
    (Hid : 0 <= id <= MaxMessageID)
    (Hv : valid b /\ valid a /\ valid m /\ valid n /\ valid c /\ valid d /\ valid k)
    (Hl : forall tag data, In (Ok data) [wire_encode b; wire_encode a; wire_encode m; wire_encode n;
                                          wire_encode c; wire_encode d; wire_encode k] ->
          0 <= tag <= 30 -> len (message_content id (mkRawOperation tag data) cs) < 2 ^ 32) :
  through_wire id 0 cs b = Ok b /\ through_wire id 8 cs a = Ok a /\
  through_wire id 6 cs m = Ok m /\ through_wire id 12 cs n = Ok n /\
  through_wire id 14 cs c = Ok c /\ through_wire id ApplicationDelRequest cs d = Ok d /\
  through_wire id ApplicationAbandonRequest cs k = Ok k.
Proof.
  destruct Hv as (? & ? & ? & ? & ? & ? & ?).
  repeat split; (apply through_wire_id; [done | done | done |]); intros data Hd;
    (apply Hl; [rewrite Hd; simpl; tauto | done]).
Qed.

Lemma ldap_requests_end_to_end_witness :
  let b := mkBindRequest 3 (str "cn=admin") AuthMethodSASL []
             (Some (mkSASLCredentials (str "PLAIN") (str "x"))) in
  let m := mkModifyRequest (str "cn=a") [mkModification 2 (mkAttribute (str "sn") [str "b"; []])] in
  through_wire 1 0 [] b = Ok b /\ through_wire 1 6 [] m = Ok m.
Proof.
  intros b m.
  pose proof (ldap_requests_end_to_end 1 [] b (mkAddRequest (str "cn=a") []) m
    (mkModifyDNRequest (str "cn=a") (str "cn=b") true []) (mkCompareRequest [] [] [])
    (mkDeleteRequest (str "cn=a")) (mkAbandonRequest 5)) as H.
  destruct H as (Hb & _ & Hm & _).
  - unfold MaxMessageID; lia.
  - repeat split; try (by vm_compute); try (simpl; lia).
    repeat constructor; unfold valid_operation; simpl; lia.
  - intros tag data Hin Ht. simpl In in Hin.
    apply small_message; [exact Ht | | unfold is_int64; clear; lia].
    repeat destruct Hin as [Hin|Hin]; [.. | contradiction];
      (vm_compute in Hin; injection Hin as <-; by vm_compute).
  - exact (conj Hb Hm).
Defined.

(** C5: the search parser refines RFC 4511: the encoding of a search request whose
    filter is any tree of AND, OR, NOT, comparison, substring, presence and
    extensible filters is parsed to exactly that request and filter. *)
Theorem ldap_search_refines r f (Hv : valid_search r f) :
  ParseSearchRequest (search_content r f) = Ok r.
Proof. by apply parse_search_content. Qed.

Lemma ldap_search_refines_witness :
  let f := FAnd [FNot (FPresent (str "cn"));
                 FOr [FSubstrings (str "sn") (mkSubstringComponents (str "a") [str "b"; []] []);
                      FCompare Equality (str "uid") (str "x");
                      FExtensible (mkExtensibleMatchComponents (str "1.2") [] (str "v") true)]] in
  let r := mkSearchRequest (str "dc=x") 2 3 100 (-1) true (represent f) [str "cn"; str "sn"] in
  ParseSearchRequest (search_content r f) = Ok r.
Proof.
  intros f r. apply (ldap_search_refines r f). unfold valid_search, is_int64. subst r. simpl.
  repeat split; try lia; by vm_compute.
Defined.

(** the messages the server's connection builds carry the same bytes as the
    response encoders of the ldap package, for every kind of response. *)
Theorem server_responses_agree id code dn msg name attrs
    (Hid : 0 <= id <= MaxMessageID) (Hc : is_int64 code)
    (Hl : len (result_content code dn msg) < 2 ^ 31)
    (Hn : len (entry_content name attrs) < 2 ^ 31) :
  let r := NewErrorResultWithDN code dn msg in
  same_wire id (createBindResponse id code dn msg) (BindResponse_Encode (mkBindResponse r [])) /\
  same_wire id (createSearchDoneResponse id code dn msg) (SearchResultDone_Encode r) /\
  same_wire id (createAddResponse id code dn msg) (AddResponse_Encode r) /\
  same_wire id (createDeleteResponse id code dn msg) (DeleteResponse_Encode r) /\
  same_wire id (createModifyResponse id code dn msg) (ModifyResponse_Encode r) /\
  same_wire id (createModifyDNResponse id code dn msg) (ModifyDNResponse_Encode r) /\
  same_wire id (createCompareResponse id code dn msg) (CompareResponse_Encode r) /\
  same_wire id (createSearchEntryResponse id (mkSearchResultEntry name attrs))
    (SearchResultEntry_Encode (mkSearchResultEntry name attrs)).
Proof.
  intros r. pose proof (writes_result_body code dn msg Hc ltac:(lia)) as H1.
  pose proof (writes_LDAPResult code dn msg Hc ltac:(lia)) as H2.
  pose proof (writes_entry_body name attrs ltac:(lia)) as H3.
  split.
  { eapply same_wire_intro; [done | done | done | done | | done].
    rewrite <- (app_nil_r (result_content code dn msg)). apply writes_bind; [done | apply writes_nothing]. }
  repeat split; by eapply same_wire_intro.
Qed.

Lemma server_responses_agree_witness :
  exists m op, createAddResponse 5 68 [] (str "exists") = Some m /\
    AddResponse_Encode (NewErrorResult 68 (str "exists")) = Ok op /\
    Encode m = Ok (sequence (tlv ClassUniversal TypePrimitive TagInteger (encodeInteger 5) ++ op)).
Proof.
  apply (server_responses_agree 5 68 [] (str "exists") [] []);
    [unfold MaxMessageID; lia | unfold is_int64; lia | by vm_compute | by vm_compute].
Defined.

(** ** The type of what is parsed *)

(** Every value that [m] returns satisfies [P]. *)
Definition typed {A} (P : A -> Prop) (m : Dec A) : Prop := forall d v d', m d = (Ok v, d') -> P v.

Lemma typed_bind {A B} (Q : A -> Prop) (P : B -> Prop) (m : Dec A) (f : A -> Dec B) :
  typed Q m -> (forall a, Q a -> typed P (f a)) -> typed P (a ← m; f a).
Proof. intros Hm Hf d v d' (a & d1 & H1 & H2)%bind_Ok_inv. exact (Hf a (Hm _ _ _ H1) _ _ _ H2). Qed.

Lemma typed_any {A} (m : Dec A) : typed (fun _ => True) m.
Proof. done. Qed.

Lemma typed_ret {A} (P : A -> Prop) a : P a -> typed P (mret a : Dec A).
Proof. intros Ha d v d' [= <- _]. done. Qed.

Lemma typed_fail {A} (P : A -> Prop) e : typed P (fail e : Dec A).
Proof. done. Qed.

Lemma typed_parse_err {A} (P : A -> Prop) msg m : typed P m -> typed P (parse_err msg m).
Proof. intros Hm d v d'. unfold parse_err, wrap_err. destruct (m d) as [[a| | |] d1] eqn:E; try done. intros [= <- _]. by eapply Hm. Qed.

Lemma typed_on {A} (P : A -> Prop) (t : BERDecoder) (m : Dec A) : typed P m -> typed (fun r => P r.1) (on t m).
Proof. intros Hm d v d'. unfold on. destruct (m t) as [[a| | |] t'] eqn:E; try done. intros [= <- _]. by eapply Hm. Qed.

Lemma typed_while {A} (P : A -> Prop) fuel cond (body : A -> Dec A) acc :
  P acc -> (forall a, P a -> typed P (body a)) -> typed P (while fuel cond body acc).
Proof.
  intros Ha Hb. revert acc Ha. induction fuel as [|fuel IH]; intros acc Ha d v d'; cbn [while]; destruct (cond acc d); try done.
  - by intros [= <- _].
  - intros (a & d1 & H1 & H2)%bind_Ok_inv. exact (IH a (Hb _ Ha _ _ _ H1) _ _ _ H2).
  - by intros [= <- _].
Qed.

Lemma typed_read_int ec en e l t : typed is_int64 (read_int ec en e l t).
Proof.
  unfold read_int. apply (typed_bind _ _ _ _ (typed_any _)). intros o _. apply (typed_bind _ _ _ _ (typed_any _)). intros [[c k] n] _.
  destruct (negb _); [by intros d v d' |]. apply (typed_bind _ _ _ _ (typed_any _)). intros n' _.
  do 2 (case_decide; [done |]). apply (typed_bind _ _ _ _ (typed_any _)). intros [] _; [by apply (typed_bind _ _ _ _ (typed_any _)) |].
  unfold decodeInteger. apply (typed_bind _ _ _ _ (typed_any _)). intros b _.
  assert (forall z, is_int64 (int64 z)) as H64 by (intros z; apply int64_range).
  generalize (int64 (Z.lor (Z.shiftl (if high_bit b then -1 else 0) 8) (bZ b))) (H64 (Z.lor (Z.shiftl (if high_bit b then -1 else 0) 8) (bZ b))).
  induction (Z.to_nat (n' - 1)) as [|j IH]; intros z Hz; cbn [iterate]; [by apply typed_ret |].
  apply (typed_bind is_int64); [| done]. unfold integer_step. apply (typed_bind _ _ _ _ (typed_any _)). intros b' _. apply typed_ret, H64.
Qed.

(** A value that stands for a filter of the standard. *)
Definition is_filter (s : SearchFilter) : Prop := exists f, s = represent f.

Lemma filters_represented l : Forall is_filter l -> exists fs, l = represent <$> fs.
Proof.
  induction 1 as [|s l [f ->] _ [fs ->]]; [by exists [] | by exists (f :: fs)].
Qed.

Lemma typed_filter fuel : typed is_filter (parseSearchFilter fuel).
Proof.
  induction fuel as [|fuel IH]; [done |]. cbn [parseSearchFilter].
  apply (typed_bind _ _ _ _ (typed_any _)). intros [[tag constructed] content] _. unfold invalid_filter.
  assert (forall (A : Type) (P : A -> Prop) msg, typed P (o ← Offset; fail (ParseError o msg ErrInvalidFilter))) as Hbad by done.
  case_decide as H0; [destruct (negb constructed); [apply Hbad |] |].
  { apply (typed_bind (fun r => Forall is_filter r.1)).
    - apply typed_on. unfold all_of. apply (typed_bind _ _ _ _ (typed_any _)). intros k _. apply typed_while; [constructor |].
      intros l Hl. eapply typed_bind; [exact IH |]. intros x Hx. apply typed_ret. apply Forall_app. by split; [| repeat constructor].
    - intros [l d'] Hl. apply typed_ret. destruct (filters_represented l Hl) as [fs ->].
      destruct H0 as [->| ->]; [by exists (FAnd fs) | by exists (FOr fs)]. }
  case_decide as H1; [destruct (negb constructed); [apply Hbad |] |].
  { apply (typed_bind (fun r => is_filter r.1)); [by apply typed_on |]. intros [s d'] [f Hf]. cbn in Hf. subst s. apply typed_ret.
    exists (FNot f). by rewrite H1. }
  destruct (is_comparison tag) eqn:H2; [destruct (negb constructed); [apply Hbad |] |].
  { apply (typed_bind _ _ _ _ (typed_any _)). intros [attr value] _. apply typed_ret.
    apply bool_decide_eq_true in H2 as [->|[->|[->| ->]]];
      [by exists (FCompare Equality attr value) | by exists (FCompare GreaterOrEqual attr value)
      | by exists (FCompare LessOrEqual attr value) | by exists (FCompare ApproxMatch attr value)]. }
  case_decide as H3; [destruct (negb constructed); [apply Hbad |] |].
  { apply (typed_bind _ _ _ _ (typed_any _)). intros [[c attr] d'] _. apply typed_ret. exists (FSubstrings attr c). by rewrite H3. }
  case_decide as H4; [destruct constructed; [apply Hbad |] |].
  { apply typed_ret. exists (FPresent content). by rewrite H4. }
  case_decide as H5; [destruct (negb constructed); [apply Hbad |] | apply Hbad].
  apply (typed_bind _ _ _ _ (typed_any _)). intros [c d'] _. apply typed_ret. exists (FExtensible c). by rewrite H5.
Qed.

(** C6: whatever bytes are accepted as a search request, what the parser returns is a request:
    the scope and the alias mode are of the enumerations, the limits are 64-bit integers, and
    the filter is a tree of filters of the standard, each node with the fields of its kind and
    no others. *)
Theorem ldap_search_typed bs r :
  ParseSearchRequest bs = Ok r ->
  0 <= Scope r <= 2 /\ 0 <= DerefAliases r <= 3 /\ is_int64 (SizeLimit r) /\ is_int64 (TimeLimit r)
  /\ exists f, SearchRequestFilter r = represent f.
Proof.
  unfold ParseSearchRequest, parse_with, run_parser. case_decide; [done |]. intros Hr.
  destruct (search_fields (NewBERDecoder bs)) as [v d'] eqn:E. cbn in Hr. subst v. revert E. generalize (NewBERDecoder bs) r d'.
  change (typed (fun r => 0 <= Scope r <= 2 /\ 0 <= DerefAliases r <= 3 /\ is_int64 (SizeLimit r) /\ is_int64 (TimeLimit r)
    /\ is_filter (SearchRequestFilter r)) search_fields). unfold search_fields.
  apply (typed_bind _ _ _ _ (typed_any _)). intros base _. apply (typed_bind _ _ _ _ (typed_any _)). intros scope _.
  case_decide; [apply typed_fail |]. apply (typed_bind _ _ _ _ (typed_any _)). intros deref _. case_decide; [apply typed_fail |].
  eapply typed_bind; [apply typed_parse_err, typed_read_int |]. intros size Hsize.
  eapply typed_bind; [apply typed_parse_err, typed_read_int |]. intros time Htime.
  apply (typed_bind _ _ _ _ (typed_any _)). intros types _.
  apply (typed_bind is_filter). { apply typed_parse_err, (typed_bind _ _ _ _ (typed_any _)). intros fuel _. apply typed_filter. }
  intros f Hf. do 3 (apply (typed_bind _ _ _ _ (typed_any _)); intros ? _). apply typed_ret. cbn. split_and!; try lia; try apply Hsize; try apply Htime. exact Hf.
Qed.

Lemma ldap_search_typed_witness :
  let r := mkSearchRequest (str "dc=x") 2 3 100 (-1) true (represent (FNot (FPresent (str "cn")))) [str "cn"] in
  ParseSearchRequest (search_content r (FNot (FPresent (str "cn")))) = Ok r /\ exists f, SearchRequestFilter r = represent f.
Proof.
  intros r. assert (ParseSearchRequest (search_content r (FNot (FPresent (str "cn")))) = Ok r) as E by (vm_compute; reflexivity).
  split; [exact E |]. destruct (ldap_search_typed _ r E) as (_ & _ & _ & _ & Hf). exact Hf.
Defined.
