(* ===== verification/GoBinary.v ===== *)
(** * Bytes and files: encoding/binary, hash/crc32 and os.File

    Little-endian integers, the CRC-32 checksum (IEEE) and files as byte sequences
    that are read and written at offsets. Shared by the Raft log and the storage
    engine. *)

From S2P Require Import Prelude.

(** ** Little-endian integers *)

Fixpoint le_bytes (k : nat) (v : Z) : bytes :=
  match k with
  | O => []
  | S j => u8 v :: le_bytes j (Z.shiftr v 8)
  end.

Fixpoint le_value (bs : bytes) : Z :=
  match bs with
  | [] => 0
  | b :: bs => bZ b + 256 * le_value bs
  end.

Definition put64 (v : Z) : bytes := le_bytes 8 v.
Definition put32 (v : Z) : bytes := le_bytes 4 v.
Definition put16 (v : Z) : bytes := le_bytes 2 v.

(** [binary.LittleEndian.UintN(data[o:o+n])], on data known to be long enough. *)
Definition field (data : bytes) (o n : nat) : Z := le_value (take n (drop o data)).

Lemma length_le_bytes k v : length (le_bytes k v) = k.
Proof. revert v. induction k as [|k IH]; intros v; simpl; [done | by rewrite IH]. Qed.

Lemma le_value_bytes k v : le_value (le_bytes k v) = v mod 2 ^ (8 * Z.of_nat k).
Proof.
  revert v. induction k as [|k IH]; intros v.
  { simpl. by rewrite Z.mod_1_r. }
  cbn [le_bytes le_value]. rewrite IH, bZ_u8, Z.shiftr_div_pow2 by lia.
  replace (8 * Z.of_nat (S k)) with (8 + 8 * Z.of_nat k) by lia.
  rewrite Z.pow_add_r, Z.rem_mul_r by lia. done.
Qed.

Lemma le_value_range bs : 0 <= le_value bs < 2 ^ (8 * len bs).
Proof.
  induction bs as [|b bs IH]; [done |]. cbn [le_value]. rewrite len_cons.
  pose proof (bZ_range b). rewrite Z.mul_add_distr_l, Z.pow_add_r by len_lia.
  change (2 ^ (8 * 1)) with 256. lia.
Qed.

Lemma field_here k v q : field (le_bytes k v ++ q) 0 k = v mod 2 ^ (8 * Z.of_nat k).
Proof.
  unfold field. rewrite drop_0, take_app_length' by by rewrite length_le_bytes.
  apply le_value_bytes.
Qed.

Lemma field_skip p q o n : (length p <= o)%nat -> field (p ++ q) o n = field q (o - length p) n.
Proof. intros H. unfold field. by rewrite drop_app_ge. Qed.

Lemma nth_skip (p q : bytes) o : (length p <= o)%nat -> nth o (p ++ q) x00 = nth (o - length p) q x00.
Proof. intros H. by rewrite app_nth2. Qed.

Lemma field64 v q : is_uint64 v -> field (put64 v ++ q) 0 8 = v.
Proof. intros H. unfold put64. rewrite field_here. by apply Z.mod_small. Qed.

Lemma field64_last v : is_uint64 v -> field (put64 v) 0 8 = v.
Proof. intros H. rewrite <- (app_nil_r (put64 v)). by apply field64. Qed.

Lemma field32 v q : is_uint32 v -> field (put32 v ++ q) 0 4 = v.
Proof. intros H. unfold put32. rewrite field_here. by apply Z.mod_small. Qed.

Lemma field_skip64 v q o n : (8 <= o)%nat -> field (put64 v ++ q) o n = field q (o - 8) n.
Proof. apply (field_skip (put64 v)). Qed.

Lemma field_skip32 v q o n : (4 <= o)%nat -> field (put32 v ++ q) o n = field q (o - 4) n.
Proof. apply (field_skip (put32 v)). Qed.

Lemma field_skip_byte b q o n : (1 <= o)%nat -> field ([b] ++ q) o n = field q (o - 1) n.
Proof. apply (field_skip [b]). Qed.

Lemma nth_skip64 v q o : (8 <= o)%nat -> nth o (put64 v ++ q) x00 = nth (o - 8) q x00.
Proof. apply (nth_skip (put64 v)). Qed.

Lemma len_put64 v : len (put64 v) = 8.
Proof. done. Qed.
Lemma len_put32 v : len (put32 v) = 4.
Proof. done. Qed.
Lemma len_put16 v : len (put16 v) = 2.
Proof. done. Qed.
#[export] Hint Rewrite len_put64 len_put32 len_put16 : len.

Lemma field_range data o n : 0 <= field data o n < 2 ^ (8 * Z.of_nat n).
Proof.
  unfold field. pose proof (le_value_range (take n (drop o data))) as [H1 H2]. split; [done |].
  eapply Z.lt_le_trans; [exact H2 |]. apply Z.pow_le_mono_r; [lia |]. unfold len. rewrite length_take. lia.
Qed.

Lemma field16 v q : is_uint16 v -> field (put16 v ++ q) 0 2 = v.
Proof. intros H. unfold put16. rewrite field_here. by apply Z.mod_small. Qed.

Lemma field_skip16 v q o n : (2 <= o)%nat -> field (put16 v ++ q) o n = field q (o - 2) n.
Proof. apply (field_skip (put16 v)). Qed.

Lemma nth_skip32 v q o : (4 <= o)%nat -> nth o (put32 v ++ q) x00 = nth (o - 4) q x00.
Proof. apply (nth_skip (put32 v)). Qed.

Lemma nth_skip16 v q o : (2 <= o)%nat -> nth o (put16 v ++ q) x00 = nth (o - 2) q x00.
Proof. apply (nth_skip (put16 v)). Qed.

(** [fields]: reads the fields of a concatenation. *)
Ltac fields :=
  repeat first
    [ rewrite field64 by assumption | rewrite field64_last by assumption
    | rewrite field32 by assumption | rewrite field16 by assumption
    | rewrite field_skip64 by lia; cbn [Nat.sub]
    | rewrite field_skip32 by lia; cbn [Nat.sub]
    | rewrite field_skip16 by lia; cbn [Nat.sub]
    | rewrite field_skip_byte by lia; cbn [Nat.sub]
    | rewrite nth_skip64 by lia; cbn [Nat.sub]
    | rewrite nth_skip32 by lia; cbn [Nat.sub]
    | rewrite nth_skip16 by lia; cbn [Nat.sub] ].

(** ** CRC-32 (IEEE), bit by bit *)

Definition crc_bit (c : Z) : Z :=
  if Z.odd c then Z.lxor (Z.shiftr c 1) 0xEDB88320 else Z.shiftr c 1.

Definition crc_byte (c : Z) (b : byte) : Z := Nat.iter 8 crc_bit (Z.lxor c (bZ b)).

Definition ChecksumIEEE (p : bytes) : Z := Z.lxor (foldl crc_byte 0xFFFFFFFF p) 0xFFFFFFFF.

Lemma lxor_range n a b : 0 <= n -> 0 <= a < 2 ^ n -> 0 <= b < 2 ^ n -> 0 <= Z.lxor a b < 2 ^ n.
Proof.
  intros Hn Ha Hb. assert (0 <= Z.lxor a b) as Hp by (apply Z.lxor_nonneg; lia). split; [done |]. destruct (decide (Z.lxor a b = 0)) as [->|H0]; [lia |].
  apply Z.log2_lt_pow2; [lia |].
  pose proof (Z.log2_lxor a b ltac:(lia) ltac:(lia)).
  assert (forall x, 0 <= x < 2 ^ n -> 0 < n -> Z.log2 x < n) as Hl.
  { intros x Hx Hn0. destruct (decide (x = 0)) as [->|]; [done |]. apply Z.log2_lt_pow2; lia. }
  destruct (decide (n = 0)) as [->|]; [| pose proof (Hl a Ha); pose proof (Hl b Hb); lia].
  assert (a = 0) as -> by lia. assert (b = 0) as -> by lia. done.
Qed.

Lemma crc_bit_range c : 0 <= c < 2 ^ 32 -> 0 <= crc_bit c < 2 ^ 32.
Proof.
  intros Hc. assert (0 <= Z.shiftr c 1 < 2 ^ 32).
  { rewrite Z.shiftr_div_pow2 by lia. change (2 ^ 1) with 2. split; [apply Z.div_pos; lia |].
    apply Z.div_lt_upper_bound; lia. }
  unfold crc_bit. destruct (Z.odd c); [| done]. by apply lxor_range.
Qed.

Lemma ChecksumIEEE_range p : is_uint32 (ChecksumIEEE p).
Proof.
  assert (forall c, 0 <= c < 2 ^ 32 -> 0 <= foldl crc_byte c p < 2 ^ 32) as H.
  { induction p as [|b p IH]; intros c Hc; [done |]. cbn [foldl]. apply IH. unfold crc_byte.
    assert (0 <= Z.lxor c (bZ b) < 2 ^ 32) by (apply lxor_range; [lia | done | pose proof (bZ_range b); lia]).
    cbn [Nat.iter]. by do 8 apply crc_bit_range. }
  unfold is_uint32, ChecksumIEEE. apply lxor_range; [lia | by apply H | lia].
Qed.

Example crc_check : ChecksumIEEE (str "123456789") = 0xCBF43926.
Proof. reflexivity. Qed.

(** ** Files *)

Definition zeros (n : nat) : bytes := repeat x00 n.

(** [copy(make([]byte, n), l)]. *)
Definition pad (n : nat) (l : bytes) : bytes := take n l ++ zeros (n - length l).

Definition ReadAt (f : bytes) (off n : nat) : bytes := take n (drop off f).

(** The file after [WriteAt]; a hole before the offset reads as zeros. *)
Definition WriteAt (f : bytes) (off : nat) (buf : bytes) : bytes :=
  let f := f ++ zeros (off - length f) in take off f ++ buf ++ drop (off + length buf) f.

Lemma length_zeros n : length (zeros n) = n.
Proof. apply repeat_length. Qed.

Lemma length_pad n l : length (pad n l) = n.
Proof. unfold pad. rewrite length_app, length_take, length_zeros. lia. Qed.

Lemma pad_id n l : length l = n -> pad n l = l.
Proof. intros <-. unfold pad. by rewrite Nat.sub_diag, firstn_all, app_nil_r. Qed.

Lemma WriteAt_inside f off buf :
  (off + length buf <= length f)%nat -> WriteAt f off buf = take off f ++ buf ++ drop (off + length buf) f.
Proof. intros H. unfold WriteAt. replace (off - length f)%nat with 0%nat by lia. by rewrite app_nil_r. Qed.

Lemma length_WriteAt f off buf :
  (off + length buf <= length f)%nat -> length (WriteAt f off buf) = length f.
Proof. intros H. rewrite WriteAt_inside by done. rewrite !length_app, length_take, length_drop. lia. Qed.

Lemma length_ReadAt f off n : (off + n <= length f)%nat -> length (ReadAt f off n) = n.
Proof. intros H. unfold ReadAt. rewrite length_take, length_drop. lia. Qed.

Lemma ReadAt_WriteAt f off buf :
  (off + length buf <= length f)%nat -> ReadAt (WriteAt f off buf) off (length buf) = buf.
Proof.
  intros H. rewrite WriteAt_inside by done. unfold ReadAt.
  rewrite drop_app_length' by (rewrite length_take; lia). by rewrite take_app_length.
Qed.

Lemma ReadAt_WriteAt_other f off buf off' n :
  (off + length buf <= length f)%nat -> (off' + n <= off \/ off + length buf <= off')%nat ->
  ReadAt (WriteAt f off buf) off' n = ReadAt f off' n.
Proof.
  intros H Hd. apply list_eq. intros i. unfold ReadAt. rewrite WriteAt_inside by done.
  destruct (decide (i < n)%nat) as [Hi|Hi]; [| by rewrite !lookup_take_ge by lia].
  rewrite !lookup_take_lt, !lookup_drop by lia.
  destruct Hd as [Hd|Hd].
  - rewrite lookup_app_l by (rewrite length_take; lia). by rewrite lookup_take_lt by lia.
  - rewrite lookup_app_r by (rewrite length_take; lia). rewrite length_take.
    rewrite lookup_app_r by lia. rewrite lookup_drop. f_equal. lia.
Qed.
