(* ===== verification/RaftCodec.v ===== *)
(** * Raft wire formats (src/internal/raft/rpc.go, log.go)

    Little-endian encodings of the RPC arguments and replies, of log entries and of
    the replicated commands. A buffer filled field by field is the concatenation of
    its fields; a [bytes.Reader] is the bytes it has left. *)

From S2P Require Import Prelude GoBinary.

Definition bool_byte (b : bool) : byte := if b then x01 else x00.

(** ** Data *)

Record LogEntry := mkLogEntry {
  Index : Z;
  Term : Z;
  EntryType : byte;
  EntryCommand : bytes
}.

Record RequestVoteArgs := mkRequestVoteArgs {
  rv_Term : Z;
  rv_CandidateID : Z;
  rv_LastLogIndex : Z;
  rv_LastLogTerm : Z
}.

Record RequestVoteReply := mkRequestVoteReply {
  rvr_Term : Z;
  rvr_VoteGranted : bool
}.

Record AppendEntriesArgs := mkAppendEntriesArgs {
  ae_Term : Z;
  ae_LeaderID : Z;
  ae_PrevLogIndex : Z;
  ae_PrevLogTerm : Z;
  ae_Entries : list LogEntry;
  ae_LeaderCommit : Z
}.

Record AppendEntriesReply := mkAppendEntriesReply {
  aer_Term : Z;
  aer_Success : bool;
  aer_ConflictTerm : Z;
  aer_ConflictIndex : Z
}.

Record InstallSnapshotArgs := mkInstallSnapshotArgs {
  is_Term : Z;
  is_LeaderID : Z;
  is_LastIncludedIndex : Z;
  is_LastIncludedTerm : Z;
  is_Data : bytes
}.

Record InstallSnapshotReply := mkInstallSnapshotReply { isr_Term : Z }.

Definition ErrLogCorrupted : goerror := ErrConst "ErrLogCorrupted".

(** ** Fixed layouts *)

Definition LogEntry_Serialize (e : LogEntry) : bytes :=
  put64 (Index e) ++ put64 (Term e) ++ [EntryType e]
  ++ put32 (uint32 (len (EntryCommand e))) ++ EntryCommand e.

(** [data[lo : lo+n]] where [n], and so the sum, is a [uint32]. *)
Definition slice32 (data : bytes) (lo n : Z) : outcome bytes :=
  (slice (S := unit) data lo (uint32 (lo + n)) tt).1.

Definition DeserializeLogEntry (data : bytes) : outcome LogEntry :=
  if decide (len data < 21) then Err ErrLogCorrupted
  else
    let cmdLen := field data 17 4 in
    if decide (len data < 21 + cmdLen) then Err ErrLogCorrupted
    else
      match slice32 data 21 cmdLen with
      | Ok command =>
          Ok (mkLogEntry (field data 0 8) (field data 8 8) (nth 16 data x00) command)
      | Err e => Err e | Panic => Panic | Diverge => Diverge
      end.

Definition RequestVoteArgs_Serialize (r : RequestVoteArgs) : bytes :=
  put64 (rv_Term r) ++ put64 (rv_CandidateID r)
  ++ put64 (rv_LastLogIndex r) ++ put64 (rv_LastLogTerm r).

Definition DeserializeRequestVoteArgs (data : bytes) : outcome RequestVoteArgs :=
  if decide (len data < 32) then Err ErrLogCorrupted
  else Ok (mkRequestVoteArgs (field data 0 8) (field data 8 8) (field data 16 8) (field data 24 8)).

Definition RequestVoteReply_Serialize (r : RequestVoteReply) : bytes :=
  put64 (rvr_Term r) ++ [bool_byte (rvr_VoteGranted r)].

Definition DeserializeRequestVoteReply (data : bytes) : outcome RequestVoteReply :=
  if decide (len data < 9) then Err ErrLogCorrupted
  else Ok (mkRequestVoteReply (field data 0 8) (byte_eqb (nth 8 data x00) x01)).

Definition AppendEntriesReply_Serialize (r : AppendEntriesReply) : bytes :=
  put64 (aer_Term r) ++ [bool_byte (aer_Success r)]
  ++ put64 (aer_ConflictTerm r) ++ put64 (aer_ConflictIndex r).

Definition DeserializeAppendEntriesReply (data : bytes) : outcome AppendEntriesReply :=
  if decide (len data < 25) then Err ErrLogCorrupted
  else Ok (mkAppendEntriesReply (field data 0 8) (byte_eqb (nth 8 data x00) x01)
             (field data 9 8) (field data 17 8)).

Definition InstallSnapshotArgs_Serialize (s : InstallSnapshotArgs) : bytes :=
  put64 (is_Term s) ++ put64 (is_LeaderID s) ++ put64 (is_LastIncludedIndex s)
  ++ put64 (is_LastIncludedTerm s) ++ put32 (uint32 (len (is_Data s))) ++ is_Data s.

Definition DeserializeInstallSnapshotArgs (data : bytes) : outcome InstallSnapshotArgs :=
  if decide (len data < 36) then Err ErrLogCorrupted
  else
    let dataLen := field data 32 4 in
    if decide (len data < 36 + dataLen) then Err ErrLogCorrupted
    else
      match slice32 data 36 dataLen with
      | Ok payload =>
          Ok (mkInstallSnapshotArgs (field data 0 8) (field data 8 8) (field data 16 8)
                (field data 24 8) payload)
      | Err e => Err e | Panic => Panic | Diverge => Diverge
      end.

Definition InstallSnapshotReply_Serialize (r : InstallSnapshotReply) : bytes := put64 (isr_Term r).

Definition DeserializeInstallSnapshotReply (data : bytes) : outcome InstallSnapshotReply :=
  if decide (len data < 8) then Err ErrLogCorrupted
  else Ok (mkInstallSnapshotReply (field data 0 8)).

(** ** Readers *)

Abbreviation Rd := (M bytes).

Definition EOF : goerror := ErrConst "io.EOF".

(** [io.ReadFull]: a short read consumes what is left. *)
Definition read_full (n : Z) : Rd bytes := fun r =>
  if decide (n <= len r) then (Ok (take (Z.to_nat n) r), drop (Z.to_nat n) r) else (Err EOF, []).

(** [binary.Read] of an unsigned integer of [n] bytes. *)
Definition read_uint (n : nat) : Rd Z := bs ← read_full (Z.of_nat n); mret (le_value bs).

(** [binary.Read] of a [bool]. *)
Definition read_bool : Rd bool := bs ← read_full 1; mret (negb (bytes_eqb bs [x00])).

Definition read_byte : Rd byte := bs ← read_full 1; mret (nth 0 bs x00).

Definition readString : Rd gostring :=
  length ← read_uint 2; read_full length.

Definition readBytes : Rd bytes :=
  length ← read_uint 4;
  if decide (length = 0) then mret [] else read_full length.

Definition writeString (s : gostring) : bytes := put16 (uint16 (len s)) ++ s.
Definition writeBytes (data : bytes) : bytes :=
  put32 (uint32 (len data)) ++ (if decide (len data > 0) then data else []).

(** [if err != nil { return ErrLogCorrupted }]. *)
Definition corrupted {A} (m : Rd A) : Rd A := wrap_err (fun _ _ => ErrLogCorrupted) m.

(** [for i := 0; i < n; i++ { append(p()) }]. *)
Definition read_n {A} (n : Z) (p : Rd A) : Rd (list A) :=
  iterate (Z.to_nat n) (fun xs => x ← p; mret (xs ++ [x])) [].

Definition read_all {A} (m : Rd A) (data : bytes) : outcome A := (m data).1.

(** ** AppendEntries *)

Definition entry_frame (e : LogEntry) : bytes :=
  let entryData := LogEntry_Serialize e in put32 (uint32 (len entryData)) ++ entryData.

Definition AppendEntriesArgs_Serialize (a : AppendEntriesArgs) : bytes :=
  put64 (ae_Term a) ++ put64 (ae_LeaderID a) ++ put64 (ae_PrevLogIndex a)
  ++ put64 (ae_PrevLogTerm a) ++ put64 (uint64 (len (ae_Entries a))) ++ put64 (ae_LeaderCommit a)
  ++ concat (entry_frame <$> ae_Entries a).

Definition lift_outcome {A} (o : outcome A) : Rd A := fun r => (o, r).

Definition read_entry : Rd LogEntry :=
  entryLen ← corrupted (read_uint 4);
  entryData ← corrupted (read_full entryLen);
  lift_outcome (DeserializeLogEntry entryData).

Definition DeserializeAppendEntriesArgs (data : bytes) : outcome AppendEntriesArgs :=
  if decide (len data < 48) then Err ErrLogCorrupted
  else
    let numEntries := field data 32 8 in
    if decide (numEntries > 10000) then Err ErrLogCorrupted
    else
      read_all
        (entries ← read_n numEntries read_entry;
         mret (mkAppendEntriesArgs (field data 0 8) (field data 8 8) (field data 16 8)
                 (field data 24 8) entries (field data 40 8)))
        (drop 48 data).

(** ** Commands *)

Record ConfigCommand := mkConfigCommand {
  Section_ : gostring;
  ConfigData_ : gmap gostring gostring;
  ConfigVersion : Z
}.

(** Go visits a map in any order: [pairs] is the order of this run. *)
Definition SerializeConfigCommand (cmd : ConfigCommand) (pairs : list (gostring * gostring)) : bytes :=
  writeString (Section_ cmd) ++ put64 (ConfigVersion cmd)
  ++ put16 (uint16 (Z.of_nat (size (ConfigData_ cmd))))
  ++ concat ((fun '(k, v) => writeString k ++ writeString v) <$> pairs).

Definition visits (m : gmap gostring gostring) (pairs : list (gostring * gostring)) : Prop :=
  pairs ≡ₚ map_to_list m.

Definition read_pair (m : gmap gostring gostring) : Rd (gmap gostring gostring) :=
  key ← corrupted readString;
  value ← corrupted readString;
  mret (<[key := value]> m).

Definition DeserializeConfigCommand (data : bytes) : outcome ConfigCommand :=
  if decide (len data < 2) then Err ErrLogCorrupted
  else
    read_all
      (section ← corrupted readString;
       version ← corrupted (read_uint 8);
       mapLen ← corrupted (read_uint 2);
       m ← iterate (Z.to_nat mapLen) read_pair ∅;
       mret (mkConfigCommand section m version))
      data.

Record ACLRuleData := mkACLRuleData {
  Target : gostring;
  Subject : gostring;
  RuleScope : gostring;
  Rights : list gostring;
  RuleAttributes : list gostring;
  Deny : bool
}.

Record ACLCommand := mkACLCommand {
  DefaultPolicy : gostring;
  Rules : list ACLRuleData;
  Rule : option ACLRuleData;
  RuleIndex : Z;
  ACLVersion : Z
}.

Definition serializeACLRule (rule : ACLRuleData) : bytes :=
  writeString (Target rule) ++ writeString (Subject rule) ++ writeString (RuleScope rule)
  ++ put16 (uint16 (len (Rights rule))) ++ concat (writeString <$> Rights rule)
  ++ put16 (uint16 (len (RuleAttributes rule))) ++ concat (writeString <$> RuleAttributes rule)
  ++ [bool_byte (Deny rule)].

(** [int32(cmd.RuleIndex)] is written with two's complement. *)
Definition SerializeACLCommand (cmd : ACLCommand) : bytes :=
  writeString (DefaultPolicy cmd) ++ put64 (ACLVersion cmd) ++ put32 (uint32 (RuleIndex cmd))
  ++ put16 (uint16 (len (Rules cmd))) ++ concat (serializeACLRule <$> Rules cmd)
  ++ match Rule cmd with
     | None => [bool_byte false]
     | Some rule => bool_byte true :: serializeACLRule rule
     end.

Definition deserializeACLRule : Rd ACLRuleData :=
  target ← corrupted readString;
  subject ← corrupted readString;
  scope ← corrupted readString;
  rightsCount ← corrupted (read_uint 2);
  rights ← read_n rightsCount (corrupted readString);
  attrsCount ← corrupted (read_uint 2);
  attributes ← read_n attrsCount (corrupted readString);
  deny ← corrupted read_bool;
  mret (mkACLRuleData target subject scope rights attributes deny).

Definition DeserializeACLCommand (data : bytes) : outcome ACLCommand :=
  if decide (len data < 2) then Err ErrLogCorrupted
  else
    read_all
      (policy ← corrupted readString;
       version ← corrupted (read_uint 8);
       ruleIndex ← corrupted (read_uint 4);
       rulesCount ← corrupted (read_uint 2);
       rules ← read_n rulesCount deserializeACLRule;
       hasRule ← corrupted read_bool;
       rule ← (if (hasRule : bool) then rule ← deserializeACLRule; mret (Some rule) else mret None);
       mret (mkACLCommand policy rules rule (int32 ruleIndex) version))
      data.

Record Command := mkCommand {
  CmdType : byte;
  DatabaseID : byte;
  DN : gostring;
  OldDN : gostring;
  EntryDN : gostring;
  EntryData : bytes;
  ConfigData : bytes;
  ACLData : bytes
}.

Definition Command_Serialize (c : Command) : bytes :=
  [CmdType c] ++ [DatabaseID c]
  ++ writeString (DN c) ++ writeString (OldDN c) ++ writeString (EntryDN c)
  ++ writeBytes (EntryData c) ++ writeBytes (ConfigData c) ++ writeBytes (ACLData c).

(** [if err != nil { v = nil }]. *)
Definition or_nil (m : Rd bytes) : Rd bytes :=
  r ← try m; mret match r with inl v => v | inr _ => [] end.

Definition command_fields : Rd Command :=
  t ← corrupted read_byte;
  db ← corrupted read_byte;
  dn ← corrupted readString;
  oldDN ← corrupted readString;
  entryDN ← corrupted readString;
  entryData ← corrupted readBytes;
  configData ← or_nil readBytes;
  aclData ← or_nil readBytes;
  mret (mkCommand t db dn oldDN entryDN entryData configData aclData).

Definition DeserializeCommand (data : bytes) : outcome Command :=
  if decide (len data < 2) then Err ErrLogCorrupted else read_all command_fields data.

Definition CmdConfigUpdate : byte := x03.
Definition CmdACLFullUpdate : byte := x04.
Definition CmdACLAddRule : byte := x05.
Definition CmdACLUpdateRule : byte := x06.
Definition CmdACLDeleteRule : byte := x07.
Definition CmdACLSetDefault : byte := x08.

Definition config_command (t : byte) (configData aclData : bytes) : Command :=
  mkCommand t x00 [] [] [] [] configData aclData.

Definition CreateConfigUpdateCommand (section : gostring) (data : gmap gostring gostring)
    (version : Z) (pairs : list (gostring * gostring)) : Command :=
  config_command CmdConfigUpdate
    (SerializeConfigCommand (mkConfigCommand section data version) pairs) [].

Definition CreateACLFullUpdateCommand (rules : list ACLRuleData) (defaultPolicy : gostring)
    (version : Z) : Command :=
  config_command CmdACLFullUpdate []
    (SerializeACLCommand (mkACLCommand defaultPolicy rules None 0 version)).

Definition CreateACLAddRuleCommand (rule : option ACLRuleData) (index version : Z) : Command :=
  config_command CmdACLAddRule [] (SerializeACLCommand (mkACLCommand [] [] rule index version)).

Definition CreateACLUpdateRuleCommand (rule : option ACLRuleData) (index version : Z) : Command :=
  config_command CmdACLUpdateRule [] (SerializeACLCommand (mkACLCommand [] [] rule index version)).

Definition CreateACLDeleteRuleCommand (index version : Z) : Command :=
  config_command CmdACLDeleteRule [] (SerializeACLCommand (mkACLCommand [] [] None index version)).

Definition CreateACLSetDefaultCommand (defaultPolicy : gostring) (version : Z) : Command :=
  config_command CmdACLSetDefault []
    (SerializeACLCommand (mkACLCommand defaultPolicy [] None 0 version)).

(** ** Round trips of the messages *)

Lemma bool_byte_eq b : byte_eqb (bool_byte b) x01 = b.
Proof. by destruct b. Qed.

Lemma RequestVoteArgs_roundtrip r :
  is_uint64 (rv_Term r) -> is_uint64 (rv_CandidateID r) ->
  is_uint64 (rv_LastLogIndex r) -> is_uint64 (rv_LastLogTerm r) ->
  DeserializeRequestVoteArgs (RequestVoteArgs_Serialize r) = Ok r.
Proof.
  intros. unfold DeserializeRequestVoteArgs, RequestVoteArgs_Serialize.
  rewrite decide_False by len_lia. fields. by destruct r.
Qed.

Lemma RequestVoteReply_roundtrip r :
  is_uint64 (rvr_Term r) -> DeserializeRequestVoteReply (RequestVoteReply_Serialize r) = Ok r.
Proof.
  intros. unfold DeserializeRequestVoteReply, RequestVoteReply_Serialize.
  rewrite decide_False by len_lia. fields. cbn [nth]. rewrite bool_byte_eq. by destruct r.
Qed.

Lemma AppendEntriesReply_roundtrip r :
  is_uint64 (aer_Term r) -> is_uint64 (aer_ConflictTerm r) -> is_uint64 (aer_ConflictIndex r) ->
  DeserializeAppendEntriesReply (AppendEntriesReply_Serialize r) = Ok r.
Proof.
  intros. unfold DeserializeAppendEntriesReply, AppendEntriesReply_Serialize.
  rewrite decide_False by len_lia. fields. cbn [nth app]. rewrite bool_byte_eq. by destruct r.
Qed.

Lemma InstallSnapshotReply_roundtrip r :
  is_uint64 (isr_Term r) -> DeserializeInstallSnapshotReply (InstallSnapshotReply_Serialize r) = Ok r.
Proof.
  intros. unfold DeserializeInstallSnapshotReply, InstallSnapshotReply_Serialize.
  rewrite decide_False by len_lia. fields. by destruct r.
Qed.

Lemma slice32_tail p q : len p + len q < 2 ^ 32 -> slice32 (p ++ q) (len p) (len q) = Ok q.
Proof.
  intros H. unfold slice32, uint32. rewrite Z.mod_small by len_lia.
  pose proof (slice_app (S := unit) p q [] tt) as Hs. rewrite app_nil_r in Hs. by rewrite Hs.
Qed.

Lemma InstallSnapshotArgs_roundtrip s :
  is_uint64 (is_Term s) -> is_uint64 (is_LeaderID s) -> is_uint64 (is_LastIncludedIndex s) ->
  is_uint64 (is_LastIncludedTerm s) -> len (is_Data s) + 36 < 2 ^ 32 ->
  DeserializeInstallSnapshotArgs (InstallSnapshotArgs_Serialize s) = Ok s.
Proof.
  intros H1 H2 H3 H4 Hl. unfold DeserializeInstallSnapshotArgs, InstallSnapshotArgs_Serialize.
  assert (is_uint32 (uint32 (len (is_Data s)))) by (apply Z.mod_pos_bound; lia).
  rewrite decide_False by len_lia. fields.
  replace (uint32 (len (is_Data s))) with (len (is_Data s)) in *
    by (symmetry; apply Z.mod_small; len_lia).
  cbv zeta. rewrite decide_False by len_lia.
  rewrite !app_assoc. rewrite slice32_tail; [by destruct s | len_lia].
Qed.

(** Entries whose frame length fits its 32-bit field. *)
Definition valid_entry (e : LogEntry) : Prop :=
  is_uint64 (Index e) /\ is_uint64 (Term e) /\ len (EntryCommand e) + 21 < 2 ^ 32.

Lemma LogEntry_roundtrip e :
  valid_entry e -> DeserializeLogEntry (LogEntry_Serialize e) = Ok e.
Proof.
  intros (H1 & H2 & Hl). unfold DeserializeLogEntry, LogEntry_Serialize.
  assert (is_uint32 (uint32 (len (EntryCommand e)))) by (apply Z.mod_pos_bound; lia).
  rewrite decide_False by len_lia. fields.
  replace (uint32 (len (EntryCommand e))) with (len (EntryCommand e)) in *
    by (symmetry; apply Z.mod_small; len_lia).
  cbv zeta. rewrite decide_False by len_lia. cbn [nth app].
  change (EntryType e :: put32 ?x ++ ?y) with ([EntryType e] ++ put32 x ++ y).
  rewrite !app_assoc. rewrite slice32_tail; [by destruct e | len_lia].
Qed.

(** ** Readers read back what was written *)

(** [reads m bs a]: in front of any rest, [m] consumes [bs] and returns [a]. *)
Definition reads {A} (m : Rd A) (bs : bytes) (a : A) : Prop :=
  forall rest, m (bs ++ rest) = (Ok a, rest).

Lemma reads_bind {A B} (m : Rd A) (f : A -> Rd B) bs1 bs2 a b :
  reads m bs1 a -> reads (f a) bs2 b -> reads (x ← m; f x) (bs1 ++ bs2) b.
Proof. intros Hm Hf rest. by rewrite bind_run, <- app_assoc, Hm, Hf. Qed.

Lemma reads_ret {A} (a : A) : reads (mret a) [] a.
Proof. by intros rest. Qed.

Lemma reads_bind_ret {A B} (m : Rd A) (f : A -> B) bs a :
  reads m bs a -> reads (x ← m; mret (f x)) bs (f a).
Proof. intros Hm rest. by rewrite bind_run, Hm. Qed.

Lemma reads_corrupted {A} (m : Rd A) bs a : reads m bs a -> reads (corrupted m) bs a.
Proof. intros Hm rest. unfold corrupted, wrap_err. by rewrite Hm. Qed.

Lemma reads_all {A} (m : Rd A) bs a : reads m bs a -> read_all m bs = Ok a.
Proof. intros Hm. specialize (Hm []). rewrite app_nil_r in Hm. unfold read_all. by rewrite Hm. Qed.

Lemma reads_full v n : n = len v -> reads (read_full n) v v.
Proof.
  intros -> rest. unfold read_full. rewrite decide_True by len_lia.
  unfold len. by rewrite Nat2Z.id, take_app_length, drop_app_length.
Qed.

Lemma reads_uint k v :
  0 <= v < 2 ^ (8 * Z.of_nat k) -> reads (read_uint k) (le_bytes k v) v.
Proof.
  intros Hv. rewrite <- (Z.mod_small v _ Hv) at 2. rewrite <- le_value_bytes.
  apply (reads_bind_ret (read_full (Z.of_nat k)) le_value), reads_full.
  unfold len. by rewrite length_le_bytes.
Qed.

Lemma reads_bool b : reads read_bool [bool_byte b] b.
Proof.
  intros rest. unfold read_bool. rewrite bind_run, (reads_full [bool_byte b]) by done.
  by destruct b.
Qed.

Lemma reads_byte b : reads read_byte [b] b.
Proof. intros rest. unfold read_byte. by rewrite bind_run, (reads_full [b]). Qed.

Definition short (s : gostring) : Prop := len s < 2 ^ 16.

Lemma reads_string s : short s -> reads readString (writeString s) s.
Proof.
  unfold short. intros Hs. unfold readString, writeString, uint16.
  rewrite Z.mod_small by len_lia.
  eapply reads_bind; [apply reads_uint; len_lia | by apply reads_full].
Qed.

Lemma reads_writeBytes v : len v < 2 ^ 32 -> reads readBytes (writeBytes v) v.
Proof.
  intros Hs. unfold readBytes, writeBytes, uint32. rewrite Z.mod_small by len_lia.
  eapply reads_bind; [apply reads_uint; len_lia |]. destruct v as [|b v].
  - apply reads_ret.
  - rewrite decide_False, decide_True by len_lia. by apply reads_full.
Qed.

Lemma reads_iterate {A X} (body : A -> Rd A) (enc : X -> bytes) (upd : A -> X -> A) xs acc :
  (forall x acc, x ∈ xs -> reads (body acc) (enc x) (upd acc x)) ->
  reads (iterate (length xs) body acc) (concat (enc <$> xs)) (foldl upd acc xs).
Proof.
  revert acc. induction xs as [|x xs IH]; intros acc Hp; cbn [length iterate foldl]; [apply reads_ret |].
  rewrite fmap_cons. cbn [concat]. eapply reads_bind; [apply Hp; by left |].
  apply IH. intros y acc' Hy. apply Hp. by right.
Qed.

Lemma reads_n {A} (p : Rd A) (enc : A -> bytes) xs n :
  (forall x, x ∈ xs -> reads p (enc x) x) -> n = len xs ->
  reads (read_n n p) (concat (enc <$> xs)) xs.
Proof.
  intros Hp ->. unfold read_n, len. rewrite Nat2Z.id.
  replace xs with (foldl (fun l x => l ++ [x]) [] xs) at 3.
  - apply reads_iterate. intros x acc Hx. by apply (reads_bind_ret p (fun x => acc ++ [x])), Hp.
  - apply (foldl_snoc xs []).
Qed.

Lemma reads_count {A B} (xs : list A) (f : Z -> Rd B) bs b :
  len xs < 2 ^ 16 -> reads (f (len xs)) bs b ->
  reads (n ← corrupted (read_uint 2); f n) (put16 (uint16 (len xs)) ++ bs) b.
Proof.
  intros Hl Hf. unfold uint16. rewrite Z.mod_small by len_lia.
  eapply reads_bind; [apply reads_corrupted, reads_uint; len_lia | done].
Qed.

(** [read_next]: one field of a command. *)
Ltac read_next :=
  lazymatch goal with
  | |- reads (mbind _ (corrupted readString)) _ _ =>
      eapply reads_bind; [apply reads_corrupted, reads_string; assumption |]
  | |- reads (mbind _ (corrupted (read_uint _))) _ _ =>
      eapply reads_bind; [apply reads_corrupted, reads_uint; assumption |]
  | |- reads (mbind _ (corrupted readBytes)) _ _ =>
      eapply reads_bind; [apply reads_corrupted, reads_writeBytes; assumption |]
  | |- reads (mbind _ (corrupted read_byte)) _ _ =>
      eapply reads_bind; [apply reads_corrupted, reads_byte |]
  end.

(** ** AppendEntries *)

Lemma len_LogEntry_Serialize e : len (LogEntry_Serialize e) = len (EntryCommand e) + 21.
Proof. unfold LogEntry_Serialize. len_lia. Qed.

Lemma reads_entry e : valid_entry e -> reads read_entry (entry_frame e) e.
Proof.
  intros He. pose proof He as (_ & _ & Hl). unfold read_entry, entry_frame, uint32. cbv zeta.
  rewrite Z.mod_small by (rewrite len_LogEntry_Serialize; len_lia).
  eapply reads_bind.
  { apply reads_corrupted, reads_uint. rewrite len_LogEntry_Serialize. len_lia. }
  rewrite <- (app_nil_r (LogEntry_Serialize e)) at 2.
  eapply reads_bind; [by apply reads_corrupted, reads_full |].
  intros rest. unfold lift_outcome. by rewrite LogEntry_roundtrip.
Qed.

Definition valid_append (a : AppendEntriesArgs) : Prop :=
  is_uint64 (ae_Term a) /\ is_uint64 (ae_LeaderID a) /\ is_uint64 (ae_PrevLogIndex a)
  /\ is_uint64 (ae_PrevLogTerm a) /\ is_uint64 (ae_LeaderCommit a)
  /\ len (ae_Entries a) <= 10000 /\ Forall valid_entry (ae_Entries a).

Lemma AppendEntriesArgs_roundtrip a :
  valid_append a -> DeserializeAppendEntriesArgs (AppendEntriesArgs_Serialize a) = Ok a.
Proof.
  intros (H1 & H2 & H3 & H4 & H5 & Hn & He). rewrite Forall_forall in He.
  unfold DeserializeAppendEntriesArgs, AppendEntriesArgs_Serialize.
  replace (uint64 (len (ae_Entries a))) with (len (ae_Entries a))
    by (symmetry; apply Z.mod_small; len_lia).
  assert (is_uint64 (len (ae_Entries a))) by (unfold is_uint64; len_lia).
  rewrite decide_False by len_lia. fields. cbv zeta. rewrite decide_False by lia.
  match goal with |- context [drop 48 (?p ++ ?q ++ ?r ++ ?s ++ ?t ++ ?u ++ ?v)] =>
    change (drop 48 (p ++ q ++ r ++ s ++ t ++ u ++ v)) with v end.
  apply reads_all. destruct a as [t l i p es c].
  apply (reads_bind_ret _ (fun es => mkAppendEntriesArgs t l i p es c)).
  apply reads_n; [| done]. intros e Hin. by apply reads_entry, He.
Qed.

(** ** Commands *)

Definition valid_rule (r : ACLRuleData) : Prop :=
  short (Target r) /\ short (Subject r) /\ short (RuleScope r)
  /\ len (Rights r) < 2 ^ 16 /\ Forall short (Rights r)
  /\ len (RuleAttributes r) < 2 ^ 16 /\ Forall short (RuleAttributes r).

Lemma reads_strings xs n :
  Forall short xs -> n = len xs ->
  reads (read_n n (corrupted readString)) (concat (writeString <$> xs)) xs.
Proof.
  intros Hs Hn. rewrite Forall_forall in Hs. apply reads_n; [| done].
  intros x Hx. by apply reads_corrupted, reads_string, Hs.
Qed.

Lemma reads_ACLRule r : valid_rule r -> reads deserializeACLRule (serializeACLRule r) r.
Proof.
  intros (H1 & H2 & H3 & H4 & H5 & H6 & H7). unfold deserializeACLRule, serializeACLRule.
  do 3 read_next. apply reads_count; [done |].
  eapply reads_bind; [by apply reads_strings |]. apply reads_count; [done |].
  eapply reads_bind; [by apply reads_strings |].
  destruct r as [t s c rs a d].
  apply (reads_bind_ret _ (fun d => mkACLRuleData t s c rs a d)), reads_corrupted, reads_bool.
Qed.

Definition valid_acl (c : ACLCommand) : Prop :=
  short (DefaultPolicy c) /\ is_uint64 (ACLVersion c) /\ - 2 ^ 31 <= RuleIndex c < 2 ^ 31
  /\ len (Rules c) < 2 ^ 16 /\ Forall valid_rule (Rules c)
  /\ match Rule c with None => True | Some r => valid_rule r end.

Lemma int32_uint32 v : - 2 ^ 31 <= v < 2 ^ 31 -> int32 (uint32 v) = v.
Proof.
  intros Hv. unfold int32, uint32. rewrite Zplus_mod_idemp_l, Z.mod_small by lia. lia.
Qed.

Lemma reads_rule_option r :
  match r with None => True | Some r => valid_rule r end ->
  reads (hasRule ← corrupted read_bool;
         if (hasRule : bool) then rule ← deserializeACLRule; mret (Some rule) else mret None)
    match r with None => [bool_byte false] | Some rule => bool_byte true :: serializeACLRule rule end r.
Proof.
  intros Hr. destruct r as [r|].
  - apply (reads_bind _ _ [bool_byte true] _ true); [apply reads_corrupted, reads_bool |].
    by apply (reads_bind_ret deserializeACLRule Some), reads_ACLRule.
  - apply (reads_bind _ _ [bool_byte false] [] false); [apply reads_corrupted, reads_bool |].
    apply reads_ret.
Qed.

Lemma reads_assoc {A B C} (m : Rd A) (f : A -> Rd B) (g : B -> Rd C) bs c :
  reads (y ← (x ← m; f x); g y) bs c -> reads (x ← m; y ← f x; g y) bs c.
Proof.
  intros H rest. specialize (H rest). rewrite !bind_run in *. by destruct (m _) as [[] ?].
Qed.

Lemma ACLCommand_roundtrip c :
  valid_acl c -> DeserializeACLCommand (SerializeACLCommand c) = Ok c.
Proof.
  intros (H1 & H2 & H3 & H4 & H5 & H6). rewrite Forall_forall in H5.
  unfold DeserializeACLCommand, SerializeACLCommand.
  rewrite decide_False by (unfold writeString; len_lia). apply reads_all.
  assert (0 <= uint32 (RuleIndex c) < 2 ^ 32) by (apply Z.mod_pos_bound; lia).
  do 3 read_next. apply reads_count; [done |].
  eapply reads_bind; [apply reads_n; [intros r Hr; by apply reads_ACLRule, H5 | done] |].
  apply reads_assoc. rewrite int32_uint32 by done. destruct c as [p rs r i v].
  apply (reads_bind_ret _ (fun r => mkACLCommand p rs r i v)), reads_rule_option, H6.
Qed.

Definition valid_config (c : ConfigCommand) : Prop :=
  short (Section_ c) /\ is_uint64 (ConfigVersion c) /\ Z.of_nat (size (ConfigData_ c)) < 2 ^ 16
  /\ map_Forall (fun k v => short k /\ short v) (ConfigData_ c).

Lemma foldl_insert_list (l : list (gostring * gostring)) (m : gmap gostring gostring) :
  NoDup l.*1 -> (forall k, k ∈ l.*1 -> m !! k = None) ->
  foldl (fun m '(k, v) => <[k := v]> m) m l = list_to_map l ∪ m.
Proof.
  revert m. induction l as [|[k v] l IH]; intros m Hn Hm; simpl.
  { by rewrite (left_id_L ∅ (∪)). }
  rewrite fmap_cons in Hn. apply NoDup_cons in Hn as [Hk Hn].
  rewrite IH; [| done |].
  - rewrite <- insert_union_l, insert_union_r; [done |]. by apply not_elem_of_list_to_map_1.
  - intros k' Hk'. rewrite lookup_insert_ne; [apply Hm; by right |].
    intros ->. done.
Qed.

Lemma ConfigCommand_roundtrip c pairs :
  valid_config c -> visits (ConfigData_ c) pairs ->
  DeserializeConfigCommand (SerializeConfigCommand c pairs) = Ok c.
Proof.
  intros (H1 & H2 & H3 & H4) Hv. unfold DeserializeConfigCommand, SerializeConfigCommand, visits in *.
  rewrite decide_False by (unfold writeString; len_lia). apply reads_all.
  assert (len pairs = Z.of_nat (size (ConfigData_ c))) as Hs.
  { unfold len. by rewrite Hv, length_map_to_list. }
  rewrite <- Hs in *. do 2 read_next. apply reads_count; [done |].
  destruct c as [s m v]. cbn [Section_ ConfigData_ ConfigVersion] in *.
  apply (reads_bind_ret _ (fun m => mkConfigCommand s m v)).
  unfold len. rewrite Nat2Z.id.
  replace m with (foldl (fun (m : gmap gostring gostring) '(k, v) => <[k := v]> m) ∅ pairs).
  - apply reads_iterate. intros [k w] acc Hin.
    assert (short k /\ short w) as [Hk Hw].
    { apply H4. apply elem_of_map_to_list. by rewrite <- Hv. }
    unfold read_pair. read_next.
    by apply (reads_bind_ret _ (fun w => <[k := w]> acc)), reads_corrupted, reads_string.
  - rewrite foldl_insert_list.
    + rewrite (right_id_L ∅ (∪)).
      rewrite (list_to_map_proper pairs (map_to_list m)), list_to_map_to_list; [done | | done].
      rewrite Hv. apply NoDup_fst_map_to_list.
    + rewrite Hv. apply NoDup_fst_map_to_list.
    + intros k _. apply lookup_empty.
Qed.

Definition valid_command (c : Command) : Prop :=
  short (DN c) /\ short (OldDN c) /\ short (EntryDN c) /\ len (EntryData c) < 2 ^ 32
  /\ len (ConfigData c) < 2 ^ 32 /\ len (ACLData c) < 2 ^ 32.

Lemma reads_or_nil m v bs : reads m bs v -> reads (or_nil m) bs v.
Proof. intros Hm rest. unfold or_nil, try. by rewrite bind_run, Hm. Qed.

Lemma reads_command c : valid_command c -> reads command_fields (Command_Serialize c) c.
Proof.
  intros (H1 & H2 & H3 & H4 & H5 & H6). unfold command_fields, Command_Serialize.
  do 6 read_next. eapply reads_bind; [by apply reads_or_nil, reads_writeBytes |].
  destruct c as [t d n o e x y z].
  by apply (reads_bind_ret _ (fun z => mkCommand t d n o e x y z)), reads_or_nil, reads_writeBytes.
Qed.

Lemma Command_roundtrip c :
  valid_command c -> DeserializeCommand (Command_Serialize c) = Ok c.
Proof.
  intros Hc. unfold DeserializeCommand. rewrite decide_False by (unfold Command_Serialize; len_lia).
  by apply reads_all, reads_command.
Qed.

(** ** Decoding never panics *)

Definition total {A} (m : Rd A) : Prop := forall r, returns (m r).1.

Lemma total_bind {A B} (m : Rd A) (f : A -> Rd B) :
  total m -> (forall a, total (f a)) -> total (x ← m; f x).
Proof.
  intros Hm Hf r. specialize (Hm r). rewrite bind_run.
  destruct (m r) as [[a|e| |] r']; try done. apply Hf.
Qed.

Lemma total_ret {A} (a : A) : total (mret a).
Proof. done. Qed.

Lemma total_full n : total (read_full n).
Proof. intros r. unfold read_full. by case_decide. Qed.

Lemma total_corrupted {A} (m : Rd A) : total m -> total (corrupted m).
Proof. intros Hm r. specialize (Hm r). unfold corrupted, wrap_err. by destruct (m r) as [[] ?]. Qed.

Lemma total_try {A} (m : Rd A) : total m -> total (try m).
Proof. intros Hm r. specialize (Hm r). unfold try. by destruct (m r) as [[] ?]. Qed.

Lemma total_iterate {A} n (body : A -> Rd A) acc :
  (forall acc, total (body acc)) -> total (iterate n body acc).
Proof.
  intros Hb. revert acc. induction n as [|n IH]; intros acc; [apply total_ret |].
  by apply total_bind.
Qed.

Create HintDb raft.
#[export] Hint Resolve total_bind total_ret total_full total_corrupted total_try total_iterate : raft.

Lemma total_uint n : total (read_uint n).
Proof. unfold read_uint. auto with raft. Qed.
Lemma total_bool : total read_bool.
Proof. unfold read_bool. auto with raft. Qed.
Lemma total_byte : total read_byte.
Proof. unfold read_byte. auto with raft. Qed.
#[export] Hint Resolve total_uint total_bool total_byte : raft.

Lemma total_string : total readString.
Proof. unfold readString. auto with raft. Qed.
Lemma total_bytes : total readBytes.
Proof. unfold readBytes. apply total_bind; [auto with raft |]. intros n. case_decide; auto with raft. Qed.
#[export] Hint Resolve total_string total_bytes : raft.

Lemma total_n {A} n (p : Rd A) : total p -> total (read_n n p).
Proof. intros Hp. unfold read_n. auto with raft. Qed.
#[export] Hint Resolve total_n : raft.

Lemma total_ACLRule : total deserializeACLRule.
Proof. unfold deserializeACLRule. auto 30 with raft. Qed.
Lemma total_or_nil m : total m -> total (or_nil m).
Proof. intros Hm. unfold or_nil. auto with raft. Qed.
#[export] Hint Resolve total_ACLRule total_or_nil : raft.

Lemma slice32_ok data lo n :
  0 <= lo -> 0 <= n -> lo + n <= len data -> len data < 2 ^ 32 ->
  exists v, slice32 data lo n = Ok v.
Proof.
  intros H1 H2 H3 H4. unfold slice32, slice, uint32. rewrite Z.mod_small by lia.
  rewrite decide_True by lia. by eexists.
Qed.

Lemma DeserializeLogEntry_total data : len data < 2 ^ 32 -> returns (DeserializeLogEntry data).
Proof.
  intros Hl. unfold DeserializeLogEntry. case_decide; [done |]. cbv zeta.
  pose proof (field_range data 17 4). case_decide; [done |].
  destruct (slice32_ok data 21 (field data 17 4)) as [v ->]; [lia | lia | lia | lia | done].
Qed.

Lemma DeserializeInstallSnapshotArgs_total data :
  len data < 2 ^ 32 -> returns (DeserializeInstallSnapshotArgs data).
Proof.
  intros Hl. unfold DeserializeInstallSnapshotArgs. case_decide; [done |]. cbv zeta.
  pose proof (field_range data 32 4). case_decide; [done |].
  destruct (slice32_ok data 36 (field data 32 4)) as [v ->]; [lia | lia | lia | lia | done].
Qed.

(** A frame is shorter than [2^32] bytes, since its length is a [uint32]. *)
Lemma total_entry : total read_entry.
Proof.
  intros r. unfold read_entry. rewrite bind_run. unfold corrupted, wrap_err, read_uint.
  rewrite bind_run. unfold read_full at 1. case_decide; [| done]. cbn match.
  unfold mret, M_ret. set (bs := take _ r). rewrite bind_run. unfold read_full. case_decide; [| done].
  cbn match. unfold lift_outcome. cbn [fst]. apply DeserializeLogEntry_total.
  pose proof (le_value_range bs) as Hb.
  assert (len bs <= 4) by (subst bs; unfold len; rewrite length_take; lia).
  assert (2 ^ (8 * len bs) <= 2 ^ 32) by (apply Z.pow_le_mono_r; lia).
  unfold len. rewrite length_take. lia.
Qed.

Lemma DeserializeAppendEntriesArgs_total data : returns (DeserializeAppendEntriesArgs data).
Proof.
  unfold DeserializeAppendEntriesArgs. case_decide; [done |]. cbv zeta. case_decide; [done |].
  unfold read_all. apply total_bind; [apply total_n, total_entry | intros es; apply total_ret].
Qed.

Lemma DeserializeCommand_total data : returns (DeserializeCommand data).
Proof.
  unfold DeserializeCommand. case_decide; [done |]. unfold read_all, command_fields.
  repeat (apply total_bind; [auto 10 with raft | intros ?]). apply total_ret.
Qed.

Lemma DeserializeConfigCommand_total data : returns (DeserializeConfigCommand data).
Proof.
  unfold DeserializeConfigCommand. case_decide; [done |]. unfold read_all.
  do 3 (apply total_bind; [auto 10 with raft | intros ?]). apply total_bind; [| auto with raft].
  apply total_iterate. intros m. unfold read_pair. auto 10 with raft.
Qed.

Lemma DeserializeACLCommand_total data : returns (DeserializeACLCommand data).
Proof.
  unfold DeserializeACLCommand. case_decide; [done |]. unfold read_all.
  do 6 (apply total_bind; [auto 10 with raft | intros ?]). apply total_bind; [| auto with raft].
  destruct a4; auto with raft.
Qed.

(** ** Strings beyond the length field *)

(** The length is cut to 16 bits but the string is written in full: reading back
    gives a prefix and leaves the rest in front of the next field. *)
Lemma readString_truncates s rest :
  readString (writeString s ++ rest)
  = (Ok (take (Z.to_nat (len s mod 2 ^ 16)) s), drop (Z.to_nat (len s mod 2 ^ 16)) s ++ rest).
Proof.
  pose proof (Z.mod_pos_bound (len s) (2 ^ 16) ltac:(lia)) as Hr.
  pose proof (Z.mod_le (len s) (2 ^ 16) (len_nonneg s) ltac:(lia)) as Hle.
  unfold readString, writeString, uint16. rewrite bind_run, <- app_assoc.
  rewrite (reads_uint 2) by (simpl; lia). unfold read_full. rewrite decide_True by len_lia.
  assert (Z.to_nat (len s mod 2 ^ 16) <= length s)%nat by (unfold len in *; lia).
  by rewrite take_app_le, drop_app_le.
Qed.
