(* ===== verification/RaftLog.v ===== *)
(** * The Raft log and its file (src/internal/raft/log.go)

    The log keeps its entries in memory, indexed from a no-op at 0, and appends
    each of them to a file of length-prefixed frames. [loadFromDisk] rebuilds the
    log from the file: the last frame of an index wins. *)

From S2P Require Import Prelude GoBinary RaftCodec.

Definition LogEntryCommand : byte := x00.
Definition LogEntryConfig : byte := x01.
Definition LogEntryNoop : byte := x02.

(** The log file, before and after the offset of the next write. *)
Record logfile := mkFile { before : bytes; after : bytes }.

Definition contents (f : logfile) : bytes := before f ++ after f.

(** [file] is [None] for a log without persistence. *)
Record RaftLog := mkRaftLog {
  entries : list (option LogEntry);
  file : option logfile
}.

Definition noop0 : LogEntry := mkLogEntry 0 0 LogEntryNoop [].

Definition ErrLogIndexOutOfRange : goerror := ErrConst "ErrLogIndexOutOfRange".

Definition NewRaftLog : RaftLog := mkRaftLog [Some noop0] None.

(** ** Loading *)

Definition MaxEntry : Z := 10 * 1024 * 1024.

Definition note_entry (acc : gmap Z LogEntry * Z) (e : LogEntry) : gmap Z LogEntry * Z :=
  let '(entryMap, maxIndex) := acc in
  if decide (Index e > 0) then
    (<[Index e := e]> entryMap, if decide (Index e > maxIndex) then Index e else maxIndex)
  else acc.

(** The error of an [io.ReadFull] that finds too few bytes. *)
Definition short_read (r : bytes) : goerror :=
  ErrConst (if decide (len r = 0) then "io.EOF" else "io.ErrUnexpectedEOF").

(** The frames of the file, and what is left unread. Each takes at least four bytes,
    so the length of the file bounds their number. *)
Fixpoint read_frames (fuel : nat) (r : bytes) (acc : gmap Z LogEntry * Z)
    : outcome (gmap Z LogEntry * Z * bytes) :=
  match fuel with
  | O => Diverge
  | S fuel =>
      if decide (len r = 0) then Ok (acc, r)
      else if decide (len r < 4) then Err (short_read r)
      else
        let entryLen := field r 0 4 in
        let r := drop 4 r in
        if decide (entryLen = 0 \/ entryLen > MaxEntry) then Ok (acc, r)
        else if decide (len r < entryLen) then Err (short_read r)
        else
          match DeserializeLogEntry (take (Z.to_nat entryLen) r) with
          | Ok entry => read_frames fuel (drop (Z.to_nat entryLen) r) (note_entry acc entry)
          | Err e => Err e | Panic => Panic | Diverge => Diverge
          end
  end.

(** The entries array built from the map: holes below the largest index are nil. *)
Definition build_entries (acc : gmap Z LogEntry * Z) : list (option LogEntry) :=
  let '(entryMap, maxIndex) := acc in
  Some noop0 :: ((fun i => entryMap !! i) <$> seqZ 1 maxIndex).

(** The entries, and the file with its offset where the reading stopped. *)
Definition loadFromDisk (data : bytes) : outcome (list (option LogEntry) * logfile) :=
  match read_frames (S (length data)) data (∅, 0) with
  | Ok (acc, r) => Ok (build_entries acc, mkFile (take (length data - length r) data) r)
  | Err e => Err e | Panic => Panic | Diverge => Diverge
  end.

Definition NewRaftLogWithDir (data : bytes) : outcome RaftLog :=
  match loadFromDisk data with
  | Ok (es, f) => Ok (mkRaftLog es (Some f))
  | Err e => Err e | Panic => Panic | Diverge => Diverge
  end.

(** ** Operations *)

(** [persistEntryLocked]: length and entry, at the offset. *)
Definition persistEntry (f : logfile) (entry : LogEntry) : logfile :=
  let frame := entry_frame entry in
  mkFile (before f ++ frame) (drop (length frame) (after f)).

Definition Append (l : RaftLog) (entry : LogEntry) : RaftLog :=
  mkRaftLog (entries l ++ [Some entry]) ((fun f => persistEntry f entry) <$> file l).

Definition Get (l : RaftLog) (index : Z) : outcome (option LogEntry) :=
  if decide (index >= len (entries l)) then Err ErrLogIndexOutOfRange
  else match entries l !! Z.to_nat index with Some e => Ok e | None => Panic end.

Definition LastIndex (l : RaftLog) : Z := uint64 (len (entries l) - 1).

Definition LastTerm (l : RaftLog) : Z :=
  match last (entries l) with Some (Some e) => Term e | _ => 0 end.

Definition GetFrom (l : RaftLog) (index : Z) : list (option LogEntry) :=
  if decide (index >= len (entries l)) then [] else drop (Z.to_nat index) (entries l).

Definition TruncateFrom (l : RaftLog) (index : Z) : RaftLog :=
  if decide (index < len (entries l)) then mkRaftLog (take (Z.to_nat index) (entries l)) (file l)
  else l.

Definition TruncateBefore (l : RaftLog) (index : Z) : RaftLog :=
  if decide (index > 0 /\ index <= len (entries l)) then
    mkRaftLog (drop (Z.to_nat index) (entries l)) (file l)
  else if decide (index > len (entries l)) then mkRaftLog [] (file l)
  else l.

Definition TermAt (l : RaftLog) (index : Z) : Z :=
  if decide (index >= len (entries l)) then 0
  else match entries l !! Z.to_nat index with Some (Some e) => Term e | _ => 0 end.

(** ** Reading back the frames *)

(** An entry whose frame [loadFromDisk] accepts. *)
Definition storable (e : LogEntry) : Prop := valid_entry e /\ len (EntryCommand e) + 21 <= MaxEntry.

Lemma read_frames_cons fuel e r acc :
  storable e -> read_frames (S fuel) (entry_frame e ++ r) acc = read_frames fuel r (note_entry acc e).
Proof.
  intros [Hv Hm]. unfold MaxEntry in Hm. cbn [read_frames].
  pose proof (len_LogEntry_Serialize e) as Hl. pose proof (len_nonneg (EntryCommand e)) as Hn.
  unfold entry_frame. cbv zeta.
  assert (uint32 (len (LogEntry_Serialize e)) = len (LogEntry_Serialize e)) as ->.
  { apply Z.mod_small. lia. }
  rewrite <- app_assoc, !(decide_False (P := len _ = 0)), (decide_False (P := _ < 4)) by len_lia.
  rewrite field32 by (unfold is_uint32; lia). change (drop 4 (put32 ?x ++ ?y)) with y.
  unfold MaxEntry. rewrite (decide_False (P := _ \/ _)) by lia.
  rewrite (decide_False (P := _ < _)) by len_lia.
  unfold len. rewrite Nat2Z.id, take_app_length, drop_app_length.
  by rewrite (LogEntry_roundtrip e Hv).
Qed.

Lemma read_frames_all fuel es acc :
  Forall storable es -> (length es < fuel)%nat ->
  read_frames fuel (concat (entry_frame <$> es)) acc = Ok (foldl note_entry acc es, []).
Proof.
  revert fuel acc. induction es as [|e es IH]; intros fuel acc Hs Hf.
  { by destruct fuel; [lia |]. }
  apply Forall_cons in Hs as [He Hs]. cbn [length] in Hf. destruct fuel as [|fuel]; [lia |].
  rewrite fmap_cons. cbn [concat foldl]. rewrite read_frames_cons by done. apply IH; [done | lia].
Qed.

Lemma length_frames es : (length es <= length (concat (entry_frame <$> es)))%nat.
Proof.
  induction es as [|e es IH]; [done |]. rewrite fmap_cons. cbn [concat length].
  rewrite length_app. unfold entry_frame at 1. rewrite length_app. simpl. lia.
Qed.

Lemma loadFromDisk_frames es :
  Forall storable es ->
  let data := concat (entry_frame <$> es) in
  loadFromDisk data = Ok (build_entries (foldl note_entry (∅, 0) es), mkFile data []).
Proof.
  intros Hs data. unfold loadFromDisk, data. rewrite read_frames_all; [| done |].
  - by rewrite Nat.sub_0_r, firstn_all.
  - pose proof (length_frames es). lia.
Qed.

(** ** The file against the memory *)

(** What the node does to its log: it appends at the end, with the index of the
    place, cuts off a suffix, and is restarted from the file. *)
Inductive log_step : RaftLog -> RaftLog -> Prop :=
| step_append l e :
    storable e -> Index e = len (entries l) -> log_step l (Append l e)
| step_truncate l k :
    1 <= k -> log_step l (TruncateFrom l k)
| step_reload l f l' :
    file l = Some f -> NewRaftLogWithDir (contents f) = Ok l' -> log_step l l'.

Inductive log_reachable : RaftLog -> Prop :=
| reach_new : log_reachable (mkRaftLog [Some noop0] (Some (mkFile [] [])))
| reach_step l l' : log_reachable l -> log_step l l' -> log_reachable l'.

(** Every index from 1 to [n] has an entry. *)
Definition no_holes (m : gmap Z LogEntry) (n : Z) : Prop :=
  forall i, 1 <= i <= n -> is_Some (m !! i).

(** The frames written so far determine every entry in memory. *)
Definition persisted (l : RaftLog) : Prop :=
  exists es, Forall storable es /\ file l = Some (mkFile (concat (entry_frame <$> es)) []) /\
    let '(m, n) := foldl note_entry (∅, 0) es in
    no_holes m n /\ 1 <= len (entries l) <= n + 1 /\
    forall i, 0 <= i < len (entries l) ->
      entries l !! Z.to_nat i = build_entries (m, n) !! Z.to_nat i.

Lemma build_entries_succ m n i :
  0 <= i < n -> build_entries (m, n) !! Z.to_nat (i + 1) = Some (m !! (i + 1)).
Proof.
  intros Hi. unfold build_entries. replace (Z.to_nat (i + 1)) with (S (Z.to_nat i)) by lia.
  change ((?x :: ?l) !! S ?k) with (l !! k).
  rewrite list_lookup_fmap, lookup_seqZ_lt by lia. cbn [fmap option_fmap option_map].
  do 2 f_equal. lia.
Qed.

Lemma len_build_entries m n : 0 <= n -> len (build_entries (m, n)) = n + 1.
Proof. intros Hn. unfold build_entries. rewrite len_cons. unfold len. rewrite length_fmap, length_seqZ. lia. Qed.

Lemma build_entries_insert m n n' e i :
  0 <= i <= n -> 0 <= i <= n' -> Index e <> i ->
  build_entries (<[Index e := e]> m, n') !! Z.to_nat i = build_entries (m, n) !! Z.to_nat i.
Proof.
  intros Hi Hi' Hne. destruct (decide (i = 0)) as [->|H0]; [done |].
  replace i with (i - 1 + 1) by lia. rewrite !build_entries_succ by lia.
  by rewrite lookup_insert_ne by lia.
Qed.

Lemma persisted_append l e :
  persisted l -> storable e -> Index e = len (entries l) -> persisted (Append l e).
Proof.
  intros (es & Hs & Hf & Hm) He Hi. exists (es ++ [e]).
  split; [by apply Forall_app; split; [| apply Forall_singleton] |].
  split.
  { unfold Append, persistEntry. cbn [file]. rewrite Hf, fmap_app, concat_app, fmap_cons, fmap_nil.
    cbn [concat fmap option_fmap option_map before after]. by rewrite app_nil_r, drop_nil. }
  rewrite foldl_app. destruct (foldl note_entry (∅, 0) es) as [m n]. cbn [foldl].
  destruct Hm as (Hh & Hn & Hm). unfold note_entry, Append. cbn [entries].
  rewrite decide_True by lia. set (n' := if decide _ then _ else _).
  assert (Z.max (Index e) n = n') as Hmax by (subst n'; case_decide; lia).
  clearbody n'. split; [| split; [len_lia |]].
  - intros i Hr. destruct (decide (i = Index e)) as [->|Hne]; [rewrite lookup_insert_eq; by eexists |].
    rewrite lookup_insert_ne by done. apply Hh. lia.
  - intros i Hr. assert (len (entries l ++ [Some e]) = len (entries l) + 1) as Hl by len_lia.
    rewrite Hl in Hr.
    destruct (decide (i = Index e)) as [->|Hne].
    + replace (Index e) with (Index e - 1 + 1) at 2 3 by lia. rewrite build_entries_succ by lia.
      replace (Index e - 1 + 1) with (Index e) by lia. rewrite lookup_insert_eq.
      replace (Z.to_nat (Index e)) with (length (entries l)) by (unfold len in *; lia).
      by rewrite list_lookup_middle.
    + rewrite lookup_app_l by (unfold len in *; lia).
      rewrite (build_entries_insert m n n') by lia. apply Hm. lia.
Qed.

Lemma persisted_truncate l k : persisted l -> 1 <= k -> persisted (TruncateFrom l k).
Proof.
  intros (es & Hs & Hf & Hm) Hk. unfold TruncateFrom. case_decide as Hlt; [| by exists es].
  exists es. split; [done |]. split; [done |]. destruct (foldl note_entry (∅, 0) es) as [m n].
  destruct Hm as (Hh & Hn & Hm). cbn [entries].
  assert (len (take (Z.to_nat k) (entries l)) = k) as ->.
  { unfold len in *. rewrite length_take. lia. }
  split; [done |]. split; [lia |].
  intros i Hi. rewrite lookup_take_lt by lia. apply Hm. lia.
Qed.

Lemma persisted_reload l f :
  persisted l -> file l = Some f ->
  exists es, loadFromDisk (contents f) = Ok (es, f) /\ entries l `prefix_of` es
    /\ Forall is_Some es /\ persisted (mkRaftLog es (Some f)).
Proof.
  intros (es & Hs & Hf & Hm) Hfile. rewrite Hfile in Hf. injection Hf as ->.
  unfold contents. cbn [before after]. rewrite app_nil_r, loadFromDisk_frames by done.
  eexists. split; [done |]. unfold persisted. cbn [file entries].
  destruct (foldl note_entry (∅, 0) es) as [m n] eqn:E. destruct Hm as (Hh & Hn & Hm).
  split; [| split].
  - apply prefix_of_lookup. intros j x Hj. pose proof (lookup_lt_Some _ _ _ Hj) as Hlt.
    specialize (Hm (Z.of_nat j)). rewrite Nat2Z.id in Hm. rewrite <- Hm by (unfold len; lia). done.
  - apply Forall_lookup_2. intros j x Hj. pose proof (lookup_lt_Some _ _ _ Hj) as Hlt.
    pose proof (len_build_entries m n ltac:(lia)) as Hb. unfold len in Hb.
    destruct j as [|j]; [by injection Hj as <- |].
    replace (S j) with (Z.to_nat (Z.of_nat j + 1)) in Hj by lia.
    rewrite build_entries_succ in Hj by lia. injection Hj as <-. apply Hh. lia.
  - exists es. rewrite E. split; [done |]. split; [done |]. split; [done |].
    rewrite len_build_entries by lia. split; [lia | done].
Qed.

Lemma reachable_persisted l : log_reachable l -> persisted l.
Proof.
  induction 1 as [|l l' _ IH Hst].
  - exists []. split; [done |]. split; [done |]. simpl. split; [intros i Hi; lia |]. split; [done |].
    intros i Hi. unfold len in Hi. simpl in Hi. by replace i with 0 by lia.
  - destruct Hst as [| |l f l' Hf Hn]; [by apply persisted_append | by apply persisted_truncate |].
    destruct (persisted_reload l f IH Hf) as (es & H1 & _ & _ & H2).
    unfold NewRaftLogWithDir in Hn. rewrite H1 in Hn. by injection Hn as <-.
Qed.

(** ** Runs of operations *)

Inductive log_op :=
| LAppend (e : LogEntry)
| LTruncateFrom (index : Z)
| LTruncateBefore (index : Z)
| LReload.

Definition log_exec (o : log_op) (l : RaftLog) : outcome RaftLog :=
  match o with
  | LAppend e => Ok (Append l e)
  | LTruncateFrom k => Ok (TruncateFrom l k)
  | LTruncateBefore k => Ok (TruncateBefore l k)
  | LReload => match file l with Some f => NewRaftLogWithDir (contents f) | None => Ok l end
  end.

Fixpoint log_execs (os : list log_op) (l : RaftLog) : outcome RaftLog :=
  match os with [] => Ok l | o :: os => l ← log_exec o l; log_execs os l end.

Definition appended (os : list log_op) : list LogEntry := omap (fun o => match o with LAppend e => Some e | _ => None end) os.

(** Entries are appended at the place of their index, the no-op at 0 stays, and nothing is cut
    off in front. *)
Fixpoint in_place (os : list log_op) (l : RaftLog) : Prop :=
  match os with
  | [] => True
  | o :: os =>
      match o with LAppend e => Index e = len (entries l) | LTruncateFrom k => 1 <= k | LTruncateBefore _ => False | LReload => True end
      /\ forall l', log_exec o l = Ok l' -> in_place os l'
  end.

(** The file after any operations has the frames of all entries ever appended. *)
Lemma log_execs_file os l es :
  Forall storable es -> Forall storable (appended os) -> file l = Some (mkFile (concat (entry_frame <$> es)) []) ->
  exists l', log_execs os l = Ok l' /\ file l' = Some (mkFile (concat (entry_frame <$> (es ++ appended os))) []).
Proof.
  revert l es. induction os as [|o os IH]; intros l es Hes Hos Hf; cbn [log_execs appended omap list_omap].
  { exists l. by rewrite app_nil_r. }
  destruct o as [e|k|k|]; cbn [log_exec mbind outcome_bind].
  - cbn [appended omap list_omap] in Hos. apply Forall_cons in Hos as [He Hos].
    destruct (IH (Append l e) (es ++ [e])) as (l' & H1 & H2).
    + apply Forall_app. by split; [| constructor].
    + done.
    + unfold Append. cbn [file]. rewrite Hf. cbn [fmap option_fmap option_map]. unfold persistEntry. cbn [before after]. rewrite drop_nil.
      by rewrite fmap_app, concat_app, fmap_cons, fmap_nil; cbn [concat]; rewrite app_nil_r.
    + exists l'. split; [done |]. by rewrite <- app_assoc in H2.
  - destruct (IH (TruncateFrom l k) es) as (l' & H1 & H2); try done; [| by exists l']. unfold TruncateFrom. by case_decide.
  - destruct (IH (TruncateBefore l k) es) as (l' & H1 & H2); try done; [| by exists l']. unfold TruncateBefore. by repeat case_decide.
  - rewrite Hf. unfold NewRaftLogWithDir, contents. cbn [before after]. rewrite app_nil_r, loadFromDisk_frames by done.
    cbn [mbind outcome_bind]. destruct (IH (mkRaftLog (build_entries (foldl note_entry (∅, 0) es)) (Some (mkFile (concat (entry_frame <$> es)) []))) es)
      as (l' & H1 & H2); try done. by exists l'.
Qed.

Lemma in_place_reachable os l l' :
  log_reachable l -> in_place os l -> Forall storable (appended os) -> log_execs os l = Ok l' -> log_reachable l'.
Proof.
  revert l. induction os as [|o os IH]; intros l Hl Hp Hs Hx; cbn [log_execs] in Hx; [by injection Hx as <- |].
  cbn [in_place] in Hp. destruct Hp as [Ho Hp]. destruct (log_exec o l) as [l1| | |] eqn:E; cbn [mbind outcome_bind] in Hx; try done.
  apply (IH l1); [| by apply Hp | by destruct o; [apply Forall_cons in Hs as [_ Hs] | ..] | done].
  destruct o as [e|k|k|]; cbn [log_exec] in E; try done.
  - injection E as <-. apply Forall_cons in Hs as [He _]. eapply reach_step; [done | by apply step_append].
  - injection E as <-. eapply reach_step; [done | by apply step_truncate].
  - destruct (file l) as [f|] eqn:Ef; [| by injection E as <-]. eapply reach_step; [done | by eapply step_reload].
Qed.

(** The entry of an index: the last one appended with it. *)
Definition latest (es : list LogEntry) (i : Z) : option LogEntry := last (filter (fun e => Index e = i) es).

Lemma note_entries es :
  let '(m, n) := foldl note_entry (∅, 0) es in
  0 <= n /\ (forall i, 1 <= i -> m !! i = latest es i) /\ (forall i, n < i -> m !! i = None).
Proof.
  induction es as [|e es IH] using rev_ind; [done |]. rewrite foldl_app. cbn [foldl].
  destruct (foldl note_entry (∅, 0) es) as [m n]. destruct IH as (Hn & Hm & Hb).
  assert (forall i, latest (es ++ [e]) i = if decide (Index e = i) then Some e else latest es i) as Hl.
  { intros i. unfold latest. rewrite filter_app. destruct (decide (Index e = i)) as [Hi|Hi].
    - rewrite filter_cons_True, filter_nil by done. by rewrite last_snoc.
    - rewrite filter_cons_False, filter_nil, app_nil_r by done. done. }
  unfold note_entry. destruct (decide (Index e > 0)) as [Hp|Hp].
  - split_and!.
    + case_decide; lia.
    + intros i Hi. rewrite Hl. destruct (decide (Index e = i)) as [<-|Hne]; [by rewrite lookup_insert_eq | rewrite lookup_insert_ne by done; by apply Hm].
    + intros i Hi. rewrite lookup_insert_ne by (case_decide; lia). apply Hb. case_decide; lia.
  - split_and!; try done. intros i Hi. rewrite Hl, decide_False by lia. by apply Hm.
Qed.

Lemma build_latest es i : 1 <= i -> mjoin (build_entries (foldl note_entry (∅, 0) es) !! Z.to_nat i) = latest es i.
Proof.
  intros Hi. pose proof (note_entries es) as Hn. destruct (foldl note_entry (∅, 0) es) as [m n]. destruct Hn as (Hn & Hm & Hb).
  rewrite <- Hm by done. destruct (decide (i <= n)) as [Hle|Hgt].
  - replace i with (i - 1 + 1) by lia. rewrite build_entries_succ by lia. done.
  - rewrite Hb by lia. unfold build_entries. rewrite lookup_ge_None_2; [done |]. cbn [length]. rewrite length_fmap, length_seqZ. lia.
Qed.

(** A frame longer than [MaxEntry] ends the reading: neither it nor what follows is loaded. *)
Lemma loadFromDisk_large es e rest :
  Forall storable es -> MaxEntry < len (LogEntry_Serialize e) < 2 ^ 32 ->
  exists f, loadFromDisk (concat (entry_frame <$> es) ++ entry_frame e ++ rest) = Ok (build_entries (foldl note_entry (∅, 0) es), f).
Proof.
  intros Hs Hl. unfold loadFromDisk. set (data := concat _ ++ _). set (acc := foldl note_entry (∅, 0) es).
  assert (exists r, read_frames (S (length data)) data (∅, 0) = Ok (acc, r)) as [r ->]; [| by eexists].
  assert (exists k, S (length data) = length es + S k)%nat as [k ->].
  { exists (length data - length es)%nat. pose proof (length_frames es). unfold data. rewrite length_app. lia. }
  unfold data. subst acc. generalize (∅ : gmap Z LogEntry, 0) as acc. clear data. induction Hs as [|x es Hx _ IH]; intros acc.
  - cbn [fmap list_fmap concat app foldl length Nat.add read_frames]. unfold entry_frame. cbv zeta.
    assert (uint32 (len (LogEntry_Serialize e)) = len (LogEntry_Serialize e)) as -> by (apply Z.mod_small; unfold MaxEntry in Hl; lia).
    rewrite <- app_assoc. unfold MaxEntry in Hl. rewrite !(decide_False (P := len _ = 0)), (decide_False (P := _ < 4)) by len_lia.
    rewrite field32 by (unfold is_uint32; lia). rewrite (decide_True (P := _ \/ _)) by (unfold MaxEntry; lia). by eexists.
  - rewrite fmap_cons. cbn [concat foldl length Nat.add]. rewrite <- app_assoc, read_frames_cons by done. apply IH.
Qed.

(** ** Torn frames *)

Lemma read_frames_app fuel es r acc :
  Forall storable es ->
  read_frames (length es + fuel) (concat (entry_frame <$> es) ++ r) acc
  = read_frames fuel r (foldl note_entry acc es).
Proof.
  revert acc. induction es as [|e es IH]; intros acc Hs; [done |].
  apply Forall_cons in Hs as [He Hs]. rewrite fmap_cons. cbn [concat foldl length Nat.add].
  rewrite <- app_assoc, read_frames_cons by done. by apply IH.
Qed.

(** More fuel than needed does not matter. *)
Lemma read_frames_mono fuel fuel' r acc :
  (fuel <= fuel')%nat -> read_frames fuel r acc <> Diverge ->
  read_frames fuel' r acc = read_frames fuel r acc.
Proof.
  revert fuel' r acc. induction fuel as [|fuel IH]; intros fuel' r acc Hf Hd; [done |].
  destruct fuel' as [|fuel']; [lia |]. cbn [read_frames] in *. cbv zeta in *.
  repeat case_decide; try done. destruct (DeserializeLogEntry _); try done.
  apply IH; [lia | done].
Qed.

(** The beginning of a frame, cut off by a crash, is an error. *)
Lemma read_frames_torn fuel e n acc :
  storable e -> (0 < n < length (entry_frame e))%nat ->
  exists err, read_frames (S fuel) (take n (entry_frame e)) acc = Err err.
Proof.
  intros [Hv Hm] Hn. cbn [read_frames]. unfold MaxEntry in Hm.
  pose proof (len_LogEntry_Serialize e) as Hl. pose proof (len_nonneg (EntryCommand e)) as Hc.
  assert (len (take n (entry_frame e)) = Z.of_nat n) as Hlen.
  { unfold len. rewrite length_take. lia. }
  rewrite Hlen. rewrite decide_False by lia. case_decide as H4; [by eexists |].
  assert (entry_frame e = put32 (len (LogEntry_Serialize e)) ++ LogEntry_Serialize e) as Hfr.
  { unfold entry_frame, uint32. cbv zeta. rewrite Z.mod_small by lia. done. }
  rewrite Hfr in *. rewrite take_app_ge by (simpl; lia).
  rewrite field32 by (unfold is_uint32; lia).
  cbv zeta. unfold MaxEntry. rewrite decide_False by lia.
  change (drop 4 (put32 ?x ++ ?y)) with y. rewrite decide_True; [by eexists |].
  unfold len at 1. rewrite length_take, length_app in *. unfold len in Hl |- *. simpl in *. lia.
Qed.
