(* ===== verification/RaftNode.v ===== *)
(** * The Raft node (src/internal/raft/state.go, node.go, apply_result.go)

    [NodeState] with its transitions and its two state files, the RPC handlers on
    raw bytes, elections, replication, commitment and the apply loop. A handler is
    one transition here; RaftRace.v takes the lock-by-lock view of the vote. Timers
    carry no state: that a timer fires is a transition that may always happen. *)

From S2P Require Import Prelude GoBinary RaftCodec RaftLog.

Inductive role := StateFollower | StateCandidate | StateLeader.

#[export] Instance role_eq_decision : EqDecision role.
Proof. solve_decision. Defined.

Abbreviation NodeID := Z.

Record NodeState := mkNodeState {
  currentTerm : Z;
  votedFor : NodeID;                (* 0 means not voted *)
  log : RaftLog;
  state : role;
  commitIndex : Z;
  lastApplied : Z;
  nextIndex : gmap Z Z;
  matchIndex : gmap Z Z;
  leaderID : NodeID;
  dataDir : bool;                   (* is there a data directory? *)
  term_dat : option (Z * Z);        (* term.dat: term and vote *)
  last_applied_dat : option Z       (* last_applied.dat *)
}.

(** ** state.go *)

Definition NewNodeState : NodeState :=
  mkNodeState 0 0 NewRaftLog StateFollower 0 0 ∅ ∅ 0 false None None.

Definition persistTermAndVote (s : NodeState) : NodeState :=
  let '(mkNodeState t v l st c a ni mi ld dd td la) := s in
  mkNodeState t v l st c a ni mi ld dd (if dd then Some (t, v) else td) la.

Definition SetVotedFor (s : NodeState) (candidateID : NodeID) : NodeState :=
  let '(mkNodeState t _ l st c a ni mi ld dd td la) := s in
  persistTermAndVote (mkNodeState t candidateID l st c a ni mi ld dd td la).

Definition SetCurrentTerm (s : NodeState) (term : Z) : NodeState :=
  let '(mkNodeState _ v l st c a ni mi ld dd td la) := s in
  persistTermAndVote (mkNodeState term v l st c a ni mi ld dd td la).

Definition SetCommitIndex (s : NodeState) (index : Z) : NodeState :=
  let '(mkNodeState t v l st _ a ni mi ld dd td la) := s in
  mkNodeState t v l st index a ni mi ld dd td la.

Definition SetLastApplied (s : NodeState) (index : Z) : NodeState :=
  let '(mkNodeState t v l st c _ ni mi ld dd td la) := s in
  mkNodeState t v l st c index ni mi ld dd td (if dd then Some index else la).

Definition SetLeaderID (s : NodeState) (id : NodeID) : NodeState :=
  let '(mkNodeState t v l st c a ni mi _ dd td la) := s in
  mkNodeState t v l st c a ni mi id dd td la.

Definition SetNextIndex (s : NodeState) (peer index : Z) : NodeState :=
  let '(mkNodeState t v l st c a ni mi ld dd td la) := s in
  mkNodeState t v l st c a (<[peer := index]> ni) mi ld dd td la.

Definition SetMatchIndex (s : NodeState) (peer index : Z) : NodeState :=
  let '(mkNodeState t v l st c a ni mi ld dd td la) := s in
  mkNodeState t v l st c a ni (<[peer := index]> mi) ld dd td la.

Definition SetLog (s : NodeState) (l : RaftLog) : NodeState :=
  let '(mkNodeState t v _ st c a ni mi ld dd td la) := s in
  mkNodeState t v l st c a ni mi ld dd td la.

(** A missing key of a Go map reads as 0. *)
Definition GetNextIndex (s : NodeState) (peer : Z) : Z := default 0 (nextIndex s !! peer).
Definition GetMatchIndex (s : NodeState) (peer : Z) : Z := default 0 (matchIndex s !! peer).

Definition InitLeaderState (s : NodeState) (peers : list NodeID) : NodeState :=
  let lastIndex := LastIndex (log s) in
  foldl (fun s peer => SetMatchIndex (SetNextIndex s peer (uint64 (lastIndex + 1))) peer 0) s peers.

Definition BecomeFollower (s : NodeState) (term : Z) : NodeState :=
  let '(mkNodeState _ _ l _ c a ni mi ld dd td la) := s in
  mkNodeState term 0 l StateFollower c a ni mi ld dd td la.

Definition BecomeCandidate (s : NodeState) : NodeState :=
  let '(mkNodeState t v l _ c a ni mi _ dd td la) := s in
  mkNodeState (uint64 (t + 1)) v l StateCandidate c a ni mi 0 dd td la.

Definition BecomeLeader (s : NodeState) (nodeID : NodeID) : NodeState :=
  let '(mkNodeState t v l _ c a ni mi _ dd td la) := s in
  mkNodeState t v l StateLeader c a ni mi nodeID dd td la.

Definition AppendEntry (s : NodeState) (entry : LogEntry) : NodeState :=
  SetLog s (Append (log s) entry).

(** [NewNodeStateWithDir] and [loadPersistedState]: a restart, from the log file
    and the two state files. *)
Definition restart (contents : bytes) (term_dat : option (Z * Z)) (last_applied_dat : option Z)
    : outcome NodeState :=
  match NewRaftLogWithDir contents with
  | Ok l =>
      let '(t, v) := default (0, 0) term_dat in
      let c := LastIndex l in
      let a := match last_applied_dat with
               | Some a => if decide (a > c) then c else a
               | None => c
               end in
      Ok (mkNodeState t v l StateFollower c a ∅ ∅ 0 true term_dat last_applied_dat)
  | Err e => Err e | Panic => Panic | Diverge => Diverge
  end.

(** ** apply_result.go and the state machine's interface *)

Inductive ApplyResult : Type :=
| ApplyResultApplied | ApplyResultIdempotent | ApplyResultRejectConflict | ApplyResultFatal.

#[export] Instance ApplyResult_eq_decision : EqDecision ApplyResult.
Proof. solve_decision. Defined.

(** An error of [Apply]: one that wraps an [ApplyResultError], or another. *)
Inductive apply_error :=
| ApplyResultError (Result : ApplyResult) (Err : goerror)
| OtherError (Err : goerror).

Definition ApplyResultFromError (err : option apply_error) : ApplyResult :=
  match err with
  | None => ApplyResultApplied
  | Some (ApplyResultError r _) => r
  | Some (OtherError _) => ApplyResultFatal
  end.

Class StateMachine (SM : Type) := {
  Apply : SM -> Command -> SM * option apply_error;
  Snapshot : SM -> outcome bytes;
  Restore : SM -> bytes -> outcome SM
}.

(** ** The node *)

Record NodeConfig := mkNodeConfig {
  cfg_ID : NodeID;
  cfg_Addr : gostring;
  cfg_Peers : list NodeID;
  cfg_ElectionTimeout : Z;
  cfg_HeartbeatTimeout : Z;
  cfg_DataDir : gostring
}.

Definition ErrInvalidConfig : goerror := ErrConst "ErrInvalidConfig".

Definition NodeConfig_Validate (c : NodeConfig) : option goerror :=
  if decide (cfg_ID c = 0) then Some ErrInvalidConfig
  else if decide (cfg_Addr c = []) then Some ErrInvalidConfig
  else if decide (cfg_ElectionTimeout c <= 0) then Some ErrInvalidConfig
  else if decide (cfg_HeartbeatTimeout c <= 0) then Some ErrInvalidConfig
  else if decide (cfg_HeartbeatTimeout c >= cfg_ElectionTimeout c) then Some ErrInvalidConfig
  else None.

(** What the data directory holds: the log, term.dat and last_applied.dat. *)
Record disk := mkDisk {
  disk_log : bytes;
  disk_term : option (Z * Z);
  disk_applied : option Z
}.

Record proposal := mkProposal { request : Z; proposed : Command }.

Record Node (SM : Type) := mkNode {
  id : NodeID;
  peers : list NodeID;
  ns : NodeState;
  stateMachine : option SM;
  pendingProposals : gmap Z proposal;
  results : list (Z * option apply_error)   (* what was sent to the proposers *)
}.
Arguments mkNode {SM}.
Arguments id {SM}.
Arguments peers {SM}.
Arguments ns {SM}.
Arguments stateMachine {SM}.
Arguments pendingProposals {SM}.
Arguments results {SM}.

Section Node.
Context {SM : Type} `{StateMachine SM}.
Implicit Type n : Node SM.

Definition with_ns n (s : NodeState) : Node SM :=
  mkNode (id n) (peers n) s (stateMachine n) (pendingProposals n) (results n).

Definition NodeTerm n : Z := currentTerm (ns n).
Definition IsLeader n : bool := bool_decide (state (ns n) = StateLeader).

(** The peers of the configuration, keyed by identifier, without the node itself. *)
Definition NewNode (cfg : NodeConfig) (sm : option SM) (d : disk) : outcome (Node SM) :=
  match NodeConfig_Validate cfg with
  | Some e => Err e
  | None =>
      match (if decide (cfg_DataDir cfg <> []) then
               restart (disk_log d) (disk_term d) (disk_applied d)
             else Ok NewNodeState) with
      | Ok s =>
          Ok (mkNode (cfg_ID cfg) (remove_dups (base.filter (fun p => p <> cfg_ID cfg) (cfg_Peers cfg)))
                s sm ∅ [])
      | Err e => Err e | Panic => Panic | Diverge => Diverge
      end
  end.

(** *** Votes *)

(** Is the candidate's log at least as up to date as ours? *)
Definition up_to_date (l : RaftLog) (args : RequestVoteArgs) : bool :=
  bool_decide (rv_LastLogTerm args > LastTerm l
               \/ rv_LastLogTerm args = LastTerm l /\ rv_LastLogIndex args >= LastIndex l).

Definition vote (s : NodeState) (args : RequestVoteArgs) : NodeState * RequestVoteReply :=
  if decide (rv_Term args < currentTerm s) then (s, mkRequestVoteReply (currentTerm s) false)
  else
    let s1 := if decide (rv_Term args > currentTerm s) then BecomeFollower s (rv_Term args) else s in
    let term := if decide (rv_Term args > currentTerm s) then rv_Term args else currentTerm s in
    if decide ((votedFor s1 = 0 \/ votedFor s1 = rv_CandidateID args)
               /\ up_to_date (log s1) args = true) then
      (SetVotedFor s1 (rv_CandidateID args), mkRequestVoteReply term true)
    else (s1, mkRequestVoteReply term false).

Definition handleRequestVote n (data : bytes) : Node SM * bytes :=
  match DeserializeRequestVoteArgs data with
  | Ok args =>
      let '(s, reply) := vote (ns n) args in (with_ns n s, RequestVoteReply_Serialize reply)
  | _ => (n, RequestVoteReply_Serialize (mkRequestVoteReply (NodeTerm n) false))
  end.

(** *** Replication, the follower's side *)

(** [for i := PrevLogIndex; i > 0; i--]: the first index of the conflicting term. *)
Fixpoint conflict_index (l : RaftLog) (term : Z) (i : nat) : Z :=
  match i with
  | O => 0
  | S j =>
      if decide (TermAt l (Z.of_nat i) <> term) then Z.of_nat i + 1
      else if decide (Z.of_nat i = 1) then 1
      else conflict_index l term j
  end.

(** One iteration of the loop over the new entries. *)
Definition append_one (prev : Z) (s : NodeState) (ie : nat * LogEntry) : NodeState :=
  let '(i, entry) := ie in
  let idx := uint64 (uint64 (prev + Z.of_nat i) + 1) in
  if decide (idx <= LastIndex (log s)) then
    if decide (TermAt (log s) idx <> Term entry) then
      AppendEntry (SetLog s (TruncateFrom (log s) idx)) entry
    else s
  else AppendEntry s entry.

Definition append_entries (prev : Z) (s : NodeState) (es : list LogEntry) : NodeState :=
  foldl (append_one prev) s (imap (fun i e => (i, e)) es).

Definition advance_commit (s : NodeState) (leaderCommit : Z) : NodeState :=
  if decide (leaderCommit > commitIndex s) then
    SetCommitIndex s (if decide (LastIndex (log s) < leaderCommit) then LastIndex (log s)
                      else leaderCommit)
  else s.

(** What a follower answers after the term checks. *)
Definition append_checked (s : NodeState) (args : AppendEntriesArgs) (term : Z)
    : NodeState * AppendEntriesReply :=
  let prev := ae_PrevLogIndex args in
  if decide (prev > 0 /\ prev > LastIndex (log s)) then
    (s, mkAppendEntriesReply term false 0 (uint64 (LastIndex (log s) + 1)))
  else if decide (prev > 0 /\ TermAt (log s) prev <> ae_PrevLogTerm args) then
    let conflictTerm := TermAt (log s) prev in
    (s, mkAppendEntriesReply term false conflictTerm
          (conflict_index (log s) conflictTerm (Z.to_nat prev)))
  else
    let s := append_entries prev s (ae_Entries args) in
    (advance_commit s (ae_LeaderCommit args), mkAppendEntriesReply term true 0 0).

Definition append (s : NodeState) (args : AppendEntriesArgs) : NodeState * AppendEntriesReply :=
  if decide (ae_Term args < currentTerm s) then
    (s, mkAppendEntriesReply (currentTerm s) false 0 0)
  else
    let newer := bool_decide (ae_Term args > currentTerm s) in
    let s1 := if newer || bool_decide (state s = StateCandidate)
              then BecomeFollower s (ae_Term args) else s in
    let term := if newer then ae_Term args else currentTerm s in
    append_checked (SetLeaderID s1 (ae_LeaderID args)) args term.

Definition handleAppendEntries n (data : bytes) : Node SM * bytes :=
  match DeserializeAppendEntriesArgs data with
  | Ok args =>
      let '(s, reply) := append (ns n) args in (with_ns n s, AppendEntriesReply_Serialize reply)
  | _ => (n, AppendEntriesReply_Serialize (mkAppendEntriesReply (NodeTerm n) false 0 0))
  end.

(** *** Snapshots, the follower's side *)

Definition restore_snapshot (sm : option SM) (data : bytes) : option (option SM) :=
  match sm with
  | None => Some None
  | Some m => match Restore m data with Ok m' => Some (Some m') | _ => None end
  end.

Definition install n (args : InstallSnapshotArgs) : Node SM * InstallSnapshotReply :=
  let s := ns n in
  if decide (is_Term args < currentTerm s) then (n, mkInstallSnapshotReply (currentTerm s))
  else
    let newer := bool_decide (is_Term args > currentTerm s) in
    let s := if newer then BecomeFollower s (is_Term args) else s in
    let reply := mkInstallSnapshotReply (currentTerm s) in
    let s := SetLeaderID s (is_LeaderID args) in
    match restore_snapshot (stateMachine n) (is_Data args) with
    | None => (with_ns n s, reply)
    | Some sm =>
        let s := SetCommitIndex s (is_LastIncludedIndex args) in
        let s := SetLastApplied s (is_LastIncludedIndex args) in
        let s := SetLog s (TruncateBefore (log s) (uint64 (is_LastIncludedIndex args + 1))) in
        (mkNode (id n) (peers n) s sm (pendingProposals n) (results n), reply)
    end.

Definition handleInstallSnapshot n (data : bytes) : Node SM * bytes :=
  match DeserializeInstallSnapshotArgs data with
  | Ok args => let '(n', reply) := install n args in (n', InstallSnapshotReply_Serialize reply)
  | _ => (n, InstallSnapshotReply_Serialize (mkInstallSnapshotReply (NodeTerm n)))
  end.

Definition RPCRequestVote : Z := 0.
Definition RPCAppendEntries : Z := 2.
Definition RPCInstallSnapshot : Z := 4.

Definition handleRPC n (msgType : Z) (data : bytes) : Node SM * bytes :=
  if decide (msgType = RPCRequestVote) then handleRequestVote n data
  else if decide (msgType = RPCAppendEntries) then handleAppendEntries n data
  else if decide (msgType = RPCInstallSnapshot) then handleInstallSnapshot n data
  else (n, []).

(** *** Elections *)

(** The election timer fires, in [runFollower] or [runCandidate]. *)
Definition start_election n : Node SM := with_ns n (SetVotedFor (BecomeCandidate (ns n)) (id n)).

(** The arguments [runCandidate] sends to every peer. *)
Definition vote_args n : RequestVoteArgs :=
  mkRequestVoteArgs (currentTerm (ns n)) (id n) (LastIndex (log (ns n))) (LastTerm (log (ns n))).

(** A reply to the candidacy of [term]: step down, or whether the vote was granted. *)
Definition vote_reply n (term : Z) (reply : RequestVoteReply) : Node SM * bool :=
  if decide (rvr_Term reply > term) then (with_ns n (BecomeFollower (ns n) (rvr_Term reply)), false)
  else (n, rvr_VoteGranted reply).

Definition votes_needed n : Z := (len (peers n) + 1) / 2 + 1.

Definition becomeLeader n : Node SM :=
  let s := BecomeLeader (ns n) (id n) in
  let s := InitLeaderState s (peers n) in
  with_ns n (AppendEntry s (mkLogEntry (uint64 (LastIndex (log s) + 1)) (currentTerm s)
                              LogEntryNoop [])).

(** One vote collected by [runCandidate], [votes] of them so far. *)
Definition collect_vote n (votes : Z) (granted : bool) : Node SM * Z :=
  if decide (state (ns n) <> StateCandidate) then (n, votes)
  else if granted then
    if decide (votes + 1 >= votes_needed n) then (becomeLeader n, votes + 1) else (n, votes + 1)
  else (n, votes).

(** *** Commitment *)

(** [for idx := from; k iterations; idx-- { if good(idx) ... break }]. *)
Fixpoint highest (good : Z -> bool) (from : Z) (k : nat) : option Z :=
  match k with
  | O => None
  | S k => if good from then Some from else highest good (from - 1) k
  end.

(** Self and the peers whose match index has reached [idx]. *)
Definition replicas (s : NodeState) (idx : Z) : Z :=
  1 + len (filter (fun kv : Z * Z => idx <= kv.2) (map_to_list (matchIndex s))).

Definition committable n (idx : Z) : bool :=
  bool_decide (TermAt (log (ns n)) idx = currentTerm (ns n))
  && (bool_decide (len (peers n) = 0)
      || bool_decide (replicas (ns n) idx > (len (peers n) + 1) / 2)).

Definition updateCommitIndex n : Node SM :=
  let s := ns n in
  let last := LastIndex (log s) in
  match highest (committable n) last (Z.to_nat (last - commitIndex s)) with
  | Some idx => with_ns n (SetCommitIndex s idx)
  | None => n
  end.

(** *** Replication, the leader's side *)

(** The arguments for a peer; [None] when the node does not lead, or when a hole of
    the log would be sent, which dereferences a nil entry. *)
Definition replicate_args n (peer : Z) : option AppendEntriesArgs :=
  let s := ns n in
  let next := GetNextIndex s peer in
  let prev := uint64 (next - 1) in
  if IsLeader n then
    match mapM (fun e => e) (GetFrom (log s) next) with
    | Some es => Some (mkAppendEntriesArgs (currentTerm s) (id n) prev (TermAt (log s) prev) es
                         (commitIndex s))
    | None => None
    end
  else None.

Definition replicate_reply n (peer : Z) (args : AppendEntriesArgs) (reply : AppendEntriesReply)
    : Node SM :=
  let s := ns n in
  let next := uint64 (ae_PrevLogIndex args + 1) in
  if decide (aer_Term reply > currentTerm s) then with_ns n (BecomeFollower s (aer_Term reply))
  else if aer_Success reply then
    let s := SetNextIndex s peer (uint64 (next + len (ae_Entries args))) in
    let s := SetMatchIndex s peer (uint64 (next + len (ae_Entries args) - 1)) in
    updateCommitIndex (with_ns n s)
  else if decide (aer_ConflictTerm reply > 0) then
    with_ns n (SetNextIndex s peer (aer_ConflictIndex reply))
  else
    let newNext := GetNextIndex s peer in
    if decide (newNext > 1) then with_ns n (SetNextIndex s peer (newNext - 1)) else n.

(** [sendSnapshotTo]: the arguments, and what a reply does. *)
Definition snapshot_args n : option InstallSnapshotArgs :=
  match stateMachine n with
  | None => None
  | Some m =>
      match Snapshot m with
      | Ok data =>
          if decide (len data = 0) then None
          else
            let c := commitIndex (ns n) in
            Some (mkInstallSnapshotArgs (currentTerm (ns n)) (id n) c (TermAt (log (ns n)) c) data)
      | _ => None
      end
  end.

Definition snapshot_reply n (peer : Z) (args : InstallSnapshotArgs) (reply : InstallSnapshotReply)
    : Node SM :=
  let s := ns n in
  if decide (isr_Term reply > currentTerm s) then with_ns n (BecomeFollower s (isr_Term reply))
  else
    with_ns n (SetMatchIndex (SetNextIndex s peer (uint64 (is_LastIncludedIndex args + 1)))
                 peer (is_LastIncludedIndex args)).

(** *** Proposals *)

Definition command_entry n (cmd : Command) : LogEntry :=
  mkLogEntry (uint64 (LastIndex (log (ns n)) + 1)) (NodeTerm n) LogEntryCommand
    (Command_Serialize cmd).

Definition appendCommand n (cmd : Command) : Node SM :=
  if IsLeader n then updateCommitIndex (with_ns n (AppendEntry (ns n) (command_entry n cmd)))
  else n.

Definition appendCommandAndTrack n (req : proposal) : Node SM * Z :=
  if IsLeader n then
    let entry := command_entry n (proposed req) in
    let n1 := mkNode (id n) (peers n) (AppendEntry (ns n) entry) (stateMachine n)
                (<[Index entry := req]> (pendingProposals n)) (results n) in
    (updateCommitIndex n1, Index entry)
  else (n, 0).

Definition notifyProposalApplied n (index : Z) (err : option apply_error) : Node SM :=
  match pendingProposals n !! index with
  | None => n
  | Some req =>
      mkNode (id n) (peers n) (ns n) (stateMachine n) (delete index (pendingProposals n))
        (results n ++ [(request req, err)])
  end.

Definition cancelPendingProposals n (err : apply_error) : Node SM :=
  mkNode (id n) (peers n) (ns n) (stateMachine n) ∅
    (results n ++ ((fun kr => (request kr.2, Some err)) <$> map_to_list (pendingProposals n))).

(** *** The apply loop *)

Definition proposalErrorForApplyResult (result : ApplyResult) (err : option apply_error)
    : option apply_error :=
  match result with ApplyResultRejectConflict => err | _ => None end.

(** The command of an entry, applied: the result and its error. *)
Definition apply_entry (sm : option SM) (entry : LogEntry)
    : option SM * ApplyResult * option apply_error :=
  match sm with
  | Some m =>
      if decide (EntryType entry = LogEntryCommand) then
        match DeserializeCommand (EntryCommand entry) with
        | Ok cmd =>
            let '(m', err) := Apply m cmd in (Some m', ApplyResultFromError err, err)
        | Err e => (sm, ApplyResultFatal, Some (OtherError e))
        | _ => (sm, ApplyResultFatal, None)
        end
      else (sm, ApplyResultApplied, None)
  | None => (sm, ApplyResultApplied, None)
  end.

(** One iteration of the loop at [index]; [None] leaves the loop. A hole of the
    log dereferences a nil entry: a panic. *)
Definition apply_one n (index : Z) : outcome (Node SM * bool) :=
  match Get (log (ns n)) index with
  | Ok None => Panic
  | Ok (Some entry) =>
      let '(sm, result, err) := apply_entry (stateMachine n) entry in
      let n1 := mkNode (id n) (peers n) (ns n) sm (pendingProposals n) (results n) in
      match result with
      | ApplyResultFatal => Ok (notifyProposalApplied n1 index err, false)
      | _ =>
          Ok (notifyProposalApplied (with_ns n1 (SetLastApplied (ns n1) index)) index
                (proposalErrorForApplyResult result err), true)
      end
  | _ => Ok (n, false)
  end.

(** [for lastApplied < commitIndex], [k] iterations at most. *)
Fixpoint apply_loop n (applied : Z) (k : nat) : outcome (Node SM) :=
  match k with
  | O => Ok n
  | S k =>
      match apply_one n (applied + 1) with
      | Ok (n', true) => apply_loop n' (applied + 1) k
      | Ok (n', false) => Ok n'
      | Err e => Err e | Panic => Panic | Diverge => Diverge
      end
  end.

(** One round of [applyLoop]. *)
Definition apply_round n : outcome (Node SM) :=
  apply_loop n (lastApplied (ns n)) (Z.to_nat (commitIndex (ns n) - lastApplied (ns n))).

End Node.
