(* ===== verification/RaftElection.v ===== *)
(** * Elections in a Raft cluster

    A cluster of nodes exchanging vote requests and replies over a network that
    may delay, reorder, lose and repeat messages; a node with a data directory may
    crash at any point and restart from its files. Every handler is a single step. The step
    that consumes a vote reply takes a [guard] on the schedule: with [prompt] the
    candidate handles a reply of a higher term before its own term moves on, and a
    term has at most one leader; without it, it may not. *)

From S2P Require Import Prelude GoBinary RaftCodec RaftLog RaftNode.

(** ** What the transitions do to term, vote and role *)

(** The data directory and the term and vote it holds. *)
Definition vote_file (s : NodeState) : bool * option (Z * Z) := (dataDir s, term_dat s).

(** What [persistTermAndVote] leaves there. *)
Definition written (s : NodeState) (t v : Z) : bool * option (Z * Z) :=
  (dataDir s, if dataDir s then Some (t, v) else term_dat s).

Definition core (s : NodeState) : Z * NodeID * role * (bool * option (Z * Z)) :=
  (currentTerm s, votedFor s, state s, vote_file s).

(** The transitions outside elections: they may move to a later term as a follower,
    or make a candidate step down; otherwise term, vote and role stay. The vote on
    disk stays in any case. *)
Definition quiet (s s' : NodeState) : Prop :=
  vote_file s' = vote_file s /\
  ((currentTerm s < currentTerm s' /\ state s' = StateFollower)
   \/ (currentTerm s' = currentTerm s /\ state s = StateCandidate /\ state s' = StateFollower)
   \/ core s' = core s).

Lemma core_SetVotedFor s c : core (SetVotedFor s c) = (currentTerm s, c, state s, written s (currentTerm s) c).
Proof. by destruct s. Qed.
Lemma core_SetCommitIndex s i : core (SetCommitIndex s i) = core s.
Proof. by destruct s. Qed.
Lemma core_SetLastApplied s i : core (SetLastApplied s i) = core s.
Proof. by destruct s. Qed.
Lemma core_SetLeaderID s i : core (SetLeaderID s i) = core s.
Proof. by destruct s. Qed.
Lemma core_SetNextIndex s p i : core (SetNextIndex s p i) = core s.
Proof. by destruct s. Qed.
Lemma core_SetMatchIndex s p i : core (SetMatchIndex s p i) = core s.
Proof. by destruct s. Qed.
Lemma core_SetLog s l : core (SetLog s l) = core s.
Proof. by destruct s. Qed.
Lemma core_BecomeFollower s t : core (BecomeFollower s t) = (t, 0, StateFollower, vote_file s).
Proof. by destruct s. Qed.
Lemma core_BecomeCandidate s :
  core (BecomeCandidate s) = (uint64 (currentTerm s + 1), votedFor s, StateCandidate, vote_file s).
Proof. by destruct s. Qed.
Lemma core_BecomeLeader s i :
  core (BecomeLeader s i) = (currentTerm s, votedFor s, StateLeader, vote_file s).
Proof. by destruct s. Qed.

Create Rewrite HintDb core.
#[export] Hint Rewrite core_SetVotedFor core_SetCommitIndex core_SetLastApplied core_SetLeaderID
  core_SetNextIndex core_SetMatchIndex core_SetLog core_BecomeFollower core_BecomeCandidate
  core_BecomeLeader : core.

Lemma core_AppendEntry s e : core (AppendEntry s e) = core s.
Proof. unfold AppendEntry. by autorewrite with core. Qed.
#[export] Hint Rewrite core_AppendEntry : core.

Lemma core_append_entries prev s es : core (append_entries prev s es) = core s.
Proof.
  unfold append_entries. generalize (imap (fun i e => (i, e)) es) as l. intros l. revert s.
  induction l as [|[i e] l IH]; intros s; [done |]. cbn [foldl]. rewrite IH. unfold append_one.
  cbv zeta. repeat case_decide; by autorewrite with core.
Qed.

Lemma core_advance_commit s c : core (advance_commit s c) = core s.
Proof. unfold advance_commit. case_decide; by autorewrite with core. Qed.

Lemma core_InitLeaderState s ps : core (InitLeaderState s ps) = core s.
Proof.
  unfold InitLeaderState. cbv zeta. generalize (LastIndex (log s)) as last. intros last. revert s.
  induction ps as [|p ps IH]; intros s; [done |]. cbn [foldl]. rewrite IH. by autorewrite with core.
Qed.
#[export] Hint Rewrite core_append_entries core_advance_commit core_InitLeaderState : core.

Lemma core_eq s t v r f :
  core s = (t, v, r, f) -> currentTerm s = t /\ votedFor s = v /\ state s = r.
Proof. unfold core. by intros [= <- <- <- <-]. Qed.

Lemma core_file s t v r f : core s = (t, v, r, f) -> vote_file s = f.
Proof. by intros [= <- <- <- <-]. Qed.

Lemma written_file s s' t v : vote_file s = vote_file s' -> written s t v = written s' t v.
Proof. unfold vote_file, written. by intros [= -> ->]. Qed.

Lemma quiet_core s s' : core s' = core s -> quiet s s'.
Proof. intros Hc. split; [by apply (core_file _ _ _ _ _ Hc) | auto]. Qed.

Lemma quiet_after s s1 s' : quiet s s1 -> core s' = core s1 -> quiet s s'.
Proof.
  intros Hq Hc. unfold quiet in *. destruct (core_eq s' _ _ _ _ Hc) as (-> & _ & ->).
  by rewrite (core_file s' _ _ _ _ Hc), Hc.
Qed.

Lemma quiet_BecomeFollower s t : currentTerm s < t -> quiet s (BecomeFollower s t).
Proof.
  intros Ht. split; [by rewrite (core_file _ _ _ _ _ (core_BecomeFollower s t)) |]. left.
  destruct (core_eq _ _ _ _ _ (core_BecomeFollower s t)) as (-> & _ & ->). auto.
Qed.

Lemma quiet_append s args : quiet s (append s args).1.
Proof.
  unfold append. case_decide as Ht; [by apply quiet_core |]. cbv zeta.
  set (s1 := if _ || _ then _ else _).
  assert (quiet s s1) as Hq.
  { subst s1. destruct (decide (ae_Term args > currentTerm s)) as [Hn|Hn].
    - rewrite bool_decide_true by done. apply quiet_BecomeFollower. lia.
    - rewrite bool_decide_false by done. cbn [orb]. case_bool_decide; [| by apply quiet_core].
      split; [by rewrite (core_file _ _ _ _ _ (core_BecomeFollower s (ae_Term args))) |].
      right. left. destruct (core_eq _ _ _ _ _ (core_BecomeFollower s (ae_Term args))) as (-> & _ & ->).
      split; [lia | done]. }
  apply (quiet_after s s1 _ Hq). unfold append_checked. cbv zeta.
  repeat case_decide; cbn [fst]; by autorewrite with core.
Qed.

Section Cluster.
Context {SM : Type} `{StateMachine SM}.
Implicit Type n : Node SM.

(** The transitions of a node outside elections, for any peer's messages. *)
Inductive local : Node SM -> Node SM -> Prop :=
| local_append n args : local n (with_ns n (append (ns n) args).1)
| local_install n args : local n (install n args).1
| local_replicate n peer args reply : local n (replicate_reply n peer args reply)
| local_snapshot n peer args reply : local n (snapshot_reply n peer args reply)
| local_propose n req : local n (appendCommandAndTrack n req).1
| local_apply n n' : apply_round n = Ok n' -> local n n'.

(** A transition keeps the node's identity and is quiet. *)
Definition calm n n' : Prop := id n' = id n /\ peers n' = peers n /\ quiet (ns n) (ns n').

Lemma calm_ns n s : quiet (ns n) s -> calm n (with_ns n s).
Proof. by split. Qed.

Lemma calm_updateCommitIndex n : calm n (updateCommitIndex n).
Proof.
  unfold updateCommitIndex. cbv zeta. destruct (highest _ _ _).
  - apply calm_ns, quiet_core. by autorewrite with core.
  - by split; [| split; [| apply quiet_core]].
Qed.

Lemma calm_core_trans n n1 n2 : calm n1 n2 -> id n1 = id n -> peers n1 = peers n ->
  core (ns n1) = core (ns n) -> core (ns n2) = core (ns n1) -> calm n n2.
Proof.
  intros (H1 & H2 & _) H3 H4 H5 H6. split; [congruence |]. split; [congruence |].
  apply quiet_core. congruence.
Qed.

Lemma core_updateCommitIndex n : core (ns (updateCommitIndex n)) = core (ns n).
Proof.
  unfold updateCommitIndex. cbv zeta. destruct (highest _ _ _); [| done].
  simpl. by autorewrite with core.
Qed.

Lemma calm_install n args : calm n (install n args).1.
Proof.
  unfold install. cbv zeta. case_decide as Ht; [by split; [| split; [| apply quiet_core]] |].
  set (s1 := if bool_decide _ then _ else _).
  assert (quiet (ns n) s1) as Hq.
  { subst s1. case_bool_decide; [apply quiet_BecomeFollower; lia | by apply quiet_core]. }
  destruct (restore_snapshot _ _); (split; [done |]; split; [done |]);
    apply (quiet_after _ s1 _ Hq); simpl; by autorewrite with core.
Qed.

Lemma calm_replicate n peer args reply : calm n (replicate_reply n peer args reply).
Proof.
  unfold replicate_reply. cbv zeta. case_decide.
  { apply calm_ns, quiet_BecomeFollower. lia. }
  destruct (aer_Success reply).
  - eapply calm_core_trans; [apply calm_updateCommitIndex | done | done | |].
    + simpl. by autorewrite with core.
    + apply core_updateCommitIndex.
  - repeat case_decide;
      first [ apply calm_ns, quiet_core; by autorewrite with core
            | by split; [| split; [| apply quiet_core]] ].
Qed.

Lemma calm_snapshot n peer args reply : calm n (snapshot_reply n peer args reply).
Proof.
  unfold snapshot_reply. cbv zeta. case_decide; apply calm_ns.
  - apply quiet_BecomeFollower. lia.
  - apply quiet_core. by autorewrite with core.
Qed.

Lemma calm_propose n req : calm n (appendCommandAndTrack n req).1.
Proof.
  unfold appendCommandAndTrack. destruct (IsLeader n); cbn [fst].
  - eapply calm_core_trans; [apply calm_updateCommitIndex | done | done | |].
    + simpl. by autorewrite with core.
    + apply core_updateCommitIndex.
  - by split; [| split; [| apply quiet_core]].
Qed.

Lemma notify_same n i e :
  id (notifyProposalApplied n i e) = id n /\ peers (notifyProposalApplied n i e) = peers n
  /\ ns (notifyProposalApplied n i e) = ns n
  /\ stateMachine (notifyProposalApplied n i e) = stateMachine n.
Proof. unfold notifyProposalApplied. by destruct (pendingProposals n !! i). Qed.

Lemma apply_one_same n i n' b :
  apply_one n i = Ok (n', b) -> id n' = id n /\ peers n' = peers n /\ core (ns n') = core (ns n).
Proof.
  unfold apply_one. destruct (Get _ _) as [[e|]| | |]; intros Ha; try done; try naive_solver.
  destruct (apply_entry _ e) as [[sm r] err].
  destruct r; injection Ha as <- _;
    (match goal with |- context [notifyProposalApplied ?m ?j ?x] =>
       destruct (notify_same m j x) as (-> & -> & -> & _) end);
    simpl; by autorewrite with core.
Qed.

Lemma calm_apply n n' : apply_round n = Ok n' -> calm n n'.
Proof.
  unfold apply_round. generalize (lastApplied (ns n)) at 1 as a.
  generalize (Z.to_nat (commitIndex (ns n) - lastApplied (ns n))) as k. intros k a Ha.
  assert (id n' = id n /\ peers n' = peers n /\ core (ns n') = core (ns n)) as (H1 & H2 & H3).
  { revert n a Ha. induction k as [|k IH]; intros n a Ha; cbn [apply_loop] in Ha; [naive_solver |].
    destruct (apply_one n (a + 1)) as [[n1 [|]]| | |] eqn:E; try done.
    - destruct (IH _ _ Ha) as (-> & -> & ->). by apply (apply_one_same _ _ _ _ E).
    - injection Ha as ->. by apply (apply_one_same _ _ _ _ E). }
  split; [done |]. split; [done |]. by apply quiet_core.
Qed.

Lemma local_calm n n' : local n n' -> calm n n'.
Proof.
  destruct 1; [apply calm_ns, quiet_append | apply calm_install | apply calm_replicate
    | apply calm_snapshot | apply calm_propose | by apply calm_apply].
Qed.

(** ** The cluster *)

Inductive packet :=
| VoteRequest (dst : NodeID) (args : RequestVoteArgs)
| VoteResponse (voter candidate : NodeID) (term : Z) (reply : RequestVoteReply).

(** [tally]: the votes a candidate has counted in its current candidacy. *)
Record cluster := mkCluster {
  nodes : gmap Z (Node SM);
  tally : gmap Z (gset Z);
  net : list packet
}.

Definition tally_of (c : cluster) (i : Z) : gset Z := default ∅ (tally c !! i).

(** When a candidate may consume a reply to its candidacy of [term]. *)
Definition schedule : Type := NodeState -> Z -> RequestVoteReply -> Prop.

Definition any_time : schedule := fun _ _ _ => True.

(** A reply of a higher term is handled before the node's own term gets there. *)
Definition prompt : schedule := fun s term reply =>
  rvr_Term reply > term -> rvr_Term reply > currentTerm s.

(** The reply to the candidacy of [term]: step down, or count the vote once. The goroutine of
    the peer and the loop of [runCandidate] that takes the vote from its channel run as one
    step here. The code compares neither term nor voter: the channel belongs to the candidacy,
    which only the loop itself starts (so a node that is still a candidate is one of that
    term), and each peer has one goroutine, which sends once. The two tests on [term] and
    [voter] stand for that, since a message of this network can be delivered again. *)
Definition reply_step (n : Node SM) (counted : gset Z) (voter term : Z) (reply : RequestVoteReply)
    : Node SM * gset Z :=
  let '(n1, granted) := vote_reply n term reply in
  if decide (granted = true /\ term = currentTerm (ns n1) /\ state (ns n1) = StateCandidate
             /\ voter ∉ counted) then
    ((collect_vote n1 (Z.of_nat (size counted)) true).1, {[voter]} ∪ counted)
  else (n1, counted).

Inductive step (guard : schedule) : cluster -> cluster -> Prop :=
| step_timeout c i n :
    nodes c !! i = Some n -> state (ns n) <> StateLeader -> currentTerm (ns n) + 1 < 2 ^ 64 ->
    step guard c (mkCluster (<[i := start_election n]> (nodes c)) (<[i := {[i]}]> (tally c)) (net c))
| step_request c i n j :
    nodes c !! i = Some n -> state (ns n) = StateCandidate -> j ∈ peers n ->
    step guard c (mkCluster (nodes c) (tally c) (VoteRequest j (vote_args n) :: net c))
| step_vote c j n args s reply :
    nodes c !! j = Some n -> VoteRequest j args ∈ net c -> vote (ns n) args = (s, reply) ->
    step guard c (mkCluster (<[j := with_ns n s]> (nodes c)) (tally c)
                    (VoteResponse j (rv_CandidateID args) (rv_Term args) reply :: net c))
| step_reply c i n voter term reply n' counted :
    nodes c !! i = Some n -> VoteResponse voter i term reply ∈ net c ->
    guard (ns n) term reply -> reply_step n (tally_of c i) voter term reply = (n', counted) ->
    step guard c (mkCluster (<[i := n']> (nodes c)) (<[i := counted]> (tally c)) (net c))
| step_alone c i n :
    nodes c !! i = Some n -> state (ns n) = StateCandidate -> peers n = [] ->
    step guard c (mkCluster (<[i := becomeLeader n]> (nodes c)) (tally c) (net c))
| step_local c i n n' :
    nodes c !! i = Some n -> local n n' ->
    step guard c (mkCluster (<[i := n']> (nodes c)) (tally c) (net c))
| step_restart c i n contents s sm :
    nodes c !! i = Some n -> dataDir (ns n) = true ->
    restart contents (term_dat (ns n)) (last_applied_dat (ns n)) = Ok s ->
    step guard c (mkCluster (<[i := mkNode i (peers n) s sm ∅ []]> (nodes c)) (tally c) (net c)).

(** The cluster of [members] at start. *)
Definition initial (members : gset Z) (c : cluster) : Prop :=
  net c = [] /\ dom (nodes c) = members /\
  forall i n, nodes c !! i = Some n ->
    id n = i /\ list_to_set (peers n) = members ∖ {[i]} /\ NoDup (peers n)
    /\ exists dir, core (ns n) = (0, 0, StateFollower, (dir, None)).

Inductive reachable (guard : schedule) (members : gset Z) : cluster -> Prop :=
| reachable_initial c : initial members c -> reachable guard members c
| reachable_step c c' : reachable guard members c -> step guard c c' -> reachable guard members c'.

(** ** The invariant *)

Definition granted (net : list packet) (voter candidate term : Z) : Prop :=
  exists reply, VoteResponse voter candidate term reply ∈ net /\ rvr_VoteGranted reply = true.

(** The voters of [q] are the candidate itself and nodes that granted their vote. *)
Definition supported (net : list packet) (i term : Z) (q : gset Z) : Prop :=
  forall j, j ∈ q -> j = i \/ granted net j i term.

Variable members : gset Z.
Hypothesis members_nonzero : 0 ∉ members.

Definition quorum (q : gset Z) : Prop :=
  q ⊆ members /\ Z.of_nat (size q) >= Z.of_nat (size members) / 2 + 1.

(** The vote on disk is the last one granted. *)
Record file_ok (net : list packet) (i : Z) (f : bool * option (Z * Z)) : Prop := {
  file_term : forall t v, f.2 = Some (t, v) -> 0 <= t;
  file_last : f.1 = true -> forall k t, granted net i k t ->
    exists t0 v0, f.2 = Some (t0, v0) /\ t <= t0 /\ (t = t0 -> v0 = k)
}.

Definition node_ok (net : list packet) (q : gset Z) (i : Z) n : Prop :=
  id n = i /\ list_to_set (peers n) = members ∖ {[i]} /\ NoDup (peers n)
  /\ 0 <= currentTerm (ns n)
  /\ (forall k t, granted net i k t ->
        t <= currentTerm (ns n) /\ (t = currentTerm (ns n) -> votedFor (ns n) = k))
  /\ (state (ns n) <> StateFollower -> votedFor (ns n) = i)
  /\ (state (ns n) = StateCandidate -> q ⊆ members /\ supported net i (currentTerm (ns n)) q)
  /\ (state (ns n) = StateLeader ->
        exists q, quorum q /\ supported net i (currentTerm (ns n)) q)
  /\ file_ok net i (vote_file (ns n)).

Definition net_ok (net : list packet) : Prop :=
  (forall j args, VoteRequest j args ∈ net ->
     rv_CandidateID args ∈ members /\ rv_CandidateID args <> j)
  /\ (forall v i t, granted net v i t -> v ∈ members /\ i ∈ members /\ i <> v)
  /\ (forall v i i' t, granted net v i t -> granted net v i' t -> i = i').

Definition invariant (c : cluster) : Prop :=
  net_ok (net c) /\ dom (nodes c) = members
  /\ forall i n, nodes c !! i = Some n -> node_ok (net c) (tally_of c i) i n.

Lemma granted_mono net p v i t : granted net v i t -> granted (p :: net) v i t.
Proof. intros (r & Hr & Hg). exists r. split; [by right | done]. Qed.

Lemma supported_mono net p i t q : supported net i t q -> supported (p :: net) i t q.
Proof. intros Hs j Hj. destruct (Hs j Hj); [by left | right; by apply granted_mono]. Qed.

Lemma granted_request net j args v i t :
  granted (VoteRequest j args :: net) v i t <-> granted net v i t.
Proof.
  split; [| apply granted_mono]. intros (r & Hr & Hg).
  apply elem_of_cons in Hr as [Hr|Hr]; [done |]. by exists r.
Qed.

Lemma granted_response net w k u reply v i t :
  granted (VoteResponse w k u reply :: net) v i t <->
  granted net v i t \/ (v = w /\ i = k /\ t = u /\ rvr_VoteGranted reply = true).
Proof.
  split.
  - intros (r & Hr & Hg). apply elem_of_cons in Hr as [Hr|Hr]; [| left; by exists r].
    right. naive_solver.
  - intros [Hg|(-> & -> & -> & Hg)]; [by apply granted_mono |].
    exists reply. split; [by left | done].
Qed.

(** A node that granted nothing new is still fine in a larger network. *)
Lemma file_ok_mono net net' i f :
  file_ok net i f -> (forall k t, granted net' i k t -> granted net i k t) -> file_ok net' i f.
Proof.
  intros [Hf1 Hf2] Hg. split; [exact Hf1 |]. intros Hd k t Hk. apply (Hf2 Hd), Hg, Hk.
Qed.

(** A vote just written agrees with the votes granted when the vote in memory does. *)
Lemma file_ok_written net0 net i s t v :
  file_ok net0 i (vote_file s) -> 0 <= t ->
  (forall k u, granted net i k u -> u <= t /\ (u = t -> v = k)) ->
  file_ok net i (written s t v).
Proof.
  intros [H1 _] Ht Hg. unfold written. split; cbn [fst snd].
  - intros t0 v0 Hw. destruct (dataDir s); [by injection Hw as <- <- | by apply (H1 t0 v0)].
  - intros -> k u Hk. exists t, v. by destruct (Hg k u Hk).
Qed.

Lemma node_ok_mono net p q i n :
  node_ok net q i n -> (forall k t, granted (p :: net) i k t -> granted net i k t) ->
  node_ok (p :: net) q i n.
Proof.
  intros (H1 & H2 & H3 & H4 & H5 & H6 & H7 & H8 & H9) Hg.
  split_and!; try done.
  - intros k t Hk. by apply H5, Hg.
  - intros Hc. destruct (H7 Hc). split; [done | by apply supported_mono].
  - intros Hl. destruct (H8 Hl) as (Q & HQ & Hs). exists Q. split; [done |].
    by apply supported_mono.
  - by apply (file_ok_mono net).
Qed.

(** Quiet transitions keep a node fine. *)
Lemma node_ok_quiet net q i n n' :
  net_ok net -> node_ok net q i n -> calm n n' -> node_ok net q i n'.
Proof.
  intros (_ & Hnet & _) (H1 & H2 & H3 & H4 & H5 & H6 & H7 & H8 & H9) (Hi & Hp & Hfile & Hq).
  unfold node_ok. rewrite Hi, Hp, Hfile.
  destruct Hq as [[Ht Hf]|[(Ht & Hc & Hf)|Hc]].
  - rewrite Hf. split_and!; try done; try lia.
    intros k t Hk. destruct (H5 k t Hk). split; lia.
  - rewrite Hf, Ht. split_and!; try done.
    intros k t Hk. destruct (H5 k t Hk) as [Hle He]. split; [done |].
    intros ->. specialize (He eq_refl). rewrite H6 in He by congruence.
    destruct (Hnet i k (currentTerm (ns n))) as (_ & _ & ?); congruence.
  - destruct (core_eq _ _ _ _ _ Hc) as (-> & -> & ->). done.
Qed.

(** Replacing one node. *)
Lemma invariant_update c i n' q :
  net_ok (net c) -> dom (nodes c) = members -> is_Some (nodes c !! i) ->
  node_ok (net c) q i n' ->
  (forall j n, j <> i -> nodes c !! j = Some n -> node_ok (net c) (tally_of c j) j n) ->
  invariant (mkCluster (<[i := n']> (nodes c)) (<[i := q]> (tally c)) (net c)).
Proof.
  intros Hn Hd Hs Hi Ho. split; [done |]. cbn [nodes tally net]. split.
  { rewrite dom_insert_L, Hd. apply subseteq_union_1_L. rewrite <- Hd.
    apply singleton_subseteq_l. by apply elem_of_dom. }
  intros j n Hj. unfold tally_of. cbn [tally]. destruct (decide (j = i)) as [->|Hne].
  - rewrite lookup_insert_eq in Hj. rewrite lookup_insert_eq. by injection Hj as <-.
  - rewrite lookup_insert_ne in Hj by done. rewrite lookup_insert_ne by done. by apply Ho.
Qed.

Lemma invariant_update_node c i n n' :
  invariant c -> nodes c !! i = Some n -> node_ok (net c) (tally_of c i) i n' ->
  invariant (mkCluster (<[i := n']> (nodes c)) (tally c) (net c)).
Proof.
  intros (Hn & Hd & Ho) Hi Hok. split; [done |]. cbn [nodes tally net]. split.
  { rewrite dom_insert_L, Hd. apply subseteq_union_1_L. rewrite <- Hd.
    apply singleton_subseteq_l. by apply elem_of_dom; eexists. }
  intros j m Hj. destruct (decide (j = i)) as [->|Hne].
  - rewrite lookup_insert_eq in Hj. by injection Hj as <-.
  - rewrite lookup_insert_ne in Hj by done. by apply Ho.
Qed.

(** *** A timeout *)

Lemma node_ok_timeout net q i n :
  net_ok net -> node_ok net q i n -> i ∈ members -> currentTerm (ns n) + 1 < 2 ^ 64 ->
  node_ok net {[i]} i (start_election n).
Proof.
  intros Hnet (H1 & H2 & H3 & H4 & H5 & H6 & H7 & H8 & H9) Hm Ht. unfold node_ok, start_election.
  cbn [id peers ns with_ns].
  assert (core (SetVotedFor (BecomeCandidate (ns n)) (id n))
          = (currentTerm (ns n) + 1, i, StateCandidate, written (ns n) (currentTerm (ns n) + 1) i)) as Hc.
  { rewrite core_SetVotedFor, (written_file _ (ns n)) by by destruct (ns n). destruct (core_eq _ _ _ _ _ (core_BecomeCandidate (ns n))) as (-> & _ & ->).
    rewrite uint64_id, H1 by (unfold is_uint64; lia). done. }
  rewrite (core_file _ _ _ _ _ Hc).
  destruct (core_eq _ _ _ _ _ Hc) as (-> & -> & ->). split_and!; try done; try lia.
  - intros k t Hg. destruct (H5 k t Hg). split; lia.
  - intros _. split; [by apply singleton_subseteq_l |].
    intros j Hj. apply elem_of_singleton in Hj as ->. by left.
  - apply (file_ok_written net); [done | lia |]. intros k t Hg. destruct (H5 k t Hg). split; lia.
Qed.

(** *** A vote *)

Lemma vote_cases s args s' reply :
  vote s args = (s', reply) ->
  (rvr_VoteGranted reply = true /\ core s' = (rv_Term args, rv_CandidateID args, state s',
                                              written s (rv_Term args) (rv_CandidateID args))
   /\ currentTerm s <= rv_Term args
   /\ (currentTerm s = rv_Term args ->
         state s' = state s /\ (votedFor s = 0 \/ votedFor s = rv_CandidateID args))
   /\ (currentTerm s < rv_Term args -> state s' = StateFollower)
   /\ up_to_date (log s) args = true)
  \/ (rvr_VoteGranted reply = false /\ quiet s s').
Proof.
  unfold vote. case_decide as Ht; [intros [= <- <-]; right; by split; [| apply quiet_core] |].
  cbv zeta. assert (forall t, log (BecomeFollower s t) = log s) as Hlog by by destruct s.
  destruct (decide (rv_Term args > currentTerm s)) as [Hn|Hn].
  - pose proof (core_eq _ _ _ _ _ (core_BecomeFollower s (rv_Term args))) as (H1 & H2 & H3).
    case_decide as Hv; intros [= <- <-].
    + left. rewrite core_SetVotedFor, H1, H3, (written_file _ s) by by destruct s.
      rewrite Hlog in Hv.
      destruct (core_eq _ _ _ _ _ (core_SetVotedFor (BecomeFollower s (rv_Term args))
        (rv_CandidateID args))) as (_ & _ & ->). rewrite H3.
      split_and!; try done; try (intros; lia). by destruct Hv.
    + right. split; [done |]. apply quiet_BecomeFollower. lia.
  - case_decide as Hv; intros [= <- <-].
    + left. destruct (core_eq _ _ _ _ _ (core_SetVotedFor s (rv_CandidateID args))) as (_ & _ & ->).
      rewrite core_SetVotedFor. replace (currentTerm s) with (rv_Term args) by lia.
      destruct Hv. split_and!; try done; intros; lia.
    + right. split; [done | by apply quiet_core].
Qed.

Lemma node_ok_granted net q i n s args reply :
  net_ok net -> node_ok net q i n -> vote (ns n) args = (s, reply) ->
  rvr_VoteGranted reply = true -> rv_CandidateID args ∈ members -> rv_CandidateID args <> i ->
  i ∈ members ->
  node_ok (VoteResponse i (rv_CandidateID args) (rv_Term args) reply :: net) q i (with_ns n s)
  /\ (forall k, granted net i k (rv_Term args) -> k = rv_CandidateID args).
Proof.
  intros (_ & Hnet & _) (H1 & H2 & H3 & H4 & H5 & H6 & H7 & H8 & H9) Hv Hg Hm Hne Hi.
  destruct (vote_cases _ _ _ _ Hv) as [(_ & Hc & Hle & Heq & Hlt & _)|[? _]]; [| congruence].
  destruct (core_eq _ _ _ _ _ Hc) as (Ht & Hvf & _).
  assert (forall k, granted net i k (rv_Term args) -> k = rv_CandidateID args) as Hu.
  { intros k Hk. destruct (H5 k _ Hk) as [Hle' He]. assert (currentTerm (ns n) = rv_Term args) as E by lia.
    rewrite <- (He (eq_sym E)). destruct (Heq E) as [_ [H0| ->]]; [| done].
    rewrite (He (eq_sym E)) in H0. destruct (Hnet i k _ Hk) as (_ & ? & _). congruence. }
  assert (state s = StateFollower) as Hf.
  { destruct (decide (currentTerm (ns n) = rv_Term args)) as [E|E]; [| apply Hlt; lia].
    destruct (Heq E) as [-> Hvote]. destruct (decide (state (ns n) = StateFollower)) as [|Hs]; [done |].
    rewrite (H6 Hs) in Hvote. exfalso. destruct Hvote; congruence. }
  split; [| done]. unfold node_ok. cbn [id peers ns with_ns].
  rewrite Ht, Hvf, Hf, (core_file _ _ _ _ _ Hc).
  set (p := VoteResponse _ _ _ _).
  assert (forall k t, granted (p :: net) i k t ->
    t <= rv_Term args /\ (t = rv_Term args -> rv_CandidateID args = k)) as Hnew.
  { intros k t Hk. apply granted_response in Hk as [Hk|(_ & -> & -> & _)]; [| by split].
    destruct (H5 k t Hk). split; [lia |]. intros ->. symmetry. by apply Hu. }
  split_and!; try done; [lia |]. by apply (file_ok_written net); [| lia |].
Qed.

Lemma invariant_vote c j n args s reply :
  invariant c -> nodes c !! j = Some n -> VoteRequest j args ∈ net c ->
  vote (ns n) args = (s, reply) ->
  invariant (mkCluster (<[j := with_ns n s]> (nodes c)) (tally c)
               (VoteResponse j (rv_CandidateID args) (rv_Term args) reply :: net c)).
Proof.
  intros (Hn & Hd & Ho) Hj Hr Hv. pose proof Hn as (Hreq & Hcand & Huniq).
  destruct (Hreq j args Hr) as [Hm Hne].
  assert (j ∈ members) as Hjm by (rewrite <- Hd; apply elem_of_dom; by eexists).
  set (p := VoteResponse j (rv_CandidateID args) (rv_Term args) reply).
  assert (node_ok (p :: net c) (tally_of c j) j (with_ns n s)
          /\ (rvr_VoteGranted reply = true ->
              forall k, granted (net c) j k (rv_Term args) -> k = rv_CandidateID args)) as [Hok Hu].
  { destruct (rvr_VoteGranted reply) eqn:Hg.
    - destruct (node_ok_granted (net c) (tally_of c j) j n s args reply) as [H1 H2]; auto.
    - destruct (vote_cases _ _ _ _ Hv) as [(? & _)|[_ Hq]]; [congruence |].
      split; [| done]. apply node_ok_mono.
      + eapply node_ok_quiet; [done | by apply Ho | by apply calm_ns].
      + intros k t Hk. apply granted_response in Hk as [|(_ & _ & _ & ?)]; [done | congruence]. }
  split; [| split].
  - split_and!.
    + intros j' args' Hin. apply elem_of_cons in Hin as [Hin|Hin]; [done |]. by apply Hreq.
    + intros v i t Hk. apply granted_response in Hk as [Hk|(-> & -> & _)]; [by eapply Hcand | done].
    + intros v i i' t Hk Hk'. apply granted_response in Hk, Hk'.
      destruct Hk as [Hk|(-> & -> & -> & Hg)], Hk' as [Hk'|(E & -> & E' & Hg')]; subst;
        [by eapply Huniq | by apply Hu | symmetry; by apply Hu | done].
  - cbn [nodes]. rewrite dom_insert_L, Hd. apply subseteq_union_1_L. by apply singleton_subseteq_l.
  - cbn [nodes net]. intros i m Hi. change (tally_of _ i) with (tally_of c i).
    destruct (decide (i = j)) as [->|Hij].
    + rewrite lookup_insert_eq in Hi. by injection Hi as <-.
    + rewrite lookup_insert_ne in Hi by done. apply node_ok_mono; [by apply Ho |].
      intros k t Hk. apply granted_response in Hk as [|(E & _)]; [done | congruence].
Qed.

(** *** A reply *)

Lemma size_members n i :
  i ∈ members -> list_to_set (peers n) = members ∖ {[i]} -> NoDup (peers n) ->
  len (peers n) + 1 = Z.of_nat (size members).
Proof.
  intros Hi Hp Hn. pose proof (size_list_to_set (C := gset Z) (peers n) Hn) as Hs.
  rewrite Hp, size_difference in Hs by by apply singleton_subseteq_l.
  rewrite size_singleton in Hs. assert (size members <> 0)%nat.
  { intros E. apply size_empty_inv in E. set_solver. }
  unfold len. lia.
Qed.

Lemma core_becomeLeader n :
  core (ns (becomeLeader n)) = (currentTerm (ns n), votedFor (ns n), StateLeader, vote_file (ns n)).
Proof. unfold becomeLeader. cbn [ns with_ns]. by autorewrite with core. Qed.

(** A candidate whose supporters are a majority may lead. *)
Lemma node_ok_leads net q q' i n :
  node_ok net q i n -> state (ns n) = StateCandidate -> quorum q' ->
  supported net i (currentTerm (ns n)) q' -> forall q0, node_ok net q0 i (becomeLeader n).
Proof.
  intros (H1 & H2 & H3 & H4 & H5 & H6 & H7 & H8 & H9) Hs Hq Hsup q0. unfold node_ok.
  rewrite (core_file _ _ _ _ _ (core_becomeLeader n)).
  destruct (core_eq _ _ _ _ _ (core_becomeLeader n)) as (-> & -> & ->).
  split_and!; try done; [intros _; apply H6; congruence |]. intros _. by exists q'.
Qed.

(** A node without peers is a majority. *)
Lemma node_ok_alone net q i n :
  node_ok net q i n -> i ∈ members -> state (ns n) = StateCandidate -> peers n = [] ->
  node_ok net q i (becomeLeader n).
Proof.
  intros Hok Hi Hs Hp. pose proof Hok as (_ & H2 & H3 & _).
  eapply (node_ok_leads net q {[i]}); [done | done | |].
  - split; [set_solver |]. rewrite <- (size_members n i) by done.
    rewrite Hp, size_singleton. by vm_compute.
  - intros j Hj. apply elem_of_singleton in Hj as ->. by left.
Qed.

Lemma node_ok_count net q i n voter :
  net_ok net -> node_ok net q i n -> i ∈ members -> state (ns n) = StateCandidate ->
  voter ∉ q -> voter ∈ members -> granted net voter i (currentTerm (ns n)) ->
  node_ok net ({[voter]} ∪ q) i (collect_vote n (Z.of_nat (size q)) true).1.
Proof.
  intros Hnet Hok Hi Hs Hv Hvm Hg.
  pose proof Hok as (H1 & H2 & H3 & H4 & H5 & H6 & H7 & H8 & H9). destruct (H7 Hs) as [Hq Hsup].
  assert (supported net i (currentTerm (ns n)) ({[voter]} ∪ q)) as Hsup'.
  { intros j [->%elem_of_singleton|Hj]%elem_of_union; [by right | by apply Hsup]. }
  assert ({[voter]} ∪ q ⊆ members) as Hq' by set_solver.
  unfold collect_vote. rewrite decide_False by tauto.
  case_decide as Hneed; cbn [fst]; [| by split_and!].
  eapply node_ok_leads; [done | done | | done]. split; [done |].
  rewrite size_union, size_singleton by set_solver.
  unfold votes_needed in Hneed. rewrite (size_members n i) in Hneed by done. lia.
Qed.

Lemma vote_reply_calm n term reply :
  prompt (ns n) term reply -> calm n (vote_reply n term reply).1.
Proof.
  intros Hp. unfold vote_reply. case_decide; cbn [fst].
  - apply calm_ns, quiet_BecomeFollower. specialize (Hp ltac:(done)). lia.
  - by split; [| split; [| apply quiet_core]].
Qed.

(** With a reply that grants the vote, nothing else happens. *)
Lemma vote_reply_granted n term reply n1 :
  vote_reply n term reply = (n1, true) -> n1 = n /\ rvr_VoteGranted reply = true.
Proof. unfold vote_reply. case_decide; naive_solver. Qed.

Lemma invariant_reply c i n voter term reply n' counted :
  invariant c -> nodes c !! i = Some n -> VoteResponse voter i term reply ∈ net c ->
  prompt (ns n) term reply -> reply_step n (tally_of c i) voter term reply = (n', counted) ->
  invariant (mkCluster (<[i := n']> (nodes c)) (<[i := counted]> (tally c)) (net c)).
Proof.
  intros (Hn & Hd & Ho) Hi Hin Hp Hr.
  assert (i ∈ members) as Him by (rewrite <- Hd; apply elem_of_dom; by eexists).
  apply invariant_update; [done | done | by eexists | | intros j m _; apply Ho].
  pose proof (vote_reply_calm n term reply Hp) as Hcalm. unfold reply_step in Hr.
  destruct (vote_reply n term reply) as [n1 g] eqn:E. cbn [fst] in Hcalm.
  case_decide as Hc; injection Hr as <- <-.
  - destruct Hc as (-> & -> & Hs & Hv). apply vote_reply_granted in E as [-> Hg].
    assert (granted (net c) voter i (currentTerm (ns n))) as Hgr by (exists reply; done).
    apply node_ok_count; auto.
    destruct Hn as (_ & Hcand & _). by destruct (Hcand _ _ _ Hgr).
  - eapply node_ok_quiet; [done | by apply Ho | done].
Qed.

Lemma invariant_request c i n j :
  invariant c -> nodes c !! i = Some n -> j ∈ peers n ->
  invariant (mkCluster (nodes c) (tally c) (VoteRequest j (vote_args n) :: net c)).
Proof.
  intros (Hn & Hd & Ho) Hi Hj. pose proof Hn as (Hreq & Hcand & Huniq).
  assert (i ∈ members) as Him by (rewrite <- Hd; apply elem_of_dom; by eexists).
  destruct (Ho i n Hi) as (Hid & Hp & _).
  assert (i <> j) as Hne.
  { intros ->. assert (j ∈ (list_to_set (peers n) : gset Z)) as Hin by by apply elem_of_list_to_set.
    rewrite Hp in Hin. set_solver. }
  split; [| split; [done |]].
  - split_and!.
    + intros k args Hin. apply elem_of_cons in Hin as [Hin|Hin]; [| by apply Hreq].
      injection Hin as -> ->. cbn [rv_CandidateID vote_args]. by rewrite Hid.
    + intros v k t Hg. apply granted_request in Hg. by eapply Hcand.
    + intros v k k' t Hg Hg'. apply granted_request in Hg, Hg'. by eapply Huniq.
  - cbn [nodes net]. intros k m Hk. change (tally_of _ k) with (tally_of c k).
    apply node_ok_mono; [by apply Ho |]. intros ? ? Hg. by apply granted_request in Hg.
Qed.

(** *** A restart *)

Lemma restart_core contents td la s :
  restart contents td la = Ok s ->
  core s = ((default (0, 0) td).1, (default (0, 0) td).2, StateFollower, (true, td)).
Proof.
  unfold restart. destruct (NewRaftLogWithDir contents); try done.
  destruct (default (0, 0) td) as [t v]. by intros [= <-].
Qed.

(** The vote read back is the last one granted. *)
Lemma node_ok_restart net q i n contents la s sm :
  node_ok net q i n -> dataDir (ns n) = true ->
  restart contents (term_dat (ns n)) la = Ok s -> node_ok net q i (mkNode i (peers n) s sm ∅ []).
Proof.
  intros (H1 & H2 & H3 & H4 & H5 & H6 & H7 & H8 & [H9 H10]) Hd Hr.
  apply restart_core in Hr. unfold node_ok. cbn [id peers ns].
  rewrite (core_file _ _ _ _ _ Hr). destruct (core_eq _ _ _ _ _ Hr) as (-> & -> & ->).
  unfold vote_file in H9, H10. cbn [fst snd] in H9, H10. rewrite Hd in H10. specialize (H10 eq_refl).
  split_and!; try done.
  - destruct (term_dat (ns n)) as [[t v]|]; [by apply (H9 t v) | done].
  - intros k t Hk. destruct (H10 k t Hk) as (t0 & v0 & -> & Hle & Heq). split; [done | exact Heq].
Qed.

Lemma invariant_step c c' : invariant c -> step prompt c c' -> invariant c'.
Proof.
  intros Hinv Hst. pose proof Hinv as (Hn & Hd & Ho). destruct Hst.
  - assert (i ∈ members) by (rewrite <- Hd; apply elem_of_dom; by eexists).
    apply invariant_update; [done | done | by eexists | | intros j m _; apply Ho].
    eapply node_ok_timeout; [done | by apply Ho | done | done].
  - by eapply invariant_request.
  - by eapply invariant_vote.
  - by eapply invariant_reply.
  - assert (i ∈ members) by (rewrite <- Hd; apply elem_of_dom; by eexists).
    eapply invariant_update_node; [done | done |]. by apply node_ok_alone; [apply Ho | | |].
  - eapply invariant_update_node; [done | done |].
    eapply node_ok_quiet; [done | by apply Ho | by apply local_calm].
  - eapply invariant_update_node; [done | done |]. by eapply node_ok_restart; [apply Ho | |].
Qed.

Lemma invariant_initial c : initial members c -> invariant c.
Proof.
  intros (Hnet & Hd & Ho).
  assert (forall v i t, ~ granted (net c) v i t) as Hg.
  { intros v i t (r & Hr & _). rewrite Hnet in Hr. by apply elem_of_nil in Hr. }
  split; [| split; [done |]].
  - split_and!.
    + intros j args Hin. rewrite Hnet in Hin. by apply elem_of_nil in Hin.
    + intros v i t H1. by destruct (Hg v i t).
    + intros v i i' t H1. by destruct (Hg v i t).
  - intros i n Hi. destruct (Ho i n Hi) as (H1 & H2 & H3 & dir & Hc).
    destruct (core_eq _ _ _ _ _ Hc) as (Ht & Hv & Hs). unfold node_ok.
    rewrite Ht, Hv, Hs, (core_file _ _ _ _ _ Hc).
    split_and!; try done; [| split; [done |]]; intros; exfalso; by eapply Hg.
Qed.

Lemma reachable_invariant c : reachable prompt members c -> invariant c.
Proof.
  induction 1; [by apply invariant_initial | by eapply invariant_step].
Qed.

(** Two majorities share a member. *)
Lemma quorum_intersect q1 q2 : quorum q1 -> quorum q2 -> exists j, j ∈ q1 /\ j ∈ q2.
Proof.
  intros [H1 H2] [H3 H4]. destruct (set_choose_or_empty (q1 ∩ q2)) as [[j Hj]|He].
  - exists j. set_solver.
  - exfalso. assert (q1 ## q2) as Hd by set_solver.
    assert (size (q1 ∪ q2) <= size members)%nat as Hs by (apply subseteq_size; set_solver).
    rewrite size_union in Hs by done.
    pose proof (Z.mul_succ_div_gt (Z.of_nat (size members)) 2). lia.
Qed.

Lemma invariant_leaders c i j n m :
  invariant c -> nodes c !! i = Some n -> nodes c !! j = Some m ->
  state (ns n) = StateLeader -> state (ns m) = StateLeader ->
  currentTerm (ns n) = currentTerm (ns m) -> i = j.
Proof.
  intros (Hn & Hd & Ho) Hi Hj Hsi Hsj Ht. destruct Hn as (_ & _ & Huniq).
  destruct (Ho i n Hi) as (_ & _ & _ & _ & Gi & Vi & _ & Li & _).
  destruct (Ho j m Hj) as (_ & _ & _ & _ & Gj & Vj & _ & Lj & _).
  destruct (Li Hsi) as (q1 & Q1 & S1). destruct (Lj Hsj) as (q2 & Q2 & S2).
  rewrite <- Ht in S2. destruct (quorum_intersect q1 q2 Q1 Q2) as (v & H1 & H2).
  destruct (S1 v H1) as [E1|G1], (S2 v H2) as [E2|G2]; try subst v.
  - done.
  - destruct (Gi j _ G2) as [_ E]. rewrite Vi in E by congruence. by apply E.
  - rewrite Ht in G1. destruct (Gj i _ G1) as [_ E]. rewrite Vj in E by congruence.
    symmetry. by apply E.
  - by eapply Huniq.
Qed.

End Cluster.

Arguments mkCluster {SM}.
Arguments nodes {SM}.
Arguments tally {SM}.
Arguments net {SM}.

(** ** Running a schedule *)

(** The steps of a schedule; a packet is named by its place in the network. *)
Inductive action :=
| ATimeout (i : NodeID)
| ARequest (i j : NodeID)
| AVote (packet : nat)
| AReply (packet : nat).

Section Run.
Context {SM : Type} `{StateMachine SM}.
Variable guard : schedule.
Variable guardb : NodeState -> Z -> RequestVoteReply -> bool.
Hypothesis guardb_ok : forall s t r, guardb s t r = true -> guard s t r.

Definition run_action (c : cluster (SM := SM)) (a : action) : option cluster :=
  match a with
  | ATimeout i =>
      match nodes c !! i with
      | Some n =>
          if decide (state (ns n) <> StateLeader /\ currentTerm (ns n) + 1 < 2 ^ 64) then
            Some (mkCluster (<[i := start_election n]> (nodes c)) (<[i := {[i]}]> (tally c)) (net c))
          else None
      | None => None
      end
  | ARequest i j =>
      match nodes c !! i with
      | Some n =>
          if decide (state (ns n) = StateCandidate /\ j ∈ peers n) then
            Some (mkCluster (nodes c) (tally c) (VoteRequest j (vote_args n) :: net c))
          else None
      | None => None
      end
  | AVote k =>
      match net c !! k with
      | Some (VoteRequest j args) =>
          match nodes c !! j with
          | Some n =>
              let '(s, reply) := vote (ns n) args in
              Some (mkCluster (<[j := with_ns n s]> (nodes c)) (tally c)
                      (VoteResponse j (rv_CandidateID args) (rv_Term args) reply :: net c))
          | None => None
          end
      | _ => None
      end
  | AReply k =>
      match net c !! k with
      | Some (VoteResponse voter i term reply) =>
          match nodes c !! i with
          | Some n =>
              if guardb (ns n) term reply then
                let '(n', counted) := reply_step n (tally_of c i) voter term reply in
                Some (mkCluster (<[i := n']> (nodes c)) (<[i := counted]> (tally c)) (net c))
              else None
          | None => None
          end
      | _ => None
      end
  end.

Lemma run_action_step c a c' : run_action c a = Some c' -> step guard c c'.
Proof.
  destruct a as [i|i j|k|k]; cbn [run_action].
  - destruct (nodes c !! i) as [n|] eqn:E; [| done]. case_decide as Hd; [| done].
    intros [= <-]. destruct Hd. by apply step_timeout.
  - destruct (nodes c !! i) as [n|] eqn:E; [| done]. case_decide as Hd; [| done].
    intros [= <-]. destruct Hd. by eapply step_request.
  - destruct (net c !! k) as [[j args|]|] eqn:E; try done.
    destruct (nodes c !! j) as [n|] eqn:E2; [| done].
    destruct (vote (ns n) args) as [s reply] eqn:E3. intros [= <-].
    eapply step_vote; [done | by eapply list_elem_of_lookup_2 | done].
  - destruct (net c !! k) as [[|voter i term reply]|] eqn:E; try done.
    destruct (nodes c !! i) as [n|] eqn:E2; [| done].
    destruct (guardb _ _ _) eqn:E3; [| done].
    destruct (reply_step _ _ _ _ _) as [n' counted] eqn:E4. intros [= <-].
    eapply step_reply; [done | by eapply list_elem_of_lookup_2 | by apply guardb_ok | done].
Qed.

Definition run (acts : list action) (c : cluster) : option cluster :=
  foldl (fun oc a => c ← oc; run_action c a) (Some c) acts.

Lemma run_None acts :
  foldl (fun oc a => c ← oc; run_action c a) None acts = None.
Proof. by induction acts. Qed.

Lemma run_reachable members acts c c' :
  reachable guard members c -> run acts c = Some c' -> reachable guard members c'.
Proof.
  revert c. induction acts as [|a acts IH]; intros c Hr; unfold run; cbn [foldl].
  { by intros [= <-]. }
  cbn [mbind option_bind]. destruct (run_action c a) as [c1|] eqn:E.
  - apply IH. eapply reachable_step; [done | by eapply run_action_step].
  - by rewrite run_None.
Qed.
End Run.

(** ** Starting a cluster *)

Section Boot.
Context {SM : Type} `{StateMachine SM}.

(** What [NewNode] promises the cluster, on an empty data directory or without one. *)
Lemma NewNode_starts cfg sm (n : Node SM) :
  NewNode cfg sm (mkDisk [] None None) = Ok n ->
  id n = cfg_ID cfg /\ cfg_ID cfg <> 0 /\ NoDup (peers n)
  /\ list_to_set (peers n) = list_to_set (cfg_Peers cfg) ∖ {[cfg_ID cfg]} :> gset Z
  /\ exists dir, core (ns n) = (0, 0, StateFollower, (dir, None)).
Proof.
  unfold NewNode. destruct (NodeConfig_Validate cfg) as [e|] eqn:Hv; [done |].
  assert (cfg_ID cfg <> 0) as Hid.
  { unfold NodeConfig_Validate in Hv. by destruct (decide (cfg_ID cfg = 0)). }
  cbn [disk_log disk_term disk_applied].
  assert (forall s, (if decide (cfg_DataDir cfg <> []) then restart [] None None else Ok NewNodeState)
            = Ok s -> exists dir, core s = (0, 0, StateFollower, (dir, None))) as Hs.
  { intros s. case_decide; [| by intros [= <-]; exists false].
    intros Hr. exists true. by rewrite (restart_core _ _ _ _ Hr). }
  destruct (if decide (cfg_DataDir cfg <> []) then _ else _) as [s| | |]; try done.
  intros [= <-]. cbn [id peers ns]. split; [done |]. split; [done |].
  split; [apply NoDup_remove_dups |]. split; [| by apply Hs].
  apply set_eq. intros x.
  rewrite elem_of_list_to_set, elem_of_remove_dups, list_elem_of_filter, elem_of_difference,
    elem_of_list_to_set, elem_of_singleton. naive_solver.
Qed.

(** Nodes made by [NewNode] from configurations of the same members are a cluster at
    start, with no identifier 0. *)
Lemma NewNode_initial members (c : cluster (SM := SM)) :
  net c = [] -> dom (nodes c) = members ->
  (forall i n, nodes c !! i = Some n -> exists cfg sm,
     cfg_ID cfg = i /\ list_to_set (cfg_Peers cfg) ∪ {[i]} = members
     /\ NewNode cfg sm (mkDisk [] None None) = Ok n) ->
  initial members c /\ 0 ∉ members.
Proof.
  intros Hnet Hd Hc. split.
  - split; [done |]. split; [done |]. intros i n Hi.
    destruct (Hc i n Hi) as (cfg & sm & Hid & Hm & Hn).
    destruct (NewNode_starts cfg sm n Hn) as (H1 & _ & H2 & H3 & H4). rewrite Hid in *.
    split; [done |]. split; [| done]. rewrite H3, <- Hm. set_solver.
  - intros Hz. rewrite <- Hd in Hz. apply elem_of_dom in Hz as [n Hn].
    destruct (Hc 0 n Hn) as (cfg & sm & Hid & _ & Hok).
    by destruct (NewNode_starts cfg sm n Hok) as (_ & ? & _).
Qed.

(** A cluster of three fresh nodes. *)

Definition fresh (i : NodeID) (ps : list NodeID) : Node SM :=
  mkNode i ps NewNodeState None ∅ [].

Definition boot3 : cluster (SM := SM) :=
  mkCluster (<[1 := fresh 1 [2; 3]]> (<[2 := fresh 2 [1; 3]]> (<[3 := fresh 3 [1; 2]]> ∅))) ∅ [].

Definition members3 : gset Z := {[1; 2; 3]}.

Lemma boot3_initial : initial members3 boot3.
Proof.
  split; [done |]. split; [by vm_compute |]. intros i n Hi. unfold boot3 in Hi. cbn [nodes] in Hi.
  repeat (apply lookup_insert_Some in Hi as [[<- <-]|[_ Hi]];
    [by split_and!; [| vm_compute | apply (bool_decide_unpack _); vm_compute | exists false] |]).
  done.
Qed.
End Boot.
