(* ===== verification/RaftReplication.v ===== *)
(** * Log replication and commitment

    What a successful AppendEntries leaves in the follower's log, the convergence
    of the leader's retries, which index [updateCommitIndex] commits, and what the
    apply loop hands to the state machine. *)

From S2P Require Import Prelude GoBinary RaftCodec RaftLog RaftNode RaftElection.

(** ** Logs without holes, of a length an index can count *)

Definition good_log (l : RaftLog) : Prop :=
  entries l !! 0%nat = Some (Some noop0) /\ Forall is_Some (entries l) /\ len (entries l) < 2 ^ 62.

Lemma good_len l : good_log l -> 1 <= len (entries l) < 2 ^ 62.
Proof.
  intros (H0 & _ & Hl). split; [| done]. apply lookup_lt_Some in H0. unfold len. lia.
Qed.

Lemma good_LastIndex l : good_log l -> LastIndex l = len (entries l) - 1.
Proof. intros Hg. apply good_len in Hg. unfold LastIndex, uint64. rewrite Z.mod_small; lia. Qed.

Lemma good_lookup l i :
  good_log l -> 0 <= i < len (entries l) ->
  exists e, entries l !! Z.to_nat i = Some (Some e) /\ TermAt l i = Term e.
Proof.
  intros (_ & Hs & _) Hi. destruct (lookup_lt_is_Some_2 (entries l) (Z.to_nat i)) as [x Hx].
  { unfold len in Hi. lia. }
  rewrite Forall_forall in Hs. destruct (Hs x) as [e ->]; [by eapply list_elem_of_lookup_2 |].
  exists e. split; [done |]. unfold TermAt. rewrite decide_False by lia. by rewrite Hx.
Qed.

(** ** Placing one entry *)

Definition put_entry (l : RaftLog) (idx : Z) (e : LogEntry) : RaftLog :=
  if decide (idx <= LastIndex l) then
    if decide (TermAt l idx <> Term e) then Append (TruncateFrom l idx) e else l
  else Append l e.

Lemma log_append_one prev s i e :
  log (append_one prev s (i, e)) = put_entry (log s) (uint64 (uint64 (prev + Z.of_nat i) + 1)) e.
Proof.
  unfold append_one, put_entry. cbv zeta. repeat case_decide; unfold AppendEntry; by destruct s.
Qed.

(** [append_entries] places its entries one after the other. *)
Fixpoint put_entries (l : RaftLog) (idx : Z) (es : list LogEntry) : RaftLog :=
  match es with
  | [] => l
  | e :: es => put_entries (put_entry l idx e) (idx + 1) es
  end.

Lemma log_append_entries prev s es :
  0 <= prev -> prev + len es < 2 ^ 63 ->
  log (append_entries prev s es) = put_entries (log s) (prev + 1) es.
Proof.
  intros Hp Hl. unfold append_entries.
  assert (forall k s, prev + Z.of_nat k + len es < 2 ^ 63 ->
    log (foldl (append_one prev) s (imap (fun i e => ((k + i)%nat, e)) es))
    = put_entries (log s) (prev + Z.of_nat k + 1) es) as Hk.
  { clear Hl. induction es as [|e es IH]; intros k s' Hl; [done |].
    rewrite imap_cons. cbn [foldl put_entries]. rewrite len_cons in Hl.
    rewrite (imap_ext _ (fun i e => ((S k + i)%nat, e))) by (intros; simpl; f_equal; lia).
    pose proof (len_nonneg es). rewrite IH by lia. rewrite log_append_one.
    rewrite Nat.add_0_r, (uint64_id (prev + Z.of_nat k)), uint64_id by (unfold is_uint64; lia).
    by replace (prev + Z.of_nat (S k) + 1) with (prev + Z.of_nat k + 1 + 1) by lia. }
  specialize (Hk 0%nat s). cbn [Nat.add] in Hk. rewrite Hk by lia. f_equal. lia.
Qed.

Section Put.
Variables (l : RaftLog) (idx : Z) (e : LogEntry).
Hypothesis Hg : good_log l.
Hypothesis Hi : 1 <= idx <= len (entries l).
Hypothesis Hroom : idx + 1 < 2 ^ 62.

(** The log is cut only where an entry of another term is in the way. *)
Lemma put_entry_cases :
  (idx < len (entries l) /\ TermAt l idx = Term e /\ put_entry l idx e = l)
  \/ ((idx < len (entries l) -> TermAt l idx <> Term e)
      /\ entries (put_entry l idx e) = take (Z.to_nat idx) (entries l) ++ [Some e]).
Proof.
  unfold put_entry. rewrite good_LastIndex by done. pose proof (good_len l Hg).
  case_decide as H1.
  - case_decide as H2.
    + right. split; [done |]. unfold TruncateFrom. rewrite decide_True by lia. done.
    + left. repeat split; [lia | lia].
  - right. split; [lia |]. unfold Append. cbn [entries]. rewrite take_ge; [done |].
    unfold len in *. lia.
Qed.

Lemma good_put_entry : good_log (put_entry l idx e).
Proof.
  destruct put_entry_cases as [(_ & _ & ->)|[_ He]]; [done |].
  destruct Hg as (H0 & Hs & Hl). unfold good_log. rewrite He. split_and!.
  - rewrite lookup_app_l; [rewrite lookup_take_lt by lia; done |].
    rewrite length_take. unfold len in *. lia.
  - apply Forall_app. split; [by apply Forall_take | by repeat constructor].
  - rewrite len_app, len_cons, len_nil. unfold len at 1. rewrite length_take. lia.
Qed.
End Put.

(** ** A follower's log against the leader's *)

(** Raft's log matching: entries of the same index and term are the same, and so
    is everything before them. *)
Definition log_matching (L F : list (option LogEntry)) : Prop :=
  forall i x y, L !! i = Some (Some x) -> F !! i = Some (Some y) -> Term x = Term y ->
    take (S i) L = take (S i) F.

Definition same_term_same_entry (L F : list (option LogEntry)) : Prop :=
  forall i x y, L !! i = Some (Some x) -> F !! i = Some (Some y) -> Term x = Term y -> x = y.

Lemma matching_pointwise L F : log_matching L F -> same_term_same_entry L F.
Proof.
  intros Hm i x y Hx Hy Ht. pose proof (Hm i x y Hx Hy Ht) as He.
  assert (take (S i) L !! i = take (S i) F !! i) as Hl by by rewrite He.
  rewrite !lookup_take_lt in Hl by lia. congruence.
Qed.

Lemma put_entry_agree L l idx e :
  good_log l -> 1 <= idx <= len (entries l) -> idx + 1 < 2 ^ 62 ->
  same_term_same_entry L (entries l) -> L !! Z.to_nat idx = Some (Some e) ->
  take (Z.to_nat idx) L = take (Z.to_nat idx) (entries l) ->
  let l' := put_entry l idx e in
  same_term_same_entry L (entries l') /\
  take (Z.to_nat (idx + 1)) L = take (Z.to_nat (idx + 1)) (entries l') /\
  idx + 1 <= len (entries l').
Proof.
  intros Hg Hi Hr Hp HL Ht. replace (Z.to_nat (idx + 1)) with (S (Z.to_nat idx)) by lia.
  destruct (put_entry_cases l idx e Hg Hi) as [(Hlt & Hte & ->)|[_ He]]; cbv zeta.
  - destruct (good_lookup l idx Hg ltac:(lia)) as (y & Hy & Hty).
    assert (e = y) as <- by (eapply Hp; [done | done | congruence]).
    split; [done |]. split; [| lia]. by rewrite (take_S_r _ _ _ HL), (take_S_r _ _ _ Hy), Ht.
  - rewrite He. assert (length (take (Z.to_nat idx) (entries l)) = Z.to_nat idx) as Hlen.
    { rewrite length_take. unfold len in Hi. lia. }
    split_and!.
    + intros i x y Hx Hy Hte. apply lookup_app_Some in Hy as [Hy|[Hge Hy]].
      * apply lookup_take_Some in Hy as [Hy _]. by eapply Hp.
      * apply list_lookup_singleton_Some in Hy as [E [= ->]]. assert (i = Z.to_nat idx) as -> by lia.
        congruence.
    + rewrite (take_S_r _ _ _ HL), Ht, take_app_ge by lia.
      rewrite Hlen. replace (S (Z.to_nat idx) - Z.to_nat idx)%nat with 1%nat by lia. done.
    + unfold len in *. rewrite length_app, Hlen. simpl. lia.
Qed.

Lemma put_entries_agree L l idx es :
  good_log l -> 1 <= idx <= len (entries l) -> idx + len es < 2 ^ 62 ->
  same_term_same_entry L (entries l) ->
  (forall i e, es !! i = Some e -> L !! (Z.to_nat idx + i)%nat = Some (Some e)) ->
  take (Z.to_nat idx) L = take (Z.to_nat idx) (entries l) ->
  let l' := put_entries l idx es in
  good_log l' /\ take (Z.to_nat (idx + len es)) L = take (Z.to_nat (idx + len es)) (entries l').
Proof.
  revert l idx. induction es as [|e es IH]; intros l idx Hg Hi Hr Hp HL Ht; cbn [put_entries].
  { rewrite len_nil, Z.add_0_r. done. }
  rewrite len_cons in Hr |- *. pose proof (len_nonneg es).
  assert (L !! Z.to_nat idx = Some (Some e)) as H0.
  { specialize (HL 0%nat e eq_refl). by rewrite Nat.add_0_r in HL. }
  destruct (put_entry_agree L l idx e Hg Hi ltac:(lia) Hp H0 Ht) as (Hp' & Ht' & Hl').
  replace (idx + (1 + len es)) with (idx + 1 + len es) by lia.
  apply IH; [by apply good_put_entry; [| | lia] | lia | lia | done | | done].
  intros i x Hx. replace (Z.to_nat (idx + 1) + i)%nat with (Z.to_nat idx + S i)%nat by lia.
  by apply HL.
Qed.

(** ** The conflict index *)

Lemma conflict_index_spec l t i :
  TermAt l (Z.of_nat (S i)) = t ->
  let c := conflict_index l t (S i) in
  1 <= c <= Z.of_nat (S i) /\ (forall k, c <= k <= Z.of_nat (S i) -> TermAt l k = t)
  /\ (c = 1 \/ TermAt l (c - 1) <> t).
Proof.
  induction i as [|i IH]; intros Ht; cbv zeta.
  - cbn [conflict_index]. rewrite decide_False by (intros Hn; by apply Hn).
    rewrite decide_True by lia. split; [lia |]. split; [| by left].
    intros k Hk. by replace k with (Z.of_nat 1) by lia.
  - remember (S i) as j eqn:Ej. cbn [conflict_index].
    rewrite decide_False by (intros Hn; by apply Hn). rewrite decide_False by lia. subst j.
    destruct (decide (TermAt l (Z.of_nat (S i)) = t)) as [E|E].
    + destruct (IH E) as (H1 & H2 & H3). split; [lia |]. split; [| done].
      intros k Hk. destruct (decide (k = Z.of_nat (S (S i)))) as [->|]; [done |]. apply H2. lia.
    + cbn [conflict_index]. rewrite decide_True by done.
      split; [lia |]. split.
      * intros k Hk. by replace k with (Z.of_nat (S (S i))) by lia.
      * right. by replace (Z.of_nat (S i) + 1 - 1) with (Z.of_nat (S i)) by lia.
Qed.

(** ** One exchange between a leader and a follower *)

Lemma mapM_entries (l : list (option LogEntry)) :
  Forall is_Some l -> exists es, mapM (fun e => e) l = Some es /\ Some <$> es = l.
Proof.
  induction l as [|x l IH]; intros Hl; [by exists [] |].
  apply Forall_cons in Hl as [[e ->] Hl]. destruct (IH Hl) as (es & He & Hes).
  exists (e :: es). cbn. rewrite He. split; [done |]. by rewrite Hes.
Qed.

Section Exchange.
Context {SM : Type} `{StateMachine SM}.
Implicit Type n : Node SM.

Lemma replicate_args_good n peer :
  let L := log (ns n) in
  state (ns n) = StateLeader -> good_log L -> 1 <= GetNextIndex (ns n) peer <= len (entries L) ->
  exists es,
    replicate_args n peer
    = Some (mkAppendEntriesArgs (currentTerm (ns n)) (id n) (GetNextIndex (ns n) peer - 1)
              (TermAt L (GetNextIndex (ns n) peer - 1)) es (commitIndex (ns n)))
    /\ Some <$> es = drop (Z.to_nat (GetNextIndex (ns n) peer)) (entries L).
Proof.
  intros L Hlead Hg Hn. unfold replicate_args, IsLeader. cbv zeta. fold L.
  rewrite bool_decide_eq_true_2 by done. pose proof (good_len _ Hg).
  rewrite (uint64_id (_ - 1)) by (unfold is_uint64; lia).
  assert (GetFrom L (GetNextIndex (ns n) peer)
          = drop (Z.to_nat (GetNextIndex (ns n) peer)) (entries L)) as Hf.
  { unfold GetFrom. case_decide; [| done]. rewrite drop_ge; [done |]. unfold len in *. lia. }
  destruct (mapM_entries (GetFrom L (GetNextIndex (ns n) peer))) as (es & He & Hes).
  { rewrite Hf. apply Forall_drop, Hg. }
  exists es. rewrite He. split; [done |]. by rewrite Hes.
Qed.

(** The follower's state when it has accepted the leader's term. *)
Definition accepted (s : NodeState) (args : AppendEntriesArgs) : NodeState :=
  SetLeaderID (if bool_decide (ae_Term args > currentTerm s) || bool_decide (state s = StateCandidate)
               then BecomeFollower s (ae_Term args) else s) (ae_LeaderID args).

Lemma append_accepted s args :
  currentTerm s <= ae_Term args ->
  append s args = append_checked (accepted s args) args (ae_Term args).
Proof.
  intros Ht. unfold append, accepted. rewrite decide_False by lia. cbv zeta. f_equal.
  case_bool_decide; lia.
Qed.

Lemma log_accepted s args : log (accepted s args) = log s.
Proof. unfold accepted. destruct (_ || _); by destruct s. Qed.

Lemma log_advance_commit s c : log (advance_commit s c) = log s.
Proof. unfold advance_commit. case_decide; by destruct s. Qed.

(** A success leaves the leader's log as a prefix of the follower's. *)
Lemma append_success s args s' reply L es next :
  good_log (log s) -> len L < 2 ^ 62 -> log_matching L (entries (log s)) ->
  L !! 0%nat = Some (Some noop0) -> Forall is_Some L ->
  1 <= next <= len L -> Some <$> es = drop (Z.to_nat next) L ->
  currentTerm s <= ae_Term args -> ae_PrevLogIndex args = next - 1 -> ae_Entries args = es ->
  (forall x, L !! Z.to_nat (next - 1) = Some (Some x) -> ae_PrevLogTerm args = Term x) ->
  append s args = (s', reply) -> aer_Success reply = true ->
  good_log (log s') /\ L `prefix_of` entries (log s').
Proof.
  intros Hg HL Hm H0 Hs Hn Hes Ht Hprev Hae Hpt Ha Hsucc.
  rewrite append_accepted in Ha by done. unfold append_checked in Ha. cbv zeta in Ha.
  rewrite log_accepted, Hprev, good_LastIndex in Ha by done.
  case_decide as Hc1; [injection Ha as <- <-; done |].
  case_decide as Hc2; [injection Ha as <- <-; done |].
  injection Ha as <- <-. rewrite log_advance_commit, Hae.
  pose proof (good_len _ Hg) as HgF.
  assert (len es = len L - next) as Hlen.
  { unfold len. rewrite <- (length_fmap Some es), Hes, length_drop. unfold len in Hn. lia. }
  rewrite log_append_entries, log_accepted by lia. replace (next - 1 + 1) with next by lia.
  assert (1 <= next <= len (entries (log s))) as HnF by (destruct (decide (next = 1)); lia).
  assert (take (Z.to_nat next) L = take (Z.to_nat next) (entries (log s))) as Htake.
  { replace (Z.to_nat next) with (S (Z.to_nat (next - 1))) by lia.
    destruct (lookup_lt_is_Some_2 L (Z.to_nat (next - 1))) as [x Hx]; [unfold len in *; lia |].
    rewrite Forall_forall in Hs. destruct (Hs x) as [e ->]; [by eapply list_elem_of_lookup_2 |].
    destruct (decide (next = 1)) as [->|Hne].
    - change (Z.to_nat (1 - 1)) with 0%nat. destruct Hg as (HF0 & _). by rewrite (take_S_r _ _ _ H0), (take_S_r _ _ _ HF0).
    - destruct (good_lookup (log s) (next - 1) Hg ltac:(lia)) as (y & Hy & Hty).
      eapply Hm; [done | done |]. rewrite <- Hty, <- (Hpt e Hx).
      destruct (decide (TermAt (log s) (next - 1) = ae_PrevLogTerm args)) as [|Hne2]; [done |].
      exfalso. apply Hc2. split; [lia | done]. }
  destruct (put_entries_agree L (log s) next es) as [Hgood Hagree]; [done | lia | lia | | | done |].
  - by apply matching_pointwise.
  - intros i e He. rewrite <- lookup_drop, <- Hes, list_lookup_fmap, He. done.
  - split; [done |]. rewrite Hlen in Hagree.
    replace (next + (len L - next)) with (len L) in Hagree by lia.
    unfold len in Hagree at 1. rewrite Nat2Z.id, take_ge in Hagree by done.
    rewrite Hagree. apply prefix_take.
Qed.

Lemma currentTerm_accepted s args :
  currentTerm s <= ae_Term args -> currentTerm (accepted s args) = ae_Term args.
Proof.
  intros Ht. unfold accepted. destruct (bool_decide (ae_Term args > currentTerm s)) eqn:E; cbn [orb].
  - by destruct s.
  - apply bool_decide_eq_false in E. destruct (bool_decide _); destruct s; simpl in *; lia.
Qed.

(** A failure leaves the log alone and tells the leader to go back. *)
Lemma append_failure s args s' reply :
  good_log (log s) -> currentTerm s <= ae_Term args -> 0 <= ae_PrevLogIndex args ->
  append s args = (s', reply) -> aer_Success reply = false ->
  log s' = log s /\ currentTerm s' = ae_Term args /\ aer_Term reply = ae_Term args
  /\ 1 <= ae_PrevLogIndex args
  /\ (aer_ConflictTerm reply > 0 -> 1 <= aer_ConflictIndex reply <= ae_PrevLogIndex args).
Proof.
  intros Hg Ht Hp Ha Hf. rewrite append_accepted in Ha by done.
  unfold append_checked in Ha. cbv zeta in Ha. rewrite log_accepted in Ha.
  case_decide as Hc1; [| case_decide as Hc2]; injection Ha as <- <-; cbn [aer_Success] in Hf; [| | done];
    cbn [aer_Term aer_ConflictTerm aer_ConflictIndex];
    rewrite log_accepted, currentTerm_accepted by done; (split_and!; [done | done | done | lia |]).
  - lia.
  - intros _. replace (Z.to_nat (ae_PrevLogIndex args)) with (S (Z.to_nat (ae_PrevLogIndex args) - 1)) by lia.
    pose proof (conflict_index_spec (log s) (TermAt (log s) (ae_PrevLogIndex args))
      (Z.to_nat (ae_PrevLogIndex args) - 1)) as Hc.
    destruct Hc as [Hc _]; [f_equal; lia |]. lia.
Qed.

(** ** Retries converge *)

(** The exchange on the arguments themselves, without the wire. *)
Fixpoint sync_args (k : nat) n (s : NodeState) (peer : Z) : option (Node SM * NodeState) :=
  match k with
  | O => None
  | S k =>
      match replicate_args n peer with
      | None => None
      | Some args =>
          let '(s', reply) := append s args in
          let n' := replicate_reply n peer args reply in
          if aer_Success reply then Some (n', s') else sync_args k n' s' peer
      end
  end.

(** [handleConn] drops a connection whose frame is longer. *)
Definition MaxFrame : Z := 64 * 1024 * 1024.

(** [sendAppendEntries] to a follower whose transport is up: the request as bytes through the
    follower's handler, the reply as bytes back; [None] is an error. *)
Definition sendAppendEntries (follower : Node SM) (args : AppendEntriesArgs) : Node SM * option AppendEntriesReply :=
  let data := AppendEntriesArgs_Serialize args in
  if decide (uint32 (len data) > MaxFrame) then (follower, None)
  else
    let '(follower, resp) := handleRPC follower RPCAppendEntries data in
    (follower, match DeserializeAppendEntriesReply resp with Ok reply => Some reply | _ => None end).

(** [replicateTo] one follower, repeated until it succeeds. *)
Fixpoint sync (k : nat) n (follower : Node SM) (peer : Z) : option (Node SM * Node SM) :=
  match k with
  | O => None
  | S k =>
      match replicate_args n peer with
      | None => None
      | Some args =>
          match sendAppendEntries follower args with
          | (follower, None) => sync k n follower peer
          | (follower, Some reply) =>
              let n' := replicate_reply n peer args reply in
              if aer_Success reply then Some (n', follower) else sync k n' follower peer
          end
      end
  end.

(** A leader and a follower behind its term, with logs that match. *)
Definition in_step n (s : NodeState) (peer : Z) : Prop :=
  state (ns n) = StateLeader /\ good_log (log (ns n)) /\ good_log (log s)
  /\ log_matching (entries (log (ns n))) (entries (log s))
  /\ 1 <= GetNextIndex (ns n) peer <= len (entries (log (ns n)))
  /\ currentTerm s <= currentTerm (ns n).

Lemma updateCommitIndex_fields n :
  log (ns (updateCommitIndex n)) = log (ns n)
  /\ matchIndex (ns (updateCommitIndex n)) = matchIndex (ns n)
  /\ nextIndex (ns (updateCommitIndex n)) = nextIndex (ns n).
Proof.
  unfold updateCommitIndex. cbv zeta. destruct (highest _ _ _); [| done].
  cbn [ns with_ns]. by destruct (ns n).
Qed.

Lemma NextIndex_set s peer i :
  GetNextIndex (SetNextIndex s peer i) peer = i /\ log (SetNextIndex s peer i) = log s
  /\ currentTerm (SetNextIndex s peer i) = currentTerm s
  /\ state (SetNextIndex s peer i) = state s.
Proof. destruct s. unfold GetNextIndex. simpl. by rewrite lookup_insert_eq. Qed.

Lemma replicate_reply_failure n s peer args s' reply :
  in_step n s peer -> replicate_args n peer = Some args -> append s args = (s', reply) ->
  aer_Success reply = false ->
  let n' := replicate_reply n peer args reply in
  in_step n' s' peer /\ GetNextIndex (ns n') peer < GetNextIndex (ns n) peer
  /\ log (ns n') = log (ns n).
Proof.
  intros (Hlead & Hg & Hgs & Hm & Hn & Ht) Hargs Ha Hf.
  destruct (replicate_args_good n peer Hlead Hg Hn) as (es & He & _). rewrite He in Hargs.
  injection Hargs as Hargs.
  assert (ae_Term args = currentTerm (ns n)) as Hat by by rewrite <- Hargs.
  assert (ae_PrevLogIndex args = GetNextIndex (ns n) peer - 1) as Hap by by rewrite <- Hargs.
  clear He Hargs.
  destruct (append_failure s args s' reply Hgs ltac:(lia) ltac:(lia) Ha Hf)
    as (Hl & Hts & Htr & H1 & Hc).
  unfold replicate_reply. cbv zeta. rewrite decide_False by lia. rewrite Hf.
  assert (forall i, 1 <= i < GetNextIndex (ns n) peer ->
    let n' := with_ns n (SetNextIndex (ns n) peer i) in
    in_step n' s' peer /\ GetNextIndex (ns n') peer < GetNextIndex (ns n) peer
    /\ log (ns n') = log (ns n)) as Hset.
  { intros i Hi. destruct (NextIndex_set (ns n) peer i) as (E1 & E2 & E3 & E4).
    unfold in_step. cbn [ns with_ns]. rewrite E1, E2, E3, E4, Hl. split_and!; try done; lia. }
  case_decide as Hct; [apply Hset; lia |]. rewrite decide_True by lia. apply Hset. lia.
Qed.

Lemma sync_args_converges k n s peer :
  in_step n s peer -> GetNextIndex (ns n) peer <= Z.of_nat k ->
  exists n' s', sync_args k n s peer = Some (n', s')
    /\ good_log (log s') /\ entries (log (ns n)) `prefix_of` entries (log s')
    /\ GetMatchIndex (ns n') peer = LastIndex (log (ns n)).
Proof.
  revert n s. induction k as [|k IH]; intros n s Hin Hk.
  { destruct Hin as (_ & _ & _ & _ & Hn & _). lia. }
  pose proof Hin as (Hlead & Hg & Hgs & Hm & Hn & Ht). cbn [sync_args].
  destruct (replicate_args_good n peer Hlead Hg Hn) as (es & He & Hes). rewrite He.
  set (args := mkAppendEntriesArgs _ _ _ _ _ _) in *.
  destruct (append s args) as [s' reply] eqn:Ha. destruct (aer_Success reply) eqn:Hs.
  - exists (replicate_reply n peer args reply), s'. split; [done |].
    pose proof Hg as (H0 & Hsome & Hlen).
    destruct (append_success s args s' reply (entries (log (ns n))) es (GetNextIndex (ns n) peer))
      as [Hg' Hpre]; try done.
    { intros x Hx. cbn [ae_PrevLogTerm args]. unfold TermAt. rewrite decide_False by lia.
      by rewrite Hx. }
    split; [done |]. split; [done |].
    rewrite good_LastIndex by done. unfold replicate_reply. cbv zeta.
    assert (aer_Term reply = currentTerm (ns n)) as ->.
    { rewrite append_accepted in Ha by done. unfold append_checked in Ha. cbv zeta in Ha.
      repeat case_decide; by injection Ha as <- <-. }
    rewrite decide_False by lia. rewrite Hs. unfold GetMatchIndex.
    destruct (updateCommitIndex_fields (with_ns n (SetMatchIndex (SetNextIndex (ns n) peer
      (uint64 (uint64 (ae_PrevLogIndex args + 1) + len (ae_Entries args)))) peer
      (uint64 (uint64 (ae_PrevLogIndex args + 1) + len (ae_Entries args) - 1))))) as (_ & -> & _).
    cbn [ns with_ns args ae_PrevLogIndex ae_Entries].
    assert (len es = len (entries (log (ns n))) - GetNextIndex (ns n) peer) as Hl.
    { unfold len. rewrite <- (length_fmap Some es), Hes, length_drop. unfold len in *. lia. }
    destruct (ns n) as [t v l st c a ni mi ld dd td la]. simpl matchIndex. rewrite lookup_insert_eq.
    cbn [default]. rewrite (uint64_id (_ - 1 + 1)), uint64_id by (unfold is_uint64; simpl in *; lia).
    simpl in *. lia.
  - destruct (replicate_reply_failure n s peer args s' reply Hin He Ha Hs) as (Hin' & Hlt & Hlog).
    destruct (IH _ s' Hin' ltac:(lia)) as (n' & s'' & Hsync & Hgood & Hpre & Hmi).
    exists n', s''. rewrite Hlog in Hpre, Hmi. done.
Qed.

(** *** Over the wire *)

Definition entry_ok (o : option LogEntry) : Prop := match o with Some e => valid_entry e | None => True end.

(** The entries of a log fit into one request: at most 10000 of them after the first, in a
    frame, and all numbers are of their width. *)
Record carried n (follower : Node SM) : Prop := mkCarried {
  cr_id : is_uint64 (id n);
  cr_term : is_uint64 (currentTerm (ns n));
  cr_commit : is_uint64 (commitIndex (ns n));
  cr_follower : 0 <= currentTerm (ns follower);
  cr_entries : Forall entry_ok (entries (log (ns n)));
  cr_old : Forall entry_ok (entries (log (ns follower)));
  cr_number : len (entries (log (ns n))) <= 10001;
  cr_size : forall es k, Some <$> es = drop k (entries (log (ns n))) ->
    48 + len (concat (entry_frame <$> es)) <= MaxFrame
}.

Lemma TermAt_ok l i : Forall entry_ok (entries l) -> is_uint64 (TermAt l i).
Proof.
  intros Hf. unfold TermAt. case_decide; [done |]. destruct (_ !! _) as [[e|]|] eqn:E; try done.
  by apply (proj1 (Forall_lookup _ _) Hf) in E as (_ & ? & _).
Qed.

Lemma entries_ok es k L : Some <$> es = drop k L -> Forall entry_ok L -> Forall valid_entry es.
Proof.
  intros He HL. apply (Forall_drop _ k) in HL. rewrite <- He, Forall_fmap in HL. done.
Qed.

Lemma conflict_index_range l t i : 0 <= conflict_index l t i <= Z.of_nat i + 1.
Proof. induction i as [|i IH]; cbn [conflict_index]; [lia |]. repeat case_decide; lia. Qed.

(** The reply of a follower is carried. *)
Lemma append_reply_ok s args s' reply :
  append s args = (s', reply) -> 0 <= currentTerm s -> currentTerm s <= ae_Term args -> is_uint64 (ae_Term args) ->
  0 <= ae_PrevLogIndex args < 2 ^ 63 -> Forall entry_ok (entries (log s)) ->
  is_uint64 (aer_Term reply) /\ is_uint64 (aer_ConflictTerm reply) /\ is_uint64 (aer_ConflictIndex reply).
Proof.
  intros Ha H0 Ht Hu Hp Hl. rewrite append_accepted in Ha by done. unfold append_checked in Ha. cbv zeta in Ha. rewrite log_accepted in Ha.
  repeat case_decide; injection Ha as <- <-; cbn [aer_Term aer_ConflictTerm aer_ConflictIndex]; split_and!; try done; try (by apply uint64_range).
  - by apply TermAt_ok.
  - pose proof (conflict_index_range (log s) (TermAt (log s) (ae_PrevLogIndex args)) (Z.to_nat (ae_PrevLogIndex args))). unfold is_uint64. lia.
Qed.
Lemma replicate_reply_fields n peer args reply :
  aer_Term reply <= currentTerm (ns n) -> aer_Success reply = false ->
  let n' := replicate_reply n peer args reply in
  id n' = id n /\ currentTerm (ns n') = currentTerm (ns n) /\ commitIndex (ns n') = commitIndex (ns n) /\ state (ns n') = state (ns n)
  /\ log (ns n') = log (ns n).
Proof.
  intros Ht Hf. unfold replicate_reply. cbv zeta. rewrite decide_False, Hf by lia. repeat case_decide; try done; by destruct (ns n).
Qed.

Lemma replicate_args_ok n follower peer args :
  in_step n (ns follower) peer -> carried n follower -> replicate_args n peer = Some args ->
  valid_append args /\ len (AppendEntriesArgs_Serialize args) <= MaxFrame /\ ae_Term args = currentTerm (ns n)
  /\ 0 <= ae_PrevLogIndex args < 2 ^ 63.
Proof.
  intros (Hlead & Hg & _ & _ & Hn & _) Hc Ha. destruct (replicate_args_good n peer Hlead Hg Hn) as (es & He & Hes). rewrite He in Ha.
  injection Ha as <-. destruct Hc as [Hi Ht Hm _ Hen _ Hnum Hsz]. pose proof (good_len _ Hg).
  cbn [ae_Term ae_PrevLogIndex]. split_and!; [| | done | lia | lia].
  - unfold valid_append. cbn [ae_Term ae_LeaderID ae_PrevLogIndex ae_PrevLogTerm ae_LeaderCommit ae_Entries].
    split_and!; [done | done | unfold is_uint64; lia | by apply TermAt_ok | done | | by eapply entries_ok].
    assert (length es = length (entries (log (ns n))) - Z.to_nat (GetNextIndex (ns n) peer))%nat as El by (by rewrite <- (length_fmap Some es), Hes, length_drop).
    unfold len in *. lia.
  - specialize (Hsz es _ Hes). unfold AppendEntriesArgs_Serialize. cbn [ae_Entries]. len_lia.
Qed.

Lemma sendAppendEntries_run n follower peer args :
  in_step n (ns follower) peer -> carried n follower -> replicate_args n peer = Some args ->
  sendAppendEntries follower args = let '(s, reply) := append (ns follower) args in (with_ns follower s, Some reply).
Proof.
  intros Hin Hc Ha. destruct (replicate_args_ok n follower peer args Hin Hc Ha) as (Hv & Hl & Ht & Hp).
  unfold sendAppendEntries. pose proof (len_nonneg (AppendEntriesArgs_Serialize args)).
  assert (uint32 (len (AppendEntriesArgs_Serialize args)) = len (AppendEntriesArgs_Serialize args)) as ->.
  { unfold uint32. apply Z.mod_small. unfold MaxFrame in Hl. lia. }
  rewrite decide_False by lia. unfold handleRPC. rewrite decide_False, decide_True by done. unfold handleAppendEntries.
  rewrite AppendEntriesArgs_roundtrip by done. destruct (append (ns follower) args) as [s reply] eqn:E.
  destruct Hc as [_ Htm _ Hf _ Hold _ _]. destruct Hin as (_ & _ & _ & _ & _ & Hle).
  destruct (append_reply_ok _ _ _ _ E Hf ltac:(lia) ltac:(by rewrite Ht) Hp Hold) as (H1 & H2 & H3).
  by rewrite AppendEntriesReply_roundtrip.
Qed.

Lemma sync_wire k n follower peer :
  in_step n (ns follower) peer -> carried n follower ->
  sync k n follower peer = (fun '(n', s') => (n', with_ns follower s')) <$> sync_args k n (ns follower) peer.
Proof.
  revert n follower. induction k as [|k IH]; intros n follower Hin Hc; [done |]. cbn [sync sync_args].
  destruct (replicate_args n peer) as [args|] eqn:Ha; [| done]. rewrite (sendAppendEntries_run n follower peer args Hin Hc Ha).
  destruct (append (ns follower) args) as [s' reply] eqn:E. destruct (aer_Success reply) eqn:Hs; [done |].
  destruct (replicate_reply_failure n (ns follower) peer args s' reply Hin Ha E Hs) as (Hin' & _ & _).
  destruct (replicate_args_ok n follower peer args Hin Hc Ha) as (_ & _ & Ht & Hp).
  destruct Hin as (_ & _ & Hgf & _ & _ & Hle).
  destruct (append_failure (ns follower) args s' reply Hgf ltac:(lia) ltac:(lia) E Hs) as (Hlog & Hterm & Hrt & _).
  destruct (replicate_reply_fields n peer args reply ltac:(lia) Hs) as (E1 & E2 & E3 & _ & E4).
  rewrite (IH _ (with_ns follower s')); [done | done |]. destruct Hc as [Hi Htm Hm Hf Hen Hold Hnum Hsz].
  constructor; rewrite ?E1, ?E2, ?E3, ?E4; cbn [ns with_ns]; rewrite ?Hlog; try done. rewrite Hterm, Ht. apply Htm.
Qed.

Lemma sync_converges k n follower peer :
  in_step n (ns follower) peer -> carried n follower -> GetNextIndex (ns n) peer <= Z.of_nat k ->
  exists n' follower', sync k n follower peer = Some (n', follower')
    /\ entries (log (ns n)) `prefix_of` entries (log (ns follower')) /\ GetMatchIndex (ns n') peer = LastIndex (log (ns n)).
Proof.
  intros Hin Hc Hk. destruct (sync_args_converges k n (ns follower) peer Hin Hk) as (n' & s' & Hs & _ & Hp & Hm).
  exists n', (with_ns follower s'). by rewrite (sync_wire k n follower peer Hin Hc), Hs.
Qed.

(** *** A follower that is too far behind *)

Lemma too_many_entries args :
  10000 < len (ae_Entries args) < 2 ^ 64 -> DeserializeAppendEntriesArgs (AppendEntriesArgs_Serialize args) = Err ErrLogCorrupted.
Proof.
  intros Hl. unfold DeserializeAppendEntriesArgs, AppendEntriesArgs_Serialize. rewrite decide_False by len_lia.
  rewrite !field_skip64 by lia. cbn [Nat.sub]. rewrite field64 by apply uint64_range. cbv zeta.
  rewrite uint64_id by (unfold is_uint64; lia). by rewrite decide_True by lia.
Qed.

Lemma sync_stuck k n follower peer :
  state (ns n) = StateLeader -> good_log (log (ns n)) -> 0 <= currentTerm (ns follower) <= currentTerm (ns n) -> is_uint64 (currentTerm (ns n)) ->
  1 <= GetNextIndex (ns n) peer -> GetNextIndex (ns n) peer + 10000 < len (entries (log (ns n))) -> sync k n follower peer = None.
Proof.
  intros Hl Hg Ht Hu Hn Hfar. revert n Hl Hg Ht Hu Hn Hfar. induction k as [|k IH]; intros n Hl Hg Ht Hu Hn Hfar; [done |]. cbn [sync].
  destruct (replicate_args_good n peer Hl Hg ltac:(lia)) as (es & -> & Hes). set (args := mkAppendEntriesArgs _ _ _ _ _ _).
  assert (length es = length (entries (log (ns n))) - Z.to_nat (GetNextIndex (ns n) peer))%nat as El by (by rewrite <- (length_fmap Some es), Hes, length_drop).
  pose proof (good_len _ Hg) as Hlen. unfold sendAppendEntries. case_decide; [by apply IH |].
  unfold handleRPC. rewrite decide_False, decide_True by done. unfold handleAppendEntries.
  rewrite too_many_entries by (cbn; unfold len in *; lia). cbn [fst snd].
  assert (is_uint64 (NodeTerm follower)) as Hft by (unfold NodeTerm, is_uint64 in *; lia).
  rewrite AppendEntriesReply_roundtrip by done. cbn [aer_Success].
  destruct (replicate_reply_fields n peer args (mkAppendEntriesReply (NodeTerm follower) false 0 0)) as (E1 & E2 & E3 & E4 & E5); [cbn [aer_Term]; unfold NodeTerm; lia | done |].
  assert (GetNextIndex (ns (replicate_reply n peer args (mkAppendEntriesReply (NodeTerm follower) false 0 0))) peer
    = if decide (GetNextIndex (ns n) peer > 1) then GetNextIndex (ns n) peer - 1 else GetNextIndex (ns n) peer) as En.
  { unfold replicate_reply. cbv zeta. cbn [aer_Term aer_Success aer_ConflictTerm]. rewrite decide_False by (unfold NodeTerm; lia). rewrite (decide_False (P := 0 > 0)) by lia.
    case_decide; [| done]. cbn [ns with_ns]. by destruct (NextIndex_set (ns n) peer (GetNextIndex (ns n) peer - 1)) as (-> & _). }
  apply IH; rewrite ?E4, ?E5, ?E2, ?En; try done; case_decide; lia.
Qed.
End Exchange.

(** ** Commitment *)

Lemma highest_Some good from k i :
  highest good from k = Some i ->
  from - Z.of_nat k < i <= from /\ good i = true /\ forall j, i < j <= from -> good j = false.
Proof.
  revert from. induction k as [|k IH]; intros from Hh; cbn [highest] in Hh; [done |].
  destruct (good from) eqn:E.
  - injection Hh as <-. split; [lia |]. split; [done |]. intros j Hj. lia.
  - destruct (IH _ Hh) as (H1 & H2 & H3). split; [lia |]. split; [done |].
    intros j Hj. destruct (decide (j = from)) as [->|]; [done |]. apply H3. lia.
Qed.

Lemma highest_None good from k :
  highest good from k = None -> forall j, from - Z.of_nat k < j <= from -> good j = false.
Proof.
  revert from. induction k as [|k IH]; intros from Hh j Hj; [lia |]. cbn [highest] in Hh.
  destruct (good from) eqn:E; [done |].
  destruct (decide (j = from)) as [->|]; [done |]. apply (IH _ Hh). lia.
Qed.

Section Commit.
Context {SM : Type} `{StateMachine SM}.
Implicit Type n : Node SM.

Lemma updateCommitIndex_spec n :
  let c := commitIndex (ns n) in
  let last := LastIndex (log (ns n)) in
  let c' := commitIndex (ns (updateCommitIndex n)) in
  (c' = c \/ c < c' <= last /\ committable n c' = true)
  /\ forall j, c' < j <= last -> committable n j = false.
Proof.
  cbv zeta. unfold updateCommitIndex. cbv zeta. destruct (highest _ _ _) as [i|] eqn:E.
  - destruct (highest_Some _ _ _ _ E) as (H1 & H2 & H3).
    assert (commitIndex (ns (with_ns n (SetCommitIndex (ns n) i))) = i) as -> by (simpl; by destruct (ns n)).
    split; [right; split; [lia | done] | done].
  - split; [by left |]. intros j Hj. apply (highest_None _ _ _ E). lia.
Qed.

(** ** The apply loop *)

(** *** The reference: what a stretch of the log does to a state machine *)

(** What one entry does: a command is applied, another entry does nothing. *)
Definition effect (sm : option SM) (e : LogEntry) : option SM * option apply_error :=
  match sm with
  | None => (None, None)
  | Some m =>
      if decide (EntryType e = LogEntryCommand) then
        match DeserializeCommand (EntryCommand e) with
        | Ok cmd => let '(m', err) := Apply m cmd in (Some m', err)
        | Err err => (sm, Some (OtherError err))
        | _ => (sm, None)
        end
      else (sm, None)
  end.

(** Errors that stop the loop, and what a proposer hears of an error. *)
Definition fatal (err : option apply_error) : bool :=
  match err with
  | None => false
  | Some (OtherError _) | Some (ApplyResultError ApplyResultFatal _) => true
  | Some (ApplyResultError _ _) => false
  end.

Definition heard (err : option apply_error) : option apply_error :=
  match err with
  | Some (ApplyResultError ApplyResultApplied _)
  | Some (ApplyResultError ApplyResultIdempotent _) => None
  | _ => err
  end.

(** The state machine after a stretch of the log, up to a fatal error; how many
    entries it got through; and the answers, the fatal one included. *)
Fixpoint replay (sm : option SM) (es : list (option LogEntry))
    : option SM * Z * list (option apply_error) :=
  match es with
  | Some e :: es =>
      let '(sm', err) := effect sm e in
      if fatal err then (sm', 0, [heard err])
      else let '(sm'', k, outs) := replay sm' es in (sm'', 1 + k, heard err :: outs)
  | _ => (sm, 0, [])
  end.

(** The answers sent to the proposers of the indices from [i] on. *)
Fixpoint answers (pending : gmap Z proposal) (i : Z) (outs : list (option apply_error))
    : list (Z * option apply_error) :=
  match outs with
  | [] => []
  | err :: outs =>
      match pending !! i with Some p => [(request p, err)] | None => [] end
      ++ answers pending (i + 1) outs
  end.

Definition stretch n : list (option LogEntry) :=
  take (Z.to_nat (commitIndex (ns n) - lastApplied (ns n)))
    (drop (Z.to_nat (lastApplied (ns n) + 1)) (entries (log (ns n)))).

(** *** The loop against the reference *)

Lemma answers_ext p p' i outs :
  (forall j, i <= j -> p !! j = p' !! j) -> answers p i outs = answers p' i outs.
Proof.
  revert i. induction outs as [|o outs IH]; intros i Hp; [done |]. cbn [answers].
  rewrite (Hp i) by lia. f_equal. apply IH. intros j Hj. apply Hp. lia.
Qed.

Lemma lastApplied_set s i : lastApplied (SetLastApplied s i) = i /\ log (SetLastApplied s i) = log s.
Proof. by destruct s. Qed.

(** The result and error that [applyLoop] acts on. *)
Lemma apply_entry_effect sm e sm' r err :
  apply_entry sm e = (sm', r, err) ->
  effect sm e = (sm', err) /\ bool_decide (r = ApplyResultFatal) = fatal err
  /\ heard err = if decide (r = ApplyResultFatal) then err else proposalErrorForApplyResult r err.
Proof.
  unfold apply_entry, effect. destruct sm as [m|]; [| by intros [= <- <- <-]].
  case_decide; [| by intros [= <- <- <-]].
  pose proof (DeserializeCommand_total (EntryCommand e)) as Ht.
  destruct (DeserializeCommand (EntryCommand e)) as [cmd|x| |]; try done.
  - destruct (Apply m cmd) as [m' [[[] x|x]|]]; by intros [= <- <- <-].
  - by intros [= <- <- <-].
Qed.

Lemma notify_pending n i err :
  results (notifyProposalApplied n i err)
    = results n ++ match pendingProposals n !! i with Some p => [(request p, err)] | None => [] end
  /\ forall j, j <> i -> pendingProposals (notifyProposalApplied n i err) !! j = pendingProposals n !! j.
Proof.
  unfold notifyProposalApplied. destruct (pendingProposals n !! i) as [p|]; cbn.
  - split; [done |]. intros j Hj. by rewrite lookup_delete_ne.
  - by rewrite app_nil_r.
Qed.

Lemma apply_one_spec n i e sm err :
  entries (log (ns n)) !! Z.to_nat i = Some (Some e) -> 0 <= i ->
  effect (stateMachine n) e = (sm, err) ->
  exists n', apply_one n i = Ok (n', negb (fatal err))
    /\ stateMachine n' = sm /\ log (ns n') = log (ns n)
    /\ lastApplied (ns n') = (if fatal err then lastApplied (ns n) else i)
    /\ results n' = results n ++ answers (pendingProposals n) i [heard err]
    /\ forall j, j <> i -> pendingProposals n' !! j = pendingProposals n !! j.
Proof.
  intros He Hi Heff. unfold apply_one, Get.
  assert (i < len (entries (log (ns n)))) by (apply lookup_lt_Some in He; unfold len; lia).
  rewrite decide_False, He by lia.
  destruct (apply_entry (stateMachine n) e) as [[sm' r] err'] eqn:E.
  destruct (apply_entry_effect _ _ _ _ _ E) as (E1 & Hf & Hh). rewrite Heff in E1.
  injection E1 as <- <-. rewrite <- Hf, Hh. cbn [answers]. rewrite app_nil_r.
  destruct r; cbv zeta; eexists; (split; [done |]);
    (match goal with |- context [notifyProposalApplied ?m ?j ?x] =>
       destruct (notify_same m j x) as (_ & _ & -> & ->);
       destruct (notify_pending m j x) as [-> Hp] end);
    cbn [stateMachine ns with_ns results pendingProposals] in *;
    rewrite ?(proj1 (lastApplied_set _ _)), ?(proj2 (lastApplied_set _ _)); done.
Qed.

Lemma apply_loop_spec n a k sm c outs :
  Forall is_Some (entries (log (ns n))) -> 0 <= a -> lastApplied (ns n) = a ->
  a + Z.of_nat k < len (entries (log (ns n))) ->
  replay (stateMachine n) (take k (drop (Z.to_nat (a + 1)) (entries (log (ns n))))) = (sm, c, outs) ->
  exists n', apply_loop n a k = Ok n' /\ stateMachine n' = sm /\ lastApplied (ns n') = a + c
    /\ 0 <= c <= Z.of_nat k
    /\ results n' = results n ++ answers (pendingProposals n) (a + 1) outs.
Proof.
  revert n a sm c outs. induction k as [|k IH]; intros n a sm c outs Hs Ha Hl Hk Hr.
  { rewrite take_0 in Hr. injection Hr as <- <- <-. exists n. cbn [apply_loop answers].
    rewrite Z.add_0_r, app_nil_r. done. }
  destruct (lookup_lt_is_Some_2 (entries (log (ns n))) (Z.to_nat (a + 1))) as [x Hx].
  { unfold len in Hk. lia. }
  rewrite (drop_S _ _ _ Hx) in Hr. cbn [firstn take] in Hr.
  destruct (proj1 (Forall_forall _ _) Hs x) as [e ->]; [by eapply list_elem_of_lookup_2 |].
  cbn [replay] in Hr. destruct (effect (stateMachine n) e) as [sm1 err] eqn:E.
  destruct (apply_one_spec n (a + 1) e sm1 err Hx ltac:(lia) E) as (n1 & H1 & Hsm & Hlog & Hla & Hres & Hp).
  cbn [apply_loop]. rewrite H1. destruct (fatal err); cbn [negb].
  - injection Hr as <- <- <-. exists n1. split_and!; [done | done | lia | lia | lia | done].
  - destruct (replay sm1 _) as [[sm2 c2] outs2] eqn:Er. injection Hr as <- <- <-.
    destruct (IH n1 (a + 1) sm2 c2 outs2) as (n' & H2 & H3 & H4 & H5 & H6); try (rewrite ?Hlog; done || lia).
    { rewrite Hlog, Hsm, <- Er. do 2 f_equal. f_equal. lia. }
    exists n'. split_and!; [done | done | lia | lia | lia |].
    rewrite H6, Hres. cbn [answers]. rewrite app_nil_r, <- app_assoc. do 2 f_equal.
    apply answers_ext. intros j Hj. apply Hp. lia.
Qed.

(** A round of the apply loop feeds the state machine the committed entries it has
    not seen, in order, records how far it got and answers the proposers. *)
Lemma apply_round_spec n sm c outs :
  Forall is_Some (entries (log (ns n))) -> 0 <= lastApplied (ns n) <= commitIndex (ns n) ->
  commitIndex (ns n) < len (entries (log (ns n))) ->
  replay (stateMachine n) (stretch n) = (sm, c, outs) ->
  exists n', apply_round n = Ok n' /\ stateMachine n' = sm
    /\ lastApplied (ns n') = lastApplied (ns n) + c /\ lastApplied (ns n') <= commitIndex (ns n)
    /\ results n' = results n ++ answers (pendingProposals n) (lastApplied (ns n) + 1) outs.
Proof.
  intros Hs Ha Hc Hr. destruct (apply_loop_spec n (lastApplied (ns n))
    (Z.to_nat (commitIndex (ns n) - lastApplied (ns n))) sm c outs) as (n' & H1 & H2 & H3 & H4 & H5);
    [done | lia | done | lia | done |].
  exists n'. split_and!; [done | done | done | lia | done].
Qed.

End Commit.
