(* ===== verification/RaftRace.v ===== *)
(** * handleRequestVote, lock by lock

    Every method of [NodeState] and [RaftLog] takes the lock by itself, and the
    transport runs a goroutine per connection, so that two RPCs interleave between
    the methods they call. A thread is the point it has reached, with its local
    variables. *)

From S2P Require Import Prelude GoBinary RaftCodec RaftLog RaftNode.

Inductive vote_thread :=
| VEnter (args : RequestVoteArgs)                            (* reply := {Term: n.Term()} *)
| VOlder (args : RequestVoteArgs) (term : Z)                 (* args.Term < n.Term() *)
| VNewer (args : RequestVoteArgs) (term : Z)                 (* args.Term > n.Term() *)
| VFollow (args : RequestVoteArgs)                           (* BecomeFollower(args.Term) *)
| VVoted (args : RequestVoteArgs) (term : Z)                 (* votedFor := VotedFor() *)
| VIndex (args : RequestVoteArgs) (term : Z)                 (* Log().LastIndex() *)
| VTerm (args : RequestVoteArgs) (term lastLogIndex : Z)     (* Log().LastTerm() *)
| VGrant (args : RequestVoteArgs) (term : Z)                 (* SetVotedFor(args.CandidateID) *)
| VDone (reply : RequestVoteReply).

Definition thread_step (s : NodeState) (t : vote_thread) : NodeState * vote_thread :=
  match t with
  | VEnter args => (s, VOlder args (currentTerm s))
  | VOlder args term =>
      (s, if decide (rv_Term args < currentTerm s) then VDone (mkRequestVoteReply term false)
          else VNewer args term)
  | VNewer args term =>
      (s, if decide (rv_Term args > currentTerm s) then VFollow args else VVoted args term)
  | VFollow args => (BecomeFollower s (rv_Term args), VVoted args (rv_Term args))
  | VVoted args term =>
      (s, if decide (votedFor s = 0 \/ votedFor s = rv_CandidateID args) then VIndex args term
          else VDone (mkRequestVoteReply term false))
  | VIndex args term => (s, VTerm args term (LastIndex (log s)))
  | VTerm args term lastLogIndex =>
      (s, if decide (rv_LastLogTerm args > LastTerm (log s)
                     \/ rv_LastLogTerm args = LastTerm (log s)
                        /\ rv_LastLogIndex args >= lastLogIndex)
          then VGrant args term else VDone (mkRequestVoteReply term false))
  | VGrant args term =>
      (SetVotedFor s (rv_CandidateID args), VDone (mkRequestVoteReply term true))
  | VDone reply => (s, t)
  end.

(** The longest path through the handler takes eight steps. *)
Definition handler_steps : nat := 8.

Fixpoint run_alone (k : nat) (s : NodeState) (t : vote_thread) : NodeState * vote_thread :=
  match k with
  | O => (s, t)
  | S k => let '(s', t') := thread_step s t in run_alone k s' t'
  end.

Lemma run_alone_S k s t :
  run_alone (S k) s t = run_alone k (thread_step s t).1 (thread_step s t).2.
Proof. cbn [run_alone]. by destruct (thread_step s t). Qed.

Lemma run_alone_done k s r : run_alone k s (VDone r) = (s, VDone r).
Proof. by induction k. Qed.

(** The second half of the handler, from the read of the vote. *)
Lemma run_alone_check k s args term :
  run_alone (4 + k) s (VVoted args term)
  = if decide ((votedFor s = 0 \/ votedFor s = rv_CandidateID args) /\ up_to_date (log s) args = true)
    then (SetVotedFor s (rv_CandidateID args), VDone (mkRequestVoteReply term true))
    else (s, VDone (mkRequestVoteReply term false)).
Proof.
  unfold up_to_date. cbn [run_alone thread_step Nat.add].
  destruct (decide (votedFor s = 0 \/ _)) as [H3|H3]; cbn [run_alone thread_step].
  2: { rewrite run_alone_done. by rewrite decide_False by tauto. }
  destruct (decide (rv_LastLogTerm args > _ \/ _)) as [H4|H4]; cbn [run_alone thread_step];
    rewrite run_alone_done.
  - rewrite decide_True; [done |]. split; [done | by apply bool_decide_eq_true].
  - rewrite decide_False; [done |]. intros [_ H5%bool_decide_eq_true]. contradiction.
Qed.

(** Without interference the thread is the atomic handler. *)
Lemma run_alone_vote s args :
  run_alone handler_steps s (VEnter args)
  = let '(s', reply) := vote s args in (s', VDone reply).
Proof.
  unfold handler_steps, vote. rewrite (run_alone_S 7), (run_alone_S 6). cbv zeta.
  cbn [thread_step fst snd].
  destruct (decide (rv_Term args < currentTerm s)) as [H1|H1]; [by rewrite run_alone_done |].
  rewrite (run_alone_S 5). cbn [thread_step fst snd].
  destruct (decide (rv_Term args > currentTerm s)) as [H2|H2].
  - rewrite (run_alone_S 4). cbn [thread_step fst snd]. rewrite (run_alone_check 0). by case_decide.
  - rewrite (run_alone_check 1). by case_decide.
Qed.

(** ** Two threads on one node *)

(** A schedule says which of the two threads moves. *)
Fixpoint run_both (sched : list bool) (s : NodeState) (t1 t2 : vote_thread)
    : NodeState * vote_thread * vote_thread :=
  match sched with
  | [] => (s, t1, t2)
  | true :: sched => let '(s', t1') := thread_step s t1 in run_both sched s' t1' t2
  | false :: sched => let '(s', t2') := thread_step s t2 in run_both sched s' t1 t2'
  end.
