(* ===== verification/RaftTheorems.v ===== *)
(** * What the Raft implementation guarantees, and where it does not

    Wire formats, log persistence, the handlers' contracts, commitment, and
    election safety with the schedules that break it. *)

From S2P Require Import Prelude GoBinary RaftCodec RaftLog RaftNode RaftElection RaftReplication RaftRace.

(** A state machine without state, for the concrete runs. *)
#[export] Instance unit_machine : StateMachine unit := {|
  Apply _ _ := (tt, None);
  Snapshot _ := Ok [];
  Restore _ _ := Ok tt
|}.

(** ** Elections *)

(** C1: election safety, for nodes that run one handler at a time. In every reachable state of
    a cluster whose nodes have non-zero identifiers, two leaders of the same term are the same
    node, whatever messages are delayed, lost, reordered or repeated, in whatever order the
    nodes run their handlers and whenever they crash and restart from their files, under two
    conditions: every handler of a node runs as one step (the code does not ensure this, it
    locks several times in a handler, and [raft_double_vote] shows two handlers of one node
    that interleave), and a candidate handles a vote reply of a higher term before its own
    term reaches it (see [raft_two_leaders]). *)
Theorem raft_election_safety {SM} `{StateMachine SM} members (c : cluster (SM := SM)) i j n m
    (Hz : 0 ∉ members) (Hr : reachable prompt members c)
    (Hi : nodes c !! i = Some n) (Hj : nodes c !! j = Some m)
    (Hli : state (ns n) = StateLeader) (Hlj : state (ns m) = StateLeader)
    (Ht : currentTerm (ns n) = currentTerm (ns m)) :
  i = j.
Proof.
  eapply (invariant_leaders members Hz c i j n m); [| done | done | done | done | done].
  by apply reachable_invariant.
Qed.

Definition promptb (s : NodeState) (term : Z) (reply : RequestVoteReply) : bool :=
  bool_decide (rvr_Term reply <= term) || bool_decide (rvr_Term reply > currentTerm s).

Lemma promptb_ok s t r : promptb s t r = true -> prompt s t r.
Proof.
  unfold promptb, prompt. intros Hb Ht. apply orb_true_iff in Hb as [Hb|Hb];
    apply bool_decide_eq_true in Hb; lia.
Qed.

(** Node 1 is elected by node 2. *)
Definition elect_one : list action := [ATimeout 1; ARequest 1 2; AVote 0; AReply 0].

Definition role_of (c : cluster (SM := unit)) (i : Z) : option (Z * role) :=
  (fun n => (currentTerm (ns n), state (ns n))) <$> nodes c !! i.

Lemma raft_election_safety_witness :
  exists c : cluster (SM := unit), reachable prompt members3 c /\
    role_of c 1 = Some (1, StateLeader) /\
    forall j m, nodes c !! j = Some m -> state (ns m) = StateLeader ->
      currentTerm (ns m) = 1 -> j = 1.
Proof.
  destruct (run promptb elect_one (boot3 (SM := unit))) as [c|] eqn:E; [| by vm_compute in E].
  exists c.
  assert (reachable prompt members3 c) as Hr.
  { eapply (run_reachable prompt promptb promptb_ok); [apply reachable_initial, boot3_initial | exact E]. }
  assert (role_of c 1 = Some (1, StateLeader)) as Ho.
  { vm_compute in E. injection E as <-. by vm_compute. }
  split; [exact Hr |]. split; [exact Ho |].
  intros j m Hj Hl Ht. unfold role_of in Ho.
  destruct (nodes c !! 1) as [n|] eqn:E1; [| done]. cbn in Ho. injection Ho as Ht1 Hs1.
  assert (0 ∉ members3) as Hz by (apply (bool_decide_unpack _); by vm_compute).
  apply (raft_election_safety members3 c j 1 m n Hz Hr Hj E1 Hl Hs1). congruence.
Defined.

(** Node 1 is a candidate of term 1 and asks node 2; nodes 2 and 3 time out twice and
    are candidates of term 2; node 2 answers node 1 with its term. Node 1 votes for
    node 2 in term 2, which makes node 2 leader; then node 1 reads the old answer,
    [BecomeFollower] forgets the vote, and node 1 votes for node 3 in term 2. *)
Definition elect_two : list action :=
  [ATimeout 1; ARequest 1 2; ATimeout 2; ATimeout 2; ATimeout 3; ATimeout 3;
   AVote 0;                    (* node 2 answers node 1: term 2, no vote *)
   ARequest 2 1; AVote 0;      (* node 1 votes for node 2 in term 2 *)
   AReply 0;                   (* node 2 is leader of term 2 *)
   AReply 2;                   (* node 1 reads the answer to its candidacy of term 1 *)
   ARequest 3 1; AVote 0;      (* node 1 votes for node 3 in term 2 *)
   AReply 0].                  (* node 3 is leader of term 2 *)

(** C37: when late vote replies are handled too, election safety fails: the goroutine of
    [runCandidate] that reads a late vote reply calls [BecomeFollower(reply.Term)]
    without looking at the current term, which resets the vote of that term. Three
    fresh nodes reach a state with two leaders of term 2. *)
Theorem raft_two_leaders :
  exists c : cluster (SM := unit), reachable any_time members3 c /\
    role_of c 2 = Some (2, StateLeader) /\ role_of c 3 = Some (2, StateLeader).
Proof.
  destruct (run (fun _ _ _ => true) elect_two (boot3 (SM := unit))) as [c|] eqn:E;
    [| by vm_compute in E].
  exists c. split.
  - eapply (run_reachable any_time (fun _ _ _ => true)); [done | apply reachable_initial, boot3_initial |].
    exact E.
  - vm_compute in E. injection E as <-. by vm_compute.
Qed.

(** ** Votes *)

Definition valid_vote_args (a : RequestVoteArgs) : Prop :=
  is_uint64 (rv_Term a) /\ is_uint64 (rv_CandidateID a) /\ is_uint64 (rv_LastLogIndex a)
  /\ is_uint64 (rv_LastLogTerm a).

Lemma vote_reply_term s args s' reply :
  vote s args = (s', reply) -> rvr_Term reply = Z.max (rv_Term args) (currentTerm s).
Proof. unfold vote. cbv zeta. repeat case_decide; intros [= <- <-]; simpl; lia. Qed.

Lemma vote_persists s args s' reply :
  vote s args = (s', reply) -> rvr_VoteGranted reply = true -> dataDir s = true ->
  term_dat s' = Some (rv_Term args, rv_CandidateID args).
Proof.
  intros Hv Hg Hd. destruct (vote_cases _ _ _ _ Hv) as [(_ & Hc & _)|[? _]]; [| congruence].
  apply core_file in Hc. unfold vote_file, written in Hc. rewrite Hd in Hc. by injection Hc.
Qed.

Lemma vote_granted_iff s args s' reply :
  vote s args = (s', reply) ->
  rvr_VoteGranted reply = true <->
  currentTerm s <= rv_Term args
  /\ (currentTerm s = rv_Term args -> votedFor s = 0 \/ votedFor s = rv_CandidateID args)
  /\ up_to_date (log s) args = true.
Proof.
  intros Hv. split.
  - intros Hg. destruct (vote_cases _ _ _ _ Hv) as [(_ & _ & H1 & H2 & _ & H3)|[? _]]; [| congruence].
    split; [done |]. split; [| done]. intros E. by apply H2.
  - intros (H1 & H2 & H3). unfold vote in Hv. rewrite decide_False in Hv by lia. cbv zeta in Hv.
    assert (forall t, log (BecomeFollower s t) = log s) as Hlog by by destruct s.
    assert (forall t, votedFor (BecomeFollower s t) = 0) as Hzero by by destruct s.
    destruct (decide (rv_Term args > currentTerm s)).
    + rewrite Hlog, Hzero, decide_True in Hv by auto. by injection Hv as <- <-.
    + rewrite decide_True in Hv by (split; [apply H2; lia | done]). by injection Hv as <- <-.
Qed.

(** the contract of [handleRequestVote], from bytes to bytes. The vote is
    granted exactly when the request's term is not behind, the node has not voted
    for another candidate in that term, and the candidate's log is at least as up to
    date. A granted vote is for the request's term, which becomes the node's, and is
    on disk before the reply is sent; no request moves the node's term back. *)
Theorem raft_vote_contract {SM} `{StateMachine SM} (n : Node SM) args
    (Ha : valid_vote_args args) (Ht : is_uint64 (NodeTerm n)) :
  exists n' reply,
    handleRequestVote n (RequestVoteArgs_Serialize args) = (n', RequestVoteReply_Serialize reply) /\
    DeserializeRequestVoteReply (RequestVoteReply_Serialize reply) = Ok reply /\
    NodeTerm n <= NodeTerm n' /\
    (rvr_VoteGranted reply = true <->
       NodeTerm n <= rv_Term args /\
       (NodeTerm n = rv_Term args ->
          votedFor (ns n) = 0 \/ votedFor (ns n) = rv_CandidateID args) /\
       up_to_date (log (ns n)) args = true) /\
    (rvr_VoteGranted reply = true ->
       NodeTerm n' = rv_Term args /\ votedFor (ns n') = rv_CandidateID args /\
       (dataDir (ns n) = true -> term_dat (ns n') = Some (rv_Term args, rv_CandidateID args))).
Proof.
  destruct Ha as (H1 & H2 & H3 & H4). unfold handleRequestVote.
  rewrite RequestVoteArgs_roundtrip by done. destruct (vote (ns n) args) as [s reply] eqn:Hv.
  exists (with_ns n s), reply. split; [done |]. split.
  { apply RequestVoteReply_roundtrip. rewrite (vote_reply_term _ _ _ _ Hv).
    unfold NodeTerm, is_uint64 in *. lia. }
  unfold NodeTerm. cbn [ns with_ns].
  destruct (vote_cases _ _ _ _ Hv) as [(_ & Hc & Hle & Heq & _ & Hu)|[Hg Hq]].
  - destruct (core_eq _ _ _ _ _ Hc) as (E1 & E2 & _). rewrite E1, E2. split; [done |].
    split; [by apply (vote_granted_iff _ _ _ _ Hv) |]. intros Hg.
    split_and!; try done. intros Hd. by eapply vote_persists.
  - split; [| split; [by apply (vote_granted_iff _ _ _ _ Hv) | congruence]].
    destruct Hq as [_ [[? _]|[(? & _)|Hc]]]; [lia | lia |].
    destruct (core_eq _ _ _ _ _ Hc) as (-> & _). lia.
Qed.

Lemma raft_vote_contract_witness :
  exists n' reply,
    handleRequestVote (fresh (SM := unit) 1 [2; 3])
      (RequestVoteArgs_Serialize (mkRequestVoteArgs 4 2 0 0))
    = (n', RequestVoteReply_Serialize reply) /\ rvr_VoteGranted reply = true /\ NodeTerm n' = 4.
Proof.
  destruct (raft_vote_contract (fresh (SM := unit) 1 [2; 3]) (mkRequestVoteArgs 4 2 0 0))
    as (n' & reply & H1 & _).
  - unfold valid_vote_args, is_uint64. simpl. lia.
  - unfold is_uint64, NodeTerm. simpl. lia.
  - exists n', reply. split; [exact H1 |].
    assert (rvr_VoteGranted reply = true /\ NodeTerm n' = 4) as H2; [| exact H2].
    vm_compute in H1. destruct reply as [t g]. destruct g; [| by inversion H1].
    inversion H1. by vm_compute.
Defined.

(** the handler taken lock by lock, run without interference, is the atomic
    handler: the same state and the same reply. *)
Theorem raft_vote_thread_refines s args :
  run_alone handler_steps s (VEnter args)
  = let '(s', reply) := vote s args in (s', VDone reply).
Proof. apply run_alone_vote. Qed.

(** the handler is not atomic in the code. Two vote requests that arrive on two
    connections interleave between [VotedFor()] and [SetVotedFor()], and a fresh node
    grants its vote to two candidates in one term. *)
Theorem raft_double_vote :
  exists sched s r1 r2,
    run_both sched NewNodeState (VEnter (mkRequestVoteArgs 1 2 0 0)) (VEnter (mkRequestVoteArgs 1 3 0 0))
    = (s, VDone r1, VDone r2) /\
    rvr_VoteGranted r1 = true /\ rvr_VoteGranted r2 = true /\ rvr_Term r1 = rvr_Term r2.
Proof.
  exists (repeat true 5 ++ repeat false 4 ++ repeat true 3 ++ repeat false 4).
  do 3 eexists. split; [vm_compute; reflexivity | done].
Qed.

(** ** Replication *)

(** C2: replication converges and is right. A leader repeats AppendEntries, over the wire, to a
    follower that is not ahead in its term and whose log matches the leader's; the follower's
    transport is up and handles nothing else meanwhile. If the leader's log fits into one
    request (at most 10000 entries after the first, in a frame of 64 MB, no entry of 4 GB, and
    numbers of their width), it needs at most as many exchanges as the index it starts from;
    then the leader's log is a prefix of the follower's and the leader's match index is its
    last index. *)
Theorem raft_replication_converges {SM} `{StateMachine SM} (n follower : Node SM) peer
    (Hin : in_step n (ns follower) peer) (Hc : carried n follower) :
  exists n' follower',
    sync (Z.to_nat (GetNextIndex (ns n) peer)) n follower peer = Some (n', follower') /\
    entries (log (ns n)) `prefix_of` entries (log (ns follower')) /\
    GetMatchIndex (ns n') peer = LastIndex (log (ns n)).
Proof.
  pose proof Hin as (_ & _ & _ & _ & Hn & _). apply (sync_converges _ n follower peer Hin Hc). lia.
Qed.

(** A leader of term 3 and a follower with two entries of term 2 the leader lacks. *)
Definition example_leader : Node unit :=
  let l := mkRaftLog [Some noop0; Some (mkLogEntry 1 1 x00 []); Some (mkLogEntry 2 3 x02 [])] None in
  mkNode 1 [2] (mkNodeState 3 1 l StateLeader 0 0 {[2 := 3]} {[2 := 0]} 1 false None None) None ∅ [].

Definition example_follower : NodeState :=
  let l := mkRaftLog [Some noop0; Some (mkLogEntry 1 1 x00 []); Some (mkLogEntry 2 2 x00 [xff]);
                      Some (mkLogEntry 3 2 x00 [])] None in
  mkNodeState 2 0 l StateFollower 0 0 ∅ ∅ 0 false None None.

Lemma example_in_step : in_step example_leader example_follower 2.
Proof.
  unfold in_step, good_log. cbn [ns log example_leader example_follower entries].
  split_and!; try done; try (repeat constructor; eauto; fail); try (by vm_compute).
  intros i x y Hx Hy Ht.
  destruct i as [|[|[|i]]]; simpl in Hx, Hy; try done;
    injection Hx as <-; injection Hy as <-; simpl in Ht; try lia; done.
Qed.

Definition follower_node (s : NodeState) : Node unit := mkNode 2 [1] s None ∅ [].

Lemma example_carried : carried example_leader (follower_node example_follower).
Proof.
  constructor; cbn; try done; try (repeat constructor; unfold valid_entry, is_uint64; cbn; lia).
  intros es k Hes.
  assert (len (concat (entry_frame <$> es)) <= 25 * len es) as Hl.
  { assert (Forall (fun o => match o with Some e => EntryCommand e = [] | None => True end) (Some <$> es)) as Hf
      by (rewrite Hes; apply Forall_drop; by repeat constructor).
    clear Hes. induction es as [|e es IH]; [done |]. apply Forall_cons in Hf as [He Hf]. rewrite fmap_cons, len_cons. cbn [concat].
    assert (len (entry_frame e) = 25) as Hfr.
    { unfold entry_frame. cbv zeta. rewrite len_app, len_LogEntry_Serialize, He. done. }
    rewrite len_app, Hfr. specialize (IH Hf). lia. }
  apply (f_equal length) in Hes. rewrite length_fmap, length_drop in Hes. cbn in Hes. unfold MaxFrame, len in *. lia.
Qed.

Lemma raft_replication_converges_witness :
  exists n' follower', sync 3 example_leader (follower_node example_follower) 2 = Some (n', follower') /\
    entries (log (ns example_leader)) `prefix_of` entries (log (ns follower')) /\
    GetMatchIndex (ns n') 2 = 2.
Proof. apply (raft_replication_converges example_leader (follower_node example_follower) 2 example_in_step example_carried). Defined.

(** A follower that lacks more than 10000 entries is never caught up. The receiver takes a
    request with more entries for corrupted and answers a failure, at which the leader goes
    further back: however often it tries, no exchange succeeds. *)
Theorem raft_far_behind_stuck {SM} `{StateMachine SM} (n follower : Node SM) peer k
    (Hlead : state (ns n) = StateLeader) (Hg : good_log (log (ns n)))
    (Ht : 0 <= currentTerm (ns follower) <= currentTerm (ns n)) (Hu : is_uint64 (currentTerm (ns n)))
    (Hn : 1 <= GetNextIndex (ns n) peer) (Hfar : GetNextIndex (ns n) peer + 10000 < len (entries (log (ns n)))) :
  sync k n follower peer = None.
Proof. by apply sync_stuck. Qed.

Definition long_leader : Node unit :=
  let l := mkRaftLog (Some noop0 :: replicate 10002 (Some (mkLogEntry 1 1 x00 []))) None in
  mkNode 1 [2] (mkNodeState 1 1 l StateLeader 0 0 {[2 := 1]} {[2 := 0]} 1 false None None) None ∅ [].
Definition new_follower : Node unit :=
  follower_node (mkNodeState 0 0 NewRaftLog StateFollower 0 0 ∅ ∅ 0 false None None).

Lemma raft_far_behind_stuck_witness :
  len (entries (log (ns long_leader))) = 10003 /\ forall k, sync k long_leader new_follower 2 = None.
Proof.
  assert (len (entries (log (ns long_leader))) = 10003) as Hl.
  { unfold len. cbn [long_leader ns log entries length]. rewrite length_replicate. reflexivity. }
  split; [exact Hl |]. intros k. apply (raft_far_behind_stuck long_leader new_follower 2 k); try done.
  split; [done |]. split; [| rewrite Hl; lia]. constructor; [by eexists |]. apply Forall_replicate. by eexists.
Defined.

(** the conflict index of a rejected AppendEntries is the first index of the
    stretch of the conflicting term that ends at [PrevLogIndex]. *)
Theorem raft_conflict_index l prev (Hp : 1 <= prev) :
  let t := TermAt l prev in
  let c := conflict_index l t (Z.to_nat prev) in
  1 <= c <= prev /\ (forall k, c <= k <= prev -> TermAt l k = t)
  /\ (c = 1 \/ TermAt l (c - 1) <> t).
Proof.
  cbv zeta. set (i := Z.to_nat (prev - 1)).
  assert (Z.to_nat prev = S i) as -> by lia. assert (prev = Z.of_nat (S i)) as Hi by lia.
  clearbody i. subst prev. by apply conflict_index_spec.
Qed.

Lemma raft_conflict_index_witness :
  conflict_index (log example_follower) 2 3 = 2 /\
  forall k, 2 <= k <= 3 -> TermAt (log example_follower) k = 2.
Proof.
  split; [by vm_compute |]. apply (raft_conflict_index (log example_follower) 3). lia.
Defined.

(** C35: [updateCommitIndex] never moves the commit index back; it moves it to the
    highest index of the current term that a majority of the cluster has, and
    leaves it alone when there is none. *)
Theorem raft_commit_rule {SM} `{StateMachine SM} (n : Node SM) :
  let s := ns n in
  let c' := commitIndex (ns (updateCommitIndex n)) in
  let by_majority i :=
    TermAt (log s) i = currentTerm s /\
    (peers n = [] \/ 2 * replicas s i > len (peers n) + 1) in
  (c' = commitIndex s \/ commitIndex s < c' <= LastIndex (log s) /\ by_majority c') /\
  forall i, c' < i <= LastIndex (log s) -> ~ by_majority i.
Proof.
  cbv zeta. destruct (updateCommitIndex_spec n) as [H1 H2].
  assert (forall i, committable n i = true <->
    TermAt (log (ns n)) i = currentTerm (ns n) /\
    (peers n = [] \/ 2 * replicas (ns n) i > len (peers n) + 1)) as Hc.
  { intros i. unfold committable. rewrite andb_true_iff, orb_true_iff, !bool_decide_eq_true.
    assert (len (peers n) = 0 <-> peers n = []) as ->.
    { split; [apply len_zero_nil | by intros ->]. }
    assert (replicas (ns n) i > (len (peers n) + 1) / 2 <-> 2 * replicas (ns n) i > len (peers n) + 1) as ->;
      [| done].
    pose proof (Z.mul_div_le (len (peers n) + 1) 2). pose proof (Z.mul_succ_div_gt (len (peers n) + 1) 2).
    lia. }
  split.
  - destruct H1 as [->|[Hr Hk]]; [by left |]. right. split; [done | by apply Hc].
  - intros i Hi Hb. apply Hc in Hb. rewrite H2 in Hb by done. done.
Qed.

(** C34: a round of [applyLoop] returns, gives the state machine exactly the
    committed entries it has not yet had, in log order and up to the first fatal
    error, sets [lastApplied] to the last one it got through, never beyond the commit
    index, and answers each pending proposal of these entries with what became of it. *)
Theorem raft_apply_refines {SM} `{StateMachine SM} (n : Node SM) sm c outs
    (Hs : Forall is_Some (entries (log (ns n))))
    (Ha : 0 <= lastApplied (ns n) <= commitIndex (ns n))
    (Hc : commitIndex (ns n) < len (entries (log (ns n))))
    (Hr : replay (stateMachine n) (stretch n) = (sm, c, outs)) :
  exists n', apply_round n = Ok n' /\ stateMachine n' = sm /\
    lastApplied (ns n') = lastApplied (ns n) + c /\ lastApplied (ns n') <= commitIndex (ns n) /\
    results n' = results n ++ answers (pendingProposals n) (lastApplied (ns n) + 1) outs.
Proof. by apply apply_round_spec. Qed.

(** The example's leader has committed its two entries and applied the first; a
    client waits for the second. *)
Definition example_pending : Node unit :=
  mkNode 1 [2] (SetLastApplied (SetCommitIndex (ns example_leader) 2) 1) (Some tt)
    {[2 := mkProposal 77 (mkCommand x00 x00 [] [] [] [] [] [])]} [].

Lemma raft_apply_refines_witness :
  exists n', apply_round example_pending = Ok n' /\ lastApplied (ns n') = 2 /\
    results n' = [(77, None)].
Proof.
  destruct (replay (stateMachine example_pending) (stretch example_pending)) as [[sm c] outs] eqn:E.
  destruct (raft_apply_refines example_pending sm c outs) as (n' & H1 & _ & H2 & _ & H3).
  - repeat constructor; eauto.
  - simpl. lia.
  - by vm_compute.
  - exact E.
  - exists n'. split; [exact H1 |]. rewrite H2, H3. vm_compute in E. by injection E as _ <- <-.
Defined.

(** ** The log file *)

Definition new_log : RaftLog := mkRaftLog [Some noop0] (Some (mkFile [] [])).

(** C3: the log file is a faithful record. Whatever appends of entries of at most 10 MB,
    truncations of either end and restarts a log with a file goes through, they succeed, and
    loading the file then gives for every index the entry appended last with it, and the write
    offset where it was. If moreover the entries were appended at the place of their index and
    nothing was cut off in front (as by an installed snapshot), the log in memory is a prefix
    of what is loaded, which has no holes. *)
Theorem raft_log_reload os (Hs : Forall storable (appended os)) :
  exists l f es, log_execs os new_log = Ok l /\ file l = Some f /\ loadFromDisk (contents f) = Ok (es, f) /\
    (forall i, 1 <= i -> mjoin (es !! Z.to_nat i) = latest (appended os) i) /\
    (in_place os new_log -> entries l `prefix_of` es /\ Forall is_Some es).
Proof.
  destruct (log_execs_file os new_log [] ltac:(done) Hs eq_refl) as (l & Hx & Hf). cbn [app] in Hf.
  pose proof (loadFromDisk_frames (appended os) Hs) as Hload. cbv zeta in Hload.
  do 3 eexists. split; [exact Hx |]. split; [exact Hf |]. unfold contents at 1. cbn [before after]. rewrite app_nil_r.
  split; [exact Hload |]. split; [intros i Hi; by apply build_latest |]. intros Hp.
  pose proof (in_place_reachable os new_log l reach_new Hp Hs Hx) as Hr.
  destruct (persisted_reload l _ (reachable_persisted l Hr) Hf) as (es & H1 & H2 & H3 & _).
  unfold contents in H1. cbn [before after] in H1. rewrite app_nil_r, Hload in H1. by injection H1 as <-.
Qed.

(** An entry longer than 10 MB, which Append accepts, ends the loading: it and all entries
    after it are gone after a restart. *)
Theorem raft_large_entry_lost es e rest (Hs : Forall storable es) (Hl : MaxEntry < len (LogEntry_Serialize e) < 2 ^ 32) :
  exists f, loadFromDisk (concat (entry_frame <$> es) ++ entry_frame e ++ rest) = Ok (build_entries (foldl note_entry (∅, 0) es), f).
Proof. by apply loadFromDisk_large. Qed.

Definition log1 : RaftLog :=
  Append (mkRaftLog [Some noop0] (Some (mkFile [] []))) (mkLogEntry 1 1 x00 [x07]).
Definition log2 : RaftLog := Append log1 (mkLogEntry 2 1 x00 [x08]).

Lemma log2_reachable : log_reachable log2.
Proof.
  assert (forall i c, 1 <= i <= 2 -> storable (mkLogEntry i 1 x00 [c])) as Hst.
  { intros i c Hi. unfold storable, valid_entry, is_uint64, MaxEntry, len. simpl. lia. }
  unfold log2, log1. eapply reach_step; [eapply reach_step; [apply reach_new |] |];
    apply step_append; try (apply Hst; lia); done.
Qed.

Lemma raft_log_reload_witness :
  let os := [LAppend (mkLogEntry 1 1 x00 [x07]); LAppend (mkLogEntry 2 1 x00 [x08]); LTruncateFrom 2; LAppend (mkLogEntry 2 2 x00 [x09]); LReload] in
  exists l f es, log_execs os new_log = Ok l /\ file l = Some f /\ loadFromDisk (contents f) = Ok (es, f) /\
    mjoin (es !! 2%nat) = Some (mkLogEntry 2 2 x00 [x09]) /\ entries l `prefix_of` es.
Proof.
  intros os. assert (Forall storable (appended os)) as Hs.
  { assert (forall i t c, 0 <= i <= 2 -> 0 <= t <= 2 -> storable (mkLogEntry i t x00 [c])) as Hst.
    { intros i t c Hi Ht. unfold storable, valid_entry, is_uint64, MaxEntry, len. simpl. lia. }
    unfold os, appended. cbn [omap list_omap]. repeat apply Forall_cons_2; try apply Forall_nil_2; apply Hst; lia. }
  destruct (raft_log_reload os Hs) as (l & f & es & H1 & H2 & H3 & H4 & H5). exists l, f, es.
  split_and!; [exact H1 | exact H2 | exact H3 | exact (H4 2 ltac:(lia)) |].
  apply H5. unfold os. repeat (cbn [in_place log_exec]; split; [done |]; intros ? [= <-]). cbn [in_place]. done.
Defined.

(** truncation is not persisted, and a restart takes the whole file for
    committed. A conflict that cuts the log at [k] leaves the entries in the file;
    after a restart they are back, and the commit index covers them. *)
Theorem raft_truncation_undone l k f td la
    (Hr : log_reachable l) (Hk : 1 <= k < len (entries l))
    (Hl : len (entries l) < 2 ^ 63) (Hf : file (TruncateFrom l k) = Some f) :
  exists es, loadFromDisk (contents f) = Ok (es, f) /\ entries l `prefix_of` es /\
    (len es < 2 ^ 63 -> exists s, restart (contents f) td la = Ok s /\
       entries (log s) = es /\ len (entries l) - 1 <= commitIndex s).
Proof.
  assert (file l = Some f) as Hfl by (unfold TruncateFrom in Hf; by case_decide).
  destruct (persisted_reload l f (reachable_persisted l Hr) Hfl) as (es & H1 & H2 & _).
  exists es. split; [done |]. split; [done |]. intros Hes. unfold restart, NewRaftLogWithDir.
  rewrite H1. destruct (default (0, 0) td) as [t v]. eexists. split; [done |].
  cbn [commitIndex log entries]. split; [done |].
  unfold LastIndex, uint64. cbn [entries]. apply prefix_length in H2.
  rewrite Z.mod_small; unfold len in *; lia.
Qed.

Lemma raft_truncation_undone_witness :
  exists f s, file (TruncateFrom log2 1) = Some f /\ entries (TruncateFrom log2 1) = [Some noop0] /\
    restart (contents f) None None = Ok s /\ 2 <= commitIndex s.
Proof.
  destruct (file (TruncateFrom log2 1)) as [f|] eqn:E; [| done].
  destruct (raft_truncation_undone log2 1 f None None log2_reachable) as (es & H1 & _ & H3);
    [unfold len; simpl; lia | unfold len; simpl; lia | exact E |].
  destruct H3 as (s & H3 & _ & H4).
  { vm_compute in E. injection E as <-. vm_compute in H1. injection H1 as <-. by vm_compute. }
  exists f, s. split; [done |]. split; [done |]. split; [done |]. exact H4.
Defined.

(** a frame that a crash cut short makes the log unloadable: after any sequence
    of complete frames, a non-empty proper prefix of another one is an error, so the
    node does not start again. *)
Theorem raft_torn_frame es e k
    (Hs : Forall storable es) (He : storable e) (Hk : (0 < k < length (entry_frame e))%nat) :
  exists err, NewRaftLogWithDir (concat (entry_frame <$> es) ++ take k (entry_frame e)) = Err err.
Proof.
  unfold NewRaftLogWithDir, loadFromDisk. set (r := take k (entry_frame e)).
  destruct (read_frames_torn 0 e k (foldl note_entry (∅, 0) es) He Hk) as [err Herr].
  assert (read_frames (length es + 1) (concat (entry_frame <$> es) ++ r) (∅, 0) = Err err) as H1.
  { rewrite read_frames_app by done. exact Herr. }
  exists err. rewrite (read_frames_mono (length es + 1)).
  - by rewrite H1.
  - rewrite length_app. pose proof (length_frames es).
    assert (length r <> 0)%nat by (subst r; rewrite length_take; lia). lia.
  - by rewrite H1.
Qed.

Lemma raft_torn_frame_witness :
  exists err, NewRaftLogWithDir
    (concat (entry_frame <$> [mkLogEntry 1 1 x00 [x07]]) ++ take 7 (entry_frame (mkLogEntry 2 1 x00 [])))
    = Err err.
Proof.
  assert (forall i c, 1 <= i <= 2 -> len c <= 1 -> storable (mkLogEntry i 1 x00 c)) as Hst.
  { intros i c Hi Hc. unfold storable, valid_entry, is_uint64, MaxEntry. simpl. lia. }
  apply (raft_torn_frame [mkLogEntry 1 1 x00 [x07]] (mkLogEntry 2 1 x00 []) 7).
  - apply Forall_singleton, Hst; [lia | by vm_compute].
  - apply Hst; [lia | by vm_compute].
  - vm_compute. lia.
Defined.

(** ** Wire formats *)

(** C39: every RPC message survives the wire: arguments and replies of RequestVote,
    AppendEntries (with at most 10000 entries, none of 4 GB) and InstallSnapshot (with less than
    4 GB of data, by the 36 bytes of its header), with their numbers of 64 bits. *)
Theorem raft_rpc_roundtrip v vr a ar i ir
    (Hv : valid_vote_args v) (Hvr : is_uint64 (rvr_Term vr)) (Ha : valid_append a)
    (Har : is_uint64 (aer_Term ar) /\ is_uint64 (aer_ConflictTerm ar) /\ is_uint64 (aer_ConflictIndex ar))
    (Hi : is_uint64 (is_Term i) /\ is_uint64 (is_LeaderID i) /\ is_uint64 (is_LastIncludedIndex i)
          /\ is_uint64 (is_LastIncludedTerm i) /\ len (is_Data i) + 36 < 2 ^ 32)
    (Hir : is_uint64 (isr_Term ir)) :
  DeserializeRequestVoteArgs (RequestVoteArgs_Serialize v) = Ok v /\
  DeserializeRequestVoteReply (RequestVoteReply_Serialize vr) = Ok vr /\
  DeserializeAppendEntriesArgs (AppendEntriesArgs_Serialize a) = Ok a /\
  DeserializeAppendEntriesReply (AppendEntriesReply_Serialize ar) = Ok ar /\
  DeserializeInstallSnapshotArgs (InstallSnapshotArgs_Serialize i) = Ok i /\
  DeserializeInstallSnapshotReply (InstallSnapshotReply_Serialize ir) = Ok ir.
Proof.
  destruct Hv as (? & ? & ? & ?), Har as (? & ? & ?), Hi as (? & ? & ? & ? & ?).
  split_and!; [by apply RequestVoteArgs_roundtrip | by apply RequestVoteReply_roundtrip
    | by apply AppendEntriesArgs_roundtrip | by apply AppendEntriesReply_roundtrip
    | by apply InstallSnapshotArgs_roundtrip | by apply InstallSnapshotReply_roundtrip].
Qed.

Lemma raft_rpc_roundtrip_witness :
  let a := mkAppendEntriesArgs 3 1 4 2 [mkLogEntry 5 3 x00 [x01; x02]; mkLogEntry 6 3 x02 []] 4 in
  DeserializeAppendEntriesArgs (AppendEntriesArgs_Serialize a) = Ok a.
Proof.
  intros a.
  destruct (raft_rpc_roundtrip (mkRequestVoteArgs 1 2 3 4) (mkRequestVoteReply 1 true) a
    (mkAppendEntriesReply 1 false 2 3) (mkInstallSnapshotArgs 1 2 3 4 [x05]) (mkInstallSnapshotReply 9))
    as (_ & _ & H & _);
    [.. | exact H]; unfold valid_vote_args, valid_append, is_uint64; cbn; try lia.
  - split_and!; try lia; [by vm_compute |].
    repeat constructor; unfold valid_entry, is_uint64, len; cbn; lia.
  - split_and!; try lia. by vm_compute.
Defined.

(** every replicated command survives the log: the command itself, the
    configuration update in whatever order its map is visited, and the ACL update
    with its rules. *)
Theorem raft_command_roundtrip c g pairs a
    (Hc : valid_command c) (Hg : valid_config g) (Hv : visits (ConfigData_ g) pairs)
    (Ha : valid_acl a) :
  DeserializeCommand (Command_Serialize c) = Ok c /\
  DeserializeConfigCommand (SerializeConfigCommand g pairs) = Ok g /\
  DeserializeACLCommand (SerializeACLCommand a) = Ok a.
Proof.
  split_and!; [by apply Command_roundtrip | by apply ConfigCommand_roundtrip
    | by apply ACLCommand_roundtrip].
Qed.

Lemma raft_command_roundtrip_witness :
  let a := mkACLCommand (str "deny") [mkACLRuleData (str "*") (str "cn=a") (str "subtree")
             [str "read"; str "write"] [] true] None (-1) 7 in
  DeserializeACLCommand (SerializeACLCommand a) = Ok a.
Proof.
  intros a.
  destruct (raft_command_roundtrip (mkCommand x00 x00 (str "cn=x") [] [] [x01] [] [])
    (mkConfigCommand (str "server") {[str "k" := str "v"]} 3) [(str "k", str "v")] a)
    as (_ & _ & H); [.. | exact H];
    unfold valid_command, valid_config, valid_acl, valid_rule, short, is_uint64, visits;
    cbn [DN OldDN EntryDN EntryData ConfigData ACLData Section_ ConfigData_ ConfigVersion
      DefaultPolicy Rules Rule RuleIndex ACLVersion a].
  - by vm_compute.
  - split_and!; try (by vm_compute). by apply map_Forall_singleton.
  - by rewrite map_to_list_singleton.
  - repeat (split || constructor); by vm_compute.
Defined.

(** no bytes from the network or the log make a decoder panic: every one returns
    a value or an error. The two decoders that slice with 32-bit arithmetic need the
    data to be shorter than [2^32], which the transport's 64 MB limit gives. *)
Theorem raft_decoders_total data :
  returns (DeserializeRequestVoteArgs data) /\ returns (DeserializeRequestVoteReply data) /\
  returns (DeserializeAppendEntriesArgs data) /\ returns (DeserializeAppendEntriesReply data) /\
  returns (DeserializeInstallSnapshotReply data) /\ returns (DeserializeCommand data) /\
  returns (DeserializeConfigCommand data) /\ returns (DeserializeACLCommand data) /\
  (len data < 2 ^ 32 ->
     returns (DeserializeLogEntry data) /\ returns (DeserializeInstallSnapshotArgs data)).
Proof.
  split; [by unfold DeserializeRequestVoteArgs; case_decide |].
  split; [by unfold DeserializeRequestVoteReply; case_decide |].
  split; [apply DeserializeAppendEntriesArgs_total |].
  split; [by unfold DeserializeAppendEntriesReply; case_decide |].
  split; [by unfold DeserializeInstallSnapshotReply; case_decide |].
  split; [apply DeserializeCommand_total |]. split; [apply DeserializeConfigCommand_total |].
  split; [apply DeserializeACLCommand_total |]. intros Hl.
  split; [by apply DeserializeLogEntry_total | by apply DeserializeInstallSnapshotArgs_total].
Qed.

(** a string of 64 KB or more does not survive: its length is cut to 16 bits
    while all its bytes are written, so the reader takes a prefix for the string and
    the rest of it for the next field. *)
Theorem raft_long_string_corrupts s rest (Hs : 2 ^ 16 <= len s) :
  exists s' rest', readString (writeString s ++ rest) = (Ok s', rest') /\
    len s' = len s mod 2 ^ 16 /\ len s' < len s /\ rest' <> rest.
Proof.
  rewrite readString_truncates.
  pose proof (Z.mod_pos_bound (len s) (2 ^ 16) ltac:(lia)) as Hr.
  set (m := len s mod 2 ^ 16) in *. clearbody m.
  assert (Z.to_nat m < length s)%nat as Hm by (unfold len in Hs; lia).
  assert (len (take (Z.to_nat m) s) = m) as Hl by (unfold len; rewrite length_take; lia).
  do 2 eexists. split; [done |]. split; [done |].
  split; [rewrite Hl; unfold len; lia |]. intros He. apply (f_equal length) in He.
  rewrite length_app, length_drop in He. lia.
Qed.

Lemma raft_long_string_corrupts_witness :
  exists s' rest', readString (writeString (repeat x61 (Z.to_nat 65536)) ++ [x00]) = (Ok s', rest') /\
    len s' = 0.
Proof.
  destruct (raft_long_string_corrupts (repeat x61 (Z.to_nat 65536)) [x00])
    as (s' & rest' & H1 & H2 & _).
  - unfold len. rewrite repeat_length. lia.
  - exists s', rest'. split; [exact H1 |]. rewrite H2. unfold len.
    by rewrite repeat_length, Z2Nat.id by lia.
Defined.

(** ** Snapshots *)

(** installing a snapshot that reaches beyond the follower's log empties the
    log, whose positions are the indices; from then on the follower refuses every
    AppendEntries of the same term that continues from an index above 0, the
    snapshot's own last index included, and asks for an earlier one. *)
Theorem raft_snapshot_strands_follower {SM} `{StateMachine SM} (n : Node SM) args a
    (Ht : NodeTerm n <= is_Term args)
    (Hr : restore_snapshot (stateMachine n) (is_Data args) <> None)
    (Hi : is_LastIncludedIndex args + 1 > len (entries (log (ns n))))
    (Hu : 0 <= is_LastIncludedIndex args < 2 ^ 64 - 1)
    (Hat : ae_Term a = NodeTerm (install n args).1)
    (Hp : 0 < ae_PrevLogIndex a < 2 ^ 64) (Hpt : ae_PrevLogTerm a <> 0) :
  let n' := (install n args).1 in
  entries (log (ns n')) = [] /\ LastIndex (log (ns n')) = 2 ^ 64 - 1 /\
  aer_Success (append (ns n') a).2 = false /\ log (append (ns n') a).1 = log (ns n').
Proof.
  cbv zeta. set (n' := (install n args).1) in *.
  assert (entries (log (ns n')) = []) as He.
  { subst n'. unfold install. cbv zeta. unfold NodeTerm in Ht. rewrite decide_False by lia.
    destruct (restore_snapshot _ _) as [sm|]; [| done].
    set (s := SetLeaderID _ _).
    assert (log s = log (ns n)) as Hl by (subst s; case_bool_decide; by destruct (ns n)).
    cbn [fst ns]. rewrite uint64_id by (unfold is_uint64; lia).
    assert (log (SetLastApplied (SetCommitIndex s (is_LastIncludedIndex args))
              (is_LastIncludedIndex args)) = log (ns n)) as Hl2 by (rewrite <- Hl; by destruct s).
    rewrite Hl2. unfold TruncateBefore. rewrite decide_False, decide_True by lia.
    by destruct s. }
  assert (LastIndex (log (ns n')) = 2 ^ 64 - 1) as Hlast.
  { unfold LastIndex. by rewrite He. }
  split; [done |]. split; [done |]. rewrite append_accepted by (unfold NodeTerm in Hat; lia).
  unfold append_checked. cbv zeta. rewrite log_accepted, Hlast, decide_False by lia.
  assert (TermAt (log (ns n')) (ae_PrevLogIndex a) = 0) as ->.
  { unfold TermAt. rewrite He, decide_True by (rewrite len_nil; lia). done. }
  rewrite decide_True by (split; [lia | congruence]). cbn [fst snd aer_Success].
  by rewrite log_accepted.
Qed.

Lemma raft_snapshot_strands_follower_witness :
  let n' := (install (fresh (SM := unit) 2 [1]) (mkInstallSnapshotArgs 1 1 5 1 [])).1 in
  aer_Success (append (ns n') (mkAppendEntriesArgs 1 1 5 1 [mkLogEntry 6 1 x00 []] 6)).2 = false.
Proof.
  apply (raft_snapshot_strands_follower (fresh (SM := unit) 2 [1]) (mkInstallSnapshotArgs 1 1 5 1 [])
    (mkAppendEntriesArgs 1 1 5 1 [mkLogEntry 6 1 x00 []] 6));
    unfold NodeTerm; simpl; try lia; try done.
Defined.
