(* ===== verification/GoStrings.v ===== *)
(** * Go's [strings] package and maps, as far as the source uses them

    Case mapping is exact on ASCII. On other strings it is given by the Unicode
    tables of the Go distribution, a parameter here; so is the order in which a map
    is visited. *)

From S2P Require Import Prelude.

Class UnicodeTables := {
  lower_unicode : gostring -> gostring;
  fold_unicode : gostring -> gostring -> bool
}.

(** [for k, v := range m] visits every pair once, in an order Go leaves open. *)
Class MapIteration := {
  range {K : Type} `{Countable K} {V : Type} : gmap K V -> list (K * V);
  range_perm {K : Type} `{Countable K} {V : Type} (m : gmap K V) : range m ≡ₚ map_to_list m
}.

Section MapIteration.
Context `{MapIteration} {K : Type} `{Countable K} {V : Type}.
Implicit Types m : gmap K V.

Lemma elem_of_range m k v : (k, v) ∈ range m <-> m !! k = Some v.
Proof. rewrite range_perm. apply elem_of_map_to_list. Qed.

Lemma range_keys m : NoDup (range m).*1.
Proof. rewrite range_perm. apply NoDup_fst_map_to_list. Qed.

Lemma range_map m : list_to_map (range m) = m.
Proof.
  rewrite (list_to_map_proper (range m) (map_to_list m)) by (apply range_keys || apply range_perm).
  apply list_to_map_to_list.
Qed.
End MapIteration.

Definition comma : byte := x2c.

Definition is_ascii (s : gostring) : bool := forallb (fun b => bool_decide (bZ b < 128)) s.

Definition lower_byte (b : byte) : byte :=
  if decide (65 <= bZ b <= 90) then u8 (bZ b + 32) else b.

Definition lower_ascii (s : gostring) : gostring := lower_byte <$> s.

Definition ToLower `{UnicodeTables} (s : gostring) : gostring :=
  if is_ascii s then lower_ascii s else lower_unicode s.

Definition EqualFold `{UnicodeTables} (s t : gostring) : bool :=
  if is_ascii s && is_ascii t then bool_decide (lower_ascii s = lower_ascii t)
  else fold_unicode s t.

(** [len(s) >= len(suffix) && s[len(s)-len(suffix):] == suffix]. *)
Definition HasSuffix (s suffix : gostring) : bool :=
  bool_decide (len s >= len suffix)
  && bytes_eqb (drop (Z.to_nat (len s - len suffix)) s) suffix.

Definition TrimSuffix (s suffix : gostring) : gostring :=
  if HasSuffix s suffix then take (Z.to_nat (len s - len suffix)) s else s.

Definition contains_byte (s : gostring) (b : byte) : bool := existsb (byte_eqb b) s.

Definition HasPrefix (s prefix : gostring) : bool := bytes_eqb (take (length prefix) s) prefix.

(** The offset of the first occurrence, or -1. *)
Fixpoint Index (s sub : gostring) : Z :=
  if HasPrefix s sub then 0
  else match s with
       | [] => -1
       | _ :: s => let i := Index s sub in if decide (i < 0) then -1 else i + 1
       end.

Definition Contains (s sub : gostring) : bool := bool_decide (0 <= Index s sub).

(** [bytes.Compare]. *)
Fixpoint Compare (a b : bytes) : Z :=
  match a, b with
  | [], [] => 0
  | [], _ => -1
  | _, [] => 1
  | x :: a, y :: b =>
      if decide (bZ x < bZ y) then -1 else if decide (bZ y < bZ x) then 1 else Compare a b
  end.

(** The white space of Unicode, in UTF-8. *)
Definition spaces : list bytes :=
  [[x09]; [x0a]; [x0b]; [x0c]; [x0d]; [x20]; [xc2; x85]; [xc2; xa0]; [xe1; x9a; x80];
   [xe2; x80; x80]; [xe2; x80; x81]; [xe2; x80; x82]; [xe2; x80; x83]; [xe2; x80; x84];
   [xe2; x80; x85]; [xe2; x80; x86]; [xe2; x80; x87]; [xe2; x80; x88]; [xe2; x80; x89];
   [xe2; x80; x8a]; [xe2; x80; xa8]; [xe2; x80; xa9]; [xe2; x80; xaf]; [xe2; x81; x9f];
   [xe3; x80; x80]].

(** Strips any of [ps] from the front, as long as there is one; every strip takes a
    byte, so the length of [s] is enough fuel. *)
Fixpoint strip (fuel : nat) (ps : list bytes) (s : gostring) : gostring :=
  match fuel with
  | O => s
  | S fuel =>
      match List.find (HasPrefix s) ps with
      | Some p => strip fuel ps (drop (length p) s)
      | None => s
      end
  end.

Definition TrimSpace (s : gostring) : gostring :=
  let l := strip (length s) spaces s in
  rev (strip (length l) (rev (A := byte) <$> spaces) (rev l)).

(** ** Suffixes *)

Lemma HasSuffix_app p s : HasSuffix (p ++ s) s = true.
Proof.
  unfold HasSuffix. apply andb_true_intro. split; [apply bool_decide_eq_true; len_lia |].
  apply bool_decide_eq_true.
  assert (Z.to_nat (len (p ++ s) - len s) = length p) as -> by (unfold len; rewrite length_app; lia).
  apply drop_app_length.
Qed.

Lemma HasSuffix_spec s suf : HasSuffix s suf = true <-> exists p, s = p ++ suf.
Proof.
  split; [| intros [p ->]; apply HasSuffix_app]. intros H%andb_true_iff.
  destruct H as [_ H%bool_decide_eq_true].
  exists (take (Z.to_nat (len s - len suf)) s). rewrite <- H at 2. by rewrite take_drop.
Qed.

Lemma TrimSuffix_app p s : TrimSuffix (p ++ s) s = p.
Proof.
  unfold TrimSuffix. rewrite HasSuffix_app.
  assert (Z.to_nat (len (p ++ s) - len s) = length p) as -> by (unfold len; rewrite length_app; lia).
  apply take_app_length.
Qed.

Lemma TrimSuffix_none s suf : HasSuffix s suf = false -> TrimSuffix s suf = s.
Proof. unfold TrimSuffix. by intros ->. Qed.

Lemma contains_byte_false s b : contains_byte s b = false <-> b ∉ s.
Proof.
  unfold contains_byte. rewrite <- not_true_iff_false, existsb_exists. split.
  - intros H Hb. apply H. exists b. split; [by apply list_elem_of_In | by apply bool_decide_eq_true].
  - intros H (x & Hx & Hb%bool_decide_eq_true). subst x. by apply H, list_elem_of_In.
Qed.

(** ** Prefixes and occurrences *)

Lemma HasPrefix_spec s p : HasPrefix s p = true <-> exists r, s = p ++ r.
Proof.
  unfold HasPrefix, bytes_eqb. rewrite bool_decide_eq_true. split.
  - intros H. exists (drop (length p) s). rewrite <- H at 1. by rewrite take_drop.
  - intros [r ->]. apply take_app_length.
Qed.

Lemma HasPrefix_false s p : HasPrefix s p = false <-> forall r, s <> p ++ r.
Proof. rewrite <- not_true_iff_false, HasPrefix_spec. naive_solver. Qed.

Lemma Index_none s sub : Index s sub < 0 -> forall g r, s <> g ++ sub ++ r.
Proof.
  induction s as [|b s IH]; intros Hi g r E; cbn [Index] in Hi;
    (destruct (HasPrefix _ sub) eqn:Hp; [lia |]); rewrite HasPrefix_false in Hp.
  - destruct g; [by apply (Hp r) | done].
  - destruct g as [|c g]; [by apply (Hp r) |]. injection E as -> E.
    cbv zeta in Hi. case_decide as Hn; [| lia]. by apply (IH Hn g r).
Qed.

(** The occurrence found is the leftmost one. *)
Lemma Index_found s sub :
  0 <= Index s sub ->
  exists g r, s = g ++ sub ++ r /\ len g = Index s sub
    /\ forall g' r', s = g' ++ sub ++ r' -> len g <= len g'.
Proof.
  induction s as [|b s IH]; intros Hi; cbn [Index] in *; destruct (HasPrefix _ sub) eqn:Hp.
  - apply HasPrefix_spec in Hp as [r E]. exists [], r. split_and!; [done | done |]. intros. len_lia.
  - lia.
  - apply HasPrefix_spec in Hp as [r E]. exists [], r. split_and!; [done | done |]. intros. len_lia.
  - cbv zeta in *. case_decide as Hn; [lia |].
    destruct IH as (g & r & -> & Hg & Hmin); [lia |]. exists (b :: g), r.
    split_and!; [done | len_lia |]. intros g' r' E. rewrite HasPrefix_false in Hp.
    destruct g' as [|c g']; [by apply Hp in E |]. injection E as _ E.
    apply Hmin in E. len_lia.
Qed.

(** Occurrences of a suffix that starts no earlier. *)
Lemma app_suffix {A} (g g' r r' : list A) :
  g ++ r = g' ++ r' -> len g <= len g' -> exists x, r = x ++ r'.
Proof.
  revert g'. induction g as [|b g IH]; intros g' E Hl; [by exists g' |].
  destruct g' as [|c g']; [len_lia |]. injection E as -> E. apply (IH g' E). len_lia.
Qed.

(** ** Lexicographic order *)

Definition lex_le (a b : bytes) : Prop :=
  a `prefix_of` b
  \/ exists p x y a' b', a = p ++ x :: a' /\ b = p ++ y :: b' /\ bZ x < bZ y.

Lemma lex_le_cons x a b : lex_le (x :: a) (x :: b) <-> lex_le a b.
Proof.
  unfold lex_le. split; intros [Hp|(p & y & z & a' & b' & Ea & Eb & Hl)].
  - left. by apply prefix_cons_inv_2 in Hp.
  - destruct p as [|w p]; [injection Ea as -> ->; injection Eb as -> ->; lia |].
    injection Ea as -> ->. injection Eb as ->. right. by exists p, y, z, a', b'.
  - left. by apply prefix_cons.
  - right. exists (x :: p), y, z, a', b'. by subst.
Qed.

Lemma lex_le_lt x y a b : bZ x < bZ y -> lex_le (x :: a) (y :: b) /\ ~ lex_le (y :: b) (x :: a).
Proof.
  intros Hl. split; [right; by exists [], x, y, a, b |].
  intros [Hp|(p & u & v & a' & b' & Ea & Eb & Huv)].
  - apply prefix_cons_inv_1 in Hp. subst. lia.
  - destruct p as [|w p]; injection Ea as -> ->; injection Eb as -> ->; lia.
Qed.

Lemma Compare_spec a b : (Compare a b <= 0 <-> lex_le a b) /\ (0 <= Compare a b <-> lex_le b a).
Proof.
  revert b. induction a as [|x a IH]; intros [|y b]; cbn [Compare].
  - split; (split; [intros _; by left | lia]).
  - split; split; try lia; [intros _; left; apply prefix_nil |].
    intros [Hp|(p & u & v & a' & b' & _ & Eb & _)]; [by apply prefix_nil_not in Hp | by destruct p].
  - split; split; try lia; [| intros _; left; apply prefix_nil].
    intros [Hp|(p & u & v & a' & b' & _ & Eb & _)]; [by apply prefix_nil_not in Hp | by destruct p].
  - case_decide as Hxy; [by destruct (lex_le_lt x y a b Hxy); split; split; try lia |].
    case_decide as Hyx; [by destruct (lex_le_lt y x b a Hyx); split; split; try lia |].
    assert (x = y) as -> by (apply bZ_inj; lia). by rewrite !lex_le_cons.
Qed.

(** ** White space *)

Lemma strip_none n ps s : Forall (fun p => HasPrefix s p = false) ps -> strip n ps s = s.
Proof.
  intros H. destruct n as [|n]; [done |]. cbn [strip]. destruct (List.find _ ps) as [p|] eqn:E; [| done].
  apply find_some in E as [Hin%list_elem_of_In Hp]. rewrite Forall_forall in H.
  apply H in Hin. congruence.
Qed.

Lemma length_strip n ps s : (length (strip n ps s) <= length s)%nat.
Proof.
  revert s. induction n as [|n IH]; intros s; [done |]. cbn [strip].
  destruct (List.find _ ps); [| done]. etrans; [apply IH |]. rewrite length_drop. lia.
Qed.

Lemma length_TrimSpace s : (length (TrimSpace s) <= length s)%nat.
Proof.
  unfold TrimSpace. cbv zeta. rewrite length_rev. etrans; [apply length_strip |].
  rewrite length_rev. apply length_strip.
Qed.

(** The bytes at which no white space starts or ends. *)
Definition ink (b : byte) : bool := bool_decide (32 < bZ b < 128).

Lemma ink_not_space b s : ink b = true -> Forall (fun p => HasPrefix (b :: s) p = false) spaces.
Proof. destruct b; intros Hb; (discriminate Hb || by repeat constructor). Qed.

Lemma ink_not_rev_space b s :
  ink b = true -> Forall (fun p => HasPrefix (b :: s) p = false) (rev (A := byte) <$> spaces).
Proof. destruct b; intros Hb; (discriminate Hb || by repeat constructor). Qed.

(** A text that neither starts nor ends with white space. *)
Definition trimmed (s : gostring) : Prop :=
  (exists a t, s = a :: t /\ ink a = true) /\ (exists t b, s = t ++ [b] /\ ink b = true).

Definition pad (p : bool) : gostring := if p then [x20] else [].

Lemma strip_front p s :
  (exists a t, s = a :: t /\ ink a = true) -> strip (length (pad p ++ s)) spaces (pad p ++ s) = s.
Proof.
  intros (a & t & -> & Ha). destruct p; cbn [pad app length strip].
  - replace (List.find (HasPrefix (x20 :: a :: t)) spaces) with (Some [x20]) by reflexivity.
    cbn [length drop]. by apply (strip_none (S (length t))), ink_not_space.
  - by apply (strip_none (S (length t))), ink_not_space.
Qed.

Lemma strip_back q s :
  (exists t b, s = t ++ [b] /\ ink b = true) ->
  rev (strip (length (s ++ pad q)) (rev (A := byte) <$> spaces) (rev (s ++ pad q))) = s.
Proof.
  intros (t & b & -> & Hb). rewrite rev_app_distr, (rev_app_distr t).
  assert (forall n, rev (strip n (rev (A := byte) <$> spaces) (b :: rev t)) = t ++ [b]) as Hn.
  { intros n. rewrite strip_none by by apply ink_not_rev_space. cbn [rev].
    by rewrite rev_involutive. }
  destruct q; cbn [pad rev app]; [| apply Hn].
  rewrite length_app, Nat.add_1_r. cbn [strip].
  replace (List.find (HasPrefix (x20 :: b :: rev t)) (rev (A := byte) <$> spaces)) with (Some [x20])
    by reflexivity.
  apply Hn.
Qed.

Lemma TrimSpace_pad p q s : trimmed s -> TrimSpace (pad p ++ s ++ pad q) = s.
Proof.
  intros [(a & t & E & Ha) Hb]. unfold TrimSpace. cbv zeta.
  rewrite strip_front; [by apply strip_back |]. exists a, (t ++ pad q). by rewrite E.
Qed.

Lemma TrimSpace_trimmed s : trimmed s -> TrimSpace s = s.
Proof. intros Ht. rewrite <- (app_nil_r s) at 1. by apply (TrimSpace_pad false false). Qed.

(** ** Lower case on ASCII *)

Lemma lower_byte_small b : bZ b < 128 -> bZ (lower_byte b) < 128.
Proof. intros Hb. unfold lower_byte. case_decide; [| done]. rewrite bZ_u8_small; lia. Qed.

Lemma lower_byte_comma b : lower_byte b = comma <-> b = comma.
Proof.
  unfold lower_byte. case_decide as Hd; [| done]. split; intros E; exfalso.
  - apply (f_equal bZ) in E. rewrite bZ_u8_small in E by lia. change (bZ comma) with 44 in E. lia.
  - subst b. change (bZ comma) with 44 in Hd. lia.
Qed.

Lemma is_ascii_spec s : is_ascii s = true <-> Forall (fun b => bZ b < 128) s.
Proof.
  unfold is_ascii. rewrite forallb_forall, Forall_forall. split; intros H b Hb.
  - apply (bool_decide_eq_true (bZ b < 128)), H. by apply list_elem_of_In.
  - apply (bool_decide_eq_true (bZ b < 128)), H. by apply list_elem_of_In.
Qed.

Lemma is_ascii_app s t : is_ascii (s ++ t) = is_ascii s && is_ascii t.
Proof. apply forallb_app. Qed.

Lemma ToLower_ascii `{UnicodeTables} s : is_ascii s = true -> ToLower s = lower_ascii s.
Proof. unfold ToLower. by intros ->. Qed.

(** ** Lists joined by a separator *)

(** [strings.Join(l, sep)] for a separator of one byte. *)
Fixpoint Join (sep : byte) (l : list gostring) : gostring :=
  match l with
  | [] => []
  | [r] => r
  | r :: l => r ++ sep :: Join sep l
  end.

(** [strings.Split(s, sep)] for a separator of one byte. *)
Fixpoint Split (sep : byte) (s : gostring) : list gostring :=
  match s with
  | [] => [[]]
  | b :: s =>
      if byte_eqb b sep then [] :: Split sep s
      else match Split sep s with [] => [[b]] | r :: l => (b :: r) :: l end
  end.

(** A distinguished name of plain RDNs is joined by commas. *)
Abbreviation join := (Join comma).
Abbreviation split := (Split comma).

Definition plain (r : gostring) : Prop := r <> [] /\ comma ∉ r.

Section Separator.
Context (sep : byte).

Lemma split_ne s : Split sep s <> [].
Proof. destruct s as [|b s]; [done |]. simpl. destruct (byte_eqb b sep), (Split sep s); done. Qed.

Lemma split_app s t : Split sep (s ++ sep :: t) = Split sep s ++ Split sep t.
Proof.
  induction s as [|b s IH].
  - cbn [app Split]. unfold byte_eqb. by rewrite bool_decide_true.
  - cbn [app Split]. rewrite IH.
    destruct (byte_eqb b sep); [done |]. pose proof (split_ne s). by destruct (Split sep s).
Qed.

Lemma split_plain r : sep ∉ r -> Split sep r = [r].
Proof.
  induction r as [|b r IH]; [done |]. intros Hn. apply not_elem_of_cons in Hn as [Hb Hr].
  cbn [Split]. rewrite IH by done. unfold byte_eqb. rewrite bool_decide_false; [done |]. congruence.
Qed.

Lemma join_cons r l : l <> [] -> Join sep (r :: l) = r ++ sep :: Join sep l.
Proof. by destruct l. Qed.

Lemma Split_Join l : l <> [] -> Forall (fun r => sep ∉ r) l -> Split sep (Join sep l) = l.
Proof.
  induction l as [|r l IH]; [done |]. intros _ Hp. apply Forall_cons in Hp as [Hr Hp].
  destruct l as [|r2 l]; [by apply split_plain |].
  rewrite join_cons, split_app, split_plain, IH by done. done.
Qed.

Lemma Join_inj l k :
  l <> [] -> k <> [] -> Forall (fun r => sep ∉ r) l -> Forall (fun r => sep ∉ r) k ->
  Join sep l = Join sep k -> l = k.
Proof.
  intros Hl Hk Pl Pk E. rewrite <- (Split_Join l), <- (Split_Join k) by done. by rewrite E.
Qed.

Lemma join_app l k : l <> [] -> k <> [] -> Join sep (l ++ k) = Join sep l ++ sep :: Join sep k.
Proof.
  induction l as [|r l IH]; [done |]. intros _ Hk. destruct l as [|r2 l].
  - cbn [app]. by rewrite join_cons.
  - cbn [app] in *. rewrite !(join_cons r) by done. rewrite IH by done.
    by rewrite <- app_assoc, <- app_comm_cons.
Qed.
End Separator.

Lemma plain_comma l : Forall plain l -> Forall (fun r => comma ∉ r) l.
Proof. intros H. apply (Forall_impl _ _ _ H). by intros r []. Qed.

Lemma split_join l : l <> [] -> Forall plain l -> split (join l) = l.
Proof. intros Hl Hp. by apply Split_Join, plain_comma. Qed.

Lemma join_inj l k : l <> [] -> k <> [] -> Forall plain l -> Forall plain k -> join l = join k -> l = k.
Proof. intros Hl Hk Pl Pk E. apply (Join_inj comma); auto using plain_comma. Qed.

Lemma join_ne l : l <> [] -> Forall plain l -> join l <> [].
Proof.
  intros Hl Hp. destruct l as [|r l]; [done |]. apply Forall_cons in Hp as [[Hr _] _].
  destruct l; [done |]. rewrite join_cons by done. by destruct r.
Qed.

Lemma lower_join l : lower_ascii (join l) = join (lower_ascii <$> l).
Proof.
  induction l as [|r l IH]; [done |]. destruct l as [|r2 l]; [done |].
  change (join (lower_ascii <$> r :: r2 :: l))
    with (lower_ascii r ++ comma :: join (lower_ascii <$> r2 :: l)).
  rewrite <- IH, join_cons by done. unfold lower_ascii. rewrite fmap_app, fmap_cons.
  by rewrite (proj2 (lower_byte_comma comma)).
Qed.

Lemma plain_lower r : plain r -> plain (lower_ascii r).
Proof.
  intros [Hr Hc]. split; [by destruct r |]. intros Hin. apply Hc.
  apply list_elem_of_fmap in Hin as (b & Hb & Hin). symmetry in Hb.
  apply (proj1 (lower_byte_comma b)) in Hb. by subst b.
Qed.
