(* ===== verification/Acl.v ===== *)
(** * Access control (src/internal/acl)

    Rules (types.go), their matching (matcher.go), first-match evaluation
    (evaluator.go), and the manager's changes to the rules, made locally or by
    replicated commands (manager.go, with the dispatch of raft/statemachine.go). The
    evaluator shares the manager's configuration, so the manager's state is the
    configuration itself; and the handlers of the REST interface that change rules
    (rest/acl_handlers.go), from the decoded JSON on. Loading from YAML files and the JSON
    snapshots are not modelled. *)

From S2P Require Import Prelude GoBinary GoStrings RaftCodec.

(** ** types.go *)

Definition Read : Z := 1.
Definition Write : Z := 2.
Definition Add : Z := 4.
Definition Delete : Z := 8.
Definition Search : Z := 16.
Definition Compare : Z := 32.
Definition All : Z := 63.

Definition Has (r other : Z) : bool := bool_decide (Z.land r other <> 0).

Definition ScopeBase : Z := 0.
Definition ScopeOne : Z := 1.
Definition ScopeSubtree : Z := 2.

Definition Scope_String (s : Z) : gostring :=
  if decide (s = ScopeBase) then str "base"
  else if decide (s = ScopeOne) then str "one"
  else if decide (s = ScopeSubtree) then str "subtree"
  else str "unknown".

Record ACL := mkACL {
  acl_Target : gostring;
  acl_Scope : Z;
  acl_Subject : gostring;
  acl_Rights : Z;
  acl_Attributes : list gostring;
  acl_Deny : bool
}.

Definition AppliesToAttribute (a : ACL) (attr : gostring) : bool :=
  if decide (len (acl_Attributes a) = 0) then true
  else existsb (fun allowed => bytes_eqb allowed attr || bytes_eqb allowed (str "*"))
         (acl_Attributes a).

Record Config := mkConfig {
  conf_DefaultPolicy : gostring;
  conf_Rules : list ACL
}.

Definition NewConfig : Config := mkConfig (str "deny") [].

Definition IsDefaultAllow (c : Config) : bool := bytes_eqb (conf_DefaultPolicy c) (str "allow").

Record AccessContext := mkAccessContext {
  BindDN : gostring;
  TargetDN : gostring;
  AccessOperation : Z
}.

(** The entries given to the attribute filter. *)
Record ACLEntry := mkACLEntry {
  ACLEntryDN : gostring;
  ACLEntryAttributes : gmap gostring (list gostring)
}.

Section Acl.
Context `{UnicodeTables}.

(** ** matcher.go *)

Definition isImmediateChild (parent target : gostring) : bool :=
  if decide (parent = [] \/ target = []) then false
  else if negb (HasSuffix target parent) then false
  else
    let prefix := TrimSuffix target parent in
    if decide (prefix = []) then false
    else
      let prefix := TrimSuffix prefix [comma] in
      if decide (prefix = []) then false else negb (contains_byte prefix comma).

Definition isSubtreeMatch (base target : gostring) : bool :=
  if decide (base = []) then true
  else if decide (target = []) then false
  else if decide (target = base) then true
  else HasSuffix target (comma :: base).

Definition MatchesTarget (rule : ACL) (targetDN : gostring) : bool :=
  let ruleTarget := ToLower (acl_Target rule) in
  let target := ToLower targetDN in
  if decide (ruleTarget = str "*") then true
  else if decide (acl_Scope rule = ScopeBase) then bytes_eqb target ruleTarget
  else if decide (acl_Scope rule = ScopeOne) then isImmediateChild ruleTarget target
  else if decide (acl_Scope rule = ScopeSubtree) then isSubtreeMatch ruleTarget target
  else false.

Definition MatchesSubject (rule : ACL) (bindDN targetDN : gostring) : bool :=
  let subject := ToLower (acl_Subject rule) in
  let bind := ToLower bindDN in
  if decide (subject = str "anonymous") then bytes_eqb bindDN []
  else if decide (subject = str "authenticated") then negb (bytes_eqb bindDN [])
  else if decide (subject = str "self") then negb (bytes_eqb bindDN []) && EqualFold bindDN targetDN
  else if decide (subject = str "*") then true
  else bytes_eqb bind subject.

(** ** evaluator.go *)

(** [for _, rule := range rules { ... continue ... }]: the first rule that passes
    every check decides. *)
Fixpoint first_match (rules : list ACL) (passes : ACL -> bool) (dflt : bool) : bool :=
  match rules with
  | [] => dflt
  | rule :: rules =>
      if negb (passes rule) then first_match rules passes dflt
      else if acl_Deny rule then false else true
  end.

Definition CheckAccess (c : Config) (ctx : option AccessContext) : bool :=
  match ctx with
  | None => IsDefaultAllow c
  | Some ctx =>
      first_match (conf_Rules c)
        (fun rule => MatchesTarget rule (TargetDN ctx)
                     && MatchesSubject rule (BindDN ctx) (TargetDN ctx)
                     && Has (acl_Rights rule) (AccessOperation ctx))
        (IsDefaultAllow c)
  end.

Definition CheckAttributeAccess (c : Config) (ctx : option AccessContext) (attr : gostring) : bool :=
  match ctx with
  | None => IsDefaultAllow c
  | Some ctx =>
      first_match (conf_Rules c)
        (fun rule => MatchesTarget rule (TargetDN ctx)
                     && MatchesSubject rule (BindDN ctx) (TargetDN ctx)
                     && AppliesToAttribute rule attr
                     && Has (acl_Rights rule) (AccessOperation ctx))
        (IsDefaultAllow c)
  end.

Definition FilterAttributes (c : Config) (ctx : option AccessContext) (entry : ACLEntry) : ACLEntry :=
  match ctx with
  | None => if IsDefaultAllow c then entry else mkACLEntry (ACLEntryDN entry) ∅
  | Some ctx =>
      let readCtx := mkAccessContext (BindDN ctx) (ACLEntryDN entry) Read in
      mkACLEntry (ACLEntryDN entry)
        (base.filter (fun kv => CheckAttributeAccess c (Some readCtx) kv.1 = true)
           (ACLEntryAttributes entry))
  end.

Definition FilterAttributeList (c : Config) (ctx : option AccessContext) (attrs : list gostring)
    : list gostring :=
  match ctx with
  | None => if IsDefaultAllow c then attrs else []
  | Some ctx =>
      let readCtx := mkAccessContext (BindDN ctx) (TargetDN ctx) Read in
      List.filter (CheckAttributeAccess c (Some readCtx)) attrs
  end.

(** ** manager.go *)

Record Manager := mkManager {
  config : Config;
  aclVersion : Z;
  reloadCount : Z
}.

Definition ErrMissingTarget : goerror := ErrConst "ErrMissingTarget".
Definition ErrMissingSubject : goerror := ErrConst "ErrMissingSubject".
Definition ErrMissingRights : goerror := ErrConst "ErrMissingRights".

Definition ValidateRule (rule : option ACL) : M Manager ACL :=
  match rule with
  | None => fail (ErrConst "rule cannot be nil")
  | Some rule =>
      if decide (acl_Target rule = []) then fail ErrMissingTarget
      else if decide (acl_Subject rule = []) then fail ErrMissingSubject
      else if decide (acl_Rights rule = 0) then fail ErrMissingRights
      else mret rule
  end.

Definition set_rules (f : list ACL -> list ACL) : M Manager unit :=
  modify (fun m => mkManager (mkConfig (conf_DefaultPolicy (config m)) (f (conf_Rules (config m))))
                     (aclVersion m) (reloadCount m)).

Definition set_policy (policy : gostring) : M Manager unit :=
  modify (fun m => mkManager (mkConfig policy (conf_Rules (config m))) (aclVersion m) (reloadCount m)).

(** [atomic.AddUint64(&m.version, 1)]. *)
Definition IncrementVersion : M Manager unit :=
  modify (fun m => mkManager (config m) (uint64 (aclVersion m + 1)) (reloadCount m)).

Definition out_of_range (index : Z) (m : Manager) : bool :=
  bool_decide (index < 0 \/ index >= len (conf_Rules (config m))).

(** [append(rules[:index], append([]*ACL{rule}, rules[index:]...)...)], or at the end. *)
Definition insert_rule (index : Z) (rule : ACL) : M Manager unit :=
  oor ← gets (out_of_range index);
  set_rules (fun rules =>
    if (oor : bool) then rules ++ [rule]
    else take (Z.to_nat index) rules ++ rule :: drop (Z.to_nat index) rules).

Definition AddRule (rule : option ACL) (index : Z) : M Manager unit :=
  rule ← ValidateRule rule;
  insert_rule index rule.

Definition replace_rule (index : Z) (rule : ACL) : M Manager unit :=
  set_rules (fun rules => <[Z.to_nat index := rule]> rules).

Definition UpdateRule (index : Z) (rule : option ACL) : M Manager unit :=
  rule ← ValidateRule rule;
  oor ← gets (out_of_range index);
  if (oor : bool) then fail (ErrConst "rule index out of range") else replace_rule index rule.

Definition remove_rule (index : Z) : M Manager unit :=
  set_rules (fun rules => take (Z.to_nat index) rules ++ drop (S (Z.to_nat index)) rules).

Definition DeleteRule (index : Z) : M Manager unit :=
  oor ← gets (out_of_range index);
  if (oor : bool) then fail (ErrConst "rule index out of range") else remove_rule index.

Definition valid_policy (policy : gostring) : bool :=
  bytes_eqb policy (str "allow") || bytes_eqb policy (str "deny").

Definition SetDefaultPolicy (policy : gostring) : M Manager unit :=
  let policy := ToLower policy in
  if valid_policy policy then set_policy policy else fail (ErrConst "invalid policy").

(** *** Rules as replicated data *)

Definition right_names : list (Z * gostring) :=
  [(Read, str "read"); (Write, str "write"); (Add, str "add"); (Delete, str "delete");
   (Search, str "search"); (Compare, str "compare")].

Definition rightsToStrings (r : Z) : list gostring :=
  if decide (r = All) then [str "all"]
  else snd <$> List.filter (fun p => Has r p.1) right_names.

Definition aclToRuleData (rule : ACL) : ACLRuleData :=
  mkACLRuleData (acl_Target rule) (acl_Subject rule) (Scope_String (acl_Scope rule))
    (rightsToStrings (acl_Rights rule)) (acl_Attributes rule) (acl_Deny rule).

Definition parse_scope (s : gostring) : outcome Z :=
  let s := ToLower s in
  if decide (s = str "base" \/ s = []) then Ok ScopeBase
  else if decide (s = str "one" \/ s = str "onelevel") then Ok ScopeOne
  else if decide (s = str "sub" \/ s = str "subtree") then Ok ScopeSubtree
  else Err (ErrConst "invalid scope").

(** One iteration of the loop over the rights. *)
Definition parse_right (rights : Z) (r : gostring) : outcome Z :=
  let r := ToLower r in
  match List.find (fun p => bytes_eqb p.2 r) right_names with
  | Some (bit, _) => Ok (Z.lor rights bit)
  | None => if decide (r = str "all") then Ok All else Err (ErrConst "invalid right")
  end.

Fixpoint parse_rights (rights : Z) (rs : list gostring) : outcome Z :=
  match rs with
  | [] => Ok rights
  | r :: rs =>
      match parse_right rights r with
      | Ok rights => parse_rights rights rs
      | Err e => Err e | Panic => Panic | Diverge => Diverge
      end
  end.

Definition ruleDataToACL (data : ACLRuleData) : outcome ACL :=
  match parse_scope (RuleScope data) with
  | Ok scope =>
      match parse_rights 0 (Rights data) with
      | Ok rights =>
          Ok (mkACL (Target data) scope (Subject data) rights (RuleAttributes data) (Deny data))
      | Err e => Err e | Panic => Panic | Diverge => Diverge
      end
  | Err e => Err e | Panic => Panic | Diverge => Diverge
  end.

Definition lift {A} (o : outcome A) : M Manager A := fun m => (o, m).

Fixpoint convert_rules (rules : list ACLRuleData) : outcome (list ACL) :=
  match rules with
  | [] => Ok []
  | d :: rules =>
      match ruleDataToACL d with
      | Ok rule =>
          match convert_rules rules with
          | Ok rest => Ok (rule :: rest)
          | Err e => Err e | Panic => Panic | Diverge => Diverge
          end
      | Err e => Err e | Panic => Panic | Diverge => Diverge
      end
  end.

Definition ApplyFullConfigFromRaft (rules : list ACLRuleData) (defaultPolicy : gostring)
    : M Manager unit :=
  aclRules ← lift (convert_rules rules);
  modify (fun m => mkManager (mkConfig defaultPolicy aclRules) (aclVersion m)
                     (uint64 (reloadCount m + 1))) ;;
  IncrementVersion.

Definition rule_from_data (ruleData : option ACLRuleData) : M Manager ACL :=
  match ruleData with
  | None => fail (ErrConst "rule data cannot be nil")
  | Some d => lift (ruleDataToACL d)
  end.

Definition AddRuleFromRaft (ruleData : option ACLRuleData) (index : Z) : M Manager unit :=
  rule ← rule_from_data ruleData;
  insert_rule index rule ;;
  IncrementVersion.

Definition UpdateRuleFromRaft (ruleData : option ACLRuleData) (index : Z) : M Manager unit :=
  rule ← rule_from_data ruleData;
  oor ← gets (out_of_range index);
  if (oor : bool) then fail (ErrConst "rule index out of range")
  else replace_rule index rule ;; IncrementVersion.

Definition DeleteRuleFromRaft (index : Z) : M Manager unit :=
  oor ← gets (out_of_range index);
  if (oor : bool) then mret tt else remove_rule index ;; IncrementVersion.

Definition SetDefaultPolicyFromRaft (policy : gostring) : M Manager unit :=
  let policy := ToLower policy in
  if valid_policy policy then set_policy policy ;; IncrementVersion
  else fail (ErrConst "invalid policy").

Definition ToRuleDataSlice (m : Manager) : list ACLRuleData := aclToRuleData <$> conf_Rules (config m).

(** ** The dispatch of raft/statemachine.go *)

(** The commands, for an applier that is set. *)
Definition dispatchACL (cmd : Command) : M Manager unit :=
  aclCmd ← lift (DeserializeACLCommand (ACLData cmd));
  if decide (CmdType cmd = CmdACLFullUpdate) then
    ApplyFullConfigFromRaft (Rules aclCmd) (DefaultPolicy aclCmd)
  else if decide (CmdType cmd = CmdACLAddRule) then
    AddRuleFromRaft (Rule aclCmd) (RuleIndex aclCmd)
  else if decide (CmdType cmd = CmdACLUpdateRule) then
    UpdateRuleFromRaft (Rule aclCmd) (RuleIndex aclCmd)
  else if decide (CmdType cmd = CmdACLDeleteRule) then DeleteRuleFromRaft (RuleIndex aclCmd)
  else if decide (CmdType cmd = CmdACLSetDefault) then
    SetDefaultPolicyFromRaft (DefaultPolicy aclCmd)
  else mret tt.

(** A state machine without an applier skips the command. *)
Definition applyACLCommand (cmd : Command) : M (option Manager) unit := fun aclApplier =>
  match aclApplier with
  | None => (Ok tt, None)
  | Some m => let '(r, m) := dispatchACL cmd m in (r, Some m)
  end.

(** ** rest/acl_handlers.go *)

Record ACLRuleJSON := mkACLRuleJSON {
  j_Target : gostring;
  j_Subject : gostring;
  j_Scope : gostring;
  j_Rights : list gostring;
  j_Attributes : list gostring;
  j_Deny : bool
}.

(** loader.go, [ParseRights] and [ParseScope]. *)
Fixpoint ParseRights (result : Z) (rights : list gostring) : outcome Z :=
  match rights with
  | [] => Ok result
  | r :: rights =>
      let name := ToLower (TrimSpace r) in
      match List.find (fun p => bytes_eqb p.2 name) (right_names ++ [(All, str "all")]) with
      | Some (bit, _) => ParseRights (Z.lor result bit) rights
      | None => Err (ErrConst "ErrInvalidRight")
      end
  end.

Definition ParseScope (s : gostring) : outcome Z :=
  let s := ToLower (TrimSpace s) in
  if decide (s = str "base") then Ok ScopeBase
  else if decide (s = str "one" \/ s = str "onelevel") then Ok ScopeOne
  else if decide (s = str "sub" \/ s = str "subtree" \/ s = []) then Ok ScopeSubtree
  else Err (ErrConst "ErrInvalidScope").

Definition jsonToACLRule (j : ACLRuleJSON) : outcome ACL :=
  rights ← ParseRights 0 (j_Rights j);
  scope ← (if decide (j_Scope j = []) then Ok ScopeSubtree else ParseScope (j_Scope j));
  Ok (mkACL (j_Target j) scope (j_Subject j) rights (j_Attributes j) (j_Deny j)).

Definition aclRuleToRaftData (j : ACLRuleJSON) : ACLRuleData :=
  mkACLRuleData (j_Target j) (j_Subject j) (j_Scope j) (j_Rights j) (j_Attributes j) (j_Deny j).

(** The changes of the rules that an administrator can ask for. *)
Inductive acl_request :=
| AddAt (rule : ACLRuleJSON) (index : Z)
| UpdateAt (index : Z) (rule : ACLRuleJSON)
| DeleteAt (index : Z)
| DefaultTo (policy : gostring).

(** The handlers on a standalone server: the manager makes the change. *)
Definition standalone_request (c : acl_request) : M Manager unit :=
  match c with
  | AddAt j index => rule ← lift (jsonToACLRule j); AddRule (Some rule) index
  | UpdateAt index j => rule ← lift (jsonToACLRule j); UpdateRule index (Some rule)
  | DeleteAt index => DeleteRule index
  | DefaultTo policy => SetDefaultPolicy policy
  end.

(** The handlers on the leader of a cluster: the command that is proposed. *)
Definition cluster_request (c : acl_request) (version : Z) : outcome Command :=
  match c with
  | AddAt j index => _ ← jsonToACLRule j; Ok (CreateACLAddRuleCommand (Some (aclRuleToRaftData j)) index version)
  | UpdateAt index j => _ ← jsonToACLRule j; Ok (CreateACLUpdateRuleCommand (Some (aclRuleToRaftData j)) index version)
  | DeleteAt index => Ok (CreateACLDeleteRuleCommand index version)
  | DefaultTo policy => Ok (CreateACLSetDefaultCommand policy version)
  end.

End Acl.
