(* ===== verification/AclTheorems.v ===== *)
(** * What access control guarantees

    First-match evaluation, the meaning of targets on distinguished names, the gap
    of one-level scopes, and the agreement of local and replicated rule changes. *)

From S2P Require Import Prelude GoBinary GoStrings RaftCodec Acl.

Section Theorems.
Context `{UnicodeTables}.

(** ** Evaluation *)

(** [rule] is the first of [rules] with [P]. *)
Definition first_such (P : ACL -> Prop) (rules : list ACL) (rule : ACL) : Prop :=
  exists i, rules !! i = Some rule /\ P rule /\
    forall j r, (j < i)%nat -> rules !! j = Some r -> ~ P r.

(** What a policy with rules [rules] and default [dflt] says of requests that concern
    the rules with [P]. *)
Definition granted_by (P : ACL -> Prop) (rules : list ACL) (dflt : gostring) : Prop :=
  (exists rule, first_such P rules rule /\ acl_Deny rule = false)
  \/ (Forall (fun r => ~ P r) rules /\ dflt = str "allow").

Lemma first_match_spec (P : ACL -> Prop) passes rules dflt :
  (forall r, passes r = true <-> P r) ->
  first_match rules passes (bytes_eqb dflt (str "allow")) = true <-> granted_by P rules dflt.
Proof.
  intros HP. unfold granted_by, first_such. induction rules as [|r rules IH]; cbn [first_match].
  { unfold bytes_eqb. rewrite bool_decide_eq_true. split; [by right |].
    intros [(rule & (i & Hi & _) & _)|[_ ?]]; done. }
  destruct (passes r) eqn:E; cbn [negb].
  - apply HP in E. destruct (acl_Deny r) eqn:D.
    + split; [done |]. intros [(rule & (i & Hi & _ & Hf) & Hd)|[Hn _]].
      * destruct i as [|i]; [injection Hi as <-; congruence |].
        exfalso. by apply (Hf 0%nat r); [lia | |].
      * apply Forall_cons in Hn as [? _]. done.
    + split; [| done]. intros _. left. exists r. split; [| done]. exists 0%nat.
      split; [done |]. split; [done |]. intros j ? Hj. lia.
  - assert (~ P r) as Hn by (rewrite <- HP; congruence). rewrite IH. split.
    + intros [(rule & (i & Hi & Hp & Hf) & Hd)|[Ha Hd]].
      * left. exists rule. split; [| done]. exists (S i). split; [done |]. split; [done |].
        intros [|j] r' Hj Hr; [by injection Hr as <- |]. apply (Hf j r'); [lia | done].
      * right. split; [by constructor | done].
    + intros [(rule & (i & Hi & Hp & Hf) & Hd)|[Ha Hd]].
      * left. exists rule. split; [| done]. destruct i as [|i]; [injection Hi as <-; done |].
        exists i. split; [done |]. split; [done |]. intros j r' Hj Hr. apply (Hf (S j) r'); [lia | done].
      * right. apply Forall_cons in Ha as [_ Ha]. done.
Qed.

(** A rule concerns an operation of a user on an entry. *)
Definition concerns (bind target : gostring) (op : Z) (rule : ACL) : Prop :=
  MatchesTarget rule target = true /\ MatchesSubject rule bind target = true
  /\ Z.land (acl_Rights rule) op <> 0.

Definition names_attribute (rule : ACL) (attr : gostring) : Prop :=
  acl_Attributes rule = [] \/ attr ∈ acl_Attributes rule \/ str "*" ∈ acl_Attributes rule.

Lemma AppliesToAttribute_spec rule attr :
  AppliesToAttribute rule attr = true <-> names_attribute rule attr.
Proof.
  unfold AppliesToAttribute, names_attribute. case_decide as Hl.
  { apply len_zero_nil in Hl. split; [by left | done]. }
  rewrite existsb_exists. setoid_rewrite orb_true_iff. unfold bytes_eqb.
  setoid_rewrite bool_decide_eq_true. setoid_rewrite list_elem_of_In. split.
  - intros (x & Hx & [-> | ->]); auto.
  - intros [E|[Hx|Hx]]; [by rewrite E in Hl | by exists attr; auto | by exists (str "*"); auto].
Qed.

Lemma CheckAttributeAccess_spec c bind target op attr :
  CheckAttributeAccess c (Some (mkAccessContext bind target op)) attr = true <->
  granted_by (fun r => concerns bind target op r /\ names_attribute r attr)
    (conf_Rules c) (conf_DefaultPolicy c).
Proof.
  apply first_match_spec. intros r. unfold concerns, Has. cbn [TargetDN BindDN AccessOperation].
  rewrite !andb_true_iff, bool_decide_eq_true, AppliesToAttribute_spec. tauto.
Qed.

(** C9: access control is first-match-wins. An operation on an entry is allowed
    exactly when the first rule that concerns it allows it, or none does and the
    default policy is allow; for attributes the first rule that also names the
    attribute decides; the filters of entries and attribute lists keep exactly the
    attributes that may be read, with their values. *)
Theorem acl_first_match c bind target op attr entry attrs :
  let rules := conf_Rules c in
  let dflt := conf_DefaultPolicy c in
  let ctx := Some (mkAccessContext bind target op) in
  let readable dn a :=
    granted_by (fun r => concerns bind dn Read r /\ names_attribute r a) rules dflt in
  (CheckAccess c ctx = true <-> granted_by (concerns bind target op) rules dflt) /\
  (CheckAttributeAccess c ctx attr = true <->
     granted_by (fun r => concerns bind target op r /\ names_attribute r attr) rules dflt) /\
  (forall a vs, ACLEntryAttributes (FilterAttributes c ctx entry) !! a = Some vs <->
     ACLEntryAttributes entry !! a = Some vs /\ readable (ACLEntryDN entry) a) /\
  (forall a, a ∈ FilterAttributeList c ctx attrs <-> a ∈ attrs /\ readable target a).
Proof.
  cbv zeta. split; [| split; [apply CheckAttributeAccess_spec | split]].
  - apply first_match_spec. intros r. unfold concerns, Has. cbn [TargetDN BindDN AccessOperation].
    rewrite !andb_true_iff, bool_decide_eq_true. tauto.
  - intros a vs. unfold FilterAttributes. cbn [ACLEntryAttributes BindDN].
    by rewrite map_lookup_filter_Some, CheckAttributeAccess_spec.
  - intros a. unfold FilterAttributeList. cbn [BindDN TargetDN].
    by rewrite list_elem_of_In, filter_In, <- list_elem_of_In, CheckAttributeAccess_spec.
Qed.

(** ** Targets *)

(** A distinguished name of plain ASCII RDNs. *)
Definition plain_dn (l : list gostring) : Prop :=
  l <> [] /\ Forall plain l /\ is_ascii (join l) = true.

Abbreviation lowered := (fmap lower_ascii).

Lemma plain_lowered l : plain_dn l -> lowered l <> [] /\ Forall plain (lowered l).
Proof.
  intros (Hl & Hp & _). split; [by destruct l |].
  apply Forall_fmap, (Forall_impl _ _ _ Hp). intros r. apply plain_lower.
Qed.

Lemma ToLower_join l : plain_dn l -> ToLower (join l) = join (lowered l).
Proof. intros (_ & _ & Ha). by rewrite ToLower_ascii, lower_join. Qed.

(** The strings match as a subtree exactly when the lists of RDNs end alike. *)
Lemma isSubtreeMatch_spec b t :
  b <> [] -> t <> [] -> Forall plain b -> Forall plain t ->
  isSubtreeMatch (join b) (join t) = true <-> b `suffix_of` t.
Proof.
  intros Hb Ht Pb Pt. unfold isSubtreeMatch.
  rewrite (decide_False (P := join b = [])), (decide_False (P := join t = [])) by by apply join_ne.
  case_decide as He.
  { split; [| done]. intros _. apply join_inj in He as ->; done. }
  rewrite HasSuffix_spec. split.
  - intros [p Hp]. exists (split p). rewrite <- (split_join t), Hp, split_app, split_join by done.
    done.
  - intros [p ->]. destruct (decide (p = [])) as [->|Hne]; [done |]. exists (join p).
    by apply join_app.
Qed.

(** Only the asterisk is lowered to the asterisk. *)
Lemma lower_star s : s <> str "*" -> lower_ascii s <> str "*".
Proof.
  intros Hs E. apply Hs. change (str "*") with [x2a] in *. destruct s as [|x [|y l]]; try done.
  injection E as E. apply (f_equal bZ) in E. f_equal. apply bZ_inj. revert E.
  unfold lower_byte. case_decide as Hd; [| done]. rewrite bZ_u8_small by lia.
  change (bZ x2a) with 42. lia.
Qed.

(** [target] is an RDN in front of [parent]. *)
Definition child_of (parent target : list gostring) : Prop := exists r, target = r :: parent.

(** [target] has the first RDN of [parent] with something in front of it. *)
Definition glued_to (parent target : list gostring) : Prop :=
  exists x r rest, x <> [] /\ parent = r :: rest /\ target = (x ++ r) :: rest.

Lemma join_glue x r rest : join ((x ++ r) :: rest) = x ++ join (r :: rest).
Proof. destruct rest; [done |]. rewrite !join_cons by done. by rewrite <- app_assoc. Qed.

Lemma not_in_app_l (x y : gostring) b : b ∉ x ++ y -> b ∉ x.
Proof. rewrite elem_of_app. tauto. Qed.

Lemma isImmediateChild_spec b t :
  b <> [] -> t <> [] -> Forall plain b -> Forall plain t ->
  isImmediateChild (join b) (join t) = true <-> child_of b t \/ glued_to b t.
Proof.
  intros Hb Ht Pb Pt. pose proof (join_ne b Hb Pb). pose proof (join_ne t Ht Pt).
  unfold isImmediateChild. rewrite decide_False by tauto. split.
  - destruct (HasSuffix (join t) (join b)) eqn:Hs; [| done]. cbn [negb].
    apply HasSuffix_spec in Hs as [p Hp]. rewrite Hp, TrimSuffix_app. cbv zeta.
    case_decide as Hp0; [done |]. destruct (HasSuffix p [comma]) eqn:Hc.
    + apply HasSuffix_spec in Hc as [q ->]. rewrite TrimSuffix_app. case_decide; [done |].
      intros Hq. apply negb_true_iff, contains_byte_false in Hq. left. exists q.
      rewrite <- (split_join t), Hp, <- app_assoc by done. cbn [app].
      by rewrite split_app, split_join, split_plain by done.
    + rewrite (TrimSuffix_none p) by done. rewrite decide_False by done. intros Hq.
      apply negb_true_iff, contains_byte_false in Hq. right.
      destruct b as [|r rest]; [done |]. exists p, r, rest. split; [done |]. split; [done |].
      rewrite <- join_glue in Hp. apply Forall_cons in Pb as [[Hr1 Hr2] Pr].
      apply join_inj in Hp; [done | done | done | done |]. constructor; [| done].
      split; [by destruct p |]. rewrite elem_of_app. tauto.
  - intros [[r ->]|(x & r & rest & Hx & -> & ->)].
    + apply Forall_cons in Pt as [[Hr1 Hr2] _]. rewrite join_cons by done.
      change (r ++ comma :: join b) with (r ++ [comma] ++ join b). rewrite app_assoc.
      rewrite HasSuffix_app, TrimSuffix_app. cbn [negb]. cbv zeta.
      rewrite decide_False by by destruct r. rewrite TrimSuffix_app, decide_False by done.
      by apply negb_true_iff, contains_byte_false.
    + apply Forall_cons in Pt as [[_ Hc] _]. apply not_in_app_l in Hc.
      rewrite join_glue, HasSuffix_app, TrimSuffix_app. cbn [negb]. cbv zeta.
      rewrite decide_False by done. rewrite TrimSuffix_none.
      * rewrite decide_False by done. by apply negb_true_iff, contains_byte_false.
      * apply not_true_iff_false. intros [q ->]%HasSuffix_spec. apply Hc.
        apply elem_of_app. right. by left.
Qed.


(** a one-level rule reaches entries that are no children of its target: any
    entry whose first RDN ends with the target's first RDN, the rest being equal, is
    taken for a child, because no comma is required between them. *)
Theorem acl_one_level_overmatch rule x r rest
    (Hx : x <> []) (Hb : plain_dn (r :: rest)) (Ht : plain_dn ((x ++ r) :: rest))
    (Hr : acl_Target rule = join (r :: rest)) (Hs : acl_Scope rule = 1) (Hw : join (r :: rest) <> str "*") :
  MatchesTarget rule (join ((x ++ r) :: rest)) = true /\ ~ child_of (r :: rest) ((x ++ r) :: rest).
Proof.
  split.
  - destruct (plain_lowered _ Hb) as [Nb Pb]. destruct (plain_lowered _ Ht) as [Nt Pt].
    unfold MatchesTarget. cbv zeta. rewrite Hr, !ToLower_join by done. rewrite Hs.
    case_decide; [done |]. rewrite decide_False, decide_True by done. apply isImmediateChild_spec; [done | done | done | done |].
    right. exists (lower_ascii x), (lower_ascii r), (lowered rest).
    split; [by destruct x |]. split; [done |]. cbn. unfold lower_ascii. by rewrite fmap_app.
  - intros [r' E]. injection E as _ E. apply (f_equal length) in E. simpl in E. lia.
Qed.

(** ** Replicated changes *)

Definition well_formed (rule : ACL) : Prop :=
  0 <= acl_Scope rule <= 2 /\ 0 <= acl_Rights rule <= 63.

Lemma parse_rights_strings k :
  (k < 64)%nat -> parse_rights 0 (rightsToStrings (Z.of_nat k)) = Ok (Z.of_nat k).
Proof. intros Hk. do 64 (destruct k as [|k]; [by vm_compute |]). lia. Qed.

(** A rule survives its conversion to replicated data. *)
Lemma ruleData_roundtrip rule : well_formed rule -> ruleDataToACL (aclToRuleData rule) = Ok rule.
Proof.
  destruct rule as [t sc su ri at_ de]. intros [Hs Hr]. cbn [acl_Scope acl_Rights] in *.
  unfold ruleDataToACL, aclToRuleData. cbn.
  assert (parse_scope (Scope_String sc) = Ok sc) as ->.
  { assert (sc = 0 \/ sc = 1 \/ sc = 2) as [->|[->| ->]] by lia; by vm_compute. }
  replace ri with (Z.of_nat (Z.to_nat ri)) by lia. rewrite parse_rights_strings by lia. done.
Qed.

Lemma convert_roundtrip rules :
  Forall well_formed rules -> convert_rules (aclToRuleData <$> rules) = Ok rules.
Proof.
  induction rules as [|r rules IH]; intros Hw; [done |]. apply Forall_cons in Hw as [Hr Hw].
  rewrite fmap_cons. cbn [convert_rules]. by rewrite ruleData_roundtrip, IH.
Qed.

(** *** Requests of the REST interface *)

(** A right only adds bits, and all of them are below 64. *)
Lemma lor_rights k bit : 0 <= k <= 63 -> bit ∈ All :: right_names.*1 -> 0 <= Z.lor k bit <= 63 /\ Z.lor k All = All.
Proof.
  intros Hk Hb. assert (forallb (fun k => bool_decide (Z.lor (Z.of_nat k) All = All)
    && forallb (fun b => bool_decide (0 <= Z.lor (Z.of_nat k) b <= 63)) (All :: right_names.*1)) (seq 0 64) = true) as E by (vm_compute; reflexivity).
  rewrite forallb_forall in E. specialize (E (Z.to_nat k) ltac:(apply in_seq; lia)). rewrite Z2Nat.id in E by lia.
  apply andb_true_iff in E as [E1%bool_decide_eq_true E2]. split; [| done]. rewrite forallb_forall in E2.
  apply list_elem_of_In, E2 in Hb. by apply bool_decide_eq_true in Hb.
Qed.

Lemma find_app {A} (p : A -> bool) l k : List.find p (l ++ k) = match List.find p l with Some x => Some x | None => List.find p k end.
Proof. induction l as [|x l IH]; [done |]. cbn. by destruct (p x). Qed.

(** The two parsers of rights agree on names without spaces around them. *)
Lemma parse_rights_agree rs acc x :
  0 <= acc <= 63 -> Forall (fun r => TrimSpace r = r) rs -> ParseRights acc rs = Ok x -> parse_rights acc rs = Ok x.
Proof.
  intros Ha Hr. revert acc Ha. induction Hr as [|r rs Hr _ IH]; intros acc Ha; cbn [ParseRights parse_rights]; [done |].
  rewrite Hr. unfold parse_right. rewrite find_app.
  destruct (List.find (fun p => bytes_eqb p.2 (ToLower r)) right_names) as [[bit nm]|] eqn:E.
  - intros Hp. apply IH; [| done]. apply find_some in E as [E%list_elem_of_In _].
    apply (lor_rights acc bit Ha). apply elem_of_cons. right. apply list_elem_of_fmap. by exists (bit, nm).
  - cbn [List.find snd]. unfold bytes_eqb. case_bool_decide as Eq; [| done]. rewrite (decide_True (P := ToLower r = str "all")) by done.
    pose proof (lor_rights acc All Ha ltac:(left)) as [_ ->]. intros Hp. by apply IH.
Qed.

(** The rule names its scope, and neither scope nor rights have spaces around them. *)
Definition plainly (j : ACLRuleJSON) : Prop :=
  ToLower (j_Scope j) <> [] /\ TrimSpace (j_Scope j) = j_Scope j /\ Forall (fun r => TrimSpace r = r) (j_Rights j).

(** A replica makes of such a rule what the server itself makes of it. *)
Lemma rule_agrees j rule : plainly j -> jsonToACLRule j = Ok rule -> ruleDataToACL (aclRuleToRaftData j) = Ok rule.
Proof.
  intros (Hs & Ht & Hr) Hj. unfold jsonToACLRule in Hj. unfold ruleDataToACL, aclRuleToRaftData. cbn.
  destruct (ParseRights 0 (j_Rights j)) as [x| | |] eqn:Ex; try done. cbn [mbind outcome_bind] in Hj.
  rewrite decide_False in Hj by (intros E; apply Hs; by rewrite E).
  assert (forall sc, ParseScope (j_Scope j) = Ok sc -> parse_scope (j_Scope j) = Ok sc) as Hsc.
  { unfold parse_scope, ParseScope. rewrite Ht. cbv zeta. intros sc.
    destruct (decide (ToLower (j_Scope j) = str "base")) as [E|E]; [by rewrite decide_True by tauto |].
    rewrite (decide_False (P := _ \/ ToLower (j_Scope j) = [])) by tauto. repeat case_decide; first [done | tauto]. }
  destruct (ParseScope (j_Scope j)) as [sc| | |]; try done. by rewrite (Hsc sc), (parse_rights_agree _ 0 x).
Qed.

(** A replica reads a command from the log and applies it. *)
Definition replicate (bs : bytes) : M (option Manager) unit := fun o =>
  match DeserializeCommand bs with
  | Ok cmd => applyACLCommand cmd o
  | Err e => (Err e, o)
  | Panic => (Panic, o)
  | Diverge => (Diverge, o)
  end.

Definition payload (c : acl_request) (version : Z) : ACLCommand :=
  match c with
  | AddAt j index | UpdateAt index j => mkACLCommand [] [] (Some (aclRuleToRaftData j)) index version
  | DeleteAt index => mkACLCommand [] [] None index version
  | DefaultTo policy => mkACLCommand policy [] None 0 version
  end.

(** The request fits the wire format: no string of 64 KB, no more than 65535 rights or
    attributes, an index of 32 bits. *)
Definition sendable (c : acl_request) (version : Z) : Prop :=
  is_uint64 version /\ len (SerializeACLCommand (payload c version)) < 2 ^ 32 /\
  match c with
  | AddAt j index | UpdateAt index j => plainly j /\ valid_rule (aclRuleToRaftData j) /\ - 2 ^ 31 <= index < 2 ^ 31
  | DeleteAt index => - 2 ^ 31 <= index < 2 ^ 31
  | DefaultTo policy => short policy
  end.

Lemma replicate_command c o :
  len (ACLData c) < 2 ^ 32 -> c = config_command (CmdType c) [] (ACLData c) ->
  replicate (Command_Serialize c) o = applyACLCommand c o.
Proof.
  intros Hl Hc. unfold replicate. rewrite Command_roundtrip; [done |]. rewrite Hc. by unfold valid_command, short.
Qed.

(** What a replica runs for a request. *)
Definition applied (c : acl_request) : M Manager unit :=
  match c with
  | AddAt j index => AddRuleFromRaft (Some (aclRuleToRaftData j)) index
  | UpdateAt index j => UpdateRuleFromRaft (Some (aclRuleToRaftData j)) index
  | DeleteAt index => DeleteRuleFromRaft index
  | DefaultTo policy => SetDefaultPolicyFromRaft policy
  end.

Lemma replicate_applied c version cmd m :
  sendable c version -> cluster_request c version = Ok cmd ->
  replicate (Command_Serialize cmd) (Some m) = (let '(r, m) := applied c m in (r, Some m))
  /\ replicate (Command_Serialize cmd) None = (Ok tt, None).
Proof.
  intros (Hv & Hlen & Hc) Hcmd.
  assert (cmd = config_command (CmdType cmd) [] (SerializeACLCommand (payload c version))
    /\ ACLData cmd = SerializeACLCommand (payload c version)
    /\ CmdType cmd = match c with AddAt _ _ => CmdACLAddRule | UpdateAt _ _ => CmdACLUpdateRule | DeleteAt _ => CmdACLDeleteRule | DefaultTo _ => CmdACLSetDefault end)
    as (E & Ed & Et).
  { destruct c as [j i|i j|i|p]; cbn [cluster_request] in Hcmd; [destruct (jsonToACLRule j); try done; cbn in Hcmd.. | |]; by injection Hcmd as <-. }
  rewrite !replicate_command by (rewrite ?Ed; done). split; [| done]. unfold applyACLCommand, dispatchACL.
  rewrite bind_run. unfold lift at 1. rewrite Ed, ACLCommand_roundtrip; last first.
  { unfold valid_acl, short. destruct c; cbn in *; split_and!; try done; try tauto; try lia. }
  rewrite Et. by destruct c as [j i|i j|i|p].
Qed.

Ltac run_manager :=
  repeat (rewrite ?bind_run; unfold gets, modify, lift, mret, M_ret, fail, set_rules, set_policy;
          cbn match beta).

(** The two forms of a request, on the same configuration. *)
Lemma applied_local c cfg v rc v' rc' m1 :
  match c with AddAt j _ | UpdateAt _ j => plainly j | _ => True end ->
  standalone_request c (mkManager cfg v rc) = (Ok tt, m1) ->
  exists m1', applied c (mkManager cfg v' rc') = (Ok tt, m1') /\ config m1' = config m1.
Proof.
  destruct c as [j i|i j|i|policy]; cbn [standalone_request applied]; intros Hw.
  - rewrite bind_run. unfold lift at 1. destruct (jsonToACLRule j) as [rule| | |] eqn:Ej; try done.
    unfold AddRule, ValidateRule, AddRuleFromRaft, rule_from_data, insert_rule, IncrementVersion.
    rewrite (rule_agrees j rule) by done. repeat (case_decide; [done |]). run_manager.
    intros [= <-]. by eexists.
  - rewrite bind_run. unfold lift at 1. destruct (jsonToACLRule j) as [rule| | |] eqn:Ej; try done.
    unfold UpdateRule, ValidateRule, UpdateRuleFromRaft, rule_from_data, replace_rule, IncrementVersion.
    rewrite (rule_agrees j rule) by done. repeat (case_decide; [done |]). run_manager.
    change (out_of_range i (mkManager cfg v' rc')) with (out_of_range i (mkManager cfg v rc)).
    destruct (out_of_range i _); [done |]. run_manager. intros [= <-]. by eexists.
  - unfold DeleteRule, DeleteRuleFromRaft, remove_rule, IncrementVersion. run_manager.
    change (out_of_range i (mkManager cfg v' rc')) with (out_of_range i (mkManager cfg v rc)).
    destruct (out_of_range i _); [done |]. run_manager. intros [= <-]. by eexists.
  - unfold SetDefaultPolicy, SetDefaultPolicyFromRaft, IncrementVersion. cbv zeta.
    destruct (valid_policy _); [| done]. run_manager. intros [= <-]. by eexists.
Qed.

(** A request that the server carries out is also proposed. *)
Lemma request_proposed c version m m1 : standalone_request c m = (Ok tt, m1) -> exists cmd, cluster_request c version = Ok cmd.
Proof.
  destruct c as [j i|i j|i|policy]; cbn [standalone_request cluster_request]; try by eexists.
  all: rewrite bind_run; unfold lift at 1; destruct (jsonToACLRule j); try done; by eexists.
Qed.

(** C29: a change of the rules through the REST interface has in a cluster the effect it has on a
    standalone server. A request that the handler of a standalone server carries out is, by the
    handler of a leader, made a command; through the log's wire format every replica with the
    same configuration and an access control manager comes to the same rules and policy, and one
    without a manager skips it. The request fits the wire format, and a rule in it names its
    scope and has no spaces around scope and rights ([acl_scopeless_diverges]). A full update
    replaces the configuration of a replica by the sender's. *)
Theorem acl_replication version c m m' m1
    (Hs : sendable c version) (Hm : config m = config m')
    (Hl : standalone_request c m = (Ok tt, m1)) :
  (exists cmd m1', cluster_request c version = Ok cmd
     /\ replicate (Command_Serialize cmd) (Some m') = (Ok tt, Some m1') /\ config m1' = config m1
     /\ replicate (Command_Serialize cmd) None = (Ok tt, None)) /\
  let full := CreateACLFullUpdateCommand (ToRuleDataSlice m) (conf_DefaultPolicy (config m)) version in
  (Forall well_formed (conf_Rules (config m)) -> len (ACLData full) < 2 ^ 32 ->
   valid_acl (mkACLCommand (conf_DefaultPolicy (config m)) (ToRuleDataSlice m) None 0 version) ->
   forall m0, exists m2, replicate (Command_Serialize full) (Some m0) = (Ok tt, Some m2) /\ config m2 = config m).
Proof.
  split.
  - destruct (request_proposed c version m m1 Hl) as [cmd Hcmd]. destruct (replicate_applied c version cmd m' Hs Hcmd) as [Hsome Hnone].
    destruct m as [cfg v rc], m' as [cfg' v' rc']. cbn [config] in Hm. subst cfg'.
    destruct (applied_local c cfg v rc v' rc' m1) as (m1' & Ha & Hc); [destruct Hs as (_ & _ & Hc); destruct c; tauto | done |].
    rewrite Ha in Hsome. by exists cmd, m1'.
  - intros full Hw Hlen Hv m0. rewrite replicate_command by done.
    unfold applyACLCommand, dispatchACL. rewrite bind_run. unfold lift at 1.
    change (ACLData full) with (SerializeACLCommand (mkACLCommand (conf_DefaultPolicy (config m))
      (ToRuleDataSlice m) None 0 version)).
    rewrite ACLCommand_roundtrip by done. cbn match. rewrite decide_True by done.
    unfold ApplyFullConfigFromRaft, ToRuleDataSlice, IncrementVersion. cbn [Rules DefaultPolicy].
    rewrite convert_roundtrip by done. run_manager. eexists. split; [done |].
    cbn [config]. by destruct (config m).
Qed.

(** a rule without a scope is a subtree rule on a standalone server, and a rule for the one entry
    when it comes out of the log of a cluster. *)
Theorem acl_scopeless_diverges j rule (Hs : j_Scope j = []) (Hr : Forall (fun r => TrimSpace r = r) (j_Rights j))
    (Hj : jsonToACLRule j = Ok rule) :
  acl_Scope rule = ScopeSubtree /\ exists rule', ruleDataToACL (aclRuleToRaftData j) = Ok rule' /\ acl_Scope rule' = ScopeBase.
Proof.
  unfold jsonToACLRule in Hj. destruct (ParseRights 0 (j_Rights j)) as [x| | |] eqn:Ex; try done. cbn [mbind outcome_bind] in Hj.
  rewrite decide_True in Hj by done. cbn in Hj. injection Hj as <-. split; [done |]. unfold ruleDataToACL, aclRuleToRaftData. cbn.
  rewrite Hs. unfold parse_scope. rewrite ToLower_ascii by done. rewrite decide_True by by right. rewrite (parse_rights_agree _ 0 x) by done. by eexists.
Qed.

End Theorems.

(** ** Examples *)

(** Tables that change nothing beyond ASCII. *)
#[local] Instance ascii_tables : UnicodeTables := {|
  lower_unicode s := s;
  fold_unicode s t := bool_decide (s = t)
|}.

Definition users : list gostring := [str "OU=Users"; str "dc=example"; str "dc=com"].
Definition alice : list gostring := [str "uid=alice"; str "ou=users"; str "dc=example"; str "dc=com"].

Lemma plain_dn_check l :
  bool_decide (l <> []) && forallb (fun r => bool_decide (r <> []) && bool_decide (comma ∉ r)) l
    && is_ascii (join l) = true -> plain_dn l.
Proof.
  intros [[H1%bool_decide_eq_true H2]%andb_true_iff H3]%andb_true_iff. split; [done |].
  split; [| done]. apply Forall_forall. intros r Hr. rewrite forallb_forall in H2.
  specialize (H2 r). rewrite <- list_elem_of_In in H2. apply H2, andb_true_iff in Hr as [E1 E2].
  by apply bool_decide_eq_true in E1, E2.
Qed.


Lemma acl_one_level_overmatch_witness :
  MatchesTarget (mkACL (str "ou=users,dc=com") 1 (str "*") Read [] false) (str "cn=x+ou=users,dc=com") = true.
Proof.
  apply (acl_one_level_overmatch (mkACL (str "ou=users,dc=com") 1 (str "*") Read [] false)
           (str "cn=x+") (str "ou=users") [str "dc=com"]);
    first [done | by vm_compute | apply plain_dn_check; by vm_compute].
Defined.

Lemma acl_replication_witness :
  let m := mkManager NewConfig 0 0 in
  let j := mkACLRuleJSON (str "*") (str "authenticated") (str "Sub") [str "read"; str "SEARCH"] [] false in
  let rule := mkACL (str "*") 2 (str "authenticated") (Z.lor Read Search) [] false in
  exists cmd m1', cluster_request (AddAt j (-1)) 7 = Ok cmd
    /\ replicate (Command_Serialize cmd) (Some m) = (Ok tt, Some m1') /\ conf_Rules (config m1') = [rule].
Proof.
  intros m j rule.
  destruct (acl_replication 7 (AddAt j (-1)) m m (mkManager (mkConfig (str "deny") [rule]) 0 0))
    as [(cmd & m1' & H0 & H1 & H2 & _) _].
  - unfold sendable. split; [done |]. split; [by vm_compute |]. split; [| split; [| done]].
    + split_and!; [by vm_compute | by vm_compute | repeat (constructor; [by vm_compute |]); constructor].
    + unfold valid_rule, short. split_and!; try (by vm_compute); repeat (constructor; [by vm_compute |]); constructor.
  - done.
  - by vm_compute.
  - exists cmd, m1'. split; [exact H0 |]. split; [exact H1 |]. by rewrite H2.
Defined.

Lemma acl_scopeless_diverges_witness :
  exists rule', ruleDataToACL (aclRuleToRaftData (mkACLRuleJSON (str "dc=x") (str "*") [] [str "read"] [] false)) = Ok rule' /\ acl_Scope rule' = 0.
Proof.
  apply (acl_scopeless_diverges (mkACLRuleJSON (str "dc=x") (str "*") [] [str "read"] [] false) (mkACL (str "dc=x") 2 (str "*") Read [] false));
    [done | repeat (constructor; [by vm_compute |]); constructor | by vm_compute].
Defined.
