(* ===== verification/FilterEval.v ===== *)
(** * Search filters and their evaluation (src/internal/filter)

    The filter type of types.go, the matching rules of match.go and the evaluator of
    evaluator.go. Case mapping beyond ASCII is the parameter [UnicodeTables]; the
    order in which Go visits a map is the parameter [MapIteration]. *)

From S2P Require Import Prelude GoStrings.

(** ** types.go *)

Definition FilterAnd : Z := 0.
Definition FilterOr : Z := 1.
Definition FilterNot : Z := 2.
Definition FilterEquality : Z := 3.
Definition FilterSubstring : Z := 4.
Definition FilterGreaterOrEqual : Z := 5.
Definition FilterLessOrEqual : Z := 6.
Definition FilterPresent : Z := 7.
Definition FilterApproxMatch : Z := 8.
Definition FilterExtensible : Z := 9.

Record SubstringFilter := mkSubstringFilter {
  sub_Attribute : gostring;
  sub_Initial : bytes;
  sub_Any : list bytes;
  sub_Final : bytes
}.

(** A filter is a pointer in the source: where it may be nil it is an [option]. *)
Inductive Filter : Type := mkFilter {
  f_Type : Z;
  f_Attribute : gostring;
  f_Value : bytes;
  f_Children : list (option Filter);
  f_Child : option Filter;
  f_Substring : option SubstringFilter
}.

Definition NewAndFilter (children : list (option Filter)) : Filter :=
  mkFilter FilterAnd [] [] children None None.
Definition NewOrFilter (children : list (option Filter)) : Filter :=
  mkFilter FilterOr [] [] children None None.
Definition NewNotFilter (child : option Filter) : Filter :=
  mkFilter FilterNot [] [] [] child None.
Definition NewEqualityFilter (attribute : gostring) (value : bytes) : Filter :=
  mkFilter FilterEquality attribute value [] None None.
Definition NewSubstringFilter (sf : SubstringFilter) : Filter :=
  mkFilter FilterSubstring (sub_Attribute sf) [] [] None (Some sf).
Definition NewPresentFilter (attribute : gostring) : Filter :=
  mkFilter FilterPresent attribute [] [] None None.
Definition NewGreaterOrEqualFilter (attribute : gostring) (value : bytes) : Filter :=
  mkFilter FilterGreaterOrEqual attribute value [] None None.
Definition NewLessOrEqualFilter (attribute : gostring) (value : bytes) : Filter :=
  mkFilter FilterLessOrEqual attribute value [] None None.
Definition NewApproxMatchFilter (attribute : gostring) (value : bytes) : Filter :=
  mkFilter FilterApproxMatch attribute value [] None None.

Record Entry := mkEntry {
  e_DN : gostring;
  e_Attributes : gmap gostring (list bytes)
}.

Definition NewEntry (dn : gostring) : Entry := mkEntry dn ∅.

Definition SetAttribute (e : Entry) (name : gostring) (values : list bytes) : Entry :=
  mkEntry (e_DN e) (<[name := values]> (e_Attributes e)).

Definition GetAttribute (e : Entry) (name : gostring) : list bytes :=
  default [] (e_Attributes e !! name).

Definition HasAttribute (e : Entry) (name : gostring) : bool :=
  bool_decide (is_Some (e_Attributes e !! name)).

Section Filters.
Context `{UnicodeTables} `{MapIteration}.

(** ** match.go *)

Definition matchEquality (a b : bytes) : bool := EqualFold a b.

(** The slice expression [s[pos:]]. *)
Definition slice_from (s : bytes) (pos : Z) : outcome bytes :=
  if decide (0 <= pos <= len s) then Ok (drop (Z.to_nat pos) s) else Panic.

(** The loop over [any]; [None] is its [return false]. *)
Fixpoint match_any (valueLower : bytes) (any : list bytes) (pos : Z) : outcome (option Z) :=
  match any with
  | [] => Ok (Some pos)
  | substr :: any =>
      if decide (len substr = 0) then match_any valueLower any pos
      else
        let substrLower := ToLower substr in
        rest ← slice_from valueLower pos;
        let idx := Index rest substrLower in
        if decide (idx < 0) then Ok None
        else match_any valueLower any (pos + (idx + len substr))
  end.

Definition match_final (valueLower final : bytes) (pos : Z) : outcome bool :=
  if decide (len final > 0) then
    rest ← slice_from valueLower pos;
    Ok (HasSuffix rest (ToLower final))
  else Ok true.

Definition matchSubstring (value initial : bytes) (any : list bytes) (final : bytes) : outcome bool :=
  let valueLower := ToLower value in
  if bool_decide (len initial > 0) && negb (HasPrefix valueLower (ToLower initial)) then Ok false
  else
    let pos := if decide (len initial > 0) then len initial else 0 in
    found ← match_any valueLower any pos;
    match found with
    | None => Ok false
    | Some pos => match_final valueLower final pos
    end.

Definition matchGreaterOrEqual (value threshold : bytes) : bool :=
  bool_decide (Compare (ToLower value) (ToLower threshold) >= 0).

Definition matchLessOrEqual (value threshold : bytes) : bool :=
  bool_decide (Compare (ToLower value) (ToLower threshold) <= 0).

Definition is_white (b : byte) : bool :=
  byte_eqb b x20 || byte_eqb b x09 || byte_eqb b x0a || byte_eqb b x0d.

(** The loop that collapses white space. The source ranges over runes and writes them back; its
    input is what [strings.ToLower] returns, which is ASCII or valid UTF-8 ([strings.Map] has
    replaced invalid bytes by U+FFFD), so runes are written back as they were, and the bytes of
    a rune beyond ASCII are all different from the four characters. *)
Fixpoint collapse (inWhitespace : bool) (s : gostring) : gostring :=
  match s with
  | [] => []
  | r :: s =>
      if is_white r then
        if inWhitespace then collapse true s else x20 :: collapse true s
      else r :: collapse false s
  end.

Definition normalizeForApprox (value : bytes) : bytes :=
  TrimSpace (collapse false (ToLower value)).

Definition matchApprox (a b : bytes) : bool :=
  bytes_eqb (normalizeForApprox a) (normalizeForApprox b).

Definition normalizeAttributeName (name : gostring) : gostring := ToLower name.

(** ** evaluator.go *)

(** [for _, x := range l { if p(x) { return true } }; return false]. *)
Definition for_any {A} (p : A -> outcome bool) : list A -> outcome bool :=
  fix go l :=
    match l with
    | [] => Ok false
    | x :: l => found ← p x; if found : bool then Ok true else go l
    end.

(** [for _, x := range l { if !p(x) { return false } }; return true]. *)
Definition for_all {A} (p : A -> outcome bool) : list A -> outcome bool :=
  fix go l :=
    match l with
    | [] => Ok true
    | x :: l => holds ← p x; if holds : bool then go l else Ok false
    end.

(** A nil result and an empty one are the same list. *)
Definition getAttributeValues (attr : gostring) (entry : Entry) : list bytes :=
  match e_Attributes entry !! attr with
  | Some values => values
  | None =>
      let attrLower := normalizeAttributeName attr in
      match List.find (fun '(name, _) => bytes_eqb (normalizeAttributeName name) attrLower)
              (range (e_Attributes entry)) with
      | Some (_, values) => values
      | None => []
      end
  end.

Definition evaluateEquality (attr : gostring) (value : bytes) (entry : Entry) : outcome bool :=
  for_any (fun v => Ok (matchEquality v value)) (getAttributeValues attr entry).

Definition evaluateSubstring (sf : option SubstringFilter) (entry : Entry) : outcome bool :=
  match sf with
  | None => Ok false
  | Some sf =>
      for_any (fun v => matchSubstring v (sub_Initial sf) (sub_Any sf) (sub_Final sf))
        (getAttributeValues (sub_Attribute sf) entry)
  end.

Definition evaluatePresent (attr : gostring) (entry : Entry) : outcome bool :=
  Ok (bool_decide (len (getAttributeValues attr entry) > 0)).

Definition evaluateGreaterOrEqual (attr : gostring) (value : bytes) (entry : Entry) : outcome bool :=
  for_any (fun v => Ok (matchGreaterOrEqual v value)) (getAttributeValues attr entry).

Definition evaluateLessOrEqual (attr : gostring) (value : bytes) (entry : Entry) : outcome bool :=
  for_any (fun v => Ok (matchLessOrEqual v value)) (getAttributeValues attr entry).

Definition evaluateApproxMatch (attr : gostring) (value : bytes) (entry : Entry) : outcome bool :=
  for_any (fun v => Ok (matchApprox v value)) (getAttributeValues attr entry).

Definition evaluateAnd (ev : option Filter -> outcome bool) (children : list (option Filter))
    : outcome bool :=
  for_all ev children.

Definition evaluateOr (ev : option Filter -> outcome bool) (children : list (option Filter))
    : outcome bool :=
  for_any ev children.

Definition evaluateNot (ev : Filter -> outcome bool) (child : option Filter) : outcome bool :=
  match child with
  | None => Ok false
  | Some child => r ← ev child; Ok (negb r)
  end.

(** The evaluation of a filter that is not nil. *)
Fixpoint evaluate (f : Filter) (entry : Entry) : outcome bool :=
  match f with
  | mkFilter type attr value children child substring =>
      if decide (type = FilterAnd) then
        evaluateAnd (fun c => match c with Some c => evaluate c entry | None => Ok false end) children
      else if decide (type = FilterOr) then
        evaluateOr (fun c => match c with Some c => evaluate c entry | None => Ok false end) children
      else if decide (type = FilterNot) then
        evaluateNot (fun c => evaluate c entry) child
      else if decide (type = FilterEquality) then evaluateEquality attr value entry
      else if decide (type = FilterSubstring) then evaluateSubstring substring entry
      else if decide (type = FilterPresent) then evaluatePresent attr entry
      else if decide (type = FilterGreaterOrEqual) then evaluateGreaterOrEqual attr value entry
      else if decide (type = FilterLessOrEqual) then evaluateLessOrEqual attr value entry
      else if decide (type = FilterApproxMatch) then evaluateApproxMatch attr value entry
      else Ok false
  end.

Definition Evaluate (f : option Filter) (entry : option Entry) : outcome bool :=
  match f, entry with
  | Some f, Some entry => evaluate f entry
  | _, _ => Ok false
  end.

End Filters.
