(* ===== verification/FilterSemantics.v ===== *)
(** * What a filter means

    A declarative semantics of the filters of RFC 4511 on entries, without reference
    to the evaluator: substrings by the existence of a decomposition, ordering by
    the lexicographic order, approximate matching by the words of a text. The
    evaluator decides it, and never panics, on text: printable ASCII and white space. *)

From S2P Require Import Prelude GoStrings BerEncoder LdapMessage LdapSearch FilterEval.

(** ** Semantics *)

Definition has_value (e : Entry) (attr : gostring) (P : bytes -> Prop) : Prop :=
  exists name values v,
    e_Attributes e !! name = Some values /\ lower_ascii name = lower_ascii attr
    /\ v ∈ values /\ P v.

(** [spread final any s]: the components of [any] occur in [s] one after the other,
    and [final] ends what is left. *)
Inductive spread (final : bytes) : list bytes -> bytes -> Prop :=
| spread_final g : spread final [] (g ++ final)
| spread_any g a any s : spread final any s -> spread final (a :: any) (g ++ a ++ s).

Definition fits (c : SubstringComponents) (v : bytes) : Prop :=
  exists rest,
    lower_ascii v = lower_ascii (Initial c) ++ rest
    /\ spread (lower_ascii (Final c)) (lower_ascii <$> Any c) rest.

Definition whiten (b : byte) : byte := if is_white b then x20 else b.

(** The maximal runs without white space. *)
Definition words (s : gostring) : list gostring :=
  base.filter (fun w => w <> []) (Split x20 (whiten <$> s)).

Definition compares (k : comparison) (value v : bytes) : Prop :=
  match k with
  | Equality => lower_ascii v = lower_ascii value
  | GreaterOrEqual => lex_le (lower_ascii value) (lower_ascii v)
  | LessOrEqual => lex_le (lower_ascii v) (lower_ascii value)
  | ApproxMatch => words (lower_ascii v) = words (lower_ascii value)
  end.

Fixpoint satisfies (e : Entry) (f : filter) : Prop :=
  match f with
  | FAnd fs => foldr (fun f P => satisfies e f /\ P) True fs
  | FOr fs => foldr (fun f P => satisfies e f \/ P) False fs
  | FNot f => ~ satisfies e f
  | FCompare k attr value => has_value e attr (compares k value)
  | FSubstrings attr c => has_value e attr (fits c)
  | FPresent attr => has_value e attr (fun _ => True)
  | FExtensible _ => False
  end.

(** ** Text *)

Definition text (s : bytes) : Prop := Forall (fun b => ink b = true \/ is_white b = true) s.

Fixpoint text_filter (f : filter) : Prop :=
  match f with
  | FAnd fs | FOr fs => foldr (fun f P => text_filter f /\ P) True fs
  | FNot f => text_filter f
  | FCompare _ attr value => text attr /\ text value
  | FSubstrings attr c =>
      text attr /\ text (Initial c) /\ Forall text (Any c) /\ text (Final c)
  | FPresent attr => text attr
  | FExtensible _ => True
  end.

(** An entry of text whose attribute names differ in more than case. *)
Definition text_entry (e : Entry) : Prop :=
  map_Forall (fun name values => text name /\ Forall text values) (e_Attributes e)
  /\ forall n1 n2, is_Some (e_Attributes e !! n1) -> is_Some (e_Attributes e !! n2) ->
       lower_ascii n1 = lower_ascii n2 -> n1 = n2.

(** ** Outcomes that decide a proposition *)

Definition decides (r : outcome bool) (P : Prop) : Prop := exists b, r = Ok b /\ (b = true <-> P).

Lemma decides_iff r P Q : (P <-> Q) -> decides r P -> decides r Q.
Proof. intros E (b & -> & Hb). exists b. by rewrite Hb. Qed.

#[export] Instance decides_proper r : Proper (iff ==> iff) (decides r).
Proof. intros P Q E. by split; apply decides_iff. Qed.

Lemma decides_Ok (b : bool) P : (b = true <-> P) -> decides (Ok b) P.
Proof. by exists b. Qed.

Lemma decides_bool (P : Prop) `{Decision P} : decides (Ok (bool_decide P)) P.
Proof. apply decides_Ok, bool_decide_eq_true. Qed.

Lemma decides_any {A} (p : A -> outcome bool) (P : A -> Prop) l :
  (forall x, x ∈ l -> decides (p x) (P x)) -> decides (for_any p l) (exists x, x ∈ l /\ P x).
Proof.
  induction l as [|x l IH]; intros Hl; [exists false; split; [done |]; set_solver |].
  cbn. destruct (Hl x ltac:(set_solver)) as ([|] & -> & Hx); cbn; [exists true; set_solver |].
  eapply decides_iff; [| apply IH; set_solver]. set_solver.
Qed.

Lemma decides_all {A} (p : A -> outcome bool) (P : A -> Prop) l :
  (forall x, x ∈ l -> decides (p x) (P x)) -> decides (for_all p l) (forall x, x ∈ l -> P x).
Proof.
  induction l as [|x l IH]; intros Hl; [exists true; split; [done |]; set_solver |].
  cbn. destruct (Hl x ltac:(set_solver)) as ([|] & -> & Hx); cbn; [| exists false; set_solver].
  eapply decides_iff; [| apply IH; set_solver]. set_solver.
Qed.

(** ** Text and lower case *)

Lemma text_ascii s : text s -> is_ascii s = true.
Proof.
  intros Ht. apply is_ascii_spec, (Forall_impl _ _ _ Ht). intros b [Hb|Hb].
  - apply bool_decide_eq_true in Hb. lia.
  - unfold is_white, byte_eqb in Hb. rewrite !orb_true_iff, !bool_decide_eq_true in Hb.
    by destruct Hb as [[[ -> | -> ]| -> ]| -> ].
Qed.

Lemma text_lower s : text s -> text (lower_ascii s).
Proof.
  intros Ht. apply Forall_fmap, (Forall_impl _ _ _ Ht). intros b. by destruct b.
Qed.

Lemma ToLower_text `{UnicodeTables} s : text s -> ToLower s = lower_ascii s.
Proof. intros Ht. by apply ToLower_ascii, text_ascii. Qed.

Lemma len_lower s : len (lower_ascii s) = len s.
Proof. unfold len, lower_ascii. by rewrite length_fmap. Qed.

(** ** Substrings *)

Lemma spread_nil final s : spread final [] s <-> exists g, s = g ++ final.
Proof. split; [inversion 1; by eexists | intros [g ->]; constructor]. Qed.

Lemma spread_cons final a any s :
  spread final (a :: any) s <-> exists g s', s = g ++ a ++ s' /\ spread final any s'.
Proof.
  split; [inversion 1; by eauto | intros (g & s' & -> & Hs); by constructor].
Qed.

Lemma spread_mono final any g s : spread final any s -> spread final any (g ++ s).
Proof. intros []; rewrite app_assoc; by constructor. Qed.

Section Match.
Context `{UnicodeTables}.

Lemma slice_from_app (pre rest : bytes) : slice_from (pre ++ rest) (len pre) = Ok rest.
Proof.
  unfold slice_from. rewrite decide_True by len_lia. unfold len. by rewrite Nat2Z.id, drop_app_length.
Qed.

Lemma decides_final pre rest final :
  text final -> decides (match_final (pre ++ rest) final (len pre)) (spread (lower_ascii final) [] rest).
Proof.
  intros Ht. unfold match_final. rewrite spread_nil, ToLower_text by done. case_decide as Hl.
  - rewrite slice_from_app. apply decides_Ok, HasSuffix_spec.
  - assert (final = []) as -> by (apply len_zero_nil; len_lia). apply decides_Ok.
    split; [| done]. intros _. exists rest. by rewrite app_nil_r.
Qed.

Lemma decides_substrings any pre rest final :
  text final -> Forall text any ->
  decides (found ← match_any (pre ++ rest) any (len pre);
           match found with Some pos => match_final (pre ++ rest) final pos | None => Ok false end)
    (spread (lower_ascii final) (lower_ascii <$> any) rest).
Proof.
  intros Hf Ha. revert pre rest. induction Ha as [|a any Ht Ha IH]; intros pre rest.
  { by apply decides_final. }
  cbn [match_any fmap list_fmap]. case_decide as Hl.
  - apply len_zero_nil in Hl as ->. eapply decides_iff; [| apply IH]. rewrite spread_cons. split.
    + intros Hs. by exists [], rest.
    + intros (g & s' & -> & Hs). by apply spread_mono.
  - rewrite slice_from_app, ToLower_text by done. cbn [mbind outcome_bind]. cbv zeta.
    case_decide as Hi.
    + apply decides_Ok. split; [done |]. rewrite spread_cons. intros (g & s' & E & _).
      by apply (Index_none _ _ Hi) in E.
    + destruct (Index_found rest (lower_ascii a)) as (g & r & E & Hg & Hmin); [lia |].
      replace (len pre + (Index rest (lower_ascii a) + len a))
        with (len (pre ++ g ++ lower_ascii a)) by (rewrite !len_app, len_lower; lia).
      assert (pre ++ rest = (pre ++ g ++ lower_ascii a) ++ r) as -> by (rewrite E, <- !app_assoc; done).
      eapply decides_iff; [| apply IH]. rewrite spread_cons. split; [by eauto |].
      intros (g' & s' & E' & Hs). rewrite E, !app_assoc in E'.
      destruct (app_suffix _ _ _ _ E') as [x ->]; [| by apply spread_mono].
      assert (len g <= len g') by (apply (Hmin g' s'); by rewrite E, app_assoc, E', <- app_assoc).
      len_lia.
Qed.

Lemma decides_matchSubstring v c :
  text v -> text (Initial c) -> Forall text (Any c) -> text (Final c) ->
  decides (matchSubstring v (Initial c) (Any c) (Final c)) (fits c v).
Proof.
  intros Hv Hi Ha Hf. unfold matchSubstring, fits. cbv zeta. rewrite !ToLower_text by done.
  destruct (HasPrefix (lower_ascii v) (lower_ascii (Initial c))) eqn:Hp.
  - rewrite andb_false_r. apply HasPrefix_spec in Hp as [rest E]. rewrite E.
    replace (if decide _ then _ else _) with (len (lower_ascii (Initial c))).
    + eapply decides_iff; [| by apply decides_substrings]. split.
      * intros Hs. by exists rest.
      * intros (r & E' & Hs). by apply app_inv_head in E' as ->.
    + rewrite len_lower. case_decide; len_lia.
  - rewrite HasPrefix_false in Hp. rewrite bool_decide_true.
    + apply decides_Ok. split; [done |]. intros (r & E & _). by apply Hp in E.
    + destruct (Initial c); [by destruct (Hp (lower_ascii v)) | len_lia].
Qed.
End Match.

(** ** Words *)

Definition starts_white (s : gostring) : bool := match s with b :: _ => is_white b | [] => false end.

Lemma whiten_space b : byte_eqb (whiten b) x20 = is_white b.
Proof. by destruct b. Qed.

Lemma words_white b s : is_white b = true -> words (b :: s) = words s.
Proof. intros Hb. unfold words. cbn [fmap list_fmap Split]. by rewrite whiten_space, Hb. Qed.

(** A character that is not white starts a word, or belongs to the one that follows. *)
Lemma words_ink b s :
  is_white b = false ->
  words (b :: s) =
    match s, words s with
    | c :: _, w :: ws => if is_white c then [b] :: w :: ws else (b :: w) :: ws
    | _, _ => [[b]]
    end.
Proof.
  intros Hb. unfold words. cbn [fmap list_fmap Split]. rewrite whiten_space, Hb.
  assert (whiten b = b) as -> by (unfold whiten; by rewrite Hb).
  destruct s as [|c s]; [done |]. cbn [fmap list_fmap Split]. rewrite whiten_space.
  destruct (is_white c) eqn:Hc.
  - rewrite !filter_cons. rewrite decide_True by done. rewrite decide_False by auto.
    by destruct (base.filter _ _).
  - destruct (Split x20 (whiten <$> s)); rewrite !filter_cons, !decide_True by done; done.
Qed.

Lemma words_plain s : Forall (fun w => w <> [] /\ x20 ∉ w /\ forall b, b ∈ w -> b ∈ s) (words s).
Proof.
  induction s as [|b s IH]; [constructor |]. destruct (is_white b) eqn:Hb.
  - rewrite words_white by done. apply (Forall_impl _ _ _ IH). set_solver.
  - assert (b <> x20) by (intros ->; done).
    assert (Forall (fun w => w <> [] /\ x20 ∉ w /\ forall c, c ∈ w -> c ∈ b :: s) (words s)) as IH'
      by (apply (Forall_impl _ _ _ IH); set_solver).
    rewrite words_ink by done. destruct s as [|c s]; [apply Forall_singleton; set_solver |].
    destruct (words (c :: s)) as [|w ws]; [apply Forall_singleton; set_solver |].
    destruct (is_white c); [constructor; [set_solver | done] |].
    apply Forall_cons in IH' as [Hw Hws]. constructor; [set_solver | done].
Qed.

(** Collapsing white space joins the words by single spaces, up to padding. *)
Lemma collapse_words s :
  exists q,
    collapse false s = pad (starts_white s) ++ Join x20 (words s) ++ pad q
    /\ collapse true s = Join x20 (words s) ++ pad q
    /\ (words s = [] -> q = false).
Proof.
  induction s as [|b s (q & IHf & IHt & Hq)]; [by exists false |]. cbn [collapse starts_white].
  destruct (is_white b) eqn:Hb.
  { exists q. rewrite words_white by done. by rewrite IHt. }
  rewrite words_ink by done. destruct s as [|c s]; [by exists false |].
  rewrite IHf. cbn [starts_white]. destruct (words (c :: s)) as [|w ws] eqn:Hw.
  - rewrite (Hq eq_refl). exists (is_white c). split_and!; [| | done]; by destruct (is_white c).
  - exists q. destruct (is_white c); split_and!; try done; cbn [pad app].
    + by destruct ws.
    + by destruct ws.
Qed.

Lemma Join_trimmed l :
  l <> [] -> Forall (fun w => w <> [] /\ Forall (fun b => ink b = true) w) l -> trimmed (Join x20 l).
Proof.
  intros Hl Hp. split.
  - destruct l as [|w l]; [done |]. apply Forall_cons in Hp as [[Hw Hi] _].
    destruct w as [|a w]; [done |]. apply Forall_cons in Hi as [Ha _].
    destruct l; [by exists a, w |]. rewrite join_cons by done. by eexists a, _.
  - destruct l as [|w l _] using rev_ind; [done |]. apply Forall_app in Hp as [_ Hp].
    apply Forall_cons in Hp as [[Hw Hi] _].
    destruct w as [|b w _] using rev_ind; [done |]. apply Forall_app in Hi as [_ Hi].
    apply Forall_cons in Hi as [Hb _]. destruct l as [|r l]; [by exists w, b |].
    rewrite join_app by done. exists (Join x20 (r :: l) ++ x20 :: w), b.
    split; [| done]. cbn [Join]. by rewrite <- app_assoc.
Qed.

Lemma words_nonwhite s : Forall (fun w => forall b, b ∈ w -> is_white b = false) (words s).
Proof.
  induction s as [|b s IH]; [constructor |]. destruct (is_white b) eqn:Hb; [by rewrite words_white |].
  rewrite words_ink by done.
  assert (forall c, c ∈ [b] -> is_white c = false) by (intros c ->%list_elem_of_singleton; done).
  destruct s as [|c s]; [by repeat constructor |].
  destruct (words (c :: s)) as [|w ws]; [by repeat constructor |].
  destruct (is_white c); [by constructor |]. apply Forall_cons in IH as [Hw Hws].
  constructor; [| done]. intros d [->|Hd]%elem_of_cons; [done | by apply Hw].
Qed.

Lemma words_text s :
  text s -> Forall (fun w => w <> [] /\ Forall (fun b => ink b = true) w) (words s).
Proof.
  intros Ht. pose proof (words_plain s) as Hp. pose proof (words_nonwhite s) as Hn.
  rewrite Forall_forall in *. intros w Hw. destruct (Hp w Hw) as (Hne & _ & Hsub).
  split; [done |]. apply Forall_forall. intros b Hb. unfold text in Ht. rewrite Forall_forall in Ht.
  destruct (Ht b (Hsub b Hb)) as [Hi|Hi]; [done |]. rewrite (Hn w Hw b Hb) in Hi. done.
Qed.

Lemma normalize_words `{UnicodeTables} s :
  text s -> normalizeForApprox s = Join x20 (words (lower_ascii s)).
Proof.
  intros Ht. unfold normalizeForApprox. rewrite ToLower_text by done.
  pose proof (words_text _ (text_lower _ Ht)) as Hw.
  destruct (collapse_words (lower_ascii s)) as (q & -> & _ & Hq).
  destruct (words (lower_ascii s)) as [|w ws] eqn:E.
  - rewrite (Hq eq_refl). by destruct (starts_white (lower_ascii s)).
  - by apply TrimSpace_pad, Join_trimmed.
Qed.

Lemma Join_words_inj s t : Join x20 (words s) = Join x20 (words t) -> words s = words t.
Proof.
  assert (forall s, Join x20 (words s) = [] -> words s = []) as Hn.
  { intros u. pose proof (words_plain u) as Hu. destruct (words u) as [|w ws]; [done |].
    apply Forall_cons in Hu as [[Hw _] _]. destruct w; [done |]. by destruct ws. }
  intros E. destruct (decide (words s = [])) as [Hs|Hs].
  { rewrite Hs in *. symmetry in E. by rewrite (Hn t). }
  destruct (decide (words t = [])) as [Ht|Ht]; [rewrite Ht in *; by rewrite (Hn s) |].
  apply (Join_inj x20); try done.
  - apply (Forall_impl _ _ _ (words_plain s)). tauto.
  - apply (Forall_impl _ _ _ (words_plain t)). tauto.
Qed.

Lemma matchApprox_words `{UnicodeTables} a b :
  text a -> text b -> matchApprox a b = true <-> words (lower_ascii a) = words (lower_ascii b).
Proof.
  intros Ha Hb. unfold matchApprox, bytes_eqb. rewrite bool_decide_eq_true, !normalize_words by done.
  split; [apply Join_words_inj | by intros ->].
Qed.

(** ** The evaluator decides the semantics *)

(** The evaluator's value for a filter. *)
Fixpoint denote (f : filter) : Filter :=
  match f with
  | FAnd fs => NewAndFilter ((fun f => Some (denote f)) <$> fs)
  | FOr fs => NewOrFilter ((fun f => Some (denote f)) <$> fs)
  | FNot f => NewNotFilter (Some (denote f))
  | FCompare Equality attr value => NewEqualityFilter attr value
  | FCompare GreaterOrEqual attr value => NewGreaterOrEqualFilter attr value
  | FCompare LessOrEqual attr value => NewLessOrEqualFilter attr value
  | FCompare ApproxMatch attr value => NewApproxMatchFilter attr value
  | FSubstrings attr c =>
      NewSubstringFilter (mkSubstringFilter attr (Initial c) (Any c) (Final c))
  | FPresent attr => NewPresentFilter attr
  | FExtensible _ => mkFilter FilterExtensible [] [] [] None None
  end.

Lemma filter_nested_ind (P : filter -> Prop) :
  (forall fs, Forall P fs -> P (FAnd fs)) -> (forall fs, Forall P fs -> P (FOr fs)) ->
  (forall f, P f -> P (FNot f)) -> (forall k a v, P (FCompare k a v)) ->
  (forall a c, P (FSubstrings a c)) -> (forall a, P (FPresent a)) -> (forall c, P (FExtensible c)) ->
  forall f, P f.
Proof.
  intros Ha Ho Hn Hc Hs Hp He. fix IH 1. intros [fs|fs|f|k a v|a c|a|c]; [| | by apply Hn | done..].
  - apply Ha. induction fs; constructor; [apply IH | done].
  - apply Ho. induction fs; constructor; [apply IH | done].
Qed.

Lemma foldr_and {A} (P : A -> Prop) l : foldr (fun x Q => P x /\ Q) True l <-> forall x, x ∈ l -> P x.
Proof. induction l as [|x l IH]; cbn [foldr]; [set_solver |]. rewrite IH. set_solver. Qed.

Lemma foldr_or {A} (P : A -> Prop) l : foldr (fun x Q => P x \/ Q) False l <-> exists x, x ∈ l /\ P x.
Proof. induction l as [|x l IH]; cbn [foldr]; [set_solver |]. rewrite IH. set_solver. Qed.

Lemma for_all_fmap {A B} (p : B -> outcome bool) (g : A -> B) l :
  for_all p (g <$> l) = for_all (fun x => p (g x)) l.
Proof. induction l as [|x l IH]; [done |]. cbn. by rewrite IH. Qed.

Lemma for_any_fmap {A B} (p : B -> outcome bool) (g : A -> B) l :
  for_any p (g <$> l) = for_any (fun x => p (g x)) l.
Proof. induction l as [|x l IH]; [done |]. cbn. by rewrite IH. Qed.

Section Decide.
Context `{UnicodeTables} `{MapIteration}.

(** The values the evaluator looks at are those of the attribute, up to case. *)
Lemma getAttributeValues_spec attr e v :
  text attr -> text_entry e ->
  v ∈ getAttributeValues attr e <->
  exists name values, e_Attributes e !! name = Some values
    /\ lower_ascii name = lower_ascii attr /\ v ∈ values.
Proof.
  intros Ha [Ht Hd]. unfold getAttributeValues, normalizeAttributeName.
  assert (forall n vs, e_Attributes e !! n = Some vs -> text n) as Hn by (intros n vs E; by apply Ht in E as []).
  destruct (e_Attributes e !! attr) as [vs|] eqn:E.
  { split; [by eauto |]. intros (n & vs' & E' & Hl & Hv).
    assert (n = attr) as -> by (apply Hd; eauto). by simplify_eq. }
  destruct (List.find _ _) as [[n vs]|] eqn:F.
  - apply find_some in F as [F%list_elem_of_In F2%bool_decide_eq_true].
    rewrite range_perm in F. apply elem_of_map_to_list in F.
    rewrite !ToLower_text in F2 by eauto. split; [by eauto |]. intros (n' & vs' & E' & Hl & Hv).
    assert (n' = n) as -> by (apply Hd; [eauto | eauto | congruence]). by simplify_eq.
  - split; [set_solver |]. intros (n & vs & E' & Hl & Hv).
    assert (In (n, vs) (range (e_Attributes e))) as Hin.
    { apply list_elem_of_In. rewrite range_perm. by apply elem_of_map_to_list. }
    apply (find_none _ _ F) in Hin. apply bool_decide_eq_false in Hin.
    rewrite !ToLower_text in Hin by eauto. done.
Qed.

(** A loop over the values of an attribute. *)
Lemma decides_values attr e (p : bytes -> outcome bool) (P : bytes -> Prop) :
  text attr -> text_entry e -> (forall v, text v -> decides (p v) (P v)) ->
  decides (for_any p (getAttributeValues attr e)) (has_value e attr P).
Proof.
  intros Ha He Hp. eapply decides_iff; [| apply (decides_any p P)].
  - setoid_rewrite getAttributeValues_spec; [| done..]. unfold has_value. naive_solver.
  - intros v Hv. apply Hp. rewrite getAttributeValues_spec in Hv by done.
    destruct Hv as (n & vs & E & _ & Hv). destruct He as [Ht _].
    apply Ht in E as [_ Hvs]. rewrite Forall_forall in Hvs. by apply Hvs.
Qed.

Lemma decides_compare k attr value e :
  text attr -> text value -> text_entry e ->
  decides (evaluate (denote (FCompare k attr value)) e) (has_value e attr (compares k value)).
Proof.
  intros Ha Hv He. destruct k; cbn [denote evaluate]; apply decides_values; try done;
    intros v Ht; apply decides_Ok; cbn [compares].
  - unfold matchEquality, EqualFold. rewrite !text_ascii by done. apply bool_decide_eq_true.
  - unfold matchGreaterOrEqual. rewrite bool_decide_eq_true, !ToLower_text by done.
    rewrite <- (proj2 (Compare_spec _ _)). lia.
  - unfold matchLessOrEqual. rewrite bool_decide_eq_true, !ToLower_text by done.
    apply (proj1 (Compare_spec _ _)).
  - by apply matchApprox_words.
Qed.

Lemma decides_present attr e :
  text attr -> text_entry e ->
  decides (evaluate (denote (FPresent attr)) e) (has_value e attr (fun _ => True)).
Proof.
  intros Ha He. apply decides_Ok. rewrite bool_decide_eq_true. split.
  - pose proof (getAttributeValues_spec attr e) as Hs. intros Hl.
    destruct (getAttributeValues attr e) as [|v l]; [done |].
    destruct (Hs v) as [Hs' _]; [done | done |]. destruct Hs' as (n & vs & ? & ? & ?); [set_solver |].
    by exists n, vs, v.
  - intros (n & vs & v & E & Hl & Hv & _).
    assert (v ∈ getAttributeValues attr e) as Hin by (rewrite getAttributeValues_spec; eauto).
    destruct (getAttributeValues attr e); [set_solver | len_lia].
Qed.

(** On text the evaluator returns, and its answer is the semantics. *)
Lemma decides_evaluate f e : text_entry e -> text_filter f -> decides (evaluate (denote f) e) (satisfies e f).
Proof.
  intros He. induction f as [fs IH|fs IH|f IH|k a v|a c|a|c] using filter_nested_ind; intros Hf;
    cbn [text_filter satisfies] in *.
  - rewrite foldr_and in *. rewrite Forall_forall in IH. cbn. unfold evaluateAnd.
    rewrite for_all_fmap. apply decides_all. intros f Hin. by apply IH, Hf.
  - rewrite foldr_and in Hf. rewrite foldr_or. rewrite Forall_forall in IH. cbn. unfold evaluateOr.
    rewrite for_any_fmap. apply decides_any. intros f Hin. by apply IH, Hf.
  - destruct (IH Hf) as (b & Hb & Hs). cbn. rewrite Hb. apply decides_Ok. rewrite <- Hs. by destruct b.
  - destruct Hf. by apply decides_compare.
  - destruct Hf as (Ha & Hi & Hl & Hf). cbn. apply decides_values; [done | done |].
    intros v Hv. by apply decides_matchSubstring.
  - by apply decides_present.
  - apply decides_Ok. done.
Qed.
End Decide.
