(* ===== verification/Search.v ===== *)
(** * Search (src/internal/server, src/cmd/oba/serve.go)

    The search handler of the server package: validation, access control, the
    searchers for the three scopes with their limits, attribute selection
    (attributes.go), and the redaction of entries and attributes by access control;
    and the search handler the program installs (serve.go over backend.go). An
    iterator of the storage engine is the finite sequence of what it yields, with the
    error it reports before and after; the engine is the interface of engine.go. *)

From S2P Require Import Prelude GoStrings BerEncoder LdapMessage LdapRequests LdapSearch LdapResult.
From S2P Require Import Acl FilterEval.

(** ** Data *)

Definition ResultOperationsError : Z := 1.
Definition ResultProtocolError : Z := 2.
Definition ResultTimeLimitExceeded : Z := 3.
Definition ResultSizeLimitExceeded : Z := 4.
Definition ResultNoSuchObject : Z := 32.
Definition ResultInsufficientAccessRights : Z := 50.
Definition ResultUnwillingToPerform : Z := 53.

Definition ScopeBaseObject : Z := 0.
Definition ScopeSingleLevel : Z := 1.
Definition ScopeWholeSubtree : Z := 2.

(** [storage.Entry]. *)
Record StorageEntry := mkStorageEntry {
  se_DN : gostring;
  se_Attributes : gmap gostring (list bytes)
}.

Record SearchEntry := mkSearchEntry {
  entry_DN : gostring;
  entry_Attributes : list Attribute
}.

Record SearchResult := mkSearchResult {
  res_Code : Z;
  res_MatchedDN : gostring;
  res_Message : gostring;
  res_Entries : list SearchEntry
}.

Record SearchConfig := mkSearchConfig {
  MaxSizeLimit : Z;
  MaxTimeLimit : Z;
  DefaultSizeLimit : Z;
  DefaultTimeLimit : Z;
  ACLEvaluator : option Config
}.

Definition NewSearchConfig : SearchConfig := mkSearchConfig 1000 60 100 30 None.

(** An iterator: what [Error] says before the loop, what [Next] and [Entry] yield, and
    what [Error] says after the loop. *)
Record Iterator := mkIterator {
  it_start : option goerror;
  it_items : list (option StorageEntry);
  it_end : option goerror
}.

(** The backend's interface, as the handler uses it. *)
Record Backend := mkBackend {
  GetEntry : gostring -> outcome (option StorageEntry);
  SearchByDN : gostring -> Z -> option Iterator
}.

Section Search.
Context `{UnicodeTables} `{MapIteration}.

(** The readings of [time.Now()] during a call, in nanoseconds. *)
Context (now : nat -> Z).

(** ** Conversions *)

(** [for name, values := range m { result[name] = values }], for the names that pass. *)
Definition copy_attributes (p : gostring -> bool) (m result : gmap gostring (list bytes))
    : gmap gostring (list bytes) :=
  foldl (fun result '(name, values) => if p name then <[name := values]> result else result)
    result (range m).

Definition convertToFilterEntry (entry : StorageEntry) : Entry :=
  mkEntry (se_DN entry)
    (copy_attributes (fun _ => true) (se_Attributes entry) (e_Attributes (NewEntry (se_DN entry)))).

Definition substring_filter (attr : gostring) (c : SubstringComponents) : Filter :=
  NewSubstringFilter (mkSubstringFilter attr (Initial c) (Any c) (Final c)).

(** [convertSearchFilter] of search.go: a filter it does not know becomes nil. *)
Fixpoint convertSearchFilter (sf : SearchFilter) : option Filter :=
  match sf with
  | mkSearchFilter type attr value children child substrings _ =>
      if decide (type = FilterTagAnd) then Some (NewAndFilter (convertSearchFilter <$> children))
      else if decide (type = FilterTagOr) then Some (NewOrFilter (convertSearchFilter <$> children))
      else if decide (type = FilterTagNot) then
        Some (NewNotFilter match child with Some c => convertSearchFilter c | None => None end)
      else if decide (type = FilterTagEquality) then Some (NewEqualityFilter attr value)
      else if decide (type = FilterTagSubstrings) then substring_filter attr <$> substrings
      else if decide (type = FilterTagPresent) then Some (NewPresentFilter attr)
      else if decide (type = FilterTagGreaterOrEqual) then Some (NewGreaterOrEqualFilter attr value)
      else if decide (type = FilterTagLessOrEqual) then Some (NewLessOrEqualFilter attr value)
      else if decide (type = FilterTagApproxMatch) then Some (NewApproxMatchFilter attr value)
      else None
  end.

(** [ldapFilterToFilter] of search_base.go: children that become nil are dropped. *)
Fixpoint ldapFilterToFilter (sf : SearchFilter) : option Filter :=
  match sf with
  | mkSearchFilter type attr value children child substrings _ =>
      if decide (type = FilterTagAnd) then
        Some (NewAndFilter (Some <$> omap ldapFilterToFilter children))
      else if decide (type = FilterTagOr) then
        Some (NewOrFilter (Some <$> omap ldapFilterToFilter children))
      else if decide (type = FilterTagNot) then
        match child with
        | Some c => (fun c => NewNotFilter (Some c)) <$> ldapFilterToFilter c
        | None => None
        end
      else if decide (type = FilterTagEquality) then Some (NewEqualityFilter attr value)
      else if decide (type = FilterTagSubstrings) then substring_filter attr <$> substrings
      else if decide (type = FilterTagPresent) then Some (NewPresentFilter attr)
      else if decide (type = FilterTagGreaterOrEqual) then Some (NewGreaterOrEqualFilter attr value)
      else if decide (type = FilterTagLessOrEqual) then Some (NewLessOrEqualFilter attr value)
      else if decide (type = FilterTagApproxMatch) then Some (NewApproxMatchFilter attr value)
      else None
  end.

(** The searchers' [matchesFilter]: no filter, or one that cannot be converted,
    matches everything. *)
Definition matchesFilter (entry : StorageEntry) (searchFilter : option SearchFilter) : outcome bool :=
  match searchFilter with
  | None => Ok true
  | Some sf =>
      match ldapFilterToFilter sf with
      | None => Ok true
      | Some f => Evaluate (Some f) (Some (convertToFilterEntry entry))
      end
  end.

(** ** Attribute selection *)

(** The table of search.go. *)
Definition operationalAttrs : list gostring :=
  [str "createtimestamp"; str "modifytimestamp"; str "creatorsname"; str "modifiersname";
   str "entrydn"; str "entryuuid"; str "subschemasubentry"; str "hassubordinates";
   str "numsubordinates"; str "structuralobjectclass"].

Definition isOperationalAttribute (name : gostring) : bool :=
  bool_decide (ToLower name ∈ operationalAttrs).

(** The table of attributes.go, one of whose keys is not in lower case. *)
Definition operationalAttrs_rfc : list gostring :=
  operationalAttrs ++
  [str "namingcontexts"; str "supportedcontrol"; str "supportedextension"; str "supportedfeatures";
   str "supportedldapversion"; str "supportedsaslmechanisms"; str "pwdchangedtime";
   str "pwdaccountlockedtime"; str "pwdfailuretime"; str "pwdhistory"; str "pwdgraceuseTime";
   str "pwdreset"; str "pwdmustchange"; str "pwdpolicysubentry"].

Definition IsOperationalAttribute (name : gostring) : bool :=
  bool_decide (ToLower name ∈ operationalAttrs_rfc).

(** The loop over the attributes of an entry that stops at the first match. *)
Definition addAttribute (m result : gmap gostring (list bytes)) (attrName : gostring)
    : gmap gostring (list bytes) :=
  match List.find (fun '(name, _) => EqualFold name attrName) (range m) with
  | Some (name, values) => <[name := values]> result
  | None => result
  end.

Definition selectAttributes (entry : StorageEntry) (requestedAttrs : list gostring)
    : gmap gostring (list bytes) :=
  let m := se_Attributes entry in
  if decide (len requestedAttrs = 0) then m
  else
    let hasAllUser := existsb (fun attr => bytes_eqb (ToLower attr) (str "*")) requestedAttrs in
    let hasAllOp := existsb (fun attr => bytes_eqb (ToLower attr) (str "+")) requestedAttrs in
    let specificAttrs :=
      List.filter (fun attr => negb (bytes_eqb (ToLower attr) (str "*"))
                               && negb (bytes_eqb (ToLower attr) (str "+"))) requestedAttrs in
    let result := if hasAllUser : bool
                  then copy_attributes (fun name => negb (isOperationalAttribute name)) m ∅ else ∅ in
    let result := if hasAllOp : bool then copy_attributes isOperationalAttribute m result else result in
    foldl (addAttribute m) result specificAttrs.

Record AttributeSelector := mkAttributeSelector {
  requestedAttrs : list gostring;
  hasAllUser : bool;
  hasAllOp : bool;
  specificAttrs : list gostring
}.

Definition select_one (s : AttributeSelector) (attr : gostring) : AttributeSelector :=
  let a := ToLower (TrimSpace attr) in
  if decide (a = str "*") then
    mkAttributeSelector (requestedAttrs s) true (hasAllOp s) (specificAttrs s)
  else if decide (a = str "+") then
    mkAttributeSelector (requestedAttrs s) (hasAllUser s) true (specificAttrs s)
  else if decide (a = str "1.1") then s
  else if decide (attr = []) then s
  else mkAttributeSelector (requestedAttrs s) (hasAllUser s) (hasAllOp s) (specificAttrs s ++ [attr]).

Definition NewAttributeSelector (requested : list gostring) : AttributeSelector :=
  foldl select_one (mkAttributeSelector requested false false []) requested.

Definition selectAllUserAttributes (entry : StorageEntry) : gmap gostring (list bytes) :=
  copy_attributes (fun name => negb (IsOperationalAttribute name)) (se_Attributes entry) ∅.

Definition Select (s : AttributeSelector) (entry : StorageEntry) : gmap gostring (list bytes) :=
  let m := se_Attributes entry in
  match requestedAttrs s with
  | [] => selectAllUserAttributes entry
  | first :: rest =>
      if bool_decide (len (requestedAttrs s) = 1) && bytes_eqb (TrimSpace first) (str "1.1") then ∅
      else
        let result := if hasAllUser s
                      then copy_attributes (fun name => negb (IsOperationalAttribute name)) m ∅ else ∅ in
        let result := if hasAllOp s then copy_attributes IsOperationalAttribute m result else result in
        foldl (addAttribute m) result (specificAttrs s)
  end.

Definition SelectAttributes (entry : StorageEntry) (requested : list gostring)
    : gmap gostring (list bytes) :=
  Select (NewAttributeSelector requested) entry.

(** The attribute list of a result entry, from the selected attributes. *)
Definition attribute_list (selected : gmap gostring (list bytes)) (typesOnly : bool) : list Attribute :=
  (fun '(name, values) => mkAttribute name (if typesOnly then [] else values)) <$> range selected.

Definition buildSearchEntry (entry : StorageEntry) (requested : list gostring) (typesOnly : bool)
    : SearchEntry :=
  mkSearchEntry (se_DN entry) (attribute_list (selectAttributes entry requested) typesOnly).

Definition buildSearchEntryFromStorage (entry : StorageEntry) (requested : list gostring)
    (typesOnly : bool) : SearchEntry :=
  mkSearchEntry (se_DN entry) (attribute_list (SelectAttributes entry requested) typesOnly).

(** ** The searchers *)

Definition failure (code : Z) (msg : string) : SearchResult := mkSearchResult code [] (str msg) [].

(** The effective limit: the request's, else the default, at most the maximum. *)
Definition effective_limit (requested dflt maximum : Z) : Z :=
  let limit := if decide (requested = 0) then dflt else requested in
  if decide (maximum > 0 /\ (limit = 0 \/ limit > maximum)) then maximum else limit.

(** The loop of [processResults]; [i] counts the readings of the clock. *)
Fixpoint process_items (req : SearchRequest) (sizeLimit timeLimit deadline : Z) (i : nat)
    (items : list (option StorageEntry)) (count : Z) (entries : list SearchEntry)
    : outcome (Z * list SearchEntry) :=
  match items with
  | [] => Ok (ResultSuccess, entries)
  | item :: items =>
      if decide (sizeLimit > 0 /\ count >= sizeLimit) then Ok (ResultSizeLimitExceeded, entries)
      else if decide (timeLimit > 0 /\ now i > deadline) then Ok (ResultTimeLimitExceeded, entries)
      else
        match item with
        | None => process_items req sizeLimit timeLimit deadline (S i) items count entries
        | Some entry =>
            matched ← matchesFilter entry (Some (SearchRequestFilter req));
            if matched : bool then
              let searchEntry :=
                buildSearchEntryFromStorage entry (SearchAttributes req) (TypesOnly req) in
              process_items req sizeLimit timeLimit deadline (S i) items (count + 1)
                (entries ++ [searchEntry])
            else process_items req sizeLimit timeLimit deadline (S i) items count entries
        end
  end.

Definition processResults (req : SearchRequest) (config : SearchConfig) (iter : Iterator)
    : outcome SearchResult :=
  let sizeLimit := effective_limit (SizeLimit req) (DefaultSizeLimit config) (MaxSizeLimit config) in
  let timeLimit := effective_limit (TimeLimit req) (DefaultTimeLimit config) (MaxTimeLimit config) in
  let deadline := now 0 + int64 (timeLimit * 1000000000) in
  '(code, entries) ← process_items req sizeLimit timeLimit deadline 1 (it_items iter) 0 [];
  if decide (code <> ResultSuccess) then Ok (mkSearchResult code [] [] entries)
  else
    match it_end iter with
    | Some _ =>
        Ok (mkSearchResult ResultOperationsError [] (str "error during search iteration") entries)
    | None => Ok (mkSearchResult ResultSuccess [] [] entries)
    end.

(** [Search] of the one-level and the subtree searcher. *)
Definition searcher_Search (scope : Z) (backend : Backend) (req : SearchRequest)
    (config : SearchConfig) : outcome SearchResult :=
  match SearchByDN backend (BaseObject req) scope with
  | None => Ok (failure ResultOperationsError "failed to create search iterator")
  | Some iter =>
      match it_start iter with
      | Some _ => Ok (failure ResultNoSuchObject "base object not found")
      | None => processResults req config iter
      end
  end.

Definition OneLevelSearcher_Search := searcher_Search ScopeSingleLevel.
Definition SubtreeSearcher_Search := searcher_Search ScopeWholeSubtree.

(** The result of a lookup by [GetEntry], given what it means to match and to build. *)
Definition base_result (found : outcome (option StorageEntry))
    (matches : StorageEntry -> outcome bool) (build : StorageEntry -> SearchEntry)
    : outcome SearchResult :=
  match found with
  | Err _ => Ok (failure ResultOperationsError "internal error during search")
  | Ok None => Ok (mkSearchResult ResultNoSuchObject [] [] [])
  | Ok (Some entry) =>
      matched ← matches entry;
      Ok (mkSearchResult ResultSuccess [] [] (if matched : bool then [build entry] else []))
  | Panic => Panic
  | Diverge => Diverge
  end.

(** [BaseSearcher.Search] of search_base.go. *)
Definition BaseSearcher_Search (backend : Backend) (req : SearchRequest) : outcome SearchResult :=
  base_result (GetEntry backend (BaseObject req))
    (fun entry => matchesFilter entry (Some (SearchRequestFilter req)))
    (fun entry => buildSearchEntryFromStorage entry (SearchAttributes req) (TypesOnly req)).

(** [searchBase] of search.go, with the other conversion and the other selection. *)
Definition searchBase (backend : Backend) (req : SearchRequest) : outcome SearchResult :=
  base_result (GetEntry backend (BaseObject req))
    (fun entry =>
       match convertSearchFilter (SearchRequestFilter req) with
       | None => Ok true
       | Some f => Evaluate (Some f) (Some (convertToFilterEntry entry))
       end)
    (fun entry => buildSearchEntry entry (SearchAttributes req) (TypesOnly req)).

(** ** The handler *)

Definition CanSearch (c : Config) (bindDN targetDN : gostring) : bool :=
  CheckAccess c (Some (mkAccessContext bindDN targetDN Search)).

Definition CanRead (c : Config) (bindDN targetDN : gostring) : bool :=
  CheckAccess c (Some (mkAccessContext bindDN targetDN Read)).

Definition filterEntryAttributes (c : Config) (bindDN : gostring) (entry : SearchEntry) : SearchEntry :=
  let ctx := mkAccessContext bindDN (entry_DN entry) Read in
  mkSearchEntry (entry_DN entry)
    (List.filter (fun attr => CheckAttributeAccess c (Some ctx) (Type_ attr)) (entry_Attributes entry)).

Definition filterEntriesByACL (c : Config) (bindDN : gostring) (entries : list SearchEntry)
    : list SearchEntry :=
  filterEntryAttributes c bindDN <$>
    List.filter (fun entry => CanRead c bindDN (entry_DN entry)) entries.

Definition validateRequest (req : SearchRequest) : option goerror :=
  if decide (SizeLimit req < 0) then Some ErrInvalidSearchScope
  else if decide (TimeLimit req < 0) then Some ErrInvalidSearchScope
  else None.

(** The dispatch on the scope. [hasSearcher] says whether the one-level and subtree
    searchers are configured. *)
Definition dispatch (config : SearchConfig) (hasSearcher : bool) (backend : Backend)
    (req : SearchRequest) : outcome SearchResult :=
  if decide (Scope req = ScopeBaseObject) then searchBase backend req
  else if decide (Scope req = ScopeSingleLevel) then
    if hasSearcher then OneLevelSearcher_Search backend req config
    else Ok (failure ResultUnwillingToPerform "single level search not configured")
  else
    if hasSearcher then SubtreeSearcher_Search backend req config
    else Ok (failure ResultUnwillingToPerform "subtree search not configured").

Definition redact (config : SearchConfig) (bindDN : gostring) (r : SearchResult) : SearchResult :=
  match ACLEvaluator config with
  | Some c => mkSearchResult (res_Code r) (res_MatchedDN r) (res_Message r)
                (filterEntriesByACL c bindDN (res_Entries r))
  | None => r
  end.

Definition Handle (config : SearchConfig) (backend : option Backend) (hasSearcher : bool)
    (bindDN : gostring) (req : SearchRequest) : outcome SearchResult :=
  match validateRequest req with
  | Some _ => Ok (failure ResultProtocolError "ldap: invalid search scope")
  | None =>
      match backend with
      | None => Ok (failure ResultOperationsError "backend not configured")
      | Some backend =>
          if match ACLEvaluator config with
             | Some c => negb (CanSearch c bindDN (BaseObject req))
             | None => false
             end
          then Ok (failure ResultInsufficientAccessRights "insufficient access rights")
          else if decide (0 <= Scope req <= 2) then
            result ← dispatch config hasSearcher backend req;
            Ok (redact config bindDN result)
          else Ok (failure ResultProtocolError "invalid search scope")
      end
  end.

(** ** The handler of serve.go *)

(** [convertSearchFilter] of serve.go. *)
Fixpoint serve_convertSearchFilter (sf : SearchFilter) : Filter :=
  match sf with
  | mkSearchFilter type attr value children child substrings _ =>
      mkFilter type attr value
        ((fun c => Some (serve_convertSearchFilter c)) <$> children)
        match child with Some c => Some (serve_convertSearchFilter c) | None => None end
        ((fun c => mkSubstringFilter attr (Initial c) (Any c) (Final c)) <$> substrings)
  end.

(** [normalizeDN] of backend.go. *)
Definition normalizeDN (dn : gostring) : gostring := TrimSpace (ToLower dn).

(** [filterMatcherWrapper.Match]. *)
Definition Match (f : option Filter) (entry : StorageEntry) : outcome bool :=
  match f with
  | None => Ok true
  | Some f => Evaluate (Some f) (Some (convertToFilterEntry entry))
  end.

(** [convertFromStorageEntry]: attribute names in lower case. *)
Definition convertFromStorageEntry (entry : StorageEntry) : StorageEntry :=
  mkStorageEntry (se_DN entry)
    (foldl (fun m '(name, values) => <[ToLower name := values]> m) ∅ (range (se_Attributes entry))).

(** The storage engine's interface, as the search uses it: an error of [Begin], and
    the two kinds of iterators. *)
Record StorageEngine := mkStorageEngine {
  engine_Begin : option goerror;
  engine_SearchByDN : gostring -> Z -> Iterator;
  engine_SearchByFilter : gostring -> (StorageEntry -> outcome bool) -> outcome Iterator
}.

(** The iterator of [SearchByFilter]: the entries for which the matcher holds. *)
Fixpoint filter_items (m : StorageEntry -> outcome bool) (items : list (option StorageEntry))
    : outcome (list (option StorageEntry)) :=
  match items with
  | [] => Ok []
  | None :: items => filter_items m items
  | Some e :: items =>
      matched ← m e;
      rest ← filter_items m items;
      Ok (if matched : bool then Some e :: rest else rest)
  end.

(** What the engine promises the backend: a search by filter goes through the subtree
    of its base. [EngineTheorems.directory_search] shows what the handler answers over the
    model of the engine, without this promise. *)
Class FiltersSubtree (engine : StorageEngine) : Prop :=
  filters_subtree base m :
    base <> [] ->
    engine_SearchByFilter engine base m =
      (let it := engine_SearchByDN engine base ScopeWholeSubtree in
       items ← filter_items m (it_items it); Ok (mkIterator (it_start it) items (it_end it))).

(** [ObaBackend.Search]. *)
Definition backend_Search (engine : StorageEngine) (baseDN : gostring) (scope : Z) (f : option Filter)
    : outcome (list StorageEntry) :=
  let normalizedBaseDN := normalizeDN baseDN in
  match engine_Begin engine with
  | Some e => Err e
  | None =>
      iter ← match f with
             | Some _ => engine_SearchByFilter engine normalizedBaseDN (Match f)
             | None => Ok (engine_SearchByDN engine normalizedBaseDN scope)
             end;
      match it_end iter with
      | Some e => Err e
      | None => Ok (convertFromStorageEntry <$> omap id (it_items iter))
      end
  end.

(** The handler set by [SetSearchHandler]; [error_text] is [err.Error()]. *)
Definition serve_search (error_text : goerror -> gostring) (engine : StorageEngine)
    (req : SearchRequest) : outcome SearchResult :=
  let f := serve_convertSearchFilter (SearchRequestFilter req) in
  match backend_Search engine (BaseObject req) (Scope req) (Some f) with
  | Err e => Ok (mkSearchResult ResultOperationsError [] (error_text e) [])
  | Ok entries =>
      Ok (mkSearchResult ResultSuccess [] []
            ((fun e => mkSearchEntry (se_DN e) (attribute_list (se_Attributes e) false)) <$> entries))
  | Panic => Panic
  | Diverge => Diverge
  end.

End Search.
