(* ===== verification/SearchTheorems.v ===== *)
(** * Properties of filters and searches *)

From S2P Require Import Prelude GoStrings BerEncoder BerRoundtrip LdapMessage LdapRequests LdapSearch LdapResult.
From S2P Require Import Acl FilterEval FilterSemantics Search.

(** ** Conversions of filters *)

(** No extensible match anywhere. *)
Fixpoint supported (f : filter) : Prop :=
  match f with
  | FAnd fs | FOr fs => foldr (fun f P => supported f /\ P) True fs
  | FNot f => supported f
  | FExtensible _ => False
  | _ => True
  end.

Lemma serve_convert_represent f : serve_convertSearchFilter (represent f) = denote f.
Proof.
  induction f as [fs IH|fs IH|f IH|k a v|a c|a|c] using filter_nested_ind; cbn; try done.
  - unfold NewAndFilter. f_equal. rewrite <- list_fmap_compose. apply list_fmap_ext.
    intros i f Hf. cbn. f_equal. by apply (Forall_lookup_1 _ _ _ _ IH Hf).
  - unfold NewOrFilter. f_equal. rewrite <- list_fmap_compose. apply list_fmap_ext.
    intros i f Hf. cbn. f_equal. by apply (Forall_lookup_1 _ _ _ _ IH Hf).
  - unfold NewNotFilter. by rewrite IH.
  - by destruct k.
Qed.

(** The two ways of converting a list of children, when every child can be converted. *)
Lemma convert_children {X A B} (rep : X -> A) (g : A -> option B) (h : X -> B) (l : list X) :
  (forall x, x ∈ l -> g (rep x) = Some (h x)) ->
  g <$> (rep <$> l) = (fun x => Some (h x)) <$> l
  /\ Some <$> omap g (rep <$> l) = (fun x => Some (h x)) <$> l.
Proof.
  induction l as [|x l IH]; intros Hg; [done |]. destruct IH as [E1 E2]; [set_solver |].
  cbn in *. rewrite (Hg x) by set_solver. cbn. by rewrite E1, E2.
Qed.

Lemma convert_represent f :
  supported f ->
  convertSearchFilter (represent f) = Some (denote f) /\ ldapFilterToFilter (represent f) = Some (denote f).
Proof.
  induction f as [fs IH|fs IH|f IH|k a v|a c|a|c] using filter_nested_ind; cbn [supported]; intros Hs;
    try done.
  - rewrite foldr_and in Hs. rewrite Forall_forall in IH. cbn.
    destruct (convert_children represent convertSearchFilter denote fs) as [-> _];
      [by intros; apply IH, Hs |].
    destruct (convert_children represent ldapFilterToFilter denote fs) as [_ ->];
      [by intros; apply IH, Hs | done].
  - rewrite foldr_and in Hs. rewrite Forall_forall in IH. cbn.
    destruct (convert_children represent convertSearchFilter denote fs) as [-> _];
      [by intros; apply IH, Hs |].
    destruct (convert_children represent ldapFilterToFilter denote fs) as [_ ->];
      [by intros; apply IH, Hs | done].
  - destruct (IH Hs) as [E1 E2]. cbn. by rewrite E1, E2.
  - by destruct k.
Qed.

(** ** Copies of attributes *)

Section Attributes.
Context `{UnicodeTables} `{MapIteration}.

Lemma lookup_foldl_copy (p : gostring -> bool) (l : list (gostring * list bytes)) (r : gmap gostring (list bytes)) k :
  NoDup l.*1 ->
  foldl (fun r '(name, values) => if p name then <[name := values]> r else r) r l !! k =
  if p k then (list_to_map l : gmap gostring (list bytes)) !! k ∪ r !! k else r !! k.
Proof.
  revert r. induction l as [|[n v] l IH]; intros r Hd; cbn; [rewrite lookup_empty; by destruct (p k), (r !! k) |].
  apply NoDup_cons in Hd as [Hn Hd]. rewrite IH by done. destruct (decide (k = n)) as [->|Hk].
  - rewrite (not_elem_of_list_to_map_1 _ _ Hn). destruct (p n); [| done]. rewrite !lookup_insert_eq. by destruct (r !! n).
  - destruct (p n), (p k); by simplify_map_eq.
Qed.

Lemma lookup_copy p m r k :
  copy_attributes p m r !! k = if p k then m !! k ∪ r !! k else r !! k.
Proof. unfold copy_attributes. rewrite lookup_foldl_copy by apply range_keys. by rewrite range_map. Qed.

Lemma convertToFilterEntry_id e : convertToFilterEntry e = mkEntry (se_DN e) (se_Attributes e).
Proof.
  unfold convertToFilterEntry. f_equal. apply map_eq. intros k. rewrite lookup_copy. cbn.
  rewrite lookup_empty. by destruct (se_Attributes e !! k).
Qed.

(** Selections only hold attributes of the entry. *)
Lemma copy_subseteq p m r : r ⊆ m -> copy_attributes p m r ⊆ m.
Proof.
  rewrite !map_subseteq_spec. intros Hr k v. rewrite lookup_copy.
  specialize (Hr k v). destruct (p k), (m !! k), (r !! k); cbn; naive_solver.
Qed.

Lemma addAttributes_subseteq m l r : r ⊆ m -> foldl (addAttribute m) r l ⊆ m.
Proof.
  revert r. induction l as [|a l IH]; intros r Hr; [done |]. cbn. apply IH. unfold addAttribute.
  destruct (List.find _ _) as [[n v]|] eqn:F; [| done]. apply find_some in F as [F%list_elem_of_In _].
  apply elem_of_range in F. by apply insert_subseteq_l.
Qed.

Lemma selectAttributes_subseteq e l : selectAttributes e l ⊆ se_Attributes e.
Proof.
  unfold selectAttributes. case_decide; [done |]. cbv zeta. apply addAttributes_subseteq.
  destruct (existsb _ l), (existsb _ l); repeat apply copy_subseteq; apply map_empty_subseteq.
Qed.

Lemma SelectAttributes_subseteq e l : SelectAttributes e l ⊆ se_Attributes e.
Proof.
  unfold SelectAttributes, Select. cbv zeta. destruct (requestedAttrs _).
  { apply copy_subseteq, map_empty_subseteq. }
  destruct (_ && _); [apply map_empty_subseteq |]. apply addAttributes_subseteq.
  destruct (hasAllOp _), (hasAllUser _); repeat apply copy_subseteq; apply map_empty_subseteq.
Qed.
End Attributes.

(** ** The searchers *)

Section Searchers.
Context `{UnicodeTables} `{MapIteration} (now : nat -> Z).

Definition build (req : SearchRequest) (e : StorageEntry) : SearchEntry :=
  buildSearchEntryFromStorage e (SearchAttributes req) (TypesOnly req).

(** The entries that match among some items, and the two reasons to stop before item [k]. *)
Definition hits (hit : StorageEntry -> bool) (items : list (option StorageEntry)) : list StorageEntry :=
  List.filter hit (omap id items).

Definition full (sizeLimit : Z) (hit : StorageEntry -> bool) (items : list (option StorageEntry)) (k : nat) : Prop :=
  sizeLimit > 0 /\ len (hits hit (take k items)) >= sizeLimit.

Definition late (timeLimit deadline : Z) (k : nat) : Prop := timeLimit > 0 /\ now (S k) > deadline.

(** The loop over an iterator takes [k] items and returns [code]: it stops at the end, or at the
    first item before which the limit is reached or the deadline has passed. *)
Definition loop_result (sizeLimit timeLimit deadline : Z) (hit : StorageEntry -> bool)
    (items : list (option StorageEntry)) (k : nat) (code : Z) : Prop :=
  (forall j, (j < k)%nat -> ~ full sizeLimit hit items j /\ ~ late timeLimit deadline j)
  /\ (k = length items /\ code = ResultSuccess
      \/ (k < length items)%nat /\ full sizeLimit hit items k /\ code = ResultSizeLimitExceeded
      \/ (k < length items)%nat /\ ~ full sizeLimit hit items k /\ late timeLimit deadline k /\ code = ResultTimeLimitExceeded).

Lemma process_spec req hit sizeLimit timeLimit deadline items pre :
  (forall e, Some e ∈ items -> matchesFilter e (Some (SearchRequestFilter req)) = Ok (hit e)) ->
  (forall j, (j < length pre)%nat -> ~ full sizeLimit hit (pre ++ items) j /\ ~ late timeLimit deadline j) ->
  exists k code,
    process_items now req sizeLimit timeLimit deadline (S (length pre)) items (len (hits hit pre)) (build req <$> hits hit pre)
      = Ok (code, build req <$> hits hit (take k (pre ++ items)))
    /\ loop_result sizeLimit timeLimit deadline hit (pre ++ items) k code.
Proof.
  revert pre. induction items as [|item items IH]; intros pre Hm Hj; cbn [process_items].
  { rewrite app_nil_r in *. exists (length pre), ResultSuccess. rewrite firstn_all. split; [done |]. split; [done | by left]. }
  assert (forall z, full sizeLimit hit (pre ++ z) (length pre) <-> sizeLimit > 0 /\ len (hits hit pre) >= sizeLimit) as Hfull
    by (intros z; unfold full; by rewrite take_app_length).
  assert (length pre < length (pre ++ item :: items))%nat as Hlt by (rewrite length_app; cbn; lia).
  case_decide as Hsz.
  { exists (length pre), ResultSizeLimitExceeded. rewrite take_app_length. split; [done |]. split; [done |]. right. left. by rewrite Hfull. }
  case_decide as Htm.
  { exists (length pre), ResultTimeLimitExceeded. rewrite take_app_length. split; [done |]. split; [done |]. right. right. by rewrite Hfull. }
  assert (exists k code,
    process_items now req sizeLimit timeLimit deadline (S (S (length pre))) items (len (hits hit (pre ++ [item]))) (build req <$> hits hit (pre ++ [item]))
      = Ok (code, build req <$> hits hit (take k (pre ++ item :: items)))
    /\ loop_result sizeLimit timeLimit deadline hit (pre ++ item :: items) k code) as Hnext.
  { destruct (IH (pre ++ [item])) as (k & code & E & Hr); [set_solver | |].
    - rewrite <- app_assoc. cbn [app]. intros j Hlj. rewrite length_app in Hlj. cbn in Hlj.
      destruct (decide (j = length pre)) as [->|Hne]; [by rewrite Hfull | apply Hj; lia].
    - rewrite length_app, Nat.add_1_r, <- app_assoc in E. rewrite <- app_assoc in Hr. by exists k, code. }
  unfold hits in Hnext at 1 2. rewrite omap_app, List.filter_app in Hnext. fold (hits hit pre) in Hnext.
  destruct item as [e|]; cbn [omap list_omap id List.filter] in Hnext.
  - rewrite (Hm e) by set_solver. cbn [mbind outcome_bind]. destruct (hit e); [| by rewrite !app_nil_r in Hnext].
    cbv zeta. fold (build req e). by rewrite len_app, fmap_app in Hnext.
  - by rewrite !app_nil_r in Hnext.
Qed.

(** The matching function of a filter of the standard. *)
Definition hit (f : filter) (e : StorageEntry) : bool :=
  match evaluate (denote f) (convertToFilterEntry e) with Ok b => b | _ => false end.

Definition text_storage (e : StorageEntry) : Prop := text_entry (mkEntry (se_DN e) (se_Attributes e)).

Definition meets (f : filter) (e : StorageEntry) : Prop :=
  satisfies (mkEntry (se_DN e) (se_Attributes e)) f.

Lemma hit_spec f e :
  text_storage e -> text_filter f ->
  evaluate (denote f) (convertToFilterEntry e) = Ok (hit f e) /\ (hit f e = true <-> meets f e).
Proof.
  intros He Hf. unfold hit. rewrite convertToFilterEntry_id.
  destruct (decides_evaluate f _ He Hf) as (b & -> & Hb). done.
Qed.

Lemma matchesFilter_hit f e :
  supported f -> text_storage e -> text_filter f ->
  matchesFilter e (Some (represent f)) = Ok (hit f e).
Proof.
  intros Hs He Hf. unfold matchesFilter. rewrite (proj2 (convert_represent f Hs)).
  apply (hit_spec f e He Hf).
Qed.

(** The entries the caller may see of a result. *)
Definition visible (config : SearchConfig) (bindDN : gostring) (entries : list SearchEntry)
    : list SearchEntry :=
  match ACLEvaluator config with Some c => filterEntriesByACL c bindDN entries | None => entries end.

Definition may_search (config : SearchConfig) (bindDN base : gostring) : Prop :=
  match ACLEvaluator config with Some c => CanSearch c bindDN base = true | None => True end.

Lemma redact_visible config bindDN code m msg entries :
  redact config bindDN (mkSearchResult code m msg entries)
  = mkSearchResult code m msg (visible config bindDN entries).
Proof. unfold redact, visible. by destruct (ACLEvaluator config). Qed.

Lemma Handle_dispatch config backend hs bindDN req :
  0 <= SizeLimit req -> 0 <= TimeLimit req -> 0 <= Scope req <= 2 ->
  may_search config bindDN (BaseObject req) ->
  Handle now config (Some backend) hs bindDN req =
  (result ← dispatch now config hs backend req; Ok (redact config bindDN result)).
Proof.
  intros Hz Ht Hs Hm. unfold Handle, validateRequest. rewrite !decide_False by lia.
  rewrite (decide_True (P := 0 <= Scope req <= 2)) by done.
  unfold may_search in Hm. destruct (ACLEvaluator config); [by rewrite Hm | done].
Qed.

Lemma dispatch_searcher config backend req it :
  Scope req = 1 \/ Scope req = 2 -> SearchByDN backend (BaseObject req) (Scope req) = Some it ->
  it_start it = None -> dispatch now config true backend req = processResults now req config it.
Proof.
  intros [E|E] Hit Hst; unfold dispatch, OneLevelSearcher_Search, SubtreeSearcher_Search, searcher_Search;
    rewrite E in *; cbn [decide]; unfold ScopeSingleLevel, ScopeWholeSubtree; by rewrite Hit, Hst.
Qed.

Lemma elem_matched f items e :
  text_filter f -> (forall e, Some e ∈ items -> text_storage e) ->
  e ∈ List.filter (hit f) (omap id items) <-> Some e ∈ items /\ meets f e.
Proof.
  intros Ht He. rewrite list_elem_of_In, filter_In, <- list_elem_of_In, list_elem_of_omap. split.
  - intros [(x & Hx & Hid) Hh]. cbv [id] in Hid. subst x. split; [done |].
    by apply (hit_spec f e); [apply He | |].
  - intros [Hx Hm]. split; [by exists (Some e) |]. by apply (hit_spec f e); [apply He | |].
Qed.

(** C11: a one-level or subtree search that access control permits goes through the items of
    the backend's iterator up to the first one before which the effective size limit is reached
    or the deadline has passed, or to the end. It returns the entries among them that satisfy
    the filter, in order, rendered with the requested attributes and redacted by access control,
    and the code for the reason it stopped: success at the end, else size limit or, if that is
    not reached, time limit exceeded. The filter has no extensible match, and filter and entries
    are text (printable ASCII and white space); the iterator reports no error. *)
Theorem search_handler_correct config backend bindDN req f it
    (Hf : SearchRequestFilter req = represent f) (Hs : supported f) (Ht : text_filter f)
    (Hz : 0 <= SizeLimit req) (Hl : 0 <= TimeLimit req)
    (Hsc : Scope req = 1 \/ Scope req = 2)
    (Hit : SearchByDN backend (BaseObject req) (Scope req) = Some it)
    (Hst : it_start it = None) (Hen : it_end it = None)
    (He : forall e, Some e ∈ it_items it -> text_storage e)
    (Hacl : may_search config bindDN (BaseObject req)) :
  let sizeLimit := effective_limit (SizeLimit req) (DefaultSizeLimit config) (MaxSizeLimit config) in
  let timeLimit := effective_limit (TimeLimit req) (DefaultTimeLimit config) (MaxTimeLimit config) in
  exists k code,
    Handle now config (Some backend) true bindDN req
      = Ok (mkSearchResult code [] [] (visible config bindDN (build req <$> hits (hit f) (take k (it_items it)))))
    /\ loop_result sizeLimit timeLimit (now 0 + int64 (timeLimit * 1000000000)) (hit f) (it_items it) k code
    /\ forall e, Some e ∈ it_items it -> (hit f e = true <-> meets f e).
Proof.
  intros sizeLimit timeLimit.
  destruct (process_spec req (hit f) sizeLimit timeLimit (now 0 + int64 (timeLimit * 1000000000))
              (it_items it) []) as (k & code & E & Hr).
  { intros e Hin. rewrite Hf. by apply matchesFilter_hit; [| apply He |]. }
  { cbn. lia. }
  cbn [app length] in Hr. exists k, code. split_and!; [| done | intros e Hin; by apply hit_spec; [apply He |]].
  rewrite Handle_dispatch by (done || lia).
  rewrite (dispatch_searcher config backend req it) by done.
  unfold processResults. fold sizeLimit timeLimit. cbv zeta.
  change (len (hits (hit f) [])) with 0 in E. cbn [app length fmap list_fmap hits omap list_omap List.filter] in E. rewrite E.
  cbn [mbind outcome_bind app]. rewrite Hen. case_decide as Hc; cbn [mbind outcome_bind app]; rewrite redact_visible; [done |].
  by rewrite Hc.
Qed.
End Searchers.

(** ** Confidentiality *)

Section Confidential.
Context `{UnicodeTables} `{MapIteration} (now : nat -> Z).

(** The entries the backend offers for a request. *)
Definition offered (backend : Backend) (req : SearchRequest) (e : StorageEntry) : Prop :=
  GetEntry backend (BaseObject req) = Ok (Some e)
  \/ exists it, SearchByDN backend (BaseObject req) (Scope req) = Some it /\ Some e ∈ it_items it.

(** A result entry that shows nothing but attributes of a stored one. *)
Definition shows (req : SearchRequest) (stored : StorageEntry) (entry : SearchEntry) : Prop :=
  entry_DN entry = se_DN stored
  /\ forall a, a ∈ entry_Attributes entry ->
       exists values, se_Attributes stored !! Type_ a = Some values
         /\ Values a = if TypesOnly req then [] else values.

Lemma shows_list req stored m :
  m ⊆ se_Attributes stored ->
  shows req stored (mkSearchEntry (se_DN stored) (attribute_list m (TypesOnly req))).
Proof.
  intros Hm. split; [done |]. intros a Ha. cbn in Ha. unfold attribute_list in Ha.
  apply list_elem_of_fmap in Ha as ([n vs] & -> & Hin). apply elem_of_range in Hin.
  exists vs. split; [by eapply lookup_weaken | done].
Qed.

Lemma process_offered req sl tl dl items i count entries code out :
  process_items now req sl tl dl i items count entries = Ok (code, out) ->
  forall entry, entry ∈ out -> entry ∈ entries \/ exists e, Some e ∈ items /\ shows req e entry.
Proof.
  revert i count entries. induction items as [|item items IH]; intros i count entries Hr entry Hin;
    cbn [process_items] in Hr; [simplify_eq; by left |].
  repeat (case_decide; [simplify_eq; by left |]).
  destruct item as [e|]; [| destruct (IH _ _ _ Hr _ Hin); set_solver].
  destruct (matchesFilter _ _) as [[|]| | |]; try done; cbn in Hr.
  - destruct (IH _ _ _ Hr _ Hin) as [[Ho| ->%list_elem_of_singleton]%elem_of_app|(e' & He & Hs)].
    + by left.
    + right. exists e. split; [set_solver |]. apply shows_list, SelectAttributes_subseteq.
    + right. exists e'. set_solver.
  - destruct (IH _ _ _ Hr _ Hin) as [|(e' & He & Hs)]; [by left |]. right. exists e'. set_solver.
Qed.

Lemma searcher_offered scope backend req config r :
  searcher_Search now scope backend req config = Ok r ->
  forall entry, entry ∈ res_Entries r ->
  exists it e, SearchByDN backend (BaseObject req) scope = Some it /\ Some e ∈ it_items it /\ shows req e entry.
Proof.
  unfold searcher_Search. destruct (SearchByDN _ _ _) as [it|]; [| intros [= <-] entry Hin; set_solver].
  destruct (it_start it); [intros [= <-] entry Hin; set_solver |]. unfold processResults. cbv zeta.
  destruct (process_items _ _ _ _ _ _ _ _ _) as [[code out]| | |] eqn:E; [| done..].
  intros Hr entry Hin. cbn [mbind outcome_bind] in Hr.
  assert (entry ∈ out) as Ho by (repeat case_match; simplify_eq; done).
  destruct (process_offered _ _ _ _ _ _ _ _ _ _ E _ Ho) as [|(e & He & Hs)]; [set_solver |]. eauto.
Qed.

Lemma base_offered backend req r :
  searchBase backend req = Ok r -> forall entry, entry ∈ res_Entries r ->
  exists e, GetEntry backend (BaseObject req) = Ok (Some e) /\ shows req e entry.
Proof.
  unfold searchBase, base_result. intros Hr entry Hin.
  destruct (GetEntry _ _) as [[e|]| | |]; [| simplify_eq; set_solver..].
  destruct (match convertSearchFilter _ with Some _ => _ | None => _ end) as [b| | |]; [| done..].
  cbn in Hr. simplify_eq. cbn in Hin. destruct b; [| set_solver].
  apply list_elem_of_singleton in Hin as ->. exists e. split; [done |].
  apply shows_list, selectAttributes_subseteq.
Qed.

Lemma dispatch_offered config hs backend req r :
  0 <= Scope req <= 2 -> dispatch now config hs backend req = Ok r -> forall entry, entry ∈ res_Entries r ->
  exists e, offered backend req e /\ shows req e entry.
Proof.
  intros Hsc Hr entry Hin. unfold dispatch, OneLevelSearcher_Search, SubtreeSearcher_Search in Hr.
  case_decide as Hb; [destruct (base_offered _ _ _ Hr _ Hin) as (e & ? & ?); exists e; by split; [left |] |].
  case_decide as Ho; (destruct hs; [| simplify_eq; set_solver]);
    destruct (searcher_offered _ _ _ _ _ Hr _ Hin) as (it & e & Hit & He & Hs);
    exists e; (split; [right; exists it; split; [| done] | done]).
  - by rewrite Ho.
  - replace (Scope req) with ScopeWholeSubtree; [done |].
    unfold ScopeBaseObject, ScopeSingleLevel, ScopeWholeSubtree in *. lia.
Qed.

(** C12: with access control configured, a search discloses nothing else: whoever
    gets an entry may search the base and read that entry; each attribute shown may
    be read and is one of an entry the backend offered, with its values. *)
Theorem search_confidential config c backend hs bindDN req r
    (Hc : ACLEvaluator config = Some c)
    (Hr : Handle now config (Some backend) hs bindDN req = Ok r) entry
    (He : entry ∈ res_Entries r) :
  CanSearch c bindDN (BaseObject req) = true
  /\ CanRead c bindDN (entry_DN entry) = true
  /\ (forall a, a ∈ entry_Attributes entry ->
        CheckAttributeAccess c (Some (mkAccessContext bindDN (entry_DN entry) Read)) (Type_ a) = true)
  /\ exists stored, offered backend req stored /\ shows req stored entry.
Proof.
  unfold Handle in Hr. destruct (validateRequest req); [simplify_eq; set_solver |]. rewrite Hc in Hr.
  destruct (CanSearch c bindDN (BaseObject req)); cbn [negb] in Hr; [| simplify_eq; set_solver].
  case_decide as Hs; [| simplify_eq; set_solver].
  destruct (dispatch _ _ _ _ _) as [r0| | |] eqn:E; [| done..]. cbn in Hr. simplify_eq.
  unfold redact in He. rewrite Hc in He. cbn in He. unfold filterEntriesByACL in He.
  apply list_elem_of_fmap in He as (e0 & -> & He0).
  rewrite list_elem_of_In, filter_In, <- list_elem_of_In in He0. destruct He0 as [He0 Hread].
  destruct (dispatch_offered _ _ _ _ _ Hs E _ He0) as (stored & Ho & Hd & Hattr).
  split_and!; [done | done | |].
  - intros a Ha. cbn in Ha. rewrite list_elem_of_In, filter_In in Ha. by destruct Ha.
  - exists stored. split; [done |]. split; [done |]. intros a Ha. apply Hattr. cbn in Ha.
    rewrite list_elem_of_In, filter_In, <- list_elem_of_In in Ha. by destruct Ha.
Qed.
End Confidential.

(** ** The handler of serve.go *)

Section Serve.
Context `{UnicodeTables} `{MapIteration} (error_text : goerror -> gostring).
Context (engine : StorageEngine) `{!FiltersSubtree engine}.

(** The subtree of the request's base, as the engine sees it. *)
Definition subtree (req : SearchRequest) : Iterator :=
  engine_SearchByDN engine (normalizeDN (BaseObject req)) ScopeWholeSubtree.

Definition render_all (e : StorageEntry) : SearchEntry :=
  mkSearchEntry (se_DN e) (attribute_list (se_Attributes (convertFromStorageEntry e)) false).

(** From the bytes of the request to the result. *)
Definition serve_bytes (bs : bytes) : outcome SearchResult :=
  req ← ParseSearchRequest bs; serve_search error_text engine req.

Lemma filter_items_hit f items :
  text_filter f -> (forall e, Some e ∈ items -> text_storage e) ->
  exists out, filter_items (Match (Some (denote f))) items = Ok out
    /\ omap id out = List.filter (hit f) (omap id items).
Proof.
  intros Ht. induction items as [|[e|] items IH]; intros He; [by exists [] | |].
  - destruct IH as (out & E & Ho); [set_solver |]. cbn [filter_items Match Evaluate].
    rewrite (proj1 (hit_spec f e (He e ltac:(set_solver)) Ht)). cbn [mbind outcome_bind]. rewrite E.
    cbn. destruct (hit f e); eexists; (split; [done |]); cbn; by rewrite Ho.
  - destruct IH as (out & E & Ho); [set_solver |]. by exists out.
Qed.

Lemma filter_sublist {A} (p : A -> bool) (l : list A) : List.filter p l `sublist_of` l.
Proof. induction l as [|x l IH]; cbn; [done |]. destruct (p x); by constructor. Qed.

(** the installed handler, from bytes to result, over any engine that keeps the promise
    [FiltersSubtree]: it returns all entries of the base's subtree that satisfy the filter, with
    all their attributes, whatever the request's scope, limits, attribute list and typesOnly
    are. [EngineTheorems.directory_search] is about the engine itself. *)
Theorem serve_search_spec req f
    (Hv : valid_search req f) (Ht : text_filter f)
    (Hb : engine_Begin engine = None) (Hn : normalizeDN (BaseObject req) <> [])
    (Hen : it_end (subtree req) = None)
    (He : forall e, Some e ∈ it_items (subtree req) -> text_storage e) :
  exists found,
    serve_bytes (search_content req f) = Ok (mkSearchResult ResultSuccess [] [] (render_all <$> found))
    /\ found `sublist_of` omap id (it_items (subtree req))
    /\ forall e, e ∈ found <-> Some e ∈ it_items (subtree req) /\ meets f e.
Proof.
  exists (List.filter (hit f) (omap id (it_items (subtree req)))).
  split_and!; [| apply filter_sublist | intros e; by apply elem_matched].
  unfold serve_bytes. rewrite parse_search_content by done. cbn [mbind outcome_bind].
  destruct Hv as (_ & _ & _ & _ & Hf & _). unfold serve_search, backend_Search. cbv zeta.
  rewrite Hb, Hf, serve_convert_represent, filters_subtree by done. cbv zeta.
  fold (subtree req). destruct (filter_items_hit f (it_items (subtree req))) as (out & -> & E); [done.. |].
  cbn [mbind outcome_bind it_end]. rewrite Hen. cbn [it_items]. rewrite E.
  by rewrite <- list_fmap_compose.
Qed.

(** The Kelvin sign, whose lower case is the letter k. *)
Definition kelvin : gostring := [xe2; x84; xaa].

(** C38: one search request stops the server. The pattern "K*x", with the Kelvin sign
    for the K, makes the evaluator slice past the end of the lower-case value on any
    entry whose attribute is "k": the offset is the length of the pattern before case
    mapping, three bytes, and the value has one. *)
Theorem serve_search_panics req attr values e rest
    (Hk : lower_unicode kelvin = str "k")
    (Hv : valid_search req (FSubstrings attr (mkSubstringComponents kelvin [] (str "x"))))
    (Hb : engine_Begin engine = None) (Hn : normalizeDN (BaseObject req) <> [])
    (Hi : it_items (subtree req) = Some e :: rest)
    (He : se_Attributes e !! attr = Some (str "k" :: values)) :
  serve_bytes (search_content req (FSubstrings attr (mkSubstringComponents kelvin [] (str "x")))) = Panic.
Proof.
  unfold serve_bytes. rewrite parse_search_content by done. cbn [mbind outcome_bind].
  destruct Hv as (_ & _ & _ & _ & Hf & _). unfold serve_search, backend_Search. cbv zeta.
  rewrite Hb, Hf, serve_convert_represent, filters_subtree by done. cbv zeta.
  fold (subtree req). rewrite Hi. cbn [filter_items Match Evaluate]. rewrite convertToFilterEntry_id.
  cbn [denote Initial Any Final]. unfold NewSubstringFilter. cbn [evaluate sub_Attribute decide].
  assert (evaluateSubstring (Some (mkSubstringFilter attr kelvin [] (str "x")))
            (mkEntry (se_DN e) (se_Attributes e)) = Panic) as E; [| by rewrite E].
  unfold evaluateSubstring, getAttributeValues. cbn [e_Attributes sub_Attribute]. rewrite He.
  cbn [for_any sub_Initial sub_Any sub_Final].
  assert (ToLower kelvin = str "k") as Hkk by (unfold ToLower; cbn; exact Hk).
  unfold matchSubstring. rewrite Hkk. done.
Qed.
End Serve.

(** ** Attribute selection *)

Section Selection.
Context `{UnicodeTables} `{MapIteration}.

Definition selector (a : gostring) : gostring := ToLower (TrimSpace a).

(** An element of the request that names an attribute. *)
Definition names (a : gostring) : bool :=
  if decide (selector a = str "*" \/ selector a = str "+" \/ selector a = str "1.1" \/ a = [])
  then false else true.

Lemma NewAttributeSelector_spec requested :
  NewAttributeSelector requested =
  mkAttributeSelector requested
    (existsb (fun a => bytes_eqb (selector a) (str "*")) requested)
    (existsb (fun a => bytes_eqb (selector a) (str "+")) requested)
    (List.filter names requested).
Proof.
  unfold NewAttributeSelector. generalize requested at 1 3 as r0.
  assert (forall l s, foldl select_one s l =
    mkAttributeSelector (requestedAttrs s)
      (hasAllUser s || existsb (fun a => bytes_eqb (selector a) (str "*")) l)
      (hasAllOp s || existsb (fun a => bytes_eqb (selector a) (str "+")) l)
      (specificAttrs s ++ List.filter names l)) as Hl.
  { induction l as [|a l IH]; intros s; cbn [foldl existsb List.filter].
    { destruct s. cbn. by rewrite !orb_false_r, app_nil_r. }
    rewrite IH. unfold select_one, names, bytes_eqb. fold (selector a). cbv zeta.
    destruct (decide (selector a = str "*")) as [E|E].
    { rewrite E. cbn. by rewrite orb_true_r. }
    destruct (decide (selector a = str "+")) as [E2|E2].
    { rewrite E2. cbn. by rewrite orb_true_r. }
    rewrite !(bool_decide_false (selector a = _)) by done.
    destruct (decide (selector a = str "1.1")) as [E3|E3]; [by rewrite decide_True by auto |].
    destruct (decide (a = [])) as [E4|E4]; [by rewrite decide_True by auto |].
    rewrite decide_False by tauto. cbn. by rewrite <- app_assoc. }
  intros r0. apply Hl.
Qed.

(** The text names that match a requested one, up to case. *)
Lemma lookup_addAttributes m l r k v :
  map_Forall (fun name _ => text name) m -> Forall text l ->
  (forall n1 n2, is_Some (m !! n1) -> is_Some (m !! n2) -> lower_ascii n1 = lower_ascii n2 -> n1 = n2) ->
  r ⊆ m ->
  foldl (addAttribute m) r l !! k = Some v <->
  r !! k = Some v \/ m !! k = Some v /\ exists a, a ∈ l /\ lower_ascii a = lower_ascii k.
Proof.
  intros Hm Hl Hd. revert r. induction Hl as [|a l Ha Hl IH]; intros r Hr; cbn [foldl]; [set_solver |].
  assert (forall n vs, m !! n = Some vs -> EqualFold n a = true <-> lower_ascii n = lower_ascii a) as Hf.
  { intros n vs En. unfold EqualFold. rewrite !text_ascii by (done || by eapply Hm).
    apply bool_decide_eq_true. }
  assert (r !! k = Some v -> m !! k = Some v) as Hrk by (intros; by eapply lookup_weaken).
  rewrite IH by (apply (addAttributes_subseteq m [a]); done). unfold addAttribute.
  destruct (List.find _ _) as [[n vs]|] eqn:F.
  - apply find_some in F as [F%list_elem_of_In F2]. apply elem_of_range in F. apply (Hf n vs F) in F2.
    destruct (decide (n = k)) as [->|Hnk]; simplify_map_eq.
    + set_solver.
    + assert (m !! k = Some v -> lower_ascii a <> lower_ascii k) as Hne.
      { intros Ek E. apply Hnk, Hd; [eauto.. | congruence]. }
      set_solver.
  - assert (m !! k = Some v -> lower_ascii a <> lower_ascii k) as Hne.
    { intros Ek E. pose proof Ek as Hin. apply elem_of_range, list_elem_of_In in Hin.
      apply (find_none _ _ F) in Hin. cbn in Hin. apply not_true_iff_false in Hin.
      by apply Hin, (Hf k v). }
    set_solver.
Qed.
Lemma lookup_copy_Some p m r k v :
  r ⊆ m ->
  copy_attributes p m r !! k = Some v <-> r !! k = Some v \/ m !! k = Some v /\ p k = true.
Proof.
  rewrite map_subseteq_spec, lookup_copy. intros Hr. specialize (Hr k v).
  destruct (p k), (m !! k), (r !! k); cbn; naive_solver.
Qed.

(** A copy made under a condition. *)
Lemma copy_if r m k v p (b : bool) :
  r ⊆ m ->
  (if b then copy_attributes p m r else r) ⊆ m
  /\ ((if b then copy_attributes p m r else r) !! k = Some v
      <-> r !! k = Some v \/ b = true /\ m !! k = Some v /\ p k = true).
Proof.
  intros Hr. destruct b; (split; [by try apply copy_subseteq |]); [rewrite lookup_copy_Some by done |];
    naive_solver.
Qed.

(** What a request for attributes asks for. *)
Definition wanted (requested : list gostring) (name : gostring) : Prop :=
  (requested = [] \/ exists a, a ∈ requested /\ selector a = str "*") /\ IsOperationalAttribute name = false
  \/ (exists a, a ∈ requested /\ selector a = str "+") /\ IsOperationalAttribute name = true
  \/ exists a, a ∈ requested /\ names a = true /\ lower_ascii a = lower_ascii name.

Lemma existsb_selector s requested :
  existsb (fun a => bytes_eqb (selector a) s) requested = true
  <-> exists a, a ∈ requested /\ selector a = s.
Proof.
  rewrite existsb_exists. setoid_rewrite <- list_elem_of_In. unfold bytes_eqb.
  by setoid_rewrite bool_decide_eq_true.
Qed.

(** The attribute "1.1" alone selects nothing, as the general rule would. *)
Lemma only_11 a : selector a = str "1.1" -> forall name, ~ wanted [a] name.
Proof.
  intros E name [[[Hn|(b & ->%list_elem_of_singleton & Hb)] _]
    |[[(b & ->%list_elem_of_singleton & Hb) _]|(b & ->%list_elem_of_singleton & Hb & _)]];
    [done | by rewrite E in Hb | by rewrite E in Hb |].
  unfold names in Hb. by rewrite decide_True in Hb by auto.
Qed.

(** attribute selection follows the request: with no list, the user attributes;
    with "*" the user attributes, with "+" the operational ones, and any attribute
    named up to case; nothing else, and values unchanged. *)
Theorem select_attributes_spec e requested name values
    (He : text_storage e) (Hr : Forall text requested) :
  SelectAttributes e requested !! name = Some values <->
  se_Attributes e !! name = Some values /\ wanted requested name.
Proof.
  destruct He as [Ht Hd]. cbn [e_Attributes] in *. unfold SelectAttributes, Select.
  rewrite NewAttributeSelector_spec. cbn [requestedAttrs hasAllUser hasAllOp specificAttrs].
  destruct requested as [|a l].
  { unfold selectAllUserAttributes. rewrite lookup_copy_Some by apply map_empty_subseteq.
    rewrite lookup_empty, negb_true_iff. unfold wanted. set_solver. }
  cbv zeta. destruct (bool_decide _ && bytes_eqb _ _) eqn:E11.
  { apply andb_true_iff in E11 as [El%bool_decide_eq_true E%bool_decide_eq_true].
    assert (l = []) as -> by (apply len_zero_nil; len_lia). rewrite lookup_empty.
    pose proof (only_11 a ltac:(unfold selector; by rewrite E)). naive_solver. }
  clear E11. set (req := a :: l) in *.
  destruct (copy_if ∅ (se_Attributes e) name values (fun n => negb (IsOperationalAttribute n))
    (existsb (fun a => bytes_eqb (selector a) (str "*")) req)) as [Hs1 Hl1]; [apply map_empty_subseteq |].
  destruct (copy_if _ (se_Attributes e) name values IsOperationalAttribute (existsb (fun a => bytes_eqb (selector a) (str "+")) req) Hs1)
    as [Hs2 Hl2].
  rewrite lookup_addAttributes; [| | | done | done].
  - rewrite Hl2, Hl1, !existsb_selector, lookup_empty, negb_true_iff. unfold wanted.
    setoid_rewrite list_elem_of_In. setoid_rewrite filter_In. setoid_rewrite <- list_elem_of_In.
    split.
    + intros [[[Hn|(Ha & Hm & Hp)]|(Ha & Hm & Hp)]|(Hm & b & [Hb Hp] & Hl)]; [done | | |]; (split; [done |]).
      * left. by split; [right |].
      * right. by left.
      * right. right. by exists b.
    + intros [Hm [[[Hn|Ha] Hp]|[[Ha Hp]|(b & Hb & Hp & Hl)]]]; [done | | |].
      * left. left. by right.
      * left. by right.
      * right. split; [done |]. by exists b.
  - intros k v Ek. by apply Ht in Ek as [].
  - apply Forall_forall. intros b Hb. rewrite list_elem_of_In, filter_In, <- list_elem_of_In in Hb.
    rewrite Forall_forall in Hr. naive_solver.
Qed.
End Selection.

(** ** Where the scopes disagree *)

Section Disagree.
Context `{UnicodeTables} `{MapIteration}.

(** the base search and the other searches treat the same entry differently: a
    negated extensible match finds nothing in a base search and every entry in a
    one-level or subtree search, and "*" shows the password history in a base search
    alone. *)
Theorem search_scopes_disagree c backend req e values
    (Hf : SearchRequestFilter req = represent (FNot (FExtensible c)))
    (Hg : GetEntry backend (BaseObject req) = Ok (Some e))
    (Hp : se_Attributes e !! str "pwdhistory" = Some values) :
  searchBase backend req = Ok (mkSearchResult ResultSuccess [] [] [])
  /\ matchesFilter e (Some (SearchRequestFilter req)) = Ok true
  /\ selectAttributes e [str "*"] !! str "pwdhistory" = Some values
  /\ SelectAttributes e [str "*"] !! str "pwdhistory" = None.
Proof.
  split_and!.
  - unfold searchBase. by rewrite Hg, Hf.
  - by rewrite Hf.
  - unfold selectAttributes. cbn [len length decide]. rewrite decide_False by (unfold len; cbn; lia).
    cbv zeta. cbn [existsb List.filter]. rewrite ToLower_ascii by done. cbn [orb negb andb foldl].
    change (bytes_eqb (lower_ascii (str "*")) (str "*")) with true.
    change (bytes_eqb (lower_ascii (str "*")) (str "+")) with false. cbn [orb negb andb foldl].
    rewrite lookup_copy, Hp, lookup_empty. unfold isOperationalAttribute.
    by rewrite ToLower_ascii by done.
  - unfold SelectAttributes, Select. rewrite NewAttributeSelector_spec.
    cbn [requestedAttrs hasAllUser hasAllOp specificAttrs existsb List.filter].
    assert (selector (str "*") = str "*") as Hs by (unfold selector; by rewrite ToLower_ascii by done).
    unfold names. rewrite Hs. change (bytes_eqb (str "*") (str "*")) with true.
    change (bytes_eqb (str "*") (str "+")) with false.
    rewrite decide_True by by left. cbn [orb foldl]. change (bool_decide _ && _) with false.
    cbv iota. rewrite lookup_copy, lookup_empty. unfold IsOperationalAttribute.
    by rewrite ToLower_ascii by done.
Qed.
End Disagree.

(** ** Examples *)

(** Tables with the Kelvin sign, and the order of [map_to_list]. *)
#[local] Instance example_tables : UnicodeTables := {|
  lower_unicode s := if decide (s = kelvin) then str "k" else s;
  fold_unicode s t := bool_decide (s = t)
|}.

#[local] Instance example_order : MapIteration := {|
  range K _ _ V m := map_to_list m;
  range_perm K _ _ V m := Permutation_refl (map_to_list m)
|}.

(** An engine whose every search goes through the same entries. *)
Definition example_engine (items : list (option StorageEntry)) : StorageEngine :=
  mkStorageEngine None (fun _ _ => mkIterator None items None)
    (fun _ m => items ← filter_items m items; Ok (mkIterator None items None)).

#[local] Instance example_engine_filters items : FiltersSubtree (example_engine items).
Proof. by intros base m _. Qed.

Definition alice_entry : StorageEntry :=
  mkStorageEntry (str "uid=alice,dc=x")
    (<[str "cn" := [str "Alice  Smith"]]> (<[str "pwdhistory" := [str "h"]]> ∅)).

Definition kelvin_entry : StorageEntry :=
  mkStorageEntry (str "uid=k,dc=x") (<[str "cn" := [str "k"]]> ∅).

Definition alice_filter : filter :=
  FAnd [FSubstrings (str "CN") (mkSubstringComponents (str "al") [str "ce"] (str "ITH"));
        FNot (FCompare Equality (str "sn") (str "x"));
        FCompare ApproxMatch (str "cn") (str " alice smith")].

Definition alice_request (scope : Z) (f : filter) : SearchRequest :=
  mkSearchRequest (str "dc=x") scope 0 0 0 false (represent f) [str "cn"; str "+"].

Lemma text_check s : forallb (fun b => ink b || is_white b) s = true -> text s.
Proof.
  rewrite forallb_forall. intros Hb. apply Forall_forall. intros b Hin.
  by apply orb_true_iff, Hb, list_elem_of_In.
Qed.

Lemma alice_text : text_storage alice_entry.
Proof.
  split.
  - unfold alice_entry. cbn [e_Attributes se_Attributes]. repeat apply map_Forall_insert_2;
      [| | apply map_Forall_empty]; (split; [by apply text_check | apply Forall_singleton; by apply text_check]).
  - intros n1 n2 H1 H2 E. unfold alice_entry in *. cbn [e_Attributes se_Attributes] in *.
    rewrite !lookup_insert_is_Some in *. rewrite lookup_empty in *.
    assert (forall o : option (list bytes), o = None -> ~ is_Some o) as Hn by (intros o ->; by intros []).
    destruct H1 as [<-|[_ [<-|[_ H1]]]], H2 as [<-|[_ [<-|[_ H2]]]];
      try done; try (by apply Hn in H1); try (by apply Hn in H2).
Qed.

Lemma alice_filter_text : text_filter alice_filter.
Proof. repeat split; try (by apply text_check); repeat constructor; by apply text_check. Qed.

(** Two matching entries, with a size limit of one and without. *)
Definition two_items : list (option StorageEntry) := [None; Some alice_entry; Some alice_entry].
Definition two_alices : Backend := mkBackend (fun _ => Ok None) (fun _ _ => Some (mkIterator None two_items None)).
Definition limited_request (limit : Z) : SearchRequest :=
  mkSearchRequest (str "dc=x") 2 0 limit 0 false (represent alice_filter) [str "cn"].

Lemma search_handler_correct_witness :
  (exists e, Handle (fun _ => 0) NewSearchConfig (Some two_alices) true [] (limited_request 1)
             = Ok (mkSearchResult ResultSizeLimitExceeded [] [] [e]))
  /\ exists e, Handle (fun _ => 0) NewSearchConfig (Some two_alices) true [] (limited_request 0)
             = Ok (mkSearchResult ResultSuccess [] [] [e; e]).
Proof.
  assert (forall limit, 0 <= limit -> exists k code,
    Handle (fun _ => 0) NewSearchConfig (Some two_alices) true [] (limited_request limit)
      = Ok (mkSearchResult code [] [] (build (limited_request limit) <$> hits (hit alice_filter) (take k two_items)))
    /\ loop_result (fun _ => 0) (effective_limit limit 100 1000) 30 30000000000 (hit alice_filter) two_items k code) as Hw.
  { intros limit Hl. destruct (search_handler_correct (fun _ => 0) NewSearchConfig two_alices []
      (limited_request limit) alice_filter (mkIterator None two_items None)
      eq_refl ltac:(repeat split) alice_filter_text Hl ltac:(done) ltac:(by right) eq_refl eq_refl eq_refl) as (k & code & H1 & H2 & _).
    - intros e He. assert (e = alice_entry) as -> by (unfold two_items in He; set_solver). apply alice_text.
    - done.
    - by exists k, code. }
  assert (forall k, ~ late (fun _ => 0) 30 30000000000 k) as Hlate by (unfold late; intros k; lia).
  assert (forall limit k, full limit (hit alice_filter) two_items k <-> limit > 0 /\ Z.of_nat (pred (k `min` 3)) >= limit) as Hfull.
  { intros limit k. unfold full. by destruct k as [|[|[|[|k]]]]; vm_compute length. }
  split.
  - destruct (Hw 1 ltac:(lia)) as (k & code & -> & Hb & Hc). exists (build (limited_request 1) alice_entry).
    change (effective_limit 1 100 1000) with 1 in *. setoid_rewrite Hfull in Hb. rewrite Hfull in Hc.
    assert (k = 2%nat) as ->.
    { destruct (decide (2 < k)%nat) as [H2|H2]; [destruct (Hb 2%nat H2); cbn in *; lia |]. cbn in Hc.
      destruct Hc as [[Hk _]|[(Hk & [_ Hf] & _)|(_ & _ & Hl & _)]]; [vm_compute in Hk; lia | lia | by apply Hlate in Hl]. }
    destruct Hc as [[Hk _]|[(_ & _ & ->)|(_ & _ & Hl & _)]]; [by vm_compute in Hk | by vm_compute | by apply Hlate in Hl].
  - destruct (Hw 0 ltac:(lia)) as (k & code & -> & Hb & Hc). exists (build (limited_request 0) alice_entry).
    change (effective_limit 0 100 1000) with 100 in *. rewrite Hfull in Hc.
    destruct Hc as [[-> ->]|[(_ & Hf & _)|(_ & _ & Hl & _)]]; [by vm_compute | lia | by apply Hlate in Hl].
Defined.

Lemma search_confidential_witness :
  exists r entry,
    Handle (fun _ => 0) (mkSearchConfig 10 10 10 10 (Some (mkConfig (str "allow") [])))
      (Some (mkBackend (fun _ => Ok (Some alice_entry)) (fun _ _ => None))) false (str "uid=bob")
      (alice_request 0 alice_filter) = Ok r
    /\ entry ∈ res_Entries r
    /\ CanRead (mkConfig (str "allow") []) (str "uid=bob") (entry_DN entry) = true.
Proof.
  destruct (Handle (fun _ => 0) (mkSearchConfig 10 10 10 10 (Some (mkConfig (str "allow") [])))
      (Some (mkBackend (fun _ => Ok (Some alice_entry)) (fun _ _ => None))) false (str "uid=bob")
      (alice_request 0 alice_filter)) as [r| | |] eqn:E; [| by vm_compute in E..].
  destruct (res_Entries r) as [|entry l] eqn:El; [vm_compute in E; by simplify_eq |].
  exists r, entry. assert (entry ∈ res_Entries r) as Hin by (rewrite El; left).
  split; [reflexivity |]. split; [exact Hin |].
  destruct (search_confidential _ (mkSearchConfig 10 10 10 10 (Some _)) (mkConfig (str "allow") []) _ _ _ _ r eq_refl E entry Hin) as (_ & Hr & _).
  exact Hr.
Defined.

Lemma example_valid scope f :
  0 <= scope <= 2 -> len (search_content (alice_request scope f) f) < length_limit ->
  valid_search (alice_request scope f) f.
Proof. intros Hs Hl. by repeat split; cbn; lia. Qed.

Lemma serve_search_spec_witness :
  exists found,
    serve_bytes (fun _ => []) (example_engine [Some alice_entry]) (search_content (alice_request 0 alice_filter) alice_filter)
      = Ok (mkSearchResult ResultSuccess [] [] (render_all <$> found))
    /\ (alice_entry ∈ found <-> meets alice_filter alice_entry).
Proof.
  destruct (serve_search_spec (fun _ => []) (example_engine [Some alice_entry]) (alice_request 0 alice_filter)
              alice_filter) as (found & E & _ & Hf).
  - apply example_valid; [lia | by vm_compute].
  - apply alice_filter_text.
  - done.
  - by vm_compute.
  - done.
  - intros e He. cbn in He. assert (e = alice_entry) as -> by set_solver. apply alice_text.
  - exists found. split; [exact E |]. rewrite Hf. split; [by intros [_ Hm] |].
    intros Hm. split; [left | exact Hm].
Defined.

Lemma serve_search_panics_witness :
  let f := FSubstrings (str "cn") (mkSubstringComponents kelvin [] (str "x")) in
  serve_bytes (fun _ => []) (example_engine [Some kelvin_entry]) (search_content (alice_request 2 f) f) = Panic.
Proof.
  apply (serve_search_panics (fun _ => []) (example_engine [Some kelvin_entry]) (alice_request 2 _)
           (str "cn") [] kelvin_entry []); try done.
Defined.

Lemma select_attributes_spec_witness :
  SelectAttributes alice_entry [str "CN"] !! str "cn" = Some [str "Alice  Smith"].
Proof.
  apply (select_attributes_spec alice_entry [str "CN"] (str "cn") [str "Alice  Smith"] alice_text).
  - apply Forall_singleton. by apply text_check.
  - split; [by vm_compute |]. right. right. exists (str "CN").
    split; [by apply list_elem_of_singleton | by vm_compute].
Defined.

Lemma search_scopes_disagree_witness :
  let c := mkExtensibleMatchComponents (str "1.2") [] (str "v") false in
  searchBase (mkBackend (fun _ => Ok (Some alice_entry)) (fun _ _ => None))
    (alice_request 0 (FNot (FExtensible c))) = Ok (mkSearchResult ResultSuccess [] [] []).
Proof.
  intros c.
  destruct (search_scopes_disagree c (mkBackend (fun _ => Ok (Some alice_entry)) (fun _ _ => None))
    (alice_request 0 (FNot (FExtensible c))) alice_entry [str "h"]) as (Hb & _);
    [done | done | by vm_compute | exact Hb].
Defined.
