(* ===== verification/Mvcc.v ===== *)
(** * Versions of entries (src/internal/storage/mvcc)

    The versions of an entry form a chain of heap objects, newest first: version.go.
    The same objects are reached from the version store (store.go) and from its entry
    cache (cache.go), so the heap is explicit: a version's address is its position in
    the list of all versions allocated so far, and [Prev] is an address. Loops over a
    chain have the size of the heap as fuel. *)

From S2P Require Import Prelude GoStrings.

(** ** version.go *)

Definition ErrVersionNotFound : goerror := ErrConst "ErrVersionNotFound".
Definition ErrVersionDeleted : goerror := ErrConst "ErrVersionDeleted".
Definition ErrVersionConflict : goerror := ErrConst "ErrVersionConflict".
Definition ErrInvalidVersion : goerror := ErrConst "ErrInvalidVersion".
Definition ErrTransactionAborted : goerror := ErrConst "ErrTransactionAborted".
Definition ErrNilTransaction : goerror := ErrConst "ErrNilTransaction".

Definition VersionActive : Z := 0.
Definition VersionDeleted : Z := 1.

Record Version := mkVersion {
  v_TxID : Z;
  v_CommitTS : Z;
  v_Data : bytes;
  v_Prev : option nat;
  v_PageID : Z;
  v_SlotID : Z;
  v_State : Z
}.

Definition NewVersion (txID : Z) (data : bytes) (pageID slotID : Z) : Version :=
  mkVersion txID 0 data None pageID slotID VersionActive.

Definition NewCommittedVersion (data : bytes) (pageID slotID : Z) : Version :=
  mkVersion 0 1 data None pageID slotID VersionActive.

Definition NewDeletedVersion (txID pageID slotID : Z) : Version :=
  mkVersion txID 0 [] None pageID slotID VersionDeleted.

Definition IsCommitted (v : Version) : bool := bool_decide (v_CommitTS v > 0).

Definition IsDeleted (v : Version) : bool := bool_decide (v_State v = VersionDeleted).

Definition Commit (v : Version) (commitTS : Z) : Version :=
  mkVersion (v_TxID v) commitTS (v_Data v) (v_Prev v) (v_PageID v) (v_SlotID v) (v_State v).

Definition SetPrev (v : Version) (prev : option nat) : Version :=
  mkVersion (v_TxID v) (v_CommitTS v) (v_Data v) prev (v_PageID v) (v_SlotID v) (v_State v).

Definition IsVisibleTo (v : Version) (snapshot activeTxID : Z) : bool :=
  if decide (v_CommitTS v = 0) then bool_decide (v_TxID v = activeTxID)
  else bool_decide (v_CommitTS v <= snapshot).

Definition Clone (v : Version) : Version := SetPrev v None.

(** ** cache.go *)

Record CachedEntry := mkCachedEntry {
  ce_Version : nat;
  ce_PageID : Z;
  ce_SlotID : Z
}.

(** [lruIndex] holds the elements of [lru] by their DN. *)
Record EntryCache := mkEntryCache {
  entries : gmap gostring CachedEntry;
  lru : list gostring;
  maxSize : Z;
  hits : Z;
  misses : Z
}.

Definition DefaultCacheSize : Z := 10000.

Definition NewEntryCache (size : Z) : EntryCache :=
  mkEntryCache ∅ [] (if decide (size <= 0) then DefaultCacheSize else size) 0 0.

Definition list_Remove (dn : gostring) (l : list gostring) : list gostring :=
  List.filter (fun d => negb (bytes_eqb d dn)) l.

(** [if elem, ok := c.lruIndex[dn]; ok { c.lru.MoveToFront(elem) }]. *)
Definition MoveToFront (dn : gostring) (l : list gostring) : list gostring :=
  if decide (dn ∈ l) then dn :: list_Remove dn l else l.

Definition Cache_Get (c : EntryCache) (dn : gostring) : option CachedEntry * EntryCache :=
  match entries c !! dn with
  | None => (None, mkEntryCache (entries c) (lru c) (maxSize c) (hits c) (uint64 (misses c + 1)))
  | Some e =>
      (Some e, mkEntryCache (entries c) (MoveToFront dn (lru c)) (maxSize c)
                 (uint64 (hits c + 1)) (misses c))
  end.

Definition Cache_Delete (c : EntryCache) (dn : gostring) : EntryCache :=
  mkEntryCache (delete dn (entries c)) (list_Remove dn (lru c)) (maxSize c) (hits c) (misses c).

Definition evictLRU (c : EntryCache) : EntryCache :=
  match last (lru c) with
  | None => c
  | Some dn => Cache_Delete c dn
  end.

Definition Cache_Put (c : EntryCache) (dn : gostring) (version : nat) (pageID slotID : Z) : EntryCache :=
  let e := mkCachedEntry version pageID slotID in
  match entries c !! dn with
  | Some _ =>
      mkEntryCache (<[dn := e]> (entries c)) (MoveToFront dn (lru c)) (maxSize c) (hits c) (misses c)
  | None =>
      let c := if decide (Z.of_nat (size (entries c)) >= maxSize c) then evictLRU c else c in
      mkEntryCache (<[dn := e]> (entries c)) (dn :: lru c) (maxSize c) (hits c) (misses c)
  end.

Definition Cache_Len (c : EntryCache) : Z := Z.of_nat (size (entries c)).

Definition Cache_Clear (c : EntryCache) : EntryCache := mkEntryCache ∅ [] (maxSize c) 0 0.

(** ** Transactions, as the store sees them (tx/transaction.go) *)

Definition TxActive : Z := 0.
Definition TxCommitted : Z := 1.
Definition TxAborted : Z := 2.

Record Transaction := mkTransaction {
  tx_ID : Z;
  tx_State : Z;
  tx_StartLSN : Z;
  tx_ReadSet : list Z;
  tx_WriteSet : list Z;
  tx_Snapshot : Z
}.

(** [StartTime] is wall-clock time that only [Duration] reads; it is left out. *)
Definition NewTransaction (id startLSN : Z) : Transaction :=
  mkTransaction id TxActive startLSN [] [] id.

Definition IsActive (txn : Transaction) : bool := bool_decide (tx_State txn = TxActive).

Definition SetState (txn : Transaction) (state : Z) : Transaction :=
  mkTransaction (tx_ID txn) state (tx_StartLSN txn) (tx_ReadSet txn) (tx_WriteSet txn) (tx_Snapshot txn).

(** Append a page unless the set has it already. *)
Definition add_page (pageID : Z) (l : list Z) : list Z := if decide (pageID ∈ l) then l else l ++ [pageID].

Definition AddToReadSet (txn : Transaction) (pageID : Z) : Transaction :=
  mkTransaction (tx_ID txn) (tx_State txn) (tx_StartLSN txn) (add_page pageID (tx_ReadSet txn))
    (tx_WriteSet txn) (tx_Snapshot txn).

Definition AddToWriteSet (txn : Transaction) (pageID : Z) : Transaction :=
  mkTransaction (tx_ID txn) (tx_State txn) (tx_StartLSN txn) (tx_ReadSet txn)
    (add_page pageID (tx_WriteSet txn)) (tx_Snapshot txn).

Definition ClearWriteSet (txn : Transaction) : Transaction :=
  mkTransaction (tx_ID txn) (tx_State txn) (tx_StartLSN txn) (tx_ReadSet txn) [] (tx_Snapshot txn).

Definition ClearReadSet (txn : Transaction) : Transaction :=
  mkTransaction (tx_ID txn) (tx_State txn) (tx_StartLSN txn) [] (tx_WriteSet txn) (tx_Snapshot txn).

(** ** store.go *)

Record VersionStore := mkVersionStore {
  heap : list Version;
  versions : gmap gostring nat;
  cache : EntryCache;
  activeWriters : gmap gostring Z
}.

Definition NewVersionStoreWithCache (cacheSize : Z) : VersionStore :=
  mkVersionStore [] ∅ (NewEntryCache cacheSize) ∅.

Definition set_heap (h : list Version) : M VersionStore unit :=
  modify (fun s => mkVersionStore h (versions s) (cache s) (activeWriters s)).
Definition set_versions (f : gmap gostring nat -> gmap gostring nat) : M VersionStore unit :=
  modify (fun s => mkVersionStore (heap s) (f (versions s)) (cache s) (activeWriters s)).
Definition set_cache (f : EntryCache -> EntryCache) : M VersionStore unit :=
  modify (fun s => mkVersionStore (heap s) (versions s) (f (cache s)) (activeWriters s)).
Definition set_writers (f : gmap gostring Z -> gmap gostring Z) : M VersionStore unit :=
  modify (fun s => mkVersionStore (heap s) (versions s) (cache s) (f (activeWriters s))).

(** A new object; its address. *)
Definition allocate (v : Version) : M VersionStore nat := fun s =>
  (Ok (length (heap s)),
   mkVersionStore (heap s ++ [v]) (versions s) (cache s) (activeWriters s)).

(** [current := head; for current != nil && !p(current) { current = current.GetPrev() }]. *)
Fixpoint walk (h : list Version) (p : Version -> bool) (fuel : nat) (current : option nat)
    : outcome (option nat) :=
  match current with
  | None => Ok None
  | Some id =>
      match h !! id with
      | None => Panic
      | Some v =>
          if p v then Ok (Some id)
          else match fuel with O => Diverge | S fuel => walk h p fuel (v_Prev v) end
      end
  end.

Definition walk_from (p : Version -> bool) (current : option nat) : M VersionStore (option nat) :=
  fun s => (walk (heap s) p (length (heap s)) current, s).

Definition deref (id : nat) : M VersionStore Version := fun s =>
  match heap s !! id with Some v => (Ok v, s) | None => (Panic, s) end.

Definition cache_get (dn : gostring) : M VersionStore (option CachedEntry) := fun s =>
  let '(e, c) := Cache_Get (cache s) dn in
  (Ok e, mkVersionStore (heap s) (versions s) c (activeWriters s)).

(** A disk loader: the data and the location of a committed version, or an error. *)
Definition loader : Type := option (gostring -> option (bytes * Z * Z)).

(** [if version.IsDeleted() { return nil, ErrVersionDeleted }; return version.Clone(), nil]. *)
Definition clone_live (id : nat) : M VersionStore Version :=
  v ← deref id;
  if IsDeleted v then fail ErrVersionDeleted else mret (Clone v).

Section Store.
Context `{MapIteration}.

(** The slow path: the disk. *)
Definition read_disk (load : loader) (dn : gostring) (snapshot activeTxID : Z) : M VersionStore Version :=
  match load with
  | None => fail ErrVersionNotFound
  | Some load =>
      match load dn with
      | None => fail ErrVersionNotFound
      | Some (data, pageID, slotID) =>
          id ← allocate (NewCommittedVersion data pageID slotID);
          set_cache (fun c => Cache_Put c dn id pageID slotID) ;;
          if IsVisibleTo (NewCommittedVersion data pageID slotID) snapshot activeTxID
          then clone_live id else fail ErrVersionNotFound
      end
  end.

Definition GetVisibleForTx (load : loader) (dn : gostring) (snapshot activeTxID : Z)
    : M VersionStore Version :=
  head ← gets (fun s => versions s !! dn);
  found ← walk_from (fun v => IsVisibleTo v snapshot activeTxID) head;
  match found with
  | Some id => clone_live id
  | None =>
      cached ← cache_get dn;
      match cached with
      | None => read_disk load dn snapshot activeTxID
      | Some e =>
          v ← deref (ce_Version e);
          if IsVisibleTo v snapshot activeTxID then clone_live (ce_Version e)
          else read_disk load dn snapshot activeTxID
      end
  end.

(** What a writer finds before its own version: in memory, in the cache, on disk. *)
Definition latest_version (load : loader) (dn : gostring) : M VersionStore (option nat) :=
  head ← gets (fun s => versions s !! dn);
  match head with
  | Some id => mret (Some id)
  | None =>
      cached ← cache_get dn;
      match cached with
      | Some e => mret (Some (ce_Version e))
      | None =>
          match load with
          | None => mret None
          | Some load =>
              match load dn with
              | None => mret None
              | Some (data, pageID, slotID) =>
                  id ← allocate (NewCommittedVersion data pageID slotID); mret (Some id)
              end
          end
      end
  end.

(** The check and the registration of the writer, under one lock. *)
Definition register_writer (txn : Transaction) (dn : gostring) : M VersionStore unit :=
  existing ← gets (fun s => activeWriters s !! dn);
  match existing with
  | Some t => if decide (t <> tx_ID txn) then fail ErrVersionConflict
              else set_writers (fun w => <[dn := tx_ID txn]> w)
  | None => set_writers (fun w => <[dn := tx_ID txn]> w)
  end.

Definition clearActiveWriter (dn : gostring) (txID : Z) : M VersionStore unit :=
  set_writers (fun w => match w !! dn with
                        | Some t => if decide (t = txID) then delete dn w else w
                        | None => w
                        end).

(** [stored] is the result of [allocateStorage]: the location, or an error. *)
Definition CreateVersionWithLocation (load : loader) (stored : outcome (Z * Z))
    (txn : option Transaction) (dn : gostring) (data : bytes) : M VersionStore (Z * Z * Transaction) :=
  match txn with None => fail ErrNilTransaction | Some txn =>
  if negb (IsActive txn) then fail ErrTransactionAborted
  else
    register_writer txn dn ;;
    match stored with
    | Ok (pageID, slotID) =>
        prev ← latest_version load dn;
        id ← allocate (SetPrev (NewVersion (tx_ID txn) data pageID slotID) prev);
        set_versions (fun m => <[dn := id]> m) ;;
        set_cache (fun c => Cache_Put c dn id pageID slotID) ;;
        mret (pageID, slotID, AddToWriteSet txn pageID)
    | Err e => clearActiveWriter dn (tx_ID txn) ;; fail e
    | Panic => panic
    | Diverge => diverge
    end
  end.

Definition DeleteVersion (load : loader) (txn : option Transaction) (dn : gostring)
    : M VersionStore Transaction :=
  match txn with None => fail ErrNilTransaction | Some txn =>
  if negb (IsActive txn) then fail ErrTransactionAborted
  else
    latest ← latest_version load dn;
    match latest with
    | None => fail ErrVersionNotFound
    | Some latest =>
        register_writer txn dn ;;
        v ← deref latest;
        head ← gets (fun s => versions s !! dn);
        id ← allocate (SetPrev (NewDeletedVersion (tx_ID txn) (v_PageID v) (v_SlotID v)) head);
        set_versions (fun m => <[dn := id]> m) ;;
        set_cache (fun c => Cache_Delete c dn) ;;
        mret (AddToWriteSet txn (v_PageID v))
    end
  end.

(** [if current.GetTxID() == txn.ID && !current.IsCommitted() { current.Commit(commitTS) }]. *)
Definition commit_cell (txID commitTS : Z) (id : nat) (v : Version) : M VersionStore unit :=
  if bool_decide (v_TxID v = txID) && negb (IsCommitted v) then
    h ← gets heap; set_heap (<[id := Commit v commitTS]> h)
  else mret tt.

(** The walk of [CommitVersion] over one chain. *)
Fixpoint commit_chain (txID commitTS : Z) (fuel : nat) (current : option nat) : M VersionStore unit :=
  match current with
  | None => mret tt
  | Some id =>
      v ← deref id;
      commit_cell txID commitTS id v ;;
      match fuel with
      | O => diverge
      | S fuel => commit_chain txID commitTS fuel (v_Prev v)
      end
  end.

Definition commit_entry (txID commitTS : Z) (e : gostring * nat) : M VersionStore unit :=
  fuel ← gets (fun s => length (heap s));
  commit_chain txID commitTS fuel (Some e.2) ;;
  clearActiveWriter e.1 txID.

Definition CommitVersion (txn : option Transaction) (commitTS : Z) : M VersionStore unit :=
  match txn with None => mret tt | Some txn =>
  es ← gets (fun s => range (versions s));
  for_each es (commit_entry (tx_ID txn) commitTS)
  end.

Definition rollback_entry (txID : Z) (e : gostring * nat) : M VersionStore unit :=
  let '(dn, head) := e in
  current ← walk_from (fun v => negb (bool_decide (v_TxID v = txID) && negb (IsCommitted v))) (Some head);
  match current with
  | None => set_versions (fun m => delete dn m) ;; set_cache (fun c => Cache_Delete c dn)
  | Some id => if decide (id <> head) then set_versions (fun m => <[dn := id]> m) else mret tt
  end ;;
  clearActiveWriter dn txID.

Definition RollbackVersion (txn : option Transaction) : M VersionStore unit :=
  match txn with None => mret tt | Some txn =>
  es ← gets (fun s => range (versions s));
  for_each es (rollback_entry (tx_ID txn))
  end.

(** [for toRemove != nil { removedCount++; toRemove = toRemove.GetPrev() }]. *)
Fixpoint count_chain (h : list Version) (fuel : nat) (n : Z) (current : option nat) : outcome Z :=
  match current with
  | None => Ok n
  | Some id =>
      match h !! id with
      | None => Panic
      | Some v => match fuel with O => Diverge | S fuel => count_chain h fuel (int64 (n + 1)) (v_Prev v) end
      end
  end.

(** The versions behind [visibleVersion] are counted and cut off. *)
Definition cut_chain (n : Z) (id : nat) : M VersionStore Z :=
  v ← deref id;
  match v_Prev v with
  | None => mret n
  | Some prev =>
      n ← (fun s => (count_chain (heap s) (length (heap s)) n (Some prev), s));
      h ← gets heap; set_heap (<[id := SetPrev v None]> h) ;; mret n
  end.

Definition gc_entry (oldest : Z) (n : Z) (e : gostring * nat) : M VersionStore Z :=
  let '(dn, head) := e in
  visible ← walk_from (fun v => IsCommitted v && bool_decide (v_CommitTS v <= oldest)) (Some head);
  n ← match visible with Some id => cut_chain n id | None => mret n end;
  latest ← deref head;
  if IsDeleted latest && IsCommitted latest && bool_decide (v_CommitTS latest < oldest)
  then set_versions (fun m => delete dn m) ;; mret (int64 (n + 1)) else mret n.

Fixpoint gc_entries (oldest : Z) (n : Z) (es : list (gostring * nat)) : M VersionStore Z :=
  match es with
  | [] => mret n
  | e :: es => n ← gc_entry oldest n e; gc_entries oldest n es
  end.

Definition GarbageCollect (oldest : Z) : M VersionStore Z :=
  es ← gets (fun s => range (versions s));
  gc_entries oldest 0 es.

Definition LoadCommittedVersion (dn : gostring) (data : bytes) (pageID slotID : Z) : M VersionStore unit :=
  id ← allocate (Commit (NewVersion 0 data pageID slotID) 1);
  set_versions (fun m => <[dn := id]> m).

(** [Clear] empties the maps and leaves the cache. *)
Definition Clear : M VersionStore unit :=
  set_versions (fun _ => ∅) ;; set_writers (fun _ => ∅).

End Store.
