(* ===== verification/MvccSim.v ===== *)
(** * The version store against an abstract database

    An abstract database keeps for every entry at most one pending write with its
    transaction, and the history of committed writes with their timestamps. The
    version store simulates it: every operation returns, conflicts are reported
    exactly when another transaction has a pending write, and what the history knows
    of an entry is what a reader gets, whatever the cache and the disk hold. *)

From S2P Require Import Prelude GoStrings Mvcc.

(** ** The abstract database *)

(** What was written: a value, or [None] for a deletion. *)
Abbreviation written := (option bytes).

Record adb := mkAdb {
  pend : gmap gostring (Z * written);
  hist : gmap gostring (list (Z * written));
  horizon : Z;
  ended : gset Z
}.

Definition adb0 : adb := mkAdb ∅ ∅ 0 ∅.

(** The latest committed write of a history that a snapshot sees. *)
Definition alook (K : list (Z * written)) (snapshot : Z) : option written :=
  snd <$> List.find (fun x => bool_decide (x.1 <= snapshot)) K.

Definition history (A : adb) (dn : gostring) : list (Z * written) := default [] (hist A !! dn).

(** A transaction reads its own pending write, else its snapshot. *)
Definition aread (A : adb) (dn : gostring) (snapshot t : Z) : option written :=
  match pend A !! dn with
  | Some (t', w) => if decide (t' = t) then Some w else alook (history A dn) snapshot
  | None => alook (history A dn) snapshot
  end.

Definition answers (r : outcome bytes) (w : written) : Prop :=
  match w with Some d => r = Ok d | None => r = Err ErrVersionDeleted end.

Definition may_write (A : adb) (dn : gostring) (t : Z) : Prop :=
  match pend A !! dn with Some (t', _) => t' = t | None => True end.

Definition a_write (A : adb) (dn : gostring) (t : Z) (w : written) : adb :=
  mkAdb (<[dn := (t, w)]> (pend A)) (hist A) (horizon A) (ended A).

(** The end of a transaction for one entry: its pending write goes to the history
    with a timestamp, or is dropped. *)
Definition settle (t : Z) (ts : option Z) (A : adb) (dn : gostring) : adb :=
  match pend A !! dn with
  | Some (t', w) =>
      if decide (t' = t) then
        mkAdb (delete dn (pend A))
          match ts with
          | Some ts => <[dn := (ts, w) :: history A dn]> (hist A)
          | None => hist A
          end (horizon A) (ended A)
      else A
  | None => A
  end.

Definition retire (A : adb) (t : Z) : adb := mkAdb (pend A) (hist A) (horizon A) ({[t]} ∪ ended A).

Definition a_end (A : adb) (t : Z) (ts : option Z) (dns : list gostring) : adb :=
  foldl (settle t ts) (retire A t) dns.

Definition forget (A : adb) (dn : gostring) : adb :=
  mkAdb (pend A) (delete dn (hist A)) (horizon A) (ended A).

(** ** Operations *)

Inductive op :=
| OpRead (load : loader) (dn : gostring) (snapshot t : Z)
| OpWrite (load : loader) (pageID slotID : Z) (txn : Transaction) (dn : gostring) (data : bytes)
| OpDelete (load : loader) (txn : Transaction) (dn : gostring)
| OpCommit (txn : Transaction) (ts : Z)
| OpRollback (txn : Transaction)
| OpGC (oldest : Z)
| OpWriteFails (load : loader) (e : goerror) (txn : Transaction) (dn : gostring) (data : bytes).

(** [OpWriteFails]: a write for which the storage allocation fails with [e]. The transaction of an operation is not 0, active, and not used after its end. *)
Definition legal (E : gset Z) (o : op) : Prop :=
  match o with
  | OpRead _ _ _ t => t ∉ E
  | OpWrite _ _ _ txn _ _ | OpDelete _ txn _ | OpRollback txn | OpWriteFails _ _ txn _ _ =>
      tx_ID txn ∉ E /\ tx_ID txn <> 0 /\ IsActive txn = true
  | OpCommit txn ts => tx_ID txn ∉ E /\ tx_ID txn <> 0 /\ IsActive txn = true /\ ts > 0
  | OpGC _ => True
  end.

(** The results an operation may have, and what becomes of the abstract database. *)
Inductive astep (A : adb) : op -> outcome bytes -> adb -> Prop :=
| as_read load dn snapshot t r :
    (forall w, horizon A <= snapshot -> aread A dn snapshot t = Some w -> answers r w) ->
    astep A (OpRead load dn snapshot t) r A
| as_write load p sl txn dn data :
    may_write A dn (tx_ID txn) ->
    astep A (OpWrite load p sl txn dn data) (Ok []) (a_write A dn (tx_ID txn) (Some data))
| as_write_conflict load p sl txn dn data :
    ~ may_write A dn (tx_ID txn) ->
    astep A (OpWrite load p sl txn dn data) (Err ErrVersionConflict) A
| as_delete load txn dn :
    may_write A dn (tx_ID txn) ->
    astep A (OpDelete load txn dn) (Ok []) (a_write A dn (tx_ID txn) None)
| as_delete_conflict load txn dn :
    ~ may_write A dn (tx_ID txn) -> astep A (OpDelete load txn dn) (Err ErrVersionConflict) A
| as_delete_none load txn dn :
    pend A !! dn = None -> (forall snapshot, horizon A <= snapshot -> alook (history A dn) snapshot = None) ->
    astep A (OpDelete load txn dn) (Err ErrVersionNotFound) A
| as_commit txn ts dns :
    (forall dn w, pend A !! dn = Some (tx_ID txn, w) -> dn ∈ dns) ->
    astep A (OpCommit txn ts) (Ok []) (a_end A (tx_ID txn) (Some ts) dns)
| as_rollback txn dns :
    (forall dn w, pend A !! dn = Some (tx_ID txn, w) -> dn ∈ dns) ->
    astep A (OpRollback txn) (Ok []) (a_end A (tx_ID txn) None dns)
| as_gc oldest purged :
    (forall dn snapshot w, dn ∈ purged -> Z.max oldest (horizon A) <= snapshot ->
       alook (history A dn) snapshot = Some w -> w = None) ->
    astep A (OpGC oldest) (Ok [])
      (foldl forget (mkAdb (pend A) (hist A) (Z.max oldest (horizon A)) (ended A)) purged)
| as_write_fails load e txn dn data :
    pend A !! dn = None -> astep A (OpWriteFails load e txn dn data) (Err e) A
| as_write_fails_conflict load e txn dn data :
    ~ may_write A dn (tx_ID txn) -> astep A (OpWriteFails load e txn dn data) (Err ErrVersionConflict) A.

(** A write without storage by a transaction that has a pending write on the entry: the code
    then gives up its hold on the entry although its write stays pending. *)
Definition spoils (A : adb) (o : op) : Prop :=
  match o with OpWriteFails _ _ txn dn _ => exists w, pend A !! dn = Some (tx_ID txn, w) | _ => False end.

Section Simulation.
Context `{MapIteration}.

Definition result {A} (f : A -> bytes) (r : outcome A * VersionStore) : outcome bytes * VersionStore :=
  (match r.1 with Ok a => Ok (f a) | Err e => Err e | Panic => Panic | Diverge => Diverge end, r.2).

Definition exec (o : op) (s : VersionStore) : outcome bytes * VersionStore :=
  match o with
  | OpRead load dn snapshot t => result v_Data (GetVisibleForTx load dn snapshot t s)
  | OpWrite load p sl txn dn data =>
      result (fun _ => []) (CreateVersionWithLocation load (Ok (p, sl)) (Some txn) dn data s)
  | OpDelete load txn dn => result (fun _ => []) (DeleteVersion load (Some txn) dn s)
  | OpCommit txn ts => result (fun _ => []) (CommitVersion (Some txn) ts s)
  | OpRollback txn => result (fun _ => []) (RollbackVersion (Some txn) s)
  | OpGC oldest => result (fun _ => []) (GarbageCollect oldest s)
  | OpWriteFails load e txn dn data => result (fun _ => []) (CreateVersionWithLocation load (Err e) (Some txn) dn data s)
  end.

(** ** Chains *)

Inductive chain (h : list Version) : option nat -> list (nat * Version) -> Prop :=
| chain_nil : chain h None []
| chain_cons id v l : h !! id = Some v -> chain h (v_Prev v) l -> chain h (Some id) ((id, v) :: l).

(** A version points to an older one. *)
Definition wf_heap (h : list Version) : Prop :=
  forall id v p, h !! id = Some v -> v_Prev v = Some p -> (p < id)%nat.

Lemma chain_exists h id :
  wf_heap h -> (id < length h)%nat -> exists l, chain h (Some id) l /\ (length l <= S id)%nat.
Proof.
  intros Hw. induction (lt_wf id) as [id _ IH]. intros Hl.
  destruct (lookup_lt_is_Some_2 h id Hl) as [v Hv]. destruct (v_Prev v) as [p|] eqn:Hp.
  - pose proof (Hw _ _ _ Hv Hp). destruct (IH p) as (l & Hc & Hn); [done | lia |].
    exists ((id, v) :: l). split; [| simpl; lia]. constructor; [done |]. by rewrite Hp.
  - exists [(id, v)]. split; [| simpl; lia]. constructor; [done |]. rewrite Hp. constructor.
Qed.

Lemma chain_bound h o l : wf_heap h -> chain h o l -> (length l <= length h)%nat.
Proof.
  intros Hw Hc. assert (forall id, o = Some id -> (length l <= S id /\ id < length h)%nat) as Hb.
  { induction Hc as [|id v l Hv Hc IH]; intros id0 E; [done |]. injection E as <-.
    split; [| by eapply lookup_lt_Some]. destruct (v_Prev v) as [p|] eqn:Hp.
    - pose proof (Hw _ _ _ Hv Hp). destruct (IH p eq_refl). simpl. lia.
    - inversion Hc. subst. simpl. lia. }
  destruct o as [id|]; [destruct (Hb id eq_refl); lia | inversion Hc; simpl; lia].
Qed.

Lemma chain_frame h h' o l :
  chain h o l -> (forall id v, (id, v) ∈ l -> h' !! id = Some v) -> chain h' o l.
Proof.
  induction 1 as [|id v l Hv Hc IH]; intros Hf; [constructor |].
  constructor; [apply Hf; left | apply IH; intros; apply Hf; by right].
Qed.

Lemma chain_lookup h o l id v : chain h o l -> (id, v) ∈ l -> h !! id = Some v.
Proof. induction 1; [set_solver |]. intros [E|Hin]%elem_of_cons; [by simplify_eq | auto]. Qed.

Lemma chain_below h o l b id v :
  wf_heap h -> chain h o l -> (forall p, o = Some p -> (p < b)%nat) -> (id, v) ∈ l -> (id < b)%nat.
Proof.
  intros Hw Hc. revert b. induction Hc as [|id0 v0 l Hv Hc IH]; intros b Hb Hin; [set_solver |].
  apply elem_of_cons in Hin as [E|Hin]; [simplify_eq; by apply Hb |].
  eapply (IH b); [| done]. intros p Hp. pose proof (Hw _ _ _ Hv Hp). specialize (Hb id0 eq_refl). lia.
Qed.

(** The loop over a chain is the search in its list. *)
Lemma walk_chain h p o l fuel :
  chain h o l -> (length l <= fuel)%nat ->
  walk h p fuel o = Ok (fst <$> List.find (fun x => p x.2) l).
Proof.
  intros Hc. revert fuel. induction Hc as [|id v l Hv Hc IH]; intros fuel Hf; [by destruct fuel |].
  destruct fuel as [|fuel]; [simpl in Hf; lia |]. cbn [walk List.find snd]. rewrite Hv.
  destruct (p v); [done |]. apply IH. simpl in Hf. lia.
Qed.

(** ** The simulation relation *)

Definition value (v : Version) : written := if IsDeleted v then None else Some (v_Data v).

(** The latest committed version of a chain that a snapshot sees. *)
Definition seen (snapshot : Z) (v : Version) : bool :=
  negb (bool_decide (v_CommitTS v = 0)) && bool_decide (v_CommitTS v <= snapshot).

Definition vlook (vs : list Version) (snapshot : Z) : option written :=
  value <$> List.find (seen snapshot) vs.

Definition open_by (t : Z) (v : Version) : Prop := v_CommitTS v = 0 /\ v_TxID v = t.

Definition settled (E : gset Z) (v : Version) : Prop := v_CommitTS v = 0 -> v_TxID v ∈ E.

(** The versions of an entry: those of the pending transaction, newest first, then
    settled ones that remember what the history knows. *)
Definition related (vs : list Version) (p : option (Z * written)) (K : list (Z * written))
    (hz : Z) (E : gset Z) : Prop :=
  exists us ks, vs = us ++ ks
    /\ match p with
       | Some (t, w) => exists u us', us = u :: us' /\ value u = w /\ Forall (open_by t) us
       | None => us = []
       end
    /\ Forall (settled E) ks
    /\ forall snapshot w, hz <= snapshot -> alook K snapshot = Some w -> vlook ks snapshot = Some w.

Definition Rel (s : VersionStore) (A : adb) (dn : gostring) : Prop :=
  exists l, chain (heap s) (versions s !! dn) l
    /\ related (snd <$> l) (pend A !! dn) (history A dn) (horizon A) (ended A).

(** Every version belongs to an entry: [own]. *)
Record Base (s : VersionStore) (own : nat -> gostring) : Prop := mkBase {
  base_heap : wf_heap (heap s);
  base_ts : forall id v, heap s !! id = Some v -> 0 <= v_CommitTS v;
  base_own : forall id v p, heap s !! id = Some v -> v_Prev v = Some p -> own p = own id;
  base_head : forall dn id, versions s !! dn = Some id -> (id < length (heap s))%nat /\ own id = dn;
  base_cache : forall dn e, entries (cache s) !! dn = Some e ->
    (ce_Version e < length (heap s))%nat /\ own (ce_Version e) = dn
}.

(** An open version belongs to the pending write of its entry, or to a transaction
    that has ended. *)
Definition cells (h : list Version) (own : nat -> gostring) (A : adb) : Prop :=
  forall id v, h !! id = Some v -> v_CommitTS v = 0 ->
    v_TxID v ∈ ended A \/ exists w, pend A !! own id = Some (v_TxID v, w).

Record Inv (s : VersionStore) (own : nat -> gostring) (A : adb) : Prop := mkInv {
  inv_base : Base s own;
  inv_cell : cells (heap s) own A;
  inv_writers : activeWriters s = fst <$> pend A;
  inv_rel : forall dn, Rel s A dn
}.

Definition Sim (s : VersionStore) (A : adb) : Prop :=
  (exists own, Inv s own A)
  /\ 0 ∉ ended A
  /\ forall dn t w, pend A !! dn = Some (t, w) -> t ∉ ended A /\ t <> 0.

Lemma chain_own s own o l id v :
  Base s own -> chain (heap s) o l -> (id, v) ∈ l -> forall p, o = Some p -> own id = own p.
Proof.
  intros Hi Hc. induction Hc as [|id0 v0 l Hv Hc IH]; [set_solver |].
  intros Hin p E. injection E as <-. apply elem_of_cons in Hin as [E|Hin]; [by simplify_eq |].
  destruct (v_Prev v0) as [p|] eqn:Hp; [| inversion Hc; subst; set_solver].
  rewrite (IH Hin p eq_refl). by apply (base_own _ _ Hi _ _ _ Hv Hp).
Qed.

(** The chain of an entry holds only versions of that entry. *)
Lemma chain_of_entry s own dn l id v :
  Base s own -> chain (heap s) (versions s !! dn) l -> (id, v) ∈ l -> own id = dn.
Proof.
  intros Hi Hc Hin. destruct (versions s !! dn) as [hd|] eqn:E; [| inversion Hc; subst; set_solver].
  rewrite (chain_own _ _ _ _ _ _ Hi Hc Hin hd eq_refl). by apply (base_head _ _ Hi).
Qed.

(** ** Reading *)

Lemma find_fmap_snd (p : Version -> bool) (l : list (nat * Version)) :
  List.find p (snd <$> l) = snd <$> List.find (fun x => p x.2) l.
Proof. induction l as [|[id v] l IH]; [done |]. cbn. by destruct (p v). Qed.

Lemma find_app_none {A} (p : A -> bool) l k : List.find p l = None -> List.find p (l ++ k) = List.find p k.
Proof. induction l as [|x l IH]; [done |]. cbn. by destruct (p x). Qed.

Lemma find_ext {A} (p q : A -> bool) l : (forall x, x ∈ l -> p x = q x) -> List.find p l = List.find q l.
Proof.
  induction l as [|x l IH]; intros Hpq; [done |]. cbn. rewrite (Hpq x) by left.
  destruct (q x); [done |]. apply IH. intros y Hy. apply Hpq. by right.
Qed.

(** What a reader finds in a chain that is related to the abstract entry. *)
Lemma related_visible vs A dn snapshot t w :
  related vs (pend A !! dn) (history A dn) (horizon A) (ended A) -> t ∉ ended A ->
  horizon A <= snapshot -> aread A dn snapshot t = Some w ->
  exists v, List.find (fun v => IsVisibleTo v snapshot t) vs = Some v /\ value v = w.
Proof.
  intros (us & ks & -> & Hp & Hs & Hk) Ht Hz Hr.
  assert (forall w, alook (history A dn) snapshot = Some w ->
    exists v, List.find (fun v => IsVisibleTo v snapshot t) ks = Some v /\ value v = w) as Hks.
  { intros w' Ha. apply Hk in Ha; [| done]. unfold vlook in Ha.
    rewrite (find_ext (fun v => IsVisibleTo v snapshot t) (seen snapshot)).
    - destruct (List.find _ ks) as [v|]; [| done]. exists v. by simplify_eq/=.
    - intros v Hin. rewrite Forall_forall in Hs. unfold IsVisibleTo, seen.
      case_decide as Hc; [| by rewrite (bool_decide_false (v_CommitTS v = 0))].
      rewrite (bool_decide_true (v_CommitTS v = 0)) by done. cbn.
      apply bool_decide_eq_false. intros <-. by apply Ht, Hs. }
  unfold aread in Hr. destruct (pend A !! dn) as [[t' w']|]; [| subst us; by apply Hks].
  destruct Hp as (u & us' & -> & Hu & Ho). case_decide as Hd.
  - simplify_eq. apply Forall_cons in Ho as [[Hc Htx] _]. exists u. split; [| done].
    cbn. unfold IsVisibleTo. by rewrite decide_True, bool_decide_true.
  - rewrite find_app_none; [by apply Hks |]. clear Hu Hks.
    generalize (u :: us'), Ho. clear Ho. intros us Ho. induction Ho as [|v us [Hc Htx] _ IH]; [done |].
    cbn. unfold IsVisibleTo at 1. by rewrite decide_True, bool_decide_false by congruence.
Qed.

(** The walk of a reader from the head of an entry. *)
Lemma walk_head s own A p dn :
  Inv s own A ->
  exists l, chain (heap s) (versions s !! dn) l
    /\ walk (heap s) p (length (heap s)) (versions s !! dn) = Ok (fst <$> List.find (fun x => p x.2) l)
    /\ related (snd <$> l) (pend A !! dn) (history A dn) (horizon A) (ended A).
Proof.
  intros Hi. destruct (inv_rel _ _ _ Hi dn) as (l & Hc & Hr). exists l. split; [done |]. split; [| done].
  apply walk_chain; [done |]. eapply chain_bound; [apply (base_heap _ _ (inv_base _ _ _ Hi)) | done].
Qed.

Lemma read_answer s own A load dn snapshot t w :
  Inv s own A -> t ∉ ended A -> horizon A <= snapshot -> aread A dn snapshot t = Some w ->
  answers (result v_Data (GetVisibleForTx load dn snapshot t s)).1 w
  /\ (GetVisibleForTx load dn snapshot t s).2 = s.
Proof.
  intros Hi Ht Hz Hr. destruct (walk_head s own A (fun v => IsVisibleTo v snapshot t) dn Hi) as (l & Hc & Hw & Hrel).
  destruct (related_visible _ _ _ _ _ _ Hrel Ht Hz Hr) as (v & Hf & Hv).
  rewrite find_fmap_snd in Hf. destruct (List.find _ l) as [[id v']|] eqn:E; [| done].
  cbn in Hf. injection Hf as ->. apply find_some in E as [Hin%list_elem_of_In _].
  pose proof (chain_lookup _ _ _ _ _ Hc Hin) as Hid.
  unfold GetVisibleForTx. rewrite bind_run. unfold gets. cbn match. rewrite bind_run.
  unfold walk_from. rewrite Hw. cbn match. cbn [fmap option_fmap option_map fst].
  unfold clone_live. rewrite bind_run. unfold deref. rewrite Hid. cbn match.
  unfold value in Hv. destruct (IsDeleted v); subst w; done.
Qed.

(** ** Changes of the base *)

Definition own_set (own : nat -> gostring) (n : nat) (dn : gostring) : nat -> gostring :=
  fun i => if decide (i = n) then dn else own i.

Lemma own_set_eq own n dn : own_set own n dn n = dn.
Proof. unfold own_set. by rewrite decide_True. Qed.

Lemma own_set_lt own n dn i : (i < n)%nat -> own_set own n dn i = own i.
Proof. intros. unfold own_set. rewrite decide_False by lia. done. Qed.

Lemma lookup_snoc_cases {A} (l : list A) x i y :
  (l ++ [x]) !! i = Some y -> l !! i = Some y \/ i = length l /\ y = x.
Proof. rewrite lookup_snoc_Some. intros [[_ ?]|[-> ->]]; auto. Qed.

Lemma Base_alloc s own v dn :
  Base s own -> 0 <= v_CommitTS v ->
  (forall p, v_Prev v = Some p -> (p < length (heap s))%nat /\ own p = dn) ->
  Base (mkVersionStore (heap s ++ [v]) (versions s) (cache s) (activeWriters s))
    (own_set own (length (heap s)) dn).
Proof.
  intros [Hh Hts Ho Hv Hc] Hz Hp. constructor; cbn [heap versions cache].
  - intros id v0 p [Hid|[-> ->]]%lookup_snoc_cases E; [by eapply Hh | by apply Hp].
  - intros id v0 [Hid|[-> ->]]%lookup_snoc_cases; [by eapply Hts | done].
  - intros id v0 p [Hid|[-> ->]]%lookup_snoc_cases E.
    + pose proof (lookup_lt_Some _ _ _ Hid). pose proof (Hh _ _ _ Hid E).
      rewrite !own_set_lt by lia. by eapply Ho.
    + destruct (Hp p E). by rewrite own_set_eq, own_set_lt.
  - intros d id Hd. destruct (Hv d id Hd). rewrite length_app, own_set_lt by done. simpl. split; [lia | done].
  - intros d e He. destruct (Hc d e He). rewrite length_app, own_set_lt by done. simpl. split; [lia | done].
Qed.

Lemma Base_versions s own f :
  Base s own ->
  (forall dn id, f (versions s) !! dn = Some id -> (id < length (heap s))%nat /\ own id = dn) ->
  Base (mkVersionStore (heap s) (f (versions s)) (cache s) (activeWriters s)) own.
Proof. intros [Hh Hts Ho Hv Hc] Hf. by constructor. Qed.

Lemma Base_cache s own c :
  Base s own ->
  (forall dn e, entries c !! dn = Some e -> (ce_Version e < length (heap s))%nat /\ own (ce_Version e) = dn) ->
  Base (mkVersionStore (heap s) (versions s) c (activeWriters s)) own.
Proof. intros [Hh Hts Ho Hv Hc] Hf. by constructor. Qed.

Lemma Base_writers s own w : Base s own -> Base (mkVersionStore (heap s) (versions s) (cache s) w) own.
Proof. intros [Hh Hts Ho Hv Hc]. by constructor. Qed.

(** The entries of the cache after its operations. *)
Lemma entries_Get c dn : entries (Cache_Get c dn).2 = entries c.
Proof. unfold Cache_Get. by destruct (entries c !! dn). Qed.

Lemma entries_Put c dn id p sl d e :
  entries (Cache_Put c dn id p sl) !! d = Some e ->
  d = dn /\ ce_Version e = id \/ entries c !! d = Some e.
Proof.
  assert (forall m : gmap gostring CachedEntry, <[dn := mkCachedEntry id p sl]> m !! d = Some e ->
    d = dn /\ ce_Version e = id \/ m !! d = Some e) as Hi.
  { intros m [[<- <-]|[_ E]]%lookup_insert_Some; auto. }
  unfold Cache_Put. cbv zeta. destruct (entries c !! dn); cbn [entries]; [apply Hi |].
  intros [E|E]%Hi; [by left |]. right. revert E. case_decide; [| done].
  unfold evictLRU. destruct (last (lru c)); [| done]. cbn [Cache_Delete entries].
  intros E. by apply lookup_delete_Some in E as [_ E].
Qed.

Lemma entries_Delete c dn d e : entries (Cache_Delete c dn) !! d = Some e -> entries c !! d = Some e.
Proof. cbn. intros E. by apply lookup_delete_Some in E as [_ E]. Qed.

Lemma Base_Put s own dn id p sl :
  Base s own -> (id < length (heap s))%nat -> own id = dn ->
  Base (mkVersionStore (heap s) (versions s) (Cache_Put (cache s) dn id p sl) (activeWriters s)) own.
Proof.
  intros Hb Hl Ho. apply Base_cache; [done |]. intros d e [[-> <-]|E]%entries_Put; [done |].
  by apply (base_cache _ _ Hb).
Qed.

Lemma Base_Delete s own dn :
  Base s own ->
  Base (mkVersionStore (heap s) (versions s) (Cache_Delete (cache s) dn) (activeWriters s)) own.
Proof.
  intros Hb. apply Base_cache; [done |]. intros d e E%entries_Delete. by apply (base_cache _ _ Hb).
Qed.

Lemma Base_Get s own dn :
  Base s own ->
  Base (mkVersionStore (heap s) (versions s) (Cache_Get (cache s) dn).2 (activeWriters s)) own.
Proof.
  intros Hb. apply Base_cache; [done |]. rewrite entries_Get. apply (base_cache _ _ Hb).
Qed.

(** ** Frames *)

Lemma related_mono vs p K hz hz' E E' :
  related vs p K hz E -> hz <= hz' -> E ⊆ E' -> related vs p K hz' E'.
Proof.
  intros (us & ks & Ev & Hp & Hs & Hk) Hz HE. exists us, ks. split_and!; [done | done | |].
  - apply (Forall_impl _ _ _ Hs). intros v Hv Hc. by apply HE, Hv.
  - intros snapshot w Hsn. apply Hk. lia.
Qed.

(** An entry whose versions a change leaves alone. *)
Lemma Rel_frame s s' A A' dn :
  Rel s A dn -> versions s' !! dn = versions s !! dn ->
  (forall l id v, chain (heap s) (versions s !! dn) l -> (id, v) ∈ l -> heap s' !! id = Some v) ->
  pend A' !! dn = pend A !! dn -> history A' dn = history A dn ->
  horizon A <= horizon A' -> ended A ⊆ ended A' -> Rel s' A' dn.
Proof.
  intros (l & Hc & Hr) Hv Hh Hp Hk Hz HE. exists l. rewrite Hv, Hp, Hk. split.
  - apply (chain_frame (heap s)); [done |]. intros id v. by apply Hh.
  - by eapply related_mono.
Qed.

Lemma Rel_alloc s A v dn :
  Rel s A dn -> Rel (mkVersionStore (heap s ++ [v]) (versions s) (cache s) (activeWriters s)) A dn.
Proof.
  intros Hr. eapply Rel_frame; [done | done | | done | done | lia | done].
  intros l id v' Hc Hin. cbn. apply lookup_app_l_Some. by eapply chain_lookup.
Qed.

(** A committed version of an entry appears in the heap. *)
Lemma Inv_alloc s own A v dn :
  Inv s own A -> v_Prev v = None -> 0 < v_CommitTS v ->
  Inv (mkVersionStore (heap s ++ [v]) (versions s) (cache s) (activeWriters s))
    (own_set own (length (heap s)) dn) A.
Proof.
  intros [Hb Hc Hw Hr] Hp Hv. constructor; [apply Base_alloc; [done | lia | congruence] | | done |].
  - intros id v0 [Hid|[-> ->]]%lookup_snoc_cases E; [| lia].
    rewrite own_set_lt by (by eapply lookup_lt_Some). by apply Hc.
  - intros d. by apply Rel_alloc.
Qed.

Lemma Inv_base s s' own A :
  Inv s own A -> Base s' own -> heap s' = heap s -> versions s' = versions s ->
  activeWriters s' = activeWriters s -> Inv s' own A.
Proof.
  intros [Hb Hc Hw Hr] Hb' Eh Ev Ew. constructor; [done | by rewrite Eh | by rewrite Ew |].
  intros dn. destruct (Hr dn) as (l & Hl & Hrel). exists l. by rewrite Eh, Ev.
Qed.

(** ** Reads *)

(** An operation that returns and keeps the relation to the same abstract database. *)
Definition quiet {B} (m : M VersionStore B) (A : adb) : Prop :=
  forall s own, Inv s own A -> returns (m s).1 /\ exists own', Inv (m s).2 own' A.

Lemma deref_run id s v : heap s !! id = Some v -> deref id s = (Ok v, s).
Proof. intros Hv. unfold deref. by rewrite Hv. Qed.

Lemma clone_live_run id s :
  (id < length (heap s))%nat -> returns (clone_live id s).1 /\ (clone_live id s).2 = s.
Proof.
  intros Hl. destruct (lookup_lt_is_Some_2 _ _ Hl) as [v Hv]. unfold clone_live. rewrite bind_run.
  unfold deref. rewrite Hv. cbn match. by destruct (IsDeleted v).
Qed.

Lemma Inv_disk s own A dn data p sl :
  Inv s own A ->
  Inv (mkVersionStore (heap s ++ [NewCommittedVersion data p sl]) (versions s)
         (Cache_Put (cache s) dn (length (heap s)) p sl) (activeWriters s))
    (own_set own (length (heap s)) dn) A.
Proof.
  intros Hi. pose proof (Inv_alloc s own A (NewCommittedVersion data p sl) dn Hi eq_refl ltac:(cbn; lia)) as Ha.
  eapply Inv_base; [exact Ha | | done | done | done].
  apply (Base_Put _ _ dn (length (heap s)) p sl (inv_base _ _ _ Ha)); cbn [heap].
  - rewrite length_app. simpl. lia.
  - apply own_set_eq.
Qed.

Lemma quiet_read_disk load dn snapshot t A : quiet (read_disk load dn snapshot t) A.
Proof.
  intros s own Hi. unfold read_disk. destruct load as [load|]; [| by split; [| exists own]].
  destruct (load dn) as [[[data p] sl]|]; [| by split; [| exists own]].
  rewrite bind_run. unfold allocate. cbn match. rewrite bind_run. unfold set_cache, modify. cbn match.
  cbn [heap versions cache activeWriters]. pose proof (Inv_disk s own A dn data p sl Hi) as Hd.
  destruct (IsVisibleTo _ _ _); [| split; [done | eexists; exact Hd]].
  edestruct (clone_live_run (length (heap s))) as [Hr ->]; [| split; [done | eexists; exact Hd]].
  cbn [heap]. rewrite length_app. simpl. lia.
Qed.

Lemma Inv_get s own A dn :
  Inv s own A ->
  Inv (mkVersionStore (heap s) (versions s) (Cache_Get (cache s) dn).2 (activeWriters s)) own A.
Proof.
  intros Hi. eapply Inv_base; [done | | done | done | done]. by apply Base_Get, (inv_base _ _ _ Hi).
Qed.

Lemma quiet_read load dn snapshot t A : quiet (GetVisibleForTx load dn snapshot t) A.
Proof.
  intros s own Hi. destruct (walk_head s own A (fun v => IsVisibleTo v snapshot t) dn Hi) as (l & Hc & Hw & _).
  unfold GetVisibleForTx. rewrite bind_run. unfold gets. cbn match. rewrite bind_run.
  unfold walk_from. rewrite Hw. cbn match.
  destruct (List.find _ l) as [[id v]|] eqn:F; cbn [fmap option_fmap option_map fst].
  - apply find_some in F as [Hin%list_elem_of_In _]. apply (chain_lookup _ _ _ _ _ Hc) in Hin.
    destruct (clone_live_run id s) as [Hr ->]; [by eapply lookup_lt_Some | split; [done | by exists own]].
  - rewrite bind_run. unfold cache_get. pose proof (Inv_get s own A dn Hi) as Hg.
    destruct (Cache_Get (cache s) dn) as [[e|] c] eqn:E; cbn match in *; cbn [snd] in Hg;
      [| by apply (quiet_read_disk _ _ _ _ _ _ own)].
    assert (ce_Version e < length (heap s))%nat as Hl.
    { apply (base_cache _ _ (inv_base _ _ _ Hi) dn). unfold Cache_Get in E. by destruct (entries _ !! dn); simplify_eq. }
    destruct (lookup_lt_is_Some_2 _ _ Hl) as [v Hv]. erewrite bind_ok by (by apply deref_run).
    destruct (IsVisibleTo _ _ _); [| by apply (quiet_read_disk _ _ _ _ _ _ own)].
    edestruct (clone_live_run (ce_Version e)) as [Hr ->]; [| split; [done | by exists own]]. done.
Qed.

(** ** Writes *)

(** The version found before a write: that of the entry if it has one. *)
Lemma latest_version_run load dn s own A :
  Inv s own A ->
  exists o s' own',
    latest_version load dn s = (Ok o, s') /\ Inv s' own' A /\ versions s' = versions s
    /\ (forall id, o = Some id -> (id < length (heap s'))%nat /\ own' id = dn)
    /\ (versions s !! dn <> None -> o = versions s !! dn).
Proof.
  intros Hi. unfold latest_version. rewrite bind_run. unfold gets. cbn match.
  destruct (versions s !! dn) as [id|] eqn:E.
  { exists (Some id), s, own. split_and!; try done. intros ? [= <-]. by apply (base_head _ _ (inv_base _ _ _ Hi)). }
  rewrite bind_run. unfold cache_get. pose proof (Inv_get s own A dn Hi) as Hg.
  destruct (Cache_Get (cache s) dn) as [[e|] c] eqn:Eg; cbn match; cbn [snd] in Hg.
  { exists (Some (ce_Version e)). do 2 eexists. split_and!; [done | exact Hg | done | | done].
    intros ? [= <-]. apply (base_cache _ _ (inv_base _ _ _ Hi) dn). unfold Cache_Get in Eg.
    by destruct (entries _ !! dn); simplify_eq. }
  destruct load as [load|]; [destruct (load dn) as [[[data p] sl]|] |];
    [| by (exists None; do 2 eexists; split_and!; [done | exact Hg | done..])..].
  exists (Some (length (heap s))). do 2 eexists.
  split_and!; [done | exact (Inv_alloc _ own A (NewCommittedVersion data p sl) dn Hg eq_refl ltac:(cbn; lia)) | done | | done].
  intros ? [= <-]. cbn [heap]. rewrite length_app, own_set_eq. simpl. split; [lia | done].
Qed.

Lemma register_run txn dn s own A :
  Inv s own A ->
  (may_write A dn (tx_ID txn)
   /\ register_writer txn dn s =
      (Ok tt, mkVersionStore (heap s) (versions s) (cache s) (<[dn := tx_ID txn]> (activeWriters s))))
  \/ (~ may_write A dn (tx_ID txn) /\ register_writer txn dn s = (Err ErrVersionConflict, s)).
Proof.
  intros Hi. unfold register_writer, may_write. rewrite bind_run. unfold gets. cbn match.
  assert (activeWriters s !! dn = fst <$> pend A !! dn) as -> by (by rewrite (inv_writers _ _ _ Hi), lookup_fmap).
  destruct (pend A !! dn) as [[t w]|] eqn:E; cbn; [| by left].
  destruct (decide (t = tx_ID txn)) as [->|Hn]; [left | right].
  - split; [done |]. by rewrite decide_False by auto.
  - split; [done |]. by rewrite decide_True.
Qed.

Definition with_writers (w : gmap gostring Z) (s : VersionStore) : VersionStore :=
  mkVersionStore (heap s) (versions s) (cache s) w.

Lemma latest_version_writers load dn w s :
  latest_version load dn (with_writers w s) =
  ((latest_version load dn s).1, with_writers w (latest_version load dn s).2).
Proof.
  unfold latest_version. rewrite !bind_run. unfold gets. cbn [versions with_writers].
  destruct (versions s !! dn); [done |]. rewrite !bind_run. unfold cache_get. cbn [cache with_writers].
  destruct (Cache_Get (cache s) dn) as [[e|] c]; [done |].
  destruct load as [load|]; [| done]. by destruct (load dn) as [[[data p] sl]|].
Qed.

(** What a new version may be linked to: the head of the entry, or, when the store has
    no version of it, any version of the entry. *)
Definition may_link (s : VersionStore) (own : nat -> gostring) (dn : gostring) (o : option nat) : Prop :=
  o = versions s !! dn
  \/ versions s !! dn = None /\ forall id, o = Some id -> (id < length (heap s))%nat /\ own id = dn.

Lemma may_link_lt s own A dn o id :
  Inv s own A -> may_link s own dn o -> o = Some id -> (id < length (heap s))%nat /\ own id = dn.
Proof. intros Hi [->|[_ Ho]] E; [by apply (base_head _ _ (inv_base _ _ _ Hi)) | by apply Ho]. Qed.

(** The abstract database knows nothing of an entry without versions. *)
Lemma no_versions s own A dn :
  Inv s own A -> versions s !! dn = None ->
  pend A !! dn = None
  /\ forall snapshot, horizon A <= snapshot -> alook (history A dn) snapshot = None.
Proof.
  intros Hi Hn. destruct (inv_rel _ _ _ Hi dn) as (l0 & Hc0 & us & ks & E & Hp & _ & Hk).
  rewrite Hn in Hc0. inversion Hc0. subst l0. symmetry in E. apply app_eq_nil in E as [-> ->]. split.
  - destruct (pend A !! dn) as [[t w]|]; [by destruct Hp as (? & ? & ? & _) | done].
  - intros snapshot Hz. destruct (alook _ _) as [w|] eqn:Ha; [by apply Hk in Ha | done].
Qed.

(** The chain behind a new version is related to the entry. *)
Lemma Inv_linked s own A dn o :
  Inv s own A -> may_link s own dn o ->
  exists l, chain (heap s) o l
    /\ related (snd <$> l) (pend A !! dn) (history A dn) (horizon A) (ended A).
Proof.
  intros Hi [->|[Hn Ho]]; [apply (inv_rel _ _ _ Hi) |].
  destruct (no_versions _ _ _ _ Hi Hn) as [Ep Hk]. rewrite Ep.
  assert (exists l, chain (heap s) o l) as [l Hc].
  { destruct o as [id|]; [| by exists []; constructor]. destruct (Ho id eq_refl) as [Hl _].
    destruct (chain_exists (heap s) id (base_heap _ _ (inv_base _ _ _ Hi)) Hl) as (l & Hl' & _). by exists l. }
  exists l. split; [done |]. exists [], (snd <$> l). split_and!; [done | done | |].
  - apply Forall_fmap, Forall_forall. intros [id v] Hin Hv. cbn in Hv |- *.
    pose proof (chain_lookup _ _ _ _ _ Hc Hin) as Hid.
    destruct (inv_cell _ _ _ Hi id v Hid Hv) as [?|[w Hw]]; [done |].
    destruct o as [p|]; [| inversion Hc; subst; set_solver].
    rewrite (chain_own _ _ _ _ _ _ (inv_base _ _ _ Hi) Hc Hin p eq_refl), (proj2 (Ho p eq_refl)) in Hw. congruence.
  - intros snapshot w Hz Ha. by rewrite Hk in Ha.
Qed.

Lemma related_push u t w vs p K hz E :
  related vs p K hz E -> match p with Some (t', _) => t' = t | None => True end ->
  open_by t u -> value u = w -> related (u :: vs) (Some (t, w)) K hz E.
Proof.
  intros (us & ks & -> & Hp & Hs & Hk) Hm Hu Hw. exists (u :: us), ks. split_and!; [done | | done | done].
  exists u, us. split_and!; [done | done |]. constructor; [done |].
  destruct p as [[t' w']|]; [| by subst us]. subst t'. by destruct Hp as (? & ? & -> & _ & ?).
Qed.

(** A write: a new open version becomes the head of its entry. *)
Lemma Inv_push s own A dn t v w c :
  Inv s own A -> may_write A dn t -> open_by t v -> value v = w -> may_link s own dn (v_Prev v) ->
  (forall d e, entries c !! d = Some e ->
     d = dn /\ ce_Version e = length (heap s) \/ entries (cache s) !! d = Some e) ->
  Inv (mkVersionStore (heap s ++ [v]) (<[dn := length (heap s)]> (versions s)) c
         (<[dn := t]> (activeWriters s)))
    (own_set own (length (heap s)) dn) (a_write A dn t w).
Proof.
  intros Hi Hm [Hv Ht] Hw Hl Hc. pose proof (inv_base _ _ _ Hi) as Hb.
  pose proof (Base_alloc s own v dn Hb ltac:(lia) (fun p => may_link_lt _ _ _ _ _ p Hi Hl)) as Hb'.
  constructor.
  - constructor; [exact (base_heap _ _ Hb') | exact (base_ts _ _ Hb') | exact (base_own _ _ Hb') | |]; cbn [versions heap cache].
    + intros d id [[<- <-]|[_ E]]%lookup_insert_Some; [| by apply (base_head _ _ Hb')].
      rewrite length_app, own_set_eq. simpl. split; [lia | done].
    + intros d e [[-> ->]|E]%Hc; [| by apply (base_cache _ _ Hb')].
      rewrite length_app, own_set_eq. simpl. split; [lia | done].
  - intros id v0 [Hid|[-> ->]]%lookup_snoc_cases E.
    + rewrite own_set_lt by (by eapply lookup_lt_Some). cbn [pend a_write ended].
      destruct (inv_cell _ _ _ Hi id v0 Hid E) as [?|[w0 Hw0]]; [by left | right].
      destruct (decide (own id = dn)) as [<-|Hn]; [| exists w0; by rewrite lookup_insert_ne].
      unfold may_write in Hm. rewrite Hw0 in Hm. exists w. by rewrite Hm, lookup_insert_eq.
    + right. exists w. rewrite own_set_eq. cbn. by rewrite lookup_insert_eq, Ht.
  - cbn. by rewrite fmap_insert, (inv_writers _ _ _ Hi).
  - intros d. destruct (decide (d = dn)) as [->|Hn].
    + destruct (Inv_linked _ _ _ _ _ Hi Hl) as (l & Hch & Hr). exists ((length (heap s), v) :: l). split.
      * cbn [heap versions]. rewrite lookup_insert_eq. constructor; [by rewrite lookup_app_r, Nat.sub_diag by lia |].
        apply (chain_frame (heap s)); [done |]. intros id v0 Hin.
        apply lookup_app_l_Some. by eapply chain_lookup.
      * cbn [pend a_write horizon ended fmap list_fmap snd]. rewrite lookup_insert_eq.
        by apply (related_push v t w _ _ _ _ _ Hr).
    + eapply Rel_frame; [apply (inv_rel _ _ _ Hi d) | | | | done | done | done]; cbn;
        [by rewrite lookup_insert_ne | | by rewrite lookup_insert_ne].
      intros l id v' Hch Hin. apply lookup_app_l_Some. by eapply chain_lookup.
Qed.

Lemma latest_version_link load dn s own A :
  Inv s own A ->
  exists o s' own',
    latest_version load dn s = (Ok o, s') /\ Inv s' own' A /\ may_link s' own' dn o
    /\ (o = None -> versions s' !! dn = None)
    /\ (forall id, o = Some id -> (id < length (heap s'))%nat).
Proof.
  intros Hi. destruct (latest_version_run load dn s own A Hi) as (o & s' & own' & Hr & Hi' & Ev & Ho & Hn).
  exists o, s', own'. rewrite <- Ev in Hn. split_and!; [done | done | | |].
  - destruct (versions s' !! dn) eqn:E; [left; by rewrite E; apply Hn | by right].
  - intros ->. destruct (versions s' !! dn); [by discriminate (Hn ltac:(done)) | done].
  - intros id ->. by apply Ho.
Qed.

Lemma write_run load p sl txn dn data s own A :
  Inv s own A -> IsActive txn = true ->
  (may_write A dn (tx_ID txn)
   /\ exists x s' own', CreateVersionWithLocation load (Ok (p, sl)) (Some txn) dn data s = (Ok x, s')
        /\ Inv s' own' (a_write A dn (tx_ID txn) (Some data)))
  \/ (~ may_write A dn (tx_ID txn)
      /\ CreateVersionWithLocation load (Ok (p, sl)) (Some txn) dn data s = (Err ErrVersionConflict, s)).
Proof.
  intros Hi Ha. unfold CreateVersionWithLocation. rewrite Ha. cbn [negb].
  destruct (register_run txn dn s own A Hi) as [[Hm Hr]|[Hm Hr]]; [left | right]; (split; [done |]);
    [| by rewrite bind_run, Hr]. erewrite bind_ok by exact Hr.
  destruct (latest_version_link load dn s own A Hi) as (o & s' & own' & Hl & Hi' & Hlink & _).
  erewrite bind_ok by (etrans; [apply (latest_version_writers _ _ _ s) | by rewrite Hl]).
  do 3 eexists. split; [reflexivity |]. cbn [heap versions cache activeWriters fst snd with_writers].
  replace (activeWriters s) with (activeWriters s') by (by rewrite (inv_writers _ _ _ Hi), (inv_writers _ _ _ Hi')).
  apply Inv_push; try done. apply entries_Put.
Qed.

Lemma delete_run load txn dn s own A :
  Inv s own A -> IsActive txn = true ->
  (may_write A dn (tx_ID txn)
   /\ exists x s' own', DeleteVersion load (Some txn) dn s = (Ok x, s')
        /\ Inv s' own' (a_write A dn (tx_ID txn) None))
  \/ (exists e s' own', DeleteVersion load (Some txn) dn s = (Err e, s') /\ Inv s' own' A
      /\ (~ may_write A dn (tx_ID txn) /\ e = ErrVersionConflict
          \/ pend A !! dn = None
             /\ (forall snapshot, horizon A <= snapshot -> alook (history A dn) snapshot = None)
             /\ e = ErrVersionNotFound)).
Proof.
  intros Hi Ha. unfold DeleteVersion. rewrite Ha. cbn [negb].
  destruct (latest_version_link load dn s own A Hi) as (o & s' & own' & Hl & Hi' & Hlink & Hn & Hlt).
  erewrite bind_ok by exact Hl. destruct o as [id|]; last first.
  { right. exists ErrVersionNotFound, s', own'. split_and!; [done | done |]. right.
    by destruct (no_versions _ _ _ _ Hi' (Hn eq_refl)). }
  destruct (register_run txn dn s' own' A Hi') as [[Hm Hr]|[Hm Hr]]; [left | right].
  - split; [done |]. erewrite bind_ok by exact Hr. destruct (lookup_lt_is_Some_2 _ _ (Hlt id eq_refl)) as [v Hv].
    erewrite bind_ok by (by apply deref_run). do 3 eexists. split; [reflexivity |].
    cbn [heap versions cache activeWriters]. apply Inv_push; try done; [by left |].
    intros d e He%entries_Delete. by right.
  - exists ErrVersionConflict, s', own'. split_and!; [by rewrite bind_run, Hr | done | by left].
Qed.
End Simulation.
