(* ===== verification/MvccLoops.v ===== *)
(** * The loops of the version store over all entries

    Commit, rollback and garbage collection visit every entry in the order of Go's map
    iteration. Each visit changes the versions of one entry only, and does to the
    abstract database what [settle] or [forget] does. *)

From S2P Require Import Prelude GoStrings Mvcc MvccSim.

Section Loops.
Context `{MapIteration}.

(** ** A change of one entry *)

Record local (own : nat -> gostring) (dn : gostring) (s s' : VersionStore) : Prop := mkLocal {
  local_heap : forall id, own id <> dn -> heap s' !! id = heap s !! id;
  local_versions : forall d, d <> dn -> versions s' !! d = versions s !! d
}.

Lemma Rel_local own dn s s' A A' d :
  Base s own -> local own dn s s' -> d <> dn -> Rel s A d ->
  pend A' !! d = pend A !! d -> history A' d = history A d ->
  horizon A <= horizon A' -> ended A ⊆ ended A' -> Rel s' A' d.
Proof.
  intros Hb [Hh Hv] Hn Hr Hp Hk Hz HE. eapply Rel_frame; [exact Hr | by apply Hv | | done..].
  intros l id v Hc Hin. rewrite Hh; [by eapply chain_lookup |].
  by rewrite (chain_of_entry _ _ _ _ _ _ Hb Hc Hin).
Qed.

Lemma Inv_local own dn s s' A A' :
  Inv s own A -> Base s' own -> local own dn s s' ->
  (forall d, d <> dn -> pend A' !! d = pend A !! d /\ history A' d = history A d) ->
  horizon A <= horizon A' -> ended A ⊆ ended A' -> activeWriters s' = fst <$> pend A' ->
  (forall id v, own id = dn -> heap s' !! id = Some v -> v_CommitTS v = 0 ->
     v_TxID v ∈ ended A' \/ exists w, pend A' !! dn = Some (v_TxID v, w)) ->
  Rel s' A' dn -> Inv s' own A'.
Proof.
  intros [Hb Hc Hw Hr] Hb' Hl Hf Hz HE Hw' Hc' Hr'. constructor; [done | | done |].
  - intros id v Hid Hv. destruct (decide (own id = dn)) as [E|Hn]; [rewrite E; by apply (Hc' id) |].
    destruct (Hf (own id) Hn) as [-> _]. rewrite (local_heap _ _ _ _ Hl) in Hid by done.
    destruct (Hc id v Hid Hv) as [?|?]; [left; by apply HE | by right].
  - intros d. destruct (decide (d = dn)) as [->|Hn]; [done |]. destruct (Hf d Hn).
    by apply (Rel_local own dn s s' A A' d).
Qed.

(** ** Commit *)

Definition commit_v (t ts : Z) (v : Version) : Version :=
  if bool_decide (v_TxID v = t) && negb (IsCommitted v) then Commit v ts else v.

Lemma commit_v_prev t ts v : v_Prev (commit_v t ts v) = v_Prev v.
Proof. unfold commit_v. by destruct (_ && _). Qed.

Lemma commit_v_value t ts v : value (commit_v t ts v) = value v.
Proof. unfold commit_v. by destruct (_ && _). Qed.

Lemma commit_v_open t ts v : v_CommitTS v = 0 -> v_TxID v = t -> v_CommitTS (commit_v t ts v) = ts.
Proof. intros Hc Ht. unfold commit_v, IsCommitted. by rewrite bool_decide_true, Hc. Qed.

Lemma commit_v_other t ts v :
  0 <= v_CommitTS v -> (v_CommitTS v = 0 -> v_TxID v <> t) -> commit_v t ts v = v.
Proof.
  intros Hz Hv. unfold commit_v, IsCommitted. destruct (decide (v_CommitTS v = 0)) as [E|].
  - by rewrite bool_decide_false by auto.
  - by rewrite (bool_decide_true (v_CommitTS v > 0)), andb_false_r by lia.
Qed.

Lemma commit_cell_run t ts id v s :
  heap s !! id = Some v ->
  commit_cell t ts id v s =
  (Ok tt, mkVersionStore (<[id := commit_v t ts v]> (heap s)) (versions s) (cache s) (activeWriters s)).
Proof.
  intros Hv. unfold commit_cell, commit_v. destruct (_ && _); [done |].
  rewrite list_insert_id by done. by destruct s.
Qed.

Lemma wf_heap_insert h id v v' :
  wf_heap h -> h !! id = Some v -> v_Prev v' = v_Prev v \/ v_Prev v' = None -> wf_heap (<[id := v']> h).
Proof.
  intros Hw Hv Hp id0 v0 p [(-> & -> & _)|[_ E]]%list_lookup_insert_Some Hp0; [| by eapply Hw].
  destruct Hp as [Hp|Hp]; [| congruence]. eapply Hw; [done | congruence].
Qed.

(** The versions of a chain are distinct: the rest of a chain lies below its head. *)
Lemma chain_rest h id v l : wf_heap h -> chain h (Some id) ((id, v) :: l) -> id ∉ l.*1.
Proof.
  intros Hw Hc. inversion Hc as [|? ? ? Hv Hr]. subst. intros ([i w] & -> & Hin)%list_elem_of_fmap.
  assert (i < i)%nat; [| lia]. eapply (chain_below h); [done | done | | done]. intros p Hp. by eapply Hw.
Qed.

(** The walk of a commit changes exactly the cells of the chain. *)
Lemma commit_chain_run t ts o l fuel s :
  wf_heap (heap s) -> chain (heap s) o l -> (length l <= fuel)%nat ->
  exists h', commit_chain t ts fuel o s = (Ok tt, mkVersionStore h' (versions s) (cache s) (activeWriters s))
    /\ length h' = length (heap s)
    /\ forall id, h' !! id = if decide (id ∈ l.*1) then commit_v t ts <$> heap s !! id else heap s !! id.
Proof.
  revert o fuel s. induction l as [|[id v] l IH]; intros o fuel s Hw Hc Hf.
  { inversion Hc. exists (heap s). split_and!; [by destruct fuel, s | done |].
    intros id. by rewrite decide_False by set_solver. }
  inversion Hc as [|id' v' l' Hv Hr]. subst.
  assert (id ∉ l.*1) as Hid by (by eapply chain_rest).
  destruct fuel as [|fuel]; [simpl in Hf; lia |]. cbn [commit_chain].
  set (s1 := mkVersionStore (<[id := commit_v t ts v]> (heap s)) (versions s) (cache s) (activeWriters s)).
  destruct (IH (v_Prev v) fuel s1) as (h' & Hrun & Hlen & Hh').
  - apply (wf_heap_insert _ _ v); [done | done | left; apply commit_v_prev].
  - apply (chain_frame (heap s)); [done |]. intros i w Hin. cbn. rewrite list_lookup_insert_ne.
    + by eapply chain_lookup.
    + intros <-. apply Hid, list_elem_of_fmap. by exists (id, w).
  - simpl in Hf. lia.
  - exists h'. split_and!.
    + erewrite bind_ok by (by apply deref_run). erewrite bind_ok by (by apply commit_cell_run). exact Hrun.
    + rewrite Hlen. apply length_insert.
    + intros i. rewrite Hh'. cbn [heap s1 fmap list_fmap fst]. destruct (decide (i = id)) as [->|Hn].
      * rewrite decide_False, decide_True by set_solver. rewrite Hv. apply list_lookup_insert_eq.
        by eapply lookup_lt_Some.
      * rewrite list_lookup_insert_ne by done. apply decide_ext. set_solver.
Qed.

(** ** The end of a transaction for one entry *)

Lemma settle_cases t ts A dn :
  (exists w, pend A !! dn = Some (t, w)
     /\ settle t ts A dn =
        mkAdb (delete dn (pend A))
          match ts with Some ts => <[dn := (ts, w) :: history A dn]> (hist A) | None => hist A end
          (horizon A) (ended A))
  \/ (forall w, pend A !! dn <> Some (t, w)) /\ settle t ts A dn = A.
Proof.
  unfold settle. destruct (pend A !! dn) as [[t' w]|] eqn:E; [| by right].
  case_decide as Ht; [left; exists w; by subst | right; split; [congruence | done]].
Qed.

Lemma settle_other t ts A dn d :
  d <> dn -> pend (settle t ts A dn) !! d = pend A !! d /\ history (settle t ts A dn) d = history A d.
Proof.
  intros Hn. destruct (settle_cases t ts A dn) as [(w & _ & ->)|[_ ->]]; [| done]. cbn. split.
  - by rewrite lookup_delete_ne.
  - unfold history. destruct ts; cbn; [by rewrite lookup_insert_ne | done].
Qed.

Lemma settle_ended t ts A dn : ended (settle t ts A dn) = ended A.
Proof. by destruct (settle_cases t ts A dn) as [(w & _ & ->)|[_ ->]]. Qed.

Lemma settle_horizon t ts A dn : horizon (settle t ts A dn) = horizon A.
Proof. by destruct (settle_cases t ts A dn) as [(w & _ & ->)|[_ ->]]. Qed.

(** The writer of the entry goes with its pending write. *)
Lemma clear_writer t ts A dn :
  match (fst <$> pend A) !! dn with
  | Some t' => if decide (t' = t) then delete dn (fst <$> pend A) else fst <$> pend A
  | None => fst <$> pend A
  end = fst <$> pend (settle t ts A dn).
Proof.
  rewrite lookup_fmap. destruct (settle_cases t ts A dn) as [(w & E & ->)|[E ->]].
  - rewrite E. cbn. rewrite decide_True by done. by rewrite fmap_delete.
  - destruct (pend A !! dn) as [[t' w]|]; cbn; [| done]. rewrite decide_False; [done |].
    intros ->. by apply (E w).
Qed.

(** The open versions of an entry after the end of a transaction. *)
Lemma settle_cell t ts A dn t' :
  (t' ∈ ended (retire A t) \/ exists w, pend A !! dn = Some (t', w)) ->
  t' ∈ ended (retire (settle t ts A dn) t) \/ exists w, pend (settle t ts A dn) !! dn = Some (t', w).
Proof.
  cbn. rewrite settle_ended. intros [?|[w Hw]]; [by left |].
  destruct (settle_cases t ts A dn) as [(w' & E & ->)|[E ->]]; [left | right; by exists w].
  assert (t' = t) as -> by congruence. set_solver.
Qed.

Lemma Base_heap s own h' :
  Base s own -> length h' = length (heap s) ->
  (forall id v', h' !! id = Some v' -> 0 <= v_CommitTS v'
     /\ exists v, heap s !! id = Some v /\ (v_Prev v' = v_Prev v \/ v_Prev v' = None)) ->
  Base (mkVersionStore h' (versions s) (cache s) (activeWriters s)) own.
Proof.
  intros [Hh Hts Ho Hv Hc] Hl Hf. constructor; cbn [heap versions cache]; rewrite ?Hl; [| | | done | done].
  - intros id v p Hid Hp. destruct (Hf id v Hid) as (_ & v0 & Hv0 & [E|E]); [| congruence].
    eapply Hh; [done | congruence].
  - intros id v Hid. by destruct (Hf id v Hid).
  - intros id v p Hid Hp. destruct (Hf id v Hid) as (_ & v0 & Hv0 & [E|E]); [| congruence].
    eapply Ho; [done | congruence].
Qed.

Lemma chain_fmap h h' (f : Version -> Version) o l :
  chain h o l -> (forall v, v_Prev (f v) = v_Prev v) ->
  (forall id v, (id, v) ∈ l -> h' !! id = Some (f v)) -> chain h' o (prod_map id f <$> l).
Proof.
  intros Hc Hp. induction Hc as [|i v l Hv Hc IH]; intros Hf; [constructor |].
  cbn. constructor; [apply Hf; left |]. rewrite Hp. apply IH. intros; apply Hf; by right.
Qed.

Lemma commit_v_settled t ts E vs :
  t ∉ E -> Forall (fun v => 0 <= v_CommitTS v) vs -> Forall (settled E) vs -> commit_v t ts <$> vs = vs.
Proof.
  intros Ht. induction 1 as [|v vs Hz _ IH]; [done |]. intros [Hv Hvs]%Forall_cons. cbn.
  f_equal; [| by apply IH]. apply commit_v_other; [done |]. intros E0 <-. by apply Ht, Hv.
Qed.

Lemma vlook_commit t ts us ks snapshot :
  Forall (open_by t) us -> ts > 0 ->
  vlook ((commit_v t ts <$> us) ++ ks) snapshot =
  if decide (ts <= snapshot) then match us with u :: _ => Some (value u) | [] => vlook ks snapshot end
  else vlook ks snapshot.
Proof.
  intros Ho Hts. induction Ho as [|u us [Hc Ht] _ IH]; [by destruct (decide _) |].
  cbn [fmap list_fmap app]. unfold vlook. cbn [List.find]. unfold seen at 1.
  rewrite commit_v_open by done. rewrite (bool_decide_false (ts = 0)) by lia. cbn [negb andb].
  case_decide as Hd.
  - rewrite bool_decide_true by done. cbn. by rewrite commit_v_value.
  - rewrite bool_decide_false by done. exact IH.
Qed.

Lemma alook_cons ts w K snapshot :
  alook ((ts, w) :: K) snapshot = if decide (ts <= snapshot) then Some w else alook K snapshot.
Proof.
  unfold alook. cbn [List.find fst]. case_decide; [by rewrite bool_decide_true | by rewrite bool_decide_false].
Qed.

Lemma history_insert p dn K h hz E : history (mkAdb p (<[dn := K]> h) hz E) dn = K.
Proof. unfold history. cbn [hist]. by rewrite lookup_insert_eq. Qed.

(** The versions of an entry after the commit of [t]. *)
Lemma related_commit t ts vs A dn :
  related vs (pend A !! dn) (history A dn) (horizon A) (ended A) -> t ∉ ended A -> ts > 0 ->
  Forall (fun v => 0 <= v_CommitTS v) vs ->
  let A' := settle t (Some ts) A dn in
  related (commit_v t ts <$> vs) (pend A' !! dn) (history A' dn) (horizon A) (ended (retire A t)).
Proof.
  intros (us & ks & -> & Hp & Hs & Hk) Ht Hts Hz A'. apply Forall_app in Hz as [Hzu Hzk].
  rewrite fmap_app, (commit_v_settled t ts (ended A) ks) by done.
  assert (Forall (settled (ended (retire A t))) ks) as Hs'.
  { apply (Forall_impl _ _ _ Hs). intros v Hv E. cbn. apply elem_of_union. right. by apply Hv. }
  subst A'. destruct (settle_cases t (Some ts) A dn) as [(w & E & ->)|[E ->]].
  - rewrite E in Hp. destruct Hp as (u & us' & -> & Hu & Ho). cbn [pend]. rewrite lookup_delete_eq.
    exists [], ((commit_v t ts <$> u :: us') ++ ks). split_and!; [done | done | |].
    + apply Forall_app. split; [| done]. apply Forall_fmap, (Forall_impl _ _ _ Ho).
      intros v [Hc Htx] E0. cbn in E0. rewrite commit_v_open in E0 by done. lia.
    + intros snapshot w' Hsn. rewrite vlook_commit, history_insert, alook_cons by done.
      case_decide; [congruence | by apply Hk].
  - exists us, ks. split_and!; [| done | done | done]. f_equal.
    destruct (pend A !! dn) as [[t' w]|]; [| by subst us].
    destruct Hp as (u & us' & -> & _ & Ho). assert (t' <> t) as Hn by (intros ->; by apply (E w)).
    clear E Hk. revert Hzu Ho. generalize (u :: us'). intros l Hl Ho.
    induction Ho as [|v l [Hc Htx] _ IH]; [done |]. apply Forall_cons in Hl as [Hv Hl].
    cbn. f_equal; [| by apply IH]. apply commit_v_other; congruence.
Qed.

Lemma clearActiveWriter_run dn t s :
  clearActiveWriter dn t s =
  (Ok tt, mkVersionStore (heap s) (versions s) (cache s)
     match activeWriters s !! dn with
     | Some t' => if decide (t' = t) then delete dn (activeWriters s) else activeWriters s
     | None => activeWriters s
     end).
Proof. done. Qed.

(** What the visit of an entry by the end of [t] does. *)
Definition settles (t : Z) (ts : option Z) (body : gostring * nat -> M VersionStore unit) : Prop :=
  forall dn hd s own A,
    Inv s own (retire A t) -> Rel s A dn -> versions s !! dn = Some hd -> t ∉ ended A ->
    exists s', body (dn, hd) s = (Ok tt, s') /\ Inv s' own (retire (settle t ts A dn) t) /\ local own dn s s'.

(** The visit changed the versions of the entry to [s1]; its writer is still to be cleared. *)
Lemma settle_visit t ts dn s s1 own A :
  Inv s own (retire A t) -> Base s1 own -> local own dn s s1 -> activeWriters s1 = activeWriters s ->
  (forall id v, own id = dn -> heap s1 !! id = Some v -> v_CommitTS v = 0 ->
     exists v0, heap s !! id = Some v0 /\ v_CommitTS v0 = 0 /\ v_TxID v0 = v_TxID v) ->
  Rel s1 (retire (settle t ts A dn) t) dn ->
  exists s', clearActiveWriter dn t s1 = (Ok tt, s')
    /\ Inv s' own (retire (settle t ts A dn) t) /\ local own dn s s'.
Proof.
  intros Hi Hb Hl Hw Hc Hr. eexists. split; [apply clearActiveWriter_run |]. split; [| by destruct Hl].
  apply (Inv_local own dn s _ (retire A t)); [done | by apply Base_writers | by destruct Hl | | | | | |];
    cbn [pend history hist horizon ended retire].
  - intros d Hn. exact (settle_other t ts A dn d Hn).
  - by rewrite settle_horizon.
  - by rewrite settle_ended.
  - cbn [activeWriters]. rewrite Hw, (inv_writers _ _ _ Hi). exact (clear_writer t ts A dn).
  - intros id v Ho Hid Hv. destruct (Hc id v Ho Hid Hv) as (v0 & Hv0 & E & <-).
    apply (settle_cell t ts A dn). rewrite <- Ho. by apply (inv_cell _ _ _ Hi).
  - done.
Qed.

Lemma chain_ts s own o l :
  Base s own -> chain (heap s) o l -> Forall (fun v => 0 <= v_CommitTS v) (snd <$> l).
Proof.
  intros Hb Hc. apply Forall_fmap, Forall_forall. intros [id v] Hin. cbn.
  eapply (base_ts _ _ Hb), chain_lookup; done.
Qed.

Lemma commit_settles t ts : ts > 0 -> settles t (Some ts) (commit_entry t ts).
Proof.
  intros Hts dn hd s own A Hi (l & Hc & Hr) Hhd Ht. pose proof (inv_base _ _ _ Hi) as Hb.
  pose proof (base_heap _ _ Hb) as Hw. unfold commit_entry. cbn [fst snd].
  erewrite bind_ok by done. rewrite <- Hhd.
  destruct (commit_chain_run t ts _ l (length (heap s)) s Hw Hc) as (h' & Hrun & Hlen & Hh');
    [by eapply chain_bound |].
  assert (forall id v', h' !! id = Some v' -> exists v, heap s !! id = Some v
    /\ (v' = v \/ v' = commit_v t ts v)) as Hcell.
  { intros id v' E. rewrite Hh' in E. case_decide; [| eauto].
    apply fmap_Some in E as (v & Hv & ->). eauto. }
  erewrite bind_ok by exact Hrun. apply settle_visit; [done | | | done | |].
  - apply Base_heap; [done | done |]. intros id v' (v & Hv & Hor)%Hcell. split.
    + pose proof (base_ts _ _ Hb _ _ Hv). destruct Hor as [->| ->]; [done |].
      unfold commit_v. destruct (_ && _); cbn; lia.
    + exists v. split; [done |]. left. destruct Hor as [->| ->]; [done | apply commit_v_prev].
  - constructor; [| done]. intros id Hn. cbn. rewrite Hh', decide_False; [done |].
    intros ([i v] & -> & Hin)%list_elem_of_fmap. by apply Hn, (chain_of_entry _ _ _ _ _ _ Hb Hc Hin).
  - intros id v' _ (v & Hv & [->| ->])%Hcell E; [by exists v |]. exists v. split; [done |].
    revert E. unfold commit_v. destruct (_ && _); cbn; [lia | done].
  - exists (prod_map id (commit_v t ts) <$> l). cbn [heap versions]. split.
    + apply (chain_fmap (heap s)); [done | apply commit_v_prev |]. intros id v Hin.
      rewrite Hh', decide_True by (by apply list_elem_of_fmap; exists (id, v)).
      by rewrite (chain_lookup _ _ _ _ _ Hc Hin).
    + replace (snd <$> (prod_map id (commit_v t ts) <$> l)) with (commit_v t ts <$> (snd <$> l))
        by (rewrite <- !list_fmap_compose; by apply list_fmap_ext; intros ? []).
      cbn [pend horizon ended retire]. rewrite settle_horizon, settle_ended.
      apply (related_commit t ts _ A dn Hr Ht Hts). by eapply chain_ts.
Qed.

(** ** Rollback *)

Definition keeps (t : Z) (v : Version) : bool := negb (bool_decide (v_TxID v = t) && negb (IsCommitted v)).

Lemma keeps_open t v : open_by t v -> keeps t v = false.
Proof. intros [Hc Ht]. unfold keeps, IsCommitted. by rewrite bool_decide_true, Hc. Qed.

Lemma keeps_other t v : 0 <= v_CommitTS v -> (v_CommitTS v = 0 -> v_TxID v <> t) -> keeps t v = true.
Proof.
  intros Hz Hv. unfold keeps, IsCommitted. destruct (decide (v_CommitTS v = 0)) as [E|].
  - by rewrite bool_decide_false by auto.
  - by rewrite (bool_decide_true (v_CommitTS v > 0)), andb_false_r by lia.
Qed.

(** A rollback drops a first part of the versions; what is left is the entry before [t]. *)
Lemma related_rollback t vs A dn :
  related vs (pend A !! dn) (history A dn) (horizon A) (ended A) -> t ∉ ended A ->
  Forall (fun v => 0 <= v_CommitTS v) vs ->
  let A' := settle t None A dn in
  exists us ks, vs = us ++ ks /\ Forall (fun v => keeps t v = false) us /\ Forall (fun v => keeps t v = true) ks
    /\ related ks (pend A' !! dn) (history A' dn) (horizon A) (ended (retire A t)).
Proof.
  intros (us & ks & -> & Hp & Hs & Hk) Ht Hz A'. apply Forall_app in Hz as [Hzu Hzk].
  assert (Forall (fun v => keeps t v = true) ks) as Hks.
  { apply Forall_forall. intros v Hin. rewrite Forall_forall in Hs. rewrite Forall_forall in Hzk.
    apply keeps_other; [by apply Hzk |]. intros E <-. by apply Ht, (Hs v). }
  assert (Forall (settled (ended (retire A t))) ks) as Hs'.
  { apply (Forall_impl _ _ _ Hs). intros v Hv E. cbn. apply elem_of_union. right. by apply Hv. }
  subst A'. destruct (settle_cases t None A dn) as [(w & E & ->)|[E ->]].
  - rewrite E in Hp. destruct Hp as (u & us' & -> & Hu & Ho). exists (u :: us'), ks.
    split_and!; [done | | done |].
    + apply (Forall_impl _ _ _ Ho). apply keeps_open.
    + cbn [pend]. rewrite lookup_delete_eq. exists [], ks. by split_and!.
  - exists [], (us ++ ks). split_and!; [done | done | | exists us, ks; by split_and!].
    apply Forall_app. split; [| done]. destruct (pend A !! dn) as [[t' w]|]; [| by subst us].
    destruct Hp as (u & us' & -> & _ & Ho). assert (t' <> t) as Hn by (intros ->; by apply (E w)).
    rewrite Forall_forall in Ho. rewrite Forall_forall in Hzu. apply Forall_forall. intros v Hin.
    apply keeps_other; [by apply Hzu |]. destruct (Ho v Hin). congruence.
Qed.

Lemma find_split {A} (p : A -> bool) l1 l2 :
  Forall (fun x => p x = false) l1 -> Forall (fun x => p x = true) l2 -> List.find p (l1 ++ l2) = head l2.
Proof.
  induction 1 as [|x l1 Hx _ IH]; cbn; [| by rewrite Hx].
  destruct 1 as [|y l2 Hy _]; cbn; [done | by rewrite Hy].
Qed.

Lemma chain_suffix h o l1 l2 : chain h o (l1 ++ l2) -> chain h (fst <$> head l2) l2.
Proof.
  revert o. induction l1 as [|x l1 IH]; intros o Hc; [| inversion Hc; subst; by eapply IH].
  cbn in Hc. inversion Hc; subst; [constructor | by constructor].
Qed.

Lemma rollback_settles t : settles t None (rollback_entry t).
Proof.
  intros dn hd s own A Hi (l & Hc & Hr) Hhd Ht. pose proof (inv_base _ _ _ Hi) as Hb.
  destruct (related_rollback t _ A dn Hr Ht (chain_ts _ _ _ _ Hb Hc)) as (us & ks & E & Hus & Hks & Hrel).
  apply fmap_app_inv in E as (l1 & l2 & -> & -> & ->). rewrite Forall_fmap in Hus. rewrite Forall_fmap in Hks.
  assert (walk_from (keeps t) (Some hd) s = (Ok (fst <$> head l2), s)) as Hwalk.
  { unfold walk_from. rewrite <- Hhd. f_equal. erewrite walk_chain; [| exact Hc |].
    - do 2 f_equal. by apply find_split.
    - eapply chain_bound; [apply (base_heap _ _ Hb) | done]. }
  assert (forall s1, heap s1 = heap s -> activeWriters s1 = activeWriters s ->
    (forall d, d <> dn -> versions s1 !! d = versions s !! d) -> versions s1 !! dn = fst <$> head l2 ->
    Base s1 own ->
    exists s', clearActiveWriter dn t s1 = (Ok tt, s')
      /\ Inv s' own (retire (settle t None A dn) t) /\ local own dn s s') as Hend.
  { intros s1 Eh Ew Ev Ed Hb1. apply settle_visit; [done | done | | done | |].
    - constructor; [by rewrite Eh | done].
    - intros id v _ Hid Hv. rewrite Eh in Hid. by exists v.
    - exists l2. rewrite Eh, Ed. split; [by eapply chain_suffix |].
      cbn [pend horizon ended retire]. rewrite settle_horizon, settle_ended. exact Hrel. }
  unfold rollback_entry. erewrite bind_ok by exact Hwalk.
  destruct l2 as [|[id v] l2]; cbn [head fmap option_fmap option_map fst] in *.
  - erewrite bind_ok by reflexivity. apply Hend; [done | done | | |]; cbn [versions].
    + intros d Hn. by rewrite lookup_delete_ne.
    + apply lookup_delete_eq.
    + apply (Base_Delete (mkVersionStore _ _ _ _)), (Base_versions s own (fun m => delete dn m)); [done |].
      intros d i [_ E]%lookup_delete_Some. by apply (base_head _ _ Hb).
  - destruct (decide (id <> hd)) as [Hn|Hn].
    + erewrite bind_ok by reflexivity. apply Hend; [done | done | | |]; cbn [versions].
      * intros d Hd. by rewrite lookup_insert_ne.
      * apply lookup_insert_eq.
      * apply (Base_versions s own (fun m => <[dn := id]> m)); [done |].
        intros d i [[<- <-]|[_ E]]%lookup_insert_Some; [| by apply (base_head _ _ Hb)].
        assert ((id, v) ∈ l1 ++ (id, v) :: l2) as Hin by set_solver. split.
        -- eapply lookup_lt_Some, chain_lookup; done.
        -- by apply (chain_of_entry _ _ _ _ _ _ Hb Hc Hin).
    + erewrite bind_ok by reflexivity. apply Hend; try done. destruct (decide (id = hd)); [congruence | done].
Qed.

(** ** The loop over the entries *)

Lemma retire_settle t ts A dn : settle t ts (retire A t) dn = retire (settle t ts A dn) t.
Proof.
  unfold settle. cbn. destruct (pend A !! dn) as [[t' w]|]; [| done]. by destruct (decide (t' = t)).
Qed.

Lemma settles_loop t ts body es s own A :
  settles t ts body -> NoDup es.*1 -> t ∉ ended A -> Inv s own (retire A t) ->
  (forall d id, (d, id) ∈ es -> versions s !! d = Some id /\ Rel s A d) ->
  exists s', for_each es body s = (Ok tt, s') /\ Inv s' own (a_end A t ts es.*1).
Proof.
  intros Hbody. unfold a_end. revert s A. induction es as [|[dn hd] es IH]; intros s A Hnd Ht Hi Hes.
  { by exists s. }
  apply NoDup_cons in Hnd as [Hdn Hnd]. destruct (Hes dn hd ltac:(left)) as [Hv Hr].
  destruct (Hbody dn hd s own A Hi Hr Hv Ht) as (s1 & Hrun & Hi1 & Hl).
  destruct (IH s1 (settle t ts A dn)) as (s' & Hrun' & Hi'); [done | by rewrite settle_ended | done | |].
  - intros d id Hin. assert (d <> dn) as Hn. { intros ->. apply Hdn, list_elem_of_fmap. by exists (dn, id). }
    destruct (Hes d id ltac:(by right)) as [Hvd Hrd]. rewrite (local_versions _ _ _ _ Hl) by done. split; [done |].
    destruct (settle_other t ts A dn d Hn). apply (Rel_local own dn s s1 A); try done.
    + apply (inv_base _ _ _ Hi).
    + by rewrite settle_horizon.
    + by rewrite settle_ended.
  - exists s'. cbn [for_each]. erewrite bind_ok by exact Hrun. split; [done |].
    cbn [fmap list_fmap fst foldl]. by rewrite retire_settle.
Qed.

(** ** Garbage collection *)

Lemma chain_inj h o l l' : chain h o l -> chain h o l' -> l = l'.
Proof.
  intros Hc. revert l'. induction Hc as [|id v l Hv Hc IH]; intros l' Hc'; inversion Hc'; subst; [done |].
  simplify_eq. f_equal. by apply IH.
Qed.

Lemma vlook_cut ks1 v v' ks2 ks2' snapshot :
  seen snapshot v = true -> seen snapshot v' = true -> value v' = value v ->
  vlook (ks1 ++ v' :: ks2') snapshot = vlook (ks1 ++ v :: ks2) snapshot.
Proof.
  intros Hv Hv' E. unfold vlook. induction ks1 as [|k ks1 IH]; cbn.
  - rewrite Hv, Hv'. cbn. by rewrite E.
  - by destruct (seen snapshot k).
Qed.

Lemma seen_true snapshot v : 0 < v_CommitTS v <= snapshot -> seen snapshot v = true.
Proof. intros []. unfold seen. by rewrite bool_decide_false, bool_decide_true by lia. Qed.

(** Whatever is older than a version that every snapshot sees may go. *)
Lemma related_cut vs1 v vs2 p K hz E :
  related (vs1 ++ v :: vs2) p K hz E -> 0 < v_CommitTS v <= hz ->
  related (vs1 ++ [SetPrev v None]) p K hz E.
Proof.
  intros (us & ks & Ev & Hp & Hs & Hk) Hv.
  assert (Forall (fun u => v_CommitTS u = 0) us) as Ho.
  { destruct p as [[t w]|]; [| by subst us]. destruct Hp as (u & us' & _ & _ & Ho).
    apply (Forall_impl _ _ _ Ho). by intros ? []. }
  assert (exists ks1, vs1 = us ++ ks1 /\ ks = ks1 ++ v :: vs2) as (ks1 & -> & ->).
  { apply app_eq_app in Ev as (k & [[-> E0]|[-> E0]]); [by exists k |].
    destruct k as [|v' k]; [exists []; by rewrite !app_nil_r |].
    injection E0 as <- ->. apply Forall_app in Ho as [_ [Ho _]%Forall_cons]. lia. }
  exists us, (ks1 ++ [SetPrev v None]). split_and!; [by rewrite (assoc_L (++)) | done | |].
  - apply Forall_app in Hs as [Hs1 [Hs2 _]%Forall_cons]. apply Forall_app. split; [done |].
    constructor; [exact Hs2 | constructor].
  - intros snapshot w Hz Ha. rewrite (vlook_cut ks1 v _ vs2); [by apply Hk | | | done]; apply seen_true; cbn; lia.
Qed.

Lemma count_chain_run h fuel n o l :
  chain h o l -> (length l <= fuel)%nat -> exists n', count_chain h fuel n o = Ok n'.
Proof.
  intros Hc. revert fuel n. induction Hc as [|id v l Hv Hc IH]; intros fuel n Hf; [by destruct fuel; exists n |].
  destruct fuel as [|fuel]; [simpl in Hf; lia |]. cbn. rewrite Hv. apply IH. simpl in Hf. lia.
Qed.

Lemma chain_app_inv h o l1 id v l2 :
  chain h o (l1 ++ (id, v) :: l2) -> h !! id = Some v /\ chain h (v_Prev v) l2.
Proof. intros Hc%chain_suffix. cbn in Hc. by inversion Hc. Qed.

Lemma chain_cut h o l1 id v l2 :
  wf_heap h -> chain h o (l1 ++ (id, v) :: l2) ->
  chain (<[id := SetPrev v None]> h) o (l1 ++ [(id, SetPrev v None)]).
Proof.
  intros Hw. revert o. induction l1 as [|[i w] l1 IH]; intros o Hc; cbn in Hc |- *.
  - inversion Hc as [|? ? ? Hv Hr]. subst. constructor; [| constructor].
    apply list_lookup_insert_eq. by eapply lookup_lt_Some.
  - pose proof Hc as Hc'. inversion Hc as [|? ? ? Hv Hr]. subst. constructor; [| by apply IH].
    rewrite list_lookup_insert_ne; [done |]. intros ->.
    apply (chain_rest _ _ _ _ Hw Hc'), list_elem_of_fmap. exists (i, v). split; [done | set_solver].
Qed.

Lemma cut_run dn n id v l1 l2 s own A :
  Inv s own A -> chain (heap s) (versions s !! dn) (l1 ++ (id, v) :: l2) -> 0 < v_CommitTS v <= horizon A ->
  exists n' s1, cut_chain n id s = (Ok n', s1) /\ Inv s1 own A /\ local own dn s s1 /\ versions s1 = versions s.
Proof.
  intros Hi Hc Hv. pose proof (inv_base _ _ _ Hi) as Hb. pose proof (base_heap _ _ Hb) as Hw.
  destruct (chain_app_inv _ _ _ _ _ _ Hc) as [Hid Hr]. unfold cut_chain.
  erewrite bind_ok by (by apply deref_run). destruct (v_Prev v) as [p|] eqn:Ep; [| by exists n, s].
  assert (own id = dn) as Hown by (apply (chain_of_entry _ _ _ _ id v Hb Hc); set_solver).
  destruct (count_chain_run (heap s) (length (heap s)) n _ _ Hr) as [n' Hn]; [by eapply chain_bound |].
  exists n'. erewrite bind_ok by (by rewrite Hn). eexists. split; [reflexivity |]. cbn [heap versions].
  assert (local own dn s (mkVersionStore (<[id := SetPrev v None]> (heap s)) (versions s) (cache s) (activeWriters s))) as Hl.
  { constructor; [| done]. intros i Hn0. cbn. rewrite list_lookup_insert_ne; [done |]. congruence. }
  split_and!; [| done | done]. apply (Inv_local own dn s _ A); try done.
  - apply Base_heap; [done | apply length_insert |].
    intros i w [(<- & <- & _)|[_ E]]%list_lookup_insert_Some; [split; [cbn; lia | eauto] |].
    split; [by apply (base_ts _ _ Hb i) | eauto].
  - apply (inv_writers _ _ _ Hi).
  - intros i w Ho [(<- & <- & _)|[_ E]]%list_lookup_insert_Some Hz; [cbn in Hz; lia |].
    rewrite <- Ho. by apply (inv_cell _ _ _ Hi i).
  - destruct (inv_rel _ _ _ Hi dn) as (l & Hc' & Hrel). assert (l = l1 ++ (id, v) :: l2) as ->.
    { by eapply chain_inj. }
    exists (l1 ++ [(id, SetPrev v None)]). split; [by eapply chain_cut |].
    rewrite fmap_app in Hrel |- *. by eapply related_cut.
Qed.

(** Nothing but a deletion is known of the entry from the horizon on. *)
Definition purgeable (A : adb) (dn : gostring) : Prop :=
  forall snapshot w, horizon A <= snapshot -> alook (history A dn) snapshot = Some w -> w = None.

Lemma history_forget A dn d : history (forget A dn) d = if decide (d = dn) then [] else history A d.
Proof.
  unfold history. cbn. case_decide as E; [subst; by rewrite lookup_delete_eq | by rewrite lookup_delete_ne].
Qed.

Lemma related_tombstone v vs A dn :
  related (v :: vs) (pend A !! dn) (history A dn) (horizon A) (ended A) ->
  0 < v_CommitTS v <= horizon A -> IsDeleted v = true -> pend A !! dn = None /\ purgeable A dn.
Proof.
  intros (us & ks & E & Hp & _ & Hk) Hv Hd. destruct (pend A !! dn) as [[t w]|].
  { destruct Hp as (u & us' & -> & _ & [[Hc _] _]%Forall_cons). injection E as <- _. lia. }
  subst us. split; [done |]. cbn in E. subst ks. intros snapshot w Hz Ha. apply Hk in Ha; [| done].
  unfold vlook in Ha. cbn in Ha. rewrite seen_true in Ha by lia. cbn in Ha. unfold value in Ha.
  rewrite Hd in Ha. congruence.
Qed.

Lemma purge_run dn s own A :
  Inv s own A -> pend A !! dn = None ->
  let s' := mkVersionStore (heap s) (delete dn (versions s)) (cache s) (activeWriters s) in
  Inv s' own (forget A dn) /\ local own dn s s'.
Proof.
  intros Hi Hp s'. assert (local own dn s s') as Hl.
  { constructor; [done |]. intros d Hn. cbn. by rewrite lookup_delete_ne. }
  split; [| done]. apply (Inv_local own dn s _ A); try done.
  - apply (Base_versions s own (fun m => delete dn m)); [apply (inv_base _ _ _ Hi) |].
    intros d id [_ E]%lookup_delete_Some. by apply (base_head _ _ (inv_base _ _ _ Hi)).
  - intros d Hn. split; [done |]. by rewrite history_forget, decide_False.
  - apply (inv_writers _ _ _ Hi).
  - intros id v Ho Hid Hv. rewrite <- Ho. by apply (inv_cell _ _ _ Hi id).
  - exists []. cbn [s' heap versions]. rewrite lookup_delete_eq, history_forget, decide_True by done.
    split; [constructor |]. exists [], []. split_and!; [done | cbn; by rewrite Hp | done | done].
Qed.

Lemma committed_range v hi :
  IsCommitted v && bool_decide (v_CommitTS v <= hi) = true -> 0 < v_CommitTS v <= hi.
Proof. unfold IsCommitted. intros [H1 H2]%andb_true_iff. rewrite bool_decide_eq_true in H1, H2. lia. Qed.

Lemma gc_entry_run oldest n dn hd s own A :
  Inv s own A -> versions s !! dn = Some hd -> oldest <= horizon A ->
  exists n' s' A', gc_entry oldest n (dn, hd) s = (Ok n', s') /\ Inv s' own A' /\ local own dn s s'
    /\ (A' = A \/ A' = forget A dn /\ purgeable A dn).
Proof.
  intros Hi Hhd Hz. unfold gc_entry.
  destruct (walk_head s own A (fun v => IsCommitted v && bool_decide (v_CommitTS v <= oldest)) dn Hi)
    as (l & Hc & Hw & _). rewrite Hhd in Hw.
  erewrite bind_ok by (unfold walk_from; by rewrite Hw).
  assert (exists n' s1, match fst <$> List.find (fun x => IsCommitted x.2 && bool_decide (v_CommitTS x.2 <= oldest)) l with
     | Some id => cut_chain n id | None => mret n end s = (Ok n', s1)
     /\ Inv s1 own A /\ local own dn s s1 /\ versions s1 = versions s) as (n' & s1 & Hrun & Hi1 & Hl1 & Ev).
  { destruct (List.find _ l) as [[id v]|] eqn:F; [| by exists n, s].
    apply find_some in F as [Hin%list_elem_of_In Hv%committed_range].
    apply list_elem_of_split in Hin as (l1 & l2 & ->). apply (cut_run dn n id v l1 l2 s own A Hi Hc). cbn [snd] in Hv. lia. }
  erewrite bind_ok by exact Hrun. destruct (inv_rel _ _ _ Hi1 dn) as (l' & Hc' & Hr).
  rewrite Ev, Hhd in Hc'. inversion Hc' as [|? v l0 Hv _]. subst.
  erewrite bind_ok by (by apply deref_run).
  destruct (IsDeleted v && IsCommitted v && _) eqn:B; [| exists n', s1, A; by split_and!; [.. | left]].
  apply andb_true_iff in B as [[Hd Hcm]%andb_true_iff Ho%bool_decide_eq_true].
  unfold IsCommitted in Hcm. rewrite bool_decide_eq_true in Hcm.
  destruct (related_tombstone v l0.*2 A dn Hr) as [Hp Hpurge]; [lia | done |].
  destruct (purge_run dn s1 own A Hi1 Hp) as [Hi2 Hl2].
  do 3 eexists. split; [reflexivity |]. split; [exact Hi2 |]. split; [| by right].
  constructor; intros; [by rewrite (local_heap _ _ _ _ Hl2), (local_heap _ _ _ _ Hl1) |
                        by rewrite (local_versions _ _ _ _ Hl2), (local_versions _ _ _ _ Hl1)].
Qed.

Lemma gc_loop oldest es n s own A :
  NoDup es.*1 -> Inv s own A -> oldest <= horizon A ->
  (forall d id, (d, id) ∈ es -> versions s !! d = Some id) ->
  exists n' s' purged, gc_entries oldest n es s = (Ok n', s') /\ Inv s' own (foldl forget A purged)
    /\ forall d, d ∈ purged -> d ∈ es.*1 /\ purgeable A d.
Proof.
  revert n s A. induction es as [|[dn hd] es IH]; intros n s A Hnd Hi Hz Hes.
  { exists n, s, []. split_and!; [done | done | set_solver]. }
  apply NoDup_cons in Hnd as [Hdn Hnd].
  destruct (gc_entry_run oldest n dn hd s own A Hi (Hes dn hd ltac:(left)) Hz) as (n1 & s1 & A1 & Hrun & Hi1 & Hl & HA).
  destruct (IH n1 s1 A1 Hnd Hi1) as (n' & s' & purged & Hrun' & Hi' & Hp).
  - by destruct HA as [->|[-> _]].
  - intros d id Hin. rewrite (local_versions _ _ _ _ Hl); [apply Hes; by right |].
    intros ->. apply Hdn, list_elem_of_fmap. by exists (dn, id).
  - exists n', s'. cbn [gc_entries]. erewrite bind_ok by exact Hrun. rewrite Hrun'.
    destruct HA as [->|[-> Hpurge]].
    + exists purged. split_and!; [done | done |]. intros d Hd. destruct (Hp d Hd). set_solver.
    + exists (dn :: purged). split_and!; [done | done |]. intros d [->|Hd]%elem_of_cons; [set_solver |].
      destruct (Hp d Hd) as [Hin Hpu]. split; [set_solver |]. intros snapshot w. specialize (Hpu snapshot w).
      rewrite history_forget, decide_False in Hpu by set_solver. exact Hpu.
Qed.
End Loops.
