(* ===== verification/MvccTheorems.v ===== *)
(** * Theorems about the version store and its cache *)

From S2P Require Import Prelude GoStrings Mvcc MvccSim MvccLoops.

(** ** Sequences of operations *)

(** The transactions that have ended after an operation. *)
Definition ends (E : gset Z) (o : op) : gset Z :=
  match o with OpCommit txn _ | OpRollback txn => {[tx_ID txn]} ∪ E | _ => E end.

Fixpoint legal_run (E : gset Z) (os : list op) : Prop :=
  match os with [] => True | o :: os => legal E o /\ legal_run (ends E o) os end.

#[export] Instance legal_decision E o : Decision (legal E o).
Proof. destruct o; cbn; apply _. Defined.

#[export] Instance legal_run_decision E os : Decision (legal_run E os).
Proof. revert E. induction os as [|o os IH]; intros E; cbn; apply _. Defined.

(** A run of the abstract database, with the results of its operations, all of which return. It
    ends, and promises nothing for what follows, when a transaction fails to get storage for a
    second write of an entry, which is an error. *)
Inductive aruns : adb -> list op -> list (outcome bytes) -> Prop :=
| aruns_nil A : aruns A [] []
| aruns_cons A A' o os r rs : astep A o r A' -> returns r -> aruns A' os rs -> aruns A (o :: os) (r :: rs)
| aruns_spoiled A load e txn dn data os rs :
    spoils A (OpWriteFails load e txn dn data) -> aruns A (OpWriteFails load e txn dn data :: os) (Err e :: rs).

Section Runs.
Context `{MapIteration}.

Fixpoint exec_all (os : list op) (s : VersionStore) : list (outcome bytes) * VersionStore :=
  match os with
  | [] => ([], s)
  | o :: os => let '(r, s) := exec o s in let '(rs, s) := exec_all os s in (r :: rs, s)
  end.

Lemma a_end_ended A t ts dns : ended (a_end A t ts dns) = {[t]} ∪ ended A.
Proof.
  unfold a_end. change ({[t]} ∪ ended A) with (ended (retire A t)). generalize (retire A t) as B.
  induction dns as [|dn dns IH]; intros B; [done |]. cbn. by rewrite IH, settle_ended.
Qed.

(** After its end a transaction has no pending write; the others keep theirs. *)
Lemma a_end_pend A t ts dns dn t' w :
  (forall d w, pend A !! d = Some (t, w) -> d ∈ dns) ->
  pend (a_end A t ts dns) !! dn = Some (t', w) -> pend A !! dn = Some (t', w) /\ t' <> t.
Proof.
  intros Hd. assert (forall B, (forall d w, pend B !! d = Some (t, w) -> d ∈ dns) ->
    pend (foldl (settle t ts) B dns) !! dn = Some (t', w) -> pend B !! dn = Some (t', w) /\ t' <> t) as Hf.
  { clear. induction dns as [|d dns IH]; intros B HB Hp; cbn in Hp.
    - split; [done |]. intros ->. apply HB in Hp. set_solver.
    - apply IH in Hp as [Hp Hn].
      + split; [| done]. destruct (settle_cases t ts B d) as [(w' & _ & E)|[_ E]]; rewrite E in Hp; [| done].
        cbn in Hp. by apply lookup_delete_Some in Hp as [_ Hp].
      + intros d' w' E. destruct (settle_cases t ts B d) as [(w0 & _ & E')|[Hn E']]; rewrite E' in E; cbn in E.
        * apply lookup_delete_Some in E as [? E]. apply HB in E. set_solver.
        * pose proof (HB _ _ E) as [->|?]%elem_of_cons; [by apply Hn in E | done]. }
  exact (Hf (retire A t) Hd).
Qed.

(** The end of a transaction: the loop over all entries. *)
Lemma end_run t ts body s A :
  settles t ts body -> Sim s A -> t ∉ ended A -> t <> 0 ->
  exists s', for_each (range (versions s)) body s = (Ok tt, s')
    /\ (forall d w, pend A !! d = Some (t, w) -> d ∈ (range (versions s)).*1)
    /\ Sim s' (a_end A t ts (range (versions s)).*1).
Proof.
  intros Hbody ([own Hi] & H0 & Hp) Ht Ht0.
  assert (Inv s own (retire A t)) as Hi'.
  { destruct Hi as [Hb Hc Hw Hr]. constructor; [done | | done |].
    - intros id v Hid Hv. destruct (Hc id v Hid Hv); [left; cbn; set_solver | by right].
    - intros d. eapply Rel_frame; [apply Hr | done | | done | done | done | cbn; set_solver].
      intros l id v. apply chain_lookup. }
  destruct (settles_loop t ts body (range (versions s)) s own A Hbody (range_keys _) Ht Hi') as (s' & Hrun & Hs).
  { intros d id Hin. split; [by apply elem_of_range | apply (inv_rel _ _ _ Hi)]. }
  assert (forall d w, pend A !! d = Some (t, w) -> d ∈ (range (versions s)).*1) as Hd.
  { intros d w E. destruct (versions s !! d) as [id|] eqn:Ev.
    - apply list_elem_of_fmap. exists (d, id). split; [done |]. by apply elem_of_range.
    - destruct (no_versions _ _ _ _ Hi Ev). congruence. }
  exists s'. split_and!; [done | done |]. split_and!; [by exists own | |].
  - rewrite a_end_ended. set_solver.
  - intros dn t' w [E Hn]%a_end_pend; [| done]. destruct (Hp dn t' w E). rewrite a_end_ended. set_solver.
Qed.

Lemma foldl_forget A purged :
  pend (foldl forget A purged) = pend A /\ ended (foldl forget A purged) = ended A.
Proof. revert A. induction purged as [|d purged IH]; intros A; [done |]. cbn. by destruct (IH (forget A d)) as [-> ->]. Qed.

Lemma Inv_horizon s own A hz :
  Inv s own A -> horizon A <= hz -> Inv s own (mkAdb (pend A) (hist A) hz (ended A)).
Proof.
  intros [Hb Hc Hw Hr] Hz. constructor; [done | done | done |].
  intros d. eapply Rel_frame; [apply Hr | done | | done | done | done | done]. intros l id v. apply chain_lookup.
Qed.

Lemma Sim_write s own A dn t w :
  Inv s own (a_write A dn t w) -> 0 ∉ ended A ->
  (forall dn t w, pend A !! dn = Some (t, w) -> t ∉ ended A /\ t <> 0) -> t ∉ ended A -> t <> 0 ->
  Sim s (a_write A dn t w).
Proof.
  intros Hi H0 Hp Ht Ht0. split_and!; [by exists own | done |].
  cbn. intros d t' w' [[<- E]|[_ E]]%lookup_insert_Some; [by simplify_eq | by apply (Hp d t' w')].
Qed.

(** One operation: it returns, does what the abstract database allows, and keeps the
    relation. *)
Lemma failed_write_run load txn dn data e w s own A :
  Inv s own A -> pend A !! dn = Some (tx_ID txn, w) -> IsActive txn = true ->
  CreateVersionWithLocation load (Err e) (Some txn) dn data s =
  (Err e, with_writers (delete dn (activeWriters s)) s).
Proof.
  intros Hi Hp Ha. unfold CreateVersionWithLocation. rewrite Ha. cbn [negb].
  destruct (register_run txn dn s own A Hi) as [[_ Hr]|[[] _]]; [| unfold may_write; by rewrite Hp].
  erewrite bind_ok by exact Hr. erewrite bind_ok by apply clearActiveWriter_run.
  cbn [activeWriters heap versions cache]. rewrite lookup_insert_eq, decide_True by done.
  by rewrite delete_insert_eq.
Qed.

(** Without a pending write on the entry, a write that gets no storage changes nothing. *)
Lemma write_fails_run load txn dn data e s own A :
  Inv s own A -> IsActive txn = true ->
  (pend A !! dn = None /\ CreateVersionWithLocation load (Err e) (Some txn) dn data s = (Err e, s))
  \/ (~ may_write A dn (tx_ID txn) /\ CreateVersionWithLocation load (Err e) (Some txn) dn data s = (Err ErrVersionConflict, s))
  \/ (exists w, pend A !! dn = Some (tx_ID txn, w)).
Proof.
  intros Hi Ha. destruct (pend A !! dn) as [[t w]|] eqn:Ep.
  - destruct (decide (t = tx_ID txn)) as [->|Hne]; [right; right; by exists w |]. right. left.
    assert (~ may_write A dn (tx_ID txn)) as Hm by (unfold may_write; by rewrite Ep). split; [done |].
    unfold CreateVersionWithLocation. rewrite Ha. cbn [negb].
    destruct (register_run txn dn s own A Hi) as [[? _]|[_ Hr]]; [done |]. by rewrite bind_run, Hr.
  - left. split; [done |]. unfold CreateVersionWithLocation. rewrite Ha. cbn [negb].
    destruct (register_run txn dn s own A Hi) as [[_ Hr]|[[] _]]; [| unfold may_write; by rewrite Ep].
    erewrite bind_ok by exact Hr. erewrite bind_ok by apply clearActiveWriter_run.
    cbn [activeWriters heap versions cache]. rewrite lookup_insert_eq, decide_True by done.
    rewrite delete_insert_id; [by destruct s |]. by rewrite (inv_writers _ _ _ Hi), lookup_fmap, Ep.
Qed.

Lemma exec_simulates o s A :
  Sim s A -> legal (ended A) o -> ~ spoils A o ->
  exists A', returns (exec o s).1 /\ astep A o (exec o s).1 A' /\ Sim (exec o s).2 A' /\ ended A' = ends (ended A) o.
Proof.
  intros Hs Hl Hns. pose proof Hs as ([own Hi] & H0 & Hp). destruct o; cbn [exec legal ends] in *.
  - destruct (quiet_read load dn snapshot t A s own Hi) as [Hr [own' Hi']]. exists A.
    split_and!; [unfold result; by destruct (GetVisibleForTx _ _ _ _ _).1 | | by split_and!; [exists own' |..] | done].
    constructor. intros w Hz Hw. by destruct (read_answer s own A load dn snapshot t w Hi Hl Hz Hw).
  - destruct Hl as (Ht & Ht0 & Ha).
    destruct (write_run load pageID slotID txn dn data s own A Hi Ha) as [(Hm & x & s' & own' & -> & Hi')|[Hm ->]].
    + eexists. split_and!; [done | by apply as_write | by eapply Sim_write | done].
    + exists A. split_and!; [done | by apply as_write_conflict | done | done].
  - destruct Hl as (Ht & Ht0 & Ha).
    destruct (delete_run load txn dn s own A Hi Ha) as
      [(Hm & x & s' & own' & -> & Hi')|(e & s' & own' & -> & Hi' & [[Hm ->]|(Hn & Hk & ->)])].
    + eexists. split_and!; [done | by apply as_delete | by eapply Sim_write | done].
    + exists A. split_and!; [done | by apply as_delete_conflict | by split_and!; [exists own' |..] | done].
    + exists A. split_and!; [done | by apply as_delete_none | by split_and!; [exists own' |..] | done].
  - destruct Hl as (Ht & Ht0 & Ha & Hts).
    destruct (end_run _ _ _ s A (commit_settles (tx_ID txn) ts Hts) Hs Ht Ht0) as (s' & Hrun & Hd & Hs').
    unfold CommitVersion. erewrite bind_ok by reflexivity. rewrite Hrun.
    eexists. split_and!; [done | by apply as_commit | exact Hs' | by rewrite a_end_ended].
  - destruct Hl as (Ht & Ht0 & Ha).
    destruct (end_run _ _ _ s A (rollback_settles (tx_ID txn)) Hs Ht Ht0) as (s' & Hrun & Hd & Hs').
    unfold RollbackVersion. erewrite bind_ok by reflexivity. rewrite Hrun.
    eexists. split_and!; [done | by apply as_rollback | exact Hs' | by rewrite a_end_ended].
  - set (A0 := mkAdb (pend A) (hist A) (Z.max oldest (horizon A)) (ended A)).
    destruct (gc_loop oldest (range (versions s)) 0 s own A0) as (n & s' & purged & Hrun & Hi' & Hpu).
    { apply range_keys. } { apply Inv_horizon; [done | lia]. } { cbn. lia. } { intros d id. by apply elem_of_range. }
    unfold GarbageCollect. erewrite bind_ok by reflexivity. rewrite Hrun.
    destruct (foldl_forget A0 purged) as [E1 E2].
    exists (foldl forget A0 purged). split_and!; [done | | | done].
    + apply as_gc. intros d snapshot w Hd. by apply (Hpu d Hd).
    + split_and!; [by exists own | by rewrite E2 | by rewrite E1, E2].
  - destruct Hl as (_ & _ & Ha). destruct (write_fails_run load txn dn data e s own A Hi Ha) as [[Hn ->]|[[Hm ->]|Hsp]]; [| | done].
    + exists A. split_and!; [done | by apply as_write_fails | done | done].
    + exists A. split_and!; [done | by apply as_write_fails_conflict | done | done].
Qed.

Lemma Inv_init cacheSize : Inv (NewVersionStoreWithCache cacheSize) (fun _ => []) adb0.
Proof.
  constructor; [by constructor | done | done |].
  intros dn. exists []. split; [constructor |]. exists [], []. by split_and!.
Qed.

Lemma Sim_init cacheSize : Sim (NewVersionStoreWithCache cacheSize) adb0.
Proof. split_and!; [eexists; apply Inv_init | cbn; set_solver | done]. Qed.

Lemma exec_all_simulates os s A : Sim s A -> legal_run (ended A) os -> aruns A os (exec_all os s).1.
Proof.
  revert s A. induction os as [|o os IH]; intros s A Hs Hl; [constructor |]. destruct Hl as [Hl Hls]. cbn [exec_all].
  assert (spoils A o \/ ~ spoils A o) as [Hsp|Hns].
  { destruct o as [| | | | | |load e txn dn data]; cbn; [by right; intros []..|]. destruct (pend A !! dn) as [[t w]|]; [| right; by intros []].
    destruct (decide (t = tx_ID txn)) as [->|Hne]; [left; by exists w | right; by intros [? [= ? ?]]]. }
  - destruct o as [| | | | | |load e txn dn data]; try done. pose proof Hs as ([own Hi] & _). pose proof Hsp as [w Hp].
    cbn [exec]. rewrite (failed_write_run load txn dn data e w s own A Hi Hp) by apply Hl. unfold result. cbn [fst snd].
    destruct (exec_all os _) as [rs s2]. by apply aruns_spoiled.
  - destruct (exec_simulates o s A Hs Hl Hns) as (A1 & Hr & Ha & Hs1 & E).
    destruct (exec o s) as [r s1]. cbn [fst snd] in *. rewrite <- E in Hls.
    pose proof (IH s1 A1 Hs1 Hls) as Has. destruct (exec_all os s1) as [rs s2]. cbn in *. by econstructor.
Qed.


(** Another transaction writes the entry although [txn] has a pending write on it. *)
Definition overwrites (load : loader) (txn : Transaction) (dn : gostring) (data : bytes) (s : VersionStore) : Prop :=
  exists x s', CreateVersionWithLocation load (Ok (0, 0)) (Some txn) dn data s = (Ok x, s').

(** a write that fails to get storage releases the entry even when the same
    transaction already has a pending write on it: any other transaction can then write
    the entry, and the conflict is not reported. *)
Theorem failed_write_releases_entry load load' txn txn' dn data data' e w s A :
  Sim s A -> pend A !! dn = Some (tx_ID txn, w) -> IsActive txn = true -> IsActive txn' = true ->
  let r := CreateVersionWithLocation load (Err e) (Some txn) dn data s in
  r.1 = Err e /\ overwrites load' txn' dn data' r.2.
Proof.
  intros ([own Hi] & _) Hp Ha Ha' r. subst r.
  rewrite (failed_write_run load txn dn data e w s own A Hi Hp Ha). split; [done |].
  unfold overwrites, CreateVersionWithLocation. rewrite Ha'. cbn [negb snd].
  erewrite bind_ok by (unfold register_writer; rewrite bind_run; unfold gets; cbn [activeWriters with_writers];
    by rewrite lookup_delete_eq).
  destruct (latest_version_link load' dn s own A Hi) as (o & s' & own' & Hl & _).
  erewrite bind_ok by (etrans; [apply (latest_version_writers _ _ _ s) | by rewrite Hl]). by do 2 eexists.
Qed.

End Runs.

(** ** The entry cache *)

Inductive cache_op :=
| CGet (dn : gostring)
| CPut (dn : gostring) (version : nat) (pageID slotID : Z)
| CDelete (dn : gostring)
| CClear.

Definition cache_step (c : EntryCache) (o : cache_op) : EntryCache :=
  match o with
  | CGet dn => (Cache_Get c dn).2
  | CPut dn v p sl => Cache_Put c dn v p sl
  | CDelete dn => Cache_Delete c dn
  | CClear => Cache_Clear c
  end.

(** The list and the index of the cache agree with its entries, within its size. *)
Record cache_ok (c : EntryCache) : Prop := mkCacheOk {
  cache_dup : NoDup (lru c);
  cache_dom : forall dn, dn ∈ lru c <-> dn ∈ dom (entries c);
  cache_capacity : 0 < maxSize c;
  cache_bound : Cache_Len c <= maxSize c
}.

Lemma elem_of_list_Remove dn d l : d ∈ list_Remove dn l <-> d <> dn /\ d ∈ l.
Proof.
  unfold list_Remove. rewrite !list_elem_of_In, filter_In. unfold bytes_eqb.
  destruct (decide (d = dn)); [rewrite bool_decide_true by done | rewrite bool_decide_false by done]; naive_solver.
Qed.

Lemma NoDup_list_Remove dn l : NoDup l -> NoDup (list_Remove dn l).
Proof. rewrite !NoDup_ListNoDup. apply List.NoDup_filter. Qed.

Lemma elem_of_MoveToFront dn d l : d ∈ MoveToFront dn l <-> d ∈ l.
Proof.
  unfold MoveToFront. case_decide; [| done]. rewrite elem_of_cons, elem_of_list_Remove.
  destruct (decide (d = dn)); naive_solver.
Qed.

Lemma NoDup_MoveToFront dn l : NoDup l -> NoDup (MoveToFront dn l).
Proof.
  intros Hd. unfold MoveToFront. case_decide; [| done]. constructor; [| by apply NoDup_list_Remove].
  rewrite elem_of_list_Remove. naive_solver.
Qed.

Lemma cache_Delete_ok c dn : cache_ok c -> cache_ok (Cache_Delete c dn).
Proof.
  intros [Hd Hm Hc Hb]. constructor; cbn; [by apply NoDup_list_Remove | | done |].
  - intros d. rewrite elem_of_list_Remove, dom_delete_L, Hm. set_solver.
  - unfold Cache_Len in *. cbn. destruct (entries c !! dn) eqn:E.
    + rewrite map_size_delete_Some by done. lia.
    + by rewrite delete_id.
Qed.

(** A full cache makes room. *)
Lemma evict_ok c :
  cache_ok c -> Cache_Len c >= maxSize c ->
  cache_ok (evictLRU c) /\ Cache_Len (evictLRU c) < maxSize c /\ maxSize (evictLRU c) = maxSize c.
Proof.
  intros Hok Hf. pose proof Hok as [Hd Hm Hc Hb]. unfold evictLRU. destruct (last (lru c)) as [dn|] eqn:El.
  - split_and!; [by apply cache_Delete_ok | | done].
    apply last_Some_elem_of, Hm, elem_of_dom in El. unfold Cache_Len in *. cbn.
    rewrite map_size_delete_Some by done. destruct (size (entries c)) eqn:E; [| lia].
    apply map_size_empty_inv in E. rewrite E in El. by destruct El.
  - exfalso. apply last_None in El. unfold Cache_Len in *.
    assert (entries c = ∅) as E. { apply dom_empty_inv_L. apply elem_of_equiv_empty_L. intros d Hin%Hm. rewrite El in Hin. set_solver. }
    rewrite E, map_size_empty in *. lia.
Qed.

Lemma cache_Put_ok c dn v p sl : cache_ok c -> cache_ok (Cache_Put c dn v p sl).
Proof.
  intros Hok. pose proof Hok as [Hd Hm Hc Hb]. unfold Cache_Put. cbv zeta. destruct (entries c !! dn) eqn:E.
  - constructor; cbn; [by apply NoDup_MoveToFront | | done |].
    + intros d. rewrite elem_of_MoveToFront, dom_insert_L, Hm. assert (dn ∈ dom (entries c)) by (by apply elem_of_dom).
      set_solver.
    + unfold Cache_Len in *. cbn. by rewrite map_size_insert_Some.
  - set (c' := if decide _ then evictLRU c else c).
    assert (cache_ok c' /\ Cache_Len c' < maxSize c /\ maxSize c' = maxSize c /\ entries c' !! dn = None)
      as ([Hd' Hm' Hc' Hb'] & Hlt & Em & En).
    { subst c'. case_decide as Hf; [| unfold Cache_Len in *; split_and!; [done | lia | done | done]].
      destruct (evict_ok c Hok Hf) as (? & ? & ?). split_and!; try done.
      unfold evictLRU. destruct (last (lru c)); [| done]. cbn. apply lookup_delete_None. by right. }
    constructor; cbn [lru entries maxSize].
    + constructor; [| done]. rewrite Hm', not_elem_of_dom. done.
    + intros d. rewrite elem_of_cons, dom_insert_L, Hm'. set_solver.
    + done.
    + unfold Cache_Len in *. cbn. rewrite map_size_insert_None by done. lia.
Qed.

Lemma cache_step_ok c o : cache_ok c -> cache_ok (cache_step c o).
Proof.
  intros Hok. destruct o; cbn.
  - destruct Hok as [Hd Hm Hc Hb]. unfold Cache_Get. destruct (entries c !! dn); by constructor;
      cbn; [apply NoDup_MoveToFront | intros d; rewrite elem_of_MoveToFront | ..] || constructor.
  - by apply cache_Put_ok.
  - by apply cache_Delete_ok.
  - destruct Hok. constructor; cbn; [constructor | set_solver | done | unfold Cache_Len; cbn; rewrite map_size_empty; lia].
Qed.

Lemma maxSize_step c o : maxSize (cache_step c o) = maxSize c.
Proof.
  destruct o; cbn; [| | done | done].
  - unfold Cache_Get. by destruct (entries c !! dn).
  - unfold Cache_Put. cbv zeta. destruct (entries c !! dn); [done |]. cbn. case_decide; [| done].
    unfold evictLRU. by destruct (last (lru c)).
Qed.

(** What was used last is at the front; so it is not what the next eviction takes. *)
Lemma cache_Put_front c dn v p sl : cache_ok c -> head (lru (Cache_Put c dn v p sl)) = Some dn.
Proof.
  intros [Hd Hm _ _]. unfold Cache_Put. cbv zeta. destruct (entries c !! dn) eqn:E; [| done]. cbn.
  unfold MoveToFront. rewrite decide_True; [done |]. by apply Hm, elem_of_dom.
Qed.

(** C28: the entry cache keeps its invariant over any sequence of its operations, from
    any requested size: its recency list and its map hold the same names without
    repetition, there are at most [maxSize] of them, and a name just put is found with
    what was put and is the most recently used. *)
Theorem entry_cache_invariant size os dn v p sl :
  let c := foldl cache_step (NewEntryCache size) os in
  let c' := Cache_Put c dn v p sl in
  cache_ok c /\ maxSize c = (if decide (size <= 0) then DefaultCacheSize else size)
  /\ (Cache_Get c' dn).1 = Some (mkCachedEntry v p sl) /\ head (lru c') = Some dn.
Proof.
  intros c c'. assert (forall os c, cache_ok c -> cache_ok (foldl cache_step c os)) as Hs.
  { clear. induction os as [|o os IH]; intros c Hc; [done |]. by apply IH, cache_step_ok. }
  assert (forall os c, maxSize (foldl cache_step c os) = maxSize c) as Hm.
  { clear. induction os as [|o os IH]; intros c; [done |]. cbn. rewrite IH. apply maxSize_step. }
  assert (cache_ok c) as Hok.
  { apply Hs. constructor; cbn; [constructor | set_solver | | unfold Cache_Len; cbn; rewrite map_size_empty];
      case_decide; unfold DefaultCacheSize; lia. }
  split_and!; [done | apply Hm | | by apply cache_Put_front].
  unfold Cache_Get, c', Cache_Put. cbv zeta. by destruct (entries c !! dn); cbn [entries]; rewrite lookup_insert_eq.
Qed.

(** ** Concrete runs *)

Module RunExample.
Definition it : MapIteration := {|
  range K _ _ V m := map_to_list m;
  range_perm K _ _ V m := Permutation_refl (map_to_list m)
|}.
Definition dn : gostring := str "uid=a,dc=x".
Definition tx (id : Z) : Transaction := NewTransaction id 0.

(** Two writers, a conflict, a commit, readers before and after it, a deletion that is
    rolled back, and a collection. *)
Definition ops : list op :=
  [ OpWrite None 1 0 (tx 1) dn (str "v1"); OpWrite None 2 0 (tx 2) dn (str "v2");
    OpRead None dn 5 2; OpRead None dn 0 1; OpCommit (tx 1) 5; OpRead None dn 5 2; OpRead None dn 4 2;
    OpDelete None (tx 2) dn; OpRead None dn 9 2; OpRollback (tx 2); OpGC 6; OpRead None dn 9 3;
    OpWriteFails None (ErrConst "ErrFileFull") (tx 3) dn (str "v3"); OpRead None dn 9 3 ].

Definition answers_of_run : list (outcome bytes) :=
  [ Ok []; Err ErrVersionConflict; Err ErrVersionNotFound; Ok (str "v1"); Ok []; Ok (str "v1");
    Err ErrVersionNotFound; Ok []; Err ErrVersionDeleted; Ok []; Ok []; Ok (str "v1");
    Err (ErrConst "ErrFileFull"); Ok (str "v1") ].

End RunExample.
Import RunExample.


(** Transaction 1 has a pending write; its second write finds no storage. *)
Lemma failed_write_releases_entry_witness :
  let s := (exec (H := it) (OpWrite None 1 0 (tx 1) dn (str "v1")) (NewVersionStoreWithCache 1)).2 in
  let r := CreateVersionWithLocation None (Err (ErrConst "ErrFileFull")) (Some (tx 1)) dn (str "v2") s in
  r.1 = Err (ErrConst "ErrFileFull") /\ overwrites None (tx 2) dn (str "w") r.2.
Proof.
  set (o := OpWrite None 1 0 (tx 1) dn (str "v1")).
  apply (failed_write_releases_entry None None (tx 1) (tx 2) dn (str "v2") (str "w")
    (ErrConst "ErrFileFull") (Some (str "v1")) _ (a_write adb0 dn 1 (Some (str "v1")))); [| done..].
  destruct (write_run None 1 0 (tx 1) dn (str "v1") _ _ adb0 (Inv_init 1)) as [(_ & x & s' & own & E & Hi)|[[] _]];
    [done | | done].
  replace (exec o (NewVersionStoreWithCache 1)).2 with s' by (cbn [exec o]; by rewrite E).
  eapply Sim_write; [exact Hi | cbn; set_solver | done | cbn; set_solver | done].
Defined.
