(* ===== verification/Page.v ===== *)
(** * Pages, the file header, the free list and the page manager
    (src/internal/storage/page.go, header.go, freelist.go, manager.go)

    The database file is its bytes. Operations of the file system succeed, except that
    a file cannot grow beyond the limit of the disk ([disk_limit]). Locks are left out:
    a method is one step. *)

From S2P Require Import Prelude GoBinary.

(** ** page.go *)

Definition PageSize : Z := 4096.
Definition PageHeaderSize : Z := 16.

Definition PageTypeFree : byte := x00.
Definition PageTypeData : byte := x01.

Definition ErrInvalidPageSize : goerror := ErrConst "ErrInvalidPageSize".
Definition ErrInvalidChecksum : goerror := ErrConst "ErrInvalidChecksum".

Record PageHeader := mkPageHeader {
  ph_PageID : Z;
  ph_PageType : byte;
  ph_Flags : byte;
  ph_ItemCount : Z;
  ph_FreeSpace : Z;
  ph_Checksum : Z
}.

Definition PageHeader_Serialize (h : PageHeader) : bytes :=
  put64 (ph_PageID h) ++ [ph_PageType h] ++ [ph_Flags h] ++ put16 (ph_ItemCount h)
  ++ put16 (ph_FreeSpace h) ++ put16 (ph_Checksum h).

Definition PageHeader_Deserialize (buf : bytes) : outcome PageHeader :=
  if decide (len buf < PageHeaderSize) then Err ErrInvalidPageSize
  else Ok (mkPageHeader (field buf 0 8) (nth 8 buf x00) (nth 9 buf x00)
             (field buf 10 2) (field buf 12 2) (field buf 14 2)).

(** [h.Flags |= PageFlagDirty]. *)
Definition SetDirty (h : PageHeader) : PageHeader :=
  mkPageHeader (ph_PageID h) (ph_PageType h) (u8 (Z.lor (bZ (ph_Flags h)) 1))
    (ph_ItemCount h) (ph_FreeSpace h) (ph_Checksum h).

Record Page := mkPage { Header : PageHeader; Data : bytes }.

Definition data_size : nat := Z.to_nat (PageSize - PageHeaderSize).

Definition NewPage (pageID : Z) (pageType : byte) : Page :=
  mkPage (mkPageHeader pageID pageType x00 0 (PageSize - PageHeaderSize) 0) (zeros data_size).

Definition CalculateChecksum (data : bytes) : Z := Z.land (ChecksumIEEE data) 0xFFFF.

Definition with_checksum (h : PageHeader) (c : Z) : PageHeader :=
  mkPageHeader (ph_PageID h) (ph_PageType h) (ph_Flags h) (ph_ItemCount h) (ph_FreeSpace h) c.

Definition Page_Serialize (p : Page) : bytes :=
  PageHeader_Serialize (with_checksum (Header p) (CalculateChecksum (Data p))) ++ pad data_size (Data p).

Definition Page_Deserialize (buf : bytes) : outcome Page :=
  if decide (len buf < PageSize) then Err ErrInvalidPageSize
  else
    h ← PageHeader_Deserialize (take (Z.to_nat PageHeaderSize) buf);
    Ok (mkPage h (take data_size (drop (Z.to_nat PageHeaderSize) buf))).

Definition ValidateChecksum (p : Page) : bool :=
  bool_decide (ph_Checksum (Header p) = CalculateChecksum (Data p)).

Definition Page_DeserializeAndValidate (buf : bytes) : outcome Page :=
  p ← Page_Deserialize buf;
  if ValidateChecksum p then Ok p else Err ErrInvalidChecksum.

(** ** header.go *)

Definition Magic : bytes := [x4f; x42; x41; x00].
Definition CurrentVersion : Z := 1.
Definition FileHeaderReservedSize : Z := 4020.

Definition ErrInvalidMagic : goerror := ErrConst "ErrInvalidMagic".
Definition ErrUnsupportedVersion : goerror := ErrConst "ErrUnsupportedVersion".
Definition ErrHeaderChecksum : goerror := ErrConst "ErrHeaderChecksum".
Definition ErrInvalidHeaderSize : goerror := ErrConst "ErrInvalidHeaderSize".

Record FileHeader := mkFileHeader {
  fh_Magic : bytes;
  fh_Version : Z;
  fh_PageSize : Z;
  fh_TotalPages : Z;
  fh_FreeListHead : Z;
  fh_DNIndex : Z;
  fh_DataRoot : Z;
  fh_Checksum : Z;
  fh_Reserved : bytes
}.

Definition NewFileHeader : FileHeader :=
  mkFileHeader Magic CurrentVersion PageSize 1 0 0 0 0 (zeros (Z.to_nat FileHeaderReservedSize)).

(** Bytes 0 to 43. *)
Definition header_fields (h : FileHeader) : bytes :=
  fh_Magic h ++ put32 (fh_Version h) ++ put32 (fh_PageSize h) ++ put64 (fh_TotalPages h)
  ++ put64 (fh_FreeListHead h) ++ put64 (fh_DNIndex h) ++ put64 (fh_DataRoot h).

Definition FileHeader_Serialize (h : FileHeader) : bytes :=
  header_fields h ++ put32 (ChecksumIEEE (header_fields h)) ++ pad 4048 (fh_Reserved h).

Definition FileHeader_Deserialize (buf : bytes) : outcome FileHeader :=
  if decide (len buf < PageSize) then Err ErrInvalidHeaderSize
  else Ok (mkFileHeader (take 4 buf) (field buf 4 4) (field buf 8 4) (field buf 12 8) (field buf 20 8)
             (field buf 28 8) (field buf 36 8) (field buf 44 4)
             (take (Z.to_nat FileHeaderReservedSize) (drop 48 buf))).

Definition ValidateMagic (h : FileHeader) : bool := bytes_eqb (fh_Magic h) Magic.

Definition ValidateVersion (h : FileHeader) : bool :=
  negb (bool_decide (fh_Version h > CurrentVersion) || bool_decide (fh_Version h = 0)).

Definition FileHeader_CalculateChecksum (h : FileHeader) : Z := ChecksumIEEE (header_fields h).

Definition Validate (h : FileHeader) : outcome unit :=
  if negb (ValidateMagic h) then Err ErrInvalidMagic
  else if negb (ValidateVersion h) then Err ErrUnsupportedVersion
  else if decide (fh_Checksum h = FileHeader_CalculateChecksum h) then Ok tt else Err ErrHeaderChecksum.

Definition FileHeader_DeserializeAndValidate (buf : bytes) : outcome FileHeader :=
  h ← FileHeader_Deserialize buf;
  _ ← Validate h;
  Ok h.

(** ** freelist.go *)

Definition FreeListEntrySize : Z := 8.
Definition MaxFreeListEntriesPerPage : nat := 509.

Record FreeList := mkFreeList { head : Z; count : Z; freePages : list Z }.

Definition NewFreeList : FreeList := mkFreeList 0 0 [].

Definition SetHead (fl : FreeList) (h : Z) : FreeList := mkFreeList h (count fl) (freePages fl).

Definition Push (fl : FreeList) (pageID : Z) : FreeList :=
  mkFreeList (head fl) (uint64 (count fl + 1)) (freePages fl ++ [pageID]).

Definition Pop (fl : FreeList) : option Z * FreeList :=
  match last (freePages fl) with
  | None => (None, fl)
  | Some pageID =>
      (Some pageID, mkFreeList (head fl) (uint64 (count fl - 1)) (removelast (freePages fl)))
  end.

Definition Contains (fl : FreeList) (pageID : Z) : bool := bool_decide (pageID ∈ freePages fl).

(** [fl.freePages[i] = fl.freePages[len-1]; fl.freePages = fl.freePages[:len-1]]. *)
Definition Remove (fl : FreeList) (pageID : Z) : bool * FreeList :=
  match list_find (fun id => id = pageID) (freePages fl) with
  | None => (false, fl)
  | Some (i, _) =>
      match last (freePages fl) with
      | None => (false, fl)
      | Some l => (true, mkFreeList (head fl) (uint64 (count fl - 1)) (removelast (<[i := l]> (freePages fl))))
      end
  end.

(** The entries of a free list page. *)
Fixpoint load_entries (data : bytes) (i n : nat) : list Z :=
  match n with
  | O => []
  | S n =>
      let offset := (8 + i * 8)%nat in
      if decide (offset + 8 <= length data)%nat then
        let pageID := field data offset 8 in
        (if decide (pageID <> 0) then [pageID] else []) ++ load_entries data (S i) n
      else []
  end.

Definition page_entries (p : Page) : list Z :=
  load_entries (Data p) 0 (Z.to_nat (ph_ItemCount (Header p)) `min` MaxFreeListEntriesPerPage).

Definition LoadFromPages (fl : FreeList) (pages : list Page) : FreeList :=
  let ids := pages ≫= page_entries in mkFreeList (head fl) (uint64 (len ids)) ids.

Definition GetNextPageID (p : Page) : Z :=
  if decide (len (Data p) < 8) then 0 else field (Data p) 0 8.

(** ** manager.go *)

Definition DefaultInitialPages : Z := 16.
Definition MinGrowthPages : Z := 8.

Definition ErrInvalidPageID : goerror := ErrConst "ErrInvalidPageID".
Definition ErrPageOutOfRange : goerror := ErrConst "ErrPageOutOfRange".
Definition ErrPageAlreadyFree : goerror := ErrConst "ErrPageAlreadyFree".
Definition ErrCannotFreeHeader : goerror := ErrConst "ErrCannotFreeHeader".
Definition ErrFileClosed : goerror := ErrConst "ErrFileClosed".
Definition ErrNotExist : goerror := ErrConst "os.ErrNotExist".
Definition ErrReadOnly : goerror := ErrConst "read-only mode".
Definition ErrNoSpace : goerror := ErrConst "no space left on device".
Definition EOF : goerror := ErrConst "io.EOF".

Record Options := mkOptions {
  opt_PageSize : Z;
  opt_InitialPages : Z;
  opt_CreateIfNew : bool;
  opt_ReadOnly : bool
}.

Record PageManager := mkPageManager {
  file : bytes;
  header : FileHeader;
  pageSize : Z;
  totalPages : Z;
  freeList : FreeList;
  readOnly : bool;
  closed : bool
}.

Definition set_file (f : bytes) : M PageManager unit := modify (fun pm =>
  mkPageManager f (header pm) (pageSize pm) (totalPages pm) (freeList pm) (readOnly pm) (closed pm)).
Definition set_header (f : FileHeader -> FileHeader) : M PageManager unit := modify (fun pm =>
  mkPageManager (file pm) (f (header pm)) (pageSize pm) (totalPages pm) (freeList pm) (readOnly pm) (closed pm)).
Definition set_total (n : Z) : M PageManager unit := modify (fun pm =>
  mkPageManager (file pm) (header pm) (pageSize pm) n (freeList pm) (readOnly pm) (closed pm)).
Definition set_freeList (f : FreeList -> FreeList) : M PageManager unit := modify (fun pm =>
  mkPageManager (file pm) (header pm) (pageSize pm) (totalPages pm) (f (freeList pm)) (readOnly pm) (closed pm)).
Definition set_closed : M PageManager unit := modify (fun pm =>
  mkPageManager (file pm) (header pm) (pageSize pm) (totalPages pm) (freeList pm) (readOnly pm) true).

Definition with_total (n : Z) (h : FileHeader) : FileHeader :=
  mkFileHeader (fh_Magic h) (fh_Version h) (fh_PageSize h) n (fh_FreeListHead h) (fh_DNIndex h)
    (fh_DataRoot h) (fh_Checksum h) (fh_Reserved h).
Definition with_free (n : Z) (h : FileHeader) : FileHeader :=
  mkFileHeader (fh_Magic h) (fh_Version h) (fh_PageSize h) (fh_TotalPages h) n (fh_DNIndex h)
    (fh_DataRoot h) (fh_Checksum h) (fh_Reserved h).
Definition with_roots (dnIndex dataRoot : Z) (h : FileHeader) : FileHeader :=
  mkFileHeader (fh_Magic h) (fh_Version h) (fh_PageSize h) (fh_TotalPages h) (fh_FreeListHead h) dnIndex
    dataRoot (fh_Checksum h) (fh_Reserved h).

Section Manager.
Context (disk_limit : Z).

(** [pm.file.Truncate(size)]. *)
Definition Truncate (size : Z) : M PageManager unit :=
  if decide (0 <= size <= disk_limit) then
    f ← gets file; set_file (pad (Z.to_nat size) f)
  else fail ErrNoSpace.

Definition readPageInternal (id : Z) : M PageManager Page :=
  if decide (id = 0) then fail ErrInvalidPageID
  else
    total ← gets totalPages;
    if decide (id >= total) then fail ErrPageOutOfRange
    else
      size ← gets pageSize;
      f ← gets file;
      let buf := ReadAt f (Z.to_nat (int64 (id * size))) (Z.to_nat size) in
      if decide (len buf < size) then fail (ErrConst "incomplete page read")
      else match Page_Deserialize buf with
           | Ok page => mret page
           | Err e => fail (WrapError "failed to deserialize page" e)
           | Panic => panic
           | Diverge => diverge
           end.

Definition ReadPage (id : Z) : M PageManager Page :=
  c ← gets closed;
  if (c : bool) then fail ErrFileClosed else readPageInternal id.

Definition writePageInternal (page : Page) : M PageManager unit :=
  let id := ph_PageID (Header page) in
  if decide (id = 0) then fail ErrInvalidPageID
  else
    total ← gets totalPages;
    if decide (id >= total) then fail ErrPageOutOfRange
    else
      size ← gets pageSize;
      f ← gets file;
      set_file (WriteAt f (Z.to_nat (int64 (id * size))) (Page_Serialize page)).

Definition WritePage (page : Page) : M PageManager unit :=
  c ← gets closed;
  if (c : bool) then fail ErrFileClosed
  else
    ro ← gets readOnly;
    if (ro : bool) then fail ErrReadOnly else writePageInternal page.

(** [for i := from; i < to; i++ { pm.freeList.Push(PageID(i)) }]. *)
Definition push_range (lo hi : Z) (fl : FreeList) : FreeList := foldl Push fl (seqZ lo (hi - lo)).

Definition growFileLocked (numPages : Z) : M PageManager unit :=
  let numPages := if decide (numPages < MinGrowthPages) then MinGrowthPages else numPages in
  total ← gets totalPages;
  size ← gets pageSize;
  let newTotal := uint64 (total + numPages) in
  wrap_err (fun _ => WrapError "failed to grow file") (Truncate (int64 (newTotal * size))) ;;
  set_total newTotal ;;
  set_header (with_total newTotal) ;;
  set_freeList (push_range (total + 1) newTotal).

Definition AllocatePage (pageType : byte) : M PageManager Z :=
  c ← gets closed;
  if (c : bool) then fail ErrFileClosed
  else
    ro ← gets readOnly;
    if (ro : bool) then fail ErrReadOnly
    else
      fl ← gets freeList;
      match Pop fl with
      | (Some pageID, fl') =>
          set_freeList (fun _ => fl') ;;
          r ← try (writePageInternal (NewPage pageID pageType));
          match r with
          | inl _ => mret pageID
          | inr e => set_freeList (fun fl => Push fl pageID) ;; fail e
          end
      | (None, _) =>
          newPageID ← gets totalPages;
          growFileLocked 1 ;;
          writePageInternal (NewPage newPageID pageType) ;;
          mret newPageID
      end.

Definition FreePage (id : Z) : M PageManager unit :=
  c ← gets closed;
  if (c : bool) then fail ErrFileClosed
  else
    ro ← gets readOnly;
    if (ro : bool) then fail ErrReadOnly
    else if decide (id = 0) then fail ErrCannotFreeHeader
    else
      total ← gets totalPages;
      if decide (id >= total) then fail ErrPageOutOfRange
      else
        fl ← gets freeList;
        if Contains fl id then fail ErrPageAlreadyFree
        else
          writePageInternal (NewPage id PageTypeFree) ;;
          set_freeList (fun fl => Push fl id).

Definition saveHeaderLocked : M PageManager unit :=
  total ← gets totalPages;
  set_header (with_total total) ;;
  h ← gets header;
  f ← gets file;
  set_file (WriteAt f 0 (FileHeader_Serialize h)).

Definition Sync : M PageManager unit :=
  c ← gets closed;
  if (c : bool) then fail ErrFileClosed
  else
    ro ← gets readOnly;
    if (ro : bool) then mret tt else saveHeaderLocked.

Definition UpdateHeader (dnIndex dataRoot : Z) : M PageManager unit :=
  c ← gets closed;
  if (c : bool) then fail ErrFileClosed
  else set_header (with_roots dnIndex dataRoot) ;; saveHeaderLocked.

(** The page of the free list with the entries [ids]. *)
Definition free_list_page (pageID next : Z) (ids : list Z) : Page :=
  mkPage (mkPageHeader pageID PageTypeFree x00 (uint16 (len ids)) (PageSize - PageHeaderSize) 0)
    (pad data_size (put64 next ++ (ids ≫= put64))).

(** [for i := numPagesNeeded - 1; i >= 0; i--], with the index of the page before. *)
Fixpoint save_pages (start : Z) (freePages : list Z) (order : list nat) (prevPageID : Z) : M PageManager Z :=
  match order with
  | [] => mret prevPageID
  | i :: order =>
      let pageID := uint64 (start + Z.of_nat i) in
      let ids := take MaxFreeListEntriesPerPage (drop (i * MaxFreeListEntriesPerPage) freePages) in
      writePageInternal (free_list_page pageID prevPageID ids) ;;
      save_pages start freePages order pageID
  end.

Definition saveFreeListLocked : M PageManager unit :=
  fl ← gets freeList;
  match freePages fl with
  | [] => set_header (with_free 0)
  | ids =>
      let needed := ((length ids + MaxFreeListEntriesPerPage - 1) / MaxFreeListEntriesPerPage)%nat in
      start ← gets totalPages;
      size ← gets pageSize;
      let newTotal := uint64 (start + Z.of_nat needed) in
      Truncate (int64 (newTotal * size)) ;;
      set_total newTotal ;;
      set_header (with_total newTotal) ;;
      prev ← save_pages start ids (down needed) 0;
      set_header (with_free prev) ;;
      set_freeList (fun fl => SetHead fl prev)
  end.

Definition Close : M PageManager unit :=
  c ← gets closed;
  if (c : bool) then fail ErrFileClosed
  else
    set_closed ;;
    ro ← gets readOnly;
    if (ro : bool) then mret tt
    else
      wrap_err (fun _ => WrapError "failed to save free list") saveFreeListLocked ;;
      saveHeaderLocked.

(** [for currentPageID != 0 { ... currentPageID = GetNextPageID(page) }]: a chain of more
    pages than the file has repeats itself. *)
Fixpoint read_chain (fuel : nat) (current : Z) : M PageManager (list Page) :=
  if decide (current = 0) then mret []
  else match fuel with
       | O => diverge
       | S fuel =>
           page ← readPageInternal current;
           pages ← read_chain fuel (GetNextPageID page);
           mret (page :: pages)
       end.

Definition loadFreeList : M PageManager unit :=
  set_freeList (fun _ => NewFreeList) ;;
  h ← gets header;
  if decide (fh_FreeListHead h = 0) then mret tt
  else
    set_freeList (fun fl => SetHead fl (fh_FreeListHead h)) ;;
    total ← gets totalPages;
    pages ← read_chain (Z.to_nat total) (fh_FreeListHead h);
    set_freeList (fun fl => LoadFromPages fl pages).

Definition loadExisting : M PageManager unit :=
  f ← gets file;
  let buf := ReadAt f 0 (Z.to_nat PageSize) in
  if decide (len buf < PageSize) then fail (WrapError "failed to read header" EOF)
  else match FileHeader_DeserializeAndValidate buf with
       | Err e => fail (WrapError "invalid header" e)
       | Panic => panic
       | Diverge => diverge
       | Ok h =>
           modify (fun pm => mkPageManager (file pm) h (fh_PageSize h) (fh_TotalPages h) (freeList pm)
                               (readOnly pm) (closed pm)) ;;
           wrap_err (fun _ => WrapError "failed to load free list") loadFreeList
       end.

Definition initializeNew (initialPages : Z) : M PageManager unit :=
  let initialPages := if decide (initialPages < 1) then 1 else initialPages in
  size ← gets pageSize;
  let h := with_total initialPages NewFileHeader in
  let h := mkFileHeader (fh_Magic h) (fh_Version h) (uint32 size) (fh_TotalPages h) (fh_FreeListHead h)
             (fh_DNIndex h) (fh_DataRoot h) (fh_Checksum h) (fh_Reserved h) in
  set_header (fun _ => h) ;;
  set_total initialPages ;;
  f ← gets file;
  set_file (WriteAt f 0 (FileHeader_Serialize h)) ;;
  set_freeList (push_range 1 initialPages) ;;
  wrap_err (fun _ => WrapError "failed to extend file") (Truncate (int64 (initialPages * size))).

(** [existing] is what the file holds, if there is one. *)
Definition OpenPageManager (existing : option bytes) (opts : Options) : outcome PageManager :=
  let size := if decide (opt_PageSize opts = 0) then PageSize else opt_PageSize opts in
  let initial := if decide (opt_InitialPages opts = 0) then DefaultInitialPages else opt_InitialPages opts in
  let pm f := mkPageManager f NewFileHeader size 0 NewFreeList (opt_ReadOnly opts) false in
  let run (m : M PageManager unit) f :=
    match m (pm f) with
    | (Ok _, s) => Ok s
    | (Err e, _) => Err e
    | (Panic, _) => Panic
    | (Diverge, _) => Diverge
    end in
  match existing with
  | Some f => run loadExisting f
  | None =>
      if negb (opt_CreateIfNew opts) then Err ErrNotExist
      else if opt_ReadOnly opts then Err (WrapError "failed to open file" ErrNotExist)
      else run (initializeNew initial) []
  end.

End Manager.
