(* ===== verification/PageStore.v ===== *)
(** * The page manager against an abstract page store

    The abstract store is a finite map from page numbers to pages. The page manager
    represents it: allocation returns a page that is not in use, a write changes its
    page and no other, and closing and opening the file again changes nothing. *)

From S2P Require Import Prelude GoBinary Page.

(** ** Codecs *)

Definition page_number (id : Z) : Prop := 0 < id < 2 ^ 64.

Record wf_page (p : Page) : Prop := mkWfPage {
  wf_id : is_uint64 (ph_PageID (Header p));
  wf_items : is_uint16 (ph_ItemCount (Header p));
  wf_space : is_uint16 (ph_FreeSpace (Header p))
}.

(** A page as it is read back. *)
Definition stored (p : Page) : Page :=
  mkPage (with_checksum (Header p) (CalculateChecksum (Data p))) (pad data_size (Data p)).

Lemma CalculateChecksum_range data : is_uint16 (CalculateChecksum data).
Proof.
  unfold is_uint16, CalculateChecksum. change 65535 with (Z.ones 16). rewrite Z.land_ones by lia.
  apply Z.mod_pos_bound. lia.
Qed.

Lemma PageHeader_roundtrip h :
  is_uint64 (ph_PageID h) -> is_uint16 (ph_ItemCount h) -> is_uint16 (ph_FreeSpace h) ->
  is_uint16 (ph_Checksum h) -> PageHeader_Deserialize (PageHeader_Serialize h) = Ok h.
Proof.
  intros H1 H2 H3 H4. unfold PageHeader_Deserialize, PageHeader_Serialize.
  rewrite decide_False by (vm_compute; discriminate).
  rewrite <- (app_nil_r (put16 (ph_Checksum h))). fields. by destruct h.
Qed.

Lemma length_header h : length (PageHeader_Serialize h) = 16%nat.
Proof. done. Qed.

Lemma length_Page_Serialize p : length (Page_Serialize p) = 4096%nat.
Proof. unfold Page_Serialize. rewrite length_app, length_pad, length_header. reflexivity. Qed.

Lemma Page_roundtrip p : wf_page p -> Page_Deserialize (Page_Serialize p) = Ok (stored p).
Proof.
  intros [H1 H2 H3]. unfold Page_Deserialize. rewrite decide_False.
  2:{ unfold len. rewrite length_Page_Serialize. unfold PageSize. lia. }
  unfold Page_Serialize. rewrite take_app_length', drop_app_length' by (by rewrite length_header).
  rewrite PageHeader_roundtrip; [| done..| apply CalculateChecksum_range].
  unfold stored. cbn [mbind outcome_bind]. by rewrite firstn_all2 by (rewrite length_pad; lia).
Qed.

Lemma pad_idemp n l : pad n (pad n l) = pad n l.
Proof. apply pad_id, length_pad. Qed.

Record wf_header (h : FileHeader) : Prop := mkWfHeader {
  wfh_magic : fh_Magic h = Magic;
  wfh_version : fh_Version h = CurrentVersion;
  wfh_size : fh_PageSize h = PageSize;
  wfh_total : is_uint64 (fh_TotalPages h);
  wfh_free : is_uint64 (fh_FreeListHead h);
  wfh_dn : is_uint64 (fh_DNIndex h);
  wfh_data : is_uint64 (fh_DataRoot h);
  wfh_reserved : length (fh_Reserved h) = Z.to_nat FileHeaderReservedSize
}.

Definition checked (h : FileHeader) : FileHeader :=
  mkFileHeader (fh_Magic h) (fh_Version h) (fh_PageSize h) (fh_TotalPages h) (fh_FreeListHead h)
    (fh_DNIndex h) (fh_DataRoot h) (ChecksumIEEE (header_fields h)) (fh_Reserved h).

Lemma length_FileHeader_Serialize h : wf_header h -> length (FileHeader_Serialize h) = 4096%nat.
Proof.
  intros H. unfold FileHeader_Serialize, header_fields. rewrite (wfh_magic _ H), !length_app, length_pad. reflexivity.
Qed.

Lemma FileHeader_roundtrip h :
  wf_header h -> FileHeader_DeserializeAndValidate (FileHeader_Serialize h) = Ok (checked h).
Proof.
  intros Hw. pose proof (length_FileHeader_Serialize h Hw) as Hlen.
  destruct Hw as [Hm Hv Hp Ht Hf Hd Hr Hres]. unfold FileHeader_DeserializeAndValidate.
  assert (FileHeader_Deserialize (FileHeader_Serialize h) = Ok (checked h)) as ->.
  { unfold FileHeader_Deserialize. rewrite decide_False by (unfold len; rewrite Hlen; unfold PageSize; lia).
    assert (is_uint32 (fh_Version h)) by (rewrite Hv; done).
    assert (is_uint32 (fh_PageSize h)) by (rewrite Hp; done).
    pose proof (ChecksumIEEE_range (header_fields h)) as Hc.
    assert (FileHeader_Serialize h = Magic ++ put32 (fh_Version h) ++ put32 (fh_PageSize h)
      ++ put64 (fh_TotalPages h) ++ put64 (fh_FreeListHead h) ++ put64 (fh_DNIndex h) ++ put64 (fh_DataRoot h)
      ++ put32 (ChecksumIEEE (header_fields h)) ++ pad 4048 (fh_Reserved h)) as ->.
    { unfold FileHeader_Serialize at 1. unfold header_fields at 1. by rewrite Hm, <- !(assoc_L (++)). }
    rewrite !(field_skip Magic) by (cbn; lia). cbn [length Magic Nat.sub]. fields.
    unfold checked. rewrite Hm. do 2 f_equal. change 48%nat with (4 + 44)%nat. cbn [drop Magic app Nat.add].
    rewrite !(assoc_L (++)), drop_app_length' by done. unfold pad.
    rewrite (firstn_all2 (n := 4048)) by (rewrite Hres; unfold FileHeaderReservedSize; lia).
    by rewrite take_app_length'. }
  cbn [mbind outcome_bind]. unfold Validate, ValidateMagic, ValidateVersion, bytes_eqb. cbn.
  rewrite Hm, Hv. rewrite bool_decide_true by done. cbn. rewrite decide_True; [done |].
  unfold FileHeader_CalculateChecksum, header_fields, checked. by cbn.
Qed.

(** ** Pages of a file *)

Definition page_at (f : bytes) (id : Z) : outcome Page :=
  Page_Deserialize (ReadAt f (Z.to_nat (id * PageSize)) (Z.to_nat PageSize)).

Definition put_page (f : bytes) (p : Page) : bytes :=
  WriteAt f (Z.to_nat (ph_PageID (Header p) * PageSize)) (Page_Serialize p).

(** The file has [n] pages. *)
Definition pages_of (f : bytes) (n : Z) : Prop := len f = n * PageSize.

Lemma page_inside f n id :
  pages_of f n -> 0 <= id < n -> (Z.to_nat (id * PageSize) + 4096 <= length f)%nat.
Proof. unfold pages_of, len, PageSize. intros. nia. Qed.

Lemma pages_of_put f n p : pages_of f n -> 0 <= ph_PageID (Header p) < n -> pages_of (put_page f p) n.
Proof.
  intros Hf Hid. unfold pages_of, put_page, len. rewrite length_WriteAt; [done |].
  rewrite length_Page_Serialize. by eapply page_inside.
Qed.

Lemma page_at_put f n p :
  pages_of f n -> 0 <= ph_PageID (Header p) < n -> wf_page p ->
  page_at (put_page f p) (ph_PageID (Header p)) = Ok (stored p).
Proof.
  intros Hf Hid Hw. unfold page_at, put_page. rewrite <- Page_roundtrip by done. f_equal.
  replace (Z.to_nat PageSize) with (length (Page_Serialize p)) by apply length_Page_Serialize.
  apply ReadAt_WriteAt. rewrite length_Page_Serialize. by eapply page_inside.
Qed.

Lemma page_at_put_other f n p id :
  pages_of f n -> 0 <= ph_PageID (Header p) < n -> 0 <= id -> id <> ph_PageID (Header p) ->
  page_at (put_page f p) id = page_at f id.
Proof.
  intros Hf Hid H0 Hn. unfold page_at, put_page. f_equal. apply ReadAt_WriteAt_other.
  - rewrite length_Page_Serialize. by eapply page_inside.
  - rewrite length_Page_Serialize. change (Z.to_nat PageSize) with 4096%nat. unfold PageSize.
    destruct (decide (id < ph_PageID (Header p))); [left | right]; lia.
Qed.

(** The pages of a file that grows, and of one whose header changes. *)
Lemma page_at_pad f n m id : pages_of f n -> n <= m -> 0 <= id < n ->
  page_at (pad (Z.to_nat (m * PageSize)) f) id = page_at f id.
Proof.
  intros Hf Hm Hid. pose proof (page_inside _ _ _ Hf Hid) as Hi. unfold page_at. f_equal. unfold ReadAt, pad.
  rewrite (firstn_all2 f) by (unfold pages_of, len, PageSize in *; lia).
  rewrite drop_app_le by lia. rewrite take_app_le; [done |]. rewrite length_drop.
  change (Z.to_nat PageSize) with 4096%nat. lia.
Qed.

Lemma page_at_header f n h id : pages_of f n -> wf_header h -> 0 < id -> 1 <= n ->
  page_at (WriteAt f 0 (FileHeader_Serialize h)) id = page_at f id.
Proof.
  intros Hf Hh Hid Hn. unfold page_at. f_equal.
  apply ReadAt_WriteAt_other; rewrite length_FileHeader_Serialize by done.
  - unfold pages_of, len, PageSize in *. lia.
  - right. unfold PageSize. lia.
Qed.

Section Manager.
Context (disk_limit : Z) (Hlimit : disk_limit < 2 ^ 62).

Record Shape (pm : PageManager) : Prop := mkShape {
  sh_size : pageSize pm = PageSize;
  sh_pages : pages_of (file pm) (totalPages pm);
  sh_total : 1 <= totalPages pm;
  sh_limit : totalPages pm * PageSize <= disk_limit;
  sh_header : wf_header (header pm)
}.

Definition with_file (pm : PageManager) (f : bytes) : PageManager :=
  mkPageManager f (header pm) (pageSize pm) (totalPages pm) (freeList pm) (readOnly pm) (closed pm).

Lemma page_offset pm id :
  Shape pm -> 0 <= id <= totalPages pm -> int64 (id * pageSize pm) = id * PageSize.
Proof.
  intros [Hs _ _ Hl _] Hid. rewrite Hs. apply int64_id. unfold is_int64, PageSize in *. nia.
Qed.

Lemma read_run pm id p :
  Shape pm -> 0 < id < totalPages pm -> page_at (file pm) id = Ok p ->
  readPageInternal id pm = (Ok p, pm).
Proof.
  intros Hs Hid Hp. unfold readPageInternal. rewrite decide_False by lia.
  erewrite bind_ok by reflexivity. rewrite decide_False by lia. do 2 erewrite bind_ok by reflexivity.
  rewrite page_offset by (done || lia). unfold page_at in Hp. rewrite (sh_size _ Hs).
  rewrite decide_False, Hp; [done |]. unfold len. rewrite length_ReadAt; [unfold PageSize; lia |].
  apply (page_inside _ _ id (sh_pages _ Hs)). lia.
Qed.

Lemma page_write_run pm p :
  Shape pm -> 0 < ph_PageID (Header p) < totalPages pm ->
  writePageInternal p pm = (Ok tt, with_file pm (put_page (file pm) p)).
Proof.
  intros Hs Hid. unfold writePageInternal. rewrite decide_False by lia.
  erewrite bind_ok by reflexivity. rewrite decide_False by lia. do 2 erewrite bind_ok by reflexivity.
  rewrite page_offset by (done || lia). done.
Qed.

(** A page number out of range, or 0: an error and no change. *)
Lemma write_run_bad pm p :
  ~ (0 < ph_PageID (Header p) < totalPages pm) -> 0 <= ph_PageID (Header p) ->
  exists e, writePageInternal p pm = (Err e, pm).
Proof.
  intros Hid H0. unfold writePageInternal. case_decide; [by eexists |].
  erewrite bind_ok by reflexivity. rewrite decide_True by lia. by eexists.
Qed.

Lemma read_returns pm id : exists r, readPageInternal id pm = (r, pm) /\ returns r.
Proof.
  unfold readPageInternal. case_decide; [by eexists |]. erewrite bind_ok by reflexivity.
  case_decide; [by eexists |]. do 2 erewrite bind_ok by reflexivity. case_decide; [by eexists |].
  unfold Page_Deserialize. case_decide; [by eexists |]. unfold PageHeader_Deserialize. case_decide; by eexists.
Qed.

(** ** The representation *)

Record Rep (pm : PageManager) (A : gmap Z Page) : Prop := mkRep {
  rep_shape : Shape pm;
  rep_open : closed pm = false;
  rep_rw : readOnly pm = false;
  rep_nodup : NoDup (freePages (freeList pm));
  rep_free : forall id, id ∈ freePages (freeList pm) -> 0 < id < totalPages pm /\ A !! id = None;
  rep_pages : forall id p, A !! id = Some p -> 0 < id < totalPages pm /\ page_at (file pm) id = Ok p;
  rep_ids : forall id p, A !! id = Some p -> ph_PageID (Header p) = id
}.

Lemma Shape_file pm f : Shape pm -> pages_of f (totalPages pm) -> Shape (with_file pm f).
Proof. intros [] ?. by constructor. Qed.

(** Writing a page. *)
Lemma Rep_put pm A p :
  Rep pm A -> wf_page p -> 0 < ph_PageID (Header p) < totalPages pm ->
  ph_PageID (Header p) ∉ freePages (freeList pm) ->
  Rep (with_file pm (put_page (file pm) p)) (<[ph_PageID (Header p) := stored p]> A).
Proof.
  intros [Hs Ho Hr Hn Hf Hp Hids] Hw Hid Hfree. constructor; cbn; try done.
  - apply Shape_file; [done |]. apply pages_of_put; [apply sh_pages, Hs | lia].
  - intros id Hin. destruct (Hf id Hin). split; [done |]. rewrite lookup_insert_ne; [done |]. congruence.
  - intros id q [[<- <-]|[Hne E]]%lookup_insert_Some.
    + split; [done |]. eapply page_at_put; [apply sh_pages, Hs | lia | done].
    + destruct (Hp id q E). split; [done |]. erewrite page_at_put_other; [done | apply sh_pages, Hs | lia..| done].
  - intros id q [[<- <-]|[_ E]]%lookup_insert_Some; [done | by apply Hids].
Qed.

(** Writing a page that is not of the store. *)
Lemma Rep_put_outside pm A p :
  Rep pm A -> 0 < ph_PageID (Header p) < totalPages pm -> A !! ph_PageID (Header p) = None ->
  Rep (with_file pm (put_page (file pm) p)) A.
Proof.
  intros [Hs Ho Hr Hn Hf Hp Hids] Hid Ha. constructor; cbn; try done.
  - apply Shape_file; [done |]. apply pages_of_put; [apply sh_pages, Hs | lia].
  - intros id q E. destruct (Hp id q E). split; [done |].
    erewrite page_at_put_other; [done | apply sh_pages, Hs | lia..|]. congruence.
Qed.

Definition with_fl (pm : PageManager) (fl : FreeList) : PageManager :=
  mkPageManager (file pm) (header pm) (pageSize pm) (totalPages pm) fl (readOnly pm) (closed pm).

Lemma Rep_fl pm A fl :
  Rep pm A -> NoDup (freePages fl) ->
  (forall id, id ∈ freePages fl -> 0 < id < totalPages pm /\ A !! id = None) -> Rep (with_fl pm fl) A.
Proof.
  intros [[Hz Hg Ht Hm Hh] Ho Hr Hn Hf Hp Hids] Hnd Hfree. constructor; [by constructor | done..].
Qed.

Lemma Pop_spec fl id fl' : Pop fl = (Some id, fl') -> freePages fl = freePages fl' ++ [id].
Proof.
  unfold Pop. destruct (last (freePages fl)) as [x|] eqn:E; [| done]. intros [= -> <-].
  apply last_Some in E as [l' E]. cbn. by rewrite E, removelast_last.
Qed.

Lemma push_range_pages lo hi fl : freePages (push_range lo hi fl) = freePages fl ++ seqZ lo (hi - lo).
Proof.
  unfold push_range. generalize (seqZ lo (hi - lo)). intros l. revert fl.
  induction l as [|x l IH]; intros fl; cbn; [by rewrite app_nil_r |]. rewrite IH. cbn. by rewrite <- (assoc_L (++)).
Qed.

(** The manager after the file grew to [n] pages. *)
Definition grown (pm : PageManager) (n : Z) (fl : FreeList) : PageManager :=
  mkPageManager (pad (Z.to_nat (n * PageSize)) (file pm)) (with_total n (header pm)) (pageSize pm) n fl
    (readOnly pm) (closed pm).

Lemma wf_with_total h n : wf_header h -> is_uint64 n -> wf_header (with_total n h).
Proof. intros []. by constructor. Qed.

Lemma Shape_grown pm n fl :
  Shape pm -> totalPages pm <= n -> n * PageSize <= disk_limit -> Shape (grown pm n fl).
Proof.
  intros [Hz Hg Ht Hm Hh] Hn Hl. constructor; cbn; [done | | lia | done |].
  - unfold pages_of, len, PageSize in *. rewrite length_pad. lia.
  - apply wf_with_total; [done |]. unfold is_uint64, PageSize in *. lia.
Qed.

Lemma Rep_grown pm A n fl :
  Rep pm A -> totalPages pm <= n -> n * PageSize <= disk_limit -> NoDup (freePages fl) ->
  (forall id, id ∈ freePages fl -> 0 < id < n /\ A !! id = None) -> Rep (grown pm n fl) A.
Proof.
  intros [Hs Ho Hr Hn Hf Hp Hids] Hle Hl Hnd Hfree. constructor; cbn; [by apply Shape_grown | done..| | done].
  intros id p Hid. destruct (Hp id p Hid) as [Hr0 Hpage]. split; [lia |]. rewrite <- Hpage.
  eapply page_at_pad; [apply sh_pages, Hs | done | lia].
Qed.

Lemma Truncate_run n pm :
  Shape pm -> totalPages pm <= n -> n * PageSize <= 2 ^ 63 - 1 ->
  Truncate disk_limit (int64 (n * pageSize pm)) pm =
  if decide (n * PageSize <= disk_limit) then (Ok tt, with_file pm (pad (Z.to_nat (n * PageSize)) (file pm)))
  else (Err ErrNoSpace, pm).
Proof.
  intros [Hz Hg Ht Hm Hh] Hle Hb. rewrite Hz, int64_id by (unfold is_int64, PageSize in *; lia). unfold Truncate.
  case_decide; [rewrite decide_True by lia; done |]. by rewrite decide_False by (unfold PageSize in *; lia).
Qed.

Lemma grow_run pm :
  Shape pm ->
  let n := totalPages pm + 8 in
  growFileLocked disk_limit 1 pm =
  if decide (n * PageSize <= disk_limit) then
    (Ok tt, grown pm n (push_range (totalPages pm + 1) n (freeList pm)))
  else (Err (WrapError "failed to grow file" ErrNoSpace), pm).
Proof.
  intros Hs n. pose proof Hs as [Hz Hg Ht Hm Hh]. unfold growFileLocked. rewrite decide_True by done.
  do 2 erewrite bind_ok by reflexivity. change MinGrowthPages with 8. fold n.
  rewrite uint64_id by (unfold is_uint64, PageSize in *; lia).
  pose proof (Truncate_run n pm Hs ltac:(lia) ltac:(unfold PageSize in *; lia)) as Htr.
  rewrite bind_run. unfold wrap_err. rewrite Htr. by case_decide.
Qed.

(** The disk has no room for the pages that a growing file needs. *)
Definition full (pm : PageManager) (extra : Z) : Prop := (totalPages pm + extra) * PageSize > disk_limit.

Lemma wf_NewPage id ty : is_uint64 id -> wf_page (NewPage id ty).
Proof. intros Hid. by constructor. Qed.

Lemma page_id_uint64 pm id : Shape pm -> 0 < id < totalPages pm -> is_uint64 id.
Proof. intros [_ _ _ Hl _] Hid. unfold is_uint64, PageSize in *. lia. Qed.

Lemma alloc_run pm A ty :
  Rep pm A ->
  (exists id pm', AllocatePage disk_limit ty pm = (Ok id, pm') /\ A !! id = None
     /\ Rep pm' (<[id := stored (NewPage id ty)]> A))
  \/ (exists e, AllocatePage disk_limit ty pm = (Err e, pm) /\ full pm 8).
Proof.
  intros Hr. pose proof Hr as [Hs Ho Hrw Hn Hf Hp Hids]. unfold AllocatePage. erewrite bind_ok by reflexivity. rewrite Ho.
  erewrite bind_ok by reflexivity. rewrite Hrw. erewrite bind_ok by reflexivity.
  destruct (Pop (freeList pm)) as [[id|] fl'] eqn:E.
  - left. exists id. apply Pop_spec in E. rewrite E in Hn, Hf.
    apply NoDup_app in Hn as (Hn & Hd & _). destruct (Hf id ltac:(set_solver)) as [Hid Ha].
    assert (Rep (with_fl pm fl') A) as Hr' by (apply Rep_fl; [done | done | intros; apply Hf; set_solver]).
    assert (id ∉ freePages fl') as Hid' by (intros Hin; apply (Hd id Hin); set_solver).
    erewrite bind_ok by reflexivity. erewrite bind_ok; last first.
    { unfold try. rewrite (page_write_run (with_fl pm fl')); [reflexivity | apply Hr' | done]. }
    eexists. split; [reflexivity |]. split; [done |].
    apply (Rep_put _ A (NewPage id ty) Hr'); [| done | done]. apply wf_NewPage. by eapply page_id_uint64.
  - erewrite bind_ok by reflexivity. pose proof (grow_run pm Hs) as Hg. cbv zeta in Hg.
    assert (freePages (freeList pm) = []) as Hnil.
    { unfold Pop in E. destruct (last (freePages (freeList pm))) eqn:El; [done |]. by apply last_None in El. }
    revert Hg. case_decide as Hd; intros Hg; [left | right]; last first.
    { eexists. rewrite bind_run, Hg. split; [reflexivity |]. unfold full. lia. }
    set (fl := push_range (totalPages pm + 1) (totalPages pm + 8) (freeList pm)) in *.
    set (pm1 := grown pm (totalPages pm + 8) fl) in *.
    assert (freePages fl = seqZ (totalPages pm + 1) 7) as Efl.
    { unfold fl. rewrite push_range_pages, Hnil. cbn [app]. f_equal. lia. }
    assert (forall id, totalPages pm <= id -> A !! id = None) as Hnew.
    { intros id Hid. destruct (A !! id) eqn:Ea; [| done]. destruct (Hp _ _ Ea). lia. }
    assert (Rep pm1 A) as Hr1.
    { apply Rep_grown; [done | lia | lia | rewrite Efl; apply NoDup_seqZ |].
      intros id. rewrite Efl, elem_of_seqZ. pose proof (sh_total _ Hs). split; [lia | apply Hnew; lia]. }
    pose proof (sh_total _ Hs) as Ht1.
    exists (totalPages pm). eexists. erewrite bind_ok by exact Hg.
    erewrite bind_ok by (apply page_write_run; [apply Hr1 | cbn; lia]). split; [reflexivity |]. split; [apply Hnew; lia |].
    apply (Rep_put pm1 A (NewPage (totalPages pm) ty) Hr1).
    + apply wf_NewPage, (page_id_uint64 pm1); [apply Hr1 | cbn; lia].
    + cbn. lia.
    + cbn. rewrite Efl, elem_of_seqZ. lia.
Qed.

Lemma Rep_delete pm A id : Rep pm A -> Rep pm (delete id A).
Proof.
  intros [Hs Ho Hr Hn Hf Hp Hids]. constructor; try done.
  - intros i Hi. destruct (Hf i Hi). split; [done |]. apply lookup_delete_None. by right.
  - intros i p [_ E]%lookup_delete_Some. by apply Hp.
  - intros i p [_ E]%lookup_delete_Some. by apply Hids.
Qed.

Lemma free_run pm A id :
  Rep pm A -> 0 <= id ->
  exists r pm', FreePage id pm = (r, pm') /\ returns r /\ Rep pm' (delete id A)
    /\ (is_Some (A !! id) -> r = Ok tt) /\ (id ∈ freePages (freeList pm) -> r = Err ErrPageAlreadyFree).
Proof.
  intros Hr Hid. pose proof Hr as [Hs Ho Hrw Hn Hf Hp Hids]. pose proof (Rep_delete pm A id Hr) as Hr'.
  unfold FreePage. erewrite bind_ok by reflexivity. rewrite Ho. erewrite bind_ok by reflexivity. rewrite Hrw.
  case_decide as H0.
  { do 2 eexists. split_and!; [done | done | done | intros [p Hp0]; apply Hp in Hp0; lia |]. intros Hin%Hf. lia. }
  erewrite bind_ok by reflexivity. case_decide as H1.
  { do 2 eexists. split_and!; [done | done | done | intros [p Hp0]; apply Hp in Hp0; lia |]. intros Hin%Hf. lia. }
  erewrite bind_ok by reflexivity. unfold Contains. case_bool_decide as H2.
  { do 2 eexists. split_and!; [done | done | done | intros [p Hp0]; apply Hf in H2 as [_ H2]; congruence | done]. }
  erewrite bind_ok by (apply page_write_run; [done | cbn; lia]).
  do 2 eexists. split_and!; [reflexivity | done | | done | done].
  apply (Rep_fl (with_file pm _)).
  - apply Rep_put_outside; [done | cbn; lia | apply lookup_delete_eq].
  - cbn. apply NoDup_app. split_and!; [done | set_solver | apply NoDup_singleton].
  - cbn. intros i [Hi|Hi%list_elem_of_singleton]%elem_of_app; [| subst i; split; [lia | apply lookup_delete_eq]].
    destruct (Hf i Hi). split; [done |]. apply lookup_delete_None. by right.
Qed.

Lemma write_op_run pm A p :
  Rep pm A -> wf_page p ->
  exists r pm', WritePage p pm = (r, pm') /\ returns r
    /\ match A !! ph_PageID (Header p) with
       | Some _ => r = Ok tt /\ Rep pm' (<[ph_PageID (Header p) := stored p]> A)
       | None => Rep pm' A
       end.
Proof.
  intros Hr Hw. pose proof Hr as [Hs Ho Hrw Hn Hf Hp Hids]. unfold WritePage. erewrite bind_ok by reflexivity. rewrite Ho.
  erewrite bind_ok by reflexivity. rewrite Hrw.
  destruct (decide (0 < ph_PageID (Header p) < totalPages pm)) as [Hid|Hid].
  - rewrite page_write_run by done. do 2 eexists. split_and!; [reflexivity | done |].
    destruct (A !! ph_PageID (Header p)) eqn:Ea; [| by apply Rep_put_outside].
    split; [done |]. apply Rep_put; try done. intros Hin%Hf. destruct Hin. congruence.
  - destruct (write_run_bad pm p Hid) as [e ->]; [apply Hw |]. do 2 eexists. split_and!; [done | done |].
    destruct (A !! _) eqn:Ea; [apply Hp in Ea as [? _]; lia | done].
Qed.

Lemma read_op_run pm A id :
  Rep pm A -> exists r, ReadPage id pm = (r, pm) /\ returns r /\ forall p, A !! id = Some p -> r = Ok p.
Proof.
  intros [Hs Ho Hrw Hn Hf Hp Hids]. unfold ReadPage. erewrite bind_ok by reflexivity. rewrite Ho.
  destruct (read_returns pm id) as (r & Hr & Hret). exists r. split_and!; [done | done |].
  intros p Ha. destruct (Hp id p Ha) as [Hid Hpage]. rewrite (read_run pm id p) in Hr by done. congruence.
Qed.

(** ** Saving the header *)

Definition with_header (pm : PageManager) (h : FileHeader) : PageManager :=
  mkPageManager (WriteAt (file pm) 0 (FileHeader_Serialize h)) h (pageSize pm) (totalPages pm) (freeList pm)
    (readOnly pm) (closed pm).

Lemma save_header_run pm : saveHeaderLocked pm = (Ok tt, with_header pm (with_total (totalPages pm) (header pm))).
Proof. done. Qed.

Lemma header_inside pm h : Shape pm -> wf_header h -> (0 + length (FileHeader_Serialize h) <= length (file pm))%nat.
Proof.
  intros [_ Hg Ht _ _] Hh. rewrite length_FileHeader_Serialize by done. unfold pages_of, len, PageSize in Hg. lia.
Qed.

Lemma Shape_header pm h : Shape pm -> wf_header h -> Shape (with_header pm h).
Proof.
  intros Hs Hh. pose proof (header_inside pm h Hs Hh). destruct Hs as [Hz Hg Ht Hl _].
  constructor; cbn; try done. unfold pages_of, len in *. by rewrite length_WriteAt.
Qed.

Lemma Rep_header pm A h : Rep pm A -> wf_header h -> Rep (with_header pm h) A.
Proof.
  intros [Hs Ho Hr Hn Hf Hp Hids] Hh. constructor; try done; [by apply Shape_header |].
  intros id p Ha. destruct (Hp id p Ha). split; [done |]. cbn.
  erewrite page_at_header; [done | apply sh_pages, Hs | done | lia | apply Hs].
Qed.

Lemma total_uint64 pm : Shape pm -> is_uint64 (totalPages pm).
Proof. intros [_ _ Ht Hl _]. unfold is_uint64, PageSize in *. lia. Qed.

Lemma sync_run pm A : Rep pm A -> exists pm', Sync pm = (Ok tt, pm') /\ Rep pm' A.
Proof.
  intros Hr. pose proof Hr as [Hs Ho Hrw _ _ _ _]. unfold Sync. erewrite bind_ok by reflexivity. rewrite Ho.
  erewrite bind_ok by reflexivity. rewrite Hrw, save_header_run. eexists. split; [reflexivity |].
  apply Rep_header; [done |]. apply wf_with_total; [apply Hs | by apply total_uint64].
Qed.

(** ** The free list on disk *)

(** The pages of the free list from a page on. *)
Inductive disk_chain (f : bytes) (n : Z) : Z -> list Page -> Prop :=
| dc_nil : disk_chain f n 0 []
| dc_cons id p l :
    0 < id < n -> page_at f id = Ok p -> disk_chain f n (GetNextPageID p) l -> disk_chain f n id (p :: l).

Lemma read_chain_run pm id l fuel :
  Shape pm -> disk_chain (file pm) (totalPages pm) id l -> (length l <= fuel)%nat ->
  read_chain fuel id pm = (Ok l, pm).
Proof.
  intros Hs Hc. revert fuel. induction Hc as [|id p l Hid Hp Hc IH]; intros fuel Hf; [by destruct fuel |].
  destruct fuel as [|fuel]; [simpl in Hf; lia |]. cbn [read_chain]. rewrite decide_False by lia.
  erewrite bind_ok by (by apply read_run). erewrite bind_ok by (apply IH; simpl in Hf; lia). done.
Qed.

Lemma wf_checked h : wf_header h -> wf_header (checked h).
Proof. intros []. by constructor. Qed.

(** What [OpenPageManager] finds in a file. *)
Lemma open_run f h l opts :
  ReadAt f 0 4096 = FileHeader_Serialize h -> wf_header h -> pages_of f (fh_TotalPages h) ->
  1 <= fh_TotalPages h -> fh_TotalPages h * PageSize <= disk_limit ->
  disk_chain f (fh_TotalPages h) (fh_FreeListHead h) l -> (length l <= Z.to_nat (fh_TotalPages h))%nat ->
  OpenPageManager disk_limit (Some f) opts =
  Ok (mkPageManager f (checked h) PageSize (fh_TotalPages h)
        (mkFreeList (fh_FreeListHead h) (uint64 (len (l ≫= page_entries))) (l ≫= page_entries))
        (opt_ReadOnly opts) false).
Proof.
  intros Hf Hh Hg Ht Hl Hc Hlen. unfold OpenPageManager. unfold loadExisting. erewrite bind_ok by reflexivity.
  cbn [file]. change (Z.to_nat PageSize) with 4096%nat. rewrite Hf, decide_False.
  2:{ unfold len. rewrite length_FileHeader_Serialize by done. unfold PageSize. lia. }
  rewrite FileHeader_roundtrip by done. erewrite bind_ok by reflexivity. cbn [file freeList readOnly closed].
  change (fh_PageSize (checked h)) with (fh_PageSize h). change (fh_TotalPages (checked h)) with (fh_TotalPages h).
  rewrite (wfh_size _ Hh). unfold wrap_err, loadFreeList. erewrite bind_ok by reflexivity.
  erewrite bind_ok by reflexivity. cbn [header checked fh_FreeListHead freeList]. case_decide as H0.
  { rewrite H0 in Hc |- *. inversion Hc as [|? ? ? Hbad]; [subst; done | lia]. }
  erewrite bind_ok by reflexivity. erewrite bind_ok by reflexivity. cbn [totalPages].
  erewrite bind_ok by (apply read_chain_run; [by constructor; [.. | apply wf_checked] | done | done]).
  done.
Qed.
End Manager.
