(* ===== verification/PageReopen.v ===== *)
(** * Closing and opening the database file

    [Close] writes the free list to new pages at the end of the file, chained from the
    header; [OpenPageManager] reads it back. *)

From S2P Require Import Prelude GoBinary Page PageStore.

(** ** Free list pages *)

Definition free_ids (ids : list Z) : Prop := Forall (fun id => 0 < id < 2 ^ 64) ids.

Lemma length_put64s ids : length (ids ≫= put64) = (8 * length ids)%nat.
Proof. induction ids as [|x ids IH]; [done |]. cbn [mbind list_bind]. rewrite length_app, IH. cbn. lia. Qed.

Lemma wf_free_list_page id next ids : is_uint64 id -> wf_page (free_list_page id next ids).
Proof. intros Hid. constructor; [done | | done]. cbn. unfold is_uint16, uint16. apply Z.mod_pos_bound. lia. Qed.

Lemma free_list_data id next ids :
  (length ids <= MaxFreeListEntriesPerPage)%nat ->
  exists z, Data (stored (free_list_page id next ids)) = put64 next ++ (ids ≫= put64) ++ z.
Proof.
  intros Hl. cbn [Data stored free_list_page]. rewrite pad_idemp. unfold pad.
  eexists. rewrite (assoc_L (++)). f_equal. apply firstn_all2. rewrite length_app, length_put64s.
  unfold MaxFreeListEntriesPerPage in Hl. change (length (put64 next)) with 8%nat. unfold data_size, PageSize, PageHeaderSize. lia.
Qed.

Lemma next_of_page id next ids :
  is_uint64 next -> (length ids <= MaxFreeListEntriesPerPage)%nat ->
  GetNextPageID (stored (free_list_page id next ids)) = next.
Proof.
  intros Hn Hl. destruct (free_list_data id next ids Hl) as [z E]. unfold GetNextPageID. rewrite E.
  rewrite decide_False by len_lia. by apply field64.
Qed.

Lemma load_entries_run next pre ids z :
  free_ids ids ->
  load_entries (put64 next ++ (pre ≫= put64) ++ (ids ≫= put64) ++ z) (length pre) (length ids) = ids.
Proof.
  intros Hf. revert pre. induction Hf as [|x ids Hx _ IH]; intros pre; [done |].
  cbn [load_entries length mbind list_bind].
  assert (length (put64 next ++ (pre ≫= put64)) = 8 + length pre * 8)%nat as Hlen.
  { rewrite length_app, length_put64s. cbn. lia. }
  rewrite decide_True.
  2:{ rewrite !length_app, !length_put64s. change (length (put64 x)) with 8%nat. change (length (put64 next)) with 8%nat. lia. }
  assert (field (put64 next ++ (pre ≫= put64) ++ (put64 x ++ (ids ≫= put64)) ++ z) (8 + length pre * 8) 8 = x) as ->.
  { rewrite (app_assoc (put64 next)), field_skip, Hlen, Nat.sub_diag by (rewrite Hlen; lia).
    rewrite <- app_assoc. apply field64. unfold is_uint64. lia. }
  rewrite decide_True by lia. cbn [app]. f_equal.
  specialize (IH (pre ++ [x])). rewrite length_app, Nat.add_comm in IH. cbn [length Nat.add] in IH.
  rewrite bind_app in IH. cbn [mbind list_bind] in IH. rewrite app_nil_r, <- !(assoc_L (++)) in IH. exact IH.
Qed.

Lemma entries_of_page id next ids :
  free_ids ids -> (length ids <= MaxFreeListEntriesPerPage)%nat ->
  page_entries (stored (free_list_page id next ids)) = ids.
Proof.
  intros Hf Hl. destruct (free_list_data id next ids Hl) as [z E]. unfold page_entries. rewrite E.
  cbn [Header stored with_checksum ph_ItemCount free_list_page].
  replace (Z.to_nat (uint16 (len ids)) `min` MaxFreeListEntriesPerPage)%nat with (length ids).
  { apply (load_entries_run next [] ids z Hf). }
  unfold uint16, len. unfold MaxFreeListEntriesPerPage in *. rewrite Z.mod_small by lia. lia.
Qed.

(** ** Chunks *)

Definition chunk (ids : list Z) (i : nat) : list Z :=
  take MaxFreeListEntriesPerPage (drop (i * MaxFreeListEntriesPerPage) ids).

Lemma chunk_short ids i : (length (chunk ids i) <= MaxFreeListEntriesPerPage)%nat.
Proof. unfold chunk. rewrite length_take. lia. Qed.

Lemma chunk_ids ids i : free_ids ids -> free_ids (chunk ids i).
Proof. intros H. by apply Forall_take, Forall_drop. Qed.

Lemma chunks_concat ids k m :
  (length ids <= (k + m) * MaxFreeListEntriesPerPage)%nat ->
  (seq k m ≫= chunk ids) = drop (k * MaxFreeListEntriesPerPage) ids.
Proof.
  revert k. induction m as [|m IH]; intros k Hl.
  { symmetry. apply drop_ge. lia. }
  cbn [seq mbind list_bind]. rewrite IH by lia. unfold chunk.
  rewrite <- (take_drop MaxFreeListEntriesPerPage (drop (k * MaxFreeListEntriesPerPage) ids)) at 2.
  rewrite drop_drop. do 2 f_equal. lia.
Qed.

Section Reopen.
Context (disk_limit : Z) (Hlimit : disk_limit < 2 ^ 62).

(** The [i]-th of [n] pages of the free list, when the last one points to [prev]. *)
Definition fl_page (start : Z) (ids : list Z) (n : nat) (prev : Z) (i : nat) : Page :=
  free_list_page (start + Z.of_nat i) (if decide (S i = n) then prev else start + Z.of_nat i + 1) (chunk ids i).

Lemma save_pages_run start ids n prev pm :
  Shape disk_limit pm -> 1 <= start -> start + Z.of_nat n <= totalPages pm ->
  exists f', save_pages start ids (down n) prev pm
             = (Ok (match n with O => prev | S _ => start end), with_file pm f')
    /\ pages_of f' (totalPages pm)
    /\ (forall i, (i < n)%nat -> page_at f' (start + Z.of_nat i) = Ok (stored (fl_page start ids n prev i)))
    /\ (forall id, 0 <= id < start \/ start + Z.of_nat n <= id -> page_at f' id = page_at (file pm) id).
Proof.
  intros Hs H1. revert prev pm Hs. induction n as [|n IH]; intros prev pm Hs Hn.
  { exists (file pm). split_and!; [by destruct pm | apply sh_pages with disk_limit, Hs | lia | done]. }
  cbn [down save_pages]. fold (chunk ids n).
  rewrite uint64_id by (pose proof (total_uint64 disk_limit Hlimit pm Hs); unfold is_uint64 in *; lia).
  set (p := free_list_page (start + Z.of_nat n) prev (chunk ids n)).
  set (pm1 := with_file pm (put_page (file pm) p)).
  assert (0 < ph_PageID (Header p) < totalPages pm) as Hid by (cbn; lia).
  assert (wf_page p) as Hw by (apply wf_free_list_page, (page_id_uint64 disk_limit Hlimit pm); [done | cbn in Hid; lia]).
  pose proof (sh_pages _ _ Hs) as Hg.
  assert (Shape disk_limit pm1) as Hs1 by (apply Shape_file; [done | apply pages_of_put; [done | lia]]).
  destruct (IH (start + Z.of_nat n) pm1 Hs1) as (f' & Hrun & Hg' & Hpg & Hot); [cbn; lia |].
  exists f'. erewrite bind_ok by (by apply (page_write_run disk_limit Hlimit)). split_and!.
  - etrans; [exact Hrun |]. f_equal. destruct n; [by rewrite Z.add_0_r | done].
  - done.
  - intros i Hi. destruct (decide (i = n)) as [->|Hne].
    + rewrite Hot by lia. unfold fl_page. rewrite decide_True by done.
      change (start + Z.of_nat n) with (ph_PageID (Header p)) at 1. apply (page_at_put _ (totalPages pm)); [done | cbn; lia | done].
    + rewrite Hpg by lia. unfold fl_page. rewrite (decide_False (P := S i = S n)) by lia. do 3 f_equal.
      case_decide; lia.
  - intros id Hout. rewrite Hot by lia. eapply page_at_put_other; [done | lia | lia | cbn; lia].
Qed.

(** The chain that was written is the one that is read. *)
Lemma disk_chain_pages f' total start ids n :
  1 <= start -> start + Z.of_nat n <= total -> total < 2 ^ 64 ->
  (forall i, (i < n)%nat -> page_at f' (start + Z.of_nat i) = Ok (stored (fl_page start ids n 0 i))) ->
  forall m k, (k + m = n)%nat ->
    disk_chain f' total (if decide (k = n) then 0 else start + Z.of_nat k)
      ((fun i => stored (fl_page start ids n 0 i)) <$> seq k m).
Proof.
  intros H1 Hn Ht Hp m. induction m as [|m IH]; intros k Hk.
  { rewrite decide_True by lia. constructor. }
  rewrite decide_False by lia. cbn [seq fmap list_fmap]. constructor; [lia | apply Hp; lia |].
  unfold fl_page at 1. rewrite next_of_page; [| case_decide; unfold is_uint64; lia | apply chunk_short].
  specialize (IH (S k) ltac:(lia)).
  replace (start + Z.of_nat k + 1) with (start + Z.of_nat (S k)) by lia. exact IH.
Qed.

Lemma disk_chain_header f n h id l :
  pages_of f n -> 1 <= n -> wf_header h -> disk_chain f n id l ->
  disk_chain (WriteAt f 0 (FileHeader_Serialize h)) n id l.
Proof.
  intros Hf Hn Hh. induction 1 as [|id p l Hid Hp Hc IH]; [constructor |]. constructor; [done | | done].
  by erewrite page_at_header; [| done | done | lia | done].
Qed.

Definition all_pages (pm : PageManager) (A : gmap Z Page) : Prop :=
  forall id p, A !! id = Some p ->
    (0 < id < totalPages pm /\ page_at (file pm) id = Ok p) /\ ph_PageID (Header p) = id.

Definition free_for (pm : PageManager) (A : gmap Z Page) (ids : list Z) : Prop :=
  NoDup ids /\ forall id, id ∈ ids -> 0 < id < totalPages pm /\ A !! id = None.

(** The file after its header is written, opened again. *)
Lemma reopen_run pm A l opts :
  Shape disk_limit pm -> all_pages pm A -> opt_ReadOnly opts = false ->
  disk_chain (file pm) (totalPages pm) (fh_FreeListHead (header pm)) l ->
  (length l <= Z.to_nat (totalPages pm))%nat -> free_for pm A (l ≫= page_entries) ->
  exists pm2, OpenPageManager disk_limit (Some (file (saveHeaderLocked pm).2)) opts = Ok pm2
    /\ Rep disk_limit pm2 A /\ freePages (freeList pm2) = (l ≫= page_entries).
Proof.
  intros Hs Hp Ho Hc Hl [Hnd Hfree]. rewrite save_header_run. cbn [snd].
  set (h := with_total (totalPages pm) (header pm)).
  assert (wf_header h) as Hh by (apply wf_with_total; [apply Hs | by eapply total_uint64]).
  pose proof (Shape_header disk_limit pm h Hs Hh) as [_ Hg' Ht Hm _]. cbn [with_header file totalPages] in *.
  pose proof (sh_pages _ _ Hs) as Hg.
  eexists. split; [| split].
  - apply (open_run disk_limit Hlimit _ h l opts); try done.
    + replace 4096%nat with (length (FileHeader_Serialize h)) by (by rewrite length_FileHeader_Serialize).
      by apply ReadAt_WriteAt, (header_inside disk_limit pm).
    + by apply disk_chain_header.
  - constructor; cbn [totalPages freeList freePages file readOnly closed]; try done.
    + by constructor; [.. | apply wf_checked].
    + intros id p Ha. destruct (Hp id p Ha) as [[Hid Hpage] _]. split; [done |].
      by erewrite page_at_header; [| done | done | lia | done].
    + intros id p Ha. by destruct (Hp id p Ha).
  - done.
Qed.

Definition needed (ids : list Z) : nat :=
  ((length ids + MaxFreeListEntriesPerPage - 1) / MaxFreeListEntriesPerPage)%nat.

Lemma needed_enough ids : (length ids <= needed ids * MaxFreeListEntriesPerPage)%nat.
Proof.
  unfold needed, MaxFreeListEntriesPerPage.
  pose proof (Nat.div_mod_eq (length ids + 509 - 1) 509). pose proof (Nat.mod_upper_bound (length ids + 509 - 1) 509). lia.
Qed.

Lemma needed_few ids : (needed ids <= length ids)%nat.
Proof.
  unfold needed, MaxFreeListEntriesPerPage. destruct ids as [|x ids]; [done |].
  apply Nat.lt_succ_r, Nat.Div0.div_lt_upper_bound. simpl length. lia.
Qed.

Definition closing (pm : PageManager) (h : FileHeader) : PageManager :=
  mkPageManager (file pm) h (pageSize pm) (totalPages pm) (freeList pm) (readOnly pm) true.

Lemma wf_with_free h n : wf_header h -> is_uint64 n -> wf_header (with_free n h).
Proof. intros []. by constructor. Qed.

Lemma Close_run pm :
  closed pm = false -> readOnly pm = false ->
  Close disk_limit pm =
  match saveFreeListLocked disk_limit (closing pm (header pm)) with
  | (Ok _, pm') => saveHeaderLocked pm'
  | (Err e, pm') => (Err (WrapError "failed to save free list" e), pm')
  | (Panic, pm') => (Panic, pm')
  | (Diverge, pm') => (Diverge, pm')
  end.
Proof.
  intros Ho Hr. unfold Close. erewrite bind_ok by reflexivity. rewrite Ho. do 2 erewrite bind_ok by reflexivity.
  cbn [readOnly closing]. rewrite Hr. rewrite bind_run. unfold wrap_err, closing. rewrite Hr.
  by destruct (saveFreeListLocked _ _) as [[] ?].
Qed.

(** The state in which [saveFreeListLocked] leaves a manager with free pages. *)
Lemma save_free_run pm ids :
  Shape disk_limit pm -> freePages (freeList pm) = ids -> ids <> [] -> len ids <= totalPages pm ->
  let n := needed ids in
  let total := totalPages pm + Z.of_nat n in
  saveFreeListLocked disk_limit pm = (Err ErrNoSpace, pm) /\ full disk_limit pm (Z.of_nat n)
  \/ exists pm' l, saveFreeListLocked disk_limit pm = (Ok tt, pm') /\ Shape disk_limit pm'
       /\ totalPages pm' = total /\ fh_FreeListHead (header pm') = totalPages pm
       /\ disk_chain (file pm') total (totalPages pm) l
       /\ length l = n /\ (free_ids ids -> (l ≫= page_entries) = ids)
       /\ forall id, 0 <= id < totalPages pm -> page_at (file pm') id = page_at (file pm) id.
Proof.
  intros Hs Eids Hne Hlen n total. pose proof Hs as [Hz Hg Ht Hm Hh].
  assert (1 <= n)%nat as Hn.
  { pose proof (needed_enough ids) as H. fold n in H. destruct n; [| lia]. destruct ids; [done | simpl in H; lia]. }
  pose proof (needed_few ids) as Hfew. fold n in Hfew. unfold len in Hlen.
  unfold saveFreeListLocked. erewrite bind_ok by reflexivity. rewrite Eids.
  destruct ids as [|x ids']; [done |]. set (ids := x :: ids') in *.
  do 2 erewrite bind_ok by reflexivity. fold (needed ids). fold n.
  rewrite uint64_id by (unfold is_uint64, PageSize in *; lia). fold total.
  pose proof (Truncate_run disk_limit total pm Hs ltac:(unfold total; lia) ltac:(unfold total, PageSize in *; lia)) as Htr.
  revert Htr. case_decide as Hd; intros Htr; [right | left]; last first.
  { rewrite bind_run, Htr. split; [done |]. unfold full, total in *. lia. }
  erewrite bind_ok by exact Htr. do 2 erewrite bind_ok by reflexivity.
  set (pm1 := grown pm total (freeList pm)).
  assert (Shape disk_limit pm1) as Hs1 by (apply Shape_grown; [done | done | lia | done]).
  destruct (save_pages_run (totalPages pm) ids n 0 pm1 Hs1 Ht ltac:(unfold pm1, total; cbn; lia))
    as (f' & Hrun & Hg' & Hpg & Hot).
  erewrite bind_ok by exact Hrun. do 2 eexists. split; [reflexivity |].
  cbn [file header totalPages pm1 grown with_file] in *.
  replace (match n with O => 0 | S _ => totalPages pm end) with (totalPages pm) by (by destruct n; [lia |]).
  split_and!; [| done | done | | | |].
  - constructor; cbn; [done | done | lia | done |]. apply wf_with_free; [apply Hs1 | by eapply total_uint64].
  - pose proof (disk_chain_pages f' total (totalPages pm) ids n Ht ltac:(lia) ltac:(unfold PageSize in *; lia) Hpg n 0 eq_refl) as Hc.
    rewrite decide_False, Z.add_0_r in Hc by lia. exact Hc.
  - by rewrite length_fmap, length_seq.
  - intros Hf. etrans; [| apply (chunks_concat ids 0 n), needed_enough].
    rewrite list_fmap_bind. apply list_bind_ext; [| done]. intros i.
    apply entries_of_page; [by apply chunk_ids | apply chunk_short].
  - intros id Hid. rewrite Hot by lia. eapply page_at_pad; [done | lia | done].
Qed.

Lemma free_len pm A ids : free_for pm A ids -> 1 <= totalPages pm -> len ids <= totalPages pm.
Proof.
  intros [Hnd Hf] Ht. assert (ids ⊆+ seqZ 0 (totalPages pm)) as H%submseteq_length.
  { apply NoDup_submseteq; [done |]. intros id [Hid _]%Hf. apply elem_of_seqZ. lia. }
  rewrite length_seqZ in H. unfold len. lia.
Qed.

(** Closing and opening again gives the same store, unless the disk is full. *)
Lemma close_reopen pm A opts :
  Rep disk_limit pm A -> opt_ReadOnly opts = false ->
  (exists e pm', Close disk_limit pm = (Err e, pm') /\ closed pm' = true
     /\ full disk_limit pm (Z.of_nat (needed (freePages (freeList pm)))))
  \/ exists pm' pm2, Close disk_limit pm = (Ok tt, pm')
       /\ OpenPageManager disk_limit (Some (file pm')) opts = Ok pm2
       /\ Rep disk_limit pm2 A /\ freePages (freeList pm2) = freePages (freeList pm).
Proof.
  intros Hr Ho. pose proof Hr as [Hs Hop Hrw Hnd Hf Hp Hpid]. rewrite Close_run by done.
  set (pm0 := closing pm (header pm)).
  assert (Shape disk_limit pm0) as Hs0 by (destruct Hs; by constructor).
  destruct (freePages (freeList pm)) as [|x ids'] eqn:E.
  - right. unfold saveFreeListLocked. erewrite bind_ok by reflexivity. cbn [freeList pm0 closing]. rewrite E.
    set (pm1 := closing pm (with_free 0 (header pm))).
    assert (Shape disk_limit pm1) as Hs1 by (destruct Hs; constructor; [done..| by apply wf_with_free]).
    destruct (reopen_run pm1 A [] opts Hs1 (fun id p Ha => conj (Hp id p Ha) (Hpid id p Ha)) Ho) as (pm2 & Hopen & Hr2 & Hfree); [constructor | simpl; lia | |].
    { split; [constructor | set_solver]. }
    exists (saveHeaderLocked pm1).2, pm2. by split_and!.
  - set (ids := x :: ids') in *. assert (free_for pm A ids) as Hfor by done.
    pose proof (free_len pm A ids Hfor (sh_total _ _ Hs)) as Hlen.
    destruct (save_free_run pm0 ids Hs0 E ltac:(done) Hlen) as [[Hrun Hfull]|(pm1 & l & Hrun & Hs1 & Ht & Hh & Hc & Hl & Hids & Hot)];
      rewrite Hrun; [left; by do 2 eexists | right].
    assert (free_ids ids) as Hfi.
    { apply Forall_forall. intros id [Hid _]%Hf. pose proof (page_id_uint64 disk_limit Hlimit pm id Hs Hid). unfold is_uint64 in *. lia. }
    specialize (Hids Hfi). pose proof (sh_total _ _ Hs) as Ht1. cbn [pm0 closing totalPages file] in *.
    destruct (reopen_run pm1 A l opts Hs1) as (pm2 & Hopen & Hr2 & Hfree); try done.
    + intros id p Ha. destruct (Hp id p Ha) as [Hid Hpage]. rewrite Ht, Hot by lia.
      split_and!; [lia | lia | done | by apply Hpid].
    + by rewrite Ht, Hh.
    + rewrite Ht, Hl. pose proof (needed_few ids). unfold len in Hlen. lia.
    + rewrite Hids. split; [done |]. intros id Hin. destruct (Hf id Hin). rewrite Ht. split; [lia | done].
    + exists (saveHeaderLocked pm1).2, pm2. rewrite <- Hids. by split_and!.
Qed.
End Reopen.
