(* ===== verification/PageTheorems.v ===== *)
(** * Theorems about the page manager *)

From S2P Require Import Prelude GoBinary Page PageStore PageReopen.

Inductive page_op :=
| PAllocate (ty : byte)
| PFree (id : Z)
| PRead (id : Z)
| PWrite (p : Page)
| PSync
| PRestart (opts : Options).

Inductive page_result :=
| RNone
| RId (id : Z)
| RPage (p : Page).

(** Page numbers are unsigned, pages have fields in range, and the file is opened again
    for writing. *)
Definition wf_op (o : page_op) : Prop :=
  match o with
  | PFree id | PRead id => 0 <= id
  | PWrite p => wf_page p
  | PRestart opts => opt_ReadOnly opts = false
  | _ => True
  end.

Section Manager.
Context (disk_limit : Z).

Definition to_result {A} (f : A -> page_result) (r : outcome A * PageManager) : outcome page_result * PageManager :=
  (match r.1 with Ok a => Ok (f a) | Err e => Err e | Panic => Panic | Diverge => Diverge end, r.2).

(** A restart closes the file and opens it again. *)
Definition reopen (opts : Options) (pm : PageManager) : outcome page_result * PageManager :=
  match Close disk_limit pm with
  | (Ok _, pm') =>
      match OpenPageManager disk_limit (Some (file pm')) opts with
      | Ok pm2 => (Ok RNone, pm2)
      | Err e => (Err e, pm')
      | Panic => (Panic, pm')
      | Diverge => (Diverge, pm')
      end
  | r => to_result (fun _ => RNone) r
  end.

Definition exec (o : page_op) (pm : PageManager) : outcome page_result * PageManager :=
  match o with
  | PAllocate ty => to_result RId (AllocatePage disk_limit ty pm)
  | PFree id => to_result (fun _ => RNone) (FreePage id pm)
  | PRead id => to_result RPage (ReadPage id pm)
  | PWrite p => to_result (fun _ => RNone) (WritePage p pm)
  | PSync => to_result (fun _ => RNone) (Sync pm)
  | PRestart opts => reopen opts pm
  end.

(** What the abstract store does, and which results it allows; [None] is a closed file.
    An allocation and a restart fail only when the disk has no room. *)
Inductive pstep (pm : PageManager) : option (gmap Z Page) -> page_op -> outcome page_result -> option (gmap Z Page) -> Prop :=
| ps_allocate A ty id :
    A !! id = None -> pstep pm (Some A) (PAllocate ty) (Ok (RId id)) (Some (<[id := stored (NewPage id ty)]> A))
| ps_allocate_full A ty e :
    full disk_limit pm 8 -> pstep pm (Some A) (PAllocate ty) (Err e) (Some A)
| ps_free A id r :
    (is_Some (A !! id) -> r = Ok RNone) -> pstep pm (Some A) (PFree id) r (Some (delete id A))
| ps_read A id r :
    (forall p, A !! id = Some p -> r = Ok (RPage p)) -> pstep pm (Some A) (PRead id) r (Some A)
| ps_write A p :
    is_Some (A !! ph_PageID (Header p)) ->
    pstep pm (Some A) (PWrite p) (Ok RNone) (Some (<[ph_PageID (Header p) := stored p]> A))
| ps_write_other A p r :
    A !! ph_PageID (Header p) = None -> pstep pm (Some A) (PWrite p) r (Some A)
| ps_sync A : pstep pm (Some A) PSync (Ok RNone) (Some A)
| ps_restart A opts : pstep pm (Some A) (PRestart opts) (Ok RNone) (Some A)
| ps_restart_full A opts e :
    full disk_limit pm (Z.of_nat (needed (freePages (freeList pm)))) ->
    pstep pm (Some A) (PRestart opts) (Err e) None
| ps_closed o : pstep pm None o (Err ErrFileClosed) None.

(** Every operation of a run returns what the abstract store allows. *)
Fixpoint page_run (pm : PageManager) (A : option (gmap Z Page)) (os : list page_op) : Prop :=
  match os with
  | [] => True
  | o :: os =>
      returns (exec o pm).1 /\ exists A', pstep pm A o (exec o pm).1 A' /\ page_run (exec o pm).2 A' os
  end.

Context (Hlimit : disk_limit < 2 ^ 62).

Definition Rep_or_closed (pm : PageManager) (A : option (gmap Z Page)) : Prop :=
  match A with Some A => Rep disk_limit pm A | None => closed pm = true end.

Lemma exec_closed o pm : closed pm = true -> exec o pm = (Err ErrFileClosed, pm).
Proof.
  intros Hc. destruct o; cbn; unfold to_result, AllocatePage, FreePage, ReadPage, WritePage, Sync, reopen, Close;
    rewrite !bind_run; cbn; by rewrite Hc.
Qed.

Lemma exec_refines o pm A :
  Rep_or_closed pm A -> wf_op o ->
  returns (exec o pm).1 /\ exists A', pstep pm A o (exec o pm).1 A' /\ Rep_or_closed (exec o pm).2 A'.
Proof.
  destruct A as [A|]; cbn [Rep_or_closed]; intros Hr Hw; last first.
  { rewrite (exec_closed o pm Hr). split; [done |]. exists None. split; [constructor | done]. }
  destruct o; cbn [exec wf_op] in *.
  - destruct (alloc_run disk_limit Hlimit pm A ty Hr) as [(id & pm' & -> & Ha & Hr')|(e & -> & Hf)];
      (split; [done |]); eexists; (split; [by constructor | done]).
  - destruct (free_run disk_limit Hlimit pm A id Hr Hw) as (r & pm' & -> & Hret & Hr' & Hok & _).
    split; [by destruct r |]. exists (Some (delete id A)). split; [| done]. constructor.
    intros Hs. by rewrite (Hok Hs).
  - destruct (read_op_run disk_limit Hlimit pm A id Hr) as (r & -> & Hret & Hok).
    split; [by destruct r |]. exists (Some A). split; [| done]. constructor. intros p Hp. by rewrite (Hok p Hp).
  - destruct (write_op_run disk_limit Hlimit pm A p Hr Hw) as (r & pm' & -> & Hret & Hok).
    split; [by destruct r |]. destruct (A !! ph_PageID (Header p)) as [q|] eqn:E.
    + destruct Hok as [-> Hr']. eexists. split; [by constructor | done].
    + exists (Some A). split; [by apply ps_write_other | done].
  - destruct (sync_run disk_limit Hlimit pm A Hr) as (pm' & -> & Hr'). split; [done |].
    exists (Some A). split; [constructor | done].
  - unfold reopen. destruct (close_reopen disk_limit Hlimit pm A opts Hr Hw)
      as [(e & pm' & -> & Hc & Hf)|(pm' & pm2 & -> & -> & Hr2 & _)].
    + split; [done |]. exists None. split; [by constructor | done].
    + split; [done |]. exists (Some A). split; [constructor | done].
Qed.

(** A new file: its pages other than the header are free. *)
Lemma init_run opts pm :
  (opt_PageSize opts = 0 \/ opt_PageSize opts = PageSize) -> opt_InitialPages opts <= 2 ^ 40 ->
  OpenPageManager disk_limit None opts = Ok pm -> Rep disk_limit pm ∅.
Proof.
  intros Hz Hini. unfold OpenPageManager. destruct (opt_CreateIfNew opts), (opt_ReadOnly opts) eqn:Hro; cbn [negb]; try done.
  assert ((if decide (opt_PageSize opts = 0) then PageSize else opt_PageSize opts) = PageSize) as ->
    by (case_decide; [done | tauto]).
  assert ((if decide (opt_InitialPages opts = 0) then DefaultInitialPages else opt_InitialPages opts) <= 2 ^ 40) as Hn0
    by (case_decide; [unfold DefaultInitialPages; lia | done]).
  revert Hn0. generalize (if decide (opt_InitialPages opts = 0) then DefaultInitialPages else opt_InitialPages opts).
  intros n0 Hn0. unfold initializeNew. cbv zeta. set (n := if decide (n0 < 1) then 1 else n0).
  assert (1 <= n <= 2 ^ 40) as Hn by (unfold n; case_decide; lia). clearbody n.
  do 6 erewrite bind_ok by reflexivity.
  cbn [file pageSize freeList header totalPages readOnly closed fh_Magic fh_Version fh_PageSize fh_TotalPages
       fh_FreeListHead fh_DNIndex fh_DataRoot fh_Checksum fh_Reserved with_total NewFileHeader].
  set (h := mkFileHeader _ _ _ _ _ _ _ _ _).
  assert (wf_header h) as Hh by (constructor; try done; cbn; unfold is_uint64; lia).
  unfold wrap_err, Truncate. rewrite int64_id by (unfold is_int64, PageSize; lia).
  case_decide as Hd; [| done]. intros [= <-]. constructor; cbn [file totalPages closed readOnly freeList].
  - constructor; cbn [file totalPages pageSize header]; [done | | lia | lia | done].
    unfold pages_of, len. rewrite length_pad. unfold PageSize. lia.
  - done.
  - done.
  - rewrite push_range_pages. apply NoDup_seqZ.
  - intros id. rewrite push_range_pages. cbn [NewFreeList freePages app]. rewrite elem_of_seqZ. split; [lia | done].
  - done.
  - done.
Qed.

Lemma page_run_refines os pm A : Rep_or_closed pm A -> Forall wf_op os -> page_run pm A os.
Proof.
  revert pm A. induction os as [|o os IH]; intros pm A Hr Hw; [done |]. apply Forall_cons in Hw as [Hw Hws].
  destruct (exec_refines o pm A Hr Hw) as (Hret & A' & Hs & Hr'). cbn [page_run]. split; [done |].
  exists A'. split; [done |]. by apply IH.
Qed.
End Manager.

(** C15: the page manager implements a page store over any sequence of operations, closing
    and opening the file included: every operation returns, an allocation gives a page
    that is not in use, a page reads as it was last written, a write changes no other
    page, a page in use can be freed once, and a restart changes nothing; only a full
    disk makes an allocation or a restart fail. *)
Theorem page_manager_refines disk_limit opts pm os :
  disk_limit < 2 ^ 62 -> (opt_PageSize opts = 0 \/ opt_PageSize opts = PageSize) -> opt_InitialPages opts <= 2 ^ 40 ->
  OpenPageManager disk_limit None opts = Ok pm -> Forall wf_op os ->
  page_run disk_limit pm (Some ∅) os.
Proof.
  intros Hl Hz Hi Ho Hw. apply page_run_refines; [done | | done]. by apply (init_run disk_limit opts).
Qed.

(** pages and the file header survive serialization: a page is read back with its
    header, its checksum and its data, and passes validation when its data has the full
    size; a header is accepted and read back with the checksum of its fields. *)
Theorem page_codec_roundtrip p h :
  wf_page p -> length (Data p) = data_size -> wf_header h ->
  Page_DeserializeAndValidate (Page_Serialize p)
    = Ok (mkPage (with_checksum (Header p) (CalculateChecksum (Data p))) (Data p))
  /\ FileHeader_DeserializeAndValidate (FileHeader_Serialize h) = Ok (checked h).
Proof.
  intros Hp Hd Hh. split; [| by apply FileHeader_roundtrip]. unfold Page_DeserializeAndValidate.
  rewrite Page_roundtrip by done. cbn [mbind outcome_bind]. unfold stored, ValidateChecksum.
  rewrite pad_id by done. cbn [Header Data ph_Checksum with_checksum]. by rewrite bool_decide_true.
Qed.

(** ** Concrete runs *)

Module RunExample.
Definition opts : Options := mkOptions 0 2 true false.
Definition limit : Z := 2 ^ 40.
Definition page : Page := mkPage (Header (NewPage 1 PageTypeData)) (str "data").
Definition ops : list page_op :=
  [PAllocate PageTypeData; PAllocate PageTypeData; PWrite page; PFree 2; PRestart opts; PRead 1; PFree 2; PSync].

Fixpoint results (os : list page_op) (pm : PageManager) : list (outcome page_result) :=
  match os with [] => [] | o :: os => (exec limit o pm).1 :: results os (exec limit o pm).2 end.

(** The results without the contents of the pages. *)
Definition outline (r : outcome page_result) : outcome Z :=
  match r with
  | Ok RNone => Ok 0 | Ok (RId id) => Ok id | Ok (RPage p) => Ok (bZ (nth 3 (Data p) x00))
  | Err e => Err e | Panic => Panic | Diverge => Diverge
  end.
End RunExample.

Lemma page_manager_refines_witness :
  exists pm, OpenPageManager RunExample.limit None RunExample.opts = Ok pm
    /\ RunExample.outline <$> RunExample.results RunExample.ops pm = [Ok 1; Ok 2; Ok 0; Ok 0; Ok 0; Ok 97; Err ErrPageAlreadyFree; Ok 0]
    /\ page_run RunExample.limit pm (Some ∅) RunExample.ops.
Proof.
  set (r := OpenPageManager RunExample.limit None RunExample.opts).
  assert (match r with
          | Ok pm => RunExample.outline <$> RunExample.results RunExample.ops pm
          | _ => []
          end = [Ok 1; Ok 2; Ok 0; Ok 0; Ok 0; Ok 97; Err ErrPageAlreadyFree; Ok 0]) as E
    by (vm_compute; reflexivity).
  destruct r as [pm| | |] eqn:Er; [| discriminate E..]. exists pm. split; [reflexivity |]. split; [exact E |].
  apply (page_manager_refines RunExample.limit RunExample.opts pm RunExample.ops); [done | by left | done | exact Er |].
  repeat constructor; done.
Defined.

Lemma page_codec_roundtrip_witness :
  let p := NewPage 7 PageTypeData in
  Page_DeserializeAndValidate (Page_Serialize p)
    = Ok (mkPage (with_checksum (Header p) (CalculateChecksum (Data p))) (Data p))
  /\ FileHeader_DeserializeAndValidate (FileHeader_Serialize NewFileHeader) = Ok (checked NewFileHeader).
Proof.
  apply page_codec_roundtrip; [by constructor | apply length_zeros | by constructor].
Defined.

(** ** A crash *)

Module CrashExample.
Definition opts : Options := mkOptions 0 4 true false.
Definition limit : Z := 2 ^ 40.

(** Open the file with this contents, then run [m]; the result, and the file. *)
Definition session {A} (contents : option bytes) (m : M PageManager A) : outcome (A * bytes) :=
  match OpenPageManager limit contents opts with
  | Ok pm => match m pm with
             | (Ok a, pm') => Ok (a, file pm')
             | (Err e, _) => Err e | (Panic, _) => Panic | (Diverge, _) => Diverge
             end
  | Err e => Err e | Panic => Panic | Diverge => Diverge
  end.

Definition allocate : M PageManager Z := AllocatePage limit PageTypeData.

(** A first session creates the file and closes it; a second one allocates a page,
    writes a record to it and syncs, and then the process dies; a third one allocates. *)
Definition history : outcome (Z * Z * byte) :=
  r1 ← session None (allocate ;; Close limit);
  r2 ← session (Some r1.2)
         (id ← allocate;
          WritePage (mkPage (Header (NewPage id PageTypeData)) (zeros 10 ++ [x2a])) ;;
          Sync ;; mret id);
  r3 ← session (Some r2.2) (id ← allocate; p ← ReadPage id; mret (id, nth 10 (Data p) x00));
  Ok (r2.1, r3.1.1, r3.1.2).
End CrashExample.

(** after a crash the page manager hands out a page that is in use: the header keeps
    pointing to the free list of the last clean shutdown, so the page that the session
    before the crash allocated, wrote and synced is allocated again, and its contents
    are overwritten. *)
Theorem crash_reallocates_page :
  CrashExample.history = Ok (2, 2, x00).
Proof. vm_compute. reflexivity. Qed.
