(* ===== verification/Wal.v ===== *)
(** * The write-ahead log (src/internal/storage/wal_record.go, wal.go)

    The log file is its bytes, and the position of the file is always its end. The
    write buffer is kept with its position: a record larger than the buffer leaves the
    position beyond the end, which the next flush slices. Encryption is an interface
    to the crypto package: a key is a pair of functions, the nonce of a call is an
    argument. *)

From S2P Require Import Prelude GoBinary.

(** ** wal_record.go *)

Definition WALRecordHeaderSize : Z := 35.
Definition MaxWALDataSize : Z := 65535.

Definition WALBegin : byte := x00.
Definition WALCommit : byte := x01.
Definition WALAbort : byte := x02.
Definition WALUpdate : byte := x03.
Definition WALCheckpoint : byte := x04.

Definition ErrWALRecordTooSmall : goerror := ErrConst "ErrWALRecordTooSmall".
Definition ErrWALRecordChecksum : goerror := ErrConst "ErrWALRecordChecksum".
Definition ErrWALDataTooLarge : goerror := ErrConst "ErrWALDataTooLarge".

Record WALRecord := mkWALRecord {
  r_LSN : Z;
  r_TxID : Z;
  r_Type : byte;
  r_PageID : Z;
  r_Offset : Z;
  r_OldData : bytes;
  r_NewData : bytes;
  r_Checksum : Z
}.

Definition NewWALRecord (lsn txID : Z) (recordType : byte) : WALRecord :=
  mkWALRecord lsn txID recordType 0 0 [] [] 0.

Definition NewWALUpdateRecord (lsn txID pageID offset : Z) (oldData newData : bytes) : WALRecord :=
  mkWALRecord lsn txID WALUpdate pageID offset oldData newData 0.

Definition set_LSN (r : WALRecord) (lsn : Z) : WALRecord :=
  mkWALRecord lsn (r_TxID r) (r_Type r) (r_PageID r) (r_Offset r) (r_OldData r) (r_NewData r) (r_Checksum r).

Definition set_Checksum (r : WALRecord) (c : Z) : WALRecord :=
  mkWALRecord (r_LSN r) (r_TxID r) (r_Type r) (r_PageID r) (r_Offset r) (r_OldData r) (r_NewData r) c.

Definition Size (r : WALRecord) : Z := WALRecordHeaderSize + len (r_OldData r) + len (r_NewData r).

(** The record with the given checksum field. *)
Definition layout (r : WALRecord) (checksum : bytes) : bytes :=
  put64 (r_LSN r) ++ put64 (r_TxID r) ++ [r_Type r] ++ put64 (r_PageID r) ++ put16 (r_Offset r)
  ++ put16 (uint16 (len (r_OldData r))) ++ put16 (uint16 (len (r_NewData r))) ++ checksum
  ++ r_OldData r ++ r_NewData r.

Definition calculateChecksumFromBuffer (buf : bytes) : Z :=
  ChecksumIEEE (take 31 buf ++ zeros 4 ++ drop 35 buf).

(** The bytes, and the record with its checksum. *)
Definition Serialize (r : WALRecord) : outcome (bytes * WALRecord) :=
  if decide (len (r_OldData r) > MaxWALDataSize \/ len (r_NewData r) > MaxWALDataSize)
  then Err ErrWALDataTooLarge
  else
    let c := calculateChecksumFromBuffer (layout r (zeros 4)) in
    Ok (layout r (put32 c), set_Checksum r c).

Definition Deserialize (buf : bytes) : outcome WALRecord :=
  if decide (len buf < WALRecordHeaderSize) then Err ErrWALRecordTooSmall
  else
    let oldDataLen := field buf 27 2 in
    let newDataLen := field buf 29 2 in
    if decide (len buf < WALRecordHeaderSize + oldDataLen + newDataLen) then Err ErrWALRecordTooSmall
    else
      Ok (mkWALRecord (field buf 0 8) (field buf 8 8) (nth 16 buf x00) (field buf 17 8) (field buf 25 2)
            (take (Z.to_nat oldDataLen) (drop 35 buf))
            (take (Z.to_nat newDataLen) (drop (35 + Z.to_nat oldDataLen) buf))
            (field buf 31 4)).

Definition DeserializeAndValidate (buf : bytes) : outcome WALRecord :=
  r ← Deserialize buf;
  if decide (r_Checksum r = calculateChecksumFromBuffer (take (Z.to_nat (Size r)) buf)) then Ok r
  else Err ErrWALRecordChecksum.

(** ** wal.go *)

Definition WALBufferSize : Z := 64 * 1024.
Definition WALRecordLengthSize : Z := 4.

Definition ErrWALClosed : goerror := ErrConst "ErrWALClosed".
Definition ErrWALInvalidLSN : goerror := ErrConst "ErrWALInvalidLSN".
Definition ErrWALRecordLength : goerror := ErrConst "ErrWALRecordLength".
Definition ErrEOF : goerror := ErrConst "io.EOF".

(** crypto.EncryptionKey: [Encrypt] draws a nonce. *)
Record Cipher := mkCipher {
  Encrypt : bytes -> bytes -> outcome bytes;
  Decrypt : bytes -> outcome bytes
}.

Record WAL := mkWAL {
  wfile : bytes;
  currentLSN : Z;
  buffer : bytes;
  bufferPos : Z;
  wclosed : bool;
  lsnIndex : gmap Z Z;
  encryptionKey : option Cipher
}.

Definition encrypt (key : option Cipher) (nonce buf : bytes) : outcome bytes :=
  match key with None => Ok buf | Some k => Encrypt k nonce buf end.
Definition decrypt (key : option Cipher) (buf : bytes) : outcome bytes :=
  match key with None => Ok buf | Some k => Decrypt k buf end.

(** The length prefix and the bytes of the record at an offset; [None] where the loops
    stop. *)
Definition frame_at (f : bytes) (offset : nat) (limit : option Z) : option bytes :=
  let lengthBuf := ReadAt f offset 4 in
  if decide (len lengthBuf < WALRecordLengthSize) then None
  else
    let recordLen := le_value lengthBuf in
    if bool_decide (recordLen = 0) || match limit with Some m => bool_decide (recordLen > m) | None => false end
    then None
    else
      let recordBuf := ReadAt f (offset + 4) (Z.to_nat recordLen) in
      if decide (len recordBuf < recordLen) then None else Some recordBuf.

(** The loop of [recover] and that of [Truncate], which has no limit on the length and
    does not check the checksum. *)
Fixpoint scan (key : option Cipher) (limit : option Z) (parse : bytes -> outcome WALRecord)
    (f : bytes) (fuel : nat) (offset : Z) (index : gmap Z Z) (maxLSN : Z) : outcome (Z * gmap Z Z * Z) :=
  if decide (offset < len f) then
    match frame_at f (Z.to_nat offset) limit with
    | None => Ok (offset, index, maxLSN)
    | Some recordBuf =>
        match decrypt key recordBuf ≫= parse with
        | Ok r =>
            match fuel with
            | O => Diverge
            | S fuel =>
                scan key limit parse f fuel (offset + WALRecordLengthSize + len recordBuf)
                  (<[r_LSN r := offset]> index) (if decide (r_LSN r > maxLSN) then r_LSN r else maxLSN)
            end
        | Err _ => Ok (offset, index, maxLSN)
        | Panic => Panic
        | Diverge => Diverge
        end
    end
  else Ok (offset, index, maxLSN).

Definition OpenWALWithEncryption (f : bytes) (key : option Cipher) : outcome WAL :=
  if decide (len f = 0) then Ok (mkWAL [] 1 (zeros (Z.to_nat WALBufferSize)) 0 false ∅ key)
  else
    r ← scan key (Some WALBufferSize) DeserializeAndValidate f (length f) 0 ∅ 0;
    let '(offset, index, maxLSN) := r in
    Ok (mkWAL (pad (Z.to_nat offset) f) (if decide (index = ∅) then 1 else uint64 (maxLSN + 1))
          (zeros (Z.to_nat WALBufferSize)) 0 false index key).

Definition flushBuffer : M WAL unit := fun w =>
  if decide (bufferPos w = 0) then (Ok tt, w)
  else if decide (bufferPos w > WALBufferSize) then (Panic, w)
  else (Ok tt, mkWAL (wfile w ++ take (Z.to_nat (bufferPos w)) (buffer w)) (currentLSN w) (buffer w) 0
                 (wclosed w) (lsnIndex w) (encryptionKey w)).

(** [copy(w.buffer[pos:], data)]: no more than the buffer holds. *)
Definition copy_at (buf : bytes) (pos : nat) (data : bytes) : bytes :=
  WriteAt buf pos (take (length buf - pos) data).

Definition Append (nonce : bytes) (record : WALRecord) : M WAL Z :=
  c ← gets wclosed;
  if (c : bool) then fail ErrWALClosed
  else
    lsn ← gets currentLSN;
    key ← gets encryptionKey;
    match Serialize (set_LSN record lsn) with
    | Ok (plain, _) =>
        match encrypt key nonce plain with
        | Ok recordBuf =>
            let recordLen := uint32 (len recordBuf) in
            pos ← gets bufferPos;
            (if decide (pos + (WALRecordLengthSize + recordLen) > WALBufferSize) then flushBuffer else mret tt) ;;
            modify (fun w =>
              let p := Z.to_nat (bufferPos w) in
              mkWAL (wfile w) (uint64 (lsn + 1))
                (copy_at (copy_at (buffer w) p (put32 recordLen)) (p + 4) recordBuf)
                (bufferPos w + WALRecordLengthSize + recordLen) (wclosed w)
                (<[lsn := len (wfile w) + bufferPos w]> (lsnIndex w)) (encryptionKey w)) ;;
            mret lsn
        | Err e => fail e
        | Panic => panic
        | Diverge => diverge
        end
    | Err e => fail e
    | Panic => panic
    | Diverge => diverge
    end.

Definition Sync : M WAL unit :=
  c ← gets wclosed; if (c : bool) then fail ErrWALClosed else flushBuffer.

Definition Close : M WAL unit :=
  c ← gets wclosed;
  if (c : bool) then mret tt
  else
    flushBuffer ;;
    modify (fun w => mkWAL (wfile w) (currentLSN w) (buffer w) (bufferPos w) true (lsnIndex w) (encryptionKey w)).

(** The smallest offset of a record after [lsn]. *)
Definition truncate_offset (index : gmap Z Z) (lsn : Z) : option Z :=
  map_fold (fun recordLSN offset acc =>
    if decide (recordLSN > lsn) then
      match acc with None => Some offset | Some o => Some (if decide (offset < o) then offset else o) end
    else acc) None index.

Definition Truncate (lsn : Z) : M WAL unit :=
  c ← gets wclosed;
  if (c : bool) then fail ErrWALClosed
  else
    flushBuffer ;;
    w ← gets (fun w => w);
    match truncate_offset (lsnIndex w) lsn with
    | None =>
        modify (fun w => mkWAL [] (currentLSN w) (buffer w) (bufferPos w) (wclosed w) ∅ (encryptionKey w))
    | Some offset =>
        let f := drop (Z.to_nat offset) (wfile w) in
        match scan (encryptionKey w) None Deserialize f (length f) 0 ∅ 0 with
        | Ok (_, index, _) =>
            modify (fun w => mkWAL f (currentLSN w) (buffer w) (bufferPos w) (wclosed w) index (encryptionKey w))
        | Err e => fail e
        | Panic => panic
        | Diverge => diverge
        end
    end.

(** ** WALIterator *)

Record WALIterator := mkWALIterator { it_currentLSN : Z; it_offset : Z }.

Definition Iterator (startLSN : Z) : M WAL WALIterator :=
  r ← try flushBuffer; mret (mkWALIterator startLSN (-1)).

(** The next LSN from [lsn] on, with its offset. *)
Definition next_lsn (index : gmap Z Z) (lsn : Z) : option (Z * Z) :=
  map_fold (fun l off acc =>
    if decide (l >= lsn) then
      match acc with
      | None => if decide (l = 0) then None else Some (l, off)
      | Some (n, o) => if decide (l < n) then Some (l, off) else Some (n, o)
      end
    else acc) None index.

Definition Next (it : WALIterator) : M WAL (option WALIterator) :=
  index ← gets lsnIndex;
  match index !! it_currentLSN it with
  | Some offset => mret (Some (mkWALIterator (it_currentLSN it) offset))
  | None =>
      match next_lsn index (it_currentLSN it) with
      | None => mret None
      | Some (nextLSN, nextOffset) => mret (Some (mkWALIterator nextLSN nextOffset))
      end
  end.

Definition iter_Record (it : WALIterator) : M WAL (WALRecord * WALIterator) :=
  if decide (it_offset it < 0) then fail ErrWALInvalidLSN
  else
    f ← gets wfile;
    key ← gets encryptionKey;
    let off := Z.to_nat (it_offset it) in
    let lengthBuf := ReadAt f off 4 in
    if decide (len lengthBuf < WALRecordLengthSize) then fail ErrEOF
    else
      let recordLen := le_value lengthBuf in
      if decide (recordLen = 0) then fail ErrWALRecordLength
      else
        let recordBuf := ReadAt f (off + 4) (Z.to_nat recordLen) in
        if decide (len recordBuf < recordLen) then fail ErrEOF
        else match decrypt key recordBuf ≫= DeserializeAndValidate with
             | Ok r => mret (r, mkWALIterator (uint64 (r_LSN r + 1)) (it_offset it))
             | Err e => fail e
             | Panic => panic
             | Diverge => diverge
             end.

(** [iter.Next()] and [iter.Record()], as the loop of [Recovery.analysis] uses them: an
    error ends the loop. *)
Definition next_record (it : WALIterator) : M WAL (option (WALRecord * WALIterator)) :=
  n ← Next it;
  match n with
  | None => mret None
  | Some it =>
      r ← try (iter_Record it);
      match r with inl x => mret (Some x) | inr _ => mret None end
  end.

Fixpoint read_records (fuel : nat) (it : WALIterator) : M WAL (list WALRecord) :=
  x ← next_record it;
  match x with
  | None => mret []
  | Some (record, it) =>
      match fuel with
      | O => diverge
      | S fuel => rs ← read_records fuel it; mret (record :: rs)
      end
  end.
