(* ===== verification/WalLog.v ===== *)
(** * The write-ahead log as a list of records

    The file and the buffer together are the frames of the records appended; scanning
    any prefix of that stream finds the records whose frames are complete. *)

From S2P Require Import Prelude GoBinary Wal.

(** ** Records *)

Record wf_record (r : WALRecord) : Prop := mkWfRecord {
  wr_lsn : is_uint64 (r_LSN r);
  wr_tx : is_uint64 (r_TxID r);
  wr_page : is_uint64 (r_PageID r);
  wr_offset : is_uint16 (r_Offset r);
  wr_old : len (r_OldData r) <= MaxWALDataSize;
  wr_new : len (r_NewData r) <= MaxWALDataSize
}.

Definition record_crc (r : WALRecord) : Z := calculateChecksumFromBuffer (layout r (zeros 4)).

Definition sealed (r : WALRecord) : WALRecord := set_Checksum r (record_crc r).

Lemma Serialize_run r : wf_record r -> Serialize r = Ok (layout r (put32 (record_crc r)), sealed r).
Proof. intros []. unfold Serialize. by rewrite decide_False by lia. Qed.

(** The header of a record before its checksum. *)
Definition prefix (r : WALRecord) : bytes :=
  put64 (r_LSN r) ++ put64 (r_TxID r) ++ [r_Type r] ++ put64 (r_PageID r) ++ put16 (r_Offset r)
  ++ put16 (uint16 (len (r_OldData r))) ++ put16 (uint16 (len (r_NewData r))).

Lemma layout_prefix r c : layout r c = prefix r ++ c ++ r_OldData r ++ r_NewData r.
Proof. unfold layout, prefix. by rewrite <- !app_assoc. Qed.

Lemma length_prefix r : length (prefix r) = 31%nat.
Proof. done. Qed.

Lemma checksum_field r c : length c = 4%nat -> calculateChecksumFromBuffer (layout r c) = record_crc r.
Proof.
  intros Hc. unfold record_crc, calculateChecksumFromBuffer. rewrite !layout_prefix.
  rewrite !take_app_length' by (by rewrite length_prefix).
  rewrite !(app_assoc (prefix r)), !drop_app_length' by (rewrite length_app, length_prefix, ?Hc; done). done.
Qed.

Lemma len_layout r c : length c = 4%nat -> len (layout r c) = Size r.
Proof.
  intros Hc. rewrite layout_prefix. lens. unfold Size, WALRecordHeaderSize.
  unfold len at 1 2. rewrite length_prefix, Hc. lia.
Qed.

Lemma record_roundtrip r :
  wf_record r -> DeserializeAndValidate (layout r (put32 (record_crc r))) = Ok (sealed r).
Proof.
  intros Hw. pose proof Hw as [Hl Ht Hp Ho Hold Hnew]. unfold MaxWALDataSize in *. unfold DeserializeAndValidate.
  pose proof (ChecksumIEEE_range (take 31 (layout r (zeros 4)) ++ zeros 4 ++ drop 35 (layout r (zeros 4)))) as Hc.
  fold (calculateChecksumFromBuffer (layout r (zeros 4))) in Hc. fold (record_crc r) in Hc.
  assert (is_uint16 (uint16 (len (r_OldData r)))) as Ho1 by (unfold is_uint16, uint16; apply Z.mod_pos_bound; lia).
  assert (is_uint16 (uint16 (len (r_NewData r)))) as Hn1 by (unfold is_uint16, uint16; apply Z.mod_pos_bound; lia).
  assert (uint16 (len (r_OldData r)) = len (r_OldData r)) as Eo by (apply Z.mod_small; len_lia).
  assert (uint16 (len (r_NewData r)) = len (r_NewData r)) as En by (apply Z.mod_small; len_lia).
  pose proof (len_layout r (put32 (record_crc r)) eq_refl) as Hlen.
  assert (Deserialize (layout r (put32 (record_crc r))) = Ok (sealed r)) as ->.
  { unfold Deserialize. rewrite Hlen. unfold Size, WALRecordHeaderSize in *. rewrite decide_False by len_lia.
    assert (field (layout r (put32 (record_crc r))) 27 2 = len (r_OldData r)) as ->.
    { unfold layout. fields. done. }
    assert (field (layout r (put32 (record_crc r))) 29 2 = len (r_NewData r)) as ->.
    { unfold layout. fields. done. }
    rewrite decide_False by lia. unfold sealed, set_Checksum. f_equal. f_equal.
    1-4: unfold layout; fields; done.
    - rewrite layout_prefix, (app_assoc (prefix r)), drop_app_length' by done.
      apply take_app_length'. unfold len. lia.
    - rewrite layout_prefix, !app_assoc, drop_app_length'; [apply firstn_all2; unfold len; lia |].
      rewrite !length_app, length_prefix. unfold len. cbn. lia.
    - unfold layout. fields. done. }
  cbn [mbind outcome_bind]. change (Size (sealed r)) with (Size r). rewrite decide_True; [done |].
  rewrite firstn_all2 by (rewrite <- Hlen; unfold len; lia). cbn [sealed set_Checksum r_Checksum].
  by rewrite checksum_field.
Qed.

(** ** Frames *)

Definition frame (b : bytes) : bytes := put32 (len b) ++ b.

(** A log entry: a record and its bytes in the file. *)
Abbreviation entry := (WALRecord * bytes)%type.

Definition good (key : option Cipher) (e : entry) : Prop :=
  (decrypt key e.2 ≫= DeserializeAndValidate) = Ok e.1 /\ 0 < len e.2 <= WALBufferSize - WALRecordLengthSize.

Definition stream (es : list entry) : bytes := es ≫= (fun e => frame e.2).

Lemma len_frame b : len (frame b) = 4 + len b.
Proof. unfold frame. len_lia. Qed.

Lemma stream_app es es' : stream (es ++ es') = stream es ++ stream es'.
Proof. apply bind_app. Qed.

Lemma stream_cons e es : stream (e :: es) = frame e.2 ++ stream es.
Proof. done. Qed.

(** The length prefix and the body of a frame in the file. *)
Lemma read_length p b q : ReadAt (p ++ frame b ++ q) (length p) 4 = put32 (len b).
Proof. unfold ReadAt, frame. rewrite drop_app_length, <- app_assoc. by apply take_app_length'. Qed.

Lemma read_body p b q : ReadAt (p ++ frame b ++ q) (length p + 4) (Z.to_nat (len b)) = b.
Proof.
  unfold ReadAt, frame. rewrite <- app_assoc, app_assoc, drop_app_length' by (rewrite length_app; by cbn).
  apply take_app_length'. unfold len. lia.
Qed.

Lemma prefix_value (b : bytes) : len b < 2 ^ 32 -> le_value (put32 (len b)) = len b.
Proof. intros Hb. unfold put32. rewrite le_value_bytes, Z.mod_small; [done |]. pose proof (len_nonneg b). cbn. lia. Qed.

Lemma frame_at_here p b q limit :
  0 < len b < 2 ^ 32 -> (forall m, limit = Some m -> len b <= m) ->
  frame_at (p ++ frame b ++ q) (length p) limit = Some b.
Proof.
  intros Hb Hm. unfold frame_at. rewrite read_length.
  rewrite decide_False by (rewrite len_put32; unfold WALRecordLengthSize; lia).
  rewrite prefix_value, bool_decide_false by lia. cbn [orb].
  replace (match limit with Some m => bool_decide (len b > m) | None => false end) with false.
  2:{ destruct limit as [m|]; [| done]. rewrite bool_decide_false; [done |]. specialize (Hm m eq_refl). lia. }
  by rewrite read_body, decide_False by lia.
Qed.

(** A frame that is cut short. *)
Lemma frame_at_torn p b n limit :
  0 < len b < 2 ^ 32 -> (n < length (frame b))%nat ->
  frame_at (p ++ take n (frame b)) (length p) limit = None.
Proof.
  intros Hb Hn. unfold frame_at, ReadAt. rewrite drop_app_length.
  destruct (decide (n < 4)%nat) as [H4|H4].
  { rewrite decide_True; [done |]. unfold len, WALRecordLengthSize. rewrite !length_take. lia. }
  replace (take 4 (take n (frame b))) with (put32 (len b))
    by (rewrite take_take, Nat.min_l by lia; unfold frame; by rewrite take_app_length').
  rewrite decide_False by (rewrite len_put32; unfold WALRecordLengthSize; lia).
  unfold put32. rewrite le_value_bytes, Z.mod_small by (cbn; lia).
  destruct (bool_decide _ || _); [done |]. rewrite decide_True; [done |].
  unfold len. rewrite length_take, length_drop, length_app, length_take.
  unfold frame, len in *. rewrite length_app in *. change (length (put32 (Z.of_nat (length b)))) with 4%nat in *. lia.
Qed.

(** ** The log *)

(** Log sequence numbers count from 1. *)
Definition numbered (es : list entry) : Prop :=
  forall i e, es !! i = Some e -> r_LSN e.1 = Z.of_nat i + 1.

Definition offset_of (es : list entry) (i : nat) : Z := len (stream (take i es)).

Definition indexed (index : gmap Z Z) (es : list entry) : Prop :=
  forall l, index !! l = if decide (1 <= l <= len es) then Some (offset_of es (Z.to_nat (l - 1))) else None.

Lemma indexed_empty : indexed ∅ [].
Proof. intros l. rewrite decide_False by len_lia. done. Qed.

Lemma indexed_snoc index es e :
  indexed index es -> indexed (<[len es + 1 := len (stream es)]> index) (es ++ [e]).
Proof.
  intros Hi l. destruct (decide (l = len es + 1)) as [->|Hn].
  - rewrite lookup_insert_eq, decide_True by len_lia. unfold offset_of. do 3 f_equal.
    symmetry. apply take_app_length'. unfold len. lia.
  - rewrite lookup_insert_ne, Hi by done. destruct (decide (1 <= l <= len es)) as [Hl|Hl].
    + rewrite decide_True by len_lia. unfold offset_of. rewrite take_app_le; [done |]. unfold len in Hl. lia.
    + by rewrite decide_False by len_lia.
Qed.

Lemma indexed_nil index es : indexed index es -> (index = ∅ <-> es = []).
Proof.
  intros Hi. split; [intros -> | intros ->].
  - specialize (Hi 1). rewrite lookup_empty in Hi. destruct es; [done |]. rewrite decide_True in Hi by len_lia. done.
  - apply map_empty. intros l. rewrite Hi, decide_False by len_lia. done.
Qed.

(** What a torn write leaves behind the last complete frame. *)
Definition torn (tl : bytes) : Prop :=
  tl = [] \/ exists b n, tl = take n (frame b) /\ (n < length (frame b))%nat /\ 0 < len b < 2 ^ 32.

Lemma good_range key e : good key e -> 0 < len e.2 < 2 ^ 32 /\ len e.2 <= WALBufferSize.
Proof. intros [_ H]. unfold WALBufferSize, WALRecordLengthSize in *. lia. Qed.

Lemma to_nat_len {A} (l : list A) : Z.to_nat (len l) = length l.
Proof. unfold len. lia. Qed.

Lemma scan_torn key p tl fuel index m :
  torn tl ->
  scan key (Some WALBufferSize) DeserializeAndValidate (p ++ tl) fuel (len p) index m = Ok (len p, index, m).
Proof.
  intros Ht. destruct fuel; cbn [scan]; (case_decide as Hd; [| done]);
    (destruct Ht as [->|(b & n & -> & Hn & Hb)]; [rewrite app_nil_r in Hd; lia |]);
    by rewrite to_nat_len, frame_at_torn.
Qed.

Lemma scan_run key es1 es2 tl fuel index :
  Forall (good key) es2 -> numbered (es1 ++ es2) -> indexed index es1 -> torn tl -> (length es2 <= fuel)%nat ->
  exists index', indexed index' (es1 ++ es2)
    /\ scan key (Some WALBufferSize) DeserializeAndValidate (stream es1 ++ stream es2 ++ tl) fuel
         (len (stream es1)) index (len es1)
       = Ok (len (stream (es1 ++ es2)), index', len (es1 ++ es2)).
Proof.
  intros Hg. revert es1 fuel index. induction Hg as [|e es2 Hge _ IH]; intros es1 fuel index Hnum Hi Ht Hf.
  { exists index. rewrite app_nil_r. split; [done |]. by apply scan_torn. }
  destruct fuel as [|fuel]; [simpl in Hf; lia |].
  destruct (good_range key e Hge) as [Hr Hm]. destruct Hge as [Hd _].
  destruct (IH (es1 ++ [e]) fuel (<[len es1 + 1 := len (stream es1)]> index)) as (index' & Hi' & Hs).
  { by rewrite <- app_assoc. } { by apply indexed_snoc. } { done. } { simpl in Hf. lia. }
  exists index'. rewrite <- app_assoc in Hi', Hs. cbn [app] in Hi', Hs. split; [done |]. rewrite <- Hs.
  cbn [scan]. rewrite stream_cons, <- app_assoc.
  rewrite decide_True by (lens; rewrite len_frame; len_lia).
  rewrite to_nat_len, frame_at_here by (try done; intros ? [= <-]; done). rewrite Hd.
  assert (r_LSN e.1 = len es1 + 1) as ->.
  { unfold len. apply Hnum. rewrite lookup_app_r, Nat.sub_diag by lia. done. }
  rewrite decide_True by lia. rewrite stream_app, stream_cons, app_nil_r, <- app_assoc. cbn [stream mbind list_bind] in *.
  f_equal; unfold WALRecordLengthSize; lens; rewrite ?len_frame; lia.
Qed.

(** ** The open log *)

Record Log (key : option Cipher) (w : WAL) (es : list entry) : Prop := mkLog {
  lg_key : encryptionKey w = key;
  lg_open : wclosed w = false;
  lg_buffer : len (buffer w) = WALBufferSize;
  lg_pos : 0 <= bufferPos w <= WALBufferSize;
  lg_stream : wfile w ++ take (Z.to_nat (bufferPos w)) (buffer w) = stream es;
  lg_good : Forall (good key) es;
  lg_numbered : numbered es;
  lg_index : indexed (lsnIndex w) es;
  lg_next : currentLSN w = len es + 1;
  lg_bound : len es + 1 < 2 ^ 64
}.

Lemma length_stream key es : Forall (good key) es -> (length es <= length (stream es))%nat.
Proof.
  induction 1 as [|e es Hg _ IH]; [done |]. rewrite stream_cons, length_app.
  pose proof (len_frame e.2) as Hl. unfold len in Hl. simpl. lia.
Qed.

Lemma open_log key es tl :
  Forall (good key) es -> numbered es -> torn tl -> len es + 1 < 2 ^ 64 ->
  exists w, OpenWALWithEncryption (stream es ++ tl) key = Ok w /\ Log key w es /\ wfile w = stream es /\ bufferPos w = 0.
Proof.
  intros Hg Hnum Ht Hb. unfold OpenWALWithEncryption. pose proof (length_stream key es Hg) as Hle.
  assert (len (zeros (Z.to_nat WALBufferSize)) = WALBufferSize) as Hz by (unfold len; rewrite length_zeros; by apply Z2Nat.id).
  case_decide as He.
  - apply len_zero_nil, app_eq_nil in He as [He ->]. destruct es; [| rewrite He in Hle; simpl in Hle; lia].
    eexists. split_and!; [reflexivity | | reflexivity | reflexivity].
    constructor; cbn [encryptionKey wclosed buffer bufferPos wfile lsnIndex currentLSN];
      [reflexivity | reflexivity | exact Hz | unfold WALBufferSize; lia | reflexivity | done | done
      | apply indexed_empty | reflexivity | done].
  - destruct (scan_run key [] es tl (length (stream es ++ tl)) ∅ Hg Hnum indexed_empty Ht) as (index & Hi & Hs).
    { rewrite length_app. lia. }
    cbn [app stream mbind list_bind] in Hi, Hs. fold (stream es) in Hs. change (len []) with 0 in Hs.
    change (len []) with 0 in Hs. rewrite Hs. cbn [mbind outcome_bind].
    assert (pad (Z.to_nat (len (stream es))) (stream es ++ tl) = stream es) as ->.
    { unfold pad. rewrite to_nat_len, take_app_length, length_app.
      replace (length (stream es) - _)%nat with 0%nat by lia. apply app_nil_r. }
    eexists. split_and!; [reflexivity | | reflexivity | reflexivity].
    constructor; cbn [encryptionKey wclosed buffer bufferPos wfile lsnIndex currentLSN];
      [reflexivity | reflexivity | exact Hz | unfold WALBufferSize; lia | apply app_nil_r | done | done
      | done | | done].
    case_decide as H0; [apply (indexed_nil _ _ Hi) in H0 as ->; done |]. apply uint64_id.
      unfold is_uint64. len_lia.
Qed.

(** The log after a flush. *)
Lemma flush_run key w es :
  Log key w es ->
  exists w', flushBuffer w = (Ok tt, w') /\ Log key w' es /\ wfile w' = stream es /\ bufferPos w' = 0.
Proof.
  intros [Hk Ho Hb Hp Hs Hg Hn Hi Hc Hlt]. unfold flushBuffer. case_decide as H0.
  - exists w. split_and!; [reflexivity | by constructor | | done].
    rewrite H0 in Hs. cbn in Hs. by rewrite app_nil_r in Hs.
  - rewrite decide_False by lia. eexists. split_and!; [reflexivity | | exact Hs | reflexivity].
    constructor; cbn [encryptionKey wclosed buffer bufferPos wfile lsnIndex currentLSN]; try assumption.
    + unfold WALBufferSize. lia.
    + rewrite Hs. apply app_nil_r.
Qed.

Lemma sync_log key w es :
  Log key w es -> exists w', Sync w = (Ok tt, w') /\ Log key w' es /\ wfile w' = stream es.
Proof.
  intros Hl. destruct (flush_run key w es Hl) as (w' & Hrun & Hl' & Hf & _). exists w'. unfold Sync.
  erewrite bind_ok by reflexivity. rewrite (lg_open _ _ _ Hl). by split_and!.
Qed.

Lemma take_copy_at buf pos data :
  (pos + length data <= length buf)%nat -> take (pos + length data) (copy_at buf pos data) = take pos buf ++ data.
Proof.
  intros H. unfold copy_at. rewrite (firstn_all2 data) by lia. rewrite WriteAt_inside by done.
  rewrite app_assoc, take_app_length'; [done |]. rewrite length_app, length_take. lia.
Qed.

Lemma length_copy_at buf pos data : (pos + length data <= length buf)%nat -> length (copy_at buf pos data) = length buf.
Proof. intros H. unfold copy_at. rewrite (firstn_all2 data) by lia. by apply length_WriteAt. Qed.

Lemma put_frame buf pos b :
  (pos + 4 + length b <= length buf)%nat ->
  let buf' := copy_at (copy_at buf pos (put32 (len b))) (pos + 4) b in
  length buf' = length buf /\ take (pos + 4 + length b) buf' = take pos buf ++ frame b.
Proof.
  intros H buf'. unfold buf'. assert (length (put32 (len b)) = 4%nat) as H4 by done.
  assert (length (copy_at buf pos (put32 (len b))) = length buf) as Hl by (apply length_copy_at; lia).
  split; [rewrite length_copy_at; lia |]. rewrite take_copy_at by lia.
  rewrite <- H4 at 1. rewrite take_copy_at by lia. unfold frame. by rewrite app_assoc.
Qed.

Lemma numbered_snoc es e : numbered es -> r_LSN e.1 = len es + 1 -> numbered (es ++ [e]).
Proof. intros Hn He i e' [[_ Hi]|[-> <-]]%lookup_snoc_Some; [by apply Hn | done]. Qed.

(** A key gives back what it encrypted. *)
Definition good_key (key : option Cipher) : Prop :=
  forall k nonce plain b, key = Some k -> Encrypt k nonce plain = Ok b -> Decrypt k b = Ok plain.

Lemma decrypt_encrypt key nonce plain b : good_key key -> encrypt key nonce plain = Ok b -> decrypt key b = Ok plain.
Proof. unfold encrypt, decrypt. destruct key as [k|]; [intros Hk; by apply Hk | congruence]. Qed.

(** The bytes of a record when it is appended as number [lsn]. *)
Definition encoded (key : option Cipher) (nonce : bytes) (r : WALRecord) (lsn : Z) : outcome bytes :=
  let r := set_LSN r lsn in encrypt key nonce (layout r (put32 (record_crc r))).

Definition fits (b : bytes) : Prop := len b <= WALBufferSize - WALRecordLengthSize.

Lemma flush_if_full key w es n :
  Log key w es -> 0 <= n <= WALBufferSize ->
  exists w', (if decide (bufferPos w + n > WALBufferSize) then flushBuffer else mret tt) w = (Ok tt, w')
    /\ Log key w' es /\ bufferPos w' + n <= WALBufferSize.
Proof.
  intros Hl Hn. case_decide as Hd.
  - destruct (flush_run key w es Hl) as (w' & Hrun & Hl' & _ & H0). exists w'. split_and!; [done | done | lia].
  - exists w. split_and!; [done | done | lia].
Qed.

Lemma append_log key w es nonce r b :
  Log key w es -> good_key key -> wf_record (set_LSN r (len es + 1)) ->
  encoded key nonce r (len es + 1) = Ok b -> 0 < len b -> fits b -> len es + 2 < 2 ^ 64 ->
  exists w', Append nonce r w = (Ok (len es + 1), w')
    /\ Log key w' (es ++ [(sealed (set_LSN r (len es + 1)), b)]) /\ exists q, wfile w' = wfile w ++ q.
Proof.
  intros Hl Hk Hw He Hpos Hf Hb. unfold encoded in He. cbv zeta in He. unfold fits in Hf.
  set (r' := set_LSN r (len es + 1)) in *.
  assert (good key (sealed r', b)) as Hgood.
  { split; [| done]. cbn [fst snd]. rewrite (decrypt_encrypt _ _ _ _ Hk He). cbn [mbind outcome_bind]. by apply record_roundtrip. }
  assert (uint32 (len b) = len b) as Eu by (apply Z.mod_small; unfold WALBufferSize, WALRecordLengthSize in Hf; lia).
  unfold Append. erewrite bind_ok by reflexivity. rewrite (lg_open _ _ _ Hl). do 2 erewrite bind_ok by reflexivity.
  rewrite (lg_next _ _ _ Hl), (lg_key _ _ _ Hl). fold r'. rewrite Serialize_run, He by done.
  erewrite bind_ok by reflexivity. cbv zeta. rewrite Eu.
  destruct (flush_if_full key w es (WALRecordLengthSize + len b) Hl) as (w1 & Hrun & Hl1 & Hfit);
    [unfold WALRecordLengthSize, WALBufferSize in *; lia |].
  erewrite bind_ok by exact Hrun. erewrite bind_ok by reflexivity. eexists. split; [reflexivity |].
  destruct Hl1 as [Hk1 Ho1 Hb1 Hp1 Hs1 Hg1 Hn1 Hi1 Hc1 Hlt1]. unfold WALRecordLengthSize, WALBufferSize in *.
  destruct (put_frame (buffer w1) (Z.to_nat (bufferPos w1)) b) as [Hlen Htake]; [unfold len in *; lia |]. split.
  - constructor; cbn [encryptionKey wclosed buffer bufferPos wfile lsnIndex currentLSN]; try assumption.
    + unfold len in *. by rewrite Hlen.
    + unfold WALBufferSize. lia.
    + replace (Z.to_nat (bufferPos w1 + 4 + len b)) with (Z.to_nat (bufferPos w1) + 4 + length b)%nat by (unfold len; lia).
      rewrite Htake, app_assoc, Hs1, stream_app, stream_cons, app_nil_r. done.
    + apply Forall_app. split; [done | by apply Forall_singleton].
    + by apply numbered_snoc.
    + replace (len (wfile w1) + bufferPos w1) with (len (stream es)); [by apply indexed_snoc |].
      rewrite <- Hs1. lens. f_equal. unfold len in *. rewrite length_take. lia.
    + rewrite uint64_id; [len_lia |]. unfold is_uint64. len_lia.
    + lens. lia.
  - cbn [wfile]. revert Hrun. case_decide; [| intros [= ->]; exists []; by rewrite app_nil_r].
    unfold flushBuffer. repeat case_decide; intros [= <-]; [exists []; by rewrite app_nil_r | by eexists].
Qed.

(** ** Reading *)

Lemma next_lsn_none index lsn : (forall l o, index !! l = Some o -> l < lsn) -> next_lsn index lsn = None.
Proof.
  unfold next_lsn. apply (map_fold_weak_ind (fun acc m => (forall l o, m !! l = Some o -> l < lsn) -> acc = None)); [done |].
  intros l o m acc Hm IH Hl. rewrite IH.
  - rewrite decide_False; [done |]. specialize (Hl l o). rewrite lookup_insert_eq in Hl. specialize (Hl eq_refl). lia.
  - intros l' o' E. apply (Hl l' o'). rewrite lookup_insert_ne; [done |]. congruence.
Qed.

Lemma stream_split es i e :
  es !! i = Some e -> stream es = stream (take i es) ++ frame e.2 ++ stream (drop (S i) es).
Proof. intros H. rewrite <- stream_cons, <- stream_app. by rewrite take_drop_middle. Qed.

Lemma iter_Record_run key w es i e :
  Log key w es -> wfile w = stream es -> es !! i = Some e ->
  iter_Record (mkWALIterator (Z.of_nat i + 1) (offset_of es i)) w
  = (Ok (e.1, mkWALIterator (uint64 (Z.of_nat i + 2)) (offset_of es i)), w).
Proof.
  intros Hl Hf He. pose proof (lg_good _ _ _ Hl) as Hg. rewrite Forall_lookup in Hg. specialize (Hg i e He).
  destruct (good_range key e Hg) as [Hr _]. destruct Hg as [Hd _]. unfold iter_Record, offset_of. cbn [it_offset].
  rewrite decide_False by len_lia. do 2 erewrite bind_ok by reflexivity. rewrite (lg_key _ _ _ Hl), Hf, to_nat_len.
  rewrite (stream_split es i e He), read_length.
  rewrite decide_False by (rewrite len_put32; unfold WALRecordLengthSize; lia).
  rewrite prefix_value by lia. rewrite decide_False by lia. rewrite read_body, decide_False, Hd by lia.
  unfold mret, M_ret. do 4 f_equal. rewrite (lg_numbered _ _ _ Hl i e He). f_equal. lia.
Qed.

Lemma Next_run key w es i o :
  Log key w es -> (i <= length es)%nat ->
  Next (mkWALIterator (Z.of_nat i + 1) o) w =
  (Ok (if decide (i < length es)%nat then Some (mkWALIterator (Z.of_nat i + 1) (offset_of es i)) else None), w).
Proof.
  intros Hl Hi. unfold Next. erewrite bind_ok by reflexivity. cbn [it_currentLSN].
  rewrite (lg_index _ _ _ Hl). unfold len. case_decide as H1.
  - rewrite decide_True by lia. by replace (Z.to_nat (Z.of_nat i + 1 - 1)) with i by lia.
  - rewrite decide_False by lia. rewrite next_lsn_none; [done |].
    intros l off E. rewrite (lg_index _ _ _ Hl) in E. unfold len in E. case_decide; [lia | done].
Qed.

Lemma read_records_run key w es i o fuel :
  Log key w es -> wfile w = stream es -> (i <= length es)%nat -> (length es - i <= fuel)%nat ->
  read_records fuel (mkWALIterator (Z.of_nat i + 1) o) w = (Ok (fst <$> drop i es), w).
Proof.
  intros Hl Hf. revert i o. induction fuel as [|fuel IH]; intros i o Hi Hfuel; cbn [read_records].
  - unfold next_record. rewrite drop_ge by lia.
    erewrite bind_ok; [| erewrite bind_ok by (by apply Next_run with (key := key)); by rewrite decide_False by lia].
    done.
  - destruct (es !! i) as [e|] eqn:E.
    + pose proof (lookup_lt_Some _ _ _ E). erewrite bind_ok; last first.
      { unfold next_record. erewrite bind_ok by (by apply Next_run with (key := key)). rewrite decide_True by done.
        erewrite bind_ok by (unfold try; rewrite (iter_Record_run key w es i e) by done; reflexivity). reflexivity. }
      assert (uint64 (Z.of_nat i + 2) = Z.of_nat (S i) + 1) as ->.
      { pose proof (lg_bound _ _ _ Hl). unfold len in *. rewrite uint64_id; [lia |]. unfold is_uint64. lia. }
      erewrite bind_ok by (apply IH; lia). rewrite (drop_S es e i E). done.
    + apply lookup_ge_None in E. rewrite drop_ge by done. erewrite bind_ok; last first.
      { unfold next_record. erewrite bind_ok by (by apply Next_run with (key := key)). by rewrite decide_False by lia. }
      done.
Qed.

(** ** What a crash leaves *)

Lemma offset_of_mono es i j : (i <= j)%nat -> offset_of es i <= offset_of es j.
Proof.
  intros Hij. unfold offset_of. replace (take j es) with (take i es ++ drop i (take j es)).
  - rewrite stream_app. len_lia.
  - rewrite <- (take_drop i (take j es)) at 2. by rewrite take_take, Nat.min_l.
Qed.

(** A prefix of the stream is the frames of some first records and a torn one. *)
Lemma stream_cut key es k :
  Forall (good key) es -> (k <= length (stream es))%nat ->
  exists j tl, take k (stream es) = stream (take j es) ++ tl /\ torn tl /\ (j <= length es)%nat
    /\ forall m, (m <= length es)%nat -> offset_of es m <= Z.of_nat k -> (m <= j)%nat.
Proof.
  intros Hg. revert k. induction Hg as [|e es He _ IH]; intros k Hk.
  { exists 0%nat, []. cbn in Hk. split_and!; [by destruct k | by left | done | intros; simpl in *; lia]. }
  rewrite stream_cons in Hk |- *. rewrite length_app in Hk. destruct (decide (k < length (frame e.2))%nat) as [Hs|Hs].
  - exists 0%nat, (take k (frame e.2)). split_and!; [by rewrite take_app_le by lia | | lia |].
    + right. exists e.2, k. split_and!; [done | done | by apply (good_range key e He)..].
    + intros m Hm Ho. destruct m as [|m]; [done |]. exfalso. unfold offset_of in Ho. cbn [take] in Ho.
      rewrite stream_cons, len_app in Ho. unfold len in Ho at 1. pose proof (len_nonneg (stream (take m es))). lia.
  - destruct (IH (k - length (frame e.2))%nat) as (j & tl & E & Ht & Hj & Hm); [lia |].
    exists (S j), tl. split_and!; [| done | simpl; lia |].
    + rewrite take_app_ge, E by lia. cbn [take]. by rewrite stream_cons, app_assoc.
    + intros m Hlen Ho. destruct m as [|m]; [lia |]. apply le_n_S, Hm; [simpl in Hlen; lia |].
      unfold offset_of in *. cbn [take] in Ho. rewrite stream_cons, len_app in Ho. unfold len in *. lia.
Qed.

Lemma numbered_take es j : numbered es -> numbered (take j es).
Proof. intros Hn i e E. apply Hn. by apply lookup_take_Some in E as [E _]. Qed.

(** Opening what a crash left: the complete records. *)
Lemma crash_log key w es k :
  Log key w es -> (k <= length (stream es))%nat ->
  exists j w', OpenWALWithEncryption (take k (stream es)) key = Ok w' /\ Log key w' (take j es)
    /\ wfile w' = stream (take j es) /\ (j <= length es)%nat
    /\ forall m, (m <= length es)%nat -> offset_of es m <= Z.of_nat k -> (m <= j)%nat.
Proof.
  intros Hl Hk. destruct (stream_cut key es k (lg_good _ _ _ Hl) Hk) as (j & tl & E & Ht & Hj & Hm).
  destruct (open_log key (take j es) tl) as (w' & Ho & Hl' & Hf & _).
  - apply Forall_take, (lg_good _ _ _ Hl).
  - apply numbered_take, (lg_numbered _ _ _ Hl).
  - done.
  - pose proof (lg_bound _ _ _ Hl). unfold len in *. rewrite length_take. lia.
  - exists j, w'. rewrite E. by split_and!.
Qed.
