(* ===== verification/WalTheorems.v ===== *)
(** * Theorems about the write-ahead log *)

From S2P Require Import Prelude GoBinary Wal WalLog.

(** [for iter := wal.Iterator(1); iter.Next(); { iter.Record() ... }]. *)
Definition read_all : M WAL (list WALRecord) :=
  it ← Iterator 1;
  n ← gets (fun w => length (wfile w));
  read_records n it.

Lemma read_all_run key w es :
  Log key w es -> exists w', read_all w = (Ok (fst <$> es), w') /\ Log key w' es /\ wfile w' = stream es.
Proof.
  intros Hl. destruct (flush_run key w es Hl) as (w' & Hrun & Hl' & Hf & _). exists w'. unfold read_all.
  erewrite bind_ok by (unfold Iterator; erewrite bind_ok by (unfold try; rewrite Hrun; reflexivity); reflexivity).
  erewrite bind_ok by reflexivity. rewrite Hf. split_and!; [| done | done].
  rewrite (read_records_run key w' es 0); [done | done | done | lia |].
  pose proof (length_stream key es (lg_good _ _ _ Hl)). lia.
Qed.

(** The runs of a log: records are appended, synced, and lost in crashes. The state has
    the records of the log, how many of them the last [Sync] covered, and what the file
    held then; a crash keeps a prefix of the file that has at least that. *)
Inductive wal_run (key : option Cipher) : WAL -> list entry -> nat -> bytes -> Prop :=
| run_new w : OpenWALWithEncryption [] key = Ok w -> wal_run key w [] 0 []
| run_append w es m d nonce r lsn w' b :
    wal_run key w es m d -> Append nonce r w = (Ok lsn, w') ->
    wf_record (set_LSN r (len es + 1)) -> encoded key nonce r (len es + 1) = Ok b -> 0 < len b -> fits b ->
    len es + 2 < 2 ^ 64 ->
    wal_run key w' (es ++ [(sealed (set_LSN r lsn), b)]) m d
| run_sync w es m d w' :
    wal_run key w es m d -> Sync w = (Ok tt, w') -> wal_run key w' es (length es) (wfile w')
| run_crash w es m d k w' rs w'' :
    wal_run key w es m d -> (length d <= k <= length (wfile w))%nat ->
    OpenWALWithEncryption (take k (wfile w)) key = Ok w' -> read_all w' = (Ok rs, w'') ->
    wal_run key w' (take (length rs) es) (length rs) (wfile w').

(** What holds in every run. *)
Definition run_inv (key : option Cipher) (w : WAL) (es : list entry) (m : nat) (d : bytes) : Prop :=
  Log key w es /\ (m <= length es)%nat /\ d = stream (take m es) /\ exists q, wfile w = d ++ q.

(** The file is a prefix of the stream. *)
Lemma file_prefix key w es : Log key w es -> wfile w = take (length (wfile w)) (stream es).
Proof. intros Hl. rewrite <- (lg_stream _ _ _ Hl). symmetry. by apply take_app_length'. Qed.

Lemma crash_file key w es k :
  Log key w es -> (k <= length (wfile w))%nat ->
  take k (wfile w) = take k (stream es) /\ (k <= length (stream es))%nat.
Proof.
  intros Hl Hk. rewrite <- (lg_stream _ _ _ Hl). split; [by rewrite take_app_le by lia | rewrite length_app; lia].
Qed.

Lemma crash_run key w es m d k :
  run_inv key w es m d -> (length d <= k <= length (wfile w))%nat ->
  exists j w' w'', OpenWALWithEncryption (take k (wfile w)) key = Ok w'
    /\ read_all w' = (Ok (fst <$> take j es), w'') /\ (m <= j <= length es)%nat
    /\ run_inv key w' (take j es) j (wfile w').
Proof.
  intros (Hl & Hm & Hd & q & Hq) Hk. destruct (crash_file key w es k Hl ltac:(lia)) as [-> Hks].
  destruct (crash_log key w es k Hl Hks) as (j & w' & Ho & Hl' & Hf & Hj & Hmin).
  destruct (read_all_run key w' (take j es) Hl') as (w'' & Hr & _).
  exists j, w', w''. split_and!; [done | done | | done |].
  - apply Hmin; [done |]. unfold offset_of. rewrite <- Hd. unfold len. lia.
  - assert (length (take j es) = j) as Ej by (rewrite length_take; lia).
    split_and!; [done | lia | by rewrite take_take, Nat.min_id | exists []; by rewrite app_nil_r].
Qed.

Lemma wal_run_inv key w es m d : good_key key -> wal_run key w es m d -> run_inv key w es m d.
Proof.
  intros Hk. induction 1 as [w Ho|w es m d nonce r lsn w' b _ IH Ha Hw He Hp Hf Hb|w es m d w' _ IH Hs
                            |w es m d k w' rs w'' _ IH Hkk Ho Hr].
  - destruct (open_log key [] []) as (w0 & Ho0 & Hl & Hf & _); [constructor | done | by left | done |].
    cbn in Ho0. rewrite Ho in Ho0. injection Ho0 as <-. split_and!; [done | done | done |]. exists []. by rewrite Hf.
  - destruct IH as (Hl & Hm & Hd & q & Hq).
    destruct (append_log key w es nonce r b Hl Hk Hw He Hp Hf Hb) as (w1 & Hrun & Hl' & q' & Hq').
    rewrite Ha in Hrun. injection Hrun as -> ->.
    split_and!; [done | rewrite length_app; lia | by rewrite take_app_le by lia |].
    exists (q ++ q'). by rewrite Hq', Hq, app_assoc.
  - destruct IH as (Hl & Hm & Hd & q & Hq). destruct (sync_log key w es Hl) as (w1 & Hrun & Hl' & Hf).
    rewrite Hs in Hrun. injection Hrun as <-. split_and!; [done | done | by rewrite firstn_all |].
    exists []. by rewrite app_nil_r.
  - destruct (crash_run key w es m d k IH Hkk) as (j & w1 & w2 & Ho1 & Hr1 & Hj & Hi).
    rewrite Ho in Ho1. injection Ho1 as <-. rewrite Hr in Hr1. injection Hr1 as -> ->.
    assert (length (fst <$> take j es) = j) as -> by (rewrite length_fmap, length_take; lia). exact Hi.
Qed.

(** C14: the write-ahead log is durable for records that fit its buffer. In any run of appends
    of records whose encoding has at most 64 KB less 4 bytes (of a larger one see
    [wal_large_record_panics]), of syncs and of crashes that leave a prefix of the file which
    has what was last synced, reading the log gives the records appended, in order, with
    consecutive sequence numbers; after such a crash the log opens again, and reading it gives a
    prefix of the records that has every record appended before the last sync. A torn record at
    the end is dropped. *)
Theorem wal_durable key w es m d :
  good_key key -> wal_run key w es m d ->
  (exists w', read_all w = (Ok (fst <$> es), w'))
  /\ (forall i e, es !! i = Some e -> r_LSN e.1 = Z.of_nat i + 1)
  /\ forall k, (length d <= k <= length (wfile w))%nat ->
       exists j w' w'', OpenWALWithEncryption (take k (wfile w)) key = Ok w'
         /\ read_all w' = (Ok (fst <$> take j es), w'') /\ (m <= j <= length es)%nat.
Proof.
  intros Hk Hr. pose proof (wal_run_inv key w es m d Hk Hr) as Hi. pose proof Hi as (Hl & _). split_and!.
  - destruct (read_all_run key w es Hl) as (w' & Hrun & _). by exists w'.
  - apply (lg_numbered _ _ _ Hl).
  - intros k Hkk. destruct (crash_run key w es m d k Hi Hkk) as (j & w' & w'' & Ho & Hread & Hj & _).
    by exists j, w', w''.
Qed.

(** a record that does not fit the write buffer of 64 KB makes the log unusable:
    [Append] reports success, and the next [Sync] slices the buffer beyond its end and
    panics; so it is for two images of 33 KB each, which the record format allows. *)
Theorem wal_large_record_panics nonce r w :
  wclosed w = false -> encryptionKey w = None -> bufferPos w = 0 ->
  wf_record (set_LSN r (currentLSN w)) -> Size r > WALBufferSize - WALRecordLengthSize ->
  exists w', Append nonce r w = (Ok (currentLSN w), w') /\ (Sync w').1 = Panic.
Proof.
  intros Ho Hk Hp Hw Hs. unfold Append. erewrite bind_ok by reflexivity. rewrite Ho. do 2 erewrite bind_ok by reflexivity.
  rewrite Hk, Serialize_run by done. cbn [encrypt]. erewrite bind_ok by reflexivity. cbv zeta. rewrite Hp.
  rewrite len_layout by done. change (Size (set_LSN r (currentLSN w))) with (Size r).
  assert (uint32 (Size r) = Size r) as ->.
  { apply Z.mod_small. destruct Hw as [_ _ _ _ Hold Hnew]. cbn in Hold, Hnew.
    unfold Size, MaxWALDataSize, WALRecordHeaderSize in *. len_lia. }
  rewrite decide_True by lia. erewrite bind_ok by (unfold flushBuffer; by rewrite decide_True).
  erewrite bind_ok by reflexivity. eexists. split; [reflexivity |]. unfold Sync.
  erewrite bind_ok by reflexivity. cbn [wclosed]. rewrite Ho. unfold flushBuffer. cbn [bufferPos]. rewrite Hp.
  unfold WALBufferSize, WALRecordLengthSize in *. rewrite decide_False, decide_True by lia. done.
Qed.

(** ** Concrete runs *)

Module WalExample.
Definition begin7 : WALRecord := NewWALRecord 0 7 WALBegin.
Definition commit7 : WALRecord := NewWALRecord 0 7 WALCommit.
Definition bytes_of (r : WALRecord) (lsn : Z) : bytes :=
  let r := set_LSN r lsn in layout r (put32 (record_crc r)).
Definition first : list entry := [] ++ [(sealed (set_LSN begin7 1), bytes_of begin7 1)].
Definition log : list entry := first ++ [(sealed (set_LSN commit7 2), bytes_of commit7 2)].
Definition big : WALRecord := NewWALUpdateRecord 0 7 1 0 (zeros 33000) (zeros 33000).
Definition empty : WAL := mkWAL [] 1 [] 0 false ∅ None.
End WalExample.

(** A begin record is synced, a commit record is not. *)
Lemma wal_durable_witness :
  exists w d, wal_run None w WalExample.log 1 d
    /\ (exists w', read_all w = (Ok (fst <$> WalExample.log), w'))
    /\ forall k, (length d <= k <= length (wfile w))%nat ->
         exists j w' w'', OpenWALWithEncryption (take k (wfile w)) None = Ok w'
           /\ read_all w' = (Ok (fst <$> take j WalExample.log), w'') /\ (1 <= j <= 2)%nat.
Proof.
  assert (good_key None) as Hk by (intros ? ? ? ? [=]).
  destruct (open_log None [] []) as (w0 & Ho & Hl0 & _); [constructor | done | by left | done |].
  destruct (append_log None w0 [] [] WalExample.begin7 (WalExample.bytes_of WalExample.begin7 1)) as (w1 & Ha1 & Hl1 & _);
    [done | done | by constructor | done | done | done | done |].
  destruct (sync_log None w1 _ Hl1) as (w2 & Hs & Hl2 & _).
  destruct (append_log None w2 _ [] WalExample.commit7 (WalExample.bytes_of WalExample.commit7 2) Hl2)
    as (w3 & Ha2 & Hl3 & _); [done | by constructor | done | done | done | done |].
  assert (wal_run None w3 WalExample.log 1 (wfile w2)) as Hrun.
  { apply (run_append None w2 WalExample.first 1 (wfile w2) [] WalExample.commit7 2 w3 (WalExample.bytes_of WalExample.commit7 2));
      [| exact Ha2 | by constructor | done..].
    apply (run_sync None w1 WalExample.first 0 [] w2); [| exact Hs].
    apply (run_append None w0 [] 0 [] [] WalExample.begin7 1 w1 (WalExample.bytes_of WalExample.begin7 1));
      [by apply run_new | exact Ha1 | by constructor | done..]. }
  exists w3, (wfile w2). split; [exact Hrun |].
  destruct (wal_durable None w3 WalExample.log 1 (wfile w2) Hk Hrun) as (Hr & _ & Hc). by split.
Defined.

Lemma wal_large_record_panics_witness :
  exists w', Append [] WalExample.big WalExample.empty = (Ok 1, w') /\ (Sync w').1 = Panic.
Proof.
  apply (wal_large_record_panics [] WalExample.big WalExample.empty); [done | done | done | | vm_compute; reflexivity].
  by constructor; vm_compute.
Defined.
