(* ===== verification/Recovery.v ===== *)
(** * Crash recovery (src/internal/storage/recovery.go)

    The three phases over the write-ahead log and the page manager. The buffer pool,
    which recovery only tells of the pages it wrote, is left out, and so is the flag
    against a second [Recover] at the same time. *)

From stdpp Require Import sorting.
From S2P Require Import Prelude GoBinary GoStrings Page Wal.

Definition TxStateActive : Z := 0.
Definition TxStateCommitted : Z := 1.
Definition TxStateAborted : Z := 2.

Record RecoveryTxInfo := mkRecoveryTxInfo {
  ti_TxID : Z;
  ti_State : Z;
  ti_FirstLSN : Z;
  ti_LastLSN : Z;
  ti_UndoNextLSN : Z
}.

Record Recovery := mkRecovery {
  r_wal : WAL;
  pageManager : PageManager;
  activeTx : gmap Z RecoveryTxInfo;
  dirtyPages : gmap Z Z;
  checkpointLSN : Z;
  redoLSN : Z;
  allRecords : list WALRecord
}.

Definition NewRecovery (w : WAL) (pm : PageManager) : Recovery := mkRecovery w pm ∅ ∅ 0 0 [].

(** Methods of the log and of the page manager. *)
Definition on_wal {A} (m : M WAL A) : M Recovery A := fun r =>
  let '(a, w) := m (r_wal r) in
  (a, mkRecovery w (pageManager r) (activeTx r) (dirtyPages r) (checkpointLSN r) (redoLSN r) (allRecords r)).
Definition on_pages {A} (m : M PageManager A) : M Recovery A := fun r =>
  let '(a, pm) := m (pageManager r) in
  (a, mkRecovery (r_wal r) pm (activeTx r) (dirtyPages r) (checkpointLSN r) (redoLSN r) (allRecords r)).

(** The tables that the analysis builds. *)
Record Tables := mkTables { t_tx : gmap Z RecoveryTxInfo; t_dirty : gmap Z Z; t_checkpoint : Z }.

(** [if txInfo, exists := r.activeTx[record.TxID]; exists { f(txInfo) }]. *)
Definition update_tx (f : RecoveryTxInfo -> RecoveryTxInfo) (txID : Z) (m : gmap Z RecoveryTxInfo)
    : gmap Z RecoveryTxInfo := alter f txID m.

Definition end_tx (state lsn : Z) (i : RecoveryTxInfo) : RecoveryTxInfo :=
  mkRecoveryTxInfo (ti_TxID i) state (ti_FirstLSN i) lsn (ti_UndoNextLSN i).

Definition note_update (lsn : Z) (i : RecoveryTxInfo) : RecoveryTxInfo :=
  mkRecoveryTxInfo (ti_TxID i) (ti_State i) (ti_FirstLSN i) lsn lsn.

Definition process_record (t : Tables) (r : WALRecord) : Tables :=
  if byte_eqb (r_Type r) WALBegin then
    mkTables (<[r_TxID r := mkRecoveryTxInfo (r_TxID r) TxStateActive (r_LSN r) (r_LSN r) 0]> (t_tx t))
      (t_dirty t) (t_checkpoint t)
  else if byte_eqb (r_Type r) WALCommit then
    mkTables (update_tx (end_tx TxStateCommitted (r_LSN r)) (r_TxID r) (t_tx t)) (t_dirty t) (t_checkpoint t)
  else if byte_eqb (r_Type r) WALAbort then
    mkTables (update_tx (end_tx TxStateAborted (r_LSN r)) (r_TxID r) (t_tx t)) (t_dirty t) (t_checkpoint t)
  else if byte_eqb (r_Type r) WALUpdate then
    mkTables (update_tx (note_update (r_LSN r)) (r_TxID r) (t_tx t))
      (match t_dirty t !! r_PageID r with Some _ => t_dirty t | None => <[r_PageID r := r_LSN r]> (t_dirty t) end)
      (t_checkpoint t)
  else if byte_eqb (r_Type r) WALCheckpoint then mkTables (t_tx t) (t_dirty t) (r_LSN r)
  else t.

(** [for _, lsn := range r.dirtyPages { if r.redoLSN == 0 || lsn < r.redoLSN { ... } }]. *)
Definition min_dirty (dirty : gmap Z Z) (lsn : Z) : Z :=
  map_fold (fun _ l acc => if decide (acc = 0 \/ l < acc) then l else acc) lsn dirty.

Definition redo_start (t : Tables) (records : list WALRecord) : Z :=
  let start := if decide (t_checkpoint t = 0) then match records with r :: _ => r_LSN r | [] => 0 end
               else t_checkpoint t in
  min_dirty (t_dirty t) start.

(** The reading loop visits larger and larger sequence numbers of the index: the length
    of the file, which holds their records, bounds it. *)
Definition analysis : M Recovery unit :=
  it ← on_wal (Iterator 1);
  n ← gets (fun r => length (wfile (r_wal r)));
  records ← on_wal (read_records n it);
  let t := foldl process_record (mkTables ∅ ∅ 0) records in
  modify (fun r => mkRecovery (r_wal r) (pageManager r) (t_tx t) (t_dirty t) (t_checkpoint t)
                     (redo_start t records) records).

(** [copy(page.Data[offset:], data); page.Header.SetDirty()]. *)
Definition patch_page (page : Page) (offset : nat) (data : bytes) : Page :=
  mkPage (SetDirty (Header page)) (WriteAt (Data page) offset data).

(** [redoUpdate] with the new data, [undoUpdate] with the old data. *)
Definition apply_image (pageID offset : Z) (data : bytes) : M PageManager unit :=
  if decide (pageID = 0) then mret tt
  else
    page ← try (ReadPage pageID);
    match page with
    | inr _ => mret tt
    | inl page =>
        if decide (0 < len data) then
          if decide (offset + len data <= len (Data page)) then WritePage (patch_page page (Z.to_nat offset) data)
          else mret tt
        else mret tt
    end.

Definition redoUpdate (record : WALRecord) : M PageManager unit :=
  apply_image (r_PageID record) (r_Offset record) (r_NewData record).

Definition undoUpdate (record : WALRecord) : M PageManager unit :=
  apply_image (r_PageID record) (r_Offset record) (r_OldData record).

(** [if err := f(record); err != nil { continue }]. *)
Definition ignore {S A} (m : M S A) : M S unit := try m ;; mret tt.

Definition to_redo (start : Z) (tx : gmap Z RecoveryTxInfo) (r : WALRecord) : bool :=
  negb (bool_decide (r_LSN r < start)) && byte_eqb (r_Type r) WALUpdate
  && match tx !! r_TxID r with Some _ => true | None => false end.

Definition redo : M Recovery unit :=
  r ← gets (fun r => r);
  for_each (List.filter (to_redo (redoLSN r) (activeTx r)) (allRecords r))
    (fun record => on_pages (ignore (redoUpdate record))) ;;
  on_pages Page.Sync.

Definition is_active (tx : gmap Z RecoveryTxInfo) (txID : Z) : bool :=
  match tx !! txID with Some i => bool_decide (ti_State i = TxStateActive) | None => false end.

Definition to_undo (tx : gmap Z RecoveryTxInfo) (r : WALRecord) : bool :=
  byte_eqb (r_Type r) WALUpdate && is_active tx (r_TxID r).

(** [sort.Slice] by descending LSN. *)
Definition lsn_desc (a b : WALRecord) : Prop := r_LSN b <= r_LSN a.
#[global] Instance lsn_desc_dec : RelDecision lsn_desc.
Proof. intros a b. unfold lsn_desc. apply _. Defined.

Section Recovery.
Context `{MapIteration}.

(** The nonces of the abort records are [nonce txID]. *)
Definition abort_tx (nonce : Z -> bytes) (txID : Z) : M Recovery unit :=
  on_wal (Append (nonce txID) (NewWALRecord 0 txID WALAbort)) ;;
  modify (fun r => mkRecovery (r_wal r) (pageManager r)
    (alter (fun i => mkRecoveryTxInfo (ti_TxID i) TxStateAborted (ti_FirstLSN i) (ti_LastLSN i) (ti_UndoNextLSN i))
       txID (activeTx r)) (dirtyPages r) (checkpointLSN r) (redoLSN r) (allRecords r)).

Definition undo (nonce : Z -> bytes) : M Recovery unit :=
  r ← gets (fun r => r);
  let undoTxs := List.filter (is_active (activeTx r)) (range (activeTx r)).*1 in
  match undoTxs with
  | [] => mret tt
  | _ =>
      for_each (merge_sort lsn_desc (List.filter (to_undo (activeTx r)) (allRecords r)))
        (fun record => on_pages (ignore (undoUpdate record))) ;;
      for_each undoTxs (abort_tx nonce) ;;
      on_wal Wal.Sync ;;
      on_pages Page.Sync
  end.

Definition Recover (nonce : Z -> bytes) : M Recovery unit :=
  modify (fun r => NewRecovery (r_wal r) (pageManager r)) ;;
  analysis ;;
  redo ;;
  undo nonce.

End Recovery.
