(* ===== verification/RecoverySteps.v ===== *)
(** * The phases of recovery, one by one

    Page images: what writing images of parts of pages does to their contents, the algebra
    behind redo and undo. Then what the analysis finds in the log, what the loops over updates
    do to the pages, and what the abort records do to the log. *)

From stdpp Require Import sorting.
From S2P Require Import Prelude GoBinary Wal GoStrings Page PageStore WalLog Recovery.

(** The contents of the pages. *)
Abbreviation contents := (gmap Z bytes).

(** Write [d] at an offset of a page, if it fits. *)
Definition image (id off : Z) (d : bytes) (D : contents) : contents :=
  match D !! id with
  | Some x => if decide (off + len d <= len x) then <[id := WriteAt x (Z.to_nat off) d]> D else D
  | None => D
  end.

Definition new_image (r : WALRecord) : contents -> contents := image (r_PageID r) (r_Offset r) (r_NewData r).
Definition old_image (r : WALRecord) : contents -> contents := image (r_PageID r) (r_Offset r) (r_OldData r).

(** The part of a page that an image replaces. *)
Definition part (D : contents) (id off n : Z) : bytes :=
  match D !! id with Some x => ReadAt x (Z.to_nat off) (Z.to_nat n) | None => [] end.

Lemma lookup_WriteAt x off d i :
  (off + length d <= length x)%nat ->
  WriteAt x off d !! i = if decide (off <= i < off + length d)%nat then d !! (i - off)%nat else x !! i.
Proof.
  intros H. rewrite WriteAt_inside by done. case_decide as Hd.
  - rewrite lookup_app_r, length_take, Nat.min_l by (rewrite ?length_take; lia).
    by rewrite lookup_app_l by lia.
  - destruct (decide (i < off)%nat).
    + rewrite lookup_app_l by (rewrite length_take; lia). by rewrite lookup_take_lt.
    + rewrite lookup_app_r, length_take, Nat.min_l by (rewrite ?length_take; lia).
      rewrite lookup_app_r, lookup_drop by lia. f_equal. lia.
Qed.

Lemma WriteAt_comm x o d o' d' :
  (o + length d <= length x)%nat -> (o' + length d' <= length x)%nat ->
  (o + length d <= o' \/ o' + length d' <= o)%nat ->
  WriteAt (WriteAt x o d) o' d' = WriteAt (WriteAt x o' d') o d.
Proof.
  intros H H' Hd. apply list_eq. intros i. rewrite !lookup_WriteAt by (rewrite ?length_WriteAt; lia).
  repeat case_decide; done || lia.
Qed.

Lemma WriteAt_undo x o d d' :
  (o + length d <= length x)%nat -> length d' = length d -> ReadAt x o (length d) = d' ->
  WriteAt (WriteAt x o d) o d' = x.
Proof.
  intros H Hl <-. apply list_eq. intros i. rewrite lookup_WriteAt by (rewrite length_WriteAt; lia).
  rewrite lookup_WriteAt by done. case_decide as Hi; [| by rewrite decide_False by lia].
  unfold ReadAt. rewrite lookup_take_lt, lookup_drop by lia. f_equal. lia.
Qed.

(** ** Images on the contents *)

(** The page exists and the image fits. *)
Definition fits_in (D : contents) (id off n : Z) : Prop :=
  0 <= off /\ exists x, D !! id = Some x /\ off + n <= len x.

(** Two contents with the same pages, of the same lengths. *)
Definition same_shape (D D' : contents) : Prop := forall id, length <$> D !! id = length <$> D' !! id.

#[global] Instance same_shape_equiv : Equivalence same_shape.
Proof.
  split; [by intros D id | by intros D D' H id | intros D D' D'' H H' id; by rewrite H, H'].
Qed.

Lemma image_fits D id off d x :
  D !! id = Some x -> off + len d <= len x -> image id off d D = <[id := WriteAt x (Z.to_nat off) d]> D.
Proof. intros E H. unfold image. by rewrite E, decide_True. Qed.

Lemma to_nat_fits {A B} (off : Z) (d : list A) (x : list B) :
  0 <= off -> off + len d <= len x -> (Z.to_nat off + length d <= length x)%nat.
Proof. unfold len. lia. Qed.

Lemma image_shape D id off d : 0 <= off -> same_shape (image id off d D) D.
Proof.
  intros H0 id'. unfold image. destruct (D !! id) as [x|] eqn:E; [| done]. case_decide as Hd; [| done].
  destruct (decide (id' = id)) as [->|Hn]; [| by rewrite lookup_insert_ne].
  rewrite lookup_insert_eq, E. cbn. f_equal. apply length_WriteAt. by apply to_nat_fits.
Qed.

Lemma fits_in_shape D D' id off n : same_shape D D' -> fits_in D id off n -> fits_in D' id off n.
Proof.
  intros Hs [H0 (x & E & Hl)]. split; [done |]. specialize (Hs id). rewrite E in Hs.
  destruct (D' !! id) as [x'|]; [| done]. exists x'. split; [done |]. unfold len in *. injection Hs as <-. done.
Qed.

(** The images touch different bytes. *)
Definition disjoint_images (id off n id' off' n' : Z) : Prop :=
  id <> id' \/ off + n <= off' \/ off' + n' <= off.

Lemma image_comm D id off d id' off' d' :
  fits_in D id off (len d) -> fits_in D id' off' (len d') ->
  disjoint_images id off (len d) id' off' (len d') ->
  image id' off' d' (image id off d D) = image id off d (image id' off' d' D).
Proof.
  intros [H0 (x & E & Hl)] [H0' (x' & E' & Hl')] Hd.
  rewrite (image_fits D id off d x), (image_fits D id' off' d' x') by done.
  pose proof (to_nat_fits off d x H0 Hl). pose proof (to_nat_fits off' d' x' H0' Hl').
  destruct (decide (id = id')) as [->|Hn].
  - assert (x' = x) as -> by congruence. destruct Hd as [|Hd]; [done |].
    rewrite !(image_fits _ id' _ _ (WriteAt x _ _)) by (try apply lookup_insert_eq; unfold len in *; rewrite length_WriteAt; done).
    rewrite !insert_insert_eq. f_equal. apply WriteAt_comm; unfold len in *; lia.
  - rewrite (image_fits _ id' off' d' x'), (image_fits _ id off d x) by (by rewrite ?lookup_insert_ne).
    by apply insert_insert_ne.
Qed.

Lemma image_undo D id off d d' :
  fits_in D id off (len d) -> len d' = len d -> part D id off (len d) = d' -> image id off d' (image id off d D) = D.
Proof.
  intros [H0 (x & E & Hl)] Hlen Hp. unfold part in Hp. rewrite E in Hp.
  pose proof (to_nat_fits off d x H0 Hl) as Hf. unfold len in Hlen, Hp.
  rewrite (image_fits D id off d x) by done.
  rewrite (image_fits _ id off d' (WriteAt x (Z.to_nat off) d)).
  - rewrite insert_insert_eq. apply map_eq. intros i. destruct (decide (i = id)) as [->|Hn].
    + rewrite lookup_insert_eq, E. f_equal. apply WriteAt_undo; [done | lia |]. by rewrite Nat2Z.id in Hp.
    + by rewrite lookup_insert_ne.
  - apply lookup_insert_eq.
  - unfold len in *. rewrite length_WriteAt by done. lia.
Qed.

(** ** Replaying and rolling back *)

Definition replay (D : contents) (us : list WALRecord) : contents := foldl (fun D r => new_image r D) D us.

(** Undo in reverse order. *)
Definition rollback (D : contents) (us : list WALRecord) : contents :=
  foldl (fun D r => old_image r D) D (reverse us).

(** An update with images of one length that fit their page. *)
Definition sound_update (D : contents) (r : WALRecord) : Prop :=
  fits_in D (r_PageID r) (r_Offset r) (len (r_NewData r)) /\ len (r_OldData r) = len (r_NewData r).

Definition apart (r r' : WALRecord) : Prop :=
  disjoint_images (r_PageID r) (r_Offset r) (len (r_NewData r)) (r_PageID r') (r_Offset r') (len (r_NewData r')).

Lemma sound_shape D D' r : same_shape D D' -> sound_update D r -> sound_update D' r.
Proof. intros Hs [Hf Hl]. split; [by eapply fits_in_shape | done]. Qed.

Lemma new_image_shape D r : sound_update D r -> same_shape (new_image r D) D.
Proof. intros [[H0 _] _]. by apply image_shape. Qed.

Lemma old_image_shape D r : sound_update D r -> same_shape (old_image r D) D.
Proof. intros [[H0 _] _]. by apply image_shape. Qed.

Lemma foldl_shape (f : contents -> WALRecord -> contents) D us :
  (forall D r, sound_update D r -> same_shape (f D r) D) -> Forall (sound_update D) us ->
  same_shape (foldl f D us) D.
Proof.
  intros Hf Hu. revert D Hu. induction us as [|r us IH]; intros D Hu; [reflexivity |].
  apply Forall_cons in Hu as [Hr Hu]. cbn. pose proof (Hf D r Hr) as Hs. etrans; [| exact Hs]. apply IH.
  apply (Forall_impl _ _ _ Hu). intros r'. by apply sound_shape.
Qed.

Lemma replay_shape D us : Forall (sound_update D) us -> same_shape (replay D us) D.
Proof. apply foldl_shape. intros. by apply new_image_shape. Qed.

Lemma replay_snoc D us r : replay D (us ++ [r]) = new_image r (replay D us).
Proof. unfold replay. by rewrite foldl_app. Qed.

(** An update commutes with undoing others that touch other bytes. *)
Lemma undo_comm D r l :
  sound_update D r -> Forall (fun u => sound_update D u /\ apart u r) l ->
  foldl (fun D u => old_image u D) (new_image r D) l = new_image r (foldl (fun D u => old_image u D) D l).
Proof.
  intros Hr Hl. revert D Hr Hl. induction l as [|u l IH]; intros D Hr Hl; [done |].
  apply Forall_cons in Hl as [[Hu Ha] Hl]. cbn [foldl].
  assert (old_image u (new_image r D) = new_image r (old_image u D)) as ->.
  { destruct Hr as [Hfr _], Hu as [Hfu Elen]. unfold old_image, new_image. apply image_comm; [done | by rewrite Elen |].
    rewrite Elen. unfold apart, disjoint_images in *. intuition. }
  pose proof (old_image_shape D u Hu) as Hs. apply IH; [by apply (sound_shape D) |].
  apply (Forall_impl _ _ _ Hl). intros u' [Hu' Ha']. split; [by apply (sound_shape D) | done].
Qed.

(** Redo everything, then undo the losers in reverse order: what is left is the updates
    of the others. A loser's old image is what its part of the page held, and nobody
    else writes to it afterwards. *)
Lemma undo_redo loser D us :
  Forall (sound_update D) us ->
  (forall us1 r us2, us = us1 ++ r :: us2 -> loser r = true ->
     part (replay D us1) (r_PageID r) (r_Offset r) (len (r_NewData r)) = r_OldData r) ->
  (forall us1 r us2 r' us3, us = us1 ++ r :: us2 ++ r' :: us3 -> loser r = true -> loser r' = false -> apart r r') ->
  rollback (replay D us) (List.filter loser us) = replay D (List.filter (fun r => negb (loser r)) us).
Proof.
  induction us as [|r us IH] using rev_ind; intros Hs Hold Hap; [done |].
  apply Forall_app in Hs as [Hs [Hr _]%Forall_cons].
  specialize (IH Hs). rewrite !List.filter_app, replay_snoc. cbn [List.filter].
  assert (same_shape D (replay D us)) as Hsh by (symmetry; by apply replay_shape).
  assert (sound_update (replay D us) r) as Hr' by (by apply (sound_shape D)).
  assert (rollback (replay D us) (List.filter loser us) = replay D (List.filter (fun r => negb (loser r)) us)) as IH'.
  { apply IH.
    - intros us1 u us2 -> Hl. apply (Hold us1 u (us2 ++ [r])); [by rewrite <- app_assoc | done].
    - intros us1 u us2 u' us3 -> Hl Hl'. apply (Hap us1 u us2 u' (us3 ++ [r])); [| done | done].
      by rewrite <- !app_assoc, app_comm_cons, <- app_assoc. }
  destruct (loser r) eqn:El; cbn [negb].
  - unfold rollback. rewrite reverse_app. cbn [reverse rev_append app foldl]. rewrite app_nil_r.
    assert (old_image r (new_image r (replay D us)) = replay D us) as ->; [| exact IH'].
    destruct Hr' as [Hf Elen]. unfold old_image, new_image. apply image_undo; [done | done |].
    by apply (Hold us r []).
  - rewrite app_nil_r. unfold rollback. rewrite undo_comm; [by rewrite replay_snoc; f_equal | done |].
    rewrite Forall_reverse. apply Forall_forall. intros u Hin. rewrite list_elem_of_In, filter_In, <- list_elem_of_In in Hin.
    destruct Hin as [Hin Hl]. split; [apply (sound_shape D); [done | by rewrite Forall_forall in Hs; apply Hs] |].
    apply list_elem_of_split in Hin as (us1 & us2 & ->). apply (Hap us1 u us2 r []); [| done | done].
    by rewrite <- app_assoc.
Qed.

(** ** Redo does not depend on what had reached the disk *)

Definition touches (us : list WALRecord) (id : Z) (i : nat) : Prop :=
  exists r, r ∈ us /\ r_PageID r = id /\ r_Offset r <= Z.of_nat i < r_Offset r + len (r_NewData r).

(** Two contents that differ only where some update writes. *)
Definition agree_outside (us : list WALRecord) (D D' : contents) : Prop :=
  same_shape D D' /\ forall id x x' i, D !! id = Some x -> D' !! id = Some x' -> ~ touches us id i -> x !! i = x' !! i.

Lemma replay_agree us D D' :
  Forall (sound_update D) us -> agree_outside us D D' -> replay D us = replay D' us.
Proof.
  revert D D'. induction us as [|r us IH]; intros D D' Hs [Hsh Ha].
  - apply map_eq. intros id. specialize (Hsh id). destruct (D !! id) as [x|] eqn:E, (D' !! id) as [x'|] eqn:E'; cbn in Hsh |- *; rewrite E, E'; try done.
    f_equal. apply list_eq. intros i. apply (Ha id x x' i E E'). intros (r & Hin & _). set_solver.
  - apply Forall_cons in Hs as [Hr Hs]. cbn. pose proof (sound_shape D D' r Hsh Hr) as Hr'.
    apply IH.
    + apply (Forall_impl _ _ _ Hs). intros u. apply sound_shape. symmetry. by apply new_image_shape.
    + split; [rewrite (new_image_shape D r Hr), (new_image_shape D' r Hr'); done |].
      destruct Hr as [[H0 (x & E & Hl)] _], Hr' as [[_ (x' & E' & Hl')] _].
      unfold new_image. rewrite (image_fits D _ _ _ x), (image_fits D' _ _ _ x') by done.
      intros id y y' i Hy Hy' Hn. pose proof (to_nat_fits _ _ _ H0 Hl). pose proof (to_nat_fits _ _ _ H0 Hl').
      destruct (decide (id = r_PageID r)) as [->|Hid].
      * rewrite lookup_insert_eq in Hy, Hy'. injection Hy as <-. injection Hy' as <-.
        rewrite !lookup_WriteAt by done. case_decide as Hd; [done |]. apply (Ha (r_PageID r) x x'); [done | done |].
        intros (u & [->|Hin]%elem_of_cons & Hp & Hr0); [unfold len in Hr0; lia | apply Hn; by exists u].
      * rewrite lookup_insert_ne in Hy, Hy' by done. apply (Ha id y y' i Hy Hy').
        intros (u & [->|Hin]%elem_of_cons & Hp & Hr0); [by rewrite Hp in Hid | apply Hn; by exists u].
Qed.

(** ** Analysis *)

Definition is_update (r : WALRecord) : bool := byte_eqb (r_Type r) WALUpdate.

(** The fate of a transaction, as the log tells it. *)
Definition fate_step (t : Z) (acc : option Z) (r : WALRecord) : option Z :=
  if decide (r_TxID r = t) then
    if byte_eqb (r_Type r) WALBegin then Some TxStateActive
    else if byte_eqb (r_Type r) WALCommit then (fun _ => TxStateCommitted) <$> acc
    else if byte_eqb (r_Type r) WALAbort then (fun _ => TxStateAborted) <$> acc
    else acc
  else acc.

Definition fate (rs : list WALRecord) (t : Z) : option Z := foldl (fate_step t) None rs.

Definition tables (rs : list WALRecord) : Tables := foldl process_record (mkTables ∅ ∅ 0) rs.

Lemma tables_snoc rs r : tables (rs ++ [r]) = process_record (tables rs) r.
Proof. unfold tables. by rewrite foldl_app. Qed.

Lemma tables_fate rs t : ti_State <$> t_tx (tables rs) !! t = fate rs t.
Proof.
  unfold fate. induction rs as [|r rs IH] using rev_ind; [done |].
  rewrite tables_snoc, foldl_app. cbn [foldl]. rewrite <- IH. clear IH. unfold fate_step, process_record, update_tx.
  destruct (byte_eqb (r_Type r) WALBegin); [| destruct (byte_eqb (r_Type r) WALCommit);
    [| destruct (byte_eqb (r_Type r) WALAbort); [| destruct (byte_eqb (r_Type r) WALUpdate);
    [| destruct (byte_eqb (r_Type r) WALCheckpoint)]]]]; cbn [t_tx]; case_decide as Hd; try done.
  1-2: subst; by rewrite ?lookup_insert_eq, ?lookup_insert_ne.
  all: subst; rewrite ?lookup_alter_eq, ?lookup_alter_ne by done; by destruct (t_tx (tables rs) !! _).
Qed.

Lemma is_active_fate rs t : is_active (t_tx (tables rs)) t = bool_decide (fate rs t = Some TxStateActive).
Proof.
  unfold is_active. rewrite <- tables_fate. destruct (t_tx (tables rs) !! t) as [i|]; cbn; [| done].
  apply bool_decide_ext. split; [by intros -> | congruence].
Qed.

(** The sequence numbers of the log. *)
Definition ascending (rs : list WALRecord) : Prop := forall i r, rs !! i = Some r -> r_LSN r = Z.of_nat i + 1.

(** The page table and the checkpoint hold sequence numbers of the log. *)
Lemma dirty_lsn rs id l : t_dirty (tables rs) !! id = Some l -> exists r, r ∈ rs /\ l = r_LSN r.
Proof.
  induction rs as [|u rs IH] using rev_ind; [done |]. rewrite tables_snoc. unfold process_record. intros E.
  assert (t_dirty (tables rs) !! id = Some l -> exists r', r' ∈ rs ++ [u] /\ l = r_LSN r') as Hrec.
  { intros (r' & Hr' & ->)%IH. exists r'. set_solver. }
  repeat case_match; try (by apply Hrec). cbn [t_dirty] in E.
  apply lookup_insert_Some in E as [[_ <-]|[_ E]]; [exists u; set_solver | by apply Hrec].
Qed.

Lemma checkpoint_lsn rs : t_checkpoint (tables rs) = 0 \/ exists r, r ∈ rs /\ t_checkpoint (tables rs) = r_LSN r.
Proof.
  induction rs as [|u rs IH] using rev_ind; [by left |]. rewrite tables_snoc. unfold process_record.
  assert (t_checkpoint (tables rs) = 0 \/ exists r, r ∈ rs ++ [u] /\ t_checkpoint (tables rs) = r_LSN r) as Hrec.
  { destruct IH as [?|(r & Hr & E)]; [by left |]. right. exists r. set_solver. }
  repeat case_match; try done. right. exists u. set_solver.
Qed.

Lemma ascending_pos rs r : ascending rs -> r ∈ rs -> 0 < r_LSN r.
Proof. intros Ha [i Hi]%list_elem_of_lookup. rewrite (Ha i r Hi). lia. Qed.

Lemma tables_dirty rs r :
  ascending rs -> r ∈ rs -> is_update r = true ->
  exists l, t_dirty (tables rs) !! r_PageID r = Some l /\ l <= r_LSN r.
Proof.
  induction rs as [|u rs IH] using rev_ind; [set_solver |]. intros Ha Hin Hu. rewrite tables_snoc.
  assert (ascending rs) as Ha' by (intros i x E; apply Ha; by apply lookup_app_l_Some).
  assert (r_LSN u = Z.of_nat (length rs) + 1) as Eu.
  { apply Ha. by rewrite lookup_app_r, Nat.sub_diag by lia. }
  assert (forall r, r ∈ rs -> r_LSN r <= r_LSN u) as Hle.
  { intros x [i Hi]%list_elem_of_lookup. rewrite (Ha' i x Hi), Eu. apply lookup_lt_Some in Hi. lia. }
  assert (r ∈ rs -> exists l, t_dirty (process_record (tables rs) u) !! r_PageID r = Some l /\ l <= r_LSN r) as Hold.
  { intros Hr. destruct (IH Ha' Hr Hu) as (l & El & Hl). exists l. split; [| done]. unfold process_record.
    repeat case_match; try done. cbn [t_dirty]. rewrite lookup_insert_ne; [done |]. congruence. }
  apply elem_of_app in Hin as [Hin|Hin%list_elem_of_singleton]; [by apply Hold | subst u].
  unfold is_update, byte_eqb in Hu. apply bool_decide_eq_true in Hu. unfold process_record. rewrite Hu. cbn [t_dirty].
  change (byte_eqb WALUpdate WALBegin) with false. change (byte_eqb WALUpdate WALCommit) with false.
  change (byte_eqb WALUpdate WALAbort) with false. change (byte_eqb WALUpdate WALUpdate) with true. cbn [t_dirty].
  destruct (t_dirty (tables rs) !! r_PageID r) as [l|] eqn:E; [| exists (r_LSN r); by rewrite lookup_insert_eq].
  exists l. split; [done |]. destruct (dirty_lsn _ _ _ E) as (r' & Hr' & ->). by apply Hle.
Qed.

Lemma min_dirty_le (dirty : gmap Z Z) start :
  0 <= start -> (forall k l, dirty !! k = Some l -> 0 < l) -> forall k l, dirty !! k = Some l -> min_dirty dirty start <= l.
Proof.
  intros H0 Hp. enough ((forall k l, dirty !! k = Some l -> min_dirty dirty start <= l)
    /\ 0 <= min_dirty dirty start /\ (dirty <> ∅ -> 0 < min_dirty dirty start)) by tauto.
  revert Hp. unfold min_dirty. apply (map_fold_weak_ind (fun acc m => (forall k l, m !! k = Some l -> 0 < l) ->
    (forall k l, m !! k = Some l -> acc <= l) /\ 0 <= acc /\ (m <> ∅ -> 0 < acc))).
  - intros _. split_and!; [intros k l E; by rewrite lookup_empty in E | done | done].
  - intros k l m acc Hk IH Hp. destruct IH as (Hle & Hnn & Hpos).
    { intros k' l' E. apply (Hp k'). rewrite lookup_insert_ne; [done |]. congruence. }
    assert (0 < l) as Hl by (apply (Hp k); apply lookup_insert_eq).
    assert (acc = 0 -> m = ∅) as Hz. { intros ->. destruct (decide (m = ∅)); [done |]. specialize (Hpos n). lia. }
    split_and!; [| case_decide; lia | intros _; case_decide; lia].
    intros k' l' [[<- <-]|[Hn E]]%lookup_insert_Some; [case_decide; lia |].
    specialize (Hle k' l' E). case_decide as Hd; [| lia]. destruct Hd as [Hd|Hd]; [| lia].
    apply Hz in Hd as ->. by rewrite lookup_empty in E.
Qed.

(** Redo visits every update of a transaction that the log knows. *)
Lemma to_redo_update rs r :
  ascending rs -> r ∈ rs ->
  to_redo (redo_start (tables rs) rs) (t_tx (tables rs)) r
  = is_update r && match fate rs (r_TxID r) with Some _ => true | None => false end.
Proof.
  intros Ha Hin. unfold to_redo. fold (is_update r). rewrite <- tables_fate.
  destruct (is_update r) eqn:Hu; [| by rewrite andb_false_r].
  rewrite bool_decide_false; [cbn; by destruct (t_tx (tables rs) !! r_TxID r) |]. apply Z.nlt_ge.
  destruct (tables_dirty rs r Ha Hin Hu) as (l & El & Hl). transitivity l; [| done].
  unfold redo_start. cbv zeta. eapply (min_dirty_le (t_dirty (tables rs))); [| | exact El].
  - case_decide as H0.
    + destruct rs as [|r0 rs]; [lia |]. pose proof (ascending_pos (r0 :: rs) r0 Ha ltac:(left)). lia.
    + destruct (checkpoint_lsn rs) as [|(r0 & Hr0 & ->)]; [done |]. pose proof (ascending_pos rs r0 Ha Hr0). lia.
  - intros k l' (r' & Hr' & ->)%dirty_lsn. by apply (ascending_pos rs).
Qed.

Lemma redo_filter rs :
  ascending rs -> (forall r, r ∈ rs -> is_update r = true -> fate rs (r_TxID r) <> None) ->
  List.filter (to_redo (redo_start (tables rs) rs) (t_tx (tables rs))) rs = List.filter is_update rs.
Proof.
  intros Ha Hk. apply List.filter_ext_in. intros r Hin%list_elem_of_In. rewrite to_redo_update by done.
  destruct (is_update r) eqn:Hu; [| done]. specialize (Hk r Hin Hu). by destruct (fate rs (r_TxID r)).
Qed.

(** ** The order of undo *)

#[local] Instance lsn_desc_trans : Transitive lsn_desc.
Proof. intros a b c. unfold lsn_desc. lia. Qed.

#[local] Instance lsn_desc_total : Total lsn_desc.
Proof. intros a b. unfold lsn_desc. lia. Qed.

Lemma filter_rising rs f : ascending rs -> StronglySorted (fun a b => r_LSN a <= r_LSN b) (List.filter f rs).
Proof.
  intros Ha. assert (forall k, (forall i r, rs !! i = Some r -> r_LSN r = Z.of_nat (k + i) + 1) ->
    StronglySorted (fun a b => r_LSN a <= r_LSN b) (List.filter f rs)) as H; [| by apply (H 0%nat)].
  clear Ha. induction rs as [|r rs IH]; intros k Hk; [constructor |]. cbn.
  assert (StronglySorted (fun a b => r_LSN a <= r_LSN b) (List.filter f rs)) as Hrs.
  { apply (IH (S k)). intros i r' E. rewrite (Hk (S i) r' E). lia. }
  destruct (f r); [| done]. constructor; [done |]. apply Forall_forall. intros r' Hin.
  rewrite list_elem_of_In, filter_In, <- list_elem_of_In in Hin. destruct Hin as [[i Hi]%list_elem_of_lookup _].
  rewrite (Hk 0%nat r eq_refl), (Hk (S i) r' Hi). lia.
Qed.

Lemma undo_order rs f :
  ascending rs -> merge_sort lsn_desc (List.filter f rs) = reverse (List.filter f rs).
Proof.
  intros Ha. apply (StronglySorted_unique_strong lsn_desc).
  - intros x1 x2 H1 H2 Hle Hge. rewrite merge_sort_Permutation in H1. rewrite elem_of_reverse in H2.
    rewrite list_elem_of_In, filter_In, <- list_elem_of_In in H1, H2.
    destruct H1 as [[i Hi]%list_elem_of_lookup _], H2 as [[j Hj]%list_elem_of_lookup _].
    unfold lsn_desc in *. rewrite (Ha i x1 Hi), (Ha j x2 Hj) in *. assert (i = j) as -> by lia. congruence.
  - apply StronglySorted_merge_sort; apply _.
  - pose proof (filter_rising rs f Ha) as Hs. induction Hs as [|r l Hl IH Hr]; [constructor |].
    rewrite reverse_cons. apply StronglySorted_app_2; [| done | by repeat constructor].
    intros x1 x2 Hx1 Hx2%list_elem_of_singleton. subst x2. rewrite elem_of_reverse in Hx1.
    rewrite Forall_forall in Hr. unfold lsn_desc. by apply Hr.
  - by rewrite merge_sort_Permutation, reverse_Permutation.
Qed.

(** ** Images on the pages *)

Definition data (A : gmap Z Page) : contents := Data <$> A.

Section Pages.
Context (disk_limit : Z) (Hlimit : disk_limit < 2 ^ 62).

Lemma page_at_wf f id p : page_at f id = Ok p -> wf_page p /\ length (Data p) = data_size.
Proof.
  unfold page_at, Page_Deserialize. case_decide as Hd; [done |]. unfold PageHeader_Deserialize.
  case_decide as Hd'; [done |]. intros [= <-]. split.
  - constructor; cbn; apply field_range.
  - cbn [Data]. rewrite length_take, length_drop. unfold len, PageSize in Hd. unfold data_size, PageSize, PageHeaderSize. lia.
Qed.

Lemma wf_patch p off d : wf_page p -> wf_page (patch_page p off d).
Proof. intros []. by constructor. Qed.

Lemma WriteAt_nil x off : (off <= length x)%nat -> WriteAt x off [] = x.
Proof. intros H. rewrite WriteAt_inside by (cbn; lia). cbn. rewrite Nat.add_0_r. apply take_drop. Qed.

Lemma ignore_run {S B} (m : M S B) s b s' : m s = (Ok b, s') -> ignore m s = (Ok tt, s').
Proof. intros Hm. unfold ignore. erewrite bind_ok by (unfold try; rewrite Hm; reflexivity). done. Qed.

Lemma apply_image_read pm id off d p :
  id <> 0 -> ReadPage id pm = (Ok p, pm) ->
  apply_image id off d pm =
  (if decide (0 < len d) then
     if decide (off + len d <= len (Data p)) then WritePage (patch_page p (Z.to_nat off) d) else mret tt
   else mret tt) pm.
Proof.
  intros Hid Hread. unfold apply_image. rewrite decide_False by done.
  erewrite bind_ok by (unfold try; rewrite Hread; reflexivity). done.
Qed.

Lemma apply_image_run pm A id off d :
  Rep disk_limit pm A -> is_Some (A !! id) -> 0 <= off ->
  exists pm' A', ignore (apply_image id off d) pm = (Ok tt, pm') /\ Rep disk_limit pm' A'
    /\ data A' = image id off d (data A) /\ dom A' = dom A.
Proof.
  intros Hr [p Hp] H0. destruct (rep_pages _ _ _ Hr id p Hp) as [Hid Hpage].
  destruct (page_at_wf _ _ _ Hpage) as [Hw Hlen]. pose proof (rep_ids _ _ _ Hr id p Hp) as Hpid.
  destruct (read_op_run disk_limit Hlimit pm A id Hr) as (r & Hread & _ & Hok). specialize (Hok p Hp). subst r.
  assert (data A !! id = Some (Data p)) as Ed by (unfold data; by rewrite lookup_fmap, Hp).
  pose proof (apply_image_read pm id off d p ltac:(lia) Hread) as Hai. revert Hai. repeat case_decide; intros Hai.
  - destruct (write_op_run disk_limit Hlimit pm A (patch_page p (Z.to_nat off) d) Hr (wf_patch _ _ _ Hw))
      as (r & pm' & Hwrite & _ & Hok). cbn [Header patch_page SetDirty ph_PageID] in Hok. rewrite Hpid, Hp in Hok.
    destruct Hok as [-> Hr']. rewrite Hwrite in Hai. exists pm'. eexists. split; [by eapply ignore_run |].
    split; [exact Hr' |]. split.
    + rewrite (image_fits _ id off d (Data p)) by done. unfold data. rewrite fmap_insert. f_equal.
      cbn [Data stored patch_page]. apply pad_id. rewrite length_WriteAt; [done |]. by apply to_nat_fits.
    + rewrite dom_insert_L. apply subseteq_union_1_L, singleton_subseteq_l, elem_of_dom. by eexists.
  - exists pm, A. split_and!; [by eapply ignore_run | done | | done]. unfold image. by rewrite Ed, decide_False.
  - exists pm, A. split_and!; [by eapply ignore_run | done | | done].
    assert (d = []) as -> by (apply len_zero_nil; len_lia). unfold image. rewrite Ed. case_decide as Hf; [| done].
    rewrite WriteAt_nil by (unfold len in Hf; cbn in Hf; lia). symmetry. by apply insert_id.
Qed.

(** The loops of redo and undo. *)
Lemma images_loop (f : WALRecord -> bytes) (l : list WALRecord) s A :
  Rep disk_limit (pageManager s) A -> Forall (fun r => is_Some (A !! r_PageID r) /\ 0 <= r_Offset r) l ->
  exists pm' A',
    for_each l (fun r => on_pages (ignore (apply_image (r_PageID r) (r_Offset r) (f r)))) s
    = (Ok tt, mkRecovery (r_wal s) pm' (activeTx s) (dirtyPages s) (checkpointLSN s) (redoLSN s) (allRecords s))
    /\ Rep disk_limit pm' A' /\ dom A' = dom A
    /\ data A' = foldl (fun D r => image (r_PageID r) (r_Offset r) (f r) D) (data A) l.
Proof.
  intros Hr Hl. revert s A Hr Hl. induction l as [|r l IH]; intros s A Hr Hl.
  { exists (pageManager s), A. split_and!; [by destruct s | done..]. }
  apply Forall_cons in Hl as [[Hs H0] Hl].
  destruct (apply_image_run (pageManager s) A (r_PageID r) (r_Offset r) (f r) Hr Hs H0) as (pm1 & A1 & Hrun & Hr1 & Hd1 & Hdom).
  destruct (IH (mkRecovery (r_wal s) pm1 (activeTx s) (dirtyPages s) (checkpointLSN s) (redoLSN s) (allRecords s)) A1 Hr1)
    as (pm' & A' & Hrun' & Hr' & Hdom' & Hd').
  { apply (Forall_impl _ _ _ Hl). intros u [Hu ?]. split; [| done]. apply elem_of_dom. rewrite Hdom. by apply elem_of_dom. }
  exists pm', A'. cbn [for_each]. split_and!; [| done | by rewrite Hdom' | by rewrite Hd', Hd1].
  erewrite bind_ok by (unfold on_pages; rewrite Hrun; reflexivity). exact Hrun'.
Qed.
End Pages.
