(* ===== verification/RecoveryTheorems.v ===== *)
(** * Theorems about crash recovery *)

From stdpp Require Import sorting.
From S2P Require Import Prelude GoBinary GoStrings Page PageStore PageTheorems Wal WalLog WalTheorems.
From S2P Require Import Recovery RecoverySteps.

Definition updates (rs : list WALRecord) : list WALRecord := List.filter is_update rs.

Definition lost (rs : list WALRecord) (r : WALRecord) : bool := bool_decide (fate rs (r_TxID r) = Some TxStateActive).

Definition committed (rs : list WALRecord) (r : WALRecord) : bool :=
  bool_decide (fate rs (r_TxID r) = Some TxStateCommitted).

Definition aborted (rs : list WALRecord) (r : WALRecord) : bool :=
  bool_decide (fate rs (r_TxID r) = Some TxStateAborted).

(** A log over the contents [D0], and what the disk holds at the crash, [D]: every update
    belongs to a transaction that began, and its images fit their page; the disk differs from [D0] only where some update wrote, in whatever way; the
    old image of an unfinished transaction is what its bytes held; and nobody else
    writes to them afterwards. *)
Record recoverable (rs : list WALRecord) (D0 D : contents) : Prop := mkRecoverable {
  rc_known : forall r, r ∈ rs -> is_update r = true -> fate rs (r_TxID r) <> None;
  rc_sound : Forall (sound_update D0) (updates rs);
  rc_disk : agree_outside (updates rs) D0 D;
  rc_before : forall us1 r us2, updates rs = us1 ++ r :: us2 -> lost rs r = true ->
    part (replay D0 us1) (r_PageID r) (r_Offset r) (len (r_NewData r)) = r_OldData r;
  rc_strict : forall us1 r us2 r' us3, updates rs = us1 ++ r :: us2 ++ r' :: us3 ->
    lost rs r = true -> lost rs r' = false -> apart r r'
}.

Lemma fate_begun rs t : fate rs t <> None -> exists r, r ∈ rs /\ r_TxID r = t.
Proof.
  unfold fate. induction rs as [|r rs IH] using rev_ind; [done |]. rewrite foldl_app. cbn [foldl]. unfold fate_step at 1.
  case_decide as Hd; [intros _; exists r; set_solver |]. intros (r' & Hr' & E)%IH. exists r'. set_solver.
Qed.

(** A record that was read has fields in range. *)
Lemma good_tx key e : good key e -> is_uint64 (r_TxID e.1).
Proof.
  intros [Hd _]. destruct (decrypt key e.2) as [buf| | |]; try done. cbn in Hd. unfold DeserializeAndValidate in Hd.
  unfold Deserialize in Hd. case_decide; [done |]. cbn in Hd. case_decide; [done |]. cbn in Hd.
  case_decide; [| done]. injection Hd as <-. cbn. apply field_range.
Qed.

Lemma unfinished_uint64 key es t : Forall (good key) es -> fate (fst <$> es) t = Some TxStateActive -> is_uint64 t.
Proof.
  intros Hg E. destruct (fate_begun (fst <$> es) t) as (r & Hr & <-); [congruence |].
  apply list_elem_of_fmap in Hr as (e & -> & He). rewrite Forall_forall in Hg. by eapply good_tx, Hg.
Qed.

Lemma filter_false {A} (p : A -> bool) l : (forall x, x ∈ l -> p x = false) -> List.filter p l = [].
Proof. induction l as [|x l IH]; intros Hp; [done |]. cbn. rewrite Hp by left. apply IH. intros y Hy. apply Hp. by right. Qed.

Lemma filter_filter_and {A} (p q : A -> bool) l :
  List.filter p (List.filter q l) = List.filter (fun x => q x && p x) l.
Proof. induction l as [|x l IH]; [done |]. cbn. destruct (q x); cbn; [destruct (p x); by rewrite IH | done]. Qed.

(** The abort records. *)
Lemma aborts_run nonce txs s es :
  Log None (r_wal s) es -> Forall is_uint64 txs -> len es + len txs + 1 < 2 ^ 64 ->
  exists s' aborts, for_each txs (abort_tx nonce) s = (Ok tt, s') /\ pageManager s' = pageManager s
    /\ Log None (r_wal s') (es ++ aborts)
    /\ (fun e => (r_TxID e.1, r_Type e.1)) <$> aborts = (fun t => (t, WALAbort)) <$> txs.
Proof.
  intros Hl Ht. revert s es Hl. induction Ht as [|t txs Ht _ IH]; intros s es Hl Hb.
  { exists s, []. split_and!; [done | done | by rewrite app_nil_r | done]. }
  rewrite len_cons in Hb. pose proof (len_nonneg es). pose proof (len_nonneg txs).
  set (r := NewWALRecord 0 t WALAbort).
  destruct (append_log None (r_wal s) es (nonce t) r (layout (set_LSN r (len es + 1)) (put32 (record_crc (set_LSN r (len es + 1))))) Hl)
    as (w' & Hrun & Hl' & _); [by intros ? | | done | done | done | lia |].
  { constructor; cbn; try done. split; lia. }
  set (s1 := (abort_tx nonce t s).2).
  assert (abort_tx nonce t s = (Ok tt, s1) /\ r_wal s1 = w' /\ pageManager s1 = pageManager s) as (Ha & Ew & Ep).
  { unfold s1, abort_tx. erewrite bind_ok by (unfold on_wal; fold r; rewrite Hrun; reflexivity). done. }
  rewrite <- Ew in Hl'. destruct (IH s1 _ Hl') as (s' & aborts & Hrun' & Ep' & Hl'' & Eab); [lens; lia |].
  exists s'. eexists. cbn [for_each]. erewrite bind_ok by exact Ha.
  split_and!; [exact Hrun' | by rewrite Ep' | rewrite <- app_assoc in Hl''; exact Hl'' |].
  cbn. by rewrite Eab.
Qed.

Section Recovery.
Context `{MapIteration} (disk_limit : Z) (Hlimit : disk_limit < 2 ^ 62).

Lemma analysis_run w pm es :
  Log None w es ->
  let rs := fst <$> es in
  exists w', analysis (NewRecovery w pm) =
    (Ok tt, mkRecovery w' pm (t_tx (tables rs)) (t_dirty (tables rs)) (t_checkpoint (tables rs))
              (redo_start (tables rs) rs) rs) /\ Log None w' es.
Proof.
  intros Hl rs. destruct (flush_run None w es Hl) as (w' & Hflush & Hl' & Hf & _). exists w'. split; [| done].
  unfold analysis.
  erewrite bind_ok by (unfold on_wal; cbn [r_wal NewRecovery]; unfold Iterator;
    erewrite bind_ok by (unfold try; rewrite Hflush; reflexivity); reflexivity).
  erewrite bind_ok by reflexivity. cbn [r_wal]. rewrite Hf.
  pose proof (length_stream None es (lg_good _ _ _ Hl)).
  erewrite bind_ok by (unfold on_wal; cbn [r_wal]; rewrite (read_records_run None w' es 0) by (done || lia); reflexivity).
  done.
Qed.

Lemma image_pages A rs D0 D l :
  same_shape D0 (data A) -> recoverable rs D0 D -> (forall r, r ∈ l -> r ∈ updates rs) ->
  Forall (fun r => is_Some (A !! r_PageID r) /\ 0 <= r_Offset r) l.
Proof.
  intros Hsh [_ Hs _ _ _] Hin. apply Forall_forall. intros r Hr%Hin. rewrite Forall_forall in Hs.
  destruct (Hs r Hr) as [[H0 (x & E & _)] _]. split; [| done]. specialize (Hsh (r_PageID r)). rewrite E in Hsh.
  unfold data in Hsh. rewrite lookup_fmap in Hsh. by destruct (A !! r_PageID r).
Qed.

Lemma ascending_log key w es : Log key w es -> ascending (fst <$> es).
Proof.
  intros Hl i r E. rewrite list_lookup_fmap in E. destruct (es !! i) as [e|] eqn:Ei; [| done]. injection E as <-.
  by apply (lg_numbered _ _ _ Hl).
Qed.

(** Redo, from the state after the analysis. *)
Lemma redo_run s rs A D0 :
  Rep disk_limit (pageManager s) A -> ascending rs -> recoverable rs D0 (data A) ->
  activeTx s = t_tx (tables rs) -> redoLSN s = redo_start (tables rs) rs -> allRecords s = rs ->
  exists pm' A', redo s = (Ok tt, mkRecovery (r_wal s) pm' (activeTx s) (dirtyPages s) (checkpointLSN s) (redoLSN s) rs)
    /\ Rep disk_limit pm' A' /\ dom A' = dom A /\ data A' = replay D0 (updates rs).
Proof.
  intros Hr Ha Hc Etx Ere Erec. unfold redo. erewrite bind_ok by reflexivity. rewrite Etx, Ere, Erec, redo_filter.
  2:{ done. } 2:{ intros r Hin Hu. apply (rc_known _ _ _ Hc r Hin Hu). }
  fold (updates rs). destruct (images_loop disk_limit Hlimit r_NewData (updates rs) s A Hr) as (pm1 & A1 & Hrun & Hr1 & Hdom & Hd).
  { apply (image_pages A rs D0 (data A)); [apply Hc | done | done]. }
  unfold redoUpdate. erewrite bind_ok by exact Hrun.
  destruct (sync_run disk_limit Hlimit pm1 A1 Hr1) as (pm2 & Hsync & Hr2).
  exists pm2, A1. unfold on_pages. cbn [pageManager]. rewrite Hsync, Erec.
  split_and!; [by rewrite Etx, Ere | done | done |]. rewrite Hd. symmetry. apply replay_agree; apply Hc.
Qed.

Lemma undo_filter rs : List.filter (to_undo (t_tx (tables rs))) rs = List.filter (lost rs) (updates rs).
Proof.
  unfold updates. rewrite filter_filter_and. apply List.filter_ext. intros r. unfold to_undo.
  by rewrite is_active_fate.
Qed.

(** The transactions that undo aborts. *)
Definition unfinished (rs : list WALRecord) : list Z :=
  List.filter (is_active (t_tx (tables rs))) (range (t_tx (tables rs))).*1.

Lemma unfinished_fate rs t : t ∈ unfinished rs <-> fate rs t = Some TxStateActive.
Proof.
  unfold unfinished. rewrite list_elem_of_In, filter_In, <- list_elem_of_In, is_active_fate, bool_decide_eq_true.
  split; [by intros [] |]. intros E. split; [| done]. rewrite <- tables_fate in E.
  destruct (t_tx (tables rs) !! t) as [i|] eqn:Ei; [| done]. apply list_elem_of_fmap. exists (t, i).
  by rewrite elem_of_range.
Qed.

Lemma unfinished_nodup rs : NoDup (unfinished rs).
Proof.
  unfold unfinished. apply NoDup_ListNoDup, List.NoDup_filter, NoDup_ListNoDup.
  rewrite range_perm. apply NoDup_fst_map_to_list.
Qed.

Lemma unfinished_bound rs : len (unfinished rs) <= len rs.
Proof.
  unfold len. apply inj_le. rewrite <- (length_fmap r_TxID rs). apply submseteq_length, NoDup_submseteq; [apply unfinished_nodup |].
  intros t Ht%unfinished_fate. destruct (fate_begun rs t) as (r & Hr & <-); [congruence |]. apply list_elem_of_fmap. by exists r.
Qed.

Lemma fate_cases rs t :
  fate rs t = None \/ fate rs t = Some TxStateActive \/ fate rs t = Some TxStateCommitted \/ fate rs t = Some TxStateAborted.
Proof.
  unfold fate. induction rs as [|r rs IH] using rev_ind; [by left |]. rewrite foldl_app. cbn [foldl]. set (f := foldl _ _ _) in *. clearbody f. unfold fate_step.
  case_decide; [| done]. destruct (byte_eqb (r_Type r) WALBegin), (byte_eqb (r_Type r) WALCommit), (byte_eqb (r_Type r) WALAbort); auto;
    destruct IH as [->|[->|[->| ->]]]; auto.
Qed.

Lemma lost_known rs D0 D :
  recoverable rs D0 D ->
  List.filter (fun r => negb (lost rs r)) (updates rs)
  = List.filter (fun r => committed rs r || aborted rs r) (updates rs).
Proof.
  intros Hc. apply List.filter_ext_in. intros r Hin. unfold updates in Hin. rewrite filter_In, <- list_elem_of_In in Hin.
  destruct Hin as [Hin Hu]. unfold lost, committed, aborted. pose proof (rc_known _ _ _ Hc r Hin Hu) as Hk.
  by destruct (fate_cases rs (r_TxID r)) as [E|[->|[->| ->]]].
Qed.

(** Undo, from the state after redo. *)
Lemma undo_run nonce s es A D0 D :
  let rs := fst <$> es in
  Rep disk_limit (pageManager s) A -> Log None (r_wal s) es -> recoverable rs D0 D -> 2 * len es + 2 < 2 ^ 64 ->
  same_shape D0 (data A) -> data A = replay D0 (updates rs) -> activeTx s = t_tx (tables rs) -> allRecords s = rs ->
  exists s' A' aborts, undo nonce s = (Ok tt, s') /\ Rep disk_limit (pageManager s') A' /\ dom A' = dom A
    /\ data A' = replay D0 (List.filter (fun r => committed rs r || aborted rs r) (updates rs))
    /\ Log None (r_wal s') (es ++ aborts)
    /\ (fun e => (r_TxID e.1, r_Type e.1)) <$> aborts = (fun t => (t, WALAbort)) <$> unfinished rs.
Proof.
  intros rs Hr Hl Hc Hb Hsh Hd Etx Erec. pose proof (ascending_log _ _ _ Hl) as Ha.
  pose proof (undo_redo (lost rs) D0 (updates rs) (rc_sound _ _ _ Hc) (rc_before _ _ _ Hc) (rc_strict _ _ _ Hc)) as Hundo.
  rewrite (lost_known _ _ _ Hc), <- Hd in Hundo.
  unfold undo. erewrite bind_ok by reflexivity. rewrite Etx, Erec. fold (unfinished rs).
  destruct (unfinished rs) as [|t0 txs] eqn:Eun.
  { exists s, A, []. split_and!; [done | done | done | | by rewrite app_nil_r | done]. rewrite <- Hundo.
    rewrite filter_false; [done |]. intros r _. unfold lost. apply bool_decide_eq_false. intros E%unfinished_fate.
    rewrite Eun in E. set_solver. }
  rewrite <- Eun. clear Eun. rewrite undo_order, undo_filter by done.
  destruct (images_loop disk_limit Hlimit r_OldData (reverse (List.filter (lost rs) (updates rs))) s A Hr)
    as (pm1 & A1 & Hrun & Hr1 & Hdom & Hd1).
  { apply Forall_reverse. apply (image_pages A rs D0 D _ Hsh Hc). intros r. rewrite !list_elem_of_In. apply filter_In. }
  unfold undoUpdate. erewrite bind_ok by exact Hrun.
  set (s1 := mkRecovery (r_wal s) pm1 (activeTx s) (dirtyPages s) (checkpointLSN s) (redoLSN s) (allRecords s)).
  destruct (aborts_run nonce (unfinished rs) s1 es Hl) as (s2 & aborts & Hrun2 & Ep2 & Hl2 & Eab).
  { apply Forall_forall. intros t Ht%unfinished_fate. apply (unfinished_uint64 None es); [apply Hl | exact Ht]. }
  { pose proof (unfinished_bound rs) as Hub. unfold rs at 2, len in Hub. rewrite length_fmap in Hub. unfold len in *. lia. }
  erewrite bind_ok by exact Hrun2.
  destruct (sync_log None (r_wal s2) _ Hl2) as (w3 & Hsync3 & Hl3 & _).
  erewrite bind_ok by (unfold on_wal; rewrite Hsync3; reflexivity).
  destruct (sync_run disk_limit Hlimit pm1 A1 Hr1) as (pm4 & Hsync4 & Hr4).
  eexists _, A1, aborts. split; [unfold on_pages; cbn [pageManager]; rewrite Ep2; cbn [pageManager s1]; rewrite Hsync4; reflexivity |].
  split_and!; [exact Hr4 | done | | exact Hl3 | exact Eab]. rewrite Hd1. exact Hundo.
Qed.

End Recovery.

(** ** Concrete runs *)

Module RecoveryExample.
#[local] Instance iteration_order : MapIteration := {|
  range _ _ _ _ m := map_to_list m;
  range_perm _ _ _ _ m := reflexivity (map_to_list m)
|}.

Definition opts : Options := mkOptions 0 2 true false.
Definition limit : Z := 2 ^ 40.
Definition nonce (_ : Z) : bytes := [].

Definition entry_of (lsn : Z) (r : WALRecord) : entry :=
  let r := set_LSN r lsn in (sealed r, layout r (put32 (record_crc r))).

(** Transaction 7 writes one byte and does not finish; transaction 8 commits another. *)
Definition log : list entry :=
  imap (fun i r => entry_of (Z.of_nat i + 1) r)
    [NewWALRecord 0 7 WALBegin; NewWALUpdateRecord 0 7 1 0 [x00] [x61];
     NewWALRecord 0 8 WALBegin; NewWALUpdateRecord 0 8 1 1 [x00] [x62]; NewWALRecord 0 8 WALCommit].

Definition contents0 : contents := {[ 1 := zeros 4080 ]}.

(** The first page of a new file. *)
Definition fresh : outcome PageManager :=
  match OpenPageManager limit None opts with
  | Ok pm => match AllocatePage limit PageTypeData pm with (Ok 1, pm') => Ok pm' | _ => Panic end
  | r => r
  end.

Lemma fresh_rep : exists pm, fresh = Ok pm /\ Rep limit pm {[ 1 := stored (NewPage 1 PageTypeData) ]}.
Proof.
  assert (match fresh with Ok _ => true | _ => false end = true) as E by (vm_compute; reflexivity).
  unfold fresh in *. destruct (OpenPageManager limit None opts) as [pm| | |] eqn:Ho; try done.
  assert (Rep limit pm ∅) as Hr by (apply (init_run limit opts); [by left | done | done]).
  destruct (alloc_run limit ltac:(done) pm ∅ PageTypeData Hr) as [(id & pm' & Ha & _ & Hr')|(e & Ha & _)];
    rewrite Ha in *; [| done].
  destruct (decide (id = 1)) as [->|Hn]; [exists pm'; by split |]. exfalso. clear -E Hn.
  destruct id as [|[]|]; done.
Qed.

Definition u7 : WALRecord := (entry_of 2 (NewWALUpdateRecord 0 7 1 0 [x00] [x61])).1.
Definition u8 : WALRecord := (entry_of 4 (NewWALUpdateRecord 0 8 1 1 [x00] [x62])).1.

Lemma log_updates : updates (fst <$> log) = [u7; u8].
Proof. vm_compute. reflexivity. Qed.

Lemma log_lost : lost (fst <$> log) u7 = true /\ lost (fst <$> log) u8 = false.
Proof. vm_compute. done. Qed.

Lemma log_recoverable : recoverable (fst <$> log) contents0 contents0.
Proof.
  destruct log_lost as [L7 L8]. constructor; rewrite ?log_updates.
  - intros r Hin Hu. assert (r ∈ updates (fst <$> log)) as Hr.
    { unfold updates. by rewrite list_elem_of_In, filter_In, <- list_elem_of_In. }
    rewrite log_updates in Hr. apply elem_of_cons in Hr as [->|Hr%list_elem_of_singleton]; [| subst r]; vm_compute; discriminate.
  - repeat constructor; cbn; try done; exists (zeros 4080); split; (reflexivity || done).
  - split; [done |]. congruence.
  - intros us1 r us2 E Hl. destruct us1 as [|a us1]; [injection E as <- <-; vm_compute; reflexivity |].
    injection E as <- E. destruct us1 as [|b us1]; [injection E as <- <-; by rewrite L8 in Hl |].
    apply (f_equal length) in E. simpl in E. rewrite length_app in E. simpl in E. lia.
  - intros us1 r us2 r' us3 E Hl Hl'. destruct us1 as [|a us1]; [| apply (f_equal length) in E; simpl in E; rewrite !length_app in E; simpl in E; rewrite length_app in E; simpl in E; lia].
    injection E as <- E. destruct us2 as [|b us2]; [| apply (f_equal length) in E; simpl in E; rewrite length_app in E; simpl in E; lia].
    injection E as <- <-. right. left. vm_compute. done.
Qed.

Lemma log_opens : exists w, OpenWALWithEncryption (stream log) None = Ok w /\ Log None w log.
Proof.
  destruct (open_log None log []) as (w & Ho & Hl & _); [| | by left | vm_compute; reflexivity |]; last first.
  { rewrite app_nil_r in Ho. exists w. by split. }
  2:{ repeat constructor; vm_compute; done. }
  intros i e E. do 5 (destruct i as [|i]; [injection E as <-; vm_compute; reflexivity |]). done.
Qed.
End RecoveryExample.


(** ** Recovering twice *)

Module TwiceExample.
Import RecoveryExample.
#[local] Existing Instance iteration_order.

(** Open the two files, recover, close them; the first byte of page 1, and the files. *)
Definition recover_files (wal pages : bytes) : outcome (option byte * bytes * bytes) :=
  w ← OpenWALWithEncryption wal None;
  pm ← OpenPageManager limit (Some pages) opts;
  match Recover nonce (NewRecovery w pm) with
  | (Ok _, s) =>
      match ReadPage 1 (pageManager s), Wal.Close (r_wal s), Page.Close limit (pageManager s) with
      | (Ok p, _), (Ok _, w'), (Ok _, pm') => Ok (Data p !! 0%nat, wfile w', file pm')
      | _, _, _ => Panic
      end
  | _ => Panic
  end.

(** Transaction 7 changes the byte from [a] to [b] and the process dies. *)
Definition crashed : list entry :=
  imap (fun i r => entry_of (Z.of_nat i + 1) r)
    [NewWALRecord 0 7 WALBegin; NewWALUpdateRecord 0 7 1 0 [x61] [x62]].

(** The page file that a process leaves after it wrote [b] to page 1. *)
Definition pages : outcome bytes :=
  match fresh with
  | Ok pm => match WritePage (mkPage (Header (NewPage 1 PageTypeData)) (x62 :: zeros 4079)) pm with
             | (Ok _, pm') => Ok (file (Page.Sync pm').2)
             | _ => Panic
             end
  | _ => Panic
  end.

Definition history : outcome (option byte * option byte) :=
  f ← pages;
  r1 ← recover_files (stream crashed) f;
  let '(b1, wal, f) := r1 in
  r2 ← recover_files wal f;
  let '(b2, _, _) := r2 in
  Ok (b1, b2).
End TwiceExample.

(** Recovery is not idempotent. A transaction that was running at the crash is undone
    by the first recovery, which records its abort; when the files are opened and recovered
    again, its update is redone, as that of any transaction the log knows, and not undone,
    since it is no longer active: the page holds the data of an aborted transaction. *)
Theorem recovery_not_idempotent : TwiceExample.history = Ok (Some x61, Some x62).
Proof. vm_compute. reflexivity. Qed.
