(* ===== verification/Buffer.v ===== *)
(** * The buffer pool (src/internal/storage/lru.go, buffer.go)

    The list of the LRU cache is its page numbers from front to back; [entries] has the
    keys of the map to its elements, which are known by their page numbers. The pool
    holds its pages by value: a page that is handed out is the page of that number. The
    flush callback works on a world of its own. *)

From S2P Require Import Prelude GoBinary GoStrings Page.

(** ** lru.go *)

Record LRUCache := mkLRUCache { lru_list : list Z; lru_entries : gset Z }.

Definition NewLRUCache : LRUCache := mkLRUCache [] ∅.

(** [c.list.Remove(elem)]. *)
Definition list_without (id : Z) (l : list Z) : list Z := List.filter (fun x => negb (bool_decide (x = id))) l.

Definition LRU_Access (c : LRUCache) (pageID : Z) : LRUCache :=
  if decide (pageID ∈ lru_entries c) then
    mkLRUCache (pageID :: list_without pageID (lru_list c)) (lru_entries c)
  else mkLRUCache (pageID :: lru_list c) ({[ pageID ]} ∪ lru_entries c).

Definition LRU_Remove (c : LRUCache) (pageID : Z) : LRUCache :=
  if decide (pageID ∈ lru_entries c) then
    mkLRUCache (list_without pageID (lru_list c)) (lru_entries c ∖ {[ pageID ]})
  else c.

Definition GetLRU (c : LRUCache) : option Z := last (lru_list c).

Definition GetLRUExcluding (c : LRUCache) (excluded : gset Z) : option Z :=
  List.find (fun id => negb (bool_decide (id ∈ excluded))) (reverse (lru_list c)).

Definition LRU_Contains (c : LRUCache) (pageID : Z) : bool := bool_decide (pageID ∈ lru_entries c).

Definition LRU_Len (c : LRUCache) : Z := len (lru_list c).

Definition LRU_Clear (c : LRUCache) : LRUCache := mkLRUCache [] ∅.

Definition GetAll (c : LRUCache) : list Z := lru_list c.

Definition GetAllLRUOrder (c : LRUCache) : list Z := reverse (lru_list c).

(** ** buffer.go *)

Definition ErrBufferPoolFull : goerror := ErrConst "ErrBufferPoolFull".
Definition ErrPageNotFound : goerror := ErrConst "ErrPageNotFound".
Definition ErrPagePinned : goerror := ErrConst "ErrPagePinned".
Definition ErrNegativePinCount : goerror := ErrConst "ErrNegativePinCount".

Record BufferPage := mkBufferPage { b_id : Z; b_data : bytes; b_dirty : bool; b_pinCount : Z }.

Definition set_data (d : bytes) (p : BufferPage) : BufferPage := mkBufferPage (b_id p) d (b_dirty p) (b_pinCount p).
Definition set_dirty (d : bool) (p : BufferPage) : BufferPage := mkBufferPage (b_id p) (b_data p) d (b_pinCount p).
Definition add_pin (n : Z) (p : BufferPage) : BufferPage :=
  mkBufferPage (b_id p) (b_data p) (b_dirty p) (int64 (b_pinCount p + n)).

Record BufferPool := mkBufferPool {
  capacity : Z;
  poolPageSize : Z;
  pages : gmap Z BufferPage;
  lru : LRUCache;
  poolDirty : gmap Z bool
}.

Definition NewBufferPool (cap size : Z) : BufferPool :=
  mkBufferPool (if decide (cap <= 0) then 16 else cap) (if decide (size <= 0) then PageSize else size)
    ∅ NewLRUCache ∅.

Definition with_pages (f : gmap Z BufferPage -> gmap Z BufferPage) (bp : BufferPool) : BufferPool :=
  mkBufferPool (capacity bp) (poolPageSize bp) (f (pages bp)) (lru bp) (poolDirty bp).
Definition with_lru (f : LRUCache -> LRUCache) (bp : BufferPool) : BufferPool :=
  mkBufferPool (capacity bp) (poolPageSize bp) (pages bp) (f (lru bp)) (poolDirty bp).
Definition with_dirty (f : gmap Z bool -> gmap Z bool) (bp : BufferPool) : BufferPool :=
  mkBufferPool (capacity bp) (poolPageSize bp) (pages bp) (lru bp) (f (poolDirty bp)).

(** [copy(dst, src)]. *)
Definition copy_into_slice (dst src : bytes) : bytes := take (length dst) src ++ drop (length src) dst.

Section Pool.
Context `{MapIteration} {W : Type}.
Context (flushCallback : option (Z -> bytes -> M W unit)).

Abbreviation PM := (M (BufferPool * W)).

Definition pool : PM BufferPool := gets fst.
Definition update (f : BufferPool -> BufferPool) : PM unit := modify (fun s => (f s.1, s.2)).

(** [bp.flushCallback(id, data)]. *)
Definition call_flush (callback : Z -> bytes -> M W unit) (id : Z) (data : bytes) : PM unit := fun s =>
  let '(r, w) := callback id data s.2 in (r, (s.1, w)).

Definition Pool_Get (id : Z) : PM (option BufferPage) :=
  bp ← pool;
  match pages bp !! id with
  | None => mret None
  | Some page => update (with_lru (fun c => LRU_Access c id)) ;; mret (Some page)
  end.

(** [if page.dirty && bp.flushCallback != nil { ... }]. *)
Definition flush_if_dirty (id : Z) (page : BufferPage) : PM unit :=
  match flushCallback with
  | Some callback => if b_dirty page then call_flush callback id (b_data page) else mret tt
  | None => mret tt
  end.

(** [delete(bp.pages, id); delete(bp.dirtyPages, id); bp.lru.Remove(id)]. *)
Definition drop_page (id : Z) (bp : BufferPool) : BufferPool :=
  with_lru (fun c => LRU_Remove c id) (with_dirty (delete id) (with_pages (delete id) bp)).

Definition pinnedPages (bp : BufferPool) : gset Z := dom (filter (fun '(_, p) => 0 < b_pinCount p) (pages bp)).

Definition evictLocked : PM (option (Z * bytes)) :=
  bp ← pool;
  match GetLRUExcluding (lru bp) (pinnedPages bp) with
  | None => mret None
  | Some pageID =>
      match pages bp !! pageID with
      | None => mret None
      | Some page =>
          r ← try (flush_if_dirty pageID page);
          match r with
          | inr _ => mret None
          | inl _ => update (drop_page pageID) ;; mret (Some (pageID, b_data page))
          end
      end
  end.

Definition Evict : PM (option (Z * bytes)) := evictLocked.

Definition evictOneLocked : PM unit :=
  r ← evictLocked;
  match r with None => fail ErrBufferPoolFull | Some _ => mret tt end.

Definition Pool_Put (id : Z) (data : bytes) : PM BufferPage :=
  bp ← pool;
  match pages bp !! id with
  | Some page =>
      let page := set_data (copy_into_slice (b_data page) data) page in
      update (with_pages (insert id page)) ;;
      update (with_lru (fun c => LRU_Access c id)) ;;
      mret page
  | None =>
      (if decide (Z.of_nat (size (pages bp)) >= capacity bp) then evictOneLocked else mret tt) ;;
      let page := mkBufferPage id (copy_into_slice (zeros (Z.to_nat (poolPageSize bp))) data) false 0 in
      update (with_pages (insert id page)) ;;
      update (with_lru (fun c => LRU_Access c id)) ;;
      mret page
  end.

(** [page, exists := bp.pages[id]; if !exists { return ErrPageNotFound }]. *)
Definition find_page (id : Z) : PM BufferPage :=
  bp ← pool;
  match pages bp !! id with None => fail ErrPageNotFound | Some page => mret page end.

Definition Pin (id : Z) : PM unit :=
  page ← find_page id; update (with_pages (insert id (add_pin 1 page))).

Definition Unpin (id : Z) : PM unit :=
  page ← find_page id;
  if decide (b_pinCount page <= 0) then fail ErrNegativePinCount
  else update (with_pages (insert id (add_pin (-1) page))).

Definition MarkDirty (id : Z) : PM unit :=
  page ← find_page id;
  update (with_pages (insert id (set_dirty true page))) ;;
  update (with_dirty (insert id true)).

(** One turn of the loop over [bp.dirtyPages]. *)
Definition flush_one (id : Z) : PM unit :=
  bp ← pool;
  match pages bp !! id with
  | None => mret tt
  | Some page =>
      (match flushCallback with Some callback => call_flush callback id (b_data page) | None => mret tt end) ;;
      update (with_pages (insert id (set_dirty false page)))
  end.

Definition FlushAll : PM unit :=
  bp ← pool;
  for_each (range (poolDirty bp)).*1 flush_one ;;
  update (with_dirty (fun _ => ∅)).

Definition FlushPage (id : Z) : PM unit :=
  page ← find_page id;
  if negb (b_dirty page) then mret tt
  else
    flush_if_dirty id page ;;
    update (with_pages (insert id (set_dirty false page))) ;;
    update (with_dirty (delete id)).

Definition Pool_Remove (id : Z) : PM unit :=
  page ← find_page id;
  if decide (0 < b_pinCount page) then fail ErrPagePinned
  else flush_if_dirty id page ;; update (drop_page id).

Definition Pool_Clear : PM unit :=
  FlushAll ;;
  update (fun bp => mkBufferPool (capacity bp) (poolPageSize bp) ∅ (LRU_Clear (lru bp)) ∅).

Definition GetDirtyPageIDs : PM (list Z) := bp ← pool; mret (range (poolDirty bp)).*1.

End Pool.

(** The callback that the engine sets (src/internal/storage/engine/obadb.go). *)
Definition engine_flush (pageID : Z) (data : bytes) : M PageManager unit :=
  WritePage (mkPage (mkPageHeader pageID x00 x00 0 0 0) data).
