(* ===== verification/BufferPool.v ===== *)
(** * The buffer pool as a write-back cache

    The invariant of the pool, and what its operations do to the contents that a client
    sees: those of the pool where it has the page, and those of the store elsewhere. *)

From S2P Require Import Prelude GoBinary GoStrings Page Buffer.

(** What the pool needs of the store behind it: its callback writes one page or fails
    without an effect, and pages can be loaded, all of the pool's page size (the engine sets up
    a pool of larger pages than its page manager stores, obadb.go:137, and thereby loses the
    last 16 bytes of every page it flushes; this promise does not hold there). *)
Class BackingStore (W : Type) := {
  page_bytes : nat;
  save : Z -> bytes -> M W unit;
  load : Z -> M W bytes;
  stored_at : W -> Z -> option bytes;
  sound : W -> Prop;
  save_spec w id d : sound w -> is_uint64 id -> length d = page_bytes ->
    exists r w', save id d w = (r, w') /\ sound w'
      /\ (r = Ok tt /\ stored_at w' id = Some d /\ (forall id', id' <> id -> stored_at w' id' = stored_at w id')
          \/ (exists e, r = Err e) /\ forall id', stored_at w' id' = stored_at w id');
  load_spec w id : sound w -> is_uint64 id ->
    match stored_at w id with
    | Some d => load id w = (Ok d, w) /\ length d = page_bytes
    | None => exists e, load id w = (Err e, w)
    end
}.

Definition good_page (n : Z) (bp : BufferPool) (id : Z) (p : BufferPage) : Prop :=
  b_id p = id /\ is_uint64 id /\ length (b_data p) = Z.to_nat (poolPageSize bp)
  /\ 0 <= b_pinCount p <= n /\ (b_dirty p = true -> id ∈ dom (poolDirty bp)).

(** The invariant; [n] bounds the pin counts. *)
Record PoolInv (n : Z) (bp : BufferPool) : Prop := mkPoolInv {
  pi_nodup : NoDup (lru_list (lru bp));
  pi_entries : lru_entries (lru bp) = list_to_set (lru_list (lru bp));
  pi_dom : dom (pages bp) = lru_entries (lru bp);
  pi_capacity : 0 < capacity bp;
  pi_size : Z.of_nat (size (pages bp)) <= capacity bp;
  pi_page : map_Forall (good_page n bp) (pages bp);
  pi_dirty : dom (poolDirty bp) ⊆ dom (pages bp)
}.

Lemma elem_of_without id l x : x ∈ list_without id l <-> x ∈ l /\ x <> id.
Proof.
  unfold list_without. rewrite list_elem_of_In, filter_In, <- list_elem_of_In, negb_true_iff, bool_decide_eq_false. done.
Qed.

Lemma NoDup_without id l : NoDup l -> NoDup (list_without id l).
Proof. intros H. unfold list_without. by apply NoDup_ListNoDup, List.NoDup_filter, NoDup_ListNoDup. Qed.

(** Using a page of the pool. *)
Lemma inv_access n bp id :
  PoolInv n bp -> is_Some (pages bp !! id) -> PoolInv n (with_lru (fun c => LRU_Access c id) bp).
Proof.
  intros [Hnd He Hd Hc Hs Hp Hdi] Hid%elem_of_dom. rewrite Hd in Hid. unfold LRU_Access, with_lru.
  rewrite decide_True by done. constructor; cbn; try done.
  - constructor; [rewrite elem_of_without; tauto | by apply NoDup_without].
  - apply set_eq. intros x. rewrite elem_of_union, elem_of_singleton, elem_of_list_to_set, elem_of_without.
    rewrite He in Hid |- *. rewrite elem_of_list_to_set in *. destruct (decide (x = id)); set_solver.
Qed.

(** Changing a page of the pool. *)
Lemma inv_page n n' bp id p :
  PoolInv n bp -> n <= n' -> is_Some (pages bp !! id) -> good_page n' bp id p -> PoolInv n' (with_pages (insert id p) bp).
Proof.
  intros [Hnd He Hd Hc Hs Hp Hdi] Hn [q Hq] Hg. constructor; cbn; try done.
  - rewrite dom_insert_L, <- Hd. apply elem_of_dom_2 in Hq. set_solver.
  - rewrite map_size_insert_Some; [done | by eexists].
  - apply map_Forall_insert_2; [done |]. intros i x (Hi & Hu & Hl & Hpin & Hdx)%Hp. unfold good_page. split_and!; try done; lia.
  - rewrite dom_insert_L. set_solver.
Qed.

(** A new page, when there is room. *)
Lemma inv_new n bp id d :
  PoolInv n bp -> pages bp !! id = None -> Z.of_nat (size (pages bp)) < capacity bp -> is_uint64 id -> 0 <= n ->
  length d = Z.to_nat (poolPageSize bp) ->
  PoolInv n (with_lru (fun c => LRU_Access c id) (with_pages (insert id (mkBufferPage id d false 0)) bp)).
Proof.
  intros [Hnd He Hd Hc Hs Hp Hdi] Hid Hroom Hu Hn Hlen. pose proof Hid as Hid'%not_elem_of_dom. rewrite Hd in Hid'.
  unfold LRU_Access. cbn [lru with_lru with_pages]. constructor; cbn [lru with_lru with_pages pages poolDirty capacity];
    rewrite ?(decide_False (P := id ∈ lru_entries (lru bp))) by done; cbn [lru_list lru_entries].
  - constructor; [| done]. rewrite He, elem_of_list_to_set in Hid'. done.
  - cbn [list_to_set]. by rewrite He.
  - by rewrite dom_insert_L, Hd.
  - done.
  - rewrite map_size_insert_None by done. lia.
  - apply map_Forall_insert_2; [| done]. by split_and!.
  - rewrite dom_insert_L. set_solver.
Qed.

(** Dropping a page. *)
Lemma inv_drop n bp id : PoolInv n bp -> PoolInv n (drop_page id bp).
Proof.
  intros [Hnd He Hd Hc Hs Hp Hdi]. unfold drop_page, LRU_Remove. cbn [lru with_lru with_dirty with_pages].
  constructor; cbn [lru with_lru with_dirty with_pages pages poolDirty capacity].
  - case_decide; [by apply NoDup_without | done].
  - case_decide; [| done]. cbn. rewrite He. apply set_eq. intros x.
    rewrite elem_of_difference, !elem_of_list_to_set, elem_of_without, elem_of_singleton. done.
  - rewrite dom_delete_L, Hd. case_decide; cbn; [done |]. set_solver.
  - done.
  - pose proof (map_subseteq_size _ _ (delete_subseteq (pages bp) id)). lia.
  - intros i x [Hne Hx]%lookup_delete_Some. destruct (Hp i x Hx) as (Hi & Hu & Hl & Hpin & Hdx).
    split_and!; [done | done | done | lia | lia |]. intros Hd'. cbn. rewrite dom_delete_L.
    specialize (Hdx Hd'). set_solver.
  - rewrite !dom_delete_L. set_solver.
Qed.

Lemma inv_mono n n' bp : PoolInv n bp -> n <= n' -> PoolInv n' bp.
Proof.
  intros [Hnd He Hd Hc Hs Hp Hdi] Hn. constructor; try done.
  intros i x (Hi & Hu & Hl & Hpin & Hdx)%Hp. split_and!; try done; lia.
Qed.

(** Marking, and forgetting the marks of pages that are clean. *)
Lemma inv_mark n bp id : PoolInv n bp -> is_Some (pages bp !! id) -> PoolInv n (with_dirty (insert id true) bp).
Proof.
  intros [Hnd He Hd Hc Hs Hp Hdi] Hid%elem_of_dom. constructor; cbn; try done.
  - intros i x (Hi & Hu & Hl & Hpin & Hdx)%Hp. split_and!; [done | done | done | lia | lia |].
    intros Hdirty%Hdx. cbn. rewrite dom_insert_L. set_solver.
  - rewrite dom_insert_L. set_solver.
Qed.

Lemma inv_unmark n bp f :
  PoolInv n bp -> dom (f (poolDirty bp)) ⊆ dom (poolDirty bp) ->
  (forall id p, pages bp !! id = Some p -> b_dirty p = true -> id ∈ dom (f (poolDirty bp))) ->
  PoolInv n (with_dirty f bp).
Proof.
  intros [Hnd He Hd Hc Hs Hp Hdi] Hsub Hclean. constructor; cbn; try done; [| set_solver].
  intros i x Hx. destruct (Hp i x Hx) as (Hi & Hu & Hl & Hpin & Hdx). split_and!; [done | done | done | lia | lia |].
  intros Hdirty. by eapply Hclean.
Qed.

(** ** The contents that a client sees *)

Section WriteBack.
Context `{MapIteration} {W : Type} `{BackingStore W}.

Abbreviation PM := (M (BufferPool * W)).

(** A client reads a page through the pool, and writes it there. *)
Definition read_page (id : Z) : PM bytes :=
  x ← Pool_Get id;
  match x with
  | Some p => mret (b_data p)
  | None =>
      d ← (fun s => let '(r, w) := load id s.2 in (r, (s.1, w)));
      p ← Pool_Put (Some save) id d;
      mret (b_data p)
  end.

Definition write_page (id : Z) (d : bytes) : PM unit :=
  p ← Pool_Put (Some save) id d; MarkDirty id.

Record Sim (n : Z) (A : Z -> option bytes) (s : BufferPool * W) : Prop := mkSim {
  sim_inv : PoolInv n s.1;
  sim_bytes : Z.to_nat (poolPageSize s.1) = page_bytes;
  sim_sound : sound s.2;
  sim_pool : forall id p, pages s.1 !! id = Some p -> A id = Some (b_data p);
  sim_store : forall id, (forall p, pages s.1 !! id = Some p -> b_dirty p = false) -> stored_at s.2 id = A id
}.

Lemma sim_good n A s id p : Sim n A s -> pages s.1 !! id = Some p -> good_page n s.1 id p.
Proof. intros Hs Hp. exact (pi_page _ _ (sim_inv _ _ _ Hs) id p Hp). Qed.

(** Writing a page of the pool to the store. *)
Lemma call_flush_run n A s id p :
  Sim n A s -> pages s.1 !! id = Some p ->
  exists r w', call_flush save id (b_data p) s = (r, (s.1, w')) /\ Sim n A (s.1, w')
    /\ (r = Ok tt /\ stored_at w' id = A id \/ exists e, r = Err e).
Proof.
  intros Hs Hp. destruct (sim_good _ _ _ _ _ Hs Hp) as (_ & Hu & Hl & _). pose proof Hs as [Hi Hb Hso Hpool Hst].
  destruct (save_spec s.2 id (b_data p) Hso Hu) as (r & w' & Hrun & Hso' & Hres); [by rewrite Hl, Hb |].
  exists r, w'. unfold call_flush. rewrite Hrun. split; [done |].
  destruct Hres as [(-> & Hat & Hother)|([e ->] & Hsame)].
  - split; [| left; by rewrite Hat, (Hpool id p Hp)]. constructor; try done. cbn. intros id' Hc.
    destruct (decide (id' = id)) as [->|Hn]; [by rewrite Hat, (Hpool id p Hp) | rewrite Hother by done; by apply Hst].
  - split; [| right; by eexists]. constructor; try done. cbn. intros id' Hc. rewrite Hsame. by apply Hst.
Qed.

Lemma flush_if_dirty_run n A s id p :
  Sim n A s -> pages s.1 !! id = Some p ->
  exists r w', flush_if_dirty (Some save) id p s = (r, (s.1, w')) /\ Sim n A (s.1, w')
    /\ (r = Ok tt /\ stored_at w' id = A id \/ exists e, r = Err e).
Proof.
  intros Hs Hp. unfold flush_if_dirty. destruct (b_dirty p) eqn:Hd; [by apply call_flush_run |].
  exists (Ok tt), s.2. destruct s as [bp w]. split_and!; [done | done |]. left. split; [done |].
  apply (sim_store _ _ _ Hs). cbn in *. intros q Hq. congruence.
Qed.

Lemma sim_drop n A s id : Sim n A s -> stored_at s.2 id = A id -> Sim n A (drop_page id s.1, s.2).
Proof.
  intros [Hi Hb Hso Hpool Hst] Hat. constructor; [by apply inv_drop | done | done | |]; cbn.
  - intros id' p [_ Hp]%lookup_delete_Some. by apply Hpool.
  - intros id' Hc. destruct (decide (id' = id)) as [->|Hn]; [done |]. apply Hst. intros p Hp. apply Hc.
    by rewrite lookup_delete_ne.
Qed.

(** The page that is evicted is the least recently used one that is not pinned. *)
Lemma GetLRUExcluding_spec c ex id : GetLRUExcluding c ex = Some id -> id ∈ lru_list c /\ id ∉ ex.
Proof.
  unfold GetLRUExcluding. intros [Hin Hex]%List.find_some. rewrite <- list_elem_of_In, elem_of_reverse in Hin.
  apply negb_true_iff, bool_decide_eq_false in Hex. done.
Qed.

Lemma elem_of_pinned bp id p : pages bp !! id = Some p -> id ∉ pinnedPages bp -> b_pinCount p <= 0.
Proof.
  intros Hp Hn. apply Z.nlt_ge. intros Hpin. apply Hn. unfold pinnedPages. apply elem_of_dom. exists p.
  by apply map_lookup_filter_Some.
Qed.

Lemma evict_run n A s :
  Sim n A s ->
  exists r s', evictLocked (Some save) s = (Ok r, s') /\ Sim n A s' /\
    match r with
    | None => s'.1 = s.1
    | Some (id, d) => A id = Some d /\ s'.1 = drop_page id s.1 /\ (size (pages s'.1) < size (pages s.1))%nat
        /\ exists p, pages s.1 !! id = Some p /\ b_pinCount p = 0
    end.
Proof.
  intros Hs. unfold evictLocked. erewrite bind_ok by reflexivity.
  destruct (GetLRUExcluding (lru s.1) (pinnedPages s.1)) as [id|] eqn:E.
  2:{ exists None, s. by split_and!. }
  apply GetLRUExcluding_spec in E as [_ Hpin].
  destruct (pages s.1 !! id) as [p|] eqn:Hp; [| by exists None, s; split_and!].
  destruct (flush_if_dirty_run n A s id p Hs Hp) as (r & w' & Hrun & Hs' & [[-> Hat]|[e ->]]).
  - erewrite bind_ok by (unfold try; rewrite Hrun; reflexivity). do 2 eexists. split; [reflexivity |].
    split; [by apply (sim_drop n A (s.1, w')) |]. cbn. split_and!; [by apply (sim_pool _ _ _ Hs) | done | |].
    + rewrite map_size_delete_Some by (by eexists). assert (size (pages s.1) <> 0%nat); [| lia].
      intros Hz%map_size_empty_inv. rewrite Hz, lookup_empty in Hp. done.
    + exists p. split; [done |]. pose proof (elem_of_pinned _ _ _ Hp Hpin).
      destruct (sim_good _ _ _ _ _ Hs Hp) as (_ & _ & _ & Hpc & _). lia.
  - erewrite bind_ok by (unfold try; rewrite Hrun; reflexivity). exists None. eexists. by split_and!.
Qed.

Definition upd (A : Z -> option bytes) (id : Z) (d : bytes) : Z -> option bytes :=
  fun i => if decide (i = id) then Some d else A i.

(** Everything but the page [id], which may differ from the store without a mark. *)
Record SimBut (n : Z) (A : Z -> option bytes) (id : Z) (s : BufferPool * W) : Prop := mkSimBut {
  sb_inv : PoolInv n s.1;
  sb_bytes : Z.to_nat (poolPageSize s.1) = page_bytes;
  sb_sound : sound s.2;
  sb_pool : forall id p, pages s.1 !! id = Some p -> A id = Some (b_data p);
  sb_store : forall id', id' <> id -> (forall p, pages s.1 !! id' = Some p -> b_dirty p = false) ->
    stored_at s.2 id' = A id';
  sb_here : is_Some (pages s.1 !! id)
}.

Lemma copy_full (dst src : bytes) : length src = length dst -> copy_into_slice dst src = src.
Proof. intros Hl. unfold copy_into_slice. rewrite <- Hl, firstn_all, Hl, drop_all. apply app_nil_r. Qed.

(** Changing the data of a page. *)
Lemma simbut_page n n' A s id p p' :
  Sim n A s -> n <= n' -> pages s.1 !! id = Some p -> good_page n' s.1 id p' ->
  SimBut n' (upd A id (b_data p')) id (with_pages (insert id p') s.1, s.2).
Proof.
  intros [Hi Hb Hso Hpool Hst] Hn Hp Hg. constructor; cbn.
  - apply (inv_page n n' s.1 id p'); [done | done | by eexists | done].
  - done.
  - done.
  - intros i q [[-> ->]|[Hne Hq]]%lookup_insert_Some; unfold upd; [by rewrite decide_True |].
    rewrite decide_False by done. by apply Hpool.
  - intros i Hne Hc. unfold upd. rewrite decide_False by done. apply Hst. intros q Hq. apply Hc.
    by rewrite lookup_insert_ne.
  - rewrite lookup_insert_eq. by eexists.
Qed.

Lemma simbut_access n A s id i :
  SimBut n A id s -> is_Some (pages s.1 !! i) -> SimBut n A id (with_lru (fun c => LRU_Access c i) s.1, s.2).
Proof. intros [Hi Hb Hso Hpool Hst Hh] Hx. constructor; try done. by apply inv_access. Qed.

(** The page agrees with the store again, or is marked. *)
Lemma simbut_sim n A id s :
  SimBut n A id s -> (forall p, pages s.1 !! id = Some p -> b_dirty p = false -> stored_at s.2 id = A id) -> Sim n A s.
Proof.
  intros [Hi Hb Hso Hpool Hst [q Hq]] Hc. constructor; try done. intros i Hcl.
  destruct (decide (i = id)) as [->|Hn]; [| by apply Hst]. eapply Hc; [exact Hq | by apply Hcl].
Qed.

Lemma sim_access n A s id :
  Sim n A s -> is_Some (pages s.1 !! id) -> Sim n A (with_lru (fun c => LRU_Access c id) s.1, s.2).
Proof. intros [Hi Hb Hso Hpool Hst] Hx. constructor; try done. by apply inv_access. Qed.

Lemma upd_same A id d i : A id = Some d -> upd A id d i = A i.
Proof. intros E. unfold upd. case_decide; [by subst | done]. Qed.

Lemma sim_ext n A B s : Sim n A s -> (forall i, A i = B i) -> Sim n B s.
Proof.
  intros [Hi Hb Hso Hpool Hst] He. constructor; try done.
  - intros id p Hp. rewrite <- He. by apply Hpool.
  - intros id Hc. rewrite <- He. by apply Hst.
Qed.

(** A page whose data does not change and that stays marked if it was. *)
Lemma sim_page n n' A s id p p' :
  Sim n A s -> n <= n' -> pages s.1 !! id = Some p -> good_page n' s.1 id p' -> b_data p' = b_data p ->
  (b_dirty p' = false -> b_dirty p = false \/ stored_at s.2 id = A id) ->
  Sim n' A (with_pages (insert id p') s.1, s.2).
Proof.
  intros Hs Hn Hp Hg Hd Hcl. pose proof (sim_pool _ _ _ Hs id p Hp) as HA.
  apply (sim_ext n' (upd A id (b_data p'))); [| intros i; apply upd_same; by rewrite Hd].
  eapply simbut_sim; [by eapply simbut_page |]. cbn. intros q Hq Hcq. rewrite lookup_insert_eq in Hq. injection Hq as <-.
  rewrite upd_same by (by rewrite Hd). destruct (Hcl Hcq) as [Hc|]; [| done].
  apply (sim_store _ _ _ Hs). intros q Hq. congruence.
Qed.

(** Room for a new page. *)
Lemma make_room n A s :
  Sim n A s ->
  let m := if decide (Z.of_nat (size (pages s.1)) >= capacity s.1) then evictOneLocked (Some save) else mret tt in
  (exists s', m s = (Ok tt, s') /\ Sim n A s' /\ Z.of_nat (size (pages s'.1)) < capacity s'.1
     /\ poolPageSize s'.1 = poolPageSize s.1 /\ forall id, pages s.1 !! id = None -> pages s'.1 !! id = None)
  \/ (exists s', m s = (Err ErrBufferPoolFull, s') /\ Sim n A s').
Proof.
  intros Hs m. subst m. case_decide as Hd; [| left; exists s; split_and!; done || lia].
  destruct (evict_run n A s Hs) as (r & s' & Hrun & Hs' & Hr). unfold evictOneLocked. erewrite bind_ok by exact Hrun.
  destruct r as [[id d]|]; [| right; by exists s']. left. destruct Hr as (_ & E & Hsz & _).
  exists s'. split_and!; [done | done | | by rewrite E |].
  - pose proof (pi_size _ _ (sim_inv _ _ _ Hs)). rewrite E in *. cbn [capacity drop_page with_lru with_dirty with_pages] in *. lia.
  - intros i Hi. rewrite E. cbn. by apply lookup_delete_None; right.
Qed.

Lemma put_run n A s id d :
  Sim n A s -> is_uint64 id -> length d = page_bytes -> 0 <= n ->
  (exists s' p, Pool_Put (Some save) id d s = (Ok p, s') /\ SimBut n (upd A id d) id s'
     /\ pages s'.1 !! id = Some p /\ b_data p = d
     /\ (stored_at s'.2 id = A id \/ b_dirty p = true))
  \/ (exists s', Pool_Put (Some save) id d s = (Err ErrBufferPoolFull, s') /\ Sim n A s').
Proof.
  intros Hs Hu Hd Hn. unfold Pool_Put. erewrite bind_ok by reflexivity. destruct (pages s.1 !! id) as [p|] eqn:Hp.
  - left. destruct (sim_good _ _ _ _ _ Hs Hp) as (Hid & _ & Hl & Hpin & Hdirty).
    assert (copy_into_slice (b_data p) d = d) as -> by (apply copy_full; by rewrite Hd, Hl, (sim_bytes _ _ _ Hs)).
    set (p' := set_data d p). assert (good_page n s.1 id p') as Hg.
    { split_and!; [done | done | | apply Hpin | apply Hpin | done]. cbn. by rewrite Hd, (sim_bytes _ _ _ Hs). }
    do 2 erewrite bind_ok by reflexivity. do 2 eexists. split; [reflexivity |]. cbn [fst snd].
    pose proof (simbut_page n n A s id p p' Hs ltac:(lia) Hp Hg) as Hb.
    split_and!; [apply (simbut_access _ _ (_, s.2) _ id); [exact Hb | apply Hb] | cbn; apply lookup_insert_eq | done |].
    cbn. destruct (b_dirty p) eqn:Ed; [by right | left]. apply (sim_store _ _ _ Hs). congruence.
  - destruct (make_room n A s Hs) as [(s1 & Hrun & Hs1 & Hroom & Hps & Hnone)|(s1 & Hrun & Hs1)].
    2:{ right. exists s1. split; [| done]. by erewrite bind_err by exact Hrun. }
    left. erewrite bind_ok by exact Hrun. rewrite copy_full by (rewrite length_zeros, (sim_bytes _ _ _ Hs); done).
    do 2 erewrite bind_ok by reflexivity. do 2 eexists. split; [reflexivity |]. cbn [fst snd].
    pose proof Hs1 as [Hi Hb Hso Hpool Hst].
    split_and!; [| cbn; apply lookup_insert_eq | done | left; cbn; apply Hst; rewrite (Hnone _ Hp); done].
    constructor; cbn [fst snd].
    + apply inv_new; try done; [by apply Hnone | by rewrite Hd, Hb].
    + done.
    + done.
    + cbn. intros i q [[<- <-]|[Hne Hq]]%lookup_insert_Some; unfold upd; [by rewrite decide_True |].
      rewrite decide_False by done. by apply Hpool.
    + cbn. intros i Hne Hc. unfold upd. rewrite decide_False by done. apply Hst. intros q Hq. apply Hc.
      by rewrite lookup_insert_ne.
    + cbn. rewrite lookup_insert_eq. by eexists.
Qed.

Lemma find_page_run (s : BufferPool * W) id :
  find_page id s = (match pages s.1 !! id with Some p => Ok p | None => Err ErrPageNotFound end, s).
Proof. unfold find_page. erewrite bind_ok by reflexivity. by destruct (pages s.1 !! id). Qed.

(** Reading and writing through the pool. *)
Lemma read_page_run n A s id :
  Sim n A s -> is_uint64 id -> 0 <= n ->
  exists r s', read_page id s = (r, s') /\ Sim n A s'
    /\ ((exists d, r = Ok d /\ A id = Some d)
        \/ (exists e, r = Err e /\ (A id = None \/ e = ErrBufferPoolFull))).
Proof.
  intros Hs Hu Hn. unfold read_page, Pool_Get. rewrite bind_run. erewrite bind_ok by reflexivity.
  destruct (pages s.1 !! id) as [p|] eqn:Hp.
  - do 2 eexists. split; [reflexivity |]. split; [apply sim_access; [done | by eexists] |].
    left. exists (b_data p). split; [done |]. by apply (sim_pool _ _ _ Hs).
  - cbn. assert (stored_at s.2 id = A id) as Hst by (apply (sim_store _ _ _ Hs); intros q Hq; congruence).
    pose proof (load_spec s.2 id (sim_sound _ _ _ Hs) Hu) as Hload. rewrite Hst in Hload.
    destruct (A id) as [d|] eqn:HA; last first.
    { destruct Hload as [e Hload]. exists (Err e), s. split; [| split; [done |]].
      - erewrite bind_err; [done |]. rewrite Hload. by destruct s.
      - right. exists e. split; [done | by left]. }
    destruct Hload as [Hload Hlen].
    erewrite bind_ok by (rewrite Hload; reflexivity). destruct s as [bp w]. cbn [fst snd] in *.
    destruct (put_run n A (bp, w) id d Hs Hu Hlen Hn) as [(s' & p & Hput & Hb & Hp' & Hd & Hor)|(s' & Hput & Hs')].
    + erewrite bind_ok by exact Hput. do 2 eexists. split; [reflexivity |]. split; [| left; exists d; by rewrite Hd].
      apply (sim_ext n (upd A id d)); [| intros i; by apply upd_same].
      apply (simbut_sim n _ id); [done |]. intros q Hq Hc. rewrite upd_same by done.
      assert (q = p) as -> by congruence. destruct Hor as [Hor|Hor]; [done | congruence].
    + erewrite bind_err by exact Hput. do 2 eexists. split; [reflexivity |]. split; [done |]. right.
      exists ErrBufferPoolFull. split; [done | by right].
Qed.

Lemma write_page_run n A s id d :
  Sim n A s -> is_uint64 id -> length d = page_bytes -> 0 <= n ->
  exists r s', write_page id d s = (r, s')
    /\ (r = Ok tt /\ Sim n (upd A id d) s' \/ r = Err ErrBufferPoolFull /\ Sim n A s').
Proof.
  intros Hs Hu Hl Hn. unfold write_page.
  destruct (put_run n A s id d Hs Hu Hl Hn) as [(s' & p & Hput & Hb & Hp & Hd & _)|(s' & Hput & Hs')].
  2:{ erewrite bind_err by exact Hput. do 2 eexists. split; [reflexivity |]. by right. }
  erewrite bind_ok by exact Hput. unfold MarkDirty. erewrite bind_ok by (rewrite find_page_run, Hp; reflexivity).
  erewrite bind_ok by reflexivity. do 2 eexists. split; [reflexivity |]. left. split; [done |]. cbn [fst snd].
  pose proof Hb as [Hi Hby Hso Hpool Hst _].
  assert (PoolInv n (with_dirty (insert id true) s'.1)) as Hi1 by (apply inv_mark; [done | by eexists]).
  assert (good_page n (with_dirty (insert id true) s'.1) id (set_dirty true p)) as Hg.
  { destruct (pi_page _ _ Hi id p Hp) as (Hid & _ & Hlen & Hpin & _). split_and!; try done; [apply Hpin.. |].
    intros _. cbn. rewrite dom_insert_L. set_solver. }
  apply (simbut_sim n _ id).
  - constructor; cbn.
    + change (PoolInv n (with_pages (insert id (set_dirty true p)) (with_dirty (insert id true) s'.1))).
      apply (inv_page n n); [done | lia | by eexists | done].
    + done.
    + done.
    + intros i q [[<- <-]|[Hne Hq]]%lookup_insert_Some; [cbn; by apply Hpool | by apply Hpool].
    + intros i Hne Hc. apply Hst; [done |]. intros q Hq. apply Hc. by rewrite lookup_insert_ne.
    + rewrite lookup_insert_eq. by eexists.
  - cbn. intros q Hq. rewrite lookup_insert_eq in Hq. injection Hq as <-. done.
Qed.

(** ** Flushing *)

Lemma flush_one_run n A s id :
  Sim n A s ->
  exists r s', flush_one (Some save) id s = (r, s') /\ Sim n A s' /\ poolDirty s'.1 = poolDirty s.1
    /\ poolPageSize s'.1 = poolPageSize s.1
    /\ (forall i p, pages s'.1 !! i = Some p -> b_dirty p = true -> exists p0, pages s.1 !! i = Some p0 /\ b_dirty p0 = true)
    /\ (r = Ok tt /\ (forall p, pages s'.1 !! id = Some p -> b_dirty p = false) \/ exists e, r = Err e).
Proof.
  intros Hs. unfold flush_one. erewrite bind_ok by reflexivity. destruct (pages s.1 !! id) as [p|] eqn:Hp.
  2:{ exists (Ok tt), s. split_and!; try done; [by eauto |]. left. split; [done |]. congruence. }
  destruct (call_flush_run n A s id p Hs Hp) as (r & w' & Hrun & Hs' & [[-> Hat]|[e ->]]).
  - erewrite bind_ok by exact Hrun. do 2 eexists. split; [reflexivity |]. cbn [fst snd].
    destruct (sim_good _ _ _ _ _ Hs Hp) as (Hid & Hu & Hl & Hpin & Hd). split_and!; try done.
    + apply (sim_page n n A (s.1, w') id p); [done | lia | done | | done | by right]. by split_and!; try apply Hpin.
    + cbn. intros i q [[<- <-]|[Hne Hq]]%lookup_insert_Some Hdq; [done | by exists q].
    + left. split; [done |]. cbn. intros q Hq. rewrite lookup_insert_eq in Hq. by injection Hq as <-.
  - erewrite bind_err by exact Hrun. do 2 eexists. split; [reflexivity |]. split_and!; try done; [by eauto |].
    right. by eexists.
Qed.

Lemma flush_loop n A l s :
  Sim n A s ->
  exists r s', for_each l (flush_one (Some save)) s = (r, s') /\ Sim n A s' /\ poolDirty s'.1 = poolDirty s.1
    /\ (forall i p, pages s'.1 !! i = Some p -> b_dirty p = true -> exists p0, pages s.1 !! i = Some p0 /\ b_dirty p0 = true)
    /\ (r = Ok tt /\ (forall i p, i ∈ l -> pages s'.1 !! i = Some p -> b_dirty p = false) \/ exists e, r = Err e).
Proof.
  revert s. induction l as [|id l IH]; intros s Hs.
  { exists (Ok tt), s. split_and!; try done; [by eauto |]. left. split; [done |]. set_solver. }
  cbn [for_each]. destruct (flush_one_run n A s id Hs) as (r & s1 & Hrun & Hs1 & Hd1 & _ & Hmono & [[-> Hcl]|[e ->]]).
  2:{ erewrite bind_err by exact Hrun. do 2 eexists. split; [reflexivity |]. split_and!; try done. right. by eexists. }
  erewrite bind_ok by exact Hrun. destruct (IH s1 Hs1) as (r & s2 & Hrun2 & Hs2 & Hd2 & Hmono2 & Hres).
  exists r, s2. split_and!; [done | done | by rewrite Hd2 | |].
  { intros i p Hp Hd. destruct (Hmono2 i p Hp Hd) as (p1 & Hp1 & Hdp1). by eapply Hmono. }
  destruct Hres as [[-> Hcl2]|[e ->]]; [left | right; by eexists]. split; [done |].
  intros i p [->|Hin]%elem_of_cons Hp; [| by eapply Hcl2].
  destruct (b_dirty p) eqn:Hd; [| done]. destruct (Hmono2 _ _ Hp Hd) as (p1 & Hp1 & Hdp1).
  rewrite (Hcl p1 Hp1) in Hdp1. done.
Qed.

Lemma FlushAll_run n A s :
  Sim n A s ->
  exists r s', FlushAll (Some save) s = (r, s') /\ Sim n A s'
    /\ (r = Ok tt /\ (forall i p, pages s'.1 !! i = Some p -> b_dirty p = false) /\ poolDirty s'.1 = ∅ \/ exists e, r = Err e).
Proof.
  intros Hs. unfold FlushAll. erewrite bind_ok by reflexivity.
  destruct (flush_loop n A (range (poolDirty s.1)).*1 s Hs) as (r & s1 & Hrun & Hs1 & Hd1 & Hmono & [[-> Hcl]|[e ->]]).
  2:{ erewrite bind_err by exact Hrun. do 2 eexists. split; [reflexivity |]. split; [done |]. right. by eexists. }
  erewrite bind_ok by exact Hrun. do 2 eexists. split; [reflexivity |]. cbn [fst snd].
  assert (forall i p, pages s1.1 !! i = Some p -> b_dirty p = false) as Hclean.
  { intros i p Hp. destruct (b_dirty p) eqn:Hd; [| done]. rewrite <- Hd. apply (Hcl i p); [| done].
    destruct (sim_good _ _ _ _ _ Hs1 Hp) as (_ & _ & _ & _ & Hin). specialize (Hin Hd). rewrite Hd1 in Hin.
    apply elem_of_dom in Hin as [b Hb]. apply list_elem_of_fmap. exists (i, b). by rewrite elem_of_range. }
  split; [| by left]. pose proof Hs1 as [Hi Hby Hso Hpool Hst]. constructor; try done.
  apply inv_unmark; [done | set_solver |]. intros i p Hp Hd. rewrite (Hclean i p Hp) in Hd. done.
Qed.

(** ** The other operations *)

Lemma pin_run n A s id :
  Sim n A s -> 0 <= n -> n + 1 < 2 ^ 63 ->
  exists r s', Pin id s = (r, s') /\ returns r /\ Sim (n + 1) A s'.
Proof.
  intros Hs Hn Hb. unfold Pin. rewrite bind_run, find_page_run. destruct (pages s.1 !! id) as [p|] eqn:Hp.
  2:{ do 2 eexists. split_and!; [reflexivity | done |]. destruct Hs as [Hi ? ? ? ?]. constructor; try done.
      apply (inv_mono n); [done | lia]. }
  do 2 eexists. split_and!; [reflexivity | done |]. cbn [fst snd].
  destruct (sim_good _ _ _ _ _ Hs Hp) as (Hid & Hu & Hl & Hpin & Hd).
  apply (sim_page n (n + 1) A s id p); [done | lia | done | | done | by left].
  assert (b_pinCount (add_pin 1 p) = b_pinCount p + 1) as E by (apply int64_id; unfold is_int64; lia).
  split_and!; try done; rewrite E; lia.
Qed.

Lemma unpin_run n A s id :
  Sim n A s -> 0 <= n < 2 ^ 63 -> exists r s', Unpin id s = (r, s') /\ returns r /\ Sim n A s'.
Proof.
  intros Hs Hn. unfold Unpin. rewrite bind_run, find_page_run. destruct (pages s.1 !! id) as [p|] eqn:Hp.
  2:{ do 2 eexists. by split_and!. }
  case_decide as Hz; [do 2 eexists; by split_and! |]. do 2 eexists. split_and!; [reflexivity | done |]. cbn [fst snd].
  destruct (sim_good _ _ _ _ _ Hs Hp) as (Hid & Hu & Hl & Hpin & Hd).
  apply (sim_page n n A s id p); [done | lia | done | | done | by left].
  assert (b_pinCount (add_pin (-1) p) = b_pinCount p + -1) as E by (apply int64_id; unfold is_int64; lia).
  split_and!; try done; rewrite E; lia.
Qed.

Lemma FlushPage_run n A s id :
  Sim n A s -> exists r s', FlushPage (Some save) id s = (r, s') /\ returns r /\ Sim n A s'
    /\ (r = Ok tt -> stored_at s'.2 id = A id).
Proof.
  intros Hs. unfold FlushPage. rewrite bind_run, find_page_run. destruct (pages s.1 !! id) as [p|] eqn:Hp.
  2:{ do 2 eexists. by split_and!. }
  destruct (b_dirty p) eqn:Hd; cbn [negb].
  2:{ do 2 eexists. split_and!; [reflexivity | done | done |]. intros _. apply (sim_store _ _ _ Hs). congruence. }
  destruct (flush_if_dirty_run n A s id p Hs Hp) as (r & w' & Hrun & Hs' & [[-> Hat]|[e ->]]).
  2:{ erewrite bind_err by exact Hrun. do 2 eexists. by split_and!. }
  erewrite bind_ok by exact Hrun. erewrite bind_ok by reflexivity. do 2 eexists. split_and!; [reflexivity | done | | done].
  cbn [fst snd]. destruct (sim_good _ _ _ _ _ Hs Hp) as (Hid & Hu & Hl & Hpin & Hd').
  assert (Sim n A (with_pages (insert id (set_dirty false p)) s.1, w')) as Hs1.
  { apply (sim_page n n A (s.1, w') id p); [done | lia | done | | done | by right]. by split_and!; try apply Hpin. }
  pose proof Hs1 as [Hi Hby Hso Hpool Hst]. constructor; try done.
  apply inv_unmark; [done | rewrite dom_delete_L; set_solver |]. cbn in Hi |- *.
  intros i q [[<- <-]|[Hne Hq]]%lookup_insert_Some Hdq; [done |]. rewrite dom_delete_L.
  destruct (sim_good _ _ _ _ _ Hs Hq) as (_ & _ & _ & _ & Hin). specialize (Hin Hdq). set_solver.
Qed.

Lemma Remove_run n A s id :
  Sim n A s -> exists r s', Pool_Remove (Some save) id s = (r, s') /\ returns r /\ Sim n A s'.
Proof.
  intros Hs. unfold Pool_Remove. rewrite bind_run, find_page_run. destruct (pages s.1 !! id) as [p|] eqn:Hp.
  2:{ do 2 eexists. by split_and!. }
  case_decide; [do 2 eexists; by split_and! |].
  destruct (flush_if_dirty_run n A s id p Hs Hp) as (r & w' & Hrun & Hs' & [[-> Hat]|[e ->]]).
  - erewrite bind_ok by exact Hrun. do 2 eexists. split_and!; [reflexivity | done |]. by apply (sim_drop n A (s.1, w')).
  - erewrite bind_err by exact Hrun. do 2 eexists. by split_and!.
Qed.

Lemma Clear_run n A s :
  Sim n A s -> 0 <= n ->
  exists r s', Pool_Clear (Some save) s = (r, s') /\ returns r /\ Sim n A s'
    /\ (r = Ok tt -> pages s'.1 = ∅ /\ forall id, stored_at s'.2 id = A id).
Proof.
  intros Hs Hn. unfold Pool_Clear.
  destruct (FlushAll_run n A s Hs) as (r & s1 & Hrun & Hs1 & [(-> & Hcl & _)|[e ->]]).
  2:{ erewrite bind_err by exact Hrun. do 2 eexists. by split_and!. }
  erewrite bind_ok by exact Hrun. do 2 eexists. split_and!; [reflexivity | done | |].
  - pose proof Hs1 as [Hi Hby Hso Hpool Hst]. constructor; cbn; try done.
    + pose proof (pi_capacity _ _ Hi). constructor; cbn; try done; [constructor |].
      change (Z.of_nat 0 <= capacity s1.1). lia.
    + intros id _. apply Hst. intros p. apply Hcl.
  - intros _. split; [done |]. intros id. cbn. apply (sim_store _ _ _ Hs1). intros p. apply Hcl.
Qed.

(** A new pool. *)
Lemma sim_new cap size w :
  sound w -> (if decide (size <= 0) then PageSize else size) = Z.of_nat page_bytes ->
  Sim 0 (stored_at w) (NewBufferPool cap size, w).
Proof.
  intros Hw Hsz. constructor; cbn; try done; [| rewrite Hsz; lia].
  assert (0 < if decide (cap <= 0) then 16 else cap) as Hc by (clear Hsz; case_decide; lia).
  split; cbn; try done; [apply NoDup_nil_2 |]. change (Z.of_nat 0 <= if decide (cap <= 0) then 16 else cap).
  lia.
Qed.

End WriteBack.
