(* ===== verification/BufferTheorems.v ===== *)
(** * Theorems about the buffer pool *)

From S2P Require Import Prelude GoBinary GoStrings Page PageStore PageTheorems RecoverySteps Buffer BufferPool.

Inductive pool_op :=
| BRead (id : Z)
| BWrite (id : Z) (d : bytes)
| BPin (id : Z)
| BUnpin (id : Z)
| BFlushPage (id : Z)
| BFlushAll
| BEvict
| BRemove (id : Z)
| BClear.

Section Refinement.
Context `{MapIteration} {W : Type} `{BackingStore W}.

Definition wf_pool_op (o : pool_op) : Prop :=
  match o with
  | BRead id | BPin id | BUnpin id | BFlushPage id | BRemove id => is_uint64 id
  | BWrite id d => is_uint64 id /\ length d = page_bytes
  | _ => True
  end.

Definition pool_exec (o : pool_op) : M (BufferPool * W) (option bytes) :=
  match o with
  | BRead id => d ← read_page id; mret (Some d)
  | BWrite id d => write_page id d ;; mret None
  | BPin id => Pin id ;; mret None
  | BUnpin id => Unpin id ;; mret None
  | BFlushPage id => FlushPage (Some save) id ;; mret None
  | BFlushAll => FlushAll (Some save) ;; mret None
  | BEvict => r ← Evict (Some save); mret (snd <$> r)
  | BRemove id => Pool_Remove (Some save) id ;; mret None
  | BClear => Pool_Clear (Some save) ;; mret None
  end.

(** What a map of pages allows; [w] is the store after the operation. *)
Inductive pool_spec (w : W) (A : Z -> option bytes) : pool_op -> outcome (option bytes) -> (Z -> option bytes) -> Prop :=
| spec_read id d : A id = Some d -> pool_spec w A (BRead id) (Ok (Some d)) A
| spec_read_err id e : A id = None \/ e = ErrBufferPoolFull -> pool_spec w A (BRead id) (Err e) A
| spec_write id d : pool_spec w A (BWrite id d) (Ok None) (upd A id d)
| spec_write_full id d : pool_spec w A (BWrite id d) (Err ErrBufferPoolFull) A
| spec_pin id r : pool_spec w A (BPin id) r A
| spec_unpin id r : pool_spec w A (BUnpin id) r A
| spec_flush_page id r : (r = Ok None -> stored_at w id = A id) -> pool_spec w A (BFlushPage id) r A
| spec_flush r : (r = Ok None -> forall id, stored_at w id = A id) -> pool_spec w A BFlushAll r A
| spec_clear r : (r = Ok None -> forall id, stored_at w id = A id) -> pool_spec w A BClear r A
| spec_evict x : (forall d, x = Some d -> exists id, A id = Some d) -> pool_spec w A BEvict (Ok x) A
| spec_remove id r : pool_spec w A (BRemove id) r A.

Fixpoint pool_run (s : BufferPool * W) (A : Z -> option bytes) (os : list pool_op) : Prop :=
  match os with
  | [] => True
  | o :: os =>
      let '(r, s') := pool_exec o s in
      returns r /\ Z.of_nat (size (pages s'.1)) <= capacity s'.1
      /\ exists A', pool_spec s'.2 A o r A' /\ pool_run s' A' os
  end.

Lemma then_none {S B} (m : M S B) s r s' :
  m s = (r, s') -> (m ;; mret (None : option bytes)) s = (r ≫= (fun _ => Ok None), s').
Proof. intros E. rewrite bind_run, E. by destruct r. Qed.

Lemma sim_mono n n' A (s : BufferPool * W) : Sim n A s -> n <= n' -> Sim n' A s.
Proof. intros [Hi ? ? ? ?] Hn. constructor; try done. by apply (inv_mono n). Qed.

Lemma pool_step n A s o :
  Sim n A s -> wf_pool_op o -> 0 <= n -> n + 1 < 2 ^ 63 ->
  exists r s' A', pool_exec o s = (r, s') /\ returns r /\ pool_spec s'.2 A o r A' /\ Sim (n + 1) A' s'.
Proof.
  intros Hs Hw Hn Hb. destruct o; cbn [pool_exec wf_pool_op] in *.
  - destruct (read_page_run n A s id Hs Hw Hn) as (r & s' & Hrun & Hs' & [(d & -> & HA)|(e & -> & HA)]).
    + erewrite bind_ok by exact Hrun. do 3 eexists. split_and!; [reflexivity | done | by constructor |].
      apply (sim_mono n); [done | lia].
    + erewrite bind_err by exact Hrun. do 3 eexists. split_and!; [reflexivity | done | by constructor |].
      apply (sim_mono n); [done | lia].
  - destruct Hw as [Hu Hl]. destruct (write_page_run n A s id d Hs Hu Hl Hn) as (r & s' & Hrun & [[-> Hs']|[-> Hs']]);
      (do 3 eexists; split_and!; [by apply then_none | done | by constructor | apply (sim_mono n); [done | lia]]).
  - destruct (pin_run n A s id Hs Hn Hb) as (r & s' & Hrun & Hret & Hs').
    do 3 eexists; split_and!; [by apply then_none | by destruct r | constructor | done].
  - destruct (unpin_run n A s id Hs ltac:(lia)) as (r & s' & Hrun & Hret & Hs').
    do 3 eexists; split_and!; [by apply then_none | by destruct r | constructor | apply (sim_mono n); [done | lia]].
  - destruct (FlushPage_run n A s id Hs) as (r & s' & Hrun & Hret & Hs' & Hst).
    do 3 eexists; split_and!; [by apply then_none | by destruct r | constructor | apply (sim_mono n); [done | lia]].
    intros E. apply Hst. by destruct r as [[]| | |].
  - destruct (FlushAll_run n A s Hs) as (r & s' & Hrun & Hs' & Hres).
    do 3 eexists; split_and!; [by apply then_none | | constructor | apply (sim_mono n); [done | lia]].
    + by destruct Hres as [(-> & _)|[e ->]].
    + intros E id. destruct Hres as [(-> & Hcl & _)|[e ->]]; [| done]. apply (sim_store _ _ _ Hs'). intros p. apply Hcl.
  - destruct (evict_run n A s Hs) as (r & s' & Hrun & Hs' & Hr). unfold Evict. erewrite bind_ok by exact Hrun.
    do 3 eexists; split_and!; [reflexivity | done | constructor | apply (sim_mono n); [done | lia]].
    intros d E. destruct r as [[id d']|]; [| done]. injection E as <-. exists id. apply Hr.
  - destruct (Remove_run n A s id Hs) as (r & s' & Hrun & Hret & Hs').
    do 3 eexists; split_and!; [by apply then_none | by destruct r | constructor | apply (sim_mono n); [done | lia]].
  - destruct (Clear_run n A s Hs Hn) as (r & s' & Hrun & Hret & Hs' & Hst).
    do 3 eexists; split_and!; [by apply then_none | by destruct r | constructor | apply (sim_mono n); [done | lia]].
    intros E. apply Hst. by destruct r as [[]| | |].
Qed.

Lemma pool_run_sim n A s os :
  Sim n A s -> Forall wf_pool_op os -> 0 <= n -> n + len os < 2 ^ 63 -> pool_run s A os.
Proof.
  intros Hs Hos. revert n A s Hs. induction Hos as [|o os Ho _ IH]; intros n A s Hs Hn Hb; [done |].
  rewrite len_cons in Hb. pose proof (len_nonneg os).
  destruct (pool_step n A s o Hs Ho Hn ltac:(lia)) as (r & s' & A' & Hrun & Hret & Hspec & Hs').
  cbn [pool_run]. rewrite Hrun. split_and!; [done | apply (pi_size _ _ (sim_inv _ _ _ Hs')) |].
  exists A'. split; [done |]. apply (IH (n + 1)); [done | lia | lia].
Qed.

(** C21: The buffer pool is a write-back cache of the store behind it. Whatever sequence of
    reads through the pool, writes, pins, flushes, evictions and removals is run, every
    operation returns; a read yields the page as last written, whether it is in the pool, was evicted or
    never loaded, and fails only for a page that does not exist or when no page can make
    room; no more pages than the capacity are held; and after a flush of a page, of all
    pages, or a clear that succeeds, the store holds what was written. Failing writes of
    the store lose nothing. *)
Theorem buffer_pool_refines cap size w os :
  sound w -> (if decide (size <= 0) then PageSize else size) = Z.of_nat page_bytes ->
  Forall wf_pool_op os -> len os < 2 ^ 63 ->
  pool_run (NewBufferPool cap size, w) (stored_at w) os.
Proof. intros Hw Hsz Hos Hb. apply (pool_run_sim 0); [by apply sim_new | done | lia | lia]. Qed.
End Refinement.

(** ** The page manager behind the pool *)

Section PageStore.
Context (disk_limit : Z) (Hlimit : disk_limit < 2 ^ 62).

Definition on_disk (pm : PageManager) (id : Z) : option bytes :=
  if decide (0 < id < totalPages pm) then
    match page_at (file pm) id with Ok p => Some (Data p) | _ => None end
  else None.

Definition load_page (id : Z) : M PageManager bytes := p ← ReadPage id; mret (Data p).

Definition writable (pm : PageManager) : Prop := Shape disk_limit pm /\ closed pm = false /\ readOnly pm = false.

Lemma engine_flush_run pm id d :
  writable pm -> is_uint64 id -> length d = data_size ->
  exists r pm', engine_flush id d pm = (r, pm') /\ writable pm'
    /\ (r = Ok tt /\ on_disk pm' id = Some d /\ (forall id', id' <> id -> on_disk pm' id' = on_disk pm id')
        \/ (exists e, r = Err e) /\ forall id', on_disk pm' id' = on_disk pm id').
Proof.
  intros (Hs & Ho & Hrw) Hu Hl. set (p := mkPage (mkPageHeader id x00 x00 0 0 0) d).
  unfold engine_flush, WritePage. erewrite bind_ok by reflexivity. rewrite Ho. erewrite bind_ok by reflexivity. rewrite Hrw.
  fold p. destruct (decide (0 < id < totalPages pm)) as [Hid|Hid].
  - rewrite (page_write_run disk_limit Hlimit pm p) by done. do 2 eexists. split_and!; [reflexivity | |].
    { split_and!; [| done | done]. apply Shape_file; [done |]. apply pages_of_put; [apply Hs | cbn; lia]. }
    left. unfold on_disk. cbn [file totalPages with_file]. split_and!; [done | |].
    + pose proof (page_at_put (file pm) (totalPages pm) p (sh_pages _ _ Hs) ltac:(cbn; lia) ltac:(by constructor)) as Hat.
      change (ph_PageID (Header p)) with id in Hat. rewrite decide_True, Hat by done. cbn. f_equal. by apply pad_id.
    + intros id' Hne. case_decide as Hid'; [| done].
      rewrite (page_at_put_other (file pm) (totalPages pm) p id'); [done | apply Hs | cbn; lia | lia | done].
  - destruct (write_run_bad pm p) as [e He]; [done | cbn; apply Hu |]. rewrite He. do 2 eexists.
    split_and!; [reflexivity | by split_and! |]. right. split; [by eexists | done].
Qed.

Lemma load_page_run pm id :
  writable pm -> is_uint64 id ->
  match on_disk pm id with
  | Some d => load_page id pm = (Ok d, pm) /\ length d = data_size
  | None => exists e, load_page id pm = (Err e, pm)
  end.
Proof.
  intros (Hs & Ho & Hrw) Hu. unfold on_disk, load_page, ReadPage. rewrite bind_run. erewrite bind_ok by reflexivity. rewrite Ho.
  case_decide as Hid.
  - assert (exists p, page_at (file pm) id = Ok p) as [p Hp].
    { unfold page_at, Page_Deserialize.
      assert (len (ReadAt (file pm) (Z.to_nat (id * PageSize)) (Z.to_nat PageSize)) = PageSize) as Hlen.
      { unfold len. rewrite length_ReadAt; [done |]. apply (page_inside _ _ id (sh_pages _ _ Hs)). lia. }
      rewrite Hlen, decide_False by lia. unfold PageHeader_Deserialize. rewrite decide_False; [by eexists |].
      unfold len in *. rewrite length_take. unfold PageHeaderSize, PageSize in *. lia. }
    rewrite Hp. rewrite (read_run disk_limit Hlimit pm id p) by done. split; [done |]. by eapply page_at_wf.
  - unfold readPageInternal. case_decide; [by eexists |]. erewrite bind_ok by reflexivity.
    rewrite decide_True by (unfold is_uint64 in Hu; lia). by eexists.
Qed.

(** The callback of the engine, for pages of 4080 bytes. *)
Definition page_store : BackingStore PageManager := {|
  page_bytes := data_size; save := engine_flush; load := load_page; stored_at := on_disk; sound := writable;
  save_spec := fun pm id d => engine_flush_run pm id d; load_spec := fun pm id => load_page_run pm id
|}.
End PageStore.

Module PoolExample.
#[local] Instance iteration_order : MapIteration := {|
  range _ _ _ _ m := map_to_list m;
  range_perm _ _ _ _ m := reflexivity (map_to_list m)
|}.
Definition limit : Z := 2 ^ 40.
Definition opts : Options := mkOptions 0 4 true false.
Definition store : BackingStore PageManager := page_store limit eq_refl.
Definition text (b : byte) : bytes := b :: zeros 4079.

(** A pool of one page: each access evicts the page before it. *)
Definition ops : list pool_op :=
  [BWrite 1 (text x61); BWrite 2 (text x62); BRead 1; BPin 1; BRead 2; BRead 9; BUnpin 1; BRead 2; BFlushAll; BClear].

Fixpoint outcomes (s : BufferPool * PageManager) (os : list pool_op) : list (outcome (option byte)) :=
  match os with
  | [] => []
  | o :: os =>
      let '(r, s') := pool_exec (H0 := store) o s in
      (r ≫= (fun d => Ok (d ≫= (fun d => d !! 0%nat)))) :: outcomes s' os
  end.
End PoolExample.

(** The third read fails while the pool's only page is pinned; page 9 does not exist. *)
Lemma buffer_pool_refines_witness :
  exists pm, OpenPageManager PoolExample.limit None PoolExample.opts = Ok pm
    /\ PoolExample.outcomes (NewBufferPool 1 4080, pm) PoolExample.ops
       = [Ok None; Ok None; Ok (Some x61); Ok None; Err ErrBufferPoolFull; Err ErrPageOutOfRange; Ok None; Ok (Some x62);
          Ok None; Ok None]
    /\ pool_run (H := PoolExample.iteration_order) (H0 := PoolExample.store) (NewBufferPool 1 4080, pm) (on_disk pm) PoolExample.ops.
Proof.
  assert (match OpenPageManager PoolExample.limit None PoolExample.opts with
          | Ok pm => PoolExample.outcomes (NewBufferPool 1 4080, pm) PoolExample.ops
          | _ => []
          end = [Ok None; Ok None; Ok (Some x61); Ok None; Err ErrBufferPoolFull; Err ErrPageOutOfRange; Ok None; Ok (Some x62);
                 Ok None; Ok None]) as E by (vm_compute; reflexivity).
  destruct (OpenPageManager PoolExample.limit None PoolExample.opts) as [pm| | |] eqn:Ho; [| discriminate E..].
  exists pm. split; [reflexivity |]. split; [exact E |].
  pose proof (init_run PoolExample.limit PoolExample.opts pm (or_introl eq_refl) ltac:(done) Ho) as [Hs Hc Hr _ _ _ _].
  apply (buffer_pool_refines (H := PoolExample.iteration_order) (H0 := PoolExample.store) 1 4080 pm PoolExample.ops);
    [by split_and! | reflexivity | repeat constructor; done | done].
Defined.
