(* ===== verification/Checkpoint.v ===== *)
(** * Checkpoints (src/internal/storage/checkpoint.go)

    The model, and what a checkpoint guarantees. A time is its nanoseconds since 1970, [None]
    the zero time. The time at which a checkpoint is taken and the answer of the callback for
    the active transactions are arguments; the flush callback of the pool is that of the
    engine. *)

From S2P Require Import Prelude GoBinary GoStrings Page Wal Buffer PageStore PageTheorems WalLog WalTheorems Recovery RecoverySteps RecoveryTheorems BufferPool BufferTheorems.

Definition ErrCheckpointInProgress : goerror := ErrConst "ErrCheckpointInProgress".
Definition ErrNoActiveCheckpoint : goerror := ErrConst "ErrNoActiveCheckpoint".
Definition ErrInvalidCheckpoint : goerror := ErrConst "ErrInvalidCheckpoint".

Record CheckpointData := mkCheckpointData {
  cd_Timestamp : Z;
  cd_ActiveTxIDs : list Z;
  cd_DirtyPageIDs : list Z;
  cd_LastLSN : Z
}.

Definition CheckpointData_Serialize (cd : CheckpointData) : bytes :=
  put64 (uint64 (cd_Timestamp cd)) ++ put64 (cd_LastLSN cd)
  ++ put32 (uint32 (len (cd_ActiveTxIDs cd))) ++ (cd_ActiveTxIDs cd ≫= put64)
  ++ put32 (uint32 (len (cd_DirtyPageIDs cd))) ++ (cd_DirtyPageIDs cd ≫= put64).

(** [for i := 0; i < n; i++ { ids[i] = Uint64(buf[offset:]); offset += 8 }]. *)
Definition read_ids (buf : bytes) (offset n : nat) : list Z := (fun i => field buf (offset + 8 * i) 8) <$> seq 0 n.

Definition CheckpointData_Deserialize (buf : bytes) : outcome CheckpointData :=
  if decide (len buf < 24) then Err ErrInvalidCheckpoint
  else
    let timestamp := field buf 0 8 in
    let lastLSN := field buf 8 8 in
    if decide (16 + 4 > len buf) then Err ErrInvalidCheckpoint
    else
      let txCount := field buf 16 4 in
      if decide (20 + txCount * 8 > len buf) then Err ErrInvalidCheckpoint
      else
        let txs := read_ids buf 20 (Z.to_nat txCount) in
        let offset := 20 + 8 * txCount in
        if decide (offset + 4 > len buf) then Err ErrInvalidCheckpoint
        else
          let pageCount := field buf (Z.to_nat offset) 4 in
          if decide (offset + 4 + pageCount * 8 > len buf) then Err ErrInvalidCheckpoint
          else
            Ok (mkCheckpointData (int64 timestamp) txs
                  (read_ids buf (Z.to_nat (offset + 4)) (Z.to_nat pageCount)) lastLSN).

Definition ParseCheckpointRecord (record : WALRecord) : outcome CheckpointData :=
  if negb (byte_eqb (r_Type record) WALCheckpoint) then Err ErrInvalidCheckpoint
  else if decide (len (r_NewData record) = 0) then Err ErrInvalidCheckpoint
  else CheckpointData_Deserialize (r_NewData record).

Record CheckpointManager := mkCheckpointManager {
  cm_wal : WAL;
  cm_pageManager : PageManager;
  cm_bufferPool : option BufferPool;
  lastCheckpointLSN : Z;
  lastCheckpointTime : option Z;
  checkpointInterval : Z;
  inProgress : bool
}.

Definition NewCheckpointManager (w : WAL) (pm : PageManager) : CheckpointManager :=
  mkCheckpointManager w pm None 0 None (5 * 60 * 10 ^ 9) false.

Definition SetBufferPool (bp : BufferPool) (cm : CheckpointManager) : CheckpointManager :=
  mkCheckpointManager (cm_wal cm) (cm_pageManager cm) (Some bp) (lastCheckpointLSN cm) (lastCheckpointTime cm)
    (checkpointInterval cm) (inProgress cm).

Definition set_progress (b : bool) (cm : CheckpointManager) : CheckpointManager :=
  mkCheckpointManager (cm_wal cm) (cm_pageManager cm) (cm_bufferPool cm) (lastCheckpointLSN cm) (lastCheckpointTime cm)
    (checkpointInterval cm) b.

Definition cm_on_wal {A} (m : M WAL A) : M CheckpointManager A := fun cm =>
  let '(r, w) := m (cm_wal cm) in
  (r, mkCheckpointManager w (cm_pageManager cm) (cm_bufferPool cm) (lastCheckpointLSN cm) (lastCheckpointTime cm)
        (checkpointInterval cm) (inProgress cm)).

Definition cm_on_pages {A} (m : M PageManager A) : M CheckpointManager A := fun cm =>
  let '(r, pm) := m (cm_pageManager cm) in
  (r, mkCheckpointManager (cm_wal cm) pm (cm_bufferPool cm) (lastCheckpointLSN cm) (lastCheckpointTime cm)
        (checkpointInterval cm) (inProgress cm)).

Section Checkpoint.
Context `{MapIteration}.

(** [if cm.bufferPool != nil { ... }]. *)
Definition with_pool {A} (dflt : A) (m : M (BufferPool * PageManager) A) : M CheckpointManager A := fun cm =>
  match cm_bufferPool cm with
  | None => (Ok dflt, cm)
  | Some bp =>
      let '(r, (bp, pm)) := m (bp, cm_pageManager cm) in
      (r, mkCheckpointManager (cm_wal cm) pm (Some bp) (lastCheckpointLSN cm) (lastCheckpointTime cm)
            (checkpointInterval cm) (inProgress cm))
  end.

(** The body of [Checkpoint] between setting and resetting [inProgress]. It runs here without
    interruption; the code does not keep writers out between its steps, so a page can become
    dirty, or a record be appended, between the flush and the checkpoint record. *)
Definition checkpoint_body (nonce : bytes) (now : Z) (activeTxIDs : option (list Z)) : M CheckpointManager unit :=
  with_pool tt (FlushAll (Some engine_flush)) ;;
  cm_on_pages Page.Sync ;;
  current ← gets (fun cm => currentLSN (cm_wal cm));
  dirty ← with_pool [] GetDirtyPageIDs;
  let data := mkCheckpointData now (match activeTxIDs with Some l => l | None => [] end) dirty (uint64 (current - 1)) in
  let record := mkWALRecord 0 0 WALCheckpoint 0 0 [] (CheckpointData_Serialize data) 0 in
  lsn ← cm_on_wal (Append nonce record);
  cm_on_wal Wal.Sync ;;
  modify (fun cm => mkCheckpointManager (cm_wal cm) (cm_pageManager cm) (cm_bufferPool cm) lsn (Some now)
                      (checkpointInterval cm) (inProgress cm)).

Definition Checkpoint (nonce : bytes) (now : Z) (activeTxIDs : option (list Z)) : M CheckpointManager unit := fun cm =>
  if inProgress cm then (Err ErrCheckpointInProgress, cm)
  else
    let '(r, cm') := checkpoint_body nonce now activeTxIDs (set_progress true cm) in
    (r, set_progress false cm').

Definition TruncateWAL : M CheckpointManager unit :=
  lsn ← gets lastCheckpointLSN;
  if decide (lsn = 0) then fail ErrNoActiveCheckpoint else cm_on_wal (Wal.Truncate lsn).

Definition ShouldCheckpoint (now : Z) (cm : CheckpointManager) : bool :=
  match lastCheckpointTime cm with
  | None => true
  | Some t => bool_decide (now - t >= checkpointInterval cm)
  end.

End Checkpoint.

(** ** The data of a checkpoint record *)

Record wf_checkpoint (cd : CheckpointData) : Prop := mkWfCheckpoint {
  wc_time : is_int64 (cd_Timestamp cd);
  wc_lsn : is_uint64 (cd_LastLSN cd);
  wc_txs : Forall is_uint64 (cd_ActiveTxIDs cd);
  wc_pages : Forall is_uint64 (cd_DirtyPageIDs cd);
  wc_ntxs : len (cd_ActiveTxIDs cd) < 2 ^ 32;
  wc_npages : len (cd_DirtyPageIDs cd) < 2 ^ 32
}.

Lemma len_put64s ids : len (ids ≫= put64) = 8 * len ids.
Proof. induction ids as [|x ids IH]; [done |]. cbn [mbind list_bind]. rewrite len_app, len_put64, len_cons, IH. lia. Qed.

Lemma read_ids_run pre ids q :
  Forall is_uint64 ids -> read_ids (pre ++ (ids ≫= put64) ++ q) (length pre) (length ids) = ids.
Proof.
  intros Hids. unfold read_ids. revert pre. induction Hids as [|x ids Hx _ IH]; intros pre; [done |].
  cbn [length seq fmap list_fmap mbind list_bind]. f_equal.
  - rewrite Nat.mul_0_r, <- app_assoc. rewrite field_skip by lia. replace (length pre + 0 - length pre)%nat with 0%nat by lia.
    by apply field64.
  - rewrite <- (IH (pre ++ put64 x)) at 2. rewrite <- fmap_S_seq, <- list_fmap_compose. apply list_fmap_ext.
    intros i y _. cbn. rewrite <- !app_assoc, length_app. f_equal. cbn. lia.
Qed.

Lemma uint64_int64 z : is_int64 z -> int64 (uint64 z) = z.
Proof.
  intros H. unfold is_int64 in H. unfold int64, uint64. rewrite Zplus_mod_idemp_l. rewrite Z.mod_small; lia.
Qed.

Lemma checkpoint_data_roundtrip cd :
  wf_checkpoint cd -> CheckpointData_Deserialize (CheckpointData_Serialize cd) = Ok cd.
Proof.
  intros [Ht Hl Htx Hp Hnt Hnp]. unfold CheckpointData_Serialize.
  set (txs := cd_ActiveTxIDs cd) in *. set (dps := cd_DirtyPageIDs cd) in *.
  pose proof (len_nonneg txs). pose proof (len_nonneg dps).
  unfold uint32. rewrite !(Z.mod_small (len _)) by lia.
  set (h := put64 (uint64 (cd_Timestamp cd)) ++ put64 (cd_LastLSN cd) ++ put32 (len txs)).
  set (t := put32 (len dps) ++ (dps ≫= put64)).
  assert (put64 (uint64 (cd_Timestamp cd)) ++ put64 (cd_LastLSN cd) ++ put32 (len txs) ++ (txs ≫= put64)
          ++ t = h ++ (txs ≫= put64) ++ t) as -> by (unfold h; by rewrite <- !app_assoc).
  assert (len (h ++ (txs ≫= put64) ++ t) = 24 + 8 * len txs + 8 * len dps) as Hlen.
  { unfold h, t. rewrite !len_app, !len_put64s, !len_put64, !len_put32. lia. }
  assert (length h = 20%nat) as Hh by done.
  assert (Z.of_nat (length (h ++ (txs ≫= put64))) = 20 + 8 * len txs) as Hht.
  { rewrite length_app, Hh. pose proof (len_put64s txs) as E. unfold len in *. lia. }
  unfold CheckpointData_Deserialize. rewrite Hlen. rewrite !decide_False by lia.
  assert (field (h ++ (txs ≫= put64) ++ t) 0 8 = uint64 (cd_Timestamp cd)) as ->.
  { unfold h. rewrite <- !app_assoc. apply field64. unfold is_uint64, uint64. apply Z.mod_pos_bound. lia. }
  assert (field (h ++ (txs ≫= put64) ++ t) 8 8 = cd_LastLSN cd) as ->.
  { unfold h. rewrite <- !app_assoc, field_skip64 by lia. by apply field64. }
  assert (field (h ++ (txs ≫= put64) ++ t) 16 4 = len txs) as ->.
  { unfold h. rewrite <- !app_assoc, !field_skip64 by lia. apply field32. unfold is_uint32. lia. }
  rewrite decide_False by lia. rewrite decide_False by lia.
  assert (field (h ++ (txs ≫= put64) ++ t) (Z.to_nat (20 + 8 * len txs)) 4 = len dps) as ->.
  { rewrite app_assoc, field_skip by lia. replace (Z.to_nat _ - _)%nat with 0%nat by lia. unfold t.
    apply field32. unfold is_uint32. lia. }
  rewrite decide_False by lia. rewrite uint64_int64 by done.
  destruct cd as [ts txs0 dps0 lsn0]. cbn [cd_Timestamp cd_ActiveTxIDs cd_DirtyPageIDs cd_LastLSN] in *. f_equal. f_equal.
  - replace (Z.to_nat (len txs)) with (length txs) by (unfold len; lia). rewrite <- Hh. by apply read_ids_run.
  - replace (Z.to_nat (len dps)) with (length dps) by (unfold len; lia). unfold t.
    pose proof (read_ids_run (h ++ (txs ≫= put64) ++ put32 (len dps)) dps [] Hp) as E.
    rewrite app_nil_r in E. rewrite <- !app_assoc in E.
    replace (Z.to_nat (20 + 8 * len txs + 4)) with (length (h ++ (txs ≫= put64) ++ put32 (len dps))); [done |].
    rewrite app_assoc, length_app. change (length (put32 (len dps))) with 4%nat. lia.
Qed.

(** ** A checkpoint *)

Section Checkpoint.
Context `{MapIteration} (disk_limit : Z) (Hlimit : disk_limit < 2 ^ 62).

#[local] Instance store : BackingStore PageManager := page_store disk_limit Hlimit.

(** Syncing the file writes its header and leaves the pages. *)
Lemma sync_pages pm :
  writable disk_limit pm ->
  exists pm', Page.Sync pm = (Ok tt, pm') /\ writable disk_limit pm' /\ forall id, on_disk pm' id = on_disk pm id.
Proof.
  intros (Hs & Ho & Hrw). unfold Page.Sync. erewrite bind_ok by reflexivity. rewrite Ho.
  erewrite bind_ok by reflexivity. rewrite Hrw, save_header_run. eexists. split; [reflexivity |].
  assert (wf_header (with_total (totalPages pm) (header pm))) as Hh.
  { apply wf_with_total; [apply Hs | by apply (total_uint64 disk_limit Hlimit)]. }
  split; [split_and!; [by apply Shape_header | done | done] |]. intros id. unfold on_disk. cbn [totalPages file with_header].
  case_decide as Hid; [| done]. erewrite page_at_header; [done | apply Hs | done | lia | apply Hs].
Qed.

Lemma sim_sync n A bp pm :
  Sim n A (bp, pm) -> exists pm', Page.Sync pm = (Ok tt, pm') /\ Sim n A (bp, pm') /\ forall id, on_disk pm' id = on_disk pm id.
Proof.
  intros [Hi Hb Hso Hpool Hst]. destruct (sync_pages pm Hso) as (pm' & Hrun & Hw & Hd). exists pm'.
  split_and!; [done | | done]. constructor; try done. cbn. intros id Hc. rewrite Hd. by apply Hst.
Qed.

Definition checkpoint_record (now : Z) (txs dirty : list Z) (lsn : Z) : WALRecord :=
  mkWALRecord 0 0 WALCheckpoint 0 0 [] (CheckpointData_Serialize (mkCheckpointData now txs dirty lsn)) 0.

Lemma len_checkpoint_record now txs lsn : len (r_NewData (checkpoint_record now txs [] lsn)) = 24 + 8 * len txs.
Proof.
  cbn [r_NewData checkpoint_record]. unfold CheckpointData_Serialize. cbn [cd_Timestamp cd_ActiveTxIDs cd_DirtyPageIDs cd_LastLSN].
  rewrite !len_app, !len_put64s, !len_put64, !len_put32. change (len (@nil Z)) with 0. lia.
Qed.

(** Appending the record and syncing the log. *)
Lemma append_checkpoint w es nonce now txs :
  Log None w es -> is_int64 now -> Forall is_uint64 txs -> len txs <= 8184 -> len es + 2 < 2 ^ 64 ->
  exists w1 w2 e, Append nonce (checkpoint_record now txs [] (len es)) w = (Ok (len es + 1), w1)
    /\ Wal.Sync w1 = (Ok tt, w2) /\ Log None w2 (es ++ [e]) /\ wfile w2 = stream (es ++ [e])
    /\ ParseCheckpointRecord e.1 = Ok (mkCheckpointData now txs [] (len es)).
Proof.
  intros Hl Hnow Htx Hn Hb. pose proof (len_nonneg es). pose proof (len_nonneg txs).
  set (r := checkpoint_record now txs [] (len es)). pose proof (len_checkpoint_record now txs (len es)) as Hlen. fold r in Hlen.
  set (r1 := set_LSN r (len es + 1)).
  assert (wf_record r1) as Hw.
  { constructor; [cbn; unfold is_uint64; lia | done.. | |]; [done |]. change (r_NewData r1) with (r_NewData r).
    rewrite Hlen. unfold MaxWALDataSize. lia. }
  destruct (append_log None w es nonce r (layout r1 (put32 (record_crc r1))) Hl) as (w1 & Hrun & Hl1 & _);
    [by intros ? | done | done | | | lia |].
  - rewrite len_layout by done. unfold Size. pose proof (len_nonneg (r_OldData r1)). pose proof (len_nonneg (r_NewData r1)).
    unfold WALRecordHeaderSize. lia.
  - unfold fits. rewrite len_layout by done. unfold Size. change (r_NewData r1) with (r_NewData r). rewrite Hlen.
    change (len (r_OldData r1)) with 0. unfold WALRecordHeaderSize, WALBufferSize, WALRecordLengthSize. lia.
  - destruct (sync_log None w1 _ Hl1) as (w2 & Hsync & Hl2 & Hf). exists w1, w2. eexists. split_and!; [done | done | done | done |].
    change (ParseCheckpointRecord _) with
      (if decide (len (r_NewData r) = 0) then Err ErrInvalidCheckpoint else CheckpointData_Deserialize (r_NewData r)).
    rewrite Hlen, decide_False by lia. apply checkpoint_data_roundtrip. constructor; cbn; try done; unfold is_uint64; lia.
Qed.

(** C26: A checkpoint that nothing interrupts, over a pool with pages of the 4080 bytes of page
    data, a log that is neither encrypted nor was ever truncated, and at most 8184 active
    transactions (the record must fit the buffer of the log). If it succeeds, every page is on
    disk as it was last written through the pool, the log has one more record, with the next
    sequence number, all of the log is in the file, and the record parses to the time, the
    active transactions and the last sequence number before it. If it fails, no page and no
    record is lost. Either way it returns and the manager is ready for the next checkpoint. *)
Theorem checkpoint_correct nonce now txs cm es n A bp :
  inProgress cm = false -> cm_bufferPool cm = Some bp -> Sim n A (bp, cm_pageManager cm) -> Log None (cm_wal cm) es ->
  is_int64 now -> Forall is_uint64 txs -> len txs <= 8184 -> len es + 2 < 2 ^ 64 ->
  exists r cm' bp', Checkpoint nonce now (Some txs) cm = (r, cm') /\ inProgress cm' = false
    /\ cm_bufferPool cm' = Some bp' /\ Sim n A (bp', cm_pageManager cm')
    /\ ((r = Ok tt /\ lastCheckpointLSN cm' = len es + 1 /\ lastCheckpointTime cm' = Some now
          /\ (forall id, on_disk (cm_pageManager cm') id = A id)
          /\ exists e, Log None (cm_wal cm') (es ++ [e]) /\ wfile (cm_wal cm') = stream (es ++ [e])
               /\ ParseCheckpointRecord e.1 = Ok (mkCheckpointData now txs [] (len es)))
        \/ (exists e, r = Err e) /\ Log None (cm_wal cm') es).
Proof.
  intros Hp Hbp Hs Hl Hnow Htx Hn Hb. unfold Checkpoint. rewrite Hp. unfold checkpoint_body, with_pool.
  destruct (FlushAll_run n A _ Hs) as (r & [bp1 pm1] & Hflush & Hs1 & Hres). cbn in Hflush.
  rewrite bind_run. cbn [cm_bufferPool cm_pageManager set_progress]. rewrite Hbp, Hflush.
  destruct Hres as [(-> & Hcl & Hd)|[e ->]].
  2:{ do 3 eexists. split; [reflexivity |]. cbn. split_and!; [done | done | done |]. right. split; [by eexists | done]. }
  destruct (sim_sync n A bp1 pm1 Hs1) as (pm2 & Hsync & Hs2 & Hdisk).
  erewrite bind_ok by (unfold cm_on_pages; cbn [cm_pageManager]; rewrite Hsync; reflexivity).
  do 2 erewrite bind_ok by reflexivity. cbn [cm_wal set_progress pool gets fst]. cbn in Hd. rewrite Hd.
  assert ((range (∅ : gmap Z bool)).*1 = []) as ->.
  { assert (range (∅ : gmap Z bool) = []) as E by (apply Permutation_nil_r; by rewrite range_perm, map_to_list_empty). by rewrite E. }
  rewrite (lg_next _ _ _ Hl). replace (len es + 1 - 1) with (len es) by lia.
  rewrite (uint64_id (len es)) by (pose proof (len_nonneg es); unfold is_uint64; lia).
  destruct (append_checkpoint (cm_wal cm) es nonce now txs Hl Hnow Htx Hn Hb) as (w1 & w2 & e & Hap & Hsy & Hl2 & Hf & Hpar).
  erewrite bind_ok by (unfold cm_on_wal; cbn [cm_wal]; fold (checkpoint_record now txs [] (len es)); rewrite Hap; reflexivity).
  erewrite bind_ok by (unfold cm_on_wal; cbn [cm_wal]; rewrite Hsy; reflexivity).
  do 3 eexists. split; [reflexivity |]. cbn. split_and!; [done | done | done |]. left. split_and!; [done | done | done | | by exists e].
  intros id. rewrite Hdisk. apply (sim_store _ _ _ Hs1). intros p. apply Hcl.
Qed.
End Checkpoint.

(** ** Concrete runs *)

Module CheckpointExample.
Import RecoveryExample.
#[local] Existing Instance iteration_order.
#[local] Instance pages_store : BackingStore PageManager := page_store limit eq_refl.

Definition empty_log : WAL := mkWAL [] 1 (zeros (Z.to_nat WALBufferSize)) 0 false ∅ None.

Definition manager (pm : PageManager) : CheckpointManager :=
  SetBufferPool (NewBufferPool 4 4080) (NewCheckpointManager empty_log pm).

Lemma fresh_sim pm : fresh = Ok pm -> Sim 0 (on_disk pm) (NewBufferPool 4 4080, pm).
Proof.
  intros Hpm. destruct fresh_rep as (pm' & Hpm' & [Hs Hc Hr _ _ _ _]). rewrite Hpm in Hpm'. injection Hpm' as <-.
  change (on_disk pm) with (stored_at (BackingStore := pages_store) pm). apply sim_new; [by split_and! | done].
Qed.

Lemma empty_Log : Log None empty_log [].
Proof.
  destruct (open_log None [] []) as (w & Ho & Hl & _); [constructor | done | by left | done |].
  cbn in Ho. injection Ho as <-. exact Hl.
Qed.

(** A transaction begins; a checkpoint is taken and the log truncated; the transaction
    updates a byte of page 1 from 0 to [b] and commits; the process dies before the page
    is written. What recovery makes of the byte, and the length of the log. *)
Definition history : outcome (option byte) :=
  match fresh with
  | Ok pm =>
      let cm := NewCheckpointManager empty_log pm in
      let run := (
        cm_on_wal (Append [] (NewWALRecord 0 7 WALBegin)) ;;
        Checkpoint [] 0 (Some [7]) ;;
        TruncateWAL ;;
        cm_on_wal (Append [] (NewWALUpdateRecord 0 7 1 0 [x00] [x62])) ;;
        cm_on_wal (Append [] (NewWALRecord 0 7 WALCommit)) ;;
        cm_on_wal Wal.Sync) in
      match run cm with
      | (Ok _, cm) =>
          w ← OpenWALWithEncryption (wfile (cm_wal cm)) None;
          pm ← OpenPageManager limit (Some (file (cm_pageManager cm))) opts;
          match Recover nonce (NewRecovery w pm) with
          | (Ok _, s) => match ReadPage 1 (pageManager s) with (Ok p, _) => Ok (Data p !! 0%nat) | _ => Panic end
          | _ => Panic
          end
      | _ => Panic
      end
  | _ => Panic
  end.
End CheckpointExample.

(** Truncating the log at a checkpoint loses committed updates. The begin record of a
    transaction that is active at the checkpoint is removed with the rest; recovery then
    does not know the transaction and skips the update it made and committed after the
    checkpoint. *)
Theorem checkpoint_loses_update : CheckpointExample.history = Ok (Some x00).
Proof. vm_compute. reflexivity. Qed.

Lemma checkpoint_correct_witness :
  exists pm r cm', RecoveryExample.fresh = Ok pm
    /\ Checkpoint (H := RecoveryExample.iteration_order) [] 5 (Some [7]) (CheckpointExample.manager pm) = (r, cm')
    /\ r = Ok tt /\ lastCheckpointLSN cm' = 1.
Proof.
  destruct RecoveryExample.fresh_rep as (pm & Hpm & _). exists pm.
  destruct (checkpoint_correct (H := RecoveryExample.iteration_order) RecoveryExample.limit eq_refl [] 5 [7]
              (CheckpointExample.manager pm) [] 0 (on_disk pm) (NewBufferPool 4 4080))
    as (r & cm' & bp' & Hrun & _ & _ & _ & Hres).
  - reflexivity.
  - reflexivity.
  - by apply CheckpointExample.fresh_sim.
  - apply CheckpointExample.empty_Log.
  - done.
  - by repeat constructor.
  - done.
  - done.
  - exists r, cm'. split; [exact Hpm |]. split; [exact Hrun |].
    destruct Hres as [(-> & E & _)|([e ->] & _)]; [by split |]. exfalso.
    assert (match RecoveryExample.fresh with
            | Ok pm => match Checkpoint (H := RecoveryExample.iteration_order) [] 5 (Some [7]) (CheckpointExample.manager pm) with
                       | (Ok _, _) => true | _ => false end
            | _ => false end = true) as Hok by (vm_compute; reflexivity).
    rewrite Hpm, Hrun in Hok. discriminate Hok.
Defined.
