(* ===== verification/BTree.v ===== *)
(** * B+ tree nodes and their pages (src/internal/storage/btree/node.go, serialize.go) *)

From S2P Require Import Prelude GoBinary Page.

Definition BPlusOrder : Z := 128.
Definition BPlusLeafCapacity : Z := 256.
Definition MinInternalKeys : Z := (BPlusOrder - 1) / 2.
Definition MinLeafKeys : Z := BPlusLeafCapacity / 2.
Definition InvalidPageID : Z := 0.

Definition BPlusNodeHeaderSize : Z := 21.
Definition MaxKeySize : Z := 1024.
Definition KeyLengthSize : Z := 2.
Definition EntryRefBaseSize : Z := 12.
Definition PageIDSize : Z := 8.

Definition PageTypeAttrIndex : byte := x03.

Definition ErrKeyTooLarge : goerror := ErrConst "ErrKeyTooLarge".
Definition ErrBufferTooSmall : goerror := ErrConst "ErrBufferTooSmall".
Definition ErrInvalidNodeData : goerror := ErrConst "ErrInvalidNodeData".
Definition ErrNodeTooLarge : goerror := ErrConst "ErrNodeTooLarge".
Definition ErrCorruptedNode : goerror := ErrConst "ErrCorruptedNode".
Definition ErrInvalidKeyCount : goerror := ErrConst "ErrInvalidKeyCount".
Definition ErrInvalidChildCount : goerror := ErrConst "ErrInvalidChildCount".
Definition ErrMismatchedKeyValue : goerror := ErrConst "ErrMismatchedKeyValue".

(** ** node.go *)

Record EntryRef := mkEntryRef { e_PageID : Z; e_SlotID : Z; e_DN : bytes }.

#[export] Instance EntryRef_eq_decision : EqDecision EntryRef.
Proof. solve_decision. Defined.

Record BPlusNode := mkBPlusNode {
  IsLeaf : bool;
  Keys : list bytes;
  Children : list Z;
  Values : list EntryRef;
  NextLeaf : Z;
  PrevLeaf : Z;
  n_PageID : Z
}.

Definition NewInternalNode (pageID : Z) : BPlusNode := mkBPlusNode false [] [] [] InvalidPageID InvalidPageID pageID.
Definition NewLeafNode (pageID : Z) : BPlusNode := mkBPlusNode true [] [] [] InvalidPageID InvalidPageID pageID.

Definition IsFull (n : BPlusNode) : bool :=
  if IsLeaf n then bool_decide (len (Keys n) >= BPlusLeafCapacity) else bool_decide (len (Keys n) >= BPlusOrder - 1).

Definition IsUnderflow (n : BPlusNode) : bool :=
  if IsLeaf n then bool_decide (len (Keys n) < MinLeafKeys) else bool_decide (len (Keys n) < MinInternalKeys).

Definition CanBorrow (n : BPlusNode) : bool :=
  if IsLeaf n then bool_decide (len (Keys n) > MinLeafKeys) else bool_decide (len (Keys n) > MinInternalKeys).

Definition with_keys (ks : list bytes) (n : BPlusNode) : BPlusNode :=
  mkBPlusNode (IsLeaf n) ks (Children n) (Values n) (NextLeaf n) (PrevLeaf n) (n_PageID n).
Definition with_children (cs : list Z) (n : BPlusNode) : BPlusNode :=
  mkBPlusNode (IsLeaf n) (Keys n) cs (Values n) (NextLeaf n) (PrevLeaf n) (n_PageID n).
Definition with_values (vs : list EntryRef) (n : BPlusNode) : BPlusNode :=
  mkBPlusNode (IsLeaf n) (Keys n) (Children n) vs (NextLeaf n) (PrevLeaf n) (n_PageID n).
Definition with_next (id : Z) (n : BPlusNode) : BPlusNode :=
  mkBPlusNode (IsLeaf n) (Keys n) (Children n) (Values n) id (PrevLeaf n) (n_PageID n).
Definition with_prev (id : Z) (n : BPlusNode) : BPlusNode :=
  mkBPlusNode (IsLeaf n) (Keys n) (Children n) (Values n) (NextLeaf n) id (n_PageID n).

(** [l = append(l, zero); copy(l[i+1:], l[i:]); l[i] = x]. *)
Definition insert_at {A} (i : nat) (x : A) (l : list A) : list A := take i l ++ x :: drop i l.

(** [append(l[:i], l[i+1:]...)]. *)
Definition remove_at {A} (i : nat) (l : list A) : list A := take i l ++ drop (S i) l.

Definition InsertKeyAt (i : nat) (key : bytes) (value : option EntryRef) (child : Z) (n : BPlusNode) : outcome BPlusNode :=
  if decide (i <= length (Keys n))%nat then
    let n := with_keys (insert_at i key (Keys n)) n in
    if IsLeaf n then
      match value with
      | Some v => if decide (i <= length (Values n))%nat then Ok (with_values (insert_at i v (Values n)) n) else Panic
      | None => Ok n
      end
    else if decide (i + 1 <= length (Children n))%nat then Ok (with_children (insert_at (i + 1) child (Children n)) n)
    else Panic
  else Panic.

Definition RemoveKeyAt (i : nat) (n : BPlusNode) : BPlusNode :=
  if decide (i < length (Keys n))%nat then
    let n' := with_keys (remove_at i (Keys n)) n in
    if IsLeaf n then
      if decide (i < length (Values n))%nat then with_values (remove_at i (Values n)) n' else n'
    else if decide (i + 1 < length (Children n))%nat then with_children (remove_at (i + 1) (Children n)) n' else n'
  else n.

Fixpoint compareKeys (a b : bytes) : Z :=
  match a, b with
  | [], [] => 0
  | [], _ :: _ => -1
  | _ :: _, [] => 1
  | x :: a, y :: b => if decide (bZ x < bZ y) then -1 else if decide (bZ x > bZ y) then 1 else compareKeys a b
  end.

(** [for low < high { mid := (low + high) / 2 ... }]: the interval shrinks in every turn. *)
Fixpoint find_key (fuel : nat) (keys : list bytes) (key : bytes) (low high : nat) (found : bool) : outcome (nat * bool) :=
  if decide (low < high)%nat then
    match fuel with
    | O => Diverge
    | S fuel =>
        let mid := ((low + high) / 2)%nat in
        match keys !! mid with
        | None => Panic
        | Some k =>
            let cmp := compareKeys k key in
            if decide (cmp < 0) then find_key fuel keys key (mid + 1) high found
            else if decide (cmp > 0) then find_key fuel keys key low mid found
            else find_key fuel keys key low mid true
        end
    end
  else Ok (low, found).

Definition FindKeyIndex (n : BPlusNode) (key : bytes) : outcome (nat * bool) :=
  find_key (length (Keys n)) (Keys n) key 0 (length (Keys n)) false.

(** [for i := 0; i < len(n.Keys); i++ { if compareKeys(key, n.Keys[i]) < 0 { return n.Children[i] } }]. *)
Fixpoint child_for (key : bytes) (keys : list bytes) (children : list Z) : outcome (option Z) :=
  match keys with
  | [] => Ok None
  | k :: keys =>
      match children with
      | [] => if decide (compareKeys key k < 0) then Panic else child_for key keys []
      | c :: children => if decide (compareKeys key k < 0) then Ok (Some c) else child_for key keys children
      end
  end.

Definition GetChildForKey (n : BPlusNode) (key : bytes) : outcome Z :=
  if IsLeaf n then Ok InvalidPageID
  else match last (Children n) with
       | None => Ok InvalidPageID
       | Some rightmost =>
           r ← child_for key (Keys n) (Children n);
           Ok (match r with Some c => c | None => rightmost end)
       end.

(** ** serialize.go *)

Definition ref_size (r : EntryRef) : Z := EntryRefBaseSize + len (e_DN r).

Definition sumZ (l : list Z) : Z := foldr Z.add 0 l.

Definition SerializedSize (n : BPlusNode) : Z :=
  BPlusNodeHeaderSize + sumZ ((fun k => KeyLengthSize + len k) <$> Keys n)
  + (if IsLeaf n then sumZ (ref_size <$> Values n) else len (Children n) * PageIDSize).

Definition FitsInPage (n : BPlusNode) : bool := bool_decide (SerializedSize n <= PageSize - PageHeaderSize).

Definition key_bytes (k : bytes) : bytes := put16 (uint16 (len k)) ++ k.
Definition ref_bytes (r : EntryRef) : bytes :=
  put64 (e_PageID r) ++ put16 (e_SlotID r) ++ put16 (uint16 (len (e_DN r))) ++ e_DN r.

Definition node_header (n : BPlusNode) : bytes :=
  [if IsLeaf n then x01 else x00] ++ put16 (uint16 (len (Keys n))) ++ put64 (NextLeaf n) ++ put64 (PrevLeaf n) ++ [x00; x00].

(** The bytes that [Serialize] writes at the start of the buffer. *)
Definition Node_Serialize (n : BPlusNode) (size : Z) : outcome bytes :=
  if decide (size < SerializedSize n) then Err ErrBufferTooSmall
  else if existsb (fun k => bool_decide (len k > MaxKeySize)) (Keys n) then Err ErrKeyTooLarge
  else if decide (IsLeaf n = false /\ len (Children n) <> len (Keys n) + 1 /\ len (Keys n) > 0) then Err ErrInvalidChildCount
  else if decide (IsLeaf n = true /\ len (Values n) <> len (Keys n)) then Err ErrMismatchedKeyValue
  else Ok (node_header n ++ (Keys n ≫= key_bytes)
           ++ (if IsLeaf n then Values n ≫= ref_bytes else Children n ≫= put64)).

Fixpoint read_keys (buf : bytes) (offset n : nat) : outcome (list bytes * nat) :=
  match n with
  | O => Ok ([], offset)
  | S n =>
      if decide (length buf < offset + 2)%nat then Err ErrCorruptedNode
      else
        let keyLen := field buf offset 2 in
        if decide (keyLen > MaxKeySize) then Err ErrKeyTooLarge
        else if decide (length buf < offset + 2 + Z.to_nat keyLen)%nat then Err ErrCorruptedNode
        else
          r ← read_keys buf (offset + 2 + Z.to_nat keyLen) n;
          Ok (ReadAt buf (offset + 2) (Z.to_nat keyLen) :: r.1, r.2)
  end.

Fixpoint read_refs (buf : bytes) (offset n : nat) : outcome (list EntryRef) :=
  match n with
  | O => Ok []
  | S n =>
      if decide (length buf < offset + 12)%nat then Err ErrCorruptedNode
      else
        let dnLen := Z.to_nat (field buf (offset + 10) 2) in
        if decide (length buf < offset + 12 + dnLen)%nat then Err ErrCorruptedNode
        else
          r ← read_refs buf (offset + 12 + dnLen) n;
          Ok (mkEntryRef (field buf offset 8) (field buf (offset + 8) 2) (ReadAt buf (offset + 12) dnLen) :: r)
  end.

Fixpoint read_children (buf : bytes) (offset n : nat) : outcome (list Z) :=
  match n with
  | O => Ok []
  | S n =>
      if decide (length buf < offset + 8)%nat then Err ErrCorruptedNode
      else r ← read_children buf (offset + 8) n; Ok (field buf offset 8 :: r)
  end.

Definition Node_Deserialize (buf : bytes) (pageID : Z) : outcome BPlusNode :=
  if decide (len buf < BPlusNodeHeaderSize) then Err ErrBufferTooSmall
  else
    let isLeaf := byte_eqb (nth 0 buf x00) x01 in
    let keyCount := field buf 1 2 in
    let next := field buf 3 8 in
    let prev := field buf 11 8 in
    if decide (isLeaf = true /\ keyCount > BPlusLeafCapacity) then Err ErrInvalidKeyCount
    else if decide (isLeaf = false /\ keyCount > BPlusOrder - 1) then Err ErrInvalidKeyCount
    else
      ks ← read_keys buf 21 (Z.to_nat keyCount);
      if isLeaf then
        vs ← read_refs buf ks.2 (Z.to_nat keyCount);
        Ok (mkBPlusNode true ks.1 [] vs next prev pageID)
      else
        let childCount := if decide (keyCount = 0) then 0%nat else S (Z.to_nat keyCount) in
        cs ← read_children buf ks.2 childCount;
        Ok (mkBPlusNode false ks.1 cs [] next prev pageID).

(** [page.Header.SetLeaf()] or the flag cleared, then [page.Header.SetDirty()], on a new page. *)
Definition CreatePage (n : BPlusNode) : outcome Page :=
  if negb (FitsInPage n) then Err ErrNodeTooLarge
  else
    d ← Node_Serialize n (PageSize - PageHeaderSize);
    Ok (mkPage (SetDirty (mkPageHeader (n_PageID n) PageTypeAttrIndex (if IsLeaf n then x04 else x00)
                 (uint16 (len (Keys n))) (uint16 (PageSize - PageHeaderSize - SerializedSize n)) 0))
          (pad data_size d)).

Definition NewNodeFromPage (page : Page) : outcome BPlusNode :=
  if negb (byte_eqb (ph_PageType (Header page)) PageTypeAttrIndex) then Err ErrInvalidNodeData
  else Node_Deserialize (Data page) (ph_PageID (Header page)).
