(* ===== verification/BTreeOps.v ===== *)
(** * The B+ tree over the page manager
    (src/internal/storage/btree/tree.go, insert.go)

    A path is kept as its leaf and the nodes above it, the parent of the leaf first.
    Loops that follow pointers have as many turns as the file has pages: reading does not
    change the file, so a longer walk visits a page twice and never ends. *)

From S2P Require Import Prelude GoBinary GoStrings Page BTree.

Definition ErrTreeNotInitialized : goerror := ErrConst "ErrTreeNotInitialized".
Definition ErrKeyNotFound : goerror := ErrConst "ErrKeyNotFound".
Definition ErrKeyExists : goerror := ErrConst "ErrKeyExists".
Definition ErrEmptyKey : goerror := ErrConst "ErrEmptyKey".
Definition ErrNodeNotFound : goerror := ErrConst "ErrNodeNotFound".
Definition ErrInvalidNode : goerror := ErrConst "ErrInvalidNode".
Definition ErrTreeEmpty : goerror := ErrConst "ErrTreeEmpty".

Record BPlusTree := mkBPlusTree { t_root : Z; t_order : Z; t_pages : PageManager }.

Abbreviation TM := (M BPlusTree).

Definition on_pm {A} (m : M PageManager A) : TM A := fun t =>
  let '(r, pm) := m (t_pages t) in (r, mkBPlusTree (t_root t) (t_order t) pm).

Definition set_root (id : Z) : TM unit := modify (fun t => mkBPlusTree id (t_order t) (t_pages t)).

(** A pure function of the package. *)
Definition pure {A} (r : outcome A) : TM A := fun t => (r, t).

(** ** tree.go *)

Definition readNode (pageID : Z) : TM BPlusNode :=
  if decide (pageID = InvalidPageID) then fail ErrNodeNotFound
  else page ← on_pm (ReadPage pageID); pure (NewNodeFromPage page).

Definition writeNode (node : BPlusNode) : TM unit :=
  page ← pure (CreatePage node); on_pm (WritePage page).

Section Tree.
Context (disk_limit : Z).

Definition allocateNode (isLeaf : bool) : TM BPlusNode :=
  pageID ← on_pm (AllocatePage disk_limit PageTypeAttrIndex);
  mret (if isLeaf then NewLeafNode pageID else NewInternalNode pageID).

Definition freeNode (pageID : Z) : TM unit := on_pm (FreePage pageID).

(** A root that is an empty leaf. *)
Definition init_tree : TM unit :=
  pageID ← on_pm (AllocatePage disk_limit PageTypeAttrIndex);
  writeNode (NewLeafNode pageID) ;;
  set_root pageID.

(** [pm] is not nil. *)
Definition NewBPlusTree (pm : PageManager) (order : Z) : outcome BPlusTree :=
  let order := if decide (order <= 0) then BPlusOrder else order in
  match init_tree (mkBPlusTree InvalidPageID order pm) with
  | (Ok _, t) => Ok t
  | (Err e, _) => Err e
  | (Panic, _) => Panic
  | (Diverge, _) => Diverge
  end.

Definition NewBPlusTreeWithRoot (pm : PageManager) (rootPageID order : Z) : outcome BPlusTree :=
  let order := if decide (order <= 0) then BPlusOrder else order in
  match readNode rootPageID (mkBPlusTree rootPageID order pm) with
  | (Ok _, t) => Ok t
  | (Err e, _) => Err e
  | (Panic, _) => Panic
  | (Diverge, _) => Diverge
  end.

Definition IsEmpty : TM bool :=
  root ← gets t_root;
  if decide (root = InvalidPageID) then mret true
  else
    r ← try (readNode root);
    match r with inr _ => mret true | inl node => mret (bool_decide (len (Keys node) = 0)) end.

(** The number of pages of the file. *)
Definition fuel : TM nat := gets (fun t => Z.to_nat (totalPages (t_pages t))).

(** [for !node.IsLeaf { childID := ...; node, err = t.readNode(childID) }]. *)
Fixpoint descend (n : nat) (choose : BPlusNode -> outcome Z) (node : BPlusNode) (above : list BPlusNode)
    : TM (BPlusNode * list BPlusNode) :=
  if IsLeaf node then mret (node, above)
  else match n with
       | O => diverge
       | S n =>
           childID ← pure (choose node);
           child ← readNode childID;
           descend n choose child (node :: above)
       end.

Definition from_root (choose : BPlusNode -> outcome Z) : TM (BPlusNode * list BPlusNode) :=
  root ← gets t_root;
  if decide (root = InvalidPageID) then fail ErrTreeNotInitialized
  else
    node ← readNode root;
    n ← fuel;
    descend n choose node [].

Definition child_of (key : bytes) (node : BPlusNode) : outcome Z :=
  childID ← GetChildForKey node key;
  if decide (childID = InvalidPageID) then Err ErrNodeNotFound else Ok childID.

Definition findLeafWithPath (key : bytes) : TM (BPlusNode * list BPlusNode) := from_root (child_of key).

Definition findLeaf (key : bytes) : TM BPlusNode := p ← findLeafWithPath key; mret p.1.

Definition first_child (node : BPlusNode) : outcome Z :=
  match Children node with [] => Err ErrInvalidNode | c :: _ => Ok c end.

Definition last_child (node : BPlusNode) : outcome Z :=
  match last (Children node) with None => Err ErrInvalidNode | Some c => Ok c end.

Definition findLeftmostLeaf : TM BPlusNode := p ← from_root first_child; mret p.1.
Definition findRightmostLeaf : TM BPlusNode := p ← from_root last_child; mret p.1.

Definition findLeafWithPathForPageID (target : Z) : TM (BPlusNode * list BPlusNode) :=
  root ← gets t_root;
  if decide (root = InvalidPageID) then fail ErrTreeNotInitialized
  else
    targetLeaf ← readNode target;
    if negb (IsLeaf targetLeaf) then fail ErrInvalidNode
    else match Keys targetLeaf with
         | [] => mret (targetLeaf, [])
         | k :: _ => findLeafWithPath k
         end.

(** [leaf.Prev]: go back while the previous leaf ends with the key. *)
Definition ends_with (node : BPlusNode) (key : bytes) : bool :=
  match last (Keys node) with Some k => bool_decide (compareKeys k key = 0) | None => false end.

Fixpoint search_back (n : nat) (key : bytes) (leaf : BPlusNode) : TM BPlusNode :=
  if decide (PrevLeaf leaf = InvalidPageID) then mret leaf
  else
    r ← try (readNode (PrevLeaf leaf));
    match r with
    | inr _ => mret leaf
    | inl prevLeaf =>
        if ends_with prevLeaf key then
          match n with O => diverge | S n => search_back n key prevLeaf end
        else mret leaf
    end.

(** [for i := from; ...; i++ { if compareKeys(leaf.Keys[i], key) == 0 { append } else { return refs } }]:
    the references, and whether the loop reached the end of the leaf. *)
Fixpoint matching (key : bytes) (es : list (bytes * EntryRef)) : list EntryRef * bool :=
  match es with
  | [] => ([], true)
  | (k, v) :: es =>
      if decide (compareKeys k key = 0) then let '(vs, b) := matching key es in (v :: vs, b) else ([], false)
  end.

(** The entries of a leaf, which has as many values as keys. *)
Definition entries (leaf : BPlusNode) : list (bytes * EntryRef) := zip (Keys leaf) (Values leaf).

Fixpoint search_forward (n : nat) (key : bytes) (leaf : BPlusNode) (refs : list EntryRef) : TM (list EntryRef) :=
  if decide (NextLeaf leaf = InvalidPageID) then mret refs
  else
    r ← try (readNode (NextLeaf leaf));
    match r with
    | inr _ => mret refs
    | inl nextLeaf =>
        let '(vs, all) := matching key (entries nextLeaf) in
        if (all : bool) then
          match n with O => diverge | S n => search_forward n key nextLeaf (refs ++ vs) end
        else mret (refs ++ vs)
    end.

(** From the leaf and the position where the key was found. *)
Definition collect_key (key : bytes) (leaf : BPlusNode) (idx : nat) : TM (list EntryRef) :=
  let '(vs, all) := matching key (drop idx (entries leaf)) in
  if (all : bool) then n ← fuel; search_forward n key leaf vs else mret vs.

Definition Tree_Search (key : bytes) : TM (list EntryRef) :=
  if decide (key = []) then fail ErrEmptyKey
  else
    r ← try (findLeaf key);
    match r with
    | inr e => if decide (e = ErrTreeNotInitialized) then mret [] else fail e
    | inl leaf =>
        n ← fuel;
        leaf ← search_back n key leaf;
        f ← pure (FindKeyIndex leaf key);
        if (f.2 : bool) then collect_key key leaf f.1
        else if decide (NextLeaf leaf = InvalidPageID) then mret []
        else
          r ← try (readNode (NextLeaf leaf));
          match r with
          | inr _ => mret []
          | inl nextLeaf =>
              f ← pure (FindKeyIndex nextLeaf key);
              if (f.2 : bool) then collect_key key nextLeaf f.1 else mret []
          end
    end.

(** [for leaf != nil { ... }] of [SearchRange]; [endKey] is nil for [None]. *)
Definition past (endKey : option bytes) (k : bytes) : bool :=
  match endKey with Some e => bool_decide (compareKeys k e > 0) | None => false end.

Fixpoint until {A} (stop : bytes -> bool) (es : list (bytes * A)) : list A * bool :=
  match es with
  | [] => ([], true)
  | (k, v) :: es => if stop k then ([], false) else let '(vs, b) := until stop es in (v :: vs, b)
  end.

Fixpoint range_loop (n : nat) (endKey : option bytes) (leaf : BPlusNode) (startIdx : nat) (refs : list EntryRef)
    : TM (list EntryRef) :=
  let '(vs, all) := until (past endKey) (drop startIdx (entries leaf)) in
  let refs := refs ++ vs in
  if negb (all : bool) then mret refs
  else if decide (NextLeaf leaf = InvalidPageID) then mret refs
  else
    next ← readNode (NextLeaf leaf);
    match n with O => diverge | S n => range_loop n endKey next 0 refs end.

Definition SearchRange (startKey endKey : option bytes) : TM (list EntryRef) :=
  root ← gets t_root;
  if decide (root = InvalidPageID) then mret []
  else
    n ← fuel;
    match startKey with
    | None => leaf ← findLeftmostLeaf; range_loop n endKey leaf 0 []
    | Some k =>
        leaf ← findLeaf k;
        f ← pure (FindKeyIndex leaf k);
        range_loop n endKey leaf f.1 []
    end.

(** ** Statistics *)

Record TreeStats := mkTreeStats {
  st_Height : Z;
  st_InternalNodes : Z;
  st_LeafNodes : Z;
  st_TotalKeys : Z;
  st_TotalEntries : Z
}.

(** [height := 1; for !node.IsLeaf { height++; ... }]: down the first children. *)
Fixpoint stats_height (n : nat) (node : BPlusNode) (height : Z) : TM Z :=
  if IsLeaf node then mret height
  else match Children node with
       | [] => mret (height + 1)
       | c :: _ =>
           node ← readNode c;
           match n with O => diverge | S n => stats_height n node (height + 1) end
       end.

Fixpoint stats_leaves (n : nat) (leaf : BPlusNode) (st : TreeStats) : TM TreeStats :=
  let st := mkTreeStats (st_Height st) (st_InternalNodes st) (st_LeafNodes st + 1)
              (st_TotalKeys st + len (Keys leaf)) (st_TotalEntries st + len (Values leaf)) in
  if decide (NextLeaf leaf = InvalidPageID) then mret st
  else
    next ← readNode (NextLeaf leaf);
    match n with O => diverge | S n => stats_leaves n next st end.

Definition Stats : TM TreeStats :=
  root ← gets t_root;
  if decide (root = InvalidPageID) then mret (mkTreeStats 0 0 0 0 0)
  else
    node ← readNode root;
    n ← fuel;
    height ← stats_height n node 1;
    leaf ← findLeftmostLeaf;
    st ← stats_leaves n leaf (mkTreeStats height 0 0 0 0);
    order ← gets t_order;
    mret (mkTreeStats (st_Height st)
            (if decide (st_Height st > 1) then Z.quot (st_LeafNodes st + order - 2) (order - 1) else 0)
            (st_LeafNodes st) (st_TotalKeys st) (st_TotalEntries st)).

(** ** insert.go *)

Definition createNewRoot (leftChild : Z) (key : bytes) (rightChild : Z) : TM unit :=
  newRoot ← allocateNode false;
  let newRoot := with_children [leftChild; rightChild] (with_keys [key] newRoot) in
  writeNode newRoot ;;
  set_root (n_PageID newRoot).

(** The node cut at the split point, the new node, and the key to promote. *)
Definition splitInternal (internal : BPlusNode) : TM (BPlusNode * BPlusNode * bytes) :=
  newInternal ← allocateNode false;
  let splitPoint := (length (Keys internal) / 2)%nat in
  match Keys internal !! splitPoint with
  | None => panic
  | Some promotedKey =>
      mret (with_children (take (S splitPoint) (Children internal)) (with_keys (take splitPoint (Keys internal)) internal),
            with_children (drop (S splitPoint) (Children internal)) (with_keys (drop (S splitPoint) (Keys internal)) newInternal),
            promotedKey)
  end.

(** [insertIntoParent] and [splitInternalAndPropagate]. *)
Fixpoint insertIntoParent (above : list BPlusNode) (leftChild : Z) (key : bytes) (rightChild : Z) : TM unit :=
  match above with
  | [] => createNewRoot leftChild key rightChild
  | parent :: above =>
      f ← pure (FindKeyIndex parent key);
      parent ← pure (InsertKeyAt f.1 key None rightChild parent);
      if IsFull parent || negb (FitsInPage parent) then
        s ← splitInternal parent;
        let '(internal, newInternal, promotedKey) := s in
        writeNode internal ;;
        writeNode newInternal ;;
        insertIntoParent above (n_PageID internal) promotedKey (n_PageID newInternal)
      else writeNode parent
  end.

Definition splitLeaf (leaf : BPlusNode) : TM (BPlusNode * BPlusNode * bytes) :=
  newLeaf ← allocateNode true;
  let splitPoint := ((length (Keys leaf) + 1) / 2)%nat in
  let newLeaf := with_values (drop splitPoint (Values leaf)) (with_keys (drop splitPoint (Keys leaf)) newLeaf) in
  let newLeaf := with_prev (n_PageID leaf) (with_next (NextLeaf leaf) newLeaf) in
  let leaf := with_values (take splitPoint (Values leaf)) (with_keys (take splitPoint (Keys leaf)) leaf) in
  let leaf := with_next (n_PageID newLeaf) leaf in
  (if decide (NextLeaf newLeaf <> InvalidPageID) then
     r ← try (readNode (NextLeaf newLeaf));
     match r with
     | inl nextLeaf => r ← try (writeNode (with_prev (n_PageID newLeaf) nextLeaf)); mret tt
     | inr _ => mret tt
     end
   else mret tt) ;;
  match Keys newLeaf with
  | [] => panic
  | promotedKey :: _ => mret (leaf, newLeaf, promotedKey)
  end.

Definition splitLeafAndPropagate (leaf : BPlusNode) (above : list BPlusNode) : TM unit :=
  s ← splitLeaf leaf;
  let '(leaf, newLeaf, promotedKey) := s in
  writeNode leaf ;;
  writeNode newLeaf ;;
  insertIntoParent above (n_PageID leaf) promotedKey (n_PageID newLeaf).

(** The entry goes in at the position; a leaf that became too large is split. *)
Definition insert_into_leaf (leaf : BPlusNode) (above : list BPlusNode) (idx : nat) (key : bytes) (ref : EntryRef) : TM unit :=
  leaf ← pure (InsertKeyAt idx key (Some ref) InvalidPageID leaf);
  if IsFull leaf || negb (FitsInPage leaf) then splitLeafAndPropagate leaf above else writeNode leaf.

Definition Tree_Insert (key : bytes) (ref : EntryRef) : TM unit :=
  if decide (key = []) then fail ErrEmptyKey
  else
    p ← findLeafWithPath key;
    f ← pure (FindKeyIndex p.1 key);
    insert_into_leaf p.1 p.2 f.1 key ref.

Definition InsertUnique (key : bytes) (ref : EntryRef) : TM unit :=
  if decide (key = []) then fail ErrEmptyKey
  else
    p ← findLeafWithPath key;
    f ← pure (FindKeyIndex p.1 key);
    if (f.2 : bool) then fail ErrKeyExists else insert_into_leaf p.1 p.2 f.1 key ref.
End Tree.
