(* ===== verification/BTreeIter.v ===== *)
(** * Ordered access to the B+ tree (src/internal/storage/btree/search.go, iterator.go)

    An iterator is the leaf it stands on and a position; its methods read the tree and
    return the iterator they leave behind. A nil key, which [Range] tells from an empty
    one, is [None]. *)

From S2P Require Import Prelude GoBinary Page BTree BTreeOps.

(** [bytes.HasPrefix(key, prefix)]. *)
Definition HasPrefix (key prefix : bytes) : bool := bytes_eqb (take (length prefix) key) prefix.

(** ** iterator.go *)

Record BPlusIterator := mkBPlusIterator {
  it_current : option BPlusNode;
  it_position : nat;
  it_endKey : option bytes;
  it_prefix : option bytes;
  it_closed : bool;
  it_excludeEnd : bool
}.

Definition newIterator (startLeaf : BPlusNode) (startPos : nat) (endKey : option bytes) : BPlusIterator :=
  mkBPlusIterator (Some startLeaf) startPos endKey None false false.
Definition newLessThanIteratorInternal (startLeaf : BPlusNode) (startPos : nat) (endKey : option bytes) : BPlusIterator :=
  mkBPlusIterator (Some startLeaf) startPos endKey None false true.
Definition newPrefixIterator (startLeaf : BPlusNode) (startPos : nat) (prefix : bytes) : BPlusIterator :=
  mkBPlusIterator (Some startLeaf) startPos None (Some prefix) false false.
Definition emptyIterator : BPlusIterator := mkBPlusIterator None 0 None None true false.

Definition it_at (it : BPlusIterator) (leaf : BPlusNode) (pos : nat) : BPlusIterator :=
  mkBPlusIterator (Some leaf) pos (it_endKey it) (it_prefix it) (it_closed it) (it_excludeEnd it).

(** The end key and prefix checks of [Next] and [Valid]: the iteration ends before the key. *)
Definition it_stops (it : BPlusIterator) (key : bytes) : bool :=
  match it_endKey it with
  | Some e =>
      let cmp := compareKeys key e in
      if it_excludeEnd it then bool_decide (cmp >= 0) else bool_decide (cmp > 0)
  | None => false
  end
  || match it_prefix it with Some p => negb (HasPrefix key p) | None => false end.

(** [for it.position >= len(it.current.Keys) { ... }]: the position it ends at, and whether
    there is an entry at it. *)
Fixpoint it_advance (n : nat) (leaf : BPlusNode) (pos : nat) : TM (BPlusNode * nat * bool) :=
  if decide (length (Keys leaf) <= pos)%nat then
    if decide (NextLeaf leaf = InvalidPageID) then mret (leaf, pos, false)
    else
      r ← try (readNode (NextLeaf leaf));
      match r with
      | inr _ => mret (leaf, pos, false)
      | inl next => match n with O => diverge | S n => it_advance n next 0 end
      end
  else mret (leaf, pos, true).

Definition Iter_Next (it : BPlusIterator) : TM (option (bytes * EntryRef) * BPlusIterator) :=
  match it_current it with
  | Some leaf =>
      if it_closed it then mret (None, it)
      else
        n ← fuel;
        s ← it_advance n leaf (it_position it);
        let '(leaf, pos, more) := s in
        if (more : bool) then
          match Keys leaf !! pos with
          | None => panic
          | Some key =>
              if it_stops it key then mret (None, it_at it leaf pos)
              else match Values leaf !! pos with
                   | None => panic
                   | Some ref => mret (Some (key, ref), it_at it leaf (S pos))
                   end
          end
        else mret (None, it_at it leaf pos)
  | None => mret (None, it)
  end.

Definition Iter_Peek (it : BPlusIterator) : TM (option (bytes * EntryRef)) := r ← Iter_Next it; mret r.1.

Definition Iter_Close (it : BPlusIterator) : BPlusIterator :=
  mkBPlusIterator None (it_position it) (it_endKey it) (it_prefix it) true (it_excludeEnd it).

Definition Iter_Valid (it : BPlusIterator) : TM bool :=
  match it_current it with
  | Some leaf =>
      if it_closed it then mret false
      else match Keys leaf !! it_position it with
           | Some key => mret (negb (it_stops it key))
           | None =>
               if decide (NextLeaf leaf = InvalidPageID) then mret false
               else
                 r ← try (readNode (NextLeaf leaf));
                 match r with
                 | inr _ => mret false
                 | inl next => match Keys next with [] => mret false | key :: _ => mret (negb (it_stops it key)) end
                 end
           end
  | None => mret false
  end.

(** [for { key, ref, ok := it.Next(); if !ok { break }; ... }], at most [limit] times for
    [Take] and [Skip]; without a limit the turns are bounded by the entries that the pages
    of the file can hold. *)
Fixpoint it_loop (n : nat) (it : BPlusIterator) (acc : list (bytes * EntryRef)) : TM (list (bytes * EntryRef) * BPlusIterator) :=
  r ← Iter_Next it;
  match r with
  | (None, it) => mret (acc, it)
  | (Some e, it) => match n with O => diverge | S n => it_loop n it (acc ++ [e]) end
  end.

Fixpoint it_take (n : nat) (it : BPlusIterator) (acc : list (bytes * EntryRef)) : TM (list (bytes * EntryRef) * BPlusIterator) :=
  match n with
  | O => mret (acc, it)
  | S n =>
      r ← Iter_Next it;
      match r with
      | (None, it) => mret (acc, it)
      | (Some e, it) => it_take n it (acc ++ [e])
      end
  end.

(** A page holds at most [BPlusLeafCapacity] entries. *)
Definition entry_fuel : TM nat := gets (fun t => Z.to_nat (BPlusLeafCapacity * (totalPages (t_pages t) + 1))).

Definition Iter_Collect (it : BPlusIterator) : TM (list (bytes * EntryRef) * BPlusIterator) :=
  n ← entry_fuel; it_loop n it [].
Definition Iter_CollectRefs (it : BPlusIterator) : TM (list EntryRef) := r ← Iter_Collect it; mret r.1.*2.
Definition Iter_Count (it : BPlusIterator) : TM Z := r ← Iter_Collect it; mret (len r.1).
Definition Iter_Skip (n : Z) (it : BPlusIterator) : TM (Z * BPlusIterator) :=
  r ← it_take (Z.to_nat n) it []; mret (len r.1, r.2).
Definition Iter_Take (n : Z) (it : BPlusIterator) : TM (list (bytes * EntryRef) * BPlusIterator) :=
  it_take (Z.to_nat n) it [].

Record ReverseIterator := mkReverseIterator {
  rit_current : option BPlusNode;
  rit_position : Z;
  rit_startKey : option bytes;
  rit_closed : bool
}.

Definition newReverseIterator (startLeaf : BPlusNode) (startPos : Z) (startKey : option bytes) : ReverseIterator :=
  mkReverseIterator (Some startLeaf) startPos startKey false.
Definition closedReverse : ReverseIterator := mkReverseIterator None 0 None true.

Definition rit_at (it : ReverseIterator) (leaf : BPlusNode) (pos : Z) : ReverseIterator :=
  mkReverseIterator (Some leaf) pos (rit_startKey it) (rit_closed it).

Definition rit_stops (it : ReverseIterator) (key : bytes) : bool :=
  match rit_startKey it with Some s => bool_decide (compareKeys key s < 0) | None => false end.

Fixpoint rit_advance (n : nat) (leaf : BPlusNode) (pos : Z) : TM (BPlusNode * Z * bool) :=
  if decide (pos < 0) then
    if decide (PrevLeaf leaf = InvalidPageID) then mret (leaf, pos, false)
    else
      r ← try (readNode (PrevLeaf leaf));
      match r with
      | inr _ => mret (leaf, pos, false)
      | inl prev => match n with O => diverge | S n => rit_advance n prev (len (Keys prev) - 1) end
      end
  else mret (leaf, pos, true).

Definition Reverse_Next (it : ReverseIterator) : TM (option (bytes * EntryRef) * ReverseIterator) :=
  match rit_current it with
  | Some leaf =>
      if rit_closed it then mret (None, it)
      else
        n ← fuel;
        s ← rit_advance n leaf (rit_position it);
        let '(leaf, pos, more) := s in
        if (more : bool) then
          match Keys leaf !! Z.to_nat pos with
          | None => mret (None, rit_at it leaf pos)
          | Some key =>
              if rit_stops it key then mret (None, rit_at it leaf pos)
              else match Values leaf !! Z.to_nat pos with
                   | None => panic
                   | Some ref => mret (Some (key, ref), rit_at it leaf (pos - 1))
                   end
          end
        else mret (None, rit_at it leaf pos)
  | None => mret (None, it)
  end.

Definition Reverse_Close (it : ReverseIterator) : ReverseIterator :=
  mkReverseIterator None (rit_position it) (rit_startKey it) true.

Definition Reverse_Valid (it : ReverseIterator) : TM bool :=
  match rit_current it with
  | Some leaf =>
      if rit_closed it then mret false
      else if decide (0 <= rit_position it < len (Keys leaf)) then
        match Keys leaf !! Z.to_nat (rit_position it) with
        | Some key => mret (negb (rit_stops it key))
        | None => panic
        end
      else if decide (PrevLeaf leaf = InvalidPageID) then mret false
      else
        r ← try (readNode (PrevLeaf leaf));
        match r with
        | inr _ => mret false
        | inl prev => match last (Keys prev) with None => mret false | Some key => mret (negb (rit_stops it key)) end
        end
  | None => mret false
  end.

(** ** search.go *)

(** [if t.root == InvalidPageID { return emptyIterator() }], and the same for an error. *)
Definition or_empty (m : TM BPlusIterator) : TM BPlusIterator :=
  root ← gets t_root;
  if decide (root = InvalidPageID) then mret emptyIterator
  else r ← try m; match r with inl it => mret it | inr _ => mret emptyIterator end.

Definition Range (startKey endKey : option bytes) : TM BPlusIterator :=
  or_empty match startKey with
           | None => leaf ← findLeftmostLeaf; mret (newIterator leaf 0 endKey)
           | Some k => leaf ← findLeaf k; f ← pure (FindKeyIndex leaf k); mret (newIterator leaf f.1 endKey)
           end.

Definition All : TM BPlusIterator := or_empty (leaf ← findLeftmostLeaf; mret (newIterator leaf 0 None)).

(** [for i, key := range leaf.Keys { if bytes.HasPrefix(key, prefix) { startIdx = i; break } }]. *)
Fixpoint first_with_prefix (prefix : bytes) (keys : list bytes) : option nat :=
  match keys with
  | [] => None
  | k :: keys => if HasPrefix k prefix then Some O else S <$> first_with_prefix prefix keys
  end.

Definition ends_with_prefix (node : BPlusNode) (prefix : bytes) : bool :=
  match last (Keys node) with Some k => HasPrefix k prefix | None => false end.

(** [for leaf.Prev != InvalidPageID { ... }]: back to the first leaf that ends with the prefix. *)
Fixpoint prefix_back (n : nat) (prefix : bytes) (leaf : BPlusNode) : TM BPlusNode :=
  if decide (PrevLeaf leaf = InvalidPageID) then mret leaf
  else
    r ← try (readNode (PrevLeaf leaf));
    match r with
    | inr _ => mret leaf
    | inl prevLeaf =>
        if ends_with_prefix prevLeaf prefix then
          match n with O => diverge | S n => prefix_back n prefix prevLeaf end
        else mret leaf
    end.

Definition prefix_start (prefix : bytes) (leaf : BPlusNode) (startIdx : nat) : TM (BPlusNode * nat) :=
  if decide (startIdx = O /\ PrevLeaf leaf <> InvalidPageID) then
    r ← try (readNode (PrevLeaf leaf));
    match r with
    | inl prevLeaf =>
        if ends_with_prefix prevLeaf prefix then
          n ← fuel;
          leaf ← prefix_back n prefix prevLeaf;
          mret (leaf, default O (first_with_prefix prefix (Keys leaf)))
        else mret (leaf, startIdx)
    | inr _ => mret (leaf, startIdx)
    end
  else mret (leaf, startIdx).

Definition Prefix (prefix : bytes) : TM BPlusIterator :=
  if decide (prefix = []) then All
  else or_empty (
    leaf ← findLeaf prefix;
    f ← pure (FindKeyIndex leaf prefix);
    s ← prefix_start prefix leaf f.1;
    match Keys s.1 !! s.2 with
    | Some k => mret (if HasPrefix k prefix then newPrefixIterator s.1 s.2 prefix else emptyIterator)
    | None => mret (newPrefixIterator s.1 s.2 prefix)
    end).

(** [for idx < len(leaf.Keys) && compareKeys(leaf.Keys[idx], key) == 0 { idx++ }]. *)
Fixpoint equal_run (key : bytes) (keys : list bytes) : nat :=
  match keys with
  | [] => O
  | k :: keys => if decide (compareKeys k key = 0) then S (equal_run key keys) else O
  end.

Definition GreaterThan (key : bytes) : TM BPlusIterator :=
  if decide (key = []) then All
  else or_empty (
    leaf ← findLeaf key;
    f ← pure (FindKeyIndex leaf key);
    let idx := if (f.2 : bool) then (f.1 + equal_run key (drop f.1 (Keys leaf)))%nat else f.1 in
    if decide (length (Keys leaf) <= idx)%nat then
      if decide (NextLeaf leaf = InvalidPageID) then mret emptyIterator
      else next ← readNode (NextLeaf leaf); mret (newIterator next 0 None)
    else mret (newIterator leaf idx None)).

Definition GreaterThanOrEqual (key : bytes) : TM BPlusIterator :=
  if decide (key = []) then All
  else or_empty (leaf ← findLeaf key; f ← pure (FindKeyIndex leaf key); mret (newIterator leaf f.1 None)).

Definition LessThan (key : bytes) : TM BPlusIterator :=
  if decide (key = []) then mret emptyIterator
  else or_empty (leaf ← findLeftmostLeaf; mret (newLessThanIteratorInternal leaf 0 (Some key))).

Definition LessThanOrEqual (key : bytes) : TM BPlusIterator :=
  if decide (key = []) then mret emptyIterator else Range None (Some key).

Definition SearchPrefix (prefix : bytes) : TM (list EntryRef) :=
  if decide (prefix = []) then SearchRange None None else it ← Prefix prefix; Iter_CollectRefs it.

(** [if len(key) == 0 { return nil, ErrEmptyKey }], then all that the iterator yields. *)
Definition collect_all (it : bytes -> TM BPlusIterator) (key : bytes) : TM (list EntryRef) :=
  if decide (key = []) then fail ErrEmptyKey else it ← it key; Iter_CollectRefs it.

Definition SearchGreaterThan : bytes -> TM (list EntryRef) := collect_all GreaterThan.
Definition SearchGreaterThanOrEqual : bytes -> TM (list EntryRef) := collect_all GreaterThanOrEqual.
Definition SearchLessThan : bytes -> TM (list EntryRef) := collect_all LessThan.
Definition SearchLessThanOrEqual : bytes -> TM (list EntryRef) := collect_all LessThanOrEqual.

Definition Tree_Contains (key : bytes) : TM bool :=
  if decide (key = []) then fail ErrEmptyKey
  else refs ← Tree_Search key; mret (bool_decide (len refs > 0)).

(** [leaf.Keys[i], leaf.Values[i]] of the first or last entry of a leaf. *)
Definition entry_or_empty (e : option (bytes * EntryRef)) : TM (bytes * EntryRef) :=
  match e with Some e => mret e | None => fail ErrTreeEmpty end.

Definition First : TM (bytes * EntryRef) :=
  root ← gets t_root;
  if decide (root = InvalidPageID) then fail ErrTreeEmpty
  else leaf ← findLeftmostLeaf; entry_or_empty (entries leaf !! 0%nat).

Definition Last : TM (bytes * EntryRef) :=
  root ← gets t_root;
  if decide (root = InvalidPageID) then fail ErrTreeEmpty
  else leaf ← findRightmostLeaf; entry_or_empty (last (entries leaf)).

(** [for idx < len(leaf.Keys)-1 && compareKeys(leaf.Keys[idx+1], endKey) == 0 { idx++ }]. *)
Definition RangeReverse (startKey endKey : option bytes) : TM ReverseIterator :=
  root ← gets t_root;
  if decide (root = InvalidPageID) then mret closedReverse
  else
    r ← try match endKey with
            | None => leaf ← findRightmostLeaf; mret (newReverseIterator leaf (len (Keys leaf) - 1) startKey)
            | Some k =>
                leaf ← findLeaf k;
                f ← pure (FindKeyIndex leaf k);
                let startIdx := if (f.2 : bool) then Z.of_nat (f.1 + equal_run k (drop (S f.1) (Keys leaf)))
                                else Z.of_nat f.1 - 1 in
                mret (newReverseIterator leaf startIdx startKey)
            end;
    match r with inl it => mret it | inr _ => mret closedReverse end.
