(* ===== verification/BTreeDelete.v ===== *)
(** * Deletion from the B+ tree (src/internal/storage/btree/delete.go)

    Nodes are shared objects: the leaf that [Delete] changes is the last node of its path
    only as long as the loops have not moved to a neighbour, whose path is read again and
    holds another copy of it. A path is the list of its nodes, the leaf first; nil is []. *)

From S2P Require Import Prelude GoBinary Page BTree BTreeOps.

(** [parent.Keys[i] = key]. *)
Definition set_key (i : nat) (key : bytes) (n : BPlusNode) : outcome BPlusNode :=
  if decide (i < length (Keys n))%nat then Ok (with_keys (<[i := key]> (Keys n)) n) else Panic.

Definition at_index {A} (l : list A) (i : nat) : TM A :=
  match l !! i with Some x => mret x | None => panic end.

Definition last_index {A} (l : list A) : TM A :=
  match last l with Some x => mret x | None => panic end.

Fixpoint find_child (childID : Z) (children : list Z) : option nat :=
  match children with
  | [] => None
  | c :: cs => if decide (c = childID) then Some O else S <$> find_child childID cs
  end.

(** [None] for [-1]. *)
Definition findChildIndex (parent : BPlusNode) (childID : Z) : option nat := find_child childID (Children parent).

(** ** Internal nodes *)

Definition borrowFromLeftInternal (internal parent leftSibling : BPlusNode) (internalIdx : nat) : TM unit :=
  separatorKey ← at_index (Keys parent) (internalIdx - 1);
  lastChild ← last_index (Children leftSibling);
  lastKey ← last_index (Keys leftSibling);
  parent ← pure (set_key (internalIdx - 1) lastKey parent);
  let internal := with_children (lastChild :: Children internal) (with_keys (separatorKey :: Keys internal) internal) in
  let leftSibling := with_children (removelast (Children leftSibling))
                       (with_keys (removelast (Keys leftSibling)) leftSibling) in
  writeNode leftSibling ;; writeNode internal ;; writeNode parent.

Definition borrowFromRightInternal (internal parent rightSibling : BPlusNode) (internalIdx : nat) : TM unit :=
  separatorKey ← at_index (Keys parent) internalIdx;
  firstChild ← at_index (Children rightSibling) 0;
  firstKey ← at_index (Keys rightSibling) 0;
  parent ← pure (set_key internalIdx firstKey parent);
  let internal := with_children (Children internal ++ [firstChild]) (with_keys (Keys internal ++ [separatorKey]) internal) in
  let rightSibling := with_children (drop 1 (Children rightSibling)) (with_keys (drop 1 (Keys rightSibling)) rightSibling) in
  writeNode rightSibling ;; writeNode internal ;; writeNode parent.

(** [del] is [deleteFromParent] on the rest of the path. *)
Definition mergeInternals (del : nat -> TM unit) (parent left right : BPlusNode) (keyIdx : nat) : TM unit :=
  separatorKey ← at_index (Keys parent) keyIdx;
  let left := with_children (Children left ++ Children right)
                (with_keys (Keys left ++ [separatorKey] ++ Keys right) left) in
  writeNode left ;;
  freeNode (n_PageID right) ;;
  del keyIdx.

(** [sibling, err := t.readNode(id); if err == nil && sibling.CanBorrow() { ... }]. *)
Definition lender (parent : BPlusNode) (i : nat) : TM (option BPlusNode) :=
  id ← at_index (Children parent) i;
  r ← try (readNode id);
  mret (match r with inl n => if CanBorrow n then Some n else None | inr _ => None end).

(** The left sibling if there is one that can lend a key, else the right one. *)
Definition find_lender (parent : BPlusNode) (idx : nat) : TM (option (BPlusNode * bool)) :=
  l ← (if decide (0 < idx)%nat then lender parent (idx - 1) else mret None);
  match l with
  | Some n => mret (Some (n, true))
  | None =>
      r ← (if decide (Z.of_nat idx < len (Children parent) - 1) then lender parent (idx + 1) else mret None);
      mret (match r with Some n => Some (n, false) | None => None end)
  end.

Definition handleInternalUnderflow (del : nat -> TM unit) (internal parent : BPlusNode) : TM unit :=
  match findChildIndex parent (n_PageID internal) with
  | None => fail ErrInvalidNode
  | Some internalIdx =>
      l ← find_lender parent internalIdx;
      match l with
      | Some (leftSibling, true) => borrowFromLeftInternal internal parent leftSibling internalIdx
      | Some (rightSibling, false) => borrowFromRightInternal internal parent rightSibling internalIdx
      | None =>
          if decide (0 < internalIdx)%nat then
            id ← at_index (Children parent) (internalIdx - 1);
            leftSibling ← readNode id;
            mergeInternals del parent leftSibling internal (internalIdx - 1)
          else
            id ← at_index (Children parent) (internalIdx + 1);
            rightSibling ← readNode id;
            mergeInternals del parent internal rightSibling internalIdx
      end
  end.

(** [parent.Keys[keyIdx+1:]] and [parent.Children[keyIdx+2:]] are in range. *)
Definition drop_child (keyIdx : nat) (parent : BPlusNode) : outcome BPlusNode :=
  if decide (keyIdx + 1 <= length (Keys parent) /\ keyIdx + 2 <= length (Children parent))%nat then
    Ok (with_children (remove_at (keyIdx + 1) (Children parent)) (with_keys (remove_at keyIdx (Keys parent)) parent))
  else Panic.

Fixpoint deleteFromParent (path : list BPlusNode) (keyIdx : nat) : TM unit :=
  match path with
  | [] => mret tt
  | parent :: above =>
      parent ← pure (drop_child keyIdx parent);
      match above with
      | [] =>
          match Keys parent, Children parent with
          | [], [child] => set_root child ;; freeNode (n_PageID parent)
          | _, _ => writeNode parent
          end
      | grandparent :: _ =>
          if IsUnderflow parent then handleInternalUnderflow (deleteFromParent above) parent grandparent
          else writeNode parent
      end
  end.

(** ** Leaves

    The operations return the leaf as they leave it in memory. *)

Definition borrowFromLeftLeaf (leaf parent leftSibling : BPlusNode) (leafIdx : nat) : TM BPlusNode :=
  let lastIdx := (length (Keys leftSibling) - 1)%nat in
  key ← last_index (Keys leftSibling);
  value ← at_index (Values leftSibling) lastIdx;
  let leftSibling := RemoveKeyAt lastIdx leftSibling in
  leaf ← pure (InsertKeyAt 0 key (Some value) InvalidPageID leaf);
  parent ← pure (set_key (leafIdx - 1) key parent);
  writeNode leftSibling ;; writeNode leaf ;; writeNode parent ;; mret leaf.

Definition borrowFromRightLeaf (leaf parent rightSibling : BPlusNode) (leafIdx : nat) : TM BPlusNode :=
  key ← at_index (Keys rightSibling) 0;
  value ← at_index (Values rightSibling) 0;
  let rightSibling := RemoveKeyAt 0 rightSibling in
  leaf ← pure (InsertKeyAt (length (Keys leaf)) key (Some value) InvalidPageID leaf);
  separator ← at_index (Keys rightSibling) 0;
  parent ← pure (set_key leafIdx separator parent);
  writeNode rightSibling ;; writeNode leaf ;; writeNode parent ;; mret leaf.

(** The merged left node. *)
Definition mergeLeaves (above : list BPlusNode) (left right : BPlusNode) (keyIdx : nat) : TM BPlusNode :=
  let left := with_values (Values left ++ Values right) (with_keys (Keys left ++ Keys right) left) in
  let left := with_next (NextLeaf right) left in
  (if decide (NextLeaf right <> InvalidPageID) then
     r ← try (readNode (NextLeaf right));
     match r with
     | inl nextLeaf => r ← try (writeNode (with_prev (n_PageID left) nextLeaf)); mret tt
     | inr _ => mret tt
     end
   else mret tt) ;;
  writeNode left ;;
  freeNode (n_PageID right) ;;
  deleteFromParent above keyIdx ;;
  mret left.

Definition handleLeafUnderflow (path : list BPlusNode) : TM BPlusNode :=
  match path with
  | leaf :: (parent :: _) as above =>
      match findChildIndex parent (n_PageID leaf) with
      | None => fail ErrInvalidNode
      | Some leafIdx =>
          l ← find_lender parent leafIdx;
          match l with
          | Some (leftSibling, true) => borrowFromLeftLeaf leaf parent leftSibling leafIdx
          | Some (rightSibling, false) => borrowFromRightLeaf leaf parent rightSibling leafIdx
          | None =>
              if decide (0 < leafIdx)%nat then
                id ← at_index (Children parent) (leafIdx - 1);
                leftSibling ← readNode id;
                _ ← mergeLeaves above leftSibling leaf (leafIdx - 1);
                mret leaf
              else
                id ← at_index (Children parent) (leafIdx + 1);
                rightSibling ← readNode id;
                mergeLeaves above leaf rightSibling leafIdx
          end
      end
  | _ => panic
  end.

(** ** Delete and DeleteKey *)

(** The leaf, its path, and whether it is the last node of the path. *)
Definition cursor : Type := BPlusNode * list BPlusNode * bool.

(** The leaf was changed: the path sees the change when it holds the same object. *)
Definition changed (leaf : BPlusNode) (path : list BPlusNode) (aliased : bool) : list BPlusNode :=
  if aliased then match path with [] => [] | _ :: above => leaf :: above end else path.

Definition start_at (key : bytes) : TM cursor := p ← findLeafWithPath key; mret (p.1, p.1 :: p.2, true).

(** [for leaf.Prev != InvalidPageID { ... }]; an error of [findLeafWithPathForPageID] leaves
    a nil path. *)
Fixpoint delete_back (n : nat) (key : bytes) (c : cursor) : TM cursor :=
  let '(leaf, path, aliased) := c in
  if decide (PrevLeaf leaf = InvalidPageID) then mret c
  else
    r ← try (readNode (PrevLeaf leaf));
    match r with
    | inr _ => mret c
    | inl prevLeaf =>
        if ends_with prevLeaf key then
          p ← try (findLeafWithPathForPageID (n_PageID prevLeaf));
          match p with
          | inr _ => mret (leaf, [], aliased)
          | inl p => match n with O => diverge | S n => delete_back n key (prevLeaf, p.1 :: p.2, false) end
          end
        else mret c
    end.

(** [nextLeaf, err := t.readNode(leaf.Next)] and the path to it; [None] when the loop ends. *)
Definition next_with_key (key : bytes) (leaf : BPlusNode) : TM (option cursor) :=
  if decide (NextLeaf leaf = InvalidPageID) then mret None
  else
    r ← try (readNode (NextLeaf leaf));
    match r with
    | inr _ => mret None
    | inl nextLeaf =>
        match Keys nextLeaf with
        | [] => mret None
        | k :: _ =>
            if decide (compareKeys k key <> 0) then mret None
            else
              p ← try (findLeafWithPathForPageID (n_PageID nextLeaf));
              mret (match p with inl p => Some (nextLeaf, p.1 :: p.2, false) | inr _ => None end)
        end
    end.

(** [for i := idx; i < len(leaf.Keys); i++ { ... }]: the position of the entry. *)
Fixpoint find_ref (key : bytes) (ref : EntryRef) (i : nat) (es : list (bytes * EntryRef)) : option nat :=
  match es with
  | [] => None
  | (k, v) :: es =>
      if decide (compareKeys k key <> 0) then None
      else if decide (e_PageID v = e_PageID ref /\ e_SlotID v = e_SlotID ref) then Some i
      else find_ref key ref (S i) es
  end.

Fixpoint delete_loop (n : nat) (key : bytes) (ref : EntryRef) (c : cursor) : TM unit :=
  let '(leaf, path, aliased) := c in
  f ← pure (FindKeyIndex leaf key);
  match (if (f.2 : bool) then find_ref key ref f.1 (drop f.1 (entries leaf)) else None) with
  | Some i =>
      let leaf := RemoveKeyAt i leaf in
      let path := changed leaf path aliased in
      if decide (length path = 1%nat) then writeNode leaf
      else if IsUnderflow leaf then _ ← handleLeafUnderflow path; mret tt
      else writeNode leaf
  | None =>
      c ← next_with_key key leaf;
      match c with
      | None => fail ErrKeyNotFound
      | Some c => match n with O => diverge | S n => delete_loop n key ref c end
      end
  end.

Definition Delete (key : bytes) (ref : EntryRef) : TM unit :=
  if decide (key = []) then fail ErrEmptyKey
  else
    c ← start_at key;
    n ← fuel;
    c ← delete_back n key c;
    delete_loop n key ref c.

(** [for idx < len(leaf.Keys) && compareKeys(leaf.Keys[idx], key) == 0 { leaf.RemoveKeyAt(idx); deleteCount++ }]. *)
Fixpoint remove_equal (n : nat) (key : bytes) (idx : nat) (leaf : BPlusNode) (count : Z) : BPlusNode * Z :=
  match n, Keys leaf !! idx with
  | S n, Some k => if decide (compareKeys k key = 0) then remove_equal n key idx (RemoveKeyAt idx leaf) (count + 1) else (leaf, count)
  | _, _ => (leaf, count)
  end.

Fixpoint delete_key_loop (n : nat) (key : bytes) (c : cursor) (idx : nat) (count : Z) : TM unit :=
  let '(leaf, path, aliased) := c in
  let '(leaf, count) := remove_equal (length (Keys leaf)) key idx leaf count in
  let path := changed leaf path aliased in
  writeNode leaf ;;
  leaf ← (if decide (1 < length path)%nat then
            if IsUnderflow leaf then l ← handleLeafUnderflow path; mret (if aliased : bool then l else leaf) else mret leaf
          else mret leaf);
  c ← next_with_key key leaf;
  match c with
  | Some c => match n with O => diverge | S n => delete_key_loop n key c 0 count end
  | None => if decide (count = 0) then fail ErrKeyNotFound else mret tt
  end.

Definition DeleteKey (key : bytes) : TM unit :=
  if decide (key = []) then fail ErrEmptyKey
  else
    c ← start_at key;
    n ← fuel;
    c ← delete_back n key c;
    f ← pure (FindKeyIndex c.1.1 key);
    if (f.2 : bool) then delete_key_loop n key c f.1 0 else fail ErrKeyNotFound.
