(* ===== verification/BTreeCodec.v ===== *)
(** * B+ tree nodes: the order of keys, positions in a node, the page format, and pages as a store of nodes

    In the store the nodes of the tree are a finite map [N] from page numbers to nodes; the
    pages [F] belong to others. Reading, writing and allocating nodes are the operations of a
    store; the page manager's refinement of its page store discharges them. *)

From Stdlib Require Export Sorting.Sorted.
From S2P Require Import Prelude GoBinary Page PageStore BTree BTreeOps.

(** ** The order of keys *)

Definition klt (a b : bytes) : Prop := compareKeys a b < 0.

#[export] Instance klt_dec a b : Decision (klt a b).
Proof. unfold klt. apply _. Defined.

Lemma compareKeys_refl a : compareKeys a a = 0.
Proof. induction a as [|x a IH]; [done |]. cbn. by rewrite !decide_False by lia. Qed.

Lemma compareKeys_sym a b : compareKeys b a = - compareKeys a b.
Proof.
  revert b. induction a as [|x a IH]; intros [|y b]; try done. cbn.
  repeat case_decide; try lia. apply IH.
Qed.

Lemma compareKeys_eq a b : compareKeys a b = 0 <-> a = b.
Proof.
  split; [| intros ->; apply compareKeys_refl].
  revert b. induction a as [|x a IH]; intros [|y b]; try done. cbn.
  repeat case_decide; try lia. intros Heq. f_equal; [apply bZ_inj; lia | by apply IH].
Qed.

Lemma klt_trans a b c : klt a b -> klt b c -> klt a c.
Proof.
  unfold klt. revert b c. induction a as [|x a IH]; intros [|y b] [|z c]; cbn; try lia.
  repeat case_decide; try lia. apply IH.
Qed.

Lemma klt_irrefl a : ~ klt a a.
Proof. unfold klt. rewrite compareKeys_refl. lia. Qed.

Lemma klt_total a b : klt a b \/ a = b \/ klt b a.
Proof.
  unfold klt. rewrite (compareKeys_sym a b). destruct (decide (compareKeys a b = 0)) as [H|H]; [| lia].
  apply compareKeys_eq in H. tauto.
Qed.

Lemma klt_not a b : ~ klt a b <-> b = a \/ klt b a.
Proof.
  split; [destruct (klt_total a b) as [|[|]]; naive_solver |]. intros [->|H]; [apply klt_irrefl |].
  intros H'. by apply (klt_irrefl a), (klt_trans a b a).
Qed.

Lemma klt_le_trans a b c : klt a b -> ~ klt c b -> klt a c.
Proof. intros H [<-|H']%klt_not; [done | by eapply klt_trans]. Qed.

Lemma kle_lt_trans a b c : ~ klt b a -> klt b c -> klt a c.
Proof. intros [<-|H']%klt_not H; [done | by eapply klt_trans]. Qed.

Lemma compareKeys_pos a b : compareKeys a b > 0 <-> klt b a.
Proof. unfold klt. rewrite (compareKeys_sym a b). lia. Qed.

(** A bound of an interval of keys; [None] is no bound. *)
Definition above (lo : option bytes) (k : bytes) : Prop := match lo with Some l => ~ klt k l | None => True end.
Definition below (k : bytes) (hi : option bytes) : Prop := match hi with Some h => klt k h | None => True end.
Definition within (lo hi : option bytes) (k : bytes) : Prop := above lo k /\ below k hi.
Definition over (lo : option bytes) (k : bytes) : Prop := match lo with Some l => klt l k | None => True end.
Definition bounds (lo hi : option bytes) : Prop := match lo with Some l => below l hi | None => True end.

Abbreviation sorted := (StronglySorted klt).

Lemma sorted_app_inv (l k : list bytes) :
  sorted (l ++ k) -> sorted l /\ sorted k /\ forall x y, x ∈ l -> y ∈ k -> klt x y.
Proof.
  induction l as [|a l IH]; cbn; [intros H; split_and!; [constructor | done | set_solver] |].
  intros [H1 H2]%StronglySorted_inv. destruct (IH H1) as (Hl & Hk & Hx). rewrite Forall_app in H2. destruct H2 as [H2 H3].
  split_and!; [by constructor | done |]. intros x y [->|Hin]%elem_of_cons Hy; [| by apply Hx].
  by eapply Forall_forall in H3.
Qed.

Lemma sorted_app (l k : list bytes) :
  sorted l -> sorted k -> (forall x y, x ∈ l -> y ∈ k -> klt x y) -> sorted (l ++ k).
Proof.
  induction 1 as [|a l Hl IH Ha]; intros Hk Hx; [done |]. cbn. constructor; [apply IH; set_solver |].
  rewrite Forall_app. split; [done |]. apply Forall_forall. intros y Hy. apply Hx; set_solver.
Qed.

Lemma sorted_NoDup (l : list bytes) : sorted l -> NoDup l.
Proof.
  induction 1 as [|a l Hl IH Ha]; constructor; [| done]. intros Hin. eapply Forall_forall in Ha; [| done].
  by apply klt_irrefl in Ha.
Qed.

(** ** Positions *)

Definition position (ks : list bytes) (key : bytes) (i : nat) : Prop :=
  (i <= length ks)%nat /\ Forall (fun k => klt k key) (take i ks) /\ Forall (fun k => ~ klt k key) (drop i ks).

Lemma find_key_done ks key i found :
  (i <= length ks)%nat -> Forall (fun k => klt k key) (take i ks) -> Forall (fun k => ~ klt k key) (drop i ks) ->
  (found = true <-> exists j, (i <= j)%nat /\ ks !! j = Some key) ->
  exists j, Ok (i, found) = Ok (j, bool_decide (key ∈ ks)) /\ position ks key j.
Proof.
  intros Hb Hlo Hhi Hfound. exists i. split; [| done]. do 2 f_equal. case_bool_decide as Hin.
  - apply Hfound. apply list_elem_of_lookup in Hin as [j Hj]. exists j. split; [| done].
    destruct (decide (i <= j)%nat); [done |]. exfalso. eapply (Forall_lookup_1 _ _ j key) in Hlo.
    + by apply klt_irrefl in Hlo.
    + by rewrite lookup_take_lt by lia.
  - apply not_true_is_false. intros (j & _ & Hj)%Hfound. by apply list_elem_of_lookup_2 in Hj.
Qed.

Lemma find_key_spec ks key fuel lo hi found :
  sorted ks -> (lo <= hi <= length ks)%nat -> (hi - lo <= fuel)%nat ->
  Forall (fun k => klt k key) (take lo ks) -> Forall (fun k => ~ klt k key) (drop hi ks) ->
  (found = true <-> exists i, (hi <= i)%nat /\ ks !! i = Some key) ->
  exists i, find_key fuel ks key lo hi found = Ok (i, bool_decide (key ∈ ks)) /\ position ks key i.
Proof.
  intros Hs. revert lo hi found. induction fuel as [|fuel IH]; intros lo hi found Hb Hf Hlo Hhi Hfound;
    cbn [find_key]; (destruct (decide (lo < hi)%nat) as [Hd|Hd];
      [try lia | assert (lo = hi) as -> by lia; apply find_key_done; [lia | done..]]).
  set (mid := ((lo + hi) / 2)%nat).
  assert (lo <= mid < hi)%nat as Hm.
  { unfold mid. split; [apply Nat.div_le_lower_bound; lia | apply Nat.Div0.div_lt_upper_bound; lia]. }
  destruct (lookup_lt_is_Some_2 ks mid ltac:(lia)) as [k Hk]. rewrite Hk.
  assert (ks = take mid ks ++ k :: drop (S mid) ks) as Hsplit by (by rewrite take_drop_middle).
  pose proof Hs as Hs'. rewrite Hsplit in Hs'. apply sorted_app_inv in Hs' as (_ & Hs2 & Hx).
  apply StronglySorted_inv in Hs2 as [_ Hafter].
  assert (~ klt k key -> Forall (fun k => ~ klt k key) (drop mid ks)) as Hge.
  { intros Hn. rewrite (drop_S ks k mid) by done. constructor; [done |].
    eapply Forall_impl; [exact Hafter |]. cbn. intros x Hx' Hlt. apply Hn. by eapply klt_trans. }
  destruct (decide (compareKeys k key < 0)) as [Hlt|Hnlt].
  - apply IH; [lia | lia | | done | done].
    replace (mid + 1)%nat with (S mid) by lia. rewrite (take_S_r _ _ k) by done.
    apply Forall_app. split; [| by repeat constructor]. apply Forall_forall. intros x Hin. eapply klt_trans; [| exact Hlt].
    apply Hx; [done | set_solver].
  - destruct (decide (compareKeys k key > 0)) as [Hgt|Hngt].
    + apply IH; [lia | lia | done | by apply Hge |]. rewrite Hfound. split; [intros (i & Hi & Hik); exists i; split; [lia | done] |].
      intros (i & Hi & Hik). exists i. split; [| done]. destruct (decide (hi <= i)%nat); [done |]. exfalso.
      apply compareKeys_pos in Hgt. destruct (decide (i = mid)) as [->|Hne].
      { rewrite Hk in Hik. injection Hik as ->. by apply klt_irrefl in Hgt. }
      eapply (Forall_lookup_1 _ _ (i - S mid) key) in Hafter.
      2:{ rewrite lookup_drop. by replace (S mid + (i - S mid))%nat with i by lia. }
      apply (klt_irrefl key). by eapply klt_trans.
    + assert (k = key) as -> by (apply compareKeys_eq; lia).
      apply IH; [lia | lia | done | by apply Hge |]. split; [| done]. intros _. exists mid. split; [lia | done].
Qed.

Lemma FindKeyIndex_spec n key :
  sorted (Keys n) -> exists i, FindKeyIndex n key = Ok (i, bool_decide (key ∈ Keys n)) /\ position (Keys n) key i.
Proof.
  intros Hs. apply find_key_spec; [done | lia | lia | constructor | by rewrite drop_all |].
  split; [done |]. intros (i & Hi & Hk). apply lookup_lt_Some in Hk. lia.
Qed.

(** The position is determined by a split of the keys. *)
Lemma position_app l k key i :
  position (l ++ k) key i -> Forall (fun x => klt x key) l -> Forall (fun x => ~ klt x key) k -> i = length l.
Proof.
  intros (Hi & H1 & H2) Hl Hk. destruct (Nat.lt_total i (length l)) as [Hlt|[Heq|Hgt]]; [| done |].
  - destruct (lookup_lt_is_Some_2 l i Hlt) as [x Hx]. eapply Forall_lookup_1 in Hl; [| exact Hx].
    eapply (Forall_lookup_1 _ _ 0%nat x) in H2; [done |]. rewrite lookup_drop, Nat.add_0_r. by apply lookup_app_l_Some.
  - rewrite length_app in Hi. destruct (lookup_lt_is_Some_2 k 0%nat ltac:(lia)) as [x Hx].
    eapply Forall_lookup_1 in Hk; [| exact Hx].
    eapply (Forall_lookup_1 _ _ (length l) x) in H1; [done |]. rewrite lookup_take_lt by lia.
    rewrite lookup_app_r by lia. by rewrite Nat.sub_diag.
Qed.

(** ** The page format *)

Record wf_ref (r : EntryRef) : Prop := mkWfRef {
  wfr_page : is_uint64 (e_PageID r);
  wfr_slot : is_uint16 (e_SlotID r);
  wfr_dn : len (e_DN r) < 2 ^ 16
}.

Record wf_node (n : BPlusNode) : Prop := mkWfNode {
  wfn_id : page_number (n_PageID n);
  wfn_next : is_uint64 (NextLeaf n);
  wfn_prev : is_uint64 (PrevLeaf n);
  wfn_size : SerializedSize n <= PageSize - PageHeaderSize;
  wfn_keys : Forall (fun k => len k <= MaxKeySize) (Keys n);
  wfn_shape :
    if IsLeaf n then
      Children n = [] /\ length (Values n) = length (Keys n) /\ len (Keys n) <= BPlusLeafCapacity /\ Forall wf_ref (Values n)
    else
      Values n = [] /\ len (Keys n) <= BPlusOrder - 1 /\ Forall is_uint64 (Children n)
      /\ length (Children n) = match Keys n with [] => 0%nat | _ => S (length (Keys n)) end
}.

Lemma field_at pre q o n : field (pre ++ q) (length pre + o) n = field q o n.
Proof. rewrite field_skip by lia. f_equal. lia. Qed.

Lemma field_at_0 pre q n : field (pre ++ q) (length pre) n = field q 0 n.
Proof. rewrite field_skip by lia. f_equal. lia. Qed.

Lemma ReadAt_at pre q o n : ReadAt (pre ++ q) (length pre + o) n = ReadAt q o n.
Proof. unfold ReadAt. by rewrite drop_app_ge, Nat.add_comm, Nat.add_sub by lia. Qed.

Lemma len_key_bytes k : len (key_bytes k) = KeyLengthSize + len k.
Proof. unfold key_bytes. by lens. Qed.

Lemma uint16_id z : 0 <= z < 2 ^ 16 -> uint16 z = z.
Proof. apply Z.mod_small. Qed.

Lemma len_key_uint16 (k : bytes) : len k <= MaxKeySize -> is_uint16 (len k) /\ uint16 (len k) = len k.
Proof. unfold is_uint16, MaxKeySize. intros. pose proof (len_nonneg k). split; [lia | apply uint16_id; lia]. Qed.

Lemma read_keys_spec pre ks post :
  Forall (fun k => len k <= MaxKeySize) ks ->
  read_keys (pre ++ (ks ≫= key_bytes) ++ post) (length pre) (length ks) = Ok (ks, length (pre ++ (ks ≫= key_bytes))).
Proof.
  intros Hk. revert pre. induction Hk as [|k ks Hk Hks IH]; intros pre; cbn [read_keys length]; [by rewrite app_nil_r |].
  destruct (len_key_uint16 k Hk) as [Hu He].
  assert (forall q, field (pre ++ key_bytes k ++ q) (length pre) 2 = len k) as Hf.
  { intros q. rewrite field_at_0. unfold key_bytes. rewrite He, <- (assoc_L (++)). by apply field16. }
  cbn [mbind list_bind]. rewrite <- !(assoc_L (++)). rewrite Hf.
  rewrite decide_False by (rewrite !length_app; unfold key_bytes; rewrite length_app; cbn [length put16 le_bytes]; lia).
  rewrite decide_False by lia. replace (Z.to_nat (len k)) with (length k) by (unfold len; lia).
  rewrite decide_False by (rewrite !length_app; unfold key_bytes; rewrite length_app; cbn [length put16 le_bytes]; lia).
  specialize (IH (pre ++ key_bytes k)). replace (length (pre ++ key_bytes k)) with (length pre + 2 + length k)%nat in IH.
  2:{ rewrite length_app. unfold key_bytes. rewrite length_app. cbn. lia. }
  rewrite <- !(assoc_L (++)) in IH. cbn [mbind list_bind] in IH. rewrite IH. cbn [mbind outcome_bind fst snd].
  rewrite ReadAt_at. unfold key_bytes, ReadAt. rewrite <- (assoc_L (++)), drop_app_length' by done. by rewrite take_app_length.
Qed.

Lemma length_ref_bytes r : length (ref_bytes r) = (12 + length (e_DN r))%nat.
Proof. done. Qed.

Lemma ref_fields v q :
  wf_ref v ->
  field (ref_bytes v ++ q) 0 8 = e_PageID v /\ field (ref_bytes v ++ q) 8 2 = e_SlotID v
  /\ field (ref_bytes v ++ q) 10 2 = len (e_DN v) /\ ReadAt (ref_bytes v ++ q) 12 (length (e_DN v)) = e_DN v.
Proof.
  intros [Hp Hs Hd]. pose proof (len_nonneg (e_DN v)).
  assert (is_uint16 (len (e_DN v))) as Hu by (split; lia). unfold ref_bytes. rewrite uint16_id by done.
  rewrite <- !(assoc_L (++)). fields. split_and!; [done..|]. unfold ReadAt.
  rewrite (assoc_L (++) (put64 _)), (assoc_L (++) (put64 _ ++ _)), drop_app_length' by done. by rewrite take_app_length.
Qed.

Lemma read_refs_spec pre vs post :
  Forall wf_ref vs -> read_refs (pre ++ (vs ≫= ref_bytes) ++ post) (length pre) (length vs) = Ok vs.
Proof.
  intros Hv. revert pre. induction Hv as [|v vs Hw Hvs IH]; intros pre; cbn [read_refs length]; [done |].
  cbn [mbind list_bind]. rewrite <- !(assoc_L (++)). rewrite field_at_0, !field_at.
  edestruct (ref_fields v) as (-> & -> & -> & Hdn); [done |].
  replace (Z.to_nat (len (e_DN v))) with (length (e_DN v)) by (unfold len; lia).
  rewrite ReadAt_at, Hdn. rewrite !decide_False by (rewrite !length_app, length_ref_bytes; lia).
  specialize (IH (pre ++ ref_bytes v)). replace (length (pre ++ ref_bytes v)) with (length pre + 12 + length (e_DN v))%nat in IH.
  2:{ rewrite length_app, length_ref_bytes. lia. }
  rewrite <- !(assoc_L (++)) in IH. cbn [mbind list_bind] in IH. rewrite IH. cbn [mbind outcome_bind]. by destruct v.
Qed.

Lemma read_children_spec pre cs post :
  Forall is_uint64 cs -> read_children (pre ++ (cs ≫= put64) ++ post) (length pre) (length cs) = Ok cs.
Proof.
  intros Hc. revert pre. induction Hc as [|c cs Hc Hcs IH]; intros pre; cbn [read_children length]; [done |].
  cbn [mbind list_bind]. rewrite <- !(assoc_L (++)). rewrite field_at_0. fields.
  rewrite decide_False by (rewrite !length_app; change (length (put64 c)) with 8%nat; lia).
  specialize (IH (pre ++ put64 c)). replace (length (pre ++ put64 c)) with (length pre + 8)%nat in IH by (by rewrite length_app).
  rewrite <- !(assoc_L (++)) in IH. cbn [mbind list_bind] in IH. by rewrite IH.
Qed.

Definition node_bytes (n : BPlusNode) : bytes :=
  node_header n ++ (Keys n ≫= key_bytes) ++ (if IsLeaf n then Values n ≫= ref_bytes else Children n ≫= put64).

Lemma len_bind {A} (f : A -> bytes) (g : A -> Z) l : (forall x, len (f x) = g x) -> len (l ≫= f) = sumZ (g <$> l).
Proof. intros H. induction l as [|x l IH]; [done |]. cbn [mbind list_bind]. rewrite len_app, H. cbn. unfold sumZ in *. lia. Qed.

Lemma len_node_bytes n : len (node_bytes n) = SerializedSize n.
Proof.
  unfold node_bytes, SerializedSize. rewrite !len_app, (len_bind _ _ _ len_key_bytes).
  change (len (node_header n)) with 21. destruct (IsLeaf n).
  - rewrite (len_bind _ ref_size); [unfold BPlusNodeHeaderSize; lia |]. intros r. unfold len. rewrite length_ref_bytes.
    unfold ref_size, EntryRefBaseSize, len. lia.
  - rewrite (len_bind _ (fun _ => 8)) by done. unfold BPlusNodeHeaderSize, PageIDSize. clear.
    enough (forall l : list Z, sumZ ((fun _ => 8) <$> l) = len l * 8) as -> by lia.
    induction l as [|x l IH]; [done |]. rewrite len_cons. cbn. unfold sumZ in IH. lia.
Qed.

Lemma pad_short n l : (length l <= n)%nat -> pad n l = l ++ zeros (n - length l).
Proof. intros H. unfold pad. by rewrite firstn_all2. Qed.

Lemma deserialize_header b ks next prev q :
  is_uint16 ks -> is_uint64 next -> is_uint64 prev ->
  let buf := ([if b : bool then x01 else x00] ++ put16 ks ++ put64 next ++ put64 prev ++ [x00; x00]) ++ q in
  byte_eqb (nth 0 buf x00) x01 = b /\ field buf 1 2 = ks /\ field buf 3 8 = next /\ field buf 11 8 = prev.
Proof. intros H1 H2 H3. cbv zeta. rewrite <- !(assoc_L (++)). fields. by destruct b. Qed.

Lemma Node_roundtrip n :
  wf_node n -> Node_Deserialize (pad data_size (node_bytes n)) (n_PageID n) = Ok n.
Proof.
  intros [Hid Hnx Hpv Hsz Hks Hsh]. pose proof (len_node_bytes n) as Hlen.
  rewrite pad_short by (rewrite <- Hlen in Hsz; unfold data_size, len in *; lia).
  unfold Node_Deserialize. rewrite decide_False.
  2:{ unfold node_bytes, BPlusNodeHeaderSize. rewrite !len_app. change (len (node_header n)) with 21. len_lia. }
  pose proof (len_nonneg (Keys n)) as Hk0.
  assert (len (Keys n) <= 256) as Hk.
  { destruct (IsLeaf n); unfold BPlusLeafCapacity, BPlusOrder in Hsh; [destruct Hsh as (_ & _ & ? & _) | destruct Hsh as (_ & ? & _)]; lia. }
  set (z := zeros _). unfold node_bytes, node_header. rewrite (uint16_id (len (Keys n))) by lia. rewrite <- (assoc_L (++) _ _ z).
  edestruct (deserialize_header (IsLeaf n) (len (Keys n)) (NextLeaf n) (PrevLeaf n)) as (-> & -> & -> & ->);
    [unfold is_uint16; lia | done | done |].
  rewrite decide_False by (intros [E ?]; rewrite E in Hsh; destruct Hsh as (_ & _ & ? & _); lia).
  rewrite decide_False by (intros [E ?]; rewrite E in Hsh; destruct Hsh as (_ & ? & _); lia).
  replace (Z.to_nat (len (Keys n))) with (length (Keys n)) by (unfold len; lia).
  rewrite <- (assoc_L (++) (Keys n ≫= key_bytes)). set (hd := [_] ++ _). change 21%nat with (length hd).
  rewrite read_keys_spec by done. cbn [mbind outcome_bind fst snd]. rewrite (assoc_L (++) hd).
  clearbody hd. destruct n as [[] ks cs vs nx pv id]; cbn [IsLeaf Keys Children Values NextLeaf PrevLeaf n_PageID] in Hsh |- *.
  - destruct Hsh as (-> & Hl & _ & Hr). rewrite <- Hl. by rewrite read_refs_spec.
  - destruct Hsh as (-> & _ & Hc & Hl).
    replace (if decide (len ks = 0) then 0%nat else S (length ks)) with (length cs).
    2:{ rewrite Hl. destruct ks; [done |]. rewrite decide_False by (rewrite len_cons; pose proof (len_nonneg ks); lia). done. }
    by rewrite read_children_spec.
Qed.

Definition node_page (n : BPlusNode) : Page :=
  mkPage (SetDirty (mkPageHeader (n_PageID n) PageTypeAttrIndex (if IsLeaf n then x04 else x00)
           (uint16 (len (Keys n))) (uint16 (PageSize - PageHeaderSize - SerializedSize n)) 0))
    (pad data_size (node_bytes n)).

Lemma CreatePage_run n : wf_node n -> CreatePage n = Ok (node_page n).
Proof.
  intros [Hid Hnx Hpv Hsz Hks Hsh]. unfold CreatePage, FitsInPage. rewrite bool_decide_true by done. cbn [negb].
  unfold Node_Serialize. rewrite decide_False by lia.
  replace (existsb _ (Keys n)) with false.
  2:{ symmetry. apply not_true_is_false. intros (k & Hin & Hk)%existsb_exists. apply bool_decide_eq_true in Hk.
      rewrite Forall_forall in Hks. specialize (Hks k). rewrite list_elem_of_In in Hks. specialize (Hks Hin). lia. }
  rewrite decide_False.
  2:{ intros (E & Hc & Hk). rewrite E in Hsh. destruct Hsh as (_ & _ & _ & Hl). destruct (Keys n); [done |]. unfold len in *. lia. }
  rewrite decide_False; [done |]. intros (E & Hc). rewrite E in Hsh. destruct Hsh as (_ & Hl & _). unfold len in *. lia.
Qed.

Lemma node_page_wf n : wf_node n -> wf_page (node_page n).
Proof.
  intros H. destruct (wfn_id _ H) as [? ?]. constructor; cbn; [unfold is_uint64; lia | apply Z.mod_pos_bound; lia..].
Qed.

Lemma node_page_decodes n : wf_node n -> NewNodeFromPage (stored (node_page n)) = Ok n.
Proof. intros H. unfold NewNodeFromPage, stored. cbn. rewrite pad_idemp. by apply Node_roundtrip. Qed.

(** The page that [AllocatePage] leaves is an internal node without keys. *)
Lemma new_page_decodes id : NewNodeFromPage (stored (NewPage id PageTypeAttrIndex)) = Ok (NewInternalNode id).
Proof. vm_compute. reflexivity. Qed.

Abbreviation nodes := (gmap Z BPlusNode).

Section Store.
Context (disk_limit : Z) (Hlimit : disk_limit < 2 ^ 62).

Record store (pm : PageManager) (N : nodes) (F : gmap Z Page) : Prop := mkStore {
  st_pages : exists A, Rep disk_limit pm A /\ F ⊆ A
    /\ forall id n, N !! id = Some n -> exists p, A !! id = Some p /\ NewNodeFromPage p = Ok n;
  st_disjoint : forall id, is_Some (N !! id) -> F !! id = None;
  st_nodes : forall id n, N !! id = Some n -> wf_node n /\ n_PageID n = id
}.

Definition with_pages (t : BPlusTree) (pm : PageManager) : BPlusTree := mkBPlusTree (t_root t) (t_order t) pm.

Lemma store_id pm N F id : store pm N F -> is_Some (N !! id) -> 0 < id < totalPages pm.
Proof. intros [(A & Hr & _ & HN) _ _] [n Hn]. destruct (HN id n Hn) as (p & Hp & _). by apply (rep_pages _ _ _ Hr) in Hp as [? _]. Qed.

Lemma readNode_run t N F id n :
  store (t_pages t) N F -> N !! id = Some n -> readNode id t = (Ok n, t).
Proof.
  intros Hs Hn. pose proof (store_id _ _ _ id Hs ltac:(by eexists)) as Hid. destruct Hs as [(A & Hr & HF & HN) Hd Hw].
  destruct (HN id n Hn) as (p & Hp & Hdec). unfold readNode. rewrite decide_False by (unfold InvalidPageID; lia).
  destruct (read_op_run disk_limit Hlimit _ A id Hr) as (r & Hrd & _ & Hok). rewrite (Hok p Hp) in Hrd.
  erewrite bind_ok; [| unfold on_pm; by rewrite Hrd]. unfold pure. rewrite Hdec. by destruct t.
Qed.

Lemma writeNode_run t N F n :
  store (t_pages t) N F -> wf_node n -> is_Some (N !! n_PageID n) ->
  exists pm, writeNode n t = (Ok tt, with_pages t pm) /\ store pm (<[n_PageID n := n]> N) F.
Proof.
  intros Hs Hwn [n0 Hn0]. pose proof (store_id _ _ _ (n_PageID n) Hs ltac:(by eexists)) as Hid.
  destruct Hs as [(A & Hr & HF & HN) Hd Hw].
  destruct (HN _ _ Hn0) as (p0 & Hp0 & _). unfold writeNode.
  erewrite bind_ok by (unfold pure; by rewrite CreatePage_run).
  destruct (write_op_run disk_limit Hlimit _ A (node_page n) Hr (node_page_wf n Hwn)) as (r & pm & Hrun & _ & Hok).
  change (ph_PageID (Header (node_page n))) with (n_PageID n) in Hok.
  rewrite Hp0 in Hok. destruct Hok as [-> Hr']. exists pm. unfold on_pm. rewrite Hrun. split; [done |].
  constructor.
  - exists (<[n_PageID n := stored (node_page n)]> A). split_and!; [done | |].
    + apply insert_subseteq_r; [| done]. apply Hd. by eexists.
    + intros id m [[<- <-]|[Hne E]]%lookup_insert_Some.
      * eexists. split; [apply lookup_insert_eq |]. by apply node_page_decodes.
      * destruct (HN id m E) as (p & Hp & Hdec). exists p. by rewrite lookup_insert_ne.
  - intros id [m [[<- <-]|[Hne E]]%lookup_insert_Some]; [by apply Hd; eexists | apply Hd; by eexists].
  - intros id m [[<- <-]|[Hne E]]%lookup_insert_Some; [done | by apply Hw].
Qed.

Lemma wf_new_internal id : page_number id -> wf_node (NewInternalNode id).
Proof. intros H. by constructor. Qed.

Lemma wf_new_leaf id : page_number id -> wf_node (NewLeafNode id).
Proof. intros H. by constructor. Qed.

Lemma allocate_run t N F :
  store (t_pages t) N F ->
  (exists id pm, on_pm (AllocatePage disk_limit PageTypeAttrIndex) t = (Ok id, with_pages t pm)
     /\ page_number id /\ N !! id = None /\ store pm (<[id := NewInternalNode id]> N) F)
  \/ (exists e, on_pm (AllocatePage disk_limit PageTypeAttrIndex) t = (Err e, t) /\ full disk_limit (t_pages t) 8).
Proof.
  intros [(A & Hr & HF & HN) Hd Hw].
  destruct (alloc_run disk_limit Hlimit _ A PageTypeAttrIndex Hr) as [(id & pm & Hrun & Ha & Hr')|(e & Hrun & Hf)].
  - left. exists id, pm. unfold on_pm. rewrite Hrun. split; [done |].
    assert (page_number id) as Hid.
    { destruct (rep_pages _ _ _ Hr' id _ (lookup_insert_eq _ _ _)) as [Hi _].
      pose proof (sh_limit _ _ (rep_shape _ _ _ Hr')) as Hl. unfold page_number, PageSize in *. lia. }
    assert (N !! id = None) as Hn.
    { destruct (N !! id) eqn:E; [| done]. apply HN in E as (p & Hp & _). congruence. }
    split_and!; [done | done |]. constructor.
    + exists (<[id := stored (NewPage id PageTypeAttrIndex)]> A). split_and!; [done | |].
      * transitivity A; [done | by apply insert_subseteq].
      * intros i m [[<- <-]|[Hne E]]%lookup_insert_Some.
        -- eexists. split; [apply lookup_insert_eq | apply new_page_decodes].
        -- destruct (HN i m E) as (p & Hp & Hdec). exists p. by rewrite lookup_insert_ne.
    + intros i [m [[<- <-]|[Hne E]]%lookup_insert_Some]; [| apply Hd; by eexists].
        destruct (F !! id) eqn:E; [| done]. eapply lookup_weaken in E; [| exact HF]. congruence.
    + intros i m [[<- <-]|[Hne E]]%lookup_insert_Some; [split; [by apply wf_new_internal | done] | by apply Hw].
  - right. exists e. unfold on_pm. rewrite Hrun. by destruct t.
Qed.
End Store.
