(* ===== verification/BTreeShape.v ===== *)
(** * The shape of a B+ tree

    [subtree N h lo hi id lv ids]: the nodes [N] hold a tree of height [h] at the page [id],
    whose keys lie between [lo] (inclusive) and [hi] (exclusive); [lv] are its leaves from left
    to right with their entries, [ids] its pages. [hole] is the same with a hole: the nodes of a
    path from the root, and all that hangs off it on both sides. The links between leaves are
    not part of the shape: they are [linked]. *)

From S2P Require Import Prelude GoBinary Page BTree BTreeOps BTreeCodec.

Abbreviation entry := (bytes * EntryRef)%type.
Abbreviation leaf_of := (Z * list entry)%type.

(** Sizes for which the halves of a node that became too large always fit in a page. *)
Definition small_key (k : bytes) : Prop := 1 <= len k <= 128.
Definition small_entry (e : entry) : Prop := small_key e.1 /\ len e.1 + len (e_DN e.2) <= 160 /\ wf_ref e.2.

Section Forest.
Context (P : option bytes -> option bytes -> Z -> list leaf_of -> list Z -> Prop).

Inductive forest : option bytes -> option bytes -> list bytes -> list Z -> list leaf_of -> list Z -> Prop :=
| forest_one lo hi c lv ids : P lo hi c lv ids -> forest lo hi [] [c] lv ids
| forest_cons lo hi k ks c cs lv ids lv' ids' :
    P lo (Some k) c lv ids -> over lo k -> below k hi -> small_key k ->
    forest (Some k) hi ks cs lv' ids' -> forest lo hi (k :: ks) (c :: cs) (lv ++ lv') (ids ++ ids').

(** The children left of a hole, each with the key after it. *)
Inductive seg : option bytes -> option bytes -> list bytes -> list Z -> list leaf_of -> list Z -> Prop :=
| seg_nil lo : seg lo lo [] [] [] []
| seg_cons lo hi k ks c cs lv ids lv' ids' :
    P lo (Some k) c lv ids -> over lo k -> small_key k ->
    seg (Some k) hi ks cs lv' ids' -> seg lo hi (k :: ks) (c :: cs) (lv ++ lv') (ids ++ ids').

(** What is right of it. *)
Inductive rest : option bytes -> option bytes -> list bytes -> list Z -> list leaf_of -> list Z -> Prop :=
| rest_nil hi : rest hi hi [] [] [] []
| rest_cons hi k ks cs lv ids :
    below k hi -> small_key k -> forest (Some k) hi ks cs lv ids -> rest (Some k) hi (k :: ks) cs lv ids.

Lemma below_trans k k' hi : klt k k' -> below k' hi -> below k hi.
Proof. destruct hi; cbn; [apply klt_trans | done]. Qed.

Lemma over_trans lo k k' : over lo k -> klt k k' -> over lo k'.
Proof. destruct lo; cbn; [apply klt_trans | done]. Qed.

Lemma forest_keys lo hi ks cs lv ids :
  forest lo hi ks cs lv ids ->
  sorted ks /\ Forall (fun k => over lo k /\ below k hi /\ small_key k) ks /\ length cs = S (length ks).
Proof.
  induction 1 as [lo hi c lv ids Hp|lo hi k ks c cs lv ids lv' ids' Hp Ho Hb Hk Hf (IH1 & IH2 & IH3)].
  - split_and!; [constructor | constructor | done].
  - split_and!.
    + constructor; [done |]. eapply Forall_impl; [exact IH2 |]. cbn. tauto.
    + constructor; [done |]. eapply Forall_impl; [exact IH2 |]. cbn. intros x (H1 & H2 & H3).
      split_and!; [by eapply over_trans | done | done].
    + cbn. by rewrite IH3.
Qed.

Lemma seg_length lo hi ks cs lv ids : seg lo hi ks cs lv ids -> length cs = length ks.
Proof. induction 1; cbn; congruence. Qed.

Lemma seg_before lo hi ks cs lv ids p : seg lo hi ks cs lv ids -> over hi p -> Forall (fun k => klt k p) ks /\ over lo p.
Proof.
  induction 1 as [lo|lo hi k ks c cs lv ids lv' ids' Hp Ho Hk Hs IH]; intros Hp'; [by split; [constructor |] |].
  destruct (IH Hp') as [H1 H2]. split; [by constructor |]. by eapply over_trans.
Qed.

Lemma rest_after hi' hi ks cs lv ids p :
  rest hi' hi ks cs lv ids -> below p hi' -> Forall (fun k => klt p k) ks /\ below p hi.
Proof.
  destruct 1 as [hi|hi k ks cs lv ids Hb Hk Hf]; intros Hp; [by split; [constructor |] |]. cbn in Hp.
  split; [| by eapply below_trans]. constructor; [done |]. apply forest_keys in Hf as (_ & Hf & _).
  eapply Forall_impl; [exact Hf |]. cbn. intros x (H & _ & _). by eapply klt_trans.
Qed.

Lemma plug_right lo hi' ks cs lv ids hi ks' cs' lv' ids' :
  forest lo hi' ks cs lv ids -> bounds lo hi' -> rest hi' hi ks' cs' lv' ids' ->
  forest lo hi (ks ++ ks') (cs ++ cs') (lv ++ lv') (ids ++ ids') /\ bounds lo hi.
Proof.
  induction 1 as [lo hi' c lv ids Hp|lo hi' k ks c cs lv ids lv1 ids1 Hp Ho Hb Hk Hf IH]; intros Hbd Hr.
  - destruct Hr as [hi|hi k ks cs lv' ids' Hb Hk Hf].
    + rewrite !app_nil_r. split; [by constructor | done].
    + split; [constructor; try done; by destruct lo |]. destruct lo; [| done]. by eapply below_trans.
  - destruct (IH Hb Hr) as [IHf IHb]. rewrite <- !(assoc_L (++)). cbn. split; [by constructor |].
    destruct lo; [| done]. by eapply below_trans.
Qed.

Lemma plug lo lo' KL CL lvL iL hi' K C lv ids hi KR CR lvR iR :
  seg lo lo' KL CL lvL iL -> forest lo' hi' K C lv ids -> bounds lo' hi' -> rest hi' hi KR CR lvR iR ->
  forest lo hi (KL ++ K ++ KR) (CL ++ C ++ CR) (lvL ++ lv ++ lvR) (iL ++ ids ++ iR) /\ bounds lo hi.
Proof.
  intros Hs Hf Hb Hr. destruct (plug_right _ _ _ _ _ _ _ _ _ _ _ Hf Hb Hr) as [Hf' Hb']. clear Hf Hb Hr.
  induction Hs as [lo|lo lo' k ks c cs lv1 ids1 lv2 ids2 Hp Ho Hk Hs IH]; [done |].
  destruct (IH Hf' Hb') as [IHf IHb]. rewrite <- !(assoc_L (++)). cbn. split; [by constructor |].
  destruct lo; [| done]. by eapply below_trans.
Qed.

(** The child that [GetChildForKey] chooses. *)
Lemma forest_focus lo hi ks cs lv ids x :
  forest lo hi ks cs lv ids -> bounds lo hi -> within lo hi x ->
  exists KL KR CL CR c lo' hi' lvL lvc lvR iL ic iR,
    ks = KL ++ KR /\ cs = CL ++ c :: CR /\ lv = lvL ++ lvc ++ lvR /\ ids = iL ++ ic ++ iR
    /\ seg lo lo' KL CL lvL iL /\ P lo' hi' c lvc ic /\ rest hi' hi KR CR lvR iR
    /\ within lo' hi' x /\ bounds lo' hi'
    /\ child_for x ks cs = Ok (match KR with [] => None | _ => Some c end) /\ (KR = [] -> CR = []).
Proof.
  induction 1 as [lo hi c lv ids Hp|lo hi k ks c cs lv ids lv' ids' Hp Ho Hb Hk Hf IH]; intros Hbd [Ha Hx].
  - exists [], [], [], [], c, lo, hi, [], lv, [], [], ids, []. rewrite !app_nil_r. split_and!; by try constructor.
  - destruct (decide (klt x k)) as [Hlt|Hge].
    + exists [], (k :: ks), [], cs, c, lo, (Some k), [], lv, lv', [], ids, ids'. split_and!; try done; try apply seg_nil;
        [by apply rest_cons |]. cbn. by rewrite decide_True.
    + destruct IH as (KL & KR & CL & CR & c' & lo' & hi' & lvL & lvc & lvR & iL & ic & iR & -> & -> & -> & -> & Hs & Hc & Hr & Hw & Hb' & Hch & Hn);
        [done | done |].
      exists (k :: KL), KR, (c :: CL), CR, c', lo', hi', (lv ++ lvL), lvc, lvR, (ids ++ iL), ic, iR.
      rewrite <- !(assoc_L (++)). split_and!; try done; [by constructor |]. cbn. by rewrite decide_False.
Qed.

(** Cutting a node at a key. *)
Lemma forest_cut lo hi ks cs lv ids sp p :
  forest lo hi ks cs lv ids -> ks !! sp = Some p ->
  exists lv1 lv2 ids1 ids2, lv = lv1 ++ lv2 /\ ids = ids1 ++ ids2
    /\ forest lo (Some p) (take sp ks) (take (S sp) cs) lv1 ids1
    /\ forest (Some p) hi (drop (S sp) ks) (drop (S sp) cs) lv2 ids2
    /\ over lo p /\ below p hi /\ small_key p.
Proof.
  intros Hf. revert sp. induction Hf as [lo hi c lv ids Hp|lo hi k ks c cs lv ids lv' ids' Hp Ho Hb Hk Hf IH]; intros sp Hsp; [done |].
  destruct sp as [|sp]; cbn in Hsp.
  - injection Hsp as <-. exists lv, lv', ids, ids'. cbn. split_and!; try done. by constructor.
  - destruct (IH sp Hsp) as (lv1 & lv2 & ids1 & ids2 & -> & -> & H1 & H2 & H3 & H4 & H5).
    exists (lv ++ lv1), lv2, (ids ++ ids1), ids2. rewrite <- !(assoc_L (++)). split_and!; try done; [| by eapply over_trans].
    rewrite !firstn_cons. by constructor.
Qed.
End Forest.

Lemma forest_impl (P Q : option bytes -> option bytes -> Z -> list leaf_of -> list Z -> Prop) lo hi ks cs lv ids :
  forest P lo hi ks cs lv ids ->
  (forall lo hi c lv' ids', (forall i, i ∈ ids' -> i ∈ ids) -> P lo hi c lv' ids' -> Q lo hi c lv' ids') ->
  forest Q lo hi ks cs lv ids.
Proof.
  induction 1 as [lo hi c lv ids Hp|lo hi k ks c cs lv ids lv' ids' Hp Ho Hb Hk Hf IH]; intros HPQ.
  - constructor. by apply HPQ.
  - constructor; [apply HPQ; [set_solver | done] | done..|]. apply IH. intros * Hin. apply HPQ. set_solver.
Qed.

Lemma seg_impl (P Q : option bytes -> option bytes -> Z -> list leaf_of -> list Z -> Prop) lo hi ks cs lv ids :
  seg P lo hi ks cs lv ids ->
  (forall lo hi c lv' ids', (forall i, i ∈ ids' -> i ∈ ids) -> P lo hi c lv' ids' -> Q lo hi c lv' ids') ->
  seg Q lo hi ks cs lv ids.
Proof.
  induction 1 as [lo|lo hi k ks c cs lv ids lv' ids' Hp Ho Hk Hf IH]; intros HPQ; [constructor |].
  constructor; [apply HPQ; [set_solver | done] | done..|]. apply IH. intros * Hin. apply HPQ. set_solver.
Qed.

Lemma rest_impl (P Q : option bytes -> option bytes -> Z -> list leaf_of -> list Z -> Prop) hi' hi ks cs lv ids :
  rest P hi' hi ks cs lv ids ->
  (forall lo hi c lv' ids', (forall i, i ∈ ids' -> i ∈ ids) -> P lo hi c lv' ids' -> Q lo hi c lv' ids') ->
  rest Q hi' hi ks cs lv ids.
Proof. destruct 1; intros HPQ; constructor; try done. by eapply forest_impl. Qed.

(** ** Trees *)

(** The keys of a list of leaves. *)
Definition all_entries (lv : list leaf_of) : list entry := lv ≫= snd.
Definition all_keys (lv : list leaf_of) : list bytes := (all_entries lv).*1.

Record leaf_ok (n : BPlusNode) (lo hi : option bytes) : Prop := mkLeafOk {
  lf_leaf : IsLeaf n = true;
  lf_values : length (Values n) = length (Keys n);
  lf_sorted : sorted (Keys n);
  lf_within : Forall (within lo hi) (Keys n);
  lf_small : Forall small_entry (entries n)
}.

Fixpoint subtree (N : nodes) (h : nat) (lo hi : option bytes) (id : Z) (lv : list leaf_of) (ids : list Z) : Prop :=
  match h with
  | O => exists n, N !! id = Some n /\ leaf_ok n lo hi /\ lv = [(id, entries n)] /\ ids = [id]
  | S h => exists n ids', N !! id = Some n /\ IsLeaf n = false /\ Keys n <> []
      /\ forest (subtree N h) lo hi (Keys n) (Children n) lv ids' /\ ids = id :: ids'
  end.

(** A node without its links. *)
Definition strip (n : BPlusNode) : BPlusNode := with_next InvalidPageID (with_prev InvalidPageID n).

Definition agree (N N' : nodes) (ids : list Z) : Prop := forall i, i ∈ ids -> strip <$> N !! i = strip <$> N' !! i.

Lemma agree_lookup N N' ids i n :
  agree N N' ids -> i ∈ ids -> N !! i = Some n -> exists n', N' !! i = Some n' /\ strip n = strip n'.
Proof.
  intros Ha Hi Hn. specialize (Ha i Hi). rewrite Hn in Ha. destruct (N' !! i) as [n'|]; [| done].
  exists n'. split; [done |]. by apply (inj Some).
Qed.

Lemma agree_sub N N' ids ids' : agree N N' ids -> (forall i, i ∈ ids' -> i ∈ ids) -> agree N N' ids'.
Proof. intros H Hs i Hi. by apply H, Hs. Qed.

Lemma agree_insert N ids i n : i ∉ ids -> agree N (<[i := n]> N) ids.
Proof. intros Hi j Hj. rewrite lookup_insert_ne; [done |]. by intros ->. Qed.

Lemma agree_trans N1 N2 N3 ids : agree N1 N2 ids -> agree N2 N3 ids -> agree N1 N3 ids.
Proof. intros H1 H2 i Hi. by rewrite H1, H2. Qed.

Lemma strip_eq n n' :
  strip n = strip n' ->
  IsLeaf n = IsLeaf n' /\ Keys n = Keys n' /\ Children n = Children n' /\ Values n = Values n' /\ n_PageID n = n_PageID n'.
Proof. destruct n, n'. unfold strip, with_next, with_prev. cbn. intros [= -> -> -> -> ->]. done. Qed.

Lemma leaf_ok_strip n n' lo hi : strip n = strip n' -> leaf_ok n lo hi -> leaf_ok n' lo hi /\ entries n = entries n'.
Proof.
  intros (Hl & Hk & Hc & Hv & Hp)%strip_eq [H1 H2 H3 H4 H5]. unfold entries in *. rewrite Hl, Hk, Hv in *. by split.
Qed.

Lemma subtree_ext N N' h lo hi id lv ids :
  agree N N' ids -> subtree N h lo hi id lv ids -> subtree N' h lo hi id lv ids.
Proof.
  revert lo hi id lv ids. induction h as [|h IH]; intros lo hi id lv ids Ha; cbn.
  - intros (n & Hn & Hok & -> & ->). destruct (agree_lookup _ _ _ id _ Ha ltac:(set_solver) Hn) as (n' & Hn' & Hs).
    destruct (leaf_ok_strip _ _ _ _ Hs Hok) as [Hok' ->]. by exists n'.
  - intros (n & ids' & Hn & Hl & Hk & Hf & ->). destruct (agree_lookup _ _ _ id _ Ha ltac:(set_solver) Hn) as (n' & Hn' & Hs).
    apply strip_eq in Hs as (E1 & E2 & E3 & _ & _). rewrite E1 in Hl. rewrite E2, E3 in Hf. rewrite E2 in Hk.
    exists n', ids'. split_and!; try done. eapply forest_impl; [exact Hf |]. intros * Hin. apply IH.
    eapply agree_sub; [exact Ha | set_solver].
Qed.

(** Every page of a forest has a property when the pages of its trees have it. *)
Lemma forest_ids (P : option bytes -> option bytes -> Z -> list leaf_of -> list Z -> Prop) (Q : Z -> Prop) lo hi ks cs lv ids :
  forest P lo hi ks cs lv ids -> (forall lo hi c lv ids, P lo hi c lv ids -> Q c /\ Forall Q ids) -> Forall Q cs /\ Forall Q ids.
Proof.
  induction 1 as [lo hi c lv ids Hp|lo hi k ks c cs lv ids lv' ids' Hp Ho Hb Hk Hf IH]; intros HQ.
  - destruct (HQ _ _ _ _ _ Hp). split; [by repeat constructor | done].
  - destruct (HQ _ _ _ _ _ Hp), (IH HQ). split; [by constructor | by apply Forall_app].
Qed.

Lemma subtree_dom N h lo hi id lv ids :
  subtree N h lo hi id lv ids -> is_Some (N !! id) /\ Forall (fun i => is_Some (N !! i)) ids.
Proof.
  revert lo hi id lv ids. induction h as [|h IH]; intros lo hi id lv ids; cbn.
  - intros (n & Hn & _ & _ & ->). rewrite Forall_singleton. split; by eexists.
  - intros (n & ids' & Hn & _ & _ & Hf & ->). split; [by eexists |]. constructor; [by eexists |].
    by eapply (forest_ids _ _ _ _ _ _ _ _ Hf IH).
Qed.

(** The height and the leaves are bounded by the pages. *)
Lemma subtree_size N h lo hi id lv ids :
  subtree N h lo hi id lv ids -> (h < length ids /\ length lv <= length ids)%nat.
Proof.
  revert lo hi id lv ids. induction h as [|h IH]; intros lo hi id lv ids; cbn.
  - intros (n & _ & _ & -> & ->). cbn. lia.
  - intros (n & ids' & _ & _ & _ & Hf & ->). cbn. enough (h < length ids' /\ length lv <= length ids')%nat by lia.
    induction Hf as [lo hi c lv ids Hp|lo hi k ks c cs lv ids lv' ids' Hp Ho Hb Hk Hf IHf]; [by eapply IH |].
    apply IH in Hp. rewrite !length_app. lia.
Qed.

Lemma all_keys_app l k : all_keys (l ++ k) = all_keys l ++ all_keys k.
Proof. unfold all_keys, all_entries. by rewrite bind_app, fmap_app. Qed.

Lemma all_entries_app l k : all_entries (l ++ k) = all_entries l ++ all_entries k.
Proof. unfold all_entries. by rewrite bind_app. Qed.

Lemma entries_keys n : length (Values n) = length (Keys n) -> (entries n).*1 = Keys n.
Proof. intros H. unfold entries. rewrite fst_zip; [done | lia]. Qed.

Lemma within_weaken_r lo hi k x : below k hi -> within lo (Some k) x -> within lo hi x.
Proof. intros Hb [H1 H2]. split; [done |]. by eapply below_trans. Qed.

Lemma within_weaken_l lo hi k x : over lo k -> within (Some k) hi x -> within lo hi x.
Proof.
  intros Ho [H1 H2]. split; [| done]. destruct lo as [l|]; [| done]. cbn in *. intros H. apply H1. by eapply klt_trans.
Qed.

Definition lv_ok (lo hi : option bytes) (lv : list leaf_of) : Prop :=
  sorted (all_keys lv) /\ Forall (within lo hi) (all_keys lv) /\ Forall small_entry (all_entries lv).

Lemma forest_lv (P : option bytes -> option bytes -> Z -> list leaf_of -> list Z -> Prop) lo hi ks cs lv ids :
  (forall lo hi c lv ids, P lo hi c lv ids -> lv_ok lo hi lv) -> forest P lo hi ks cs lv ids -> lv_ok lo hi lv.
Proof.
  intros HP Hf. induction Hf as [lo hi c lv ids Hp|lo hi k ks c cs lv ids lv' ids' Hp Ho Hb Hk Hf IHf]; [by eapply HP |].
  apply HP in Hp as (S1 & W1 & Sm1). destruct IHf as (S2 & W2 & Sm2). unfold lv_ok. rewrite all_keys_app, all_entries_app.
  split_and!; [| apply Forall_app; split | by apply Forall_app].
  - apply sorted_app; [done..|]. intros x y Hx Hy. rewrite Forall_forall in W1, W2.
    destruct (W1 x Hx) as [_ H1], (W2 y Hy) as [H2 _]. cbn in *. by eapply klt_le_trans.
  - eapply Forall_impl; [exact W1 |]. intros x. by apply within_weaken_r.
  - eapply Forall_impl; [exact W2 |]. intros x. by apply within_weaken_l.
Qed.

Lemma subtree_keys N h lo hi id lv ids : subtree N h lo hi id lv ids -> lv_ok lo hi lv.
Proof.
  revert lo hi id lv ids. induction h as [|h IH]; intros lo hi id lv ids; cbn.
  - intros (n & _ & [H1 H2 H3 H4 H5] & -> & ->). unfold lv_ok, all_keys, all_entries. cbn. rewrite app_nil_r, entries_keys by done. done.
  - intros (n & ids' & _ & _ & _ & Hf & ->). by eapply forest_lv.
Qed.

(** ** Trees with a hole *)

Inductive hole (N : nodes) (root : Z) : nat -> option bytes -> option bytes -> Z -> list BPlusNode ->
    list leaf_of -> list leaf_of -> list Z -> Prop :=
| hole_root h : hole N root h None None root [] [] [] []
| hole_step h lo hi n path L R F KL KR CL c CR lo' hi' lvL lvR iL iR :
    hole N root (S h) lo hi (n_PageID n) path L R F ->
    strip <$> N !! n_PageID n = Some (strip n) -> wf_node n -> IsLeaf n = false ->
    Keys n = KL ++ KR -> Children n = CL ++ c :: CR ->
    seg (subtree N h) lo lo' KL CL lvL iL -> rest (subtree N h) hi' hi KR CR lvR iR -> bounds lo' hi' ->
    hole N root h lo' hi' c (n :: path) (L ++ lvL) (lvR ++ R) (n_PageID n :: iL ++ iR ++ F).

Lemma hole_ext N N' root h lo hi id path L R F :
  agree N N' F -> hole N root h lo hi id path L R F -> hole N' root h lo hi id path L R F.
Proof.
  intros Ha Hz. induction Hz as [|h lo hi n path L R F KL KR CL c CR lo' hi' lvL lvR iL iR Hz IH Hn Hw Hl Hk Hc Hs Hr Hb]; [constructor |].
  econstructor; try done.
  - apply IH. eapply agree_sub; [exact Ha | set_solver].
  - rewrite <- Ha; [done | set_solver].
  - eapply seg_impl; [exact Hs |]. intros * Hin. apply subtree_ext. eapply agree_sub; [exact Ha | set_solver].
  - eapply rest_impl; [exact Hr |]. intros * Hin. apply subtree_ext. eapply agree_sub; [exact Ha | set_solver].
Qed.

Lemma hole_dom N root h lo hi id path L R F :
  hole N root h lo hi id path L R F -> Forall (fun i => is_Some (N !! i)) F.
Proof.
  induction 1 as [|h lo hi n path L R F KL KR CL c CR lo' hi' lvL lvR iL iR Hz IH Hn Hw Hl Hk Hc Hs Hr Hb]; [constructor |].
  constructor; [destruct (N !! _); by eexists || done |]. rewrite !Forall_app. split_and!; [| | done].
  - clear -Hs. induction Hs as [|lo hi k ks c cs lv ids lv' ids' Hp Ho Hk Hf IHf]; [constructor |].
    apply Forall_app. split; [| done]. by apply subtree_dom in Hp as [_ ?].
  - destruct Hr as [|hi k ks cs lv ids Hb' Hk' Hf]; [constructor |].
    eapply (forest_ids _ _ _ _ _ _ _ _ Hf), subtree_dom.
Qed.

(** Filling the hole. *)
Lemma hole_close N root h lo hi id path L R F lv ids :
  hole N root h lo hi id path L R F -> subtree N h lo hi id lv ids -> NoDup (ids ++ F) ->
  exists h' ids', subtree N h' None None root (L ++ lv ++ R) ids' /\ ids' ≡ₚ ids ++ F.
Proof.
  intros Hz. revert lv ids.
  induction Hz as [h|h lo hi n path L R F KL KR CL c CR lo' hi' lvL lvR iL iR Hz IH Hn Hw Hl Hk Hc Hs Hr Hb]; intros lv ids Ht Hd.
  { exists h, ids. rewrite !app_nil_r. done. }
  destruct (plug _ _ _ _ _ _ _ _ [] [c] lv ids _ _ _ _ _ Hs (forest_one _ _ _ _ _ _ Ht) Hb Hr) as [Hf _].
  destruct (N !! n_PageID n) as [n'|] eqn:Hn'; [| done]. assert (strip n' = strip n) as Hst by by apply (inj Some).
  pose proof Hst as (E1 & E2 & E3 & _ & _)%strip_eq.
  assert (Keys n <> []) as Hne.
  { pose proof (wfn_shape _ Hw) as Hsh. rewrite Hl in Hsh. destruct Hsh as (_ & _ & _ & Hlen). rewrite Hc, length_app in Hlen.
    destruct (Keys n); [cbn in Hlen; lia | done]. }
  assert ((n_PageID n :: iL ++ ids ++ iR) ++ F ≡ₚ ids ++ n_PageID n :: iL ++ iR ++ F) as Hp.
  { cbn. rewrite <- !(assoc_L (++)). rewrite <- Permutation_middle. by rewrite Permutation_app_swap_app. }
  destruct (IH (lvL ++ lv ++ lvR) (n_PageID n :: iL ++ ids ++ iR)) as (h' & ids' & Hsub & Hperm).
  - cbn. exists n', (iL ++ ids ++ iR). rewrite E1, E2, E3, Hk, Hc. rewrite Hk in Hne. done.
  - by rewrite Hp.
  - exists h', ids'. rewrite <- !(assoc_L (++)) in Hsub. rewrite <- !(assoc_L (++)). split; [done |]. by rewrite Hperm.
Qed.

(** What is on the left of the hole is before its interval, what is on the right behind it. *)
Definition left_of (k : bytes) (lo : option bytes) : Prop := match lo with Some l => klt k l | None => False end.
Definition right_of (hi : option bytes) (k : bytes) : Prop := match hi with Some h => ~ klt k h | None => False end.

Lemma seg_left N h lo lo' ks cs lv ids :
  seg (subtree N h) lo lo' ks cs lv ids ->
  Forall (fun k => left_of k lo') (all_keys lv) /\ (forall k, left_of k lo -> left_of k lo').
Proof.
  induction 1 as [lo|lo lo' k ks c cs lv ids lv' ids' Hp Ho Hk Hs [IH1 IH2]]; [by split; [constructor |] |].
  rewrite all_keys_app, Forall_app. split_and!; [| done |].
  - apply subtree_keys in Hp as (_ & Hw & _). eapply Forall_impl; [exact Hw |]. intros x [_ Hx]. by apply IH2.
  - intros x Hx. apply IH2. destruct lo as [l|]; [| done]. by eapply klt_trans.
Qed.

Lemma rest_right N h hi' hi ks cs lv ids :
  rest (subtree N h) hi' hi ks cs lv ids ->
  Forall (right_of hi') (all_keys lv) /\ (forall k, right_of hi k -> right_of hi' k).
Proof.
  destruct 1 as [hi|hi k ks cs lv ids Hb Hk Hf]; [by split; [constructor |] |]. split.
  - apply forest_lv in Hf as (_ & Hw & _); [| apply subtree_keys]. eapply Forall_impl; [exact Hw |]. by intros x [Hx _].
  - intros x Hx. destruct hi as [h'|]; [| done]. cbn in *. intros H. apply Hx. by eapply klt_trans.
Qed.

Lemma hole_sides N root h lo hi id path L R F :
  hole N root h lo hi id path L R F -> Forall (fun k => left_of k lo) (all_keys L) /\ Forall (right_of hi) (all_keys R).
Proof.
  induction 1 as [|h lo hi n path L R F KL KR CL c CR lo' hi' lvL lvR iL iR Hz [IH1 IH2] Hn Hw Hl Hk Hc Hs Hr Hb]; [by split |].
  destruct (seg_left _ _ _ _ _ _ _ _ Hs) as [S1 S2]. destruct (rest_right _ _ _ _ _ _ _ _ Hr) as [R1 R2].
  rewrite !all_keys_app, !Forall_app. split_and!; try done; eapply Forall_impl; done.
Qed.

(** ** The list of leaves *)

Fixpoint linked (N : nodes) (prev : Z) (ids : list Z) : Prop :=
  match ids with
  | [] => True
  | id :: ids =>
      (exists n, N !! id = Some n /\ PrevLeaf n = prev /\ NextLeaf n = default InvalidPageID (ids !! 0%nat))
      /\ linked N id ids
  end.

Lemma linked_ext N N' prev ids : (forall i, i ∈ ids -> N' !! i = N !! i) -> linked N prev ids -> linked N' prev ids.
Proof.
  revert prev. induction ids as [|id ids IH]; intros prev He; [done |]. intros [(n & Hn & Hl) Hr]. split.
  - exists n. rewrite He; [done | set_solver].
  - apply IH; [| done]. intros i Hi. apply He. set_solver.
Qed.

(** The links around the leaf in the middle. *)
Lemma linked_middle N prev l id r :
  linked N prev (l ++ id :: r) ->
  exists n, N !! id = Some n /\ PrevLeaf n = default prev (last l) /\ NextLeaf n = default InvalidPageID (r !! 0%nat).
Proof.
  revert prev. induction l as [|x l IH]; intros prev; [by intros [? _] |]. intros [_ Hl]. destruct (IH _ Hl) as (n & Hn & Hp & Hx).
  exists n. split_and!; [done | | done]. rewrite Hp. rewrite last_cons. by destruct (last l).
Qed.

(** A new leaf behind [id]: [id] points forward to it, the next leaf back to it. *)
Lemma linked_split N N' prev l id q r n m :
  linked N prev (l ++ id :: r) ->
  N' !! id = Some n -> PrevLeaf n = default prev (last l) -> NextLeaf n = q ->
  N' !! q = Some m -> PrevLeaf m = id -> NextLeaf m = default InvalidPageID (r !! 0%nat) ->
  (forall i, i ∈ l -> N' !! i = N !! i) -> (forall i, i ∈ drop 1 r -> N' !! i = N !! i) ->
  (forall i, r !! 0%nat = Some i -> exists b, N !! i = Some b /\ N' !! i = Some (with_prev q b)) ->
  linked N' prev (l ++ id :: q :: r).
Proof.
  revert prev. induction l as [|x l IH]; intros prev Hlk Hn Hpn Hnn Hm Hpm Hnm Hl Hr H0.
  - destruct Hlk as [_ Hlk]. cbn. split; [exists n; by rewrite Hnn |]. split; [by exists m |].
    destruct r as [|i r]; [done |]. destruct (H0 i eq_refl) as (b & Hb & Hb').
    destruct Hlk as [(b' & Hb1 & Hb2 & Hb3) Hlk]. rewrite Hb in Hb1. injection Hb1 as <-.
    split; [by exists (with_prev q b) |]. eapply linked_ext; [| exact Hlk]. intros j Hj. apply Hr. done.
  - destruct Hlk as [(nx & Hnx & Hlx) Hlk]. cbn. split.
    + exists nx. rewrite Hl by set_solver. split; [done |]. destruct Hlx as [? Hx]. split; [done |]. by destruct l.
    + apply IH; try done; [| intros i Hi; apply Hl; set_solver].
      rewrite Hpn, last_cons. by destruct (last l).
Qed.

(** The leaves are pages of the tree, and hold what the list says. *)
Lemma subtree_leaves N h lo hi id lv ids :
  subtree N h lo hi id lv ids -> lv.*1 `sublist_of` ids
  /\ Forall (fun l => exists n lo hi, N !! l.1 = Some n /\ leaf_ok n lo hi /\ entries n = l.2) lv.
Proof.
  revert lo hi id lv ids. induction h as [|h IH]; intros lo hi id lv ids; cbn.
  - intros (n & Hn & Hok & -> & ->). split; [done |]. apply Forall_singleton. by exists n, lo, hi.
  - intros (n & ids' & _ & _ & _ & Hf & ->).
    enough (lv.*1 `sublist_of` ids' /\ Forall (fun l => exists n lo hi, N !! l.1 = Some n /\ leaf_ok n lo hi /\ entries n = l.2) lv)
      as [H1 H2] by (split; [by apply sublist_cons | done]).
    induction Hf as [lo hi c lv ids Hp|lo hi k ks c cs lv ids lv' ids' Hp Ho Hb Hk Hf [IH1 IH2]]; [by eapply IH |].
    apply IH in Hp as [H1 H2]. rewrite fmap_app. split; [by apply sublist_app | by apply Forall_app].
Qed.

(** Replacing a leaf by one with the same links. *)
Lemma linked_update N prev ids id n m :
  linked N prev ids -> N !! id = Some n -> PrevLeaf m = PrevLeaf n -> NextLeaf m = NextLeaf n ->
  linked (<[id := m]> N) prev ids.
Proof.
  intros Hl Hn Hp Hx. revert prev Hl. induction ids as [|i ids IH]; intros prev; [done |]. intros [(ni & Hni & Hpi & Hxi) Hl].
  split; [| by apply IH]. destruct (decide (i = id)) as [->|Hne].
  - exists m. rewrite lookup_insert_eq. rewrite Hn in Hni. injection Hni as <-. split_and!; congruence.
  - exists ni. by rewrite lookup_insert_ne.
Qed.
