(* ===== verification/BTreeInsert.v ===== *)
(** * Insertion into the B+ tree

    A leaf or an internal node that became too large is cut in two; the halves of nodes with
    small entries fit in their pages, and the key between them goes one level up. *)

From S2P Require Import Prelude GoBinary Page PageStore BTree BTreeOps BTreeCodec BTreeShape.

(** ** Sizes *)

Lemma sumZ_cons x l : sumZ (x :: l) = x + sumZ l.
Proof. done. Qed.

Lemma sumZ_app l k : sumZ (l ++ k) = sumZ l + sumZ k.
Proof. induction l as [|x l IH]; [done |]. rewrite <- app_comm_cons, !sumZ_cons. lia. Qed.

Lemma sumZ_bounds {A} (f : A -> Z) a b l :
  Forall (fun x => a <= f x <= b) l -> a * len l <= sumZ (f <$> l) <= b * len l.
Proof. induction 1 as [|x l Hx Hl IH]; [rewrite len_nil; cbn; lia |]. rewrite len_cons, fmap_cons, sumZ_cons. lia. Qed.

Lemma sumZ_split {A} (f : A -> Z) i l : sumZ (f <$> l) = sumZ (f <$> take i l) + sumZ (f <$> drop i l).
Proof. rewrite <- sumZ_app, <- fmap_app, take_drop. done. Qed.

Definition key_cost (k : bytes) : Z := 10 + len k.
Definition entry_cost (e : entry) : Z := 14 + len e.1 + len (e_DN e.2).

Lemma internal_size n :
  IsLeaf n = false -> length (Children n) = S (length (Keys n)) -> SerializedSize n = 29 + sumZ (key_cost <$> Keys n).
Proof.
  intros Hl Hc. unfold SerializedSize, BPlusNodeHeaderSize, PageIDSize. rewrite Hl.
  replace (len (Children n)) with (len (Keys n) + 1) by (unfold len; lia).
  clear Hc. induction (Keys n) as [|k ks IH]; [done |]. rewrite len_cons, !fmap_cons, !sumZ_cons. unfold key_cost at 1, KeyLengthSize at 1. lia.
Qed.

Lemma leaf_size n :
  IsLeaf n = true -> length (Values n) = length (Keys n) -> SerializedSize n = 21 + sumZ (entry_cost <$> entries n).
Proof.
  intros Hl Hv. unfold SerializedSize, BPlusNodeHeaderSize, entries. rewrite Hl.
  revert Hv. generalize (Values n). induction (Keys n) as [|k ks IH]; intros [|v vs]; try done. intros [= Hv].
  specialize (IH vs Hv). cbn [zip_with]. rewrite !fmap_cons, !sumZ_cons. unfold entry_cost at 1, ref_size at 1, EntryRefBaseSize, KeyLengthSize at 1. cbn [fst snd]. lia.
Qed.

(** Cutting a list of costs. *)
Lemma halves_fit {A} (f : A -> Z) a b l i c :
  Forall (fun x => a <= f x <= b) l -> (i <= length l)%nat -> sumZ (f <$> l) <= c + b ->
  b <= a * Z.of_nat (length l - i) -> sumZ (f <$> take i l) <= c.
Proof.
  intros Hf Hi Hc Hb. rewrite (sumZ_split f i) in Hc. pose proof (sumZ_bounds f a b (drop i l) ltac:(by apply Forall_drop)) as Hd.
  unfold len in Hd. rewrite length_drop in Hd. lia.
Qed.

Lemma second_half_fits {A} (f : A -> Z) a b l i c :
  Forall (fun x => a <= f x <= b) l -> (i <= length l)%nat -> sumZ (f <$> l) <= c + b ->
  b <= a * Z.of_nat i -> sumZ (f <$> drop i l) <= c.
Proof.
  intros Hf Hi Hc Hb. rewrite (sumZ_split f i) in Hc. pose proof (sumZ_bounds f a b (take i l) ltac:(by apply Forall_take)) as Hd.
  unfold len in Hd. rewrite length_take, Nat.min_l in Hd by lia. lia.
Qed.

Lemma small_key_cost k : small_key k -> 11 <= key_cost k <= 138.
Proof. unfold small_key, key_cost. lia. Qed.

Lemma small_entry_cost e : small_entry e -> 15 <= entry_cost e <= 174.
Proof. unfold small_entry, small_key, entry_cost. intros (H1 & H2 & _). pose proof (len_nonneg (e_DN e.2)). lia. Qed.

Lemma small_key_max k : small_key k -> len k <= MaxKeySize.
Proof. unfold small_key, MaxKeySize. lia. Qed.

(** A node that has to be split has many keys. *)
Lemma full_internal n :
  IsLeaf n = false -> length (Children n) = S (length (Keys n)) -> Forall small_key (Keys n) ->
  IsFull n || negb (FitsInPage n) = true -> 30 <= len (Keys n).
Proof.
  intros Hl Hc Hk Hf. apply orb_true_iff in Hf as [Hf|Hf].
  - unfold IsFull in Hf. rewrite Hl in Hf. apply bool_decide_eq_true in Hf. unfold BPlusOrder in Hf. lia.
  - apply negb_true_iff, bool_decide_eq_false in Hf. rewrite internal_size in Hf by done. unfold PageSize, PageHeaderSize in Hf.
    pose proof (sumZ_bounds key_cost 11 138 (Keys n) ltac:(eapply Forall_impl; [exact Hk | apply small_key_cost])). lia.
Qed.

Lemma full_leaf n :
  IsLeaf n = true -> length (Values n) = length (Keys n) -> Forall small_entry (entries n) ->
  IsFull n || negb (FitsInPage n) = true -> 24 <= len (Keys n).
Proof.
  intros Hl Hc Hk Hf. apply orb_true_iff in Hf as [Hf|Hf].
  - unfold IsFull in Hf. rewrite Hl in Hf. apply bool_decide_eq_true in Hf. unfold BPlusLeafCapacity in Hf. lia.
  - apply negb_true_iff, bool_decide_eq_false in Hf. rewrite leaf_size in Hf by done. unfold PageSize, PageHeaderSize in Hf.
    pose proof (sumZ_bounds entry_cost 15 174 (entries n) ltac:(eapply Forall_impl; [exact Hk | apply small_entry_cost])) as Hb.
    replace (len (entries n)) with (len (Keys n)) in Hb; [lia |]. unfold entries, len. rewrite length_zip. lia.
Qed.

(** ** Nodes of the tree that are written *)

Lemma wf_internal n ks cs :
  wf_node n -> IsLeaf n = false -> ks <> [] -> length cs = S (length ks) -> Forall small_key ks -> Forall page_number cs ->
  len ks <= BPlusOrder - 1 -> sumZ (key_cost <$> ks) <= 4051 -> wf_node (with_children cs (with_keys ks n)).
Proof.
  intros [Hid Hnx Hpv _ _ Hsh] Hl Hne Hc Hk Hcs Hlen Hsz. rewrite Hl in Hsh. destruct Hsh as (Hv & _).
  constructor; cbn [IsLeaf Keys Children Values NextLeaf PrevLeaf n_PageID with_children with_keys with_values]; try done.
  - rewrite internal_size by (cbn; done). cbn [Keys with_children with_keys]. unfold PageSize, PageHeaderSize. lia.
  - eapply Forall_impl; [exact Hk | apply small_key_max].
  - rewrite Hl. split_and!; [done | done | | destruct ks; done].
    eapply Forall_impl; [exact Hcs |]. unfold page_number, is_uint64. intros x ?. lia.
Qed.

Lemma wf_leaf n ks vs :
  wf_node n -> IsLeaf n = true -> length vs = length ks -> Forall small_entry (zip ks vs) ->
  len ks <= BPlusLeafCapacity -> sumZ (entry_cost <$> zip ks vs) <= 4059 -> wf_node (with_values vs (with_keys ks n)).
Proof.
  intros [Hid Hnx Hpv _ _ Hsh] Hl Hv Hs Hlen Hsz. rewrite Hl in Hsh. destruct Hsh as (Hc & _).
  constructor; cbn [IsLeaf Keys Children Values NextLeaf PrevLeaf n_PageID with_children with_keys with_values]; try done.
  - rewrite leaf_size by (cbn; done). unfold entries. cbn [Keys Values with_values with_keys]. unfold PageSize, PageHeaderSize. lia.
  - rewrite <- (fst_zip ks vs) by lia. apply Forall_fmap. eapply Forall_impl; [exact Hs |].
    intros e (H1 & _). by apply small_key_max.
  - rewrite Hl. split_and!; [done | done | done |]. rewrite <- (snd_zip ks vs) by lia. apply Forall_fmap.
    eapply Forall_impl; [exact Hs |]. by intros e (_ & _ & ?).
Qed.

(** ** Propagation of a split *)

Lemma in_take {A} (x : A) i l : x ∈ take i l -> x ∈ l.
Proof. intros H. rewrite <- (take_drop i l). apply elem_of_app. by left. Qed.

Lemma in_drop {A} (x : A) i l : x ∈ drop i l -> x ∈ l.
Proof. intros H. rewrite <- (take_drop i l). apply elem_of_app. by right. Qed.

Lemma insert_at_app {A} (l r : list A) x : insert_at (length l) x (l ++ r) = l ++ x :: r.
Proof. unfold insert_at. by rewrite take_app_length, drop_app_length. Qed.

Section Insert.
Context (disk_limit : Z) (Hlimit : disk_limit < 2 ^ 62).
Abbreviation store := (store disk_limit).

(** Leaves are not touched above them. *)
Definition leaves_kept (N N' : nodes) : Prop := forall i n, N !! i = Some n -> IsLeaf n = true -> N' !! i = Some n.

(** The tree after an insertion, or a full disk. *)
Definition inserted (F : gmap Z Page) (N : nodes) (lv : list leaf_of) (run : outcome unit * BPlusTree) : Prop :=
  match run.1 with
  | Ok _ => exists N' h ids, store (t_pages run.2) N' F /\ subtree N' h None None (t_root run.2) lv ids
      /\ NoDup ids /\ leaves_kept N N'
  | Err _ => full disk_limit (t_pages run.2) 8
  | _ => False
  end.

Lemma leaves_kept_insert N i n :
  (forall m, N !! i = Some m -> IsLeaf m = false) -> leaves_kept N (<[i := n]> N).
Proof. intros H j m Hj Hl. rewrite lookup_insert_ne; [done |]. intros ->. apply H in Hj. congruence. Qed.

Lemma leaves_kept_trans N1 N2 N3 : leaves_kept N1 N2 -> leaves_kept N2 N3 -> leaves_kept N1 N3.
Proof. intros H1 H2 i n Hn Hl. apply H2; [by apply H1 | done]. Qed.

Lemma inserted_kept F N1 N2 lv run : leaves_kept N1 N2 -> inserted F N2 lv run -> inserted F N1 lv run.
Proof.
  intros Hk. unfold inserted. destruct run.1; try done. intros (N' & h & ids & H1 & H2 & H3 & H4).
  exists N', h, ids. split_and!; try done. by eapply leaves_kept_trans.
Qed.

Lemma store_page_number pm N F id : store pm N F -> is_Some (N !! id) -> page_number id.
Proof. intros Hs [n Hn]. destruct (st_nodes _ _ _ _ Hs id n Hn) as [Hw <-]. apply Hw. Qed.

Lemma forest_children pm N F h lo hi ks cs lv ids :
  store pm N F -> forest (subtree N h) lo hi ks cs lv ids -> Forall page_number cs /\ Forall (fun i => is_Some (N !! i)) ids.
Proof.
  intros Hs Hf. destruct (forest_ids _ _ _ _ _ _ _ _ Hf (subtree_dom N h)) as [H1 H2]. split; [| done].
  eapply Forall_impl; [exact H1 |]. intros i. by eapply store_page_number.
Qed.

Lemma fresh_not_in (N : nodes) ids i : N !! i = None -> Forall (fun i => is_Some (N !! i)) ids -> i ∉ ids.
Proof. intros Hn Hf Hin. rewrite Forall_forall in Hf. destruct (Hf i Hin). congruence. Qed.

Lemma forest_ext N N' h lo hi ks cs lv ids :
  agree N N' ids -> forest (subtree N h) lo hi ks cs lv ids -> forest (subtree N' h) lo hi ks cs lv ids.
Proof.
  intros Ha Hf. eapply forest_impl; [exact Hf |]. intros * Hin. apply subtree_ext. by eapply agree_sub.
Qed.

Lemma createNewRoot_run t N F h lv ids left p right :
  store (t_pages t) N F -> forest (subtree N h) None None [p] [left; right] lv ids -> NoDup ids ->
  inserted F N lv (createNewRoot disk_limit left p right t).
Proof.
  intros Hs Hf Hd. unfold createNewRoot, allocateNode.
  destruct (allocate_run disk_limit Hlimit t N F Hs) as [(id & pm & Hal & Hid & Hfr & Hs')|(e & Hal & Hfull)].
  2:{ erewrite bind_err; [| by erewrite bind_err by exact Hal]. done. }
  erewrite bind_ok; [| erewrite bind_ok by exact Hal; reflexivity]. cbv zeta.
  destruct (forest_children _ _ _ _ _ _ _ _ _ _ Hs Hf) as [Hcs Hdom].
  pose proof (forest_keys _ _ _ _ _ _ _ Hf) as (_ & Hks & _). rewrite Forall_singleton in Hks.
  set (m := with_children [left; right] (with_keys [p] (NewInternalNode id))).
  assert (wf_node m) as Hwm.
  { apply wf_internal; [by apply wf_new_internal | done | done | done | rewrite Forall_singleton; tauto | done | done |].
    pose proof (small_key_cost p ltac:(tauto)). rewrite fmap_cons, sumZ_cons. cbn. lia. }
  destruct (writeNode_run disk_limit Hlimit (with_pages t pm) _ F m Hs' Hwm) as (pm' & Hwr & Hs'').
  { cbn. rewrite lookup_insert_eq. by eexists. }
  erewrite bind_ok by exact Hwr. unfold inserted. cbn. cbn in Hs''. rewrite insert_insert_eq in Hs''.
  exists (<[id := m]> N), (S h), (id :: ids). split_and!; [done | | |].
  - cbn. exists m, ids. rewrite lookup_insert_eq. split_and!; try done.
    eapply forest_ext; [| exact Hf]. apply agree_insert. by eapply fresh_not_in.
  - constructor; [by eapply fresh_not_in | done].
  - apply leaves_kept_insert. congruence.
Qed.

Lemma parent_insert N h n lo hi lo' hi' KL KR CL c CR lvL lvR iL iR p right lv ids :
  IsLeaf n = false -> Keys n = KL ++ KR -> Children n = CL ++ c :: CR ->
  seg (subtree N h) lo lo' KL CL lvL iL -> rest (subtree N h) hi' hi KR CR lvR iR -> bounds lo' hi' ->
  forest (subtree N h) lo' hi' [p] [c; right] lv ids ->
  let m := with_children (CL ++ c :: right :: CR) (with_keys (KL ++ p :: KR) n) in
  (exists b, FindKeyIndex n p = Ok (length KL, b)) /\ InsertKeyAt (length KL) p None right n = Ok m
  /\ forest (subtree N h) lo hi (Keys m) (Children m) (lvL ++ lv ++ lvR) (iL ++ ids ++ iR).
Proof.
  intros Hl Hk Hc Hs Hr Hb Hf m. destruct (plug _ _ _ _ _ _ _ _ _ _ _ _ _ _ _ _ _ Hs Hf Hb Hr) as [Hf' _].
  pose proof (forest_keys _ _ _ _ _ _ _ Hf) as (_ & Hp & _). apply Forall_singleton in Hp as (Hov & Hbe & _).
  destruct (seg_before _ _ _ _ _ _ _ p Hs Hov) as [HKL _]. destruct (rest_after _ _ _ _ _ _ _ p Hr Hbe) as [HKR _].
  pose proof (forest_keys _ _ _ _ _ _ _ Hf') as (Hsort & _ & _).
  assert (sorted (Keys n)) as Hsn.
  { rewrite Hk. apply sorted_app_inv in Hsort as (H1 & H2 & H3). cbn in H2. apply StronglySorted_inv in H2 as [H2 _].
    apply sorted_app; [done | done |]. intros x y Hx Hy. apply H3; [done | set_solver]. }
  split_and!.
  - destruct (FindKeyIndex_spec n p Hsn) as (i & Hi & Hpos). exists (bool_decide (p ∈ Keys n)). rewrite Hi. do 2 f_equal.
    rewrite Hk in Hpos. eapply position_app; [exact Hpos | done |]. eapply Forall_impl; [exact HKR |].
    intros x Hx. apply klt_not. by right.
  - unfold InsertKeyAt. rewrite Hk, length_app, decide_True by lia. cbn [IsLeaf with_keys]. rewrite Hl. cbn [Children with_keys].
    pose proof (seg_length _ _ _ _ _ _ _ Hs) as HlenC. rewrite Hc, length_app. cbn [length]. rewrite decide_True by lia.
    rewrite insert_at_app. do 2 f_equal.
    replace (length KL + 1)%nat with (length (CL ++ [c])) by (rewrite length_app; cbn; lia).
    replace (CL ++ c :: CR) with ((CL ++ [c]) ++ CR) by by rewrite <- (assoc_L (++)). rewrite insert_at_app.
    by rewrite <- (assoc_L (++)).
  - by cbn in *.
Qed.

(** A node that the insertion overfilled is cut in two nodes that can be written. *)
Lemma split_fits n m sp :
  wf_node n -> IsLeaf n = false -> IsLeaf m = false -> n_PageID m = n_PageID n ->
  length (Children m) = S (length (Keys m)) -> Forall small_key (Keys m) -> Forall page_number (Children m) ->
  SerializedSize m <= PageSize - PageHeaderSize + 138 -> len (Keys m) <= BPlusOrder ->
  IsFull m || negb (FitsInPage m) = true -> sp = (length (Keys m) / 2)%nat ->
  wf_node (with_children (take (S sp) (Children m)) (with_keys (take sp (Keys m)) n))
  /\ (forall q, page_number q -> wf_node (with_children (drop (S sp) (Children m)) (with_keys (drop (S sp) (Keys m)) (NewInternalNode q))))
  /\ take sp (Keys m) <> [] /\ drop (S sp) (Keys m) <> [].
Proof.
  intros Hw Hl Hlm Hid Hc Hk Hcs Hsz Hlen Hfull ->. pose proof (full_internal m Hlm Hc Hk Hfull) as H30.
  rewrite internal_size in Hsz by done. unfold PageSize, PageHeaderSize, BPlusOrder, len in *.
  assert (Forall (fun k => 11 <= key_cost k <= 138) (Keys m)) as Hcost by (eapply Forall_impl; [exact Hk | apply small_key_cost]).
  set (k := length (Keys m)) in *. set (sp := (k / 2)%nat).
  assert (15 <= sp /\ sp + 15 <= k /\ k <= 2 * sp + 1)%nat as Hsp.
  { unfold sp. pose proof (Nat.div_mod_eq k 2). pose proof (Nat.mod_upper_bound k 2 ltac:(lia)). lia. }
  clearbody sp. split_and!; [| intros q Hq | |].
  - apply wf_internal; try done; [| | by apply Forall_take | by apply Forall_take | |].
    + intros H%(f_equal length). rewrite length_take in H. fold k in H. change (length (@nil bytes)) with 0%nat in H. lia.
    + rewrite !length_take. lia.
    + unfold len, BPlusOrder. rewrite length_take. lia.
    + eapply (halves_fit _ 11 138); [done | lia | lia |]. fold k. lia.
  - apply wf_internal; try done; [| | by apply Forall_drop | by apply Forall_drop | |].
    + intros H%(f_equal length). rewrite length_drop in H. fold k in H. change (length (@nil bytes)) with 0%nat in H. lia.
    + rewrite !length_drop. lia.
    + unfold len, BPlusOrder. rewrite length_drop. lia.
    + eapply (second_half_fits _ 11 138); [done | lia | lia |]. lia.
  - intros H%(f_equal length). rewrite length_take in H. fold k in H. change (length (@nil bytes)) with 0%nat in H. lia.
  - intros H%(f_equal length). rewrite length_drop in H. fold k in H. change (length (@nil bytes)) with 0%nat in H. lia.
Qed.

(** Writing a node and reading the rest of the store. *)
Lemma splitInternal_run t N F m p :
  store (t_pages t) N F -> Keys m !! (length (Keys m) / 2)%nat = Some p ->
  let sp := (length (Keys m) / 2)%nat in
  (exists q pm, page_number q /\ N !! q = None /\ store pm (<[q := NewInternalNode q]> N) F
     /\ splitInternal disk_limit m t =
        (Ok (with_children (take (S sp) (Children m)) (with_keys (take sp (Keys m)) m),
             with_children (drop (S sp) (Children m)) (with_keys (drop (S sp) (Keys m)) (NewInternalNode q)), p), with_pages t pm))
  \/ (exists e, splitInternal disk_limit m t = (Err e, t) /\ full disk_limit (t_pages t) 8).
Proof.
  intros Hs Hp sp. unfold splitInternal, allocateNode.
  destruct (allocate_run disk_limit Hlimit t N F Hs) as [(q & pm & Hal & Hq & Hfr & Hs')|(e & Hal & Hfull)].
  - left. exists q, pm. split_and!; try done. erewrite bind_ok; [| erewrite bind_ok by exact Hal; reflexivity].
    cbv zeta. by rewrite Hp.
  - right. exists e. split; [| done]. erewrite bind_err; [done |]. by erewrite bind_err by exact Hal.
Qed.

Lemma close_parent N root h lo hi id path L R F1 m lv ids :
  hole N root (S h) lo hi id path L R F1 -> IsLeaf m = false -> Keys m <> [] -> n_PageID m = id ->
  forest (subtree N h) lo hi (Keys m) (Children m) lv ids -> NoDup (ids ++ id :: F1) ->
  exists h' ids', subtree (<[id := m]> N) h' None None root (L ++ lv ++ R) ids' /\ NoDup ids'.
Proof.
  intros Hz Hl Hk Hid Hf Hd.
  assert (NoDup ((id :: ids) ++ F1)) as Hd' by by rewrite <- app_comm_cons, Permutation_middle.
  cbn in Hd'. apply NoDup_cons in Hd' as [Hni Hd']. rewrite elem_of_app in Hni.
  destruct (hole_close (<[id := m]> N) root (S h) lo hi id path L R F1 lv (id :: ids)) as (h' & ids' & Hsub & Hp).
  - eapply hole_ext; [| exact Hz]. apply agree_insert. tauto.
  - cbn. exists m, ids. rewrite lookup_insert_eq. split_and!; try done. eapply forest_ext; [| exact Hf]. apply agree_insert. tauto.
  - cbn. constructor; [by rewrite elem_of_app | done].
  - exists h', ids'. split; [done |]. rewrite Hp. cbn. constructor; [by rewrite elem_of_app | done].
Qed.

Lemma internal_count n : wf_node n -> IsLeaf n = false -> Children n <> [] -> length (Children n) = S (length (Keys n)).
Proof.
  intros Hw Hl Hc. pose proof (wfn_shape _ Hw) as Hsh. rewrite Hl in Hsh. destruct Hsh as (_ & _ & _ & Hlen).
  destruct (Keys n); [| done]. by apply length_zero_iff_nil in Hlen.
Qed.

Lemma grown_size n KL KR p cs :
  wf_node n -> IsLeaf n = false -> Children n <> [] -> Keys n = KL ++ KR -> small_key p -> length cs = S (length (KL ++ p :: KR)) ->
  SerializedSize (with_children cs (with_keys (KL ++ p :: KR) n)) <= PageSize - PageHeaderSize + 138
  /\ len (KL ++ p :: KR) <= BPlusOrder.
Proof.
  intros Hw Hl Hc Hk Hp Hcs. pose proof (wfn_size _ Hw) as Hsz. pose proof (wfn_shape _ Hw) as Hsh.
  rewrite Hl in Hsh. destruct Hsh as (_ & Hlen & _). rewrite internal_size in Hsz by (done || by apply internal_count).
  rewrite internal_size by done. cbn [Keys with_children with_keys]. rewrite Hk in Hsz, Hlen.
  rewrite fmap_app, sumZ_app in *. rewrite fmap_cons, sumZ_cons. pose proof (small_key_cost p Hp). split; [lia |].
  unfold BPlusOrder in *. rewrite len_app in *. rewrite len_cons. lia.
Qed.

(** The two halves as neighbours. *)
Lemma halves_forest N h lo hi id q m sp p lv ids :
  forest (subtree N h) lo hi (Keys m) (Children m) lv ids -> Keys m !! sp = Some p -> IsLeaf m = false ->
  take sp (Keys m) <> [] -> drop (S sp) (Keys m) <> [] -> id ∉ ids -> q ∉ ids -> id <> q ->
  let a := with_children (take (S sp) (Children m)) (with_keys (take sp (Keys m)) m) in
  let b := with_children (drop (S sp) (Children m)) (with_keys (drop (S sp) (Keys m)) (NewInternalNode q)) in
  exists ids', forest (subtree (<[q := b]> (<[id := a]> N)) (S h)) lo hi [p] [id; q] lv ids' /\ ids' ≡ₚ id :: q :: ids.
Proof.
  intros Hf Hp Hl Ha Hb Hid Hq Hne a b.
  destruct (forest_cut _ _ _ _ _ _ _ _ _ Hf Hp) as (lv1 & lv2 & ids1 & ids2 & -> & -> & H1 & H2 & H3 & H4 & H5).
  rewrite elem_of_app in Hid, Hq. set (N' := <[q := b]> (<[id := a]> N)).
  assert (forall l, id ∉ l -> q ∉ l -> agree N N' l) as Hag.
  { intros l Hi Hq'. eapply agree_trans; apply agree_insert; done. }
  exists ((id :: ids1) ++ q :: ids2). split.
  - apply forest_cons; try done.
    + cbn. exists a, ids1. unfold N'. rewrite lookup_insert_ne, lookup_insert_eq by done. split_and!; try done.
      eapply forest_ext; [apply Hag; tauto | exact H1].
    + apply forest_one. cbn. exists b, ids2. unfold N'. rewrite lookup_insert_eq. split_and!; try done.
      eapply forest_ext; [apply Hag; tauto | exact H2].
  - cbn. by rewrite <- Permutation_middle.
Qed.

(** Cutting the node [m] on page [id]: the halves are written, and the tree has them side by side. *)
Definition split_write (m : BPlusNode) : TM (Z * bytes * Z) :=
  s ← splitInternal disk_limit m;
  let '(internal, newInternal, promotedKey) := s in
  writeNode internal ;;
  writeNode newInternal ;;
  mret (n_PageID internal, promotedKey, n_PageID newInternal).

Lemma split_write_run t N F n m h lo hi lv ids :
  store (t_pages t) N F -> wf_node n -> IsLeaf n = false -> m = with_children (Children m) (with_keys (Keys m) n) ->
  is_Some (N !! n_PageID n) -> forest (subtree N h) lo hi (Keys m) (Children m) lv ids -> n_PageID n ∉ ids ->
  SerializedSize m <= PageSize - PageHeaderSize + 138 -> len (Keys m) <= BPlusOrder -> IsFull m || negb (FitsInPage m) = true ->
  (exists q p N' pm ids', split_write m t = (Ok (n_PageID n, p, q), with_pages t pm) /\ store pm N' F
     /\ N !! q = None /\ (forall i, i <> n_PageID n -> i <> q -> N' !! i = N !! i)
     /\ forest (subtree N' (S h)) lo hi [p] [n_PageID n; q] lv ids' /\ ids' ≡ₚ n_PageID n :: q :: ids)
  \/ (exists e, split_write m t = (Err e, t) /\ full disk_limit (t_pages t) 8).
Proof.
  intros Hs Hw Hl Hm Hsome Hfm Hid Hsz Hlen Efull.
  assert (IsLeaf m = false) as Hlm by by rewrite Hm.
  pose proof (forest_keys _ _ _ _ _ _ _ Hfm) as (_ & Hks & Hcl).
  destruct (forest_children _ _ _ _ _ _ _ _ _ _ Hs Hfm) as [Hcs Hdom].
  assert (Forall small_key (Keys m)) as Hsk by (eapply Forall_impl; [exact Hks | cbn; tauto]).
  pose proof (full_internal m Hlm Hcl Hsk Efull) as H30. set (sp := (length (Keys m) / 2)%nat).
  assert (is_Some (Keys m !! sp)) as [p Hp].
  { apply lookup_lt_is_Some. apply Nat.div_lt; unfold len in H30; lia. }
  destruct (split_fits n m sp) as (Hwa & Hwb & Hna & Hnb); try done; [by rewrite Hm |].
  unfold split_write. destruct (splitInternal_run t N F m p Hs Hp) as [(q & pm & Hq & Hfr & Hs1 & Hrun)|(e & Hrun & Hfull)]; fold sp in Hrun.
  2:{ right. exists e. by erewrite bind_err by exact Hrun. }
  left. specialize (Hwb q Hq).
  assert (n_PageID n <> q) as Hneq by (intros <-; by rewrite Hfr in Hsome; destruct Hsome).
  destruct (halves_forest N h lo hi (n_PageID n) q m sp p _ _ Hfm Hp Hlm Hna Hnb) as (ids' & Hf' & Hperm);
    [done | by eapply fresh_not_in | done |].
  erewrite bind_ok by exact Hrun. cbv beta iota zeta. clear Hrun.
  assert (with_children (take (S sp) (Children m)) (with_keys (take sp (Keys m)) m)
    = with_children (take (S sp) (Children m)) (with_keys (take sp (Keys m)) n)) as Ea by by rewrite Hm.
  rewrite Ea in Hf' |- *. set (a := with_children (take (S sp) (Children m)) (with_keys (take sp (Keys m)) n)) in *. set (b := with_children (drop _ _) _) in *.
  destruct (writeNode_run disk_limit Hlimit (with_pages t pm) _ F a Hs1 Hwa) as (pm2 & Hwr2 & Hs2).
  { change (n_PageID a) with (n_PageID n). by rewrite lookup_insert_ne. }
  destruct (writeNode_run disk_limit Hlimit (with_pages (with_pages t pm) pm2) _ F b Hs2 Hwb) as (pm3 & Hwr3 & Hs3).
  { change (n_PageID b) with q. change (n_PageID a) with (n_PageID n). rewrite lookup_insert_ne, lookup_insert_eq by done. by eexists. }
  erewrite bind_ok by exact Hwr2. erewrite bind_ok by exact Hwr3.
  change (n_PageID a) with (n_PageID n) in *. change (n_PageID b) with q in *.
  rewrite (insert_insert_ne N (n_PageID n) q), insert_insert_eq in Hs3 by done.
  exists q, p, (<[q := b]> (<[n_PageID n := a]> N)), pm3, ids'. split_and!; try done.
  intros i Hi1 Hi2. by rewrite !lookup_insert_ne.
Qed.

Lemma split_write_eq path m t :
  (s ← splitInternal disk_limit m;
   let '(internal, newInternal, promotedKey) := s in
   writeNode internal ;; writeNode newInternal ;;
   insertIntoParent disk_limit path (n_PageID internal) promotedKey (n_PageID newInternal)) t
  = (r ← split_write m; insertIntoParent disk_limit path r.1.1 r.1.2 r.2) t.
Proof.
  unfold split_write. rewrite !bind_run. destruct (splitInternal disk_limit m t) as [[[[a b] p]| | |] t1]; [| done..].
  rewrite !bind_run. destruct (writeNode a t1) as [[[]| | |] t2]; [| done..].
  rewrite !bind_run. by destruct (writeNode b t2) as [[[]| | |] t3].
Qed.

Lemma agree_off N N' a b ids : (forall i, i <> a -> i <> b -> N' !! i = N !! i) -> a ∉ ids -> b ∉ ids -> agree N N' ids.
Proof. intros H Ha Hb i Hi. rewrite H; [done | |]; intros ->; done. Qed.

Lemma hole_internal (N : nodes) n m : strip <$> N !! n_PageID n = Some (strip n) -> IsLeaf n = false -> N !! n_PageID n = Some m -> IsLeaf m = false.
Proof. intros Hn Hl Hm. rewrite Hm in Hn. apply (inj Some) in Hn as Hst. apply strip_eq in Hst as [E _]. congruence. Qed.

Lemma insertIntoParent_run path t N F h lo hi left L R ids0 p right lv ids :
  store (t_pages t) N F -> hole N (t_root t) h lo hi left path L R ids0 ->
  forest (subtree N h) lo hi [p] [left; right] lv ids -> NoDup (ids ++ ids0) ->
  inserted F N (L ++ lv ++ R) (insertIntoParent disk_limit path left p right t).
Proof.
  revert t N h lo hi left L R ids0 p right lv ids.
  induction path as [|n path IH]; intros t N h lo hi left L R ids0 p right lv ids Hs Hz Hf Hd.
  { inversion Hz; subst. cbn. rewrite !app_nil_r in *. by eapply createNewRoot_run. }
  inversion Hz as [|h' lo1 hi1 n' path' L1 R1 F1 KL KR CL c CR lo' hi' lvL lvR iL iR Hz1 Hn Hw Hl Hk Hc Hsg Hr Hb]; subst.
  destruct (parent_insert N h n lo1 hi1 lo hi KL KR CL left CR lvL lvR iL iR p right lv ids) as ((b & Hfi) & Hin & Hfm); try done.
  set (m := with_children (CL ++ left :: right :: CR) (with_keys (KL ++ p :: KR) n)) in *.
  cbn [insertIntoParent]. erewrite bind_ok by (unfold pure; rewrite Hfi; reflexivity).
  erewrite bind_ok by (unfold pure; cbn [fst]; rewrite Hin; reflexivity).
  pose proof (forest_keys _ _ _ _ _ _ _ Hfm) as (_ & Hks & Hcl).
  destruct (forest_children _ _ _ _ _ _ _ _ _ _ Hs Hfm) as [Hcs Hdom].
  assert (Forall small_key (Keys m)) as Hsk by (eapply Forall_impl; [exact Hks | cbn; tauto]).
  assert (IsLeaf m = false) as Hlm by done.
  assert (is_Some (N !! n_PageID n)) as Hsome by (destruct (N !! n_PageID n); [by eexists | done]).
  pose proof (hole_dom _ _ _ _ _ _ _ _ _ _ Hz1) as HdomF.
  assert (NoDup ((iL ++ ids ++ iR) ++ n_PageID n :: F1)) as Hd'.
  { eapply NoDup_Permutation_proper; [| exact Hd]. rewrite <- !(assoc_L (++)), <- !Permutation_middle.
    f_equiv. apply Permutation_app_swap_app. }
  assert (Children n <> []) as Hcne by (rewrite Hc; destruct CL; done).
  destruct (grown_size n KL KR p (CL ++ left :: right :: CR) Hw Hl Hcne Hk) as [Hsz Hlen].
  { change (Keys m) with (KL ++ p :: KR) in Hsk. rewrite Forall_app, Forall_cons in Hsk. apply Hsk. }
  { done. }
  fold m in Hsz. destruct (IsFull m || negb (FitsInPage m)) eqn:Efull.
  - rewrite split_write_eq. apply NoDup_app in Hd' as (Hd1 & Hd2 & [Hd3 Hd4]%NoDup_cons).
    assert (n_PageID n ∉ iL ++ ids ++ iR) as Hni by (intros Hi; apply (Hd2 _ Hi); set_solver).
    destruct (split_write_run t N F n m h lo1 hi1 _ _ Hs Hw Hl eq_refl Hsome Hfm Hni Hsz Hlen Efull)
      as [(q & p' & N' & pm & ids' & Hrun & Hs' & Hfr & Hoff & Hf' & Hperm)|(e & Hrun & Hfull)].
    2:{ by erewrite bind_err by exact Hrun. }
    erewrite bind_ok by exact Hrun. cbn [fst snd]. pose proof (fresh_not_in N F1 q Hfr HdomF) as Hq1. pose proof (fresh_not_in N _ q Hfr Hdom) as Hq2.
    replace ((L1 ++ lvL) ++ lv ++ lvR ++ R1) with (L1 ++ (lvL ++ lv ++ lvR) ++ R1) by by rewrite <- !(assoc_L (++)).
    apply (inserted_kept _ _ N').
    { intros i n' Hi Hln. rewrite Hoff; [done | |]; intros ->; [| congruence].
      pose proof (hole_internal _ _ _ Hn Hl Hi). congruence. }
    eapply IH; [exact Hs' | | exact Hf' |].
    + eapply hole_ext; [| exact Hz1]. by eapply agree_off.
    + rewrite Hperm. cbn. rewrite !NoDup_cons, NoDup_app. split_and!; [| | done | | done].
      * rewrite elem_of_cons, elem_of_app. intros [Heq|[|]]; [rewrite Heq, Hfr in Hsome; by destruct Hsome | done | done].
      * rewrite elem_of_app. tauto.
      * intros i Hi Hi'. apply (Hd2 i Hi). set_solver.
  - apply orb_false_iff in Efull as [Ef1 Ef2]. apply negb_false_iff, bool_decide_eq_true in Ef2.
    unfold IsFull in Ef1. rewrite Hlm in Ef1. apply bool_decide_eq_false in Ef1.
    assert (wf_node m) as Hwm.
    { rewrite internal_size in Ef2 by done. change (Keys m) with (KL ++ p :: KR) in Ef1, Ef2.
      apply wf_internal; try done; [by destruct KL | lia |]. unfold PageSize, PageHeaderSize in *. lia. }
    destruct (writeNode_run disk_limit Hlimit t N F m Hs Hwm Hsome) as (pm & Hwr & Hs').
    rewrite Hwr. unfold inserted. cbn [fst snd t_pages t_root with_pages].
    destruct (close_parent N (t_root t) h lo1 hi1 (n_PageID n) path L1 R1 F1 m (lvL ++ lv ++ lvR) (iL ++ ids ++ iR)) as (h' & ids' & Hsub & Hnd); try done.
    { by destruct KL. }
    rewrite <- !(assoc_L (++)) in *. exists (<[n_PageID n := m]> N), h', ids'. split_and!; try done.
    apply leaves_kept_insert. intros m'. by apply hole_internal.
Qed.

(** ** Leaves *)

Lemma wf_with_prev n id : wf_node n -> is_uint64 id -> wf_node (with_prev id n).
Proof. intros [] ?. by constructor. Qed.

Lemma wf_with_next n id : wf_node n -> is_uint64 id -> wf_node (with_next id n).
Proof. intros [] ?. by constructor. Qed.

Lemma page_number_uint64 id : page_number id -> is_uint64 id.
Proof. unfold page_number, is_uint64. lia. Qed.

(** The halves of a leaf. *)
Definition left_half (sp : nat) (q : Z) (m : BPlusNode) : BPlusNode :=
  with_next q (with_values (take sp (Values m)) (with_keys (take sp (Keys m)) m)).
Definition right_half (sp : nat) (q : Z) (m : BPlusNode) : BPlusNode :=
  with_prev (n_PageID m) (with_next (NextLeaf m) (with_values (drop sp (Values m)) (with_keys (drop sp (Keys m)) (NewLeafNode q)))).

(** The pages after [splitLeaf]: the new page [q], and the next leaf points back to it. *)
Definition relinked (N N1 : nodes) (q : Z) (next : option Z) : Prop :=
  is_Some (N1 !! q) /\ (forall i, i <> q -> next <> Some i -> N1 !! i = N !! i)
  /\ (forall j n, next = Some j -> N !! j = Some n -> N1 !! j = Some (with_prev q n)).

Lemma splitLeaf_run t N F m next p ks :
  store (t_pages t) N F -> NextLeaf m = default InvalidPageID next -> (forall j, next = Some j -> is_Some (N !! j)) ->
  let sp := ((length (Keys m) + 1) / 2)%nat in
  drop sp (Keys m) = p :: ks ->
  (exists q pm N1, page_number q /\ N !! q = None /\ store pm N1 F /\ relinked N N1 q next
     /\ splitLeaf disk_limit m t = (Ok (left_half sp q m, right_half sp q m, p), with_pages t pm))
  \/ (exists e, splitLeaf disk_limit m t = (Err e, t) /\ full disk_limit (t_pages t) 8).
Proof.
  intros Hs Hnx Hj sp Hp. unfold splitLeaf, allocateNode.
  destruct (allocate_run disk_limit Hlimit t N F Hs) as [(q & pm & Hal & Hq & Hfr & Hs')|(e & Hal & Hfull)].
  2:{ right. exists e. split; [| done]. erewrite bind_err; [done |]. by erewrite bind_err by exact Hal. }
  left. exists q. erewrite bind_ok; [| erewrite bind_ok by exact Hal; reflexivity]. cbv zeta. fold sp.
  cbn [NextLeaf PrevLeaf Keys Values n_PageID with_prev with_next with_values with_keys NewLeafNode]. rewrite Hp, Hnx.
  destruct next as [j|]; unfold default, from_option, id in *.
  - destruct (Hj j eq_refl) as [n Hn]. pose proof (store_page_number _ _ _ j Hs ltac:(by eexists)) as Hjn.
    assert (q <> j) as Hqj by (intros ->; congruence).
    rewrite decide_True by (unfold InvalidPageID, page_number in *; lia).
    assert (readNode j (with_pages t pm) = (Ok n, with_pages t pm)) as Hrd.
    { eapply readNode_run; [exact Hlimit | exact Hs' |]. by rewrite lookup_insert_ne. }
    destruct (st_nodes _ _ _ _ Hs j n Hn) as [Hwn Hidn].
    destruct (writeNode_run disk_limit Hlimit (with_pages t pm) _ F (with_prev q n) Hs') as (pm2 & Hwr & Hs2).
    { apply wf_with_prev; [done | by apply page_number_uint64]. }
    { cbn. rewrite Hidn, lookup_insert_ne by done. by eexists. }
    exists pm2, (<[j := with_prev q n]> (<[q := NewInternalNode q]> N)). cbn in Hs2. rewrite Hidn in Hs2. split_and!; try done.
    + split_and!.
      * rewrite lookup_insert_ne, lookup_insert_eq by done. by eexists.
      * intros i Hi1 Hi2. rewrite !lookup_insert_ne; [done | done | congruence].
      * intros j' n' [= <-] Hn'. rewrite Hn in Hn'. injection Hn' as <-. apply lookup_insert_eq.
    + unfold left_half, right_half. rewrite Hp, Hnx. erewrite bind_ok; [reflexivity |]. erewrite bind_ok by (unfold try; rewrite Hrd; reflexivity). cbv iota.
      erewrite bind_ok by (unfold try; rewrite Hwr; reflexivity). done.
  - exists pm, (<[q := NewInternalNode q]> N). split_and!; try done; [| unfold left_half, right_half; rewrite Hp, Hnx; by rewrite decide_False by (intros H; done)].
    split_and!; [rewrite lookup_insert_eq; by eexists | | done]. intros i Hi _. by rewrite lookup_insert_ne.
Qed.

Lemma entries_insert n i x (r : EntryRef) :
  length (Values n) = length (Keys n) ->
  zip (insert_at i x (Keys n)) (insert_at i r (Values n)) = insert_at i (x, r) (entries n).
Proof.
  intros Hl. unfold insert_at, entries. rewrite zip_with_app by (rewrite !length_take; lia). cbn [zip_with].
  by rewrite zip_with_take, zip_with_drop.
Qed.

Lemma sorted_insert ks x i : sorted ks -> x ∉ ks -> position ks x i -> sorted (insert_at i x ks).
Proof.
  intros Hs Hx (_ & H1 & H2). rewrite <- (take_drop i ks) in Hs, Hx. apply sorted_app_inv in Hs as (S1 & S2 & S3).
  rewrite Forall_forall in H1, H2. rewrite elem_of_app in Hx.
  assert (forall y, y ∈ drop i ks -> klt x y) as H3.
  { intros y Hy. specialize (H2 y Hy). apply klt_not in H2 as [->|]; [tauto | done]. }
  unfold insert_at. apply sorted_app; [done | constructor; [done | by apply Forall_forall] |].
  intros a b Ha [->|Hb]%elem_of_cons; [by apply H1 | by apply S3].
Qed.

Lemma leaf_insert n lo hi x r i :
  leaf_ok n lo hi -> within lo hi x -> x ∉ Keys n -> small_entry (x, r) -> position (Keys n) x i ->
  let m := with_values (insert_at i r (Values n)) (with_keys (insert_at i x (Keys n)) n) in
  InsertKeyAt i x (Some r) InvalidPageID n = Ok m /\ leaf_ok m lo hi /\ entries m = insert_at i (x, r) (entries n).
Proof.
  intros [Hl Hv Hs Hw Hsm] Hx Hni Hse Hpos m. pose proof Hpos as (Hi & _ & _).
  assert (entries m = insert_at i (x, r) (entries n)) as He by by apply entries_insert.
  split_and!; [| constructor | done].
  - unfold InsertKeyAt. rewrite decide_True by done. cbn [IsLeaf with_keys]. rewrite Hl. cbn [Values with_keys].
    by rewrite decide_True by lia.
  - done.
  - unfold m, insert_at. cbn [Values Keys with_values with_keys]. rewrite !length_app. cbn [length]. rewrite !length_take, !length_drop. lia.
  - by apply sorted_insert.
  - unfold m, insert_at. cbn [Keys with_values with_keys]. rewrite Forall_app, Forall_cons.
    split_and!; [by apply Forall_take | done | by apply Forall_drop].
  - rewrite He. unfold insert_at. rewrite Forall_app, Forall_cons. split_and!; [by apply Forall_take | done | by apply Forall_drop].
Qed.

(** The halves of an overfull leaf. *)
Lemma leaf_halves n m lo hi q p ks :
  wf_node n -> m = with_values (Values m) (with_keys (Keys m) n) -> leaf_ok m lo hi -> page_number q ->
  SerializedSize m <= PageSize - PageHeaderSize + 174 -> len (Keys m) <= BPlusLeafCapacity + 1 -> IsFull m || negb (FitsInPage m) = true ->
  let sp := ((length (Keys m) + 1) / 2)%nat in drop sp (Keys m) = p :: ks ->
  wf_node (left_half sp q m) /\ wf_node (right_half sp q m)
  /\ entries (left_half sp q m) = take sp (entries m) /\ entries (right_half sp q m) = drop sp (entries m)
  /\ (0 < sp < length (Keys m))%nat.
Proof.
  intros Hw Hm [Hl Hv Hs Hwi Hsm] Hq Hsz Hlen Hfull sp Hp.
  assert (IsLeaf n = true) as Hln by by rewrite Hm in Hl.
  pose proof (full_leaf m Hl Hv Hsm Hfull) as H24. rewrite leaf_size in Hsz by done. unfold PageSize, PageHeaderSize, BPlusLeafCapacity in *.
  assert (Forall (fun e => 15 <= entry_cost e <= 174) (entries m)) as Hcost by (eapply Forall_impl; [exact Hsm | apply small_entry_cost]).
  set (k := length (Keys m)) in *. assert (length (entries m) = k) as Hke by (unfold entries; rewrite length_zip; lia).
  assert (12 <= sp /\ sp + 12 <= k /\ k <= 2 * sp)%nat as Hsp.
  { unfold sp. unfold len in H24. fold k in H24. pose proof (Nat.div_mod_eq (k + 1) 2). pose proof (Nat.mod_upper_bound (k + 1) 2 ltac:(lia)). lia. }
  clearbody sp.
  assert (left_half sp q m = with_next q (with_values (take sp (Values m)) (with_keys (take sp (Keys m)) n))) as Ea by by rewrite Hm.
  assert (entries (left_half sp q m) = take sp (entries m)) as E1.
  { unfold left_half, entries. cbn [Keys Values with_next with_values with_keys]. by rewrite zip_with_take. }
  assert (entries (right_half sp q m) = drop sp (entries m)) as E2.
  { unfold right_half, entries. cbn [Keys Values with_prev with_next with_values with_keys]. by rewrite zip_with_drop. }
  split_and!; [| | done | done | lia | lia].
  - rewrite Ea. apply wf_with_next; [| by apply page_number_uint64]. apply wf_leaf; [done | done | | | |].
    + rewrite !length_take. lia.
    + rewrite <- zip_with_take. by apply Forall_take.
    + unfold len, BPlusLeafCapacity in *. rewrite length_take. lia.
    + rewrite <- zip_with_take. eapply (halves_fit _ 15 174); [done | unfold entries in Hke; lia | unfold entries in Hsz; lia |].
      unfold entries in Hke. rewrite Hke. lia.
  - unfold right_half. apply wf_with_prev; [apply wf_with_next; [apply wf_leaf |] |].
    + by apply wf_new_leaf.
    + done.
    + rewrite !length_drop. lia.
    + rewrite <- zip_with_drop. by apply Forall_drop.
    + unfold len, BPlusLeafCapacity in *. rewrite length_drop. lia.
    + rewrite <- zip_with_drop. eapply (second_half_fits _ 15 174); [done | unfold entries in Hke; lia | unfold entries in Hsz; lia |]. lia.
    + rewrite Hm. apply Hw.
    + rewrite Hm. cbn. apply page_number_uint64, Hw.
Qed.

(** Their keys are on both sides of the first key of the right one. *)
Lemma leaf_halves_ok m lo hi q sp p ks :
  leaf_ok m lo hi -> (0 < sp)%nat -> drop sp (Keys m) = p :: ks ->
  leaf_ok (left_half sp q m) lo (Some p) /\ leaf_ok (right_half sp q m) (Some p) hi
  /\ over lo p /\ below p hi /\ small_key p.
Proof.
  intros [Hl Hv Hs Hw Hsm] Hsp Hp. rewrite <- (take_drop sp (Keys m)), Hp in Hs.
  apply sorted_app_inv in Hs as (S1 & S2 & S3). pose proof S2 as [_ Hgt]%StronglySorted_inv.
  assert (within lo hi p) as [Hpa Hpb].
  { rewrite Forall_forall in Hw. apply Hw. apply (in_drop _ sp). rewrite Hp. set_solver. }
  assert (small_key p) as Hpk.
  { rewrite <- (entries_keys m Hv) in Hp. rewrite <- fmap_drop in Hp. pose proof (Forall_drop _ sp _ Hsm) as Hd.
    destruct (drop sp (entries m)) as [|e es]; [done |]. injection Hp as <- _. apply Forall_cons in Hd as [[? _] _]. done. }
  assert (over lo p) as Hov.
  { destruct lo as [l|]; [| done]. cbn in Hpa |- *. destruct (take sp (Keys m)) as [|y ys] eqn:Et.
    - assert (length (take sp (Keys m)) = 0%nat) as Hz by by rewrite Et. assert (length (drop sp (Keys m)) = S (length ks)) as Hd by by rewrite Hp.
      rewrite length_take in Hz. rewrite length_drop in Hd. lia.
    - rewrite Forall_forall in Hw. destruct (Hw y) as [Hy _]; [apply (in_take _ sp); rewrite Et; set_solver |].
      apply (kle_lt_trans _ y); [done |]. apply S3; set_solver. }
  split_and!; try done; constructor; unfold left_half, right_half, entries;
    cbn [IsLeaf Keys Values with_prev with_next with_values with_keys NewLeafNode]; try done.
  - rewrite !length_take. lia.
  - apply Forall_forall. intros y Hy. split; [| cbn; apply S3; set_solver].
    rewrite Forall_forall in Hw. apply Hw. by eapply in_take.
  - rewrite <- zip_with_take. by apply Forall_take.
  - rewrite !length_drop. lia.
  - by rewrite Hp.
  - apply Forall_forall. intros y Hy. split.
    + cbn. rewrite Hp in Hy. apply elem_of_cons in Hy as [->|Hy]; [apply klt_irrefl |]. apply klt_not. right.
      rewrite Forall_forall in Hgt. by apply Hgt.
    + rewrite Forall_forall in Hw. apply Hw. by eapply in_drop.
  - rewrite <- zip_with_drop. by apply Forall_drop.
Qed.

(** ** The tree *)

Definition tree_at (pm : PageManager) (root : Z) (F : gmap Z Page) (lv : list leaf_of) : Prop :=
  exists N h ids, store pm N F /\ subtree N h None None root lv ids /\ NoDup ids /\ linked N InvalidPageID lv.*1.

(** An insertion leaves a tree with the given leaves, or it failed for want of space. *)
Definition insert_ok (F : gmap Z Page) (lv : list leaf_of) (run : outcome unit * BPlusTree) : Prop :=
  match run.1 with
  | Ok _ => tree_at (t_pages run.2) (t_root run.2) F lv
  | Err _ => full disk_limit (t_pages run.2) 8
  | _ => False
  end.

Section Leaf.
Context (t : BPlusTree) (N : nodes) (F : gmap Z Page) (lo hi : option bytes) (n : BPlusNode).
Context (path : list BPlusNode) (L R : list leaf_of) (ids0 : list Z).
Context (Hs : store (t_pages t) N F).
Context (Hz : hole N (t_root t) 0 lo hi (n_PageID n) path L R ids0).
Context (Hd : NoDup (n_PageID n :: ids0)).
Context (Hn : N !! n_PageID n = Some n) (Hok : leaf_ok n lo hi).
Context (Hlk : linked N InvalidPageID (L ++ (n_PageID n, entries n) :: R).*1).

Lemma write_leaf m :
  wf_node m -> leaf_ok m lo hi -> n_PageID m = n_PageID n -> PrevLeaf m = PrevLeaf n -> NextLeaf m = NextLeaf n ->
  insert_ok F (L ++ (n_PageID n, entries m) :: R) (writeNode m t).
Proof.
  intros Hw Hm Hid Hp Hx. destruct (writeNode_run disk_limit Hlimit t N F m Hs Hw) as (pm & Hrun & Hs'); [rewrite Hid; by eexists |].
  rewrite Hrun. unfold insert_ok. cbn [fst snd t_pages t_root with_pages]. rewrite Hid in Hs'. apply NoDup_cons in Hd as [Hni Hd'].
  destruct (hole_close (<[n_PageID n := m]> N) (t_root t) 0 lo hi (n_PageID n) path L R ids0 [(n_PageID n, entries m)] [n_PageID n])
    as (h & ids & Hsub & Hperm).
  - eapply hole_ext; [| exact Hz]. by apply agree_insert.
  - exists m. by rewrite lookup_insert_eq.
  - cbn. by constructor.
  - exists (<[n_PageID n := m]> N), h, ids. split_and!; [done | done | rewrite Hperm; cbn; by constructor |].
    rewrite fmap_app, fmap_cons in *. by eapply linked_update.
Qed.

(** The pages of the leaves are different. *)
Lemma leaves_NoDup :
  NoDup (L.*1 ++ n_PageID n :: R.*1)
  /\ Forall (fun i => exists m, N !! i = Some m /\ IsLeaf m = true) (L.*1 ++ n_PageID n :: R.*1).
Proof.
  destruct (hole_close N (t_root t) 0 lo hi (n_PageID n) path L R ids0 [(n_PageID n, entries n)] [n_PageID n]) as (h & ids & Hsub & Hperm);
    [done | by exists n | done |].
  destruct (subtree_leaves _ _ _ _ _ _ _ Hsub) as [Hsl Hall]. rewrite fmap_app in Hsl. split.
  - eapply sublist_NoDup; [| exact Hsl]. by rewrite Hperm.
  - rewrite Forall_app, Forall_app, Forall_singleton in Hall. destruct Hall as (H1 & _ & H2).
    assert (forall l, Forall (fun l => exists n lo hi, N !! l.1 = Some n /\ leaf_ok n lo hi /\ entries n = l.2) l ->
      Forall (fun i => exists m, N !! i = Some m /\ IsLeaf m = true) l.*1) as Hl.
    { intros l Hl. apply Forall_fmap. eapply Forall_impl; [exact Hl |]. intros x (m & lo' & hi' & Hm & [Hlm _ _ _ _] & _). by exists m. }
    rewrite Forall_app, Forall_cons. split_and!; [by apply Hl | exists n; split; [done | apply Hok] | by apply Hl].
Qed.

(** The store after [splitLeaf] and the two writes. *)
Definition split_nodes (N1 : nodes) (q : Z) (sp : nat) (m : BPlusNode) : nodes :=
  <[q := right_half sp q m]> (<[n_PageID n := left_half sp q m]> N1).

Lemma split_nodes_off N1 q sp m i :
  relinked N N1 q (R.*1 !! 0%nat) -> i <> q -> i <> n_PageID n ->
  (R.*1 !! 0%nat <> Some i -> split_nodes N1 q sp m !! i = N !! i)
  /\ (forall b, R.*1 !! 0%nat = Some i -> N !! i = Some b -> split_nodes N1 q sp m !! i = Some (with_prev q b)).
Proof.
  intros (_ & H1 & H2) Hq Hi. unfold split_nodes. rewrite !lookup_insert_ne by done.
  split; [intros; by apply H1 | intros; by apply H2].
Qed.

Lemma split_nodes_agree N1 q sp m :
  relinked N N1 q (R.*1 !! 0%nat) -> N !! q = None -> agree N (split_nodes N1 q sp m) ids0.
Proof.
  intros Hre Hfr i Hi. apply NoDup_cons in Hd as [Hni _]. pose proof (hole_dom _ _ _ _ _ _ _ _ _ _ Hz) as Hdom.
  assert (i <> q) by (intros ->; by eapply fresh_not_in). assert (i <> n_PageID n) by congruence.
  destruct (split_nodes_off N1 q sp m i Hre) as [H1 H2]; [done | done |].
  destruct (decide (R.*1 !! 0%nat = Some i)) as [Hj|Hj]; [| by rewrite H1].
  rewrite Forall_forall in Hdom. destruct (Hdom i Hi) as [b Hb]. by rewrite (H2 b Hj Hb), Hb.
Qed.

Lemma split_nodes_leaf N1 q sp m i :
  relinked N N1 q (R.*1 !! 0%nat) -> N !! q = None -> IsLeaf m = true -> i ∈ L.*1 ++ n_PageID n :: q :: R.*1 ->
  exists k, split_nodes N1 q sp m !! i = Some k /\ IsLeaf k = true.
Proof.
  intros Hre Hfr Hm Hi. destruct leaves_NoDup as [_ Hall]. rewrite Forall_forall in Hall.
  destruct (decide (i = q)) as [->|Hq]; [exists (right_half sp q m); split; [apply lookup_insert_eq | done] |].
  destruct (decide (i = n_PageID n)) as [->|Hid].
  { exists (left_half sp q m). split; [| done]. unfold split_nodes. by rewrite lookup_insert_ne, lookup_insert_eq by done. }
  destruct (Hall i) as (b & Hb & Hlb); [set_solver |].
  destruct (split_nodes_off N1 q sp m i Hre Hq Hid) as [H1 H2].
  destruct (decide (R.*1 !! 0%nat = Some i)) as [Hj|Hj]; [exists (with_prev q b); by rewrite (H2 b) | exists b; by rewrite H1].
Qed.

Lemma split_nodes_linked N1 q sp m :
  relinked N N1 q (R.*1 !! 0%nat) -> N !! q = None -> n_PageID m = n_PageID n -> PrevLeaf m = PrevLeaf n -> NextLeaf m = NextLeaf n ->
  linked (split_nodes N1 q sp m) InvalidPageID (L.*1 ++ n_PageID n :: q :: R.*1).
Proof.
  intros Hre Hfr Hid Hp Hx. destruct leaves_NoDup as [Hnd Hall]. rewrite Forall_forall in Hall.
  assert (forall i, i ∈ L.*1 ++ n_PageID n :: R.*1 -> i <> q) as Hq.
  { intros i Hi ->. destruct (Hall q Hi) as (b & Hb & _). congruence. }
  rewrite fmap_app, fmap_cons in Hlk. cbn [fst] in Hlk. destruct (linked_middle _ _ _ _ _ Hlk) as (n' & Hn' & Hp' & Hx').
  rewrite Hn in Hn'. injection Hn' as <-. apply NoDup_app in Hnd as (Hd1 & Hd2 & [Hd3 Hd4]%NoDup_cons).
  assert (forall i, R.*1 !! 0%nat = Some i -> i ∈ R.*1) as Hin by (intros i; apply list_elem_of_lookup_2).
  assert (forall i, i ∈ L.*1 ++ R.*1 -> i <> q /\ i <> n_PageID n) as Hne.
  { intros i Hi. split; [apply Hq; set_solver |]. intros ->. apply elem_of_app in Hi as [Hi|Hi]; [apply (Hd2 _ Hi); set_solver | done]. }
  apply (linked_split N _ _ _ _ _ _ (left_half sp q m) (right_half sp q m)); try done.
  - unfold split_nodes. rewrite lookup_insert_ne, lookup_insert_eq; [done |]. intros Heq. by apply (Hq (n_PageID n)); [set_solver |].
  - cbn. by rewrite Hp.
  - apply lookup_insert_eq.
  - cbn. by rewrite Hx.
  - intros i Hi. destruct (Hne i ltac:(set_solver)) as [H1 H2]. apply split_nodes_off; [done..|].
    intros Hj%Hin. apply (Hd2 _ Hi). set_solver.
  - intros i Hi. pose proof (in_drop _ _ _ Hi) as Hi'. destruct (Hne i ltac:(set_solver)) as [H1 H2]. apply split_nodes_off; [done..|].
    intros Hj. destruct (R.*1) as [|j r]; [done |]. cbn in Hi, Hj. injection Hj as ->. apply NoDup_cons in Hd4 as [? _]. done.
  - intros i Hj. destruct (Hall i) as (b & Hb & _); [apply Hin in Hj; set_solver |]. exists b. split; [done |].
    destruct (Hne i) as [H1 H2]; [apply Hin in Hj; set_solver |]. by apply split_nodes_off.
Qed.

Lemma propagate_leaf t' N1 q sp m p :
  t_root t' = t_root t -> store (t_pages t') (split_nodes N1 q sp m) F -> relinked N N1 q (R.*1 !! 0%nat) -> N !! q = None ->
  n_PageID m = n_PageID n -> PrevLeaf m = PrevLeaf n -> NextLeaf m = NextLeaf n -> IsLeaf m = true ->
  leaf_ok (left_half sp q m) lo (Some p) -> leaf_ok (right_half sp q m) (Some p) hi -> over lo p -> below p hi -> small_key p ->
  insert_ok F (L ++ [(n_PageID n, entries (left_half sp q m)); (q, entries (right_half sp q m))] ++ R)
    (insertIntoParent disk_limit path (n_PageID n) p q t').
Proof.
  intros Hroot Hs' Hre Hfr Hid Hp Hx Hlm Hoka Hokb Hov Hbe Hsk. set (N3 := split_nodes N1 q sp m) in *.
  assert (n_PageID n <> q) as Hnq by (intros Heq; congruence). pose proof (hole_dom _ _ _ _ _ _ _ _ _ _ Hz) as Hdom.
  assert (forest (subtree N3 0) lo hi [p] [n_PageID n; q]
    ([(n_PageID n, entries (left_half sp q m))] ++ [(q, entries (right_half sp q m))]) ([n_PageID n] ++ [q])) as Hf.
  { apply forest_cons; try done; [| apply forest_one].
    - exists (left_half sp q m). unfold N3, split_nodes. by rewrite lookup_insert_ne, lookup_insert_eq by done.
    - exists (right_half sp q m). unfold N3, split_nodes. by rewrite lookup_insert_eq. }
  assert (hole N3 (t_root t') 0 lo hi (n_PageID n) path L R ids0) as Hz'.
  { rewrite Hroot. eapply hole_ext; [by apply split_nodes_agree | exact Hz]. }
  pose proof (insertIntoParent_run path t' N3 F 0 lo hi (n_PageID n) L R ids0 p q _ _ Hs' Hz' Hf) as Hins.
  assert (NoDup (([n_PageID n] ++ [q]) ++ ids0)) as Hnd.
  { apply NoDup_cons in Hd as [Hd1 Hd2]. pose proof (fresh_not_in N ids0 q Hfr Hdom). cbn. rewrite !NoDup_cons, elem_of_cons. tauto. }
  specialize (Hins Hnd). unfold inserted in Hins. unfold insert_ok. destruct (insertIntoParent _ _ _ _ _ t') as [[[]| | |] t2]; try done.
  destruct Hins as (N' & h & ids & H1 & H2 & H3 & H4). exists N', h, ids. split_and!; try done.
  rewrite !fmap_app. cbn [fmap list_fmap fst app]. apply (linked_ext N3).
  - intros i Hi. destruct (split_nodes_leaf N1 q sp m i Hre Hfr Hlm) as (k & Hk & Hlk'); [done |]. fold N3 in Hk. rewrite Hk. by apply H4.
  - by apply split_nodes_linked.
Qed.

Lemma split_leaf m :
  m = with_values (Values m) (with_keys (Keys m) n) -> leaf_ok m lo hi ->
  SerializedSize m <= PageSize - PageHeaderSize + 174 -> len (Keys m) <= BPlusLeafCapacity + 1 -> IsFull m || negb (FitsInPage m) = true ->
  exists lv, all_entries lv = all_entries L ++ entries m ++ all_entries R
    /\ insert_ok F lv (splitLeafAndPropagate disk_limit m path t).
Proof.
  intros Hm Hmok Hsz Hlen Hfull. destruct (st_nodes _ _ _ _ Hs _ _ Hn) as [Hw _].
  destruct leaves_NoDup as [Hnd Hall]. rewrite Forall_forall in Hall.
  pose proof Hlk as Hlk'. rewrite fmap_app, fmap_cons in Hlk'. cbn [fst] in Hlk'.
  destruct (linked_middle _ _ _ _ _ Hlk') as (n' & Hn' & _ & Hx). rewrite Hn in Hn'. injection Hn' as <-.
  assert (n_PageID m = n_PageID n /\ PrevLeaf m = PrevLeaf n /\ NextLeaf m = NextLeaf n) as (Hid & Hpm & Hxm) by by rewrite Hm.
  set (sp := ((length (Keys m) + 1) / 2)%nat).
  pose proof (full_leaf m (lf_leaf _ _ _ Hmok) (lf_values _ _ _ Hmok) (lf_small _ _ _ Hmok) Hfull) as H24.
  destruct (drop sp (Keys m)) as [|p ks] eqn:Ep.
  { exfalso. apply (f_equal length) in Ep. rewrite length_drop in Ep. change (length (@nil bytes)) with 0%nat in Ep. unfold len in H24.
    pose proof (Nat.div_mod_eq (length (Keys m) + 1) 2). pose proof (Nat.mod_upper_bound (length (Keys m) + 1) 2 ltac:(lia)). unfold sp in Ep. lia. }
  unfold splitLeafAndPropagate.
  destruct (splitLeaf_run t N F m (R.*1 !! 0%nat) p ks Hs) as [(q & pm & N1 & Hq & Hfr & Hs1 & Hre & Hrun)|(e & Hrun & Hfl)]; [congruence | | done | |].
  { intros j Hj. destruct (Hall j) as (b & Hb & _); [apply list_elem_of_lookup_2 in Hj; set_solver | by eexists]. }
  2:{ exists (L ++ [(0, entries m)] ++ R). rewrite !all_entries_app. split; [unfold all_entries at 2; cbn; by rewrite app_nil_r |].
      by erewrite bind_err by exact Hrun. }
  fold sp in Hrun. destruct (leaf_halves n m lo hi q p ks) as (Hwa & Hwb & Ea & Eb & Hsp); try done. fold sp in Hwa, Hwb, Ea, Eb, Hsp.
  destruct (leaf_halves_ok m lo hi q sp p ks Hmok ltac:(lia) Ep) as (Hoka & Hokb & Hov & Hbe & Hsk).
  erewrite bind_ok by exact Hrun. cbv beta iota zeta. clear Hrun.
  exists (L ++ [(n_PageID n, entries (left_half sp q m)); (q, entries (right_half sp q m))] ++ R). split.
  { rewrite !all_entries_app. unfold all_entries at 2. cbn [mbind list_bind snd]. by rewrite app_nil_r, Ea, Eb, take_drop. }
  pose proof Hre as (Hre1 & Hre2 & Hre3). assert (n_PageID n <> q) as Hnq by (intros Heq; congruence).
  assert (N1 !! n_PageID n = Some n) as Hn1.
  { rewrite Hre2; [done | done |]. intros Hj%list_elem_of_lookup_2. apply NoDup_app in Hnd as (_ & _ & [Hnd _]%NoDup_cons). done. }
  destruct (writeNode_run disk_limit Hlimit (with_pages t pm) _ F (left_half sp q m) Hs1 Hwa) as (pm2 & Hwr2 & Hs2).
  { change (n_PageID (left_half sp q m)) with (n_PageID m). rewrite Hid. by eexists. }
  destruct (writeNode_run disk_limit Hlimit (with_pages (with_pages t pm) pm2) _ F (right_half sp q m) Hs2 Hwb) as (pm3 & Hwr3 & Hs3).
  { change (n_PageID (right_half sp q m)) with q. change (n_PageID (left_half sp q m)) with (n_PageID m).
    rewrite Hid. by rewrite lookup_insert_ne. }
  erewrite bind_ok by exact Hwr2. erewrite bind_ok by exact Hwr3.
  change (n_PageID (right_half sp q m)) with q in *. change (n_PageID (left_half sp q m)) with (n_PageID m) in *. rewrite Hid in *.
  fold (split_nodes N1 q sp m) in Hs3.
  apply (propagate_leaf _ N1); try done. apply Hmok.
Qed.
End Leaf.
End Insert.
