(* ===== verification/BTreeRead.v ===== *)
(** * Descending the B+ tree, insertion, and exact search

    The tree as a finite map: its entries in the order of their keys. *)

From S2P Require Import Prelude GoBinary Page PageStore BTree BTreeOps BTreeCodec BTreeShape BTreeInsert.

(** ** Descending *)

(** The way down that [choose] takes keeps a property of the interval of keys. *)
Definition focuses (choose : BPlusNode -> outcome Z) (Q : option bytes -> option bytes -> Prop) : Prop :=
  forall P lo hi n lv ids, IsLeaf n = false -> forest P lo hi (Keys n) (Children n) lv ids -> bounds lo hi -> Q lo hi ->
  exists KL KR CL CR c lo' hi' lvL lvc lvR iL ic iR,
    Keys n = KL ++ KR /\ Children n = CL ++ c :: CR /\ lv = lvL ++ lvc ++ lvR /\ ids = iL ++ ic ++ iR
    /\ seg P lo lo' KL CL lvL iL /\ P lo' hi' c lvc ic /\ rest P hi' hi KR CR lvR iR
    /\ Q lo' hi' /\ bounds lo' hi' /\ (c <> InvalidPageID -> choose n = Ok c).

Lemma child_of_focuses x : focuses (child_of x) (fun lo hi => within lo hi x).
Proof.
  intros P lo hi n lv ids Hl Hf Hb Hw.
  destruct (forest_focus P lo hi _ _ lv ids x Hf Hb Hw) as
    (KL & KR & CL & CR & c & lo' & hi' & lvL & lvc & lvR & iL & ic & iR & Hk & Hc & Hlv & Hids & Hs & Hp & Hr & Hw' & Hb' & Hch & Hn).
  exists KL, KR, CL, CR, c, lo', hi', lvL, lvc, lvR, iL, ic, iR. split_and!; try done.
  intros Hne. unfold child_of, GetChildForKey. rewrite Hl.
  assert (is_Some (last (Children n))) as [r Hlast].
  { rewrite last_is_Some, Hc. by destruct CL. }
  rewrite Hlast, Hch. cbn [mbind outcome_bind]. destruct KR as [|k KR]; [| by rewrite decide_False].
  rewrite Hc, (Hn eq_refl), last_snoc in Hlast. injection Hlast as <-. by rewrite decide_False.
Qed.

Lemma first_child_focuses : focuses first_child (fun lo hi => lo = None).
Proof.
  intros P lo hi n lv ids Hl Hf Hb ->. unfold first_child. inversion Hf as [lo' hi' c lv' ids' Hp|lo' hi' k ks c cs lv' ids' lv2 ids2 Hp Ho Hbe Hk Hf']; subst.
  - exists [], [], [], [], c, None, hi, [], lv, [], [], ids, []. rewrite !app_nil_r. split_and!; try done; constructor.
  - exists [], (k :: ks), [], cs, c, None, (Some k), [], lv', lv2, [], ids', ids2. split_and!; try done; by constructor.
Qed.

Lemma forest_last P lo hi ks cs lv ids :
  forest P lo hi ks cs lv ids -> bounds lo hi ->
  exists CL c lo' lvL lvc iL ic, cs = CL ++ [c] /\ lv = lvL ++ lvc /\ ids = iL ++ ic
    /\ seg P lo lo' ks CL lvL iL /\ P lo' hi c lvc ic /\ bounds lo' hi.
Proof.
  induction 1 as [lo hi c lv ids Hp|lo hi k ks c cs lv ids lv' ids' Hp Ho Hbe Hk Hf IH]; intros Hb.
  - exists [], c, lo, [], lv, [], ids. split_and!; try done; constructor.
  - destruct (IH Hbe) as (CL & c' & lo' & lvL & lvc & iL & ic & -> & -> & -> & Hs & Hc & Hb').
    exists (c :: CL), c', lo', (lv ++ lvL), lvc, (ids ++ iL), ic. rewrite <- !(assoc_L (++)). split_and!; try done. by constructor.
Qed.

Lemma last_child_focuses : focuses last_child (fun lo hi => hi = None).
Proof.
  intros P lo hi n lv ids Hl Hf Hb ->. destruct (forest_last _ _ _ _ _ _ _ Hf Hb) as (CL & c & lo' & lvL & lvc & iL & ic & Hc & -> & -> & Hs & Hp & Hb').
  exists (Keys n), [], CL, [], c, lo', None, lvL, lvc, [], iL, ic, []. rewrite !app_nil_r. split_and!; try done; [constructor |].
  intros _. unfold last_child. by rewrite Hc, last_snoc.
Qed.

Lemma hole_leftmost N root h hi id path L R ids : hole N root h None hi id path L R ids -> L = [].
Proof.
  intros Hz. remember (None : option bytes) as lo eqn:E.
  induction Hz as [|h lo hi n path L R F KL KR CL c CR lo' hi' lvL lvR iL iR Hz IH Hn Hw Hl Hk Hc Hs Hr Hb]; [done |].
  subst lo'. assert (lo = None /\ lvL = []) as [-> ->].
  { clear -Hs. remember (None : option bytes) as lo'. induction Hs as [|lo lo' k ks c cs lv ids lv' ids' Hp Ho Hk Hs IH]; [done |].
    destruct (IH Heqlo'); congruence. }
  by rewrite IH.
Qed.

Lemma hole_rightmost N root h lo id path L R ids : hole N root h lo None id path L R ids -> R = [].
Proof.
  intros Hz. remember (None : option bytes) as hi eqn:E.
  induction Hz as [|h lo hi n path L R F KL KR CL c CR lo' hi' lvL lvR iL iR Hz IH Hn Hw Hl Hk Hc Hs Hr Hb]; [done |].
  subst hi'. inversion Hr; subst. by rewrite IH.
Qed.

Section Read.
Context (disk_limit : Z) (Hlimit : disk_limit < 2 ^ 62).
Abbreviation store := (store disk_limit).

(** The leaf that a descent reaches, and its surroundings. *)
Record reached (N : nodes) (root : Z) (Q : option bytes -> option bytes -> Prop) (lv : list leaf_of) (ids : list Z)
    (n : BPlusNode) (path : list BPlusNode) : Prop := mkReached {
  re_run : exists lo hi L R ids0, hole N root 0 lo hi (n_PageID n) path L R ids0 /\ N !! n_PageID n = Some n
    /\ leaf_ok n lo hi /\ Q lo hi /\ lv = L ++ (n_PageID n, entries n) :: R /\ n_PageID n :: ids0 ≡ₚ ids
}.

Lemma descend_run choose Q t N F h lo hi id path L R ids0 lv ids n f :
  focuses choose Q -> store (t_pages t) N F -> hole N (t_root t) h lo hi id path L R ids0 ->
  subtree N h lo hi id lv ids -> bounds lo hi -> Q lo hi -> N !! id = Some n -> (h <= f)%nat ->
  exists n' path', descend f choose n path t = (Ok (n', path'), t)
    /\ reached N (t_root t) Q (L ++ lv ++ R) (ids ++ ids0) n' path'.
Proof.
  intros Hch Hs. revert f lo hi id path L R ids0 lv ids n. induction h as [|h IH]; intros f lo hi id path L R ids0 lv ids n Hz Ht Hb Hq Hn Hf.
  - destruct Ht as (n' & Hn' & Hok & -> & ->). rewrite Hn in Hn'. injection Hn' as <-.
    destruct (st_nodes _ _ _ _ Hs _ _ Hn) as [_ <-]. exists n, path. split.
    + destruct f; cbn; by rewrite (lf_leaf _ _ _ Hok).
    + constructor. by exists lo, hi, L, R, ids0.
  - destruct Ht as (n' & ids' & Hn' & Hl & Hk & Hfo & ->). rewrite Hn in Hn'. injection Hn' as <-.
    destruct (st_nodes _ _ _ _ Hs _ _ Hn) as [Hw <-].
    destruct (Hch _ _ _ _ _ _ Hl Hfo Hb Hq) as
      (KL & KR & CL & CR & c & lo' & hi' & lvL & lvc & lvR & iL & ic & iR & HK & HC & -> & -> & Hsg & Hsub & Hr & Hq' & Hb' & Hrun).
    destruct f as [|f]; [lia |]. cbn [descend]. rewrite Hl.
    pose proof (subtree_dom _ _ _ _ _ _ _ Hsub) as [[nc Hnc] _].
    pose proof (store_page_number disk_limit _ _ _ c Hs ltac:(by eexists)) as Hpc.
    erewrite bind_ok by (unfold pure; rewrite Hrun by (unfold InvalidPageID, page_number in *; lia); reflexivity).
    erewrite bind_ok by (by eapply readNode_run).
    destruct (IH f lo' hi' c (n :: path) (L ++ lvL) (lvR ++ R) (n_PageID n :: iL ++ iR ++ ids0) lvc ic nc) as (n' & path' & Hd & [Hre]);
      [| done | done | done | done | lia |].
    { eapply hole_step; try done. by rewrite Hn. }
    exists n', path'. split; [done |]. constructor. destruct Hre as (lo2 & hi2 & L2 & R2 & i2 & H1 & H2 & H3 & H4 & H5 & H6).
    exists lo2, hi2, L2, R2, i2. split_and!; try done.
    + rewrite <- H5. by rewrite <- !(assoc_L (++)).
    + rewrite H6. cbn. rewrite <- !(assoc_L (++)), <- Permutation_middle. by rewrite Permutation_app_swap_app.
Qed.

Lemma fuel_enough pm N F root h lv ids :
  store pm N F -> subtree N h None None root lv ids -> NoDup ids -> (length ids <= Z.to_nat (totalPages pm))%nat.
Proof.
  intros Hs Ht Hd. apply subtree_dom in Ht as [_ Hdom].
  assert (ids ⊆ seqZ 0 (totalPages pm)) as Hsub.
  { intros i Hi. rewrite Forall_forall in Hdom. apply elem_of_seqZ. pose proof (store_id _ _ _ _ i Hs (Hdom i Hi)). lia. }
  rewrite <- (length_seqZ 0 (totalPages pm)). by apply submseteq_length, NoDup_submseteq.
Qed.

Lemma from_root_run choose Q t N F h lv ids :
  focuses choose Q -> store (t_pages t) N F -> subtree N h None None (t_root t) lv ids -> NoDup ids -> Q None None ->
  exists n path, from_root choose t = (Ok (n, path), t) /\ reached N (t_root t) Q lv ids n path.
Proof.
  intros Hch Hs Ht Hd Hq. pose proof (fuel_enough _ _ _ _ _ _ _ Hs Ht Hd) as Hf. pose proof (subtree_size _ _ _ _ _ _ _ Ht) as [Hh _].
  pose proof (subtree_dom _ _ _ _ _ _ _ Ht) as [[n Hn] _].
  pose proof (store_page_number disk_limit _ _ _ _ Hs ltac:(by eexists)) as Hp.
  unfold from_root. erewrite bind_ok by reflexivity. rewrite decide_False by (unfold InvalidPageID, page_number in *; lia).
  erewrite bind_ok by (by eapply readNode_run). erewrite bind_ok by reflexivity.
  destruct (descend_run choose Q t N F h None None (t_root t) [] [] [] [] lv ids n (Z.to_nat (totalPages (t_pages t)))) as (n' & path & Hrun & Hre);
    try done; [constructor | lia |].
  rewrite !app_nil_r in Hre. by exists n', path.
Qed.

(** ** Insertion *)

Lemma insert_into_leaf_run t N F lo hi n path L R ids0 x r i :
  store (t_pages t) N F -> hole N (t_root t) 0 lo hi (n_PageID n) path L R ids0 -> NoDup (n_PageID n :: ids0) ->
  N !! n_PageID n = Some n -> leaf_ok n lo hi -> linked N InvalidPageID (L ++ (n_PageID n, entries n) :: R).*1 ->
  within lo hi x -> x ∉ Keys n -> small_entry (x, r) -> position (Keys n) x i ->
  exists lv, all_entries lv = all_entries L ++ insert_at i (x, r) (entries n) ++ all_entries R
    /\ insert_ok disk_limit F lv (insert_into_leaf disk_limit n path i x r t).
Proof.
  intros Hs Hz Hd Hn Hok Hlk Hx Hni Hse Hpos. destruct (leaf_insert n lo hi x r i Hok Hx Hni Hse Hpos) as (Hins & Hmok & He).
  set (m := with_values _ (with_keys _ n)) in *. unfold insert_into_leaf. erewrite bind_ok by (unfold pure; rewrite Hins; reflexivity).
  destruct (st_nodes _ _ _ _ Hs _ _ Hn) as [Hw _].
  assert (len (Keys m) = len (Keys n) + 1) as Hlen.
  { unfold m, insert_at. cbn [Keys with_values with_keys]. destruct Hpos as (Hi & _).
    unfold len. rewrite length_app. cbn [length]. rewrite length_take, length_drop. lia. }
  assert (SerializedSize m <= PageSize - PageHeaderSize + 174 /\ len (Keys m) <= BPlusLeafCapacity + 1) as [Hsz Hcap].
  { pose proof (wfn_size _ Hw) as Hsz. pose proof (wfn_shape _ Hw) as Hsh. rewrite (lf_leaf _ _ _ Hok) in Hsh.
    split; [| destruct Hsh as (_ & _ & ? & _); lia].
    rewrite leaf_size in * by apply Hok || apply Hmok. rewrite He. unfold insert_at.
    rewrite fmap_app, sumZ_app, fmap_cons, sumZ_cons. rewrite (sumZ_split _ i) in Hsz. pose proof (small_entry_cost _ Hse). lia. }
  destruct (IsFull m || negb (FitsInPage m)) eqn:Efull.
  - rewrite <- He. by eapply split_leaf.
  - exists (L ++ (n_PageID n, entries m) :: R). split.
    { rewrite all_entries_app. unfold all_entries at 2. cbn [mbind list_bind snd]. by rewrite He. }
    eapply write_leaf; try done.
    apply orb_false_iff in Efull as [Ef1 Ef2]. apply negb_false_iff, bool_decide_eq_true in Ef2.
    unfold IsFull in Ef1. rewrite (lf_leaf _ _ _ Hmok) in Ef1. apply bool_decide_eq_false in Ef1.
    rewrite leaf_size in Ef2 by apply Hmok. unfold PageSize, PageHeaderSize, BPlusLeafCapacity in *.
    apply wf_leaf; [done | apply Hok | apply Hmok | apply Hmok | |].
    + change (len (Keys m) <= 256). lia.
    + change (sumZ (entry_cost <$> entries m) <= 4059). lia.
Qed.

(** ** The tree as a map *)

Definition tree (t : BPlusTree) (F : gmap Z Page) (es : list entry) : Prop :=
  exists lv, tree_at disk_limit (t_pages t) (t_root t) F lv /\ all_entries lv = es.

Lemma tree_sorted t F es : tree t F es -> sorted es.*1 /\ Forall small_entry es.
Proof.
  intros (lv & (N & h & ids & _ & Ht & _ & _) & <-). apply subtree_keys in Ht as (H1 & _ & H3). done.
Qed.

(** What surrounds the leaf of a key: smaller entries on the left, larger ones on the right. *)
Lemma leaf_sides N root path lo hi n L R ids0 x :
  hole N root 0 lo hi (n_PageID n) path L R ids0 -> within lo hi x ->
  Forall (fun k => klt k x) (all_keys L) /\ Forall (klt x) (all_keys R).
Proof.
  intros Hz [Hlo Hhi]. destruct (hole_sides _ _ _ _ _ _ _ _ _ _ Hz) as [H1 H2]. split.
  - eapply Forall_impl; [exact H1 |]. intros k Hk. destruct lo as [l|]; [| done]. cbn in *. by eapply klt_le_trans.
  - eapply Forall_impl; [exact H2 |]. intros k Hk. destruct hi as [h|]; [| done]. cbn in *. by eapply klt_le_trans.
Qed.

Lemma all_keys_middle L l R : all_keys (L ++ l :: R) = all_keys L ++ l.2.*1 ++ all_keys R.
Proof. rewrite all_keys_app. f_equal. unfold all_keys, all_entries. cbn. by rewrite fmap_app. Qed.

Lemma all_entries_middle L l R : all_entries (L ++ l :: R) = all_entries L ++ l.2 ++ all_entries R.
Proof. by rewrite all_entries_app. Qed.

(** Where a key is, or would be. *)
Lemma key_in_leaf n L R x :
  length (Values n) = length (Keys n) -> Forall (fun k => klt k x) (all_keys L) -> Forall (klt x) (all_keys R) ->
  x ∈ all_keys (L ++ (n_PageID n, entries n) :: R) <-> x ∈ Keys n.
Proof.
  intros Hv HL HR. rewrite all_keys_middle, !elem_of_app. cbn [snd]. rewrite entries_keys by done. rewrite Forall_forall in HL, HR.
  split; [| tauto]. intros [H|[H|H]]; [| done |]; exfalso; [by apply (klt_irrefl x), HL | by apply (klt_irrefl x), HR].
Qed.

(** The map with a new entry, or no space for it. *)
Definition grows (F : gmap Z Page) (es : list entry) (x : bytes) (r : EntryRef) (run : outcome unit * BPlusTree) : Prop :=
  match run.1 with
  | Ok _ => exists l k, es = l ++ k /\ tree run.2 F (l ++ (x, r) :: k)
  | Err _ => full disk_limit (t_pages run.2) 8
  | _ => False
  end.

Lemma insert_found t F es x :
  tree t F es ->
  exists n path i, findLeafWithPath x t = (Ok (n, path), t) /\ FindKeyIndex n x = Ok (i, bool_decide (x ∈ es.*1))
    /\ forall r, small_entry (x, r) -> x ∉ es.*1 -> grows F es x r (insert_into_leaf disk_limit n path i x r t).
Proof.
  intros (lv & (N & h & ids & Hs & Ht & Hd & Hlk) & <-).
  destruct (from_root_run _ _ _ _ _ _ _ _ (child_of_focuses x) Hs Ht Hd ltac:(done)) as (n & path & Hrun & [Hre]).
  destruct Hre as (lo & hi & L & R & ids0 & Hz & Hn & Hok & Hw & -> & Hperm).
  destruct (leaf_sides _ _ _ _ _ _ _ _ _ x Hz Hw) as [HL HR].
  destruct (FindKeyIndex_spec n x (lf_sorted _ _ _ Hok)) as (i & Hi & Hpos).
  pose proof (key_in_leaf n L R x (lf_values _ _ _ Hok) HL HR) as Hin.
  exists n, path, i. split_and!; [done | |].
  - rewrite Hi. do 2 f_equal. apply bool_decide_ext. split; apply Hin.
  - intros r Hse Hni. rewrite <- (entries_keys n) in Hpos by apply Hok.
    destruct (insert_into_leaf_run t N F lo hi n path L R ids0 x r i) as (lv & Hlv & Hins); try done.
    { by rewrite Hperm. }
    { intros Hk. by apply Hni, Hin. }
    { by rewrite entries_keys in Hpos by apply Hok. }
    unfold grows. unfold insert_ok in Hins. destruct (insert_into_leaf _ _ _ _ _ _ t) as [[[]| | |] t']; try done.
    exists (all_entries L ++ take i (entries n)), (drop i (entries n) ++ all_entries R). split.
    + rewrite all_entries_middle. cbn [snd]. rewrite <- !(assoc_L (++)). by rewrite (assoc_L (++) (take i _)), take_drop.
    + exists lv. split; [done |]. rewrite Hlv. unfold insert_at. by rewrite <- !(assoc_L (++)).
Qed.

Lemma small_entry_key x r : small_entry (x, r) -> x <> [].
Proof. intros [[H _] _] ->. cbn in H. rewrite len_nil in H. lia. Qed.

Lemma Insert_run t F es x r :
  tree t F es -> small_entry (x, r) -> x ∉ es.*1 -> grows F es x r (Tree_Insert disk_limit x r t).
Proof.
  intros Ht Hse Hni. destruct (insert_found t F es x Ht) as (n & path & i & Hf & Hi & Hins). unfold Tree_Insert.
  rewrite (decide_False (P := x = [])) by by eapply small_entry_key.
  erewrite bind_ok by exact Hf. erewrite bind_ok by (unfold pure; cbn [fst]; rewrite Hi; reflexivity). by apply Hins.
Qed.

Lemma InsertUnique_run t F es x r :
  tree t F es -> small_entry (x, r) ->
  if decide (x ∈ es.*1) then InsertUnique disk_limit x r t = (Err ErrKeyExists, t)
  else grows F es x r (InsertUnique disk_limit x r t).
Proof.
  intros Ht Hse. destruct (insert_found t F es x Ht) as (n & path & i & Hf & Hi & Hins). unfold InsertUnique.
  rewrite (decide_False (P := x = [])) by by eapply small_entry_key.
  erewrite bind_ok by exact Hf. erewrite bind_ok by (unfold pure; cbn [fst]; rewrite Hi; reflexivity). cbn [fst snd].
  case_decide; [by rewrite bool_decide_true | rewrite bool_decide_false by done; by apply Hins].
Qed.
End Read.
