(* ===== verification/BTreeScan.v ===== *)
(** * Reading the B+ tree: exact search, ranges, and iterators

    A reader stands on a leaf, with the leaves [L] behind it and [R] ahead; following the
    links it meets the entries of the tree in the order of their keys. *)

From S2P Require Import Prelude GoBinary Page PageStore BTree BTreeOps BTreeIter BTreeCodec BTreeShape BTreeInsert BTreeRead.

(** ** Prefixes of sorted lists *)

(** The entries before the first one at which the reading stops. *)
Fixpoint before (stop : bytes -> bool) (es : list entry) : list entry :=
  match es with
  | [] => []
  | e :: es => if stop e.1 then [] else e :: before stop es
  end.

Lemma before_app stop l k :
  before stop (l ++ k) = if decide (before stop l = l) then l ++ before stop k else before stop l.
Proof.
  induction l as [|e l IH]; cbn; [by rewrite decide_True |]. destruct (stop e.1); [by rewrite decide_False |].
  rewrite IH. case_decide as H; [by rewrite decide_True by by rewrite H | rewrite decide_False; [done | congruence]].
Qed.

Lemma until_before stop es : until stop es = ((before stop es).*2, bool_decide (before stop es = es)).
Proof.
  induction es as [|[k v] es IH]; cbn; [done |]. destruct (stop k) eqn:E; [by rewrite bool_decide_false |].
  rewrite IH. cbn. f_equal. apply bool_decide_ext. split; congruence.
Qed.

Lemma filter_ext_in {A} (P Q : A -> Prop) `{!forall x, Decision (P x), !forall x, Decision (Q x)} (l : list A) :
  (forall x, x ∈ l -> P x <-> Q x) -> filter P l = filter Q l.
Proof.
  induction l as [|x l IH]; intros Hpq; [done |]. specialize (IH ltac:(intros y Hy; apply Hpq; set_solver)).
  pose proof (Hpq x ltac:(set_solver)). destruct (decide (P x)).
  - rewrite !filter_cons_True by tauto. by rewrite IH.
  - rewrite !filter_cons_False by tauto. done.
Qed.

Lemma filter_none {A} (P : A -> Prop) `{!forall x, Decision (P x)} (l : list A) : (forall x, x ∈ l -> ~ P x) -> filter P l = [].
Proof. intros Hn. rewrite (filter_ext_in P (fun _ => False)) by (intros x Hx; specialize (Hn x Hx); tauto). clear Hn. induction l as [|x l IH]; [done |]. by rewrite filter_cons_False by tauto. Qed.

Lemma filter_all {A} (P : A -> Prop) `{!forall x, Decision (P x)} (l : list A) : (forall x, x ∈ l -> P x) -> filter P l = l.
Proof.
  induction l as [|x l IH]; intros Hp; [done |]. rewrite filter_cons_True by (apply Hp; set_solver).
  rewrite IH; [done |]. intros y Hy. apply Hp. set_solver.
Qed.

(** Stopping at a key that all later keys share is filtering. *)
Lemma before_filter stop (es : list entry) :
  sorted es.*1 -> (forall k k', k ∈ es.*1 -> k' ∈ es.*1 -> klt k k' -> stop k = true -> stop k' = true) ->
  before stop es = filter (fun e => stop e.1 = false) es.
Proof.
  intros Hs Hm. induction es as [|e es IH]; [done |]. cbn in Hs. apply StronglySorted_inv in Hs as [Hs Hgt].
  cbn [before]. destruct (stop e.1) eqn:E.
  - rewrite filter_cons_False by congruence. symmetry. apply filter_none. intros e' He'.
    rewrite (Hm e.1 e'.1); [done | set_solver | | | done].
    + cbn. apply elem_of_cons. right. by apply list_elem_of_fmap_2.
    + rewrite Forall_forall in Hgt. apply Hgt. by apply list_elem_of_fmap_2.
  - rewrite filter_cons_True by done. f_equal. apply IH; [done |]. intros k k' Hk Hk'. apply Hm; set_solver.
Qed.

Section Scan.
Context (disk_limit : Z) (Hlimit : disk_limit < 2 ^ 62).
Context (t : BPlusTree) (F : gmap Z Page) (N : nodes) (h : nat) (ids : list Z) (lv : list leaf_of).
Context (Hs : store disk_limit (t_pages t) N F) (Ht : subtree N h None None (t_root t) lv ids) (Hd : NoDup ids).
Context (Hlk : linked N InvalidPageID lv.*1).

Record on_leaf (L : list leaf_of) (n : BPlusNode) (R : list leaf_of) : Prop := mkOnLeaf {
  ol_leaves : lv = L ++ (n_PageID n, entries n) :: R;
  ol_node : N !! n_PageID n = Some n;
  ol_values : length (Values n) = length (Keys n);
  ol_sorted : sorted (Keys n)
}.

Lemma leaf_at L j es R :
  lv = L ++ (j, es) :: R -> j <> InvalidPageID /\ exists n, readNode j t = (Ok n, t) /\ n_PageID n = j /\ entries n = es /\ on_leaf L n R.
Proof.
  intros E. pose proof (subtree_leaves _ _ _ _ _ _ _ Ht) as [_ Hall]. rewrite E, Forall_app, Forall_cons in Hall.
  destruct Hall as (_ & (n & lo & hi & Hn & Hok & He) & _). cbn in Hn, He. destruct (st_nodes _ _ _ _ Hs _ _ Hn) as [Hw Hid].
  split; [rewrite <- Hid; pose proof (wfn_id _ Hw); unfold InvalidPageID, page_number in *; lia |].
  exists n. split_and!; [by eapply readNode_run | done | done |]. constructor; [by rewrite Hid, He | by rewrite Hid | apply Hok | apply Hok].
Qed.

Lemma next_leaf L n R :
  on_leaf L n R ->
  match R with
  | [] => NextLeaf n = InvalidPageID
  | l :: R => NextLeaf n <> InvalidPageID
      /\ exists m, readNode (NextLeaf n) t = (Ok m, t) /\ entries m = l.2 /\ on_leaf (L ++ [(n_PageID n, entries n)]) m R
  end.
Proof.
  intros [El Hn Hv Hsort]. pose proof Hlk as Hl. rewrite El, fmap_app, fmap_cons in Hl.
  destruct (linked_middle _ _ _ _ _ Hl) as (n' & Hn' & _ & Hx). cbn [fst] in Hn'. rewrite Hn in Hn'. injection Hn' as <-.
  destruct R as [|[j es] R]; [done |]. cbn in Hx. rewrite Hx.
  destruct (leaf_at (L ++ [(n_PageID n, entries n)]) j es R) as (Hj & m & Hm & _ & He & Hol); [by rewrite <- (assoc_L (++)) |].
  split; [done |]. by exists m.
Qed.

Lemma prev_leaf L n R :
  on_leaf L n R ->
  match last L with
  | None => PrevLeaf n = InvalidPageID
  | Some l => PrevLeaf n <> InvalidPageID
      /\ exists m, readNode (PrevLeaf n) t = (Ok m, t) /\ entries m = l.2 /\ length (Values m) = length (Keys m)
  end.
Proof.
  intros [El Hn Hv Hsort]. pose proof Hlk as Hl. rewrite El, fmap_app, fmap_cons in Hl.
  destruct (linked_middle _ _ _ _ _ Hl) as (n' & Hn' & Hp & _). cbn [fst] in Hn'. rewrite Hn in Hn'. injection Hn' as <-.
  rewrite fmap_last in Hp. destruct (last L) as [[j es]|] eqn:EL; cbn in Hp; [| done]. rewrite Hp.
  apply last_Some in EL as [L' ->]. rewrite <- (assoc_L (++)) in El. cbn in El.
  destruct (leaf_at L' j es _ El) as (Hj & m & Hm & _ & He & [_ _ Hvm _]). split; [done |]. by exists m.
Qed.

(** There are at most as many leaves ahead as pages in the file. *)
Lemma leaves_fuel L n R : on_leaf L n R -> (length L + length R < Z.to_nat (totalPages (t_pages t)))%nat.
Proof.
  intros [El _ _ _]. pose proof (fuel_enough disk_limit _ _ _ _ _ _ _ Hs Ht Hd). pose proof (subtree_size _ _ _ _ _ _ _ Ht) as [_ Hl].
  rewrite El, length_app in Hl. cbn in Hl. lia.
Qed.

(** ** Ranges *)

Definition ahead (n : BPlusNode) (pos : nat) (R : list leaf_of) : list entry := drop pos (entries n) ++ all_entries R.

Lemma range_loop_run f endKey L n R pos refs :
  on_leaf L n R -> (length R <= f)%nat ->
  range_loop f endKey n pos refs t = (Ok (refs ++ (before (past endKey) (ahead n pos R)).*2), t).
Proof.
  revert f L n pos refs. induction R as [|l R IH]; intros f L n pos refs Hol Hf; unfold ahead;
    pose proof (next_leaf _ _ _ Hol) as Hx.
  - rewrite app_nil_r. destruct f; cbn [range_loop]; rewrite until_before, decide_True by done;
      by destruct (negb _).
  - destruct f as [|f]; [cbn in Hf; lia |]. cbn [range_loop]. rewrite until_before, before_app.
    destruct (decide (before (past endKey) (drop pos (entries n)) = drop pos (entries n))) as [Hb|Hb];
      [rewrite bool_decide_true by done | by rewrite bool_decide_false by done].
    destruct Hx as (Hne & m & Hm & Hem & Holm). rewrite decide_False by done. cbn [negb]. erewrite bind_ok by exact Hm.
    rewrite (IH f _ m 0%nat _ Holm) by (cbn in Hf; lia). unfold ahead. rewrite drop_0, Hem, Hb, fmap_app, (assoc_L (++)). done.
Qed.

(** ** Iterators *)

Lemma length_entries n : length (Values n) = length (Keys n) -> length (entries n) = length (Keys n).
Proof. intros H. unfold entries. rewrite length_zip. lia. Qed.

Lemma it_advance_run f L n R pos :
  on_leaf L n R -> (length R <= f)%nat ->
  exists L' n' R' pos', it_advance f n pos t = (Ok (n', pos', bool_decide (ahead n pos R <> [])), t)
    /\ on_leaf L' n' R' /\ ahead n' pos' R' = ahead n pos R /\ (ahead n pos R <> [] -> (pos' < length (Keys n'))%nat).
Proof.
  revert f L n pos. induction R as [|l R IH]; intros f L n pos Hol Hf; pose proof (next_leaf _ _ _ Hol) as Hx;
    pose proof (length_entries n (ol_values _ _ _ Hol)) as Hlen.
  - assert (it_advance f n pos t = (Ok (n, pos, bool_decide (ahead n pos [] <> [])), t)
      /\ (ahead n pos [] <> [] -> (pos < length (Keys n))%nat)) as [Hrun Hlt].
    { unfold ahead. rewrite app_nil_r. destruct (decide (length (Keys n) <= pos)%nat) as [Hp|Hp].
      - rewrite drop_ge by lia. rewrite bool_decide_false by tauto.
        split; [| done]. destruct f; cbn [it_advance]; by rewrite decide_True, decide_True by done.
      - assert (drop pos (entries n) <> []) as Hne by (intros H%(f_equal length); rewrite length_drop in H; cbn in H; lia).
        rewrite bool_decide_true by done. split; [| lia]. destruct f; cbn [it_advance]; by rewrite decide_False by done. }
    by exists L, n, [], pos.
  - destruct (decide (length (Keys n) <= pos)%nat) as [Hp|Hp].
    + destruct f as [|f]; [cbn in Hf; lia |]. destruct Hx as (Hne & m & Hm & Hem & Holm).
      destruct (IH f _ m 0%nat Holm ltac:(cbn in Hf; lia)) as (L' & n' & R' & pos' & Hrun & Hol' & Ha & Hlt).
      assert (ahead n pos (l :: R) = ahead m 0 R) as Heq by (unfold ahead; rewrite drop_ge, drop_0, Hem by lia; done).
      rewrite Heq. exists L', n', R', pos'. split_and!; try done.
      cbn [it_advance]. rewrite decide_True, decide_False by done. erewrite bind_ok by (unfold try; rewrite Hm; reflexivity). done.
    + exists L, n, (l :: R), pos. assert (ahead n pos (l :: R) <> []) as Hne.
      { unfold ahead. intros [H%(f_equal length) _]%app_nil. rewrite length_drop in H. cbn in H. lia. }
      rewrite bool_decide_true by done. split_and!; try done; [| lia]. destruct f; cbn [it_advance]; by rewrite decide_False by done.
Qed.

Definition iter_at (it : BPlusIterator) (rem : list entry) : Prop :=
  it_closed it = false /\ exists L n R, it_current it = Some n /\ on_leaf L n R /\ rem = ahead n (it_position it) R.

Lemma ahead_lookup L n R pos e rem :
  on_leaf L n R -> ahead n pos R = e :: rem -> (pos < length (Keys n))%nat ->
  Keys n !! pos = Some e.1 /\ Values n !! pos = Some e.2 /\ ahead n (S pos) R = rem.
Proof.
  intros [_ _ Hv _] Ha Hp. unfold ahead in *. assert (is_Some (entries n !! pos)) as [e' He'].
  { apply lookup_lt_is_Some. by rewrite length_entries. }
  rewrite (drop_S _ _ _ He') in Ha. injection Ha as -> <-. unfold entries in He'. rewrite lookup_zip_with in He'.
  destruct (Keys n !! pos) as [k|]; [| done]. destruct (Values n !! pos) as [v|]; [| done]. cbn in He'. by injection He' as <-.
Qed.

Lemma Iter_Next_run it rem :
  iter_at it rem ->
  exists it', Iter_Next it t = (Ok (hd_error (before (it_stops it) rem), it'), t)
    /\ (forall e rem', rem = e :: rem' -> it_stops it e.1 = false -> iter_at it' rem' /\ it_stops it' = it_stops it).
Proof.
  intros (Hc & L & n & R & Hn & Hol & ->). unfold Iter_Next. rewrite Hn, Hc. erewrite bind_ok by reflexivity.
  pose proof (leaves_fuel _ _ _ Hol) as Hfu.
  destruct (it_advance_run (Z.to_nat (totalPages (t_pages t))) L n R (it_position it) Hol ltac:(lia)) as (L' & n' & R' & pos' & Hrun & Hol' & Ha & Hlt).
  erewrite bind_ok by exact Hrun. cbv beta iota. destruct (ahead n (it_position it) R) as [|e rem] eqn:Er.
  { rewrite bool_decide_false by tauto. eexists. split; [reflexivity | done]. }
  rewrite bool_decide_true by done. destruct (ahead_lookup _ _ _ _ _ _ Hol' Ha (Hlt ltac:(done))) as (Hk & Hv & Ha').
  rewrite Hk. cbn [before]. destruct (it_stops it e.1) eqn:Es.
  - eexists. split; [reflexivity |]. intros e' rem' [= <- <-]. congruence.
  - rewrite Hv. eexists. split; [by destruct e |]. intros e' rem' [= <- <-] _. split; [| done].
    split; [done |]. by exists L', n', R'.
Qed.

Lemma it_loop_run f it rem acc :
  iter_at it rem -> (length rem <= f)%nat ->
  exists it', it_loop f it acc t = (Ok (acc ++ before (it_stops it) rem, it'), t).
Proof.
  revert it rem acc. induction f as [|f IH]; intros it rem acc Hit Hf; destruct (Iter_Next_run it rem Hit) as (it' & Hrun & Hnext);
    cbn [it_loop]; erewrite bind_ok by exact Hrun; destruct rem as [|e rem]; cbn [before hd_error] in *.
  - exists it'. by rewrite app_nil_r.
  - cbn in Hf. lia.
  - exists it'. by rewrite app_nil_r.
  - destruct (it_stops it e.1) eqn:Es; [exists it'; by rewrite app_nil_r |].
    destruct (Hnext e rem eq_refl Es) as [Hit' Hst]. cbn [hd_error]. destruct (IH it' rem (acc ++ [e]) Hit') as (it2 & Hl); [cbn in Hf; lia |].
    exists it2. rewrite Hst in Hl. rewrite Hl. by rewrite <- (assoc_L (++)).
Qed.

(** ** Where reading starts *)

Lemma at_start : exists n R, findLeftmostLeaf t = (Ok n, t) /\ on_leaf [] n R /\ all_entries lv = ahead n 0 R.
Proof.
  destruct (from_root_run disk_limit Hlimit _ _ _ _ _ _ _ _ first_child_focuses Hs Ht Hd eq_refl) as (n & path & Hrun & [Hre]).
  destruct Hre as (lo & hi & L & R & ids0 & Hz & Hn & Hok & -> & E & _). apply hole_leftmost in Hz. subst L.
  exists n, R. unfold findLeftmostLeaf. erewrite bind_ok by exact Hrun. split_and!; [done | | by rewrite E].
  constructor; [done | done | apply Hok | apply Hok].
Qed.

Record at_key (x : bytes) (n : BPlusNode) (i : nat) (L R : list leaf_of) : Prop := mkAtKey {
  ak_leaf : on_leaf L n R;
  ak_find : findLeaf x t = (Ok n, t);
  ak_index : FindKeyIndex n x = Ok (i, bool_decide (x ∈ all_keys lv));
  ak_left : Forall (fun k => klt k x) (all_keys L ++ take i (Keys n));
  ak_right : Forall (fun k => ~ klt k x) (ahead n i R).*1;
  ak_far : Forall (klt x) (all_keys R)
}.

Lemma find_key_leaf x : exists n i L R, at_key x n i L R.
Proof.
  destruct (from_root_run disk_limit Hlimit _ _ _ _ _ _ _ _ (child_of_focuses x) Hs Ht Hd ltac:(done)) as (n & path & Hrun & [Hre]).
  destruct Hre as (lo & hi & L & R & ids0 & Hz & Hn & Hok & Hw & E & _).
  destruct (leaf_sides _ _ _ _ _ _ _ _ _ x Hz Hw) as [HL HR].
  destruct (FindKeyIndex_spec n x (lf_sorted _ _ _ Hok)) as (i & Hi & Hpos). exists n, i, L, R. destruct Hpos as (Hle & H1 & H2). constructor.
  - constructor; [done | done | apply Hok | apply Hok].
  - unfold findLeaf. by erewrite bind_ok by exact Hrun.
  - rewrite Hi. do 2 f_equal. apply bool_decide_ext. rewrite E. symmetry. apply key_in_leaf; [apply Hok | done | done].
  - by apply Forall_app.
  - unfold ahead. rewrite fmap_app, fmap_drop, entries_keys, Forall_app by apply Hok. split; [done |].
    eapply Forall_impl; [exact HR |]. intros k Hk. apply klt_not. by right.
  - done.
Qed.

(** The entries from a key on. *)
Lemma at_key_split x n i L R :
  at_key x n i L R ->
  exists pre, all_entries lv = pre ++ ahead n i R /\ Forall (fun k => klt k x) pre.*1.
Proof.
  intros [[El _ Hv _] _ _ Hl _ _]. exists (all_entries L ++ take i (entries n)). split.
  - rewrite El, all_entries_middle. unfold ahead. cbn [snd]. rewrite <- !(assoc_L (++)). by rewrite (assoc_L (++) (take i _)), take_drop.
  - rewrite fmap_app, fmap_take, entries_keys by done. done.
Qed.

Lemma entries_sorted : sorted (all_entries lv).*1.
Proof. apply subtree_keys in Ht as (H & _). done. Qed.

(** Reading on from a key until [stop] is a filter of the whole map. *)
Lemma before_from x n i L R stop (P : entry -> Prop) `{!forall e, Decision (P e)} :
  at_key x n i L R ->
  (forall k k', ~ klt k x -> klt k k' -> stop k = true -> stop k' = true) ->
  (forall e, P e <-> ~ klt e.1 x /\ stop e.1 = false) ->
  before stop (ahead n i R) = filter P (all_entries lv).
Proof.
  intros Hk Hm HP. destruct (at_key_split _ _ _ _ _ Hk) as (pre & E & Hpre). pose proof entries_sorted as Hsort.
  pose proof (ak_right _ _ _ _ _ Hk) as Hge. rewrite E, fmap_app in Hsort. apply sorted_app_inv in Hsort as (_ & Hsort & _).
  rewrite Forall_forall in Hge, Hpre. rewrite E, filter_app, (filter_none P pre); cbn [app].
  - rewrite before_filter; [| done |].
    + apply filter_ext_in. intros e He. rewrite HP. split; [| tauto]. split; [| done]. apply Hge. by apply list_elem_of_fmap_2.
    + intros k k' Hin _. apply Hm. by apply Hge.
  - intros e He. rewrite HP. intros [Hn _]. apply Hn, Hpre. by apply list_elem_of_fmap_2.
Qed.

Lemma before_all stop (P : entry -> Prop) `{!forall e, Decision (P e)} :
  (forall k k', klt k k' -> stop k = true -> stop k' = true) -> (forall e, P e <-> stop e.1 = false) ->
  before stop (all_entries lv) = filter P (all_entries lv).
Proof.
  intros Hm HP. rewrite before_filter; [| apply entries_sorted | intros k k' _ _; apply Hm].
  apply filter_ext_in. intros e _. by rewrite HP.
Qed.

Lemma past_mono b k k' : klt k k' -> past b k = true -> past b k' = true.
Proof.
  destruct b as [b|]; [| done]. cbn. rewrite !bool_decide_eq_true, !compareKeys_pos. intros H1 H2. by eapply klt_trans.
Qed.

Lemma root_valid : t_root t <> InvalidPageID.
Proof.
  pose proof (subtree_dom _ _ _ _ _ _ _ Ht) as [Hr _]. pose proof (store_page_number disk_limit _ _ _ _ Hs Hr).
  unfold InvalidPageID, page_number in *. lia.
Qed.

Definition in_range (a b : option bytes) (e : entry) : Prop :=
  match a with Some a => ~ klt e.1 a | None => True end /\ past b e.1 = false.

#[export] Instance in_range_dec a b e : Decision (in_range a b e).
Proof. unfold in_range. destruct a; apply _. Defined.

Lemma SearchRange_run a b : SearchRange a b t = (Ok (filter (in_range a b) (all_entries lv)).*2, t).
Proof.
  unfold SearchRange. erewrite bind_ok by reflexivity. rewrite decide_False by apply root_valid. erewrite bind_ok by reflexivity.
  destruct a as [a|].
  - destruct (find_key_leaf a) as (n & i & L & R & Hk). pose proof (leaves_fuel _ _ _ (ak_leaf _ _ _ _ _ Hk)).
    erewrite bind_ok by exact (ak_find _ _ _ _ _ Hk). erewrite bind_ok by (unfold pure; rewrite (ak_index _ _ _ _ _ Hk); reflexivity).
    cbn [fst]. rewrite (range_loop_run _ b L n R) by (apply Hk || lia). cbn [app].
    erewrite before_from; [done | exact Hk | intros k k' _; apply past_mono | done].
  - destruct at_start as (n & R & Hf & Hol & E). pose proof (leaves_fuel _ _ _ Hol).
    erewrite bind_ok by exact Hf. rewrite (range_loop_run _ b [] n R) by (done || lia). cbn [app]. rewrite <- E.
    erewrite before_all; [done | apply past_mono |]. unfold in_range. tauto.
Qed.

(** ** Exact search *)

Lemma search_back_run f x L n R : on_leaf L n R -> Forall (fun k => klt k x) (all_keys L) -> search_back f x n t = (Ok n, t).
Proof.
  intros Hol HL. pose proof (prev_leaf _ _ _ Hol) as Hp. destruct (last L) as [l|] eqn:El.
  - destruct Hp as (Hne & m & Hm & Hem & Hvm).
    assert (ends_with m x = false) as Hew.
    { unfold ends_with. destruct (last (Keys m)) as [k|] eqn:Ek; [| done]. apply bool_decide_eq_false. intros Heq%compareKeys_eq. subst k.
      rewrite <- (entries_keys m Hvm), Hem in Ek. apply last_Some_elem_of in Ek. apply last_Some in El as [L' ->].
      rewrite all_keys_app, Forall_app in HL. destruct HL as [_ HL]. unfold all_keys, all_entries in HL. cbn in HL. rewrite app_nil_r in HL.
      rewrite Forall_forall in HL. by apply (klt_irrefl x), HL. }
    destruct f; cbn [search_back]; rewrite decide_False by done; erewrite bind_ok by (unfold try; rewrite Hm; reflexivity); cbv beta iota; by rewrite Hew.
  - destruct f; cbn [search_back]; by rewrite decide_True.
Qed.

Lemma matching_none x (es : list entry) : Forall (klt x) es.*1 -> matching x es = ([], bool_decide (es = [])).
Proof.
  destruct es as [|[k v] es]; [done |]. cbn. intros [H _]%Forall_cons. rewrite decide_False; [done |].
  intros Heq%compareKeys_eq. subst. by apply klt_irrefl in H.
Qed.

Lemma search_forward_run f x L n R refs :
  on_leaf L n R -> Forall (klt x) (all_keys R) -> (length R <= f)%nat -> search_forward f x n refs t = (Ok refs, t).
Proof.
  revert f L n refs. induction R as [|l R IH]; intros f L n refs Hol HR Hf; pose proof (next_leaf _ _ _ Hol) as Hx.
  { destruct f; cbn [search_forward]; by rewrite decide_True. }
  destruct f as [|f]; [cbn in Hf; lia |]. destruct Hx as (Hne & m & Hm & Hem & Holm). cbn [search_forward].
  rewrite decide_False by done. erewrite bind_ok by (unfold try; rewrite Hm; reflexivity).
  unfold all_keys, all_entries in HR. cbn in HR. rewrite fmap_app, Forall_app in HR. destruct HR as [HR1 HR2].
  rewrite matching_none by by rewrite Hem. rewrite app_nil_r. case_bool_decide; [| done]. eapply IH; [exact Holm | done | cbn in Hf; lia].
Qed.

Lemma filter_key_none x (es : list entry) : x ∉ es.*1 -> filter (fun e => e.1 = x) es = [].
Proof. intros H. apply filter_none. intros e He <-. apply H. by apply list_elem_of_fmap_2. Qed.

Lemma in_all_keys_in (es : list entry) x : Forall (fun k => klt k x) es.*1 -> x ∉ es.*1.
Proof. intros H Hin. rewrite Forall_forall in H. by apply (klt_irrefl x), H. Qed.

(** A key of the map is at its position, and all that follows is larger. *)
Lemma found_at x n i L R :
  at_key x n i L R -> x ∈ all_keys lv ->
  exists v es, drop i (entries n) = (x, v) :: es /\ Forall (klt x) (es ++ all_entries R).*1.
Proof.
  intros Hk Hin. destruct (at_key_split _ _ _ _ _ Hk) as (pre & E & Hpre). pose proof entries_sorted as Hsort.
  rewrite E, fmap_app in Hsort. apply sorted_app_inv in Hsort as (_ & Hsort & _).
  assert (x ∈ (drop i (entries n)).*1) as Hdrop.
  { unfold all_keys in Hin. rewrite E, fmap_app, elem_of_app in Hin. destruct Hin as [H|H]; [by apply in_all_keys_in in H |].
    unfold ahead in H. rewrite fmap_app, elem_of_app in H. destruct H as [H|H]; [done |]. exfalso.
    pose proof (ak_far _ _ _ _ _ Hk) as Hfar. rewrite Forall_forall in Hfar. by apply (klt_irrefl x), Hfar. }
  pose proof (ak_right _ _ _ _ _ Hk) as Hge. unfold ahead in *.
  destruct (drop i (entries n)) as [|[k v] es]; [by apply elem_of_nil in Hdrop |]. cbn in Hsort, Hge, Hdrop.
  apply StronglySorted_inv in Hsort as [Hsort Hgt]. apply Forall_cons in Hge as [Hge1 _]. exists v, es.
  assert (k = x) as ->; [| done]. apply elem_of_cons in Hdrop as [->|H]; [done |].
  apply klt_not in Hge1 as [->|Hlt]; [done |]. exfalso. rewrite fmap_app, Forall_app in Hgt. destruct Hgt as [Hgt _].
  rewrite Forall_forall in Hgt. by apply (klt_irrefl x), (klt_trans x k x), Hgt.
Qed.

Lemma collect_key_run x n i L R :
  at_key x n i L R -> x ∈ all_keys lv ->
  collect_key x n i t = (Ok (filter (fun e => e.1 = x) (all_entries lv)).*2, t).
Proof.
  intros Hk Hin. destruct (at_key_split _ _ _ _ _ Hk) as (pre & E & Hpre). destruct (found_at _ _ _ _ _ Hk Hin) as (v & es & Ed & Hgt).
  rewrite E, filter_app, (filter_key_none _ pre) by by apply in_all_keys_in. unfold ahead. rewrite Ed. cbn [app].
  rewrite filter_cons_True by done. rewrite filter_key_none; last first.
  { intros H. rewrite Forall_forall in Hgt. by apply (klt_irrefl x), Hgt. }
  unfold collect_key. rewrite Ed. cbn [matching]. rewrite decide_True by apply compareKeys_refl.
  rewrite fmap_app, Forall_app in Hgt. rewrite matching_none by apply Hgt. case_bool_decide; [| done].
  pose proof (ak_leaf _ _ _ _ _ Hk) as Hol. erewrite bind_ok by reflexivity. pose proof (leaves_fuel _ _ _ Hol).
  by rewrite (search_forward_run _ x L n R) by (done || apply Hk || lia).
Qed.

Lemma Search_run x :
  x <> [] -> Tree_Search x t = (Ok (filter (fun e => e.1 = x) (all_entries lv)).*2, t).
Proof.
  intros Hx. destruct (find_key_leaf x) as (n & i & L & R & Hk). pose proof Hk as [Hol Hf Hi Hl _ HR].
  rewrite Forall_app in Hl. unfold Tree_Search. rewrite decide_False by done.
  erewrite bind_ok by (unfold try; rewrite Hf; reflexivity). cbv iota. erewrite bind_ok by reflexivity.
  erewrite bind_ok by (eapply search_back_run; [exact Hol | apply Hl]).
  erewrite bind_ok by (unfold pure; rewrite Hi; reflexivity). cbn [fst snd].
  case_bool_decide as Hin; [by eapply collect_key_run |]. rewrite filter_key_none by done.
  pose proof (next_leaf _ _ _ Hol) as Hn. destruct R as [|l R]; [by rewrite decide_True |].
  destruct Hn as (Hne & m & Hm & Hem & Holm). rewrite decide_False by done.
  erewrite bind_ok by (unfold try; rewrite Hm; reflexivity). cbv iota.
  destruct (FindKeyIndex_spec m x (ol_sorted _ _ _ Holm)) as (j & Hj & _).
  erewrite bind_ok by (unfold pure; rewrite Hj; reflexivity). cbn [fst snd]. rewrite bool_decide_false; [done |].
  rewrite <- (entries_keys m (ol_values _ _ _ Holm)), Hem. intros H. unfold all_keys, all_entries in HR. cbn in HR.
  rewrite fmap_app, Forall_app in HR. destruct HR as [HR _]. rewrite Forall_forall in HR. by apply (klt_irrefl x), HR.
Qed.

(** ** Iterators from a key, and the searches they serve *)

Lemma leaves_capacity (l : list leaf_of) : Forall (fun x => (length x.2 <= 256)%nat) l -> (length (all_entries l) <= 256 * length l)%nat.
Proof.
  induction 1 as [|x l Hx Hl IH]; [cbn; lia |]. unfold all_entries in *. cbn [mbind list_bind length]. rewrite length_app. lia.
Qed.

Lemma entries_fuel : (length (all_entries lv) <= Z.to_nat (BPlusLeafCapacity * (totalPages (t_pages t) + 1)))%nat.
Proof.
  pose proof (fuel_enough disk_limit _ _ _ _ _ _ _ Hs Ht Hd) as Hf. pose proof (subtree_size _ _ _ _ _ _ _ Ht) as [_ Hl].
  assert (length (all_entries lv) <= 256 * length lv)%nat as Hc.
  { apply leaves_capacity. pose proof (subtree_leaves _ _ _ _ _ _ _ Ht) as [_ Hall]. eapply Forall_impl; [exact Hall |].
    intros x (n & lo & hi & Hn & Hok & <-). destruct (st_nodes _ _ _ _ Hs _ _ Hn) as [Hw _].
    pose proof (wfn_shape _ Hw) as Hsh. rewrite (lf_leaf _ _ _ Hok) in Hsh. destruct Hsh as (_ & _ & Hcap & _).
    rewrite length_entries by apply Hok. unfold BPlusLeafCapacity, len in Hcap. lia. }
  unfold BPlusLeafCapacity. lia.
Qed.

Lemma CollectRefs_run it rem pre :
  iter_at it rem -> all_entries lv = pre ++ rem -> Iter_CollectRefs it t = (Ok (before (it_stops it) rem).*2, t).
Proof.
  intros Hit E. pose proof entries_fuel as Hf. rewrite E, length_app in Hf.
  unfold Iter_CollectRefs, Iter_Collect. rewrite bind_run. erewrite bind_ok by reflexivity.
  destruct (it_loop_run (Z.to_nat (BPlusLeafCapacity * (totalPages (t_pages t) + 1))) it rem [] Hit ltac:(lia)) as (it' & ->). done.
Qed.

Lemma CollectRefs_empty : Iter_CollectRefs emptyIterator t = (Ok [], t).
Proof.
  unfold Iter_CollectRefs, Iter_Collect. rewrite bind_run. erewrite bind_ok by reflexivity.
  by destruct (Z.to_nat (BPlusLeafCapacity * (totalPages (t_pages t) + 1))).
Qed.

Lemma or_empty_run m it : m t = (Ok it, t) -> or_empty m t = (Ok it, t).
Proof.
  intros H. unfold or_empty. erewrite bind_ok by reflexivity. rewrite decide_False by apply root_valid.
  by erewrite bind_ok by (unfold try; rewrite H; reflexivity).
Qed.

(** The iterators of [Range], [GreaterThanOrEqual] and [Prefix]: from a key on. *)
Lemma from_key_run x n i L R it stop (P : entry -> Prop) `{!forall e, Decision (P e)} :
  at_key x n i L R -> it_current it = Some n -> it_position it = i -> it_closed it = false -> (forall k, it_stops it k = stop k) ->
  (forall k k', ~ klt k x -> klt k k' -> stop k = true -> stop k' = true) ->
  (forall e, P e <-> ~ klt e.1 x /\ stop e.1 = false) ->
  Iter_CollectRefs it t = (Ok (filter P (all_entries lv)).*2, t).
Proof.
  intros Hk Hc Hi Hcl Hst Hm HP. destruct (at_key_split _ _ _ _ _ Hk) as (pre & E & _).
  assert (iter_at it (ahead n i R)) as Hit by (split; [done |]; exists L, n, R; rewrite Hi; split_and!; [done | apply Hk | done]).
  rewrite (CollectRefs_run it _ pre) by done. rewrite (before_from x n i L R (it_stops it) P); try done.
  - intros k k'. rewrite !Hst. apply Hm.
  - intros e. by rewrite Hst.
Qed.

(** Those that start at the first leaf. *)
Lemma from_start_run it n R stop (P : entry -> Prop) `{!forall e, Decision (P e)} :
  on_leaf [] n R -> all_entries lv = ahead n 0 R ->
  it_current it = Some n -> it_position it = 0%nat -> it_closed it = false -> (forall k, it_stops it k = stop k) ->
  (forall k k', klt k k' -> stop k = true -> stop k' = true) -> (forall e, P e <-> stop e.1 = false) ->
  Iter_CollectRefs it t = (Ok (filter P (all_entries lv)).*2, t).
Proof.
  intros Hol E Hc Hi Hcl Hst Hm HP.
  assert (iter_at it (all_entries lv)) as Hit by (split; [done |]; exists [], n, R; by rewrite Hi).
  rewrite (CollectRefs_run it _ []) by done. rewrite (before_all (it_stops it) P); [done | |].
  - intros k k'. rewrite !Hst. apply Hm.
  - intros e. by rewrite Hst.
Qed.

Lemma Range_run a b : (it ← Range a b; Iter_CollectRefs it) t = (Ok (filter (in_range a b) (all_entries lv)).*2, t).
Proof.
  unfold Range. destruct a as [a|].
  - destruct (find_key_leaf a) as (n & i & L & R & Hk).
    erewrite bind_ok; last first.
    { apply or_empty_run. erewrite bind_ok by exact (ak_find _ _ _ _ _ Hk).
      erewrite bind_ok by (unfold pure; rewrite (ak_index _ _ _ _ _ Hk); reflexivity). reflexivity. }
    apply (from_key_run a n i L R _ (past b)); try done; [| intros k k' _; apply past_mono].
    intros k. unfold it_stops, past. cbn. by destruct b; rewrite ?orb_false_r.
  - destruct at_start as (n & R & Hf & Hol & E). erewrite bind_ok; last first.
    { apply or_empty_run. erewrite bind_ok by exact Hf. reflexivity. }
    apply (from_start_run _ n R (past b)); try done; [| apply past_mono | intros e; unfold in_range; tauto].
    intros k. unfold it_stops, past. cbn. by destruct b; rewrite ?orb_false_r.
Qed.

Lemma equal_run_none x ks : Forall (klt x) ks -> equal_run x ks = 0%nat.
Proof.
  destruct ks as [|k ks]; [done |]. intros [H _]%Forall_cons. cbn. rewrite decide_False; [done |].
  intros Heq%compareKeys_eq. subst. by apply klt_irrefl in H.
Qed.

(** The position behind a key. *)
Lemma greater_split x n i L R :
  at_key x n i L R ->
  let idx := if bool_decide (x ∈ all_keys lv) then (i + equal_run x (drop i (Keys n)))%nat else i in
  exists pre, all_entries lv = pre ++ ahead n idx R /\ filter (fun e => klt x e.1) (all_entries lv) = ahead n idx R.
Proof.
  intros Hk idx. destruct (at_key_split _ _ _ _ _ Hk) as (pre & E & Hpre). pose proof (ak_right _ _ _ _ _ Hk) as Hge.
  assert (forall l, Forall (fun k => klt k x) l.*1 -> filter (fun e : entry => klt x e.1) l = []) as Hnone.
  { intros l Hl. apply filter_none. intros e He Hlt. rewrite Forall_forall in Hl.
    by apply (klt_irrefl x), (klt_trans x e.1 x), Hl, list_elem_of_fmap_2. }
  assert (forall l, Forall (klt x) l.*1 -> filter (fun e : entry => klt x e.1) l = l) as Hall.
  { intros l Hl. apply filter_all. intros e He. rewrite Forall_forall in Hl. by apply Hl, list_elem_of_fmap_2. }
  unfold idx. case_bool_decide as Hin.
  - destruct (found_at _ _ _ _ _ Hk Hin) as (v & es & Ed & Hgt). exists (pre ++ [(x, v)]).
    rewrite <- (entries_keys n), <- fmap_drop, Ed by apply (ol_values _ _ _ (ak_leaf _ _ _ _ _ Hk)). cbn [fmap list_fmap equal_run fst].
    rewrite decide_True by apply compareKeys_refl. rewrite equal_run_none by (rewrite fmap_app, Forall_app in Hgt; apply Hgt).
    assert (ahead n (i + 1) R = es ++ all_entries R) as Ha by (unfold ahead; rewrite <- drop_drop, Ed; done).
    rewrite Ha, <- (assoc_L (++)). split; [rewrite E; unfold ahead; by rewrite Ed |].
    rewrite E. unfold ahead. rewrite Ed, filter_app, Hnone by done. cbn [app]. rewrite filter_cons_False by apply klt_irrefl. by apply Hall.
  - exists pre. split; [done |]. rewrite E, filter_app, Hnone by done. cbn [app]. apply Hall. apply Forall_forall. intros k Hk'.
    rewrite Forall_forall in Hge. specialize (Hge k Hk'). apply klt_not in Hge as [<-|]; [| done]. exfalso. apply Hin.
    unfold all_keys. rewrite E, fmap_app. set_solver.
Qed.

Lemma before_never (es : list entry) stop : (forall k, stop k = false) -> before stop es = es.
Proof. intros H. induction es as [|e es IH]; [done |]. cbn. by rewrite H, IH. Qed.

Lemma collect_all_run f x (es : list EntryRef) :
  x <> [] -> (it ← f x; Iter_CollectRefs it) t = (Ok es, t) -> collect_all f x t = (Ok es, t).
Proof. intros Hx H. unfold collect_all. by rewrite decide_False. Qed.

Lemma GreaterThan_run x :
  x <> [] -> SearchGreaterThan x t = (Ok (filter (fun e => klt x e.1) (all_entries lv)).*2, t).
Proof.
  intros Hx. apply collect_all_run; [done |]. destruct (find_key_leaf x) as (n & i & L & R & Hk). unfold GreaterThan. rewrite decide_False by done.
  pose proof (ak_leaf _ _ _ _ _ Hk) as Hol. destruct (greater_split _ _ _ _ _ Hk) as (pre & E & Hfil). rewrite Hfil.
  set (idx := if bool_decide _ then _ else _) in *.
  destruct (decide (length (Keys n) <= idx)%nat) as [Hle|Hgt].
  - assert (ahead n idx R = all_entries R) as Ha by (unfold ahead; rewrite drop_ge; [done | rewrite length_entries; [done | apply Hol]]).
    pose proof (next_leaf _ _ _ Hol) as Hn. destruct R as [|l R].
    + erewrite bind_ok; last first.
      { apply or_empty_run. erewrite bind_ok by exact (ak_find _ _ _ _ _ Hk).
        erewrite bind_ok by (unfold pure; rewrite (ak_index _ _ _ _ _ Hk); reflexivity). cbn [fst snd].
        fold idx. rewrite decide_True, decide_True by done. reflexivity. }
      rewrite CollectRefs_empty, Ha. done.
    + destruct Hn as (Hne & m & Hm & Hem & Holm). erewrite bind_ok; last first.
      { apply or_empty_run. erewrite bind_ok by exact (ak_find _ _ _ _ _ Hk).
        erewrite bind_ok by (unfold pure; rewrite (ak_index _ _ _ _ _ Hk); reflexivity). cbn [fst snd].
        fold idx. rewrite decide_True, decide_False by done. erewrite bind_ok by exact Hm. reflexivity. }
      rewrite (CollectRefs_run _ (ahead n idx (l :: R)) pre); [by rewrite before_never | | done].
      split; [done |]. exists (L ++ [(n_PageID n, entries n)]), m, R. split_and!; [done | done |]. rewrite Ha. unfold ahead. cbn. by rewrite drop_0, Hem.
  - erewrite bind_ok; last first.
    { apply or_empty_run. erewrite bind_ok by exact (ak_find _ _ _ _ _ Hk).
      erewrite bind_ok by (unfold pure; rewrite (ak_index _ _ _ _ _ Hk); reflexivity). cbn [fst snd].
      fold idx. rewrite decide_False by done. reflexivity. }
    rewrite (CollectRefs_run _ (ahead n idx R) pre); [by rewrite before_never | | done].
    split; [done |]. by exists L, n, R.
Qed.

Lemma GreaterThanOrEqual_run x :
  x <> [] -> SearchGreaterThanOrEqual x t = (Ok (filter (fun e => ~ klt e.1 x) (all_entries lv)).*2, t).
Proof.
  intros Hx. apply collect_all_run; [done |]. destruct (find_key_leaf x) as (n & i & L & R & Hk). unfold GreaterThanOrEqual. rewrite decide_False by done.
  erewrite bind_ok; last first.
  { apply or_empty_run. erewrite bind_ok by exact (ak_find _ _ _ _ _ Hk).
    erewrite bind_ok by (unfold pure; rewrite (ak_index _ _ _ _ _ Hk); reflexivity). reflexivity. }
  apply (from_key_run x n i L R _ (fun _ => false)); try done. intros e. tauto.
Qed.

Lemma LessThan_run x :
  x <> [] -> SearchLessThan x t = (Ok (filter (fun e => klt e.1 x) (all_entries lv)).*2, t).
Proof.
  intros Hx. apply collect_all_run; [done |]. destruct at_start as (n & R & Hf & Hol & E). unfold LessThan. rewrite decide_False by done.
  erewrite bind_ok; last first.
  { apply or_empty_run. erewrite bind_ok by exact Hf. reflexivity. }
  apply (from_start_run _ n R (fun k => bool_decide (~ klt k x))); try done.
  - intros k. unfold it_stops. cbn. rewrite orb_false_r. apply bool_decide_ext. unfold klt. lia.
  - intros k k' Hlt. rewrite !bool_decide_eq_true. intros H1 H2. apply H1. by eapply klt_trans.
  - intros e. rewrite bool_decide_eq_false. split; [tauto |]. intros H. destruct (decide (klt e.1 x)); tauto.
Qed.

Lemma LessThanOrEqual_run x :
  x <> [] -> SearchLessThanOrEqual x t = (Ok (filter (fun e => ~ klt x e.1) (all_entries lv)).*2, t).
Proof.
  intros Hx. apply collect_all_run; [done |]. unfold LessThanOrEqual. rewrite decide_False by done. rewrite Range_run. do 3 f_equal.
  apply filter_ext_in. intros e _. unfold in_range, past. rewrite bool_decide_eq_false, compareKeys_pos. tauto.
Qed.

Lemma HasPrefix_cons b k a p : HasPrefix (b :: k) (a :: p) = bool_decide (b = a) && HasPrefix k p.
Proof.
  unfold HasPrefix, bytes_eqb. cbn. case_bool_decide as H; [injection H as -> H; by rewrite !bool_decide_true |].
  case_bool_decide as Hb; [| done]. subst. cbn. rewrite bool_decide_false; [done | congruence].
Qed.

Lemma klt_cons b k a p : klt (b :: k) (a :: p) <-> bZ b < bZ a \/ (b = a /\ klt k p).
Proof.
  unfold klt. cbn. repeat case_decide; try (split; [lia | intros [?|[-> ?]]; lia]).
  assert (b = a) as -> by (apply bZ_inj; lia). split; [tauto | intros [?|[_ ?]]; [lia | done]].
Qed.

(** The keys with a prefix come together, from the prefix on. *)
Lemma HasPrefix_ge k p : HasPrefix k p = true -> ~ klt k p.
Proof.
  revert k. induction p as [|a p IH]; intros k; [by destruct k |]. destruct k as [|b k]; [done |].
  rewrite HasPrefix_cons, klt_cons, andb_true_iff, bool_decide_eq_true. intros [-> H] [Hlt|[_ Hlt]]; [lia | by apply (IH k)].
Qed.

Lemma HasPrefix_block p k k' : ~ klt k p -> klt k k' -> HasPrefix k' p = true -> HasPrefix k p = true.
Proof.
  revert k k'. induction p as [|a p IH]; intros k k'; [by destruct k |]. destruct k' as [|b' k']; [done |]. destruct k as [|b k]; [by cbn |].
  rewrite !HasPrefix_cons, !klt_cons, !andb_true_iff, !bool_decide_eq_true. intros H1 H2 [-> H3].
  assert (b = a) as -> by (apply bZ_inj; destruct H2 as [H2|[-> _]]; lia). split; [done |].
  destruct H2 as [H2|[_ H2]]; [lia |]. apply (IH k k'); [tauto | done | done].
Qed.

Lemma prefix_start_run x n i L R : at_key x n i L R -> prefix_start x n i t = (Ok (n, i), t).
Proof.
  intros Hk. unfold prefix_start. case_decide as Hc; [| done]. destruct Hc as [-> Hp]. pose proof (prev_leaf _ _ _ (ak_leaf _ _ _ _ _ Hk)) as Hpr.
  destruct (last L) as [l|] eqn:El; [| done]. destruct Hpr as (_ & m & Hm & Hem & Hvm).
  erewrite bind_ok by (unfold try; rewrite Hm; reflexivity). cbv beta iota.
  replace (ends_with_prefix m x) with false; [done |]. symmetry. unfold ends_with_prefix.
  destruct (last (Keys m)) as [k|] eqn:Ek; [| done]. apply not_true_is_false. intros Hpx%HasPrefix_ge. apply Hpx.
  rewrite <- (entries_keys m Hvm), Hem in Ek. apply last_Some_elem_of in Ek. apply last_Some in El as [L' ->].
  pose proof (ak_left _ _ _ _ _ Hk) as HL. rewrite all_keys_app, !Forall_app in HL. destruct HL as [[_ HL] _].
  unfold all_keys, all_entries in HL. cbn in HL. rewrite app_nil_r in HL. rewrite Forall_forall in HL. by apply HL.
Qed.

Lemma Prefix_run x :
  SearchPrefix x t = (Ok (filter (fun e => HasPrefix e.1 x = true) (all_entries lv)).*2, t).
Proof.
  unfold SearchPrefix. case_decide as Hx.
  { subst x. rewrite SearchRange_run. do 3 f_equal. apply filter_ext_in. intros e _. unfold in_range. by destruct e as [[] ?]. }
  destruct (find_key_leaf x) as (n & i & L & R & Hk). unfold Prefix. rewrite decide_False by done.
  assert (forall it, it_current it = Some n -> it_position it = i -> it_closed it = false ->
    (forall k, it_stops it k = negb (HasPrefix k x)) ->
    Iter_CollectRefs it t = (Ok (filter (fun e => HasPrefix e.1 x = true) (all_entries lv)).*2, t)) as Hcol.
  { intros it H1 H2 H3 H4. apply (from_key_run x n i L R it (fun k => negb (HasPrefix k x))); try done.
    - intros k k' Hge Hlt. rewrite !negb_true_iff. intros Hno. apply not_true_is_false. intros Hyes.
      rewrite (HasPrefix_block x k k') in Hno by done. done.
    - intros e. rewrite negb_false_iff. split; [| tauto]. intros H. split; [by apply HasPrefix_ge | done]. }
  erewrite bind_ok; last first.
  { apply or_empty_run. erewrite bind_ok by exact (ak_find _ _ _ _ _ Hk).
    erewrite bind_ok by (unfold pure; rewrite (ak_index _ _ _ _ _ Hk); reflexivity). cbn [fst].
    erewrite bind_ok by (by eapply prefix_start_run). cbn [fst snd].
    instantiate (1 := match Keys n !! i with Some k => if HasPrefix k x then newPrefixIterator n i x else emptyIterator
      | None => newPrefixIterator n i x end). by destruct (Keys n !! i). }
  destruct (Keys n !! i) as [k|] eqn:Ek; [destruct (HasPrefix k x) eqn:Ep; [by apply Hcol |] | by apply Hcol].
  rewrite CollectRefs_empty. rewrite <- (Hcol (newPrefixIterator n i x)) by done.
  destruct (at_key_split _ _ _ _ _ Hk) as (pre & E & _). pose proof (ak_leaf _ _ _ _ _ Hk) as Hol.
  rewrite (CollectRefs_run _ (ahead n i R) pre); [| by split; [done |]; exists L, n, R | done].
  assert (exists v, drop i (entries n) = (k, v) :: drop (S i) (entries n)) as [v Ed].
  { rewrite <- (entries_keys n), list_lookup_fmap in Ek by apply Hol. destruct (entries n !! i) as [[k' v]|] eqn:Ee; [| done].
    injection Ek as ->. exists v. by apply drop_S. }
  unfold ahead. rewrite Ed. cbn [before app fst]. unfold it_stops. cbn. by rewrite Ep.
Qed.
End Scan.
