(* ===== verification/BTreeTheorems.v ===== *)
(** * The B+ tree: properties *)

From S2P Require Import Prelude GoBinary Page PageStore PageReopen PageTheorems.
From S2P Require Import BTree BTreeOps BTreeIter BTreeDelete BTreeCodec BTreeShape BTreeInsert BTreeRead BTreeScan.

(** ** The tree against a sorted map *)

Inductive tree_op :=
| TInsert (key : bytes) (ref : EntryRef)
| TInsertUnique (key : bytes) (ref : EntryRef)
| TSearch (key : bytes)
| TSearchRange (startKey endKey : option bytes)
| TRange (startKey endKey : option bytes)
| TGreaterThan (key : bytes)
| TGreaterThanOrEqual (key : bytes)
| TLessThan (key : bytes)
| TLessThanOrEqual (key : bytes)
| TPrefix (prefix : bytes)
| TRestart (opts : Options).

(** The abstract tree: entries in the order of their keys. *)
Definition spec_insert (key : bytes) (ref : EntryRef) (es : list entry) : list entry :=
  filter (fun e => klt e.1 key) es ++ (key, ref) :: filter (fun e => klt key e.1) es.

Definition spec_state (o : tree_op) (es : list entry) : list entry :=
  match o with TInsert k r | TInsertUnique k r => spec_insert k r es | _ => es end.

Definition spec_refs (o : tree_op) (es : list entry) : list EntryRef :=
  match o with
  | TSearch k => (filter (fun e => e.1 = k) es).*2
  | TSearchRange a b | TRange a b => (filter (in_range a b) es).*2
  | TGreaterThan k => (filter (fun e => klt k e.1) es).*2
  | TGreaterThanOrEqual k => (filter (fun e => ~ klt e.1 k) es).*2
  | TLessThan k => (filter (fun e => klt e.1 k) es).*2
  | TLessThanOrEqual k => (filter (fun e => ~ klt k e.1) es).*2
  | TPrefix p => (filter (fun e => HasPrefix e.1 p = true) es).*2
  | _ => []
  end.

(** The operations that the theorem covers: small entries, and with [Insert] new keys only. *)
Definition allowed (o : tree_op) (es : list entry) : Prop :=
  match o with
  | TInsert k r => small_entry (k, r) /\ k ∉ es.*1
  | TInsertUnique k r => small_entry (k, r)
  | TSearch k | TGreaterThan k | TGreaterThanOrEqual k | TLessThan k | TLessThanOrEqual k => k <> []
  | TRestart opts => opt_ReadOnly opts = false
  | TSearchRange _ _ | TRange _ _ | TPrefix _ => True
  end.

Section Tree.
Context (disk_limit : Z).

(** The file is closed and opened again, and the tree loaded from its root. *)
Definition tree_restart (opts : Options) : TM (list EntryRef) := fun t =>
  match reopen disk_limit opts (t_pages t) with
  | (Ok _, pm) =>
      match NewBPlusTreeWithRoot pm (t_root t) (t_order t) with
      | Ok t => (Ok [], t)
      | Err e => (Err e, with_pages t pm)
      | Panic => (Panic, with_pages t pm)
      | Diverge => (Diverge, with_pages t pm)
      end
  | (Err e, pm) => (Err e, with_pages t pm)
  | (Panic, pm) => (Panic, with_pages t pm)
  | (Diverge, pm) => (Diverge, with_pages t pm)
  end.

Definition tree_exec (o : tree_op) : TM (list EntryRef) :=
  match o with
  | TInsert k r => Tree_Insert disk_limit k r ;; mret []
  | TInsertUnique k r => InsertUnique disk_limit k r ;; mret []
  | TSearch k => Tree_Search k
  | TSearchRange a b => SearchRange a b
  | TRange a b => it ← Range a b; Iter_CollectRefs it
  | TGreaterThan k => SearchGreaterThan k
  | TGreaterThanOrEqual k => SearchGreaterThanOrEqual k
  | TLessThan k => SearchLessThan k
  | TLessThanOrEqual k => SearchLessThanOrEqual k
  | TPrefix p => SearchPrefix p
  | TRestart opts => tree_restart opts
  end.

(** The errors of an operation: a key that exists, which changes nothing, or a full disk. *)
Definition no_space (o : tree_op) (t t' : BPlusTree) : Prop :=
  match o with
  | TInsert _ _ | TInsertUnique _ _ => full disk_limit (t_pages t') 8
  | TRestart _ => full disk_limit (t_pages t) (Z.of_nat (needed (freePages (freeList (t_pages t)))))
  | _ => False
  end.

(** Every operation of a run returns what the abstract tree returns, and the pages [F] of
    others stay as they are; a run ends when the disk is full. *)
Fixpoint tree_run (F : gmap Z Page) (t : BPlusTree) (es : list entry) (os : list tree_op) : Prop :=
  match os with
  | [] => True
  | o :: os =>
      allowed o es ->
      match tree_exec o t with
      | (Ok refs, t') =>
          refs = spec_refs o es /\ (exists A, Rep disk_limit (t_pages t') A /\ F ⊆ A) /\ tree_run F t' (spec_state o es) os
      | (Err e, t') =>
          (exists k r, o = TInsertUnique k r /\ e = ErrKeyExists /\ k ∈ es.*1 /\ t' = t /\ tree_run F t es os)
          \/ no_space o t t'
      | _ => False
      end
  end.

Context (Hlimit : disk_limit < 2 ^ 62).

Lemma spec_insert_eq x r (l k : list entry) :
  sorted (l ++ (x, r) :: k).*1 -> spec_insert x r (l ++ k) = l ++ (x, r) :: k.
Proof.
  rewrite fmap_app, fmap_cons. intros (_ & [_ Hk]%StronglySorted_inv & Hl)%sorted_app_inv. cbn [fst] in *.
  rewrite Forall_forall in Hk.
  assert (forall e, e ∈ l -> klt e.1 x) as H1 by (intros e He; apply Hl; [by apply list_elem_of_fmap_2 | set_solver]).
  assert (forall e, e ∈ k -> klt x e.1) as H2 by (intros e He; by apply Hk, list_elem_of_fmap_2).
  assert (forall a b, klt a b -> ~ klt b a) as Has by (intros a b H H'; by apply (klt_irrefl a), (klt_trans a b a)).
  unfold spec_insert. rewrite !filter_app. rewrite (filter_all _ l) by done. rewrite (filter_none _ k) by (intros e He; by apply Has, H2).
  rewrite (filter_none _ l) by (intros e He; by apply Has, H1). rewrite (filter_all _ k) by done. by rewrite app_nil_r.
Qed.

Abbreviation tree := (tree disk_limit).

Lemma tree_frame t F es : tree t F es -> exists A, Rep disk_limit (t_pages t) A /\ F ⊆ A.
Proof. intros (lv & (N & h & ids & [(A & Hr & HF & _) _ _] & _) & _). by exists A. Qed.

Lemma grows_run F es x r t m :
  grows disk_limit F es x r (m t) ->
  match ((m ;; mret []) : TM (list EntryRef)) t with
  | (Ok refs, t') => refs = [] /\ tree t' F (spec_insert x r es)
  | (Err _, t') => full disk_limit (t_pages t') 8
  | _ => False
  end.
Proof.
  unfold grows. rewrite bind_run. destruct (m t) as [[[]| | |] t']; cbn; try done. intros (l & k & -> & Ht). split; [done |].
  rewrite spec_insert_eq; [done |]. by apply tree_sorted in Ht as [? _].
Qed.

Lemma tree_move (t t' : BPlusTree) F es :
  tree t F es -> t_root t' = t_root t -> (forall A, Rep disk_limit (t_pages t) A -> Rep disk_limit (t_pages t') A) -> tree t' F es.
Proof.
  intros (lv & (N & h & ids & [(A & Hr & HF & HN) Hd Hw] & Ht & Hnd & Hl) & E) Hroot HA. exists lv. split; [| done].
  exists N, h, ids. rewrite Hroot. split_and!; try done. constructor; [exists A; split_and!; [by apply HA | done | done] | done | done].
Qed.

Lemma tree_restart_run opts t F es :
  tree t F es -> opt_ReadOnly opts = false ->
  (exists t', tree_restart opts t = (Ok [], t') /\ tree t' F es)
  \/ (exists e t', tree_restart opts t = (Err e, t') /\ full disk_limit (t_pages t) (Z.of_nat (needed (freePages (freeList (t_pages t)))))).
Proof.
  intros Ht Ho. pose proof (tree_frame _ _ _ Ht) as (A0 & Hr0 & _). unfold tree_restart, reopen.
  destruct (close_reopen disk_limit Hlimit (t_pages t) A0 opts Hr0 Ho) as [(e & pm' & -> & Hc & Hf)|(pm' & pm2 & Hcl & Hop & Hr2 & _)].
  { right. exists e. eexists. split; [reflexivity | done]. }
  left. rewrite Hcl, Hop.
  assert (forall order, tree (mkBPlusTree (t_root t) order pm2) F es) as Ht'.
  { intros order. apply (tree_move t); [done | done |]. intros A Hr. cbn.
    destruct (close_reopen disk_limit Hlimit (t_pages t) A opts Hr Ho) as [(e & pm3 & Hcl' & _)|(pm3 & pm4 & Hcl' & Hop' & Hr4 & _)]; [congruence |].
    rewrite Hcl in Hcl'. injection Hcl' as <-. rewrite Hop in Hop'. by injection Hop' as <-. }
  unfold NewBPlusTreeWithRoot. set (order := if decide _ then _ else _). specialize (Ht' order). clearbody order.
  pose proof Ht' as (lv & (N & h & ids & Hs & Hsub & _) & _). pose proof (subtree_dom _ _ _ _ _ _ _ Hsub) as [[n Hn] _].
  erewrite (readNode_run disk_limit Hlimit (mkBPlusTree (t_root t) order pm2)) by done. by eexists.
Qed.

(** What an operation does to a tree. *)
Lemma tree_exec_run o t F es :
  tree t F es -> allowed o es ->
  match tree_exec o t with
  | (Ok refs, t') => refs = spec_refs o es /\ tree t' F (spec_state o es)
  | (Err e, t') => (exists k r, o = TInsertUnique k r /\ e = ErrKeyExists /\ k ∈ es.*1 /\ t' = t) \/ no_space o t t'
  | _ => False
  end.
Proof.
  intros Ht. pose proof Ht as (lv & (N & h & ids & Hs & Hsub & Hd & Hl) & E).
  destruct o; cbn [tree_exec allowed spec_refs spec_state no_space]; intros Ha.
  - destruct Ha as [Hse Hni]. pose proof (grows_run _ _ _ _ _ _ (Insert_run disk_limit Hlimit t F es key ref Ht Hse Hni)) as H.
    match type of H with match ?x with _ => _ end => destruct x as [[]] end; [done | by right | done | done].
  - pose proof (InsertUnique_run disk_limit Hlimit t F es key ref Ht Ha) as H. case_decide as Hin.
    + erewrite bind_err by exact H. left. by exists key, ref.
    + apply grows_run in H. match type of H with match ?x with _ => _ end => destruct x as [[]] end; [done | by right | done | done].
  - by rewrite (Search_run disk_limit Hlimit t F N h ids lv), E.
  - by rewrite (SearchRange_run disk_limit Hlimit t F N h ids lv), E.
  - by rewrite (Range_run disk_limit Hlimit t F N h ids lv), E.
  - by rewrite (GreaterThan_run disk_limit Hlimit t F N h ids lv), E.
  - by rewrite (GreaterThanOrEqual_run disk_limit Hlimit t F N h ids lv), E.
  - by rewrite (LessThan_run disk_limit Hlimit t F N h ids lv), E.
  - by rewrite (LessThanOrEqual_run disk_limit Hlimit t F N h ids lv), E.
  - by rewrite (Prefix_run disk_limit Hlimit t F N h ids lv), E.
  - destruct (tree_restart_run opts t F es Ht Ha) as [(t' & -> & Ht')|(e & t' & -> & Hf)]; [done | by right].
Qed.

Lemma tree_run_refines F t es os : tree t F es -> tree_run F t es os.
Proof.
  revert t es. induction os as [|o os IH]; intros t es Ht; [done |]. cbn [tree_run]. intros Ha.
  pose proof (tree_exec_run o t F es Ht Ha) as H. destruct (tree_exec o t) as [[refs|e| |] t']; try done.
  - destruct H as [-> Ht']. split_and!; [done | by eapply tree_frame | by apply IH].
  - destruct H as [(k & r & -> & -> & Hin & ->)|H]; [left | by right]. exists k, r. split_and!; try done. by apply IH.
Qed.

Lemma new_tree pm A order t : Rep disk_limit pm A -> NewBPlusTree disk_limit pm order = Ok t -> tree t A [].
Proof.
  intros Hr. unfold NewBPlusTree, init_tree. set (t0 := mkBPlusTree _ _ pm).
  assert (store disk_limit (t_pages t0) ∅ A) as Hs.
  { constructor; [exists A; split_and!; [done | done |] | |]; intros id; rewrite lookup_empty; [done | by intros [] | done]. }
  destruct (allocate_run disk_limit Hlimit t0 ∅ A Hs) as [(id & pm' & Hal & Hid & _ & Hs')|(e & Hal & _)].
  2:{ by erewrite bind_err by exact Hal. }
  erewrite bind_ok by exact Hal.
  destruct (writeNode_run disk_limit Hlimit (with_pages t0 pm') _ A (NewLeafNode id) Hs') as (pm2 & Hwr & Hs2); [by apply wf_new_leaf | |].
  { cbn. rewrite lookup_insert_eq. by eexists. }
  erewrite bind_ok by exact Hwr. cbn. intros [= <-]. cbn in Hs2. rewrite insert_insert_eq in Hs2.
  exists [(id, [])]. split; [| done]. exists (<[id := NewLeafNode id]> ∅), 0%nat, [id]. cbn. split_and!; [done | | | | done].
  - exists (NewLeafNode id). rewrite lookup_insert_eq. split_and!; try done. constructor; by try constructor.
  - apply NoDup_singleton.
  - exists (NewLeafNode id). by rewrite lookup_insert_eq.
Qed.
End Tree.

(** C16: a new B+ tree on a file whose other pages are [A] behaves as a sorted map of keys to
    references: insertions of new keys ([Insert], [InsertUnique]), exact search, ranges by
    [SearchRange] and by iterators, the comparisons, prefixes, and closing and opening the file
    in between all return what the map returns, in the order of the keys; an existing key makes
    [InsertUnique] fail without a change; nothing else fails but for want of space; the pages
    [A] stay as they are. Keys have at most 128 bytes, keys with their DNs 160. *)
Theorem btree_refines disk_limit pm A order t os :
  disk_limit < 2 ^ 62 -> Rep disk_limit pm A -> NewBPlusTree disk_limit pm order = Ok t -> tree_run disk_limit A t [] os.
Proof. intros Hl Hr Hn. apply tree_run_refines; [done |]. by eapply new_tree. Qed.

(** ** Concrete trees *)

Module TreeExample.
Definition opts : Options := mkOptions 0 4 true false.
Definition limit : Z := 2 ^ 40.
Definition ref (n : Z) : EntryRef := mkEntryRef n 0 (str "cn=x").

(** A computation on a new tree in a new file. *)
Definition on_new {A} (m : TM A) : outcome A :=
  pm ← OpenPageManager limit None opts; t ← NewBPlusTree limit pm 0; (m t).1.

(** A run with the numbers of the references that it returns. *)
Fixpoint numbers (os : list tree_op) : TM (list (list Z)) :=
  match os with
  | [] => mret []
  | o :: os => r ← tree_exec limit o; rs ← numbers os; mret ((e_PageID <$> r) :: rs)
  end.

(** Thirty keys of 120 bytes make the leaf split. *)
Definition key (n : Z) : bytes := u8 n :: replicate 119 x61.
Definition inserts : list tree_op := (fun n => TInsertUnique (key n) (ref n)) <$> seqZ 1 30.
Definition ops : list tree_op :=
  inserts ++ [TRestart opts; TSearch (key 7); TSearchRange (Some (key 13)) (Some (key 17)); TLessThan (key 4); TGreaterThan (key 28);
    TPrefix [u8 20]].

(** What the reads at the end return. *)
Definition reads (t : BPlusTree) : list (list Z) := match (numbers ops t).1 with Ok l => drop 31 l | _ => [] end.
End TreeExample.

Lemma btree_refines_witness :
  exists pm t, OpenPageManager TreeExample.limit None TreeExample.opts = Ok pm /\ NewBPlusTree TreeExample.limit pm 0 = Ok t
    /\ TreeExample.reads t = [[7]; [13; 14; 15; 16; 17]; [1; 2; 3]; [29; 30]; [20]]
    /\ tree_run TreeExample.limit ∅ t [] TreeExample.ops.
Proof.
  set (r := OpenPageManager TreeExample.limit None TreeExample.opts).
  assert (match r with
          | Ok pm => match NewBPlusTree TreeExample.limit pm 0 with
                     | Ok t => TreeExample.reads t | _ => [] end
          | _ => []
          end = [[7]; [13; 14; 15; 16; 17]; [1; 2; 3]; [29; 30]; [20]]) as E by (vm_compute; reflexivity).
  destruct r as [pm| | |] eqn:Er; [| discriminate E..].
  destruct (NewBPlusTree TreeExample.limit pm 0) as [t| | |] eqn:Et; [| discriminate E..].
  exists pm, t. split; [reflexivity |]. split; [exact Et |]. split; [exact E |].
  apply (btree_refines TreeExample.limit pm ∅ 0 t); [done | | exact Et].
  apply (init_run TreeExample.limit TreeExample.opts pm); [by left | done | exact Er].
Defined.

Module DuplicateExample.
Import TreeExample.
(** Attribute values are keys, so that many entries share one. *)
Definition key (b : byte) : bytes := replicate 1000 b.
Definition insert_all (l : list (byte * Z)) : TM unit := for_each l (fun '(b, n) => Tree_Insert limit (key b) (ref n)).
Definition history : list (byte * Z) := [(x61, 1); (x62, 2); (x63, 3); (x63, 4); (x63, 5); (x63, 6); (x63, 7); (x63, 8); (x64, 9)].
Definition search : TM (list Z) := refs ← Tree_Search (key x63); mret (e_PageID <$> refs).
Definition scan_all : TM (list Z) := it ← All; refs ← Iter_CollectRefs it; mret (e_PageID <$> refs).
End DuplicateExample.

(** several entries with one key: when a leaf of a key is split again, the new separator
    goes in front of the equal one, so that the children are out of order; six entries were
    inserted under the key and [Search] finds two of them, and a scan of the tree meets a larger
    key (the ninth) before four of them. *)
Theorem btree_duplicates_lost :
  TreeExample.on_new (DuplicateExample.insert_all DuplicateExample.history ;; DuplicateExample.search) = Ok [8; 7]
  /\ TreeExample.on_new (DuplicateExample.insert_all DuplicateExample.history ;; DuplicateExample.scan_all) = Ok [1; 2; 8; 7; 9; 6; 5; 4; 3].
Proof. split; vm_compute; reflexivity. Qed.

Module DeleteExample.
Import TreeExample DuplicateExample.
(** Two leaves with three large entries each. *)
Definition history : list (byte * Z) := [(x61, 1); (x62, 2); (x65, 5); (x66, 6); (x63, 3); (x67, 7)].
Definition delete_then (key : bytes) (n : Z) : TM ((unit + goerror) * list Z) :=
  r ← try (Delete key (ref n)); refs ← Tree_Search key; mret (r, e_PageID <$> refs).
End DeleteExample.

(** a leaf of a tree with several leaves counts as underfull below 128 entries, more than fit
    in a page with keys and DNs of usual length; [Delete] then merges it with its neighbour, and
    where the two do not fit in one page it fails with [ErrNodeTooLarge], and the entry is still
    in the tree. *)
Theorem btree_delete_fails :
  TreeExample.on_new (DuplicateExample.insert_all DeleteExample.history ;; DeleteExample.delete_then (DuplicateExample.key x67) 7)
  = Ok (inr ErrNodeTooLarge, [7]).
Proof. vm_compute. reflexivity. Qed.

Module SplitExample.
Import TreeExample.
(** Four short keys and three of 1024 bytes, the longest allowed; then a fourth long one. *)
Definition key (n : Z) : bytes := if decide (n <= 4) then [u8 n] else u8 n :: replicate 1023 x61.
Definition insert (n : Z) : TM (unit + goerror) := try (Tree_Insert limit (key n) (ref n)).
Definition search (n : Z) : TM (list Z) := refs ← Tree_Search (key n); mret (e_PageID <$> refs).
Definition history : TM (list Z * (unit + goerror) * list Z) :=
  for_each (seqZ 1 7) (fun n => Tree_Insert limit (key n) (ref n)) ;;
  before ← search 6;
  r ← insert 8;
  after ← search 6;
  mret (before, r, after).
End SplitExample.

(** leaves are split by the number of keys: with long keys the right half may not fit in a page;
    [Insert] then fails after the left half was written, and the entries of the right half, which
    were in the tree before, are lost. *)
Theorem btree_failed_split_loses :
  TreeExample.on_new SplitExample.history = Ok ([6], inr ErrNodeTooLarge, []).
Proof. vm_compute. reflexivity. Qed.
