(* ===== verification/CacheFile.v ===== *)
(** * Cache files (src/internal/storage/cache)

    A file is its bytes; [WriteFile] replaces it in one step by renaming. *)

From S2P Require Import Prelude GoBinary.

Definition CacheMagic : bytes := [x4f; x42; x41; x43].
Definition CacheVersion : Z := 1.
Definition HeaderSize : Z := 48.
Definition TypeRadix : byte := x01.
Definition TypeBTree : byte := x02.
Definition TypeEntry : byte := x03.

Definition ErrCacheMagic : goerror := ErrConst "ErrInvalidMagic".
Definition ErrInvalidVersion : goerror := ErrConst "ErrInvalidVersion".
Definition ErrInvalidType : goerror := ErrConst "ErrInvalidType".
Definition ErrStaleTxID : goerror := ErrConst "ErrStaleTxID".
Definition ErrCorruptData : goerror := ErrConst "ErrCorruptData".
Definition ErrCacheBuffer : goerror := ErrConst "ErrBufferTooSmall".
Definition ErrNoFile : goerror := ErrConst "os.ErrNotExist".
Definition io_EOF : goerror := ErrConst "io.EOF".
Definition io_ErrUnexpectedEOF : goerror := ErrConst "io.ErrUnexpectedEOF".

(** The reserved bytes, which are not looked at, are left out. *)
Record CacheHeader := mkCacheHeader {
  ch_Magic : bytes;
  ch_Version : Z;
  ch_CacheType : byte;
  ch_EntryCount : Z;
  ch_LastTxID : Z;
  ch_DataCRC32 : Z;
  ch_DataLength : Z;
  ch_HeaderCRC32 : Z
}.

Definition NewHeader (cacheType : byte) (entryCount lastTxID : Z) (data : bytes) : CacheHeader :=
  mkCacheHeader CacheMagic CacheVersion cacheType entryCount lastTxID (ChecksumIEEE data) (len data) 0.

(** Bytes 0 to 43. *)
Definition cache_fields (h : CacheHeader) : bytes :=
  ch_Magic h ++ put32 (ch_Version h) ++ [ch_CacheType h] ++ zeros 7 ++ put64 (ch_EntryCount h)
  ++ put64 (ch_LastTxID h) ++ put32 (ch_DataCRC32 h) ++ put64 (ch_DataLength h).

Definition CacheHeader_Serialize (h : CacheHeader) : bytes :=
  cache_fields h ++ put32 (ChecksumIEEE (cache_fields h)).

Definition CacheHeader_Deserialize (buf : bytes) : outcome CacheHeader :=
  if decide (len buf < HeaderSize) then Err ErrCacheBuffer
  else Ok (mkCacheHeader (take 4 buf) (field buf 4 4) (nth 8 buf x00) (field buf 16 8) (field buf 24 8)
             (field buf 32 4) (field buf 36 8) (field buf 44 4)).

Definition CacheHeader_Validate (h : CacheHeader) (expectedType : byte) (expectedTxID : Z) : outcome unit :=
  if negb (bytes_eqb (ch_Magic h) CacheMagic) then Err ErrCacheMagic
  else if decide (ch_Version h <> CacheVersion) then Err ErrInvalidVersion
  else if decide (ch_CacheType h <> expectedType) then Err ErrInvalidType
  else if decide (ch_LastTxID h <> expectedTxID) then Err ErrStaleTxID
  else Ok tt.

Definition ValidateHeaderCRC (h : CacheHeader) (buf : bytes) : outcome unit :=
  if decide (len buf < HeaderSize) then Err ErrCacheBuffer
  else if decide (ch_HeaderCRC32 h <> ChecksumIEEE (take 44 buf)) then Err ErrCorruptData
  else Ok tt.

Definition ValidateDataCRC (h : CacheHeader) (data : bytes) : outcome unit :=
  if decide (uint64 (len data) <> ch_DataLength h) then Err ErrCorruptData
  else if decide (ChecksumIEEE data <> ch_DataCRC32 h) then Err ErrCorruptData
  else Ok tt.

(** [io.ReadFull(f, make([]byte, n))] over what is unread. *)
Definition ReadFull (n : nat) : M bytes bytes := fun s =>
  if decide (length s < n)%nat then (Err (if decide (s = []) then io_EOF else io_ErrUnexpectedEOF), [])
  else (Ok (take n s), drop n s).

Definition WriteFile (cacheType : byte) (data : bytes) (entryCount lastTxID : Z) : bytes :=
  CacheHeader_Serialize (NewHeader cacheType entryCount lastTxID data) ++ data.

Definition lift {A} (r : outcome A) : M bytes A := fun s => (r, s).

(** [make] panics when the length is no [int]; [f] is None when there is no file. *)
Definition ReadFile (f : option bytes) (expectedType : byte) (expectedTxID : Z) : outcome (bytes * CacheHeader) :=
  match f with
  | None => Err ErrNoFile
  | Some f =>
      let read : M bytes (bytes * CacheHeader) :=
        headerBuf ← ReadFull (Z.to_nat HeaderSize);
        header ← lift (CacheHeader_Deserialize headerBuf);
        lift (ValidateHeaderCRC header headerBuf) ;;
        lift (CacheHeader_Validate header expectedType expectedTxID) ;;
        if decide (ch_DataLength header >= 2 ^ 63) then panic
        else
          data ← ReadFull (Z.to_nat (ch_DataLength header));
          lift (ValidateDataCRC header data) ;;
          mret (data, header) in
      (read f).1
  end.

(** ** Round trip *)

Definition written (cacheType : byte) (entryCount lastTxID : Z) (data : bytes) : CacheHeader :=
  let h := NewHeader cacheType entryCount lastTxID data in
  mkCacheHeader (ch_Magic h) (ch_Version h) (ch_CacheType h) (ch_EntryCount h) (ch_LastTxID h) (ch_DataCRC32 h)
    (ch_DataLength h) (ChecksumIEEE (cache_fields h)).

Lemma length_cache_header ty n tx data : length (CacheHeader_Serialize (NewHeader ty n tx data)) = 48%nat.
Proof. done. Qed.

Lemma ReadFull_app a b : ReadFull (length a) (a ++ b) = (Ok a, b).
Proof.
  unfold ReadFull. rewrite decide_False by (rewrite length_app; lia). by rewrite take_app_length, drop_app_length.
Qed.

Section RoundTrip.
Context (ty : byte) (n tx : Z) (data : bytes).
Hypothesis Hn : is_uint64 n.
Hypothesis Htx : is_uint64 tx.
Hypothesis Hdata : len data < 2 ^ 63.

Lemma cache_header_read :
  CacheHeader_Deserialize (CacheHeader_Serialize (NewHeader ty n tx data)) = Ok (written ty n tx data).
Proof.
  unfold CacheHeader_Deserialize. rewrite decide_False by done.
  assert (is_uint64 (len data)) as Hl by (pose proof (len_nonneg data); unfold is_uint64; lia).
  pose proof (ChecksumIEEE_range data) as Hc. set (h := NewHeader ty n tx data).
  pose proof (ChecksumIEEE_range (cache_fields h)) as Hc2.
  unfold CacheHeader_Serialize, written. fold h. set (crc := ChecksumIEEE (cache_fields h)) in *.
  unfold cache_fields. cbn [h NewHeader ch_Magic ch_Version ch_CacheType ch_EntryCount ch_LastTxID ch_DataCRC32 ch_DataLength].
  rewrite <- !app_assoc, <- (app_nil_r (put32 crc)).
  assert (forall o k r, (4 <= o)%nat -> field (CacheMagic ++ r) o k = field r (o - 4) k) as F1 by (intros; by apply field_skip).
  assert (forall o k r, (7 <= o)%nat -> field (zeros 7 ++ r) o k = field r (o - 7) k) as F2 by (intros; by apply field_skip).
  assert (is_uint32 CacheVersion) as Hv by done.
  f_equal. f_equal; rewrite ?F1 by lia; cbn [Nat.sub]; fields; rewrite ?F2 by lia; cbn [Nat.sub]; by fields.
Qed.

Lemma cache_file_header k : (48 <= k)%nat ->
  ReadFull (Z.to_nat HeaderSize) (take k (WriteFile ty data n tx)) =
  (Ok (CacheHeader_Serialize (NewHeader ty n tx data)), take (k - 48) data).
Proof.
  intros Hk. unfold WriteFile. rewrite take_app, length_cache_header, firstn_all2 by (rewrite length_cache_header; lia).
  change (Z.to_nat HeaderSize) with (length (CacheHeader_Serialize (NewHeader ty n tx data))). apply ReadFull_app.
Qed.

Lemma cache_crc_ok : ValidateHeaderCRC (written ty n tx data) (CacheHeader_Serialize (NewHeader ty n tx data)) = Ok tt.
Proof.
  unfold ValidateHeaderCRC. rewrite decide_False by done.
  replace (take 44 (CacheHeader_Serialize (NewHeader ty n tx data))) with (cache_fields (NewHeader ty n tx data)); [by rewrite decide_False by naive_solver |].
  unfold CacheHeader_Serialize. by rewrite take_app_length'.
Qed.

(** What is read from the first [k] bytes of the file. *)
Lemma cache_read k expType expTx :
  ReadFile (Some (take k (WriteFile ty data n tx))) expType expTx =
  if decide (48 <= k)%nat then
    if decide (ty <> expType) then Err ErrInvalidType
    else if decide (tx <> expTx) then Err ErrStaleTxID
    else if decide (48 + length data <= k)%nat then Ok (data, written ty n tx data)
    else Err (if decide (k = 48%nat) then io_EOF else io_ErrUnexpectedEOF)
  else Err (if decide (k = 0%nat) then io_EOF else io_ErrUnexpectedEOF).
Proof.
  unfold ReadFile. case_decide as Hk.
  - rewrite (bind_ok _ _ _ _ _ (cache_file_header k Hk)).
    erewrite bind_ok by (unfold lift; by rewrite cache_header_read). erewrite bind_ok by (unfold lift; by rewrite cache_crc_ok).
    unfold lift, CacheHeader_Validate. cbn [written NewHeader ch_Magic ch_Version ch_CacheType ch_LastTxID ch_DataLength].
    replace (bytes_eqb CacheMagic CacheMagic) with true by done. cbn [negb]. rewrite (decide_False (P := CacheVersion <> CacheVersion)) by naive_solver.
    rewrite bind_run. destruct (decide (ty <> expType)) as [|Hty]; [done |]. destruct (decide (tx <> expTx)) as [|Htx']; [done |].
    rewrite decide_False by lia. replace (Z.to_nat (len data)) with (length data) by (unfold len; lia). unfold ReadFull at 1. rewrite bind_run.
    destruct (decide (48 + length data <= k)%nat) as [Hd|Hd].
    + rewrite decide_False by (rewrite length_take; lia). rewrite (firstn_all2 (n := k - 48) data) by lia.
      rewrite firstn_all. cbn. unfold lift, ValidateDataCRC. cbn.
      unfold uint64. rewrite Z.mod_small by (pose proof (len_nonneg data); lia).
      rewrite !decide_False by naive_solver. done.
    + rewrite decide_True by (rewrite length_take; lia). cbn [fst]. do 2 f_equal.
      destruct (decide (k = 48%nat)) as [->|Hk2]; [done |]. rewrite decide_False; [done |]. intros E. apply (f_equal length) in E.
      rewrite length_take in E. cbn in E. lia.
  - assert (length (take k (WriteFile ty data n tx)) < Z.to_nat HeaderSize)%nat as Hl.
    { rewrite length_take. change (Z.to_nat HeaderSize) with 48%nat. lia. }
    rewrite bind_run. unfold ReadFull at 1. rewrite (decide_True _ _ Hl).
    cbn [fst]. do 2 f_equal. destruct (decide (k = 0%nat)) as [->|Hk0]; [done |]. rewrite decide_False; [done |].
    unfold WriteFile. intros E. apply (f_equal length) in E. rewrite length_take, length_app, length_cache_header in E. cbn in E. lia.
Qed.

Lemma cache_roundtrip expType expTx :
  ReadFile (Some (WriteFile ty data n tx)) expType expTx =
  if decide (ty <> expType) then Err ErrInvalidType
  else if decide (tx <> expTx) then Err ErrStaleTxID
  else Ok (data, written ty n tx data).
Proof.
  rewrite <- (firstn_all (WriteFile ty data n tx)), cache_read. unfold WriteFile.
  rewrite length_app, length_cache_header, (decide_True (P := (48 <= _)%nat)) by lia.
  destruct (decide (ty <> expType)); [done |]. destruct (decide (tx <> expTx)); [done |]. by rewrite decide_True by lia.
Qed.
End RoundTrip.
