(* ===== verification/Ngram.v ===== *)
(** * N-grams and the substring index (src/internal/storage/index/ngram.go, substring.go)

    The model; the wildcard matcher is proved equal to a declarative reading of patterns, and
    the n-grams that a search looks up are compared with those that a value is indexed under. *)

From S2P Require Import Prelude GoBinary GoStrings Page BTree BTreeOps BTreeDelete.

Definition star : byte := x2a.
Definition question : byte := x3f.

(** ** ngram.go *)

Definition NgramSize : Z := 3.

Section Ngrams.
Context {UT : UnicodeTables}.

(** [s[i:i+n]] panics for a negative [n]. *)
Definition GenerateNgrams (s : gostring) (n : Z) : outcome (list gostring) :=
  if decide (len s = 0) then Ok []
  else
    let s := ToLower s in
    if decide (len s < n) then Ok [s]
    else if decide (n < 0) then Panic
    else Ok ((fun i => ReadAt s i (Z.to_nat n)) <$> seq 0 (Z.to_nat (len s - n + 1))).

Definition GenerateNgramsDefault (s : gostring) : outcome (list gostring) := GenerateNgrams s NgramSize.

(** [seen] and [unique] grow together. *)
Fixpoint unique_from (seen : gset gostring) (l : list gostring) : list gostring :=
  match l with
  | [] => []
  | x :: l => if decide (x ∈ seen) then unique_from seen l else x :: unique_from ({[x]} ∪ seen) l
  end.

Definition GenerateUniqueNgrams (s : gostring) (n : Z) : outcome (list gostring) :=
  ngrams ← GenerateNgrams s n; Ok (unique_from ∅ ngrams).

Definition NormalizeForNgram (s : gostring) : gostring := TrimSpace (ToLower s).

(** [strings.Trim(s, "*")]. *)
Definition trim_star (s : gostring) : gostring :=
  let l := strip (length s) [[star]] s in rev (strip (length l) [[star]] (rev l)).

Fixpoint part_ngrams (parts : list gostring) (n : Z) : outcome (list gostring) :=
  match parts with
  | [] => Ok []
  | part :: parts =>
      ngrams ← (if decide (len part > 0) then GenerateNgrams part n else Ok []);
      rest ← part_ngrams parts n;
      Ok (ngrams ++ rest)
  end.

Definition ExtractSearchableNgrams (pattern : gostring) (n : Z) : outcome (list gostring) :=
  let pattern := trim_star pattern in
  if decide (len pattern = 0) then Ok [] else part_ngrams (Split star pattern) n.

Definition IsValidNgramCandidate (s : gostring) (n : Z) : bool := bool_decide (len (TrimSpace s) <> 0).

Definition CountNgrams (s : gostring) (n : Z) : Z :=
  let s := ToLower s in
  if decide (len s = 0) then 0 else if decide (len s < n) then 1 else len s - n + 1.

Definition NgramOverlap (s1 s2 : gostring) (n : Z) : outcome Z :=
  ngrams1 ← GenerateUniqueNgrams s1 n;
  ngrams2 ← GenerateUniqueNgrams s2 n;
  Ok (len (filter (fun g => g ∈ ngrams1) ngrams2)).

(** ** substring.go: patterns *)

(** [dp[0][j..]] from [dp[0][j]]. *)
Fixpoint first_row (cur : bool) (pattern : bytes) : list bool :=
  cur :: match pattern with
         | [] => []
         | c :: pattern => first_row (if byte_eqb c star then cur else false) pattern
         end.

(** [dp[i][j..]] from [dp[i][j]], the byte [value[i-1]] and the row above. *)
Fixpoint next_row (b : byte) (cur : bool) (pattern : bytes) (above : list bool) : list bool :=
  cur :: match pattern, above with
         | c :: pattern, d :: ((d' :: _) as above') =>
             next_row b (if byte_eqb c star then cur || d'
                         else if byte_eqb c question || byte_eqb b c then d else false) pattern above'
         | _, _ => []
         end.

Definition matchWildcard (value pattern : gostring) : bool :=
  default false (last (foldl (fun row b => next_row b false pattern row) (first_row true pattern) value)).

Definition MatchesPattern (value pattern : gostring) : bool := matchWildcard (ToLower value) (ToLower pattern).

Definition FilterByPattern (values : list gostring) (pattern : gostring) : list gostring :=
  List.filter (fun v => MatchesPattern v pattern) values.

(** ** substring.go: the index *)

(** [set] has the references of the shorter list not yet in the result. *)
Fixpoint intersect_from (set : list EntryRef) (b : list EntryRef) : list EntryRef :=
  match b with
  | [] => []
  | r :: b => if decide (r ∈ set) then r :: intersect_from (filter (fun x => x <> r) set) b else intersect_from set b
  end.

Definition intersectRefs (a b : list EntryRef) : list EntryRef :=
  if decide (len a = 0 \/ len b = 0) then []
  else if decide (len a > len b) then intersect_from b a else intersect_from a b.

Record SubstringIndex := mkSubstringIndex { si_tree : BPlusTree; si_ngramSize : Z }.

Definition on_tree {A} (m : TM A) : M SubstringIndex A := fun si =>
  let '(r, t) := m (si_tree si) in (r, mkSubstringIndex t (si_ngramSize si)).

Definition si_pure {A} (r : outcome A) : M SubstringIndex A := fun si => (r, si).

Definition ngram_size (n : Z) : Z := if decide (n <= 0) then NgramSize else n.

Section Index.
Context (disk_limit : Z).

Definition NewSubstringIndexWithSize (pm : PageManager) (ngramSize : Z) : outcome SubstringIndex :=
  tree ← NewBPlusTree disk_limit pm 0; Ok (mkSubstringIndex tree (ngram_size ngramSize)).

Definition NewSubstringIndex (pm : PageManager) : outcome SubstringIndex := NewSubstringIndexWithSize pm NgramSize.

Definition NewSubstringIndexWithRoot (pm : PageManager) (rootPageID ngramSize : Z) : outcome SubstringIndex :=
  tree ← NewBPlusTreeWithRoot pm rootPageID 0; Ok (mkSubstringIndex tree (ngram_size ngramSize)).

Definition ErrEmptyValue : goerror := ErrConst "ErrEmptyValue".
Definition ErrEmptyPattern : goerror := ErrConst "ErrEmptyPattern".

Definition SubstringIndex_Index (value : gostring) (ref : EntryRef) : M SubstringIndex unit :=
  if decide (len value = 0) then fail ErrEmptyValue
  else
    n ← gets si_ngramSize;
    ngrams ← si_pure (GenerateUniqueNgrams value n);
    for_each ngrams (fun ngram => on_tree (Tree_Insert disk_limit ngram ref)).

(** [ErrKeyNotFound] is ignored. *)
Definition SubstringIndex_Remove (value : gostring) (ref : EntryRef) : M SubstringIndex unit :=
  if decide (len value = 0) then fail ErrEmptyValue
  else
    n ← gets si_ngramSize;
    ngrams ← si_pure (GenerateUniqueNgrams value n);
    for_each ngrams (fun ngram =>
      r ← try (on_tree (Delete ngram ref));
      match r with
      | inr e => if decide (e = ErrKeyNotFound) then mret tt else fail e
      | inl _ => mret tt
      end).

Fixpoint search_rest (results : list EntryRef) (ngrams : list gostring) : M SubstringIndex (list EntryRef) :=
  match ngrams with
  | [] => mret results
  | ngram :: ngrams =>
      rs ← on_tree (Tree_Search ngram);
      let results := intersectRefs results rs in
      if decide (len results = 0) then mret [] else search_rest results ngrams
  end.

Definition SubstringIndex_Search (pattern : gostring) : M SubstringIndex (list EntryRef) :=
  if decide (len pattern = 0) then fail ErrEmptyPattern
  else
    n ← gets si_ngramSize;
    ngrams ← si_pure (ExtractSearchableNgrams pattern n);
    match ngrams with
    | [] => mret []
    | ngram :: ngrams =>
        results ← on_tree (Tree_Search ngram);
        if decide (len results = 0) then mret [] else search_rest results ngrams
    end.

Definition SearchSubstring (substring : gostring) : M SubstringIndex (list EntryRef) :=
  SubstringIndex_Search (star :: substring ++ [star]).

Definition SubstringIndex_SearchPrefix (prefix : gostring) : M SubstringIndex (list EntryRef) :=
  SubstringIndex_Search (prefix ++ [star]).

Definition SearchSuffix (suffix : gostring) : M SubstringIndex (list EntryRef) :=
  SubstringIndex_Search (star :: suffix).
End Index.
End Ngrams.

(** ** The matcher against a reading of patterns *)

(** What one character of a pattern stands for. *)
Definition fits (c : byte) (seg : bytes) : Prop :=
  c = star \/ (c <> star /\ exists b, seg = [b] /\ (c = question \/ b = c)).

(** A value matches when it is cut into one piece for each character of the pattern. *)
Definition glob (value pattern : bytes) : Prop := exists segs, Forall2 fits pattern segs /\ concat segs = value.

Lemma glob_nil v : glob v [] <-> v = [].
Proof.
  split; [intros (segs & H & <-); by apply Forall2_nil_inv_l in H as -> | intros ->; exists []; by split; [constructor |]].
Qed.

Lemma glob_snoc v p c : glob v (p ++ [c]) <-> exists v' seg, v = v' ++ seg /\ glob v' p /\ fits c seg.
Proof.
  split.
  - intros (segs & (s1 & s2 & H1 & (seg & l & Hs & H2 & ->)%Forall2_cons_inv_l & ->)%Forall2_app_inv_l & <-).
    apply Forall2_nil_inv_l in H2 as ->. exists (concat s1), seg. rewrite concat_app. cbn. rewrite app_nil_r.
    split_and!; [done | by exists s1 | done].
  - intros (v' & seg & -> & (s1 & H1 & <-) & Hs). exists (s1 ++ [seg]). split.
    + apply Forall2_app; [done |]. by apply Forall2_cons.
    + rewrite concat_app. cbn. by rewrite app_nil_r.
Qed.

Lemma glob_star_nil p : glob [] (p ++ [star]) <-> glob [] p.
Proof.
  rewrite glob_snoc. split.
  - intros (v & seg & [-> ->]%eq_sym%app_eq_nil & H & _). done.
  - intros H. exists [], []. split_and!; [done | done | by left].
Qed.

Lemma glob_star_snoc v b p : glob (v ++ [b]) (p ++ [star]) <-> glob (v ++ [b]) p \/ glob v (p ++ [star]).
Proof.
  rewrite !glob_snoc. split.
  - intros (v' & seg & E & H & _). destruct seg as [|x seg _] using rev_ind.
    + left. by rewrite E, app_nil_r.
    + right. rewrite app_assoc in E. apply app_inj_tail in E as [-> ->]. exists v', seg. split_and!; [done | done | by left].
  - intros [H|(v' & seg & -> & H & Hs)].
    + exists (v ++ [b]), []. rewrite app_nil_r. split_and!; [done | done | by left].
    + exists v', (seg ++ [b]). rewrite app_assoc. split_and!; [done | done | by left].
Qed.

Lemma glob_char_nil p c : c <> star -> ~ glob [] (p ++ [c]).
Proof.
  intros Hc (v & seg & [-> ->]%eq_sym%app_eq_nil & _ & [?|(_ & b & ? & _)])%glob_snoc; done.
Qed.

Lemma glob_char_snoc v b p c : c <> star -> glob (v ++ [b]) (p ++ [c]) <-> (c = question \/ b = c) /\ glob v p.
Proof.
  intros Hc. rewrite glob_snoc. split.
  - intros (v' & seg & E & H & [?|(_ & b' & -> & Hb)]); [done |]. by apply app_inj_tail in E as [-> ->].
  - intros [Hb H]. exists v, [b]. split_and!; [done | done |]. right. split; [done |]. by exists b.
Qed.

(** The entries of a row of the table, from the prefix [pre] of the pattern on. *)
Inductive row_ok (v : bytes) : bytes -> bytes -> list bool -> Prop :=
| ro_nil pre b : (b = true <-> glob v pre) -> row_ok v pre [] [b]
| ro_cons pre c suf b row :
    (b = true <-> glob v pre) -> row_ok v (pre ++ [c]) suf row -> row_ok v pre (c :: suf) (b :: row).

Lemma first_row_ok cur pre suf : (cur = true <-> glob [] pre) -> row_ok [] pre suf (first_row cur suf).
Proof.
  revert cur pre. induction suf as [|c suf IH]; intros cur pre H; cbn; [by constructor |].
  constructor; [done |]. apply IH. unfold byte_eqb. case_bool_decide as Hc.
  - subst c. by rewrite glob_star_nil.
  - split; [done |]. intros Hg. by apply glob_char_nil in Hg.
Qed.

Lemma next_row_ok v b cur pre suf above :
  (cur = true <-> glob (v ++ [b]) pre) -> row_ok v pre suf above -> row_ok (v ++ [b]) pre suf (next_row b cur suf above).
Proof.
  intros H Hr. revert cur H. induction Hr as [pre d Hd|pre c suf d row Hd Hr IH]; intros cur H; cbn [next_row]; [by constructor |].
  assert (exists d' r, row = d' :: r /\ (d' = true <-> glob v (pre ++ [c]))) as (d' & r & -> & Hd')
    by (inversion Hr; subst; eexists _, _; by split).
  constructor; [done |]. apply IH. unfold byte_eqb. case_bool_decide as Hc.
  - subst c. rewrite glob_star_snoc, orb_true_iff. tauto.
  - rewrite glob_char_snoc by done. destruct (bool_decide (c = question)) eqn:Eq, (bool_decide (b = c)) eqn:Eb; cbn;
      repeat (match goal with H : bool_decide _ = true |- _ => apply bool_decide_eq_true in H
                        | H : bool_decide _ = false |- _ => apply bool_decide_eq_false in H end); naive_solver.
Qed.

Lemma row_last v pre suf row : row_ok v pre suf row -> exists b, last row = Some b /\ (b = true <-> glob v (pre ++ suf)).
Proof.
  induction 1 as [pre b H|pre c suf b row H Hr IH]; [exists b; by rewrite app_nil_r |].
  destruct IH as (b' & Hl & Hb'). exists b'. rewrite <- app_assoc in Hb'. split; [| done].
  by destruct row.
Qed.

Lemma rows_ok u v p row :
  row_ok u [] p row -> row_ok (u ++ v) [] p (foldl (fun row b => next_row b false p row) row v).
Proof.
  revert u row. induction v as [|b v IH]; intros u row H; cbn; [by rewrite app_nil_r |].
  assert (u ++ b :: v = (u ++ [b]) ++ v) as -> by by rewrite <- app_assoc. apply IH, next_row_ok; [| done].
  rewrite glob_nil. split; [done |]. intros E. by apply app_eq_nil in E as [_ ?].
Qed.

Lemma matchWildcard_spec value pattern : matchWildcard value pattern = true <-> glob value pattern.
Proof.
  unfold matchWildcard. destruct (row_last value [] pattern _ (rows_ok [] value pattern _
    (first_row_ok true [] pattern (conj (fun _ => proj2 (glob_nil []) eq_refl) (fun _ => eq_refl))))) as (b & -> & Hb). done.
Qed.

(** ** Candidates *)

(** A literal part of the pattern occurs in the value. *)
Lemma glob_infix v a part b :
  star ∉ part -> question ∉ part -> glob v (a ++ part ++ b) -> exists x y, v = x ++ part ++ y.
Proof.
  intros Hs Hq (segs & Hg & <-). apply Forall2_app_inv_l in Hg as (s1 & s2 & _ & Hg2 & ->).
  apply Forall2_app_inv_l in Hg2 as (s3 & s4 & H & _ & ->).
  exists (concat s1), (concat s4). rewrite !concat_app. f_equal. f_equal. clear s1 s4.
  revert s3 H. induction part as [|c part IH]; intros s3 H; [by apply Forall2_nil_inv_l in H as -> |].
  apply Forall2_cons_inv_l in H as (seg & l & [?|(_ & x & -> & [?|?])] & H' & ->); [set_solver | set_solver |]. subst x.
  cbn. f_equal. apply IH; set_solver.
Qed.

Lemma strip_infix fuel ps s : exists l, s = l ++ strip fuel ps s.
Proof.
  revert s. induction fuel as [|fuel IH]; intros s; cbn; [by exists [] |].
  destruct (List.find _ ps) as [p|]; [| by exists []].
  destruct (IH (drop (length p) s)) as [l Hl]. exists (take (length p) s ++ l). by rewrite <- app_assoc, <- Hl, take_drop.
Qed.

Lemma trim_infix s : exists l r, s = l ++ trim_star s ++ r.
Proof.
  unfold trim_star. destruct (strip_infix (length s) [[star]] s) as [l Hl]. set (t := strip _ _ s) in *.
  destruct (strip_infix (length t) [[star]] (rev t)) as [r Hr]. exists l, (rev r). rewrite <- rev_app_distr, <- Hr.
  by rewrite rev_involutive.
Qed.

Lemma Split_infix sep s part : part ∈ Split sep s -> sep ∉ part /\ exists x y, s = x ++ part ++ y.
Proof.
  revert part. induction s as [|b s IH]; intros part; cbn [Split].
  - intros ->%list_elem_of_singleton. split; [set_solver |]. by exists [], [].
  - unfold byte_eqb. case_bool_decide as Hb.
    + intros [->|Hin]%elem_of_cons; [split; [set_solver |]; by exists [], (b :: s) |].
      destruct (IH _ Hin) as (Hp & x & y & ->). split; [done |]. by exists (b :: x), y.
    + destruct (Split sep s) as [|r l] eqn:El; [by apply split_ne in El |].
      intros [->|Hin]%elem_of_cons.
      * destruct (IH r ltac:(left)) as (Hp & x & y & E). split; [apply not_elem_of_cons; naive_solver |].
        destruct x as [|x0 x].
        -- exists [], y. cbn in *. by rewrite E.
        -- pose proof El as El2. assert (exists z, s = r ++ z) as [z ->]; [| by exists [], z].
           clear -El. revert r l El. induction s as [|c s IH]; intros r l E; cbn in E; [injection E as <- <-; by exists [] |].
           destruct (byte_eqb c sep); [injection E as <- <-; by exists (c :: s) |].
           destruct (Split sep s) as [|r' l'] eqn:E'; [by apply split_ne in E' |]. injection E as <- <-.
           destruct (IH _ _ eq_refl) as [z ->]. by exists z.
      * destruct (IH part ltac:(by right)) as (Hp & x & y & ->). split; [done |]. by exists (b :: x), y.
Qed.

Lemma star_lower b : lower_byte b = star <-> b = star.
Proof. by destruct b; vm_compute. Qed.

Lemma lower_question b : lower_byte b = question <-> b = question.
Proof. by destruct b; vm_compute. Qed.

Lemma not_in_lower c s : (forall b, lower_byte b = c <-> b = c) -> c ∉ s -> c ∉ lower_ascii s.
Proof. intros Hc Hn (b & Hb & Hin)%list_elem_of_fmap. symmetry in Hb. apply (proj1 (Hc b)) in Hb. by subst b. Qed.

Lemma ngram_infix (s x t y : bytes) n i :
  s = x ++ t ++ y -> (i + n <= length t)%nat -> ReadAt t i n = ReadAt s (length x + i) n.
Proof.
  intros -> H. unfold ReadAt. rewrite drop_app_ge by lia. replace (length x + i - length x)%nat with i by lia.
  rewrite drop_app_le by lia. rewrite take_app_le; [done |]. rewrite length_drop. lia.
Qed.

Section Candidates.
Context {UT : UnicodeTables}.

(** The n-grams of a string that has at least one. *)
Lemma GenerateNgrams_run s n :
  is_ascii s = true -> 0 < n <= len s ->
  GenerateNgrams s n = Ok ((fun i => ReadAt (lower_ascii s) i (Z.to_nat n)) <$> seq 0 (Z.to_nat (len s - n + 1))).
Proof.
  intros Ha Hn. unfold GenerateNgrams. rewrite decide_False by lia. rewrite ToLower_ascii by done.
  assert (len (lower_ascii s) = len s) as -> by (unfold len, lower_ascii; by rewrite length_fmap).
  by rewrite !decide_False by lia.
Qed.

Lemma is_ascii_infix x t y : is_ascii (x ++ t ++ y) = true -> is_ascii t = true.
Proof. unfold is_ascii. rewrite !forallb_app, !andb_true_iff. tauto. Qed.

Lemma elem_of_unique seen l x : x ∈ unique_from seen l <-> x ∈ l /\ x ∉ seen.
Proof.
  revert seen. induction l as [|y l IH]; intros seen; cbn; [set_solver |].
  case_decide; rewrite ?elem_of_cons, IH; [set_solver |]. destruct (decide (x = y)); set_solver.
Qed.

Lemma part_ngrams_elem parts n gs g :
  part_ngrams parts n = Ok gs -> g ∈ gs ->
  exists part ps, part ∈ parts /\ part <> [] /\ GenerateNgrams part n = Ok ps /\ g ∈ ps.
Proof.
  revert gs. induction parts as [|p parts IH]; intros gs; cbn; [intros [= <-]; set_solver |]. case_decide as Hp.
  - destruct (GenerateNgrams p n) as [ps| | |] eqn:Ep; try done. cbn.
    destruct (part_ngrams parts n) as [qs| | |] eqn:Eq; try done. intros [= <-] [Hg|Hg]%elem_of_app.
    + exists p, ps. split_and!; [set_solver | by intros -> | done | done].
    + destruct (IH _ eq_refl Hg) as (part & ps' & ? & ?). exists part, ps'. set_solver.
  - cbn. destruct (part_ngrams parts n) as [qs| | |] eqn:Eq; try done. intros [= <-] Hg.
    destruct (IH _ eq_refl Hg) as (part & ps' & ? & ?). exists part, ps'. set_solver.
Qed.

(** C20: the n-grams of patterns and values, both in ASCII. The wildcard matcher, a table,
    decides the usual meaning of a pattern, that the value can be cut into one piece for each of
    its characters. If the pattern has no question mark, no literal part shorter than an n-gram
    and n-grams at all, the n-grams of a value that matches it include all those that a search
    for the pattern looks up. (Whether the trees of the index then still have the value is
    another matter, see [btree_duplicates_lost].) *)
Theorem substring_candidates value pattern n gs :
  is_ascii value = true -> is_ascii pattern = true -> 0 < n -> question ∉ pattern ->
  Forall (fun part => part = [] \/ n <= len part) (Split star (trim_star pattern)) ->
  ExtractSearchableNgrams pattern n = Ok gs ->
  (MatchesPattern value pattern = true <-> glob (lower_ascii value) (lower_ascii pattern))
  /\ (MatchesPattern value pattern = true -> gs <> [] ->
      exists vs, GenerateUniqueNgrams value n = Ok vs /\ gs ⊆ vs).
Proof.
  intros Hv Hp Hn Hq Hparts Hgs. unfold MatchesPattern. rewrite !ToLower_ascii by done. rewrite matchWildcard_spec.
  split; [done |]. intros Hm Hne.
  (* every part of the pattern is found in the value *)
  assert (forall part, part ∈ Split star (trim_star pattern) ->
    is_ascii part = true /\ exists x y, lower_ascii value = x ++ lower_ascii part ++ y) as Hin.
  { intros part Hpart. apply Split_infix in Hpart as (Hs & x & y & E). destruct (trim_infix pattern) as (l & r & El).
    assert (pattern = (l ++ x) ++ part ++ (y ++ r)) as Epat by by rewrite El, E, <- !app_assoc.
    split; [eapply is_ascii_infix; by rewrite <- Epat |]. rewrite Epat in Hm. unfold lower_ascii in Hm. rewrite !fmap_app in Hm.
    rewrite <- fmap_app in Hm. apply glob_infix in Hm; [done | |].
    - apply not_in_lower; [apply star_lower | done].
    - apply not_in_lower; [apply lower_question |]. rewrite Epat in Hq. set_solver. }
  assert (forall g, g ∈ gs -> exists i, g = ReadAt (lower_ascii value) i (Z.to_nat n) /\ Z.of_nat i + n <= len value) as Hg.
  { intros g Hg. unfold ExtractSearchableNgrams in Hgs. case_decide; [injection Hgs as <-; set_solver |].
    destruct (part_ngrams_elem _ _ _ _ Hgs Hg) as (part & ps & Hpart & Hpne & Hps & Hgp).
    destruct (Hin _ Hpart) as (Ha & x & y & E). rewrite Forall_forall in Hparts. destruct (Hparts _ Hpart) as [?|Hl]; [done |].
    rewrite (GenerateNgrams_run part n Ha ltac:(lia)) in Hps. injection Hps as <-.
    apply list_elem_of_fmap in Hgp as (i & -> & [_ Hi]%elem_of_seq). assert (length (lower_ascii part) = length part) as Elen by apply length_fmap.
    unfold len in *. exists (length x + i)%nat. split; [apply (ngram_infix _ _ _ y); [done | lia] |].
    assert (length value = length (x ++ lower_ascii part ++ y)) as -> by (by rewrite <- E; unfold lower_ascii; rewrite length_fmap).
    rewrite !length_app. lia. }
  assert (n <= len value) as Hlen.
  { destruct gs as [|g gs']; [done |]. destruct (Hg g ltac:(left)) as (i & _ & Hi). lia. }
  unfold GenerateUniqueNgrams. rewrite (GenerateNgrams_run value n Hv ltac:(lia)). cbn. eexists. split; [done |].
  intros g Hgin. apply elem_of_unique. split; [| set_solver]. destruct (Hg g Hgin) as (i & -> & Hi).
  apply list_elem_of_fmap. exists i. split; [done |]. apply elem_of_seq. lia.
Qed.
End Candidates.

(** ** Concrete searches *)

Module NgramExample.
#[export] Instance tables : UnicodeTables := {| lower_unicode s := s; fold_unicode s t := bytes_eqb s t |}.
Definition limit : Z := 2 ^ 40.
Definition ref : EntryRef := mkEntryRef 7 0 (str "cn=cabd").

(** A new index with one value, and a search. *)
Definition find (pattern : string) : outcome (list EntryRef) :=
  pm ← OpenPageManager limit None (mkOptions 0 4 true false);
  si ← NewSubstringIndex limit pm;
  ((SubstringIndex_Index limit (str "CabD") ref ;; SubstringIndex_Search (str pattern)) si).1.
End NgramExample.

Lemma substring_candidates_witness :
  (let UT := NgramExample.tables in
   exists gs vs, ExtractSearchableNgrams (str "*abd*") 3 = Ok gs /\ gs <> [] /\ GenerateUniqueNgrams (str "CabD") 3 = Ok vs /\ gs ⊆ vs).
Proof.
  intros UT. exists [str "abd"]. destruct (substring_candidates (str "CabD") (str "*abd*") 3 [str "abd"]) as [_ H].
  - reflexivity.
  - reflexivity.
  - lia.
  - set_solver.
  - apply Forall_cons. split; [right; vm_compute; congruence | by apply Forall_nil].
  - reflexivity.
  - destruct H as [vs [E Hs]]; [reflexivity | done |]. exists vs. repeat split; done.
Defined.

(** a literal part shorter than an n-gram is looked up as it is, and no value is indexed
    under it: a value that matches the pattern is not found. *)
Theorem substring_short_part_lost :
  MatchesPattern (UT := NgramExample.tables) (str "CabD") (str "*ab*") = true
  /\ NgramExample.find "*ab*" = Ok []
  /\ NgramExample.find "*abd" = Ok [NgramExample.ref].
Proof. by vm_compute. Qed.
