(* ===== verification/Index.v ===== *)
(** * The index manager (src/internal/storage/index/manager.go, types.go, cache.go)

    The B+ trees of all indexes share one page manager, so a tree is kept as its root and
    its order, and an operation on it runs over the pages of the manager. *)

From S2P Require Import Prelude GoBinary GoStrings Page BTree BTreeOps BTreeDelete BTreeIter CacheFile.

(** ** types.go *)

Definition IndexEquality : Z := 0.
Definition IndexPresence : Z := 1.
Definition IndexSubstring : Z := 2.

Record Index := mkIndex {
  ix_Attribute : gostring;
  ix_Type : Z;
  ix_root : Z;
  ix_order : Z;
  ix_RootPageID : Z
}.

Record IndexEntry := mkIndexEntry {
  ie_DN : gostring;
  ie_Attributes : gmap gostring (list bytes);
  ie_PageID : Z;
  ie_SlotID : Z
}.

Definition IndexEntry_EntryRef (e : IndexEntry) : EntryRef := mkEntryRef (ie_PageID e) (ie_SlotID e) (ie_DN e).

Definition DefaultIndexedAttributes : list gostring :=
  str <$> ["objectclass"; "uid"; "cn"; "sn"; "mail"; "memberof"]%string.

Definition PresenceMarker : bytes := [x01].

(** ** manager.go *)

Definition ErrIndexExists : goerror := ErrConst "ErrIndexExists".
Definition ErrIndexNotFound : goerror := ErrConst "ErrIndexNotFound".
Definition ErrInvalidAttribute : goerror := ErrConst "ErrInvalidAttribute".
Definition ErrManagerClosed : goerror := ErrConst "ErrManagerClosed".
Definition ErrMetadataCorrupted : goerror := ErrConst "ErrMetadataCorrupted".
Definition ErrNoMetadata : goerror := ErrConst "no metadata page found".
Definition ErrIndexCache : goerror := ErrConst "ErrCacheCorrupt".

Definition MetadataPageType : byte := xaa.
Definition MaxAttributeNameLength : Z := 256.
Definition MetadataEntryHeaderSize : Z := 12.

Record IndexManager := mkIndexManager {
  im_indexes : gmap gostring Index;
  im_pages : PageManager;
  im_metadataPageID : Z;
  im_closed : bool
}.

Abbreviation IM := (M IndexManager).

Definition set_indexes (f : gmap gostring Index -> gmap gostring Index) : IM unit := modify (fun im =>
  mkIndexManager (f (im_indexes im)) (im_pages im) (im_metadataPageID im) (im_closed im)).
Definition set_metadataPageID (id : Z) : IM unit := modify (fun im =>
  mkIndexManager (im_indexes im) (im_pages im) id (im_closed im)).
Definition set_im_closed : IM unit := modify (fun im =>
  mkIndexManager (im_indexes im) (im_pages im) (im_metadataPageID im) true).

Definition on_pages {A} (m : M PageManager A) : IM A := fun im =>
  let '(r, pm) := m (im_pages im) in (r, mkIndexManager (im_indexes im) pm (im_metadataPageID im) (im_closed im)).

(** An operation on a tree that is not in the map yet: its value, its root and its order. *)
Definition on_new_tree {A} (root order : Z) (m : TM A) : IM (A * Z * Z) := fun im =>
  let order := if decide (order <= 0) then BPlusOrder else order in
  let '(r, t) := m (mkBPlusTree root order (im_pages im)) in
  ((a ← r; Ok (a, t_root t, t_order t)),
   mkIndexManager (im_indexes im) (t_pages t) (im_metadataPageID im) (im_closed im)).

(** An operation on [idx.Tree]. *)
Definition on_index {A} (attr : gostring) (m : TM A) : IM A := fun im =>
  match im_indexes im !! attr with
  | None => (Panic, im)
  | Some idx =>
      let '(r, t) := m (mkBPlusTree (ix_root idx) (ix_order idx) (im_pages im)) in
      (r, mkIndexManager
            (<[attr := mkIndex (ix_Attribute idx) (ix_Type idx) (t_root t) (t_order t) (ix_RootPageID idx)]> (im_indexes im))
            (t_pages t) (im_metadataPageID im) (im_closed im))
  end.

Definition im_pure {A} (r : outcome A) : IM A := fun im => (r, im).

Definition when_open {A} (m : IM A) : IM A :=
  closed ← gets im_closed; if (closed : bool) then fail ErrManagerClosed else m.

Section Manager.
Context {UT : UnicodeTables} {MI : MapIteration} (disk_limit : Z).

Definition IndexEntry_GetAttribute (e : IndexEntry) (name : gostring) : list bytes :=
  match List.find (fun kv => bytes_eqb (ToLower kv.1) (ToLower name)) (range (ie_Attributes e)) with
  | Some kv => kv.2
  | None => []
  end.

(** [strings.ToLower(strings.TrimSpace(attr))]. *)
Definition index_name (attr : gostring) : gostring := ToLower (TrimSpace attr).

(** The bytes of the entries; writing the fixed fields behind the end of the page panics,
    copying the name does not. *)
Fixpoint metadata_entries (offset : Z) (es : list (gostring * Index)) : outcome bytes :=
  match es with
  | [] => Ok []
  | (attr, idx) :: es =>
      if decide (offset + 11 > Z.of_nat data_size) then Panic
      else
        rest ← metadata_entries (offset + 11 + len attr) es;
        Ok (u8 (ix_Type idx) :: put64 (ix_RootPageID idx) ++ put16 (uint16 (len attr)) ++ attr ++ rest)
  end.

Definition saveMetadata : IM unit :=
  id ← gets im_metadataPageID;
  r ← try (on_pages (ReadPage id));
  indexes ← gets im_indexes;
  let header := match r with
                | inl page => Header page
                | inr _ => Header (NewPage id PageTypeAttrIndex)
                end in
  let count := uint16 (Z.of_nat (size indexes)) in
  entries ← im_pure (metadata_entries 3 (range indexes));
  on_pages (WritePage (mkPage
    (mkPageHeader (ph_PageID header) (ph_PageType header) (ph_Flags header) count (ph_FreeSpace header) (ph_Checksum header))
    (GoBinary.pad data_size (MetadataPageType :: put16 count ++ entries)))).

Definition initializeMetadata : IM unit :=
  pageID ← on_pages (AllocatePage disk_limit PageTypeAttrIndex);
  set_metadataPageID pageID ;;
  saveMetadata.

(** The loop over the [n] entries that are left. *)
Fixpoint parse_entries (data : bytes) (n : nat) (offset : Z) : IM unit :=
  match n with
  | O => mret tt
  | S n =>
      if decide (offset + MetadataEntryHeaderSize > len data) then fail ErrMetadataCorrupted
      else
        let o := Z.to_nat offset in
        let indexType := bZ (nth o data x00) in
        let rootPageID := field data (o + 1) 8 in
        let attrLen := field data (o + 9) 2 in
        if decide (attrLen > MaxAttributeNameLength \/ offset + 11 + attrLen > len data) then fail ErrMetadataCorrupted
        else
          let attribute := ReadAt data (o + 11) (Z.to_nat attrLen) in
          t ← on_new_tree rootPageID 0 (readNode rootPageID);
          set_indexes (fun m => <[attribute := mkIndex attribute indexType t.1.2 t.2 rootPageID]> m) ;;
          parse_entries data n (offset + 11 + attrLen)
  end.

Definition parseMetadataPage (page : Page) : IM unit :=
  let data := Data page in
  if decide (len data < 1) then fail ErrMetadataCorrupted
  else if negb (byte_eqb (nth 0 data x00) MetadataPageType) then fail ErrMetadataCorrupted
  else if decide (3 > len data) then fail ErrMetadataCorrupted
  else parse_entries data (Z.to_nat (field data 1 2)) 3.

(** [for pageID := 1; uint64(pageID) < totalPages; pageID++], [n] pages left. *)
Fixpoint find_metadata (n : nat) (pageID : Z) : IM unit :=
  match n with
  | O => fail ErrNoMetadata
  | S n =>
      r ← try (on_pages (ReadPage pageID));
      match r with
      | inr _ => find_metadata n (pageID + 1)
      | inl page =>
          if byte_eqb (ph_PageType (Header page)) PageTypeAttrIndex && bool_decide (len (Data page) > 0)
             && byte_eqb (nth 0 (Data page) x00) MetadataPageType
          then set_metadataPageID pageID ;; parseMetadataPage page
          else find_metadata n (pageID + 1)
      end
  end.

Definition loadMetadata : IM unit :=
  total ← gets (fun im => totalPages (im_pages im));
  find_metadata (Z.to_nat (total - 1)) 1.

Definition createIndexInternal (attr : gostring) (indexType : Z) : IM unit :=
  let attr := index_name attr in
  if decide (attr = []) then fail ErrInvalidAttribute
  else if decide (len attr > MaxAttributeNameLength) then fail ErrInvalidAttribute
  else
    existing ← gets (fun im => im_indexes im !! attr);
    match existing with
    | Some _ => fail ErrIndexExists
    | None =>
        t ← on_new_tree InvalidPageID 0 (init_tree disk_limit);
        set_indexes (fun m => <[attr := mkIndex attr indexType t.1.2 t.2 t.1.2]> m) ;;
        saveMetadata
    end.

(** An index that exists already is no error here. *)
Definition createDefaultIndexes : IM unit :=
  for_each DefaultIndexedAttributes (fun attr =>
    r ← try (createIndexInternal attr IndexEquality);
    match r with
    | inr e => if decide (e = ErrIndexExists) then mret tt else fail e
    | inl _ => mret tt
    end).

(** [pm] is not nil. *)
Definition NewIndexManager (pm : PageManager) : outcome IndexManager :=
  let run : IM unit :=
    r ← try loadMetadata;
    match r with
    | inl _ => mret tt
    | inr _ => set_indexes (fun _ => ∅) ;; initializeMetadata ;; createDefaultIndexes
    end in
  match run (mkIndexManager ∅ pm 0 false) with
  | (Ok _, im) => Ok im
  | (Err e, _) => Err e
  | (Panic, _) => Panic
  | (Diverge, _) => Diverge
  end.

Definition CreateIndex (attr : gostring) (indexType : Z) : IM unit := when_open (createIndexInternal attr indexType).

(** [collect]: the pages in the order of their first visit; every nested call visits a page
    that was not visited before. *)
Fixpoint collect (fuel : nat) (pageID : Z) (pageIDs : list Z) : IM (list Z) :=
  if decide (pageID = InvalidPageID \/ pageID ∈ pageIDs) then mret pageIDs
  else match fuel with
       | O => diverge
       | S fuel =>
           let pageIDs := pageIDs ++ [pageID] in
           page ← on_pages (ReadPage pageID);
           r ← try (im_pure (NewNodeFromPage page));
           match r with
           | inr _ => mret pageIDs
           | inl node =>
               if IsLeaf node then collect fuel (NextLeaf node) pageIDs
               else (fix children (l : list Z) (pageIDs : list Z) : IM (list Z) :=
                       match l with
                       | [] => mret pageIDs
                       | c :: l => pageIDs ← collect fuel c pageIDs; children l pageIDs
                       end) (Children node) pageIDs
           end
       end.

Definition collectTreePages (rootPageID : Z) : IM (list Z) :=
  fuel ← gets (fun im => Z.to_nat (totalPages (im_pages im)));
  collect fuel rootPageID [].

(** Errors of [FreePage] are ignored. *)
Definition cleanupTreePages (root : Z) : IM unit :=
  if decide (root = InvalidPageID) then mret tt
  else
    pageIDs ← collectTreePages root;
    for_each pageIDs (fun id => _ ← try (on_pages (FreePage id)); mret tt).

Definition DropIndex (attr : gostring) : IM unit := when_open (
  let attr := index_name attr in
  idx ← gets (fun im => im_indexes im !! attr);
  match idx with
  | None => fail ErrIndexNotFound
  | Some idx =>
      cleanupTreePages (ix_root idx) ;;
      set_indexes (fun m => delete attr m) ;;
      saveMetadata
  end).

Definition GetIndex (attr : gostring) : IM (option Index) :=
  closed ← gets im_closed;
  if (closed : bool) then mret None else gets (fun im => im_indexes im !! index_name attr).

Definition generateSubstrings (value : bytes) : list bytes :=
  seq 0 (length value) ≫= fun start =>
    (fun e => ReadAt value start (e - start)) <$> seq (start + 3) (length value - (start + 3) + 1).

(** The loop over the values of an attribute, which a presence index leaves after the first
    that is not empty. *)
Fixpoint visit_values (indexType : Z) (visit : bytes -> IM unit) (values : list bytes) : IM unit :=
  match values with
  | [] => mret tt
  | value :: values =>
      if decide (len value = 0) then visit_values indexType visit values
      else
        (if decide (indexType = IndexEquality) then visit value else mret tt) ;;
        if decide (indexType = IndexPresence) then visit PresenceMarker
        else
          (if decide (indexType = IndexSubstring) then for_each (generateSubstrings value) visit else mret tt) ;;
          visit_values indexType visit values
  end.

Definition addToIndexes (entry : IndexEntry) : IM unit :=
  let ref := IndexEntry_EntryRef entry in
  indexes ← gets im_indexes;
  for_each (range indexes) (fun kv =>
    visit_values (ix_Type kv.2) (fun key => on_index kv.1 (Tree_Insert disk_limit key ref))
      (IndexEntry_GetAttribute entry kv.1)).

(** [_ = idx.Tree.Delete(value, ref)]. *)
Definition removeFromIndexes (entry : IndexEntry) : IM unit :=
  let ref := IndexEntry_EntryRef entry in
  indexes ← gets im_indexes;
  for_each (range indexes) (fun kv =>
    visit_values (ix_Type kv.2) (fun key => _ ← try (on_index kv.1 (Delete key ref)); mret tt)
      (IndexEntry_GetAttribute entry kv.1)).

Definition UpdateIndexes (oldEntry newEntry : option IndexEntry) : IM unit := when_open (
  match oldEntry, newEntry with
  | Some old, None => removeFromIndexes old
  | None, Some new => addToIndexes new
  | Some old, Some new => removeFromIndexes old ;; addToIndexes new
  | None, None => mret tt
  end).

Definition ListIndexes : IM (list gostring) := gets (fun im => (range (im_indexes im)).*1).

Definition IndexCount : IM Z := gets (fun im => Z.of_nat (size (im_indexes im))).

(** The page allocated for the root is handed to [NewBPlusTree] as the order of the tree. *)
Definition clear_index (attr : gostring) : IM unit :=
  rootPageID ← on_pages (AllocatePage disk_limit PageTypeAttrIndex);
  t ← on_new_tree InvalidPageID (int64 rootPageID) (init_tree disk_limit);
  set_indexes (alter (fun idx => mkIndex (ix_Attribute idx) (ix_Type idx) t.1.2 t.2 rootPageID) attr).

Definition ClearAll : IM unit := when_open (
  indexes ← gets im_indexes;
  for_each (range indexes) (fun kv => clear_index kv.1) ;;
  saveMetadata).

Definition IM_Close : IM unit := when_open (set_im_closed ;; saveMetadata).

(** The index of an attribute, for the searches. *)
Definition with_index {A} (attr : gostring) (m : TM A) : IM A := when_open (
  let attr := index_name attr in
  idx ← gets (fun im => im_indexes im !! attr);
  match idx with
  | None => fail ErrIndexNotFound
  | Some _ => on_index attr m
  end).

Definition IM_Search (attr : gostring) (value : bytes) : IM (list EntryRef) := with_index attr (Tree_Search value).

Definition SearchPresence (attr : gostring) : IM (list EntryRef) := with_index attr (Tree_Search PresenceMarker).

Definition IM_SearchRange (attr : gostring) (startValue endValue : option bytes) : IM (list EntryRef) :=
  with_index attr (SearchRange startValue endValue).

Definition IM_Sync : IM unit := when_open saveMetadata.

(** ** cache.go *)

(** No nodes are saved: [collectBTreeNodes] returns nil. *)
Definition serializeIndex (kv : gostring * Index) : bytes :=
  put16 (uint16 (len kv.1)) ++ kv.1 ++ [u8 (ix_Type kv.2)] ++ put64 (ix_RootPageID kv.2) ++ put32 0.

(** The file, or None when nothing is written. *)
Definition IM_SaveCache (txID : Z) : IM (option bytes) :=
  indexes ← gets im_indexes;
  if decide (indexes = ∅) then mret None
  else
    let n := Z.of_nat (size indexes) in
    mret (Some (WriteFile TypeBTree (put32 (uint32 n) ++ (range indexes ≫= serializeIndex)) (uint64 n) txID)).

(** [binary.Read] of [n] bytes. *)
Definition read_le (n : nat) : M bytes Z := b ← ReadFull n; mret (le_value b).

(** [buf.Read(make([]byte, n))]: an error only at the end of the data, zeros behind it. *)
Definition reader_Read (n : nat) : M bytes bytes := fun s =>
  if decide (s = []) then (Err io_EOF, []) else (Ok (GoBinary.pad n s), drop n s).

Fixpoint skip_nodes (n : nat) : M bytes unit :=
  match n with
  | O => mret tt
  | S n => size ← read_le 4; modify (drop (Z.to_nat size)) ;; skip_nodes n
  end.

Definition read_cached_index : M bytes (gostring * Z * Z) :=
  attrLen ← read_le 2;
  attr ← reader_Read (Z.to_nat attrLen);
  indexType ← read_le 1;
  rootPageID ← read_le 8;
  nodeCount ← read_le 4;
  skip_nodes (Z.to_nat nodeCount) ;;
  mret (attr, indexType, rootPageID).

(** A tree that does not load is left out. *)
Fixpoint deserialize_indexes (n : nat) (buf : bytes) : IM unit :=
  match n with
  | O => mret tt
  | S n =>
      let '(r, buf) := read_cached_index buf in
      x ← im_pure r;
      let '(attr, indexType, rootPageID) := x in
      t ← try (on_new_tree rootPageID 0 (readNode rootPageID));
      match t with
      | inr _ => mret tt
      | inl t => set_indexes (fun m => <[attr := mkIndex attr indexType t.1.2 t.2 rootPageID]> m)
      end ;;
      deserialize_indexes n buf
  end.

Definition deserializeIndexes (data : bytes) (expectedCount : Z) : IM unit :=
  if decide (len data < 4) then fail ErrIndexCache
  else
    let indexCount := field data 0 4 in
    if decide (indexCount <> expectedCount) then fail ErrIndexCache
    else deserialize_indexes (Z.to_nat indexCount) (drop 4 data).

Definition IM_LoadCache (f : option bytes) (expectedTxID : Z) : IM unit :=
  r ← im_pure (ReadFile f TypeBTree expectedTxID);
  deserializeIndexes r.1 (int64 (ch_EntryCount r.2)).
End Manager.
