(* ===== verification/IndexTheorems.v ===== *)
(** * The index manager: properties *)

From S2P Require Import Prelude GoBinary GoStrings Page BTree BTreeOps BTreeDelete BTreeIter CacheFile Index.

(** ** Operations that leave the tree as it is *)

(** [m] does not change [s], and [P] holds of what it returns. *)
Definition obs {S A} (m : M S A) (s : S) (P : A -> Prop) : Prop :=
  (m s).2 = s /\ forall a, (m s).1 = Ok a -> P a.

Lemma obs_ret {S A} (a : A) (s : S) (P : A -> Prop) : P a -> obs (mret a) s P.
Proof. intros H. split; [done |]. by intros ? [= <-]. Qed.

Lemma obs_bind {S A B} (m : M S A) (f : A -> M S B) s P Q :
  obs m s P -> (forall a, P a -> obs (f a) s Q) -> obs (a ← m; f a) s Q.
Proof.
  intros [Hs HP] Hf. unfold obs. rewrite bind_run. destruct (m s) as [[a|e| |] s'] eqn:E; cbn in *; subst s'; try (by split).
  by apply Hf, HP.
Qed.

Lemma obs_try {S A} (m : M S A) s P : obs m s P -> obs (try m) s (fun r => forall a, r = inl a -> P a).
Proof.
  intros [Hs HP]. unfold obs, try. destruct (m s) as [[a|e| |] s'] eqn:E; cbn in *; subst s'; split; try done.
  - intros ? [= <-] ? [= <-]. by apply HP.
  - intros ? [= <-]. done.
Qed.

Lemma obs_weaken {S A} (m : M S A) s (P Q : A -> Prop) : obs m s P -> (forall a, P a -> Q a) -> obs m s Q.
Proof. intros [Hs HP] H. split; [done |]. intros a E. by apply H, HP. Qed.

Lemma obs_any {S A} (m : M S A) s P : obs m s P -> obs m s (fun _ => True).
Proof. intros H. by eapply obs_weaken. Qed.

(** Code that only reads. *)
Ltac read_only :=
  repeat first [by split | eapply (obs_bind _ _ _ (fun _ => True)); [| intros ? _] | case_match].

Section Removal.
Context (t : BPlusTree).

(** No leaf of the file refers to page 0. *)
Definition located (n : BPlusNode) : Prop := Forall (fun r => e_PageID r <> 0) (Values n).
Hypothesis Hloc : forall id n, (readNode id t).1 = Ok n -> located n.

Lemma obs_ReadPage id : obs (on_pm (ReadPage id)) t (fun _ => True).
Proof.
  split; [| done]. unfold on_pm. assert ((ReadPage id (t_pages t)).2 = t_pages t) as H.
  { apply (obs_any (ReadPage id) (t_pages t) (fun _ => True)). unfold ReadPage, readPageInternal. read_only. }
  destruct (ReadPage id (t_pages t)) as [r pm]. cbn in *. subst pm. by destruct t.
Qed.

Lemma obs_readNode id : obs (readNode id) t located.
Proof.
  assert (obs (readNode id) t (fun _ => True)) as [Hs _].
  { unfold readNode. read_only. apply obs_ReadPage. }
  split; [done |]. intros n. apply Hloc.
Qed.

Lemma obs_descend n choose node above :
  located node -> obs (descend n choose node above) t (fun p => located p.1).
Proof.
  revert node above. induction n as [|n IH]; intros node above Hn; cbn; destruct (IsLeaf node); try (by apply obs_ret); try by split.
  eapply (obs_bind _ _ _ (fun _ => True)); [by split |]. intros c _.
  eapply obs_bind; [apply obs_readNode |]. intros m Hm. by apply IH.
Qed.

Lemma obs_from_root choose : obs (from_root choose) t (fun p => located p.1).
Proof.
  unfold from_root. eapply (obs_bind _ _ _ (fun _ => True)); [by split |]. intros root _. case_match; [by split |].
  eapply obs_bind; [apply obs_readNode |]. intros m Hm. eapply (obs_bind _ _ _ (fun _ => True)); [by split |].
  intros k _. by apply obs_descend.
Qed.

Lemma obs_findLeaf key : obs (findLeafWithPath key) t (fun p => located p.1).
Proof. apply obs_from_root. Qed.

Lemma obs_findLeafForPage id : obs (findLeafWithPathForPageID id) t (fun _ => True).
Proof.
  unfold findLeafWithPathForPageID. eapply (obs_bind _ _ _ (fun _ => True)); [by split |]. intros root _. case_match; [by split |].
  eapply obs_bind; [apply obs_readNode |]. intros m Hm. case_match; [by split |]. case_match; [by apply obs_ret |].
  eapply obs_any, obs_findLeaf.
Qed.

Definition cursor_ok (c : cursor) : Prop := located c.1.1.

Lemma obs_delete_back n key c : cursor_ok c -> obs (delete_back n key c) t cursor_ok.
Proof.
  revert c. induction n as [|n IH]; intros [[leaf path] al] Hc; cbn [delete_back]; case_match; try (by apply obs_ret);
    (eapply obs_bind; [apply obs_try, obs_readNode |]); intros [prev|e] Hp; try (by apply obs_ret);
    case_match; try (by apply obs_ret); (eapply obs_bind; [eapply obs_try, obs_findLeafForPage |]); intros [p|e] _; try (by apply obs_ret); try by split.
  apply IH. by apply Hp.
Qed.

Lemma obs_next_with_key key leaf : obs (next_with_key key leaf) t (fun c => forall x, c = Some x -> cursor_ok x).
Proof.
  unfold next_with_key. case_match; [by apply obs_ret |]. eapply obs_bind; [apply obs_try, obs_readNode |].
  intros [next|e] Hp; [| by apply obs_ret]. case_match; [by apply obs_ret |]. case_match; [by apply obs_ret |].
  eapply obs_bind; [eapply obs_try, obs_findLeafForPage |]. intros [p|e] _; apply obs_ret; [| done].
  intros x [= <-]. by apply Hp.
Qed.

(** A reference to page 0 is not found. *)
Lemma find_ref_none key ref i es :
  e_PageID ref = 0 -> Forall (fun r => e_PageID r <> 0) es.*2 -> find_ref key ref i es = None.
Proof.
  intros Hr. revert i. induction es as [|[k v] es IH]; intros i; cbn; [done |]. intros [Hv H]%Forall_cons.
  case_decide; [done |]. rewrite decide_False by (intros [E _]; cbn in Hv; congruence). by apply IH.
Qed.

Lemma located_entries leaf i : located leaf -> Forall (fun r => e_PageID r <> 0) (drop i (BTreeOps.entries leaf)).*2.
Proof.
  unfold located, BTreeOps.entries. rewrite !Forall_forall. intros H r (kv & -> & Hin)%list_elem_of_fmap.
  apply H. assert (kv ∈ zip (Keys leaf) (Values leaf)) as (j & Hj)%list_elem_of_lookup_1
    by (rewrite <- (take_drop i (zip _ _)); by apply elem_of_app; right).
  destruct kv as [k v]. apply lookup_zip_with_Some in Hj as (x & y & [= <- <-] & _ & Hy).
  by eapply list_elem_of_lookup_2.
Qed.

Lemma obs_delete_loop n key ref c : e_PageID ref = 0 -> cursor_ok c -> obs (delete_loop n key ref c) t (fun _ => True).
Proof.
  intros Hr. revert c. induction n as [|n IH]; intros [[leaf path] al] Hc; cbn [delete_loop];
    (eapply (obs_bind _ _ _ (fun _ => True)); [by split |]); intros f _;
    rewrite find_ref_none by (done || by apply located_entries);
    (replace (if f.2 then None else None) with (@None nat) by by destruct f.2);
    (eapply obs_bind; [apply obs_next_with_key |]); intros [c'|] Hc'; try by split.
  apply IH. by apply Hc'.
Qed.

Lemma obs_Delete key ref : e_PageID ref = 0 -> obs (Delete key ref) t (fun _ => True).
Proof.
  intros Hr. unfold Delete. case_match; [by split |].
  eapply (obs_bind _ _ _ cursor_ok).
  { unfold start_at. eapply obs_bind; [apply obs_findLeaf |]. intros p Hp. by apply obs_ret. }
  intros c Hc. eapply (obs_bind _ _ _ (fun _ => True)); [by split |]. intros k _.
  eapply obs_bind; [by apply obs_delete_back |]. intros c' Hc'. by apply obs_delete_loop.
Qed.
End Removal.

Section Manager.
Context {UT : UnicodeTables} {MI : MapIteration}.

(** Every reference in the file of the manager is to a page of an entry; no entry is on page 0. *)
Definition all_located (im : IndexManager) : Prop :=
  forall root order id n, (readNode id (mkBPlusTree root order (im_pages im))).1 = Ok n -> located n.

Lemma obs_on_index {A} attr (m : TM A) im P :
  (forall root order, obs m (mkBPlusTree root order (im_pages im)) P) -> obs (on_index attr m) im P.
Proof.
  intros H. unfold obs, on_index. destruct (im_indexes im !! attr) as [idx|] eqn:E; [| by split].
  destruct (H (ix_root idx) (ix_order idx)) as [Hs HP]. destruct (m _) as [r t]. cbn in *. subst t. split; [| done]. cbn.
  destruct idx, im. cbn in *. by rewrite insert_id.
Qed.

Lemma obs_for_each {S A} (l : list A) (body : A -> M S unit) s :
  (forall x, obs (body x) s (fun _ => True)) -> obs (for_each l body) s (fun _ => True).
Proof.
  intros H. induction l as [|x l IH]; cbn; [by split |]. eapply obs_bind; [apply H |]. by intros ? _.
Qed.

Lemma obs_visit_values ty visit values im :
  (forall key, obs (visit key) im (fun _ => True)) -> obs (visit_values ty visit values) im (fun _ => True).
Proof.
  intros H. induction values as [|v values IH]; cbn; [by split |]. case_match; [done |].
  eapply (obs_bind _ _ _ (fun _ => True)); [case_match; [apply H | by split] |]. intros _ _.
  case_match; [apply H |]. eapply (obs_bind _ _ _ (fun _ => True)); [case_match; [by apply obs_for_each | by split] |]. by intros _ _.
Qed.

Lemma obs_removeFromIndexes entry im :
  all_located im -> ie_PageID entry = 0 -> obs (removeFromIndexes entry) im (fun _ => True).
Proof.
  intros Hl Hp. unfold removeFromIndexes. eapply (obs_bind _ _ _ (fun _ => True)); [by split |]. intros ix _.
  apply obs_for_each. intros kv. apply obs_visit_values. intros key. eapply obs_bind; [| by intros ? _; apply obs_ret].
  apply obs_try, obs_on_index. intros root order. apply obs_Delete; [| done]. intros id n. apply Hl.
Qed.

(** the storage engine describes an old entry to the index manager without its location, so
    removing it from the indexes changes nothing at all: the manager, with every page of its
    file, is after [UpdateIndexes(old, nil)] what it was before, for every old entry. *)
Theorem index_removal_void disk_limit entry im :
  all_located im -> ie_PageID entry = 0 -> (UpdateIndexes disk_limit (Some entry) None im).2 = im.
Proof.
  intros Hl Hp. unfold UpdateIndexes, when_open. rewrite bind_run. cbn. destruct (im_closed im); [done |].
  by apply obs_removeFromIndexes.
Qed.
End Manager.

(** A check of all pages of a file. *)
Definition located_page (f : bytes) (size k : nat) : bool :=
  match Page_Deserialize (ReadAt f (k * size) size) ≫= NewNodeFromPage with
  | Ok n => forallb (fun r => bool_decide (e_PageID r <> 0)) (Values n)
  | _ => true
  end.

Definition located_b (im : IndexManager) : bool :=
  let size := Z.to_nat (pageSize (im_pages im)) in
  bool_decide (pageSize (im_pages im) = 4096)
  && forallb (located_page (file (im_pages im)) size) (seq 0 (Nat.div (length (file (im_pages im))) size)).

Lemma index_page_offset id size : size = 4096 -> exists k, Z.to_nat (int64 (id * size)) = (k * Z.to_nat size)%nat.
Proof.
  intros ->. exists (Z.to_nat (int64 (id * 4096) / 4096)). unfold int64.
  replace ((id * 4096 + 2 ^ 63) mod 2 ^ 64 - 2 ^ 63) with (((id + 2 ^ 51) mod 2 ^ 52 - 2 ^ 51) * 4096).
  - rewrite Z.div_mul by lia. destruct (decide (0 <= (id + 2 ^ 51) mod 2 ^ 52 - 2 ^ 51)); lia.
  - replace (id * 4096 + 2 ^ 63) with ((id + 2 ^ 51) * 4096) by lia. change (2 ^ 64) with (2 ^ 52 * 4096).
    rewrite Z.mul_mod_distr_r by lia. lia.
Qed.

(** A node that is read was decoded from the page at its offset. *)
Lemma readNode_decodes t id n off :
  (readNode id t).1 = Ok n -> Z.to_nat (int64 (id * pageSize (t_pages t))) = off ->
  let size := Z.to_nat (pageSize (t_pages t)) in
  pageSize (t_pages t) <= len (ReadAt (file (t_pages t)) off size)
  /\ Page_Deserialize (ReadAt (file (t_pages t)) off size) ≫= NewNodeFromPage = Ok n.
Proof.
  intros Hn <- size. revert Hn. unfold readNode. case_decide; [done |]. rewrite bind_run. unfold on_pm, ReadPage, readPageInternal.
  destruct t as [root order [f hd sz tot fl ro cl]]. cbn -[Z.to_nat]. rewrite !bind_run. cbn -[Z.to_nat]. destruct cl; [done |].
  case_decide; [done |]. rewrite !bind_run. cbn -[Z.to_nat]. case_decide; [done |]. rewrite !bind_run. cbn -[Z.to_nat].
  rewrite !bind_run. cbn -[Z.to_nat].
  case_decide as Hl; [done |]. fold size in Hl |- *. destruct (Page_Deserialize _) as [page| | |]; try done. cbn. intros Hn. split; [| done]. unfold size. cbn -[Z.to_nat]. lia.
Qed.

Lemma located_b_spec im : located_b im = true -> all_located im.
Proof.
  unfold located_b. intros [Hsz H]%andb_true_iff. apply bool_decide_eq_true in Hsz. rewrite forallb_forall in H.
  intros root order id n Hn. destruct (index_page_offset id _ Hsz) as [k Hk]. unfold located_page in H.
  destruct (readNode_decodes _ _ _ _ Hn Hk) as [Hlen Hdec].
  cbn [t_pages] in *. set (p := Z.to_nat (pageSize (im_pages im))) in *. assert (Z.of_nat p = pageSize (im_pages im)) as Hp by (unfold p; lia).
  assert (0 < Z.of_nat p) as Hp0 by lia. clear Hsz Hk. clearbody p. unfold len, ReadAt in Hlen. rewrite length_take, length_drop in Hlen.
  specialize (H k). rewrite in_seq in H. assert (k < length (file (im_pages im)) / p)%nat as Hlt.
  { apply Nat.div_le_lower_bound; [lia |]. nia. }
  specialize (H ltac:(lia)). rewrite Hdec, forallb_forall in H.
  apply Forall_forall. intros r Hr. apply list_elem_of_In, H, bool_decide_eq_true in Hr. done.
Qed.

(** ** Concrete indexes *)

Module IndexExample.
#[export] Instance tables : UnicodeTables := {| lower_unicode s := s; fold_unicode s t := bytes_eqb s t |}.
#[export] Instance order : MapIteration := {| range K _ _ V m := map_to_list m; range_perm K _ _ V m := Permutation_refl _ |}.
Definition limit : Z := 2 ^ 40.

Definition new_manager : outcome IndexManager :=
  pm ← OpenPageManager limit None (mkOptions 0 4 true false); NewIndexManager limit pm.

Definition entry (uid : bytes) (page : Z) : IndexEntry :=
  mkIndexEntry (str "uid=a,dc=x") {[ str "uid" := [uid] ]} page 0.

(** A new manager that indexed one entry, on page 5. *)
Definition one_entry : outcome IndexManager :=
  im ← new_manager;
  match UpdateIndexes limit None (Some (entry (str "a") 5)) im with (Ok _, im) => Ok im | _ => Panic end.

(** Sixty values of 120 bytes make the tree of [uid] split. *)
Definition uid (n : Z) : bytes := u8 n :: replicate 119 x61.

Definition sixty : outcome IndexManager :=
  im ← new_manager;
  match for_each (seqZ 1 60) (fun n => UpdateIndexes limit None (Some (entry (uid n) n))) im with
  | (Ok _, im) => Ok im
  | _ => Panic
  end.

Definition find (n : Z) (im : outcome IndexManager) : outcome (list Z) :=
  im ← im; ((r ← IM_Search (str "uid") (uid n); mret (e_PageID <$> r)) im).1.
End IndexExample.
Import IndexExample.

Lemma index_removal_void_witness :
  exists im, IndexExample.one_entry = Ok im
    /\ (UpdateIndexes IndexExample.limit (Some (IndexExample.entry (str "a") 0)) None im).2 = im
    /\ (IM_Search (str "uid") (str "a") im).1 = Ok [mkEntryRef 5 0 (str "uid=a,dc=x")].
Proof.
  assert ((im ← one_entry; Ok (located_b im, (IM_Search (str "uid") (str "a") im).1))
    = Ok (true, Ok [mkEntryRef 5 0 (str "uid=a,dc=x")])) as H by by vm_compute.
  destruct one_entry as [im| | |]; try discriminate H. injection H as Hl Hs. exists im. split_and!; [done | | done].
  apply index_removal_void; [by apply located_b_spec | done].
Defined.

(** the metadata keeps the first root of an index. When the tree has split, a manager opened
    on the same file searches below that root only: entries that were found are lost. *)
Theorem index_reopen_loses :
  IndexExample.find 60 IndexExample.sixty = Ok [60]
  /\ IndexExample.find 60 (im ← IndexExample.sixty; NewIndexManager IndexExample.limit (im_pages im)) = Ok []
  /\ IndexExample.find 1 (im ← IndexExample.sixty; NewIndexManager IndexExample.limit (im_pages im)) = Ok [1].
Proof. by vm_compute. Qed.
