(* ===== verification/RadixNode.v ===== *)
(** * Distinguished names and the nodes of the radix tree
    (src/internal/storage/radix/dn.go, node.go)

    The nodes of the tree point to their children and to their parents, so the heap is
    explicit: the address of a node is its position in the list of all nodes made so far.
    Every constructor makes both maps of a node, and the checks for a nil map do nothing. *)

From S2P Require Import Prelude GoStrings.

(** ** dn.go *)

Definition ErrEmptyDN : goerror := ErrConst "ErrEmptyDN".
Definition ErrInvalidDN : goerror := ErrConst "ErrInvalidDN".
Definition ErrInvalidRDN : goerror := ErrConst "ErrInvalidRDN".
Definition ErrEmptyRDNComponent : goerror := ErrConst "ErrEmptyRDNComponent".

Definition backslash : byte := x5c.
Definition equals : byte := x3d.

(** [comp := strings.TrimSpace(current.String()); if comp != "" { components = append(...) }]. *)
Definition add_component (components : list gostring) (current : gostring) : list gostring :=
  let comp := TrimSpace current in
  if bytes_eqb comp [] then components else components ++ [comp].

(** The loop over [dn], with [current], [escaped] and [components]. *)
Fixpoint splitDN_loop (dn current : gostring) (escaped : bool) (components : list gostring) : list gostring :=
  match dn with
  | [] => add_component components current
  | c :: dn =>
      if escaped then splitDN_loop dn (current ++ [c]) false components
      else if byte_eqb c backslash then splitDN_loop dn (current ++ [c]) true components
      else if byte_eqb c comma then splitDN_loop dn [] false (add_component components current)
      else splitDN_loop dn (current ++ [c]) false components
  end.

Definition splitDN (dn : gostring) : list gostring := splitDN_loop dn [] false [].

Section DN.
Context `{UnicodeTables}.

Definition normalizeRDN (rdn : gostring) : outcome gostring :=
  let rdn := TrimSpace rdn in
  if bytes_eqb rdn [] then Err ErrEmptyRDNComponent
  else
    let eqIdx := Index rdn [equals] in
    if decide (eqIdx = -1) then Err ErrInvalidRDN
    else
      let attrType := TrimSpace (take (Z.to_nat eqIdx) rdn) in
      let attrValue := TrimSpace (drop (Z.to_nat (eqIdx + 1)) rdn) in
      if bytes_eqb attrType [] then Err ErrInvalidRDN
      else Ok (ToLower attrType ++ [equals] ++ attrValue).

(** [for i, comp := range components { result[i], err = normalizeRDN(comp) }]. *)
Fixpoint normalize_all (components : list gostring) : outcome (list gostring) :=
  match components with
  | [] => Ok []
  | comp :: components =>
      normalized ← normalizeRDN comp;
      result ← normalize_all components;
      Ok (normalized :: result)
  end.

Definition ParseDNForward (dn : gostring) : outcome (list gostring) :=
  if bytes_eqb dn [] then Err ErrEmptyDN
  else
    let dn := TrimSpace dn in
    if bytes_eqb dn [] then Err ErrEmptyDN
    else
      let components := splitDN dn in
      if decide (len components = 0) then Err ErrInvalidDN
      else normalize_all components.

(** The same with [result[len(components)-1-i] = normalized]. *)
Definition ParseDN (dn : gostring) : outcome (list gostring) :=
  result ← ParseDNForward dn; Ok (rev result).

Definition JoinDN (components : list gostring) : gostring := Join comma components.

Definition JoinDNReverse (components : list gostring) : gostring := Join comma (rev components).

Definition GetParentDN (dn : gostring) : outcome gostring :=
  components ← ParseDNForward dn;
  if decide (len components <= 1) then Ok [] else Ok (JoinDN (drop 1 components)).

Definition GetRDN (dn : gostring) : outcome gostring :=
  components ← ParseDNForward dn;
  match components with [] => Err ErrInvalidDN | c :: _ => Ok c end.

(** [for i, comp := range parentComps { if !strings.EqualFold(childComps[i], comp) ... }];
    the child has at least as many components. *)
Fixpoint comps_fold (parentComps childComps : list gostring) : bool :=
  match parentComps, childComps with
  | p :: parentComps, c :: childComps => EqualFold c p && comps_fold parentComps childComps
  | _, _ => true
  end.

Definition IsDescendantOf (childDN parentDN : gostring) : outcome bool :=
  childComps ← ParseDN childDN;
  parentComps ← ParseDN parentDN;
  if decide (len childComps <= len parentComps) then Ok false else Ok (comps_fold parentComps childComps).

Definition IsDirectChildOf (childDN parentDN : gostring) : outcome bool :=
  childComps ← ParseDN childDN;
  parentComps ← ParseDN parentDN;
  if decide (len childComps <> len parentComps + 1) then Ok false else Ok (comps_fold parentComps childComps).

Definition NormalizeDN (dn : gostring) : outcome gostring :=
  components ← ParseDNForward dn; Ok (JoinDN components).

Definition CompareDN (dn1 dn2 : gostring) : outcome bool :=
  norm1 ← NormalizeDN dn1;
  norm2 ← NormalizeDN dn2;
  Ok (EqualFold norm1 norm2).

Definition DNDepth (dn : gostring) : outcome Z :=
  components ← ParseDN dn; Ok (len components).
End DN.

(** ** node.go *)

Record Node := mkNode {
  Key : gostring;
  Children : gmap byte nat;
  ChildrenByKey : gmap gostring nat;
  HasEntry : bool;
  n_PageID : Z;
  n_SlotID : Z;
  Parent : option nat;
  SubtreeCount : Z
}.

Definition NewNode (key : gostring) : Node := mkNode key ∅ ∅ false 0 0 None 0.

Definition NewRootNode : Node := mkNode [] ∅ ∅ false 0 0 None 0.

Definition set_children (n : Node) (c : gmap byte nat) (k : gmap gostring nat) : Node :=
  mkNode (Key n) c k (HasEntry n) (n_PageID n) (n_SlotID n) (Parent n) (SubtreeCount n).
Definition set_entry (n : Node) (e : bool) (pageID slotID count : Z) : Node :=
  mkNode (Key n) (Children n) (ChildrenByKey n) e pageID slotID (Parent n) count.
Definition set_Parent (n : Node) (p : option nat) : Node :=
  mkNode (Key n) (Children n) (ChildrenByKey n) (HasEntry n) (n_PageID n) (n_SlotID n) p (SubtreeCount n).
Definition set_count (n : Node) (c : Z) : Node :=
  mkNode (Key n) (Children n) (ChildrenByKey n) (HasEntry n) (n_PageID n) (n_SlotID n) (Parent n) c.

Definition SetEntry (n : Node) (pageID slotID : Z) : Node :=
  set_entry n true pageID slotID
    (if HasEntry n then SubtreeCount n else uint32 (SubtreeCount n + 1)).

Definition ClearEntry (n : Node) : Node :=
  set_entry n false 0 0 (if HasEntry n then uint32 (SubtreeCount n - 1) else SubtreeCount n).

(** The objects in memory. *)
Abbreviation HM := (M (list Node)).

Definition load (a : nat) : HM Node := fun h =>
  match h !! a with Some n => (Ok n, h) | None => (Panic, h) end.
Definition save (a : nat) (n : Node) : HM unit := modify (<[a := n]>).
Definition alloc (n : Node) : HM nat := fun h => (Ok (length h), h ++ [n]).

Section Nodes.
Context `{MapIteration}.

(** [n.ChildrenByKey != nil && len(n.ChildrenByKey) > 0] chooses the map to visit. *)
Definition child_nodes (n : Node) : list nat :=
  if decide (ChildrenByKey n = ∅) then (range (Children n)).*2 else (range (ChildrenByKey n)).*2.

Definition ChildCount (n : Node) : Z :=
  if decide (ChildrenByKey n = ∅) then Z.of_nat (size (Children n)) else Z.of_nat (size (ChildrenByKey n)).

(** [for _, child := range ... { count += child.SubtreeCount }]. *)
Fixpoint sum_counts (children : list nat) (count : Z) : HM Z :=
  match children with
  | [] => mret count
  | child :: children => c ← load child; sum_counts children (uint32 (count + SubtreeCount c))
  end.

Definition updateSubtreeCount (n : nat) : HM unit :=
  self ← load n;
  count ← sum_counts (child_nodes self) (if HasEntry self then 1 else 0);
  save n (set_count self count).

Definition AddChild (n child : nat) : HM unit :=
  c ← load child;
  match Key c with
  | [] => mret tt
  | firstByte :: _ =>
      save child (set_Parent c (Some n)) ;;
      self ← load n;
      match Children self !! firstByte with
      | Some existing =>
          e ← load existing;
          if decide (Key e <> Key c) then
            let k := match ChildrenByKey self !! Key e with
                     | None => <[Key e := existing]> (ChildrenByKey self)
                     | Some _ => ChildrenByKey self
                     end in
            save n (set_children self (Children self) (<[Key c := child]> k))
          else
            save n (set_children self (<[firstByte := child]> (Children self))
                      (<[Key c := child]> (ChildrenByKey self)))
      | None =>
          save n (set_children self (<[firstByte := child]> (Children self))
                    (<[Key c := child]> (ChildrenByKey self)))
      end ;;
      updateSubtreeCount n
  end.

(** [for k, c := range n.ChildrenByKey { if len(k) > 0 && k[0] == firstByte { ...; break } }]. *)
Definition promote (firstByte : byte) (byKey : gmap gostring nat) (children : gmap byte nat) : gmap byte nat :=
  match List.find (fun kc : gostring * nat => bool_decide (List.hd_error kc.1 = Some firstByte)) (range byKey) with
  | Some (_, c) => <[firstByte := c]> children
  | None => children
  end.

Definition RemoveChild (n : nat) (key : gostring) : HM (option nat) :=
  match key with
  | [] => mret None
  | firstByte :: _ =>
      self ← load n;
      match ChildrenByKey self !! key with
      | Some child =>
          let byKey := delete key (ChildrenByKey self) in
          c ← load child;
          save child (set_Parent c None) ;;
          match Children self !! firstByte with
          | Some existing =>
              e ← load existing;
              if decide (Key e = key) then
                save n (set_children self (promote firstByte byKey (delete firstByte (Children self))) byKey)
              else save n (set_children self (Children self) byKey)
          | None => save n (set_children self (Children self) byKey)
          end ;;
          updateSubtreeCount n ;;
          mret (Some child)
      | None =>
          match Children self !! firstByte with
          | None => mret None
          | Some child =>
              c ← load child;
              if decide (Key c <> key) then mret None
              else
                save n (set_children self (delete firstByte (Children self)) (ChildrenByKey self)) ;;
                save child (set_Parent c None) ;;
                updateSubtreeCount n ;;
                mret (Some child)
          end
      end
  end.

Definition GetChild (n : nat) (key : gostring) : HM (option nat) :=
  match key with
  | [] => mret None
  | firstByte :: _ =>
      self ← load n;
      match ChildrenByKey self !! key with
      | Some child => mret (Some child)
      | None =>
          match Children self !! firstByte with
          | None => mret None
          | Some child => c ← load child; if decide (Key c <> key) then mret None else mret (Some child)
          end
      end
  end.

(** One round of the loop: [current.SubtreeCount += uint32(delta)] or [-= uint32(-delta)]. *)
Definition add_delta (count delta : Z) : Z :=
  if decide (delta > 0) then uint32 (count + uint32 delta)
  else if decide (delta < 0 /\ count >= uint32 (- delta)) then uint32 (count - uint32 (- delta))
  else count.

Fixpoint propagate (fuel : nat) (current : option nat) (delta : Z) : HM unit :=
  match current with
  | None => mret tt
  | Some a =>
      match fuel with
      | O => diverge
      | S fuel =>
          n ← load a;
          save a (set_count n (add_delta (SubtreeCount n) delta)) ;;
          propagate fuel (Parent n) delta
      end
  end.

(** A path to the root is not longer than the heap. *)
Definition PropagateSubtreeCountChange (n : nat) (delta : Z) : HM unit :=
  fuel ← gets (fun h => length h); propagate fuel (Some n) delta.

Fixpoint load_keys (children : list nat) : HM (list gostring) :=
  match children with
  | [] => mret []
  | child :: children => c ← load child; keys ← load_keys children; mret (Key c :: keys)
  end.

Definition GetChildKeys (n : nat) : HM (list gostring) :=
  self ← load n;
  if decide (ChildrenByKey self = ∅) then load_keys (range (Children self)).*2
  else mret (range (ChildrenByKey self)).*1.
End Nodes.
