(* ===== verification/RadixPage.v ===== *)
(** * The page of the radix tree (src/internal/storage/radix/serialize.go)

    All nodes of the tree are written to one page, breadth first: their headers in a row,
    then for each the key and the children by their positions in the row. *)

From S2P Require Import Prelude GoBinary GoStrings Page RadixNode.

Definition SerializedNodeHeaderSize : Z := 22.
Definition ChildEntrySize : Z := 3.
Definition MaxNodesPerPage : Z := (PageSize - PageHeaderSize - 4) / SerializedNodeHeaderSize.
Definition NoParentIndex : Z := 0xFFFF.
Definition PageTypeDNIndex : byte := x02.

Definition ErrBufferTooSmall : goerror := ErrConst "ErrBufferTooSmall".
Definition ErrTooManyNodes : goerror := ErrConst "ErrTooManyNodes".
Definition ErrTooManyChildren : goerror := ErrConst "ErrTooManyChildren".
Definition ErrKeyTooLong : goerror := ErrConst "ErrKeyTooLong".

Section Serialize.
Context `{MapIteration}.

(** The queue of a breadth-first walk. A tree has no more nodes than the heap. *)
Fixpoint collect (fuel : nat) (queue nodes : list nat) : HM (list nat) :=
  match queue with
  | [] => mret nodes
  | node :: queue =>
      match fuel with
      | O => diverge
      | S fuel => n ← load node; collect fuel (queue ++ child_nodes n) (nodes ++ [node])
      end
  end.

Definition CollectSubtree (root : nat) : HM (list nat) :=
  fuel ← gets (fun h => length h); collect fuel [root] [].

(** [for i, node := range nodes { s.nodeIndex[node] = uint16(i) }]. *)
Definition nodeIndex (nodes : list nat) : gmap nat Z :=
  foldl (fun m ia => <[ia.2 := uint16 (Z.of_nat ia.1)]> m) ∅ (imap pair nodes).

(** The first bytes and the nodes of the children, in the order of the map chosen. *)
Fixpoint child_list (children : list nat) : HM (list (byte * nat)) :=
  match children with
  | [] => mret []
  | child :: children =>
      c ← load child;
      rest ← child_list children;
      mret ((default x00 (List.hd_error (Key c)), child) :: rest)
  end.

Definition children_entries (n : Node) : HM (list (byte * nat)) :=
  if decide (ChildrenByKey n = ∅) then mret (range (Children n)) else child_list (range (ChildrenByKey n)).*2.

Definition child_entry (index : gmap nat Z) (bc : byte * nat) : bytes :=
  bc.1 :: put16 (default 0xFFFF (index !! bc.2)).

(** [parentIndex] is [NoParentIndex] unless the parent is one of the nodes. *)
Definition parent_index (index : gmap nat Z) (n : Node) : Z :=
  match Parent n with
  | Some p => default NoParentIndex (index !! p)
  | None => NoParentIndex
  end.

(** The header with [KeyOffset] already set, and the variable data. *)
Definition SerializeNode (index : gmap nat Z) (n : Node) (keyOffset parentIndex : Z) : HM (bytes * bytes) :=
  if decide (len (Key n) > 65535) then fail ErrKeyTooLong
  else if decide (ChildCount n > 255) then fail ErrTooManyChildren
  else
    entries ← children_entries n;
    mret (put16 (uint16 keyOffset) ++ put16 (uint16 (len (Key n))) ++ [u8 (ChildCount n)]
          ++ [if HasEntry n then x01 else x00] ++ put64 (n_PageID n) ++ put16 (n_SlotID n)
          ++ put32 (SubtreeCount n) ++ put16 parentIndex,
          Key n ++ (entries ≫= child_entry index)).

Definition CalculateSerializedSize (n : Node) : Z :=
  SerializedNodeHeaderSize + len (Key n) + ChildCount n * ChildEntrySize.

(** [totalHeaderSize + totalVarDataSize]. *)
Fixpoint total_size (nodes : list nat) (size : Z) : HM Z :=
  match nodes with
  | [] => mret size
  | node :: nodes => n ← load node; total_size nodes (size + CalculateSerializedSize n)
  end.

(** The headers and the variable data of all nodes. *)
Fixpoint serialize_all (index : gmap nat Z) (nodes : list nat) (varDataPos : Z) : HM (bytes * bytes) :=
  match nodes with
  | [] => mret ([], [])
  | node :: nodes =>
      n ← load node;
      '(header, varData) ← SerializeNode index n varDataPos (parent_index index n);
      '(headers, varDatas) ← serialize_all index nodes (varDataPos + len varData);
      mret (header ++ headers, varData ++ varDatas)
  end.

(** [totalHeaderSize + totalVarDataSize <= PageSize], so that the copies stay inside the
    buffer. *)
Definition SerializeNodes (nodes : list nat) (pageID : Z) : HM bytes :=
  if decide (len nodes > MaxNodesPerPage) then fail ErrTooManyNodes
  else
    let index := nodeIndex nodes in
    totalSize ← total_size nodes (PageHeaderSize + 2);
    if decide (totalSize > PageSize) then fail ErrTooManyNodes
    else
      let header := mkPageHeader pageID PageTypeDNIndex x00 (uint16 (len nodes))
                      (uint16 (PageSize - totalSize)) 0 in
      '(headers, varDatas) ← serialize_all index nodes 0;
      mret (GoBinary.pad (Z.to_nat PageSize)
              (PageHeader_Serialize header ++ put16 (uint16 (len nodes)) ++ headers ++ varDatas)).

Definition SerializeToPage (root : nat) (pageID : Z) : HM bytes :=
  nodes ← CollectSubtree root; SerializeNodes nodes pageID.

(** ** Reading *)

(** [buf[lo:hi]]. *)
Definition sub (buf : bytes) (lo hi : Z) : outcome bytes :=
  if decide (0 <= lo <= hi /\ hi <= len buf) then Ok (take (Z.to_nat (hi - lo)) (drop (Z.to_nat lo) buf))
  else Panic.

Fixpoint read_entries (buf : bytes) (offset : Z) (n : nat) : outcome (list (byte * Z)) :=
  match n with
  | O => Ok []
  | S n =>
      if decide (offset + ChildEntrySize > len buf) then Err ErrBufferTooSmall
      else
        rest ← read_entries buf (offset + ChildEntrySize) n;
        Ok ((nth (Z.to_nat offset) buf x00, field buf (Z.to_nat (offset + 1)) 2) :: rest)
  end.

(** A node of the first pass with its parent's index and its children. *)
Definition read_node (buf : bytes) (varDataStart headerOffset : Z) : outcome (Node * Z * list (byte * Z)) :=
  header ← sub buf headerOffset (headerOffset + SerializedNodeHeaderSize);
  let keyOffset := field header 0 2 in
  let keyLength := field header 2 2 in
  let actualKeyOffset := varDataStart + keyOffset in
  if decide (actualKeyOffset + keyLength > len buf) then Err ErrBufferTooSmall
  else
    key ← sub buf actualKeyOffset (actualKeyOffset + keyLength);
    children ← read_entries buf (actualKeyOffset + keyLength) (Z.to_nat (bZ (nth 4 header x00)));
    Ok (mkNode key ∅ ∅ (bool_decide (Z.land (bZ (nth 5 header x00)) 1 <> 0)) (field header 6 8)
          (field header 14 2) None (field header 16 4), field header 20 2, children).

Fixpoint read_nodes (buf : bytes) (varDataStart headerOffset : Z) (n : nat) : outcome (list (Node * Z * list (byte * Z))) :=
  match n with
  | O => Ok []
  | S n =>
      node ← read_node buf varDataStart headerOffset;
      rest ← read_nodes buf varDataStart (headerOffset + SerializedNodeHeaderSize) n;
      Ok (node :: rest)
  end.

(** The second pass for one node; [base] is the address of the first node. *)
Definition link_child (base : nat) (nodes : list (Node * Z * list (byte * Z)))
    (m : gmap byte nat * gmap gostring nat) (entry : byte * Z) : gmap byte nat * gmap gostring nat :=
  match nodes !! Z.to_nat entry.2 with
  | Some (child, _, _) =>
      let a := (base + Z.to_nat entry.2)%nat in
      (<[entry.1 := a]> m.1, <[Key child := a]> m.2)
  | None => m
  end.

Definition link (base : nat) (nodes : list (Node * Z * list (byte * Z))) (node : Node * Z * list (byte * Z)) : Node :=
  let '(n, parentIndex, entries) := node in
  let parent := if decide (parentIndex <> NoParentIndex /\ parentIndex < len nodes)
                then Some (base + Z.to_nat parentIndex)%nat else None in
  let '(c, k) := foldl (link_child base nodes) (∅, ∅) entries in
  set_Parent (set_children n c k) parent.

(** Puts the nodes in memory; the first is the root. *)
Definition DeserializeNodes (buf : bytes) : HM (option nat) :=
  if decide (len buf < PageHeaderSize + 2) then fail ErrBufferTooSmall
  else
    let nodeCount := field buf 16 2 in
    if decide (nodeCount = 0) then mret None
    else
      let headerStart := PageHeaderSize + 2 in
      let varDataStart := headerStart + nodeCount * SerializedNodeHeaderSize in
      fun h =>
        match read_nodes buf varDataStart headerStart (Z.to_nat nodeCount) with
        | Ok nodes => (Ok (Some (length h)), h ++ (link (length h) nodes <$> nodes))
        | Err e => (Err e, h)
        | Panic => (Panic, h)
        | Diverge => (Diverge, h)
        end.

Definition DeserializeFromPage (buf : bytes) : HM (option nat) := DeserializeNodes buf.
End Serialize.
