(* ===== verification/RadixTree.v ===== *)
(** * The radix tree of distinguished names
    (src/internal/storage/radix/tree.go, operations.go, iterator.go)

    The root is never nil. A slice of components is its value: a walk that appends a key
    to the path of a node may write it into the array of that path, behind its end, where
    it is read before the next sibling's key takes its place. *)

From S2P Require Import Prelude GoBinary GoStrings Page RadixNode RadixPage.

(** ** tree.go *)

Definition ErrEntryNotFound : goerror := ErrConst "ErrEntryNotFound".
Definition ErrEntryExists : goerror := ErrConst "ErrEntryExists".

Record RadixTree := mkRadixTree {
  r_nodes : list Node;
  r_root : nat;
  r_pageManager : PageManager;
  r_rootPageID : Z;
  r_dirty : bool
}.

Abbreviation RM := (M RadixTree).

Definition on_nodes {A} (m : HM A) : RM A := fun t =>
  let '(r, h) := m (r_nodes t) in
  (r, mkRadixTree h (r_root t) (r_pageManager t) (r_rootPageID t) (r_dirty t)).
Definition on_pages {A} (m : M PageManager A) : RM A := fun t =>
  let '(r, pm) := m (r_pageManager t) in
  (r, mkRadixTree (r_nodes t) (r_root t) pm (r_rootPageID t) (r_dirty t)).
Definition set_root (a : nat) : RM unit := modify (fun t =>
  mkRadixTree (r_nodes t) a (r_pageManager t) (r_rootPageID t) (r_dirty t)).
Definition set_rootPageID (id : Z) : RM unit := modify (fun t =>
  mkRadixTree (r_nodes t) (r_root t) (r_pageManager t) id (r_dirty t)).
Definition set_dirty (d : bool) : RM unit := modify (fun t =>
  mkRadixTree (r_nodes t) (r_root t) (r_pageManager t) (r_rootPageID t) d).
Definition markDirty : RM unit := set_dirty true.
Definition clearDirty : RM unit := set_dirty false.

(** A function of the package that changes nothing. *)
Definition pure {A} (r : outcome A) : RM A := fun t => (r, t).

Section Tree.
Context `{UnicodeTables} `{MapIteration}.

Definition persistRoot : RM unit :=
  root ← gets r_root;
  id ← gets r_rootPageID;
  buf ← on_nodes (SerializeToPage root id);
  header ← pure (PageHeader_Deserialize (take (Z.to_nat PageHeaderSize) buf));
  on_pages (WritePage (mkPage header (drop (Z.to_nat PageHeaderSize) buf))).

Definition loadRoot : RM unit :=
  id ← gets r_rootPageID;
  page ← on_pages (ReadPage id);
  root ← on_nodes (DeserializeFromPage (Page_Serialize page));
  match root with
  | None => a ← on_nodes (alloc NewRootNode); set_root a
  | Some a => set_root a
  end.

(** [if err := t.persistRoot(); err != nil { if errors.Is(err, ErrTooManyNodes) { return nil }
    return err }]. *)
Definition persist_best_effort : RM unit :=
  r ← try persistRoot;
  match r with
  | inl _ => mret tt
  | inr (ErrConst "ErrTooManyNodes") => mret tt
  | inr e => fail e
  end.

Definition result {A B} (f : B -> A) (r : outcome unit * B) : outcome A :=
  match r with (Ok _, b) => Ok (f b) | (Err e, _) => Err e | (Panic, _) => Panic | (Diverge, _) => Diverge end.

(** [pm] is not nil. *)
Definition NewRadixTree (disk_limit : Z) (pm : PageManager) : outcome RadixTree :=
  let run : RM unit :=
    pageID ← on_pages (AllocatePage disk_limit PageTypeDNIndex);
    set_rootPageID pageID ;;
    persistRoot in
  result id (run (mkRadixTree [NewRootNode] 0 pm 0 false)).

Definition NewRadixTreeWithRoot (pm : PageManager) (rootPageID : Z) : outcome RadixTree :=
  result id (loadRoot (mkRadixTree [] 0 pm rootPageID false)).

Definition Persist : RM unit :=
  dirty ← gets r_dirty;
  if negb dirty then mret tt
  else
    r ← try persistRoot;
    match r with
    | inl _ => clearDirty
    | inr (ErrConst "ErrTooManyNodes") => mret tt
    | inr e => fail e
    end.

Definition EntryCount : RM Z := root ← gets r_root; n ← on_nodes (load root); mret (SubtreeCount n).

(** The loop over [components]; None when a node is missing. *)
Fixpoint traverse (current : nat) (components : list gostring) (create : bool) : HM (option nat) :=
  match components with
  | [] => mret (Some current)
  | comp :: components =>
      child ← GetChild current comp;
      match child with
      | Some child => traverse child components create
      | None =>
          if create then
            child ← alloc (NewNode comp);
            AddChild current child ;;
            traverse child components create
          else mret None
      end
  end.

Definition traverseToNode (components : list gostring) (create : bool) : RM (option nat) :=
  root ← gets r_root; on_nodes (traverse root components create).

Definition findNode (components : list gostring) : RM (option nat) := traverseToNode components false.

Record TreeStats := mkTreeStats {
  TotalNodes : Z; EntryNodes : Z; MaxDepth : Z; TotalEntries : Z
}.

Fixpoint fold_nodes {A} (body : nat -> A -> HM A) (l : list nat) (acc : A) : HM A :=
  match l with [] => mret acc | x :: l => acc ← body x acc; fold_nodes body l acc end.

(** Recursive walks are not deeper than the heap. *)
Fixpoint collectStats (fuel : nat) (node : nat) (depth : Z) (stats : TreeStats) : HM TreeStats :=
  match fuel with
  | O => diverge
  | S fuel =>
      n ← load node;
      let stats := mkTreeStats (TotalNodes stats + 1)
                     (if HasEntry n then EntryNodes stats + 1 else EntryNodes stats)
                     (if decide (depth > MaxDepth stats) then depth else MaxDepth stats) (TotalEntries stats) in
      fold_nodes (fun child stats => collectStats fuel child (depth + 1) stats) (child_nodes n) stats
  end.

Definition depth_fuel : HM nat := gets (fun h => length h).

Definition Stats : RM TreeStats :=
  root ← gets r_root;
  stats ← on_nodes (fuel ← depth_fuel; collectStats fuel root 0 (mkTreeStats 0 0 0 0));
  n ← on_nodes (load root);
  mret (mkTreeStats (TotalNodes stats) (EntryNodes stats) (MaxDepth stats) (SubtreeCount n)).

Definition Clear : RM unit :=
  a ← on_nodes (alloc NewRootNode);
  set_root a ;;
  markDirty ;;
  persistRoot.

(** ** operations.go *)

Definition Insert (dn : gostring) (pageID slotID : Z) : RM unit :=
  components ← pure (ParseDN dn);
  node ← traverseToNode components true;
  match node with
  | None => fail (ErrConst "ErrTreeNotInitialized")
  | Some node =>
      n ← on_nodes (load node);
      if HasEntry n then fail ErrEntryExists
      else
        on_nodes (save node (SetEntry n pageID slotID)) ;;
        match Parent n with
        | Some p => on_nodes (PropagateSubtreeCountChange p 1)
        | None => mret tt
        end ;;
        markDirty ;;
        persist_best_effort
  end.

(** [for current != nil && current != t.root]; the loop follows parents. *)
Fixpoint cleanup (fuel : nat) (root : nat) (current : option nat) : HM unit :=
  match current with
  | None => mret tt
  | Some a =>
      if decide (a = root) then mret tt
      else match fuel with
           | O => diverge
           | S fuel =>
               n ← load a;
               if HasEntry n || bool_decide (Children n <> ∅) then mret tt
               else
                 match Parent n with
                 | Some p => RemoveChild p (Key n) ;; mret tt
                 | None => mret tt
                 end ;;
                 cleanup fuel root (Parent n)
           end
  end.

Definition cleanupEmptyNodes (node : nat) : RM unit :=
  root ← gets r_root; on_nodes (fuel ← depth_fuel; cleanup fuel root (Some node)).

(** The node of an entry: [if node == nil || !node.HasEntry]. *)
Definition find_entry (components : list gostring) : RM (option (nat * Node)) :=
  node ← findNode components;
  match node with
  | None => mret None
  | Some node =>
      n ← on_nodes (load node);
      mret (if HasEntry n then Some (node, n) else None)
  end.

Definition Delete (dn : gostring) : RM unit :=
  components ← pure (ParseDN dn);
  found ← find_entry components;
  match found with
  | None => fail ErrEntryNotFound
  | Some (node, n) =>
      on_nodes (save node (ClearEntry n)) ;;
      match Parent n with
      | Some p => on_nodes (PropagateSubtreeCountChange p (-1))
      | None => mret tt
      end ;;
      cleanupEmptyNodes node ;;
      markDirty ;;
      persist_best_effort
  end.

Definition Lookup (dn : gostring) : RM (option (Z * Z)) :=
  match ParseDN dn with
  | Ok components =>
      found ← find_entry components;
      mret (match found with Some (_, n) => Some (n_PageID n, n_SlotID n) | None => None end)
  | _ => mret None
  end.

Definition Exists (dn : gostring) : RM bool :=
  r ← Lookup dn; mret (match r with Some _ => true | None => false end).

Definition Update (dn : gostring) (pageID slotID : Z) : RM unit :=
  components ← pure (ParseDN dn);
  found ← find_entry components;
  match found with
  | None => fail ErrEntryNotFound
  | Some (node, n) =>
      on_nodes (save node (set_entry n (HasEntry n) pageID slotID (SubtreeCount n))) ;;
      markDirty ;;
      persist_best_effort
  end.

Definition GetSubtreeCount (dn : gostring) : RM Z :=
  components ← pure (ParseDN dn);
  node ← findNode components;
  match node with
  | None => mret 0
  | Some node => n ← on_nodes (load node); mret (SubtreeCount n)
  end.

Definition GetChildren (dn : gostring) : RM (list gostring) :=
  components ← pure (ParseDN dn);
  node ← findNode components;
  match node with
  | None => mret []
  | Some node =>
      n ← on_nodes (load node);
      on_nodes (fold_nodes (fun child children =>
        c ← load child;
        mret (if HasEntry c then children ++ [JoinDNReverse (components ++ [Key c])] else children))
        (child_nodes n) [])
  end.

Fixpoint collectDescendants (fuel : nat) (node : nat) (pathComponents : list gostring)
    (descendants : list gostring) : HM (list gostring) :=
  match fuel with
  | O => diverge
  | S fuel =>
      n ← load node;
      fold_nodes (fun child descendants =>
        c ← load child;
        let childPath := pathComponents ++ [Key c] in
        collectDescendants fuel child childPath
          (if HasEntry c then descendants ++ [JoinDNReverse childPath] else descendants))
        (child_nodes n) descendants
  end.

Definition GetAllChildren (dn : gostring) : RM (list gostring) :=
  components ← pure (ParseDN dn);
  node ← findNode components;
  match node with
  | None => mret []
  | Some node => on_nodes (fuel ← depth_fuel; collectDescendants fuel node components [])
  end.

(** [EntryIterator]: what the callback does to the world [X], and whether to go on. *)
Definition EntryIterator (X : Type) : Type := gostring -> Z -> Z -> X -> bool * X.

(** [for _, child := range children { if !body(child) { return false } }]. *)
Fixpoint until {X} (body : nat -> X -> HM (bool * X)) (l : list nat) (x : X) : HM (bool * X) :=
  match l with
  | [] => mret (true, x)
  | a :: l => r ← body a x; if (r.1 : bool) then until body l r.2 else mret (false, r.2)
  end.

Fixpoint iterateNode {X} (iterator : EntryIterator X) (fuel : nat) (node : nat)
    (pathComponents : list gostring) (x : X) : HM (bool * X) :=
  match fuel with
  | O => diverge
  | S fuel =>
      n ← load node;
      let r := if HasEntry n then iterator (JoinDNReverse pathComponents) (n_PageID n) (n_SlotID n) x
               else (true, x) in
      if (r.1 : bool) then
        until (fun child x =>
          c ← load child; iterateNode iterator fuel child (pathComponents ++ [Key c]) x) (child_nodes n) r.2
      else mret (false, r.2)
  end.

(** The start of both iterations: the root for an empty name. *)
Definition start_node (baseDN : gostring) : RM (option (nat * list gostring)) :=
  if bytes_eqb baseDN [] then root ← gets r_root; mret (Some (root, []))
  else
    components ← pure (ParseDN baseDN);
    node ← findNode components;
    mret ((fun a => (a, components)) <$> node).

Definition IterateSubtree {X} (baseDN : gostring) (iterator : EntryIterator X) (x : X) : RM X :=
  start ← start_node baseDN;
  match start with
  | None => mret x
  | Some (node, path) =>
      r ← on_nodes (fuel ← depth_fuel; iterateNode iterator fuel node path x);
      mret r.2
  end.

Definition IterateOneLevelChildren {X} (baseDN : gostring) (iterator : EntryIterator X) (x : X) : RM X :=
  start ← start_node baseDN;
  match start with
  | None => mret x
  | Some (node, path) =>
      n ← on_nodes (load node);
      r ← on_nodes (until (fun child x =>
        c ← load child;
        mret (if HasEntry c then iterator (JoinDNReverse (path ++ [Key c])) (n_PageID c) (n_SlotID c) x
              else (true, x))) (child_nodes n) x);
      mret r.2
  end.

Definition HasChildren (dn : gostring) : RM bool :=
  components ← pure (ParseDN dn);
  node ← findNode components;
  match node with
  | None => mret false
  | Some node =>
      n ← on_nodes (load node);
      mret (bool_decide (ChildrenByKey n <> ∅) || bool_decide (Children n <> ∅))
  end.

Definition GetParent (dn : gostring) : outcome gostring :=
  components ← ParseDN dn;
  if decide (len components <= 1) then Ok [] else Ok (JoinDNReverse (removelast components)).

(** ** iterator.go *)

Definition ScopeBase : Z := 0.
Definition ScopeOneLevel : Z := 1.
Definition ScopeSubtree : Z := 2.

Record iteratorFrame := mkFrame {
  f_node : nat;
  f_components : list gostring;
  f_childKeys : list gostring;
  f_visited : bool
}.

(** [childKeys] are those not yet visited, for which the source keeps [childIndex]; the
    stack has its top first. *)
Record RadixIterator := mkIterator {
  it_baseDN : gostring;
  it_scope : Z;
  it_baseNode : option nat;
  it_baseComponents : list gostring;
  it_started : bool;
  it_done : bool;
  it_stack : list iteratorFrame;
  it_childKeys : list gostring
}.

Definition Iterator (baseDN : gostring) (scope : Z) : RM RadixIterator :=
  components ← pure (ParseDN baseDN);
  baseNode ← findNode components;
  mret (mkIterator baseDN scope baseNode components false false [] []).

Definition set_iter (it : RadixIterator) (started done : bool) (stack : list iteratorFrame)
    (keys : list gostring) : RadixIterator :=
  mkIterator (it_baseDN it) (it_scope it) (it_baseNode it) (it_baseComponents it) started done stack keys.

Definition IteratorEntry : Type := gostring * Z * Z.

Definition nextBase (it : RadixIterator) (base : nat) : HM (option IteratorEntry * RadixIterator) :=
  let it' := set_iter it true true (it_stack it) (it_childKeys it) in
  if it_started it then mret (None, it')
  else
    n ← load base;
    mret (if HasEntry n then Some (it_baseDN it, n_PageID n, n_SlotID n) else None, it').

(** The loop over the keys left. *)
Fixpoint one_level (base : nat) (components keys : list gostring) : HM (option IteratorEntry * list gostring) :=
  match keys with
  | [] => mret (None, [])
  | key :: keys =>
      child ← GetChild base key;
      match child with
      | None => one_level base components keys
      | Some child =>
          c ← load child;
          if HasEntry c then
            mret (Some (JoinDNReverse (components ++ [Key c]), n_PageID c, n_SlotID c), keys)
          else one_level base components keys
      end
  end.

Definition nextOneLevel (it : RadixIterator) (base : nat) : HM (option IteratorEntry * RadixIterator) :=
  keys ← if it_started it then mret (it_childKeys it) else GetChildKeys base;
  r ← one_level base (it_baseComponents it) keys;
  let done := match r.1 with Some _ => it_done it | None => true end in
  mret (r.1, set_iter it true done (it_stack it) r.2).

(** [for frame.childIndex < len(frame.childKeys)]: the first child that is still there. *)
Fixpoint next_child (node : nat) (keys : list gostring) : HM (option nat * list gostring) :=
  match keys with
  | [] => mret (None, [])
  | key :: keys =>
      child ← GetChild node key;
      match child with
      | Some child => mret (Some child, keys)
      | None => next_child node keys
      end
  end.

Definition new_frame (node : nat) (components : list gostring) : HM iteratorFrame :=
  keys ← GetChildKeys node; mret (mkFrame node components keys false).

(** A round of the loop either returns an entry, pushes a frame, or pops one. *)
Fixpoint subtree_loop (fuel : nat) (stack : list iteratorFrame) : HM (option IteratorEntry * list iteratorFrame) :=
  match stack with
  | [] => mret (None, [])
  | frame :: stack =>
      match fuel with
      | O => diverge
      | S fuel =>
          n ← load (f_node frame);
          if negb (f_visited frame) && HasEntry n then
            mret (Some (JoinDNReverse (f_components frame), n_PageID n, n_SlotID n),
                  mkFrame (f_node frame) (f_components frame) (f_childKeys frame) true :: stack)
          else
            r ← next_child (f_node frame) (f_childKeys frame);
            match r.1 with
            | Some child =>
                c ← load child;
                top ← new_frame child (f_components frame ++ [Key c]);
                subtree_loop fuel (top :: mkFrame (f_node frame) (f_components frame) r.2 true :: stack)
            | None => subtree_loop fuel stack
            end
      end
  end.

(** Every node is pushed once and popped once. *)
Definition nextSubtree (it : RadixIterator) (base : nat) : HM (option IteratorEntry * RadixIterator) :=
  stack ← if it_started it then mret (it_stack it)
          else (f ← new_frame base (it_baseComponents it); mret [f]);
  fuel ← gets (fun h => (2 * length h)%nat);
  r ← subtree_loop fuel stack;
  let done := match r.1 with Some _ => it_done it | None => true end in
  mret (r.1, set_iter it true done r.2 (it_childKeys it)).

Definition Next (it : RadixIterator) : RM (option IteratorEntry * RadixIterator) :=
  let stop := set_iter it (it_started it) true (it_stack it) (it_childKeys it) in
  if it_done it then mret (None, it)
  else match it_baseNode it with
       | None => mret (None, stop)
       | Some base =>
           if decide (it_scope it = ScopeBase) then on_nodes (nextBase it base)
           else if decide (it_scope it = ScopeOneLevel) then on_nodes (nextOneLevel it base)
           else if decide (it_scope it = ScopeSubtree) then on_nodes (nextSubtree it base)
           else mret (None, stop)
       end.

Definition Close (it : RadixIterator) : RadixIterator := set_iter it (it_started it) true [] [].

Definition Reset (it : RadixIterator) : RadixIterator := set_iter it false false [] [].

(** [for { ...; if !ok { break }; entries = append(...) }]: an iteration returns at most as
    many entries as there are nodes. *)
Fixpoint collect_entries (fuel : nat) (it : RadixIterator) (entries : list IteratorEntry)
    : RM (list IteratorEntry) :=
  match fuel with
  | O => diverge
  | S fuel =>
      r ← Next it;
      match r.1 with
      | None => mret entries
      | Some e => collect_entries fuel r.2 (entries ++ [e])
      end
  end.

Definition Collect (it : RadixIterator) : RM (list IteratorEntry) :=
  fuel ← gets (fun t => S (length (r_nodes t))); collect_entries fuel it [].
End Tree.
