(* ===== verification/RadixShape.v ===== *)
(** * The shape of the radix tree

    [shape h N E cnt root]: the nodes of the tree in the heap [h] are those at the paths
    of [N]; a node knows its parent and its children, and has the entry that the directory
    [E] has under its path. [cnt] are the counts stored in the nodes: outside of an
    operation, the number of entries below a path. *)

From S2P Require Import Prelude GoStrings RadixNode RadixPage RadixTree.

Abbreviation path := (list gostring).
Abbreviation directory := (gmap path (Z * Z)).
Implicit Types (p q : list gostring) (k : gostring).

(** ** Entries below a path *)

Definition below {A} (p : path) (E : gmap path A) : gmap path A := filter (fun kv => p `prefix_of` kv.1) E.

Lemma below_lookup {A} p (E : gmap path A) q x : below p E !! q = Some x <-> E !! q = Some x /\ p `prefix_of` q.
Proof. unfold below. by rewrite map_lookup_filter_Some. Qed.

Lemma below_root {A} (E : gmap path A) : below [] E = E.
Proof. apply map_filter_id. intros. apply prefix_nil. Qed.

Lemma below_empty {A} p (E : gmap path A) : below p E = ∅ <-> forall q, is_Some (E !! q) -> ~ p `prefix_of` q.
Proof.
  split.
  - intros H q [x Hx] Hp. assert (below p E !! q = Some x) as H2 by (by apply below_lookup).
    by rewrite H, lookup_empty in H2.
  - intros H. apply map_eq. intros q. rewrite lookup_empty. apply eq_None_not_Some. intros [x Hx].
    apply below_lookup in Hx as [Hx Hp]. by apply (H q).
Qed.

Lemma prefix_snoc_inv p q k : p ++ [k] `prefix_of` q -> p `prefix_of` q.
Proof. apply prefix_app_l. Qed.

(** A path below [p] is [p] itself or goes on with a component. *)
Lemma prefix_step (p q : path) : p `prefix_of` q <-> q = p \/ exists k, p ++ [k] `prefix_of` q.
Proof.
  split.
  - intros [[|k r] ->]; [left; apply app_nil_r |]. right. exists k, r. by rewrite <- app_assoc.
  - intros [->|[k Hk]]; [done | by eapply prefix_snoc_inv].
Qed.

Lemma prefix_snoc_eq (p q : path) k k' : p ++ [k] `prefix_of` q -> p ++ [k'] `prefix_of` q -> k = k'.
Proof. intros [r ->] [r' E]. rewrite <- !app_assoc in E. apply app_inv_head in E. by injection E. Qed.

Lemma snoc_not_prefix (p : path) k : ~ p ++ [k] `prefix_of` p.
Proof. intros H%prefix_length. rewrite length_app in H. simpl in H. lia. Qed.

(** The entries below [p], by its children: [ks] has the first components of all of them. *)
Lemma below_split {A} p (E : gmap path A) (ks : list gostring) :
  NoDup ks -> (forall k q, is_Some (E !! q) -> p ++ [k] `prefix_of` q -> k ∈ ks) ->
  map_to_list (below p E) ≡ₚ
    (match E !! p with Some x => [(p, x)] | None => [] end) ++ (ks ≫= fun k => map_to_list (below (p ++ [k]) E)).
Proof.
  intros Hnd Hall. apply NoDup_Permutation.
  - apply NoDup_map_to_list.
  - apply NoDup_app. split_and!.
    + destruct (E !! p); [apply NoDup_singleton | constructor].
    + intros [q x] Hq Hin. destruct (E !! p) as [y|]; [| by apply not_elem_of_nil in Hq].
      apply list_elem_of_singleton in Hq. injection Hq as -> ->.
      apply list_elem_of_bind in Hin as (k & Hin & _). apply elem_of_map_to_list, below_lookup in Hin as [_ Hp].
      by apply snoc_not_prefix in Hp.
    + apply NoDup_bind; [| intros; apply NoDup_map_to_list | done].
      intros k k' [q x] _ _ H1 H2.
      apply elem_of_map_to_list, below_lookup in H1 as [_ H1].
      apply elem_of_map_to_list, below_lookup in H2 as [_ H2]. by eapply prefix_snoc_eq.
  - intros [q x]. rewrite elem_of_app, list_elem_of_bind, elem_of_map_to_list, below_lookup, prefix_step. split.
    + intros [Hx [->|[k Hk]]].
      * left. rewrite Hx. by left.
      * right. exists k. rewrite elem_of_map_to_list, below_lookup. split; [done |]. by eapply Hall.
    + intros [Hin|(k & Hk & _)].
      * destruct (E !! p) as [y|] eqn:Ep; [| by apply not_elem_of_nil in Hin].
        apply list_elem_of_singleton in Hin. injection Hin as -> ->. by split; [| left].
      * apply elem_of_map_to_list, below_lookup in Hk as [Hx Hp]. split; [done |]. right. by exists k.
Qed.

(** The number of entries below a path. *)
Definition count {A} (E : gmap path A) (p : path) : Z := Z.of_nat (size (below p E)).

Definition sum_list (l : list Z) : Z := foldr Z.add 0 l.

Lemma count_split {A} p (E : gmap path A) ks :
  NoDup ks -> (forall k q, is_Some (E !! q) -> p ++ [k] `prefix_of` q -> k ∈ ks) ->
  count E p = (if decide (is_Some (E !! p)) then 1 else 0) + sum_list ((fun k => count E (p ++ [k])) <$> ks).
Proof.
  intros Hnd Hall. unfold count. rewrite <- length_map_to_list, (below_split p E ks), length_app by done.
  rewrite Nat2Z.inj_add. f_equal.
  - destruct (E !! p) as [x|]; case_decide as Hd; [done | | | done].
    + by destruct Hd.
    + by destruct Hd.
  - clear. induction ks as [|k ks IH]; [done |]. rewrite fmap_cons. cbn [sum_list foldr mbind list_bind].
    rewrite length_app, length_map_to_list, Nat2Z.inj_add. f_equal. apply IH.
Qed.

Lemma count_insert (E : directory) p x q :
  E !! p = None -> count (<[p := x]> E) q = if decide (q `prefix_of` p) then count E q + 1 else count E q.
Proof.
  intros Hp. unfold count, below. case_decide as Hq.
  - rewrite map_filter_insert_True by done. rewrite map_size_insert_None; [lia |].
    apply map_lookup_filter_None. by left.
  - rewrite map_filter_insert_not by (intros; done). done.
Qed.

Lemma count_delete (E : directory) p q :
  is_Some (E !! p) -> count (delete p E) q = if decide (q `prefix_of` p) then count E q - 1 else count E q.
Proof.
  intros [x Hx]. unfold count, below. rewrite map_filter_delete. case_decide as Hq.
  - rewrite map_size_delete_Some; [|exists x; by apply map_lookup_filter_Some].
    assert (0 < size (filter (fun kv => q `prefix_of` kv.1) E))%nat; [| lia].
    destruct (size _) eqn:Es; [| lia]. apply map_size_empty_inv in Es.
    assert (filter (fun kv : path * (Z * Z) => q `prefix_of` kv.1) E !! p = Some x) as H by by apply map_lookup_filter_Some.
    by rewrite Es, lookup_empty in H.
  - rewrite delete_id; [done |]. apply map_lookup_filter_None. right. naive_solver.
Qed.

Lemma count_update (E : directory) p x q : is_Some (E !! p) -> count (<[p := x]> E) q = count E q.
Proof.
  intros Hp. rewrite <- (insert_delete_id (<[p := x]> E) p x) by apply lookup_insert_eq.
  rewrite delete_insert_eq. rewrite count_insert by apply lookup_delete_eq. rewrite count_delete by done.
  case_decide; lia.
Qed.

Lemma count_range (E : directory) p : 0 <= count E p <= Z.of_nat (size E).
Proof.
  unfold count. pose proof (map_subseteq_size (below p E) E) as H.
  assert (below p E ⊆ E) by apply map_filter_subseteq. specialize (H H0). lia.
Qed.

(** ** The nodes of a tree *)

Definition entry (n : Node) : option (Z * Z) := if HasEntry n then Some (n_PageID n, n_SlotID n) else None.

Record node_ok (N : gmap path nat) (E : directory) (cnt : path -> Z) (p : path) (n : Node) : Prop := mkNodeOk {
  ok_key : Key n = default [] (last p);
  ok_top : p = [] -> Parent n = None;
  ok_parent q k : p = q ++ [k] -> Parent n = N !! q;
  ok_bykey k : ChildrenByKey n !! k = N !! (p ++ [k]);
  ok_child b a : Children n !! b = Some a -> exists k, List.hd_error k = Some b /\ N !! (p ++ [k]) = Some a;
  ok_first k b : is_Some (N !! (p ++ [k])) -> List.hd_error k = Some b -> is_Some (Children n !! b);
  ok_entry : entry n = E !! p;
  ok_count : SubtreeCount n = cnt p;
  ok_range : is_uint64 (n_PageID n) /\ is_uint16 (n_SlotID n)
}.

Record shape (h : list Node) (N : gmap path nat) (E : directory) (cnt : path -> Z) (root : nat) : Prop := mkShape {
  sh_root : N !! [] = Some root;
  sh_inj p q a : N !! p = Some a -> N !! q = Some a -> p = q;
  sh_node p a : N !! p = Some a -> exists n, h !! a = Some n /\ node_ok N E cnt p n;
  sh_closed p k : is_Some (N !! (p ++ [k])) -> is_Some (N !! p) /\ k <> [];
  sh_dom p : is_Some (E !! p) -> is_Some (N !! p)
}.

Section Shape.
Implicit Types (h : list Node) (N : gmap path nat) (E : directory) (a : nat).

Lemma shape_prefix h N E cnt root p q :
  shape h N E cnt root -> is_Some (N !! q) -> p `prefix_of` q -> is_Some (N !! p).
Proof.
  intros Hs Hq [r ->]. induction r as [|k r IH] using rev_ind; [by rewrite app_nil_r in Hq |].
  rewrite app_assoc in Hq. by apply IH, (sh_closed _ _ _ _ _ Hs _ k).
Qed.

Lemma shape_below h N E cnt root p :
  shape h N E cnt root -> N !! p = None -> below p E = ∅.
Proof.
  intros Hs Hp. apply below_empty. intros q Hq Hpq. apply (sh_dom _ _ _ _ _ Hs) in Hq.
  destruct (shape_prefix _ _ _ _ _ p q Hs Hq Hpq). congruence.
Qed.

(** The addresses of the nodes from the root to [p] are different. *)
Lemma shape_depth h N E cnt root p : shape h N E cnt root -> is_Some (N !! p) -> (length p < length h)%nat.
Proof.
  intros Hs Hp.
  assert (forall i, is_Some (N !! take i p)) as Ht.
  { intros i. by eapply shape_prefix; [| | apply prefix_take]. }
  assert (exists l, mapM (fun i => N !! take i p) (seq 0 (S (length p))) = Some l) as [l Hl].
  { apply mapM_is_Some, Forall_forall. intros i _. apply Ht. }
  apply mapM_Some in Hl as Hl2. pose proof (Forall2_length _ _ _ Hl2) as Hlen. rewrite length_seq in Hlen.
  assert (NoDup l) as Hnd.
  { apply NoDup_alt. intros i j x Hi Hj.
    destruct (Forall2_lookup_r _ _ _ _ _ Hl2 Hi) as (i' & Ei & Hi').
    destruct (Forall2_lookup_r _ _ _ _ _ Hl2 Hj) as (j' & Ej & Hj').
    apply lookup_seq in Ei as [-> ?]. apply lookup_seq in Ej as [-> ?].
    pose proof (sh_inj _ _ _ _ _ Hs _ _ _ Hi' Hj') as Heq. apply (f_equal length) in Heq.
    rewrite !length_take in Heq. lia. }
  assert (l ⊆+ seq 0 (length h)) as Hsub%submseteq_length; [| rewrite length_seq in Hsub; lia].
  apply NoDup_submseteq; [done |]. intros x Hx. apply list_elem_of_lookup in Hx as [i Hi].
  destruct (Forall2_lookup_r _ _ _ _ _ Hl2 Hi) as (i' & _ & Hi').
  destruct (sh_node _ _ _ _ _ Hs _ _ Hi') as (n & Hn & _). apply elem_of_seq.
  apply lookup_lt_Some in Hn. lia.
Qed.

Lemma key_snoc N E cnt p k n : node_ok N E cnt (p ++ [k]) n -> Key n = k.
Proof. intros Hok. by rewrite (ok_key _ _ _ _ _ Hok), last_snoc. Qed.

Lemma load_run h a n : h !! a = Some n -> load a h = (Ok n, h).
Proof. intros H. unfold load. by rewrite H. Qed.

Lemma save_run a n h : save a n h = (Ok tt, <[a := n]> h).
Proof. done. Qed.

(** A node is replaced by one with the same place in the tree. *)
Lemma shape_save h N E cnt root E' cnt' p a n :
  shape h N E cnt root -> N !! p = Some a -> node_ok N E' cnt' p n ->
  (forall q, q <> p -> E' !! q = E !! q) -> (forall q, q <> p -> cnt' q = cnt q) ->
  shape (<[a := n]> h) N E' cnt' root.
Proof.
  intros Hs Hp Hn HE Hc. constructor.
  - apply Hs.
  - apply Hs.
  - intros q b Hq. destruct (decide (q = p)) as [->|Hne].
    + assert (b = a) as -> by congruence. exists n. split; [| done]. apply list_lookup_insert_eq.
      destruct (sh_node _ _ _ _ _ Hs _ _ Hp) as (m & Hm & _). by eapply lookup_lt_Some.
    + destruct (sh_node _ _ _ _ _ Hs _ _ Hq) as (m & Hm & Hok). exists m. split.
      * rewrite list_lookup_insert_ne; [done |]. intros ->. by apply Hne, (sh_inj _ _ _ _ _ Hs _ _ b).
      * destruct Hok. constructor; [done.. | by rewrite HE | by rewrite Hc | done].
  - apply Hs.
  - intros q Hq. destruct (decide (q = p)) as [->|Hne]; [by eexists |]. rewrite HE in Hq by done. by apply Hs.
Qed.

(** ** Finding a node *)

Section Ops.
Context {UT : UnicodeTables} {MI : MapIteration}.

Lemma GetChild_run h N E cnt root p a k :
  shape h N E cnt root -> N !! p = Some a -> GetChild a k h = (Ok (N !! (p ++ [k])), h).
Proof.
  intros Hs Hp. destruct (sh_node _ _ _ _ _ Hs _ _ Hp) as (n & Hn & Hok). unfold GetChild.
  destruct k as [|b k].
  - destruct (N !! (p ++ [[]])) eqn:E0; [| done].
    by destruct (sh_closed _ _ _ _ _ Hs p []) as [_ []].
  - rewrite (bind_ok _ _ _ _ _ (load_run _ _ _ Hn)), (ok_bykey _ _ _ _ _ Hok).
    destruct (N !! (p ++ [b :: k])) as [c|] eqn:Ec; [done |].
    destruct (Children n !! b) as [c|] eqn:Eb; [| done].
    destruct (ok_child _ _ _ _ _ Hok _ _ Eb) as (k' & _ & Hk').
    destruct (sh_node _ _ _ _ _ Hs _ _ Hk') as (m & Hm & Hmok).
    rewrite (bind_ok _ _ _ _ _ (load_run _ _ _ Hm)), (key_snoc _ _ _ _ _ _ Hmok).
    rewrite decide_True; [done |]. cbn. congruence.
Qed.

Lemma traverse_find h N E cnt root comps p a :
  shape h N E cnt root -> N !! p = Some a -> traverse a comps false h = (Ok (N !! (p ++ comps)), h).
Proof.
  intros Hs. revert p a. induction comps as [|k comps IH]; intros p a Hp; cbn [traverse].
  - by rewrite app_nil_r, Hp.
  - rewrite (bind_ok _ _ _ _ _ (GetChild_run _ _ _ _ _ _ _ k Hs Hp)).
    destruct (N !! (p ++ [k])) as [c|] eqn:Ec.
    + rewrite (IH _ _ Ec). by rewrite <- app_assoc.
    + assert (N !! (p ++ k :: comps) = None) as ->; [| done].
      apply eq_None_not_Some. intros Hd. destruct (shape_prefix _ _ _ _ _ (p ++ [k]) _ Hs Hd); [| congruence].
      rewrite (cons_middle k p comps), app_assoc. apply prefix_app_r. done.
Qed.

(** ** Counting *)

Lemma range_empty {K V} `{Countable K} : range (∅ : gmap K V) = [].
Proof. apply Permutation_nil_r. by rewrite range_perm, map_to_list_empty. Qed.

Definition children_of (n : Node) : list (gostring * nat) := range (ChildrenByKey n).

Lemma children_empty N E cnt p n : (forall k, is_Some (N !! (p ++ [k])) -> k <> []) ->
  node_ok N E cnt p n -> (ChildrenByKey n = ∅ <-> Children n = ∅).
Proof.
  intros Hk Hok. split; intros He; apply map_empty; intros x.
  - apply eq_None_not_Some. intros [a Ha]. destruct (ok_child _ _ _ _ _ Hok _ _ Ha) as (k & _ & Hka).
    rewrite <- (ok_bykey _ _ _ _ _ Hok), He in Hka. by rewrite lookup_empty in Hka.
  - apply eq_None_not_Some. rewrite (ok_bykey _ _ _ _ _ Hok). intros Hx. destruct x as [|b x].
    + by apply Hk in Hx.
    + destruct (ok_first _ _ _ _ _ Hok _ b Hx eq_refl) as [c Hc]. by rewrite He in Hc.
Qed.

Lemma child_nodes_run h N E cnt root p n :
  shape h N E cnt root -> node_ok N E cnt p n -> child_nodes n = (children_of n).*2.
Proof.
  intros Hs Hok. unfold child_nodes, children_of. case_decide as He; [| done].
  assert (Children n = ∅) as Hc.
  { eapply children_empty in Hok; [by apply Hok |]. intros k Hk. by destruct (sh_closed _ _ _ _ _ Hs _ _ Hk). }
  by rewrite He, Hc, !range_empty.
Qed.

Lemma elem_of_children N E cnt p n k c :
  node_ok N E cnt p n -> (k, c) ∈ children_of n <-> N !! (p ++ [k]) = Some c.
Proof. intros Hok. unfold children_of. rewrite elem_of_range. by rewrite (ok_bykey _ _ _ _ _ Hok). Qed.

Lemma children_cover h N E cnt root p n :
  shape h N E cnt root -> node_ok N E cnt p n ->
  forall k q, is_Some (E !! q) -> p ++ [k] `prefix_of` q -> k ∈ (children_of n).*1.
Proof.
  intros Hs Hok k q Hq Hp. apply (sh_dom _ _ _ _ _ Hs) in Hq.
  destruct (shape_prefix _ _ _ _ _ _ _ Hs Hq Hp) as [c Hc].
  apply list_elem_of_fmap. exists (k, c). split; [done |]. by eapply elem_of_children.
Qed.

Lemma sum_counts_run h N E cnt root p l c :
  shape h N E cnt root -> (forall k a, (k, a) ∈ l -> N !! (p ++ [k]) = Some a) -> 0 <= c ->
  exists s, sum_counts l.*2 c h = (Ok s, h) /\ (s mod 2 ^ 32 = (c + sum_list ((fun k => cnt (p ++ [k])) <$> l.*1)) mod 2 ^ 32)
    /\ (0 <= c < 2 ^ 32 -> 0 <= s < 2 ^ 32).
Proof.
  intros Hs. revert c. induction l as [|[k a] l IH]; intros c Hl Hc.
  - exists c. cbn. split_and!; [done | f_equal; lia | done].
  - destruct (sh_node _ _ _ _ _ Hs _ _ (Hl k a ltac:(left))) as (n & Hn & Hok).
    rewrite !fmap_cons. cbn [sum_counts snd fst]. rewrite (bind_ok _ _ _ _ _ (load_run _ _ _ Hn)).
    rewrite (ok_count _ _ _ _ _ Hok). unfold uint32.
    pose proof (Z.mod_pos_bound (c + cnt (p ++ [k])) (2 ^ 32) ltac:(lia)) as Hm.
    destruct (IH ((c + cnt (p ++ [k])) mod 2 ^ 32)) as (s & Hrun & Hmod & Hr); [| lia |].
    + intros k' a' Hin. apply Hl. by right.
    + exists s. split_and!; [done | | intros; by apply Hr].
      rewrite Hmod. cbn [sum_list foldr]. rewrite Zplus_mod_idemp_l, Z.add_assoc. done.
Qed.

Lemma update_run h N E cnt root p a :
  shape h N E cnt root -> Z.of_nat (size E) < 2 ^ 32 -> N !! p = Some a ->
  (forall q, q <> p -> cnt q = count E q) ->
  exists h', updateSubtreeCount a h = (Ok tt, h') /\ shape h' N E (count E) root /\ length h' = length h.
Proof.
  intros Hs HE Hp Hcnt. destruct (sh_node _ _ _ _ _ Hs _ _ Hp) as (n & Hn & Hok). unfold updateSubtreeCount.
  rewrite (bind_ok _ _ _ _ _ (load_run _ _ _ Hn)), (child_nodes_run _ _ _ _ _ _ _ Hs Hok).
  destruct (sum_counts_run _ _ _ _ _ p (children_of n) (if HasEntry n then 1 else 0) Hs) as (s & Hrun & Hmod & Hr).
  { intros k c Hin. by eapply elem_of_children in Hin. }
  { by destruct (HasEntry n). }
  rewrite (bind_ok _ _ _ _ _ Hrun). eexists. split_and!; [done | | apply length_insert].
  assert (s = count E p) as ->.
  { rewrite (count_split p E (children_of n).*1) in *; [| apply range_keys | by eapply children_cover].
    pose proof (count_range E p) as Hc.
    rewrite (count_split p E (children_of n).*1) in Hc; [| apply range_keys | by eapply children_cover].
    rewrite <- (Z.mod_small s (2 ^ 32)), Hmod by (apply Hr; destruct (HasEntry n); lia).
    assert ((if HasEntry n then 1 else 0) = if decide (is_Some (E !! p)) then 1 else 0) as ->.
    { rewrite <- (ok_entry _ _ _ _ _ Hok). unfold entry. by destruct (HasEntry n). }
    assert (((fun k => cnt (p ++ [k])) <$> (children_of n).*1) = ((fun k => count E (p ++ [k])) <$> (children_of n).*1)) as ->.
    { apply list_fmap_ext. intros i k _. apply Hcnt. intros Heq%(f_equal length). rewrite length_app in Heq. simpl in Heq. lia. }
    apply Z.mod_small. lia. }
  eapply shape_save; [done | done | | done | intros; symmetry; by apply Hcnt].
  destruct Hok. by constructor.
Qed.
End Ops.
End Shape.
