(* ===== verification/RadixOps.v ===== *)
(** * Changes of the radix tree

    Adding a child, setting and clearing an entry with the counts up to the root, and the
    removal of nodes that lead to no entry. *)

From S2P Require Import Prelude GoStrings RadixNode RadixPage RadixTree RadixShape.

Implicit Types (p q : list gostring) (k : gostring).
Implicit Types (h : list Node) (N : gmap path nat) (E : directory) (a : nat).

Lemma node_ok_agree N N' E cnt q n :
  node_ok N E cnt q n -> (forall k, N' !! (q ++ [k]) = N !! (q ++ [k])) ->
  (forall r k, q = r ++ [k] -> N' !! r = N !! r) -> node_ok N' E cnt q n.
Proof.
  intros [] Hc Hp. constructor; try done.
  - intros r k Hq. rewrite (Hp r k Hq). by apply (ok_parent r k).
  - intros k. by rewrite Hc.
  - intros b a Hb. destruct (ok_child b a Hb) as (k & ? & ?). exists k. by rewrite Hc.
  - intros k b. rewrite Hc. apply ok_first.
Qed.

Lemma snoc_ne_nil {A} (l : list A) x : l ++ [x] <> [].
Proof. by destruct l. Qed.

Lemma snoc_ne {A} (l : list A) x : l ++ [x] <> l.
Proof. intros H%(f_equal length). rewrite length_app in H. simpl in H. lia. Qed.

(** The new leaf and its parent in their places. *)
Lemma shape_leaf h N E cnt root p a n b k c C :
  shape h N E cnt root -> N !! p = Some a -> h !! a = Some n -> N !! (p ++ [b :: k]) = None ->
  cnt (p ++ [b :: k]) = 0 -> c = length h ->
  (C = Children n \/ C = <[b := c]> (Children n)) -> is_Some (C !! b) ->
  shape (<[a := set_children n C (<[b :: k := c]> (ChildrenByKey n))]>
           (h ++ [set_Parent (NewNode (b :: k)) (Some a)]))
    (<[p ++ [b :: k] := c]> N) E cnt root.
Proof.
  intros Hs Hp Hn Hnew H0 -> HC Hb.
  assert (forall q x, N !! q = Some x -> (x < length h)%nat) as Hlt.
  { intros q x Hq. destruct (sh_node _ _ _ _ _ Hs _ _ Hq) as (m & Hm & _). by eapply lookup_lt_Some. }
  constructor.
  - rewrite lookup_insert_ne by apply snoc_ne_nil. apply Hs.
  - intros q1 q2 x H1 H2. apply lookup_insert_Some in H1 as [[<- <-]|[Hn1 H1]], H2 as [[<- Heq]|[Hn2 H2]]; [done | | |].
    + apply Hlt in H2. lia.
    + apply Hlt in H1. lia.
    + by apply (sh_inj _ _ _ _ _ Hs _ _ x).
  - intros q x Hq. destruct (decide (q = p ++ [b :: k])) as [->|Hne1].
    + rewrite lookup_insert_eq in Hq. injection Hq as <-. eexists. split.
      { rewrite list_lookup_insert_ne by (apply Hlt in Hp; lia). by apply list_lookup_middle. }
      constructor; cbn.
      * by rewrite last_snoc.
      * intros Heq. by apply snoc_ne_nil in Heq.
      * intros r k' [-> _]%app_inj_tail. by rewrite lookup_insert_ne by apply snoc_ne.
      * intros k'. rewrite lookup_empty, lookup_insert_ne by (intros Heq; symmetry in Heq; by apply snoc_ne in Heq).
        symmetry. apply eq_None_not_Some. intros [[y Hy] _]%(sh_closed _ _ _ _ _ Hs). congruence.
      * intros b' a'. by rewrite lookup_empty.
      * intros k' b'. rewrite lookup_insert_ne by (intros Heq; symmetry in Heq; by apply snoc_ne in Heq).
        intros [[y Hy] _]%(sh_closed _ _ _ _ _ Hs). congruence.
      * symmetry. apply eq_None_not_Some. intros [y Hy]%(sh_dom _ _ _ _ _ Hs). congruence.
      * by rewrite H0.
      * done.
    + rewrite lookup_insert_ne in Hq by done. destruct (decide (q = p)) as [->|Hne2].
      * assert (x = a) as -> by congruence. destruct (sh_node _ _ _ _ _ Hs _ _ Hp) as (n' & Hn' & Hok).
        assert (n' = n) as -> by congruence. eexists. split.
        { apply list_lookup_insert_eq. rewrite length_app. apply Hlt in Hp. lia. }
        destruct Hok. constructor; cbn; try done.
        -- intros r k' Hr. rewrite (ok_parent r k' Hr). rewrite lookup_insert_ne; [done |].
           intros Heq. subst. apply (f_equal length) in Heq. rewrite !length_app in Heq. simpl in Heq. lia.
        -- intros k'. destruct (decide (k' = b :: k)) as [->|Hk]; [by rewrite !lookup_insert_eq |].
           rewrite !lookup_insert_ne; [done | by intros [= ?]%app_inv_head | done].
        -- intros b' a' Hc. assert (Children n !! b' = Some a' \/ (b' = b /\ a' = length h)) as [Hc'|[-> ->]].
           { destruct HC as [->| ->]; [by left |]. apply lookup_insert_Some in Hc. naive_solver. }
           { destruct (ok_child b' a' Hc') as (k' & Hk' & Ha'). exists k'. split; [done |].
             rewrite lookup_insert_ne; [done |]. intros Heq. rewrite <- Heq in Ha'. congruence. }
           { exists (b :: k). by rewrite lookup_insert_eq. }
        -- intros k' b' Hk' Hb'. destruct (decide (b' = b)) as [->|Hbne]; [done |].
           assert (is_Some (Children n !! b')) as Hc.
           { apply (ok_first k' b'); [| done]. rewrite lookup_insert_ne in Hk'; [done |].
             intros [= <-]%app_inv_head. cbn in Hb'. congruence. }
           destruct HC as [->| ->]; [done |]. by rewrite lookup_insert_ne.
      * destruct (sh_node _ _ _ _ _ Hs _ _ Hq) as (m & Hm & Hok). exists m. split.
        { rewrite list_lookup_insert_ne by (intros ->; by apply Hne2, (sh_inj _ _ _ _ _ Hs _ _ x)).
          by apply lookup_app_l_Some. }
        eapply node_ok_agree; [done | |].
        -- intros k'. rewrite lookup_insert_ne; [done |]. by intros [-> _]%app_inj_tail.
        -- intros r k' ->. rewrite lookup_insert_ne; [done |]. intros <-.
           destruct (sh_closed _ _ _ _ _ Hs (p ++ [b :: k]) k') as [[y Hy] _]; [by eexists | congruence].
  - intros q k' Hq. destruct (decide (q ++ [k'] = p ++ [b :: k])) as [[-> ->]%app_inj_tail|Hne].
    + split; [| done]. rewrite lookup_insert_ne by apply snoc_ne. by eexists.
    + rewrite lookup_insert_ne in Hq by done. destruct (sh_closed _ _ _ _ _ Hs _ _ Hq) as [Hq' Hk].
      split; [| done]. apply lookup_insert_is_Some'. by right.
  - intros q Hq. apply lookup_insert_is_Some'. right. by apply Hs.
Qed.
Lemma prefix_snoc_iff q p k : q `prefix_of` p ++ [k] <-> q `prefix_of` p \/ q = p ++ [k].
Proof.
  split; [| intros [Hq| ->]; [by apply prefix_app_r | done]].
  intros [r Hr]. destruct r as [|x r _] using rev_ind; [right; by rewrite app_nil_r in Hr |].
  left. rewrite app_assoc in Hr. apply app_inj_tail in Hr as [-> _]. by apply prefix_app_r.
Qed.

Section Ops.
Context {UT : UnicodeTables} {MI : MapIteration}.

(** ** Creating the nodes of a path *)

Lemma count_none h N E cnt root p : shape h N E cnt root -> N !! p = None -> count E p = 0.
Proof. intros Hs Hp. unfold count. by rewrite (shape_below _ _ _ _ _ _ Hs Hp). Qed.

Lemma AddChild_run h N E root p a k :
  shape h N E (count E) root -> Z.of_nat (size E) < 2 ^ 32 -> N !! p = Some a -> k <> [] -> N !! (p ++ [k]) = None ->
  exists h', AddChild a (length h) (h ++ [NewNode k]) = (Ok tt, h')
    /\ shape h' (<[p ++ [k] := length h]> N) E (count E) root.
Proof.
  intros Hs HE Hp Hk Hnew. destruct k as [|b k]; [done |]. clear Hk.
  destruct (sh_node _ _ _ _ _ Hs _ _ Hp) as (n & Hn & Hok). pose proof (lookup_lt_Some _ _ _ Hn) as Hlt.
  pose proof (count_none _ _ _ _ _ _ Hs Hnew) as H0.
  set (h1 := h ++ [set_Parent (NewNode (b :: k)) (Some a)]).
  assert (forall C, (C = Children n \/ C = <[b := length h]> (Children n)) -> is_Some (C !! b) ->
    exists h', (save a (set_children n C (<[b :: k := length h]> (ChildrenByKey n))) ;; updateSubtreeCount a) h1 = (Ok tt, h')
      /\ shape h' (<[p ++ [b :: k] := length h]> N) E (count E) root) as Hrest.
  { intros C HC Hb. pose proof (shape_leaf _ _ _ _ _ _ _ _ _ _ _ _ Hs Hp Hn Hnew H0 eq_refl HC Hb) as Hs2.
    destruct (update_run _ _ _ _ _ p a Hs2 HE) as (h' & Hrun & Hs' & _); [| done |].
    - rewrite lookup_insert_ne by apply snoc_ne. done.
    - exists h'. by split. }
  unfold AddChild. rewrite (bind_ok _ _ _ _ (NewNode (b :: k))) by (by apply load_run, list_lookup_middle). cbn [Key NewNode].
  assert (save (length h) (set_Parent (NewNode (b :: k)) (Some a)) (h ++ [NewNode (b :: k)]) = (Ok tt, h1)) as Hsave.
  { unfold save, modify, h1. f_equal. rewrite <- (Nat.add_0_r (length h)), insert_app_r. done. }
  rewrite (bind_ok _ _ _ _ _ Hsave).
  assert (load a h1 = (Ok n, h1)) as Hload by by apply load_run, lookup_app_l_Some.
  rewrite (bind_ok _ _ _ _ _ Hload). destruct (Children n !! b) as [e|] eqn:Eb.
  - destruct (ok_child _ _ _ _ _ Hok _ _ Eb) as (k' & _ & Hk').
    destruct (sh_node _ _ _ _ _ Hs _ _ Hk') as (m & Hm & Hmok).
    assert (load e h1 = (Ok m, h1)) as He by by apply load_run, lookup_app_l_Some.
    rewrite (bind_run _ (x ← load e; _)), (bind_ok _ _ _ _ _ He).
    rewrite (key_snoc _ _ _ _ _ _ Hmok). rewrite decide_True by (cbn; congruence).
    rewrite (ok_bykey _ _ _ _ _ Hok k'), Hk'. apply Hrest; [by left | by eexists].
  - apply Hrest; [by right |]. rewrite lookup_insert_eq. by eexists.
Qed.

Lemma traverse_create h N E root comps p a :
  shape h N E (count E) root -> Z.of_nat (size E) < 2 ^ 32 -> N !! p = Some a -> Forall (fun k => k <> []) comps ->
  exists h' N' a', traverse a comps true h = (Ok (Some a'), h') /\ shape h' N' E (count E) root
    /\ N' !! (p ++ comps) = Some a' /\ N ⊆ N' /\ forall q, is_Some (N' !! q) -> is_Some (N !! q) \/ q `prefix_of` p ++ comps.
Proof.
  intros Hs HE. revert h N p a Hs. induction comps as [|k comps IH]; intros h N p a Hs Hp Hall; cbn [traverse].
  - exists h, N, a. rewrite app_nil_r. split_and!; [done | done | done | done | by left].
  - apply Forall_cons in Hall as [Hk Hall]. rewrite (bind_ok _ _ _ _ _ (GetChild_run _ _ _ _ _ _ _ k Hs Hp)).
    destruct (N !! (p ++ [k])) as [c|] eqn:Ec.
    + destruct (IH h N (p ++ [k]) c Hs Ec Hall) as (h' & N' & a' & H1 & H2 & H3 & H4 & H5).
      rewrite <- app_assoc in H3, H5. by exists h', N', a'.
    + cbn [alloc]. destruct (AddChild_run _ _ _ _ _ _ _ Hs HE Hp Hk Ec) as (h1 & Hadd & Hs1).
      destruct (IH h1 _ (p ++ [k]) (length h) Hs1) as (h' & N' & a' & H1 & H2 & H3 & H4 & H5).
      * apply lookup_insert_eq.
      * done.
      * exists h', N', a'. rewrite <- app_assoc in H3, H5. split_and!; [| done | done | |].
        { unfold alloc. rewrite bind_run. by rewrite (bind_ok _ _ _ _ _ Hadd). }
        { etrans; [| done]. by apply insert_subseteq. }
        { intros q Hq. destruct (H5 q Hq) as [Hq1|Hq1]; [| by right].
          apply lookup_insert_is_Some' in Hq1 as [<-|Hq1]; [| by left]. right.
          exists comps. by rewrite <- app_assoc. }
Qed.

(** ** Counts up to the root *)

Lemma propagate_run h N E cnt root p a delta fuel :
  shape h N E cnt root -> N !! p = Some a -> (length p < fuel)%nat ->
  exists h', propagate fuel (Some a) delta h = (Ok tt, h') /\ length h' = length h
    /\ shape h' N E (fun q => if decide (q `prefix_of` p) then add_delta (cnt q) delta else cnt q) root.
Proof.
  revert h cnt a fuel. induction p as [|k p IH] using rev_ind; intros h cnt a fuel Hs Hp Hf;
    (destruct fuel as [|fuel]; [lia |]); destruct (sh_node _ _ _ _ _ Hs _ _ Hp) as (n & Hn & Hok); cbn [propagate];
    rewrite (bind_ok _ _ _ _ _ (load_run _ _ _ Hn)).
  - eexists. unfold save, modify. rewrite bind_run, (ok_top _ _ _ _ _ Hok) by done.
    destruct fuel; (split_and!; [done | apply length_insert |]);
    (eapply shape_save; [done | done | | done |]);
      try (intros q Hq; rewrite decide_False; [done |]; by intros ?%prefix_nil_inv);
      (destruct Hok; constructor; try done; cbn; rewrite decide_True by done; by f_equal).
  - rewrite length_app in Hf. cbn in Hf.
    assert (shape (<[a := set_count n (add_delta (SubtreeCount n) delta)]> h) N E
      (fun q => if decide (q = p ++ [k]) then add_delta (cnt q) delta else cnt q) root) as Hs1.
    { eapply shape_save; [done | done | | done | intros q Hq; by rewrite decide_False].
      destruct Hok; constructor; try done. cbn. rewrite decide_True by done. by f_equal. }
    destruct (sh_closed _ _ _ _ _ Hs1 p k) as [[b Hb] _]; [by eexists |].
    unfold save, modify. rewrite bind_run, (ok_parent _ _ _ _ _ Hok p k), Hb by done.
    destruct (IH _ _ b fuel Hs1 Hb ltac:(lia)) as (h' & Hrun & Hl & Hs2).
    exists h'. split_and!; [done | by rewrite Hl, length_insert |].
    destruct Hs2 as [? ? Hnode ? ?]. constructor; try done. intros q x Hq. destruct (Hnode q x Hq) as (m & Hm & [])
      . exists m. split; [done |]. constructor; try done. rewrite ok_count.
    rewrite (decide_ext _ _ _ _ (prefix_snoc_iff q p k)). destruct (decide (q `prefix_of` p)) as [Hq1|Hq1].
    + rewrite decide_False, decide_True; [done | by left |]. intros ->. by apply snoc_not_prefix in Hq1.
    + destruct (decide (q = p ++ [k])); [rewrite decide_True | rewrite decide_False]; naive_solver.
Qed.

Lemma shape_cnt h N E cnt cnt' root :
  shape h N E cnt root -> (forall q, is_Some (N !! q) -> cnt q = cnt' q) -> shape h N E cnt' root.
Proof.
  intros [? ? Hnode ? ?] Hc. constructor; try done. intros q x Hq. destruct (Hnode q x Hq) as (m & Hm & []).
  exists m. split; [done |]. constructor; try done. rewrite <- Hc by by eexists. done.
Qed.

(** [PropagateSubtreeCountChange] from the parent of [p] on, where there is one. *)
Definition propagate_parent (n : Node) (delta : Z) : HM unit :=
  match Parent n with Some b => PropagateSubtreeCountChange b delta | None => mret tt end.

Lemma propagate_parent_run h N E cnt root p a n delta :
  shape h N E cnt root -> N !! p = Some a -> node_ok N E cnt p n ->
  exists h', propagate_parent n delta h = (Ok tt, h') /\ length h' = length h
    /\ shape h' N E (fun q => if decide (q `prefix_of` p /\ q <> p) then add_delta (cnt q) delta else cnt q) root.
Proof.
  intros Hs Hp Hok. unfold propagate_parent. destruct p as [|k p _] using rev_ind.
  - rewrite (ok_top _ _ _ _ _ Hok) by done. exists h. split_and!; [done | done |].
    eapply shape_cnt; [done |]. intros q _. cbv beta. rewrite decide_False; [done |]. by intros [->%prefix_nil_inv ?].
  - destruct (sh_closed _ _ _ _ _ Hs p k) as [[b Hb] _]; [by eexists |].
    rewrite (ok_parent _ _ _ _ _ Hok p k), Hb by done. unfold PropagateSubtreeCountChange.
    destruct (propagate_run h N E cnt root p b delta (length h)) as (h' & Hrun & Hl & Hs'); [done.. | |].
    { by eapply shape_depth. }
    exists h'. split_and!; [done | done |]. eapply shape_cnt; [done |]. intros q _. cbv beta.
    rewrite (decide_ext (q `prefix_of` p) (q `prefix_of` p ++ [k] /\ q <> p ++ [k])); [done |].
    rewrite prefix_snoc_iff. split; [| naive_solver]. intros Hq. split; [by left |]. intros ->.
    by apply snoc_not_prefix in Hq.
Qed.

Lemma SetEntry_run h N E root p a n pg sl :
  is_uint64 pg -> is_uint16 sl -> shape h N E (count E) root -> Z.of_nat (size E) + 1 < 2 ^ 32 -> N !! p = Some a -> h !! a = Some n -> E !! p = None ->
  exists h', (save a (SetEntry n pg sl) ;; propagate_parent n 1) h = (Ok tt, h') /\ length h' = length h
    /\ shape h' N (<[p := (pg, sl)]> E) (count (<[p := (pg, sl)]> E)) root.
Proof.
  intros Hpg Hsl Hs HE Hp Hn He. destruct (sh_node _ _ _ _ _ Hs _ _ Hp) as (n' & Hn' & Hok).
  assert (n' = n) as -> by congruence. pose proof (count_range E p) as Hc.
  assert (node_ok N (<[p := (pg, sl)]> E) (fun q => if decide (q = p) then count E q + 1 else count E q) p (SetEntry n pg sl)) as Hok1.
  { assert (HasEntry n = false) as HF.
    { pose proof (ok_entry _ _ _ _ _ Hok) as Hx. rewrite He in Hx. unfold entry in Hx. by destruct (HasEntry n). }
    destruct Hok. constructor; try done; unfold SetEntry; cbn.
    - by rewrite lookup_insert_eq.
    - rewrite HF, decide_True, ok_count by done. unfold uint32. apply Z.mod_small. lia. }
  assert (shape (<[a := SetEntry n pg sl]> h) N (<[p := (pg, sl)]> E)
    (fun q => if decide (q = p) then count E q + 1 else count E q) root) as Hs1.
  { eapply shape_save; [done.. | |]; intros q Hq; [by rewrite lookup_insert_ne | by rewrite decide_False]. }
  destruct (propagate_parent_run _ _ _ _ _ p a _ 1 Hs1 Hp Hok1) as (h' & Hrun & Hl & Hs2).
  exists h'. split_and!; [done | by rewrite Hl, length_insert |]. eapply shape_cnt; [done |]. intros q _. cbv beta.
  rewrite count_insert by done. pose proof (count_range E q). unfold add_delta, uint32.
  destruct (decide (q = p)) as [->|Hq].
  - by rewrite decide_False, decide_True by naive_solver.
  - destruct (decide (q `prefix_of` p)); [rewrite decide_True by done | by rewrite decide_False by naive_solver].
    rewrite decide_True by lia. rewrite Z.mod_small; [done |]. change (1 mod 2 ^ 32) with 1. lia.
Qed.

Lemma ClearEntry_run h N E root p a n :
  shape h N E (count E) root -> Z.of_nat (size E) < 2 ^ 32 -> N !! p = Some a -> h !! a = Some n -> is_Some (E !! p) ->
  exists h', (save a (ClearEntry n) ;; propagate_parent n (-1)) h = (Ok tt, h') /\ length h' = length h
    /\ shape h' N (delete p E) (count (delete p E)) root.
Proof.
  intros Hs HE Hp Hn He. destruct (sh_node _ _ _ _ _ Hs _ _ Hp) as (n' & Hn' & Hok).
  assert (n' = n) as -> by congruence.
  assert (forall q, q `prefix_of` p -> 1 <= count E q < 2 ^ 32) as Hc.
  { intros q Hq. pose proof (count_delete E p q He) as H1. rewrite decide_True in H1 by done.
    pose proof (count_range (delete p E) q). pose proof (count_range E q). lia. }
  assert (node_ok N (delete p E) (fun q => if decide (q = p) then count E q - 1 else count E q) p (ClearEntry n)) as Hok1.
  { assert (HasEntry n = true) as HF.
    { pose proof (ok_entry _ _ _ _ _ Hok) as Hx. destruct He as [y Hy]. rewrite Hy in Hx. unfold entry in Hx.
      by destruct (HasEntry n). }
    destruct Hok. constructor; try done; unfold ClearEntry; cbn.
    - by rewrite lookup_delete_eq.
    - rewrite HF, decide_True, ok_count by done. unfold uint32. apply Z.mod_small. destruct (Hc p) as [? ?]; [done | lia]. }
  assert (shape (<[a := ClearEntry n]> h) N (delete p E)
    (fun q => if decide (q = p) then count E q - 1 else count E q) root) as Hs1.
  { eapply shape_save; [done.. | |]; intros q Hq; [by rewrite lookup_delete_ne | by rewrite decide_False]. }
  destruct (propagate_parent_run _ _ _ _ _ p a _ (-1) Hs1 Hp Hok1) as (h' & Hrun & Hl & Hs2).
  exists h'. split_and!; [done | by rewrite Hl, length_insert |]. eapply shape_cnt; [done |]. intros q _. cbv beta.
  rewrite count_delete by done. unfold add_delta, uint32. change (- -1) with 1. change (1 mod 2 ^ 32) with 1.
  destruct (decide (q = p)) as [->|Hq].
  - by rewrite decide_False, decide_True by naive_solver.
  - destruct (decide (q `prefix_of` p)) as [Hpre|Hpre]; [rewrite decide_True by done | by rewrite decide_False by naive_solver].
    specialize (Hc q Hpre). rewrite decide_False, decide_True by lia. apply Z.mod_small. lia.
Qed.

(** ** Removing nodes *)

Lemma shape_prune h N E cnt root p a n k c m C :
  shape h N E cnt root -> N !! p = Some a -> h !! a = Some n -> N !! (p ++ [k]) = Some c ->
  (forall k', N !! ((p ++ [k]) ++ [k']) = None) -> E !! (p ++ [k]) = None ->
  (forall b x, C !! b = Some x -> exists k', k' <> k /\ List.hd_error k' = Some b /\ N !! (p ++ [k']) = Some x) ->
  (forall k' b, k' <> k -> is_Some (N !! (p ++ [k'])) -> List.hd_error k' = Some b -> is_Some (C !! b)) ->
  shape (<[a := set_children n C (delete k (ChildrenByKey n))]> (<[c := m]> h)) (delete (p ++ [k]) N) E cnt root.
Proof.
  intros Hs Hp Hn Hc Hleaf He HC1 HC2. constructor.
  - rewrite lookup_delete_ne by apply snoc_ne_nil. apply Hs.
  - intros q1 q2 x [_ H1]%lookup_delete_Some [_ H2]%lookup_delete_Some. by apply (sh_inj _ _ _ _ _ Hs _ _ x).
  - intros q x [Hne Hq]%lookup_delete_Some. destruct (sh_node _ _ _ _ _ Hs _ _ Hq) as (n' & Hn' & Hok).
    assert (x <> c) as Hxc by (intros ->; by apply Hne, (sh_inj _ _ _ _ _ Hs _ _ c)).
    destruct (decide (q = p)) as [->|Hqp].
    + assert (x = a) as -> by congruence. assert (n' = n) as -> by congruence. eexists. split.
      { apply list_lookup_insert_eq. rewrite length_insert. by eapply lookup_lt_Some. }
      destruct Hok. constructor; cbn; try done.
      * intros r k' Hr. rewrite (ok_parent r k' Hr), lookup_delete_ne; [done |]. intros Heq. subst.
        apply (f_equal length) in Heq. rewrite !length_app in Heq. simpl in Heq. lia.
      * intros k'. destruct (decide (k' = k)) as [->|Hk]; [by rewrite !lookup_delete_eq |].
        rewrite !lookup_delete_ne; [done | by intros [= ?]%app_inv_head | done].
      * intros b x Hx. destruct (HC1 b x Hx) as (k' & Hk' & Hb & HN). exists k'. split; [done |].
        rewrite lookup_delete_ne; [done |]. by intros [= ?]%app_inv_head.
      * intros k' b [y [Hy1 Hy2]%lookup_delete_Some] Hb. apply (HC2 k' b); [by intros -> | by eexists | done].
    + exists n'. split.
      { rewrite !list_lookup_insert_ne; [done.. |]. intros ->. by apply Hqp, (sh_inj _ _ _ _ _ Hs _ _ x). }
      eapply node_ok_agree; [done | |].
      * intros k'. rewrite lookup_delete_ne; [done |]. by intros [-> _]%app_inj_tail.
      * intros r k' ->. rewrite lookup_delete_ne; [done |]. intros <-. by rewrite Hleaf in Hq.
  - intros q k' [x [Hne Hq]%lookup_delete_Some]. destruct (sh_closed _ _ _ _ _ Hs q k') as [[y Hy] Hk]; [by eexists |].
    split; [| done]. exists y. rewrite lookup_delete_ne; [done |]. intros <-. by rewrite Hleaf in Hq.
  - intros q Hq. destruct (decide (q = p ++ [k])) as [->|Hne]; [rewrite He in Hq; by destruct Hq |].
    rewrite lookup_delete_ne by done. by apply Hs.
Qed.

Lemma promote_spec N E cnt root h p n k firstByte :
  shape h N E cnt root -> node_ok N E cnt p n -> List.hd_error k = Some firstByte ->
  let C := promote firstByte (delete k (ChildrenByKey n)) (delete firstByte (Children n)) in
  (forall b x, C !! b = Some x -> exists k', k' <> k /\ List.hd_error k' = Some b /\ N !! (p ++ [k']) = Some x)
  /\ (forall k' b, k' <> k -> is_Some (N !! (p ++ [k'])) -> List.hd_error k' = Some b -> is_Some (C !! b)).
Proof.
  intros Hs Hok Hk C. unfold promote in C.
  assert (forall b x, delete firstByte (Children n) !! b = Some x ->
    exists k', k' <> k /\ List.hd_error k' = Some b /\ N !! (p ++ [k']) = Some x) as Hold.
  { intros b x [Hb Hx]%lookup_delete_Some. destruct (ok_child _ _ _ _ _ Hok _ _ Hx) as (k' & Hk' & HN).
    exists k'. split; [| done]. intros ->. congruence. }
  assert (forall k' x, (k', x) ∈ range (delete k (ChildrenByKey n)) <-> k' <> k /\ N !! (p ++ [k']) = Some x) as Hr.
  { intros k' x. rewrite elem_of_range, lookup_delete_Some, (ok_bykey _ _ _ _ _ Hok). naive_solver. }
  destruct (List.find _ _) as [[k1 x1]|] eqn:Ef; subst C.
  - apply find_some in Ef as [Hin%list_elem_of_In Hb%bool_decide_eq_true]. apply Hr in Hin as [Hne HN]. split.
    + intros b x [[<- <-]|[_ Hx]]%lookup_insert_Some; [by exists k1 | by apply Hold].
    + intros k' b Hk' HN' Hb'. apply lookup_insert_is_Some'. destruct (decide (firstByte = b)) as [->|Hbne]; [by left |].
      right. rewrite lookup_delete_ne by done. by apply (ok_first _ _ _ _ _ Hok k').
  - split; [done |]. intros k' b Hk' [x HN'] Hb'.
    destruct (decide (firstByte = b)) as [->|Hbne].
    + exfalso. pose proof (find_none _ _ Ef (k', x) ltac:(by apply list_elem_of_In, Hr)) as Hf.
      by apply bool_decide_eq_false in Hf.
    + rewrite lookup_delete_ne by done. apply (ok_first _ _ _ _ _ Hok k'); [by eexists | done].
Qed.

Lemma RemoveChild_run h N E root p a k c :
  shape h N E (count E) root -> Z.of_nat (size E) < 2 ^ 32 -> N !! p = Some a -> N !! (p ++ [k]) = Some c ->
  (forall k', N !! ((p ++ [k]) ++ [k']) = None) -> E !! (p ++ [k]) = None ->
  exists h', RemoveChild a k h = (Ok (Some c), h') /\ length h' = length h
    /\ shape h' (delete (p ++ [k]) N) E (count E) root.
Proof.
  intros Hs HE Hp Hc Hleaf He. destruct (sh_closed _ _ _ _ _ Hs p k) as [_ Hk]; [by eexists |].
  destruct k as [|b k]; [done |].
  destruct (sh_node _ _ _ _ _ Hs _ _ Hp) as (n & Hn & Hok). destruct (sh_node _ _ _ _ _ Hs _ _ Hc) as (m & Hm & Hmok).
  set (m' := set_Parent m None).
  assert (a <> c) as Hac by (intros ->; apply (snoc_ne p (b :: k)); by apply (sh_inj _ _ _ _ _ Hs _ _ c)).
  assert (forall C, (forall b' x, C !! b' = Some x -> exists k', k' <> b :: k /\ List.hd_error k' = Some b' /\ N !! (p ++ [k']) = Some x) ->
    (forall k' b', k' <> b :: k -> is_Some (N !! (p ++ [k'])) -> List.hd_error k' = Some b' -> is_Some (C !! b')) ->
    exists h', (save a (set_children n C (delete (b :: k) (ChildrenByKey n))) ;; updateSubtreeCount a ;; mret (Some c))
        (<[c := m']> h) = (Ok (Some c), h') /\ length h' = length h
      /\ shape h' (delete (p ++ [b :: k]) N) E (count E) root) as Hrest.
  { intros C HC1 HC2. pose proof (shape_prune _ _ _ _ _ _ _ _ _ _ m' _ Hs Hp Hn Hc Hleaf He HC1 HC2) as Hs1.
    destruct (update_run _ _ _ _ _ p a Hs1 HE) as (h' & Hrun & Hs' & Hl); [| done |].
    - rewrite lookup_delete_ne by apply snoc_ne. done.
    - exists h'. rewrite !length_insert in Hl. split_and!; [| done | done].
      unfold save, modify. rewrite bind_run. by rewrite (bind_ok _ _ _ _ _ Hrun). }
  unfold RemoveChild. rewrite (bind_ok _ _ _ _ _ (load_run _ _ _ Hn)), (ok_bykey _ _ _ _ _ Hok (b :: k)), Hc.
  rewrite (bind_ok _ _ _ _ _ (load_run _ _ _ Hm)). cbn zeta.
  rewrite (bind_ok _ _ _ _ _ (save_run c m' h)). destruct (Children n !! b) as [e|] eqn:Eb.
  - destruct (ok_child _ _ _ _ _ Hok _ _ Eb) as (k1 & Hk1 & HN1). destruct (sh_node _ _ _ _ _ Hs _ _ HN1) as (x & Hx & Hxok).
    assert (exists x', (<[c := m']> h) !! e = Some x' /\ Key x' = k1) as (x' & Hx' & Hkx).
    { destruct (decide (e = c)) as [->|Hec].
      - exists m'. rewrite list_lookup_insert_eq by by eapply lookup_lt_Some. split; [done |].
        assert (p ++ [k1] = p ++ [b :: k]) as [= ->]%app_inv_head by by apply (sh_inj _ _ _ _ _ Hs _ _ c).
        exact (key_snoc _ _ _ _ _ _ Hmok).
      - exists x. rewrite list_lookup_insert_ne by done. split; [done |]. by eapply key_snoc. }
    rewrite (bind_run _ (y ← load e; _)), (bind_ok _ _ _ _ _ (load_run _ _ _ Hx')), Hkx.
    case_decide as Hkk.
    + destruct (promote_spec N E _ root h p n (b :: k) b Hs Hok eq_refl) as [HC1 HC2]. by apply Hrest.
    + apply Hrest.
      * intros b' y Hy. destruct (ok_child _ _ _ _ _ Hok _ _ Hy) as (k' & Hk' & HN). exists k'. split; [| done].
        intros ->. cbn in Hk'. injection Hk' as <-. rewrite Eb in Hy. injection Hy as <-.
        apply Hkk. assert (p ++ [k1] = p ++ [b :: k]) as [= ->]%app_inv_head by by apply (sh_inj _ _ _ _ _ Hs _ _ e). done.
      * intros k' b' _ HN Hb'. by apply (ok_first _ _ _ _ _ Hok k').
  - exfalso. destruct (ok_first _ _ _ _ _ Hok (b :: k) b) as [y Hy]; [by eexists | done | congruence].
Qed.

(** Every node but the root leads to an entry. *)
Definition lean N E : Prop := forall p, is_Some (N !! p) -> p <> [] -> below p E <> ∅.

Lemma below_mono {A} p q (E : gmap path A) : p `prefix_of` q -> below q E <> ∅ -> below p E <> ∅.
Proof.
  intros Hpq Hq Hp. apply Hq. rewrite below_empty in *. intros r Hr Hqr. apply (Hp r Hr). by etrans.
Qed.

Lemma lean_stop N E p :
  (forall q, is_Some (N !! q) -> q <> [] -> below q E <> ∅ \/ q `prefix_of` p) -> below p E <> ∅ -> lean N E.
Proof. intros Hl Hp q Hq Hne. destruct (Hl q Hq Hne) as [?|Hpre]; [done |]. by eapply below_mono. Qed.

Lemma cleanup_run h N E root p a fuel :
  shape h N E (count E) root -> Z.of_nat (size E) < 2 ^ 32 -> N !! p = Some a -> (length p <= fuel)%nat ->
  (forall q, is_Some (N !! q) -> q <> [] -> below q E <> ∅ \/ q `prefix_of` p) ->
  exists h' N', cleanup fuel root (Some a) h = (Ok tt, h') /\ shape h' N' E (count E) root /\ lean N' E.
Proof.
  intros Hs HE. revert h N a fuel Hs. induction p as [|k p IH] using rev_ind; intros h N a fuel Hs Hp Hf Hl.
  - assert (a = root) as -> by (pose proof (sh_root _ _ _ _ _ Hs); congruence). exists h, N. split_and!; [| done |].
    + destruct fuel; cbn [cleanup]; by rewrite decide_True.
    + intros q Hq Hne. destruct (Hl q Hq Hne) as [?|Hn%prefix_nil_inv]; done.
  - rewrite length_app in Hf. cbn in Hf. destruct fuel as [|fuel]; [lia |].
    assert (a <> root) as Hroot.
    { intros ->. apply (snoc_ne_nil p k). apply (sh_inj _ _ _ _ _ Hs _ _ root); [done | apply Hs]. }
    destruct (sh_node _ _ _ _ _ Hs _ _ Hp) as (n & Hn & Hok). cbn [cleanup]. rewrite decide_False by done.
    rewrite (bind_ok _ _ _ _ _ (load_run _ _ _ Hn)).
    destruct (HasEntry n || bool_decide (Children n <> ∅)) eqn:Eb.
    + exists h, N. split_and!; [done | done |]. eapply lean_stop; [done |]. apply orb_true_iff in Eb as [Eb|Eb].
      * intros Hb. rewrite below_empty in Hb. apply (Hb (p ++ [k])); [| done].
        rewrite <- (ok_entry _ _ _ _ _ Hok). unfold entry. rewrite Eb. by eexists.
      * apply bool_decide_eq_true in Eb. apply map_choose in Eb as (b & x & Hx).
        destruct (ok_child _ _ _ _ _ Hok _ _ Hx) as (k' & _ & Hk').
        apply (below_mono _ ((p ++ [k]) ++ [k'])); [by apply prefix_app_r |].
        destruct (Hl ((p ++ [k]) ++ [k'])) as [?|Hpre]; [by eexists | apply snoc_ne_nil | done |].
        by apply snoc_not_prefix in Hpre.
    + apply orb_false_iff in Eb as [Eb1 Eb2]. apply bool_decide_eq_false, dec_stable in Eb2.
      destruct (sh_closed _ _ _ _ _ Hs p k) as [[b Hb] _]; [by eexists |].
      rewrite (ok_parent _ _ _ _ _ Hok p k), Hb, (key_snoc _ _ _ _ _ _ Hok) by done.
      destruct (RemoveChild_run _ _ _ _ _ _ _ _ Hs HE Hb Hp) as (h1 & Hrun & Hlen & Hs1).
      { intros k'. rewrite <- (ok_bykey _ _ _ _ _ Hok).
        assert (ChildrenByKey n = ∅) as ->; [| by rewrite lookup_empty].
        apply (children_empty N E (count E) (p ++ [k])); [| done | done].
        intros k1 Hk1. by destruct (sh_closed _ _ _ _ _ Hs _ _ Hk1). }
      { rewrite <- (ok_entry _ _ _ _ _ Hok). unfold entry. by rewrite Eb1. }
      rewrite (bind_run _ (y ← RemoveChild b k; _)), (bind_ok _ _ _ _ _ Hrun).
      apply (IH h1 (delete (p ++ [k]) N) b fuel Hs1); [| lia |].
      * rewrite lookup_delete_ne by apply snoc_ne. done.
      * intros q [x [Hne Hq]%lookup_delete_Some] Hq0. destruct (Hl q) as [?|Hpre]; [by eexists | done | by left |].
        apply prefix_snoc_iff in Hpre as [?| ->]; [by right | done].
Qed.
End Ops.
