(* ===== verification/RadixWalk.v ===== *)
(** * Walks over the radix tree

    All of them visit the entries below a node in the same order: a node before its
    children, and these in the order of the map. *)

From S2P Require Import Prelude GoStrings RadixNode RadixPage RadixTree RadixShape RadixOps.

Implicit Types (p q : list gostring) (k : gostring).
Implicit Types (h : list Node) (N : gmap path nat) (E : directory) (a : nat).

Section Walk.
Context {UT : UnicodeTables} {MI : MapIteration}.

(** ** The order of the entries *)

Definition own (p : path) (e : option (Z * Z)) : list (path * (Z * Z)) :=
  match e with Some x => [(p, x)] | None => [] end.

Fixpoint preorder (fuel : nat) (h : list Node) (a : nat) (p : path) : list (path * (Z * Z)) :=
  match fuel with
  | O => []
  | S fuel =>
      match h !! a with
      | None => []
      | Some n => own p (entry n) ++ (children_of n ≫= fun kc => preorder fuel h kc.2 (p ++ [kc.1]))
      end
  end.

Lemma preorder_S fuel h a p n : h !! a = Some n ->
  preorder (S fuel) h a p = own p (entry n) ++ (children_of n ≫= fun kc => preorder fuel h kc.2 (p ++ [kc.1])).
Proof. intros Hn. cbn [preorder]. by rewrite Hn. Qed.

(** No path below [p] has [fuel] components more. *)
Definition deep N p (fuel : nat) : Prop := forall q, is_Some (N !! q) -> p `prefix_of` q -> (length q < length p + fuel)%nat.

Lemma deep_child N p k fuel : deep N p (S fuel) -> deep N (p ++ [k]) fuel.
Proof. intros Hd q Hq Hp. specialize (Hd q Hq (prefix_snoc_inv _ _ _ Hp)). rewrite length_app. simpl. lia. Qed.

Lemma deep_heap h N E cnt root p : shape h N E cnt root -> deep N p (length h).
Proof. intros Hs q Hq _. pose proof (shape_depth _ _ _ _ _ _ Hs Hq). lia. Qed.

Lemma deep_pos N p fuel : is_Some (N !! p) -> deep N p fuel -> exists f, fuel = S f.
Proof. intros Hp Hd. specialize (Hd p Hp ltac:(done)). destruct fuel; [lia | by eexists]. Qed.

Lemma bind_perm {A B C} (l : list (A * B)) (f : A * B -> list C) (g : A -> list C) :
  (forall x, x ∈ l -> f x ≡ₚ g x.1) -> l ≫= f ≡ₚ l.*1 ≫= g.
Proof.
  induction l as [|x l IH]; intros Hl; [done |]. cbn. rewrite (Hl x) by by left. f_equiv. apply IH.
  intros y Hy. apply Hl. by right.
Qed.

Lemma preorder_perm h N E cnt root fuel p a :
  shape h N E cnt root -> N !! p = Some a -> deep N p fuel -> preorder fuel h a p ≡ₚ map_to_list (below p E).
Proof.
  intros Hs. revert p a. induction fuel as [|fuel IH]; intros p a Hp Hd.
  - by destruct (deep_pos _ _ _ ltac:(by eexists) Hd).
  - destruct (sh_node _ _ _ _ _ Hs _ _ Hp) as (n & Hn & Hok). cbn [preorder]. rewrite Hn.
    rewrite (below_split p E (children_of n).*1); [| apply range_keys | by eapply children_cover].
    unfold own. rewrite (ok_entry _ _ _ _ _ Hok). f_equiv. apply bind_perm. intros [k c] Hin. cbn.
    apply IH; [by eapply elem_of_children in Hin | by apply deep_child].
Qed.

Lemma bind_ext_in {A B} (l : list A) (f g : A -> list B) : (forall x, x ∈ l -> f x = g x) -> l ≫= f = l ≫= g.
Proof.
  induction l as [|x l IH]; intros Hl; [done |]. cbn. rewrite (Hl x) by by left. f_equal. apply IH.
  intros y Hy. apply Hl. by right.
Qed.

Lemma preorder_fuel h N E cnt root f1 f2 p a :
  shape h N E cnt root -> N !! p = Some a -> deep N p f1 -> deep N p f2 -> preorder f1 h a p = preorder f2 h a p.
Proof.
  intros Hs. revert f2 p a. induction f1 as [|f1 IH]; intros f2 p a Hp H1 H2.
  - by destruct (deep_pos _ _ _ ltac:(by eexists) H1).
  - destruct (deep_pos _ _ _ ltac:(by eexists) H2) as [f ->].
    destruct (sh_node _ _ _ _ _ Hs _ _ Hp) as (n & Hn & Hok). cbn [preorder]. rewrite Hn. f_equal.
    apply bind_ext_in. intros [k c] Hin. cbn. apply IH; [by eapply elem_of_children in Hin | by apply deep_child..].
Qed.

(** ** Walks with a callback *)

Fixpoint visit {X} (iterator : EntryIterator X) (l : list (path * (Z * Z))) (x : X) : bool * X :=
  match l with
  | [] => (true, x)
  | (p, (pg, sl)) :: l =>
      let r := iterator (JoinDNReverse p) pg sl x in
      if r.1 then visit iterator l r.2 else (false, r.2)
  end.

Lemma visit_app {X} (f : EntryIterator X) l1 l2 x :
  visit f (l1 ++ l2) x = if (visit f l1 x).1 then visit f l2 (visit f l1 x).2 else (false, (visit f l1 x).2).
Proof.
  revert x. induction l1 as [|[p [pg sl]] l1 IH]; intros x; [done |]. cbn. destruct (f _ _ _ x) as [[] y]; cbn; [apply IH | done].
Qed.

Lemma until_run {X} (f : EntryIterator X) h (l : list (gostring * nat)) body g x :
  (forall kc y, kc ∈ l -> body kc.2 y h = (Ok (visit f (g kc) y), h)) ->
  until body l.*2 x h = (Ok (visit f (l ≫= g) x), h).
Proof.
  revert x. induction l as [|kc l IH]; intros x Hl; [done |]. rewrite fmap_cons. cbn [until].
  rewrite (bind_ok _ _ _ _ _ (Hl kc x ltac:(left))). cbn [mbind list_bind]. fold (l ≫= g). rewrite visit_app.
  destruct (visit f (g kc) x) as [[] y]; cbn [fst snd]; [| done]. apply IH. intros. apply Hl. by right.
Qed.

Lemma iterateNode_run {X} (f : EntryIterator X) h N E cnt root fuel p a x :
  shape h N E cnt root -> N !! p = Some a -> deep N p fuel ->
  iterateNode f fuel a p x h = (Ok (visit f (preorder fuel h a p) x), h).
Proof.
  intros Hs. revert p a x. induction fuel as [|fuel IH]; intros p a x Hp Hd.
  - by destruct (deep_pos _ _ _ ltac:(by eexists) Hd).
  - destruct (sh_node _ _ _ _ _ Hs _ _ Hp) as (n & Hn & Hok). cbn [iterateNode preorder].
    rewrite (bind_ok _ _ _ _ _ (load_run _ _ _ Hn)), Hn, visit_app, (child_nodes_run _ _ _ _ _ _ _ Hs Hok).
    assert ((if HasEntry n then f (JoinDNReverse p) (n_PageID n) (n_SlotID n) x else (true, x)) = visit f (own p (entry n)) x) as ->.
    { unfold entry. destruct (HasEntry n); [| done]. cbn. by destruct (f _ _ _ x) as [[] y]. }
    destruct (visit f (own p (entry n)) x) as [[] y]; cbn [fst snd]; [| done].
    apply until_run. intros [k c] z Hin. cbn [fst snd].
    assert (N !! (p ++ [k]) = Some c) as Hc by by eapply elem_of_children in Hin.
    destruct (sh_node _ _ _ _ _ Hs _ _ Hc) as (m & Hm & Hmok).
    rewrite (bind_ok _ _ _ _ _ (load_run _ _ _ Hm)), (key_snoc _ _ _ _ _ _ Hmok). apply IH; [done | by apply deep_child].
Qed.

(** The entries of the children. *)
Definition children_entries_of (h : list Node) (n : Node) (p : path) : list (path * (Z * Z)) :=
  children_of n ≫= fun kc => match h !! kc.2 with Some c => own (p ++ [kc.1]) (entry c) | None => [] end.

(** ** Lists of names *)

Lemma fold_nodes_run {A} h (l : list (gostring * nat)) body (g : gostring * nat -> list A) acc :
  (forall kc acc, kc ∈ l -> body kc.2 acc h = (Ok (acc ++ g kc), h)) ->
  fold_nodes body l.*2 acc h = (Ok (acc ++ (l ≫= g)), h).
Proof.
  revert acc. induction l as [|kc l IH]; intros acc Hl; [by rewrite app_nil_r |]. rewrite fmap_cons. cbn [fold_nodes].
  rewrite (bind_ok _ _ _ _ _ (Hl kc acc ltac:(left))). rewrite IH by (intros; apply Hl; by right).
  cbn [mbind list_bind]. by rewrite app_assoc.
Qed.

Definition dn_of (e : path * (Z * Z)) : gostring := JoinDNReverse e.1.

Lemma fmap_bind {A B C} (f : B -> C) (g : A -> list B) (l : list A) : f <$> (l ≫= g) = l ≫= (fun x => f <$> g x).
Proof. induction l as [|x l IH]; [done |]. cbn. by rewrite fmap_app, IH. Qed.

Lemma collectDescendants_S fuel a p acc :
  collectDescendants (S fuel) a p acc =
  (n ← load a;
   fold_nodes (fun child descendants =>
     c ← load child;
     let childPath := p ++ [Key c] in
     collectDescendants fuel child childPath
       (if HasEntry c then descendants ++ [JoinDNReverse childPath] else descendants))
     (child_nodes n) acc).
Proof. done. Qed.

Lemma collectDescendants_run h N E cnt root fuel p a n acc :
  shape h N E cnt root -> N !! p = Some a -> h !! a = Some n -> deep N p (S fuel) ->
  collectDescendants (S fuel) a p acc h =
    (Ok (acc ++ (dn_of <$> (children_of n ≫= fun kc => preorder fuel h kc.2 (p ++ [kc.1])))), h).
Proof.
  intros Hs. revert p a n acc. induction fuel as [|fuel IH]; intros p a n acc Hp Hn Hd;
    destruct (sh_node _ _ _ _ _ Hs _ _ Hp) as (n' & Hn' & Hok); assert (n' = n) as -> by congruence;
    rewrite collectDescendants_S, (bind_ok _ _ _ _ _ (load_run _ _ _ Hn)), (child_nodes_run _ _ _ _ _ _ _ Hs Hok), fmap_bind;
    apply fold_nodes_run; intros [k c] acc' Hin;
    assert (N !! (p ++ [k]) = Some c) as Hc by by eapply elem_of_children in Hin.
  - by destruct (deep_pos N (p ++ [k]) 0 ltac:(by eexists) ltac:(by apply deep_child)).
  - cbn [fst snd]. destruct (sh_node _ _ _ _ _ Hs _ _ Hc) as (m & Hm & Hmok).
    rewrite (bind_ok _ _ _ _ _ (load_run _ _ _ Hm)), (key_snoc _ _ _ _ _ _ Hmok). cbn zeta.
    rewrite (IH _ _ m) by (done || by apply deep_child). cbn [preorder]. rewrite Hm, fmap_app, app_assoc.
    unfold entry. by destruct (HasEntry m); [| rewrite app_nil_r].
Qed.

(** ** Iterators *)

Lemma shape_size h N E cnt root : shape h N E cnt root -> (size N <= length h)%nat.
Proof.
  intros Hs. rewrite <- length_map_to_list, <- (length_fmap snd (map_to_list N)).
  assert ((map_to_list N).*2 ⊆+ seq 0 (length h)) as Hsub%submseteq_length; [| by rewrite length_seq in Hsub].
  apply NoDup_submseteq.
  - apply NoDup_fmap_2_strong; [| apply NoDup_map_to_list].
    intros [p a] [q b] Hp%elem_of_map_to_list Hq%elem_of_map_to_list. cbn. intros ->.
    by rewrite (sh_inj _ _ _ _ _ Hs _ _ _ Hp Hq).
  - intros a Ha. apply list_elem_of_fmap in Ha as ([p b] & -> & Hp%elem_of_map_to_list).
    destruct (sh_node _ _ _ _ _ Hs _ _ Hp) as (n & Hn & _). apply elem_of_seq. apply lookup_lt_Some in Hn. cbn. lia.
Qed.

Lemma shape_entries h N E cnt root : shape h N E cnt root -> (size E <= size N)%nat.
Proof.
  intros Hs. rewrite <- !size_dom. apply subseteq_size. intros p Hp. apply elem_of_dom.
  by apply (sh_dom _ _ _ _ _ Hs), elem_of_dom.
Qed.

Lemma keys_run h N E cnt root p a n :
  shape h N E cnt root -> N !! p = Some a -> h !! a = Some n -> GetChildKeys a h = (Ok (children_of n).*1, h).
Proof.
  intros Hs Hp Hn. destruct (sh_node _ _ _ _ _ Hs _ _ Hp) as (n' & Hn' & Hok). assert (n' = n) as -> by congruence.
  unfold GetChildKeys, children_of. rewrite (bind_ok _ _ _ _ _ (load_run _ _ _ Hn)). case_decide as He; [| done].
  assert (Children n = ∅) as ->.
  { apply (children_empty N E cnt p); [| done | done]. intros k Hk. by destruct (sh_closed _ _ _ _ _ Hs _ _ Hk). }
  by rewrite He, !range_empty.
Qed.

Definition render (e : path * (Z * Z)) : IteratorEntry := (JoinDNReverse e.1, e.2.1, e.2.2).

(** The entries of the children with the keys [ks]. *)
Definition level (N : gmap path nat) (E : directory) (p : path) (ks : list gostring) : list (path * (Z * Z)) :=
  ks ≫= fun k => own (p ++ [k]) (E !! (p ++ [k])).

Lemma one_level_run h N E cnt root p a ks :
  shape h N E cnt root -> N !! p = Some a ->
  exists ks', one_level a p ks h = (Ok (render <$> head (level N E p ks), ks'), h) /\ level N E p ks' = tail (level N E p ks).
Proof.
  intros Hs Hp. induction ks as [|k ks IH]; cbn [one_level]; [by exists [] |].
  rewrite (bind_ok _ _ _ _ _ (GetChild_run _ _ _ _ _ _ _ k Hs Hp)). cbn [level mbind list_bind]. fold (level N E p ks).
  destruct (N !! (p ++ [k])) as [c|] eqn:Ec.
  - destruct (sh_node _ _ _ _ _ Hs _ _ Ec) as (m & Hm & Hmok).
    rewrite (bind_ok _ _ _ _ _ (load_run _ _ _ Hm)), (key_snoc _ _ _ _ _ _ Hmok), <- (ok_entry _ _ _ _ _ Hmok).
    unfold entry. destruct (HasEntry m); cbn; [| done]. by exists ks.
  - assert (E !! (p ++ [k]) = None) as ->; [| done].
    apply eq_None_not_Some. intros [x Hx]%(sh_dom _ _ _ _ _ Hs). congruence.
Qed.

(** Frames of the stack: the entries still to come, and the rounds they take. *)
Definition pending (h : list Node) (N : gmap path nat) (f : iteratorFrame) : list (path * (Z * Z)) :=
  (if f_visited f then [] else own (f_components f) (h !! f_node f ≫= entry))
  ++ (f_childKeys f ≫= fun k => match N !! (f_components f ++ [k]) with
                                 | Some c => preorder (length h) h c (f_components f ++ [k])
                                 | None => [] end).

Definition rounds (N : gmap path nat) (f : iteratorFrame) : Z :=
  1 + sum_list ((fun k => 2 * count N (f_components f ++ [k])) <$> f_childKeys f).

Definition frame_ok (N : gmap path nat) (f : iteratorFrame) : Prop :=
  N !! f_components f = Some (f_node f) /\ Forall (fun k => is_Some (N !! (f_components f ++ [k]))) (f_childKeys f).

Lemma sum_list_app l1 l2 : sum_list (l1 ++ l2) = sum_list l1 + sum_list l2.
Proof. induction l1 as [|x l1 IH]; [done |]. cbn [sum_list foldr app]. fold (sum_list (l1 ++ l2)) (sum_list l1). lia. Qed.

Lemma sum_list_scale {A} (f : A -> Z) l : sum_list ((fun x => 2 * f x) <$> l) = 2 * sum_list (f <$> l).
Proof.
  induction l as [|x l IH]; [done |]. rewrite !fmap_cons. cbn [sum_list foldr].
  fold (sum_list ((fun x => 2 * f x) <$> l)) (sum_list (f <$> l)). lia.
Qed.

Lemma rounds_pos N f : 1 <= rounds N f.
Proof.
  unfold rounds. induction (f_childKeys f) as [|k ks IH]; [done |]. rewrite fmap_cons. cbn [sum_list foldr].
  fold (sum_list ((fun k => 2 * count N (f_components f ++ [k])) <$> ks)). unfold count at 1. lia.
Qed.

(** A new frame takes all entries of its node. *)
Lemma new_frame_run h N E cnt root p a :
  shape h N E cnt root -> N !! p = Some a ->
  exists f, new_frame a p h = (Ok f, h) /\ frame_ok N f /\ pending h N f = preorder (length h) h a p
    /\ rounds N f = 2 * count N p - 1.
Proof.
  intros Hs Hp. destruct (sh_node _ _ _ _ _ Hs _ _ Hp) as (n & Hn & Hok). unfold new_frame.
  rewrite (bind_ok _ _ _ _ _ (keys_run _ _ _ _ _ _ _ _ Hs Hp Hn)). eexists. split; [done |]. split_and!.
  - split; [done |]. apply Forall_forall. intros k Hk. cbn in *. apply list_elem_of_fmap in Hk as ([k' c] & -> & Hin).
    exists c. by eapply elem_of_children in Hin.
  - unfold pending. cbn. rewrite Hn. cbn. pose proof (deep_heap _ _ _ _ _ p Hs) as Hd.
    destruct (deep_pos _ _ _ ltac:(by eexists) Hd) as [f Hf]. rewrite Hf in Hd |- *. rewrite (preorder_S _ _ _ _ _ Hn). f_equal.
    rewrite list_fmap_bind. apply bind_ext_in. intros [k c] Hin. cbn [fst snd compose].
    assert (N !! (p ++ [k]) = Some c) as Hc by by eapply elem_of_children in Hin. rewrite Hc.
    eapply preorder_fuel; [done | done | | by apply deep_child]. rewrite <- Hf. by eapply deep_heap.
  - unfold rounds. cbn. rewrite sum_list_scale, (count_split p N (children_of n).*1).
    + rewrite decide_True by by eexists. lia.
    + apply range_keys.
    + intros k q Hq Hk. destruct (shape_prefix _ _ _ _ _ _ _ Hs Hq Hk) as [c Hc].
      apply list_elem_of_fmap. exists (k, c). split; [done |]. by eapply elem_of_children.
Qed.

Lemma subtree_loop_run h N E cnt root fuel stack :
  shape h N E cnt root -> Forall (frame_ok N) stack -> sum_list (rounds N <$> stack) <= Z.of_nat fuel ->
  exists stack', subtree_loop fuel stack h = (Ok (render <$> head (stack ≫= pending h N), stack'), h)
    /\ Forall (frame_ok N) stack' /\ stack' ≫= pending h N = tail (stack ≫= pending h N)
    /\ sum_list (rounds N <$> stack') <= sum_list (rounds N <$> stack).
Proof.
  intros Hs. revert stack. induction fuel as [|fuel IH]; intros stack Hall Hf.
  - destruct stack as [|f stack]; [by exists [] |]. exfalso. rewrite fmap_cons in Hf. cbn [sum_list foldr] in Hf.
    fold (sum_list (rounds N <$> stack)) in Hf. pose proof (rounds_pos N f).
    assert (0 <= sum_list (rounds N <$> stack)); [| lia]. clear. induction stack as [|g s IH]; [done |].
    rewrite fmap_cons. cbn [sum_list foldr]. fold (sum_list (rounds N <$> s)). pose proof (rounds_pos N g). lia.
  - destruct stack as [|f stack]; [by exists [] |]. apply Forall_cons in Hall as [[Hp Hks] Hall].
    destruct f as [a p ks v]. cbn [f_node f_components f_childKeys f_visited] in *.
    destruct (sh_node _ _ _ _ _ Hs _ _ Hp) as (n & Hn & Hok). cbn [subtree_loop f_node f_components f_childKeys f_visited].
    rewrite (bind_ok _ _ _ _ _ (load_run _ _ _ Hn)). rewrite fmap_cons in Hf |- *. cbn [sum_list foldr] in Hf |- *.
    fold (sum_list (rounds N <$> stack)) in Hf |- *. cbn [mbind list_bind]. fold (stack ≫= pending h N).
    destruct (negb v && HasEntry n) eqn:Ev.
    + apply andb_true_iff in Ev as [Ev1 Ev2]. apply negb_true_iff in Ev1 as ->.
      exists (mkFrame a p ks true :: stack). unfold pending at 1 2 4. cbn. rewrite Hn. cbn. unfold entry. rewrite Ev2. cbn.
      split_and!; [done | by constructor | done | done].
    + assert (pending h N (mkFrame a p ks v) = pending h N (mkFrame a p ks true)) as ->.
      { unfold pending. cbn. destruct v; [done |]. rewrite Hn. cbn. unfold entry. cbn in Ev. by rewrite Ev. }
      destruct ks as [|k ks]; cbn [next_child].
      * unfold rounds in Hf at 1. cbn in Hf. destruct (IH stack Hall) as (stack' & Hrun & H1 & H2 & H3); [lia |].
        exists stack'. unfold rounds at 2. cbn. split_and!; [done | done | done | lia].
      * apply Forall_cons in Hks as [[c Hc] Hks].
        assert ((r ← GetChild a k; match r with Some child => mret (Some child, ks) | None => next_child a ks end) h
          = (Ok (Some c, ks), h)) as Hnc.
        { rewrite (bind_ok _ _ _ _ _ (GetChild_run _ _ _ _ _ _ _ k Hs Hp)). by rewrite Hc. }
        rewrite (bind_ok _ _ _ _ _ Hnc). cbn [fst snd].
        destruct (sh_node _ _ _ _ _ Hs _ _ Hc) as (m & Hm & Hmok).
        rewrite (bind_ok _ _ _ _ _ (load_run _ _ _ Hm)), (key_snoc _ _ _ _ _ _ Hmok).
        destruct (new_frame_run _ _ _ _ _ _ _ Hs Hc) as (g & Hg & Hgok & Hgp & Hgr).
        rewrite (bind_ok _ _ _ _ _ Hg).
        assert (pending h N (mkFrame a p (k :: ks) true) = pending h N g ++ pending h N (mkFrame a p ks true)) as Hpe.
        { rewrite Hgp. unfold pending. cbn. by rewrite Hc. }
        assert (rounds N g + rounds N (mkFrame a p ks true) + 1 = rounds N (mkFrame a p (k :: ks) v)) as Hre.
        { rewrite Hgr. unfold rounds. cbn [f_childKeys f_components]. rewrite fmap_cons. cbn [sum_list foldr].
          fold (sum_list ((fun k => 2 * count N (p ++ [k])) <$> ks)). lia. }
        destruct (IH (g :: mkFrame a p ks true :: stack)) as (stack' & Hrun & H1 & H2 & H3).
        { constructor; [done |]. by constructor. }
        { rewrite !fmap_cons. cbn [sum_list foldr]. fold (sum_list (rounds N <$> stack)). lia. }
        rewrite !fmap_cons in H3. cbn [sum_list foldr] in H3. fold (sum_list (rounds N <$> stack)) in H3.
        exists stack'. rewrite Hpe, <- app_assoc. split_and!; [exact Hrun | done | exact H2 | lia].
Qed.
End Walk.
