(* ===== verification/RadixPersist.v ===== *)
(** * The radix tree on its page

    What the page holds, when the tree fits, and that reading it back gives a tree with
    the same entries. *)

From S2P Require Import Prelude GoBinary GoStrings Page PageStore RadixNode RadixPage RadixTree RadixShape RadixOps RadixWalk.

Implicit Types (p q : list gostring) (k : gostring).
Implicit Types (h : list Node) (N : gmap path nat) (E : directory) (a : nat).

(** ** The paths of a directory *)

Definition prefixes (q : path) : list path := (fun i => take i q) <$> seq 0 (S (length q)).

(** The root and every path that leads to an entry. *)
Definition paths (E : directory) : gset path := list_to_set ([] :: (map_to_list E ≫= fun e => prefixes e.1)).

Lemma elem_of_prefixes p q : p ∈ prefixes q <-> p `prefix_of` q.
Proof.
  unfold prefixes. rewrite list_elem_of_fmap. split.
  - intros (i & -> & _). apply prefix_take.
  - intros [r ->]. exists (length p). rewrite take_app_length. split; [done |]. apply elem_of_seq. rewrite length_app. lia.
Qed.

Lemma elem_of_paths p E : p ∈ paths E <-> p = [] \/ below p E <> ∅.
Proof.
  unfold paths. rewrite elem_of_list_to_set, elem_of_cons, list_elem_of_bind. f_equiv. split.
  - intros ([q x] & Hp%elem_of_prefixes & Hq%elem_of_map_to_list) Hb. rewrite below_empty in Hb. by apply (Hb q); [eexists |].
  - intros (q & x & Hq)%map_choose. apply below_lookup in Hq as [Hq Hp]. exists (q, x).
    split; [by apply elem_of_prefixes | by apply elem_of_map_to_list].
Qed.

(** What the nodes of the directory take on a page. *)
Definition index_size (E : directory) : Z :=
  15 + sum_list ((fun p => 25 + len (default [] (last p))) <$> elements (paths E)).

Lemma lean_paths h N E cnt root p : shape h N E cnt root -> lean N E -> is_Some (N !! p) <-> p ∈ paths E.
Proof.
  intros Hs Hl. rewrite elem_of_paths. split.
  - intros Hp. destruct (decide (p = [])); [by left | right; by apply Hl].
  - intros [->|Hb]; [eexists; apply Hs |]. destruct (N !! p) eqn:Ep; [by eexists |]. destruct Hb. by eapply shape_below.
Qed.

Section Persist.
Context {UT : UnicodeTables} {MI : MapIteration}.

(** ** Breadth first *)

Definition kids (n : Node) (p : path) : list path := (fun kc => p ++ [kc.1]) <$> children_of n.

(** The nodes of a tree, with their paths. *)
Definition at_path (N : gmap path nat) (h : list Node) (p : path) (an : nat * Node) : Prop :=
  N !! p = Some an.1 /\ h !! an.1 = Some an.2.

Lemma NoDup_kids h N E cnt root p n :
  shape h N E cnt root -> node_ok N E cnt p n -> NoDup (kids n p).
Proof.
  intros Hs Hok. unfold kids. 
  assert (((fun kc : gostring * nat => p ++ [kc.1]) <$> children_of n) = (fun k => p ++ [k]) <$> (children_of n).*1) as ->
    by by rewrite <- list_fmap_compose.
  apply NoDup_fmap_2_strong; [| apply range_keys].
  by intros k k' _ _ [= ?]%app_inv_head.
Qed.

Lemma elem_of_kids N E cnt p n q : node_ok N E cnt p n -> q ∈ kids n p <-> exists k, q = p ++ [k] /\ is_Some (N !! q).
Proof.
  intros Hok. unfold kids. rewrite list_elem_of_fmap. split.
  - intros ([k c] & -> & Hin). exists k. split; [done |]. exists c. by eapply elem_of_children in Hin.
  - intros (k & -> & [c Hc]). exists (k, c). split; [done |]. by eapply elem_of_children.
Qed.

(** Nodes with their paths, breadth first: [ds] are done, [qs] wait in the queue. *)
Record bfs N h (ds qs : list (path * (nat * Node))) : Prop := mkBfs {
  bfs_at : Forall (fun x => at_path N h x.1 x.2) (ds ++ qs);
  bfs_order : (ds ++ qs).*1 = [] :: (ds ≫= fun x => kids x.2.2 x.1);
  bfs_nodup : NoDup (ds ++ qs).*1
}.

Definition addresses (l : list (path * (nat * Node))) : list nat := (fun x => x.2.1) <$> l.

(** The nodes of the paths of a list. *)
Lemma nodes_of h N E cnt root ps :
  shape h N E cnt root -> Forall (fun p => is_Some (N !! p)) ps ->
  exists l : list (path * (nat * Node)), l.*1 = ps /\ Forall (fun x => at_path N h x.1 x.2) l.
Proof.
  intros Hs. induction 1 as [|p ps [a Ha] _ (l & <- & Hl)]; [by exists [] |].
  destruct (sh_node _ _ _ _ _ Hs _ _ Ha) as (n & Hn & _). exists ((p, (a, n)) :: l). split; [done |]. by constructor.
Qed.

Lemma at_path_ok h N E cnt root p an : shape h N E cnt root -> at_path N h p an -> node_ok N E cnt p an.2.
Proof. intros Hs [Hp Hn]. destruct (sh_node _ _ _ _ _ Hs _ _ Hp) as (n & Hn' & Hok). congruence. Qed.

Lemma kids_addresses h N E cnt root p an l :
  shape h N E cnt root -> at_path N h p an -> l.*1 = kids an.2 p -> Forall (fun x => at_path N h x.1 x.2) l ->
  addresses l = child_nodes an.2.
Proof.
  intros Hs Hat Hl Hall. pose proof (at_path_ok _ _ _ _ _ _ _ Hs Hat) as Hok. rewrite (child_nodes_run _ _ _ _ _ _ _ Hs Hok).
  assert (forall kc, kc ∈ children_of an.2 -> N !! (p ++ [kc.1]) = Some kc.2) as Hc.
  { intros [k c] Hin. by eapply elem_of_children in Hin. }
  unfold kids in Hl. unfold addresses. clear Hok. revert l Hl Hall.
  induction (children_of an.2) as [|kc cs IH]; intros [|x l] Hl Hall; try done. cbn in Hl. injection Hl as Hx Hl.
  apply Forall_cons in Hall as [[Hat' _] Hall]. rewrite !fmap_cons. f_equal.
  - pose proof (Hc kc ltac:(left)) as Hkc. rewrite <- Hx, Hat' in Hkc. by injection Hkc.
  - apply IH; [| done | done]. intros kc' Hin. apply Hc. by right.
Qed.

Lemma bfs_step h N E cnt root ds x qs l :
  shape h N E cnt root -> bfs N h ds (x :: qs) -> l.*1 = kids x.2.2 x.1 -> Forall (fun x => at_path N h x.1 x.2) l ->
  bfs N h (ds ++ [x]) (qs ++ l).
Proof.
  intros Hs [Hat Hord Hnd] Hl Hall.
  assert ((ds ++ [x]) ++ qs ++ l = (ds ++ x :: qs) ++ l) as Heq by by rewrite <- !app_assoc.
  assert (at_path N h x.1 x.2) as Hx.
  { rewrite Forall_forall in Hat. apply Hat. apply elem_of_app. right. by left. }
  pose proof (at_path_ok _ _ _ _ _ _ _ Hs Hx) as Hok. constructor; rewrite ?Heq.
  - by apply Forall_app.
  - rewrite fmap_app, Hord, Hl, bind_app. cbn. by rewrite app_nil_r.
  - rewrite fmap_app, Hl. apply NoDup_app. split_and!; [done | | by eapply NoDup_kids].
    intros q Hq Hk. eapply elem_of_kids in Hk as (k & -> & _); [| done].
    rewrite Hord in Hq. apply elem_of_cons in Hq as [Hq|Hq]; [by apply snoc_ne_nil in Hq |].
    apply list_elem_of_bind in Hq as (d & Hq & Hd).
    assert (at_path N h d.1 d.2) as Hdat.
    { rewrite Forall_forall in Hat. apply Hat. apply elem_of_app. by left. }
    eapply elem_of_kids in Hq as (k' & [Hpe _]%app_inj_tail & _); [| by eapply at_path_ok].
    rewrite fmap_app, NoDup_app in Hnd. destruct Hnd as (_ & Hnd & _). apply (Hnd x.1); [| by left].
    rewrite Hpe. by apply list_elem_of_fmap_2.
Qed.

Lemma bfs_length h N ds qs : bfs N h ds qs -> (length (ds ++ qs) <= size N)%nat.
Proof.
  intros [Hat _ Hnd]. rewrite <- (length_fmap fst), <- size_dom, <- (size_list_to_set (C := gset path)) by done.
  apply subseteq_size. intros p Hp. apply elem_of_list_to_set in Hp. apply list_elem_of_fmap in Hp as (x & -> & Hx).
  rewrite Forall_forall in Hat. destruct (Hat x Hx) as [Hp _]. apply elem_of_dom. by eexists.
Qed.

Lemma bfs_collect_run h N E cnt root fuel ds qs :
  shape h N E cnt root -> bfs N h ds qs -> (size N <= length ds + fuel)%nat ->
  exists l, collect fuel (addresses qs) (addresses ds) h = (Ok (addresses l), h) /\ bfs N h l [].
Proof.
  intros Hs. revert ds qs. induction fuel as [|fuel IH]; intros ds qs Hb Hf;
    (destruct qs as [|x qs]; [by exists ds |]); pose proof (bfs_length _ _ _ _ Hb) as Hlen; rewrite length_app in Hlen; cbn in Hlen.
  - lia.
  - assert (at_path N h x.1 x.2) as Hx.
    { pose proof (bfs_at _ _ _ _ Hb) as Hat. rewrite Forall_forall in Hat. apply Hat. apply elem_of_app. right. by left. }
    destruct (nodes_of h N E cnt root (kids x.2.2 x.1) Hs) as (l & Hl & Hall).
    { apply Forall_forall. intros q Hq. eapply elem_of_kids in Hq as (k & -> & HN); [done | by eapply at_path_ok]. }
    unfold addresses at 1. rewrite fmap_cons. cbn [collect]. fold (addresses qs).
    rewrite (bind_ok _ _ _ _ _ (load_run _ _ _ (proj2 Hx))), <- (kids_addresses _ _ _ _ _ _ _ _ Hs Hx Hl Hall).
    unfold addresses. rewrite <- fmap_app. change [x.2.1] with ((fun x : path * (nat * Node) => x.2.1) <$> [x]).
    rewrite <- fmap_app. apply IH; [by eapply bfs_step | rewrite length_app; cbn; lia].
Qed.

(** A finished walk has met every node. *)
Lemma bfs_all h N E cnt root l p : shape h N E cnt root -> bfs N h l [] -> is_Some (N !! p) -> p ∈ l.*1.
Proof.
  intros Hs [Hat Hord _]. rewrite app_nil_r in *. induction p as [|k p IH] using rev_ind; intros Hp; rewrite Hord; [by left |].
  destruct (sh_closed _ _ _ _ _ Hs _ _ Hp) as [Hp' _]. specialize (IH Hp'). apply list_elem_of_fmap in IH as (x & -> & Hx).
  right. apply list_elem_of_bind. exists x. split; [| done]. rewrite Forall_forall in Hat.
  apply (elem_of_kids N E cnt); [by eapply at_path_ok; [| apply Hat] |]. by exists k.
Qed.

Lemma CollectSubtree_run h N E cnt root :
  shape h N E cnt root -> exists l, CollectSubtree root h = (Ok (addresses l), h) /\ bfs N h l [].
Proof.
  intros Hs. pose proof (sh_root _ _ _ _ _ Hs) as Hr. destruct (sh_node _ _ _ _ _ Hs _ _ Hr) as (n & Hn & Hok).
  apply (bfs_collect_run h N E cnt root (length h) [] [([], (root, n))] Hs).
  - constructor; [by repeat constructor | done | apply NoDup_singleton].
  - by eapply shape_size.
Qed.

(** ** Sizes *)

Lemma ChildCount_run h N E cnt root p n :
  shape h N E cnt root -> node_ok N E cnt p n -> ChildCount n = len (children_of n).
Proof.
  intros Hs Hok. unfold ChildCount, children_of, len. rewrite range_perm, length_map_to_list. case_decide as He; [| done].
  assert (Children n = ∅) as ->; [| by rewrite He].
  apply (children_empty N E cnt p); [| done | done]. intros k Hk. by destruct (sh_closed _ _ _ _ _ Hs _ _ Hk).
Qed.

Definition node_size (x : path * (nat * Node)) : Z := 22 + len (default [] (last x.1)) + 3 * len (children_of x.2.2).

Lemma total_size_run h N E cnt root l s :
  shape h N E cnt root -> Forall (fun x => at_path N h x.1 x.2) l ->
  total_size (addresses l) s h = (Ok (s + sum_list (node_size <$> l)), h).
Proof.
  intros Hs Hl. revert s. induction Hl as [|x l Hx Hl IH]; intros s; cbn; [by rewrite Z.add_0_r |].
  rewrite (bind_ok _ _ _ _ _ (load_run _ _ _ (proj2 Hx))). fold (addresses l). rewrite IH.
  pose proof (at_path_ok _ _ _ _ _ _ _ Hs Hx) as Hok. unfold CalculateSerializedSize.
  rewrite (ChildCount_run _ _ _ _ _ _ _ Hs Hok), (ok_key _ _ _ _ _ Hok). do 2 f_equal.
  fold (sum_list (node_size <$> l)). unfold node_size at 2, SerializedNodeHeaderSize, ChildEntrySize. lia.
Qed.

Lemma len_kids (ds : list (path * (nat * Node))) :
  len (ds ≫= fun x => kids x.2.2 x.1) = sum_list ((fun x => len (children_of x.2.2)) <$> ds).
Proof.
  induction ds as [|x ds IH]; [done |]. cbn [mbind list_bind]. rewrite fmap_cons, len_app. cbn [sum_list foldr].
  fold (sum_list ((fun x : path * (nat * Node) => len (children_of x.2.2)) <$> ds)). rewrite <- IH.
  f_equal. unfold kids, len. by rewrite length_fmap.
Qed.

Lemma sum_list_perm l1 l2 : l1 ≡ₚ l2 -> sum_list l1 = sum_list l2.
Proof. unfold sum_list. induction 1; cbn in *; lia. Qed.

Lemma bfs_size N h l :
  bfs N h l [] -> 18 + sum_list (node_size <$> l) = 15 + sum_list ((fun p => 25 + len (default [] (last p))) <$> l.*1).
Proof.
  intros [_ Hord _]. rewrite app_nil_r in Hord. apply (f_equal len) in Hord. rewrite len_cons, len_kids in Hord.
  assert (forall l : list (path * (nat * Node)), sum_list (node_size <$> l) + 3 * len l =
    sum_list ((fun p => 25 + len (default [] (last p))) <$> l.*1) + 3 * sum_list ((fun x => len (children_of x.2.2)) <$> l)) as Hsum.
  { clear. induction l as [|x l IH]; [done |]. rewrite !fmap_cons, len_cons. cbn [sum_list foldr].
    fold (sum_list (node_size <$> l)) (sum_list ((fun p => 25 + len (default [] (last p))) <$> l.*1))
      (sum_list ((fun x : path * (nat * Node) => len (children_of x.2.2)) <$> l)).
    unfold node_size at 1. lia. }
  specialize (Hsum l). unfold len at 1 in Hord. rewrite length_fmap in Hord. fold (len l) in Hord. lia.
Qed.

Lemma bfs_paths h N E cnt root l :
  shape h N E cnt root -> lean N E -> bfs N h l [] -> l.*1 ≡ₚ elements (paths E).
Proof.
  intros Hs Hlean Hb. apply NoDup_Permutation.
  - pose proof (bfs_nodup _ _ _ _ Hb) as Hnd. by rewrite app_nil_r in Hnd.
  - apply NoDup_elements.
  - intros p. rewrite elem_of_elements, <- (lean_paths _ _ _ _ _ _ Hs Hlean). split.
    + intros (x & -> & Hx)%list_elem_of_fmap. pose proof (bfs_at _ _ _ _ Hb) as Hat. rewrite app_nil_r, Forall_forall in Hat.
      destruct (Hat x Hx) as [Hp _]. by eexists.
    + by eapply bfs_all.
Qed.

Lemma bfs_index_size h N E cnt root l :
  shape h N E cnt root -> lean N E -> bfs N h l [] -> 18 + sum_list (node_size <$> l) = index_size E.
Proof.
  intros Hs Hl Hb. rewrite (bfs_size _ _ _ Hb). unfold index_size. f_equal. apply sum_list_perm.
  by rewrite (bfs_paths _ _ _ _ _ _ Hs Hl Hb).
Qed.

(** ** Positions *)

Lemma nodeIndex_snoc l a : nodeIndex (l ++ [a]) = <[a := uint16 (len l)]> (nodeIndex l).
Proof. unfold nodeIndex. rewrite imap_app, foldl_app. cbn. by rewrite Nat.add_0_r. Qed.

Lemma nodeIndex_run l i a : NoDup l -> len l < 2 ^ 16 -> l !! i = Some a -> nodeIndex l !! a = Some (Z.of_nat i).
Proof.
  induction l as [|b l IH] using rev_ind; [done |]. intros [Hnd [Hb _]]%NoDup_app Hlen Hi. rewrite nodeIndex_snoc. lens.
  apply lookup_snoc_Some in Hi as [[Hlt Hi]|[-> <-]].
  - rewrite lookup_insert_ne; [apply IH; [done | lia | done] |]. intros ->. apply (Hb a); [by eapply list_elem_of_lookup_2 | by left].
  - rewrite lookup_insert_eq. unfold uint16, len. rewrite Z.mod_small; [done |]. unfold len in Hlen. lia.
Qed.

(** ** Bytes of a node *)

Definition ents (n : Node) : list (byte * nat) := (fun kc => (default x00 (List.hd_error kc.1), kc.2)) <$> children_of n.

Definition node_var (index : gmap nat Z) (n : Node) : bytes := Key n ++ (ents n ≫= child_entry index).

Definition node_hdr (index : gmap nat Z) (n : Node) (off : Z) : bytes :=
  put16 (uint16 off) ++ put16 (uint16 (len (Key n))) ++ [u8 (len (children_of n))]
  ++ [if HasEntry n then x01 else x00] ++ put64 (n_PageID n) ++ put16 (n_SlotID n)
  ++ put32 (SubtreeCount n) ++ put16 (parent_index index n).

Fixpoint headers (index : gmap nat Z) (ns : list Node) (off : Z) : bytes :=
  match ns with [] => [] | n :: ns => node_hdr index n off ++ headers index ns (off + len (node_var index n)) end.

Definition small (n : Node) : Prop := len (Key n) <= 65535 /\ len (children_of n) <= 255.

Lemma children_entries_run h N E cnt root p a n :
  shape h N E cnt root -> at_path N h p (a, n) -> children_entries n h = (Ok (ents n), h).
Proof.
  intros Hs Hat. pose proof (at_path_ok _ _ _ _ _ _ _ Hs Hat) as Hok. unfold children_entries, ents, children_of. case_decide as He.
  - assert (Children n = ∅) as ->.
    { apply (children_empty N E cnt p); [| done | done]. intros k Hk. by destruct (sh_closed _ _ _ _ _ Hs _ _ Hk). }
    by rewrite He, !range_empty.
  - fold (children_of n). assert (forall kc, kc ∈ children_of n -> N !! (p ++ [kc.1]) = Some kc.2) as Hc.
    { intros [k c] Hin. by eapply elem_of_children in Hin. }
    clear Hok He. induction (children_of n) as [|kc cs IH]; [done |]. rewrite !fmap_cons. cbn [child_list].
    destruct (sh_node _ _ _ _ _ Hs _ _ (Hc kc ltac:(left))) as (m & Hm & Hmok).
    rewrite (bind_ok _ _ _ _ _ (load_run _ _ _ Hm)), (key_snoc _ _ _ _ _ _ Hmok).
    rewrite (bind_ok _ _ _ _ _ (IH ltac:(intros; apply Hc; by right))). done.
Qed.

Lemma serialize_all_run h N E cnt root index l off :
  shape h N E cnt root -> Forall (fun x => at_path N h x.1 x.2) l -> Forall (fun x => small x.2.2) l ->
  serialize_all index (addresses l) off h =
    (Ok (headers index ((fun x => x.2.2) <$> l) off, ((fun x => x.2.2) <$> l) ≫= node_var index), h).
Proof.
  intros Hs Hl. revert off. induction Hl as [|[p [a n]] l Hx Hl IH]; intros off Hsm; [done |].
  apply Forall_cons in Hsm as [[Hk Hc] Hsm]. unfold addresses. rewrite !fmap_cons. cbn [serialize_all headers mbind list_bind fst snd] in *.
  fold (addresses l). rewrite (bind_ok _ _ _ _ _ (load_run _ _ _ (proj2 Hx))). unfold SerializeNode.
  pose proof (at_path_ok _ _ _ _ _ _ _ Hs Hx) as Hok. cbn in Hok.
  rewrite decide_False by (cbn; lia). cbn [fst snd]. rewrite (ChildCount_run _ _ _ _ _ _ _ Hs Hok), decide_False by (cbn; lia).
  rewrite bind_run, (bind_ok _ _ _ _ _ (children_entries_run _ _ _ _ _ _ _ _ Hs Hx)). cbn.
  rewrite bind_run, (IH _ Hsm). done.
Qed.

(** ** Reading them *)

Lemma sub_app A m B lo hi : lo = len A -> hi = lo + len m -> sub (A ++ m ++ B) lo hi = Ok m.
Proof.
  intros -> ->. unfold sub. rewrite decide_True by len_lia. f_equal.
  replace (Z.to_nat (len A)) with (length A) by (unfold len; lia).
  replace (Z.to_nat (len A + len m - len A)) with (length m) by (unfold len; lia).
  by rewrite drop_app_length, take_app_length.
Qed.

Definition index_ok (index : gmap nat Z) : Prop := forall a j, index !! a = Some j -> is_uint16 j.

Lemma index_default index a : index_ok index -> is_uint16 (default 0xFFFF (index !! a)).
Proof. intros Hi. destruct (index !! a) as [j|] eqn:Ej; cbn; [by eapply Hi | done]. Qed.

Lemma len_child_entries index es : len (es ≫= child_entry index) = 3 * len es.
Proof. induction es as [|e es IH]; [done |]. cbn [mbind list_bind]. rewrite len_app, len_cons. fold (es ≫= child_entry index). rewrite IH. unfold child_entry. rewrite len_cons, len_put16. lia. Qed.

Definition positions (index : gmap nat Z) (es : list (byte * nat)) : list (byte * Z) :=
  (fun bc => (bc.1, default 0xFFFF (index !! bc.2))) <$> es.

Lemma read_entries_run index A es B off :
  index_ok index -> off = len A ->
  read_entries (A ++ (es ≫= child_entry index) ++ B) off (length es) = Ok (positions index es).
Proof.
  intros Hi. revert A off. induction es as [|[b c] es IH]; intros A off ->; [done |].
  cbn [mbind list_bind length read_entries]. fold (es ≫= child_entry index).
  pose proof (index_default index c Hi) as Hc.
  assert (len A + ChildEntrySize = len (A ++ child_entry index (b, c))) as Hl
    by (unfold child_entry, ChildEntrySize; rewrite len_app, len_cons, len_put16; lia).
  rewrite <- !app_assoc. rewrite decide_False.
  2:{ rewrite Hl, !len_app. pose proof (len_nonneg (es ≫= child_entry index)). pose proof (len_nonneg B). lia. }
  rewrite app_assoc, Hl, (IH _ _ eq_refl), <- app_assoc. cbn [mbind outcome_bind].
  replace (Z.to_nat (len A)) with (length A) by (unfold len; lia).
  replace (Z.to_nat (len A + 1)) with (length A + 1)%nat by (unfold len; lia).
  unfold positions. rewrite fmap_cons. cbn [fst snd]. do 3 f_equal.
  - by rewrite nth_skip, Nat.sub_diag by lia.
  - rewrite field_skip by lia. replace (length A + 1 - length A)%nat with 1%nat by lia. unfold child_entry. cbn [fst snd].
    rewrite <- app_comm_cons. match goal with |- field (b :: ?r) 1 2 = _ => change (b :: r) with ([b] ++ r) end.
    rewrite (field_skip [b]) by (cbn; lia). cbn [length Nat.sub]. by apply field16.
Qed.

Definition unlinked (index : gmap nat Z) (n : Node) : Node * Z * list (byte * Z) :=
  (mkNode (Key n) ∅ ∅ (HasEntry n) (n_PageID n) (n_SlotID n) None (SubtreeCount n), parent_index index n,
   positions index (ents n)).

Definition storable (n : Node) : Prop :=
  small n /\ is_uint64 (n_PageID n) /\ is_uint16 (n_SlotID n) /\ is_uint32 (SubtreeCount n).

Lemma len_ents n : len (ents n) = len (children_of n).
Proof. unfold ents, len. by rewrite length_fmap. Qed.

Lemma read_node_run index n off A B A2 B2 vds ho :
  index_ok index -> storable n -> is_uint16 off ->
  A ++ node_hdr index n off ++ B = A2 ++ node_var index n ++ B2 -> ho = len A -> vds + off = len A2 ->
  read_node (A ++ node_hdr index n off ++ B) vds ho = Ok (unlinked index n).
Proof.
  intros Hi ([Hk Hc] & Hpg & Hsl & Hcnt) Hoff Hbuf -> Hvds. unfold read_node.
  rewrite (sub_app A (node_hdr index n off) B) by (done || (unfold node_hdr; lens; rewrite !len_put16, len_put64, len_put32; done)).
  cbn [mbind outcome_bind].
  assert (is_uint16 (parent_index index n)) as Hpar.
  { unfold parent_index. destruct (Parent n) as [x|]; [by apply index_default | done]. }
  assert (uint16 off = off) as Eoff by by apply Z.mod_small.
  assert (uint16 (len (Key n)) = len (Key n)) as Ek by (apply Z.mod_small; pose proof (len_nonneg (Key n)); lia).
  assert (is_uint16 (len (Key n))) as Hk16 by (pose proof (len_nonneg (Key n)); unfold is_uint16; lia).
  assert (field (node_hdr index n off) 0 2 = off) as F0 by (unfold node_hdr; rewrite Eoff, Ek; by fields).
  assert (field (node_hdr index n off) 2 2 = len (Key n)) as F2 by (unfold node_hdr; rewrite Eoff, Ek; by fields).
  assert (field (node_hdr index n off) 6 8 = n_PageID n) as F6 by (unfold node_hdr; by fields).
  assert (field (node_hdr index n off) 14 2 = n_SlotID n) as F14 by (unfold node_hdr; by fields).
  assert (field (node_hdr index n off) 16 4 = SubtreeCount n) as F16 by (unfold node_hdr; by fields).
  assert (field (node_hdr index n off) 20 2 = parent_index index n) as F20.
  { unfold node_hdr. rewrite <- (app_nil_r (put16 (parent_index index n))). by fields. }
  assert (nth 4 (node_hdr index n off) x00 = u8 (len (children_of n))) as G4 by done.
  assert (nth 5 (node_hdr index n off) x00 = if HasEntry n then x01 else x00) as G5 by done.
  rewrite F0, F2, F6, F14, F16, F20, G4, G5, Hbuf, Hvds. rewrite decide_False.
  2:{ unfold node_var. lens. pose proof (len_nonneg (ents n ≫= child_entry index)). pose proof (len_nonneg B2). lia. }
  unfold node_var. rewrite <- !app_assoc. rewrite (sub_app A2 (Key n)) by done. cbn [mbind outcome_bind].
  rewrite bZ_u8_small by (pose proof (len_nonneg (children_of n)); lia).
  replace (Z.to_nat (len (children_of n))) with (length (ents n)) by (rewrite <- len_ents; unfold len; lia).
  rewrite (app_assoc A2), (read_entries_run index (A2 ++ Key n)) by (done || by lens). cbn [mbind outcome_bind].
  unfold unlinked. do 4 f_equal. by destruct (HasEntry n).
Qed.

Lemma len_node_hdr index n off : len (node_hdr index n off) = 22.
Proof. done. Qed.

Lemma read_nodes_run index ns off A R A2 B2 vds ho buf :
  index_ok index -> Forall storable ns -> 0 <= off -> off + len (ns ≫= node_var index) < 2 ^ 16 ->
  buf = A ++ headers index ns off ++ R -> buf = A2 ++ (ns ≫= node_var index) ++ B2 -> ho = len A -> vds + off = len A2 ->
  read_nodes buf vds ho (length ns) = Ok (unlinked index <$> ns).
Proof.
  intros Hi Hst. revert off A A2 ho. induction Hst as [|n ns Hn Hst IH]; intros off A A2 ho H0 Hoff Hb1 Hb2 Hho Hvds; [done |].
  cbn [length read_nodes headers mbind list_bind] in *. fold (ns ≫= node_var index) in *. rewrite len_app in Hoff.
  pose proof (len_nonneg (node_var index n)). pose proof (len_nonneg (ns ≫= node_var index)).
  rewrite <- app_assoc in Hb1, Hb2. rewrite Hb1.
  rewrite (read_node_run index n off A _ A2 ((ns ≫= node_var index) ++ B2)); [| done | done | unfold is_uint16; lia | by rewrite <- Hb1 | done | done].
  rewrite <- Hb1. cbn [mbind outcome_bind].
  rewrite (IH (off + len (node_var index n)) (A ++ node_hdr index n off) (A2 ++ node_var index n)); [done | lia | lia | | | |].
  - by rewrite <- app_assoc.
  - by rewrite <- app_assoc.
  - rewrite len_app, len_node_hdr. unfold SerializedNodeHeaderSize. lia.
  - rewrite len_app. lia.
Qed.

Lemma len_headers index ns off : len (headers index ns off) = 22 * len ns.
Proof.
  revert off. induction ns as [|n ns IH]; intros off; [done |]. cbn [headers]. rewrite len_app, IH, len_node_hdr, len_cons. lia.
Qed.

Definition image (index : gmap nat Z) (ns : list Node) : bytes :=
  put16 (uint16 (len ns)) ++ headers index ns 0 ++ (ns ≫= node_var index).

Lemma DeserializeNodes_run index ns PH Z0 h :
  index_ok index -> Forall storable ns -> length PH = 16%nat -> ns <> [] ->
  18 + 22 * len ns + len (ns ≫= node_var index) <= PageSize ->
  DeserializeNodes (PH ++ image index ns ++ Z0) h =
    (Ok (Some (length h)), h ++ (link (length h) (unlinked index <$> ns) <$> (unlinked index <$> ns))).
Proof.
  intros Hi Hst Hph Hne Hsz. unfold PageSize in Hsz. unfold DeserializeNodes, image.
  pose proof (len_nonneg (ns ≫= node_var index)). pose proof (len_nonneg Z0). pose proof (len_nonneg ns).
  assert (len PH = 16) as HPH by (unfold len; lia).
  assert (0 < len ns) as Hpos by (destruct ns; [done | rewrite len_cons; pose proof (len_nonneg ns); lia]).
  assert (uint16 (len ns) = len ns) as -> by (apply Z.mod_small; lia).
  rewrite decide_False by (rewrite !len_app, len_put16, len_headers, HPH; unfold PageHeaderSize; lia).
  assert (field (PH ++ (put16 (len ns) ++ headers index ns 0 ++ (ns ≫= node_var index)) ++ Z0) 16 2 = len ns) as ->.
  { rewrite field_skip by lia. rewrite Hph, Nat.sub_diag, <- app_assoc. apply field16. unfold is_uint16. lia. }
  rewrite decide_False by lia.
  replace (Z.to_nat (len ns)) with (length ns) by (unfold len; lia).
  rewrite (read_nodes_run index ns 0 (PH ++ put16 (len ns)) ((ns ≫= node_var index) ++ Z0)
    (PH ++ put16 (len ns) ++ headers index ns 0) Z0); [done | done | done | lia | lia | | | |].
  - by rewrite <- !app_assoc.
  - by rewrite <- !app_assoc.
  - rewrite len_app, len_put16, HPH. done.
  - rewrite !len_app, len_put16, len_headers, HPH. unfold PageHeaderSize, SerializedNodeHeaderSize. lia.
Qed.

(** ** The tree read from a page *)

Definition nodes (l : list (path * (nat * Node))) : list Node := (fun x => x.2.2) <$> l.

(** Paths by their positions from [base] on. *)
Definition renumber (base : nat) (l : list (path * (nat * Node))) : gmap path nat :=
  list_to_map (zip l.*1 (seq base (length l))).

Lemma renumber_spec base l p x :
  NoDup l.*1 -> renumber base l !! p = Some x <-> exists i, x = (base + i)%nat /\ l.*1 !! i = Some p.
Proof.
  intros Hnd. unfold renumber. rewrite <- elem_of_list_to_map.
  - rewrite elem_of_lookup_zip_with. split.
    + intros (i & p' & y & Heq & Hp & Hy). injection Heq as <- <-. apply lookup_seq in Hy as [-> _]. by exists i.
    + intros (i & -> & Hi). exists i, p, (base + i)%nat. split_and!; [done | done |]. apply lookup_seq. split; [done |].
      apply lookup_lt_Some in Hi. by rewrite length_fmap in Hi.
  - rewrite fst_zip; [done |]. by rewrite length_seq, length_fmap.
Qed.

(** What [link_child] makes of the children of a node. *)
Lemma link_children base all (cs : list (gostring * Z)) :
  Forall (fun kc => exists nd pi es, all !! Z.to_nat kc.2 = Some (nd, pi, es) /\ Key nd = kc.1 /\ kc.1 <> []) cs -> NoDup cs.*1 ->
  let m := foldl (link_child base all) (∅, ∅) ((fun kc => (default x00 (List.hd_error kc.1), kc.2)) <$> cs) in
  (forall k x, m.2 !! k = Some x <-> exists j, (k, j) ∈ cs /\ x = (base + Z.to_nat j)%nat)
  /\ (forall b x, m.1 !! b = Some x -> exists k j, (k, j) ∈ cs /\ List.hd_error k = Some b /\ x = (base + Z.to_nat j)%nat)
  /\ (forall k j b, (k, j) ∈ cs -> List.hd_error k = Some b -> is_Some (m.1 !! b)).
Proof.
  induction cs as [|[k0 j0] cs IH] using rev_ind; intros Hall Hnd; cbn zeta.
  - split_and!; cbn.
    + intros k x. rewrite lookup_empty. split; [done |]. intros (j & Hj & _). by apply not_elem_of_nil in Hj.
    + intros b x. by rewrite lookup_empty.
    + intros k j b Hj. by apply not_elem_of_nil in Hj.
  - apply Forall_app in Hall as [Hall Hlast]. apply Forall_singleton in Hlast as (nd & pi & es & Hnd0 & Hkey & Hk0).
    rewrite fmap_app in Hnd. apply NoDup_app in Hnd as (Hnd & Hnew & _). specialize (IH Hall Hnd). cbn zeta in IH.
    rewrite fmap_app, foldl_app. cbn [fmap list_fmap foldl fst snd].
    destruct (foldl _ _ _) as [C K] eqn:Ef. cbn [fst snd] in *. destruct IH as (H1 & H2 & H3).
    assert (forall b, link_child base all (C, K) (b, j0) =
      (<[b := (base + Z.to_nat j0)%nat]> C, <[k0 := (base + Z.to_nat j0)%nat]> K)) as Hlink.
    { intros b. unfold link_child. cbn [fst snd]. by rewrite Hnd0, Hkey. }
    rewrite !Hlink. cbn [fst snd].
    assert (forall j, (k0, j) ∉ cs) as Hfresh.
    { intros j Hj. apply (Hnew k0); [| by left]. apply list_elem_of_fmap. by exists (k0, j). }
    split_and!.
    + intros k x. rewrite lookup_insert_Some. split.
      * intros [[<- <-]|[Hne Hx]]; [exists j0; split; [apply elem_of_app; right; by left | done] |].
        apply H1 in Hx as (j & Hj & ->). exists j. split; [apply elem_of_app; by left | done].
      * intros (j & [Hj|Hj%list_elem_of_singleton]%elem_of_app & ->).
        -- right. split; [intros ->; by apply (Hfresh j) |]. apply H1. by exists j.
        -- injection Hj as -> ->. by left.
    + intros b x. rewrite lookup_insert_Some. intros [[<- <-]|[Hne Hx]].
      * exists k0, j0. split_and!; [apply elem_of_app; right; by left | by destruct k0 | done].
      * apply H2 in Hx as (k & j & Hj & Hb & ->). exists k, j. split_and!; [apply elem_of_app; by left | done | done].
    + intros k j b [Hj|Hj%list_elem_of_singleton]%elem_of_app Hb; apply lookup_insert_is_Some'.
      * right. by eapply H3.
      * injection Hj as -> ->. left. by rewrite Hb.
Qed.

Section Relink.
Context (h : list Node) (N : gmap path nat) (E : directory) (cnt : path -> Z) (root : nat).
Context (l : list (path * (nat * Node))).
Hypothesis Hs : shape h N E cnt root.
Hypothesis Hb : bfs N h l [].

Lemma bfs_lookup i x : l !! i = Some x -> at_path N h x.1 x.2.
Proof.
  intros Hx. pose proof (bfs_at _ _ _ _ Hb) as Hat. rewrite app_nil_r, Forall_forall in Hat.
  apply Hat. by eapply list_elem_of_lookup_2.
Qed.

Lemma bfs_nodup_paths : NoDup l.*1.
Proof. pose proof (bfs_nodup _ _ _ _ Hb) as Hnd. by rewrite app_nil_r in Hnd. Qed.

Lemma bfs_nodup_addresses : NoDup (addresses l).
Proof.
  apply NoDup_alt. intros i j a Hi Hj. unfold addresses in Hi, Hj.
  rewrite list_lookup_fmap in Hi, Hj.
  destruct (l !! i) as [x|] eqn:Ei; [| done]. destruct (l !! j) as [y|] eqn:Ej; [| done].
  injection Hi as Hi. injection Hj as Hj. destruct (bfs_lookup _ _ Ei) as [H1 _]. destruct (bfs_lookup _ _ Ej) as [H2 _].
  assert (x.1 = y.1) as Hxy by (apply (sh_inj _ _ _ _ _ Hs _ _ a); congruence).
  apply (NoDup_lookup l.*1 i j x.1); [apply bfs_nodup_paths | by rewrite list_lookup_fmap, Ei |].
  by rewrite list_lookup_fmap, Ej, Hxy.
Qed.

Lemma lookup_path i q : l.*1 !! i = Some q ->
  exists a n, l !! i = Some (q, (a, n)) /\ addresses l !! i = Some a /\ N !! q = Some a /\ node_ok N E cnt q n.
Proof.
  intros Hi. rewrite list_lookup_fmap in Hi. destruct (l !! i) as [[p [a n]]|] eqn:Ei; [| done]. injection Hi as ->.
  exists a, n. pose proof (bfs_lookup _ _ Ei) as Hat.
  split_and!; [done | unfold addresses; by rewrite list_lookup_fmap, Ei | apply Hat |].
  by apply (at_path_ok _ _ _ _ _ _ _ Hs Hat).
Qed.

(** The position of a node. *)
Lemma position q c : N !! q = Some c -> exists j, l.*1 !! j = Some q /\ addresses l !! j = Some c.
Proof.
  intros Hq. assert (q ∈ l.*1) as Hin by (eapply bfs_all; [done | done | by eexists]).
  apply list_elem_of_lookup in Hin as [j Hj]. exists j. split; [done |].
  destruct (lookup_path _ _ Hj) as (a & n & _ & Ha & HN & _). congruence.
Qed.

Lemma position_path q c j : N !! q = Some c -> addresses l !! j = Some c -> l.*1 !! j = Some q.
Proof.
  intros Hq Hj. destruct (position q c Hq) as (i & Hi & Hc).
  by rewrite (NoDup_lookup _ _ _ _ bfs_nodup_addresses Hj Hc).
Qed.

(** [m] is a copy of [n] that points to the nodes at the positions of its neighbours. *)
Record relinked (base : nat) (n m : Node) : Prop := mkRelinked {
  rl_key : Key m = Key n;
  rl_entry : entry m = entry n;
  rl_count : SubtreeCount m = SubtreeCount n;
  rl_range : is_uint64 (n_PageID m) /\ is_uint16 (n_SlotID m);
  rl_top : Parent n = None -> Parent m = None;
  rl_parent b j : Parent n = Some b -> addresses l !! j = Some b -> Parent m = Some (base + j)%nat;
  rl_bykey k x : ChildrenByKey m !! k = Some x <-> exists c j, (k, c) ∈ children_of n /\ addresses l !! j = Some c /\ x = (base + j)%nat;
  rl_child b x : Children m !! b = Some x ->
    exists k c j, (k, c) ∈ children_of n /\ List.hd_error k = Some b /\ addresses l !! j = Some c /\ x = (base + j)%nat;
  rl_first k c b : (k, c) ∈ children_of n -> List.hd_error k = Some b -> is_Some (Children m !! b)
}.

Lemma relink_node base i p a n m :
  l !! i = Some (p, (a, n)) -> node_ok N E cnt p n -> relinked base n m -> node_ok (renumber base l) E cnt p m.
Proof.
  intros Hl Hok [].
  assert (forall q x, renumber base l !! q = Some x <-> exists i, x = (base + i)%nat /\ l.*1 !! i = Some q) as Hr.
  { intros. apply renumber_spec, bfs_nodup_paths. }
  assert (forall k c, (k, c) ∈ children_of n <-> N !! (p ++ [k]) = Some c) as Hch by (intros; by eapply elem_of_children).
  assert (forall k x, (exists c j, (k, c) ∈ children_of n /\ addresses l !! j = Some c /\ x = (base + j)%nat)
    <-> renumber base l !! (p ++ [k]) = Some x) as Hpl.
  { intros k x. rewrite Hr. split.
    - intros (c & j & Hc%Hch & Hj & ->). exists j. split; [done |]. by eapply position_path.
    - intros (j & -> & Hj). destruct (lookup_path _ _ Hj) as (c & n' & _ & Hjc & HN & _). exists c, j. by rewrite Hch. }
  constructor.
  - rewrite rl_key0. apply (ok_key _ _ _ _ _ Hok).
  - intros ->. apply rl_top0, (ok_top _ _ _ _ _ Hok). done.
  - intros q k ->. pose proof (ok_parent _ _ _ _ _ Hok q k eq_refl) as Hpar.
    destruct (sh_closed _ _ _ _ _ Hs q k) as [[b Hq] _].
    { destruct (bfs_lookup _ _ Hl) as [HN _]. by eexists. }
    destruct (position _ _ Hq) as (j & Hj & Hbj). rewrite (rl_parent0 b j) by congruence. symmetry. apply Hr. by exists j.
  - intros k. apply option_eq. intros x. by rewrite rl_bykey0, Hpl.
  - intros b x Hx. apply rl_child0 in Hx as (k & c & j & Hc & Hkb & Hj & ->). exists k. split; [done |]. apply Hpl. by exists c, j.
  - intros k b [x Hx] Hkb. apply Hpl in Hx as (c & j & Hc & _). by apply (rl_first0 k c).
  - rewrite rl_entry0. apply (ok_entry _ _ _ _ _ Hok).
  - rewrite rl_count0. apply (ok_count _ _ _ _ _ Hok).
  - done.
Qed.

Lemma relink_shape h0 hs :
  (forall i x, l !! i = Some x -> exists m, hs !! i = Some m /\ relinked (length h0) x.2.2 m) ->
  shape (h0 ++ hs) (renumber (length h0) l) E cnt (length h0).
Proof.
  intros Hhs.
  assert (forall q x, renumber (length h0) l !! q = Some x <-> exists i, x = (length h0 + i)%nat /\ l.*1 !! i = Some q) as Hr.
  { intros. apply renumber_spec, bfs_nodup_paths. }
  assert (forall q, is_Some (renumber (length h0) l !! q) <-> is_Some (N !! q)) as Hdom.
  { intros q. split.
    - intros [x (i & -> & Hi)%Hr]. destruct (lookup_path _ _ Hi) as (a & n & _ & _ & Ha & _). by eexists.
    - intros [a Ha]. destruct (position _ _ Ha) as (i & Hi & _). exists (length h0 + i)%nat. apply Hr. by exists i. }
  constructor.
  - apply Hr. exists 0%nat. split; [lia |]. pose proof (bfs_order _ _ _ _ Hb) as Ho. rewrite app_nil_r in Ho. by rewrite Ho.
  - intros p q x (i & -> & Hi)%Hr (j & Heq & Hj)%Hr. assert (i = j) as -> by lia. congruence.
  - intros p x (i & -> & Hi)%Hr. destruct (lookup_path _ _ Hi) as (a & n & Hl & _ & _ & Hok).
    destruct (Hhs i _ Hl) as (m & Hm & Hrl). exists m. split; [| by eapply relink_node].
    rewrite lookup_app_r by lia. by replace (length h0 + i - length h0)%nat with i by lia.
  - intros p k Hp%Hdom. rewrite Hdom. by apply (sh_closed _ _ _ _ _ Hs).
  - intros p Hp. apply Hdom. by apply (sh_dom _ _ _ _ _ Hs).
Qed.

Lemma relink_lean base : lean N E -> lean (renumber base l) E.
Proof.
  intros Hle p [x Hx] Hne. apply renumber_spec in Hx as (i & _ & Hi); [| apply bfs_nodup_paths].
  destruct (lookup_path _ _ Hi) as (a & n & _ & _ & Ha & _). apply Hle; [by eexists | done].
Qed.

(** ** Nodes read from a page *)

Section FromPage.
Hypothesis Hlen : len l < 2 ^ 16 - 1.

Let index := nodeIndex (addresses l).
Let all := unlinked index <$> nodes l.

Lemma index_position j c : addresses l !! j = Some c -> index !! c = Some (Z.of_nat j).
Proof.
  intros Hj. apply nodeIndex_run; [apply bfs_nodup_addresses | | done].
  unfold addresses, len. rewrite length_fmap. fold (len l). lia.
Qed.

Lemma index_range : index_ok index.
Proof.
  intros a j Ha. unfold index in *. assert (len (addresses l) < 2 ^ 16) as Hl.
  { unfold addresses, len. rewrite length_fmap. fold (len l). lia. }
  clear - Ha Hl. induction (addresses l) as [|b ad IH] using rev_ind; [done |]. rewrite nodeIndex_snoc in Ha. lens.
  apply lookup_insert_Some in Ha as [[_ <-]|[_ Ha]]; [| apply IH; [done | lia]].
  unfold is_uint16, uint16. apply Z.mod_pos_bound. lia.
Qed.

Lemma all_lookup i : all !! i = (fun x => unlinked index x.2.2) <$> l !! i.
Proof. unfold all, nodes. by rewrite !list_lookup_fmap, <- option_fmap_compose. Qed.

(** The children of a node with their positions. *)
Definition placed (n : Node) : list (gostring * Z) := (fun kc => (kc.1, default 0xFFFF (index !! kc.2))) <$> children_of n.

Lemma positions_placed n :
  positions index (ents n) = (fun kc => (default x00 (List.hd_error kc.1), kc.2)) <$> placed n.
Proof. unfold positions, ents, placed. by rewrite <- !list_fmap_compose. Qed.

Lemma elem_of_placed p n k z : node_ok N E cnt p n ->
  (k, z) ∈ placed n <-> exists c j, (k, c) ∈ children_of n /\ addresses l !! j = Some c /\ z = Z.of_nat j.
Proof.
  intros Hok. unfold placed. rewrite list_elem_of_fmap. split.
  - intros ([k' c] & Heq & Hin). injection Heq as -> ->. pose proof Hin as Hc. eapply elem_of_children in Hc; [| done].
    destruct (position _ _ Hc) as (j & _ & Hj). exists c, j. by rewrite (index_position _ _ Hj).
  - intros (c & j & Hin & Hj & ->). exists (k, c). cbn. by rewrite (index_position _ _ Hj).
Qed.

Lemma placed_ok p n : node_ok N E cnt p n ->
  Forall (fun kc => exists nd pi es, all !! Z.to_nat kc.2 = Some (nd, pi, es) /\ Key nd = kc.1 /\ kc.1 <> []) (placed n)
  /\ NoDup (placed n).*1.
Proof.
  intros Hok. split.
  - apply Forall_forall. intros [k z] Hin. eapply elem_of_placed in Hin as (c & j & Hin & Hj & ->); [| done]. cbn.
    eapply elem_of_children in Hin; [| done]. pose proof (position_path _ _ _ Hin Hj) as Hjp.
    destruct (lookup_path _ _ Hjp) as (a & m & Hl & _ & _ & Hmok). rewrite Nat2Z.id, all_lookup, Hl.
    eexists _, _, _. split_and!; [done | cbn; by eapply key_snoc |].
    by destruct (sh_closed _ _ _ _ _ Hs p k) as [_ Hk]; [eexists |].
  - unfold placed. rewrite <- list_fmap_compose. apply range_keys.
Qed.

Lemma page_relinked base p n : node_ok N E cnt p n -> relinked base n (link base all (unlinked index n)).
Proof.
  intros Hok. destruct (placed_ok p n Hok) as [Hpl Hnd].
  pose proof (link_children base all (placed n) Hpl Hnd) as Hch. cbn zeta in Hch.
  unfold link, unlinked. rewrite positions_placed. destruct (foldl _ _ _) as [C K]. cbn [fst snd] in Hch.
  destruct Hch as (H1 & H2 & H3).
  assert (len all = len l) as Hall by (unfold all, nodes, len; by rewrite !length_fmap).
  constructor; cbn; [done | done | done | apply (ok_range _ _ _ _ _ Hok) | | | | |].
  - intros Hp. unfold parent_index. rewrite Hp. by rewrite decide_False by naive_solver.
  - intros b j Hp Hj. unfold parent_index. rewrite Hp, (index_position _ _ Hj). cbn.
    pose proof (lookup_lt_Some _ _ _ Hj) as Hlt. unfold addresses in Hlt. rewrite length_fmap in Hlt.
    by rewrite decide_True, Nat2Z.id by (rewrite Hall; unfold NoParentIndex, len in *; lia).
  - intros k x. rewrite H1. split.
    + intros (z & Hz & ->). eapply elem_of_placed in Hz as (c & j & Hc & Hj & ->); [| done]. exists c, j. by rewrite Nat2Z.id.
    + intros (c & j & Hc & Hj & ->). exists (Z.of_nat j). rewrite Nat2Z.id. split; [| done]. eapply elem_of_placed; [done |]. by exists c, j.
  - intros b x Hx. apply H2 in Hx as (k & z & Hz & Hkb & ->). eapply elem_of_placed in Hz as (c & j & Hc & Hj & ->); [| done].
    exists k, c, j. by rewrite Nat2Z.id.
  - intros k c b Hin Hkb. pose proof Hin as Hc. eapply elem_of_children in Hc; [| done]. destruct (position _ _ Hc) as (j & _ & Hj).
    apply (H3 k (Z.of_nat j)); [| done]. eapply elem_of_placed; [done |]. by exists c, j.
Qed.

Lemma page_shape h0 : shape (h0 ++ (link (length h0) all <$> all)) (renumber (length h0) l) E cnt (length h0).
Proof.
  apply relink_shape. intros i x Hx. exists (link (length h0) all (unlinked index x.2.2)). split.
  - by rewrite list_lookup_fmap, all_lookup, Hx.
  - apply (page_relinked _ x.1). apply (at_path_ok _ _ _ _ _ _ _ Hs (bfs_lookup _ _ Hx)).
Qed.
End FromPage.
End Relink.

(** ** Writing and reading the page *)

(** What is read from the page is a tree with the entries [P]; a new page has no nodes. *)
Definition holds (pg : Page) (P : directory) : Prop :=
  Z.of_nat (size P) < 2 ^ 32 /\
  forall h0,
    (exists h N a, DeserializeFromPage (Page_Serialize pg) h0 = (Ok (Some a), h) /\ shape h N P (count P) a /\ lean N P)
    \/ (DeserializeFromPage (Page_Serialize pg) h0 = (Ok None, h0) /\ P = ∅).

Lemma shape_new h : shape (h ++ [NewRootNode]) {[ [] := length h ]} ∅ (count (∅ : directory)) (length h).
Proof.
  constructor.
  - apply lookup_singleton_eq.
  - intros p q a [<- _]%lookup_singleton_Some [<- _]%lookup_singleton_Some. done.
  - intros p a [<- <-]%lookup_singleton_Some. exists NewRootNode. split; [by apply list_lookup_middle |].
    constructor; try done; intros k; try (intros b; rewrite lookup_singleton_ne by (intros Heq; symmetry in Heq; by apply snoc_ne_nil in Heq); by intros []).
    + intros k' Heq. by apply app_cons_not_nil in Heq.
    + cbn. by rewrite lookup_empty, lookup_singleton_ne.
  - intros p k. rewrite lookup_singleton_ne by (intros Heq; symmetry in Heq; by apply snoc_ne_nil in Heq). by intros [].
  - intros p. rewrite lookup_empty. by intros [].
Qed.

Lemma lean_new a : lean {[ [] := a ]} ∅.
Proof. intros p [x [<- _]%lookup_singleton_Some] Hne. done. Qed.

Lemma sum_bound {A} (f : A -> Z) l x : (forall y, 0 <= f y) -> x ∈ l -> f x <= sum_list (f <$> l).
Proof.
  intros Hf. induction l as [|y l IH]; [by intros ?%not_elem_of_nil |]. rewrite fmap_cons. cbn [sum_list foldr].
  fold (sum_list (f <$> l)). assert (0 <= sum_list (f <$> l)).
  { clear -Hf. induction l as [|z l IH]; [done |]. rewrite fmap_cons. cbn [sum_list foldr]. fold (sum_list (f <$> l)).
    specialize (Hf z). lia. }
  intros [->|Hin]%elem_of_cons; [lia |]. specialize (IH Hin). specialize (Hf y). lia.
Qed.

Lemma sum_lower {A} (f : A -> Z) c l : (forall y, c <= f y) -> c * len l <= sum_list (f <$> l).
Proof.
  intros Hf. induction l as [|y l IH]; [unfold len; cbn; lia |]. rewrite fmap_cons, len_cons. cbn [sum_list foldr].
  fold (sum_list (f <$> l)). specialize (Hf y). lia.
Qed.

Section Fits.
Context (h : list Node) (N : gmap path nat) (E : directory) (root : nat) (l : list (path * (nat * Node))).
Hypothesis Hs : shape h N E (count E) root.
Hypothesis Hle : lean N E.
Hypothesis HE : Z.of_nat (size E) < 2 ^ 32.
Hypothesis Hb : bfs N h l [].

Lemma fits_length : 15 + 25 * len l <= index_size E.
Proof.
  unfold index_size. rewrite <- (sum_list_perm _ _ (fmap_Permutation _ _ _ (bfs_paths _ _ _ _ _ _ Hs Hle Hb))).
  pose proof (sum_lower (fun p : path => 25 + len (default [] (last p))) 25 l.*1
    ltac:(intros y; pose proof (len_nonneg (default [] (last y))); lia)) as H1.
  unfold len in H1 at 1. rewrite length_fmap in H1. fold (len l) in H1. lia.
Qed.

Lemma fits_storable : index_size E <= PageSize -> Forall storable (nodes l).
Proof.
  intros Hsz. apply Forall_forall. intros n (x & -> & Hx)%list_elem_of_fmap.
  apply list_elem_of_lookup in Hx as [i Hi]. pose proof (bfs_lookup h N l Hb i x Hi) as Hat.
  pose proof (at_path_ok _ _ _ _ _ _ _ Hs Hat) as Hok. pose proof fits_length as Hlen.
  pose proof (bfs_index_size _ _ _ _ _ _ Hs Hle Hb) as Hsum. unfold PageSize in Hsz.
  assert (x ∈ l) as Hin by by eapply list_elem_of_lookup_2.
  assert (node_size x <= sum_list (node_size <$> l)) as H1.
  { apply sum_bound; [| done]. intros y. unfold node_size. pose proof (len_nonneg (default [] (last y.1))).
    pose proof (len_nonneg (children_of y.2.2)). lia. }
  pose proof (sum_bound (fun x : path * (nat * Node) => len (children_of x.2.2)) l x ltac:(intros; apply len_nonneg) Hin) as H2.
  pose proof (bfs_order _ _ _ _ Hb) as Ho. rewrite app_nil_r in Ho. apply (f_equal len) in Ho.
  rewrite len_cons, len_kids in Ho. unfold len at 1 in Ho. rewrite length_fmap in Ho. fold (len l) in Ho.
  unfold node_size in H1 at 1. rewrite <- (ok_key _ _ _ _ _ Hok) in H1. cbv beta in H2.
  pose proof (len_nonneg (children_of x.2.2)). pose proof (len_nonneg (Key x.2.2)).
  destruct (ok_range _ _ _ _ _ Hok) as [Hpg Hsl]. pose proof (count_range E x.1).
  repeat split; try lia; try apply Hpg; try apply Hsl; rewrite (ok_count _ _ _ _ _ Hok); lia.
Qed.

Lemma len_vars index : len (nodes l ≫= node_var index) = index_size E - 18 - 22 * len l.
Proof.
  rewrite <- (bfs_index_size _ _ _ _ _ _ Hs Hle Hb). pose proof (bfs_at _ _ _ _ Hb) as Hat. rewrite app_nil_r in Hat.
  clear Hb. unfold nodes. induction Hat as [|x l' Hx Hat IH]; [done |]. rewrite !fmap_cons. cbn [mbind list_bind sum_list foldr].
  fold (((fun x : path * (nat * Node) => x.2.2) <$> l') ≫= node_var index) (sum_list (node_size <$> l')).
  rewrite len_app, IH, len_cons. unfold node_var, node_size. rewrite len_app, len_child_entries, len_ents.
  rewrite (ok_key _ _ _ _ _ (at_path_ok _ _ _ _ _ _ _ Hs Hx)). lia.
Qed.

Definition root_header (id : Z) : PageHeader :=
  mkPageHeader id PageTypeDNIndex x00 (uint16 (len l)) (uint16 (PageSize - index_size E)) 0.

Lemma SerializeNodes_run id :
  SerializeNodes (addresses l) id h =
  (if decide (index_size E <= PageSize)
   then Ok (GoBinary.pad (Z.to_nat PageSize)
              (PageHeader_Serialize (root_header id) ++ image (nodeIndex (addresses l)) (nodes l)))
   else Err ErrTooManyNodes, h).
Proof.
  pose proof (bfs_at _ _ _ _ Hb) as Hat. rewrite app_nil_r in Hat. unfold SerializeNodes.
  assert (len (addresses l) = len l) as -> by (unfold addresses, len; by rewrite length_fmap).
  pose proof fits_length as Hlen. assert (MaxNodesPerPage = 185) as Hmax by done.
  case_decide as Hd1; [rewrite decide_False by (unfold PageSize; lia); done |].
  rewrite (bind_ok _ _ _ _ _ (total_size_run _ _ _ _ _ _ _ Hs Hat)).
  assert (PageHeaderSize + 2 + sum_list (node_size <$> l) = index_size E) as ->.
  { rewrite <- (bfs_index_size _ _ _ _ _ _ Hs Hle Hb). unfold PageHeaderSize. lia. }
  destruct (decide (index_size E <= PageSize)) as [Hsz|Hsz]; [| by rewrite decide_True by lia].
  rewrite decide_False by lia.
  assert (Forall (fun x => small x.2.2) l) as Hsm.
  { pose proof (fits_storable Hsz) as Hst. unfold nodes in Hst. rewrite Forall_fmap in Hst.
    eapply Forall_impl; [done |]. intros x Hx. apply Hx. }
  rewrite bind_run, (serialize_all_run _ _ _ _ _ _ _ _ Hs Hat Hsm). cbn. unfold image, nodes, len. by rewrite length_fmap.
Qed.

Lemma image_size index : index_size E <= PageSize -> len (image index (nodes l)) = index_size E - 16.
Proof.
  intros Hsz. unfold image. rewrite !len_app, len_put16, len_headers, len_vars. unfold nodes, len. rewrite length_fmap. lia.
Qed.

(** The page that [persistRoot] writes. *)
Definition root_page (id : Z) : Page :=
  mkPage (root_header id) (GoBinary.pad data_size (image (nodeIndex (addresses l)) (nodes l))).

Lemma root_page_holds id pg :
  index_size E <= PageSize -> Data pg = Data (root_page id) -> holds pg E.
Proof.
  intros Hsz Hdata. split; [done |]. intros h0. left. pose proof fits_length as Hlen. unfold PageSize in *.
  unfold DeserializeFromPage, Page_Serialize. rewrite Hdata. cbn [Data root_page]. rewrite pad_idemp. unfold GoBinary.pad at 2.
  rewrite firstn_all2.
  2:{ pose proof (image_size (nodeIndex (addresses l)) Hsz) as Hi. unfold len in Hi.
      change data_size with 4080%nat. unfold PageSize in *. lia. }
  rewrite (DeserializeNodes_run (nodeIndex (addresses l)) (nodes l)).
  - eexists _, (renumber (length h0) l), _. split; [done |]. split.
    + eapply page_shape; [done | done | lia].
    + by eapply relink_lean.
  - apply index_range. lia.
  - by apply fits_storable.
  - done.
  - intros Hnil. pose proof (bfs_order _ _ _ _ Hb) as Ho. unfold nodes in Hnil. apply fmap_nil_inv in Hnil. by rewrite Hnil in Ho.
  - rewrite len_vars. unfold nodes, len. rewrite length_fmap. unfold PageSize. lia.
Qed.
End Fits.
End Persist.
