(* ===== verification/RadixMap.v ===== *)
(** * The radix tree as a finite map of distinguished names

    [tree t E P F]: the tree [t] has the entries [E] in memory and [P] on its page; the
    pages [F] belong to others. *)

From S2P Require Import Prelude GoBinary GoStrings Page PageStore.
From S2P Require Import RadixNode RadixPage RadixTree RadixShape RadixOps RadixWalk RadixPersist.

Implicit Types (p q : list gostring) (k : gostring).
Implicit Types (h : list Node) (N : gmap path nat) (E P : directory) (a : nat).

Section DN.
Context {UT : UnicodeTables}.

Lemma normalize_nonempty c r : normalizeRDN c = Ok r -> r <> [].
Proof.
  unfold normalizeRDN. cbn zeta. repeat case_match; try done. intros [= <-]. destruct (ToLower _); done.
Qed.

Lemma normalize_all_spec cs rs : normalize_all cs = Ok rs -> Forall2 (fun c r => normalizeRDN c = Ok r) cs rs.
Proof.
  revert rs. induction cs as [|c cs IH]; intros rs Hr; cbn in Hr; [injection Hr as <-; constructor |].
  destruct (normalizeRDN c) as [r| | |] eqn:Ec; try done. cbn in Hr.
  destruct (normalize_all cs) as [rs'| | |] eqn:Ecs; try done. injection Hr as <-. constructor; [done | by apply IH].
Qed.

Lemma ParseDN_components dn p : ParseDN dn = Ok p -> p <> [] /\ Forall (fun k => k <> []) p.
Proof.
  unfold ParseDN, ParseDNForward. repeat case_match; try done. destruct (normalize_all _) as [rs| | |] eqn:En; try done.
  intros [= <-]. apply normalize_all_spec in En. split.
  - intros Hr. apply (f_equal (@length _)) in Hr. rewrite length_rev, <- (Forall2_length _ _ _ En) in Hr. unfold len in *. cbn in Hr. lia.
  - apply Forall_rev. clear -En. induction En; constructor; [by eapply normalize_nonempty | done].
Qed.

Lemma normalizeRDN_returns c : returns (normalizeRDN c).
Proof. unfold normalizeRDN. cbn zeta. by repeat case_match. Qed.

Lemma ParseDN_returns dn : returns (ParseDN dn).
Proof.
  unfold ParseDN, ParseDNForward. repeat case_match; try done.
  assert (forall cs, returns (normalize_all cs)) as Hn.
  { induction cs as [|c cs IH]; [done |]. cbn. pose proof (normalizeRDN_returns c).
    destruct (normalizeRDN c); try done. cbn. by destruct (normalize_all cs). }
  specialize (Hn (splitDN (TrimSpace dn))). by destruct (normalize_all _).
Qed.
End DN.

Section Map.
Context {UT : UnicodeTables} {MI : MapIteration}.
Context (disk_limit : Z) (Hlimit : disk_limit < 2 ^ 62).

Record tree (t : RadixTree) (E P : directory) (F : gmap Z Page) : Prop := mkTree {
  tr_nodes : exists N, shape (r_nodes t) N E (count E) (r_root t) /\ lean N E;
  tr_size : Z.of_nat (size E) < 2 ^ 32;
  tr_pages : exists A pg, Rep disk_limit (r_pageManager t) A /\ F ⊆ A /\ A !! r_rootPageID t = Some pg /\ holds pg P;
  tr_foreign : F !! r_rootPageID t = None
}.

Definition with_nodes (t : RadixTree) (h : list Node) : RadixTree :=
  mkRadixTree h (r_root t) (r_pageManager t) (r_rootPageID t) (r_dirty t).
Definition with_pm (t : RadixTree) (pm : PageManager) : RadixTree :=
  mkRadixTree (r_nodes t) (r_root t) pm (r_rootPageID t) (r_dirty t).

Lemma on_nodes_run {A} (m : HM A) t r h : m (r_nodes t) = (r, h) -> on_nodes m t = (r, with_nodes t h).
Proof. intros Hm. unfold on_nodes. by rewrite Hm. Qed.

Lemma on_nodes_read {A} (m : HM A) t r : m (r_nodes t) = (r, r_nodes t) -> on_nodes m t = (r, t).
Proof. intros Hm. unfold on_nodes. rewrite Hm. by destruct t. Qed.

(** The entries on the page after an attempt to write [E]. *)
Definition persisted E P : directory := if decide (index_size E <= PageSize) then E else P.

Lemma page_bytes hd img :
  len img <= 4080 ->
  let buf := GoBinary.pad (Z.to_nat PageSize) (PageHeader_Serialize hd ++ img) in
  take (Z.to_nat PageHeaderSize) buf = PageHeader_Serialize hd /\ drop (Z.to_nat PageHeaderSize) buf = GoBinary.pad data_size img.
Proof.
  intros Hl buf. unfold buf, GoBinary.pad. change (Z.to_nat PageSize) with 4096%nat. change (Z.to_nat PageHeaderSize) with 16%nat.
  change data_size with 4080%nat. unfold len in Hl.
  rewrite (firstn_all2 (PageHeader_Serialize hd ++ img)) by (rewrite length_app, (length_header hd); lia).
  rewrite (firstn_all2 img) by lia.
  rewrite <- app_assoc, take_app_length', drop_app_length' by apply (length_header hd). split; [done |].
  done.
Qed.

Lemma persistRoot_run t E P F :
  tree t E P F ->
  exists t', persistRoot t = (if decide (index_size E <= PageSize) then Ok tt else Err ErrTooManyNodes, t')
    /\ tree t' E (persisted E P) F /\ r_dirty t' = r_dirty t /\ r_rootPageID t' = r_rootPageID t.
Proof.
  intros Ht. pose proof Ht as [(N & Hs & Hle) HE (A & pg & Hr & HF & Hpg & Hh) Hfor].
  destruct (CollectSubtree_run _ _ _ _ _ Hs) as (l & Hcol & Hb).
  assert (0 < r_rootPageID t < totalPages (r_pageManager t)) as Hid by by apply (rep_pages _ _ _ Hr) in Hpg as [? _].
  assert (is_uint64 (r_rootPageID t)) as Hid64 by by eapply page_id_uint64; [| apply Hr |].
  unfold persistRoot, persisted. do 2 erewrite bind_ok by reflexivity.
  assert (SerializeToPage (r_root t) (r_rootPageID t) (r_nodes t) =
    SerializeNodes (addresses l) (r_rootPageID t) (r_nodes t)) as Hser by (unfold SerializeToPage; by rewrite (bind_ok _ _ _ _ _ Hcol)).
  rewrite (SerializeNodes_run _ _ _ _ _ Hs Hle HE Hb) in Hser.
  destruct (decide (index_size E <= PageSize)) as [Hsz|Hsz].
  - rewrite (bind_ok _ _ _ _ _ (on_nodes_read _ _ _ Hser)).
    pose proof (image_size _ _ _ _ _ Hs Hle Hb (nodeIndex (addresses l)) Hsz) as Him. unfold PageSize in Hsz.
    assert (len (image (nodeIndex (addresses l)) (nodes l)) <= 4080) as Hi by lia.
    destruct (page_bytes (root_header E l (r_rootPageID t)) _ Hi) as [-> ->].
    rewrite PageHeader_roundtrip; [| done | apply Z.mod_pos_bound; lia | apply Z.mod_pos_bound; lia | done].
    erewrite bind_ok by reflexivity. fold (root_page E l (r_rootPageID t)).
    destruct (write_op_run disk_limit Hlimit _ A (root_page E l (r_rootPageID t)) Hr) as (r & pm & Hw & _ & Hok).
    { constructor; cbn; [done | apply Z.mod_pos_bound; lia | apply Z.mod_pos_bound; lia]. }
    cbn [Header root_page root_header ph_PageID] in Hok. rewrite Hpg in Hok. destruct Hok as [-> Hr'].
    exists (with_pm t pm). unfold on_pages. rewrite Hw. split_and!; [done | | done | done]. constructor; cbn; [by exists N | done | | done].
    exists (<[r_rootPageID t := stored (root_page E l (r_rootPageID t))]> A), (stored (root_page E l (r_rootPageID t))). split_and!.
    + done.
    + by apply insert_subseteq_r.
    + apply lookup_insert_eq.
    + eapply (root_page_holds _ N E _ l Hs Hle HE Hb (r_rootPageID t)); [done |]. cbn. apply pad_idemp.
  - exists t. unfold on_nodes. rewrite bind_run, Hser. split_and!; [by destruct t | done..].
Qed.

Lemma set_dirty_tree t E P F d : tree t E P F ->
  tree (mkRadixTree (r_nodes t) (r_root t) (r_pageManager t) (r_rootPageID t) d) E P F.
Proof. by intros []. Qed.

(** The end of every operation that changes the tree. *)
Lemma finish_run t E P F :
  tree t E P F -> exists t', (markDirty ;; persist_best_effort) t = (Ok tt, t') /\ tree t' E (persisted E P) F
    /\ r_rootPageID t' = r_rootPageID t /\ r_dirty t' = true.
Proof.
  intros Ht. unfold markDirty, set_dirty. erewrite bind_ok by reflexivity. apply (set_dirty_tree _ _ _ _ true) in Ht.
  destruct (persistRoot_run _ _ _ _ Ht) as (t' & Hrun & Ht' & Hdi & Hid). exists t'. split; [| by split].
  unfold persist_best_effort, try. rewrite bind_run, Hrun. by destruct (decide _).
Qed.

Lemma Persist_run t E P F :
  tree t E P F -> exists t', Persist t = (Ok tt, t') /\ tree t' E (if r_dirty t then persisted E P else P) F
    /\ r_rootPageID t' = r_rootPageID t /\ r_dirty t' = r_dirty t && bool_decide (PageSize < index_size E).
Proof.
  intros Ht. unfold Persist. erewrite bind_ok by reflexivity. destruct (r_dirty t) eqn:Hdi; cbn [negb]; [| by exists t].
  destruct (persistRoot_run _ _ _ _ Ht) as (t' & Hrun & Ht' & Hdt & Hid). unfold try. rewrite bind_run, Hrun.
  destruct (decide _); cbn; eexists; (split; [done |]); split_and!; try done.
  - by apply set_dirty_tree.
  - cbn. symmetry. apply bool_decide_eq_false. lia.
  - rewrite Hdt, Hdi. symmetry. apply bool_decide_eq_true. lia.
Qed.

Lemma radix_reopen_run t E P F :
  tree t E P F -> exists t', NewRadixTreeWithRoot (r_pageManager t) (r_rootPageID t) = Ok t' /\ tree t' P P F
    /\ r_rootPageID t' = r_rootPageID t /\ r_dirty t' = false.
Proof.
  intros [_ _ (A & pg & Hr & HF & Hpg & Hsz & Hh) Hfor].
  destruct (read_op_run disk_limit Hlimit _ A (r_rootPageID t) Hr) as (r & Hrd & _ & Hok). rewrite (Hok pg Hpg) in Hrd.
  assert (forall r h, DeserializeFromPage (Page_Serialize pg) [] = (Ok r, h) ->
    NewRadixTreeWithRoot (r_pageManager t) (r_rootPageID t) =
    Ok (match r with
        | Some a => mkRadixTree h a (r_pageManager t) (r_rootPageID t) false
        | None => mkRadixTree (h ++ [NewRootNode]) (length h) (r_pageManager t) (r_rootPageID t) false
        end)) as Hload.
  { intros r' h Hde. unfold NewRadixTreeWithRoot, loadRoot. erewrite bind_ok by reflexivity. cbn [r_rootPageID].
    erewrite bind_ok by (unfold on_pages; cbn [r_pageManager]; by rewrite Hrd).
    rewrite (bind_ok _ _ _ _ _ (on_nodes_run _ (mkRadixTree [] 0 _ _ false) _ _ Hde)). by destruct r'. }
  destruct (Hh []) as [(h & N & a & Hde & Hs & Hle)|[Hde ->]]; (eexists; split; [by apply Hload |]); cbn; (split; [| by split]).
  - constructor; cbn; [by exists N | done | exists A, pg; by split_and! | done].
  - constructor; cbn; [eexists; split; [apply (shape_new []) | apply lean_new] | done | exists A, pg; by split_and! | done].
Qed.

(** ** Making a tree *)

Lemma paths_empty : index_size ∅ = 40.
Proof.
  unfold index_size. assert (paths ∅ = {[ [] ]}) as ->; [| by rewrite elements_singleton].
  apply set_eq. intros p. rewrite elem_of_paths, elem_of_singleton. split; [| by left]. intros [?|Hb]; [done |].
  destruct Hb. apply below_empty. intros q. rewrite lookup_empty. by intros [].
Qed.

Lemma persisted_empty P : persisted ∅ P = ∅.
Proof. unfold persisted. by rewrite decide_True by (rewrite paths_empty; done). Qed.

Lemma new_page_holds id : holds (stored (NewPage id PageTypeDNIndex)) ∅.
Proof.
  split; [done |]. intros h0. right. split; [| done]. unfold DeserializeFromPage, DeserializeNodes.
  set (buf := Page_Serialize _). assert (len buf = 4096) as Hl by (unfold len, buf; by rewrite length_Page_Serialize).
  rewrite decide_False by (rewrite Hl; done).
  assert (field buf 16 2 = 0) as ->; [| done].
  unfold buf, Page_Serialize. rewrite field_skip by done. cbn [Data stored NewPage].
  rewrite pad_idemp, pad_id by apply length_zeros. reflexivity.
Qed.

Lemma NewRadixTree_run pm F t :
  Rep disk_limit pm F -> NewRadixTree disk_limit pm = Ok t -> tree t ∅ ∅ F /\ r_dirty t = false.
Proof.
  intros Hr. unfold NewRadixTree.
  destruct (alloc_run disk_limit Hlimit _ F PageTypeDNIndex Hr) as [(id & pm' & Hrun & Hid & Hr')|(e & Hrun & _)].
  - erewrite bind_ok by (unfold on_pages; cbn [r_pageManager]; by rewrite Hrun). erewrite bind_ok by reflexivity. cbn.
    assert (tree (mkRadixTree [NewRootNode] 0 pm' id false) ∅ ∅ F) as Ht.
    { constructor; cbn; [eexists; split; [apply (shape_new []) | apply lean_new] | done | | done].
      eexists _, _. split_and!; [done | by apply insert_subseteq | apply lookup_insert_eq | apply new_page_holds]. }
    destruct (persistRoot_run _ _ _ _ Ht) as (t' & -> & Ht' & Hdi & _).
    rewrite decide_True by (rewrite paths_empty; done). rewrite persisted_empty in Ht'. cbn. by intros [= <-].
  - rewrite bind_run. unfold on_pages. cbn [r_pageManager]. by rewrite Hrun.
Qed.

Lemma radix_Clear_run t E P F : tree t E P F -> exists t', Clear t = (Ok tt, t') /\ tree t' ∅ ∅ F /\ r_rootPageID t' = r_rootPageID t /\ r_dirty t' = true.
Proof.
  intros [_ _ Hpg Hfor]. unfold Clear. erewrite bind_ok by reflexivity. do 2 erewrite bind_ok by reflexivity.
  match goal with |- exists t', persistRoot ?x = _ /\ _ => set (t1 := x) end.
  assert (tree t1 ∅ P F) as Ht.
  { constructor; cbn; [eexists; split; [apply shape_new | apply lean_new] | done | done | done]. }
  destruct (persistRoot_run _ _ _ _ Ht) as (t' & -> & Ht' & Hdi & Hid). exists t'.
  rewrite decide_True by (rewrite paths_empty; done). rewrite persisted_empty in Ht'. by split_and!.
Qed.

(** ** Finding *)

Lemma findNode_run t E P F p :
  tree t E P F ->
  exists N, shape (r_nodes t) N E (count E) (r_root t) /\ lean N E /\ findNode p t = (Ok (N !! p), t).
Proof.
  intros [(N & Hs & Hle) _ _ _]. exists N. split_and!; [done | done |]. unfold findNode, traverseToNode.
  erewrite bind_ok by reflexivity. apply on_nodes_read. by apply (traverse_find _ _ _ _ _ p [] _ Hs (sh_root _ _ _ _ _ Hs)).
Qed.

Lemma find_entry_run t E P F p :
  tree t E P F ->
  exists N, shape (r_nodes t) N E (count E) (r_root t) /\ lean N E
    /\ match E !! p with
       | Some e => exists a n, find_entry p t = (Ok (Some (a, n)), t) /\ N !! p = Some a /\ r_nodes t !! a = Some n
                     /\ node_ok N E (count E) p n /\ HasEntry n = true /\ (n_PageID n, n_SlotID n) = e
       | None => find_entry p t = (Ok None, t)
       end.
Proof.
  intros Ht. destruct (findNode_run _ _ _ _ p Ht) as (N & Hs & Hle & Hf). exists N. split_and!; [done | done |].
  unfold find_entry. destruct (N !! p) as [a|] eqn:Ea.
  - destruct (sh_node _ _ _ _ _ Hs _ _ Ea) as (n & Hn & Hok). pose proof (ok_entry _ _ _ _ _ Hok) as He.
    rewrite (bind_ok _ _ _ _ _ Hf), (bind_ok _ _ _ _ _ (on_nodes_read _ _ _ (load_run _ _ _ Hn))).
    unfold entry in He. destruct (HasEntry n) eqn:Hh; rewrite <- He; [| done]. exists a, n. by split_and!.
  - destruct (E !! p) as [e|] eqn:Ee.
    + destruct (sh_dom _ _ _ _ _ Hs p) as [a Ha]; [by eexists | congruence].
    + by rewrite (bind_ok _ _ _ _ _ Hf).
Qed.

(** ** Changing *)

(** The nodes of the tree after a change of the directory. *)
Lemma tree_change t E P F E' h N :
  tree t E P F -> shape h N E' (count E') (r_root t) -> lean N E' -> Z.of_nat (size E') < 2 ^ 32 -> tree (with_nodes t h) E' P F.
Proof. intros [_ _ Hpg Hfor] Hs Hle Hsz. constructor; cbn; [by exists N | done | done | done]. Qed.

Lemma below_insert E p e q : below q E <> ∅ \/ q `prefix_of` p -> below q (<[p := e]> E) <> ∅.
Proof.
  intros Hq Hb. rewrite below_empty in Hb. destruct Hq as [Hq|Hq].
  - apply Hq, below_empty. intros r Hr. apply Hb. rewrite lookup_insert_is_Some'. by right.
  - apply (Hb p); [| done]. rewrite lookup_insert_eq. by eexists.
Qed.

Lemma parent_run n delta t h :
  propagate_parent n delta (r_nodes t) = (Ok tt, h) ->
  (match Parent n with Some b => on_nodes (PropagateSubtreeCountChange b delta) | None => mret tt end) t = (Ok tt, with_nodes t h).
Proof.
  unfold propagate_parent. destruct (Parent n); [by apply on_nodes_run |]. intros [= <-]. by destruct t.
Qed.

Lemma radix_Insert_run t E P F dn pg sl :
  tree t E P F -> is_uint64 pg -> is_uint16 sl -> Z.of_nat (size E) + 1 < 2 ^ 32 ->
  exists r t', Insert dn pg sl t = (r, t') /\ r_rootPageID t' = r_rootPageID t /\
    match ParseDN dn with
    | Ok p => match E !! p with
              | Some _ => r = Err ErrEntryExists /\ tree t' E P F /\ r_dirty t' = r_dirty t
              | None => r = Ok tt /\ tree t' (<[p := (pg, sl)]> E) (persisted (<[p := (pg, sl)]> E) P) F /\ r_dirty t' = true
              end
    | Err e => r = Err e /\ t' = t
    | _ => False
    end.
Proof.
  intros Ht Hpg Hsl HE. unfold Insert, pure. pose proof (ParseDN_returns dn) as Hret.
  destruct (ParseDN dn) as [p|e| |] eqn:Ep; try done; [| by exists (Err e), t].
  erewrite bind_ok by reflexivity. destruct (ParseDN_components _ _ Ep) as [_ Hcomp].
  pose proof Ht as [(N & Hs & Hle) _ _ _].
  destruct (traverse_create _ _ _ _ p [] _ Hs ltac:(lia) (sh_root _ _ _ _ _ Hs) Hcomp) as (h1 & N1 & a & Htr & Hs1 & Ha & Hsub & Hnew).
  cbn [app] in Ha, Hnew. unfold traverseToNode. rewrite bind_run. erewrite bind_ok by reflexivity.
  rewrite (on_nodes_run _ _ _ _ Htr). destruct (sh_node _ _ _ _ _ Hs1 _ _ Ha) as (n & Hn & Hok).
  rewrite (bind_ok _ _ _ _ _ (on_nodes_read _ (with_nodes t h1) _ (load_run _ _ _ Hn))).
  pose proof (ok_entry _ _ _ _ _ Hok) as Hent. unfold entry in Hent.
  assert (forall q, is_Some (N1 !! q) -> q <> [] -> below q E <> ∅ \/ q `prefix_of` p) as Hl1.
  { intros q Hq Hne. destruct (Hnew q Hq) as [Hq'|Hq']; [left; by apply Hle | by right]. }
  destruct (E !! p) as [e|] eqn:Ee.
  - destruct (HasEntry n); [| done]. do 2 eexists. split_and!; [done | done | done | | done].
    eapply tree_change; [done | done | | by destruct Ht]. eapply lean_stop; [done |].
    intros Hb. rewrite below_empty in Hb. apply (Hb p); [by eexists | done].
  - destruct (HasEntry n); [done |].
    destruct (SetEntry_run _ _ _ _ _ _ _ pg sl Hpg Hsl Hs1 HE Ha Hn Ee) as (h2 & Hrun & _ & Hs2).
    assert (tree (with_nodes t h2) (<[p := (pg, sl)]> E) P F) as Ht2.
    { eapply tree_change; [done | done | | rewrite map_size_insert_None by done; lia].
      intros q Hq Hne. by apply below_insert, Hl1. }
    destruct (finish_run _ _ _ _ Ht2) as (t3 & Hfin & Ht3 & Hid & Hdi). exists (Ok tt), t3. split_and!; [| done..].
    rewrite bind_run in Hrun. erewrite bind_ok by (by apply on_nodes_run).
    rewrite (bind_ok _ _ _ _ _ (parent_run n 1 (with_nodes (with_nodes t h1) _) h2 Hrun)). exact Hfin.
Qed.

Lemma below_delete E p q : below q E <> ∅ -> below q (delete p E) <> ∅ \/ q `prefix_of` p.
Proof.
  intros Hq. destruct (decide (q `prefix_of` p)) as [Hp|Hp]; [by right |]. left. intros Hb. apply Hq.
  rewrite below_empty in *. intros r [x Hr] Hqr. apply (Hb r); [| done]. exists x. rewrite lookup_delete_ne; [done |].
  by intros ->.
Qed.

Lemma Delete_run t E P F dn :
  tree t E P F ->
  exists r t', Delete dn t = (r, t') /\ r_rootPageID t' = r_rootPageID t /\
    match ParseDN dn with
    | Ok p => match E !! p with
              | Some _ => r = Ok tt /\ tree t' (delete p E) (persisted (delete p E) P) F /\ r_dirty t' = true
              | None => r = Err ErrEntryNotFound /\ t' = t
              end
    | Err e => r = Err e /\ t' = t
    | _ => False
    end.
Proof.
  intros Ht. unfold Delete, pure. pose proof (ParseDN_returns dn) as Hret.
  destruct (ParseDN dn) as [p|e| |] eqn:Ep; try done; [| by exists (Err e), t].
  erewrite bind_ok by reflexivity. destruct (find_entry_run _ _ _ _ p Ht) as (N & Hs & Hle & Hf).
  destruct (E !! p) as [e|] eqn:Ee; [| rewrite (bind_ok _ _ _ _ _ Hf); by exists (Err ErrEntryNotFound), t].
  destruct Hf as (a & n & Hf & Ha & Hn & Hok & _). rewrite (bind_ok _ _ _ _ _ Hf). pose proof (tr_size _ _ _ _ Ht) as HE.
  destruct (ClearEntry_run _ _ _ _ _ _ _ Hs HE Ha Hn ltac:(by eexists)) as (h2 & Hrun & Hlen & Hs2).
  rewrite bind_run in Hrun.
  assert (Z.of_nat (size (delete p E)) < 2 ^ 32) as HE2.
  { pose proof (map_subseteq_size (delete p E) E (delete_subseteq E p)). lia. }
  destruct (cleanup_run _ _ _ _ _ _ (length h2) Hs2 HE2 Ha) as (h3 & N3 & Hcl & Hs3 & Hle3).
  { apply Nat.lt_le_incl. eapply shape_depth; [exact Hs2 | by eexists]. }
  { intros q Hq Hne. by apply below_delete, Hle. }
  assert (tree (with_nodes t h3) (delete p E) P F) as Ht3 by by eapply tree_change.
  destruct (finish_run _ _ _ _ Ht3) as (t4 & Hfin & Ht4 & Hid & Hdi). exists (Ok tt), t4. split_and!; [| done..].
  erewrite bind_ok by (by apply on_nodes_run).
  rewrite (bind_ok _ _ _ _ _ (parent_run n (-1) (with_nodes t _) h2 Hrun)).
  unfold cleanupEmptyNodes. erewrite bind_ok; [exact Hfin |]. erewrite bind_ok by reflexivity.
  apply (on_nodes_run (fuel ← depth_fuel; cleanup fuel (r_root t) (Some a)) (with_nodes (with_nodes t _) h2)). exact Hcl.
Qed.

Lemma Update_run t E P F dn pg sl :
  tree t E P F -> is_uint64 pg -> is_uint16 sl ->
  exists r t', Update dn pg sl t = (r, t') /\ r_rootPageID t' = r_rootPageID t /\
    match ParseDN dn with
    | Ok p => match E !! p with
              | Some _ => r = Ok tt /\ tree t' (<[p := (pg, sl)]> E) (persisted (<[p := (pg, sl)]> E) P) F /\ r_dirty t' = true
              | None => r = Err ErrEntryNotFound /\ t' = t
              end
    | Err e => r = Err e /\ t' = t
    | _ => False
    end.
Proof.
  intros Ht Hpg Hsl. unfold Update, pure. pose proof (ParseDN_returns dn) as Hret.
  destruct (ParseDN dn) as [p|e| |] eqn:Ep; try done; [| by exists (Err e), t].
  erewrite bind_ok by reflexivity. destruct (find_entry_run _ _ _ _ p Ht) as (N & Hs & Hle & Hf).
  destruct (E !! p) as [e|] eqn:Ee; [| rewrite (bind_ok _ _ _ _ _ Hf); by exists (Err ErrEntryNotFound), t].
  destruct Hf as (a & n & Hf & Ha & Hn & Hok & Hent & _). rewrite (bind_ok _ _ _ _ _ Hf).
  set (n' := set_entry n (HasEntry n) pg sl (SubtreeCount n)).
  assert (shape (<[a := n']> (r_nodes t)) N (<[p := (pg, sl)]> E) (count (<[p := (pg, sl)]> E)) (r_root t)) as Hs2.
  { eapply shape_save; [done | done | | |].
    - destruct Hok. constructor; try done; unfold n'; cbn.
      + unfold entry. cbn. by rewrite Hent, lookup_insert_eq.
      + rewrite count_update by by eexists. done.
    - intros q Hq. by rewrite lookup_insert_ne.
    - intros q Hq. by rewrite count_update by by eexists. }
  assert (tree (with_nodes t (<[a := n']> (r_nodes t))) (<[p := (pg, sl)]> E) P F) as Ht2.
  { eapply tree_change; [done | done | |].
    - intros q Hq Hne. apply below_insert. left. by apply Hle.
    - rewrite map_size_insert_Some by by eexists. apply (tr_size _ _ _ _ Ht). }
  destruct (finish_run _ _ _ _ Ht2) as (t3 & Hfin & Ht3 & Hid & Hdi). exists (Ok tt), t3. split_and!; [| done..].
  erewrite bind_ok by (by apply on_nodes_run). exact Hfin.
Qed.

(** ** Reading *)

Lemma Lookup_run t E P F dn :
  tree t E P F -> Lookup dn t = (Ok (match ParseDN dn with Ok p => E !! p | _ => None end), t).
Proof.
  intros Ht. unfold Lookup. destruct (ParseDN dn) as [p|e| |]; try done.
  destruct (find_entry_run _ _ _ _ p Ht) as (N & Hs & Hle & Hf). destruct (E !! p) as [e|].
  - destruct Hf as (a & n & Hf & _ & _ & _ & _ & <-). by rewrite (bind_ok _ _ _ _ _ Hf).
  - by rewrite (bind_ok _ _ _ _ _ Hf).
Qed.

Lemma GetSubtreeCount_run t E P F dn :
  tree t E P F ->
  GetSubtreeCount dn t = (p ← ParseDN dn; Ok (count E p), t).
Proof.
  intros Ht. unfold GetSubtreeCount, pure. pose proof (ParseDN_returns dn) as Hret.
  destruct (ParseDN dn) as [p|e| |]; try done. erewrite bind_ok by reflexivity. cbn.
  destruct (findNode_run _ _ _ _ p Ht) as (N & Hs & Hle & Hf). rewrite (bind_ok _ _ _ _ _ Hf).
  destruct (N !! p) as [a|] eqn:Ea.
  - destruct (sh_node _ _ _ _ _ Hs _ _ Ea) as (n & Hn & Hok).
    rewrite (bind_ok _ _ _ _ _ (on_nodes_read _ _ _ (load_run _ _ _ Hn))). by rewrite (ok_count _ _ _ _ _ Hok).
  - by rewrite (count_none _ _ _ _ _ _ Hs Ea).
Qed.

Lemma EntryCount_run t E P F : tree t E P F -> EntryCount t = (Ok (Z.of_nat (size E)), t).
Proof.
  intros [(N & Hs & _) _ _ _]. unfold EntryCount. erewrite bind_ok by reflexivity.
  destruct (sh_node _ _ _ _ _ Hs _ _ (sh_root _ _ _ _ _ Hs)) as (n & Hn & Hok).
  rewrite (bind_ok _ _ _ _ _ (on_nodes_read _ _ _ (load_run _ _ _ Hn))). rewrite (ok_count _ _ _ _ _ Hok).
  unfold count. by rewrite below_root.
Qed.

(** The entries strictly below [p], and those one level below. *)
Definition strictly p E : directory := delete p (below p E).
Definition one_below p E : directory := filter (fun kv => length kv.1 = S (length p)) (below p E).

Lemma strictly_child N E p : lean N E -> (strictly p E <> ∅ <-> exists k, below (p ++ [k]) E <> ∅).
Proof.
  intros Hle. unfold strictly. split.
  - intros (q & x & [Hne Hq]%lookup_delete_Some)%map_choose. apply below_lookup in Hq as [Hx Hp].
    apply prefix_step in Hp as [->|[k Hk]]; [done |]. exists k. intros Hb. rewrite below_empty in Hb.
    apply (Hb q); [by eexists | done].
  - intros [k Hk] Hd. apply map_choose in Hk as (q & x & Hq). apply below_lookup in Hq as [Hx Hp].
    assert (delete p (below p E) !! q = Some x) as Hl; [| by rewrite Hd, lookup_empty in Hl].
    rewrite lookup_delete_ne by (intros <-; by apply snoc_not_prefix in Hp). apply below_lookup. split; [done |].
    by eapply prefix_snoc_inv.
Qed.

Lemma HasChildren_run t E P F dn :
  tree t E P F -> HasChildren dn t = (p ← ParseDN dn; Ok (bool_decide (strictly p E <> ∅)), t).
Proof.
  intros Ht. unfold HasChildren, pure. pose proof (ParseDN_returns dn) as Hret.
  destruct (ParseDN dn) as [p|e| |]; try done. erewrite bind_ok by reflexivity. cbn.
  destruct (findNode_run _ _ _ _ p Ht) as (N & Hs & Hle & Hf). rewrite (bind_ok _ _ _ _ _ Hf).
  assert (strictly p E <> ∅ <-> exists k, is_Some (N !! (p ++ [k]))) as Hst.
  { rewrite (strictly_child N) by done. f_equiv. intros k. split.
    - intros Hb. destruct (N !! (p ++ [k])) eqn:Ek; [by eexists |]. destruct Hb. by eapply shape_below.
    - intros Hk. apply Hle; [done | apply snoc_ne_nil]. }
  destruct (N !! p) as [a|] eqn:Ea.
  - destruct (sh_node _ _ _ _ _ Hs _ _ Ea) as (n & Hn & Hok).
    rewrite (bind_ok _ _ _ _ _ (on_nodes_read _ _ _ (load_run _ _ _ Hn))).
    assert (ChildrenByKey n <> ∅ <-> exists k, is_Some (N !! (p ++ [k]))) as Hck.
    { split.
      - intros (k & x & Hx)%map_choose. exists k, x. by rewrite <- (ok_bykey _ _ _ _ _ Hok).
      - intros (k & x & Hx) He. rewrite <- (ok_bykey _ _ _ _ _ Hok), He, lookup_empty in Hx. done. }
    assert (Children n = ∅ <-> ChildrenByKey n = ∅) as Hch.
    { symmetry. apply (children_empty N E (count E) p); [| done]. intros k Hk. by destruct (sh_closed _ _ _ _ _ Hs _ _ Hk). }
    rewrite (bool_decide_ext (Children n <> ∅) (ChildrenByKey n <> ∅)) by by rewrite Hch.
    rewrite orb_diag, (bool_decide_ext (ChildrenByKey n <> ∅) (strictly p E <> ∅)) by by rewrite Hck, Hst. done.
  - rewrite bool_decide_eq_false_2; [done |]. rewrite Hst. intros [k Hk]. destruct (sh_closed _ _ _ _ _ Hs _ _ Hk) as [[x Hx] _]. congruence.
Qed.

Lemma level_perm h N E cnt root p n :
  shape h N E cnt root -> node_ok N E cnt p n -> level N E p (children_of n).*1 ≡ₚ map_to_list (one_below p E).
Proof.
  intros Hs Hok. apply NoDup_Permutation; [| apply NoDup_map_to_list |].
  - unfold level. apply NoDup_bind; [| intros k _; unfold own; by destruct (E !! _); repeat constructor; set_solver | apply range_keys].
    intros k k' [q x] _ _ H1 H2. unfold own in H1, H2.
    destruct (E !! (p ++ [k])); [| by apply not_elem_of_nil in H1]. destruct (E !! (p ++ [k'])); [| by apply not_elem_of_nil in H2].
    apply list_elem_of_singleton in H1, H2. injection H1 as -> ->. injection H2 as [= ->]%app_inv_head _. done.
  - intros [q x]. unfold level, one_below. rewrite list_elem_of_bind, elem_of_map_to_list, map_lookup_filter_Some, below_lookup. cbn. split.
    + intros (k & Hq & Hk). unfold own in Hq. destruct (E !! (p ++ [k])) eqn:Ek; [| by apply not_elem_of_nil in Hq].
      apply list_elem_of_singleton in Hq. injection Hq as -> ->. split_and!; [done | by apply prefix_app_r |]. rewrite length_app. cbn. lia.
    + intros [[Hx [r ->]] Hl]. rewrite length_app in Hl. destruct r as [|k [|k' r]]; cbn in Hl; [lia | | lia].
      exists k. unfold own. rewrite Hx. split; [by left |]. eapply children_cover; [done | done | by eexists | done].
Qed.

Lemma one_below_none h N E cnt root p : shape h N E cnt root -> N !! p = None -> one_below p E = ∅.
Proof. intros Hs Hp. unfold one_below. by rewrite (shape_below _ _ _ _ _ _ Hs Hp). Qed.

Lemma GetChildren_run t E P F dn p :
  tree t E P F -> ParseDN dn = Ok p ->
  exists l, GetChildren dn t = (Ok l, t) /\ l ≡ₚ dn_of <$> map_to_list (one_below p E).
Proof.
  intros Ht Hp. unfold GetChildren, pure. rewrite Hp. erewrite bind_ok by reflexivity.
  destruct (findNode_run _ _ _ _ p Ht) as (N & Hs & Hle & Hf). rewrite (bind_ok _ _ _ _ _ Hf).
  destruct (N !! p) as [a|] eqn:Ea.
  - destruct (sh_node _ _ _ _ _ Hs _ _ Ea) as (n & Hn & Hok). exists (dn_of <$> level N E p (children_of n).*1).
    split; [| by rewrite (level_perm _ _ _ _ _ _ _ Hs Hok)].
    rewrite (bind_ok _ _ _ _ _ (on_nodes_read _ _ _ (load_run _ _ _ Hn))). apply on_nodes_read.
    rewrite (child_nodes_run _ _ _ _ _ _ _ Hs Hok). unfold level. rewrite list_fmap_bind, fmap_bind.
    match goal with |- _ = (Ok ?x, _) => change x with ([] ++ x) end.
    apply (fold_nodes_run (r_nodes t)). intros [k c] acc Hin. cbn [fst snd compose].
    assert (N !! (p ++ [k]) = Some c) as Hc by by eapply elem_of_children in Hin.
    destruct (sh_node _ _ _ _ _ Hs _ _ Hc) as (m & Hm & Hmok).
    rewrite (bind_ok _ _ _ _ _ (load_run _ _ _ Hm)), (key_snoc _ _ _ _ _ _ Hmok), <- (ok_entry _ _ _ _ _ Hmok).
    unfold entry. by destruct (HasEntry m); cbn; [| rewrite app_nil_r].
  - exists []. split; [done |]. rewrite (one_below_none _ _ _ _ _ _ Hs Ea), map_to_list_empty. done.
Qed.

Lemma preorder_strictly h N E cnt root p a n fuel :
  shape h N E cnt root -> N !! p = Some a -> h !! a = Some n -> deep N p (S fuel) ->
  (children_of n ≫= fun kc => preorder fuel h kc.2 (p ++ [kc.1])) ≡ₚ map_to_list (strictly p E).
Proof.
  intros Hs Hp Hn Hd. pose proof (preorder_perm _ _ _ _ _ _ _ _ Hs Hp Hd) as Hpre.
  rewrite (preorder_S _ _ _ _ _ Hn) in Hpre. destruct (sh_node _ _ _ _ _ Hs _ _ Hp) as (n' & Hn' & Hok).
  assert (n' = n) as -> by congruence. rewrite (ok_entry _ _ _ _ _ Hok) in Hpre. unfold strictly. destruct (E !! p) as [x|] eqn:Ex.
  - assert (below p E !! p = Some x) as Hb by (by apply below_lookup).
    rewrite <- (map_to_list_delete _ _ _ Hb) in Hpre. by apply Permutation_cons_inv in Hpre.
  - rewrite delete_id; [done |]. apply eq_None_not_Some. intros [y Hy]. apply below_lookup in Hy as [Hy _]. congruence.
Qed.

Lemma GetAllChildren_run t E P F dn p :
  tree t E P F -> ParseDN dn = Ok p ->
  exists l, GetAllChildren dn t = (Ok l, t) /\ l ≡ₚ dn_of <$> map_to_list (strictly p E).
Proof.
  intros Ht Hp. unfold GetAllChildren, pure. rewrite Hp. erewrite bind_ok by reflexivity.
  destruct (findNode_run _ _ _ _ p Ht) as (N & Hs & Hle & Hf). rewrite (bind_ok _ _ _ _ _ Hf).
  destruct (N !! p) as [a|] eqn:Ea.
  - destruct (sh_node _ _ _ _ _ Hs _ _ Ea) as (n & Hn & Hok). pose proof (deep_heap _ _ _ _ _ p Hs) as Hd.
    destruct (deep_pos _ _ _ ltac:(by eexists) Hd) as [f Hf']. rewrite Hf' in Hd.
    eexists. split.
    + apply on_nodes_read. erewrite bind_ok by reflexivity. rewrite Hf'. by apply (collectDescendants_run _ _ _ _ _ _ _ _ n [] Hs).
    + cbn [app]. by rewrite (preorder_strictly _ _ _ _ _ _ _ _ _ Hs Ea Hn Hd).
  - exists []. split; [done |]. unfold strictly. by rewrite (shape_below _ _ _ _ _ _ Hs Ea), delete_empty, map_to_list_empty.
Qed.

(** The path at which an iteration starts. *)
Definition base_path (dn : gostring) : outcome path := if bytes_eqb dn [] then Ok [] else ParseDN dn.

Lemma start_node_run t E P F dn p :
  tree t E P F -> base_path dn = Ok p ->
  exists N, shape (r_nodes t) N E (count E) (r_root t) /\ lean N E
    /\ start_node dn t = (Ok ((fun a => (a, p)) <$> N !! p), t).
Proof.
  intros Ht. unfold base_path, start_node. destruct (bytes_eqb dn []).
  - intros [= <-]. pose proof Ht as [(N & Hs & Hle) _ _ _]. exists N. split_and!; [done | done |].
    erewrite bind_ok by reflexivity. by rewrite (sh_root _ _ _ _ _ Hs).
  - intros Hp. destruct (findNode_run _ _ _ _ p Ht) as (N & Hs & Hle & Hf). exists N. split_and!; [done | done |].
    unfold pure. rewrite Hp. erewrite bind_ok by reflexivity. by rewrite (bind_ok _ _ _ _ _ Hf).
Qed.

Lemma IterateSubtree_run {X} (f : EntryIterator X) t E P F dn p x :
  tree t E P F -> base_path dn = Ok p ->
  exists l, IterateSubtree dn f x t = (Ok (visit f l x).2, t) /\ l ≡ₚ map_to_list (below p E).
Proof.
  intros Ht Hp. destruct (start_node_run _ _ _ _ _ _ Ht Hp) as (N & Hs & Hle & Hst). unfold IterateSubtree.
  rewrite (bind_ok _ _ _ _ _ Hst). destruct (N !! p) as [a|] eqn:Ea; cbn [fmap option_fmap option_map].
  - pose proof (deep_heap _ _ _ _ _ p Hs) as Hd. exists (preorder (length (r_nodes t)) (r_nodes t) a p).
    split; [| by eapply preorder_perm].
    assert ((fuel ← depth_fuel; iterateNode f fuel a p x) (r_nodes t) =
      (Ok (visit f (preorder (length (r_nodes t)) (r_nodes t) a p) x), r_nodes t)) as Hrun.
    { erewrite bind_ok by reflexivity. by eapply iterateNode_run. }
    by rewrite (bind_ok _ _ _ _ _ (on_nodes_read _ _ _ Hrun)).
  - exists []. split; [done |]. by rewrite (shape_below _ _ _ _ _ _ Hs Ea), map_to_list_empty.
Qed.

Lemma IterateOneLevelChildren_run {X} (f : EntryIterator X) t E P F dn p x :
  tree t E P F -> base_path dn = Ok p ->
  exists l, IterateOneLevelChildren dn f x t = (Ok (visit f l x).2, t) /\ l ≡ₚ map_to_list (one_below p E).
Proof.
  intros Ht Hp. destruct (start_node_run _ _ _ _ _ _ Ht Hp) as (N & Hs & Hle & Hst). unfold IterateOneLevelChildren.
  rewrite (bind_ok _ _ _ _ _ Hst). destruct (N !! p) as [a|] eqn:Ea; cbn [fmap option_fmap option_map].
  - destruct (sh_node _ _ _ _ _ Hs _ _ Ea) as (n & Hn & Hok). exists (level N E p (children_of n).*1).
    split; [| by eapply level_perm]. rewrite (bind_ok _ _ _ _ _ (on_nodes_read _ _ _ (load_run _ _ _ Hn))).
    rewrite (child_nodes_run _ _ _ _ _ _ _ Hs Hok). erewrite bind_ok; [done |]. apply on_nodes_read.
    unfold level. rewrite list_fmap_bind.
    apply (until_run f (r_nodes t)). intros [k c] y Hin. cbn [fst snd compose].
    assert (N !! (p ++ [k]) = Some c) as Hc by by eapply elem_of_children in Hin.
    destruct (sh_node _ _ _ _ _ Hs _ _ Hc) as (m & Hm & Hmok).
    rewrite (bind_ok _ _ _ _ _ (load_run _ _ _ Hm)), (key_snoc _ _ _ _ _ _ Hmok), <- (ok_entry _ _ _ _ _ Hmok).
    unfold entry. destruct (HasEntry m); cbn; [| done]. by destruct (f _ _ _ y) as [[] z].
  - exists []. split; [done |]. by rewrite (one_below_none _ _ _ _ _ _ Hs Ea), map_to_list_empty.
Qed.

(** ** Iterators *)

(** Iterators whose [Next] yields the entries of a list one by one. *)
Lemma collect_entries_run (I : RadixIterator -> list IteratorEntry -> Prop) t :
  (forall it l, I it l -> exists it', Next it t = (Ok (hd_error l, it'), t) /\ I it' (tail l)) ->
  forall fuel it l acc, I it l -> (length l < fuel)%nat -> collect_entries fuel it acc t = (Ok (acc ++ l), t).
Proof.
  intros HI. induction fuel as [|fuel IH]; intros it l acc Hit Hl; [lia |]. cbn [collect_entries].
  destruct (HI it l Hit) as (it' & Hn & Hit'). rewrite (bind_ok _ _ _ _ _ Hn). destruct l as [|e l]; cbn in *.
  - by rewrite app_nil_r.
  - rewrite (IH _ l) by (done || lia). by rewrite <- app_assoc.
Qed.

Lemma head_fmap_render l : hd_error (render <$> l) = render <$> hd_error l.
Proof. by destruct l. Qed.

Lemma tail_fmap_render l : tail (render <$> l) = render <$> tail l.
Proof. by destruct l. Qed.

Definition at_base (it : RadixIterator) (scope : Z) (a : nat) (p : path) : Prop :=
  it_scope it = scope /\ it_baseNode it = Some a /\ it_baseComponents it = p.

Section Iterate.
Context (t : RadixTree) (E P : directory) (F : gmap Z Page) (N : gmap path nat) (p : path) (a : nat).
Hypothesis Hs : shape (r_nodes t) N E (count E) (r_root t).
Hypothesis Hp : N !! p = Some a.

(** Iterators over one level with [l] to come. *)
Definition level_state (it : RadixIterator) (l : list IteratorEntry) : Prop :=
  at_base it ScopeOneLevel a p /\
  ((it_done it = true /\ l = [])
   \/ (it_done it = false /\ exists n ks, r_nodes t !! a = Some n /\ ks = (if it_started it then it_childKeys it else (children_of n).*1)
         /\ l = render <$> level N E p ks)).

Lemma level_next it l : level_state it l -> exists it', Next it t = (Ok (hd_error l, it'), t) /\ level_state it' (tail l).
Proof.
  intros [(Hsc & Hbn & Hbc) [[Hd ->]|(Hd & n & ks & Hn & Hks & ->)]]; unfold Next; rewrite Hd.
  - exists it. split; [done |]. split; [done |]. by left.
  - rewrite Hbn, Hsc. rewrite decide_False by done. rewrite decide_True by done.
    destruct (one_level_run _ _ _ _ _ _ _ ks Hs Hp) as (ks' & Hol & Htl).
    assert (nextOneLevel it a (r_nodes t) = (Ok (render <$> hd_error (level N E p ks), set_iter it true
      (match render <$> hd_error (level N E p ks) with Some _ => it_done it | None => true end) (it_stack it) ks'), r_nodes t)) as Hrun.
    { unfold nextOneLevel. rewrite (bind_ok _ _ _ (r_nodes t) ks).
      - rewrite Hbc, (bind_ok _ _ _ _ _ Hol). done.
      - rewrite Hks. destruct (it_started it); [done |]. by apply (keys_run _ _ _ _ _ _ _ _ Hs Hp Hn). }
    rewrite (on_nodes_read _ _ _ Hrun), head_fmap_render, tail_fmap_render. eexists. split; [done |]. split; [done |].
    destruct (level N E p ks) as [|e l'] eqn:El; cbn; [by left |]. right. split; [done |]. exists n, ks'. by rewrite Htl.
Qed.

(** Iterators over the subtree with [l] to come. *)
Definition subtree_state (it : RadixIterator) (l : list IteratorEntry) : Prop :=
  at_base it ScopeSubtree a p /\
  ((it_done it = true /\ l = [])
   \/ (it_done it = false /\ it_started it = false /\ l = render <$> preorder (length (r_nodes t)) (r_nodes t) a p)
   \/ (it_done it = false /\ it_started it = true /\ Forall (frame_ok N) (it_stack it)
       /\ sum_list (rounds N <$> it_stack it) <= 2 * Z.of_nat (length (r_nodes t))
       /\ l = render <$> (it_stack it ≫= pending (r_nodes t) N))).

Lemma subtree_next it l : subtree_state it l -> exists it', Next it t = (Ok (hd_error l, it'), t) /\ subtree_state it' (tail l).
Proof.
  intros [(Hsc & Hbn & Hbc) Hst]. unfold Next. destruct (it_done it) eqn:Hd.
  { exists it. destruct Hst as [[_ ->]|[[? _]|[? _]]]; [| done | done]. split; [done |]. split; [done |]. by left. }
  rewrite Hbn, Hsc. do 2 rewrite decide_False by done. rewrite decide_True by done.
  assert (exists stack, (if it_started it then mret (it_stack it) else (f ← new_frame a (it_baseComponents it); mret [f])) (r_nodes t)
      = (Ok stack, r_nodes t) /\ Forall (frame_ok N) stack /\ sum_list (rounds N <$> stack) <= 2 * Z.of_nat (length (r_nodes t))
      /\ l = render <$> (stack ≫= pending (r_nodes t) N)) as (stack & Hstack & Hok & Hro & ->).
  { destruct Hst as [[? _]|[(_ & -> & ->)|(_ & -> & Hok & Hro & ->)]]; [done | | by exists (it_stack it)].
    destruct (new_frame_run _ _ _ _ _ _ _ Hs Hp) as (f & Hf & Hfok & Hfp & Hfr). exists [f]. split_and!.
    - rewrite Hbc, (bind_ok _ _ _ _ _ Hf). done.
    - by constructor.
    - cbn. rewrite Hfr. pose proof (shape_size _ _ _ _ _ Hs). pose proof (map_subseteq_size (below p N) N ltac:(apply map_filter_subseteq)).
      unfold count. lia.
    - cbn. by rewrite app_nil_r, Hfp. }
  destruct (subtree_loop_run _ _ _ _ _ (2 * length (r_nodes t)) stack Hs Hok ltac:(lia)) as (stack' & Hloop & Hok' & Htl & Hro').
  assert (nextSubtree it a (r_nodes t) = (Ok (render <$> hd_error (stack ≫= pending (r_nodes t) N), set_iter it true
    (match render <$> hd_error (stack ≫= pending (r_nodes t) N) with Some _ => it_done it | None => true end) stack' (it_childKeys it)), r_nodes t)) as Hrun.
  { unfold nextSubtree. rewrite (bind_ok _ _ _ _ _ Hstack). erewrite bind_ok by reflexivity. by rewrite (bind_ok _ _ _ _ _ Hloop). }
  rewrite (on_nodes_read _ _ _ Hrun), head_fmap_render, tail_fmap_render. eexists. split; [done |]. split; [done |].
  destruct (stack ≫= pending (r_nodes t) N) as [|e l'] eqn:El; cbn; [by left |]. right. right. cbn in Htl.
  split_and!; [done | done | done | exact (Z.le_trans _ _ _ Hro' Hro) | by rewrite Htl].
Qed.

End Iterate.

Lemma entries_bound (D : directory) t E P F : tree t E P F -> D ⊆ E -> (size D < S (length (r_nodes t)))%nat.
Proof.
  intros [(N & Hs & _) _ _ _] Hsub. pose proof (map_subseteq_size _ _ Hsub). pose proof (shape_entries _ _ _ _ _ Hs).
  pose proof (shape_size _ _ _ _ _ Hs). lia.
Qed.

(** What a search of the given scope returns. *)
Definition scope_entries (E : directory) (dn : gostring) (p : path) (scope : Z) : list IteratorEntry :=
  if decide (scope = ScopeBase) then match E !! p with Some (pg, sl) => [(dn, pg, sl)] | None => [] end
  else if decide (scope = ScopeOneLevel) then render <$> map_to_list (one_below p E)
  else if decide (scope = ScopeSubtree) then render <$> map_to_list (below p E)
  else [].

(** An iterator over [t] that has the entries [l] to return. *)
Definition yields (t : RadixTree) (it : RadixIterator) (l : list IteratorEntry) : Prop :=
  exists I : RadixIterator -> list IteratorEntry -> Prop,
    (forall it l, I it l -> exists it', Next it t = (Ok (hd_error l, it'), t) /\ I it' (tail l)) /\ I it l.

Lemma yields_next t it l : yields t it l -> exists it', Next it t = (Ok (hd_error l, it'), t) /\ yields t it' (tail l).
Proof. intros (I & HI & Hit). destruct (HI it l Hit) as (it' & Hn & Hit'). exists it'. split; [done |]. by exists I. Qed.

(** Iterators over the base only. *)
Definition base_state (t : RadixTree) (E : directory) (p : path) (a : nat) (it : RadixIterator) (l : list IteratorEntry) : Prop :=
  at_base it ScopeBase a p /\
  ((it_done it = true /\ l = [])
   \/ (it_done it = false /\ it_started it = false
       /\ l = match E !! p with Some (pg, sl) => [(it_baseDN it, pg, sl)] | None => [] end)).

Lemma base_next t N E p a it l :
  shape (r_nodes t) N E (count E) (r_root t) -> N !! p = Some a ->
  base_state t E p a it l -> exists it', Next it t = (Ok (hd_error l, it'), t) /\ base_state t E p a it' (tail l).
Proof.
  intros Hs Ea [(Hsc & Hbn & Hbc) Hst]. unfold Next. destruct Hst as [[Hd ->]|(Hd & Hst & ->)]; rewrite Hd.
  { exists it. split; [done |]. split; [done |]. by left. }
  destruct (sh_node _ _ _ _ _ Hs _ _ Ea) as (n & Hn & Hok). rewrite Hbn, Hsc, decide_True by done. unfold nextBase. rewrite Hst.
  assert (entry n = E !! p) as He by apply (ok_entry _ _ _ _ _ Hok). unfold entry in He.
  exists (set_iter it true true (it_stack it) (it_childKeys it)). split.
  - apply on_nodes_read. rewrite (bind_ok _ _ _ _ _ (load_run _ _ _ Hn)). destruct (HasEntry n); by rewrite <- He.
  - split; [done |]. left. split; [done |]. destruct (E !! p) as [[]|]; done.
Qed.

(** Iterators with nothing to return. *)
Definition empty_state (it : RadixIterator) (l : list IteratorEntry) : Prop :=
  l = [] /\ (it_done it = true \/ it_baseNode it = None
             \/ it_scope it <> ScopeBase /\ it_scope it <> ScopeOneLevel /\ it_scope it <> ScopeSubtree).

Lemma empty_next t it l : empty_state it l -> exists it', Next it t = (Ok (hd_error l, it'), t) /\ empty_state it' (tail l).
Proof.
  intros [-> H]. unfold Next. destruct (it_done it) eqn:Hd; [exists it; split; [done |]; split; [done |]; by left |].
  exists (set_iter it (it_started it) true (it_stack it) (it_childKeys it)). split; [| split; [done | by left]].
  destruct H as [?|[->|(H0 & H1 & H2)]]; [done | done |]. destruct (it_baseNode it); [| done]. by rewrite !decide_False.
Qed.

Lemma Iterator_run t E P F dn p scope :
  tree t E P F -> ParseDN dn = Ok p ->
  exists it l, Iterator dn scope t = (Ok it, t) /\ yields t it l /\ l ≡ₚ scope_entries E dn p scope
    /\ (length l < S (length (r_nodes t)))%nat.
Proof.
  intros Ht Hp. unfold Iterator, pure. rewrite Hp. destruct (findNode_run _ _ _ _ p Ht) as (N & Hs & Hle & Hf).
  erewrite bind_ok by reflexivity. rewrite (bind_ok _ _ _ _ _ Hf). cbn.
  exists (mkIterator dn scope (N !! p) p false false [] []). unfold scope_entries.
  destruct (N !! p) as [a|] eqn:Ea.
  - destruct (sh_node _ _ _ _ _ Hs _ _ Ea) as (n & Hn & Hok).
    destruct (decide (scope = ScopeBase)) as [->|H0]; [| destruct (decide (scope = ScopeOneLevel)) as [->|H1];
      [| destruct (decide (scope = ScopeSubtree)) as [->|H2]]].
    + eexists. split_and!; [done | | done |].
      * exists (base_state t E p a). split; [by intros it l; apply (base_next t N) |]. split; [done |]. right. by split_and!.
      * apply lookup_lt_Some in Hn. destruct (E !! p) as [[]|]; cbn; lia.
    + exists (render <$> level N E p (children_of n).*1). split_and!; [done | | |].
      * exists (level_state t E N p a). split; [by apply level_next |]. split; [done |]. right. split; [done |]. by exists n, (children_of n).*1.
      * by rewrite (level_perm _ _ _ _ _ _ _ Hs Hok).
      * rewrite length_fmap, (level_perm _ _ _ _ _ _ _ Hs Hok), length_map_to_list. eapply entries_bound; [done |].
        etrans; apply map_filter_subseteq.
    + pose proof (deep_heap _ _ _ _ _ p Hs) as Hd. pose proof (preorder_perm _ _ _ _ _ _ _ _ Hs Ea Hd) as Hpre.
      exists (render <$> preorder (length (r_nodes t)) (r_nodes t) a p). split_and!; [done | | |].
      * exists (subtree_state t N p a). split; [by apply (subtree_next t E) |]. split; [done |]. right. left. by split_and!.
      * by rewrite Hpre.
      * rewrite length_fmap, Hpre, length_map_to_list. eapply entries_bound; [done |]. apply map_filter_subseteq.
    + exists []. split_and!; [done | | done | cbn; lia]. exists empty_state. split; [apply empty_next |]. split; [done |]. right. by right.
  - exists []. split_and!; [done | | | cbn; lia].
    + exists empty_state. split; [apply empty_next |]. split; [done |]. right. by left.
    + assert (E !! p = None) as HE by (apply eq_None_not_Some; intros [x Hx]%(sh_dom _ _ _ _ _ Hs); congruence).
      rewrite HE, (one_below_none _ _ _ _ _ _ Hs Ea), (shape_below _ _ _ _ _ _ Hs Ea), map_to_list_empty.
      by repeat case_decide.
Qed.

Lemma Collect_run t E P F dn p scope :
  tree t E P F -> ParseDN dn = Ok p ->
  exists l, (it ← Iterator dn scope; Collect it) t = (Ok l, t) /\ l ≡ₚ scope_entries E dn p scope.
Proof.
  intros Ht Hp. destruct (Iterator_run t E P F dn p scope Ht Hp) as (it & l & Hit & (I & HI & Hl) & Hperm & Hlen).
  exists l. split; [| done]. rewrite (bind_ok _ _ _ _ _ Hit). unfold Collect. erewrite bind_ok by reflexivity.
  by rewrite (collect_entries_run I t HI _ _ l).
Qed.
End Map.
