(* ===== verification/RadixDN.v ===== *)
(** * Distinguished names and their normal form

    [ParseDN] of a printed path gives the path back, for names in printable ASCII without
    escapes: parsing puts names into a normal form. *)

From S2P Require Import Prelude GoStrings RadixNode RadixMap.

(** ** Trimming *)

(** Printable ASCII without the escape character. *)
Definition plain_byte (b : byte) : Prop := 32 <= bZ b < 127 /\ b <> backslash.
Definition plain (s : gostring) : Prop := Forall plain_byte s.

Lemma plain_ink b : plain_byte b -> b <> x20 -> ink b = true.
Proof.
  intros [Hb _] Hne. unfold ink. apply bool_decide_eq_true. assert (bZ b <> 32); [| lia].
  intros H. apply Hne, bZ_inj. by rewrite H.
Qed.

Lemma strip_suffix n ps s : exists g, s = g ++ strip n ps s.
Proof.
  revert s. induction n as [|n IH]; intros s; cbn [strip]; [by exists [] |].
  destruct (List.find _ ps) as [p|]; [| by exists []]. destruct (IH (drop (length p) s)) as [g Hg].
  exists (take (length p) s ++ g). rewrite <- app_assoc, <- Hg. by rewrite take_drop.
Qed.

Lemma strip_done n ps s :
  (length s <= n)%nat -> Forall (fun p => p <> []) ps -> Forall (fun p => HasPrefix (strip n ps s) p = false) ps.
Proof.
  revert s. induction n as [|n IH]; intros s Hl Hps; cbn [strip].
  - destruct s; [| cbn in Hl; lia]. eapply Forall_impl; [done |]. intros p Hp. by destruct p.
  - destruct (List.find _ ps) as [p|] eqn:Ef.
    + apply IH; [| done]. apply find_some in Ef as [Hin%list_elem_of_In Hp]. rewrite Forall_forall in Hps.
      specialize (Hps p Hin). rewrite length_drop. destruct p; [done |]. cbn [length].
      apply HasPrefix_spec in Hp as [r ->]. cbn in *. lia.
    + apply Forall_forall. intros p Hp. apply (find_none _ _ Ef). by apply list_elem_of_In.
Qed.

Lemma spaces_nonempty : Forall (fun p => p <> []) spaces /\ Forall (fun p => p <> []) (rev (A := byte) <$> spaces).
Proof. split; repeat constructor; done. Qed.

Lemma strip_plain ps n s :
  ps = spaces \/ ps = rev (A := byte) <$> spaces -> (length s <= n)%nat -> plain s ->
  strip n ps s = [] \/ exists a t, strip n ps s = a :: t /\ ink a = true.
Proof.
  intros Hps Hl Hs. destruct (strip n ps s) as [|a t] eqn:E; [by left |]. right. exists a, t. split; [done |].
  assert (Forall (fun p => p <> []) ps) as Hne by (destruct Hps as [->| ->]; apply spaces_nonempty).
  pose proof (strip_done n ps s Hl Hne) as Hd. rewrite E, Forall_forall in Hd.
  destruct (strip_suffix n ps s) as [g Hg]. rewrite E in Hg. unfold plain in Hs. rewrite Hg, Forall_app, Forall_cons in Hs.
  apply plain_ink; [naive_solver |]. intros ->.
  assert (HasPrefix (x20 :: t) [x20] = false) as Hf; [| done].
  apply Hd. destruct Hps as [->| ->]; set_solver.
Qed.

(** A text is trimmed to nothing or to a trimmed text inside it. *)
Lemma TrimSpace_plain s : plain s -> (TrimSpace s = [] \/ trimmed (TrimSpace s)) /\ exists g r, s = g ++ TrimSpace s ++ r.
Proof.
  intros Hs. unfold TrimSpace. cbn zeta. set (l := strip (length s) spaces s).
  destruct (strip_suffix (length s) spaces s) as [g Hg]. fold l in Hg.
  set (m := strip (length l) (rev (A := byte) <$> spaces) (rev l)).
  destruct (strip_suffix (length l) (rev (A := byte) <$> spaces) (rev l)) as [r Hr]. fold m in Hr.
  assert (l = rev m ++ rev r) as Hl by by rewrite <- rev_app_distr, <- Hr, rev_involutive.
  split; [| exists g, (rev r); congruence].
  assert (plain l) as Hpl by (unfold plain in *; rewrite Hg, Forall_app in Hs; naive_solver).
  destruct (strip_plain spaces (length s) s (or_introl eq_refl) ltac:(done) Hs) as [H1|(a & t & H1 & Ha)]; fold l in H1.
  { left. unfold m. by rewrite H1. }
  destruct (strip_plain (rev (A := byte) <$> spaces) (length l) (rev l)) as [H2|(b & u & H2 & Hb)];
    [by right | by rewrite length_rev | by apply Forall_rev | |]; fold m in H2.
  { left. by rewrite H2. }
  right. rewrite H2 in Hl |- *. cbn [rev] in Hl |- *. split; [| by exists (rev u), b].
  rewrite H1 in Hl. destruct (rev u) as [|c w] eqn:Eu; cbn in Hl |- *; injection Hl as -> _; by eexists _, _.
Qed.

Lemma plain_sub s g r x : plain s -> s = g ++ x ++ r -> plain x.
Proof. unfold plain. intros Hs ->. rewrite !Forall_app in Hs. naive_solver. Qed.

Lemma plain_trim s : plain s -> plain (TrimSpace s).
Proof. intros Hs. destruct (TrimSpace_plain s Hs) as [_ (g & r & E)]. by eapply plain_sub. Qed.

Lemma in_trim s b : plain s -> b ∈ TrimSpace s -> b ∈ s.
Proof. intros Hs Hb. destruct (TrimSpace_plain s Hs) as [_ (g & r & E)]. rewrite E. set_solver. Qed.

Lemma trim_idemp s : plain s -> TrimSpace (TrimSpace s) = TrimSpace s.
Proof. intros Hs. destruct (TrimSpace_plain s Hs) as [[->|Ht] _]; [done |]. by apply TrimSpace_trimmed. Qed.

(** ** Splitting *)

Lemma splitDN_plain s r cur comps :
  plain s -> comma ∉ s -> splitDN_loop (s ++ r) cur false comps = splitDN_loop r (cur ++ s) false comps.
Proof.
  intros Hs Hc. revert cur. induction s as [|b s IH]; intros cur; [by rewrite app_nil_r |]. cbn [app splitDN_loop].
  apply Forall_cons in Hs as [[_ Hb] Hs]. apply not_elem_of_cons in Hc as [Hbc Hc].
  unfold byte_eqb. rewrite !bool_decide_eq_false_2 by done. rewrite IH by done. by rewrite <- app_assoc.
Qed.

(** What splitting yields: trimmed texts without commas. *)
Definition piece (s : gostring) : Prop := plain s /\ comma ∉ s /\ trimmed s.

Lemma add_component_piece comps cur :
  plain cur -> comma ∉ cur -> Forall piece comps -> Forall piece (add_component comps cur).
Proof.
  intros Hp Hc Hall. unfold add_component. cbn zeta. unfold bytes_eqb. case_bool_decide as He; [done |].
  apply Forall_app. split; [done |]. apply Forall_singleton. destruct (TrimSpace_plain cur Hp) as [[?|Ht] _]; [done |].
  split_and!; [by apply plain_trim | | done]. intros Hin. by apply in_trim in Hin.
Qed.

Lemma splitDN_pieces s cur comps :
  plain s -> plain cur -> comma ∉ cur -> Forall piece comps -> Forall piece (splitDN_loop s cur false comps).
Proof.
  revert cur comps. induction s as [|b s IH]; intros cur comps Hs Hcur Hc Hall; cbn [splitDN_loop]; [by apply add_component_piece |].
  apply Forall_cons in Hs as [[Hb1 Hb] Hs]. unfold byte_eqb. rewrite bool_decide_eq_false_2 by done.
  case_bool_decide as Hbc.
  - apply IH; [done | constructor | by apply not_elem_of_nil | by apply add_component_piece].
  - apply IH; [done | | | done].
    + apply Forall_app. split; [done |]. by apply Forall_singleton.
    + rewrite elem_of_app, list_elem_of_singleton. naive_solver.
Qed.

Lemma add_component_trimmed comps c : trimmed c -> add_component comps c = comps ++ [c].
Proof.
  intros Ht. unfold add_component. rewrite (TrimSpace_trimmed _ Ht). destruct Ht as [(a & t & -> & _) _].
  unfold bytes_eqb. by rewrite bool_decide_eq_false_2.
Qed.

Lemma splitDN_join l comps : Forall piece l -> l <> [] -> splitDN_loop (Join comma l) [] false comps = comps ++ l.
Proof.
  revert comps. induction l as [|c [|d l] IH]; intros comps Hall Hne; [done | |].
  - apply Forall_singleton in Hall as (Hp & Hc & Ht). cbn [Join]. rewrite <- (app_nil_r c), splitDN_plain by done. cbn.
    by rewrite add_component_trimmed, app_nil_r.
  - apply Forall_cons in Hall as [(Hp & Hc & Ht) Hall]. change (Join comma (c :: d :: l)) with (c ++ comma :: Join comma (d :: l)).
    rewrite splitDN_plain by done. cbn [splitDN_loop app].
    replace (byte_eqb comma backslash) with false by done. replace (byte_eqb comma comma) with true by done.
    rewrite add_component_trimmed by done. rewrite IH by done. by rewrite <- app_assoc.
Qed.

Section Parse.
Context {UT : UnicodeTables}.

(** ** Components *)

Lemma Index_equals ty v : equals ∉ ty -> Index (ty ++ equals :: v) [equals] = len ty.
Proof.
  induction ty as [|b ty IH]; intros Hty; [done |]. apply not_elem_of_cons in Hty as [Hb Hty]. cbn [app Index].
  assert (HasPrefix (b :: ty ++ equals :: v) [equals] = false) as ->.
  { apply HasPrefix_false. intros r E. injection E as Hbe _. by apply Hb. }
  rewrite IH by done. pose proof (len_nonneg ty). rewrite decide_False, len_cons by lia. lia.
Qed.

(** A component in normal form. *)
Definition normal (k : gostring) : Prop :=
  exists ty v, k = ty ++ equals :: v /\ plain ty /\ plain v /\ comma ∉ ty /\ comma ∉ v /\ equals ∉ ty /\ trimmed ty
    /\ (v = [] \/ trimmed v) /\ lower_ascii ty = ty.

Lemma trimmed_component ty v : trimmed ty -> v = [] \/ trimmed v -> trimmed (ty ++ equals :: v).
Proof.
  intros [(a & t & -> & Ha) _] Hv. split; [by exists a, (t ++ equals :: v) |]. destruct Hv as [->|[_ (u & b & -> & Hb)]].
  - by exists (a :: t), equals.
  - exists ((a :: t) ++ equals :: u), b. split; [| done]. by rewrite <- app_assoc.
Qed.

Lemma normal_piece k : normal k -> piece k.
Proof.
  intros (ty & v & -> & Hty & Hv & Hc1 & Hc2 & _ & Ht & Htv & _). split_and!.
  - unfold plain. rewrite Forall_app, Forall_cons. split_and!; [done | | done]. by split; [vm_compute; split; done |].
  - rewrite elem_of_app, elem_of_cons. intros [?|[?|?]]; done.
  - by apply trimmed_component.
Qed.

Lemma plain_ascii s : plain s -> is_ascii s = true.
Proof. intros Hs. apply is_ascii_spec. eapply Forall_impl; [done |]. intros b [Hb _]. lia. Qed.

Lemma normalize_normal k : normal k -> normalizeRDN k = Ok k.
Proof.
  intros Hk. pose proof (normal_piece k Hk) as (_ & _ & Ht). destruct Hk as (ty & v & -> & Hty & Hv & _ & _ & He & Htt & Htv & Hlow).
  unfold normalizeRDN. rewrite (TrimSpace_trimmed _ Ht). cbn zeta. unfold bytes_eqb. rewrite bool_decide_eq_false_2 by by destruct ty.
  rewrite Index_equals by done. pose proof (len_nonneg ty). rewrite decide_False by lia.
  replace (Z.to_nat (len ty)) with (length ty) by (unfold len; lia).
  replace (Z.to_nat (len ty + 1)) with (S (length ty)) by (unfold len; lia). rewrite take_app_length.
  rewrite (TrimSpace_trimmed _ Htt). rewrite bool_decide_eq_false_2 by (intros ->; by destruct Htt as [(? & ? & ? & _) _]).
  rewrite ToLower_ascii, Hlow by by apply plain_ascii.
  replace (drop (S (length ty)) (ty ++ equals :: v)) with v.
  - destruct Htv as [->|Htv]; [done |]. by rewrite (TrimSpace_trimmed _ Htv).
  - rewrite <- (take_drop (length ty) (ty ++ equals :: v)) at 1. clear. induction ty; [done |]. by cbn in *.
Qed.

(** ** Parsing yields normal forms *)

Lemma lower_byte_cases b : lower_byte b = b \/ 97 <= bZ (lower_byte b) <= 122.
Proof. unfold lower_byte. case_decide as Hd; [| by left]. right. rewrite bZ_u8_small; lia. Qed.

Lemma lower_byte_plain b : plain_byte b -> plain_byte (lower_byte b).
Proof.
  intros Hb. destruct (lower_byte_cases b) as [->|Hr]; [done |]. split; [lia |]. intros E. rewrite E in Hr.
  change (bZ backslash) with 92 in Hr. lia.
Qed.

Lemma lower_byte_idemp b : lower_byte (lower_byte b) = lower_byte b.
Proof. destruct (lower_byte_cases b) as [E|Hr]; [by rewrite E |]. unfold lower_byte at 1. rewrite decide_False by lia. done. Qed.

Lemma lower_byte_ink b : ink b = true -> ink (lower_byte b) = true.
Proof.
  destruct (lower_byte_cases b) as [->|Hr]; [done |]. intros _. apply bool_decide_eq_true. lia.
Qed.

Lemma lower_byte_neq b c : b <> c -> bZ c < 65 -> lower_byte b <> c.
Proof. intros Hb Hc. destruct (lower_byte_cases b) as [->|Hr]; [done |]. intros <-. lia. Qed.

Lemma lower_not_in c s : bZ c < 65 -> c ∉ s -> c ∉ lower_ascii s.
Proof.
  intros Hc Hs (b & -> & Hb)%list_elem_of_fmap. apply (lower_byte_neq b (lower_byte b)); [| done | done].
  intros E. apply Hs. by rewrite <- E.
Qed.

Lemma lower_trimmed s : trimmed s -> trimmed (lower_ascii s).
Proof.
  intros [(a & t & Ea & Ha) (u & b & Eb & Hb)]. split.
  - exists (lower_byte a), (lower_ascii t). rewrite Ea. by split; [| apply lower_byte_ink].
  - exists (lower_ascii u), (lower_byte b). rewrite Eb. split; [by unfold lower_ascii; rewrite fmap_app | by apply lower_byte_ink].
Qed.

Lemma normalize_result c r : piece c -> normalizeRDN c = Ok r -> normal r.
Proof.
  intros (Hp & Hc & Ht). unfold normalizeRDN. rewrite (TrimSpace_trimmed _ Ht). cbn zeta. unfold bytes_eqb.
  case_bool_decide; [done |]. case_decide as Hi; [done |].
  destruct (decide (0 <= Index c [equals])) as [H0|H0].
  2:{ exfalso. apply Hi. clear -H0. induction c as [|b c IH]; cbn [Index] in *; [by destruct (HasPrefix _ _) |].
      destruct (HasPrefix _ _); [lia |]. cbn zeta in *. case_decide; [done |]. exfalso. lia. }
  destruct (Index_found c [equals] H0) as (g & v & -> & Hg & Hmin).
  assert (equals ∉ g) as Hge.
  { intros (x & y & ->)%list_elem_of_split.
    assert (len (x ++ equals :: y) <= len x) as Hle by (apply (Hmin x (y ++ [equals] ++ v)); by rewrite <- app_assoc).
    rewrite len_app, len_cons in Hle. pose proof (len_nonneg y). lia. }
  rewrite <- Hg. replace (Z.to_nat (len g)) with (length g) by (unfold len; lia).
  replace (Z.to_nat (len g + 1)) with (length g + 1)%nat by (unfold len; lia). rewrite take_app_length, <- drop_drop, drop_app_length.
  cbn [drop app]. case_bool_decide as Hty; [done |]. intros [= <-].
  unfold plain in Hp. rewrite !Forall_app in Hp. destruct Hp as (Hpg & _ & Hpv).
  assert (comma ∉ g /\ comma ∉ v) as [Hcg Hcv] by set_solver.
  destruct (TrimSpace_plain g Hpg) as [[?|Htg] _]; [done |]. destruct (TrimSpace_plain v Hpv) as [Htv _].
  pose proof (plain_trim g Hpg) as Hpt. rewrite ToLower_ascii by by apply plain_ascii.
  exists (lower_ascii (TrimSpace g)), (TrimSpace v). split_and!.
  - done.
  - unfold plain, lower_ascii. apply Forall_fmap. eapply Forall_impl; [done |]. apply lower_byte_plain.
  - by apply plain_trim.
  - apply lower_not_in; [done |]. intros Hin. by apply in_trim in Hin.
  - intros Hin. by apply in_trim in Hin.
  - apply lower_not_in; [done |]. intros Hin. by apply in_trim in Hin.
  - by apply lower_trimmed.
  - done.
  - unfold lower_ascii. rewrite <- list_fmap_compose. apply list_fmap_ext. intros i b _. apply lower_byte_idemp.
Qed.

(** Joined pieces need no trimming. *)
Lemma join_trimmed l : Forall piece l -> l <> [] -> trimmed (Join comma l).
Proof.
  induction l as [|c [|d l] IH]; intros Hall Hne; [done | apply Forall_cons in Hall as [Hc _]; apply Hc |].
  apply Forall_cons in Hall as [(_ & _ & [(a & t & -> & Ha) _]) Hall].
  change (Join comma ((a :: t) :: d :: l)) with ((a :: t) ++ comma :: Join comma (d :: l)).
  destruct (IH Hall) as [_ (u & b & -> & Hb)]; [done |]. split; [by exists a, (t ++ comma :: u ++ [b]) |].
  exists ((a :: t) ++ comma :: u), b. split; [| done]. by rewrite <- app_assoc.
Qed.

Lemma normalize_all_normal l : Forall normal l -> normalize_all l = Ok l.
Proof. induction 1 as [|k l Hk _ IH]; [done |]. cbn. by rewrite (normalize_normal k Hk), IH. Qed.

Lemma parse_join l : Forall normal l -> l <> [] -> ParseDNForward (JoinDN l) = Ok l.
Proof.
  intros Hall Hne. assert (Forall piece l) as Hpi by (eapply Forall_impl; [done | apply normal_piece]).
  pose proof (join_trimmed l Hpi Hne) as Ht. unfold ParseDNForward, JoinDN. rewrite (TrimSpace_trimmed _ Ht).
  assert (bytes_eqb (Join comma l) [] = false) as ->.
  { apply bool_decide_eq_false. intros E. destruct Ht as [(a & t & Ea & _) _]. by rewrite Ea in E. }
  unfold splitDN. rewrite splitDN_join by done. cbn [app]. rewrite decide_False; [by apply normalize_all_normal |].
  intros Hl. by apply len_zero_nil in Hl.
Qed.

Lemma parse_normal dn l : plain dn -> ParseDNForward dn = Ok l -> Forall normal l /\ l <> [].
Proof.
  intros Hp. unfold ParseDNForward. repeat case_match; try done. intros Hn%normalize_all_spec. split.
  - assert (Forall piece (splitDN (TrimSpace dn))) as Hpi.
    { apply splitDN_pieces; [by apply plain_trim | constructor | by apply not_elem_of_nil | constructor]. }
    clear -Hn Hpi. induction Hn as [|c r cs rs Hc Hn IH]; [constructor |]. apply Forall_cons in Hpi as [Hpc Hpi].
    constructor; [by eapply normalize_result | by apply IH].
  - intros ->. apply Forall2_length in Hn. unfold len in *. cbn in Hn. lia.
Qed.

(** Printing a parsed name and parsing it again. *)
Lemma ParseDN_print dn p : plain dn -> ParseDN dn = Ok p -> ParseDN (JoinDNReverse p) = Ok p /\ Forall normal p /\ p <> [].
Proof.
  intros Hp. unfold ParseDN. destruct (ParseDNForward dn) as [l| | |] eqn:El; try done. cbn. intros [= <-].
  destruct (parse_normal dn l Hp El) as [Hall Hne]. unfold JoinDNReverse. rewrite rev_involutive. fold (JoinDN l).
  rewrite parse_join by done. cbn. split_and!; [done | by apply Forall_rev |]. intros E. apply Hne.
  rewrite <- (rev_involutive l). by rewrite E.
Qed.
End Parse.
