(* ===== verification/RadixCache.v ===== *)
(** * The cache file of the radix tree (src/internal/storage/radix/cache.go)

    A clean shutdown writes all nodes to a cache file, and the next start reads them back. *)

From S2P Require Import Prelude GoBinary GoStrings Page PageStore CacheFile.
From S2P Require Import RadixNode RadixPage RadixTree RadixShape RadixOps RadixPersist RadixMap.

Definition ErrCacheCorrupt : goerror := ErrConst "ErrCacheCorrupt".

(** [binary.Read] of an unsigned integer of [k] bytes. *)
Definition read_uint (k : nat) : M bytes Z := bs ← ReadFull k; mret (le_value bs).
Definition read_int32 : M bytes Z := v ← read_uint 4; mret (int32 v).

Definition ReadByte : M bytes byte := fun s =>
  match s with [] => (Err io_EOF, []) | b :: s => (Ok b, s) end.

(** [buf.Read(p)] with [len(p) = n]: at the end of the data an error even for [n = 0], and
    otherwise what is there, which may be less than asked for. *)
Definition Reader_Read (n : nat) : M bytes bytes := fun s =>
  if decide (s = []) then (Err io_EOF, s) else (Ok (GoBinary.pad n s), drop n s).

Fixpoint read_indices (n : nat) : M bytes (list Z) :=
  match n with
  | O => mret []
  | S n => i ← read_int32; rest ← read_indices n; mret (i :: rest)
  end.

(** A node of the first pass, its parent's index and its children's. *)
Definition cached_node : Type := Node * Z * list Z.

Definition read_cached : M bytes cached_node :=
  keyLen ← read_uint 2;
  keyBytes ← Reader_Read (Z.to_nat keyLen);
  flags ← ReadByte;
  pageID ← read_uint 8;
  slotID ← read_uint 2;
  subtreeCount ← read_uint 4;
  parentIdx ← read_int32;
  childCount ← read_uint 2;
  childIdxs ← read_indices (Z.to_nat childCount);
  mret (mkNode keyBytes ∅ ∅ (bool_decide (Z.land (bZ flags) 1 <> 0)) pageID slotID None subtreeCount,
        parentIdx, childIdxs).

Fixpoint read_all_cached (n : nat) : M bytes (list cached_node) :=
  match n with
  | O => mret []
  | S n => node ← read_cached; rest ← read_all_cached n; mret (node :: rest)
  end.

(** The second pass; [base] is the address of the first node. *)
Definition cache_child (base : nat) (nodes : list cached_node) (m : gmap byte nat * gmap gostring nat) (childIdx : Z)
    : gmap byte nat * gmap gostring nat :=
  if decide (childIdx >= 0) then
    match nodes !! Z.to_nat childIdx with
    | Some (child, _, _) =>
        let a := (base + Z.to_nat childIdx)%nat in
        (match Key child with [] => m.1 | b :: _ => <[b := a]> m.1 end, <[Key child := a]> m.2)
    | None => m
    end
  else m.

Definition cache_link (base : nat) (nodes : list cached_node) (node : cached_node) : Node :=
  let '(n, parentIdx, childIdxs) := node in
  let parent := if decide (parentIdx >= 0 /\ parentIdx < len nodes) then Some (base + Z.to_nat parentIdx)%nat else None in
  let '(c, k) := foldl (cache_child base nodes) (∅, ∅) childIdxs in
  set_Parent (set_children n c k) parent.

Section Cache.
Context {MI : MapIteration}.

Definition collectAllNodes (root : nat) : HM (list nat) :=
  fuel ← gets (fun h => length h); collect fuel [root] [].

(** [for i, node := range nodes { nodeIndex[node] = int32(i) }]. *)
Definition cacheIndex (nodes : list nat) : gmap nat Z :=
  foldl (fun m ia => <[ia.2 := int32 (Z.of_nat ia.1)]> m) ∅ (imap pair nodes).

Definition cache_parent (index : gmap nat Z) (n : Node) : Z :=
  match Parent n with Some p => default (-1) (index !! p) | None => -1 end.

Definition serialize_cached (index : gmap nat Z) (n : Node) : bytes :=
  put16 (uint16 (len (Key n))) ++ Key n ++ [if HasEntry n then x01 else x00]
  ++ put64 (n_PageID n) ++ put16 (n_SlotID n) ++ put32 (SubtreeCount n) ++ put32 (cache_parent index n)
  ++ put16 (uint16 (len (child_nodes n))) ++ (child_nodes n ≫= fun c => put32 (default (-1) (index !! c))).

Fixpoint serialize_cached_all (index : gmap nat Z) (nodes : list nat) : HM bytes :=
  match nodes with
  | [] => mret []
  | node :: nodes =>
      n ← load node;
      rest ← serialize_cached_all index nodes;
      mret (serialize_cached index n ++ rest)
  end.

Definition cacheNodes (nodes : list nat) : HM bytes :=
  rest ← serialize_cached_all (cacheIndex nodes) nodes;
  mret (put32 (uint32 (len nodes)) ++ rest).

(** The file that is written; the root is never nil. *)
Definition SaveCache (txID : Z) : RM bytes :=
  root ← gets r_root;
  nodes ← on_nodes (collectAllNodes root);
  data ← on_nodes (cacheNodes nodes);
  mret (WriteFile TypeRadix data (len nodes) txID).

Definition decode_nodes (expectedCount : Z) (data : bytes) : outcome (list cached_node) :=
  if decide (len data < 4) then Err ErrCacheCorrupt
  else
    let read : M bytes (list cached_node) :=
      nodeCount ← read_uint 4;
      if decide (nodeCount <> expectedCount) then fail ErrCacheCorrupt
      else read_all_cached (Z.to_nat nodeCount) in
    (read data).1.

(** Without nodes the result is [NewRootNode()]. *)
Definition uncacheNodes (data : bytes) (expectedCount : Z) : HM nat := fun h =>
  match decode_nodes expectedCount data with
  | Ok [] => (Ok (length h), h ++ [NewRootNode])
  | Ok nodes => (Ok (length h), h ++ (cache_link (length h) nodes <$> nodes))
  | Err e => (Err e, h)
  | Panic => (Panic, h)
  | Diverge => (Diverge, h)
  end.

Definition LoadCache (file : option bytes) (expectedTxID : Z) : RM unit :=
  '(data, header) ← pure (ReadFile file TypeRadix expectedTxID);
  root ← on_nodes (uncacheNodes data (int64 (ch_EntryCount header)));
  set_root root ;;
  clearDirty.
End Cache.

Implicit Types (p q : list gostring) (k : gostring).
Implicit Types (h : list Node) (N : gmap path nat) (E P : directory) (a : nat).

(** ** Reading what was written *)

Lemma read_put j v R : read_uint j (le_bytes j v ++ R) = (Ok (v mod 2 ^ (8 * Z.of_nat j)), R).
Proof.
  unfold read_uint. rewrite <- (length_le_bytes j v) at 1. by rewrite (bind_ok _ _ _ _ _ (ReadFull_app _ _)), le_value_bytes.
Qed.

Lemma read_put16 v R : is_uint16 v -> read_uint 2 (put16 v ++ R) = (Ok v, R).
Proof. intros Hv. unfold put16. rewrite read_put. by rewrite Z.mod_small. Qed.

Lemma read_put32 v R : is_uint32 v -> read_uint 4 (put32 v ++ R) = (Ok v, R).
Proof. intros Hv. unfold put32. rewrite read_put. by rewrite Z.mod_small. Qed.

Lemma read_put64 v R : is_uint64 v -> read_uint 8 (put64 v ++ R) = (Ok v, R).
Proof. intros Hv. unfold put64. rewrite read_put. by rewrite Z.mod_small. Qed.

Definition is_int32 (z : Z) : Prop := - 2 ^ 31 <= z < 2 ^ 31.

Lemma read_put_int32 v R : is_int32 v -> read_int32 (put32 v ++ R) = (Ok v, R).
Proof.
  intros Hv. unfold read_int32, put32. rewrite (bind_ok _ _ _ _ _ (read_put _ _ _)). change (8 * Z.of_nat 4) with 32.
  unfold mret, M_ret. do 2 f_equal. unfold int32, is_int32 in *. rewrite Zplus_mod_idemp_l, Z.mod_small; lia.
Qed.

Lemma read_indices_run vs R : Forall is_int32 vs -> read_indices (length vs) ((vs ≫= put32) ++ R) = (Ok vs, R).
Proof.
  induction 1 as [|v vs Hv _ IH]; [done |]. cbn [mbind list_bind length read_indices]. rewrite <- app_assoc.
  by rewrite (bind_ok _ _ _ _ _ (read_put_int32 _ _ Hv)), (bind_ok _ _ _ _ _ IH).
Qed.

Lemma Reader_Read_app key c R : Reader_Read (length key) (key ++ [c] ++ R) = (Ok key, [c] ++ R).
Proof.
  unfold Reader_Read. rewrite decide_False by (by intros [_ ?]%app_eq_nil). unfold GoBinary.pad.
  rewrite take_app_length, drop_app_length. rewrite !length_app. replace (length key - _)%nat with 0%nat by lia.
  cbn [zeros replicate]. by rewrite app_nil_r.
Qed.

Section RoundTrip.
Context {UT : UnicodeTables} {MI : MapIteration}.

Definition child_positions (index : gmap nat Z) (n : Node) : list Z :=
  (fun kc => default (-1) (index !! kc.2)) <$> children_of n.

(** What is read for a node. *)
Definition cached (index : gmap nat Z) (n : Node) : cached_node :=
  (mkNode (Key n) ∅ ∅ (HasEntry n) (n_PageID n) (n_SlotID n) None (SubtreeCount n), cache_parent index n, child_positions index n).

Definition narrow (n : Node) : Prop :=
  len (Key n) <= 65535 /\ len (children_of n) <= 65535 /\ is_uint64 (n_PageID n) /\ is_uint16 (n_SlotID n) /\ is_uint32 (SubtreeCount n).

Lemma read_cached_run index n R :
  narrow n -> child_nodes n = (children_of n).*2 -> (forall a i, index !! a = Some i -> is_int32 i) ->
  read_cached (serialize_cached index n ++ R) = (Ok (cached index n), R).
Proof.
  intros (Hkey & Hch & Hpg & Hsl & Hcnt) Hcn Hix.
  assert (forall a, is_int32 (default (-1) (index !! a))) as Hd.
  { intros a. destruct (index !! a) eqn:E; [by eapply Hix | done]. }
  assert (is_int32 (cache_parent index n)) as Hpar by (unfold cache_parent; destruct (Parent n); [apply Hd | done]).
  assert (len (child_nodes n) = len (children_of n)) as Hcl by (rewrite Hcn; unfold len; by rewrite length_fmap).
  pose proof (len_nonneg (Key n)). pose proof (len_nonneg (children_of n)).
  unfold serialize_cached, uint16. rewrite Hcl, !Z.mod_small by lia. rewrite <- !app_assoc. unfold read_cached.
  rewrite (bind_ok _ _ _ _ _ (read_put16 (len (Key n)) _ ltac:(split; lia))).
  replace (Z.to_nat (len (Key n))) with (length (Key n)) by (unfold len; lia).
  rewrite (bind_ok _ _ _ _ _ (Reader_Read_app _ _ _)). cbn [app]. erewrite bind_ok by reflexivity.
  rewrite (bind_ok _ _ _ _ _ (read_put64 _ _ Hpg)), (bind_ok _ _ _ _ _ (read_put16 _ _ Hsl)).
  rewrite (bind_ok _ _ _ _ _ (read_put32 _ _ Hcnt)), (bind_ok _ _ _ _ _ (read_put_int32 _ _ Hpar)).
  rewrite (bind_ok _ _ _ _ _ (read_put16 (len (children_of n)) _ ltac:(split; lia))).
  replace (child_nodes n ≫= (fun c => put32 (default (-1) (index !! c)))) with (child_positions index n ≫= put32).
  2:{ rewrite Hcn. unfold child_positions. clear. induction (children_of n) as [|kc cs IH]; [done |]. rewrite !fmap_cons. cbn [mbind list_bind]. f_equal. exact IH. }
  replace (Z.to_nat (len (children_of n))) with (length (child_positions index n)) by (unfold child_positions, len; rewrite length_fmap; lia).
  assert (Forall is_int32 (child_positions index n)) as Hcp by (unfold child_positions; apply Forall_fmap, Forall_true; intros; apply Hd).
  rewrite (bind_ok _ _ _ _ _ (read_indices_run _ _ Hcp)).
  unfold mret, M_ret, cached. do 4 f_equal. by destruct (HasEntry n).
Qed.

Lemma cacheIndex_snoc l a : cacheIndex (l ++ [a]) = <[a := int32 (len l)]> (cacheIndex l).
Proof. unfold cacheIndex. rewrite imap_app, foldl_app. cbn. by rewrite Nat.add_0_r. Qed.

Lemma int32_small z : is_int32 z -> int32 z = z.
Proof. unfold is_int32, int32. intros Hz. rewrite Z.mod_small; lia. Qed.

Lemma cacheIndex_run l i a : NoDup l -> len l < 2 ^ 31 -> l !! i = Some a -> cacheIndex l !! a = Some (Z.of_nat i).
Proof.
  intros Hnd Hl. revert i. induction l as [|b l IH] using rev_ind; intros i Hi; [done |]. lens.
  rewrite cacheIndex_snoc. apply NoDup_app in Hnd as (Hnd & Hnew & _). apply lookup_snoc_Some in Hi as [[Hlt Hi]|[-> ->]].
  - rewrite lookup_insert_ne; [apply IH; [done | lia | done] |]. intros <-. apply (Hnew b); [by eapply list_elem_of_lookup_2 | by left].
  - rewrite lookup_insert_eq. f_equal. unfold len in *. apply int32_small. unfold is_int32. lia.
Qed.

Lemma cacheIndex_range l a i : len l < 2 ^ 31 -> cacheIndex l !! a = Some i -> is_int32 i.
Proof.
  intros Hl. induction l as [|b l IH] using rev_ind; [done |]. lens. rewrite cacheIndex_snoc.
  intros [[_ <-]|[_ Ha]]%lookup_insert_Some; [| apply IH; [lia | done]]. unfold is_int32, int32.
  pose proof (Z.mod_pos_bound (len l + 2 ^ 31) (2 ^ 32)). lia.
Qed.

(** ** The nodes of a tree *)

Section Written.
Context (h : list Node) (N : gmap path nat) (E : directory) (cnt : path -> Z) (root : nat).
Context (l : list (path * (nat * Node))).
Hypothesis Hs : shape h N E cnt root.
Hypothesis Hb : bfs N h l [].
Hypothesis Hlen : len l < 2 ^ 31.
Hypothesis Hnarrow : Forall narrow (nodes l).

Let index := cacheIndex (addresses l).
Let all := cached index <$> nodes l.

Lemma len_addresses : len (addresses l) = len l.
Proof. unfold addresses, len. by rewrite length_fmap. Qed.

Lemma cache_position j c : addresses l !! j = Some c -> index !! c = Some (Z.of_nat j).
Proof. intros Hj. apply cacheIndex_run; [by eapply bfs_nodup_addresses | by rewrite len_addresses | done]. Qed.

Lemma serialize_cached_run : serialize_cached_all index (addresses l) h = (Ok (nodes l ≫= serialize_cached index), h).
Proof.
  pose proof (bfs_at _ _ _ _ Hb) as Hat. rewrite app_nil_r in Hat. unfold nodes. generalize index. clear -Hat. intros index.
  induction Hat as [|x l [_ Hx] _ IH]; [done |]. unfold addresses. rewrite !fmap_cons. cbn [serialize_cached_all mbind list_bind].
  fold (addresses l). by rewrite (bind_ok _ _ _ _ _ (load_run _ _ _ Hx)), (bind_ok _ _ _ _ _ IH).
Qed.

Lemma bfs_child_nodes : Forall (fun n => child_nodes n = (children_of n).*2) (nodes l).
Proof.
  pose proof (bfs_at _ _ _ _ Hb) as Hat. rewrite app_nil_r in Hat. unfold nodes. apply Forall_fmap. eapply Forall_impl; [exact Hat |].
  intros x Hx. exact (child_nodes_run _ _ _ _ _ _ _ Hs (at_path_ok _ _ _ _ _ _ _ Hs Hx)).
Qed.

Lemma read_cached_all_run R : read_all_cached (length l) ((nodes l ≫= serialize_cached index) ++ R) = (Ok all, R).
Proof.
  pose proof bfs_child_nodes as Hc. assert (forall a i, index !! a = Some i -> is_int32 i) as Hix.
  { intros a i. apply cacheIndex_range. by rewrite len_addresses. }
  unfold all. replace (length l) with (length (nodes l)) by (unfold nodes; by rewrite length_fmap).
  pose proof Hnarrow as Hna. clear -Hna Hc Hix. induction Hna as [|n ns Hn _ IH]; [done |]. apply Forall_cons in Hc as [Hc1 Hc].
  cbn [mbind list_bind length read_all_cached]. rewrite <- app_assoc.
  by rewrite (bind_ok _ _ _ _ _ (read_cached_run _ _ _ Hn Hc1 Hix)), (bind_ok _ _ _ _ _ (IH Hc)).
Qed.

Definition cache_data : bytes := put32 (len l) ++ (nodes l ≫= serialize_cached index).

Lemma cacheNodes_run : cacheNodes (addresses l) h = (Ok cache_data, h).
Proof.
  unfold cacheNodes. fold index. rewrite (bind_ok _ _ _ _ _ serialize_cached_run), len_addresses. unfold uint32.
  pose proof (len_nonneg l). by rewrite Z.mod_small by lia.
Qed.

Lemma decode_run : decode_nodes (len l) cache_data = Ok all.
Proof.
  unfold decode_nodes, cache_data. pose proof (len_nonneg l) as Hl0.
  rewrite decide_False by (rewrite len_app, len_put32; pose proof (len_nonneg (nodes l ≫= serialize_cached index)); lia).
  rewrite (bind_ok _ _ _ _ _ (read_put32 (len l) _ ltac:(split; lia))), decide_False by naive_solver.
  rewrite <- (app_nil_r (_ ≫= _)). replace (Z.to_nat (len l)) with (length l) by (unfold len; lia). by rewrite read_cached_all_run.
Qed.

Lemma len_serialize_cached n : narrow n -> child_nodes n = (children_of n).*2 -> len (serialize_cached index n) <= 2 ^ 20.
Proof.
  intros (Hk & Hc & _) Hcn. unfold serialize_cached. rewrite Hcn, !len_app, !len_put16, len_put64, !len_put32.
  assert (forall cs : list nat, len (cs ≫= fun c => put32 (default (-1) (index !! c))) = 4 * len cs) as Hf.
  { induction cs as [|c cs IH]; [done |]. cbn [mbind list_bind]. rewrite len_app, len_put32, len_cons. lia. }
  rewrite Hf. replace (len (children_of n).*2) with (len (children_of n)) by (unfold len; by rewrite length_fmap).
  change (len [_]) with 1. lia.
Qed.

Lemma len_cache_data : len cache_data < 2 ^ 63.
Proof.
  assert (len (nodes l ≫= serialize_cached index) <= 2 ^ 20 * len (nodes l)) as Hbound.
  { pose proof bfs_child_nodes as Hc. pose proof len_serialize_cached as Hone. pose proof Hnarrow as Hna. clear -Hna Hc Hone.
    induction Hna as [|n ns Hn _ IH]; [done |]. apply Forall_cons in Hc as [Hc1 Hc]. cbn [mbind list_bind].
    rewrite len_app, len_cons. specialize (IH Hc). specialize (Hone n Hn Hc1). lia. }
  replace (len (nodes l)) with (len l) in Hbound by (unfold nodes, len; by rewrite length_fmap).
  unfold cache_data. rewrite len_app, len_put32. lia.
Qed.

(** ** Links *)

Lemma cache_child_link base (ks : list (gostring * Z)) m :
  Forall (fun kc => 0 <= kc.2 /\ exists nd pi es, all !! Z.to_nat kc.2 = Some (nd, pi, es) /\ Key nd = kc.1 /\ kc.1 <> []) ks ->
  foldl (cache_child base all) m ks.*2 =
  foldl (link_child base ((fun c : cached_node => (c.1, [])) <$> all)) m ((fun kc => (default x00 (List.hd_error kc.1), kc.2)) <$> ks).
Proof.
  intros Hks. revert m. induction Hks as [|[k z] ks (Hz & nd & pi & es & Hall & Hkey & Hne) _ IH]; intros m; [done |]. cbn in Hz, Hall, Hkey, Hne.
  rewrite !fmap_cons. cbn [foldl]. rewrite IH. f_equal. cbn [fst snd] in *. unfold cache_child, link_child. cbn [fst snd].
  rewrite decide_True by lia. rewrite Hall.
  assert (((fun c : cached_node => (c.1, @nil (byte * Z))) <$> all) !! Z.to_nat z = Some (nd, pi, [])) as ->.
  { rewrite list_lookup_fmap. exact (f_equal (fmap _) Hall). }
  rewrite Hkey. by destruct k.
Qed.

Definition cache_placed (n : Node) : list (gostring * Z) := (fun kc => (kc.1, default (-1) (index !! kc.2))) <$> children_of n.

Lemma elem_of_cache_placed p n k z : node_ok N E cnt p n ->
  (k, z) ∈ cache_placed n <-> exists c j, (k, c) ∈ children_of n /\ addresses l !! j = Some c /\ z = Z.of_nat j.
Proof.
  intros Hok. unfold cache_placed. rewrite list_elem_of_fmap. split.
  - intros ([k' c] & Heq & Hin). injection Heq as -> ->. pose proof Hin as Hc. eapply elem_of_children in Hc; [| done].
    destruct (position _ _ _ _ _ _ Hs Hb _ _ Hc) as (j & _ & Hj). exists c, j. by rewrite (cache_position _ _ Hj).
  - intros (c & j & Hin & Hj & ->). exists (k, c). cbn. by rewrite (cache_position _ _ Hj).
Qed.

Lemma all_cached_lookup i : all !! i = (fun x => cached index x.2.2) <$> l !! i.
Proof. unfold all, nodes. by rewrite !list_lookup_fmap, <- option_fmap_compose. Qed.

Lemma cache_placed_ok p n : node_ok N E cnt p n ->
  Forall (fun kc => 0 <= kc.2 /\ exists nd pi es, all !! Z.to_nat kc.2 = Some (nd, pi, es) /\ Key nd = kc.1 /\ kc.1 <> []) (cache_placed n)
  /\ NoDup (cache_placed n).*1.
Proof.
  intros Hok. split.
  - apply Forall_forall. intros [k z] Hin. eapply elem_of_cache_placed in Hin as (c & j & Hin & Hj & ->); [| done]. cbn. split; [lia |].
    eapply elem_of_children in Hin; [| done]. pose proof (position_path _ _ _ _ _ _ Hs Hb _ _ _ Hin Hj) as Hjp.
    destruct (lookup_path _ _ _ _ _ _ Hs Hb _ _ Hjp) as (a & m & Hl & _ & _ & Hmok). rewrite Nat2Z.id, all_cached_lookup, Hl.
    eexists _, _, _. split_and!; [done | cbn; by eapply key_snoc |].
    by destruct (sh_closed _ _ _ _ _ Hs p k) as [_ Hk]; [eexists |].
  - unfold cache_placed. rewrite <- list_fmap_compose. apply range_keys.
Qed.

Lemma cache_relinked base p n : node_ok N E cnt p n -> relinked l base n (cache_link base all (cached index n)).
Proof.
  intros Hok. destruct (cache_placed_ok p n Hok) as [Hpl Hnd].
  unfold cache_link, cached. change (child_positions index n) with ((fun kc => default (-1) (index !! kc.2)) <$> children_of n).
  replace ((fun kc => default (-1) (index !! kc.2)) <$> children_of n) with (cache_placed n).*2
    by (unfold cache_placed; by rewrite <- list_fmap_compose).
  rewrite (cache_child_link base (cache_placed n) (∅, ∅) Hpl).
  pose proof (link_children base ((fun c : cached_node => (c.1, [])) <$> all) (cache_placed n)) as Hch. cbn zeta in Hch.
  specialize (Hch ltac:(eapply Forall_impl; [exact Hpl |]; intros kc (_ & nd & pi & es & Ha & Hk);
    exists nd, pi, []; split; [| exact Hk]; rewrite list_lookup_fmap; exact (f_equal (fmap _) Ha)) Hnd).
  destruct (foldl _ _ _) as [C K]. cbn [fst snd] in Hch. destruct Hch as (H1 & H2 & H3).
  assert (len all = len l) as Hall by (unfold all, nodes, len; by rewrite !length_fmap).
  constructor; cbn; [done | done | done | apply (ok_range _ _ _ _ _ Hok) | | | | |].
  - intros Hp. unfold cache_parent. rewrite Hp. by rewrite decide_False by lia.
  - intros b j Hp Hj. unfold cache_parent. rewrite Hp, (cache_position _ _ Hj). cbn.
    pose proof (lookup_lt_Some _ _ _ Hj) as Hlt. unfold addresses in Hlt. rewrite length_fmap in Hlt.
    by rewrite decide_True, Nat2Z.id by (rewrite Hall; unfold len; lia).
  - intros k x. rewrite H1. split.
    + intros (z & Hz & ->). eapply elem_of_cache_placed in Hz as (c & j & Hc & Hj & ->); [| done]. exists c, j. by rewrite Nat2Z.id.
    + intros (c & j & Hc & Hj & ->). exists (Z.of_nat j). rewrite Nat2Z.id. split; [| done]. eapply elem_of_cache_placed; [done |]. by exists c, j.
  - intros b x Hx. apply H2 in Hx as (k & z & Hz & Hkb & ->). eapply elem_of_cache_placed in Hz as (c & j & Hc & Hj & ->); [| done].
    exists k, c, j. by rewrite Nat2Z.id.
  - intros k c b Hin Hkb. pose proof Hin as Hc. eapply elem_of_children in Hc; [| done].
    destruct (position _ _ _ _ _ _ Hs Hb _ _ Hc) as (j & _ & Hj). apply (H3 k (Z.of_nat j)); [| done]. eapply elem_of_cache_placed; [done |]. by exists c, j.
Qed.

Lemma cache_shape h0 : shape (h0 ++ (cache_link (length h0) all <$> all)) (renumber (length h0) l) E cnt (length h0).
Proof.
  eapply relink_shape; [done.. |]. intros i x Hx. exists (cache_link (length h0) all (cached index x.2.2)). split.
  - by rewrite list_lookup_fmap, all_cached_lookup, Hx.
  - apply (cache_relinked _ x.1). apply (at_path_ok _ _ _ _ _ _ _ Hs). by eapply bfs_lookup.
Qed.

Lemma uncacheNodes_run h0 :
  uncacheNodes cache_data (len l) h0 = (Ok (length h0), h0 ++ (cache_link (length h0) all <$> all)).
Proof.
  unfold uncacheNodes. rewrite decode_run. assert (all <> []) as Hall; [| by destruct all].
  unfold all, nodes. intros Ea%fmap_nil_inv%fmap_nil_inv. pose proof (bfs_order _ _ _ _ Hb) as Ho. by rewrite Ea in Ho.
Qed.
End Written.

(** ** Saving and loading *)

(** The paths one component below [p]. *)
Definition children_at (E : directory) (p : path) : gset path :=
  filter (fun q => length q = S (length p) /\ p `prefix_of` q) (paths E).

(** What the integers of the file can hold. *)
Record cachable (E : directory) : Prop := mkCachable {
  ca_nodes : Z.of_nat (size (paths E)) < 2 ^ 31;
  ca_keys p k : p ∈ paths E -> k ∈ p -> len k <= 65535;
  ca_children p : Z.of_nat (size (children_at E p)) <= 65535
}.

Lemma bfs_narrow h N E root l :
  shape h N E (count E) root -> lean N E -> bfs N h l [] -> cachable E -> Z.of_nat (size E) < 2 ^ 32 -> Forall narrow (nodes l).
Proof.
  intros Hs Hle Hb [_ Hkeys Hch] HE. pose proof (bfs_at _ _ _ _ Hb) as Hat. rewrite app_nil_r in Hat. unfold nodes. apply Forall_fmap.
  eapply Forall_impl; [exact Hat |]. intros [p [a n]] Hx. cbn in Hx |- *. pose proof (at_path_ok _ _ _ _ _ _ _ Hs Hx) as Hok. cbn in Hok.
  destruct Hx as [HN _]. cbn in HN.
  assert (p ∈ paths E) as Hp by (eapply lean_paths; [exact Hs | exact Hle | by eexists]). split_and!.
  - rewrite (ok_key _ _ _ _ _ Hok). destruct (last p) as [k|] eqn:Ek; [| done]. cbn. apply (Hkeys p k Hp).
    apply last_Some in Ek as [q ->]. apply elem_of_app. right. by left.
  - etransitivity; [| apply (Hch p)]. unfold len. apply inj_le. rewrite <- (length_fmap (fun kc => p ++ [kc.1])). fold (kids n p).
    rewrite <- (size_list_to_set (C := gset path)) by by eapply NoDup_kids. apply subseteq_size. intros q Hq.
    apply elem_of_list_to_set in Hq. eapply elem_of_kids in Hq as (k & -> & Hk); [| exact Hok].
    apply elem_of_filter. split_and!; [rewrite length_app; cbn; lia | by exists [k] |]. by eapply lean_paths.
  - apply (ok_range _ _ _ _ _ Hok).
  - apply (ok_range _ _ _ _ _ Hok).
  - rewrite (ok_count _ _ _ _ _ Hok). pose proof (count_range E p). unfold is_uint32. lia.
Qed.

Lemma bfs_nodes h N E root l : shape h N E (count E) root -> lean N E -> bfs N h l [] -> length l = size (paths E).
Proof.
  intros Hs Hle Hb. rewrite <- (length_fmap fst), <- (size_list_to_set (C := gset path)) by by eapply bfs_nodup_paths. f_equal.
  apply set_eq. intros p. rewrite elem_of_list_to_set, <- (lean_paths _ _ _ _ _ _ Hs Hle). split.
  - intros (x & -> & Hx)%list_elem_of_fmap. pose proof (bfs_at _ _ _ _ Hb) as Hat. rewrite app_nil_r, Forall_forall in Hat.
    destruct (Hat x Hx) as [HN _]. by eexists.
  - intros HN. by eapply bfs_all.
Qed.

Section Tree.
Context (disk_limit : Z).

Lemma LoadCache_error f tx e t : ReadFile f TypeRadix tx = Err e -> LoadCache f tx t = (Err e, t).
Proof. intros Hr. unfold LoadCache, pure. by rewrite Hr. Qed.

Lemma SaveCache_run t E P F tx :
  tree disk_limit t E P F -> cachable E -> is_uint64 tx ->
  exists f, SaveCache tx t = (Ok f, t) /\
    (forall t2 E2 P2 F2, tree disk_limit t2 E2 P2 F2 -> exists t3,
      LoadCache (Some f) tx t2 = (Ok tt, t3) /\ tree disk_limit t3 E P2 F2 /\ r_dirty t3 = false) /\
    (forall t2 (k : nat) tx2, tx2 <> tx \/ (k < length f)%nat -> exists e, LoadCache (Some (take k f)) tx2 t2 = (Err e, t2)) /\
    (forall t2 tx2, tx2 <> tx -> LoadCache (Some f) tx2 t2 = (Err ErrStaleTxID, t2)).
Proof.
  intros [(N & Hs & Hle) HE _ _] Hca Htx. destruct (CollectSubtree_run _ _ _ _ _ Hs) as (l & Hcol & Hb).
  pose proof (bfs_narrow _ _ _ _ _ Hs Hle Hb Hca HE) as Hna. pose proof (bfs_nodes _ _ _ _ _ Hs Hle Hb) as Hln.
  assert (len l < 2 ^ 31) as Hlen by (unfold len; rewrite Hln; apply Hca). pose proof (len_nonneg l) as Hl0.
  pose proof (len_cache_data _ _ _ _ _ _ Hs Hb Hlen Hna) as Hd.
  exists (WriteFile TypeRadix (cache_data l) (len l) tx).
  assert (is_uint64 (len l)) as Hn64 by (unfold is_uint64; lia).
  pose proof (cache_roundtrip TypeRadix (len l) tx (cache_data l) Hn64 Htx Hd TypeRadix) as Hread. split_and!.
  - unfold SaveCache. erewrite bind_ok by reflexivity. rewrite (bind_ok _ _ _ _ _ (on_nodes_read _ _ _ Hcol)).
    rewrite (bind_ok _ _ _ _ _ (on_nodes_read _ _ _ (cacheNodes_run _ _ _ Hb Hlen))). by rewrite len_addresses.
  - intros t2 E2 P2 F2 [_ _ Hpg Hfor]. eexists. split; [| split].
    + unfold LoadCache. rewrite Hread. rewrite (decide_False (P := TypeRadix <> TypeRadix)), (decide_False (P := tx <> tx)) by (intros HH; by apply HH).
      erewrite bind_ok by reflexivity. cbn [ch_EntryCount written NewHeader].
      assert (int64 (len l) = len l) as -> by (unfold int64; rewrite Z.mod_small; lia).
      rewrite (bind_ok _ _ _ _ _ (on_nodes_run _ _ _ _ (uncacheNodes_run _ _ _ _ _ _ Hs Hb Hlen Hna (r_nodes t2)))). reflexivity.
    + constructor; cbn; [| done | done | done]. eexists. split; [by eapply cache_shape |]. by eapply relink_lean.
    + done.
  - intros t2 k tx2 Hk.
    pose proof (cache_read TypeRadix (len l) tx (cache_data l) Hn64 Htx Hd k TypeRadix tx2) as Hread2.
    assert (forall x : bytes * CacheHeader, ReadFile (Some (take k (WriteFile TypeRadix (cache_data l) (len l) tx))) TypeRadix tx2 <> Ok x) as Hno.
    { intros x. rewrite Hread2. repeat case_decide; try done. destruct Hk as [?|Hk]; [congruence |].
      unfold WriteFile in Hk. rewrite length_app, length_cache_header in Hk. lia. }
    assert (exists e, ReadFile (Some (take k (WriteFile TypeRadix (cache_data l) (len l) tx))) TypeRadix tx2 = Err e) as [e He].
    { rewrite Hread2 in *. repeat case_decide; try by eexists. by destruct (Hno (cache_data l, written TypeRadix (len l) tx (cache_data l))). }
    exists e. by apply LoadCache_error.
  - intros t2 tx2 Hne. apply LoadCache_error. rewrite Hread. rewrite (decide_False (P := TypeRadix <> TypeRadix)), (decide_True (P := tx <> tx2)) by congruence. done.
Qed.
End Tree.
End RoundTrip.
