(* ===== verification/RadixTheorems.v ===== *)
(** * The radix tree: properties *)

From S2P Require Import Prelude GoBinary GoStrings Page PageStore PageReopen PageTheorems.
From S2P Require Import CacheFile RadixNode RadixPage RadixTree RadixShape RadixOps RadixWalk RadixPersist RadixMap RadixDN RadixCache.

(** ** The tree against a map of names *)

Inductive radix_op :=
| OInsert (dn : gostring) (pageID slotID : Z)
| ODelete (dn : gostring)
| OUpdate (dn : gostring) (pageID slotID : Z)
| OClear
| OPersist
| OReopen
| OLookup (dn : gostring)
| OExists (dn : gostring)
| OCount (dn : gostring)
| OTotal
| OHasChildren (dn : gostring)
| OChildren (dn : gostring)
| OAllChildren (dn : gostring)
| OSubtree (base : gostring)
| OLevel (base : gostring)
| OSearch (dn : gostring) (scope : Z).

Inductive radix_result :=
| RUnit
| RLoc (loc : option (Z * Z))
| RBool (b : bool)
| RNum (n : Z)
| RNames (l : list gostring)
| REntries (l : list IteratorEntry).

Section Run.
Context {UT : UnicodeTables} {MI : MapIteration}.

(** A callback that keeps what it is told. *)
Definition gather : EntryIterator (list IteratorEntry) := fun dn pg sl l => (true, l ++ [(dn, pg, sl)]).

Definition exec (op : radix_op) : RM radix_result :=
  match op with
  | OInsert dn pg sl => Insert dn pg sl ;; mret RUnit
  | ODelete dn => Delete dn ;; mret RUnit
  | OUpdate dn pg sl => Update dn pg sl ;; mret RUnit
  | OClear => Clear ;; mret RUnit
  | OPersist => Persist ;; mret RUnit
  | OReopen => fun t =>
      match NewRadixTreeWithRoot (r_pageManager t) (r_rootPageID t) with
      | Ok t' => (Ok RUnit, t')
      | Err e => (Err e, t)
      | Panic => (Panic, t)
      | Diverge => (Diverge, t)
      end
  | OLookup dn => r ← Lookup dn; mret (RLoc r)
  | OExists dn => r ← Exists dn; mret (RBool r)
  | OCount dn => r ← GetSubtreeCount dn; mret (RNum r)
  | OTotal => r ← EntryCount; mret (RNum r)
  | OHasChildren dn => r ← HasChildren dn; mret (RBool r)
  | OChildren dn => r ← GetChildren dn; mret (RNames r)
  | OAllChildren dn => r ← GetAllChildren dn; mret (RNames r)
  | OSubtree base => r ← IterateSubtree base gather []; mret (REntries r)
  | OLevel base => r ← IterateOneLevelChildren base gather []; mret (REntries r)
  | OSearch dn scope => r ← (it ← Iterator dn scope; Collect it); mret (REntries r)
  end.

(** The reference: the entries by their paths, the entries on the page, and whether they
    were changed since the last [Persist]. *)
Record directories := mkDirs { d_now : directory; d_page : directory; d_dirty : bool }.

Definition change (d : directories) (E : directory) : directories := mkDirs E (persisted E (d_page d)) true.

Definition next (op : radix_op) (d : directories) : directories :=
  let E := d_now d in
  match op with
  | OInsert dn pg sl =>
      match ParseDN dn with
      | Ok p => match E !! p with None => change d (<[p := (pg, sl)]> E) | Some _ => d end
      | _ => d
      end
  | ODelete dn =>
      match ParseDN dn with
      | Ok p => match E !! p with Some _ => change d (delete p E) | None => d end
      | _ => d
      end
  | OUpdate dn pg sl =>
      match ParseDN dn with
      | Ok p => match E !! p with Some _ => change d (<[p := (pg, sl)]> E) | None => d end
      | _ => d
      end
  | OClear => mkDirs ∅ ∅ true
  | OPersist => if d_dirty d then mkDirs E (persisted E (d_page d)) (bool_decide (PageSize < index_size E)) else d
  | OReopen => mkDirs (d_page d) (d_page d) false
  | _ => d
  end.

(** Names and entries are returned in any order. *)
Definition names_of (r : outcome radix_result) (p : outcome path) (f : path -> directory) : Prop :=
  match p with
  | Ok p => exists l, r = Ok (RNames l) /\ l ≡ₚ dn_of <$> map_to_list (f p)
  | Err e => r = Err e
  | _ => False
  end.

Definition entries_of (r : outcome radix_result) (p : outcome path) (f : path -> list IteratorEntry) : Prop :=
  match p with
  | Ok p => exists l, r = Ok (REntries l) /\ l ≡ₚ f p
  | Err e => r = Err e
  | _ => False
  end.

Definition expected (op : radix_op) (E : directory) (r : outcome radix_result) : Prop :=
  match op with
  | OInsert dn _ _ => r = (p ← ParseDN dn; match E !! p with Some _ => Err ErrEntryExists | None => Ok RUnit end)
  | ODelete dn | OUpdate dn _ _ =>
      r = (p ← ParseDN dn; match E !! p with Some _ => Ok RUnit | None => Err ErrEntryNotFound end)
  | OClear | OPersist | OReopen => r = Ok RUnit
  | OLookup dn => r = Ok (RLoc (match ParseDN dn with Ok p => E !! p | _ => None end))
  | OExists dn => r = Ok (RBool (match ParseDN dn with Ok p => bool_decide (is_Some (E !! p)) | _ => false end))
  | OCount dn => r = (p ← ParseDN dn; Ok (RNum (count E p)))
  | OTotal => r = Ok (RNum (Z.of_nat (size E)))
  | OHasChildren dn => r = (p ← ParseDN dn; Ok (RBool (bool_decide (strictly p E <> ∅))))
  | OChildren dn => names_of r (ParseDN dn) (fun p => one_below p E)
  | OAllChildren dn => names_of r (ParseDN dn) (fun p => strictly p E)
  | OSubtree base => entries_of r (base_path base) (fun p => render <$> map_to_list (below p E))
  | OLevel base => entries_of r (base_path base) (fun p => render <$> map_to_list (one_below p E))
  | OSearch dn scope => entries_of r (ParseDN dn) (fun p => scope_entries E dn p scope)
  end.

(** Arguments at the width of their types. *)
Definition typed (op : radix_op) : Prop :=
  match op with
  | OInsert _ pg sl | OUpdate _ pg sl => is_uint64 pg /\ is_uint16 sl
  | _ => True
  end.

Fixpoint radix_run (t : RadixTree) (d : directories) (ops : list radix_op) : Prop :=
  match ops with
  | [] => True
  | op :: ops => let '(r, t') := exec op t in expected op (d_now d) r /\ radix_run t' (next op d) ops
  end.

Lemma visit_gather l x : visit gather l x = (true, x ++ (render <$> l)).
Proof.
  revert x. induction l as [|[p [pg sl]] l IH]; intros x; cbn; [by rewrite app_nil_r |]. rewrite IH. by rewrite <- app_assoc.
Qed.

Lemma base_path_returns dn : returns (base_path dn).
Proof. unfold base_path. destruct (bytes_eqb dn []); [done | apply ParseDN_returns]. Qed.

Section Steps.
Context (disk_limit : Z) (Hlimit : disk_limit < 2 ^ 62) (F : gmap Z Page).

Definition represents (t : RadixTree) (d : directories) : Prop :=
  tree disk_limit t (d_now d) (d_page d) F /\ r_dirty t = d_dirty d.

Definition is_change (op : radix_op) : bool :=
  match op with OInsert _ _ _ | ODelete _ | OUpdate _ _ _ | OClear | OPersist | OReopen => true | _ => false end.

Lemma change_step t d op :
  represents t d -> typed op -> Z.of_nat (size (d_now d)) + 1 < 2 ^ 32 ->
  is_change op = true ->
  exists r t', exec op t = (r, t') /\ expected op (d_now d) r /\ represents t' (next op d).
Proof.
  intros [Ht Hd] Hty HE Hop. destruct op; try done; cbn [exec expected next typed] in *.
  - destruct (radix_Insert_run disk_limit Hlimit _ _ _ _ dn pageID slotID Ht) as (r & t' & Hrun & _ & Hspec); [apply Hty | apply Hty | done |].
    exists (match r with Ok _ => Ok RUnit | Err e => Err e | Panic => Panic | Diverge => Diverge end), t'.
    rewrite bind_run, Hrun. destruct (ParseDN dn) as [p|e| |]; try done; cbn.
    + destruct (d_now d !! p); destruct Hspec as (-> & Ht' & Hd'); (split_and!; [done | done |]); (split; [done | cbn; congruence]).
    + destruct Hspec as [-> ->]. split_and!; [done | done |]. by split.
  - destruct (Delete_run disk_limit Hlimit _ _ _ _ dn Ht) as (r & t' & Hrun & _ & Hspec).
    exists (match r with Ok _ => Ok RUnit | Err e => Err e | Panic => Panic | Diverge => Diverge end), t'.
    rewrite bind_run, Hrun. destruct (ParseDN dn) as [p|e| |]; try done; cbn.
    + destruct (d_now d !! p); [destruct Hspec as (-> & Ht' & Hd') | destruct Hspec as [-> ->]]; (split_and!; [done | done |]); by split.
    + destruct Hspec as [-> ->]. split_and!; [done | done |]. by split.
  - destruct (Update_run disk_limit Hlimit _ _ _ _ dn pageID slotID Ht) as (r & t' & Hrun & _ & Hspec); [apply Hty | apply Hty |].
    exists (match r with Ok _ => Ok RUnit | Err e => Err e | Panic => Panic | Diverge => Diverge end), t'.
    rewrite bind_run, Hrun. destruct (ParseDN dn) as [p|e| |]; try done; cbn.
    + destruct (d_now d !! p); [destruct Hspec as (-> & Ht' & Hd') | destruct Hspec as [-> ->]]; (split_and!; [done | done |]); by split.
    + destruct Hspec as [-> ->]. split_and!; [done | done |]. by split.
  - destruct (radix_Clear_run disk_limit Hlimit _ _ _ _ Ht) as (t' & Hrun & Ht' & _ & Hd'). exists (Ok RUnit), t'.
    rewrite (bind_ok _ _ _ _ _ Hrun). by split_and!.
  - destruct (Persist_run disk_limit Hlimit _ _ _ _ Ht) as (t' & Hrun & Ht' & _ & Hd'). exists (Ok RUnit), t'.
    rewrite (bind_ok _ _ _ _ _ Hrun). split_and!; [done | done |]. rewrite Hd in Ht', Hd'.
    destruct (d_dirty d) eqn:Hdd; split; cbn; try done; by rewrite Hdd.
  - destruct (radix_reopen_run disk_limit Hlimit _ _ _ _ Ht) as (t' & -> & Ht' & _ & Hd'). exists (Ok RUnit), t'. by split_and!.
Qed.

Lemma read_step t d op :
  represents t d ->
  is_change op = false ->
  exists r, exec op t = (r, t) /\ expected op (d_now d) r.
Proof.
  intros [Ht Hd] Hop. destruct op as [| | | | | |dn|dn|dn| |dn|dn|dn|base|base|dn scope]; try done; cbn [exec expected].
  - rewrite (bind_ok _ _ _ _ _ (Lookup_run _ _ _ _ _ dn Ht)). by eexists.
  - unfold Exists. rewrite bind_run, (bind_ok _ _ _ _ _ (Lookup_run _ _ _ _ _ dn Ht)). eexists. split; [done |]. do 2 f_equal.
    destruct (ParseDN dn) as [p| | |]; try done. by destruct (d_now d !! p).
  - rewrite bind_run, (GetSubtreeCount_run _ _ _ _ _ dn Ht). pose proof (ParseDN_returns dn). destruct (ParseDN dn); try done; by eexists.
  - rewrite (bind_ok _ _ _ _ _ (EntryCount_run _ _ _ _ _ Ht)). by eexists.
  - rewrite bind_run, (HasChildren_run _ _ _ _ _ dn Ht). pose proof (ParseDN_returns dn). destruct (ParseDN dn); try done; by eexists.
  - pose proof (ParseDN_returns dn). destruct (ParseDN dn) as [p|e| |] eqn:Ep; try done; cbn.
    + destruct (GetChildren_run disk_limit Hlimit _ _ _ _ _ _ Ht Ep) as (l & Hl & Hperm). rewrite (bind_ok _ _ _ _ _ Hl). eexists. split; [done |]. by exists l.
    + unfold GetChildren, pure. rewrite Ep. by eexists.
  - pose proof (ParseDN_returns dn). destruct (ParseDN dn) as [p|e| |] eqn:Ep; try done; cbn.
    + destruct (GetAllChildren_run _ _ _ _ _ _ _ Ht Ep) as (l & Hl & Hperm). rewrite (bind_ok _ _ _ _ _ Hl). eexists. split; [done |]. by exists l.
    + unfold GetAllChildren, pure. rewrite Ep. by eexists.
  - pose proof (base_path_returns base). destruct (base_path base) as [p|e| |] eqn:Ep; try done; cbn.
    + destruct (IterateSubtree_run disk_limit gather _ _ _ _ _ _ [] Ht Ep) as (l & Hl & Hperm). rewrite visit_gather in Hl.
      rewrite (bind_ok _ _ _ _ _ Hl). eexists. split; [done |]. eexists. split; [done |]. cbn. by rewrite Hperm.
    + unfold IterateSubtree, start_node, pure. unfold base_path in Ep. destruct (bytes_eqb base []); [done |]. rewrite Ep. by eexists.
  - pose proof (base_path_returns base). destruct (base_path base) as [p|e| |] eqn:Ep; try done; cbn.
    + destruct (IterateOneLevelChildren_run disk_limit Hlimit gather _ _ _ _ _ _ [] Ht Ep) as (l & Hl & Hperm). rewrite visit_gather in Hl.
      rewrite (bind_ok _ _ _ _ _ Hl). eexists. split; [done |]. eexists. split; [done |]. cbn. by rewrite Hperm.
    + unfold IterateOneLevelChildren, start_node, pure. unfold base_path in Ep. destruct (bytes_eqb base []); [done |]. rewrite Ep. by eexists.
  - pose proof (ParseDN_returns dn). destruct (ParseDN dn) as [p|e| |] eqn:Ep; try done; cbn.
    + destruct (Collect_run disk_limit Hlimit _ _ _ _ _ _ scope Ht Ep) as (l & Hl & Hperm). rewrite (bind_ok _ _ _ _ _ Hl). eexists. split; [done |]. by exists l.
    + unfold Iterator, pure. rewrite Ep. by eexists.
Qed.

(** Directories grow by at most one entry per operation. *)
Definition load_of (d : directories) : Z := Z.max (Z.of_nat (size (d_now d))) (Z.of_nat (size (d_page d))).

Lemma change_load d E : Z.of_nat (size E) <= Z.of_nat (size (d_now d)) + 1 -> load_of (change d E) <= load_of d + 1.
Proof. intros Hsz. unfold load_of, change, persisted. cbn. case_decide; lia. Qed.

Lemma next_load op d : load_of (next op d) <= load_of d + 1.
Proof.
  assert (forall p e, Z.of_nat (size (<[p := e]> (d_now d))) <= Z.of_nat (size (d_now d)) + 1) as Hins.
  { intros p e. destruct (d_now d !! p) eqn:Ep; [rewrite map_size_insert_Some by by eexists | rewrite map_size_insert_None by done]; lia. }
  assert (forall p, Z.of_nat (size (delete p (d_now d))) <= Z.of_nat (size (d_now d)) + 1) as Hdel.
  { intros p. pose proof (map_subseteq_size _ _ (delete_subseteq (d_now d) p)). lia. }
  destruct op; cbn [next]; try lia.
  - destruct (ParseDN dn); try lia. destruct (_ !! _); [lia | by apply change_load].
  - destruct (ParseDN dn); try lia. destruct (_ !! _); [by apply change_load | lia].
  - destruct (ParseDN dn); try lia. destruct (_ !! _); [by apply change_load | lia].
  - unfold load_of. cbn [d_now d_page]. rewrite map_size_empty. lia.
  - destruct (d_dirty d); [| lia]. unfold load_of, persisted. cbn. case_decide; lia.
  - unfold load_of. cbn. lia.
Qed.

Lemma run_all ops : forall t d,
  represents t d -> Forall typed ops -> load_of d + len ops < 2 ^ 32 -> radix_run t d ops.
Proof.
  induction ops as [|op ops IH]; intros t d Hr Hty Hload; [done |]. apply Forall_cons in Hty as [Hop Hty]. cbn [radix_run].
  rewrite len_cons in Hload. pose proof (len_nonneg ops) as Hlen. pose proof (next_load op d) as Hnext.
  assert (exists r t', exec op t = (r, t') /\ expected op (d_now d) r /\ represents t' (next op d)) as (r & t' & -> & Hex & Hr').
  { assert (Z.of_nat (size (d_now d)) + 1 < 2 ^ 32) as HE by (unfold load_of in Hload; lia).
    destruct (is_change op) eqn:Hc; [by apply change_step |].
    destruct (read_step t d _ Hr Hc) as (r & Hrun & Hex). exists r, t. split_and!; [done | done |]. by destruct op. }
  split; [done |]. apply IH; [done | done | lia].
Qed.
End Steps.
End Run.

(** C17: the radix tree of distinguished names against a finite map from paths (the parsed
    components, root first) to locations. From a new tree, after any operations, every
    operation returns what the map says: insertion, removal and update with their errors;
    look-ups; the number of entries below a name; children and descendants; walks with a
    callback and iterators of every scope, each entry once, in an order that Go's maps leave
    open. Opening the tree again gives the last directory whose nodes fitted on the page. *)
Theorem radix_refines {UT : UnicodeTables} {MI : MapIteration} disk_limit pm F t ops :
  disk_limit < 2 ^ 62 -> Rep disk_limit pm F -> NewRadixTree disk_limit pm = Ok t ->
  Forall typed ops -> len ops < 2 ^ 32 ->
  radix_run t (mkDirs ∅ ∅ false) ops.
Proof.
  intros Hlim Hrep Hnew Hty Hlen. destruct (NewRadixTree_run disk_limit Hlim pm F t Hrep Hnew) as [Ht Hd].
  by apply (run_all disk_limit Hlim F).
Qed.

#[local] Instance example_tables : UnicodeTables := {| lower_unicode s := s; fold_unicode s t := bytes_eqb s t |}.
#[local] Instance example_order : MapIteration := {| range K _ _ V m := map_to_list m; range_perm K _ _ V m := reflexivity _ |}.

Module RadixExample.
Definition limit : Z := 2 ^ 40.
Definition opts : Options := mkOptions 0 4 true false.

(** Runs operations on a new tree in a new file. *)
Definition start : outcome RadixTree := pm ← OpenPageManager limit None opts; NewRadixTree limit pm.
Definition run {A} (m : RM A) : outcome A := t ← start; (m t).1.

Definition com : gostring := str "dc=com".
Definition users : gostring := str "ou=users,dc=com".
Definition alice : gostring := str "UID=alice, ou=users ,dc=com".
Definition bob : gostring := str "uid=bob,ou=users,dc=com".
Definition ops : list radix_op :=
  [OInsert com 5 0; OInsert alice 6 1; OInsert bob 7 2; OInsert bob 8 0; ODelete com; OCount com; OReopen;
   OSubtree []; OChildren users; OSearch com 2; OHasChildren com].

Fixpoint results (ops : list radix_op) : RM (list (outcome radix_result)) :=
  match ops with
  | [] => mret []
  | op :: ops => fun t => let '(r, t) := exec op t in (l ← results ops; mret (r :: l)) t
  end.
Definition answers : outcome (list (outcome radix_result)) :=
  let a := (str "uid=alice,ou=users,dc=com", 6, 1) in
  let b := (bob, 7, 2) in
  Ok [Ok RUnit; Ok RUnit; Ok RUnit; Err ErrEntryExists; Ok RUnit; Ok (RNum 2); Ok RUnit;
      Ok (REntries [a; b]); Ok (RNames [a.1.1; b.1.1]); Ok (REntries [a; b]); Ok (RBool true)].
End RadixExample.

Lemma radix_refines_witness :
  exists pm t, OpenPageManager RadixExample.limit None RadixExample.opts = Ok pm /\ NewRadixTree RadixExample.limit pm = Ok t
    /\ (RadixExample.results RadixExample.ops t).1 = RadixExample.answers
    /\ radix_run t (mkDirs ∅ ∅ false) RadixExample.ops.
Proof.
  set (r := OpenPageManager RadixExample.limit None RadixExample.opts).
  assert (match r with Ok pm => match NewRadixTree RadixExample.limit pm with Ok t => (RadixExample.results RadixExample.ops t).1 | _ => Panic end | _ => Panic end = RadixExample.answers) as E
    by (vm_compute; reflexivity).
  destruct r as [pm| | |] eqn:Er; [| discriminate E..].
  destruct (NewRadixTree RadixExample.limit pm) as [t| | |] eqn:Et; [| discriminate E..].
  exists pm, t. split; [reflexivity |]. split; [exact Et |]. split; [exact E |].
  apply (radix_refines RadixExample.limit pm ∅ t); [done | | exact Et | | done].
  - apply (init_run RadixExample.limit RadixExample.opts pm); [by left | done | exact Er].
  - repeat constructor; vm_compute; congruence.
Defined.

(** ** The page *)

Module OverflowExample.
Import RadixExample.
(** A name with a value of 4,100 bytes, and one that comes after it. *)
Definition long : gostring := str "cn=" ++ replicate 4100 x61.
Definition history : RM (bool * Z * bool * bool * bool * Z) :=
  Insert com 5 0 ;;
  Insert long 6 0 ;;
  Insert bob 7 0 ;;
  Persist ;;
  a ← Exists bob;
  n ← EntryCount;
  _ ← exec OReopen;
  b ← Exists com;
  c ← Exists long;
  d ← Exists bob;
  m ← EntryCount;
  mret (a, n, b, c, d, m).
End OverflowExample.

(** insertions that succeed and are not on disk: once the nodes of the tree take more than a
    page, [Insert] and [Persist] report success without writing; the tree that is read from the
    page lacks the long name, and also the short one that was inserted after it. *)
Theorem radix_overflow_lost : RadixExample.run OverflowExample.history = Ok (true, 3, true, false, false, 1).
Proof. vm_compute. reflexivity. Qed.

(** ** The cache file *)

(** C18: the cache file of a tree. [SaveCache] leaves the tree alone; loading the file with the
    transaction it was saved for replaces the entries of any tree by those saved, whatever its
    page holds; loading it for another transaction reports a stale cache, and loading a
    truncated file fails, both without any change. The saved directory is
    [cachable]: no component has more than 65535 bytes, no node more than 65535 children (see
    the width of the fields in the file), and there are fewer than 2^31 nodes. *)
Theorem radix_cache_roundtrip {UT : UnicodeTables} {MI : MapIteration} disk_limit t E P F tx :
  tree disk_limit t E P F -> cachable E -> is_uint64 tx ->
  exists f, SaveCache tx t = (Ok f, t) /\
    (forall t2 E2 P2 F2, tree disk_limit t2 E2 P2 F2 -> exists t3,
      LoadCache (Some f) tx t2 = (Ok tt, t3) /\ tree disk_limit t3 E P2 F2 /\ r_dirty t3 = false) /\
    (forall t2 (k : nat) tx2, tx2 <> tx \/ (k < length f)%nat -> exists e, LoadCache (Some (take k f)) tx2 t2 = (Err e, t2)) /\
    (forall t2 tx2, tx2 <> tx -> LoadCache (Some f) tx2 t2 = (Err ErrStaleTxID, t2)).
Proof. apply SaveCache_run. Qed.

Module CacheExample.
Import RadixExample.
Definition entries : directory := {[ [com; str "ou=users"; str "uid=alice"] := (6, 1) ]}.
End CacheExample.

Lemma cachable_example : cachable CacheExample.entries.
Proof.
  assert (Forall (Forall (fun k => len k <= 65535)) (elements (paths CacheExample.entries))) as Hk.
  { apply (bool_decide_unpack _). vm_compute. exact I. }
  assert (size (paths CacheExample.entries) = 4%nat) as Hs by (vm_compute; reflexivity). constructor.
  - rewrite Hs. done.
  - intros p k Hp Hin. rewrite Forall_forall in Hk. specialize (Hk p ltac:(by apply elem_of_elements)). rewrite Forall_forall in Hk. by apply Hk.
  - intros p. pose proof (subseteq_size (children_at CacheExample.entries p) (paths CacheExample.entries)) as Hsub.
    unfold children_at in *. specialize (Hsub ltac:(intros q; rewrite elem_of_filter; by intros [])). lia.
Qed.

Lemma radix_cache_roundtrip_witness :
  exists pm t t1, OpenPageManager RadixExample.limit None RadixExample.opts = Ok pm /\ NewRadixTree RadixExample.limit pm = Ok t
    /\ exec (OInsert RadixExample.alice 6 1) t = (Ok RUnit, t1)
    /\ exists f t3, SaveCache 7 t1 = (Ok f, t1) /\ LoadCache (Some f) 7 t = (Ok tt, t3)
    /\ tree RadixExample.limit t3 CacheExample.entries ∅ ∅.
Proof.
  set (r := OpenPageManager RadixExample.limit None RadixExample.opts).
  assert (match r with Ok pm => match NewRadixTree RadixExample.limit pm with Ok t => (exec (OInsert RadixExample.alice 6 1) t).1 | _ => Panic end | _ => Panic end = Ok RUnit) as E
    by (vm_compute; reflexivity).
  destruct r as [pm| | |] eqn:Er; [| discriminate E..].
  destruct (NewRadixTree RadixExample.limit pm) as [t| | |] eqn:Et; [| discriminate E..].
  assert (tree RadixExample.limit t ∅ ∅ ∅ /\ r_dirty t = false) as [Ht Hd].
  { apply (NewRadixTree_run RadixExample.limit ltac:(done) pm ∅ t); [| exact Et].
    apply (init_run RadixExample.limit RadixExample.opts pm); [by left | done | exact Er]. }
  assert (represents RadixExample.limit ∅ t (mkDirs ∅ ∅ false)) as Hr0 by (split; [exact Ht | exact Hd]).
  assert (typed (OInsert RadixExample.alice 6 1)) as Hty by (repeat constructor; vm_compute; congruence).
  assert (Z.of_nat (size (d_now (mkDirs ∅ ∅ false))) + 1 < 2 ^ 32) as Hsz by (vm_compute; reflexivity).
  assert (RadixExample.limit < 2 ^ 62) as Hlim by (vm_compute; reflexivity).
  destruct (change_step RadixExample.limit Hlim ∅ t _ _ Hr0 Hty Hsz eq_refl) as (r1 & t1 & Hx & _ & Hr1).
  rewrite Hx in E. cbn [fst] in E. exists pm, t, t1. split; [reflexivity |]. split; [exact Et |]. split; [rewrite Hx, E; reflexivity |].
  assert (d_now (next (OInsert RadixExample.alice 6 1) (mkDirs ∅ ∅ false)) = CacheExample.entries) as Hnow.
  { assert (ParseDN RadixExample.alice = Ok [RadixExample.com; str "ou=users"; str "uid=alice"]) as Hp by (vm_compute; reflexivity).
    unfold next. rewrite Hp. cbn [d_now]. rewrite lookup_empty. reflexivity. }
  destruct Hr1 as [Ht1 _]. rewrite Hnow in Ht1.
  destruct (radix_cache_roundtrip _ _ _ _ _ 7 Ht1 cachable_example ltac:(unfold is_uint64; lia)) as (f & Hsave & Hload & _).
  destruct (Hload t _ _ _ Ht) as (t3 & Hl & Ht3 & _). exists f, t3. split; [exact Hsave |]. split; [exact Hl | exact Ht3].
Defined.

(** ** Names *)

Section Names.
Context {UT : UnicodeTables}.

Lemma EqualFold_refl s : is_ascii s = true -> EqualFold s s = true.
Proof. intros Hs. unfold EqualFold. rewrite Hs. cbn. by apply bool_decide_eq_true. Qed.

Lemma comps_fold_prefix p q : Forall (fun k => is_ascii k = true) p -> comps_fold p (p ++ q) = true.
Proof. induction 1 as [|k p Hk _ IH]; [by destruct q |]. cbn. by rewrite EqualFold_refl, IH. Qed.

Lemma normal_ascii k : normal k -> is_ascii k = true.
Proof. intros Hk. apply plain_ascii. by destruct (normal_piece k Hk). Qed.
End Names.

(** C19: names in printable ASCII without escapes have a normal form: the components that
    [ParseDN] finds, printed and parsed again, are the same; [NormalizeDN] prints them and
    leaves its own result alone; the parent of a name consists of all components but the last,
    and the name is a direct child of it. *)
Theorem dn_normal_form {UT : UnicodeTables} dn p :
  plain dn -> ParseDN dn = Ok p ->
  ParseDN (JoinDNReverse p) = Ok p
  /\ NormalizeDN dn = Ok (JoinDNReverse p)
  /\ NormalizeDN (JoinDNReverse p) = Ok (JoinDNReverse p)
  /\ GetParentDN dn = Ok (JoinDNReverse (removelast p))
  /\ (1 < len p -> ParseDN (JoinDNReverse (removelast p)) = Ok (removelast p)
                    /\ IsDirectChildOf dn (JoinDNReverse (removelast p)) = Ok true).
Proof.
  intros Hp Hdn. pose proof Hdn as Hdn'. destruct (ParseDN_print dn p Hp Hdn) as (Hpr & Hall & Hne). unfold ParseDN in Hdn'.
  destruct (ParseDNForward dn) as [l| | |] eqn:El; try done. cbn in Hdn'. injection Hdn' as <-.
  assert (Forall normal l) as Hl by (rewrite <- (rev_involutive l); by apply Forall_rev).
  assert (l <> []) as Hlne by by intros ->.
  assert (JoinDNReverse (rev l) = JoinDN l) as Hj by (unfold JoinDNReverse; by rewrite rev_involutive).
  assert (forall k m, l = k :: m -> removelast (rev l) = rev m) as Hrl by (intros k m ->; cbn; by rewrite removelast_last).
  rewrite Hj in *. split_and!.
  - done.
  - unfold NormalizeDN. by rewrite El.
  - unfold NormalizeDN. by rewrite parse_join.
  - unfold GetParentDN. rewrite El. cbn. destruct l as [|k m]; [done |]. rewrite (Hrl k m eq_refl). unfold JoinDNReverse.
    rewrite rev_involutive. case_decide as Hd; [| done]. destruct m; [done |]. rewrite !len_cons in Hd. pose proof (len_nonneg m). lia.
  - destruct l as [|k m]; [done |]. rewrite (Hrl k m eq_refl). intros Hlen. unfold len in Hlen. rewrite length_rev in Hlen.
    apply Forall_cons in Hl as [Hk Hm]. assert (m <> []) as Hmne by (intros ->; cbn in Hlen; lia).
    assert (ParseDN (JoinDNReverse (rev m)) = Ok (rev m)) as Hpm.
    { unfold JoinDNReverse. rewrite rev_involutive. unfold ParseDN. fold (JoinDN m). by rewrite parse_join. }
    split; [done |]. unfold IsDirectChildOf. rewrite Hdn, Hpm. cbn [mbind outcome_bind].
    rewrite decide_False by (unfold len; rewrite !length_rev; cbn; lia). cbn [rev]. rewrite comps_fold_prefix; [done |].
    apply Forall_rev. eapply Forall_impl; [done | apply normal_ascii].
Qed.

Lemma dn_normal_form_witness :
  ParseDN RadixExample.alice = Ok [RadixExample.com; str "ou=users"; str "uid=alice"]
  /\ NormalizeDN RadixExample.alice = Ok (str "uid=alice,ou=users,dc=com").
Proof.
  assert (ParseDN RadixExample.alice = Ok [RadixExample.com; str "ou=users"; str "uid=alice"]) as E by (vm_compute; reflexivity).
  split; [exact E |].
  destruct (dn_normal_form RadixExample.alice [RadixExample.com; str "ou=users"; str "uid=alice"]) as (_ & H & _);
    [| exact E | exact H].
  repeat constructor; vm_compute; congruence.
Defined.

Module EscapeExample.
Import RadixExample.
(** A trailing space in a value, escaped as RFC 4514 asks. *)
Definition spaced : gostring := str "cn=a\ ,dc=com".
Definition history : RM (option (Z * Z) * list IteratorEntry * list bool) :=
  Insert spaced 9 0 ;;
  loc ← Lookup spaced;
  l ← IterateSubtree [] gather [];
  found ← (fix go (l : list IteratorEntry) : RM (list bool) :=
    match l with [] => mret [] | e :: l => b ← Exists e.1.1; bs ← go l; mret (b :: bs) end) l;
  mret (loc, l, found).
End EscapeExample.

(** an escaped space at the end of a value: parsing trims the space and keeps the escape
    character, which then escapes the comma that printing puts behind it. The entry is found by
    its name, but the name under which a walk reports it is that of no entry. *)
Theorem radix_escaped_name_lost :
  RadixExample.run EscapeExample.history = Ok (Some (9, 0), [(str "cn=a\,dc=com", 9, 0)], [false]).
Proof. vm_compute. reflexivity. Qed.
