(* ===== verification/EntryCodec.v ===== *)
(** * The entry codec of the storage engine
    (src/internal/storage/engine/obadb.go, serializeEntry and deserializeEntry)

    The capacity that the decoder reserves for the values is not modelled. *)

From S2P Require Import Prelude GoBinary GoStrings Search.

Definition ErrInvalidEntry : goerror := ErrConst "ErrInvalidEntry".

Section Codec.
Context {MI : MapIteration}.

Definition value_bytes (v : bytes) : bytes := put32 (uint32 (len v)) ++ v.

Definition attribute_bytes (kv : gostring * list bytes) : bytes :=
  put16 (uint16 (len kv.1)) ++ kv.1 ++ put32 (uint32 (len kv.2)) ++ (kv.2 ≫= value_bytes).

(** The buffer is as large as what is written to it. *)
Definition serializeEntry (entry : option StorageEntry) : outcome bytes :=
  match entry with
  | None => Err ErrInvalidEntry
  | Some e =>
      Ok (put32 (uint32 (len (se_DN e))) ++ se_DN e ++ put32 (uint32 (Z.of_nat (size (se_Attributes e))))
          ++ (range (se_Attributes e) ≫= attribute_bytes))
  end.
End Codec.

(** [for j := 0; j < valueCount && offset < len(data); j++], over the data from [offset] on:
    the values, what is left, and whether the loop ran to its end. Every turn reads at least
    four bytes. *)
Fixpoint read_values (fuel : nat) (count : Z) (data : bytes) : list bytes * bytes :=
  match fuel with
  | O => ([], data)
  | S fuel =>
      if decide (0 < count /\ 0 < len data) then
        if decide (4 > len data) then ([], data)
        else
          let valueLen := field data 0 4 in
          let data := drop 4 data in
          if decide (valueLen > len data) then ([], data)
          else
            let '(values, rest) := read_values fuel (count - 1) (drop (Z.to_nat valueLen) data) in
            (take (Z.to_nat valueLen) data :: values, rest)
      else ([], data)
  end.

(** The loop over the attributes; a [break] of the loop over the values is not one of this. *)
Fixpoint read_attributes (fuel : nat) (count : Z) (data : bytes) (m : gmap gostring (list bytes))
    : gmap gostring (list bytes) :=
  match fuel with
  | O => m
  | S fuel =>
      if decide (0 < count /\ 0 < len data) then
        if decide (2 > len data) then m
        else
          let nameLen := field data 0 2 in
          let data := drop 2 data in
          if decide (nameLen > len data) then m
          else
            let name := take (Z.to_nat nameLen) data in
            let data := drop (Z.to_nat nameLen) data in
            if decide (4 > len data) then m
            else
              let valueCount := field data 0 4 in
              let '(values, rest) := read_values (length data) valueCount (drop 4 data) in
              read_attributes fuel (count - 1) rest (<[name := values]> m)
      else m
  end.

Definition deserializeEntry (dn : gostring) (data : bytes) : outcome StorageEntry :=
  if decide (len data < 8) then Err ErrInvalidEntry
  else
    let offset := 4 + field data 0 4 in
    if decide (offset + 4 > len data) then Ok (mkStorageEntry dn ∅)
    else
      let data := drop (Z.to_nat offset) data in
      Ok (mkStorageEntry dn (read_attributes (length data) (field data 0 4) (drop 4 data) ∅)).

(** ** Round trip *)

(** Lengths and counts that their fields can hold. *)
Record entry_fits (dn : gostring) (attrs : gmap gostring (list bytes)) : Prop := mkEntryFits {
  ef_dn : len dn < 2 ^ 32;
  ef_count : Z.of_nat (size attrs) < 2 ^ 32;
  ef_attr : forall name values, attrs !! name = Some values ->
    len name < 2 ^ 16 /\ len values < 2 ^ 32 /\ Forall (fun v => len v < 2 ^ 32) values
}.

Lemma take_put_le k v rest : take k (le_bytes k v ++ rest) = le_bytes k v.
Proof. apply take_app_length'. by rewrite length_le_bytes. Qed.

Lemma field_put k v rest : 0 <= v < 2 ^ (8 * Z.of_nat k) -> field (le_bytes k v ++ rest) 0 k = v.
Proof. intros Hv. unfold field. rewrite drop_0, take_put_le, le_value_bytes. by apply Z.mod_small. Qed.

Lemma drop_put k v (rest : bytes) : drop k (le_bytes k v ++ rest) = rest.
Proof. apply drop_app_length'. by rewrite length_le_bytes. Qed.

Lemma len_put k v (rest : bytes) : len (le_bytes k v ++ rest) = Z.of_nat k + len rest.
Proof. unfold len. rewrite length_app, length_le_bytes. lia. Qed.

Lemma to_nat_length {A} (l : list A) : Z.to_nat (len l) = length l.
Proof. unfold len. lia. Qed.

Lemma uint32_len {A} (l : list A) : len l < 2 ^ 32 -> uint32 (len l) = len l.
Proof. intros H. unfold uint32. apply Z.mod_small. pose proof (len_nonneg l). lia. Qed.

Lemma bind_cons_bytes {A} (f : A -> bytes) (x : A) (l : list A) : mbind (M := list) f (x :: l) = f x ++ mbind (M := list) f l.
Proof. done. Qed.

Lemma read_values_run vs rest fuel :
  Forall (fun v => len v < 2 ^ 32) vs -> (length vs <= fuel)%nat ->
  read_values fuel (len vs) ((vs ≫= value_bytes) ++ rest) = (vs, rest).
Proof.
  intros Hv. revert fuel. induction Hv as [|v vs Hv _ IH]; intros fuel Hf.
  - cbn. destruct fuel; [done |]. cbn. by rewrite decide_False by (unfold len; cbn; lia).
  - destruct fuel as [|fuel]; [cbn in Hf; lia |]. cbn [read_values].
    replace (((v :: vs) ≫= value_bytes) ++ rest) with (le_bytes 4 (uint32 (len v)) ++ v ++ (vs ≫= value_bytes) ++ rest)
      by (rewrite (bind_cons_bytes value_bytes); unfold value_bytes at 2, put32; by rewrite <- !app_assoc).
    pose proof (len_nonneg v). pose proof (len_nonneg vs).
    rewrite len_put. rewrite decide_True by (pose proof (len_nonneg (v ++ (vs ≫= value_bytes) ++ rest)); rewrite len_cons; lia).
    rewrite decide_False by (pose proof (len_nonneg (v ++ (vs ≫= value_bytes) ++ rest)); lia).
    rewrite field_put by (rewrite uint32_len by done; cbn; lia). rewrite drop_put, uint32_len by done.
    rewrite decide_False by len_lia. rewrite to_nat_length, drop_app_length, take_app_length.
    replace (len (v :: vs) - 1) with (len vs) by len_lia. rewrite IH by (cbn in Hf; lia). done.
Qed.

Lemma length_values vs : (length vs <= length (vs ≫= value_bytes))%nat.
Proof.
  induction vs as [|v vs IH]; [done |]. rewrite (bind_cons_bytes value_bytes), length_app. unfold value_bytes at 1, put32. rewrite length_app, length_le_bytes. cbn. lia.
Qed.

Lemma read_attributes_run (kvs : list (gostring * list bytes)) m fuel :
  Forall (fun kv => len kv.1 < 2 ^ 16 /\ len kv.2 < 2 ^ 32 /\ Forall (fun v => len v < 2 ^ 32) kv.2) kvs ->
  (length kvs <= fuel)%nat ->
  read_attributes fuel (len kvs) (kvs ≫= attribute_bytes) m = foldl (fun m kv => <[kv.1 := kv.2]> m) m kvs.
Proof.
  intros Hk. revert m fuel. induction Hk as [|[name vs] kvs (Hn & Hc & Hv) _ IH]; intros m fuel Hf.
  - cbn. destruct fuel; [done |]. cbn. by rewrite decide_False by (unfold len; cbn; lia).
  - destruct fuel as [|fuel]; [cbn in Hf; lia |]. cbn [read_attributes]. cbn in Hn, Hc, Hv.
    replace (((name, vs) :: kvs) ≫= attribute_bytes) with (le_bytes 2 (uint16 (len name)) ++ name
      ++ le_bytes 4 (uint32 (len vs)) ++ (vs ≫= value_bytes) ++ (kvs ≫= attribute_bytes))
      by (rewrite (bind_cons_bytes attribute_bytes); unfold attribute_bytes at 2, put16, put32; cbn [fst snd]; by rewrite <- !app_assoc).
    pose proof (len_nonneg name). pose proof (len_nonneg vs). rewrite len_put.
    set (tl := name ++ _). assert (len name <= len tl) as Htl by (unfold tl; len_lia).
    rewrite decide_True by (rewrite len_cons; pose proof (len_nonneg kvs); lia). rewrite decide_False by lia.
    rewrite field_put by (unfold uint16; cbn; apply Z.mod_pos_bound; lia). rewrite drop_put.
    assert (uint16 (len name) = len name) as -> by (unfold uint16; apply Z.mod_small; lia).
    rewrite decide_False by lia. unfold tl. rewrite to_nat_length, drop_app_length, take_app_length. clear tl Htl.
    rewrite len_put. match goal with |- context [decide (4 > Z.of_nat 4 + len ?x)] => pose proof (len_nonneg x) end.
    rewrite decide_False by lia. rewrite field_put by (rewrite uint32_len by done; cbn; lia). rewrite drop_put, uint32_len by done.
    rewrite read_values_run; [| done |].
    + replace (len ((name, vs) :: kvs) - 1) with (len kvs) by len_lia. rewrite IH by (cbn in Hf; lia). done.
    + rewrite !length_app. pose proof (length_values vs). lia.
Qed.

Lemma length_attributes kvs : (length kvs <= length (kvs ≫= attribute_bytes))%nat.
Proof.
  induction kvs as [|kv kvs IH]; [done |]. rewrite (bind_cons_bytes attribute_bytes), length_app. unfold attribute_bytes at 1, put16. rewrite length_app, length_le_bytes. cbn. lia.
Qed.

Section Roundtrip.
Context {MI : MapIteration}.

Lemma attributes_inserted (kvs : list (gostring * list bytes)) (m : gmap gostring (list bytes)) :
  NoDup kvs.*1 -> foldl (fun m kv => <[kv.1 := kv.2]> m) m kvs = list_to_map kvs ∪ m.
Proof.
  revert m. induction kvs as [|[k v] kvs IH]; intros m Hd; cbn; [by rewrite (left_id_L ∅ (∪)) |].
  apply NoDup_cons in Hd as [Hk Hd]. rewrite IH by done. rewrite <- insert_union_l.
  rewrite insert_union_r by (by apply not_elem_of_list_to_map). done.
Qed.

(** An entry whose lengths and counts fit their fields is read back as it was, whatever the
    order in which its attributes are written. *)
Lemma serialize_deserialize e data :
  entry_fits (se_DN e) (se_Attributes e) -> serializeEntry (Some e) = Ok data -> deserializeEntry (se_DN e) data = Ok e.
Proof.
  intros [Hdn Hcnt Hattr] Hs. assert (data = le_bytes 4 (uint32 (len (se_DN e))) ++ se_DN e
    ++ le_bytes 4 (uint32 (Z.of_nat (size (se_Attributes e)))) ++ (range (se_Attributes e) ≫= attribute_bytes)) as ->
    by (unfold serializeEntry in Hs; apply (f_equal (fun r => match r with Ok d => d | _ => [] end)) in Hs; exact (eq_sym Hs)).
  clear Hs. unfold deserializeEntry.
  set (body := range (se_Attributes e) ≫= attribute_bytes). pose proof (len_nonneg (se_DN e)). pose proof (len_nonneg body).
  assert (len (range (se_Attributes e)) = Z.of_nat (size (se_Attributes e))) as Elen.
  { unfold len. by rewrite (Permutation_length (range_perm _)), length_map_to_list. }
  rewrite len_put, len_app, len_put. rewrite decide_False by lia. rewrite uint32_len by done.
  rewrite field_put by (cbn; lia). rewrite decide_False by lia.
  replace (Z.to_nat (4 + len (se_DN e))) with (4 + length (se_DN e))%nat by (unfold len; lia).
  rewrite <- drop_drop, drop_put, drop_app_length. assert (uint32 (Z.of_nat (size (se_Attributes e))) = Z.of_nat (size (se_Attributes e))) as ->
    by (unfold uint32; apply Z.mod_small; lia).
  rewrite field_put by (cbn; lia). rewrite drop_put, <- Elen. unfold body. rewrite read_attributes_run.
  - rewrite attributes_inserted by apply range_keys. rewrite range_map, (right_id_L ∅ (∪)). by destruct e.
  - apply Forall_forall. intros [k v] Hin%elem_of_range. by apply Hattr.
  - rewrite length_app. pose proof (length_attributes (range (se_Attributes e))). lia.
Qed.
End Roundtrip.
