(* ===== verification/Engine.v ===== *)
(** * The storage engine (src/internal/storage/engine/obadb.go, src/internal/storage/tx/manager.go)

    The engine joins the log, the transactions, the version store, the radix tree of names and
    the indexes. The page manager of the data file is the one the radix tree holds; the indexes
    have a file of their own. Transactions are objects shared by the engine and its clients: a
    client's handle is the identifier, and the engine keeps the objects.

    [Put] normalizes the name in the caller's entry; the model passes entries by value. The
    background tasks are not part of the operations: the collector of old versions, and the
    preload of entries after opening, which is [preloadHotEntries]. *)

From S2P Require Import Prelude GoBinary GoStrings Page Wal Mvcc BTree BTreeOps Index.
From S2P Require Import RadixNode RadixPage RadixTree Search EntryCodec.

Definition ErrDatabaseClosed : goerror := ErrConst "ErrDatabaseClosed".
Definition ErrDatabaseReadOnly : goerror := ErrConst "ErrDatabaseReadOnly".
Definition ErrNoEntry : goerror := ErrConst "engine.ErrEntryNotFound".
Definition ErrBadDN : goerror := ErrConst "engine.ErrInvalidDN".
Definition ErrUIDNotUnique : goerror := ErrConst "ErrUIDNotUnique".

(** mvcc/version.go; the version store does not return it. *)
Definition ErrNoVisibleVersion : goerror := ErrConst "ErrNoVisibleVersion".

Definition ErrTxNotFound : goerror := ErrConst "ErrTxNotFound".
Definition ErrTxNotActive : goerror := ErrConst "ErrTxNotActive".
Definition ErrWALWriteFailed : goerror := ErrConst "ErrWALWriteFailed".
Definition ErrWALSyncFailed : goerror := ErrConst "ErrWALSyncFailed".
Definition ErrWriteConflict : goerror := ErrConst "ErrWriteConflict".
Definition ErrNilTx : goerror := ErrConst "tx.ErrNilTransaction".

(** [db_active]: the identifiers in the map of active transactions; [db_draws]: how often
    random bytes were drawn. *)
Record ObaDB := mkObaDB {
  db_wal : WAL;
  db_nextTxID : Z;
  db_txns : gmap Z Transaction;
  db_active : gset Z;
  db_currentTS : Z;
  db_versions : VersionStore;
  db_radix : RadixTree;
  db_index : IndexManager;
  db_key : option Cipher;
  db_draws : Z;
  db_readOnly : bool;
  db_closed : bool
}.

Abbreviation DM := (M ObaDB).

Definition set_wal (w : WAL) (d : ObaDB) : ObaDB :=
  mkObaDB w (db_nextTxID d) (db_txns d) (db_active d) (db_currentTS d) (db_versions d) (db_radix d) (db_index d)
    (db_key d) (db_draws d) (db_readOnly d) (db_closed d).
Definition set_nextTxID (n : Z) (d : ObaDB) : ObaDB :=
  mkObaDB (db_wal d) n (db_txns d) (db_active d) (db_currentTS d) (db_versions d) (db_radix d) (db_index d)
    (db_key d) (db_draws d) (db_readOnly d) (db_closed d).
Definition set_txns (m : gmap Z Transaction) (d : ObaDB) : ObaDB :=
  mkObaDB (db_wal d) (db_nextTxID d) m (db_active d) (db_currentTS d) (db_versions d) (db_radix d) (db_index d)
    (db_key d) (db_draws d) (db_readOnly d) (db_closed d).
Definition set_active (a : gset Z) (d : ObaDB) : ObaDB :=
  mkObaDB (db_wal d) (db_nextTxID d) (db_txns d) a (db_currentTS d) (db_versions d) (db_radix d) (db_index d)
    (db_key d) (db_draws d) (db_readOnly d) (db_closed d).
Definition set_currentTS (n : Z) (d : ObaDB) : ObaDB :=
  mkObaDB (db_wal d) (db_nextTxID d) (db_txns d) (db_active d) n (db_versions d) (db_radix d) (db_index d)
    (db_key d) (db_draws d) (db_readOnly d) (db_closed d).
Definition set_versionStore (s : VersionStore) (d : ObaDB) : ObaDB :=
  mkObaDB (db_wal d) (db_nextTxID d) (db_txns d) (db_active d) (db_currentTS d) s (db_radix d) (db_index d)
    (db_key d) (db_draws d) (db_readOnly d) (db_closed d).
Definition set_radix (t : RadixTree) (d : ObaDB) : ObaDB :=
  mkObaDB (db_wal d) (db_nextTxID d) (db_txns d) (db_active d) (db_currentTS d) (db_versions d) t (db_index d)
    (db_key d) (db_draws d) (db_readOnly d) (db_closed d).
Definition set_index (im : IndexManager) (d : ObaDB) : ObaDB :=
  mkObaDB (db_wal d) (db_nextTxID d) (db_txns d) (db_active d) (db_currentTS d) (db_versions d) (db_radix d) im
    (db_key d) (db_draws d) (db_readOnly d) (db_closed d).
Definition set_draws (n : Z) (d : ObaDB) : ObaDB :=
  mkObaDB (db_wal d) (db_nextTxID d) (db_txns d) (db_active d) (db_currentTS d) (db_versions d) (db_radix d) (db_index d)
    (db_key d) n (db_readOnly d) (db_closed d).

(** A method of a component. *)
Definition on_wal {A} (m : M WAL A) : DM A := fun d => let '(r, w) := m (db_wal d) in (r, set_wal w d).
Definition on_versions {A} (m : M VersionStore A) : DM A := fun d =>
  let '(r, s) := m (db_versions d) in (r, set_versionStore s d).
Definition on_radix {A} (m : RM A) : DM A := fun d => let '(r, t) := m (db_radix d) in (r, set_radix t d).
Definition on_index_manager {A} (m : IM A) : DM A := fun d => let '(r, im) := m (db_index d) in (r, set_index im d).
Definition on_data {A} (m : M PageManager A) : DM A := on_radix (RadixTree.on_pages m).

Definition lift {A} (r : outcome A) : DM A := fun d => (r, d).

Section Engine.
Context {UT : UnicodeTables} {MI : MapIteration} (disk_limit : Z) (random : Z -> bytes).

(** [rand.Read]. *)
Definition draw : DM bytes := n ← gets db_draws; modify (set_draws (n + 1)) ;; mret (random n).

(** ** tx/manager.go *)

(** [tm.wal.Append(record)], whose error is replaced. *)
Definition log_record (txID : Z) (recordType : byte) : DM unit :=
  nonce ← draw;
  r ← try (on_wal (Wal.Append nonce (NewWALRecord 0 txID recordType)));
  match r with inl _ => mret tt | inr _ => fail ErrWALWriteFailed end.

Definition sync_log : DM unit :=
  r ← try (on_wal Wal.Sync);
  match r with inl _ => mret tt | inr _ => fail ErrWALSyncFailed end.

Definition tm_Begin : DM Z :=
  txID ← gets db_nextTxID;
  modify (set_nextTxID (uint64 (txID + 1))) ;;
  startLSN ← gets (fun d => currentLSN (db_wal d));
  log_record txID WALBegin ;;
  modify (fun d => set_active ({[txID]} ∪ db_active d) (set_txns (<[txID := NewTransaction txID startLSN]> (db_txns d)) d)) ;;
  mret txID.

(** A transaction that the client holds. *)
Definition transaction (id : Z) : DM Transaction :=
  t ← gets (fun d => db_txns d !! id);
  match t with Some t => mret t | None => panic end.

Definition update_txn (t : Transaction) : DM unit := modify (fun d => set_txns (<[tx_ID t := t]> (db_txns d)) d).

Definition tx_overlaps (a b : Transaction) : bool :=
  existsb (fun p => bool_decide (p ∈ tx_WriteSet b)) (tx_WriteSet a).

Definition validateWriteSet (t : Transaction) : DM unit :=
  d ← gets (fun d => d);
  if existsb (fun id => match db_txns d !! id with
                        | Some other => negb (bool_decide (tx_ID other = tx_ID t)) && tx_overlaps t other
                        | None => false
                        end) (elements (db_active d))
  then fail ErrWriteConflict else mret tt.

Definition end_txn (t : Transaction) : DM unit :=
  update_txn t ;; modify (fun d => set_active (db_active d ∖ {[tx_ID t]}) d).

Definition tm_Commit (id : Z) : DM unit :=
  t ← transaction id;
  if negb (IsActive t) then fail ErrTxNotActive
  else
    active ← gets db_active;
    if decide (id ∉ active) then fail ErrTxNotFound
    else
      validateWriteSet t ;;
      log_record id WALCommit ;;
      sync_log ;;
      end_txn (SetState t TxCommitted).

Definition tm_Rollback (id : Z) : DM unit :=
  t ← transaction id;
  if negb (IsActive t) then fail ErrTxNotActive
  else
    active ← gets db_active;
    if decide (id ∉ active) then fail ErrTxNotFound
    else
      log_record id WALAbort ;;
      sync_log ;;
      end_txn (SetState (ClearWriteSet t) TxAborted).

(** ** obadb.go *)

Definition when_writable {A} (m : DM A) : DM A :=
  d ← gets (fun d => d);
  if db_closed d then fail ErrDatabaseClosed else if db_readOnly d then fail ErrDatabaseReadOnly else m.

(** A read-only engine has no transaction manager. *)
Definition Begin : DM Z := when_writable tm_Begin.

(** The conversion of the interface value: a nil transaction is an error. *)
Definition with_txn {A} (txn : option Z) (m : Z -> DM A) : DM A :=
  match txn with None => fail ErrNilTx | Some id => m id end.

Definition AdvanceTimestamp : DM Z :=
  ts ← gets (fun d => uint64 (db_currentTS d + 1)); modify (set_currentTS ts) ;; mret ts.

(** The versions are committed before the transaction. *)
Definition Engine_Commit (txn : option Z) : DM unit := when_writable (with_txn txn (fun id =>
  commitTS ← AdvanceTimestamp;
  t ← transaction id;
  on_versions (CommitVersion (Some t) commitTS) ;;
  tm_Commit id)).

Definition Engine_Rollback (txn : option Z) : DM unit := when_writable (with_txn txn (fun id =>
  t ← transaction id;
  on_versions (RollbackVersion (Some t)) ;;
  tm_Rollback id)).

Definition normalizeDN (dn : gostring) : gostring := TrimSpace (ToLower dn).

(** The length at the start of the page, and the data behind it. *)
Definition page_data (data : bytes) : option bytes :=
  if decide (len data < 4) then None
  else
    let dataLen := field data 0 4 in
    if decide (dataLen <= 0 \/ dataLen + 4 > len data) then None
    else Some (ReadAt data 4 (Z.to_nat dataLen)).

(** The disk loader of [setupDiskLoader] in a state of the engine. *)
Definition disk_loader (d : ObaDB) : loader := Some (fun dn =>
  match (RadixTree.Lookup dn (db_radix d)).1 with
  | Ok (Some (pageID, slotID)) =>
      if decide (pageID = 0) then None
      else match (ReadPage pageID (r_pageManager (db_radix d))).1 with
           | Ok page => (fun data => (data, pageID, slotID)) <$> page_data (Data page)
           | _ => None
           end
  | _ => None
  end).

Definition get_visible (dn : gostring) (snapshot activeTxID : Z) : DM Version :=
  load ← gets disk_loader; on_versions (GetVisibleForTx load dn snapshot activeTxID).

Definition encryptData (data : bytes) : DM bytes :=
  key ← gets db_key;
  match key with
  | None => mret data
  | Some key => nonce ← draw; lift (Encrypt key nonce data)
  end.

Definition decryptData (data : bytes) : DM bytes :=
  key ← gets db_key; lift (decrypt key data).

(** The snapshot and the identifier of a reader. *)
Definition reader (txn : option Z) : DM (Z * Z) :=
  match txn with
  | Some id => t ← transaction id; mret (tx_Snapshot t, tx_ID t)
  | None => ts ← gets db_currentTS; mret (ts, 0)
  end.

Definition when_db_open {A} (m : DM A) : DM A :=
  closed ← gets db_closed; if (closed : bool) then fail ErrDatabaseClosed else m.

Definition Engine_Get (txn : option Z) (dn : gostring) : DM StorageEntry := when_db_open (
  if decide (dn = []) then fail ErrBadDN
  else
    let dn := normalizeDN dn in
    r ← reader txn;
    version ← try (get_visible dn r.1 r.2);
    match version with
    | inr e =>
        if decide (e = ErrVersionNotFound \/ e = ErrNoVisibleVersion \/ e = ErrVersionDeleted) then fail ErrNoEntry else fail e
    | inl version => data ← decryptData (v_Data version); lift (deserializeEntry dn data)
    end).

(** *** Iterators *)

Inductive ObaIterator :=
| errorIterator (err : goerror)
| dnIterator (radixIter : RadixIterator) (snapshot activeTxID : Z) (err : option goerror)
| filterIterator (radixIter : RadixIterator) (filterMatcher : option (StorageEntry -> outcome bool))
    (snapshot activeTxID : Z) (err : option goerror)
| allEntriesIterator (entries : list gostring) (snapshot activeTxID : Z) (err : option goerror).

(** The entry under a name, for the loops of the iterators: [inl None] when there is no
    visible version, an error of the decryption or of the codec on the right. *)
Definition entry_at (dn : gostring) (snapshot activeTxID : Z) : DM (option StorageEntry + goerror) :=
  version ← try (get_visible dn snapshot activeTxID);
  match version with
  | inr _ => mret (inl None)
  | inl version =>
      r ← try (data ← decryptData (v_Data version); lift (deserializeEntry dn data));
      mret (match r with inl e => inl (Some e) | inr err => inr err end)
  end.

Definition SearchByDN (txn : option Z) (baseDN : gostring) (scope : Z) : DM ObaIterator :=
  closed ← gets db_closed;
  if (closed : bool) then mret (errorIterator ErrDatabaseClosed)
  else
    let baseDN := normalizeDN baseDN in
    r ← reader txn;
    if decide (baseDN = [] /\ scope = ScopeSubtree) then
      names ← on_radix (IterateSubtree [] (fun dn _ _ l => (true, l ++ [dn])) []);
      mret (allEntriesIterator names r.1 r.2 None)
    else
      it ← try (on_radix (RadixTree.Iterator baseDN scope));
      match it with
      | inl it => mret (dnIterator it r.1 r.2 None)
      | inr e => mret (errorIterator e)
      end.

Definition SearchByFilter (txn : option Z) (baseDN : gostring) (f : option (StorageEntry -> outcome bool)) : DM ObaIterator :=
  closed ← gets db_closed;
  if (closed : bool) then mret (errorIterator ErrDatabaseClosed)
  else
    r ← reader txn;
    it ← try (on_radix (RadixTree.Iterator (normalizeDN baseDN) ScopeSubtree));
    match it with
    | inl it => mret (filterIterator it f r.1 r.2 None)
    | inr e => mret (errorIterator e)
    end.

(** [for { dn, _, _, ok := it.radixIter.Next(); ... }]: the walk yields each node once. *)
Fixpoint next_entry (fuel : nat) (filterMatcher : option (StorageEntry -> outcome bool)) (it : RadixIterator)
    (snapshot activeTxID : Z) (err : option goerror) : DM (option StorageEntry * RadixIterator * option goerror) :=
  match fuel with
  | O => diverge
  | S fuel =>
      r ← on_radix (RadixTree.Next it);
      match r.1 with
      | None => mret (None, r.2, err)
      | Some (dn, _, _) =>
          e ← entry_at dn snapshot activeTxID;
          match e with
          | inl None => next_entry fuel filterMatcher r.2 snapshot activeTxID err
          | inr e => mret (None, r.2, Some e)
          | inl (Some entry) =>
              matched ← (match filterMatcher with None => mret true | Some f => lift (f entry) end);
              if (matched : bool) then mret (Some entry, r.2, err)
              else next_entry fuel filterMatcher r.2 snapshot activeTxID err
          end
      end
  end.

Fixpoint next_name (names : list gostring) (snapshot activeTxID : Z) (err : option goerror)
    : DM (option StorageEntry * list gostring * option goerror) :=
  match names with
  | [] => mret (None, [], err)
  | dn :: names =>
      e ← entry_at dn snapshot activeTxID;
      match e with
      | inl None => next_name names snapshot activeTxID err
      | inr e => mret (None, names, Some e)
      | inl (Some entry) => mret (Some entry, names, err)
      end
  end.

Definition iter_fuel : DM nat := gets (fun d => S (length (r_nodes (db_radix d)))).

(** [Next] and [Entry]: the entry, when there is one, and the iterator after the step. *)
Definition iterator_Next (it : ObaIterator) : DM (option StorageEntry * ObaIterator) :=
  match it with
  | errorIterator _ => mret (None, it)
  | dnIterator r snapshot tx err =>
      fuel ← iter_fuel;
      x ← next_entry fuel None r snapshot tx err;
      mret (x.1.1, dnIterator x.1.2 snapshot tx x.2)
  | filterIterator r f snapshot tx err =>
      fuel ← iter_fuel;
      x ← next_entry fuel f r snapshot tx err;
      mret (x.1.1, filterIterator x.1.2 f snapshot tx x.2)
  | allEntriesIterator names snapshot tx err =>
      x ← next_name names snapshot tx err;
      mret (x.1.1, allEntriesIterator x.1.2 snapshot tx x.2)
  end.

Definition iterator_Error (it : ObaIterator) : option goerror :=
  match it with
  | errorIterator e => Some e
  | dnIterator _ _ _ err | filterIterator _ _ _ _ err | allEntriesIterator _ _ _ err => err
  end.

(** [for iter.Next() { body(iter.Entry()) }; iter.Error()], as clients use iterators: the
    entries until [body] wants to stop. *)
Fixpoint iter_all (fuel : nat) (it : ObaIterator) (acc : list StorageEntry) : DM (list StorageEntry * option goerror) :=
  match fuel with
  | O => diverge
  | S fuel =>
      r ← iterator_Next it;
      match r.1 with
      | None => mret (acc, iterator_Error r.2)
      | Some e => iter_all fuel r.2 (acc ++ [e])
      end
  end.

Definition collect_iter (it : ObaIterator) : DM (list StorageEntry * option goerror) :=
  fuel ← iter_fuel; iter_all fuel it [].

(** *** The unique uid of users *)

Fixpoint first_uid (values : list bytes) : gostring :=
  match values with
  | [] => []
  | raw :: values =>
      if decide (len raw = 0) then first_uid values
      else let uid := ToLower (TrimSpace raw) in if decide (uid = []) then first_uid values else uid
  end.

Fixpoint uid_of (kvs : list (gostring * list bytes)) : gostring :=
  match kvs with
  | [] => []
  | (name, values) :: kvs =>
      if negb (bytes_eqb (ToLower name) (str "uid")) then uid_of kvs
      else let uid := first_uid values in if decide (uid = []) then uid_of kvs else uid
  end.

Definition extractCanonicalUID (attrs : gmap gostring (list bytes)) : gostring := uid_of (range attrs).

Definition isUsersSubtreeDN (dn : gostring) : bool :=
  let normalized := normalizeDN dn in
  if decide (normalized = []) then false else GoStrings.Contains (str "," ++ normalized) (str ",ou=users,").

(** The loop over the entries; it stops at the first entry with the same uid. *)
Fixpoint uid_scan (fuel : nat) (it : ObaIterator) (dn uidValue : gostring) : DM unit :=
  match fuel with
  | O => diverge
  | S fuel =>
      r ← iterator_Next it;
      match r.1 with
      | None => match iterator_Error r.2 with Some e => fail e | None => mret tt end
      | Some existing =>
          if decide (se_DN existing = [] \/ se_DN existing = dn) then uid_scan fuel r.2 dn uidValue
          else if negb (isUsersSubtreeDN (se_DN existing)) then uid_scan fuel r.2 dn uidValue
          else if bytes_eqb (extractCanonicalUID (se_Attributes existing)) uidValue then fail ErrUIDNotUnique
          else uid_scan fuel r.2 dn uidValue
      end
  end.

Definition checkUIDUnique (txn : Z) (dn : gostring) (attrs : gmap gostring (list bytes)) : DM unit :=
  let uidValue := extractCanonicalUID attrs in
  if decide (uidValue = []) then mret tt
  else if negb (isUsersSubtreeDN dn) then mret tt
  else
    it ← SearchByDN (Some txn) [] ScopeSubtree;
    fuel ← iter_fuel;
    uid_scan fuel it dn uidValue.

(** *** Writing *)

(** mvcc/store.go, [allocateStorage]: an entry that does not fit is not written. *)
Definition allocateStorage (data : bytes) : DM (Z * Z) :=
  pageID ← on_data (AllocatePage disk_limit PageTypeData);
  page ← on_data (ReadPage pageID);
  (if decide (len data + 4 <= len (Data page)) then
     let h := Header page in
     on_data (WritePage (mkPage
       (mkPageHeader (ph_PageID h) (ph_PageType h) (ph_Flags h) 1 (ph_FreeSpace h) (ph_Checksum h))
       (put32 (len data) ++ data ++ drop (4 + length data) (Data page))))
   else mret tt) ;;
  mret (pageID, 0).

(** [CreateVersionWithLocation]: the storage is allocated after the conflict check. *)
Definition create_version (t : Transaction) (dn : gostring) (data : bytes) : DM (Z * Z) :=
  writer ← gets (fun d => activeWriters (db_versions d) !! dn);
  let conflict := match writer with Some w => negb (bool_decide (w = tx_ID t)) | None => false end in
  stored ← (if negb (IsActive t) || conflict then mret (Ok (0, 0))
            else (fun d => let '(r, d) := allocateStorage data d in (Ok r, d)));
  load ← gets disk_loader;
  r ← on_versions (CreateVersionWithLocation load stored (Some t) dn data);
  update_txn r.2 ;;
  mret r.1.

Definition index_entry (e : StorageEntry) (pageID slotID : Z) : IndexEntry :=
  mkIndexEntry (se_DN e) (se_Attributes e) pageID slotID.

Definition updateIndexesWithLocation (oldEntry newEntry : option StorageEntry) (pageID slotID : Z) : DM unit :=
  on_index_manager (UpdateIndexes disk_limit ((fun e => index_entry e 0 0) <$> oldEntry)
    ((fun e => index_entry e pageID slotID) <$> newEntry)).

Definition updateIndexes (oldEntry newEntry : option StorageEntry) : DM unit :=
  updateIndexesWithLocation oldEntry newEntry 0 0.

(** [oldData, _ = db.decryptData(oldData); oldEntry, _ = deserializeEntry(dn, oldData)]. *)
Definition old_entry (dn : gostring) (version : Version) : DM (option StorageEntry) :=
  data ← try (decryptData (v_Data version));
  match deserializeEntry dn (match data with inl data => data | inr _ => [] end) with
  | Ok e => mret (Some e)
  | _ => mret None
  end.

Definition Put (txn : option Z) (entry : option StorageEntry) : DM unit := when_writable (with_txn txn (fun id =>
  match entry with
  | None => fail ErrInvalidEntry
  | Some entry =>
      if decide (se_DN entry = []) then fail ErrInvalidEntry
      else
        let dn := normalizeDN (se_DN entry) in
        let entry := mkStorageEntry dn (se_Attributes entry) in
        checkUIDUnique id dn (se_Attributes entry) ;;
        data ← lift (serializeEntry (Some entry));
        data ← encryptData data;
        t ← transaction id;
        existing ← try (get_visible dn (tx_Snapshot t) (tx_ID t));
        oldEntry ← match existing with inl v => old_entry dn v | inr _ => mret None end;
        loc ← create_version t dn data;
        match oldEntry with
        | None =>
            r ← try (on_radix (RadixTree.Insert dn loc.1 loc.2));
            match r with
            | inr e => if decide (e = RadixTree.ErrEntryExists) then mret tt else fail e
            | inl _ => mret tt
            end
        | Some _ => mret tt
        end ;;
        updateIndexesWithLocation oldEntry (Some entry) loc.1 loc.2
  end)).

Definition delete_version (t : Transaction) (dn : gostring) : DM unit :=
  load ← gets disk_loader;
  t ← on_versions (DeleteVersion load (Some t) dn);
  update_txn t.

Definition Engine_Delete (txn : option Z) (dn : gostring) : DM unit := when_writable (with_txn txn (fun id =>
  if decide (dn = []) then fail ErrBadDN
  else
    let dn := normalizeDN dn in
    t ← transaction id;
    existing ← try (get_visible dn (tx_Snapshot t) (tx_ID t));
    match existing with
    | inr e => if decide (e = ErrVersionNotFound \/ e = ErrNoVisibleVersion) then fail ErrNoEntry else fail e
    | inl v =>
        oldEntry ← old_entry dn v;
        delete_version t dn ;;
        r ← try (on_radix (RadixTree.Delete dn));
        match r with
        | inr e => if decide (e = RadixTree.ErrEntryNotFound) then mret tt else fail e
        | inl _ => mret tt
        end ;;
        match oldEntry with
        | Some e => updateIndexes (Some e) None
        | None => mret tt
        end
    end)).

Definition Engine_HasChildren (dn : gostring) : DM bool := when_db_open (
  if decide (dn = []) then fail ErrBadDN else on_radix (RadixTree.HasChildren (normalizeDN dn))).

Definition Engine_CreateIndex (attribute : gostring) (indexType : Z) : DM unit :=
  when_writable (on_index_manager (CreateIndex disk_limit attribute indexType)).

Definition Engine_DropIndex (attribute : gostring) : DM unit := when_writable (on_index_manager (DropIndex attribute)).

Definition Engine_ClearAll : DM unit := when_writable (
  on_versions Mvcc.Clear ;;
  on_radix RadixTree.Clear ;;
  on_index_manager (Index.ClearAll disk_limit)).

Definition ClearIndexes : DM unit := when_writable (on_index_manager (Index.ClearAll disk_limit)).

(** ** Opening *)

(** [preloadHotEntries]: the entries of up to 1000 names, from their pages. *)
Definition maxPreload : Z := 1000.

Definition preload_entry (e : gostring * Z * Z) : DM unit :=
  let '(dn, pageID, slotID) := e in
  page ← gets (fun d => (ReadPage pageID (r_pageManager (db_radix d))).1);
  match page with
  | Ok page =>
      match page_data (Data page) with
      | Some data => on_versions (LoadCommittedVersion dn data pageID slotID)
      | None => mret tt
      end
  | _ => mret tt
  end.

Definition preloadHotEntries : DM unit :=
  entries ← on_radix (IterateSubtree [] (fun dn pageID slotID l =>
    if decide (pageID = 0 \/ len l >= maxPreload) then (bool_decide (len l < maxPreload), l)
    else (true, l ++ [(dn, pageID, slotID)])) []);
  for_each entries preload_entry.

Definition initRadixTree (pm : PageManager) : outcome RadixTree :=
  let dnIndex := fh_DNIndex (Page.header pm) in
  if decide (dnIndex <> 0) then NewRadixTreeWithRoot pm dnIndex
  else
    t ← NewRadixTree disk_limit pm;
    match RadixTree.on_pages (UpdateHeader (r_rootPageID t) (fh_DataRoot (Page.header pm))) t with
    | (Ok _, t) => Ok t
    | (Err e, _) => Err e
    | (Panic, _) => Panic
    | (Diverge, _) => Diverge
    end.

(** The components over the files of the data, the index and the log, when there are no valid
    cache files to load (as for a new database, or after a crash), and without the goroutine that
    then preloads entries into the cache. A read-only engine has no log. *)
Definition Open (data index : option bytes) (wal : bytes) (key : option Cipher) (opts : Options) : outcome ObaDB :=
  pm ← OpenPageManager disk_limit data opts;
  w ← OpenWALWithEncryption (if opt_ReadOnly opts then [] else wal) key;
  radix ← initRadixTree pm;
  indexPM ← OpenPageManager disk_limit index opts;
  im ← NewIndexManager disk_limit indexPM;
  Ok (mkObaDB w 1 ∅ ∅ 0 (NewVersionStoreWithCache DefaultCacheSize) radix im key 0 (opt_ReadOnly opts) false).
End Engine.
