(* ===== verification/EngineSim.v ===== *)
(** * The engine under one transaction at a time

    What the engine needs of its components: which names the version store and its cache know
    after an operation, the end of a transaction in the abstract database, and the log. Then
    [serves], which relates the engine to two maps from names to attributes: what is committed,
    and what the current transaction sees. *)

From S2P Require Import Prelude GoBinary GoStrings Page PageStore Wal WalLog Mvcc MvccSim MvccLoops MvccTheorems.
From S2P Require Import RadixNode RadixPage RadixTree RadixShape RadixWalk RadixPersist RadixMap Index Search EntryCodec Engine.

(** ** The names a version store knows *)

Definition kept (s : VersionStore) (dn : gostring) : Prop :=
  is_Some (versions s !! dn) \/ is_Some (entries (cache s) !! dn).

(** [m] adds at most the names of [D] to those the store knows. *)
Definition adds {A} (D : gostring -> Prop) (m : M VersionStore A) : Prop :=
  forall s dn, kept (m s).2 dn -> kept s dn \/ D dn.

Lemma adds_bind {A B} D (m : M VersionStore A) (f : A -> M VersionStore B) :
  adds D m -> (forall a, adds D (f a)) -> adds D (a ← m; f a).
Proof.
  intros Hm Hf s dn. rewrite bind_run. specialize (Hm s). destruct (m s) as [[a|e| |] s']; cbn in *; try by apply Hm.
  intros [H|H]%Hf; [by apply Hm | by right].
Qed.

Lemma adds_const {A} D (m : M VersionStore A) : (forall s, (m s).2 = s) -> adds D m.
Proof. intros H s dn. rewrite H. by left. Qed.

Lemma adds_versions D f :
  (forall m dn, is_Some (f m !! dn) -> is_Some (m !! dn) \/ D dn) -> adds D (set_versions f).
Proof. intros H s dn [Hk|Hk]; cbn in *; [destruct (H _ _ Hk); [left; by left | by right] | left; by right]. Qed.

Lemma adds_cache D f :
  (forall c dn, is_Some (entries (f c) !! dn) -> is_Some (entries c !! dn) \/ D dn) -> adds D (set_cache f).
Proof. intros H s dn [Hk|Hk]; cbn in *; [left; by left | destruct (H _ _ Hk); [left; by right | by right]]. Qed.

Lemma adds_heap D h : adds D (set_heap h).
Proof. intros s dn Hk. by left. Qed.

Lemma adds_writers D f : adds D (set_writers f).
Proof. intros s dn Hk. by left. Qed.

Lemma adds_allocate D v : adds D (allocate v).
Proof. intros s dn Hk. by left. Qed.

Lemma adds_deref D id : adds D (deref id).
Proof. intros s dn. unfold deref. destruct (heap s !! id); by left. Qed.

Lemma adds_get D d : adds D (cache_get d).
Proof.
  intros s dn. unfold cache_get, kept. pose proof (entries_Get (cache s) d) as Hg. destruct (Cache_Get _ d) as [e c].
  cbn in *. rewrite Hg. by left.
Qed.

Lemma adds_put (D : gostring -> Prop) dn id p sl : D dn -> adds D (set_cache (fun c => Cache_Put c dn id p sl)).
Proof. intros HD. apply adds_cache. intros c d [e [[-> _]|E]%entries_Put]; [by right | left; by exists e]. Qed.

Lemma adds_uncache D dn : adds D (set_cache (fun c => Cache_Delete c dn)).
Proof. apply adds_cache. intros c d [e E%entries_Delete]. left. by exists e. Qed.

Lemma adds_for_each {A} D (l : list A) body : (forall x, x ∈ l -> adds D (body x)) -> adds D (for_each l body).
Proof.
  intros H. induction l as [|x l IH]; cbn; [by apply adds_const |]. apply adds_bind; [apply H; left |]. intros _. apply IH.
  intros y Hy. apply H. by right.
Qed.

Ltac adds_step :=
  first [ apply adds_bind; [| intros ?] | apply adds_heap | apply adds_writers | apply adds_allocate | apply adds_deref
        | apply adds_get | apply adds_uncache | by apply adds_const | case_match ].

Lemma adds_latest D load dn : adds D (latest_version load dn).
Proof. unfold latest_version. repeat adds_step. Qed.

Lemma adds_register D txn dn : adds D (register_writer txn dn).
Proof. unfold register_writer. repeat adds_step. Qed.

Section Names.
Context {MI : MapIteration}.

Lemma adds_create load stored txn dn data : adds (fun d => d = dn) (CreateVersionWithLocation load stored txn dn data).
Proof.
  unfold CreateVersionWithLocation, clearActiveWriter. destruct txn as [txn|]; [| by apply adds_const].
  destruct (negb (IsActive txn)); [by apply adds_const |]. apply adds_bind; [apply adds_register |]. intros _.
  destruct stored as [[p sl]|e| |]; try (by apply adds_const); [| by repeat adds_step].
  apply adds_bind; [apply adds_latest |]. intros prev. apply adds_bind; [apply adds_allocate |]. intros id.
  apply adds_bind; [| intros _; apply adds_bind; [by apply adds_put | intros _; by apply adds_const]].
  apply adds_versions. intros m d [v [[<- _]|[_ E]]%lookup_insert_Some]; [by right | left; by exists v].
Qed.

Lemma adds_delete load txn dn : adds (fun d => d = dn) (DeleteVersion load txn dn).
Proof.
  unfold DeleteVersion. destruct txn as [txn|]; [| by apply adds_const].
  destruct (negb (IsActive txn)); [by apply adds_const |]. apply adds_bind; [apply adds_latest |]. intros [latest|]; [| by apply adds_const].
  apply adds_bind; [apply adds_register |]. intros _. apply adds_bind; [apply adds_deref |]. intros v.
  apply adds_bind; [by apply adds_const |]. intros hd. apply adds_bind; [apply adds_allocate |]. intros id.
  apply adds_bind; [| intros _; apply adds_bind; [apply adds_uncache | intros _; by apply adds_const]].
  apply adds_versions. intros m d [x [[<- _]|[_ E]]%lookup_insert_Some]; [by right | left; by exists x].
Qed.

Lemma adds_commit_chain D txID ts fuel o : adds D (commit_chain txID ts fuel o).
Proof.
  revert o. induction fuel as [|fuel IH]; intros [id|]; cbn [commit_chain]; try (by apply adds_const);
    (apply adds_bind; [apply adds_deref |]); intros v; (apply adds_bind; [unfold commit_cell; repeat adds_step |]); intros _;
    [by apply adds_const | apply IH].
Qed.

Lemma adds_commit txn ts : adds (fun _ => False) (CommitVersion txn ts).
Proof.
  unfold CommitVersion. destruct txn as [txn|]; [| by apply adds_const]. apply adds_bind; [by apply adds_const |]. intros es.
  apply adds_for_each. intros e _. unfold commit_entry, clearActiveWriter. apply adds_bind; [by apply adds_const |]. intros fuel.
  apply adds_bind; [apply adds_commit_chain |]. intros _. apply adds_writers.
Qed.

(** A rollback only touches names that the store has versions of. *)
Lemma kept_rollback txn s dn : kept (RollbackVersion (Some txn) s).2 dn -> kept s dn.
Proof.
  unfold RollbackVersion. erewrite bind_ok by reflexivity. set (es := range (versions s)).
  assert (adds (fun d => exists id, (d, id) ∈ es) (for_each es (rollback_entry (tx_ID txn)))) as H.
  { apply adds_for_each. intros [d hd] Hin. unfold rollback_entry, clearActiveWriter. apply adds_bind; [by apply adds_const |].
    intros [id|]; (apply adds_bind; [| intros _; apply adds_writers]).
    - case_decide; [| by apply adds_const]. apply adds_versions. intros m d' [x [[<- _]|[_ E]]%lookup_insert_Some];
        [right; by exists hd | left; by exists x].
    - apply adds_bind; [| intros _; apply adds_uncache]. apply adds_versions. intros m d' [x [_ E]%lookup_delete_Some]. left. by exists x. }
  intros [Hk|[id Hin]]%H; [done |]. left. apply elem_of_range in Hin. by exists id.
Qed.

(** A name the store does not know, and the disk does not have. *)
Lemma read_unknown load dn snapshot t s :
  ~ kept s dn -> load dn = None ->
  exists c, GetVisibleForTx (Some load) dn snapshot t s =
      (Err ErrVersionNotFound, mkVersionStore (heap s) (versions s) c (activeWriters s))
    /\ c = (Cache_Get (cache s) dn).2 /\ entries c = entries (cache s).
Proof.
  intros Hk Hl. unfold kept in Hk.
  assert (versions s !! dn = None) as Hv by (apply eq_None_not_Some; tauto).
  assert (entries (cache s) !! dn = None) as Hc by (apply eq_None_not_Some; tauto).
  exists (Cache_Get (cache s) dn).2. split_and!; [| done | apply entries_Get].
  unfold GetVisibleForTx. rewrite bind_run. cbn. rewrite Hv, bind_run. unfold walk_from.
  assert (walk (heap s) (fun v => IsVisibleTo v snapshot t) (length (heap s)) None = Ok None) as -> by by destruct (length (heap s)).
  cbn. rewrite bind_run. unfold cache_get, Cache_Get. rewrite Hc. cbn. unfold read_disk. by rewrite Hl.
Qed.
End Names.

(** ** The end of a transaction *)

Lemma a_end_history A t ts dns dn :
  (forall d w, pend A !! d = Some (t, w) -> d ∈ dns) ->
  history (a_end A t ts dns) dn =
  match pend A !! dn, ts with
  | Some (t', w), Some ts => if decide (t' = t) then (ts, w) :: history A dn else history A dn
  | _, _ => history A dn
  end.
Proof.
  intros Hd. unfold a_end. change (pend A) with (pend (retire A t)) in Hd |- *. change (history A dn) with (history (retire A t) dn).
  generalize dependent (retire A t). clear A. induction dns as [|d dns IH]; intros B HB; cbn [foldl].
  - destruct (pend B !! dn) as [[t' w]|] eqn:E; [| done]. destruct ts; [| done]. rewrite decide_False; [done |].
    intros ->. apply HB in E. set_solver.
  - destruct (settle_cases t ts B d) as [(w & E & Es)|[E Es]]; rewrite IH.
    + destruct (decide (dn = d)) as [->|Hn].
      * rewrite Es. cbn. rewrite lookup_delete_eq, E. destruct ts; [| done]. rewrite decide_True by done. by rewrite history_insert.
      * by destruct (settle_other t ts B d dn Hn) as [-> ->].
    + intros d' w'. rewrite Es. cbn. intros [Hne Hp]%lookup_delete_Some. apply HB in Hp. set_solver.
    + by rewrite Es.
    + rewrite Es. intros d' w' Hp. pose proof (HB _ _ Hp) as [->|?]%elem_of_cons; [by apply E in Hp | done].
Qed.

Lemma a_end_horizon A t ts dns : horizon (a_end A t ts dns) = horizon A.
Proof.
  unfold a_end. change (horizon A) with (horizon (retire A t)). generalize (retire A t).
  induction dns as [|d dns IH]; intros B; cbn; [done |]. by rewrite IH, settle_horizon.
Qed.

(** ** The log *)

Definition cipher_ok (key : option Cipher) : Prop :=
  forall k nonce d, key = Some k -> exists c, Encrypt k nonce d = Ok c /\ Decrypt k c = Ok d /\ len c <= len d + 64.

Record wal_ready (key : option Cipher) (w : WAL) : Prop := mkWalReady {
  wy_key : encryptionKey w = key;
  wy_open : wclosed w = false;
  wy_pos : 0 <= bufferPos w <= WALBufferSize
}.

Lemma flush_ready key w : wal_ready key w -> exists w', flushBuffer w = (Ok tt, w') /\ wal_ready key w' /\ bufferPos w' = 0.
Proof.
  intros [Hk Ho Hp]. unfold flushBuffer. case_decide as H0; [by exists w |]. rewrite decide_False by lia.
  eexists. split_and!; [done | | done]. by constructor.
Qed.

Lemma sync_ready key w : wal_ready key w -> exists w', Wal.Sync w = (Ok tt, w') /\ wal_ready key w'.
Proof.
  intros Hw. destruct (flush_ready _ _ Hw) as (w' & Hf & Hw' & _). exists w'. split; [| done].
  unfold Wal.Sync. rewrite bind_run. cbn. by rewrite (wy_open _ _ Hw).
Qed.

Lemma append_ready key w nonce txID ty :
  cipher_ok key -> wal_ready key w ->
  exists lsn w', Wal.Append nonce (NewWALRecord 0 txID ty) w = (Ok lsn, w') /\ wal_ready key w'.
Proof.
  intros Hc Hw. pose proof Hw as [Hk Ho Hp]. unfold Wal.Append. rewrite bind_run. cbn [gets]. rewrite Ho.
  do 2 (rewrite bind_run; cbn [gets]).
  set (r := set_LSN (NewWALRecord 0 txID ty) (currentLSN w)). unfold Serialize.
  rewrite decide_False by (by intros [H|H]; vm_compute in H).
  match goal with |- context [encrypt _ nonce ?x] => set (plain := x) end.
  assert (len plain = 35) as Hlen by by (unfold plain; rewrite len_layout by done).
  assert (exists b, encrypt (encryptionKey w) nonce plain = Ok b /\ 0 <= len b <= 99) as (b & -> & Hb).
  { rewrite Hk. clearbody plain. destruct key as [k|] eqn:Ek; cbn; [| exists plain; split; [done | lia]].
    destruct (Hc k nonce plain eq_refl) as (c & -> & _ & Hl). exists c. pose proof (len_nonneg c). split; [done | lia]. }
  assert (uint32 (len b) = len b) as -> by (unfold uint32; apply Z.mod_small; lia).
  rewrite bind_run. cbn [gets]. rewrite bind_run.
  assert (exists w1, (if decide (bufferPos w + (WALRecordLengthSize + len b) > WALBufferSize) then flushBuffer else mret tt) w = (Ok tt, w1)
    /\ wal_ready key w1 /\ bufferPos w1 + 4 + len b <= WALBufferSize) as (w1 & -> & [Hk1 Ho1 Hp1] & Hfit).
  { case_decide as Hd.
    - destruct (flush_ready _ _ Hw) as (w1 & Hf & Hw1 & E). exists w1. split_and!; [done | done |]. rewrite E. unfold WALBufferSize. lia.
    - exists w. split_and!; [done | done |]. unfold WALRecordLengthSize in Hd. lia. }
  cbn. do 2 eexists. split; [reflexivity |]. constructor; cbn; try done. unfold WALRecordLengthSize. lia.
Qed.

(** ** The relation *)

Abbreviation attributes := (gmap gostring (list bytes)).
Abbreviation database := (gmap gostring attributes).

Section Sim.
Context {UT : UnicodeTables} {MI : MapIteration}.
Context (disk_limit : Z) (Hlimit : disk_limit < 2 ^ 62) (random : Z -> bytes).
Context (key : option Cipher) (Hkey : cipher_ok key).

(** A name as the engine stores it and the radix tree prints it. *)
Record canonical (dn : gostring) (p : path) : Prop := mkCanonical {
  cn_norm : normalizeDN dn = dn;
  cn_parse : ParseDN dn = Ok p;
  cn_print : JoinDNReverse p = dn
}.

(** The stored bytes of an entry. *)
Definition holds (dn : gostring) (data : bytes) (attrs : attributes) : Prop :=
  (decrypt key data ≫= deserializeEntry dn) = Ok (mkStorageEntry dn attrs).

Definition committed_view (A : adb) (dn : gostring) : option written := snd <$> List.hd_error (history A dn).

Definition view (A : adb) (dn : gostring) : option written :=
  match pend A !! dn with Some (_, w) => Some w | None => committed_view A dn end.

Definition shows (v : gostring -> option written) (W : database) : Prop :=
  forall dn, match v dn with
             | Some (Some data) => exists attrs, W !! dn = Some attrs /\ holds dn data attrs
             | _ => W !! dn = None
             end.

(** The radix tree has the names of [W]. *)
Record named (E : directory) (W : database) : Prop := mkNamed {
  nm_to : forall dn attrs, W !! dn = Some attrs -> exists p, canonical dn p /\ is_Some (E !! p);
  nm_from : forall p, is_Some (E !! p) -> exists dn, canonical dn p /\ is_Some (W !! dn)
}.

(** The current transaction. *)
Record current (d : ObaDB) (A : adb) (t : Z) : Prop := mkCurrent {
  cu_obj : exists T, db_txns d !! t = Some T /\ tx_ID T = t /\ IsActive T = true /\ tx_Snapshot T = t;
  cu_active : db_active d = {[t]};
  cu_ended : t ∉ ended A;
  cu_id : t + 1 = db_nextTxID d;
  cu_pos : 0 < t;
  cu_clock : db_currentTS d < t;
  cu_pend : forall dn t' w, pend A !! dn = Some (t', w) -> t' = t
}.

(** The engine after at most [n] steps. *)
Record serves (n : Z) (d : ObaDB) (A : adb) (E P : directory) (C W : database) : Prop := mkServes {
  se_open : db_closed d = false;
  se_writable : db_readOnly d = false;
  se_key : db_key d = key;
  se_wal : wal_ready key (db_wal d);
  se_sim : MvccSim.Sim (db_versions d) A;
  se_horizon : horizon A = 0;
  se_kept : forall dn, kept (db_versions d) dn -> is_Some (view A dn);
  se_tree : tree disk_limit (db_radix d) E P ∅;
  se_named : named E W;
  se_size : Z.of_nat (size E) <= n;
  se_clock : 0 <= db_currentTS d < db_nextTxID d;
  se_next : db_nextTxID d <= n + 1;
  se_ended : forall t, t ∈ ended A -> t < db_nextTxID d;
  se_ts : forall dn, Forall (fun x => 0 < x.1 <= db_currentTS d) (history A dn);
  se_committed : shows (committed_view A) C;
  se_working : shows (view A) W
}.

Lemma alook_head K ts snapshot :
  Forall (fun x => 0 < x.1 <= ts) K -> ts <= snapshot -> alook K snapshot = snd <$> List.hd_error K.
Proof.
  intros HK Hs. destruct HK as [|x K Hx _]; [done |]. unfold alook. cbn. by rewrite bool_decide_true by lia.
Qed.

Lemma aread_view n d A E P C W t dn : serves n d A E P C W -> current d A t -> aread A dn t t = view A dn.
Proof.
  intros Hs Hc. unfold aread, view. destruct (pend A !! dn) as [[t' w]|] eqn:Ep.
  - by rewrite decide_True by (by eapply (cu_pend _ _ _ Hc)).
  - eapply alook_head; [apply (se_ts _ _ _ _ _ _ _ Hs) |].
    pose proof (se_clock _ _ _ _ _ _ _ Hs). pose proof (cu_id _ _ _ Hc). lia.
Qed.

(** The disk has no page for a name that is not in [W]. *)
Lemma loader_none n d A E P C W dn p :
  serves n d A E P C W -> canonical dn p -> W !! dn = None ->
  exists load, disk_loader d = Some load /\ load dn = None.
Proof.
  intros Hs Hc Hw. eexists. split; [reflexivity |]. cbn. rewrite (Lookup_run _ _ _ _ _ dn (se_tree _ _ _ _ _ _ _ Hs)).
  rewrite (cn_parse _ _ Hc). cbn. destruct (E !! p) as [[pg sl]|] eqn:Ep; [| done].
  destruct (nm_from _ _ (se_named _ _ _ _ _ _ _ Hs) p ltac:(by eexists)) as (dn' & Hc' & [a Ha]).
  assert (dn' = dn) as -> by by rewrite <- (cn_print _ _ Hc'), <- (cn_print _ _ Hc). congruence.
Qed.

(** Only the version store changed, and not what it holds. *)
Lemma serves_versions n d A E P C W s :
  serves n d A E P C W -> MvccSim.Sim s A -> (forall dn, kept s dn -> kept (db_versions d) dn) ->
  serves n (set_versionStore s d) A E P C W.
Proof. intros [] Hsim Hk. constructor; try done. cbn. auto. Qed.

Lemma current_versions d A t s : current d A t -> current (set_versionStore s d) A t.
Proof. by intros []. Qed.

(** ** Reading *)

(** A version as the reader gets it. *)
Definition version_of (r : outcome Version) (dn : gostring) (o : option attributes) : Prop :=
  match o with
  | Some attrs => exists v, r = Ok v /\ holds dn (v_Data v) attrs
  | None => r = Err ErrVersionNotFound \/ r = Err ErrVersionDeleted
  end.

Lemma get_visible_run n d A E P C W t dn p :
  serves n d A E P C W -> current d A t -> canonical dn p ->
  exists r s, get_visible dn t t d = (r, set_versionStore s d)
    /\ serves n (set_versionStore s d) A E P C W /\ version_of r dn (W !! dn)
    /\ (is_Some (view A dn) \/ r = Err ErrVersionNotFound).
Proof.
  intros Hs Hc Hcan. pose proof (se_working _ _ _ _ _ _ _ Hs dn) as Hshow. pose proof (se_sim _ _ _ _ _ _ _ Hs) as ([own Hi] & H0 & Hp).
  unfold get_visible. erewrite bind_ok by reflexivity. unfold on_versions.
  destruct (view A dn) as [w|] eqn:Hv.
  - destruct (read_answer _ _ A (disk_loader d) dn t t w Hi) as [Hans Hst].
    + apply (cu_ended _ _ _ Hc).
    + rewrite (se_horizon _ _ _ _ _ _ _ Hs). pose proof (se_clock _ _ _ _ _ _ _ Hs). pose proof (cu_id _ _ _ Hc). lia.
    + by rewrite (aread_view n d A E P C W).
    + destruct (GetVisibleForTx (disk_loader d) dn t t (db_versions d)) as [r s] eqn:Er. cbn in Hst. subst s.
      exists r, (db_versions d). split_and!; [done | by apply serves_versions; try done; apply Hs | | left; by eexists].
      unfold result in Hans. cbn in Hans. destruct w as [data|]; cbn in Hans.
      * destruct Hshow as (attrs & Hw & Hh). rewrite Hw. destruct r as [v| | |]; try done. injection Hans as <-. by exists v.
      * rewrite Hshow. right. by destruct r; simplify_eq.
  - destruct (loader_none _ _ _ _ _ _ _ _ _ Hs Hcan Hshow) as (load & El & Hl). rewrite El.
    assert (~ kept (db_versions d) dn) as Hk.
    { intros Hk. apply (se_kept _ _ _ _ _ _ _ Hs) in Hk as [w Hw]. congruence. }
    destruct (read_unknown load dn t t (db_versions d) Hk Hl) as (c & -> & Hcg & Hce). do 2 eexists.
    split_and!; [reflexivity | | rewrite Hshow; by left | by right]. apply serves_versions; [done | |].
    + split_and!; [| done | done]. exists own. rewrite Hcg. by apply Inv_get.
    + intros dn'. unfold kept. cbn. by rewrite Hce.
Qed.

Lemma decrypt_run n d A E P C W data :
  serves n d A E P C W -> decryptData data d = (decrypt key data, d).
Proof. intros Hs. unfold decryptData. erewrite bind_ok by reflexivity. by rewrite (se_key _ _ _ _ _ _ _ Hs). Qed.

Lemma transaction_run d A t : current d A t ->
  exists T, transaction t d = (Ok T, d) /\ tx_ID T = t /\ IsActive T = true /\ tx_Snapshot T = t.
Proof.
  intros [(T & HT & HID & HA & HS) _ _ _ _ _ _]. exists T. split_and!; try done. unfold transaction. erewrite bind_ok by reflexivity. by rewrite HT.
Qed.

Lemma reader_run d A t : current d A t -> reader (Some t) d = (Ok (t, t), d).
Proof.
  intros Hc. destruct (transaction_run d A t Hc) as (T & HT & HID & _ & HS). unfold reader. rewrite (bind_ok _ _ _ _ _ HT). by rewrite HID, HS.
Qed.

(** The entry that [W] has under a name. *)
Definition entry_in (W : database) (dn : gostring) : option StorageEntry := mkStorageEntry dn <$> W !! dn.

Lemma entry_at_run n d A E P C W t dn p :
  serves n d A E P C W -> current d A t -> canonical dn p ->
  exists s, entry_at dn t t d = (Ok (inl (entry_in W dn)), set_versionStore s d) /\ serves n (set_versionStore s d) A E P C W.
Proof.
  intros Hs Hc Hcan. destruct (get_visible_run _ _ _ _ _ _ _ _ _ _ Hs Hc Hcan) as (r & s & Hg & Hs' & Hv & _).
  exists s. split; [| done]. unfold entry_at. rewrite bind_run. unfold try at 1. rewrite Hg. unfold entry_in.
  destruct (W !! dn) as [attrs|]; cbn in Hv |- *.
  - destruct Hv as (v & -> & Hh). cbn. rewrite bind_run. unfold try. rewrite bind_run, (decrypt_run _ _ _ _ _ _ _ _ Hs').
    unfold holds in Hh. destruct (decrypt key (v_Data v)) as [data| | |]; try done. cbn in Hh. unfold lift. by rewrite Hh.
  - by destruct Hv as [->| ->].
Qed.

Lemma Get_run n d A E P C W t dn p :
  serves n d A E P C W -> current d A t -> dn <> [] -> canonical (normalizeDN dn) p ->
  exists s, Engine_Get (Some t) dn d = (match entry_in W (normalizeDN dn) with Some e => Ok e | None => Err ErrNoEntry end, set_versionStore s d)
    /\ serves n (set_versionStore s d) A E P C W.
Proof.
  intros Hs Hc Hne Hcan. destruct (get_visible_run _ _ _ _ _ _ _ _ _ _ Hs Hc Hcan) as (r & s & Hg & Hs' & Hv & _).
  exists s. split; [| done]. unfold Engine_Get, when_db_open. rewrite bind_run. cbn [gets]. rewrite (se_open _ _ _ _ _ _ _ Hs), decide_False by done.
  rewrite (bind_ok _ _ _ _ _ (reader_run _ _ _ Hc)). cbn [fst snd]. rewrite bind_run. unfold try. rewrite Hg. unfold entry_in.
  destruct (W !! normalizeDN dn) as [attrs|]; cbn in Hv |- *.
  - destruct Hv as (v & -> & Hh). rewrite bind_run, (decrypt_run _ _ _ _ _ _ _ _ Hs').
    unfold holds in Hh. destruct (decrypt key (v_Data v)) as [data| | |]; try done. cbn in Hh. unfold lift. by rewrite Hh.
  - destruct Hv as [->| ->]; rewrite decide_True by auto; done.
Qed.
End Sim.
