(* ===== verification/EngineRead.v ===== *)
(** * Searches of the engine

    Iterators, the search for a uid and the test for children, against the maps of [serves]. *)

From S2P Require Import Prelude GoBinary GoStrings Page PageStore Wal Mvcc MvccSim.
From S2P Require Import RadixNode RadixPage RadixTree RadixShape RadixWalk RadixPersist RadixMap Index Search EntryCodec.
From S2P Require Import Engine EngineSim.

(** The path of a name that parses. *)
Definition path_of {UT : UnicodeTables} (dn : gostring) : path := match ParseDN dn with Ok p => p | _ => [] end.

(** The names of a search. *)
Definition in_scope (p : path) (scope : Z) (q : path) : Prop :=
  if decide (scope = ScopeBase) then q = p
  else if decide (scope = ScopeOneLevel) then p `prefix_of` q /\ length q = S (length p)
  else if decide (scope = ScopeSubtree) then p `prefix_of` q
  else False.

#[export] Instance in_scope_dec p scope q : Decision (in_scope p scope q).
Proof. unfold in_scope. repeat case_decide; apply _. Defined.

(** The entries of [W] whose path is selected. *)
Definition found {UT : UnicodeTables} (W : database) (sel : path -> Prop) `{forall q, Decision (sel q)} (g : StorageEntry -> bool)
    : list StorageEntry :=
  List.filter g ((fun kv => mkStorageEntry kv.1 kv.2) <$> map_to_list (filter (fun kv => sel (path_of kv.1)) W)).

Section Read.
Context {UT : UnicodeTables} {MI : MapIteration}.
Context (disk_limit : Z) (Hlimit : disk_limit < 2 ^ 62).
Context (key : option Cipher) (Hkey : cipher_ok key).

Abbreviation serves := (serves disk_limit key).

(** [d'] is [d] after some reading. *)
Definition after_reads (d d' : ObaDB) : Prop := exists s, d' = set_versionStore s d.

Lemma reads_refl d : after_reads d d.
Proof. exists (db_versions d). by destruct d. Qed.

Lemma reads_trans d d' d'' : after_reads d d' -> after_reads d' d'' -> after_reads d d''.
Proof. intros [s ->] [s' ->]. by exists s'. Qed.

Lemma reads_current d d' A t : after_reads d d' -> current d A t -> current d' A t.
Proof. intros [s ->]. apply current_versions. Qed.

Lemma reads_radix d d' : after_reads d d' -> db_radix d' = db_radix d.
Proof. by intros [s ->]. Qed.

(** ** Names *)

Lemma canonical_path dn p : canonical dn p -> path_of dn = p.
Proof. intros Hc. unfold path_of. by rewrite (cn_parse _ _ Hc). Qed.

Lemma canonical_inj dn dn' p : canonical dn p -> canonical dn' p -> dn = dn'.
Proof. intros Hc Hc'. by rewrite <- (cn_print _ _ Hc), <- (cn_print _ _ Hc'). Qed.

Lemma named_entry E W p : named E W -> is_Some (E !! p) -> canonical (JoinDNReverse p) p /\ is_Some (W !! JoinDNReverse p).
Proof. intros Hn Hp. destruct (nm_from _ _ Hn p Hp) as (dn & Hc & Hw). by rewrite (cn_print _ _ Hc). Qed.

Lemma named_name E W dn : named E W -> is_Some (W !! dn) -> canonical dn (path_of dn) /\ is_Some (E !! path_of dn).
Proof.
  intros Hn [a Ha]. destruct (nm_to _ _ Hn dn a Ha) as (p & Hc & Hp). by rewrite (canonical_path _ _ Hc).
Qed.

(** A list of names is the names of [W] that [sel] selects. *)
Definition lists (names : list gostring) (W : database) (sel : path -> Prop) : Prop :=
  NoDup names /\ Forall (fun dn => canonical dn (path_of dn)) names
  /\ forall dn, is_Some (W !! dn) -> (dn ∈ names <-> sel (path_of dn)).

Definition pick (W : database) (g : StorageEntry -> bool) (dn : gostring) : option StorageEntry :=
  match entry_in W dn with Some e => if g e then Some e else None | None => None end.

Lemma pick_some W g dn e : pick W g dn = Some e <-> exists a, W !! dn = Some a /\ e = mkStorageEntry dn a /\ g e = true.
Proof.
  unfold pick, entry_in. destruct (W !! dn) as [a|]; cbn; [| split; [done | by intros (? & ? & _)]].
  destruct (g (mkStorageEntry dn a)) eqn:Eg; split; [intros [= <-]; eauto | by intros (a' & [= <-] & -> & _) | done |].
  intros (a' & [= <-] & -> & Hg). congruence.
Qed.

Lemma lists_found names W sel `{forall q, Decision (sel q)} g :
  lists names W sel -> omap (pick W g) names ≡ₚ found W sel g.
Proof.
  intros (Hnd & _ & Hin). unfold found. apply NoDup_Permutation.
  - clear Hin. induction Hnd as [|dn names Hdn _ IH]; cbn; [constructor |]. destruct (pick W g dn) as [e|] eqn:Ee; [| done].
    constructor; [| done]. intros (dn' & Hdn' & Ee')%list_elem_of_omap. apply pick_some in Ee as (a & _ & -> & _).
    apply pick_some in Ee' as (a' & _ & [= -> _] & _). done.
  - apply NoDup_ListNoDup, List.NoDup_filter, NoDup_ListNoDup. apply NoDup_fmap_2; [| apply NoDup_map_to_list].
    intros [k v] [k' v'] [= -> ->]. done.
  - intros e. rewrite list_elem_of_omap. rewrite list_elem_of_In, List.filter_In, <- list_elem_of_In, list_elem_of_fmap. split.
    + intros (dn & Hdn & (a & Ha & -> & Hg)%pick_some). split; [| done]. exists (dn, a). split; [done |].
      apply elem_of_map_to_list, map_lookup_filter_Some. split; [done |]. cbn. by apply Hin.
    + intros [([dn a] & -> & Hkv) Hg]. apply elem_of_map_to_list, map_lookup_filter_Some in Hkv as [Ha Hs]. cbn in *.
      exists dn. split; [by apply Hin | apply pick_some; eauto].
Qed.

(** The names of entries of the tree. *)
Lemma names_list (E : directory) (W : database) (D : directory) (sel : path -> Prop) (l : list gostring) :
  named E W -> D ⊆ E -> (forall q, is_Some (E !! q) -> (is_Some (D !! q) <-> sel q)) ->
  l ≡ₚ (fun kv => JoinDNReverse kv.1) <$> map_to_list D -> lists l W sel.
Proof.
  intros Hn HD Hsel Hl.
  assert (forall q, is_Some (D !! q) -> is_Some (E !! q)) as Hsub by (intros q [x Hx]; exists x; by eapply lookup_weaken).
  assert (forall dn, dn ∈ l -> exists q, dn = JoinDNReverse q /\ is_Some (D !! q) /\ canonical dn q) as Hfrom.
  { intros dn Hdn. rewrite Hl in Hdn. apply list_elem_of_fmap in Hdn as ([q x] & -> & Hq%elem_of_map_to_list). cbn.
    exists q. assert (is_Some (D !! q)) as HDq by by eexists. split_and!; [done | done |]. apply (named_entry E W); auto. }
  split_and!.
  - assert (l ≡ₚ JoinDNReverse <$> (map_to_list D).*1) as -> by (rewrite Hl, <- list_fmap_compose; done). apply NoDup_fmap_2_strong; [| apply NoDup_fst_map_to_list].
    intros p q Hp Hq Ee. apply list_elem_of_fmap in Hp as ([p' x] & -> & Hp%elem_of_map_to_list).
    apply list_elem_of_fmap in Hq as ([q' y] & -> & Hq%elem_of_map_to_list). cbn [fst] in *.
    destruct (named_entry E W p' Hn ltac:(apply Hsub; by eexists)) as [Hc _].
    destruct (named_entry E W q' Hn ltac:(apply Hsub; by eexists)) as [Hc' _].
    rewrite Ee in Hc. rewrite <- (canonical_path _ _ Hc). apply (canonical_path _ _ Hc').
  - apply Forall_forall. intros dn Hdn. destruct (Hfrom dn Hdn) as (q & _ & _ & Hc). by rewrite (canonical_path _ _ Hc).
  - intros dn Hw. destruct (named_name E W dn Hn Hw) as [Hc HE]. rewrite <- Hsel by done. split.
    + intros Hdn. destruct (Hfrom dn Hdn) as (q & _ & HDq & Hc'). by rewrite (canonical_path _ _ Hc').
    + intros [x Hx]. rewrite Hl. apply list_elem_of_fmap. exists (path_of dn, x). split; [symmetry; apply (cn_print _ _ Hc) |].
      by apply elem_of_map_to_list.
Qed.

(** ** Iterators *)

(** The matcher [m] returns on the entries of [W], and says [g]. *)
Definition matches (W : database) (m : StorageEntry -> outcome bool) (g : StorageEntry -> bool) : Prop :=
  forall dn e, entry_in W dn = Some e -> m e = Ok (g e).

(** An iterator of the reader [t] with the names [l] to come, and its filter. *)
Definition gives (W : database) (rt : RadixTree) (t : Z) (it : ObaIterator) (l : list gostring) (g : StorageEntry -> bool) : Prop :=
  match it with
  | errorIterator _ => False
  | dnIterator r s x err =>
      s = t /\ x = t /\ err = None /\ (exists es, yields rt r es /\ l = (es.*1).*1) /\ g = (fun _ => true)
  | filterIterator r f s x err =>
      s = t /\ x = t /\ err = None /\ (exists es, yields rt r es /\ l = (es.*1).*1) /\ exists m, f = Some m /\ matches W m g
  | allEntriesIterator names s x err => s = t /\ x = t /\ err = None /\ l = names /\ g = (fun _ => true)
  end.

(** What a search for the next entry leaves. *)
Definition left (W : database) (g : StorageEntry -> bool) (l l' : list gostring) : Prop :=
  omap (pick W g) l' = tail (omap (pick W g) l) /\ l' ⊆ l /\ (length l' <= length l)%nat.

Lemma left_skip W g dn l l' : pick W g dn = None -> left W g l l' -> left W g (dn :: l) l'.
Proof. intros Hp (H1 & H2 & H3). split_and!; [cbn; by rewrite Hp | set_solver | cbn; lia]. Qed.

Lemma left_take W g dn l e : pick W g dn = Some e -> left W g (dn :: l) l.
Proof. intros Hp. split_and!; [cbn; by rewrite Hp | set_solver | cbn; lia]. Qed.

Lemma next_entry_run n A E P C W t f g fuel d r es :
  serves n d A E P C W -> current d A t -> yields (db_radix d) r es ->
  Forall (fun dn => canonical dn (path_of dn)) (es.*1).*1 -> (length es < fuel)%nat ->
  (f = None /\ g = (fun _ => true)) \/ (exists m, f = Some m /\ matches W m g) ->
  exists d' r' es', next_entry fuel f r t t None d = (Ok (hd_error (omap (pick W g) (es.*1).*1), r', None), d')
    /\ after_reads d d' /\ serves n d' A E P C W /\ yields (db_radix d) r' es' /\ left W g (es.*1).*1 (es'.*1).*1.
Proof.
  intros Hs Hc Hy Hcan Hf Hg. revert d r es Hs Hc Hy Hcan Hf.
  induction fuel as [|fuel IH]; intros d r es Hs Hc Hy Hcan Hf; [lia |]. cbn [next_entry].
  destruct (yields_next _ _ _ Hy) as (r' & Hn & Hy').
  assert (on_radix (RadixTree.Next r) d = (Ok (hd_error es, r'), d)) as Hn' by (unfold on_radix; rewrite Hn; by destruct d).
  rewrite (bind_ok _ _ _ _ _ Hn'). destruct es as [|[[dn pg] sl] es]; cbn [hd_error fst snd].
  { exists d, r', []. cbn. split_and!; [done | apply reads_refl | done | done |]. by split_and!. }
  apply Forall_cons in Hcan as [Hdn Hcan]. cbn in Hdn.
  destruct (entry_at_run _ _ _ _ _ _ _ _ _ _ _ _ Hs Hc Hdn) as (s & He & Hs'). rewrite (bind_ok _ _ _ _ _ He).
  assert (after_reads d (set_versionStore s d)) as Hr by by eexists.
  assert (forall o, pick W g dn = None -> o = next_entry fuel f r' t t None (set_versionStore s d) ->
    exists d' r' es', o = (Ok (hd_error (omap (pick W g) (((dn, pg, sl) :: es).*1).*1), r', None), d')
    /\ after_reads d d' /\ serves n d' A E P C W /\ yields (db_radix d) r' es' /\ left W g (((dn, pg, sl) :: es).*1).*1 (es'.*1).*1) as Hskip.
  { intros o Hp ->. destruct (IH _ r' es Hs' (reads_current _ _ _ _ Hr Hc) Hy' Hcan ltac:(cbn in Hf; lia)) as (d' & r2 & es' & -> & Hr' & Hs2 & Hy2 & Hl).
    exists d', r2, es'. cbn. rewrite Hp. split_and!; [done | exact (reads_trans _ _ _ Hr Hr') | done | done | by apply left_skip]. }
  destruct (entry_in W dn) as [e|] eqn:Ee; [| apply Hskip; [unfold pick; by rewrite Ee | done]].
  assert ((match f with None => mret true | Some f => lift (f e) end) (set_versionStore s d) = (Ok (g e), set_versionStore s d)) as Hm
    by (destruct Hg as [[-> ->]|(m & -> & Hm)]; [done | cbn; by rewrite (Hm dn e Ee)]).
  rewrite (bind_ok _ _ _ _ _ Hm). destruct (g e) eqn:Eg; [| apply Hskip; [unfold pick; by rewrite Ee, Eg | done]].
  assert (pick W g dn = Some e) as Hp by (unfold pick; by rewrite Ee, Eg).
  exists (set_versionStore s d), r', es. cbn. rewrite Hp. split_and!; [done | done | done | done | by eapply left_take].
Qed.

Lemma next_name_run n A E P C W t l d :
  serves n d A E P C W -> current d A t -> Forall (fun dn => canonical dn (path_of dn)) l ->
  exists d' l', next_name l t t None d = (Ok (hd_error (omap (pick W (fun _ => true)) l), l', None), d')
    /\ after_reads d d' /\ serves n d' A E P C W /\ left W (fun _ => true) l l'.
Proof.
  intros Hs Hc Hcan. revert d Hs Hc. induction Hcan as [|dn l Hdn _ IH]; intros d Hs Hc; cbn [next_name].
  { exists d, []. split_and!; [done | apply reads_refl | done |]. by split_and!. }
  destruct (entry_at_run _ _ _ _ _ _ _ _ _ _ _ _ Hs Hc Hdn) as (s & He & Hs'). rewrite (bind_ok _ _ _ _ _ He).
  assert (after_reads d (set_versionStore s d)) as Hr by by eexists.
  destruct (entry_in W dn) as [e|] eqn:Ee.
  - assert (pick W (fun _ => true) dn = Some e) as Hp by (unfold pick; by rewrite Ee).
    exists (set_versionStore s d), l. cbn. rewrite Hp. split_and!; [done | done | done | by eapply left_take].
  - assert (pick W (fun _ => true) dn = None) as Hp by (unfold pick; by rewrite Ee).
    destruct (IH _ Hs' (reads_current _ _ _ _ Hr Hc)) as (d' & l' & -> & Hr' & Hs2 & Hl).
    exists d', l'. cbn. rewrite Hp. split_and!; [done | exact (reads_trans _ _ _ Hr Hr') | done | by apply left_skip].
Qed.

Lemma iterator_Next_run n A E P C W t g it l d :
  serves n d A E P C W -> current d A t -> gives W (db_radix d) t it l g ->
  Forall (fun dn => canonical dn (path_of dn)) l -> (length l < S (length (r_nodes (db_radix d))))%nat ->
  exists d' it' l', iterator_Next it d = (Ok (hd_error (omap (pick W g) l), it'), d')
    /\ after_reads d d' /\ serves n d' A E P C W /\ gives W (db_radix d') t it' l' g /\ left W g l l' /\ iterator_Error it' = None.
Proof.
  intros Hs Hc Hg Hcan Hlen. destruct it as [e|r s x err|r f s x err|names s x err]; cbn [gives] in Hg; [done | | |].
  - destruct Hg as (-> & -> & -> & (es & Hy & ->) & ->). rewrite !length_fmap in Hlen.
    destruct (next_entry_run _ _ _ _ _ _ _ None (fun _ => true) _ _ _ _ Hs Hc Hy Hcan Hlen ltac:(by left)) as (d' & r' & es' & Hn & Hr & Hs' & Hy' & Hl).
    exists d', (dnIterator r' t t None), (es'.*1).*1. split_and!; try done.
    + cbn. erewrite bind_ok by reflexivity. by rewrite (bind_ok _ _ _ _ _ Hn).
    + cbn. rewrite (reads_radix _ _ Hr). split_and!; try done. by exists es'.
  - destruct Hg as (-> & -> & -> & (es & Hy & ->) & (m & -> & Hm)). rewrite !length_fmap in Hlen.
    destruct (next_entry_run _ _ _ _ _ _ _ (Some m) g _ _ _ _ Hs Hc Hy Hcan Hlen ltac:(right; by exists m)) as (d' & r' & es' & Hn & Hr & Hs' & Hy' & Hl).
    exists d', (filterIterator r' (Some m) t t None), (es'.*1).*1. split_and!; try done.
    + cbn. erewrite bind_ok by reflexivity. by rewrite (bind_ok _ _ _ _ _ Hn).
    + cbn. rewrite (reads_radix _ _ Hr). split_and!; try done; [by exists es' | by exists m].
  - destruct Hg as (-> & -> & -> & -> & ->).
    destruct (next_name_run _ _ _ _ _ _ _ _ _ Hs Hc Hcan) as (d' & l' & Hn & Hr & Hs' & Hl).
    exists d', (allEntriesIterator l' t t None), l'. split_and!; try done. cbn. by rewrite (bind_ok _ _ _ _ _ Hn).
Qed.

Lemma iter_all_run n A E P C W t g fuel it l acc d :
  serves n d A E P C W -> current d A t -> gives W (db_radix d) t it l g ->
  Forall (fun dn => canonical dn (path_of dn)) l -> (length l < S (length (r_nodes (db_radix d))))%nat ->
  (length (omap (pick W g) l) < fuel)%nat ->
  exists d', iter_all fuel it acc d = (Ok (acc ++ omap (pick W g) l, None), d') /\ after_reads d d' /\ serves n d' A E P C W.
Proof.
  revert it l acc d. induction fuel as [|fuel IH]; intros it l acc d Hs Hc Hg Hcan Hlen Hf; [lia |]. cbn [iter_all].
  destruct (iterator_Next_run _ _ _ _ _ _ _ _ _ _ _ Hs Hc Hg Hcan Hlen) as (d' & it' & l' & Hn & Hr & Hs' & Hg' & (Hl & Hsub & Hle) & He).
  rewrite (bind_ok _ _ _ _ _ Hn). cbn [fst snd].
  destruct (omap (pick W g) l) as [|e es] eqn:El; cbn [hd_error].
  - exists d'. rewrite He, app_nil_r. by split_and!.
  - cbn in Hl. destruct (IH it' l' (acc ++ [e]) d' Hs' (reads_current _ _ _ _ Hr Hc) Hg') as (d2 & H2 & Hr2 & Hs2).
    + apply Forall_forall. intros dn Hdn. rewrite Forall_forall in Hcan. apply Hcan. by apply Hsub.
    + rewrite (reads_radix _ _ Hr). lia.
    + rewrite Hl. cbn in Hf. lia.
    + exists d2. rewrite H2, Hl, <- app_assoc. split_and!; [done | exact (reads_trans _ _ _ Hr Hr2) | done].
Qed.

Lemma length_omap {X Y} (f : X -> option Y) l : (length (omap f l) <= length l)%nat.
Proof. induction l as [|x l IH]; [done |]. cbn. destruct (f x); cbn; lia. Qed.

Lemma iterator_collect_run n A E P C W t g it l d :
  serves n d A E P C W -> current d A t -> gives W (db_radix d) t it l g ->
  Forall (fun dn => canonical dn (path_of dn)) l -> (length l < S (length (r_nodes (db_radix d))))%nat ->
  exists d', collect_iter it d = (Ok (omap (pick W g) l, None), d') /\ after_reads d d' /\ serves n d' A E P C W.
Proof.
  intros Hs Hc Hg Hcan Hlen. unfold collect_iter, iter_fuel. erewrite bind_ok by reflexivity.
  apply (iter_all_run n A E P C W t g _ it l [] d); try done. pose proof (length_omap (pick W g) l). lia.
Qed.

(** ** Opening an iterator *)

Lemma scope_names E dn p scope :
  JoinDNReverse p = dn ->
  ((scope_entries E dn p scope).*1).*1 ≡ₚ (fun kv => JoinDNReverse kv.1) <$> map_to_list (filter (fun kv => in_scope p scope kv.1) E).
Proof.
  intros Hdn.
  assert (forall D : directory, (forall q x, D !! q = Some x <-> E !! q = Some x /\ in_scope p scope q) ->
    ((render <$> map_to_list D).*1).*1 ≡ₚ (fun kv => JoinDNReverse kv.1) <$> map_to_list (filter (fun kv => in_scope p scope kv.1) E)) as Hr.
  { intros D HD. assert (filter (fun kv => in_scope p scope kv.1) E = D) as ->; [| by rewrite <- !list_fmap_compose].
    apply map_eq. intros q. apply option_eq. intros x. by rewrite map_lookup_filter_Some, HD. }
  unfold scope_entries. unfold in_scope in Hr at 1. destruct (decide (scope = ScopeBase)).
  - rewrite <- (Hr (match E !! p with Some x => {[p := x]} | None => ∅ end)).
    + destruct (E !! p) as [[pg sl]|]; [| by rewrite map_to_list_empty]. rewrite map_to_list_singleton.
      cbn [fmap list_fmap fst snd render]. by rewrite Hdn.
    + intros q x. destruct (E !! p) as [y|] eqn:Ey; [rewrite lookup_singleton_Some; naive_solver |].
      rewrite lookup_empty. naive_solver.
  - destruct (decide (scope = ScopeOneLevel)); [| destruct (decide (scope = ScopeSubtree))].
    + apply Hr. intros q x. unfold one_below. rewrite map_lookup_filter_Some, below_lookup. cbn. naive_solver.
    + apply Hr. intros q x. by rewrite below_lookup.
    + rewrite <- (Hr ∅); [by rewrite map_to_list_empty |]. intros q x. rewrite lookup_empty. naive_solver.
Qed.

Lemma filter_names E W (sel : path -> Prop) `{forall q, Decision (sel q)} (l : list gostring) :
  named E W -> l ≡ₚ (fun kv => JoinDNReverse kv.1) <$> map_to_list (filter (fun kv : path * (Z * Z) => sel kv.1) E) -> lists l W sel.
Proof.
  intros Hn. apply (names_list E W); [done | apply map_filter_subseteq |]. intros q [x Hx].
  unfold is_Some. setoid_rewrite map_lookup_filter_Some. cbn. naive_solver.
Qed.

(** The iterator of a search below a canonical base. *)
Lemma radix_iterator_run n A E P C W base p scope d :
  serves n d A E P C W -> canonical base p ->
  exists it es, on_radix (RadixTree.Iterator base scope) d = (Ok it, d) /\ yields (db_radix d) it es
    /\ lists (es.*1).*1 W (in_scope p scope) /\ (length (es.*1).*1 < S (length (r_nodes (db_radix d))))%nat.
Proof.
  intros Hs Hc. destruct (Iterator_run disk_limit Hlimit _ _ _ _ base p scope (se_tree _ _ _ _ _ _ _ _ _ Hs) (cn_parse _ _ Hc)) as (it & es & Hi & Hy & Hp & Hlen).
  exists it, es. split_and!; [unfold on_radix; rewrite Hi; by destruct d | done | | by rewrite !length_fmap].
  apply (filter_names E W (in_scope p scope)); [apply (se_named _ _ _ _ _ _ _ _ _ Hs) |]. rewrite Hp. apply scope_names, (cn_print _ _ Hc).
Qed.

Lemma visit_names (l : list (path * (Z * Z))) acc :
  (visit (fun dn _ _ l => (true, l ++ [dn])) l acc).2 = acc ++ ((fun kv => JoinDNReverse kv.1) <$> l).
Proof.
  revert acc. induction l as [|[q [pg sl]] l IH]; intros acc; cbn; [by rewrite app_nil_r |]. by rewrite IH, <- app_assoc.
Qed.

Lemma all_names_run n A E P C W d :
  serves n d A E P C W ->
  exists names, on_radix (IterateSubtree [] (fun dn _ _ l => (true, l ++ [dn])) []) d = (Ok names, d)
    /\ lists names W (fun _ => True) /\ (length names < S (length (r_nodes (db_radix d))))%nat.
Proof.
  intros Hs. pose proof (se_tree _ _ _ _ _ _ _ _ _ Hs) as Ht.
  destruct (IterateSubtree_run disk_limit (fun dn _ _ l => (true, l ++ [dn])) _ _ _ _ [] [] [] Ht eq_refl) as (l & Hi & Hp).
  rewrite below_root in Hp. rewrite visit_names in Hi. cbn [app] in Hi.
  exists ((fun kv => JoinDNReverse kv.1) <$> l). split_and!; [unfold on_radix; rewrite Hi; by destruct d | |].
  - apply (filter_names E W (fun _ => True)); [apply (se_named _ _ _ _ _ _ _ _ _ Hs) |]. rewrite map_filter_id by done. by rewrite Hp.
  - rewrite length_fmap, (Permutation_length Hp), length_map_to_list. by apply (entries_bound disk_limit E _ _ _ _ Ht).
Qed.

Definition selects (base : gostring) (scope : Z) (q : path) : Prop :=
  if decide (base = [] /\ scope = ScopeSubtree) then True else in_scope (path_of base) scope q.

#[export] Instance selects_dec base scope q : Decision (selects base scope q).
Proof. unfold selects. case_decide; apply _. Defined.

Lemma SearchByDN_run n A E P C W t base scope d :
  serves n d A E P C W -> current d A t ->
  (normalizeDN base = [] /\ scope = ScopeSubtree) \/ canonical (normalizeDN base) (path_of (normalizeDN base)) ->
  exists it l, SearchByDN (Some t) base scope d = (Ok it, d) /\ gives W (db_radix d) t it l (fun _ => true)
    /\ lists l W (selects (normalizeDN base) scope) /\ (length l < S (length (r_nodes (db_radix d))))%nat.
Proof.
  intros Hs Hc Hbase. unfold SearchByDN, selects. erewrite bind_ok by reflexivity. rewrite (se_open _ _ _ _ _ _ _ _ _ Hs). cbn zeta.
  rewrite (bind_ok _ _ _ _ _ (reader_run _ _ _ Hc)). case_decide as Hall.
  - destruct (all_names_run _ _ _ _ _ _ _ Hs) as (names & Hn & Hl & Hlen).
    exists (allEntriesIterator names t t None), names. split_and!; [by rewrite (bind_ok _ _ _ _ _ Hn) | by split_and! | done | done].
  - destruct Hbase as [?|Hcan]; [done |]. destruct (radix_iterator_run _ _ _ _ _ _ _ _ scope _ Hs Hcan) as (it & es & Hi & Hy & Hl & Hlen).
    exists (dnIterator it t t None), (es.*1).*1. split_and!; [| | done | done].
    + rewrite bind_run. unfold try. by rewrite Hi.
    + split_and!; try done. by exists es.
Qed.

Lemma SearchByFilter_run n A E P C W t base m g d :
  serves n d A E P C W -> current d A t -> canonical (normalizeDN base) (path_of (normalizeDN base)) -> matches W m g ->
  exists it l, SearchByFilter (Some t) base (Some m) d = (Ok it, d) /\ gives W (db_radix d) t it l g
    /\ lists l W (in_scope (path_of (normalizeDN base)) ScopeSubtree) /\ (length l < S (length (r_nodes (db_radix d))))%nat.
Proof.
  intros Hs Hc Hcan Hm. unfold SearchByFilter. erewrite bind_ok by reflexivity. rewrite (se_open _ _ _ _ _ _ _ _ _ Hs).
  rewrite (bind_ok _ _ _ _ _ (reader_run _ _ _ Hc)).
  destruct (radix_iterator_run _ _ _ _ _ _ _ _ ScopeSubtree _ Hs Hcan) as (it & es & Hi & Hy & Hl & Hlen).
  exists (filterIterator it (Some m) t t None), (es.*1).*1. split_and!; [| | done | done].
  - rewrite bind_run. unfold try. by rewrite Hi.
  - split_and!; try done; [by exists es | by exists m].
Qed.

(** ** The uid of users *)

(** An entry with the uid under another name of the users' tree. *)
Definition clash (dn uid : gostring) (e : StorageEntry) : bool :=
  negb (bool_decide (se_DN e = [] \/ se_DN e = dn)) && isUsersSubtreeDN (se_DN e)
  && bytes_eqb (extractCanonicalUID (se_Attributes e)) uid.

Definition uid_taken (W : database) (dn : gostring) (attrs : attributes) : bool :=
  let uid := extractCanonicalUID attrs in
  negb (bool_decide (uid = [])) && isUsersSubtreeDN dn
  && existsb (clash dn uid) ((fun kv => mkStorageEntry kv.1 kv.2) <$> map_to_list W).

Lemma existsb_perm {X} (f : X -> bool) l l' : l ≡ₚ l' -> existsb f l = existsb f l'.
Proof.
  intros Hp. apply eq_true_iff_eq. rewrite !existsb_exists. f_equiv. intros x. by rewrite <- !list_elem_of_In, Hp.
Qed.

Lemma uid_scan_run n A E P C W t g fuel it l dn uid d :
  serves n d A E P C W -> current d A t -> gives W (db_radix d) t it l g ->
  Forall (fun dn => canonical dn (path_of dn)) l -> (length l < S (length (r_nodes (db_radix d))))%nat ->
  (length (omap (pick W g) l) < fuel)%nat ->
  exists d', uid_scan fuel it dn uid d = (if existsb (clash dn uid) (omap (pick W g) l) then Err ErrUIDNotUnique else Ok tt, d')
    /\ after_reads d d' /\ serves n d' A E P C W.
Proof.
  revert it l d. induction fuel as [|fuel IH]; intros it l d Hs Hc Hg Hcan Hlen Hf; [lia |]. cbn [uid_scan].
  destruct (iterator_Next_run _ _ _ _ _ _ _ _ _ _ _ Hs Hc Hg Hcan Hlen) as (d' & it' & l' & Hn & Hr & Hs' & Hg' & (Hl & Hsub & Hle) & He).
  rewrite (bind_ok _ _ _ _ _ Hn). cbn [fst snd].
  destruct (omap (pick W g) l) as [|e es] eqn:El; cbn [hd_error].
  - exists d'. rewrite He. by split_and!.
  - cbn in Hl. destruct (IH it' l' d' Hs' (reads_current _ _ _ _ Hr Hc) Hg') as (d2 & H2 & Hr2 & Hs2).
    + apply Forall_forall. intros x Hx. rewrite Forall_forall in Hcan. apply Hcan. by apply Hsub.
    + rewrite (reads_radix _ _ Hr). lia.
    + rewrite Hl. cbn in Hf. lia.
    + rewrite Hl in H2. pose proof (reads_trans _ _ _ Hr Hr2) as Hr3. cbn [existsb]. unfold clash at 1.
      destruct (decide (se_DN e = [] \/ se_DN e = dn)) as [Hd|Hd].
      { rewrite bool_decide_true by done. exists d2. by split_and!. }
      rewrite bool_decide_false by done. cbn [negb andb]. destruct (isUsersSubtreeDN (se_DN e)); cbn [negb andb]; [| exists d2; by split_and!].
      destruct (bytes_eqb _ uid); cbn [orb]; [exists d' | exists d2]; by split_and!.
Qed.

Lemma checkUIDUnique_run n A E P C W t dn attrs d :
  serves n d A E P C W -> current d A t ->
  exists d', checkUIDUnique t dn attrs d = (if uid_taken W dn attrs then Err ErrUIDNotUnique else Ok tt, d')
    /\ after_reads d d' /\ serves n d' A E P C W.
Proof.
  intros Hs Hc. unfold checkUIDUnique, uid_taken. cbn zeta. set (uid := extractCanonicalUID attrs).
  destruct (decide (uid = [])) as [E0|E0]; [rewrite bool_decide_true by done; exists d; split_and!; [done | apply reads_refl | done] |].
  rewrite bool_decide_false by done. destruct (isUsersSubtreeDN dn); cbn [negb andb]; [| exists d; split_and!; [done | apply reads_refl | done]].
  destruct (SearchByDN_run _ _ _ _ _ _ _ [] ScopeSubtree _ Hs Hc ltac:(by left)) as (it & l & Hi & Hg & Hl & Hlen).
  rewrite (bind_ok _ _ _ _ _ Hi). unfold iter_fuel. erewrite bind_ok by reflexivity.
  destruct (uid_scan_run n A E P C W t (fun _ => true) (S (length (r_nodes (db_radix d)))) it l dn uid d) as (d' & Hu & Hr & Hs'); try done.
  { by destruct Hl as (_ & ? & _). }
  { pose proof (length_omap (pick W (fun _ => true)) l). lia. }
  exists d'. rewrite Hu. split_and!; [| done | done]. erewrite existsb_perm; [done |].
  rewrite (lists_found l W (selects (normalizeDN []) ScopeSubtree)) by done. unfold found. rewrite map_filter_id by done.
  by induction (_ <$> _) as [|x xs IH]; cbn; [| rewrite IH].
Qed.

(** ** Children *)

Definition has_children (W : database) (p : path) : bool :=
  bool_decide (filter (fun kv => p `prefix_of` path_of kv.1 /\ path_of kv.1 <> p) W <> ∅).

Lemma Engine_HasChildren_run n A E P C W dn d :
  serves n d A E P C W -> dn <> [] -> canonical (normalizeDN dn) (path_of (normalizeDN dn)) ->
  Engine_HasChildren dn d = (Ok (has_children W (path_of (normalizeDN dn))), d).
Proof.
  intros Hs Hne Hc. unfold Engine_HasChildren, when_db_open. erewrite bind_ok by reflexivity.
  rewrite (se_open _ _ _ _ _ _ _ _ _ Hs), decide_False by done. unfold on_radix.
  rewrite (HasChildren_run disk_limit _ _ _ _ _ (se_tree _ _ _ _ _ _ _ _ _ Hs)), (cn_parse _ _ Hc). cbn.
  set (p := path_of (normalizeDN dn)). f_equal; [| by destruct d]. f_equal. unfold has_children. apply bool_decide_ext.
  pose proof (se_named _ _ _ _ _ _ _ _ _ Hs) as Hn. split; intros (q & x & Hq)%map_choose He; unfold strictly in *.
  - apply lookup_delete_Some in Hq as [Hpq [HE Hpre]%below_lookup].
    destruct (named_entry E W q Hn ltac:(by eexists)) as [Hcq [a Ha]].
    assert (filter (fun kv => p `prefix_of` path_of kv.1 /\ path_of kv.1 <> p) W !! JoinDNReverse q = Some a) as Hl; [| by rewrite He, lookup_empty in Hl].
    apply map_lookup_filter_Some. split; [done |]. cbn [fst]. by rewrite (canonical_path _ _ Hcq).
  - apply map_lookup_filter_Some in Hq as [Hq [Hpre Hpq]]. cbn in Hpre, Hpq.
    destruct (named_name E W q Hn ltac:(by eexists)) as [_ [y Hy]].
    assert (delete p (below p E) !! path_of q = Some y) as Hl; [| by rewrite He, lookup_empty in Hl].
    rewrite lookup_delete_ne by done. by apply below_lookup.
Qed.
End Read.
