(* ===== verification/EngineWrite.v ===== *)
(** * Writes and transactions of the engine *)

From S2P Require Import Prelude GoBinary GoStrings BTreeOps Page PageStore Wal Mvcc MvccSim MvccLoops MvccTheorems.
From S2P Require Import RadixNode RadixPage RadixTree RadixShape RadixWalk RadixPersist RadixMap Index Search EntryCodec.
From S2P Require Import Engine EngineSim EngineRead.

Section Write.
Context {UT : UnicodeTables} {MI : MapIteration}.
Context (disk_limit : Z) (Hlimit : disk_limit < 2 ^ 62) (random : Z -> bytes).
Context (key : option Cipher) (Hkey : cipher_ok key).

Abbreviation serves := (serves disk_limit key).

(** [serves] does not depend on the indexes, the transactions and the random numbers. *)
Record alike (d d' : ObaDB) : Prop := mkAlike {
  al_wal : db_wal d' = db_wal d;
  al_next : db_nextTxID d' = db_nextTxID d;
  al_ts : db_currentTS d' = db_currentTS d;
  al_versions : db_versions d' = db_versions d;
  al_radix : db_radix d' = db_radix d;
  al_key : db_key d' = db_key d;
  al_readOnly : db_readOnly d' = db_readOnly d;
  al_closed : db_closed d' = db_closed d
}.

Lemma serves_alike n d d' A E P C W : alike d d' -> serves n d A E P C W -> serves n d' A E P C W.
Proof. intros [H1 H2 H3 H4 H5 H6 H7 H8] []. by constructor; rewrite ?H1, ?H2, ?H3, ?H4, ?H5, ?H6, ?H7, ?H8. Qed.

Lemma serves_radix n d A E P C W t' P' :
  serves n d A E P C W -> tree disk_limit t' E P' ∅ -> serves n (set_radix t' d) A E P' C W.
Proof. intros [] Ht. by constructor. Qed.

(** ** Pages *)

Lemma tree_pm t E P A pg pm' A' :
  tree disk_limit t E P ∅ -> Rep disk_limit (r_pageManager t) A -> A !! r_rootPageID t = Some pg -> RadixPersist.holds pg P ->
  Rep disk_limit pm' A' -> A' !! r_rootPageID t = Some pg -> tree disk_limit (with_pm t pm') E P ∅.
Proof.
  intros [Hn Hsz _ _] _ _ Hh Hr' Hp'. constructor; [done | done | | done]. exists A', pg. split_and!; [done | | done | done].
  apply map_empty_subseteq.
Qed.

Lemma on_data_run {X} (m : M PageManager X) d r pm :
  m (r_pageManager (db_radix d)) = (r, pm) -> on_data m d = (r, set_radix (with_pm (db_radix d) pm) d).
Proof. intros Hm. unfold on_data, on_radix, RadixTree.on_pages. by rewrite Hm. Qed.

Lemma allocateStorage_run data d E P :
  tree disk_limit (db_radix d) E P ∅ ->
  (exists id t', allocateStorage disk_limit data d = (Ok (id, 0), set_radix t' d) /\ tree disk_limit t' E P ∅ /\ is_uint64 id)
  \/ (exists e, allocateStorage disk_limit data d = (Err e, d)
        /\ (AllocatePage disk_limit PageTypeData (r_pageManager (db_radix d))).1 = Err e).
Proof.
  intros Ht. pose proof Ht as [_ _ (A & pg & Hr & _ & Hpg & Hh) _]. unfold allocateStorage.
  destruct (alloc_run disk_limit Hlimit _ A PageTypeData Hr) as [(id & pm1 & Ha & Hid & Hr1)|(e & Ha & _)]; last first.
  { right. exists e. rewrite bind_run, (on_data_run _ _ _ _ Ha), Ha. split; [| done]. by destruct d as [? ? ? ? ? ? [] ? ? ? ? ?]. }
  left. exists id. rewrite (bind_ok _ _ _ _ _ (on_data_run _ _ _ _ Ha)). set (d1 := set_radix _ d).
  set (pg1 := stored (NewPage id PageTypeData)). assert (id <> r_rootPageID (db_radix d)) as Hne by congruence.
  destruct (read_op_run disk_limit Hlimit pm1 _ id Hr1) as (r & Hrd & _ & Hok).
  rewrite (Hok pg1 (lookup_insert_eq _ _ _)) in Hrd. rewrite (bind_ok _ _ _ _ _ (on_data_run _ d1 _ _ Hrd)).
  assert (0 < id < totalPages pm1) as Hrange by by apply (rep_pages _ _ _ Hr1 id pg1), lookup_insert_eq.
  assert (is_uint64 id) as H64 by by eapply page_id_uint64; [| apply Hr1 |].
  case_decide as Hfit; last first.
  { eexists. split_and!; [reflexivity | | done]. change (tree disk_limit (with_pm (db_radix d) pm1) E P ∅).
    eapply (tree_pm _ _ _ A pg); try done. by rewrite lookup_insert_ne. }
  match goal with |- context [WritePage ?p] => set (pg2 := p) end.
  destruct (write_op_run disk_limit Hlimit pm1 _ pg2 Hr1) as (r2 & pm2 & Hw & _ & Hok2); [by constructor |].
  change (ph_PageID (Header pg2)) with id in Hok2. rewrite lookup_insert_eq in Hok2. destruct Hok2 as [-> Hr2].
  rewrite (bind_ok _ _ _ _ _ (on_data_run _ (set_radix (with_pm (db_radix d1) pm1) d1) _ _ Hw)).
  eexists. split_and!; [reflexivity | | done]. change (tree disk_limit (with_pm (db_radix d) pm2) E P ∅).
  eapply (tree_pm _ _ _ A pg); try done. by rewrite !lookup_insert_ne.
Qed.

(** ** Encryption *)

Lemma encrypt_run data d :
  db_key d = key -> exists c d', encryptData random data d = (Ok c, d') /\ decrypt key c = Ok data /\ alike d d'
    /\ db_txns d' = db_txns d /\ db_active d' = db_active d /\ db_index d' = db_index d.
Proof.
  intros Hk. unfold encryptData. erewrite bind_ok by reflexivity. rewrite Hk. destruct key as [k|] eqn:Ek.
  - destruct (Hkey k (random (db_draws d)) data eq_refl) as (c & He & Hd & _).
    exists c, (set_draws (db_draws d + 1) d). split_and!; try done. unfold lift. erewrite bind_ok by reflexivity. by rewrite He.
  - by exists data, d.
Qed.

(** ** The version store *)

Lemma writes_own d A t dn n E P C W :
  serves n d A E P C W -> current d A t -> may_write A dn t /\ (forall w, activeWriters (db_versions d) !! dn = Some w -> w = t).
Proof.
  intros Hs Hc. destruct (se_sim _ _ _ _ _ _ _ _ _ Hs) as ([own Hi] & _ & _). split.
  - unfold may_write. destruct (pend A !! dn) as [[t' w]|] eqn:Ep; [by eapply cu_pend | done].
  - intros w. rewrite (inv_writers _ _ _ Hi), lookup_fmap. destruct (pend A !! dn) as [[t' w']|] eqn:Ep; [| done].
    intros [= <-]. by eapply cu_pend.
Qed.

(** A transaction object of [t] that may go on. *)
Definition going (T : Transaction) (t : Z) : Prop := tx_ID T = t /\ IsActive T = true /\ tx_Snapshot T = t.

Lemma going_add T t pg : going T t -> going (AddToWriteSet T pg) t.
Proof. done. Qed.

Lemma create_result load p sl T dn data s x s' :
  CreateVersionWithLocation load (Ok (p, sl)) (Some T) dn data s = (Ok x, s') -> x = (p, sl, AddToWriteSet T p).
Proof.
  unfold CreateVersionWithLocation. destruct (negb (IsActive T)); [done |]. rewrite bind_run.
  destruct (register_writer T dn s) as [[[]| | |] s1]; try done. rewrite bind_run.
  destruct (latest_version load dn s1) as [[prev| | |] s2]; try done. cbn. intros [= <- _]. done.
Qed.

Lemma delete_result load T dn s x s' :
  DeleteVersion load (Some T) dn s = (Ok x, s') -> exists pg, x = AddToWriteSet T pg.
Proof.
  unfold DeleteVersion. destruct (negb (IsActive T)); [done |]. rewrite bind_run.
  destruct (latest_version load dn s) as [[[id|]| | |] s1]; try done. rewrite bind_run.
  destruct (register_writer T dn s1) as [[[]| | |] s2]; try done. rewrite bind_run.
  destruct (deref id s2) as [[v| | |] s3]; try done. cbn. intros [= <- _]. by eexists.
Qed.

(** The effect of a write on the version store. *)
Definition stores (s s' : VersionStore) (A : adb) (dn : gostring) (t : Z) (w : written) : Prop :=
  MvccSim.Sim s' (a_write A dn t w) /\ forall x, kept s' x -> kept s x \/ x = dn.

Lemma create_stores s A load p sl T t dn data :
  MvccSim.Sim s A -> going T t -> t ∉ ended A -> t <> 0 -> may_write A dn t ->
  exists s', CreateVersionWithLocation load (Ok (p, sl)) (Some T) dn data s = (Ok (p, sl, AddToWriteSet T p), s')
    /\ stores s s' A dn t (Some data).
Proof.
  intros Hs (HID & HA & _) Ht H0 Hm. destruct (exec_simulates (OpWrite load p sl T dn data) s A Hs) as (A' & _ & Hst & Hs' & _).
  { cbn. by rewrite HID. }
  { by intros []. }
  pose proof (adds_create load (Ok (p, sl)) (Some T) dn data s) as Had. cbn [exec] in Hst, Hs'. unfold result in Hst, Hs'. cbn [fst snd] in Hst, Hs'.
  destruct (CreateVersionWithLocation load (Ok (p, sl)) (Some T) dn data s) as [r s'] eqn:Er. cbn [fst snd] in *.
  exists s'. inversion Hst as [|? ? ? ? ? ? _ Hr HA'|? ? ? ? ? ? Hbad| | | | | | | |]; subst; [| done].
  destruct r as [x| | |]; try done. rewrite (create_result _ _ _ _ _ _ _ _ _ Er). by split_and!.
Qed.

Lemma delete_stores s A load T t dn data :
  MvccSim.Sim s A -> horizon A <= t -> going T t -> t ∉ ended A -> t <> 0 -> may_write A dn t -> aread A dn t t = Some (Some data) ->
  exists pg s', DeleteVersion load (Some T) dn s = (Ok (AddToWriteSet T pg), s') /\ stores s s' A dn t None.
Proof.
  intros Hs Hz (HID & HA & _) Ht H0 Hm Hrd. destruct (exec_simulates (OpDelete load T dn) s A Hs) as (A' & _ & Hst & Hs' & _).
  { cbn. by rewrite HID. }
  { by intros []. }
  pose proof (adds_delete load (Some T) dn s) as Had. cbn [exec] in Hst, Hs'. unfold result in Hst, Hs'. cbn [fst snd] in Hst, Hs'.
  destruct (DeleteVersion load (Some T) dn s) as [r s'] eqn:Er. cbn [fst snd] in *.
  inversion Hst as [| | |? ? ? _ Hr HA'|? ? ? Hbad|? ? ? Hp Hno| | | | |]; subst.
  - destruct r as [x| | |]; try done. destruct (delete_result _ _ _ _ _ _ Er) as [pg ->]. exists pg, s'. by split_and!.
  - done.
  - unfold aread in Hrd. rewrite Hp, (Hno _ Hz) in Hrd. done.
Qed.

(** The engine after a write: versions [s], tree [tr]. *)
Lemma serves_write n d A E P C W t dn w s tr E' P' W' d' :
  serves n d A E P C W -> current d A t -> stores (db_versions d) s A dn t w -> tree disk_limit tr E' P' ∅ ->
  named E' W' -> Z.of_nat (size E') <= n + 1 ->
  match w with Some data => exists attrs, W' = <[dn := attrs]> W /\ EngineSim.holds key dn data attrs | None => W' = delete dn W end ->
  alike (set_versionStore s (set_radix tr d)) d' -> serves (n + 1) d' (a_write A dn t w) E' P' C W'.
Proof.
  intros Hs Hc [Hsim Hk] Htr Hn Hsz Hw Hal. eapply serves_alike; [exact Hal |]. clear Hal. destruct Hs. constructor; cbn; try done.
  - intros x Hx. unfold view. cbn. destruct (decide (x = dn)) as [->|Hne]; [rewrite lookup_insert_eq; by eexists |].
    rewrite lookup_insert_ne by done. apply Hk in Hx as [Hx|?]; [by apply se_kept | done].
  - lia.
  - intros x. unfold view. cbn. destruct (decide (x = dn)) as [->|Hne].
    + rewrite lookup_insert_eq. destruct w as [data|]; [destruct Hw as (attrs & -> & Hh) | subst W'; by rewrite lookup_delete_eq].
      exists attrs. by rewrite lookup_insert_eq.
    + rewrite lookup_insert_ne by done. pose proof (se_working x) as Hx. unfold view in Hx.
      assert (W' !! x = W !! x) as ->; [| exact Hx].
      destruct w as [data|]; [destruct Hw as (attrs & -> & _); by rewrite lookup_insert_ne | subst W'; by rewrite lookup_delete_ne].
Qed.

Lemma current_write d A t dn w d' T :
  current d A t -> going T t -> db_txns d' = <[t := T]> (db_txns d) -> db_active d' = db_active d -> db_nextTxID d' = db_nextTxID d ->
  db_currentTS d' = db_currentTS d -> current d' (a_write A dn t w) t.
Proof.
  intros [_ Ha He Hid H0 Hts Hp] (HID & HA & HS) Ht' Ha' Hn' Hts'. constructor; cbn; try congruence.
  - exists T. rewrite Ht', lookup_insert_eq. done.
  - intros x t' w' [[<- [= <- _]]|[_ Hx]]%lookup_insert_Some; [done | by eapply Hp].
Qed.
(** ** Creating a version *)

Lemma create_version_run n d A E P C W t T dn data :
  serves n d A E P C W -> current d A t -> going T t ->
  (exists id s tr, create_version disk_limit T dn data d =
      (Ok (id, 0), set_txns (<[t := AddToWriteSet T id]> (db_txns d)) (set_versionStore s (set_radix tr d)))
    /\ is_uint64 id /\ tree disk_limit tr E P ∅ /\ stores (db_versions d) s A dn t (Some data))
  \/ (exists e d', create_version disk_limit T dn data d = (Err e, d')
        /\ (AllocatePage disk_limit PageTypeData (r_pageManager (db_radix d))).1 = Err e).
Proof.
  intros Hs Hc Hg. destruct (writes_own _ _ _ dn _ _ _ _ _ Hs Hc) as [Hm Hw]. unfold create_version. erewrite bind_ok by reflexivity.
  pose proof Hg as (HID & HA & _). rewrite HA.
  assert (match activeWriters (db_versions d) !! dn with Some w => negb (bool_decide (w = tx_ID T)) | None => false end = false) as Hnc.
  { destruct (activeWriters _ !! dn) as [w|]; [| done]. by rewrite HID, (Hw w eq_refl), bool_decide_true. }
  rewrite Hnc. cbn [negb orb]. rewrite bind_run.
  destruct (allocateStorage_run data d E P (se_tree _ _ _ _ _ _ _ _ _ Hs)) as [(id & tr & -> & Ht & H64)|(e & -> & He)].
  - left. erewrite bind_ok by reflexivity. unfold on_versions.
    destruct (create_stores (db_versions d) A (disk_loader (set_radix tr d)) id 0 T t dn data) as (s & Hcr & Hst);
      [apply Hs | done | apply Hc | pose proof (cu_pos _ _ _ Hc); lia | done |].
    rewrite bind_run. change (db_versions (set_radix tr d)) with (db_versions d). rewrite Hcr. cbn [snd fst].
    exists id, s, tr. split_and!; [| done..]. unfold update_txn. cbn. by rewrite HID.
  - right. erewrite bind_ok by reflexivity. exists e. unfold on_versions. rewrite bind_run.
    assert (exists s, CreateVersionWithLocation (disk_loader d) (Err e) (Some T) dn data (db_versions d) = (Err e, s)) as [s ->]; [| by eexists].
    unfold CreateVersionWithLocation, register_writer. rewrite HA. cbn [negb]. rewrite bind_run, bind_run. cbn [gets].
    destruct (activeWriters (db_versions d) !! dn) as [w|]; [rewrite (Hw w eq_refl), <- HID, decide_False by naive_solver|];
      unfold clearActiveWriter; by eexists.
Qed.

(** ** Names after a write *)

Lemma named_update E W dn attrs : named E W -> is_Some (W !! dn) -> named E (<[dn := attrs]> W).
Proof.
  intros [Ht Hf] Hw. constructor.
  - intros x a [[<- _]|[_ Hx]]%lookup_insert_Some; [destruct Hw as [b Hb]; by eapply Ht | by eapply Ht].
  - intros p Hp. destruct (Hf p Hp) as (x & Hx & Hxw). exists x. split; [done |]. rewrite lookup_insert_is_Some'. by right.
Qed.

Lemma named_insert E W dn p x attrs : named E W -> canonical dn p -> named (<[p := x]> E) (<[dn := attrs]> W).
Proof.
  intros [Ht Hf] Hc. constructor.
  - intros y a [[<- _]|[_ Hy]]%lookup_insert_Some; [exists p; split; [done |]; rewrite lookup_insert_eq; by eexists |].
    destruct (Ht y a Hy) as (q & Hq & HE). exists q. split; [done |]. rewrite lookup_insert_is_Some'. by right.
  - intros q [->|[_ Hq]]%lookup_insert_is_Some; [exists dn; split; [done |]; rewrite lookup_insert_eq; by eexists |].
    destruct (Hf q Hq) as (y & Hy & Hw). exists y. split; [done |]. rewrite lookup_insert_is_Some'. by right.
Qed.

Lemma named_delete E W dn p : named E W -> canonical dn p -> named (delete p E) (delete dn W).
Proof.
  intros [Ht Hf] Hc. constructor.
  - intros y a [Hne Hy]%lookup_delete_Some. destruct (Ht y a Hy) as (q & Hq & HE). exists q. split; [done |].
    rewrite lookup_delete_ne; [done |]. intros ->. apply Hne. by eapply canonical_inj.
  - intros q [Hne Hq]%lookup_delete_is_Some. destruct (Hf q Hq) as (y & Hy & Hw). exists y. split; [done |].
    rewrite lookup_delete_ne; [done |]. intros ->. apply Hne. rewrite <- (canonical_path _ _ Hc). apply (canonical_path _ _ Hy).
Qed.
(** ** Put and Delete *)

(** A write that the data file or the index manager stops. *)
Definition blocked (d : ObaDB) (r : outcome unit) : Prop :=
  r <> Ok tt /\
  ((exists e, (AllocatePage disk_limit PageTypeData (r_pageManager (db_radix d))).1 = Err e /\ r = Err e)
   \/ exists old new, (UpdateIndexes disk_limit old new (db_index d)).1 = r).

Lemma old_entry_run n d A E P C W dn r :
  serves n d A E P C W -> version_of key r dn (W !! dn) ->
  exists o, match r with Ok v => o = inl v | Err e => o = inr e | _ => False end
    /\ (match o with inl v => old_entry dn v | inr _ => mret None end) d = (Ok (entry_in W dn), d).
Proof.
  intros Hs Hv. unfold entry_in. destruct (W !! dn) as [attrs|]; cbn in Hv |- *.
  - destruct Hv as (v & -> & Hh). exists (inl v). split; [done |]. unfold old_entry. rewrite bind_run. unfold try.
    rewrite (decrypt_run _ _ _ _ _ _ _ _ _ _ Hs). unfold EngineSim.holds in Hh.
    destruct (decrypt key (v_Data v)) as [data| | |]; try done. cbn in Hh. by rewrite Hh.
  - destruct Hv as [->| ->]; eexists; by split.
Qed.

(** The tail of [Put] and [Delete]: only the index manager changes. *)
Lemma update_indexes_run old new pg sl d :
  exists im, updateIndexesWithLocation disk_limit old new pg sl d =
    ((UpdateIndexes disk_limit ((fun e => index_entry e 0 0) <$> old) ((fun e => index_entry e pg sl) <$> new) (db_index d)).1, set_index im d).
Proof. unfold updateIndexesWithLocation, on_index_manager. destruct (UpdateIndexes _ _ _ _) as [r im]. by exists im. Qed.

Lemma current_alike d d' A t :
  current d A t -> alike d d' -> db_txns d' = db_txns d -> db_active d' = db_active d -> current d' A t.
Proof. intros [] [_ Hn Hts _ _ _ _ _] Ht Ha. by constructor; rewrite ?Ht, ?Ha, ?Hn, ?Hts. Qed.

(** The outcome of a write to the abstract maps. *)
Definition writes (n : Z) (d' : ObaDB) (A : adb) (C W' : database) (t : Z) (dn : gostring) : Prop :=
  exists w E' P', serves (n + 1) d' (a_write A dn t w) E' P' C W' /\ current d' (a_write A dn t w) t.

(** From the version to the end of [Put]. *)
Lemma put_tail_run n d A E P C W t T dn p attrs data :
  serves n d A E P C W -> current d A t -> going T t -> canonical dn p -> n + 1 < 2 ^ 32 ->
  EngineSim.holds key dn data attrs ->
  exists r d', (loc ← create_version disk_limit T dn data;
        match entry_in W dn with
        | None =>
            r ← try (on_radix (RadixTree.Insert dn loc.1 loc.2));
            match r with
            | inr e => if decide (e = RadixTree.ErrEntryExists) then mret tt else fail e
            | inl _ => mret tt
            end
        | Some _ => mret tt
        end ;;
        updateIndexesWithLocation disk_limit (entry_in W dn) (Some (mkStorageEntry dn attrs)) loc.1 loc.2) d = (r, d')
    /\ (r = Ok tt /\ writes n d' A C (<[dn := attrs]> W) t dn \/ blocked d r).
Proof.
  intros Hs Hc Hg Hcan Hn Hh.
  destruct (create_version_run n d A E P C W t T dn data Hs Hc Hg) as [(id & s & tr & Hcr & H64 & Ht & Hst)|(e & d' & Hcr & He)]; last first.
  { exists (Err e), d'. rewrite (bind_err _ _ _ _ _ Hcr). split; [done |]. right. split; [done |]. left. by exists e. }
  rewrite (bind_ok _ _ _ _ _ Hcr). set (d1 := set_txns _ _). cbn [fst snd].
  assert (exists tr' E' P', (match entry_in W dn with
        | None =>
            r ← try (on_radix (RadixTree.Insert dn id 0));
            match r with
            | inr e => if decide (e = RadixTree.ErrEntryExists) then mret tt else fail e
            | inl _ => mret tt
            end
        | Some _ => mret tt
        end) d1 = (Ok tt, set_radix tr' d1) /\ tree disk_limit tr' E' P' ∅ /\ named E' (<[dn := attrs]> W)
      /\ Z.of_nat (size E') <= n + 1) as (tr' & E' & P' & Hins & Ht' & Hn' & Hsz).
  { pose proof (se_size _ _ _ _ _ _ _ _ _ Hs). pose proof (se_named _ _ _ _ _ _ _ _ _ Hs) as Hnm. unfold entry_in. destruct (W !! dn) as [old|] eqn:Ew; cbn [fmap option_fmap option_map].
    - exists tr, E, P. split_and!; [by destruct d | done | by apply named_update | lia].
    - assert (E !! p = None) as Ep.
      { apply eq_None_not_Some. intros Hp. destruct (nm_from _ _ Hnm p Hp) as (x & Hx & [b Hb]).
        rewrite (canonical_inj _ _ _ Hx Hcan) in Hb. congruence. }
      destruct (radix_Insert_run disk_limit Hlimit tr E P ∅ dn id 0 Ht H64 ltac:(done) ltac:(lia)) as (r & tr' & Hi & _ & Hr).
      rewrite (cn_parse _ _ Hcan), Ep in Hr. destruct Hr as (-> & Ht' & _). do 3 eexists. split_and!; [| exact Ht' | by apply named_insert |].
      + rewrite bind_run. unfold try, on_radix. change (db_radix d1) with tr. by rewrite Hi.
      + rewrite map_size_insert_None by done. lia. }
  rewrite (bind_ok _ _ _ _ _ Hins).
  destruct (update_indexes_run (entry_in W dn) (Some (mkStorageEntry dn attrs)) id 0 (set_radix tr' d1)) as [im ->].
  do 2 eexists. split; [reflexivity |]. change (db_index (set_radix tr' d1)) with (db_index d).
  destruct (UpdateIndexes _ _ _ _) as [[[]|e| |] im'] eqn:Eu; cbn [fst]; [left | right..]; cycle 1.
  1-3: (split; [done |]); right; eexists _, _; by rewrite Eu.
  split; [done |]. exists (Some data), E', P'. split.
  - eapply (serves_write n d A E P C W t dn (Some data) s tr'); try done. by exists attrs.
  - by eapply (current_write d A t dn _ _ (AddToWriteSet T id)).
Qed.
Lemma writable_run {X} (m : DM X) n d A E P C W : serves n d A E P C W -> when_writable m d = m d.
Proof.
  intros Hs. unfold when_writable. erewrite bind_ok by reflexivity.
  by rewrite (se_open _ _ _ _ _ _ _ _ _ Hs), (se_writable _ _ _ _ _ _ _ _ _ Hs).
Qed.

Lemma serialized_holds dn attrs c data :
  entry_fits dn attrs -> serializeEntry (Some (mkStorageEntry dn attrs)) = Ok data -> decrypt key c = Ok data -> EngineSim.holds key dn c attrs.
Proof.
  intros Hf Hser Hd. unfold EngineSim.holds. rewrite Hd. cbn. exact (serialize_deserialize (mkStorageEntry dn attrs) data Hf Hser).
Qed.

Lemma Put_run n d A E P C W t dn0 p attrs :
  let dn := normalizeDN dn0 in
  serves n d A E P C W -> current d A t -> dn0 <> [] -> canonical dn p -> entry_fits dn attrs -> n + 1 < 2 ^ 32 ->
  exists r d', Put disk_limit random (Some t) (Some (mkStorageEntry dn0 attrs)) d = (r, d') /\
    if uid_taken W dn attrs then r = Err ErrUIDNotUnique /\ serves n d' A E P C W /\ current d' A t
    else r = Ok tt /\ writes n d' A C (<[dn := attrs]> W) t dn \/ blocked d r.
Proof.
  intros dn Hs Hc Hne Hcan Hfit Hn. unfold Put. rewrite (writable_run _ _ _ _ _ _ _ _ Hs). cbn [with_txn se_DN se_Attributes].
  rewrite decide_False by done. cbn zeta. fold dn.
  destruct (checkUIDUnique_run disk_limit Hlimit key Hkey n A E P C W t dn attrs d Hs Hc) as (d1 & Hu & Hr1 & Hs1).
  rewrite bind_run, Hu. destruct (uid_taken W dn attrs).
  { do 2 eexists. split_and!; [done | done | done | exact (reads_current _ _ _ _ Hr1 Hc)]. }
  pose proof (reads_current _ _ _ _ Hr1 Hc) as Hc1.
  destruct (serializeEntry (Some (mkStorageEntry dn attrs))) as [plain| | |] eqn:Hser; try done. unfold lift at 1. erewrite bind_ok by reflexivity.
  destruct (encrypt_run plain d1 (se_key _ _ _ _ _ _ _ _ _ Hs1)) as (c & d2 & He & Hdec & Hal & Htx & Hac & Hix).
  rewrite (bind_ok _ _ _ _ _ He). pose proof (serves_alike _ _ _ _ _ _ _ _ Hal Hs1) as Hs2.
  pose proof (current_alike _ _ _ _ Hc1 Hal Htx Hac) as Hc2.
  destruct (transaction_run _ _ _ Hc2) as (T & HT & HID & HA & HS). rewrite (bind_ok _ _ _ _ _ HT), HID, HS.
  destruct (get_visible_run _ _ _ _ _ _ _ _ _ _ _ _ Hs2 Hc2 Hcan) as (r & s & Hgv & Hs3 & Hv & _).
  destruct (old_entry_run _ _ _ _ _ _ _ _ _ Hs3 Hv) as (o & Ho & Hold).
  erewrite bind_ok; last first. { unfold try. rewrite Hgv. destruct r; try done; rewrite <- Ho; reflexivity. }
  assert (blocked d = blocked (set_versionStore s d2)) as ->.
  { unfold blocked. cbn. destruct Hr1 as [s1 ->]. by rewrite (al_radix _ _ Hal), Hix. }
  destruct (put_tail_run n _ A E P C W t T dn p attrs c Hs3 (current_versions _ _ _ _ Hc2) ltac:(done) Hcan Hn (serialized_holds dn attrs c plain Hfit Hser Hdec))
    as (r' & d' & Htail & Hres).
  exists r', d'. split; [| done]. rewrite <- Htail. by rewrite (bind_ok _ _ _ _ _ Hold).
Qed.
(** From the tombstone to the end of [Delete]. *)
Lemma delete_tail_run n d A E P C W t T dn p e :
  serves n d A E P C W -> current d A t -> going T t -> canonical dn p -> is_Some (W !! dn) ->
  exists r d', (delete_version T dn ;;
        r ← try (on_radix (RadixTree.Delete dn));
        match r with
        | inr e => if decide (e = RadixTree.ErrEntryNotFound) then mret tt else fail e
        | inl _ => mret tt
        end ;;
        updateIndexes disk_limit (Some e) None) d = (r, d')
    /\ (r = Ok tt /\ writes n d' A C (delete dn W) t dn \/ blocked d r).
Proof.
  intros Hs Hc Hg Hcan [attrs Hw]. pose proof (se_working _ _ _ _ _ _ _ _ _ Hs dn) as Hv.
  assert (exists data, view A dn = Some (Some data)) as [data Hview].
  { destruct (view A dn) as [[data|]|]; [by exists data | congruence..]. }
  destruct (delete_stores (db_versions d) A (disk_loader d) T t dn data) as (pg & s & Hdel & Hst);
    [apply Hs | rewrite (se_horizon _ _ _ _ _ _ _ _ _ Hs); pose proof (cu_pos _ _ _ Hc); lia | done | apply Hc | pose proof (cu_pos _ _ _ Hc); lia
    | by apply (writes_own _ _ _ dn _ _ _ _ _ Hs Hc) | by rewrite (aread_view disk_limit key n d A E P C W) |].
  set (d1 := set_txns (<[t := AddToWriteSet T pg]> (db_txns d)) (set_versionStore s d)).
  assert (delete_version T dn d = (Ok tt, d1)) as Hdv.
  { unfold delete_version. erewrite bind_ok by reflexivity. unfold on_versions. rewrite bind_run, Hdel. unfold update_txn. cbn.
    by rewrite (proj1 Hg). }
  rewrite (bind_ok _ _ _ _ _ Hdv). destruct (RadixMap.Delete_run disk_limit Hlimit _ _ _ _ dn (se_tree _ _ _ _ _ _ _ _ _ Hs)) as (r & tr & Hrd & _ & Hr).
  rewrite (cn_parse _ _ Hcan) in Hr. destruct (nm_to _ _ (se_named _ _ _ _ _ _ _ _ _ Hs) dn attrs Hw) as (q & Hq & [x Hx]).
  assert (q = p) as -> by by rewrite <- (canonical_path _ _ Hcan), <- (canonical_path _ _ Hq). rewrite Hx in Hr. destruct Hr as (-> & Ht & _).
  assert (try (on_radix (RadixTree.Delete dn)) d1 = (Ok (inl tt), set_radix tr d1)) as Hrx by (unfold try, on_radix; change (db_radix d1) with (db_radix d); by rewrite Hrd).
  rewrite (bind_ok _ _ _ _ _ Hrx). erewrite bind_ok by reflexivity. unfold updateIndexes.
  destruct (update_indexes_run (Some e) None 0 0 (set_radix tr d1)) as [im ->].
  do 2 eexists. split; [reflexivity |]. change (db_index (set_radix tr d1)) with (db_index d).
  destruct (UpdateIndexes _ _ _ _) as [[[]|e'| |] im'] eqn:Eu; cbn [fst]; [left | right..]; cycle 1.
  1-3: (split; [done |]); right; eexists _, _; by rewrite Eu.
  split; [done |]. do 3 eexists. split.
  - eapply (serves_write n d A E P C W t dn None s tr); try done; [by apply named_delete; [apply Hs |] |].
    pose proof (map_subseteq_size (delete p E) E (delete_subseteq E p)). pose proof (se_size _ _ _ _ _ _ _ _ _ Hs). lia.
  - by eapply (current_write d A t dn _ _ (AddToWriteSet T pg)).
Qed.

Lemma Engine_Delete_run n d A E P C W t dn0 p :
  let dn := normalizeDN dn0 in
  serves n d A E P C W -> current d A t -> dn0 <> [] -> canonical dn p ->
  exists r d', Engine_Delete disk_limit (Some t) dn0 d = (r, d') /\
    match W !! dn with
    | None => (r = Err ErrNoEntry \/ r = Err ErrVersionDeleted) /\ serves n d' A E P C W /\ current d' A t
    | Some _ => r = Ok tt /\ writes n d' A C (delete dn W) t dn \/ blocked d r
    end.
Proof.
  intros dn Hs Hc Hne Hcan. unfold Engine_Delete. rewrite (writable_run _ _ _ _ _ _ _ _ Hs). cbn [with_txn].
  rewrite decide_False by done. cbn zeta. fold dn.
  destruct (transaction_run _ _ _ Hc) as (T & HT & HID & HA & HS). rewrite (bind_ok _ _ _ _ _ HT), HID, HS.
  destruct (get_visible_run _ _ _ _ _ _ _ _ _ _ _ _ Hs Hc Hcan) as (r & s & Hgv & Hs3 & Hv & _).
  destruct (old_entry_run _ _ _ _ _ _ _ _ _ Hs3 Hv) as (o & Ho & Hold). pose proof (current_versions _ _ _ s Hc) as Hc3.
  erewrite bind_ok; last first. { unfold try. rewrite Hgv. destruct r; try done; rewrite <- Ho; reflexivity. }
  unfold version_of in Hv. unfold entry_in in Hold. destruct (W !! dn) as [attrs|] eqn:Ew.
  - destruct Hv as (v & -> & _). subst o. rewrite (bind_ok _ _ _ _ _ Hold). change (blocked d) with (blocked (set_versionStore s d)).
    apply (delete_tail_run n _ A E P C W t T dn p (mkStorageEntry dn attrs)); try done.
  - destruct Hv as [->| ->]; subst o; [exists (Err ErrNoEntry) | exists (Err ErrVersionDeleted)]; eexists; split_and!; try done; [by left | by right].
Qed.
End Write.

(** ** Transactions *)

Section Txn.
Context {UT : UnicodeTables} {MI : MapIteration}.
Context (disk_limit : Z) (Hlimit : disk_limit < 2 ^ 62) (random : Z -> bytes).
Context (key : option Cipher) (Hkey : cipher_ok key).

Abbreviation serves := (serves disk_limit key).

(** No transaction is in progress. *)
Record idle (n : Z) (d : ObaDB) (A : adb) (E P : directory) (C : database) : Prop := mkIdle {
  id_serves : serves n d A E P C C;
  id_active : db_active d = ∅;
  id_pend : forall dn, pend A !! dn = None
}.

(** ** The log *)

Lemma log_run txID ty d :
  wal_ready key (db_wal d) ->
  exists w n, log_record random txID ty d = (Ok tt, set_wal w (set_draws n d)) /\ wal_ready key w.
Proof.
  intros Hw. destruct (append_ready key (db_wal d) (random (db_draws d)) txID ty Hkey Hw) as (lsn & w & Ha & Hw').
  exists w, (db_draws d + 1). split; [| done]. unfold log_record, draw. erewrite bind_ok by reflexivity. rewrite bind_run.
  unfold try, on_wal. change (db_wal (set_draws (db_draws d + 1) d)) with (db_wal d). by rewrite Ha.
Qed.

Lemma sync_log_run d : wal_ready key (db_wal d) -> exists w, sync_log d = (Ok tt, set_wal w d) /\ wal_ready key w.
Proof.
  intros Hw. destruct (sync_ready key (db_wal d) Hw) as (w & Hy & Hw'). exists w. split; [| done].
  unfold sync_log. rewrite bind_run. unfold try, on_wal. by rewrite Hy.
Qed.

(** ** Begin *)

Lemma Begin_run n d A E P C :
  idle n d A E P C -> n + 2 < 2 ^ 32 ->
  exists t d', Begin random d = (Ok t, d') /\ serves (n + 1) d' A E P C C /\ current d' A t.
Proof.
  intros [Hs Ha Hp] Hn. unfold Begin. rewrite (writable_run _ _ _ _ _ _ _ _ _ _ Hs). unfold tm_Begin.
  set (t := db_nextTxID d). erewrite bind_ok by reflexivity. fold t.
  pose proof (se_next _ _ _ _ _ _ _ _ _ Hs) as Hnx. pose proof (se_clock _ _ _ _ _ _ _ _ _ Hs) as Hcl. fold t in Hnx, Hcl.
  assert (uint64 (t + 1) = t + 1) as E1 by (unfold uint64; apply Z.mod_small; lia). rewrite E1. do 2 erewrite bind_ok by reflexivity.
  destruct (log_run t WALBegin (set_nextTxID (t + 1) d) (se_wal _ _ _ _ _ _ _ _ _ Hs)) as (w & k & Hl & Hw).
  rewrite (bind_ok _ _ _ _ _ Hl). exists t. eexists. split; [reflexivity |]. split.
  - destruct Hs. constructor; cbn; try done; try lia. intros t' Ht'. pose proof (se_ended t' Ht'). unfold t. lia.
  - constructor; cbn; try done; try lia.
    + eexists. split; [apply lookup_insert_eq |]. done.
    + rewrite Ha. set_solver.
    + intros Ht%(se_ended _ _ _ _ _ _ _ _ _ Hs). fold t in Ht. lia.
    + intros dn t' w'. by rewrite Hp.
Qed.

(** ** The end of a transaction *)

Lemma validate_run d t T :
  db_active d = {[t]} -> db_txns d !! t = Some T -> tx_ID T = t -> validateWriteSet T d = (Ok tt, d).
Proof.
  intros Ha HT HID. unfold validateWriteSet. erewrite bind_ok by reflexivity. rewrite Ha, elements_singleton.
  cbn. by rewrite HT, bool_decide_true.
Qed.

Lemma current_obj d A t : current d A t -> exists T, db_txns d !! t = Some T /\ going T t.
Proof. intros Hc. destruct (cu_obj _ _ _ Hc) as (T & HT & H). by exists T. Qed.

Lemma transaction_at d t T : db_txns d !! t = Some T -> transaction t d = (Ok T, d).
Proof. intros HT. unfold transaction. rewrite bind_run. cbn. by rewrite HT. Qed.

(** The two ends of [tx/manager.go]: a record, a flush, and the transaction is gone. *)
Lemma end_run_log t T ty d :
  wal_ready key (db_wal d) -> db_active d = {[t]} -> tx_ID T = t ->
  exists d', (log_record random t ty ;; sync_log ;; end_txn T) d = (Ok tt, d')
    /\ exists w m k, d' = set_active ∅ (set_txns m (set_wal w (set_draws k d))) /\ wal_ready key w.
Proof.
  intros Hw Ha HID. destruct (log_run t ty d Hw) as (w & k & Hl & Hw1). rewrite (bind_ok _ _ _ _ _ Hl).
  destruct (sync_log_run (set_wal w (set_draws k d)) Hw1) as (w2 & Hy & Hw2). rewrite (bind_ok _ _ _ _ _ Hy).
  eexists. split; [unfold end_txn, update_txn; reflexivity |]. exists w2, (<[t := T]> (db_txns d)), k. split; [| done].
  cbn. by rewrite HID, Ha, difference_diag_L.
Qed.
(** ** The abstract database after an end *)

Definition covers (A : adb) (t : Z) (dns : list gostring) : Prop :=
  (forall dn w, pend A !! dn = Some (t, w) -> dn ∈ dns) /\ forall dn t' w, pend A !! dn = Some (t', w) -> t' = t.

Lemma ended_pend A t ts dns dn : covers A t dns -> pend (a_end A t ts dns) !! dn = None.
Proof.
  intros [Hd Ho]. destruct (pend (a_end A t ts dns) !! dn) as [[t' w]|] eqn:Ep; [| done].
  destruct (a_end_pend _ _ _ _ _ _ _ Hd Ep) as [Hp Hn]. destruct Hn. by eapply Ho.
Qed.

Lemma ended_view A t ts dns dn : covers A t dns -> view (a_end A t ts dns) dn = committed_view (a_end A t ts dns) dn.
Proof. intros Hc. unfold view. by rewrite ended_pend. Qed.

Lemma committed_after A t ts dns dn : covers A t dns -> committed_view (a_end A t (Some ts) dns) dn = view A dn.
Proof.
  intros [Hd Ho]. unfold committed_view, view. rewrite (a_end_history _ _ _ _ _ Hd).
  destruct (pend A !! dn) as [[t' w]|] eqn:Ep; [| done]. by rewrite decide_True by (by eapply Ho).
Qed.

Lemma committed_dropped A t dns dn : covers A t dns -> committed_view (a_end A t None dns) dn = committed_view A dn.
Proof. intros [Hd _]. unfold committed_view. rewrite (a_end_history _ _ _ _ _ Hd). by destruct (pend A !! dn) as [[]|]. Qed.

Lemma shows_ext v v' W : (forall dn, v' dn = v dn) -> shows key v W -> shows key v' W.
Proof. intros Hv Hs dn. rewrite Hv. apply Hs. Qed.

(** [serves] after the end of the transaction in the version store. *)
Lemma serves_end n d A E P C W t ts dns s ts' C' :
  serves n d A E P C W -> current d A t -> covers A t dns -> MvccSim.Sim s (a_end A t ts dns) ->
  (forall x, kept s x -> is_Some (committed_view (a_end A t ts dns) x)) ->
  (forall dn, Forall (fun x => 0 < x.1 <= ts') (history (a_end A t ts dns) dn)) ->
  0 <= ts' < db_nextTxID d -> named E C' -> shows key (committed_view (a_end A t ts dns)) C' ->
  serves (n + 1) (set_versionStore s (set_currentTS ts' d)) (a_end A t ts dns) E P C' C'.
Proof.
  intros Hs Hc Hcov Hsim Hk Hts Hclk Hn Hsh. pose proof (cu_id _ _ _ Hc). destruct Hs. constructor; cbn; try done; try lia.
  - by rewrite a_end_horizon.
  - intros x Hx. rewrite ended_view by done. by apply Hk.
  - intros x. rewrite a_end_ended. intros [->%elem_of_singleton|Hx]%elem_of_union; [lia | by apply se_ended].
  - by eapply shows_ext; [intros x; by apply ended_view |].
Qed.

Lemma commit_versions n d A E P C W t T ts :
  serves n d A E P C W -> current d A t -> going T t -> ts > 0 ->
  exists s dns, CommitVersion (Some T) ts (db_versions d) = (Ok tt, s) /\ covers A t dns
    /\ MvccSim.Sim s (a_end A t (Some ts) dns) /\ forall x, kept s x -> kept (db_versions d) x.
Proof.
  intros Hs Hc (HID & HA & _) Hts. pose proof (cu_pos _ _ _ Hc).
  destruct (exec_simulates (OpCommit T ts) (db_versions d) A (se_sim _ _ _ _ _ _ _ _ _ Hs)) as (A' & _ & Hst & Hs' & _).
  { cbn. rewrite HID. split_and!; [apply Hc | lia | done | done]. }
  { by intros []. }
  pose proof (adds_commit (Some T) ts (db_versions d)) as Had. cbn [exec] in Hst, Hs'. unfold result in Hst, Hs'. cbn [fst snd] in Hst, Hs'.
  destruct (CommitVersion (Some T) ts (db_versions d)) as [r s]. cbn [fst snd] in *.
  inversion Hst as [| | | | | |? ? dns Hd Hr HA'| | | |]. subst A'. rewrite HID in *. exists s, dns.
  destruct r as [[]| | |]; try done. split_and!; [done | | done | intros x Hx; by destruct (Had x Hx)].
  split; [done | intros dn t' w; by apply (cu_pend _ _ _ Hc)].
Qed.

Lemma rollback_versions n d A E P C W t T :
  serves n d A E P C W -> current d A t -> going T t ->
  exists s dns, RollbackVersion (Some T) (db_versions d) = (Ok tt, s) /\ covers A t dns
    /\ MvccSim.Sim s (a_end A t None dns) /\ forall x, kept s x -> kept (db_versions d) x.
Proof.
  intros Hs Hc (HID & HA & _). pose proof (cu_pos _ _ _ Hc).
  destruct (exec_simulates (OpRollback T) (db_versions d) A (se_sim _ _ _ _ _ _ _ _ _ Hs)) as (A' & _ & Hst & Hs' & _).
  { cbn. rewrite HID. split_and!; [apply Hc | lia | done]. }
  { by intros []. }
  pose proof (kept_rollback T (db_versions d)) as Had. cbn [exec] in Hst, Hs'. unfold result in Hst, Hs'. cbn [fst snd] in Hst, Hs'.
  destruct (RollbackVersion (Some T) (db_versions d)) as [r s]. cbn [fst snd] in *.
  inversion Hst as [| | | | | | |? dns Hd Hr HA'| | |]. subst A'. rewrite HID in *. exists s, dns.
  destruct r as [[]| | |]; try done. split_and!; [done | | done | done].
  split; [done | intros dn t' w; by apply (cu_pend _ _ _ Hc)].
Qed.
(** ** Commit and Rollback *)

(** The transaction manager's part of an end: [tm] is the tail of [tm_Commit] or [tm_Rollback]. *)
Lemma end_txn_idle n d A' E P C t ts s T ty :
  serves (n + 1) (set_versionStore s (set_currentTS ts d)) A' E P C C -> (forall dn, pend A' !! dn = None) ->
  db_active d = {[t]} -> tx_ID T = t ->
  exists d', (log_record random t ty ;; sync_log ;; end_txn T) (set_versionStore s (set_currentTS ts d)) = (Ok tt, d')
    /\ idle (n + 1) d' A' E P C.
Proof.
  intros Hs Hp Ha HID.
  destruct (end_run_log t T ty (set_versionStore s (set_currentTS ts d)) (se_wal _ _ _ _ _ _ _ _ _ Hs) Ha HID)
    as (d' & Hl & w & m & k & -> & Hw).
  eexists. split; [exact Hl |]. constructor; [| done | done]. destruct Hs. by constructor.
Qed.

Lemma active_in d A t : current d A t -> ~ (t ∉ db_active d).
Proof. intros Hc. rewrite (cu_active _ _ _ Hc). set_solver. Qed.

Lemma Commit_run n d A E P C W t :
  serves n d A E P C W -> current d A t -> n + 2 < 2 ^ 32 ->
  exists d' A', Engine_Commit random (Some t) d = (Ok tt, d') /\ idle (n + 1) d' A' E P W.
Proof.
  intros Hs Hc Hn. unfold Engine_Commit. rewrite (writable_run _ _ _ _ _ _ _ _ _ _ Hs). cbn [with_txn].
  pose proof (se_next _ _ _ _ _ _ _ _ _ Hs) as Hnx. pose proof (se_clock _ _ _ _ _ _ _ _ _ Hs) as Hcl.
  pose proof (cu_clock _ _ _ Hc) as Hcu. pose proof (cu_id _ _ _ Hc) as Hid. set (ts := db_currentTS d + 1).
  assert (AdvanceTimestamp d = (Ok ts, set_currentTS ts d)) as Hadv.
  { unfold AdvanceTimestamp. erewrite bind_ok by reflexivity. fold ts. unfold uint64. by rewrite Z.mod_small by lia. }
  rewrite (bind_ok _ _ _ _ _ Hadv). destruct (current_obj _ _ _ Hc) as (T & Hobj & HID & HA & HS).
  rewrite (bind_ok _ _ _ _ _ (transaction_at (set_currentTS ts d) t T Hobj)).
  destruct (commit_versions n d A E P C W t T ts Hs Hc ltac:(done) ltac:(lia)) as (s & dns & Hcv & Hcov & Hsim & Hk).
  assert (on_versions (CommitVersion (Some T) ts) (set_currentTS ts d) = (Ok tt, set_versionStore s (set_currentTS ts d))) as Hov
    by (unfold on_versions; change (db_versions (set_currentTS ts d)) with (db_versions d); by rewrite Hcv).
  rewrite (bind_ok _ _ _ _ _ Hov). set (d1 := set_versionStore s (set_currentTS ts d)).
  assert (serves (n + 1) d1 (a_end A t (Some ts) dns) E P W W) as Hs1.
  { apply (serves_end n d A E P C W t); try done; try (apply Hs); try lia.
    - intros x Hx. rewrite committed_after by done. by apply (se_kept _ _ _ _ _ _ _ _ _ Hs), Hk.
    - intros dn. rewrite (a_end_history _ _ _ _ _ (proj1 Hcov)). assert (Forall (fun x => 0 < x.1 <= ts) (history A dn)) as Hh.
      { eapply Forall_impl; [apply (se_ts _ _ _ _ _ _ _ _ _ Hs) |]. cbn. intros x Hx. lia. }
      destruct (pend A !! dn) as [[t' w]|]; [| done]. case_decide; [| done]. constructor; [cbn; lia | done].
    - eapply shows_ext; [intros x; by apply committed_after | apply Hs]. }
  unfold tm_Commit. rewrite (bind_ok _ _ _ _ _ (transaction_at d1 t T Hobj)), HA. cbn [negb]. erewrite bind_ok by reflexivity. rewrite decide_False by exact (active_in _ _ _ Hc).
  rewrite (bind_ok _ _ _ _ _ (validate_run d1 t T (cu_active _ _ _ Hc) Hobj HID)).
  destruct (end_txn_idle n d _ E P W t ts s (SetState T TxCommitted) WALCommit Hs1) as (d' & Hd' & Hi);
    [intros dn; by apply ended_pend | apply Hc | done |].
  exists d', (a_end A t (Some ts) dns). by split.
Qed.

(** A transaction that only changed entries that were there. *)
Definition clean (A : adb) (C W : database) : Prop :=
  forall dn, is_Some (pend A !! dn) -> is_Some (C !! dn) /\ is_Some (W !! dn).

Lemma clean_dom n d A E P C W dn : serves n d A E P C W -> clean A C W -> is_Some (C !! dn) <-> is_Some (W !! dn).
Proof.
  intros Hs Hc. destruct (pend A !! dn) as [x|] eqn:Ep; [destruct (Hc dn ltac:(by eexists)); tauto |].
  pose proof (se_committed _ _ _ _ _ _ _ _ _ Hs dn) as H1. pose proof (se_working _ _ _ _ _ _ _ _ _ Hs dn) as H2.
  unfold view in H2. rewrite Ep in H2. destruct (committed_view A dn) as [[data|]|].
  - destruct H1 as (a & -> & _). destruct H2 as (b & -> & _). split; by eexists.
  - by rewrite H1, H2.
  - by rewrite H1, H2.
Qed.

Lemma named_dom E W C : named E W -> (forall dn, is_Some (C !! dn) <-> is_Some (W !! dn)) -> named E C.
Proof.
  intros [Ht Hf] Hd. constructor.
  - intros dn a Ha. assert (is_Some (W !! dn)) as [b Hb] by (apply Hd; by eexists). by eapply Ht.
  - intros p Hp. destruct (Hf p Hp) as (dn & Hc & Hw). exists dn. split; [done | by apply Hd].
Qed.

Lemma shown_some (v : gostring -> option written) (W : database) dn : shows key v W -> is_Some (W !! dn) -> is_Some (v dn).
Proof. intros Hs [a Ha]. specialize (Hs dn). destruct (v dn); [by eexists | congruence]. Qed.

Lemma Rollback_run n d A E P C W t :
  serves n d A E P C W -> current d A t -> clean A C W ->
  exists d' A', Engine_Rollback random (Some t) d = (Ok tt, d') /\ idle (n + 1) d' A' E P C.
Proof.
  intros Hs Hc Hcl. unfold Engine_Rollback. rewrite (writable_run _ _ _ _ _ _ _ _ _ _ Hs). cbn [with_txn].
  pose proof (se_clock _ _ _ _ _ _ _ _ _ Hs) as Hclk.
  destruct (current_obj _ _ _ Hc) as (T & Hobj & HID & HA & HS). rewrite (bind_ok _ _ _ _ _ (transaction_at d t T Hobj)).
  destruct (rollback_versions n d A E P C W t T Hs Hc ltac:(done)) as (s & dns & Hcv & Hcov & Hsim & Hk).
  set (d1 := set_versionStore s (set_currentTS (db_currentTS d) d)).
  assert (on_versions (RollbackVersion (Some T)) d = (Ok tt, d1)) as Hov by (unfold on_versions; rewrite Hcv; by destruct d).
  rewrite (bind_ok _ _ _ _ _ Hov).
  assert (serves (n + 1) d1 (a_end A t None dns) E P C C) as Hs1.
  { apply (serves_end n d A E P C W t); try done; try (apply Hs); try lia.
    - intros x Hx. rewrite committed_dropped by done. destruct (pend A !! x) as [y|] eqn:Ep.
      + apply (shown_some _ C); [apply Hs |]. by apply Hcl; rewrite Ep.
      + pose proof (se_kept _ _ _ _ _ _ _ _ _ Hs x (Hk x Hx)) as Hv. unfold view in Hv. by rewrite Ep in Hv.
    - intros dn. rewrite (a_end_history _ _ _ _ _ (proj1 Hcov)).
      destruct (pend A !! dn) as [[t' w]|]; apply (se_ts _ _ _ _ _ _ _ _ _ Hs).
    - apply (named_dom E W); [apply Hs |]. intros dn. by eapply clean_dom.
    - eapply shows_ext; [intros x; by apply committed_dropped | apply Hs]. }
  unfold tm_Rollback. rewrite (bind_ok _ _ _ _ _ (transaction_at d1 t T Hobj)), HA. cbn [negb]. erewrite bind_ok by reflexivity. rewrite decide_False by exact (active_in _ _ _ Hc).
  destruct (end_txn_idle n d _ E P C t (db_currentTS d) s (SetState (ClearWriteSet T) TxAborted) WALAbort Hs1) as (d' & Hd' & Hi);
    [intros dn; by apply ended_pend | apply Hc | done |].
  exists d', (a_end A t None dns). by split.
Qed.
End Txn.
