(* ===== verification/EngineTheorems.v ===== *)
(** * The engine as a database of entries

    Clients that run one transaction at a time, with names as the engine prints them, against
    a database that is a map from names to attributes. *)

From S2P Require Import Prelude GoBinary GoStrings BTreeOps Page PageStore PageTheorems Wal Mvcc MvccSim MvccLoops MvccTheorems.
From S2P Require Import RadixNode RadixPage RadixTree RadixShape RadixWalk RadixPersist RadixMap Index Search EntryCodec.
From S2P Require Import Engine EngineSim EngineRead EngineWrite.

(** ** Commands and the database *)

Inductive command :=
| CBegin
| CGet (dn : gostring)
| CPut (dn : gostring) (attrs : attributes)
| CDelete (dn : gostring)
| CHasChildren (dn : gostring)
| CSearch (base : gostring) (scope : Z)
| CFilter (base : gostring) (g : StorageEntry -> bool)
| CCommit
| CRollback.

Inductive answer :=
| ADone
| AEntry (e : StorageEntry)
| ABool (b : bool)
| AEntries (l : list StorageEntry) (err : option goerror).

(** The transaction sees [working]; [untouched] while it has neither added nor removed a name. *)
Record transactional := mkTransactional {
  committed : database;
  working : option (database * bool)
}.

Section Spec.
Context {UT : UnicodeTables} {MI : MapIteration}.

(** A name whose normal form the radix tree parses and prints back. *)
Definition proper (dn : gostring) : Prop :=
  let n := normalizeDN dn in
  dn <> [] /\ normalizeDN n = n
  /\ match ParseDN n with Ok p => JoinDNReverse p = n | _ => False end.

#[export] Instance proper_dec dn : Decision (proper dn).
Proof. unfold proper. cbn zeta. destruct (ParseDN _); apply _. Defined.

Definition put_db (W : database) (dn : gostring) (attrs : attributes) : database :=
  let n := normalizeDN dn in if uid_taken W n attrs then W else <[n := attrs]> W.

(** The commands that the database accepts in a state. *)
Definition acceptable (D : transactional) (c : command) : Prop :=
  match working D, c with
  | None, CBegin => True
  | Some _, CGet dn | Some _, CDelete dn | Some _, CHasChildren dn => proper dn
  | Some _, CPut dn attrs => proper dn /\ entry_fits (normalizeDN dn) attrs
  | Some _, CSearch base scope => (normalizeDN base = [] /\ scope = ScopeSubtree) \/ proper base
  | Some _, CFilter base _ => proper base
  | Some _, CCommit => True
  | Some (_, untouched), CRollback => untouched = true
  | _, _ => False
  end.

Definition step (D : transactional) (c : command) : transactional :=
  let C := committed D in
  match working D, c with
  | None, CBegin => mkTransactional C (Some (C, true))
  | Some (W, u), CPut dn attrs =>
      mkTransactional C (Some (put_db W dn attrs, u && (uid_taken W (normalizeDN dn) attrs || bool_decide (is_Some (W !! normalizeDN dn)))))
  | Some (W, u), CDelete dn =>
      mkTransactional C (Some (delete (normalizeDN dn) W, u && bool_decide (W !! normalizeDN dn = None)))
  | Some (W, _), CCommit => mkTransactional W None
  | Some _, CRollback => mkTransactional C None
  | _, _ => D
  end.

(** The answers of the database. *)
Definition answered (D : transactional) (c : command) (r : outcome answer) : Prop :=
  match working D, c with
  | Some (W, _), CGet dn => r = match entry_in W (normalizeDN dn) with Some e => Ok (AEntry e) | None => Err ErrNoEntry end
  | Some (W, _), CPut dn attrs => r = if uid_taken W (normalizeDN dn) attrs then Err ErrUIDNotUnique else Ok ADone
  | Some (W, _), CDelete dn =>
      match W !! normalizeDN dn with
      | Some _ => r = Ok ADone
      | None => r = Err ErrNoEntry \/ r = Err ErrVersionDeleted
      end
  | Some (W, _), CHasChildren dn => r = Ok (ABool (has_children W (path_of (normalizeDN dn))))
  | Some (W, _), CSearch base scope =>
      exists l, r = Ok (AEntries l None) /\ l ≡ₚ found W (selects (normalizeDN base) scope) (fun _ => true)
  | Some (W, _), CFilter base g =>
      exists l, r = Ok (AEntries l None) /\ l ≡ₚ found W (in_scope (path_of (normalizeDN base)) ScopeSubtree) g
  | _, _ => r = Ok ADone
  end.
End Spec.

(** ** Runs of the engine *)

Section Run.
Context {UT : UnicodeTables} {MI : MapIteration} (disk_limit : Z) (random : Z -> bytes).

(** The engine and the client's transaction. *)
Definition client : Type := ObaDB * option Z.

Definition collect (m : DM ObaIterator) : DM answer :=
  it ← m; r ← collect_iter it; mret (AEntries r.1 r.2).

Definition execute (c : command) (x : client) : outcome answer * client :=
  let txn := x.2 in
  let keep (m : DM answer) : outcome answer * client := let '(r, d) := m x.1 in (r, (d, txn)) in
  match c with
  | CBegin => match Begin random x.1 with
              | (Ok t, d) => (Ok ADone, (d, Some t))
              | (Err e, d) => (Err e, (d, None)) | (Panic, d) => (Panic, (d, None)) | (Diverge, d) => (Diverge, (d, None))
              end
  | CGet dn => keep (e ← Engine_Get txn dn; mret (AEntry e))
  | CPut dn attrs => keep (Put disk_limit random txn (Some (mkStorageEntry dn attrs)) ;; mret ADone)
  | CDelete dn => keep (Engine_Delete disk_limit txn dn ;; mret ADone)
  | CHasChildren dn => keep (b ← Engine_HasChildren dn; mret (ABool b))
  | CSearch base scope => keep (collect (SearchByDN txn base scope))
  | CFilter base g => keep (collect (SearchByFilter txn base (Some (fun e => Ok (g e)))))
  | CCommit => let '(r, d) := (Engine_Commit random txn ;; mret ADone) x.1 in (r, (d, None))
  | CRollback => let '(r, d) := (Engine_Rollback random txn ;; mret ADone) x.1 in (r, (d, None))
  end.

(** A write that stops because the data file has no page left, or because the indexes
    cannot be updated. *)
Definition stopped (d : ObaDB) (c : command) (r : outcome answer) : Prop :=
  match c with
  | CPut _ _ | CDelete _ =>
      (forall a, r <> Ok a) /\
      ((exists e, (AllocatePage disk_limit PageTypeData (r_pageManager (db_radix d))).1 = Err e /\ r = Err e)
       \/ exists old new, ((UpdateIndexes disk_limit old new ;; mret ADone) (db_index d)).1 = r)
  | _ => False
  end.

(** Every answer is the database's, until a write is stopped. *)
Fixpoint conforms (D : transactional) (x : client) (cs : list command) : Prop :=
  match cs with
  | [] => True
  | c :: cs =>
      let '(r, x') := execute c x in
      (answered D c r /\ conforms (step D c) x' cs) \/ stopped x.1 c r
  end.

Fixpoint acceptable_run (D : transactional) (cs : list command) : Prop :=
  match cs with [] => True | c :: cs => acceptable D c /\ acceptable_run (step D c) cs end.
End Run.

(** ** The simulation *)

Section Refinement.
Context {UT : UnicodeTables} {MI : MapIteration}.
Context (disk_limit : Z) (Hlimit : disk_limit < 2 ^ 62) (random : Z -> bytes).
Context (key : option Cipher) (Hkey : cipher_ok key).

Abbreviation serves := (serves disk_limit key).

Lemma serves_mono n n' d A E P C W : n <= n' -> serves n d A E P C W -> serves n' d A E P C W.
Proof. intros Hn []. by constructor; try done; lia. Qed.

Lemma proper_canonical dn : proper dn -> canonical (normalizeDN dn) (path_of (normalizeDN dn)).
Proof. intros (_ & Hn & Hp). unfold path_of. destruct (ParseDN (normalizeDN dn)) eqn:Ep; try done. Qed.

Definition tied (n : Z) (x : client) (D : transactional) : Prop :=
  match working D, x.2 with
  | None, None => exists A E P, idle disk_limit key n x.1 A E P (committed D)
  | Some (W, u), Some t =>
      exists A E P, serves n x.1 A E P (committed D) W /\ current x.1 A t /\ (u = true -> clean A (committed D) W)
  | _, _ => False
  end.

(** Reading leaves the engine tied. *)
Lemma tied_reads n d d' A E P C W u t :
  serves n d' A E P C W -> after_reads d d' -> current d A t -> (u = true -> clean A C W) ->
  tied (n + 1) (d', Some t) (mkTransactional C (Some (W, u))).
Proof.
  intros Hs Hr Hc Hu. exists A, E, P. split_and!; [eapply serves_mono; [| exact Hs]; lia | exact (reads_current _ _ _ _ Hr Hc) | done].
Qed.

Lemma clean_write n d A E P C W t dn w attrs :
  serves n d A E P C W -> clean A C W -> is_Some (W !! dn) -> clean (a_write A dn t w) C (<[dn := attrs]> W).
Proof.
  intros Hs Hc Hw x Hx. cbn in Hx. rewrite lookup_insert_is_Some'. destruct (decide (x = dn)) as [->|Hne].
  - split; [by apply (clean_dom disk_limit random key n d A E P C W dn Hs Hc) | by left].
  - rewrite lookup_insert_ne in Hx by done. destruct (Hc x Hx). auto.
Qed.

(** The outcome of a write, as a command. *)
Lemma done_run (m : DM unit) d r d' :
  m d = (r, d') ->
  (m ;; mret ADone) d = (match r with Ok _ => Ok ADone | Err e => Err e | Panic => Panic | Diverge => Diverge end, d').
Proof. intros Hm. rewrite bind_run, Hm. by destruct r. Qed.

Lemma blocked_stopped d c r :
  match c with CPut _ _ | CDelete _ => True | _ => False end -> blocked disk_limit d r ->
  stopped disk_limit d c (match r with Ok _ => Ok ADone | Err e => Err e | Panic => Panic | Diverge => Diverge end).
Proof.
  intros Hc [Hne Hb].
  assert ((forall a, match r with Ok _ => Ok ADone | Err e => Err e | Panic => Panic | Diverge => Diverge end <> Ok a) /\
    ((exists e, (AllocatePage disk_limit PageTypeData (r_pageManager (db_radix d))).1 = Err e
        /\ match r with Ok _ => Ok ADone | Err e => Err e | Panic => Panic | Diverge => Diverge end = Err e)
     \/ exists old new, ((UpdateIndexes disk_limit old new ;; mret ADone) (db_index d)).1
        = match r with Ok _ => Ok ADone | Err e => Err e | Panic => Panic | Diverge => Diverge end)) as H; [| by destruct c].
  split; [destruct r as [[]| | |]; done |]. destruct Hb as [(e & Ha & ->)|(old & new & Hu)]; [left; by exists e | right].
  exists old, new. rewrite bind_run. destruct (UpdateIndexes _ _ _ _) as [r' im]. cbn in Hu. subst r'. by destruct r.
Qed.

Lemma collect_search n A E P C W t g it l d m (sel : path -> Prop) `{forall q, Decision (sel q)} :
  serves n d A E P C W -> current d A t -> m d = (Ok it, d) -> gives W (db_radix d) t it l g -> lists l W sel ->
  (length l < S (length (r_nodes (db_radix d))))%nat ->
  exists es d', collect m d = (Ok (AEntries es None), d') /\ es ≡ₚ found W sel g /\ after_reads d d' /\ serves n d' A E P C W.
Proof.
  intros Hs Hc Hm Hg Hl Hlen.
  destruct (iterator_collect_run disk_limit Hlimit key Hkey n A E P C W t g it l d Hs Hc Hg ltac:(by destruct Hl as (_ & ? & _)) Hlen) as (d' & Hi & Hr & Hs').
  exists (omap (pick W g) l), d'. split_and!; [| by apply lists_found | done | done].
  unfold collect. by rewrite (bind_ok _ _ _ _ _ Hm), (bind_ok _ _ _ _ _ Hi).
Qed.

Lemma step_begin n x D :
  tied n x D -> acceptable D CBegin -> n + 3 < 2 ^ 32 ->
  answered D CBegin (execute disk_limit random CBegin x).1 /\ tied (n + 1) (execute disk_limit random CBegin x).2 (step D CBegin).
Proof.
  destruct x as [d cur], D as [C [[W u]|]]; [done |]. unfold tied. cbn. destruct cur as [t|]; [done |]. intros (A & E & P & Hi) _ Hn.
  destruct (Begin_run disk_limit Hlimit random key Hkey n d A E P C Hi ltac:(lia)) as (t & d' & -> & Hs & Hc). cbn. split; [done |].
  exists A, E, P. split_and!; [done | done |]. intros _ dn Hp. rewrite (id_pend _ _ _ _ _ _ _ _ Hi) in Hp. by destruct Hp.
Qed.

Lemma step_write n d t C W u c :
  tied n (d, Some t) (mkTransactional C (Some (W, u))) -> acceptable (mkTransactional C (Some (W, u))) c -> n + 3 < 2 ^ 32 ->
  match c with CPut _ _ | CDelete _ => True | _ => False end ->
  let D := mkTransactional C (Some (W, u)) in
  let r := execute disk_limit random c (d, Some t) in
  (answered D c r.1 /\ tied (n + 1) r.2 (step D c)) \/ stopped disk_limit d c r.1.
Proof.
  intros (A & E & P & Hs & Hc & Hu) Hacc Hn Hcmd D. cbn in Hs, Hc, Hu.
  destruct c as [| |dn attrs|dn| | | | |]; try done; cbn in Hacc.
  - destruct Hacc as [Hpr Hfit].
    destruct (Put_run disk_limit Hlimit random key Hkey n d A E P C W t dn _ attrs Hs Hc (proj1 Hpr) (proper_canonical _ Hpr) Hfit ltac:(lia)) as (r & d' & Hput & Hres).
    unfold execute, D. cbn [fst snd]. rewrite (done_run _ _ _ _ Hput). cbn [answered step working committed fst snd]. unfold put_db.
    destruct (uid_taken W (normalizeDN dn) attrs).
    + left. destruct Hres as (-> & Hs' & Hc'). split; [done |]. exists A, E, P. split_and!; [eapply serves_mono; [| exact Hs']; lia | done |].
      by rewrite andb_true_r.
    + destruct Hres as [(-> & w & E' & P' & Hs' & Hc')|Hb]; [left | right; exact (blocked_stopped d (CPut dn attrs) r I Hb)]. split; [done |].
      do 3 eexists. split_and!; [exact Hs' | exact Hc' |]. cbn [orb]. rewrite andb_true_iff, bool_decide_eq_true.
      intros [-> Hw]. by eapply clean_write; [exact Hs | auto |].
  - destruct (Engine_Delete_run disk_limit Hlimit key n d A E P C W t dn _ Hs Hc (proj1 Hacc) (proper_canonical _ Hacc)) as (r & d' & Hdel & Hres).
    unfold execute, D. cbn [fst snd]. rewrite (done_run _ _ _ _ Hdel). cbn [answered step working committed fst snd].
    destruct (W !! normalizeDN dn) as [attrs|] eqn:Ew.
    + destruct Hres as [(-> & w & E' & P' & Hs' & Hc')|Hb]; [left | right; exact (blocked_stopped d (CDelete dn) r I Hb)]. split; [done |].
      do 3 eexists. split_and!; [exact Hs' | exact Hc' |]. by rewrite bool_decide_false, andb_false_r.
    + left. destruct Hres as (Hr & Hs' & Hc'). split; [by destruct Hr as [->| ->]; [left | right] |].
      rewrite delete_id by done. exists A, E, P. split_and!; [eapply serves_mono; [| exact Hs']; lia | done |].
      by rewrite bool_decide_true, andb_true_r by done.
Qed.

Lemma step_read n d t C W u c :
  tied n (d, Some t) (mkTransactional C (Some (W, u))) -> acceptable (mkTransactional C (Some (W, u))) c ->
  match c with CGet _ | CHasChildren _ | CSearch _ _ | CFilter _ _ => True | _ => False end ->
  let D := mkTransactional C (Some (W, u)) in
  let r := execute disk_limit random c (d, Some t) in
  answered D c r.1 /\ tied (n + 1) r.2 D.
Proof.
  intros (A & E & P & Hs & Hc & Hu) Hacc Hcmd D. cbn in Hs, Hc, Hu.
  destruct c as [|dn| | |dn|base scope|base g| |]; try done; cbn in Hacc; unfold execute; cbn [fst snd answered working D].
  - destruct (Get_run _ _ _ _ _ _ _ _ _ _ dn _ Hs Hc (proj1 Hacc) (proper_canonical _ Hacc)) as (s & Hg & Hs').
    rewrite bind_run, Hg. destruct (entry_in W (normalizeDN dn)); cbn; (split; [done |]);
      eapply (tied_reads n d); [exact Hs' | by eexists | exact Hc | exact Hu | exact Hs' | by eexists | exact Hc | exact Hu].
  - rewrite bind_run, (Engine_HasChildren_run disk_limit key n A E P C W dn d Hs (proj1 Hacc) (proper_canonical _ Hacc)). cbn. split; [done |].
    eapply (tied_reads n d); [exact Hs | apply reads_refl | exact Hc | exact Hu].
  - destruct (SearchByDN_run disk_limit Hlimit key n A E P C W t base scope d Hs Hc) as (it & l & Hi & Hg & Hl & Hlen).
    { destruct Hacc as [?|?]; [by left | right; by apply proper_canonical]. }
    destruct (collect_search n A E P C W t _ it l d _ _ Hs Hc Hi Hg Hl Hlen) as (es & d' & -> & Hp & Hr & Hs'). cbn. split; [by exists es |].
    by eapply (tied_reads n d).
  - destruct (SearchByFilter_run disk_limit Hlimit key n A E P C W t base _ g d Hs Hc (proper_canonical _ Hacc) (fun _ _ _ => eq_refl)) as (it & l & Hi & Hg & Hl & Hlen).
    destruct (collect_search n A E P C W t _ it l d _ _ Hs Hc Hi Hg Hl Hlen) as (es & d' & -> & Hp & Hr & Hs'). cbn. split; [by exists es |].
    by eapply (tied_reads n d).
Qed.

Lemma step_end n d t C W u c :
  tied n (d, Some t) (mkTransactional C (Some (W, u))) -> acceptable (mkTransactional C (Some (W, u))) c -> n + 3 < 2 ^ 32 ->
  c = CCommit \/ c = CRollback ->
  let D := mkTransactional C (Some (W, u)) in
  let r := execute disk_limit random c (d, Some t) in
  answered D c r.1 /\ tied (n + 1) r.2 (step D c).
Proof.
  intros (A & E & P & Hs & Hc & Hu) Hacc Hn Hcmd D. cbn in Hs, Hc, Hu. destruct Hcmd as [->| ->]; unfold execute; cbn [fst snd].
  - destruct (Commit_run disk_limit Hlimit random key Hkey n d A E P C W t Hs Hc ltac:(lia)) as (d' & A' & Hr & Hi).
    rewrite (done_run _ _ _ _ Hr). cbn. split; [done |]. by exists A', E, P.
  - cbn in Hacc. destruct (Rollback_run disk_limit Hlimit random key Hkey n d A E P C W t Hs Hc (Hu Hacc)) as (d' & A' & Hr & Hi).
    rewrite (done_run _ _ _ _ Hr). cbn. split; [done |]. by exists A', E, P.
Qed.

Lemma step_tied n x D c :
  tied n x D -> acceptable D c -> n + 3 < 2 ^ 32 ->
  let r := execute disk_limit random c x in
  (answered D c r.1 /\ tied (n + 1) r.2 (step D c)) \/ stopped disk_limit x.1 c r.1.
Proof.
  intros Ht Hacc Hn. destruct (working D) as [[W u]|] eqn:Ew; last first.
  { unfold acceptable in Hacc. rewrite Ew in Hacc. destruct c; try done. left. apply step_begin; [done | | done]. by unfold acceptable; rewrite Ew. }
  destruct D as [C w]. cbn in Ew. subst w. destruct x as [d cur]. assert (exists t, cur = Some t) as [t ->].
  { destruct cur as [t|]; [by exists t | done]. }
  destruct c; try done.
  - left. by apply (step_read n d t C W u (CGet _) Ht).
  - by apply (step_write n d t C W u (CPut _ _) Ht).
  - by apply (step_write n d t C W u (CDelete _) Ht).
  - left. by apply (step_read n d t C W u (CHasChildren _) Ht).
  - left. by apply (step_read n d t C W u (CSearch _ _) Ht).
  - left. by apply (step_read n d t C W u (CFilter _ _) Ht).
  - left. apply (step_end n d t C W u CCommit Ht); auto.
  - left. apply (step_end n d t C W u CRollback Ht); auto.
Qed.

Lemma tied_conforms cs n x D :
  tied n x D -> acceptable_run D cs -> n + Z.of_nat (length cs) + 3 < 2 ^ 32 -> conforms disk_limit random D x cs.
Proof.
  revert n x D. induction cs as [|c cs IH]; intros n x D Ht Hrun Hn; [done |]. destruct Hrun as [Hacc Hrun]. cbn [conforms]. cbn [length] in Hn.
  pose proof (step_tied n x D c Ht Hacc ltac:(lia)) as Hst. cbn zeta in Hst. destruct (execute disk_limit random c x) as [r x'].
  destruct Hst as [[Ha Ht']|Hst]; [left | by right]. split; [done |]. apply (IH (n + 1)); [done | done | lia].
Qed.

(** ** A new database *)

Lemma fresh_roots opts pm : OpenPageManager disk_limit None opts = Ok pm -> fh_DNIndex (Page.header pm) = 0.
Proof.
  unfold OpenPageManager. destruct (opt_CreateIfNew opts), (opt_ReadOnly opts) eqn:Hro; cbn [negb]; try done.
  generalize (if decide (opt_PageSize opts = 0) then PageSize else opt_PageSize opts).
  generalize (if decide (opt_InitialPages opts = 0) then DefaultInitialPages else opt_InitialPages opts). intros n ps.
  unfold initializeNew. cbv zeta. generalize (if decide (n < 1) then 1 else n). intros k. do 6 erewrite bind_ok by reflexivity.
  unfold wrap_err, Page.Truncate. case_decide; [| done]. by intros [= <-].
Qed.

Lemma update_roots_run pm A id root :
  Rep disk_limit pm A -> is_uint64 id -> is_uint64 root ->
  exists pm', UpdateHeader id root pm = (Ok tt, pm') /\ Rep disk_limit pm' A.
Proof.
  intros Hr Hid Hroot. unfold UpdateHeader. erewrite bind_ok by reflexivity. rewrite (rep_open _ _ _ Hr).
  erewrite bind_ok by reflexivity. rewrite save_header_run. eexists. split; [reflexivity |].
  apply (Rep_header disk_limit pm A (with_total (totalPages pm) (with_roots id root (Page.header pm)))); [done |].
  apply wf_with_total; [| apply (total_uint64 disk_limit); [done | apply Hr]].
  destruct (sh_header _ _ (rep_shape _ _ _ Hr)). by constructor.
Qed.

Lemma initRadixTree_run pm t :
  Rep disk_limit pm ∅ -> fh_DNIndex (Page.header pm) = 0 -> initRadixTree disk_limit pm = Ok t -> tree disk_limit t ∅ ∅ ∅.
Proof.
  intros Hr H0. unfold initRadixTree. cbn zeta. rewrite H0, decide_False by tauto.
  destruct (NewRadixTree disk_limit pm) as [t0| | |] eqn:Et; try done. cbn.
  destruct (NewRadixTree_run disk_limit Hlimit pm ∅ t0 Hr Et) as [Ht _]. pose proof Ht as [Hn Hsz (A & pg & HA & HF & Hpg & Hh) Hf].
  assert (is_uint64 (r_rootPageID t0)) as H64.
  { apply (rep_pages _ _ _ HA) in Hpg as [Hid _]. eapply (page_id_uint64 disk_limit); [done | apply HA | done]. }
  assert (is_uint64 (fh_DataRoot (Page.header pm))) as Hroot by apply (sh_header _ _ (rep_shape _ _ _ Hr)).
  destruct (update_roots_run _ _ _ _ HA H64 Hroot) as (pm' & Hu & Hr'). unfold RadixTree.on_pages. rewrite Hu. intros [= <-].
  by eapply tree_pm.
Qed.

Lemma Open_run index opts d :
  (opt_PageSize opts = 0 \/ opt_PageSize opts = PageSize) -> opt_InitialPages opts <= 2 ^ 40 -> opt_ReadOnly opts = false ->
  Open disk_limit None index [] key opts = Ok d -> tied 0 (d, None) (mkTransactional ∅ None).
Proof.
  intros Hps Hip Hro. unfold Open. destruct (OpenPageManager disk_limit None opts) as [pm| | |] eqn:Epm; try done.
  cbn [mbind outcome_bind]. rewrite Hro. unfold OpenWALWithEncryption. rewrite decide_True by done. cbn [mbind outcome_bind].
  destruct (initRadixTree disk_limit pm) as [t| | |] eqn:Et; try done. cbn [mbind outcome_bind].
  destruct (OpenPageManager disk_limit index opts) as [ipm| | |]; try done. cbn [mbind outcome_bind].
  destruct (NewIndexManager disk_limit ipm) as [im| | |]; try done. cbn [mbind outcome_bind]. intros [= <-].
  pose proof (initRadixTree_run pm t (init_run disk_limit opts pm Hps Hip Epm) (fresh_roots _ _ Epm) Et) as Ht.
  exists adb0, ∅, ∅. constructor; [| done | done]. constructor; cbn; try done.
  - apply Sim_init.
  - intros dn [[x Hx]|[x Hx]]; cbn in Hx; by rewrite lookup_empty in Hx.
  - constructor; [intros dn a; by rewrite lookup_empty | intros p; rewrite lookup_empty; by intros []].
Qed.
End Refinement.

(** C4: a client that runs one transaction at a time against a new database, whose names are
    written as the engine prints them, sees a map of entries: reads and searches give what the
    transaction has written and what was committed before, a taken uid and a missing entry are
    reported, a commit makes the writes permanent, and the rollback of a transaction that only
    changed existing entries drops them. This holds until a write stops because the data file
    is full or the index manager fails. *)
Theorem engine_serial_refines {UT : UnicodeTables} {MI : MapIteration} disk_limit random key index opts d cs :
  disk_limit < 2 ^ 62 -> cipher_ok key ->
  (opt_PageSize opts = 0 \/ opt_PageSize opts = PageSize) -> opt_InitialPages opts <= 2 ^ 40 -> opt_ReadOnly opts = false ->
  Open disk_limit None index [] key opts = Ok d ->
  acceptable_run (mkTransactional ∅ None) cs -> Z.of_nat (length cs) < 2 ^ 31 ->
  conforms disk_limit random (mkTransactional ∅ None) (d, None) cs.
Proof.
  intros Hl Hk Hps Hip Hro Ho Hacc Hn. eapply (tied_conforms disk_limit Hl random key Hk cs 0); [by eapply Open_run | done | lia].
Qed.

(** ** Deciding which runs are acceptable *)

#[export] Instance entry_fits_dec dn attrs : Decision (entry_fits dn attrs).
Proof.
  refine (cast_if (decide (len dn < 2 ^ 32 /\ Z.of_nat (size attrs) < 2 ^ 32
    /\ map_Forall (fun name values => len name < 2 ^ 16 /\ len values < 2 ^ 32 /\ Forall (fun v => len v < 2 ^ 32) values) attrs))).
  - destruct_and!. by constructor.
  - intros [? ? Ha]. match goal with H : ~ _ |- _ => apply H end. by split_and!.
Defined.

#[export] Instance acceptable_dec {UT : UnicodeTables} {MI : MapIteration} D c : Decision (acceptable D c).
Proof. unfold acceptable. destruct (working D) as [[]|], c; apply _. Defined.

#[export] Instance acceptable_run_dec {UT : UnicodeTables} {MI : MapIteration} D cs : Decision (acceptable_run D cs).
Proof. revert D. induction cs as [|c cs IH]; intros D; cbn; [apply _ |]. specialize (IH (step D c)). apply _. Defined.

#[local] Instance engine_tables : UnicodeTables := {| lower_unicode s := s; fold_unicode s t := bytes_eqb s t |}.
#[local] Instance engine_order : MapIteration := {| range K _ _ V m := map_to_list m; range_perm K _ _ V m := reflexivity _ |}.

Module EngineExample.
Definition limit : Z := 2 ^ 40.
Definition opts : Options := mkOptions 0 4 true false.
Definition random (n : Z) : bytes := [].
Definition start : outcome ObaDB := Open limit None None [] None opts.
Definition users : gostring := str "ou=users,dc=com".
Definition alice : gostring := str "uid=alice,ou=users,dc=com".
Definition bob : gostring := str "uid=bob,ou=users,dc=com".
Definition attrs (u v : string) : attributes := {[ str u := [str v] ]}.

Definition commands : list command :=
  [CBegin; CPut users (attrs "ou" "users"); CPut alice (attrs "uid" "alice"); CPut bob (attrs "uid" "Alice");
   CGet (str "UID=Alice,ou=users,dc=com"); CCommit;
   CBegin; CPut alice (attrs "sn" "liddell"); CRollback;
   CBegin; CSearch users ScopeOneLevel; CDelete users; CGet users; CSearch [] ScopeSubtree; CCommit].

Fixpoint results (cs : list command) (x : client) : list (outcome answer) :=
  match cs with [] => [] | c :: cs => let '(r, x) := execute limit random c x in r :: results cs x end.

(** The names and the first attributes of the entries of an answer, or the error. *)
Definition show (e : StorageEntry) : list gostring := [se_DN e] ++ (map_to_list (se_Attributes e)).*1.
Definition summary (r : outcome answer) : list gostring :=
  match r with
  | Ok ADone => []
  | Ok (AEntry e) => show e
  | Ok (ABool b) => [str (if b then "true" else "false")]
  | Ok (AEntries l _) => l ≫= show
  | Err (ErrConst s) => [str s]
  | _ => [str "?"]
  end.

Definition answers : list (list gostring) :=
  [[]; []; []; [str "ErrUIDNotUnique"]; [alice; str "uid"]; []; []; []; []; []; [alice; str "uid"]; [];
   [str "engine.ErrEntryNotFound"]; [alice; str "uid"]; []].
End EngineExample.

Lemma engine_serial_refines_witness :
  exists d, EngineExample.start = Ok d
    /\ EngineExample.summary <$> EngineExample.results EngineExample.commands (d, None) = EngineExample.answers
    /\ conforms EngineExample.limit EngineExample.random (mkTransactional ∅ None) (d, None) EngineExample.commands.
Proof.
  assert (match EngineExample.start with
          | Ok d => EngineExample.summary <$> EngineExample.results EngineExample.commands (d, None)
          | _ => []
          end = EngineExample.answers) as E by (vm_compute; reflexivity).
  destruct EngineExample.start as [d| | |] eqn:Es; [| discriminate E..].
  exists d. split; [reflexivity |]. split; [exact E |].
  apply (engine_serial_refines EngineExample.limit EngineExample.random None None EngineExample.opts d EngineExample.commands);
    [done | done | by left | done | done | exact Es | | done].
  apply (bool_decide_unpack _). vm_compute. exact I.
Defined.

(** ** Where the engine is not that database *)

Module EngineFaults.
Import EngineExample.

Definition run {A} (m : DM A) : outcome A := d ← start; (m d).1.
Definition put (t : Z) (dn : gostring) (value : string) : DM unit :=
  Put limit random (Some t) (Some (mkStorageEntry dn (attrs "sn" value))).
(** The values of [sn] under a name, and the names below a base. *)
Definition get (t : Z) (dn : gostring) : DM (option (list bytes)) :=
  r ← try (Engine_Get (Some t) dn);
  mret (match r with inl e => se_Attributes e !! str "sn" | inr _ => None end).
Definition names (t : Z) (base : gostring) : DM (list gostring) :=
  it ← SearchByDN (Some t) base ScopeSubtree; r ← collect_iter it; mret (se_DN <$> r.1).

Definition name : gostring := str "cn=a,dc=x".
Definition base : gostring := str "dc=x".

(** One transaction adds an entry, a second reads it, the first is rolled back, and a third
    reads and searches. *)
Definition dirty : DM (option (list bytes) * option (list bytes) * list gostring) :=
  t1 ← Begin random;
  put t1 name "1" ;;
  t2 ← Begin random;
  seen ← get t2 name;
  Engine_Rollback random (Some t1) ;;
  t3 ← Begin random;
  later ← get t3 name;
  found ← names t3 base;
  mret (seen, later, found).

(** A committed entry, and a transaction that deletes it and is rolled back. *)
Definition undeleted : DM (option (list bytes) * list gostring) :=
  t1 ← Begin random;
  put t1 name "1" ;;
  Engine_Commit random (Some t1) ;;
  t2 ← Begin random;
  Engine_Delete limit (Some t2) name ;;
  Engine_Rollback random (Some t2) ;;
  t3 ← Begin random;
  later ← get t3 name;
  found ← names t3 base;
  mret (later, found).

(** An entry is added and then changed, each in a committed transaction. *)
Definition changed : DM unit :=
  t1 ← Begin random;
  put t1 name "1" ;;
  Engine_Commit random (Some t1) ;;
  t2 ← Begin random;
  put t2 name "2" ;;
  Engine_Commit random (Some t2).

Definition read_now (dn : gostring) : DM (option (list bytes)) := t ← Begin random; get t dn.

(** The engine over the data file that is left. *)
Definition reopened (d : ObaDB) : outcome ObaDB := Open limit (Some (file (r_pageManager (db_radix d)))) None [] None opts.
End EngineFaults.

(** in this run a transaction sees an entry that another has added and not committed, and the
    rollback does not remove it: the radix tree and the page of the entry are written at once,
    and the disk loader finds them when the version store has no version. *)
Theorem engine_uncommitted_visible :
  EngineFaults.run EngineFaults.dirty = Ok (Some [str "1"], Some [str "1"], [EngineFaults.name]).
Proof. vm_compute. reflexivity. Qed.

(** the rollback of a deletion restores the entry for reads and not for searches: the name
    is gone from the radix tree. *)
Theorem engine_rolled_back_delete :
  EngineFaults.run EngineFaults.undeleted = Ok (Some [str "1"], []).
Proof. vm_compute. reflexivity. Qed.

(** in this run a committed change of an existing entry is lost when the engine is opened over
    the data file without a valid cache file, as after a crash: the radix tree keeps the page of
    the first version, which is what the data file gives. *)
Theorem engine_change_lost :
  (d ← EngineExample.start;
   match EngineFaults.changed d with
   | (Ok _, d) =>
       before ← (EngineFaults.read_now EngineFaults.name d).1;
       d' ← EngineFaults.reopened d;
       after ← (EngineFaults.read_now EngineFaults.name d').1;
       Ok (before, after)
   | _ => Panic
   end) = Ok (Some [str "2"], Some [str "1"]).
Proof. vm_compute. reflexivity. Qed.

(** under a spelling of its name that the radix tree takes for the same entry, a changed
    entry still reads as it was first written. *)
Theorem engine_alias_stale :
  (d ← EngineExample.start;
   match EngineFaults.changed d with
   | (Ok _, d) => (EngineFaults.read_now (str "cn= a,dc=x") d).1
   | _ => Panic
   end) = Ok (Some [str "1"]).
Proof. vm_compute. reflexivity. Qed.

(** ** The search handler over the engine *)

From S2P Require Import LdapRequests LdapSearch LdapResult FilterEval FilterSemantics SearchTheorems.

Section EndToEnd.
Context {UT : UnicodeTables} {MI : MapIteration} (disk_limit : Z) (random : Z -> bytes).

(** The entries of a search in a transaction of its own, as [ObaBackend.Search] runs it. *)
Definition own_search (search : Z -> DM ObaIterator) (d : ObaDB) : outcome Iterator :=
  match (t ← Begin random; it ← search t; collect_iter it) d with
  | (Ok (es, err), _) => Ok (mkIterator None (Some <$> es) err)
  | (Err e, _) => Err e
  | (Panic, _) => Panic
  | (Diverge, _) => Diverge
  end.

(** The engine behind the interface of the backend. The handler never searches without a
    filter, so a failing search by name need not be told from an empty one. *)
Definition engine_on (d : ObaDB) : StorageEngine :=
  mkStorageEngine
    (match (Begin random d).1 with Err e => Some e | _ => None end)
    (fun base scope => match own_search (fun t => SearchByDN (Some t) base scope) d with Ok it => it | _ => mkIterator None [] None end)
    (fun base m => own_search (fun t => SearchByFilter (Some t) base (Some m)) d).

(** The client and the database after the commands. *)
Definition after (x : client) (cs : list command) : client := foldl (fun x c => (execute disk_limit random c x).2) x cs.
Definition steps (D : transactional) (cs : list command) : transactional := foldl step D cs.

(** No write is stopped. *)
Fixpoint unstopped (x : client) (cs : list command) : Prop :=
  match cs with
  | [] => True
  | c :: cs => ~ stopped disk_limit x.1 c (execute disk_limit random c x).1 /\ unstopped (execute disk_limit random c x).2 cs
  end.
End EndToEnd.

Section Answers.
Context {UT : UnicodeTables} {MI : MapIteration}.
Context (disk_limit : Z) (Hlimit : disk_limit < 2 ^ 62) (random : Z -> bytes).
Context (key : option Cipher) (Hkey : cipher_ok key).

Lemma tied_after cs n x D :
  tied disk_limit key n x D -> acceptable_run D cs -> unstopped disk_limit random x cs -> n + Z.of_nat (length cs) + 3 < 2 ^ 32 ->
  tied disk_limit key (n + Z.of_nat (length cs)) (after disk_limit random x cs) (steps D cs).
Proof.
  revert n x D. induction cs as [|c cs IH]; intros n x D Ht Ha Hu Hn; cbn [length] in *.
  { by replace (n + Z.of_nat 0) with n by lia. }
  destruct Ha as [Hc Ha], Hu as [Hns Hu]. cbn [after steps foldl].
  destruct (step_tied disk_limit Hlimit random key Hkey n x D c Ht Hc ltac:(lia)) as [[_ Ht']|Hst]; [| done].
  replace (n + Z.of_nat (S (length cs))) with (n + 1 + Z.of_nat (length cs)) by lia. apply IH; try done. lia.
Qed.

Lemma elem_found (W : database) (sel : path -> Prop) `{forall q, Decision (sel q)} g dn a :
  mkStorageEntry dn a ∈ found W sel g <-> W !! dn = Some a /\ sel (path_of dn) /\ g (mkStorageEntry dn a) = true.
Proof.
  unfold found. rewrite list_elem_of_In, filter_In, <- list_elem_of_In, list_elem_of_fmap.
  setoid_rewrite elem_of_map_to_list'. split.
  - intros [([k v] & [= -> ->] & Hk) Hg]. apply map_lookup_filter_Some in Hk as [? ?]. done.
  - intros (Hw & Hs & Hg). split; [| done]. exists (dn, a). split; [done |]. by apply map_lookup_filter_Some.
Qed.

Lemma NoDup_found (W : database) (sel : path -> Prop) `{forall q, Decision (sel q)} g : NoDup (found W sel g).
Proof.
  unfold found. apply NoDup_ListNoDup, List.NoDup_filter, NoDup_ListNoDup.
  apply NoDup_fmap_2; [| apply NoDup_map_to_list]. intros [? ?] [? ?] [= -> ->]. done.
Qed.

Lemma omap_Some {X} (l : list X) : omap id (Some <$> l) = l.
Proof. induction l as [|x l IH]; cbn; [done | by rewrite IH]. Qed.

(** A search for a filter whose matcher returns on every committed entry. *)
Lemma engine_on_filter n d C base m g :
  tied disk_limit key n (d, None) (mkTransactional C None) -> n + 3 < 2 ^ 32 ->
  canonical (normalizeDN base) (path_of (normalizeDN base)) -> matches C m g ->
  engine_Begin (engine_on random d) = None /\
  exists es, engine_SearchByFilter (engine_on random d) base m = Ok (mkIterator None (Some <$> es) None)
    /\ es ≡ₚ found C (in_scope (path_of (normalizeDN base)) ScopeSubtree) g.
Proof.
  intros (A & E & P & Hi) Hn Hcan Hm. cbn in Hi.
  destruct (Begin_run disk_limit Hlimit random key Hkey n d A E P C Hi ltac:(lia)) as (t & d1 & Hb & Hs & Hc).
  unfold engine_on, own_search. cbn [engine_Begin engine_SearchByFilter]. rewrite Hb. split; [done |].
  destruct (SearchByFilter_run disk_limit Hlimit key _ A E P C C t base m g d1 Hs Hc Hcan Hm) as (it & l & Hit & Hg & Hl & Hlen).
  destruct (iterator_collect_run disk_limit Hlimit key Hkey _ A E P C C t g it l d1 Hs Hc Hg ltac:(by destruct Hl as (_ & ? & _)) Hlen)
    as (d2 & Hcol & _ & _).
  rewrite (bind_ok _ _ _ _ _ Hb), (bind_ok _ _ _ _ _ Hit), Hcol. eexists. split; [done | by apply lists_found].
Qed.
End Answers.

(** C10: the installed search handler over the engine, from the bytes of the request to the
    result. A new database has gone through any acceptable commands, no write was stopped and no
    transaction is open; all its names and values, and those of the filter, are text (printable
    ASCII and white space), and the base is a name as the engine prints it. Then the handler
    returns each committed entry of the base's subtree that satisfies the filter, once, with all
    its attributes, and nothing else, whatever the request's scope, limits, attribute list and
    typesOnly are. *)
Theorem directory_search {UT : UnicodeTables} {MI : MapIteration} error_text disk_limit random key index opts d cs req f
    (Hl : disk_limit < 2 ^ 62) (Hk : cipher_ok key)
    (Hps : opt_PageSize opts = 0 \/ opt_PageSize opts = PageSize) (Hip : opt_InitialPages opts <= 2 ^ 40)
    (Hro : opt_ReadOnly opts = false) (Ho : Open disk_limit None index [] key opts = Ok d)
    (Hacc : acceptable_run (mkTransactional ∅ None) cs) (Hn : Z.of_nat (length cs) < 2 ^ 31)
    (Hu : unstopped disk_limit random (d, None) cs)
    (Hidle : working (steps (mkTransactional ∅ None) cs) = None)
    (Hv : valid_search req f) (Ht : text_filter f) (Hb : proper (BaseObject req))
    (He : map_Forall (fun dn a => text_storage (mkStorageEntry dn a)) (committed (steps (mkTransactional ∅ None) cs))) :
  exists entries,
    serve_bytes error_text (engine_on random (after disk_limit random (d, None) cs).1) (search_content req f)
      = Ok (mkSearchResult ResultSuccess [] [] (render_all <$> entries))
    /\ NoDup entries
    /\ forall dn a, mkStorageEntry dn a ∈ entries <->
         committed (steps (mkTransactional ∅ None) cs) !! dn = Some a
         /\ path_of (normalizeDN (BaseObject req)) `prefix_of` path_of dn
         /\ meets f (mkStorageEntry dn a).
Proof.
  pose proof (Open_run disk_limit Hl random key index opts d Hps Hip Hro Ho) as Ht0.
  pose proof (tied_after disk_limit Hl random key Hk cs 0 _ _ Ht0 Hacc Hu ltac:(lia)) as Hti.
  destruct (steps _ cs) as [C w]. cbn [working committed] in *. subst w.
  destruct (after _ _ _ cs) as [d' [t|]]; [done |]. cbn [fst].
  assert (matches C (Match (Some (denote f))) (hit f)) as Hm.
  { intros dn e Hin. unfold entry_in in Hin. destruct (C !! dn) as [a|] eqn:Ec; [| done]. injection Hin as <-.
    apply (hit_spec f _ (He _ _ Ec) Ht). }
  destruct (engine_on_filter disk_limit Hl random key Hk _ d' C (normalizeDN (BaseObject req)) (Match (Some (denote f))) (hit f) Hti ltac:(lia)) as [Hbg (es & Hs & Hp)]; [| exact Hm |].
  { rewrite (proj1 (proj2 Hb)). by apply proper_canonical. }
  rewrite (proj1 (proj2 Hb)) in Hp. exists es. split_and!.
  - unfold serve_bytes. rewrite parse_search_content by done. cbn [mbind outcome_bind].
    destruct Hv as (_ & _ & _ & _ & Hf & _). unfold serve_search, backend_Search. cbv zeta.
    rewrite Hbg, Hf, serve_convert_represent. change (Search.normalizeDN (BaseObject req)) with (normalizeDN (BaseObject req)).
    rewrite Hs. cbn [mbind outcome_bind it_end it_items]. by rewrite omap_Some, <- list_fmap_compose.
  - rewrite Hp. apply NoDup_found.
  - intros dn a. rewrite Hp, elem_found. split.
    + intros (Hc & Hsc & Hh). split_and!; [done | done |]. by apply (hit_spec f _ (He _ _ Hc) Ht).
    + intros (Hc & Hsc & Hme). split_and!; [done | done |]. by apply (hit_spec f _ (He _ _ Hc) Ht).
Qed.

Module SearchExample.
Import EngineExample.

Definition adds : list command := [CBegin; CPut users (attrs "ou" "users"); CPut alice (attrs "uid" "alice"); CCommit].
Definition wanted : filter := FCompare Equality (str "UID") (str "ALICE").
Definition request : SearchRequest := mkSearchRequest (str "dc=com") 0 0 1 0 true (represent wanted) [str "cn"].
Definition done (r : outcome answer) : bool := match r with Ok _ => true | _ => false end.

Lemma done_unstopped cs x : forallb done (results cs x) = true -> unstopped limit random x cs.
Proof.
  revert x. induction cs as [|c cs IH]; intros x Hr; [exact I |]. cbn [results] in Hr. cbn [unstopped].
  destruct (execute limit random c x) as [r x']. cbn [forallb] in Hr. apply andb_true_iff in Hr as [Hd Hr].
  split; [| by apply IH]. cbn [fst]. destruct r as [a| | |]; try discriminate. unfold stopped. destruct c; try tauto; intros [Hn _]; exact (Hn a eq_refl).
Qed.

Lemma one_attribute dn u v : text (str u) -> text (str v) -> text_storage (mkStorageEntry dn (attrs u v)).
Proof.
  intros Hu Hv. split; cbn [e_Attributes se_Attributes]; unfold attrs.
  - apply map_Forall_singleton. split; [done | by apply Forall_singleton].
  - intros n1 n2 [? H1] [? H2] _. apply lookup_singleton_Some in H1 as [<- _], H2 as [<- _]. done.
Qed.
End SearchExample.

Lemma directory_search_witness :
  exists d entries, EngineExample.start = Ok d
    /\ serve_bytes (fun _ => []) (engine_on EngineExample.random (after EngineExample.limit EngineExample.random (d, None) SearchExample.adds).1)
         (search_content SearchExample.request SearchExample.wanted) = Ok (mkSearchResult ResultSuccess [] [] (render_all <$> entries))
    /\ mkStorageEntry EngineExample.alice (EngineExample.attrs "uid" "alice") ∈ entries
    /\ mkStorageEntry EngineExample.users (EngineExample.attrs "ou" "users") ∉ entries.
Proof.
  assert (match EngineExample.start with Ok d => forallb SearchExample.done (EngineExample.results SearchExample.adds (d, None)) | _ => false end = true)
    as E by (vm_compute; reflexivity).
  destruct EngineExample.start as [d| | |] eqn:Es; [| discriminate E..].
  assert (committed (steps (mkTransactional ∅ None) SearchExample.adds)
    = <[EngineExample.alice := EngineExample.attrs "uid" "alice"]> {[EngineExample.users := EngineExample.attrs "ou" "users"]}) as Ec
    by (apply (bool_decide_unpack _); vm_compute; exact I).
  assert (map_Forall (fun dn a => text_storage (mkStorageEntry dn a)) (committed (steps (mkTransactional ∅ None) SearchExample.adds))) as He.
  { rewrite Ec. apply map_Forall_insert_2; [| apply map_Forall_singleton]; apply SearchExample.one_attribute; by apply text_check. }
  assert (text_filter SearchExample.wanted) as Ht by (split; by apply text_check).
  destruct (directory_search (fun _ => []) EngineExample.limit EngineExample.random None None EngineExample.opts d SearchExample.adds
    SearchExample.request SearchExample.wanted) as (entries & H1 & _ & H2);
    [done | done | by left | done | done | exact Es | apply (bool_decide_unpack _); vm_compute; exact I | done
    | by apply SearchExample.done_unstopped | vm_compute; reflexivity | | exact Ht | apply (bool_decide_unpack _); vm_compute; exact I | exact He |].
  { repeat split; try (by vm_compute). }
  exists d, entries. split; [reflexivity |]. split; [exact H1 |]. rewrite Ec in *. split.
  - apply H2. split_and!; [reflexivity | by exists [str "ou=users"; str "uid=alice"]; vm_compute |].
    apply (hit_spec SearchExample.wanted); [apply He; reflexivity | exact Ht | vm_compute; reflexivity].
  - intros Hin. apply H2 in Hin as (Hc & _ & Hm).
    apply (hit_spec SearchExample.wanted) in Hm; [vm_compute in Hm; discriminate | by apply He | exact Ht].
Defined.
