(* ===== verification/Stream.v ===== *)
(** * Change streams (src/internal/storage/stream)

    The ring buffer of recent events, watch filters, subscribers with their bounded channels,
    and the broker; then what the broker guarantees to its subscribers. Times are left out. A
    nil slice of events and an empty one differ here: [EventsSince] returns [None] for nil. *)

From S2P Require Import Prelude GoBinary GoStrings Search.

(** ** event.go *)

Definition OpInsert : Z := 1.
Definition OpUpdate : Z := 2.
Definition OpDelete : Z := 3.
Definition OpModifyDN : Z := 4.

Record ChangeEvent := mkChangeEvent {
  ev_Token : Z;
  ev_Operation : Z;
  ev_DN : gostring;
  ev_Entry : option StorageEntry;
  ev_OldDN : gostring
}.

Definition with_token (token : Z) (e : ChangeEvent) : ChangeEvent :=
  mkChangeEvent token (ev_Operation e) (ev_DN e) (ev_Entry e) (ev_OldDN e).

Definition no_event : ChangeEvent := mkChangeEvent 0 0 [] None [].

(** ** ringbuffer.go *)

Definition ReplayBufferSize : Z := 4096.
Definition DefaultBufferSize : Z := 256.

Record RingBuffer := mkRingBuffer {
  rb_events : list ChangeEvent;
  rb_head : Z;
  rb_tail : Z;
  rb_size : Z;
  rb_capacity : Z;
  rb_minToken : Z
}.

Definition NewRingBuffer (capacity : Z) : RingBuffer :=
  let capacity := if decide (capacity <= 0) then ReplayBufferSize else capacity in
  mkRingBuffer (replicate (Z.to_nat capacity) no_event) 0 0 0 capacity 0.

(** [events[i]]. *)
Definition event_at (events : list ChangeEvent) (i : Z) : outcome ChangeEvent :=
  if decide (0 <= i) then match events !! Z.to_nat i with Some e => Ok e | None => Panic end else Panic.

(** [a % b]. *)
Definition modulo (a b : Z) : outcome Z := if decide (b = 0) then Panic else Ok (Z.rem a b).

Definition Push (event : ChangeEvent) (rb : RingBuffer) : outcome RingBuffer :=
  _ ← event_at (rb_events rb) (rb_tail rb);
  let events := <[Z.to_nat (rb_tail rb) := event]> (rb_events rb) in
  tail ← modulo (rb_tail rb + 1) (rb_capacity rb);
  if decide (rb_size rb < rb_capacity rb) then
    let size := rb_size rb + 1 in
    Ok (mkRingBuffer events (rb_head rb) tail size (rb_capacity rb)
          (if decide (size = 1) then ev_Token event else rb_minToken rb))
  else
    head ← modulo (rb_head rb + 1) (rb_capacity rb);
    first ← event_at events head;
    Ok (mkRingBuffer events head tail (rb_size rb) (rb_capacity rb) (ev_Token first)).

(** [for i := 0; i < rb.size; i++], from [i] on. *)
Fixpoint events_from (rb : RingBuffer) (token : Z) (n : nat) (i : Z) : outcome (list ChangeEvent) :=
  match n with
  | O => Ok []
  | S n =>
      idx ← modulo (rb_head rb + i) (rb_capacity rb);
      e ← event_at (rb_events rb) idx;
      rest ← events_from rb token n (i + 1);
      Ok (if decide (ev_Token e > token) then e :: rest else rest)
  end.

Definition EventsSince (token : Z) (rb : RingBuffer) : outcome (option (list ChangeEvent)) :=
  if decide (rb_size rb = 0) then Ok (Some [])
  else if decide (token > 0 /\ token < rb_minToken rb) then Ok None
  else
    result ← events_from rb token (Z.to_nat (rb_size rb)) 0;
    Ok (match result with [] => None | _ => Some result end).

Definition RingBuffer_Len (rb : RingBuffer) : Z := rb_size rb.
Definition MinToken (rb : RingBuffer) : Z := if decide (rb_size rb = 0) then 0 else rb_minToken rb.

Definition MaxToken (rb : RingBuffer) : outcome Z :=
  if decide (rb_size rb = 0) then Ok 0
  else
    lastIdx ← modulo (rb_tail rb - 1 + rb_capacity rb) (rb_capacity rb);
    e ← event_at (rb_events rb) lastIdx;
    Ok (ev_Token e).

Definition RingBuffer_Clear (rb : RingBuffer) : RingBuffer :=
  mkRingBuffer (rb_events rb) 0 0 0 (rb_capacity rb) 0.

(** ** filter.go *)

Definition WatchBase : Z := 0.
Definition WatchOneLevel : Z := 1.
Definition WatchSubtree : Z := 2.

Record WatchFilter := mkWatchFilter {
  wf_BaseDN : gostring;
  wf_Scope : Z;
  wf_Operations : list Z
}.

(** The comma that a child's name has in front of its parent's. *)
Definition comma_dn (baseDN : gostring) : gostring := comma :: baseDN.

Definition isDirectChild (dn baseDN : gostring) : bool :=
  let suffix := comma_dn baseDN in
  if negb (HasSuffix dn suffix) then false
  else
    let prefix := TrimSuffix dn suffix in
    negb (bytes_eqb prefix []) && negb (Contains prefix [comma]).

Section Filter.
Context {UT : UnicodeTables}.

(** [event] is not nil. *)
Definition WatchFilter_Matches (f : WatchFilter) (event : ChangeEvent) : bool :=
  if bool_decide (len (wf_Operations f) > 0) && negb (existsb (Z.eqb (ev_Operation event)) (wf_Operations f)) then false
  else if bytes_eqb (wf_BaseDN f) [] then true
  else
    let dn := ToLower (ev_DN event) in
    let baseDN := ToLower (wf_BaseDN f) in
    if decide (wf_Scope f = WatchBase) then bytes_eqb dn baseDN
    else if decide (wf_Scope f = WatchOneLevel) then isDirectChild dn baseDN
    else if decide (wf_Scope f = WatchSubtree) then bytes_eqb dn baseDN || HasSuffix dn (comma_dn baseDN)
    else false.
End Filter.

Definition MatchAll : WatchFilter := mkWatchFilter [] 0 [].
Definition MatchDN (dn : gostring) : WatchFilter := mkWatchFilter dn WatchBase [].
Definition MatchSubtree (baseDN : gostring) : WatchFilter := mkWatchFilter baseDN WatchSubtree [].

(** ** subscriber.go *)

(** [sub_Channel]: the events in the buffer of the channel, oldest first; [sub_room]: its size. *)
Record Subscriber := mkSubscriber {
  sub_Filter : WatchFilter;
  sub_Channel : list ChangeEvent;
  sub_room : Z;
  sub_dropped : Z;
  sub_closed : bool
}.

Definition NewSubscriber (filter : WatchFilter) (bufferSize : Z) : Subscriber :=
  mkSubscriber filter [] (if decide (bufferSize <= 0) then DefaultBufferSize else bufferSize) 0 false.

Definition Send (event : ChangeEvent) (s : Subscriber) : bool * Subscriber :=
  if sub_closed s then (false, s)
  else if decide (len (sub_Channel s) < sub_room s) then
    (true, mkSubscriber (sub_Filter s) (sub_Channel s ++ [event]) (sub_room s) (sub_dropped s) false)
  else (false, mkSubscriber (sub_Filter s) (sub_Channel s) (sub_room s) (uint64 (sub_dropped s + 1)) false).

Definition Subscriber_Close (s : Subscriber) : Subscriber :=
  mkSubscriber (sub_Filter s) (sub_Channel s) (sub_room s) (sub_dropped s) true.

Definition Subscriber_IsClosed (s : Subscriber) : bool := sub_closed s.
Definition DroppedCount (s : Subscriber) : Z := sub_dropped s.

Definition ResetDropped (s : Subscriber) : Z * Subscriber :=
  (sub_dropped s, mkSubscriber (sub_Filter s) (sub_Channel s) (sub_room s) 0 (sub_closed s)).

(** [<-sub.Channel] by the client, when there is an event. *)
Definition receive (s : Subscriber) : option ChangeEvent * Subscriber :=
  match sub_Channel s with
  | [] => (None, s)
  | e :: es => (Some e, mkSubscriber (sub_Filter s) es (sub_room s) (sub_dropped s) (sub_closed s))
  end.

(** ** broker.go *)

Definition ErrTokenTooOld : goerror := ErrConst "ErrTokenTooOld".
Definition ErrBrokerClosed : goerror := ErrConst "ErrBrokerClosed".

(** Subscribers are objects that clients keep after the broker has let go of them:
    [b_objects] has all of them, [b_subscribers] the identifiers in the broker's map. *)
Record Broker := mkBroker {
  b_objects : gmap Z Subscriber;
  b_subscribers : gset Z;
  b_nextID : Z;
  b_count : Z;
  b_replay : RingBuffer;
  b_nextToken : Z;
  b_closed : bool
}.

Definition NewBroker : Broker := mkBroker ∅ ∅ 0 0 (NewRingBuffer ReplayBufferSize) 0 false.

Definition set_objects (m : gmap Z Subscriber) (b : Broker) : Broker :=
  mkBroker m (b_subscribers b) (b_nextID b) (b_count b) (b_replay b) (b_nextToken b) (b_closed b).

Section Broker.
Context {UT : UnicodeTables}.

Definition Subscribe (filter : WatchFilter) (b : Broker) : option Z * Broker :=
  if b_closed b then (None, b)
  else
    let id := uint64 (b_nextID b + 1) in
    (Some id, mkBroker (<[id := NewSubscriber filter DefaultBufferSize]> (b_objects b)) ({[id]} ∪ b_subscribers b)
                id (b_count b + 1) (b_replay b) (b_nextToken b) (b_closed b)).

Definition offer (event : ChangeEvent) (s : Subscriber) : Subscriber :=
  if WatchFilter_Matches (sub_Filter s) event then (Send event s).2 else s.

(** The two halves of [SubscribeWithResume]: it looks up the events and then registers. *)
Definition resume_events (resumeToken : Z) (b : Broker) : outcome (list ChangeEvent) :=
  if b_closed b then Err ErrBrokerClosed
  else
    events ← EventsSince resumeToken (b_replay b);
    match events with None => Err ErrTokenTooOld | Some events => Ok events end.

Definition resume_register (filter : WatchFilter) (events : list ChangeEvent) (b : Broker) : outcome Z * Broker :=
  match Subscribe filter b with
  | (None, b) => (Err ErrBrokerClosed, b)
  | (Some id, b) => (Ok id, set_objects (alter (fun s => foldl (fun s e => offer e s) s events) id (b_objects b)) b)
  end.

Definition SubscribeWithResume (filter : WatchFilter) (resumeToken : Z) (b : Broker) : outcome Z * Broker :=
  match resume_events resumeToken b with
  | Ok events => resume_register filter events b
  | Err e => (Err e, b)
  | Panic => (Panic, b)
  | Diverge => (Diverge, b)
  end.

Definition Unsubscribe (id : Z) (b : Broker) : Broker :=
  if decide (id ∈ b_subscribers b) then
    mkBroker (alter Subscriber_Close id (b_objects b)) (b_subscribers b ∖ {[id]}) (b_nextID b) (b_count b - 1)
      (b_replay b) (b_nextToken b) (b_closed b)
  else b.

(** [subscribers.Range]: every subscriber of the map, in some order; each is changed alone. *)
Definition broadcast (event : ChangeEvent) (ids : gset Z) (m : gmap Z Subscriber) : gmap Z Subscriber :=
  map_imap (fun id s => Some (if decide (id ∈ ids) then offer event s else s)) m.

Definition Publish (event : ChangeEvent) (b : Broker) : outcome Broker :=
  if b_closed b then Ok b
  else
    let token := uint64 (b_nextToken b + 1) in
    let event := with_token token event in
    replay ← Push event (b_replay b);
    Ok (mkBroker (if decide (b_count b = 0) then b_objects b else broadcast event (b_subscribers b) (b_objects b))
          (b_subscribers b) (b_nextID b) (b_count b) replay token (b_closed b)).

Definition Broker_Close (b : Broker) : Broker :=
  if b_closed b then b
  else mkBroker (map_imap (fun id s => Some (if decide (id ∈ b_subscribers b) then Subscriber_Close s else s)) (b_objects b))
         ∅ (b_nextID b) 0 (b_replay b) (b_nextToken b) true.
End Broker.

Definition HasSubscribers (b : Broker) : bool := bool_decide (b_count b > 0).
Definition CurrentToken (b : Broker) : Z := b_nextToken b.
Definition SubscriberCount (b : Broker) : Z := b_count b.
Definition Broker_IsClosed (b : Broker) : bool := b_closed b.

Record BrokerStats := mkBrokerStats {
  st_SubscriberCount : Z;
  st_CurrentToken : Z;
  st_ReplayBufferLen : Z;
  st_MinReplayToken : Z
}.

Definition Broker_Stats (b : Broker) : BrokerStats :=
  mkBrokerStats (b_count b) (b_nextToken b) (RingBuffer_Len (b_replay b)) (MinToken (b_replay b)).

(** ** The ring buffer as a list *)

Record ring (rb : RingBuffer) (l : list ChangeEvent) : Prop := mkRing {
  ri_capacity : 0 < rb_capacity rb;
  ri_length : len (rb_events rb) = rb_capacity rb;
  ri_head : 0 <= rb_head rb < rb_capacity rb;
  ri_size : rb_size rb = len l;
  ri_room : len l <= rb_capacity rb;
  ri_tail : rb_tail rb = (rb_head rb + len l) mod rb_capacity rb;
  ri_events : forall i e, l !! i = Some e -> rb_events rb !! Z.to_nat ((rb_head rb + Z.of_nat i) mod rb_capacity rb) = Some e;
  ri_min : forall e l', l = e :: l' -> rb_minToken rb = ev_Token e
}.

Lemma ring_new capacity : 0 < capacity -> ring (NewRingBuffer capacity) [].
Proof.
  intros Hc. unfold NewRingBuffer. rewrite decide_False by lia.
  constructor; cbn; try done; try lia; [unfold len; rewrite length_replicate; lia | unfold len; cbn; lia].
Qed.

Lemma modulo_run a b : 0 < b -> 0 <= a -> modulo a b = Ok (a mod b).
Proof. intros Hb Ha. unfold modulo. rewrite decide_False by lia. by rewrite Z.rem_mod_nonneg by lia. Qed.

Lemma event_at_run es i : 0 <= i < len es -> exists e, event_at es i = Ok e /\ es !! Z.to_nat i = Some e.
Proof.
  intros Hi. unfold event_at. rewrite decide_True by lia. destruct (es !! Z.to_nat i) as [e|] eqn:E; [by exists e |].
  apply lookup_ge_None in E. unfold len in Hi. lia.
Qed.

(** A full circle apart, positions differ. *)
Lemma slot_inj h i j c : 0 <= h -> 0 <= i < c -> 0 <= j < c -> (h + i) mod c = (h + j) mod c -> i = j.
Proof.
  intros Hh Hi Hj E. pose proof (Z.div_mod (h + i) c ltac:(lia)) as H1. pose proof (Z.div_mod (h + j) c ltac:(lia)) as H2. rewrite E in H1.
  generalize dependent ((h + i) / c). generalize dependent ((h + j) / c). intros q2 H2 q1 H1.
  assert (i - j = c * (q1 - q2)) as Hd by lia. assert (q1 - q2 = 0) by nia. lia.
Qed.

Lemma slot_range h i c : 0 < c -> 0 <= (h + i) mod c < c.
Proof. intros Hc. by apply Z.mod_pos_bound. Qed.

(** The last [n] elements. *)
Definition lastn {A} (n : nat) (l : list A) : list A := drop (length l - n) l.

Lemma Push_run rb l e :
  ring rb l -> exists rb', Push e rb = Ok rb' /\ rb_capacity rb' = rb_capacity rb
    /\ ring rb' (lastn (Z.to_nat (rb_capacity rb)) (l ++ [e])).
Proof.
  intros [Hc Hl Hh Hs Hr Ht He Hm]. unfold Push. set (c := rb_capacity rb) in *. set (h := rb_head rb) in *.
  assert (0 <= rb_tail rb < c) as Htr by (rewrite Ht; by apply slot_range).
  destruct (event_at_run (rb_events rb) (rb_tail rb)) as (x & -> & Hx); [by rewrite Hl |]. cbn [mbind outcome_bind].
  rewrite (modulo_run (rb_tail rb + 1) c) by lia. cbn [mbind outcome_bind]. set (es := <[Z.to_nat (rb_tail rb) := e]> (rb_events rb)).
  assert (len es = c) as Hes by (unfold es, len; rewrite length_insert; exact Hl).
  assert (es !! Z.to_nat (rb_tail rb) = Some e) as Hnew.
  { unfold es. apply list_lookup_insert_eq. unfold len in Hl. lia. }
  assert (forall i y, l !! i = Some y -> Z.of_nat i <> len l - c -> es !! Z.to_nat ((h + Z.of_nat i) mod c) = Some y) as Hold.
  { intros i y Hi Hne. unfold es. rewrite list_lookup_insert_ne; [by apply He |]. intros Eq.
    pose proof (lookup_lt_Some _ _ _ Hi). pose proof (slot_range h (Z.of_nat i) c Hc). pose proof (slot_range h (len l) c Hc).
    rewrite Ht in Eq. apply Z2Nat.inj in Eq; [| lia..]. unfold len in *.
    destruct (decide (Z.of_nat (length l) = c)) as [Ef|Hf].
    - rewrite Ef, <- (Z.add_0_r (h + c)) in Eq. replace (h + c + 0) with (h + 0 + 1 * c) in Eq by lia. rewrite Z.mod_add in Eq by lia.
      apply slot_inj in Eq; [| lia..]. lia.
    - apply slot_inj in Eq; lia. }
  rewrite Hs. case_decide as Hfull.
  - eexists. split_and!; [reflexivity | done |]. unfold lastn. rewrite length_app. cbn [length]. unfold len in *.
    replace (length l + 1 - Z.to_nat c)%nat with 0%nat by lia. rewrite drop_0.
    constructor; cbn; try done; try lia; unfold len in *; rewrite ?length_app; cbn [length]; try lia.
    + rewrite Ht, Zplus_mod_idemp_l. f_equal. lia.
    + intros i y [Hi|[Hi [Ei <-]%list_lookup_singleton_Some]]%lookup_app_Some.
      * apply Hold; [done | lia].
      * assert (i = length l) as -> by lia. by rewrite <- Ht.
    + intros y l' Eq. destruct l as [|z l]; cbn in *; [injection Eq as <- _; by rewrite decide_True |].
      injection Eq as <- _. rewrite decide_False by lia. by eapply Hm.
  - assert (len l = c) as Ef by lia. rewrite (modulo_run (h + 1) c) by lia. cbn [mbind outcome_bind].
    pose proof (slot_range h 1 c Hc) as Hr1. destruct (event_at_run es ((h + 1) mod c)) as (y & -> & Hy); [by rewrite Hes |]. cbn [mbind outcome_bind].
    eexists. split_and!; [reflexivity | done |]. unfold len in *.
    assert (lastn (Z.to_nat c) (l ++ [e]) = tail l ++ [e]) as ->.
    { unfold lastn. rewrite length_app. cbn [length]. replace (length l + 1 - Z.to_nat c)%nat with 1%nat by lia.
      by destruct l; [cbn in Ef; lia |]. }
    assert (length (tail l ++ [e]) = length l) as Elen by (rewrite length_app; cbn; destruct l; cbn in *; lia).
    assert (forall i z, (tail l ++ [e]) !! i = Some z -> es !! Z.to_nat (((h + 1) mod c + Z.of_nat i) mod c) = Some z) as Hnews.
    { intros i z Hi. rewrite Zplus_mod_idemp_l. replace (h + 1 + Z.of_nat i) with (h + Z.of_nat (S i)) by lia.
      apply lookup_app_Some in Hi as [Hi|[Hge Hi]].
      - apply Hold; [by destruct l | lia].
      - apply list_lookup_singleton_Some in Hi as [E0 <-].
        replace (h + Z.of_nat (S i)) with (h + Z.of_nat (length l)) by (destruct l; cbn in *; lia). by rewrite <- Ht. }
    constructor; cbn; try done; try lia; unfold len in *; rewrite ?Elen; try lia.
    + rewrite Ht, Ef. replace (h + c) with (h + 1 * c) by lia. rewrite Z.mod_add, (Z.mod_small h c) by lia.
      replace ((h + 1) mod c + c) with ((h + 1) mod c + 1 * c) by lia. by rewrite Z.mod_add, Z.mod_mod by lia.
    + intros z l' Eq. specialize (Hnews 0%nat z). rewrite Eq in Hnews. specialize (Hnews eq_refl). cbn in Hnews.
      rewrite Z.add_0_r, Z.mod_mod in Hnews by lia. congruence.
Qed.

Definition newer (token : Z) (l : list ChangeEvent) : list ChangeEvent := filter (fun e => ev_Token e > token) l.

Lemma events_from_run rb l token i n :
  ring rb l -> (i + n <= length l)%nat -> events_from rb token n (Z.of_nat i) = Ok (newer token (take n (drop i l))).
Proof.
  intros Hr. pose proof Hr as [Hc Hl Hh Hs Hro Ht He Hm]. revert i. induction n as [|n IH]; intros i Hi; cbn [events_from]; [done |].
  rewrite modulo_run by lia. cbn [mbind outcome_bind].
  destruct (lookup_lt_is_Some_2 l i ltac:(lia)) as [e Hie].
  pose proof (slot_range (rb_head rb) (Z.of_nat i) (rb_capacity rb) Hc) as Hsl.
  destruct (event_at_run (rb_events rb) ((rb_head rb + Z.of_nat i) mod rb_capacity rb)) as (x & -> & Hx); [by rewrite Hl |].
  rewrite (He i e Hie) in Hx. injection Hx as <-. cbn [mbind outcome_bind].
  replace (Z.of_nat i + 1) with (Z.of_nat (S i)) by lia. rewrite IH by lia. cbn [mbind outcome_bind].
  rewrite (drop_S _ _ _ Hie). cbn [take]. unfold newer. rewrite filter_cons. by repeat case_decide.
Qed.

(** What a resumption from a token gets out of the recent events [l]. *)
Definition resumable (l : list ChangeEvent) (token : Z) : option (list ChangeEvent) :=
  match l with
  | [] => Some []
  | e :: _ => if decide (0 < token < ev_Token e) then None
              else match newer token l with [] => None | es => Some es end
  end.

Lemma EventsSince_run rb l token : ring rb l -> EventsSince token rb = Ok (resumable l token).
Proof.
  intros Hr. pose proof Hr as [Hc Hl Hh Hs Hro Ht He Hm]. unfold EventsSince, resumable. rewrite Hs. destruct l as [|e l].
  - by rewrite decide_True.
  - rewrite decide_False by (rewrite len_cons; pose proof (len_nonneg l); lia). rewrite (Hm e l eq_refl).
    destruct (decide (0 < token < ev_Token e)) as [Ho|Ho]; [by rewrite decide_True by lia |]. rewrite decide_False by lia.
    change 0 with (Z.of_nat 0). rewrite (events_from_run _ (e :: l)) by (done || (unfold len; lia)). cbn [mbind outcome_bind drop].
    rewrite take_ge by (unfold len; lia). by destruct (newer token (e :: l)).
Qed.

(** ** What every subscriber is owed *)

(** The events that a resumption from a token finds when [history] has been published, the
    event with token [i] being the [i]-th: those after the token, but never more than the last
    4096, not even from token 0. It is refused when the token is not 0 and older than the oldest
    of these, and when nothing is newer than the token. *)
Definition resumption (history : list ChangeEvent) (token : Z) : option (list ChangeEvent) :=
  let n := len history in
  let oldest := Z.max 1 (n - ReplayBufferSize + 1) in
  if decide (n = 0) then Some []
  else if decide (0 < token < oldest \/ n <= token) then None
  else Some (drop (Z.to_nat (Z.max token (oldest - 1))) history).

(** Tokens are positions. *)
Definition numbered (history : list ChangeEvent) : Prop := forall i e, history !! i = Some e -> ev_Token e = Z.of_nat i + 1.

Lemma newer_numbered history token k :
  numbered history -> newer token (drop k history) = drop (Z.to_nat (Z.max token (Z.of_nat k))) history.
Proof.
  intros Hn. remember (length history - k)%nat as m eqn:Em. revert k Em. induction m as [|m IH]; intros k Em.
  { rewrite !drop_ge by lia. done. }
  destruct (lookup_lt_is_Some_2 history k ltac:(lia)) as [e He]. rewrite (drop_S _ _ _ He). unfold newer. rewrite filter_cons, (Hn _ _ He).
  fold (newer token (drop (S k) history)). rewrite (IH (S k)) by lia. case_decide as Hd.
  - replace (Z.to_nat (Z.max token (Z.of_nat k))) with k by lia. replace (Z.to_nat (Z.max token (Z.of_nat (S k)))) with (S k) by lia.
    by rewrite (drop_S _ _ _ He).
  - f_equal. lia.
Qed.

Lemma resumable_recent history token :
  numbered history -> resumable (lastn (Z.to_nat ReplayBufferSize) history) token = resumption history token.
Proof.
  intros Hn. unfold resumption, lastn, ReplayBufferSize. set (k := (length history - Z.to_nat 4096)%nat).
  destruct (decide (history = [])) as [->|Hne]; [done |].
  assert (0 < len history) as Hpos by (destruct history as [|? h0]; [done |]; rewrite len_cons; pose proof (len_nonneg h0); lia).
  unfold len in *. cbv zeta. rewrite decide_False by lia.
  destruct (lookup_lt_is_Some_2 history k ltac:(lia)) as [e He].
  assert (resumable (drop k history) token = if decide (0 < token < Z.of_nat k + 1) then None else match newer token (drop k history) with [] => None | es => Some es end) as ->.
  { rewrite (drop_S _ _ _ He). cbn [resumable]. by rewrite (Hn _ _ He). }
  rewrite newer_numbered by done. replace (Z.max 1 (Z.of_nat (length history) - 4096 + 1)) with (Z.of_nat k + 1) by lia.
  replace (Z.of_nat k + 1 - 1) with (Z.of_nat k) by lia.
  destruct (decide (0 < token < Z.of_nat k + 1)) as [Ho|Ho]; [by rewrite decide_True by tauto |].
  destruct (decide (Z.of_nat (length history) <= token)) as [Hl|Hl].
  - rewrite decide_True by tauto. by rewrite drop_ge by lia.
  - rewrite decide_False by tauto. destruct (drop _ history) eqn:Ed; [| done]. apply (f_equal length) in Ed. rewrite length_drop in Ed. cbn in Ed. lia.
Qed.

(** [ac_late]: the subscriber has been more than a channel's buffer behind at some time. *)
Record account := mkAccount {
  ac_filter : WatchFilter;
  ac_owed : list ChangeEvent;
  ac_received : list ChangeEvent;
  ac_live : bool;
  ac_late : bool
}.

Definition account0 (f : WatchFilter) : account := mkAccount f [] [] true false.

(** All events with their tokens, and the accounts; identifiers count from 1. *)
Record feed := mkFeed {
  fd_history : list ChangeEvent;
  fd_accounts : gmap Z account;
  fd_next : Z;
  fd_closed : bool
}.

Definition feed0 : feed := mkFeed [] ∅ 0 false.

Definition recent (F : feed) : list ChangeEvent := lastn (Z.to_nat ReplayBufferSize) (fd_history F).

Definition stop (a : account) : account := mkAccount (ac_filter a) (ac_owed a) (ac_received a) false (ac_late a).
Definition get_event (e : ChangeEvent) (a : account) : account :=
  mkAccount (ac_filter a) (ac_owed a) (ac_received a ++ [e]) (ac_live a) (ac_late a).

Section Stream.
Context {UT : UnicodeTables}.

Definition owe (e : ChangeEvent) (a : account) : account :=
  if ac_live a && WatchFilter_Matches (ac_filter a) e
  then mkAccount (ac_filter a) (ac_owed a ++ [e]) (ac_received a) (ac_live a)
         (ac_late a || bool_decide (len (ac_owed a) + 1 - len (ac_received a) > DefaultBufferSize))
  else a.

Definition open_account (F : feed) (f : WatchFilter) (es : list ChangeEvent) : feed :=
  mkFeed (fd_history F)
    (<[fd_next F + 1 := foldl (fun a e => owe e a) (account0 f) es]> (fd_accounts F)) (fd_next F + 1) (fd_closed F).

(** The operations of clients; a resumption [q] is in two steps, its look-up of the events and its
    registration with their replay, between which anything else may happen. *)
Inductive stream_op :=
| SPublish (e : ChangeEvent)
| SSubscribe (f : WatchFilter)
| SLookup (q token : Z)
| SRegister (q : Z) (f : WatchFilter)
| SUnsubscribe (id : Z)
| SReceive (id : Z)
| SClose.

Inductive stream_result := SDone | SId (id : option Z) | SEvent (e : option ChangeEvent).

Definition lift_result {A} (f : A -> stream_result) (r : outcome A) : outcome stream_result :=
  match r with Ok a => Ok (f a) | Err e => Err e | Panic => Panic | Diverge => Diverge end.

Definition receive_from (id : Z) (b : Broker) : outcome stream_result * Broker :=
  match b_objects b !! id with
  | Some s => let '(e, s) := receive s in (Ok (SEvent e), set_objects (<[id := s]> (b_objects b)) b)
  | None => (Ok (SEvent None), b)
  end.

(** The events that resumptions have looked up and not yet registered for. *)
Abbreviation lookups := (gmap Z (list ChangeEvent)).

Definition stream_exec (o : stream_op) (x : Broker * lookups) : outcome stream_result * (Broker * lookups) :=
  let '(b, R) := x in
  match o with
  | SPublish e => match Publish e b with
                  | Ok b' => (Ok SDone, (b', R))
                  | r => (lift_result (fun _ => SDone) r, x)
                  end
  | SSubscribe f => let '(id, b) := Subscribe f b in (Ok (SId id), (b, R))
  | SLookup q token => match resume_events token b with
                       | Ok es => (Ok SDone, (b, <[q := es]> R))
                       | r => (lift_result (fun _ => SDone) r, x)
                       end
  | SRegister q f => match R !! q with
                     | Some es => let '(r, b) := resume_register f es b in (lift_result (fun id => SId (Some id)) r, (b, delete q R))
                     | None => (Ok SDone, x)
                     end
  | SUnsubscribe id => (Ok SDone, (Unsubscribe id b, R))
  | SReceive id => let '(r, b) := receive_from id b in (r, (b, R))
  | SClose => (Ok SDone, (Broker_Close b, R))
  end.

(** The feed after an operation with its result. *)
Definition feed_step (F : feed) (Q : lookups) (o : stream_op) (r : outcome stream_result) : feed :=
  match o with
  | SPublish e =>
      if fd_closed F then F
      else let e := with_token (len (fd_history F) + 1) e in
           mkFeed (fd_history F ++ [e]) (owe e <$> fd_accounts F) (fd_next F) false
  | SSubscribe f => if fd_closed F then F else open_account F f []
  | SLookup _ _ => F
  | SRegister q f => match Q !! q with Some es => if fd_closed F then F else open_account F f es | None => F end
  | SUnsubscribe id => mkFeed (fd_history F) (alter stop id (fd_accounts F)) (fd_next F) (fd_closed F)
  | SReceive id =>
      match r with
      | Ok (SEvent (Some e)) => mkFeed (fd_history F) (alter (get_event e) id (fd_accounts F)) (fd_next F) (fd_closed F)
      | _ => F
      end
  | SClose => mkFeed (fd_history F) (stop <$> fd_accounts F) (fd_next F) true
  end.

(** The events of the resumptions after an operation. *)
Definition lookup_step (F : feed) (Q : lookups) (o : stream_op) : lookups :=
  match o with
  | SLookup q token =>
      if fd_closed F then Q else match resumption (fd_history F) token with Some es => <[q := es]> Q | None => Q end
  | SRegister q _ => delete q Q
  | _ => Q
  end.

Definition stream_answer (F : feed) (Q : lookups) (o : stream_op) (r : outcome stream_result) : Prop :=
  match o with
  | SPublish _ | SUnsubscribe _ | SClose => r = Ok SDone
  | SSubscribe _ => r = Ok (SId (if fd_closed F then None else Some (fd_next F + 1)))
  | SLookup _ token =>
      r = if fd_closed F then Err ErrBrokerClosed
          else match resumption (fd_history F) token with None => Err ErrTokenTooOld | Some _ => Ok SDone end
  | SRegister q _ =>
      r = match Q !! q with
          | Some _ => if fd_closed F then Err ErrBrokerClosed else Ok (SId (Some (fd_next F + 1)))
          | None => Ok SDone
          end
  | SReceive id => exists e, r = Ok (SEvent e)
  end.

(** What a subscriber has got and has in its channel is what it is owed, in order, without the
    events that were dropped, which are counted; a subscriber that is never more than a
    buffer behind loses none. *)
Definition delivered (F : feed) (b : Broker) : Prop :=
  forall id a, fd_accounts F !! id = Some a -> exists s, b_objects b !! id = Some s
    /\ ac_received a ++ sub_Channel s `sublist_of` ac_owed a
    /\ len (ac_received a ++ sub_Channel s) + sub_dropped s = len (ac_owed a)
    /\ (ac_late a = false -> ac_received a ++ sub_Channel s = ac_owed a).

Fixpoint stream_run (F : feed) (Q : lookups) (x : Broker * lookups) (os : list stream_op) : Prop :=
  delivered F x.1 /\
  match os with
  | [] => True
  | o :: os =>
      let '(r, x') := stream_exec o x in stream_answer F Q o r /\ stream_run (feed_step F Q o r) (lookup_step F Q o) x' os
  end.

(** ** The invariant *)

Record in_step (a : account) (s : Subscriber) (registered : bool) : Prop := mkInStep {
  is_filter_same : sub_Filter s = ac_filter a;
  is_closed : sub_closed s = negb (ac_live a);
  is_registered : registered = ac_live a;
  is_order : ac_received a ++ sub_Channel s `sublist_of` ac_owed a;
  is_count : len (ac_received a ++ sub_Channel s) + sub_dropped s = len (ac_owed a);
  is_dropped : 0 <= sub_dropped s;
  is_room : sub_room s = DefaultBufferSize;
  is_prompt : ac_late a = false -> sub_dropped s = 0
}.

Record tracks (n : Z) (F : feed) (b : Broker) : Prop := mkTracks {
  tk_ring : ring (b_replay b) (recent F);
  tk_capacity : rb_capacity (b_replay b) = ReplayBufferSize;
  tk_token : b_nextToken b = len (fd_history F);
  tk_history : len (fd_history F) <= n;
  tk_numbered : numbered (fd_history F);
  tk_closed : b_closed b = fd_closed F;
  tk_next : b_nextID b = fd_next F;
  tk_ids : 0 <= fd_next F <= n;
  tk_fresh : forall id, is_Some (fd_accounts F !! id) -> 1 <= id <= fd_next F;
  tk_dom : forall id, is_Some (b_objects b !! id) <-> is_Some (fd_accounts F !! id);
  tk_subs : forall id a s, fd_accounts F !! id = Some a -> b_objects b !! id = Some s -> in_step a s (bool_decide (id ∈ b_subscribers b));
  tk_known : forall id, id ∈ b_subscribers b -> is_Some (b_objects b !! id);
  tk_count : b_count b = Z.of_nat (size (b_subscribers b));
  tk_owed : forall id a, fd_accounts F !! id = Some a -> len (ac_owed a) <= len (fd_history F);
  tk_shut : fd_closed F = true -> b_subscribers b = ∅
}.

Lemma len_snoc {A} (l : list A) x : len (l ++ [x]) = len l + 1.
Proof. by rewrite len_app. Qed.

Lemma offer_in_step a s r e :
  in_step a s r -> len (ac_owed a) + 1 < 2 ^ 64 -> in_step (owe e a) (if r then offer e s else s) r.
Proof.
  intros [Hf Hc Hr Ho Hn Hd Hm Hp] Hl. unfold owe. rewrite Hr. destruct (ac_live a) eqn:Ea; cbn [andb]; last by constructor; rewrite ?Ea.
  unfold offer. rewrite Hf. destruct (WatchFilter_Matches (ac_filter a) e); [| by constructor; rewrite ?Ea].
  unfold Send. rewrite Hc. cbn [negb]. pose proof (len_nonneg (ac_received a ++ sub_Channel s)). case_decide as Hroom; constructor; cbn; try done.
  - rewrite app_assoc. by apply sublist_app.
  - rewrite app_assoc, !len_snoc. lia.
  - intros [Hlate _]%orb_false_iff. auto.
  - by apply sublist_inserts_r.
  - rewrite len_snoc, uint64_id by (unfold is_uint64; lia). lia.
  - rewrite uint64_id by (unfold is_uint64; lia). lia.
  - intros [Hlate Hbehind%bool_decide_eq_false]%orb_false_iff. specialize (Hp Hlate). rewrite len_app in Hn. lia.
Qed.

Lemma owe_length e a : len (ac_owed a) <= len (ac_owed (owe e a)) <= len (ac_owed a) + 1.
Proof. unfold owe. destruct (_ && _); cbn [ac_owed]; rewrite ?len_snoc; lia. Qed.

Lemma owes_length es a : len (ac_owed (foldl (fun a e => owe e a) a es)) <= len (ac_owed a) + len es.
Proof.
  revert a. induction es as [|e es IH]; intros a; cbn [foldl]; [unfold len; cbn; lia |].
  rewrite len_cons. specialize (IH (owe e a)). pose proof (owe_length e a). lia.
Qed.

Lemma offers_in_step es a s :
  in_step a s true -> len (ac_owed a) + len es < 2 ^ 64 ->
  in_step (foldl (fun a e => owe e a) a es) (foldl (fun s e => offer e s) s es) true.
Proof.
  revert a s. induction es as [|e es IH]; intros a s Hi Hl; [done |]. cbn [foldl]. rewrite len_cons in Hl. pose proof (len_nonneg es).
  apply IH; [apply (offer_in_step a s true e Hi); lia |].
  pose proof (owe_length e a). lia.
Qed.

Lemma sublist_whole {A} (l k : list A) : l `sublist_of` k -> length l = length k -> l = k.
Proof.
  induction 1 as [|x l k _ IH|x l k Hs IH]; cbn; intros Hl; [done | f_equal; apply IH; lia |].
  apply sublist_length in Hs. lia.
Qed.

Lemma tracks_delivered n F b : tracks n F b -> delivered F b.
Proof.
  intros Ht id a Ha. destruct (proj2 (tk_dom _ _ _ Ht id) ltac:(by eexists)) as [s Hs]. exists s.
  destruct (tk_subs _ _ _ Ht id a s Ha Hs) as [_ _ _ Ho Hn _ _ Hp]. split_and!; [done | done | done |]. intros H0%Hp.
  apply sublist_whole; [done |]. unfold len in Hn. lia.
Qed.

(** ** Steps *)

Lemma lastn_snoc {A} n (l : list A) x : lastn n (lastn n l ++ [x]) = lastn n (l ++ [x]).
Proof.
  unfold lastn. rewrite !length_app, length_drop. cbn [length].
  destruct (decide (length l <= n)%nat) as [Hle|Hgt].
  - replace (length l - n)%nat with 0%nat by lia. rewrite drop_0. f_equal. lia.
  - rewrite <- (drop_app_le l [x] (length l - n)) by lia. rewrite drop_drop. f_equal. lia.
Qed.

Lemma tracks_mono n F b : tracks n F b -> tracks (n + 1) F b.
Proof. intros []. constructor; try done; lia. Qed.

Lemma step_publish n F Q b e :
  tracks n F b -> n + 1 < 2 ^ 64 ->
  exists b', Publish e b = Ok b' /\ tracks (n + 1) (feed_step F Q (SPublish e) (Ok SDone)) b'.
Proof.
  intros Ht Hn. pose proof Ht as [Hri Hca Hto Hhi Hnu Hcl Hnx Hid Hfr Hdo Hsu Hkn Hco How Hsh]. unfold Publish, feed_step. rewrite Hcl.
  destruct (fd_closed F) eqn:Ec; [exists b; split; [done | by apply tracks_mono] |].
  rewrite Hto. pose proof (len_nonneg (fd_history F)). rewrite uint64_id by (unfold is_uint64; lia). set (e' := with_token _ e).
  destruct (Push_run _ _ e' Hri) as (rb & -> & Hca' & Hri'). cbn [mbind outcome_bind]. eexists. split; [reflexivity |].
  assert (forall id s, b_objects b !! id = Some s ->
    (if decide (b_count b = 0) then b_objects b else broadcast e' (b_subscribers b) (b_objects b)) !! id
    = Some (if bool_decide (id ∈ b_subscribers b) then offer e' s else s)) as Hobj.
  { intros id s Hs. case_decide as H0.
    - rewrite Hs. f_equal. rewrite bool_decide_false; [done |]. assert (b_subscribers b = ∅) as ->; [| set_solver].
      apply leibniz_equiv, size_empty_iff. lia.
    - unfold broadcast. rewrite map_lookup_imap, Hs. cbn. f_equal. by destruct (decide _), (bool_decide _) eqn:Eb; rewrite ?bool_decide_eq_true, ?bool_decide_eq_false in Eb. }
  rewrite Hca in Hri'. unfold recent in Hri'. rewrite lastn_snoc in Hri'. constructor; cbn [b_replay b_nextToken b_closed b_nextID b_objects b_subscribers b_count fd_history fd_accounts fd_next fd_closed]; try done.
  - congruence.
  - by rewrite len_snoc.
  - rewrite len_snoc. lia.
  - intros i x [Hi|[Hi [E0 <-]%list_lookup_singleton_Some]]%lookup_app_Some; [by apply Hnu |]. cbn. unfold len. lia.
  - lia.
  - intros id [a Ha]. rewrite lookup_fmap in Ha. apply fmap_Some in Ha as (a' & Ha' & _). apply Hfr. by eexists.
  - intros id. rewrite lookup_fmap, fmap_is_Some, <- Hdo. destruct (b_objects b !! id) as [s|] eqn:Es; [rewrite (Hobj id s Es); split; by eexists |].
    case_decide; [by rewrite Es |]. unfold broadcast. by rewrite map_lookup_imap, Es.
  - intros id a s Ha Hs. rewrite lookup_fmap in Ha. apply fmap_Some in Ha as (a' & Ha' & ->).
    destruct (proj2 (Hdo id) ltac:(by eexists)) as [s' Hs']. rewrite (Hobj id s' Hs') in Hs. injection Hs as <-.
    apply offer_in_step; [by apply Hsu |]. pose proof (How id a' Ha'). lia.
  - intros id Hin. destruct (Hkn id Hin) as [s Hs]. rewrite (Hobj id s Hs). by eexists.
  - intros id a Ha. rewrite lookup_fmap in Ha. apply fmap_Some in Ha as (a' & Ha' & ->). pose proof (How id a' Ha').
    rewrite len_snoc. pose proof (owe_length e' a'). lia.
Qed.

(** A new subscriber with the events [es] replayed. *)
Lemma step_open n F b f es :
  tracks n F b -> n + 1 < 2 ^ 64 -> fd_closed F = false -> len es <= len (fd_history F) ->
  exists b', resume_register f es b = (Ok (fd_next F + 1), b') /\ tracks (n + 1) (open_account F f es) b'.
Proof.
  intros Ht Hn Hc Hes. pose proof Ht as [Hri Hca Hto Hhi Hnu Hcl Hnx Hid Hfr Hdo Hsu Hkn Hco How Hsh]. unfold resume_register, Subscribe.
  rewrite Hcl, Hc, Hnx. rewrite uint64_id by (unfold is_uint64; lia). set (id := fd_next F + 1). eexists. split; [reflexivity |].
  assert (fd_accounts F !! id = None) as Hnone.
  { apply eq_None_not_Some. intros Hs%Hfr. unfold id in Hs. lia. }
  assert (id ∉ b_subscribers b) as Hnew.
  { intros Hs%Hkn. rewrite Hdo, Hnone in Hs. by destruct Hs. }
  assert (forall (m : gmap Z Subscriber) s, alter (fun s => foldl (fun s e => offer e s) s es) id (<[id := s]> m) = <[id := foldl (fun s e => offer e s) s es]> m) as Halt.
  { intros m s. apply map_eq. intros i. destruct (decide (i = id)) as [->|Hne];
      [by rewrite lookup_alter_eq, !lookup_insert_eq | by rewrite lookup_alter_ne, !lookup_insert_ne]. }
  cbn [b_objects set_objects]. rewrite Halt. set (s0 := NewSubscriber f DefaultBufferSize).
  assert (in_step (foldl (fun a e => owe e a) (account0 f) es) (foldl (fun s e => offer e s) s0 es) true) as Hnewstep.
  { apply offers_in_step; [by constructor |]. unfold len in *. cbn. lia. }
  constructor; cbn; try done; try lia.
  - intros i [a Ha]. apply lookup_insert_Some in Ha as [[<- _]|[_ Ha]]; [unfold id; lia |]. specialize (Hfr i ltac:(by eexists)). lia.
  - intros i. rewrite !lookup_insert_is_Some'. by rewrite Hdo.
  - intros i a s [[<- <-]|[Hne Ha]]%lookup_insert_Some [[Hi <-]|[Hne' Hs]]%lookup_insert_Some; try done.
    + rewrite bool_decide_true by set_solver. done.
    + rewrite (bool_decide_ext _ (i ∈ b_subscribers b)) by set_solver. by apply Hsu.
  - intros i [->%elem_of_singleton|Hi]%elem_of_union; rewrite lookup_insert_is_Some'; [by left | right; by apply Hkn].
  - rewrite size_union, size_singleton by set_solver. lia.
  - intros i a [[<- <-]|[_ Ha]]%lookup_insert_Some; [| by eapply How].
    pose proof (owes_length es (account0 f)). cbn in *. unfold len in *. cbn in *. lia.
  - congruence.
Qed.

(** Only accounts and objects change, one by one. *)
Lemma step_subscribers n F b accounts objects subs count closed :
  tracks n F b ->
  (forall id, is_Some (accounts !! id) <-> is_Some (fd_accounts F !! id)) ->
  (forall id, is_Some (objects !! id) <-> is_Some (b_objects b !! id)) ->
  (forall id a s, accounts !! id = Some a -> objects !! id = Some s -> in_step a s (bool_decide (id ∈ subs))) ->
  (forall id a, accounts !! id = Some a -> len (ac_owed a) <= len (fd_history F)) ->
  subs ⊆ b_subscribers b -> count = Z.of_nat (size subs) -> (closed = true -> subs = ∅) ->
  tracks (n + 1) (mkFeed (fd_history F) accounts (fd_next F) closed)
    (mkBroker objects subs (b_nextID b) count (b_replay b) (b_nextToken b) closed).
Proof.
  intros [Hri Hca Hto Hhi Hnu Hcl Hnx Hid Hfr Hdo Hsu Hkn Hco How Hsh] Ha Ho Hs Hw Hsub Hc Hcs. constructor; cbn; try done; try lia.
  - intros id Hi%Ha. by apply Hfr.
  - intros id. by rewrite Ha, Ho, Hdo.
  - intros id Hin%Hsub. by apply Ho, Hkn.
Qed.

Lemma in_step_stop a s r : in_step a s r -> in_step (stop a) (if r then Subscriber_Close s else s) false.
Proof. intros [Hf Hc Hr Ho Hn Hd Hm Hp]. destruct r; constructor; cbn; try done. by rewrite Hc, <- Hr. Qed.

Lemma alter_is_Some {A} (f : A -> A) (m : gmap Z A) i j : is_Some (alter f i m !! j) <-> is_Some (m !! j).
Proof.
  destruct (decide (i = j)) as [->|Hne]; [by rewrite lookup_alter_eq, fmap_is_Some | by rewrite lookup_alter_ne].
Qed.

Lemma step_unsubscribe n F Q b id :
  tracks n F b -> tracks (n + 1) (feed_step F Q (SUnsubscribe id) (Ok SDone)) (Unsubscribe id b).
Proof.
  intros Ht. pose proof Ht as [Hri Hca Hto Hhi Hnu Hcl Hnx Hid Hfr Hdo Hsu Hkn Hco How Hsh]. cbn [feed_step].
  assert (Unsubscribe id b = mkBroker (if decide (id ∈ b_subscribers b) then alter Subscriber_Close id (b_objects b) else b_objects b)
    (b_subscribers b ∖ {[id]}) (b_nextID b) (if decide (id ∈ b_subscribers b) then b_count b - 1 else b_count b) (b_replay b) (b_nextToken b) (fd_closed F)) as ->.
  { unfold Unsubscribe. rewrite <- Hcl. case_decide; [done |]. destruct b; cbn in *. f_equal. set_solver. }
  apply step_subscribers; try done.
  - intros i. apply alter_is_Some.
  - intros i. case_decide; [apply alter_is_Some | done].
  - intros i a s Ha Hs. destruct (decide (id = i)) as [->|Hne].
    + rewrite lookup_alter_eq in Ha. apply fmap_Some in Ha as (a' & Ha' & ->). rewrite bool_decide_false by set_solver.
      case_decide as Hin.
      * rewrite lookup_alter_eq in Hs. apply fmap_Some in Hs as (s' & Hs' & ->). pose proof (Hsu i a' s' Ha' Hs') as Hi.
        rewrite bool_decide_true in Hi by done. by apply in_step_stop in Hi.
      * pose proof (Hsu i a' s Ha' Hs) as Hi. rewrite bool_decide_false in Hi by done. by apply in_step_stop in Hi.
    + rewrite lookup_alter_ne in Ha by done. assert (b_objects b !! i = Some s) as Hs'.
      { case_decide; [by rewrite lookup_alter_ne in Hs | done]. }
      rewrite (bool_decide_ext _ (i ∈ b_subscribers b)) by set_solver. by apply Hsu.
  - intros i a Ha. destruct (decide (id = i)) as [->|Hne]; [| rewrite lookup_alter_ne in Ha by done; by eapply How].
    rewrite lookup_alter_eq in Ha. apply fmap_Some in Ha as (a' & Ha' & ->). exact (How i a' Ha').
  - set_solver.
  - case_decide as Hin.
    + rewrite size_difference, size_singleton by set_solver. rewrite Hco.
      pose proof (subseteq_size {[id]} (b_subscribers b) ltac:(set_solver)) as Hsz. rewrite size_singleton in Hsz. lia.
    + rewrite Hco. do 2 f_equal. set_solver.
  - intros Hc%Hsh. set_solver.
Qed.

Lemma step_close n F Q b : tracks n F b -> tracks (n + 1) (feed_step F Q SClose (Ok SDone)) (Broker_Close b).
Proof.
  intros Ht. pose proof Ht as [Hri Hca Hto Hhi Hnu Hcl Hnx Hid Hfr Hdo Hsu Hkn Hco How Hsh]. cbn [feed_step].
  set (objects := map_imap (fun id s => Some (if decide (id ∈ b_subscribers b) then Subscriber_Close s else s)) (b_objects b)).
  assert (forall id, objects !! id = (fun s => if decide (id ∈ b_subscribers b) then Subscriber_Close s else s) <$> b_objects b !! id) as Hob.
  { intros id. unfold objects. rewrite map_lookup_imap. by destruct (b_objects b !! id). }
  assert (Broker_Close b = mkBroker objects ∅ (b_nextID b) 0 (b_replay b) (b_nextToken b) true) as ->.
  { unfold Broker_Close. destruct (b_closed b) eqn:Ec; [| done]. assert (b_subscribers b = ∅) as Hemp by (apply Hsh; congruence).
    assert (objects = b_objects b) as ->.
    { apply map_eq. intros id. rewrite Hob. destruct (b_objects b !! id); cbn; [by rewrite decide_False by set_solver | done]. }
    rewrite Hemp, size_empty in Hco.
    clear -Hemp Hco Ec. destruct b; cbn in *. by subst. }
  apply step_subscribers; try done.
  - intros id. by rewrite lookup_fmap, fmap_is_Some.
  - intros id. by rewrite Hob, fmap_is_Some.
  - intros id a s Ha Hs. rewrite lookup_fmap in Ha. apply fmap_Some in Ha as (a' & Ha' & ->).
    rewrite Hob in Hs. apply fmap_Some in Hs as (s' & Hs' & ->). pose proof (in_step_stop _ _ _ (Hsu id a' s' Ha' Hs')) as Hi.
    rewrite bool_decide_false by set_solver. by destruct (decide _); [rewrite bool_decide_true in Hi | rewrite bool_decide_false in Hi].
  - intros id a Ha. rewrite lookup_fmap in Ha. apply fmap_Some in Ha as (a' & Ha' & ->). exact (How id a' Ha').
Qed.

Lemma step_receive n F Q b id :
  tracks n F b ->
  let r := receive_from id b in
  (exists e, r.1 = Ok (SEvent e)) /\ tracks (n + 1) (feed_step F Q (SReceive id) r.1) r.2.
Proof.
  intros Ht. pose proof Ht as [Hri Hca Hto Hhi Hnu Hcl Hnx Hid Hfr Hdo Hsu Hkn Hco How Hsh]. unfold receive_from.
  destruct (b_objects b !! id) as [s|] eqn:Es; [| split; [by eexists | by apply tracks_mono]]. unfold receive.
  destruct (sub_Channel s) as [|e es] eqn:Ech; cbn [fst snd feed_step].
  { split; [by eexists |]. rewrite insert_id by done. destruct b. by apply tracks_mono. }
  split; [by eexists |]. set (s' := mkSubscriber _ _ _ _ _). unfold set_objects. rewrite Hcl.
  apply step_subscribers; try done.
  - intros i. apply alter_is_Some.
  - intros i. rewrite lookup_insert_is_Some'. split; [intros [<-|?]; [by eexists | done] | by right].
  - intros i a x Ha [[<- <-]|[Hne Hx]]%lookup_insert_Some.
    + rewrite lookup_alter_eq in Ha. apply fmap_Some in Ha as (a' & Ha' & ->). destruct (Hsu id a' s Ha' Es) as [Hf Hc Hr Ho Hn Hd Hm Hp].
      rewrite Ech in *. constructor; cbn; try done; by rewrite <- app_assoc.
    + rewrite lookup_alter_ne in Ha by done. by apply Hsu.
  - intros i a Ha. destruct (decide (id = i)) as [->|Hne]; [| rewrite lookup_alter_ne in Ha by done; by eapply How].
    rewrite lookup_alter_eq in Ha. apply fmap_Some in Ha as (a' & Ha' & ->). exact (How i a' Ha').
Qed.

(** The events that resumptions hold are events that were published. *)
Definition published (F : feed) (Q : lookups) : Prop := map_Forall (fun _ es => len es <= len (fd_history F)) Q.

Lemma resumption_length history token es : resumption history token = Some es -> len es <= len history.
Proof.
  unfold resumption, len. cbv zeta. case_decide; [intros [= <-]; cbn; lia |]. case_decide; [done |]. intros [= <-]. rewrite length_drop. lia.
Qed.

Lemma step_lookup n F b token :
  tracks n F b ->
  resume_events token b = if fd_closed F then Err ErrBrokerClosed
                          else match resumption (fd_history F) token with None => Err ErrTokenTooOld | Some es => Ok es end.
Proof.
  intros Ht. unfold resume_events. rewrite (tk_closed _ _ _ Ht). destruct (fd_closed F); [done |].
  rewrite (EventsSince_run _ _ token (tk_ring _ _ _ Ht)). cbn [mbind outcome_bind]. unfold recent.
  rewrite resumable_recent by apply Ht. by destruct (resumption _ _).
Qed.

Lemma step_register n F Q b q f es :
  tracks n F b -> n + 1 < 2 ^ 64 -> len es <= len (fd_history F) -> Q !! q = Some es ->
  let r := resume_register f es b in
  stream_answer F Q (SRegister q f) (lift_result (fun id => SId (Some id)) r.1)
  /\ tracks (n + 1) (feed_step F Q (SRegister q f) (lift_result (fun id => SId (Some id)) r.1)) r.2.
Proof.
  intros Ht Hn Hes Hq. cbn [stream_answer feed_step]. rewrite Hq. destruct (fd_closed F) eqn:Ec.
  { unfold resume_register, Subscribe. rewrite (tk_closed _ _ _ Ht), Ec. split; [done | by apply tracks_mono]. }
  destruct (step_open n F b f es Ht Hn Ec Hes) as (b' & -> & Ht'). by split.
Qed.

Lemma step_subscribe n F Q b f :
  tracks n F b -> n + 1 < 2 ^ 64 ->
  let r := Subscribe f b in
  stream_answer F Q (SSubscribe f) (Ok (SId r.1)) /\ tracks (n + 1) (feed_step F Q (SSubscribe f) (Ok (SId r.1))) r.2.
Proof.
  intros Ht Hn. cbn [stream_answer feed_step]. destruct (fd_closed F) eqn:Ec.
  { unfold Subscribe. rewrite (tk_closed _ _ _ Ht), Ec. split; [done | by apply tracks_mono]. }
  destruct (step_open n F b f [] Ht Hn Ec ltac:(apply len_nonneg)) as (b' & Hr & Ht').
  unfold resume_register in Hr. destruct (Subscribe f b) as [[id|] b1]; [| done]. injection Hr as -> <-. split; [done |].
  assert (b1 = set_objects (alter (fun s => foldl (fun s e => offer e s) s []) (fd_next F + 1) (b_objects b1)) b1) as E; [| cbn [snd]; by rewrite E].
  destruct b1. unfold set_objects. cbn. f_equal. symmetry. apply alter_id. done.
Qed.

(** Nothing is ever taken out of the history. *)
Lemma history_grows F Q o r : len (fd_history F) <= len (fd_history (feed_step F Q o r)).
Proof.
  destruct o; cbn [feed_step]; try done; repeat case_match; cbn; try done. rewrite len_snoc. lia.
Qed.

Lemma stream_step o n F R b :
  tracks n F b -> published F R -> n + 1 < 2 ^ 64 ->
  let r := stream_exec o (b, R) in
  stream_answer F R o r.1 /\ tracks (n + 1) (feed_step F R o r.1) r.2.1 /\ r.2.2 = lookup_step F R o.
Proof.
  intros Ht Hp Hn. destruct o as [e|f|q token|q f|id|id|]; cbn [stream_exec].
  - destruct (step_publish n F R b e Ht ltac:(lia)) as (b' & -> & Ht'). by split_and!.
  - pose proof (step_subscribe n F R b f Ht Hn) as [Ha Ht']. destruct (Subscribe f b) as [id b']. by split_and!.
  - rewrite (step_lookup n F b token Ht). cbn [stream_answer lookup_step feed_step].
    destruct (fd_closed F); [by split_and!; [| apply tracks_mono |] |]. destruct (resumption _ token); by split_and!; [| apply tracks_mono |].
  - destruct (R !! q) as [es|] eqn:Eq.
    + pose proof (step_register n F R b q f es Ht Hn (Hp _ _ Eq) Eq) as [Ha Ht']. destruct (resume_register f es b) as [r b']. by split_and!.
    + cbn [stream_answer feed_step lookup_step fst snd]. rewrite Eq. split_and!; [done | by apply tracks_mono | by rewrite delete_id].
  - split_and!; [done | by apply step_unsubscribe | done].
  - pose proof (step_receive n F R b id Ht) as [Ha Ht']. destruct (receive_from id b) as [r b']. by split_and!.
  - split_and!; [done | by apply step_close | done].
Qed.

Lemma stream_tracks os n F R b : tracks n F b -> published F R -> n + len os < 2 ^ 64 -> stream_run F R (b, R) os.
Proof.
  revert n F R b. induction os as [|o os IH]; intros n F R b Ht Hp Hn; (split; [by eapply tracks_delivered |]); [done |].
  rewrite len_cons in Hn. pose proof (len_nonneg os). destruct (stream_step o n F R b Ht Hp ltac:(lia)) as (Ha & Ht' & HR).
  destruct (stream_exec o (b, R)) as [r [b' R']]. cbn in Ha, Ht', HR. subst R'. split; [exact Ha |].
  apply (IH (n + 1)); [done | | lia]. pose proof (history_grows F R o r) as Hg.
  assert (published (feed_step F R o r) R) as Hp' by (intros q es Hq; specialize (Hp q es Hq); cbn in Hp; lia).
  destruct o as [| |q token|q f| | |]; cbn [lookup_step]; try done.
  - destruct (fd_closed F); [done |]. destruct (resumption _ token) as [es|] eqn:Er; [| done]. apply map_Forall_insert_2; [| done].
    apply resumption_length in Er. lia.
  - by apply map_Forall_delete.
Qed.

Lemma tracks_new : tracks 0 feed0 NewBroker.
Proof.
  constructor; [by apply (ring_new ReplayBufferSize) | cbn; try done; try lia..].
  - intros id Hid. rewrite lookup_empty in Hid. by destruct Hid.
  - intros id. by rewrite !lookup_empty.
Qed.
End Stream.


Definition ascii_tables : UnicodeTables := {| lower_unicode s := s; fold_unicode s t := bytes_eqb s t |}.

Definition change (dn : string) : ChangeEvent := mkChangeEvent 0 OpUpdate (str dn) None [].


(** The operations one after the other. *)
Definition stream_execs {UT : UnicodeTables} (os : list stream_op) : Broker := (foldl (fun x o => (stream_exec o x).2) (NewBroker, ∅) os).1.

Definition channel_tokens (id : Z) (b : Broker) : option (list Z) := map ev_Token ∘ sub_Channel <$> b_objects b !! id.

(** A client that has seen everything cannot resume: its token is the newest in the replay
    buffer, and it is told that the token is too old. *)
Theorem stream_resume_latest_refused :
  let b := @stream_execs ascii_tables [SPublish (change "o=x")] in
  CurrentToken b = 1 /\ MinToken (b_replay b) = 1
  /\ (@SubscribeWithResume ascii_tables MatchAll 1 b).1 = Err ErrTokenTooOld.
Proof. by vm_compute. Qed.

(** A resumption from token 1 with a publication between its two halves and one after it:
    the tokens in the client's channel, and its count of dropped events. *)
Definition interrupted_resume {UT : UnicodeTables} : option (list Z) * option Z :=
  let b := stream_execs [SPublish (change "o=x"); SPublish (change "o=x"); SLookup 1 1; SPublish (change "o=x"); SRegister 1 MatchAll;
                         SPublish (change "o=x")] in
  (channel_tokens 1 b, DroppedCount <$> b_objects b !! 1).

(** An event that is published between the two halves of a resumption is lost, and not
    counted as dropped. *)
Theorem stream_resume_gap : @interrupted_resume ascii_tables = (Some [2; 4], Some 0).
Proof. by vm_compute. Qed.
