(* ===== verification/GoCrypto.v ===== *)
(** * Go's [encoding/base64], [crypto/sha256], [crypto/sha512] and UTF-8 decoding, as far as the source uses them *)

From S2P Require Import Prelude.

(** ** [base64.StdEncoding] *)

Definition base64_alphabet : bytes := str "ABCDEFGHIJKLMNOPQRSTUVWXYZabcdefghijklmnopqrstuvwxyz0123456789+/".
Definition padding : byte := x3d.

Definition base64_char (v : Z) : byte := nth (Z.to_nat v) base64_alphabet padding.

Definition sextet (c : byte) : option Z :=
  (fun p => Z.of_nat p.1) <$> list_find (fun b => b = c) base64_alphabet.

Fixpoint EncodeToString (data : bytes) : gostring :=
  match data with
  | a :: b :: c :: rest =>
      let v := bZ a * 65536 + bZ b * 256 + bZ c in
      base64_char (v / 262144) :: base64_char (v / 4096 mod 64) :: base64_char (v / 64 mod 64) :: base64_char (v mod 64)
        :: EncodeToString rest
  | [a; b] =>
      let v := bZ a * 1024 + bZ b * 4 in
      [base64_char (v / 4096); base64_char (v / 64 mod 64); base64_char (v mod 64); padding]
  | [a] =>
      let v := bZ a * 16 in
      [base64_char (v / 64); base64_char (v mod 64); padding; padding]
  | [] => []
  end.

(** Groups of four characters; padding ends the input. The bits of the last character that
    belong to no byte are not looked at. *)
Fixpoint decode_groups (s : gostring) : option bytes :=
  match s with
  | [] => Some []
  | a :: b :: c :: d :: s =>
      x ← sextet a;
      y ← sextet b;
      let hi := x * 64 + y in
      if byte_eqb c padding then
        if byte_eqb d padding && bool_decide (s = []) then Some [u8 (hi / 16)] else None
      else
        z ← sextet c;
        let mid := hi * 64 + z in
        if byte_eqb d padding then
          if bool_decide (s = []) then Some [u8 (mid / 1024); u8 (mid / 4 mod 256)] else None
        else
          w ← sextet d;
          let v := mid * 64 + w in
          rest ← decode_groups s;
          Some (u8 (v / 65536) :: u8 (v / 256 mod 256) :: u8 (v mod 256) :: rest)
  | _ => None
  end.

(** Line ends are skipped wherever they are. *)
Definition DecodeString (s : gostring) : option bytes :=
  decode_groups (filter (fun c => c <> x0a /\ c <> x0d) s).

(** ** SHA-2 *)

(** The largest [r] below [2 ^ bits] with [r ^ e <= v]. *)
Fixpoint root_bits (bits : nat) (e v r : Z) : Z :=
  match bits with
  | O => r
  | S bits => let r' := r + 2 ^ Z.of_nat bits in root_bits bits e v (if decide (r' ^ e <= v) then r' else r)
  end.

(** The first [w] bits of the fractional part of the [e]-th root of [p]. *)
Definition root_fraction (w e p : Z) : Z := root_bits (Z.to_nat (w + 8)) e (p * 2 ^ (e * w)) 0 mod 2 ^ w.

Definition is_prime (n : Z) : bool :=
  forallb (fun d => bool_decide (n mod Z.of_nat d <> 0)) (seq 2 (Z.to_nat (Z.sqrt n) - 1)).

(** The primes below 410: the first eighty. *)
Definition primes : list Z := Eval vm_compute in filter (fun n => is_prime n = true) (Z.of_nat <$> seq 2 408).

(** A function of the family: the word size, the rotations of the four sums (the last of the
    small ones shifts) and the constants of the rounds. *)
Record Sha2 := mkSha2 {
  sha_bits : Z;
  sha_Sigma0 : Z * Z * Z;
  sha_Sigma1 : Z * Z * Z;
  sha_sigma0 : Z * Z * Z;
  sha_sigma1 : Z * Z * Z;
  sha_K : list Z
}.

Definition SHA256_K : list Z := Eval vm_compute in root_fraction 32 3 <$> take 64 primes.
Definition SHA512_K : list Z := Eval vm_compute in root_fraction 64 3 <$> take 80 primes.
Definition SHA256 : Sha2 := mkSha2 32 (2, 13, 22) (6, 11, 25) (7, 18, 3) (17, 19, 10) SHA256_K.
Definition SHA512 : Sha2 := mkSha2 64 (28, 34, 39) (14, 18, 41) (1, 8, 7) (19, 61, 6) SHA512_K.

(** Eight words: the state between blocks, and the working variables. *)
Record words8 := mkWords8 { wa : Z; wb : Z; wc : Z; wd : Z; we : Z; wf : Z; wg : Z; wh : Z }.

Definition SHA256_init : words8 := Eval vm_compute in
  match root_fraction 32 2 <$> take 8 primes with
  | [a; b; c; d; e; f; g; h] => mkWords8 a b c d e f g h
  | _ => mkWords8 0 0 0 0 0 0 0 0
  end.
Definition SHA512_init : words8 := Eval vm_compute in
  match root_fraction 64 2 <$> take 8 primes with
  | [a; b; c; d; e; f; g; h] => mkWords8 a b c d e f g h
  | _ => mkWords8 0 0 0 0 0 0 0 0
  end.

Section Sha2.
Context (p : Sha2).

Definition word (x : Z) : Z := x mod 2 ^ sha_bits p.
Definition rotr (x n : Z) : Z := Z.lor (Z.shiftr x n) (word (Z.shiftl x (sha_bits p - n))).

Definition big_sum (r : Z * Z * Z) (x : Z) : Z :=
  let '(i, j, k) := r in Z.lxor (rotr x i) (Z.lxor (rotr x j) (rotr x k)).
Definition small_sum (r : Z * Z * Z) (x : Z) : Z :=
  let '(i, j, k) := r in Z.lxor (rotr x i) (Z.lxor (rotr x j) (Z.shiftr x k)).

(** [w] has the words of the schedule so far, the newest first. *)
Fixpoint schedule (n : nat) (w : list Z) : list Z :=
  match n with
  | O => w
  | S n =>
      let at_ i := nth i w 0 in
      schedule n (word (small_sum (sha_sigma1 p) (at_ 1%nat) + at_ 6%nat + small_sum (sha_sigma0 p) (at_ 14%nat) + at_ 15%nat) :: w)
  end.

Definition round (s : words8) (kw : Z * Z) : words8 :=
  let '(mkWords8 a b c d e f g h) := s in
  let choice := Z.lxor (Z.land e f) (Z.land (Z.lxor e (2 ^ sha_bits p - 1)) g) in
  let majority := Z.lxor (Z.land a b) (Z.lxor (Z.land a c) (Z.land b c)) in
  let t1 := h + big_sum (sha_Sigma1 p) e + choice + kw.1 + kw.2 in
  let t2 := big_sum (sha_Sigma0 p) a + majority in
  mkWords8 (word (t1 + t2)) a b c (word (d + t1)) e f g.

Definition add8 (s t : words8) : words8 :=
  mkWords8 (word (wa s + wa t)) (word (wb s + wb t)) (word (wc s + wc t)) (word (wd s + wd t))
    (word (we s + we t)) (word (wf s + wf t)) (word (wg s + wg t)) (word (wh s + wh t)).

Definition word_bytes : nat := Z.to_nat (sha_bits p / 8).

Fixpoint be_value (l : bytes) (acc : Z) : Z := match l with [] => acc | b :: l => be_value l (acc * 256 + bZ b) end.

Fixpoint be_bytes (n : nat) (v : Z) : bytes := match n with O => [] | S n => be_bytes n (v / 256) ++ [u8 v] end.

Fixpoint block_words (n : nat) (l : bytes) : list Z :=
  match n with O => [] | S n => be_value (take word_bytes l) 0 :: block_words n (drop word_bytes l) end.

Definition block (s : words8) (l : bytes) : words8 :=
  add8 s (foldl round s (zip (sha_K p) (rev (schedule (length (sha_K p) - 16) (rev (block_words 16 l)))))).

Fixpoint blocks (n : nat) (s : words8) (l : bytes) : words8 :=
  match n with O => s | S n => blocks n (block s (take (16 * word_bytes) l)) (drop (16 * word_bytes) l) end.

Definition pad_message (l : bytes) : bytes :=
  let size := Z.of_nat (16 * word_bytes) in
  let tail := Z.of_nat (2 * word_bytes) in
  l ++ x80 :: repeat x00 (Z.to_nat ((- (len l + 1 + tail)) mod size)) ++ be_bytes (2 * word_bytes) (8 * len l).

Definition digest (init : words8) (l : bytes) : bytes :=
  let m := pad_message l in
  let s := blocks (length m / (16 * word_bytes)) init m in
  concat (be_bytes word_bytes <$> [wa s; wb s; wc s; wd s; we s; wf s; wg s; wh s]).
End Sha2.

Definition sha256_Size : Z := 32.
Definition sha512_Size : Z := 64.
Definition Sum256 (data : bytes) : bytes := digest SHA256 SHA256_init data.
Definition Sum512 (data : bytes) : bytes := digest SHA512 SHA512_init data.

(** ** The runes of a string *)

Definition RuneError : Z := 65533.

Definition continuation (lo hi : Z) (b : byte) : bool := bool_decide (lo <= bZ b <= hi).

(** The rune at the start of a string that is not empty, and its width. *)
Definition DecodeRune (s : gostring) : Z * nat :=
  let bad := (RuneError, 1%nat) in
  match s with
  | [] => bad
  | b0 :: t =>
      let x := bZ b0 in
      if decide (x < 128) then (x, 1%nat)
      else if decide (194 <= x <= 223) then
        match t with
        | b1 :: _ => if continuation 128 191 b1 then ((x - 192) * 64 + (bZ b1 - 128), 2%nat) else bad
        | _ => bad
        end
      else if decide (224 <= x <= 239) then
        match t with
        | b1 :: b2 :: _ =>
            if continuation (if decide (x = 224) then 160 else 128) (if decide (x = 237) then 159 else 191) b1
               && continuation 128 191 b2
            then ((x - 224) * 4096 + (bZ b1 - 128) * 64 + (bZ b2 - 128), 3%nat) else bad
        | _ => bad
        end
      else if decide (240 <= x <= 244) then
        match t with
        | b1 :: b2 :: b3 :: _ =>
            if continuation (if decide (x = 240) then 144 else 128) (if decide (x = 244) then 143 else 191) b1
               && continuation 128 191 b2 && continuation 128 191 b3
            then ((x - 240) * 262144 + (bZ b1 - 128) * 4096 + (bZ b2 - 128) * 64 + (bZ b3 - 128), 4%nat) else bad
        | _ => bad
        end
      else bad
  end.

(** [for _, r := range s]; every rune takes at least a byte. *)
Fixpoint runes_loop (fuel : nat) (s : gostring) : list Z :=
  match fuel, s with
  | S fuel, _ :: _ => let '(r, n) := DecodeRune s in r :: runes_loop fuel (drop n s)
  | _, _ => []
  end.
Definition runes (s : gostring) : list Z := runes_loop (length s) s.

(** ** Facts *)

Lemma sextet_char v : 0 <= v < 64 -> sextet (base64_char v) = Some v /\ base64_char v <> padding.
Proof.
  intros Hv. assert (forallb (fun n => bool_decide (sextet (base64_char (Z.of_nat n)) = Some (Z.of_nat n))
    && bool_decide (base64_char (Z.of_nat n) <> padding)) (seq 0 64) = true) as H by (vm_compute; reflexivity).
  rewrite forallb_forall in H. specialize (H (Z.to_nat v) ltac:(apply in_seq; lia)).
  rewrite Z2Nat.id in H by lia. apply andb_true_iff in H as [H1%bool_decide_eq_true H2%bool_decide_eq_true]. done.
Qed.

Lemma not_padding v : 0 <= v < 64 -> byte_eqb (base64_char v) padding = false.
Proof. intros Hv. apply bool_decide_eq_false, sextet_char, Hv. Qed.

Lemma u8_byte v b : v = bZ b -> u8 v = b.
Proof. intros ->. apply u8_bZ. Qed.

Ltac split_sextets :=
  repeat (match goal with
  | |- context [sextet (base64_char ?v)] => rewrite (proj1 (sextet_char v ltac:(Z.to_euclidean_division_equations; lia)))
  | |- context [byte_eqb (base64_char ?v) padding] => rewrite (not_padding v ltac:(Z.to_euclidean_division_equations; lia))
  end; cbn [mbind option_bind]).

Lemma decode_encode data : decode_groups (EncodeToString data) = Some data.
Proof.
  induction data as [data IH] using (induction_ltof1 _ (@length byte)). unfold ltof in IH.
  destruct data as [|a [|b [|c rest]]]; [done | | |]; cbn [EncodeToString decode_groups].
  - pose proof (bZ_range a). split_sextets. change (byte_eqb padding padding) with true. cbn [andb]. rewrite bool_decide_true by done.
    do 2 f_equal. apply u8_byte; Z.to_euclidean_division_equations; lia.
  - pose proof (bZ_range a). pose proof (bZ_range b). split_sextets. change (byte_eqb padding padding) with true. rewrite bool_decide_true by done.
    do 2 f_equal; [| f_equal]; apply u8_byte; Z.to_euclidean_division_equations; lia.
  - pose proof (bZ_range a). pose proof (bZ_range b). pose proof (bZ_range c). split_sextets.
    rewrite IH by (cbn; lia). cbn [mbind option_bind]. do 2 f_equal; [| f_equal; [| f_equal]]; apply u8_byte; Z.to_euclidean_division_equations; lia.
Qed.

Definition plain_char (c : byte) : Prop := c <> x0a /\ c <> x0d.

Lemma base64_plain v : plain_char (base64_char v).
Proof.
  unfold base64_char, plain_char. destruct (nth_in_or_default (Z.to_nat v) base64_alphabet padding) as [H| ->]; [| done].
  assert (Forall (fun c => c <> x0a /\ c <> x0d) base64_alphabet) as Ha by by vm_compute; repeat constructor.
  by apply (proj1 (List.Forall_forall _ _) Ha).
Qed.

Lemma encode_plain data : Forall plain_char (EncodeToString data).
Proof.
  induction data as [data IH] using (induction_ltof1 _ (@length byte)). unfold ltof in IH.
  destruct data as [|a [|b [|c rest]]]; cbn [EncodeToString]; repeat constructor; try apply base64_plain; try done.
  apply IH. cbn. lia.
Qed.

Lemma DecodeString_encode data : DecodeString (EncodeToString data) = Some data.
Proof.
  unfold DecodeString. etrans; [| apply decode_encode]. f_equal.
  induction (encode_plain data) as [|c l Hc _ IH]; [done |]. by rewrite filter_cons_True, IH.
Qed.

Lemma be_bytes_length n v : length (be_bytes n v) = n.
Proof. revert v. induction n as [|n IH]; intros v; cbn; [done |]. rewrite length_app, IH. cbn. lia. Qed.

Lemma Sum256_length data : len (Sum256 data) = sha256_Size.
Proof. unfold Sum256, digest. cbn [fmap list_fmap concat]. unfold len. by rewrite !length_app, !be_bytes_length. Qed.

Lemma Sum512_length data : len (Sum512 data) = sha512_Size.
Proof. unfold Sum512, digest. cbn [fmap list_fmap concat]. unfold len. by rewrite !length_app, !be_bytes_length. Qed.

(** The published digests of [abc]. *)
Example sha256_abc : EncodeToString (Sum256 (str "abc")) = str "ungWv48Bz+pBQUDeXa4iI7ADYaOWF3qctBD/YfIAFa0=".
Proof. vm_compute. reflexivity. Qed.

Example sha512_abc : EncodeToString (Sum512 (str "abc"))
  = str "3a81oZNherrMQXNJriBBMRLm+k6JqX6iCp7u5ktV05ohkpkqJ0/BqDa6PCOj/uu9RU1EI2Q86A4qmslPpUyknw==".
Proof. vm_compute. reflexivity. Qed.
