(* ===== verification/Password.v ===== *)
(** * Password policies (src/internal/password)

    policy.go, validator.go, history.go, manager.go, expiration.go and lockout.go. A time is
    the number of nanoseconds since Go's zero time, which is 0; a duration is an int64 of
    nanoseconds. Where the code asks for the current time, it is an argument. Locks, copying
    accessors and the counting of days, which uses floating point, are left out. *)

From S2P Require Import Prelude GoStrings GoCrypto.

(** ** Package time *)

Definition minDuration : Z := - 2 ^ 63.
Definition maxDuration : Z := 2 ^ 63 - 1.

(** [t.Sub(u)] stays within the durations. *)
Definition time_Sub (t u : Z) : Z := Z.max minDuration (Z.min maxDuration (t - u)).
Definition time_Add (t d : Z) : Z := t + d.
Definition IsZero (t : Z) : bool := bool_decide (t = 0).
Definition minutes (n : Z) : Z := n * 60 * 1000000000.

(** ** Package unicode *)

(** The classes of runes outside Latin-1. *)
Class UnicodeClasses := {
  upper_rune : Z -> bool;
  lower_rune : Z -> bool;
  digit_rune : Z -> bool
}.

Section Unicode.
Context `{UnicodeClasses}.

Definition IsUpper (r : Z) : bool :=
  if decide (r <= 255) then bool_decide (65 <= r <= 90 \/ (192 <= r <= 222 /\ r <> 215)) else upper_rune r.

Definition IsLower (r : Z) : bool :=
  if decide (r <= 255) then bool_decide (97 <= r <= 122 \/ r = 181 \/ (223 <= r <= 255 /\ r <> 247)) else lower_rune r.

Definition IsDigit (r : Z) : bool :=
  if decide (r <= 255) then bool_decide (48 <= r <= 57) else digit_rune r.
End Unicode.

(** ** policy.go *)

Record Policy := mkPolicy {
  Enabled : bool;
  MinLength : Z;
  MaxLength : Z;
  RequireUppercase : bool;
  RequireLowercase : bool;
  RequireDigit : bool;
  RequireSpecial : bool;
  MaxAge : Z;
  MinAge : Z;
  HistoryCount : Z;
  MaxFailures : Z;
  LockoutDuration : Z;
  AllowUserChange : bool;
  MustChangeOnReset : bool
}.

Definition ErrTooShort : Z := 1.
Definition ErrTooLong : Z := 2.
Definition ErrNoUppercase : Z := 3.
Definition ErrNoLowercase : Z := 4.
Definition ErrNoDigit : Z := 5.
Definition ErrNoSpecial : Z := 6.
Definition ErrInHistory : Z := 7.

Record ValidationError := mkValidationError { ve_Code : Z; ve_Message : gostring }.

Definition too_short : ValidationError := mkValidationError ErrTooShort (str "password is too short").
Definition too_long : ValidationError := mkValidationError ErrTooLong (str "password is too long").
Definition no_uppercase : ValidationError :=
  mkValidationError ErrNoUppercase (str "password must contain at least one uppercase letter").
Definition no_lowercase : ValidationError :=
  mkValidationError ErrNoLowercase (str "password must contain at least one lowercase letter").
Definition no_digit : ValidationError := mkValidationError ErrNoDigit (str "password must contain at least one digit").
Definition no_special : ValidationError :=
  mkValidationError ErrNoSpecial (str "password must contain at least one special character").
Definition in_history : ValidationError := mkValidationError ErrInHistory (str "password was used recently").

Definition DefaultPolicy : Policy :=
  mkPolicy true 8 128 true true true false (minutes (90 * 24 * 60)) 0 5 5 (minutes 15) true true.

Definition DisabledPolicy : Policy := mkPolicy false 0 0 false false false false 0 0 0 0 0 true false.

(** [x22] is the double quote. *)
Definition specialChars : bytes := str "!@#$%^&*()_+-=[]{}|;':" ++ x22 :: str ",./<>?`~".
Definition isSpecialChar (r : Z) : bool := existsb (fun b => bool_decide (bZ b = r)) specialChars.

(** [hasUpper], [hasLower], [hasDigit] and [hasSpecial]. *)
Record Classes := mkClasses { hasUpper : bool; hasLower : bool; hasDigit : bool; hasSpecial : bool }.

Section Policy.
Context `{UnicodeClasses}.

Definition classify (c : Classes) (r : Z) : Classes :=
  if IsUpper r then mkClasses true (hasLower c) (hasDigit c) (hasSpecial c)
  else if IsLower r then mkClasses (hasUpper c) true (hasDigit c) (hasSpecial c)
  else if IsDigit r then mkClasses (hasUpper c) (hasLower c) true (hasSpecial c)
  else if isSpecialChar r then mkClasses (hasUpper c) (hasLower c) (hasDigit c) true
  else c.

Definition password_classes (password : gostring) : Classes :=
  foldl classify (mkClasses false false false false) (runes password).

Definition Policy_Validate (p : Policy) (password : gostring) : option ValidationError :=
  if negb (Enabled p) then None
  else if decide (MinLength p > 0 /\ len password < MinLength p) then Some too_short
  else if decide (MaxLength p > 0 /\ len password > MaxLength p) then Some too_long
  else
    let c := password_classes password in
    if RequireUppercase p && negb (hasUpper c) then Some no_uppercase
    else if RequireLowercase p && negb (hasLower c) then Some no_lowercase
    else if RequireDigit p && negb (hasDigit c) then Some no_digit
    else if RequireSpecial p && negb (hasSpecial c) then Some no_special
    else None.
End Policy.

Definition Policy_IsExpired (p : Policy) (lastChanged now : Z) : bool :=
  if negb (Enabled p) || bool_decide (MaxAge p = 0) then false else bool_decide (time_Sub now lastChanged > MaxAge p).

Definition CanChange (p : Policy) (lastChanged now : Z) : bool :=
  if negb (Enabled p) || bool_decide (MinAge p = 0) then true else bool_decide (time_Sub now lastChanged >= MinAge p).

Definition IsLockedOut (p : Policy) (failureCount lastFailure now : Z) : bool :=
  if negb (Enabled p) || bool_decide (MaxFailures p = 0) then false
  else if decide (failureCount < MaxFailures p) then false
  else if decide (LockoutDuration p > 0 /\ time_Sub now lastFailure > LockoutDuration p) then false
  else true.

Definition override_Z (base over : Z) : Z := if decide (over > 0) then over else base.
Definition override_bool (base over : bool) : bool := if over then true else base.

Definition Merge (p : Policy) (override : option Policy) : Policy :=
  match override with
  | None => p
  | Some o =>
      mkPolicy (override_bool (Enabled p) (Enabled o)) (override_Z (MinLength p) (MinLength o)) (override_Z (MaxLength p) (MaxLength o))
        (override_bool (RequireUppercase p) (RequireUppercase o)) (override_bool (RequireLowercase p) (RequireLowercase o))
        (override_bool (RequireDigit p) (RequireDigit o)) (override_bool (RequireSpecial p) (RequireSpecial o))
        (override_Z (MaxAge p) (MaxAge o)) (override_Z (MinAge p) (MinAge o)) (override_Z (HistoryCount p) (HistoryCount o))
        (override_Z (MaxFailures p) (MaxFailures o)) (override_Z (LockoutDuration p) (LockoutDuration o))
        (override_bool (AllowUserChange p) (AllowUserChange o)) (override_bool (MustChangeOnReset p) (MustChangeOnReset o))
  end.

(** ** validator.go *)

Record Validator := mkValidator { v_policy : Policy }.

Definition NewValidator (policy : option Policy) : Validator := mkValidator (default DefaultPolicy policy).
Definition SetPolicy (policy : option Policy) (v : Validator) : Validator := mkValidator (default DefaultPolicy policy).

Section Validator.
Context `{UnicodeClasses}.

Definition CheckLength (v : Validator) (password : gostring) : option ValidationError :=
  let p := v_policy v in
  if negb (Enabled p) then None
  else if decide (MinLength p > 0 /\ len password < MinLength p) then Some too_short
  else if decide (MaxLength p > 0 /\ len password > MaxLength p) then Some too_long
  else None.

Definition CheckCharacterClasses (v : Validator) (password : gostring) : option ValidationError :=
  let p := v_policy v in
  if negb (Enabled p) then None
  else
    let c := password_classes password in
    if RequireUppercase p && negb (hasUpper c) then Some no_uppercase
    else if RequireLowercase p && negb (hasLower c) then Some no_lowercase
    else if RequireDigit p && negb (hasDigit c) then Some no_digit
    else if RequireSpecial p && negb (hasSpecial c) then Some no_special
    else None.

(** The method repeats the text of [Policy.Validate]. *)
Definition Validator_Validate (v : Validator) (password : gostring) : option ValidationError :=
  let p := v_policy v in
  if negb (Enabled p) then None
  else if decide (MinLength p > 0 /\ len password < MinLength p) then Some too_short
  else if decide (MaxLength p > 0 /\ len password > MaxLength p) then Some too_long
  else
    let c := password_classes password in
    if RequireUppercase p && negb (hasUpper c) then Some no_uppercase
    else if RequireLowercase p && negb (hasLower c) then Some no_lowercase
    else if RequireDigit p && negb (hasDigit c) then Some no_digit
    else if RequireSpecial p && negb (hasSpecial c) then Some no_special
    else None.

(** [if b { errors = append(errors, e) }]. *)
Definition append_if (b : bool) (e : ValidationError) (errors : list ValidationError) : list ValidationError :=
  if b then errors ++ [e] else errors.

Definition GetAllErrors (v : Validator) (password : gostring) : list ValidationError :=
  let p := v_policy v in
  if negb (Enabled p) then []
  else
    let errors := append_if (bool_decide (MinLength p > 0 /\ len password < MinLength p)) too_short [] in
    let errors := append_if (bool_decide (MaxLength p > 0 /\ len password > MaxLength p)) too_long errors in
    let c := password_classes password in
    let errors := append_if (RequireUppercase p && negb (hasUpper c)) no_uppercase errors in
    let errors := append_if (RequireLowercase p && negb (hasLower c)) no_lowercase errors in
    let errors := append_if (RequireDigit p && negb (hasDigit c)) no_digit errors in
    append_if (RequireSpecial p && negb (hasSpecial c)) no_special errors.

Definition ValidateWithHistory (v : Validator) (password : gostring) (history : list gostring)
    (hashFunc : option (gostring -> gostring)) : option ValidationError :=
  match Validator_Validate v password with
  | Some e => Some e
  | None =>
      let count := HistoryCount (v_policy v) in
      match hashFunc with
      | Some hash =>
          if decide (count > 0 /\ len history > 0) then
            let checkCount := if decide (len history > count) then count else len history in
            if existsb (fun stored => bytes_eqb stored (hash password)) (take (Z.to_nat checkCount) history)
            then Some in_history else None
          else None
      | None => None
      end
  end.
End Validator.

(** ** history.go *)

(** The newest hash first. *)
Record History := mkHistory { h_hashes : list gostring; h_maxCount : Z }.

Definition NewHistory (maxCount : Z) : History := mkHistory [] (if decide (maxCount < 0) then 0 else maxCount).

Definition NewHistoryFromHashes (hashes : list gostring) (maxCount : Z) : History :=
  let maxCount := if decide (maxCount < 0) then 0 else maxCount in
  if decide (maxCount = 0) then mkHistory [] maxCount
  else mkHistory (if decide (len hashes > maxCount) then take (Z.to_nat maxCount) hashes else hashes) maxCount.

Definition History_Add (hash : gostring) (h : History) : History :=
  if decide (h_maxCount h = 0) then h
  else
    let hashes := hash :: h_hashes h in
    mkHistory (if decide (len hashes > h_maxCount h) then take (Z.to_nat (h_maxCount h)) hashes else hashes) (h_maxCount h).

Definition History_Contains (hash : gostring) (h : History) : bool := existsb (bytes_eqb hash) (h_hashes h).

Definition History_Clear (h : History) : History := mkHistory [] (h_maxCount h).

Definition SetMaxCount (maxCount : Z) (h : History) : History :=
  let maxCount := if decide (maxCount < 0) then 0 else maxCount in
  mkHistory (if decide (maxCount = 0) then []
             else if decide (len (h_hashes h) > maxCount) then take (Z.to_nat maxCount) (h_hashes h) else h_hashes h) maxCount.

(** ** manager.go *)

Section Managers.
Context {UT : UnicodeTables}.

Definition password_normalizeDN (dn : gostring) : gostring := ToLower (TrimSpace dn).

Record HistoryManager := mkHistoryManager { hm_histories : gmap gostring History; hm_defaultMaxCount : Z }.

Definition NewHistoryManager (defaultMaxCount : Z) : HistoryManager :=
  mkHistoryManager ∅ (if decide (defaultMaxCount < 0) then 0 else defaultMaxCount).

(** The history is the object in the map. *)
Definition GetHistory (dn : gostring) (m : HistoryManager) : History * HistoryManager :=
  let key := password_normalizeDN dn in
  match hm_histories m !! key with
  | Some h => (h, m)
  | None => let h := NewHistory (hm_defaultMaxCount m) in
            (h, mkHistoryManager (<[key := h]> (hm_histories m)) (hm_defaultMaxCount m))
  end.

Definition SetHistory (dn : gostring) (history : option History) (m : HistoryManager) : HistoryManager :=
  let key := password_normalizeDN dn in
  mkHistoryManager (match history with
                    | None => delete key (hm_histories m)
                    | Some h => <[key := h]> (hm_histories m)
                    end) (hm_defaultMaxCount m).

Definition RemoveHistory (dn : gostring) : HistoryManager -> HistoryManager := SetHistory dn None.

Definition AddPassword (dn hash : gostring) (m : HistoryManager) : HistoryManager :=
  let '(h, m) := GetHistory dn m in
  mkHistoryManager (<[password_normalizeDN dn := History_Add hash h]> (hm_histories m)) (hm_defaultMaxCount m).

Definition ContainsPassword (dn hash : gostring) (m : HistoryManager) : bool :=
  match hm_histories m !! password_normalizeDN dn with None => false | Some h => History_Contains hash h end.

Definition HistoryManager_ClearAll (m : HistoryManager) : HistoryManager := mkHistoryManager ∅ (hm_defaultMaxCount m).

Definition SetDefaultMaxCount (maxCount : Z) (m : HistoryManager) : HistoryManager :=
  mkHistoryManager (hm_histories m) (if decide (maxCount < 0) then 0 else maxCount).

Record Manager := mkManager { m_globalPolicy : Policy; m_userPolicies : gmap gostring Policy }.

Definition NewManager (global : option Policy) : Manager := mkManager (default DefaultPolicy global) ∅.

Definition GetPolicy (dn : gostring) (m : Manager) : Policy :=
  match m_userPolicies m !! password_normalizeDN dn with
  | None => m_globalPolicy m
  | Some user => Merge (m_globalPolicy m) (Some user)
  end.

Definition SetUserPolicy (dn : gostring) (policy : option Policy) (m : Manager) : Manager :=
  let key := password_normalizeDN dn in
  mkManager (m_globalPolicy m) (match policy with
                                | None => delete key (m_userPolicies m)
                                | Some p => <[key := p]> (m_userPolicies m)
                                end).

Definition GetUserPolicy (dn : gostring) (m : Manager) : option Policy := m_userPolicies m !! password_normalizeDN dn.
Definition RemoveUserPolicy (dn : gostring) : Manager -> Manager := SetUserPolicy dn None.
Definition SetGlobalPolicy (policy : option Policy) (m : Manager) : Manager :=
  mkManager (default DefaultPolicy policy) (m_userPolicies m).
Definition ClearUserPolicies (m : Manager) : Manager := mkManager (m_globalPolicy m) ∅.

Definition ValidatePassword `{UnicodeClasses} (dn password : gostring) (m : Manager) : option ValidationError :=
  Policy_Validate (GetPolicy dn m) password.
End Managers.

(** ** lockout.go *)

Record AccountLockout := mkAccountLockout {
  failureTimes : list Z;
  lockedTime : Z;
  maxFailures : Z;
  lockoutDuration : Z;
  failureWindow : Z
}.

Definition NewAccountLockout (maxFailures lockoutDuration failureWindow : Z) : AccountLockout :=
  mkAccountLockout [] 0 maxFailures lockoutDuration failureWindow.

Definition set_failures (ts : list Z) (l : AccountLockout) : AccountLockout :=
  mkAccountLockout ts (lockedTime l) (maxFailures l) (lockoutDuration l) (failureWindow l).
Definition set_locked (t : Z) (l : AccountLockout) : AccountLockout :=
  mkAccountLockout (failureTimes l) t (maxFailures l) (lockoutDuration l) (failureWindow l).

(** [pruneFailuresBeforeLocked] on the slice. *)
Fixpoint prune_before (cutoff : Z) (ts : list Z) : list Z :=
  match ts with
  | t :: ts' => if decide (t < cutoff) then prune_before cutoff ts' else ts
  | [] => []
  end.

Definition RecordFailureAt (now : Z) (l : AccountLockout) : AccountLockout :=
  let ts := failureTimes l ++ [now] in
  let ts := if decide (failureWindow l > 0) then prune_before (time_Add now (- failureWindow l)) ts else ts in
  let l := set_failures ts l in
  if decide (maxFailures l > 0 /\ len ts >= maxFailures l) then set_locked now l else l.

Definition IsLockedAt (now : Z) (l : AccountLockout) : bool :=
  if IsZero (lockedTime l) then false
  else if decide (lockoutDuration l = 0) then true
  else bool_decide (time_Sub now (lockedTime l) < lockoutDuration l).

Definition Unlock (l : AccountLockout) : AccountLockout := set_failures [] (set_locked 0 l).
Definition RecordSuccess (l : AccountLockout) : AccountLockout := set_failures [] l.
Definition Lockout_Reset (l : AccountLockout) : AccountLockout := set_failures [] (set_locked 0 l).

Definition FailureCount (l : AccountLockout) : Z := len (failureTimes l).
Definition FailureCountAt (now : Z) (l : AccountLockout) : Z :=
  if decide (failureWindow l = 0) then len (failureTimes l)
  else len (filter (fun t => ~ t < time_Add now (- failureWindow l)) (failureTimes l)).

Definition SetMaxFailures (n : Z) (l : AccountLockout) : AccountLockout :=
  mkAccountLockout (failureTimes l) (lockedTime l) n (lockoutDuration l) (failureWindow l).
Definition SetLockoutDuration (d : Z) (l : AccountLockout) : AccountLockout :=
  mkAccountLockout (failureTimes l) (lockedTime l) (maxFailures l) d (failureWindow l).
Definition SetFailureWindow (w : Z) (l : AccountLockout) : AccountLockout :=
  mkAccountLockout (failureTimes l) (lockedTime l) (maxFailures l) (lockoutDuration l) w.

Definition RemainingLockoutTimeAt (now : Z) (l : AccountLockout) : Z :=
  if IsZero (lockedTime l) then 0
  else if decide (lockoutDuration l = 0) then 0
  else
    let elapsed := time_Sub now (lockedTime l) in
    if decide (elapsed >= lockoutDuration l) then 0 else int64 (lockoutDuration l - elapsed).

(** ** expiration.go *)

Record Expiration := mkExpiration { e_changedTime : Z; e_maxAge : Z; e_graceLogins : Z; e_graceUsed : Z }.

Definition NewExpiration (changedTime maxAge graceLogins : Z) : Expiration :=
  mkExpiration changedTime maxAge (if decide (graceLogins < 0) then 0 else graceLogins) 0.

Definition NewExpirationWithGraceUsed (changedTime maxAge graceLogins graceUsed : Z) : Expiration :=
  let graceLogins := if decide (graceLogins < 0) then 0 else graceLogins in
  let graceUsed := if decide (graceUsed < 0) then 0 else graceUsed in
  mkExpiration changedTime maxAge graceLogins (if decide (graceUsed > graceLogins) then graceLogins else graceUsed).

Definition IsExpiredAt (t : Z) (e : Expiration) : bool :=
  if decide (e_maxAge e = 0) then false else bool_decide (time_Sub t (e_changedTime e) > e_maxAge e).

Definition TimeUntilExpiry (now : Z) (e : Expiration) : Z :=
  if decide (e_maxAge e = 0) then -1
  else
    let remaining := int64 (e_maxAge e - time_Sub now (e_changedTime e)) in
    if decide (remaining <= 0) then 0 else remaining.

Definition ExpiryTime (e : Expiration) : Z := if decide (e_maxAge e = 0) then 0 else time_Add (e_changedTime e) (e_maxAge e).

Definition SetChangedTime (t : Z) (e : Expiration) : Expiration := mkExpiration t (e_maxAge e) (e_graceLogins e) 0.
Definition SetMaxAge (maxAge : Z) (e : Expiration) : Expiration :=
  mkExpiration (e_changedTime e) maxAge (e_graceLogins e) (e_graceUsed e).
Definition SetGraceLogins (count : Z) (e : Expiration) : Expiration :=
  mkExpiration (e_changedTime e) (e_maxAge e) (if decide (count < 0) then 0 else count) (e_graceUsed e).
Definition ResetGraceLogins (e : Expiration) : Expiration := mkExpiration (e_changedTime e) (e_maxAge e) (e_graceLogins e) 0.

Definition GraceLoginsRemaining (e : Expiration) : Z :=
  let remaining := e_graceLogins e - e_graceUsed e in if decide (remaining < 0) then 0 else remaining.

Definition UseGraceLogin (now : Z) (e : Expiration) : bool * Expiration :=
  if negb (IsExpiredAt now e) then (false, e)
  else if decide (e_graceUsed e >= e_graceLogins e) then (false, e)
  else (true, mkExpiration (e_changedTime e) (e_maxAge e) (e_graceLogins e) (e_graceUsed e + 1)).

Definition CanUseGraceLogin (now : Z) (e : Expiration) : bool :=
  if negb (IsExpiredAt now e) then false else bool_decide (e_graceUsed e < e_graceLogins e).

Definition IsFullyExpired (now : Z) (e : Expiration) : bool :=
  if negb (IsExpiredAt now e) then false else bool_decide (e_graceUsed e >= e_graceLogins e).

Definition StatusValid : Z := 0.
Definition StatusExpiring : Z := 1.
Definition StatusExpiredGrace : Z := 2.
Definition StatusExpiredLocked : Z := 3.

Definition Expiration_Status (warningPeriod now : Z) (e : Expiration) : Z :=
  if decide (e_maxAge e = 0) then StatusValid
  else
    let elapsed := time_Sub now (e_changedTime e) in
    if decide (elapsed > e_maxAge e) then
      if decide (e_graceUsed e < e_graceLogins e) then StatusExpiredGrace else StatusExpiredLocked
    else if decide (warningPeriod > 0 /\ int64 (e_maxAge e - elapsed) <= warningPeriod) then StatusExpiring
    else StatusValid.

Section ExpirationManager.
Context {UT : UnicodeTables}.

Record ExpirationManager := mkExpirationManager {
  em_expirations : gmap gostring Expiration;
  em_defaultMaxAge : Z;
  em_defaultGraceLogins : Z
}.

Definition NewExpirationManager (defaultMaxAge defaultGraceLogins : Z) : ExpirationManager :=
  mkExpirationManager ∅ defaultMaxAge (if decide (defaultGraceLogins < 0) then 0 else defaultGraceLogins).

Definition set_expirations (x : gmap gostring Expiration) (m : ExpirationManager) : ExpirationManager :=
  mkExpirationManager x (em_defaultMaxAge m) (em_defaultGraceLogins m).

Definition GetExpiration (dn : gostring) (m : ExpirationManager) : option Expiration :=
  em_expirations m !! password_normalizeDN dn.

Definition GetOrCreateExpiration (dn : gostring) (now : Z) (m : ExpirationManager) : Expiration * ExpirationManager :=
  let key := password_normalizeDN dn in
  match em_expirations m !! key with
  | Some e => (e, m)
  | None => let e := NewExpiration now (em_defaultMaxAge m) (em_defaultGraceLogins m) in
            (e, set_expirations (<[key := e]> (em_expirations m)) m)
  end.

Definition SetExpiration (dn : gostring) (exp : option Expiration) (m : ExpirationManager) : ExpirationManager :=
  let key := password_normalizeDN dn in
  set_expirations (match exp with None => delete key (em_expirations m) | Some e => <[key := e]> (em_expirations m) end) m.

Definition RecordPasswordChange (dn : gostring) (changedTime : Z) (m : ExpirationManager) : ExpirationManager :=
  let key := password_normalizeDN dn in
  let e := match em_expirations m !! key with
           | None => NewExpiration changedTime (em_defaultMaxAge m) (em_defaultGraceLogins m)
           | Some e => SetChangedTime changedTime e
           end in
  set_expirations (<[key := e]> (em_expirations m)) m.

Definition em_UseGraceLogin (dn : gostring) (now : Z) (m : ExpirationManager) : bool * ExpirationManager :=
  match GetExpiration dn m with
  | None => (false, m)
  | Some e => let '(ok, e) := UseGraceLogin now e in
              (ok, set_expirations (<[password_normalizeDN dn := e]> (em_expirations m)) m)
  end.

Definition em_IsExpired (dn : gostring) (now : Z) (m : ExpirationManager) : bool :=
  match GetExpiration dn m with None => false | Some e => IsExpiredAt now e end.
Definition em_IsFullyExpired (dn : gostring) (now : Z) (m : ExpirationManager) : bool :=
  match GetExpiration dn m with None => false | Some e => IsFullyExpired now e end.
Definition RemoveExpiration (dn : gostring) : ExpirationManager -> ExpirationManager := SetExpiration dn None.
Definition SetDefaultMaxAge (maxAge : Z) (m : ExpirationManager) : ExpirationManager :=
  mkExpirationManager (em_expirations m) maxAge (em_defaultGraceLogins m).
Definition SetDefaultGraceLogins (count : Z) (m : ExpirationManager) : ExpirationManager :=
  mkExpirationManager (em_expirations m) (em_defaultMaxAge m) (if decide (count < 0) then 0 else count).
Definition ExpirationManager_ClearAll (m : ExpirationManager) : ExpirationManager := set_expirations ∅ m.
End ExpirationManager.
