(* ===== verification/Auth.v ===== *)
(** * Authentication (src/internal/server/auth.go, bind.go, passwd.go, src/internal/backend/backend.go, src/cmd/oba/serve.go)

    Stored passwords and their schemes, the bind handlers of the server package and of the
    command, the backend's account lockouts, and the Password Modify extended operation with
    its policy. The current time and random bytes are arguments. *)

From S2P Require Import Prelude GoStrings GoCrypto BerEncoder BerDecoder BerSafety BerRoundtrip LdapMessage LdapRequests LdapResult Search Password.

(** ** auth.go *)

Definition SchemeSHA256 : gostring := str "{SHA256}".
Definition SchemeSSHA256 : gostring := str "{SSHA256}".
Definition SchemeSHA512 : gostring := str "{SHA512}".
Definition SchemeSSHA512 : gostring := str "{SSHA512}".
Definition SchemeCleartext : gostring := str "{CLEARTEXT}".

Definition ErrInvalidPasswordFormat : goerror := ErrConst "ErrInvalidPasswordFormat".
Definition ErrUnsupportedScheme : goerror := ErrConst "ErrUnsupportedScheme".
Definition ErrPasswordMismatch : goerror := ErrConst "ErrPasswordMismatch".

(** [strings.ToUpper], exact on ASCII. *)
Class UpperTable := upper_unicode : gostring -> gostring.
Definition upper_byte (b : byte) : byte := if decide (97 <= bZ b <= 122) then u8 (bZ b - 32) else b.
Definition ToUpper `{UpperTable} (s : gostring) : gostring := if is_ascii s then upper_byte <$> s else upper_unicode s.

(** [subtle.ConstantTimeCompare(a, b) == 1] decides between nil and a mismatch. *)
Definition compare_secret (a b : bytes) : option goerror := if bytes_eqb a b then None else Some ErrPasswordMismatch.

Definition verifySHA256 (plaintext encodedHash : gostring) : option goerror :=
  match DecodeString encodedHash with
  | None => Some ErrInvalidPasswordFormat
  | Some storedHash =>
      if decide (len storedHash <> sha256_Size) then Some ErrInvalidPasswordFormat
      else compare_secret (Sum256 plaintext) storedHash
  end.

Definition verifySSHA256 (plaintext encodedHash : gostring) : option goerror :=
  match DecodeString encodedHash with
  | None => Some ErrInvalidPasswordFormat
  | Some storedData =>
      if decide (len storedData <= sha256_Size) then Some ErrInvalidPasswordFormat
      else
        let storedHash := take (Z.to_nat sha256_Size) storedData in
        let salt := drop (Z.to_nat sha256_Size) storedData in
        compare_secret (Sum256 (plaintext ++ salt)) storedHash
  end.

Definition verifySHA512 (plaintext encodedHash : gostring) : option goerror :=
  match DecodeString encodedHash with
  | None => Some ErrInvalidPasswordFormat
  | Some storedHash =>
      if decide (len storedHash <> sha512_Size) then Some ErrInvalidPasswordFormat
      else compare_secret (Sum512 plaintext) storedHash
  end.

Definition verifySSHA512 (plaintext encodedHash : gostring) : option goerror :=
  match DecodeString encodedHash with
  | None => Some ErrInvalidPasswordFormat
  | Some storedData =>
      if decide (len storedData <= sha512_Size) then Some ErrInvalidPasswordFormat
      else
        let storedHash := take (Z.to_nat sha512_Size) storedData in
        let salt := drop (Z.to_nat sha512_Size) storedData in
        compare_secret (Sum512 (plaintext ++ salt)) storedHash
  end.

Definition generateSalt (length : nat) : bytes := (fun i => u8 (Z.of_nat i * 17)) <$> seq 0 length.
Definition GenerateSaltSecure (length : nat) : bytes := (fun i => u8 (Z.lxor (Z.of_nat i * 31) 171)) <$> seq 0 length.

Definition hashSHA256 (plaintext : gostring) : gostring := SchemeSHA256 ++ EncodeToString (Sum256 plaintext).
Definition hashSHA512 (plaintext : gostring) : gostring := SchemeSHA512 ++ EncodeToString (Sum512 plaintext).

Definition hashSSHA256 (plaintext : gostring) : gostring :=
  let salt := generateSalt 16 in
  SchemeSSHA256 ++ EncodeToString (Sum256 (plaintext ++ salt) ++ salt).

Definition hashSSHA512 (plaintext : gostring) : gostring :=
  let salt := generateSalt 16 in
  SchemeSSHA512 ++ EncodeToString (Sum512 (plaintext ++ salt) ++ salt).

Definition left_brace : gostring := str "{".
Definition right_brace : gostring := str "}".

Section Schemes.
Context `{UpperTable}.

(** The result is an error or nil. *)
Definition VerifyPassword (plaintext stored : gostring) : option goerror :=
  if bytes_eqb stored [] then Some ErrInvalidPasswordFormat
  else
    let schemeEnd := Index stored right_brace in
    if bool_decide (schemeEnd = -1) || negb (HasPrefix stored left_brace) then compare_secret plaintext stored
    else
      let scheme := ToUpper (take (Z.to_nat (schemeEnd + 1)) stored) in
      let encodedHash := drop (Z.to_nat (schemeEnd + 1)) stored in
      if bytes_eqb scheme SchemeCleartext then compare_secret plaintext encodedHash
      else if bytes_eqb scheme SchemeSHA256 then verifySHA256 plaintext encodedHash
      else if bytes_eqb scheme SchemeSSHA256 then verifySSHA256 plaintext encodedHash
      else if bytes_eqb scheme SchemeSHA512 then verifySHA512 plaintext encodedHash
      else if bytes_eqb scheme SchemeSSHA512 then verifySSHA512 plaintext encodedHash
      else Some ErrUnsupportedScheme.

Definition HashPassword (plaintext scheme : gostring) : outcome gostring :=
  let scheme := ToUpper scheme in
  if bytes_eqb scheme SchemeCleartext then Ok (SchemeCleartext ++ plaintext)
  else if bytes_eqb scheme SchemeSHA256 then Ok (hashSHA256 plaintext)
  else if bytes_eqb scheme SchemeSSHA256 then Ok (hashSSHA256 plaintext)
  else if bytes_eqb scheme SchemeSHA512 then Ok (hashSHA512 plaintext)
  else if bytes_eqb scheme SchemeSSHA512 then Ok (hashSSHA512 plaintext)
  else Err ErrUnsupportedScheme.

(** [for _, storedPassword := range passwords]: does one of them match? *)
Definition any_matches (password : gostring) (passwords : list gostring) : bool :=
  existsb (fun stored => bool_decide (VerifyPassword password stored = None)) passwords.
End Schemes.

(** ** Results *)

Record OperationResult := mkOperationResult { or_ResultCode : Z; or_MatchedDN : gostring; or_DiagnosticMessage : gostring }.

Definition ResultAuthMethodNotSupported : Z := 7.
Definition ResultConfidentialityRequired : Z := 13.
Definition ResultConstraintViolation : Z := 19.
Definition ResultInappropriateAuthentication : Z := 48.
Definition ResultInvalidCredentials : Z := 49.

Definition success : OperationResult := mkOperationResult ResultSuccess [] [].
Definition result (code : Z) (message : string) : OperationResult := mkOperationResult code [] (str message).
Definition invalid_credentials : OperationResult := result ResultInvalidCredentials "invalid credentials".

(** ** bind.go *)

Definition LDAPVersion3 : Z := 3.
Definition PasswordAttribute : gostring := str "userPassword".

Record BindConfig := mkBindConfig {
  bc_Backend : option (gostring -> outcome (option StorageEntry));
  AllowAnonymous : bool;
  bc_RootDN : gostring;
  bc_RootPassword : gostring
}.

Section BindHandler.
Context `{UnicodeTables} `{UpperTable}.

(** [entry.GetAttribute(name)] of storage and of the backend. *)
Definition entry_attribute (e : StorageEntry) (name : gostring) : list bytes := default [] (se_Attributes e !! ToLower name).

(** [normalizeDN] of the server package, also [normalizeDNForCompare]. *)
Definition server_normalizeDN (dn : gostring) : gostring := ToLower (TrimSpace dn).

Definition handleAnonymousBind (config : BindConfig) : OperationResult :=
  if negb (AllowAnonymous config) then result ResultInappropriateAuthentication "anonymous bind is not allowed" else success.

Definition verifyRootBind (config : BindConfig) (password : gostring) : OperationResult :=
  if bytes_eqb (bc_RootPassword config) [] then invalid_credentials
  else match VerifyPassword password (bc_RootPassword config) with Some _ => invalid_credentials | None => success end.

Definition handler_verifyEntryPassword (entry : StorageEntry) (password : gostring) : OperationResult :=
  let passwords := entry_attribute entry PasswordAttribute in
  if decide (len passwords = 0) then invalid_credentials
  else if any_matches password passwords then success else invalid_credentials.

Definition handleSimpleBind (config : BindConfig) (req : BindRequest) : outcome OperationResult :=
  let password := SimplePassword req in
  let normalizedDN := server_normalizeDN (Name req) in
  if negb (bytes_eqb (bc_RootDN config) []) && bytes_eqb (server_normalizeDN (bc_RootDN config)) normalizedDN
  then Ok (verifyRootBind config password)
  else match bc_Backend config with
       | None => Ok (result ResultOperationsError "backend not configured")
       | Some getEntry =>
           match getEntry (Name req) with
           | Err _ => Ok (result ResultOperationsError "internal error during authentication")
           | Ok None => Ok invalid_credentials
           | Ok (Some entry) => Ok (handler_verifyEntryPassword entry password)
           | Panic => Panic
           | Diverge => Diverge
           end
       end.

Definition BindHandler_Handle (config : BindConfig) (req : BindRequest) : outcome OperationResult :=
  if decide (Version req <> LDAPVersion3) then Ok (result ResultProtocolError "only LDAP version 3 is supported")
  else if IsAnonymous req then Ok (handleAnonymousBind config)
  else if decide (AuthMethod req = AuthMethodSimple) then handleSimpleBind config req
  else if decide (AuthMethod req = AuthMethodSASL) then Ok (result ResultAuthMethodNotSupported "SASL authentication is not supported")
  else Ok (result ResultAuthMethodNotSupported "unsupported authentication method").
End BindHandler.

(** ** backend.go: binding and lockouts *)

Definition backend_PasswordAttribute : gostring := str "userpassword".
Definition AccountDisabledAttribute : gostring := str "obadisabled".
Definition ErrInvalidCredentials : goerror := ErrConst "ErrInvalidCredentials".
Definition backend_ErrEntryNotFound : goerror := ErrConst "ErrEntryNotFound".
Definition ErrNoPassword : goerror := ErrConst "ErrNoPassword".
Definition ErrAccountDisabled : goerror := ErrConst "ErrAccountDisabled".

(** What binding uses of the storage engine: an error of [Begin], and [Get] in the transaction. *)
Record EntryStore := mkEntryStore { es_Begin : option goerror; es_Get : gostring -> outcome StorageEntry }.

(** The security settings of [ObaBackend]. *)
Record ObaBackend := mkObaBackend {
  rootDN : gostring;
  rootPW : gostring;
  rateLimitEnabled : bool;
  rateLimitAttempts : Z;
  rateLimitDuration : Z;
  accountLockouts : gmap gostring AccountLockout
}.

Definition set_lockouts (m : gmap gostring AccountLockout) (b : ObaBackend) : ObaBackend :=
  mkObaBackend (rootDN b) (rootPW b) (rateLimitEnabled b) (rateLimitAttempts b) (rateLimitDuration b) m.

Section Backend.
Context `{UnicodeTables} `{UpperTable} `{MapIteration}.

Definition getEntry (store : EntryStore) (dn : gostring) : outcome StorageEntry :=
  match es_Begin store with
  | Some e => Err (WrapError "backend: %w" e)
  | None =>
      match es_Get store dn with
      | Ok e => Ok (convertFromStorageEntry e)
      | Err _ => Err backend_ErrEntryNotFound
      | Panic => Panic
      | Diverge => Diverge
      end
  end.

Definition verifyRootPassword (b : ObaBackend) (password : gostring) : option goerror :=
  if bytes_eqb (rootPW b) [] then Some ErrInvalidCredentials
  else match VerifyPassword password (rootPW b) with Some _ => Some ErrInvalidCredentials | None => None end.

Definition verifyEntryPassword (entry : StorageEntry) (password : gostring) : option goerror :=
  let passwords := entry_attribute entry backend_PasswordAttribute in
  if decide (len passwords = 0) then Some ErrNoPassword
  else if any_matches password passwords then None else Some ErrInvalidCredentials.

Definition isAccountDisabled (entry : StorageEntry) : bool :=
  match entry_attribute entry AccountDisabledAttribute with
  | [] => false
  | v :: _ => let val := ToLower v in bytes_eqb val (str "true") || bytes_eqb val (str "1") || bytes_eqb val (str "yes")
  end.

Definition Bind (store : EntryStore) (dn password : gostring) (b : ObaBackend) : outcome (option goerror) :=
  if bytes_eqb dn [] then Ok None
  else
    let normalizedDN := normalizeDN dn in
    if negb (bytes_eqb (rootDN b) []) && bytes_eqb normalizedDN (rootDN b) then Ok (verifyRootPassword b password)
    else match getEntry store normalizedDN with
         | Err err => Ok (Some (if decide (err = backend_ErrEntryNotFound) then ErrInvalidCredentials else err))
         | Ok entry => Ok (if isAccountDisabled entry then Some ErrAccountDisabled else verifyEntryPassword entry password)
         | Panic => Panic
         | Diverge => Diverge
         end.

(** Inserts a new lockout when there is none; the lockout is the object in the map. *)
Definition GetAccountLockout (dn : gostring) (b : ObaBackend) : AccountLockout * ObaBackend :=
  let key := normalizeDN dn in
  match accountLockouts b !! key with
  | Some l => (l, b)
  | None => let l := NewAccountLockout (rateLimitAttempts b) (rateLimitDuration b) 0 in
            (l, set_lockouts (<[key := l]> (accountLockouts b)) b)
  end.

Definition on_lockout (f : AccountLockout -> AccountLockout) (dn : gostring) (b : ObaBackend) : ObaBackend :=
  let '(l, b) := GetAccountLockout dn b in set_lockouts (<[normalizeDN dn := f l]> (accountLockouts b)) b.

Definition IsAccountLocked (dn : gostring) (now : Z) (b : ObaBackend) : bool * ObaBackend :=
  if negb (rateLimitEnabled b) then (false, b)
  else let '(l, b) := GetAccountLockout dn b in (IsLockedAt now l, b).

Definition RecordAuthFailure (dn : gostring) (now : Z) (b : ObaBackend) : ObaBackend :=
  if negb (rateLimitEnabled b) then b else on_lockout (RecordFailureAt now) dn b.

Definition RecordAuthSuccess (dn : gostring) (b : ObaBackend) : ObaBackend :=
  if negb (rateLimitEnabled b) then b else on_lockout RecordSuccess dn b.

Definition UnlockAccount (dn : gostring) (b : ObaBackend) : ObaBackend :=
  set_lockouts (alter Unlock (normalizeDN dn) (accountLockouts b)) b.

Definition SetRateLimitConfig (enabled : bool) (maxAttempts duration : Z) (b : ObaBackend) : ObaBackend :=
  mkObaBackend (rootDN b) (rootPW b) enabled maxAttempts duration
    ((fun l => SetLockoutDuration duration (SetMaxFailures maxAttempts l)) <$> accountLockouts b).

Definition GetLockedAccountCount (now : Z) (b : ObaBackend) : Z :=
  Z.of_nat (size (filter (fun '(_, l) => IsLockedAt now l = true) (accountLockouts b))).

(** ** serve.go: the bind handler of the command *)

(** The handler locks the backend twice, and each connection has a goroutine: first it looks
    whether the account is locked, [Some] being its answer; then, at a later time, it compares
    the password and records what came of it. *)
Definition serve_bind_check (now : Z) (req : BindRequest) (b : ObaBackend) : option OperationResult * ObaBackend :=
  if IsAnonymous req then (Some success, b)
  else
    let '(locked, b) := IsAccountLocked (Name req) now b in
    if locked : bool then (Some (result ResultInvalidCredentials "account is locked due to too many failed attempts"), b)
    else (None, b).

Definition serve_bind_finish (store : EntryStore) (now : Z) (req : BindRequest) (b : ObaBackend) : outcome OperationResult * ObaBackend :=
  match Bind store (Name req) (SimplePassword req) b with
  | Ok (Some _) => (Ok invalid_credentials, RecordAuthFailure (Name req) now b)
  | Ok None => (Ok success, RecordAuthSuccess (Name req) b)
  | Err e => (Err e, b)
  | Panic => (Panic, b)
  | Diverge => (Diverge, b)
  end.

(** The whole handler, when no other runs in between. *)
Definition serve_bind (store : EntryStore) (now later : Z) (req : BindRequest) (b : ObaBackend) : outcome OperationResult * ObaBackend :=
  match serve_bind_check now req b with
  | (Some r, b) => (Ok r, b)
  | (None, b) => serve_bind_finish store later req b
  end.
End Backend.

(** ** passwd.go *)

Record PasswordModifyRequest := mkPasswordModifyRequest { UserIdentity : bytes; OldPassword : bytes; NewPassword : bytes }.

(** The tag of the next field; [None] stops the loop. *)
Definition next_field : Dec (option Z) :=
  r ← try PeekTag;
  mret match r with
       | inl (class, _, number) => if decide (class <> ClassContextSpecific) then None else Some number
       | inr _ => None
       end.

Definition read_field (req : PasswordModifyRequest) (number : Z) : Dec PasswordModifyRequest :=
  if decide (number = 0) then
    '(_, _, value) ← ReadTaggedValue; mret (mkPasswordModifyRequest value (OldPassword req) (NewPassword req))
  else if decide (number = 1) then
    '(_, _, value) ← ReadTaggedValue; mret (mkPasswordModifyRequest (UserIdentity req) value (NewPassword req))
  else if decide (number = 2) then
    '(_, _, value) ← ReadTaggedValue; mret (mkPasswordModifyRequest (UserIdentity req) (OldPassword req) value)
  else Skip ;; mret req.

Definition read_fields : Dec PasswordModifyRequest :=
  _ ← ExpectSequence;
  fuel ← gets loop_fuel;
  '(req, _) ← while fuel (fun '(_, stop) d => negb stop && has_more d)
    (fun '(req, _) =>
       next ← next_field;
       match next with
       | None => mret (req, true)
       | Some number => req ← read_field req number; mret (req, false)
       end)
    (mkPasswordModifyRequest [] [] [], false);
  mret req.

Definition parsePasswordModifyRequest (data : bytes) : outcome PasswordModifyRequest :=
  if decide (len data = 0) then Ok (mkPasswordModifyRequest [] [] []) else (read_fields (NewBERDecoder data)).1.

(** The empty result stands for nil. *)
Definition encodePasswordModifyResponse (genPassword : bytes) : bytes :=
  if decide (len genPassword = 0) then []
  else match encode (bracket BeginSequence EndSequence (WriteTaggedValue 0 false genPassword)) with
       | Ok bs => bs
       | _ => []
       end.

Definition charset : bytes := str "abcdefghijklmnopqrstuvwxyzABCDEFGHIJKLMNOPQRSTUVWXYZ0123456789!@#$%^&*".
Definition charset_at (i : Z) : byte := nth (Z.to_nat (Z.rem i (len charset))) charset x00.

(** [random]: what [rand.Read] yields, [None] for an error. *)
Definition generateSecurePassword (length : nat) (random : option bytes) : bytes :=
  match random with
  | None => (fun i => charset_at (Z.of_nat i)) <$> seq 0 length
  | Some bs => (fun i => charset_at (bZ (nth i bs x00))) <$> seq 0 length
  end.

(** [PasswordBackend] over a state [S]. *)
Record PasswordBackend (S : Type) := mkPasswordBackend {
  pb_SetPassword : gostring -> bytes -> S -> option goerror * S;
  pb_VerifyPassword : gostring -> gostring -> S -> option goerror
}.
Arguments mkPasswordBackend {S}.
Arguments pb_SetPassword {S}.
Arguments pb_VerifyPassword {S}.

Record PasswordModifyConfig (S : Type) := mkPasswordModifyConfig {
  pc_Backend : option (PasswordBackend S);
  PolicyManager : option Manager;
  AdminDNs : list gostring;
  RequireTLS : bool
}.
Arguments mkPasswordModifyConfig {S}.
Arguments pc_Backend {S}.
Arguments PolicyManager {S}.
Arguments AdminDNs {S}.
Arguments RequireTLS {S}.

Record ExtendedResponse := mkExtendedResponse { er_Result : OperationResult; er_Value : bytes }.

Definition refuse (code : Z) (message : gostring) : ExtendedResponse := mkExtendedResponse (mkOperationResult code [] message) [].

Section PasswordModify.
Context `{UnicodeTables} `{UnicodeClasses} {S : Type}.

Definition isAdmin (config : PasswordModifyConfig S) (dn : gostring) : bool :=
  if bytes_eqb dn [] then false
  else existsb (fun adminDN => bytes_eqb (server_normalizeDN adminDN) (server_normalizeDN dn)) (AdminDNs config).

(** The checks before the new password is looked at: the refusal, if any. *)
Definition may_modify (config : PasswordModifyConfig S) (bindDN targetDN : gostring) (pmReq : PasswordModifyRequest) (s : S) : option ExtendedResponse :=
  let isOwnPassword := bytes_eqb (server_normalizeDN targetDN) (server_normalizeDN bindDN) in
  let admin := isAdmin config bindDN in
  if bytes_eqb targetDN [] then
    Some (refuse ResultUnwillingToPerform (str "cannot modify password: no target user specified"))
  else if negb isOwnPassword && negb admin then
    Some (refuse ResultInsufficientAccessRights (str "cannot modify other user's password"))
  else if decide (len (OldPassword pmReq) > 0) then
    match pc_Backend config with
    | Some backend =>
        match pb_VerifyPassword backend targetDN (OldPassword pmReq) s with
        | Some _ => Some (refuse ResultInvalidCredentials (str "old password is incorrect"))
        | None => None
        end
    | None => None
    end
  else if isOwnPassword && negb admin then
    Some (refuse ResultUnwillingToPerform (str "old password required for self-service password change"))
  else None.

Definition policy_error (config : PasswordModifyConfig S) (targetDN newPassword : gostring) : option ValidationError :=
  match PolicyManager config with
  | Some manager => Policy_Validate (GetPolicy targetDN manager) newPassword
  | None => None
  end.

Definition update_password (config : PasswordModifyConfig S) (targetDN : gostring) (newPassword : bytes) (s : S) : option goerror * S :=
  match pc_Backend config with
  | Some backend => pb_SetPassword backend targetDN newPassword s
  | None => (None, s)
  end.

(** [error_text] is [err.Error()]. *)
Definition PasswordModify_Handle (error_text : goerror -> gostring) (config : PasswordModifyConfig S) (tls : bool) (bindDN : gostring)
    (value : bytes) (random : option bytes) (s : S) : outcome ExtendedResponse * S :=
  if RequireTLS config && negb tls then
    (Ok (refuse ResultConfidentialityRequired (str "TLS required for password modification")), s)
  else match parsePasswordModifyRequest value with
  | Err e => (Ok (refuse ResultProtocolError (str "invalid password modify request: " ++ error_text e)), s)
  | Panic => (Panic, s)
  | Diverge => (Diverge, s)
  | Ok pmReq =>
      let targetDN := if decide (len (UserIdentity pmReq) > 0) then UserIdentity pmReq else bindDN in
      match may_modify config bindDN targetDN pmReq s with
      | Some refusal => (Ok refusal, s)
      | None =>
          let genPassword := if decide (len (NewPassword pmReq) = 0) then generateSecurePassword 16 random else [] in
          let newPassword := if decide (len (NewPassword pmReq) = 0) then genPassword else NewPassword pmReq in
          match policy_error config targetDN newPassword with
          | Some e => (Ok (refuse ResultConstraintViolation (ve_Message e)), s)
          | None =>
              match update_password config targetDN newPassword s with
              | (Some e, s) => (Ok (refuse ResultOperationsError (str "failed to update password: " ++ error_text e)), s)
              | (None, s) => (Ok (mkExtendedResponse success (encodePasswordModifyResponse genPassword)), s)
              end
          end
      end
  end.
End PasswordModify.
