(* ===== verification/AuthTheorems.v ===== *)
(** * What authentication guarantees

    Stored passwords verify exactly the secrets they were made of; the bind handler of the
    command counts failures and locks accounts as an abstract counter does; the Password
    Modify operation changes a password only for those entitled to it and within the policy. *)

From S2P Require Import Prelude Engine EngineTheorems.
From S2P Require Import GoStrings GoCrypto BerEncoder BerDecoder BerSafety BerRoundtrip LdapMessage LdapRequests LdapResult Search Password Auth.

(** ** Stored passwords *)

Lemma Index_brace (pre rest : gostring) : x7d ∉ pre -> Index (pre ++ x7d :: rest) right_brace = len pre.
Proof.
  induction pre as [|b pre IH]; intros Hn; cbn [app Index]; [by vm_compute |]. apply not_elem_of_cons in Hn as [Hb Hn].
  assert (HasPrefix (b :: pre ++ x7d :: rest) right_brace = false) as ->.
  { apply bool_decide_eq_false. cbn. congruence. }
  rewrite (IH Hn). rewrite decide_False by (pose proof (len_nonneg pre); lia). rewrite len_cons. lia.
Qed.

Section Secrets.
Context `{UpperTable}.

(** What a scheme keeps of a password; [None] for a scheme that is not supported. *)
Definition secret (scheme plaintext : gostring) : option bytes :=
  let scheme := ToUpper scheme in
  if bytes_eqb scheme SchemeCleartext then Some plaintext
  else if bytes_eqb scheme SchemeSHA256 then Some (Sum256 plaintext)
  else if bytes_eqb scheme SchemeSSHA256 then Some (Sum256 (plaintext ++ generateSalt 16))
  else if bytes_eqb scheme SchemeSHA512 then Some (Sum512 plaintext)
  else if bytes_eqb scheme SchemeSSHA512 then Some (Sum512 (plaintext ++ generateSalt 16))
  else None.

(** A stored password with its scheme in front. *)
Lemma VerifyPassword_scheme plaintext name rest :
  x7d ∉ name -> is_ascii name = true ->
  VerifyPassword plaintext (x7b :: name ++ x7d :: rest) =
    (let scheme := x7b :: (upper_byte <$> name) ++ [x7d] in
     if bytes_eqb scheme SchemeCleartext then compare_secret plaintext rest
     else if bytes_eqb scheme SchemeSHA256 then verifySHA256 plaintext rest
     else if bytes_eqb scheme SchemeSSHA256 then verifySSHA256 plaintext rest
     else if bytes_eqb scheme SchemeSHA512 then verifySHA512 plaintext rest
     else if bytes_eqb scheme SchemeSSHA512 then verifySSHA512 plaintext rest
     else Some ErrUnsupportedScheme).
Proof.
  intros Hn Ha. unfold VerifyPassword.
  assert (bytes_eqb (x7b :: name ++ x7d :: rest) [] = false) as -> by by apply bool_decide_eq_false.
  change (x7b :: name ++ x7d :: rest) with ((x7b :: name) ++ x7d :: rest).
  rewrite Index_brace by (apply not_elem_of_cons; by split).
  rewrite bool_decide_false by (pose proof (len_nonneg (x7b :: name)); lia).
  assert (HasPrefix ((x7b :: name) ++ x7d :: rest) left_brace = true) as -> by by apply bool_decide_eq_true.
  cbn [orb negb]. replace (Z.to_nat (len (x7b :: name) + 1)) with (length ((x7b :: name) ++ [x7d])) by (rewrite length_app; unfold len; cbn; lia).
  replace ((x7b :: name) ++ x7d :: rest) with (((x7b :: name) ++ [x7d]) ++ rest) by by rewrite <- app_assoc.
  rewrite take_app_length, drop_app_length.
  assert (ToUpper ((x7b :: name) ++ [x7d]) = x7b :: (upper_byte <$> name) ++ [x7d]) as ->; [| done].
  unfold ToUpper. assert (is_ascii ((x7b :: name) ++ [x7d]) = true) as ->.
  { unfold is_ascii. rewrite forallb_app. cbn [forallb]. fold (is_ascii name). rewrite Ha. done. }
  cbn [app fmap list_fmap]. by rewrite fmap_app.
Qed.

Lemma compare_secret_None a b : compare_secret a b = None <-> a = b.
Proof. unfold compare_secret. destruct (bytes_eqb a b) eqn:E; [apply bool_decide_eq_true in E | apply bool_decide_eq_false in E]; done. Qed.

Lemma generateSalt_length n : length (generateSalt n) = n.
Proof. unfold generateSalt. by rewrite length_fmap, length_seq. Qed.

Lemma take_hash (h salt : bytes) n : len h = n -> take (Z.to_nat n) (h ++ salt) = h /\ drop (Z.to_nat n) (h ++ salt) = salt.
Proof. intros <-. unfold len. rewrite Nat2Z.id. split; [apply take_app_length | apply drop_app_length]. Qed.

Lemma verifySHA256_hash q p : verifySHA256 q (EncodeToString (Sum256 p)) = compare_secret (Sum256 q) (Sum256 p).
Proof. unfold verifySHA256. rewrite DecodeString_encode, decide_False; [done |]. rewrite Sum256_length. tauto. Qed.

Lemma verifySHA512_hash q p : verifySHA512 q (EncodeToString (Sum512 p)) = compare_secret (Sum512 q) (Sum512 p).
Proof. unfold verifySHA512. rewrite DecodeString_encode, decide_False; [done |]. rewrite Sum512_length. tauto. Qed.

Lemma verifySSHA256_hash q p salt :
  salt <> [] -> verifySSHA256 q (EncodeToString (Sum256 p ++ salt)) = compare_secret (Sum256 (q ++ salt)) (Sum256 p).
Proof.
  intros Hs. unfold verifySSHA256. rewrite DecodeString_encode, decide_False.
  - by destruct (take_hash (Sum256 p) salt _ (Sum256_length p)) as [-> ->].
  - rewrite len_app, Sum256_length. destruct salt; [done |]. rewrite len_cons. pose proof (len_nonneg salt). lia.
Qed.

Lemma verifySSHA512_hash q p salt :
  salt <> [] -> verifySSHA512 q (EncodeToString (Sum512 p ++ salt)) = compare_secret (Sum512 (q ++ salt)) (Sum512 p).
Proof.
  intros Hs. unfold verifySSHA512. rewrite DecodeString_encode, decide_False.
  - by destruct (take_hash (Sum512 p) salt _ (Sum512_length p)) as [-> ->].
  - rewrite len_app, Sum512_length. destruct salt; [done |]. rewrite len_cons. pose proof (len_nonneg salt). lia.
Qed.
Ltac scheme_case name :=
  etrans; [apply (VerifyPassword_scheme _ name); [apply (bool_decide_unpack (x7d ∉ name)) |]; by vm_compute |]; reflexivity.

Lemma VerifyPassword_Cleartext q rest : VerifyPassword q (SchemeCleartext ++ rest) = compare_secret q rest.
Proof. scheme_case (str "CLEARTEXT"). Qed.

Lemma VerifyPassword_SHA256 q rest : VerifyPassword q (SchemeSHA256 ++ rest) = verifySHA256 q rest.
Proof. scheme_case (str "SHA256"). Qed.

Lemma VerifyPassword_SSHA256 q rest : VerifyPassword q (SchemeSSHA256 ++ rest) = verifySSHA256 q rest.
Proof. scheme_case (str "SSHA256"). Qed.

Lemma VerifyPassword_SHA512 q rest : VerifyPassword q (SchemeSHA512 ++ rest) = verifySHA512 q rest.
Proof. scheme_case (str "SHA512"). Qed.

Lemma VerifyPassword_SSHA512 q rest : VerifyPassword q (SchemeSSHA512 ++ rest) = verifySSHA512 q rest.
Proof. scheme_case (str "SSHA512"). Qed.

End Secrets.


(** ** Lockouts *)

(** What has become of the checked passwords of a name, and unlocks; the newest first. *)
Inductive event := Failed (now : Z) | Succeeded | Unlocked.
Abbreviation records := (gmap gostring (list event)).

Definition history_of (G : records) (key : gostring) : list event := default [] (G !! key).

(** The times of the failures since the last success or unlock, the newest first. *)
Fixpoint failures (h : list event) : list Z := match h with Failed t :: h => t :: failures h | _ => [] end.

(** The time of the last failure that was at least the [m]-th since a success or unlock, unless
    the name was unlocked since. *)
Fixpoint last_lock (m : Z) (h : list event) : option Z :=
  match h with
  | [] | Unlocked :: _ => None
  | Succeeded :: h => last_lock m h
  | Failed t :: h' => if decide (len (failures h) >= m) then Some t else last_lock m h'
  end.

(** With [m] attempts and a lockout of [d]: a name is locked for [d] after such a failure, for
    ever if [d] is 0. *)
Definition locked_out (m d now : Z) (h : list event) : bool :=
  match last_lock m h with Some t => bool_decide (d = 0) || bool_decide (now - t < d) | None => false end.

(** After the first [m] failures two of them are at least [d] apart; with [d] 0 there are none. *)
Fixpoint throttled (m d : Z) (fails : list Z) : Prop :=
  match fails with
  | t :: (t' :: _) as older => (len older >= m -> d <> 0 /\ t - t' >= d) /\ throttled m d older
  | _ => True
  end.

Section Lockout.
Context `{UnicodeTables} `{UpperTable} `{MapIteration}.

(** The steps of the handlers: a request arrives at a time and passes the check or is answered;
    one that has passed compares the password with what the engine holds, records the result at
    a time and is answered; an administrator unlocks a name. *)
Inductive auth_op :=
| AArrive (id now : Z) (req : BindRequest)
| AFinish (id : Z) (store : EntryStore) (now : Z)
| AUnlock (dn : gostring).

Abbreviation pending := (gmap Z BindRequest).
Abbreviation reply := (option (outcome OperationResult)).

Definition auth_exec (o : auth_op) (x : ObaBackend * pending) : reply * (ObaBackend * pending) :=
  let '(b, P) := x in
  match o with
  | AArrive id now req =>
      match serve_bind_check now req b with
      | (Some r, b) => (Some (Ok r), (b, P))
      | (None, b) => (None, (b, <[id := req]> P))
      end
  | AFinish id store now =>
      match P !! id with
      | Some req => let '(r, b) := serve_bind_finish store now req b in (Some r, (b, delete id P))
      | None => (None, x)
      end
  | AUnlock dn => (None, (UnlockAccount dn b, P))
  end.

Definition locked_result : OperationResult := result ResultInvalidCredentials "account is locked due to too many failed attempts".

Definition noted (key : gostring) (e : event) (G : records) : records := <[key := e :: history_of G key]> G.

(** The answers and the records; [b] has the root's name and password. *)
Definition auth_spec (m d : Z) (b : ObaBackend) (o : auth_op) (x : records * pending) : reply * (records * pending) :=
  let '(G, P) := x in
  match o with
  | AArrive id now req =>
      if IsAnonymous req then (Some (Ok success), x)
      else if locked_out m d now (history_of G (normalizeDN (Name req))) then (Some (Ok locked_result), x)
      else (None, (G, <[id := req]> P))
  | AFinish id store now =>
      match P !! id with
      | None => (None, x)
      | Some req =>
          let key := normalizeDN (Name req) in
          match Bind store (Name req) (SimplePassword req) b with
          | Ok None => (Some (Ok success), (noted key Succeeded G, delete id P))
          | Ok (Some _) => (Some (Ok invalid_credentials), (noted key (Failed now) G, delete id P))
          | Err e => (Some (Err e), (G, delete id P))
          | Panic => (Some Panic, (G, delete id P))
          | Diverge => (Some Diverge, (G, delete id P))
          end
      end
  | AUnlock dn => (None, (noted (normalizeDN dn) Unlocked G, P))
  end.

Fixpoint auth_run (m d : Z) (b0 : ObaBackend) (y : records * pending) (x : ObaBackend * pending) (os : list auth_op) : Prop :=
  match os with
  | [] => True
  | o :: os => (auth_exec o x).1 = (auth_spec m d b0 o y).1 /\ auth_run m d b0 (auth_spec m d b0 o y).2 (auth_exec o x).2 os
  end.

Definition auth_records (m d : Z) (b0 : ObaBackend) (os : list auth_op) (y : records * pending) : records * pending :=
  foldl (fun y o => (auth_spec m d b0 o y).2) y os.

(** Failures are recorded at times after the zero time. *)
Definition timed (os : list auth_op) : Prop :=
  Forall (fun o => match o with AFinish _ _ now => 0 < now | _ => True end) os.

(** Every request is finished, not before it arrived, before the next step of any other. *)
Fixpoint serial (os : list auth_op) : Prop :=
  match os with
  | [] => True
  | AArrive id now _ :: AFinish id' _ later :: os => id' = id /\ now <= later /\ serial os
  | AUnlock _ :: os => serial os
  | _ => False
  end.

(** The lockout of a name with a history. *)
Record accounts_for (m d : Z) (h : list event) (l : AccountLockout) : Prop := mkAccountsFor {
  af_max : maxFailures l = m;
  af_duration : lockoutDuration l = d;
  af_window : failureWindow l = 0;
  af_failures : failureTimes l = rev (failures h);
  af_locked : lockedTime l = default 0 (last_lock m h);
  af_times : forall t, last_lock m h = Some t -> 0 < t
}.

Lemma accounts_locked m d h l now :
  0 <= d < 2 ^ 63 -> accounts_for m d h l -> IsLockedAt now l = locked_out m d now h.
Proof.
  intros Hd [_ Hdur _ _ Hl Ht]. unfold IsLockedAt, IsZero, time_Sub, minDuration, maxDuration, locked_out. rewrite Hdur, Hl.
  destruct (last_lock m h) as [t|]; cbn; [| done]. specialize (Ht t eq_refl). rewrite bool_decide_false by lia.
  case_decide as Hz; [by rewrite bool_decide_true |]. rewrite (bool_decide_false (d = 0)) by done. apply bool_decide_ext. lia.
Qed.

Lemma accounts_failure m d h l now :
  0 < m -> accounts_for m d h l -> 0 < now -> accounts_for m d (Failed now :: h) (RecordFailureAt now l).
Proof.
  intros Hm [Hmax Hdur Hw Hf Hl Ht] Hp. unfold RecordFailureAt.
  rewrite Hw, (decide_False (P := 0 > 0)), Hf by lia. cbn [maxFailures set_failures]. rewrite Hmax.
  assert (len (rev (failures h) ++ [now]) = len (failures (Failed now :: h))) as -> by (unfold len; rewrite length_app, length_rev; cbn; lia).
  case_decide as Hc; constructor; cbn -[failures]; try done; try rewrite (decide_True _ _ (proj2 Hc)); try rewrite decide_False by lia; try done.
  by intros t [= <-].
Qed.

Lemma accounts_success m d h l : accounts_for m d h l -> accounts_for m d (Succeeded :: h) (RecordSuccess l).
Proof. intros [? ? ? ? ? ?]. by constructor. Qed.

Lemma accounts_unlock m d h l : accounts_for m d h l -> accounts_for m d (Unlocked :: h) (Unlock l).
Proof. intros [? ? ? ? ? ?]. by constructor. Qed.

(** Every lockout accounts for its history; a name without one has nothing on record. *)
Record guards (m d : Z) (b0 : ObaBackend) (G : records) (b : ObaBackend) : Prop := mkGuards {
  gd_root : rootDN b = rootDN b0 /\ rootPW b = rootPW b0;
  gd_enabled : rateLimitEnabled b = true;
  gd_limits : rateLimitAttempts b = m /\ rateLimitDuration b = d;
  gd_lockouts : forall key l, accountLockouts b !! key = Some l -> accounts_for m d (history_of G key) l;
  gd_absent : forall key, accountLockouts b !! key = None -> accounts_for m d (history_of G key) (NewAccountLockout m d 0)
}.

Lemma history_noted key e G key' :
  history_of (noted key e G) key' = if decide (key = key') then e :: history_of G key else history_of G key'.
Proof. unfold noted, history_of. by destruct (decide (key = key')) as [<-|Hne]; [rewrite lookup_insert_eq | rewrite lookup_insert_ne]. Qed.

(** The lockout of a name, made if need be. *)
Lemma guards_get m d b0 G b dn :
  guards m d b0 G b ->
  exists l b', GetAccountLockout dn b = (l, b') /\ guards m d b0 G b' /\ accountLockouts b' !! normalizeDN dn = Some l
    /\ accounts_for m d (history_of G (normalizeDN dn)) l.
Proof.
  intros Hg. pose proof Hg as [Hr He [Ha Hd] Hl Hn]. unfold GetAccountLockout. set (key := normalizeDN dn).
  destruct (accountLockouts b !! key) as [l|] eqn:E; [exists l, b; auto |].
  do 2 eexists. split; [reflexivity |]. rewrite Ha, Hd. cbn [accountLockouts set_lockouts]. rewrite lookup_insert_eq.
  split_and!; [| done | by apply Hn]. constructor; cbn; try done.
  - intros key' l [[<- <-]|[_ Hs]]%lookup_insert_Some; auto.
  - intros key' [Hs _]%lookup_insert_None. auto.
Qed.

(** An event of one name, together with the change of its lockout. *)
Lemma guards_note m d b0 G b dn e f :
  guards m d b0 G b ->
  (forall l, accounts_for m d (history_of G (normalizeDN dn)) l -> accounts_for m d (e :: history_of G (normalizeDN dn)) (f l)) ->
  guards m d b0 (noted (normalizeDN dn) e G) (on_lockout f dn b).
Proof.
  intros Hg Hf. unfold on_lockout. destruct (guards_get m d b0 G b dn Hg) as (l & b' & -> & [Hr He Hlim Hl Hn] & Hlk & Hacc).
  constructor; cbn; try done.
  - intros key' l' [[<- <-]|[Hne Hs]]%lookup_insert_Some; rewrite history_noted; [rewrite decide_True by done; auto |].
    rewrite decide_False by done. auto.
  - intros key' [Hs Hne]%lookup_insert_None. rewrite history_noted, decide_False by done. auto.
Qed.

Lemma Bind_root store dn password b b' : rootDN b = rootDN b' /\ rootPW b = rootPW b' -> Bind store dn password b = Bind store dn password b'.
Proof. intros [E1 E2]. unfold Bind, verifyRootPassword. by rewrite E1, E2. Qed.

Lemma step_unlock m d b0 G b dn : guards m d b0 G b -> guards m d b0 (noted (normalizeDN dn) Unlocked G) (UnlockAccount dn b).
Proof.
  intros [Hr He Hlim Hl Hn]. constructor; cbn; try done.
  - intros key l. rewrite history_noted. destruct (decide (normalizeDN dn = key)) as [<-|Hne]; [| rewrite lookup_alter_ne by done; apply Hl].
    rewrite lookup_alter_eq. intros (l0 & E & ->)%fmap_Some. by apply accounts_unlock, Hl.
  - intros key. rewrite history_noted. destruct (decide (normalizeDN dn = key)) as [<-|Hne]; [| rewrite lookup_alter_ne by done; apply Hn].
    rewrite lookup_alter_eq. intros E%fmap_None. apply (accounts_unlock _ _ _ _ (Hn _ E)).
Qed.

(** One step of a handler. *)
Lemma auth_step m d b0 o G P b :
  0 < m -> 0 <= d < 2 ^ 63 -> guards m d b0 G b -> match o with AFinish _ _ now => 0 < now | _ => True end ->
  exists r G' b' P', auth_exec o (b, P) = (r, (b', P')) /\ auth_spec m d b0 o (G, P) = (r, (G', P')) /\ guards m d b0 G' b'.
Proof.
  intros Hm Hd Hg Ht. destruct o as [id now req|id store now|dn]; cbn [auth_exec auth_spec].
  - unfold serve_bind_check. destruct (IsAnonymous req); [by do 4 eexists |].
    unfold IsAccountLocked. rewrite (gd_enabled _ _ _ _ _ Hg). cbn [negb].
    destruct (guards_get m d b0 G b (Name req) Hg) as (l & b' & -> & Hg' & _ & Hacc).
    rewrite (accounts_locked m d _ l now Hd Hacc). destruct (locked_out _ _ _ _); by do 4 eexists.
  - destruct (P !! id) as [req|]; [| by do 4 eexists]. unfold serve_bind_finish.
    rewrite (Bind_root _ _ _ b b0) by apply Hg. destruct (Bind _ _ _ b0) as [[e|]|e| |]; try by do 4 eexists.
    + do 4 eexists. split_and!; [done | done |]. unfold RecordAuthFailure. rewrite (gd_enabled _ _ _ _ _ Hg). cbn [negb].
      apply guards_note; [done |]. intros l Hl. by apply accounts_failure.
    + do 4 eexists. split_and!; [done | done |]. unfold RecordAuthSuccess. rewrite (gd_enabled _ _ _ _ _ Hg). cbn [negb].
      apply guards_note; [done |]. intros l Hl. by apply accounts_success.
  - do 4 eexists. split_and!; [done | done |]. by apply step_unlock.
Qed.

Lemma guards_run os m d b0 G P b :
  0 < m -> 0 <= d < 2 ^ 63 -> guards m d b0 G b -> timed os -> auth_run m d b0 (G, P) (b, P) os.
Proof.
  intros Hm Hd. revert G P b. induction os as [|o os IH]; intros G P b Hg Ht; [done |]. apply Forall_cons in Ht as [Ho Ht].
  destruct (auth_step m d b0 o G P b Hm Hd Hg Ho) as (r & G' & b' & P' & E1 & E2 & Hg'). cbn [auth_run].
  rewrite E1, E2. split; [done |]. by apply IH.
Qed.

Lemma throttled_failure m d now later h :
  0 < m -> throttled m d (failures h) -> locked_out m d now h = false -> now <= later -> throttled m d (failures (Failed later :: h)).
Proof.
  intros Hm Ht Hnot Hl. cbn [failures]. destruct h as [|[t| |] h]; try done. cbn [failures throttled] in *. split; [| done].
  intros Hge. unfold locked_out in Hnot. cbn [last_lock failures] in Hnot. rewrite decide_True in Hnot by done.
  apply orb_false_iff in Hnot as [Hd0%bool_decide_eq_false Hfar%bool_decide_eq_false]. split; [done | lia].
Qed.

(** Requests that do not overlap are throttled. *)
Lemma serial_throttled os m d b0 G P :
  0 < m -> P = ∅ -> serial os -> (forall key, throttled m d (failures (history_of G key))) ->
  forall key, throttled m d (failures (history_of (auth_records m d b0 os (G, P)).1 key)).
Proof.
  intros Hm -> Hs Ht. remember (length os) as n eqn:En. assert (length os <= n)%nat as Hn by lia. clear En. revert os G Hs Ht Hn.
  induction n as [|n IH]; intros os G Hs Ht Hn; [by destruct os; [| cbn in Hn; lia] |].
  destruct os as [|[id now req|id store now|dn] os]; [done | | done |].
  - destruct os as [|[?|id' store later|?] os]; try done. destruct Hs as (-> & Hle & Hs). cbn [length] in Hn.
    unfold auth_records. cbn [foldl auth_spec].
    destruct (IsAnonymous req); [cbn [snd auth_spec]; rewrite lookup_empty; apply IH; [done | done | lia] |].
    destruct (locked_out _ _ _ _) eqn:Elock; [cbn [snd auth_spec]; rewrite lookup_empty; apply IH; [done | done | lia] |].
    cbn [snd auth_spec]. rewrite lookup_insert_eq, delete_insert_eq, delete_empty.
    destruct (Bind _ _ _ b0) as [[e|]|e| |]; (apply IH; [done | | lia]); try done; intros key; rewrite history_noted; case_decide as Hk; try done.
    eapply throttled_failure; [done | apply Ht | exact Elock | done].
  - cbn [auth_records foldl auth_spec snd]. cbn [length] in Hn. apply IH; [done | | lia]. intros key. rewrite history_noted. by case_decide.
Qed.

(** Requests that have all passed the check before any is finished. *)
Definition arrivals (reqs : list (Z * Z * BindRequest)) : list auth_op := (fun '(id, now, req) => AArrive id now req) <$> reqs.
End Lockout.

(** C22: the bind handler of the command, at the granularity of its locks. Whatever steps of the
    handlers of any number of connections interleave (a request arrives and is checked against
    the lockouts; later its password is compared and the result recorded; an administrator
    unlocks a name), with any contents of the engine, every answer is the one the records of the
    name call for: an arriving request is refused exactly when the name is locked, that is for
    [d] (for ever if [d] is 0) after a failure that was at least the [m]-th since the last success
    or unlock, and not unlocked since; otherwise the password decides. When requests do not
    overlap, each being finished before the next arrives, then after [m] failures in a row two
    of them are at least [d] apart, and there are no more if [d] is 0. (Overlapping requests are
    not limited so: [bind_race].) *)
Theorem bind_lockout_refines `{UnicodeTables} `{UpperTable} `{MapIteration} (m d : Z) (root pw : gostring) (os : list auth_op) :
  0 < m -> 0 <= d < 2 ^ 63 -> timed os ->
  let b := mkObaBackend root pw true m d ∅ in
  auth_run m d b (∅, ∅) (b, ∅) os
  /\ (serial os -> forall key, throttled m d (failures (history_of (auth_records m d b os (∅, ∅)).1 key))).
Proof.
  intros Hm Hd Ht b. split; [| intros Hs; by apply serial_throttled].
  apply guards_run; [done | done | | done]. by constructor.
Qed.

(** bind requests that arrive before any of them is finished all pass the check, however many
    they are and however few attempts are allowed: the lockout does not limit the passwords that
    are tried in parallel. *)
Theorem bind_race `{UnicodeTables} `{UpperTable} `{MapIteration} (m d : Z) (root pw : gostring) reqs x :
  0 < m -> 0 <= d < 2 ^ 63 -> Forall (fun '(_, _, req) => IsAnonymous req = false) reqs ->
  let b := mkObaBackend root pw true m d ∅ in
  x = foldl (fun x o => (auth_exec o x).2) (b, ∅) (arrivals reqs) ->
  forall id now req, (id, now, req) ∈ reqs -> is_Some (x.2 !! id).
Proof.
  intros Hm Hd Ha b ->.
  assert (forall G P b', guards m d b G b' -> (forall key, history_of G key = []) ->
    forall id, is_Some (P !! id) \/ id ∈ (fst ∘ fst) <$> reqs ->
    is_Some ((foldl (fun x o => (auth_exec o x).2) (b', P) (arrivals reqs)).2 !! id)) as Hgen.
  { induction Ha as [|[[id now] req] reqs Hreq _ IH]; intros G P b' Hg He i Hi; [destruct Hi as [?|Hi]; [done | set_solver] |].
    cbn [arrivals fmap list_fmap foldl].
    destruct (auth_step m d b (AArrive id now req) G P b' Hm Hd Hg I) as (r & G' & b2 & P' & -> & E2 & Hg').
    cbn [auth_spec] in E2. rewrite Hreq, He in E2. cbn [locked_out last_lock] in E2. injection E2 as <- <- <-. cbn [snd].
    apply (IH G (<[id := req]> P) b2 Hg' He). rewrite fmap_cons, elem_of_cons in Hi. cbn in Hi.
    destruct (decide (i = id)) as [->|Hne]; [left; rewrite lookup_insert_eq; eauto | rewrite lookup_insert_ne by done; tauto]. }
  intros id now req Hin. apply (Hgen ∅); [by constructor | done |].
  right. apply list_elem_of_fmap. by exists (id, now, req).
Qed.

(** ** Policies *)

Section Policies.
Context `{UnicodeClasses}.

(** The class a rune counts for. *)
Inductive rune_class := CUpper | CLower | CDigit | CSpecial | CNone.

Definition class_of (r : Z) : rune_class :=
  if IsUpper r then CUpper else if IsLower r then CLower else if IsDigit r then CDigit
  else if isSpecialChar r then CSpecial else CNone.

#[local] Instance rune_class_eq : EqDecision rune_class.
Proof. solve_decision. Defined.

Definition has_class (c : rune_class) (rs : list Z) : bool := existsb (fun r => bool_decide (class_of r = c)) rs.

Lemma classify_runes rs c :
  foldl classify c rs = mkClasses (hasUpper c || has_class CUpper rs) (hasLower c || has_class CLower rs)
    (hasDigit c || has_class CDigit rs) (hasSpecial c || has_class CSpecial rs).
Proof.
  revert c. induction rs as [|r rs IH]; intros [u l d s]; cbn [foldl has_class existsb]; [by rewrite !orb_false_r |].
  rewrite IH. unfold classify, class_of. fold (has_class CUpper rs) (has_class CLower rs) (has_class CDigit rs) (has_class CSpecial rs).
  destruct (IsUpper r), (IsLower r), (IsDigit r), (isSpecialChar r); cbn; by rewrite ?orb_true_r.
Qed.

Lemma password_classes_spec pw :
  password_classes pw = mkClasses (has_class CUpper (runes pw)) (has_class CLower (runes pw))
    (has_class CDigit (runes pw)) (has_class CSpecial (runes pw)).
Proof. apply classify_runes. Qed.

(** What a policy asks of a password. *)
Definition acceptable (p : Policy) (pw : gostring) : Prop :=
  Enabled p = true ->
  (MinLength p > 0 -> len pw >= MinLength p) /\ (MaxLength p > 0 -> len pw <= MaxLength p)
  /\ (RequireUppercase p = true -> exists r, r ∈ runes pw /\ class_of r = CUpper)
  /\ (RequireLowercase p = true -> exists r, r ∈ runes pw /\ class_of r = CLower)
  /\ (RequireDigit p = true -> exists r, r ∈ runes pw /\ class_of r = CDigit)
  /\ (RequireSpecial p = true -> exists r, r ∈ runes pw /\ class_of r = CSpecial).

Lemma required_class (b : bool) c rs : b && negb (has_class c rs) = false <-> (b = true -> exists r, r ∈ rs /\ class_of r = c).
Proof.
  assert (has_class c rs = true <-> exists r, r ∈ rs /\ class_of r = c) as Hh.
  { unfold has_class. rewrite existsb_exists. split; intros (r & Hr & Hc).
    - exists r. split; [by apply list_elem_of_In | by apply bool_decide_eq_true in Hc].
    - exists r. split; [by apply list_elem_of_In | by apply bool_decide_eq_true]. }
  destruct b, (has_class c rs); cbn; split; intros Hx; try done; intros; try by apply Hh.
  by assert (false = true) by (apply Hh, Hx; done).
Qed.

Lemma Policy_Validate_spec p pw : Policy_Validate p pw = None <-> acceptable p pw.
Proof.
  unfold Policy_Validate, acceptable. destruct (Enabled p); cbn [negb]; [| done]. rewrite password_classes_spec. cbn [hasUpper hasLower hasDigit hasSpecial].
  rewrite <- !required_class. case_decide as H1; [split; [done | intros Hx; destruct (Hx eq_refl); lia] |].
  case_decide as H2; [split; [done | intros Hx; destruct (Hx eq_refl) as (? & ? & _); lia] |].
  destruct (_ && _) eqn:E1; [split; [done | intros Hx; by destruct (Hx eq_refl) as (_ & _ & ? & _)] |].
  destruct (RequireLowercase p && _) eqn:E2; [split; [done | intros Hx; by destruct (Hx eq_refl) as (_ & _ & _ & ? & _)] |].
  destruct (RequireDigit p && _) eqn:E3; [split; [done | intros Hx; by destruct (Hx eq_refl) as (_ & _ & _ & _ & ? & _)] |].
  destruct (RequireSpecial p && _) eqn:E4; [split; [done | intros Hx; by destruct (Hx eq_refl) as (_ & _ & _ & _ & _ & ?)] |].
  split; [| done]. intros _ _. split_and!; try done; lia.
Qed.

(** The three validations of the package agree: the policy's and the validator's return the
    first of all errors, and the two partial checks make up the whole. *)
Theorem validations_agree p pw :
  Policy_Validate p pw = head (GetAllErrors (mkValidator p) pw)
  /\ Validator_Validate (mkValidator p) pw = Policy_Validate p pw
  /\ Policy_Validate p pw = match CheckLength (mkValidator p) pw with Some e => Some e | None => CheckCharacterClasses (mkValidator p) pw end.
Proof.
  split_and!; unfold Policy_Validate, Validator_Validate, GetAllErrors, CheckLength, CheckCharacterClasses; cbn [v_policy]; destruct (Enabled p); cbn [negb]; try done.
  - unfold append_if. repeat (first [case_decide | case_bool_decide | destruct (_ && _)]; try tauto); done.
  - by repeat case_decide.
Qed.
End Policies.

(** ** Password Modify *)

Section PasswordModify.
Context `{UnicodeTables} `{UnicodeClasses} {S : Type}.

Lemma wp_next_field d : wf d -> wp next_field d (fun _ d' => d' = d).
Proof.
  intros Hw. unfold next_field. apply wp_bind. eapply wp_mono; [by apply wp_try_PeekTag |].
  intros [[[c k] n]|e] d' _ ->; by wps.
Qed.

Lemma consumes_read_field req number : consumes (read_field req number).
Proof.
  intros d Hw. unfold read_field. repeat case_decide; apply wp_bind.
  1-3: eapply wp_mono; [by apply consumes_ReadTaggedValue |]; intros [[? ?] ?] d' Ha Ho; wps; cbv beta in Ho; lia.
  eapply wp_mono; [by apply consumes_Skip |]. intros [] d' Ha Ho. wps. cbv beta in Ho. lia.
Qed.

Lemma wp_read_fields d : wf d -> wp read_fields d (fun _ _ => True).
Proof.
  intros Hw. unfold read_fields. wps. rename d' into d1.
  eapply wp_mono; [apply (wp_while (data d1) (fun '(_, stop) d => len (data d) - offset d + (if (stop : bool) then 0 else 1))) |].
  - intros [req stop] d2 Hw2 _ [Hs _]%andb_true_iff. destruct stop; [done |]. cbv beta iota. split; [unfold wf in Hw2; lia |].
    apply wp_bind. eapply wp_mono; [by apply wp_next_field |]. intros [number|] d3 _ ->; [| wps; lia].
    apply wp_bind. eapply wp_mono; [by apply consumes_read_field |]. intros req' d4 Ha Ho. wps. destruct Ha as [-> _]. cbv beta in Ho. lia.
  - eauto with ber.
  - done.
  - unfold loop_fuel, len. assert (wf d1) as Hw1 by eauto with ber. unfold wf, len in Hw1. lia.
  - intros [req stop] d2 Ha _. by wps.
Qed.

Lemma parse_returns value : returns (parsePasswordModifyRequest value).
Proof.
  unfold parsePasswordModifyRequest. case_decide; [done |].
  pose proof (wp_read_fields (NewBERDecoder value) ltac:(unfold wf; cbn; pose proof (len_nonneg value); lia)) as Hwp. unfold wp in Hwp.
  by destruct (read_fields (NewBERDecoder value)) as [[] d].
Qed.

(** Who may change the password of [target] with a request. *)
Definition entitled (config : PasswordModifyConfig S) (bindDN target : gostring) (pmReq : PasswordModifyRequest) (s : S) : Prop :=
  target <> []
  /\ (isAdmin config bindDN = true \/ (server_normalizeDN target = server_normalizeDN bindDN /\ OldPassword pmReq <> []))
  /\ (OldPassword pmReq <> [] -> forall backend, pc_Backend config = Some backend -> pb_VerifyPassword backend target (OldPassword pmReq) s = None).

Lemma may_modify_refuses (config : PasswordModifyConfig S) bindDN target pmReq s resp :
  may_modify config bindDN target pmReq s = Some resp -> or_ResultCode (er_Result resp) <> ResultSuccess.
Proof. unfold may_modify. intros Em. repeat (case_match; simplify_eq; try done). Qed.

Lemma may_modify_entitled (config : PasswordModifyConfig S) bindDN target pmReq s :
  may_modify config bindDN target pmReq s = None <-> entitled config bindDN target pmReq s.
Proof.
  assert (len (OldPassword pmReq) > 0 <-> OldPassword pmReq <> []) as Hold.
  { destruct (OldPassword pmReq); [by cbn; split |]. rewrite len_cons. pose proof (len_nonneg l). split; [done | lia]. }
  unfold may_modify, entitled. destruct (bytes_eqb target []) eqn:E0; [apply bool_decide_eq_true in E0; split; [done | by intros [? _]] |].
  apply bool_decide_eq_false in E0. destruct (bytes_eqb _ (server_normalizeDN bindDN)) eqn:E1;
    [apply bool_decide_eq_true in E1 | apply bool_decide_eq_false in E1]; destruct (isAdmin config bindDN); cbn [negb andb].
  all: try (split; [done | intros (_ & [?|[? _]] & _); done]).
  all: destruct (decide (len (OldPassword pmReq) > 0)) as [Hl|Hl].
  all: try (destruct (pc_Backend config) as [backend|]; [destruct (pb_VerifyPassword backend _ _ _) eqn:Ev |]).
  all: rewrite Hold in Hl; naive_solver.
Qed.
End PasswordModify.

(** The password a request sets, and the value of the response: a password of the caller's is
    taken as it is and not sent back; without one, 16 characters of the generator's alphabet are
    chosen by the random bytes and sent back as the only element of a sequence. *)
Definition new_password (pmReq : PasswordModifyRequest) (random : option bytes) (pw value : bytes) : Prop :=
  (NewPassword pmReq <> [] /\ pw = NewPassword pmReq /\ value = [])
  \/ (NewPassword pmReq = [] /\ pw = generateSecurePassword 16 random /\ length pw = 16%nat /\ Forall (fun c => c ∈ charset) pw
      /\ value = sequence (tlv ClassContextSpecific TypePrimitive 0 pw)).

Lemma charset_at_elem i : 0 <= i -> charset_at i ∈ charset.
Proof.
  intros Hi. apply list_elem_of_In. unfold charset_at. apply nth_In. pose proof (Z.rem_bound_pos i (len charset) Hi) as Hb.
  change (len charset) with 70 in *. change (length charset) with 70%nat. lia.
Qed.

Lemma generated_password random : length (generateSecurePassword 16 random) = 16%nat /\ Forall (fun c => c ∈ charset) (generateSecurePassword 16 random).
Proof.
  unfold generateSecurePassword. destruct random as [bs|]; (split; [done |]); apply Forall_fmap, Forall_forall; intros i _; cbn;
    apply charset_at_elem; [apply bZ_range | lia].
Qed.

Lemma encode_generated pw : length pw = 16%nat -> encodePasswordModifyResponse pw = sequence (tlv ClassContextSpecific TypePrimitive 0 pw).
Proof.
  intros Hl. assert (len pw = 16) as Hn by (unfold len; lia). unfold encodePasswordModifyResponse. rewrite decide_False by lia.
  assert (writes (bracket BeginSequence EndSequence (WriteTaggedValue 0 false pw)) (sequence (tlv ClassContextSpecific TypePrimitive 0 pw))) as Hw.
  { apply (writes_bracket BeginSequence); [apply begins_BeginSequence | apply (writes_WriteTaggedValue 0 false pw); [by vm_compute | lia] |].
    unfold tlv. rewrite !len_app, Hn. by vm_compute. }
  by rewrite (encode_writes _ _ Hw).
Qed.

(** C23: the Password Modify operation returns on any bytes; it reports success, or touches the
    backend, only if TLS is there where it is required, the request parses, the caller is an
    administrator or the owner with an old password, any old password given is verified by the
    backend, and the new password satisfies the rules on length and characters of the effective
    policy of the target (its history is not looked at). The new password is the one in the
    request or, if that has none, one of 16 characters generated from the random bytes, which a
    successful response tells the caller. The backend is then changed by setting that password of
    that target, once; if the backend refuses, the response is no success. *)
Theorem password_modify_safe `{UnicodeTables} `{UnicodeClasses} {S : Type} error_text (config : PasswordModifyConfig S) tls bindDN value random s :
  exists resp s', PasswordModify_Handle error_text config tls bindDN value random s = (Ok resp, s') /\
  (s' <> s \/ or_ResultCode (er_Result resp) = ResultSuccess ->
   (RequireTLS config = true -> tls = true) /\
   exists pmReq pw e, parsePasswordModifyRequest value = Ok pmReq /\
     let target := if decide (len (UserIdentity pmReq) > 0) then UserIdentity pmReq else bindDN in
     entitled config bindDN target pmReq s
     /\ (forall manager, PolicyManager config = Some manager -> acceptable (GetPolicy target manager) pw)
     /\ update_password config target pw s = (e, s')
     /\ (or_ResultCode (er_Result resp) = ResultSuccess <-> e = None)
     /\ exists response, new_password pmReq random pw response /\ (e = None -> er_Value resp = response)).
Proof.
  unfold PasswordModify_Handle. destruct (RequireTLS config && negb tls) eqn:Et; [do 2 eexists; split; [reflexivity |]; naive_solver |].
  pose proof (parse_returns value) as Hret. destruct (parsePasswordModifyRequest value) as [pmReq|e| |] eqn:Ep; try done;
    [| do 2 eexists; split; [reflexivity |]; naive_solver].
  destruct (may_modify _ _ _ _ _) as [resp|] eqn:Em.
  { do 2 eexists. split; [reflexivity |]. intros [?|Hc]; [done |]. by apply may_modify_refuses in Em. }
  apply may_modify_entitled in Em. set (pw := if decide (len (NewPassword pmReq) = 0) then _ else NewPassword pmReq).
  destruct (policy_error _ _ pw) as [e|] eqn:Epol; [do 2 eexists; split; [reflexivity |]; naive_solver |].
  destruct (update_password _ _ pw s) as [[e|] s'] eqn:Eu; (do 2 eexists; split; [reflexivity |]; intros _; split; [by destruct tls, (RequireTLS config) |]).
  all: exists pmReq, pw; eexists; split; [done |]; split_and!; [done | | done | done |].
  1,3: intros manager Hmgr; unfold policy_error in Epol; rewrite Hmgr in Epol; by apply Policy_Validate_spec.
  all: subst pw; unfold new_password; destruct (NewPassword pmReq) as [|c l] eqn:En.
  1,3: destruct (generated_password random); eexists; (split; [right; by split_and! |]); intros; try done; by apply encode_generated.
  all: rewrite !decide_False by (rewrite len_cons; pose proof (len_nonneg l); lia); eexists; (split; [left; by split_and! | done]).
Qed.

(** ** Concrete runs *)

Module AuthExample.
#[local] Instance tables : UnicodeTables := {| lower_unicode s := s; fold_unicode s t := bytes_eqb s t |}.
#[local] Instance upper : UpperTable := fun s => s.
#[local] Instance classes : UnicodeClasses := {| upper_rune r := false; lower_rune r := false; digit_rune r := false |}.
#[local] Instance order : MapIteration := {| range K _ _ V m := map_to_list m; range_perm K _ _ V m := reflexivity _ |}.

Definition name : gostring := str "cn=a,dc=x".
Definition entry : StorageEntry := mkStorageEntry name {[ str "userpassword" := [SchemeCleartext ++ str "secret"] ]}.

(** The engine after a committed transaction has added the entry. *)
Definition engine : outcome ObaDB :=
  d ← EngineExample.start;
  match (t ← Begin EngineExample.random; Put EngineExample.limit EngineExample.random (Some t) (Some entry) ;;
         Engine_Commit EngineExample.random (Some t)) d with
  | (Ok _, d) => Ok d
  | _ => Panic
  end.

(** [Begin] and [Get] of the engine. *)
Definition store : EntryStore :=
  mkEntryStore None (fun dn => d ← engine; ((t ← Begin EngineExample.random; Engine_Get (Some t) dn) d).1).

Definition request (dn password : string) : BindRequest := mkBindRequest 3 (str dn) AuthMethodSimple (str password) None.

Fixpoint answers (os : list auth_op) (x : ObaBackend * gmap Z BindRequest) : list (outcome OperationResult) :=
  match os with
  | [] => []
  | o :: os => let '(r, x) := auth_exec o x in match r with Some r => r :: answers os x | None => answers os x end
  end.

Definition backend (m d : Z) : ObaBackend := mkObaBackend [] [] true m d ∅.

(** A request whose handler is not interrupted. *)
Definition bind (now : Z) (dn password : string) : list auth_op := [AArrive 1 now (request dn password); AFinish 1 store now].

Definition session : list auth_op :=
  bind 5 "cn=a,dc=x" "wrong" ++ bind 6 "CN=A,DC=X" "wrong" ++ bind 9 "cn=a,dc=x" "secret" ++ bind 17 "cn=a,dc=x" "secret"
  ++ [AUnlock name] ++ bind 18 "" "".

(** With one attempt allowed, three requests pass the check together. *)
Definition race : list auth_op :=
  [AArrive 1 5 (request "cn=a,dc=x" "wrong"); AArrive 2 5 (request "cn=a,dc=x" "guess"); AArrive 3 5 (request "cn=a,dc=x" "secret");
   AFinish 1 store 6; AFinish 2 store 7; AFinish 3 store 8; AArrive 4 9 (request "cn=a,dc=x" "secret")].
End AuthExample.

Lemma bind_lockout_refines_witness :
  AuthExample.answers AuthExample.session (AuthExample.backend 2 10, ∅)
    = [Ok invalid_credentials; Ok invalid_credentials; Ok locked_result; Ok success; Ok success]
  /\ AuthExample.answers AuthExample.race (AuthExample.backend 1 10, ∅)
    = [Ok invalid_credentials; Ok invalid_credentials; Ok success; Ok locked_result]
  /\ @auth_run AuthExample.tables AuthExample.upper AuthExample.order 2 10 (AuthExample.backend 2 10) (∅, ∅) (AuthExample.backend 2 10, ∅) AuthExample.session
  /\ @auth_run AuthExample.tables AuthExample.upper AuthExample.order 1 10 (AuthExample.backend 1 10) (∅, ∅) (AuthExample.backend 1 10, ∅) AuthExample.race
  /\ forall key, throttled 2 10 (failures (history_of (@auth_records AuthExample.tables AuthExample.upper AuthExample.order 2 10
       (AuthExample.backend 2 10) AuthExample.session (∅, ∅)).1 key)).
Proof.
  assert (timed AuthExample.session) as H1 by (repeat constructor; done).
  assert (timed AuthExample.race) as H2 by (repeat constructor; done).
  destruct (@bind_lockout_refines AuthExample.tables AuthExample.upper AuthExample.order 2 10 [] [] AuthExample.session) as [Hr Ht]; [lia | lia | exact H1 |].
  destruct (@bind_lockout_refines AuthExample.tables AuthExample.upper AuthExample.order 1 10 [] [] AuthExample.race) as [Hr2 _]; [lia | lia | exact H2 |].
  split; [vm_compute; reflexivity |]. split; [vm_compute; reflexivity |]. split; [exact Hr |]. split; [exact Hr2 |].
  apply Ht. unfold AuthExample.session, AuthExample.bind. cbn [serial app]. lia.
Defined.

(** The lockout goes by the spelling of the name and the engine does not: an account that is
    locked for ever is open under a name with a space. *)
Theorem lockout_alias_open :
  AuthExample.answers (AuthExample.bind 5 "cn=a,dc=x" "wrong" ++ AuthExample.bind 6 "cn=a,dc=x" "secret" ++ AuthExample.bind 7 "cn= a,dc=x" "secret")
    (AuthExample.backend 1 0, ∅)
  = [Ok invalid_credentials; Ok locked_result; Ok success].
Proof. vm_compute. reflexivity. Qed.

(** A lockout that is over, and after which the user has logged in, comes back for ever when
    the administrator makes lockouts permanent: a success does not clear the time of the lock. *)
Theorem lockout_revived :
  let b := (foldl (fun x o => (@auth_exec AuthExample.tables AuthExample.upper AuthExample.order o x).2) (AuthExample.backend 1 10, ∅)
             (AuthExample.bind 5 "cn=a,dc=x" "wrong" ++ AuthExample.bind 20 "cn=a,dc=x" "secret")).1 in
  FailureCount <$> accountLockouts b !! AuthExample.name = Some 0
  /\ (@IsAccountLocked AuthExample.tables AuthExample.name 30 b).1 = false
  /\ (@IsAccountLocked AuthExample.tables AuthExample.name 30 (SetRateLimitConfig true 1 0 b)).1 = true.
Proof. vm_compute. done. Qed.

(** A password the server generates itself need not satisfy the policy, and then the request
    is refused; the password used when there are no random bytes never satisfies the default. *)
Theorem generated_password_refused :
  let config := mkPasswordModifyConfig (S := unit) None (Some (NewManager None)) [AuthExample.name] false in
  let code random := (fun r => or_ResultCode (er_Result r)) <$>
    match (@PasswordModify_Handle AuthExample.tables AuthExample.classes unit (fun _ => []) config true AuthExample.name [] random tt).1 with
    | Ok r => Some r
    | _ => None
    end in
  code None = Some ResultConstraintViolation /\ code (Some (repeat x05 16)) = Some ResultConstraintViolation.
Proof. vm_compute. done. Qed.
